(* ===== verification/_CoqProject ===== *)
-Q . S2P
Prelude.v
Snowflake.v
Timeline.v
Ids.v
Unique.v
Event.v
EventContent.v
EventAuth.v
AuthFacts.v
AuthTotal.v
StateRes.v
StateResFacts.v
RoomState.v
RoomStateFacts.v
RoomCache.v
RoomProc.v
RoomProcFacts.v
Rcs.v
RcsFacts.v
PushRules.v
Push.v
PushFacts.v
RoomTables.v
RoomRows.v
DbPipeline.v
DbPipelineFacts.v
DbDelivery.v
RoomQuery.v
Backfill.v
BackfillFacts.v
SendRec.v
FedQueue.v
FedQueueFacts.v
CanonJson.v
CanonBytes.v
CanonText.v
CanonJsonFacts.v
Signing.v
SigningFacts.v
SigningModel.v
KeyRing.v
KeyRingFacts.v
StateResp.v
KeyRingModel.v
TimelineRepo.v
RepoLines.v
Loader.v
SyncHistory.v
SyncHistoryFacts.v
Receipts.v
ReceiptConsumer.v
ReceiptFacts.v
ReceiptDelivery.v
SyncRoomState.v
SyncRoomStateFacts.v
SyncStates.v
SyncBuild.v
SyncBuildFacts.v
SyncSessions.v
RoomMessages.v
RoomMessagesFacts.v
SyncPaging.v
EventContext.v
EventContextFacts.v
DeviceStream.v
DeviceFacts.v
UserRooms.v
SyncMng.v
SyncMngFacts.v
SyncRuns.v
SyncRequests.v
SyncServers.v
