(* ===== verification/Prelude.v ===== *)
(** * Ligase: a verification library for the core of a Matrix home server

    Ligase (under [src/]) is a Matrix home server in Go.  Clients and other servers
    send events; the room server authorises each event against the state of
    its room, applies it, numbers it, stores it and sends it on to the sync servers
    and to federation; rooms of two people are routed through the RCS server; the sync
    servers answer the clients.  This library translates that core into Rocq
    definitions that can be run, and proves what makes it correct.

    ** How the parts fit together

    An event arrives in [processInput] ([RoomProc]).  For a create or member event
    of a direct room the RCS server ([Rcs]) is asked which events to process
    instead.  The room is loaded by the repository ([RoomState]) from the cache or
    the database, [Allowed] ([EventAuth]) checks the event against it through the
    interface [AuthEventProvider], [onEvent] ([RoomState]) applies it,
    [updateRoomStateExt] ([RoomProc]) gives it depth, domain offset and output offset
    with the help of the identifier generator ([Snowflake]), and [postProcessNew]
    stores it and sends it on.  The events of each domain of a room are kept in ring
    buffers ([Timeline]).  State resolution ([StateRes]) uses the same
    authorisation through its own provider.

    What is stored goes through a queue of database updates ([DbPipeline]) into the
    tables ([RoomTables]), which the queries ([RoomQuery]) and the backfill of other
    servers ([Backfill]) read.  Events for other servers wait in a queue per
    destination ([FedQueue]) whose progress is kept in send records ([SendRec]).  Events
    travel as canonical JSON ([CanonJson]), signed ([Signing]) with keys that the key
    ring fetches and checks ([KeyRing]); the state a server sends to a joining one is
    checked on arrival ([StateResp]).

    The sync server keeps the last events of each room ([SyncHistory]), its state and
    who may see which part of its history ([SyncRoomState], [SyncStates]) and the read
    receipts ([Receipts]) in timelines that are loaded on first use ([TimelineRepo],
    [Loader]).  From them it answers a sync ([SyncBuild]) and, together with its table
    of events, the pages of the history ([RoomMessages]), counts unread messages and
    pushes notifications ([Push]).  A client talks to an aggregator, which knows the
    rooms of its user and what its tokens stand for ([UserRooms]); it works out which
    rooms have something new, asks the sync server of each, waits while there is
    nothing, and gives the reply a token ([SyncMng]).

    ** Files

    - [Prelude]: outcomes of Go code ([res]: value, error, panic, divergence), the
      state and error monad [ST], machine integers, sorting, ranging over maps in an
      unknown order ([GoRange]), tactics and the hint database [ligase].
    - [Snowflake]: [common/uid/snowflake.go].
    - [Timeline]: [model/feedstypes/timeline.go], the ring buffer of feeds.
    - [Ids]: identifiers and domains ([common/utils/utils.go],
      [common/domain/domainMng.go], [adapter/adapter.go],
      [rcsserver/processors/util.go]).
    - [Unique]: [skunkworks/gomatrixutil/unique.go].
    - [Event], [EventContent], [EventAuth]: [event.go], [eventcontent.go] and
      [eventauth.go] of [skunkworks/gomatrixserverlib], with [common/events.go].
      [AuthFacts] and [AuthTotal] hold their theorems.
    - [StateRes], [StateResFacts]: [stateresolution.go] of the same library.
    - [CanonJson], [CanonBytes], [CanonText], [CanonJsonFacts]: [json.go] of the same
      library: the code, the byte strings it works on, the texts it accepts, the
      theorems.
    - [Signing], [SigningFacts], [SigningModel]: [signing.go], [eventcrypto.go] and
      [redactevent.go]; the last file gives concrete instances of the parameters.
    - [KeyRing], [KeyRingFacts], [KeyRingModel], [StateResp]: [keyring.go], [keys.go]
      and [federationtypes.go].
    - [RoomState], [RoomStateFacts], [RoomCache]: [model/repos/roomserverStateRepo.go].
    - [RoomProc], [RoomProcFacts]: [roomserver/processors/eventProcessor.go] and
      [model/repos/roomserverUserMembershipRepo.go].
    - [RoomTables], [RoomRows]: [storage/implements/roomserver].  [DbPipeline],
      [DbPipelineFacts], [DbDelivery]: [dbupdates] and the saving through the queue.
    - [RoomQuery]: [roomserver/processors/roomQryProcessor.go].  [Backfill],
      [BackfillFacts]: [federation/fedbackfill].
    - [SendRec]: [federation/model/repos/sendRecRepo.go] with its Redis scripts and
      table.  [FedQueue], [FedQueueFacts]: [federation/fedsender].
    - [Rcs], [RcsFacts]: [rcsserver/processors/event_processor.go],
      [rcsserver/rpc/event.go] and the friendship table of
      [storage/implements/rcs_server].
    - [PushRules]: [pushapi/routing/baserules.go] and the assembly of a user's rules
      in [pushapi/routing/push_rules.go].  [Push], [PushFacts]: the evaluation of
      the rules in [syncserver/consumers/push.go], with
      [model/repos/readCountRepo.go] and [model/repos/eventReadStreamRepo.go].
    - [TimelineRepo]: [model/repos/lru.go] and [timelineRepo.go].  [Loader]: the
      loading on demand that the repositories of the sync server share.
    - [SyncHistory], [SyncHistoryFacts]: [model/repos/roomHistoryTimelineRepo.go].
    - [Receipts], [ReceiptConsumer], [ReceiptFacts], [ReceiptDelivery]:
      [model/repos/userReceiptRepo.go] and [receiptDataStreamRepo.go], their tables,
      [syncserver/consumers/receipt.go] and [addReceipt] of [syncServer.go].
    - [SyncRoomState], [SyncRoomStateFacts]: [model/repos/roomStateRepo.go].
      [SyncStates]: [model/repos/roomStateTimelineRepo.go].
    - [SyncBuild], [SyncBuildFacts], [SyncSessions]:
      [syncserver/consumers/syncServer.go].  [RoomMessages], [RoomMessagesFacts]:
      [syncserver/api/roomMessages.go] and its queries; [SyncPaging] joins them with
      the syncs.  [EventContext], [EventContextFacts]:
      [syncserver/api/roomEventContext.go].
    - [RepoLines]: timelines changed in place.  [DeviceStream], [DeviceFacts]: messages
      to devices ([model/repos/stdEventStreamRepo.go], its table, the handlers and the
      sync in [syncaggregate]).
    - [UserRooms]: [model/repos/userTimeLineRepo.go], the tokens in [cache/token.go] and
      the consumer of feeds in [syncaggregate/consumers/consumer.go].  [SyncMng],
      [SyncMngFacts], [SyncRuns]: [syncaggregate/sync].
    - [SyncRequests]: what [syncServer.go] does with a request before it builds the
      reply.  [SyncServers]: what its answers promise, and aggregator and sync servers
      together.

    ** What the theorems show

    The conditions are in the statements; what follows names the ones that matter.

    - Authorisation: for events other than creations it reads only the state
      [StateNeededForAuth] lists; member events follow an inductive set of rules, in
      both directions; over existing power levels nobody is raised above the sender;
      a banned user cannot join; the check returns for every event ([AuthTotal]).
    - State resolution: it does not depend on the order of the conflicting events,
      keeps one event for each type and state key, and keeps bans.
    - Canonical JSON: two texts (a text is what gjson and encoding/json accept:
      literals are [true], [false], [null] and numbers) have the same canonical form
      exactly when they have the same value, strings being sequences of characters; the
      conversion ends on every input.
    - Signatures: signing then verifying succeeds, redaction keeps the members it
      should and the signature; the key ring accepts only events that every server
      concerned has signed with a key that is published: in keys with the name and the
      signature of the server, which the server answered or a perspective server
      vouched for.
    - Room state: every sequence of events with their state keys leaves a well-formed
      state without a panic; what a member event does to each user; stale remote state
      is ignored; a state whose events pass [CheckFields] survives its export to the
      cache and the checks on loading it.
    - Event processing: an event that is refused writes nothing; numbering is
      monotone; what is stored is what is sent; a batch stops at its first error.
    - Database: the update queue writes everything once, in order; saving through it
      ends in the same tables as saving directly.
    - Federation: a backfill asked of the domain of the inviting event ends with its
      events; the queue of a destination with one goroutine drains; the three copies of
      a send record stay one record.
    - Direct rooms: an event changes the friendships of its own room and pair only,
      memberships follow the transition table, and two servers that created a room for
      the same pair keep the one with the smaller identifier.
    - Timelines: the ring buffer refines a window over the feeds added to it, the
      repository of timelines is a bounded map; waiting for a load ends.
    - Sync: history visibility is enforced while the room is shared or for its members;
      a reply holds what the user may see of the events in memory, and successive
      replies leave no gap in these; paging back from a reply delivers the rest of the
      history; the context of an event is what surrounds it; a receipt reaches the
      members of a room when it is fired, and survives a restart once it is written;
      messages to devices arrive once while few wait.
    - Aggregation: a token that says a room was sent up to an offset was reached by
      answers of the sync server ([processSync]) whose timelines were sent, over any
      number of syncs ([SyncServers.tokens_true]), and for rooms in memory such an
      answer leaves nothing out ([SyncServers.server_keeps_promise]); a turn of the
      waiting loop ends the wait exactly when a room has something to ask, another
      stream has news or the time is over; a request to load rooms is answered in time.
    - Identifiers: increasing as long as the clock moves on; the 4096th of one
      millisecond is the first one again.
    - Push notifications: a user's rules are ranked by kind and priority, the first
      matching rule and no other acts, and an event changes the unread counts of its
      room and member only, by one.
    - Where the code does not do what it means to, a theorem on a concrete run shows
      it (a second ban lifts the ban, a repeated create event empties the room, the
      cache keeps state without its timestamp, a reply from a room that was not in
      memory has a gap, a receipt that is superseded is lost, and others).

    ** Modelling choices

    - Pure functions are functions, code with state is written in the monad [ST],
      fallible code returns [res].  A nil dereference, an index out of range and an
      explicit panic are [Panic].
    - Go maps are finite maps; where code ranges over one, the order is the class
      [GoRange], so the theorems hold for every order.  [sync.Map] is a map: the
      interleaving of workers on one room is excluded by the room locks of the code.
    - [int64] values are [Z]; [wrap64] is written where a value can overflow.
    - Where code shares an object through pointers and a claim depends on it, the model
      has a store: the ranges of [SyncRoomState] are indices into a list, the items of a
      timeline are changed in their slots.
    - Loops that do not follow a list take fuel: the wait of [Snowflake.Next] and
      [getOutEventOffset] consume one reading of the clock per turn and the readings
      are the fuel, and so does the wait of [Loader.CheckLoadReady]; [Timeline.Expanse]
      doubles a size, [compact] and the parser of [CanonText] consume their input, and
      their fuel is shown to be enough; the loop of [Backfill] takes as fuel a number
      of requests that its theorem bounds.  Running out of fuel is [Diverge], which no
      theorem counts as success.
    - Goroutines are explicit steps: the workers of [DbPipeline] and [FedQueue] are
      scheduled by the theorems, those of [Loader] run where the code sleeps.
    - Code outside the repository is a parameter: the JSON library ([Codec], [GJson],
      [JsonLib], [ContentJson], [ReceiptJson]), the regular expressions, the state
      machine library ([GoFSM]), Ed25519, SHA-256 and SHA-1.  Cache and database are
      interfaces, or tables whose connection can fail at every call; the Redis of the
      aggregator is the class [Redis] with the laws [LawfulRedis].  The sync servers it
      asks are the class [Servers], of which [SyncRuns] relies only on the form of the
      answers ([SaneServers]); [SyncServers] puts [processSync] in its place.
    - Logging, metrics, tracing and contexts are left out.

    ** Not modelled

    HTTP and RPC plumbing, the statements and Redis commands of the other servers,
    generated codecs, and start-up code.  Still to do: the alias processor of the room
    server, the other consumers of the sync server (typing, presence, profiles), its
    requests for the state of a room, what the aggregator adds to a reply from streams
    other than rooms and messages to devices (account data, presence, device lists), its
    sort of rooms by depth, and the load-balancing selectors. *)

From Stdlib Require Import String Ascii ZArith List Sorted Permutation.
From stdpp Require Import base tactics list gmap strings.

#[local] Open Scope Z_scope.

(** ** Outcomes of Go code

    A Go function of the repository returns a value, returns an [error], or
    panics (a nil dereference, an index out of range, an explicit [panic]), or
    never returns (a loop whose condition stays true: fuel ran out).  [res A]
    has one constructor per outcome, so that a theorem about a result also says
    that the code returned and did not panic. *)

Inductive goerr :=
  | ErrNotAllowed (msg : string)   (** gomatrixserverlib's [NotAllowed] *)
  | ErrMsg (msg : string)          (** [errors.New], [fmt.Errorf] and library errors *)
  | ErrNoRows.                     (** [sql.ErrNoRows] *)

Inductive res (A : Type) :=
  | Ok (a : A)
  | Err (e : goerr)
  | Panic
  | Diverge.

Arguments Ok {A} a.
Arguments Err {A} e.
Arguments Panic {A}.
Arguments Diverge {A}.

#[export] Instance goerr_eq_dec : EqDecision goerr.
Proof. solve_decision. Defined.

#[export] Instance res_eq_dec {A} `{EqDecision A} : EqDecision (res A).
Proof. solve_decision. Defined.

#[export] Instance res_ret : MRet res := fun A a => Ok a.

#[export] Instance res_bind : MBind res := fun A B f m =>
  match m with
  | Ok a => f a
  | Err e => Err e
  | Panic => Panic
  | Diverge => Diverge
  end.

(** [if err != nil { return err }] on a value that is already an outcome. *)
Definition isOk {A} (r : res A) : bool :=
  match r with Ok _ => true | _ => false end.

(** Dereferencing a Go pointer: [nil] panics. *)
Definition deref {A} (p : option A) : res A :=
  match p with Some a => Ok a | None => Panic end.

(** ** Stateful code

    Code that changes a state [S] and can fail: the changes made before an error
    stay. *)
Definition ST (S A : Type) : Type := S -> res A * S.

#[export] Instance ST_ret {S} : MRet (ST S) := fun A a s => (Ok a, s).
#[export] Instance ST_bind {S} : MBind (ST S) := fun A B f m s =>
  match m s with
  | (Ok a, s1) => f a s1
  | (Err e, s1) => (Err e, s1)
  | (Panic, s1) => (Panic, s1)
  | (Diverge, s1) => (Diverge, s1)
  end.

Definition liftR {S A} (r : res A) : ST S A := fun s => (r, s).
Definition fail {S A} (e : goerr) : ST S A := liftR (Err e).

(** ** Machine integers *)

(** Go's [int64] (and [int] on the 64-bit targets the repository builds for). *)
Definition wrap64 (z : Z) : Z := (z + 2^63) mod 2^64 - 2^63.

Definition in64 (z : Z) : Prop := -2^63 <= z < 2^63.

(** ** Strings as the code uses them *)

(** [strings.SplitN(s, c, 2)] when it has two parts: what is before and after
    the first [c]. *)
Fixpoint cut_at (c : ascii) (s : string) : option (string * string) :=
  match s with
  | EmptyString => None
  | String d s' =>
      if Ascii.eqb d c then Some (EmptyString, s')
      else match cut_at c s' with
           | Some (a, b) => Some (String d a, b)
           | None => None
           end
  end.

(** [strings.Contains(s, sub)]. *)
Fixpoint str_contains (sub s : string) : bool :=
  String.prefix sub s ||
  match s with
  | EmptyString => false
  | String _ s' => str_contains sub s'
  end.

(** Go compares strings byte by byte, as [String.ltb] does. *)
Definition str_ltb (a b : string) : bool := String.ltb a b.

(** ** Sorting

    [sort.Sort] and [sort.Slice] promise an ascending permutation and nothing
    about equal elements.  [gosort] is one such function; where the order is
    strict on the input every sort gives the same list ([sorted_perm_unique]). *)
Section Sort.
  Context {A : Type} (leb : A -> A -> bool).

Fixpoint sort_insert (x : A) (l : list A) : list A :=
  match l with
  | [] => [x]
  | y :: ys => if leb x y then x :: y :: ys else y :: sort_insert x ys
  end.

Fixpoint gosort (l : list A) : list A :=
  match l with
  | [] => []
  | x :: xs => sort_insert x (gosort xs)
  end.

End Sort.

(** ** Ranging over a Go map

    [for k, v := range m] visits every entry once, in an order the runtime
    chooses.  Code that ranges over a map takes that order as a parameter, so
    what is proved holds for every order. *)
Class GoRange := {
  range : forall {A : Type}, gmap string A -> list (string * A);
  range_perm : forall (A : Type) (m : gmap string A), Permutation (range m) (map_to_list m);
}.

(** One order: the one of [map_to_list]. *)
#[global] Instance list_range : GoRange.
Proof. refine {| range := fun A m => map_to_list m |}. by intros. Defined.

(** ** Automation *)

Create HintDb ligase discriminated.

(** Case analysis on the scrutinee of a [match] or [if] of the goal. *)
Ltac break_match :=
  match goal with
  | |- context [match ?x with _ => _ end] =>
      match x with
      | context [match _ with _ => _ end] => fail 1
      | _ => destruct x eqn:?
      end
  end.

Ltac break_match_hyp H :=
  match type of H with
  | context [match ?x with _ => _ end] =>
      match x with
      | context [match _ with _ => _ end] => fail 1
      | _ => destruct x eqn:?
      end
  end.

(** Invert equations between outcomes. *)
Ltac inv_res :=
  repeat match goal with
  | H : Ok _ = Ok _ |- _ => injection H; clear H; intros; subst
  | H : @eq (res _) _ _ |- _ => discriminate H
  end.

(** ** Shared lemmas *)

Lemma bind_Ok {A B} (m : res A) (f : A -> res B) b :
  m ≫= f = Ok b <-> exists a, m = Ok a /\ f a = Ok b.
Proof. destruct m; cbn; naive_solver. Qed.

(** The code returned: it neither panicked nor ran forever. *)
Definition returns {A} (r : res A) : Prop :=
  match r with Ok _ | Err _ => True | Panic | Diverge => False end.

Lemma returns_bind {A B} (m : res A) (f : A -> res B) :
  returns m -> (forall a, m = Ok a -> returns (f a)) -> returns (m ≫= f).
Proof. destruct m; cbn; auto. Qed.

Section StateFacts.
  Context {S A B : Type} (m : ST S A) (f : A -> ST S B).

Lemma ST_bind_Ok s a s1 : m s = (Ok a, s1) -> (m ≫= f) s = f a s1.
Proof using. intros E. unfold mbind, ST_bind. by rewrite E. Qed.

Lemma ST_bind_Err s e s1 : m s = (Err e, s1) -> (m ≫= f) s = (Err e, s1).
Proof using. intros E. unfold mbind, ST_bind. by rewrite E. Qed.

Lemma ST_bind_inv s b s2 :
  (m ≫= f) s = (Ok b, s2) -> exists a s1, m s = (Ok a, s1) /\ f a s1 = (Ok b, s2).
Proof using. unfold mbind, ST_bind. destruct (m s) as [[a|e| |] s1]; naive_solver. Qed.

End StateFacts.

Lemma wrap64_id z : in64 z -> wrap64 z = z.
Proof. unfold in64, wrap64. intros H. rewrite Z.mod_small; lia. Qed.

Lemma wrap64_in64 z : in64 (wrap64 z).
Proof.
  unfold in64, wrap64. pose proof (Z.mod_pos_bound (z + 2^63) (2^64)). lia.
Qed.

Lemma cut_at_spec c s a b :
  cut_at c s = Some (a, b) -> s = (a ++ String c b)%string.
Proof.
  revert a b. induction s as [|d s IH]; simpl; intros a b H; [discriminate|].
  destruct (Ascii.eqb_spec d c) as [->|].
  - by injection H as <- <-.
  - destruct (cut_at c s) as [[a' b']|] eqn:E; [|discriminate].
    injection H as <- <-. simpl. by rewrite (IH a' b').
Qed.

Lemma range_elem `{GoRange} {A} (m : gmap string A) k v :
  (k, v) ∈ range m <-> m !! k = Some v.
Proof. by rewrite range_perm, elem_of_map_to_list. Qed.

Section SortFacts.
  Context {A : Type} (leb : A -> A -> bool).
  Context (leb_total : forall x y, leb x y = true \/ leb y x = true).
  Context (leb_trans : forall x y z, leb x y = true -> leb y z = true -> leb x z = true).

Lemma sort_insert_perm x l : Permutation (x :: l) (sort_insert leb x l).
Proof using.
  induction l as [|y ys IH]; simpl; [done|].
  destruct (leb x y); [done|].
  rewrite perm_swap. by rewrite IH.
Qed.

Lemma gosort_perm l : Permutation l (gosort leb l).
Proof using.
  induction l as [|x xs IH]; simpl; [done|].
  by rewrite <- sort_insert_perm, <- IH.
Qed.

Lemma sort_insert_sorted x l :
  StronglySorted (fun a b => leb a b = true) l ->
  StronglySorted (fun a b => leb a b = true) (sort_insert leb x l).
Proof using leb_total leb_trans.
  induction l as [|y ys IH]; simpl; intros H.
  { repeat constructor. }
  inversion H as [|? ? Hys Hall]; subst.
  destruct (leb x y) eqn:E.
  - constructor; [done|]. constructor; [done|].
    eapply Forall_impl; [exact Hall|]. simpl. eauto.
  - constructor; [auto|].
    eapply Permutation_Forall; [apply sort_insert_perm|].
    constructor; [|done].
    destruct (leb_total x y) as [?|?]; congruence.
Qed.

Lemma gosort_sorted l : StronglySorted (fun a b => leb a b = true) (gosort leb l).
Proof using leb_total leb_trans.
  induction l; simpl; [constructor|]. by apply sort_insert_sorted.
Qed.

Lemma gosort_sorted_id l :
  StronglySorted (fun a b => leb a b = true) l -> gosort leb l = l.
Proof using.
  induction 1 as [|x xs Hs IH Hall]; simpl; [done|]. rewrite IH.
  destruct xs as [|y ys]; simpl; [done|].
  apply Forall_inv in Hall. by rewrite Hall.
Qed.

(** Two ascending permutations of one list are equal when equal keys mean
    equal elements. *)
Lemma sorted_perm_unique l1 l2 :
  (forall x y, x ∈ l1 -> y ∈ l1 -> leb x y = true -> leb y x = true -> x = y) ->
  StronglySorted (fun a b => leb a b = true) l1 ->
  StronglySorted (fun a b => leb a b = true) l2 ->
  Permutation l1 l2 -> l1 = l2.
Proof using.
  intros Hanti H1. revert l2. induction H1 as [|x xs Hs IH Hall]; intros l2 H2 HP.
  { by apply Permutation_nil in HP. }
  destruct H2 as [|y ys Hs2 Hall2].
  { by apply Permutation_sym, Permutation_nil in HP. }
  assert (x = y) as ->.
  { assert (Hx : x ∈ y :: ys) by (rewrite <- HP; left).
    assert (Hy : y ∈ x :: xs) by (rewrite HP; left).
    apply elem_of_cons in Hx as [->|Hx]; [done|].
    apply elem_of_cons in Hy as [->|Hy]; [done|].
    rewrite Forall_forall in Hall. rewrite Forall_forall in Hall2.
    apply Hanti; [left|by right| |]; [by apply Hall|by apply Hall2]. }
  f_equal. apply IH; [|done|by apply Permutation_cons_inv in HP].
  intros a b Ha Hb. apply Hanti; by right.
Qed.

End SortFacts.
