(* ===== verification/Snowflake.v ===== *)
(** * The id generator ([src/common/uid/snowflake.go])

    [UidGenerator] hands out 64-bit ids made of a millisecond timestamp, a
    sequence number and a worker id.  Every event number ([EventNID]), stream
    offset and device id of the server comes from it.

    [time.Now().UnixNano()] is an input: [Next] takes the list of clock
    readings (in nanoseconds) the process will see and returns what is left of
    it.  [None] means that the readings ran out while the code was still
    waiting for the clock. *)

From Stdlib Require Import ZArith List Sorted.
From stdpp Require Import base tactics list.
From S2P Require Import Prelude.

#[local] Open Scope Z_scope.

Module Snowflake.

Definition BaseTs : Z := 1530687318000.
Definition SeqLen : Z := 12.
Definition WorkerLen : Z := 10.
Definition SeqMask : Z := Z.shiftl 1 SeqLen - 1.
Definition TsShift : Z := SeqLen + WorkerLen.
Definition SeqShift : Z := WorkerLen.
Definition MaxWorkId : Z := Z.shiftl 1 WorkerLen - 1.

Record UidGenerator := mkGen {
  idStart : Z;
  idEnd : Z;
  idCur : Z;
  lastTs : Z;
  seq : Z;
}.

(** [NewIdGenerator]: the out-of-range arguments panic. *)
Definition NewIdGenerator (start end_ : Z) : res UidGenerator :=
  if (start >? MaxWorkId) || (start <? 0) || (end_ >? MaxWorkId) || (end_ <? 0)
     || (start >? end_)
  then Panic
  else Ok (mkGen start end_ start (-1) 0).

Definition NewDefaultIdGenerator (instanceID : Z) : res UidGenerator :=
  let start := if negb (instanceID =? -1) then instanceID else 0 in
  let end_ := if negb (instanceID =? -1) then instanceID else 0 in
  if (start >? MaxWorkId) || (start <? 0) || (end_ >? MaxWorkId) || (end_ <? 0)
     || (start >? end_)
  then Panic
  else Ok (mkGen start end_ start (-1) 0).

(** [getMs]: one clock reading in milliseconds (Go's [/] truncates). *)
Definition getMs (ns : Z) : Z := Z.quot ns 1000000.

(** The wait loop of [Next]: read the clock until it is past [cur]. *)
Fixpoint waitSlot (cur : Z) (clk : list Z) : option (Z * list Z) :=
  match clk with
  | [] => None
  | now :: clk' => if now >? cur then Some (Z.quot now 1000000, clk') else waitSlot cur clk'
  end.

(** The id layout [(now-BaseTs)<<TsShift | seq<<SeqShift | idCur] in [int64]. *)
Definition mkId (now seq_ cur : Z) : Z :=
  Z.lor (Z.lor (wrap64 (Z.shiftl (wrap64 (now - BaseTs)) TsShift))
               (wrap64 (Z.shiftl seq_ SeqShift)))
        cur.

(** The branches of [Next] after the clock has been read: the new timestamp,
    sequence number and worker id. *)
Definition advance (g : UidGenerator) (now : Z) (clk : list Z) : option (Z * Z * Z * list Z) :=
  if now =? lastTs g then
    let seq' := Z.rem (seq g + 1) SeqMask in
    if seq' =? 0 then
      if idCur g <? idEnd g then Some (now, seq', idCur g + 1, clk)
      else
        let cur := lastTs g * 1000000 in
        match waitSlot cur clk with
        | Some (now', clk') => Some (now', 0, idStart g, clk')
        | None => None
        end
    else Some (now, seq', idCur g, clk)
  else Some (now, 0, idStart g, clk).

(** [Next]. *)
Definition Next (g : UidGenerator) (clk : list Z) : option (Z * UidGenerator * list Z) :=
  match clk with
  | [] => None
  | t :: clk1 =>
      let now := getMs t in
      (* a clock behind [lastTs] makes the caller sleep and read again *)
      match (if now <? lastTs g
             then match clk1 with [] => None | t' :: clk2 => Some (getMs t', clk2) end
             else Some (now, clk1)) with
      | None => None
      | Some (now, clk2) =>
          match advance g now clk2 with
          | None => None
          | Some (now', seq', cur', clk3) =>
              Some (mkId now' seq' cur', mkGen (idStart g) (idEnd g) cur' now' seq', clk3)
          end
      end
  end.

(** [n] successive calls. *)
Fixpoint nexts (n : nat) (g : UidGenerator) (clk : list Z) : option (list Z * UidGenerator * list Z) :=
  match n with
  | O => Some ([], g, clk)
  | S n' =>
      match Next g clk with
      | None => None
      | Some (id, g1, clk1) =>
          match nexts n' g1 clk1 with
          | None => None
          | Some (ids, g2, clk2) => Some (id :: ids, g2, clk2)
          end
      end
  end.

(** Reading an id back. *)
Definition idTs (id : Z) : Z := Z.shiftr id TsShift + BaseTs.
Definition idSeq (id : Z) : Z := Z.land (Z.shiftr id SeqShift) SeqMask.
Definition idWorker (id : Z) : Z := Z.land id MaxWorkId.

(** The timestamps the 42-bit field can hold without touching the sign bit. *)
Definition epoch (ms : Z) : Prop := BaseTs <= ms < BaseTs + 2^41.

(** How many readings fall into one millisecond. *)
Definition inSlot (ms : Z) (clk : list Z) : nat :=
  length (filter (fun t => getMs t = ms) clk).

(** ** Facts about the layout *)

Lemma lor_add_disjoint a b n :
  0 <= n -> 0 <= b < 2^n -> Z.lor (Z.shiftl a n) b = a * 2^n + b.
Proof.
  intros Hn Hb. rewrite <- Z.shiftl_mul_pow2 by lia.
  rewrite <- Z.add_lor_land.
  assert (Z.land (Z.shiftl a n) b = 0) as ->; [|lia].
  apply Z.bits_inj'. intros i Hi.
  rewrite Z.land_spec, Z.bits_0, Z.shiftl_spec by lia.
  destruct (Z.ltb_spec i n).
  - by rewrite Z.testbit_neg_r by lia.
  - rewrite <- (Z.mod_small b (2^n)), Z.mod_pow2_bits_high by lia. by rewrite andb_false_r.
Qed.

Lemma mkId_value now s w :
  epoch now -> 0 <= s < 2^12 -> 0 <= w < 2^10 ->
  mkId now s w = (now - BaseTs) * 2^22 + s * 2^10 + w.
Proof.
  unfold epoch, mkId. intros Ht Hs Hw.
  change TsShift with 22. change SeqShift with 10.
  assert (E1 : wrap64 (now - BaseTs) = now - BaseTs).
  { apply wrap64_id. unfold in64. lia. }
  assert (E2 : wrap64 (Z.shiftl s 10) = Z.shiftl s 10).
  { apply wrap64_id. unfold in64. rewrite Z.shiftl_mul_pow2 by lia. lia. }
  assert (E3 : wrap64 (Z.shiftl (now - BaseTs) 22) = Z.shiftl (now - BaseTs) 22).
  { apply wrap64_id. unfold in64. rewrite Z.shiftl_mul_pow2 by lia. lia. }
  rewrite E1, E2, E3.
  rewrite <- Z.lor_assoc.
  rewrite (lor_add_disjoint s w 10) by lia.
  rewrite lor_add_disjoint by lia. lia.
Qed.

Lemma getMs_mono a b : a <= b -> getMs a <= getMs b.
Proof. unfold getMs. intros. apply Z.quot_le_mono; lia. Qed.

Lemma waitSlot_sorted cur clk now clk' :
  waitSlot cur clk = Some (now, clk') -> exists pre t, clk = pre ++ t :: clk' /\ now = getMs t /\ cur < t.
Proof.
  revert now. induction clk as [|t clk IH]; simpl; intros now H; [discriminate|].
  destruct (Z.gtb_spec t cur).
  - injection H as <- <-. exists [], t. repeat split; lia.
  - destruct (IH _ H) as (pre & t' & -> & -> & ?). by exists (t :: pre), t'.
Qed.

Lemma inSlot_cons_eq t clk : inSlot (getMs t) (t :: clk) = S (inSlot (getMs t) clk).
Proof. unfold inSlot. rewrite filter_cons_True; done. Qed.

Lemma inSlot_cons_le ms t clk : (inSlot ms clk <= inSlot ms (t :: clk))%nat.
Proof. unfold inSlot. rewrite filter_cons. case_decide; simpl; lia. Qed.

(** One call that stays within the [SeqMask] ids of a millisecond: it consumes
    one reading and its (timestamp, sequence) pair grows. *)
Lemma Next_in_budget g t clk :
  idStart g = idCur g -> 0 <= seq g < SeqMask -> lastTs g <= getMs t ->
  (getMs t = lastTs g -> seq g + 1 < SeqMask) ->
  exists s', Next g (t :: clk) =
      Some (mkId (getMs t) s' (idStart g), mkGen (idStart g) (idEnd g) (idStart g) (getMs t) s', clk)
    /\ (getMs t = lastTs g /\ s' = seq g + 1 \/ lastTs g < getMs t /\ s' = 0).
Proof.
  intros Hst Hseq Hge Hb. unfold Next.
  destruct (Z.ltb_spec (getMs t) (lastTs g)); [lia|].
  unfold advance. destruct (Z.eqb_spec (getMs t) (lastTs g)) as [E|E].
  - specialize (Hb E). rewrite Z.rem_small by lia.
    destruct (Z.eqb_spec (seq g + 1) 0); [lia|].
    rewrite <- Hst. exists (seq g + 1). split; [done|]. by left.
  - exists 0. split; [done|]. right. split; [lia|done].
Qed.

Lemma nexts_S n g clk id g1 clk1 ids g2 clk2 :
  Next g clk = Some (id, g1, clk1) -> nexts n g1 clk1 = Some (ids, g2, clk2) ->
  nexts (S n) g clk = Some (id :: ids, g2, clk2).
Proof. intros H1 H2. unfold nexts; fold nexts. by rewrite H1, H2. Qed.

Lemma nexts_increasing_gen n g clk :
  idStart g = idCur g -> 0 <= idStart g <= MaxWorkId -> 0 <= seq g < SeqMask ->
  StronglySorted Z.le clk -> Forall (fun t => epoch (getMs t) /\ lastTs g <= getMs t) clk ->
  (forall ms, (inSlot ms clk <= Z.to_nat SeqMask)%nat) ->
  seq g + 1 + Z.of_nat (inSlot (lastTs g) clk) <= SeqMask ->
  (n <= length clk)%nat ->
  exists ids g' clk', nexts n g clk = Some (ids, g', clk') /\ length ids = n /\
    StronglySorted Z.lt ids /\
    (epoch (lastTs g) -> Forall (Z.lt (mkId (lastTs g) (seq g) (idStart g))) ids).
Proof.
  revert g clk. induction n as [|n IH]; intros g clk Hst Hw Hseq Hsorted Hall Hslot Hbud Hlen.
  { exists [], g, clk. simpl. repeat split; constructor. }
  destruct clk as [|t clk]; simpl in Hlen; [lia|].
  inversion Hsorted as [|? ? Hs' Hle]; subst.
  inversion Hall as [|? ? [Hep Hge] Hall']; subst.
  destruct (Next_in_budget g t clk) as (s' & HN & Hcase); [done|done|done| |].
  { intros E. rewrite <- E in Hbud. rewrite inSlot_cons_eq in Hbud. lia. }
  set (g1 := mkGen (idStart g) (idEnd g) (idStart g) (getMs t) s') in *.
  assert (Hs1 : 0 <= s' < SeqMask).
  { destruct Hcase as [[E ->]|[E ->]]; [|split; [lia|by compute]].
    rewrite <- E in Hbud. rewrite inSlot_cons_eq in Hbud. lia. }
  assert (Hrange : 0 <= s' < 2^12) by (change SeqMask with 4095 in Hs1; lia).
  destruct (IH g1 clk) as (ids & g' & clk' & HR & Hl & HSS & Hlt); try done.
  { apply Forall_forall. intros x Hx.
    rewrite Forall_forall in Hall', Hle. destruct (Hall' x Hx) as [? _].
    split; [done|]. apply getMs_mono. by apply Hle. }
  { intros ms. pose proof (inSlot_cons_le ms t clk). specialize (Hslot ms). lia. }
  { cbn [lastTs seq g1]. destruct Hcase as [[E Hs2]|[E Hs2]]; rewrite Hs2.
    - rewrite <- E in Hbud. rewrite inSlot_cons_eq in Hbud. lia.
    - specialize (Hslot (getMs t)). rewrite inSlot_cons_eq in Hslot.
      change SeqMask with 4095 in *. lia. }
  { lia. }
  exists (mkId (getMs t) s' (idStart g) :: ids), g', clk'.
  change MaxWorkId with 1023 in Hw.
  split; [by eapply nexts_S|]. split; [simpl; by rewrite Hl|].
  specialize (Hlt Hep). simpl in Hlt.
  split; [by constructor|]. intros Hep0.
  assert (Hstep : mkId (lastTs g) (seq g) (idStart g) < mkId (getMs t) s' (idStart g)).
  { change SeqMask with 4095 in *.
    rewrite !mkId_value by (try done; lia). destruct Hcase as [[-> ->]|[E ->]]; lia. }
  constructor; [done|]. eapply Forall_impl; [exact Hlt|]. simpl. lia.
Qed.

(** ** Properties *)

(** ids are unique and ordered.  A generator made by [NewDefaultIdGenerator]
    that is called [n] times while the clock does not go back, stays in the
    42-bit epoch and shows at most [SeqMask] (4095) readings per millisecond
    returns [n] ids without waiting, each strictly greater than the one before. *)
Theorem nexts_increasing instanceID g n clk :
  NewDefaultIdGenerator instanceID = Ok g ->
  StronglySorted Z.le clk -> Forall (fun t => epoch (getMs t)) clk ->
  (forall ms, (inSlot ms clk <= Z.to_nat SeqMask)%nat) ->
  (n <= length clk)%nat ->
  exists ids g' clk', nexts n g clk = Some (ids, g', clk') /\ length ids = n /\
    StronglySorted Z.lt ids.
Proof.
  unfold NewDefaultIdGenerator. intros Hg Hs Hep Hslot Hn.
  destruct (_ || _) eqn:Hb in Hg; [discriminate|]. injection Hg as <-.
  rewrite !orb_false_iff in Hb. destruct Hb as [[[[H1 H2] H3] H4] H5].
  rewrite Z.gtb_ltb, Z.ltb_ge in H1. rewrite Z.ltb_ge in H2.
  match goal with |- context [nexts n ?g0 clk] => set (g := g0) in * end.
  assert (Hz : inSlot (-1) clk = O).
  { unfold inSlot. clear -Hep. induction Hep as [|t clk Ht _ IH]; [done|].
    rewrite filter_cons_False; [done|]. unfold epoch, BaseTs in Ht. lia. }
  destruct (nexts_increasing_gen n g clk) as (ids & g' & clk' & HR & Hl & HSS & _);
    subst g; simpl; try done.
  - eapply Forall_impl; [exact Hep|]. intros t Ht. simpl. split; [done|].
    unfold epoch, BaseTs in Ht. lia.
  - rewrite Hz. by compute.
  - by exists ids, g', clk'.
Qed.

(** the three fields of an id do not overlap: for a timestamp of the epoch,
    a 12-bit sequence number and a 10-bit worker id, [idTs], [idSeq] and
    [idWorker] read back what [mkId] put in, and the id is a non-negative int64. *)
Theorem mkId_fields now s w :
  epoch now -> 0 <= s < 2^SeqLen -> 0 <= w < 2^WorkerLen ->
  idTs (mkId now s w) = now /\ idSeq (mkId now s w) = s /\ idWorker (mkId now s w) = w /\
  0 <= mkId now s w < 2^63.
Proof.
  change SeqLen with 12. change WorkerLen with 10. intros Ht Hs Hw.
  unfold idTs, idSeq, idWorker. rewrite mkId_value by done.
  change TsShift with 22. change SeqShift with 10.
  change SeqMask with (Z.ones 12). change MaxWorkId with (Z.ones 10).
  rewrite !Z.land_ones, !Z.shiftr_div_pow2 by lia.
  unfold epoch in Ht. set (d := now - BaseTs) in *.
  replace (d * 2 ^ 22 + s * 2 ^ 10 + w) with ((d * 2^12 + s) * 2^10 + w) at 2 by lia.
  replace (d * 2 ^ 22 + s * 2 ^ 10 + w) with ((d * 2^12 + s) * 2^10 + w) at 2 by lia.
  replace (d * 2 ^ 22 + s * 2 ^ 10 + w) with (d * 2^22 + (s * 2^10 + w)) at 1 by lia.
  repeat split.
  - rewrite Z.div_add_l, Z.div_small by lia. lia.
  - rewrite Z.div_add_l, (Z.div_small w), Z.add_0_r by lia.
    rewrite Z.add_comm, Z.mod_add by lia. by apply Z.mod_small.
  - rewrite Z.add_comm, Z.mod_add by lia. by apply Z.mod_small.
  - lia.
  - lia.
Qed.

(** A generator with one worker id, as [NewDefaultIdGenerator] makes it. *)
Definition oneWorker (g : UidGenerator) : Prop := idCur g = idStart g /\ idEnd g = idStart g.

Lemma Next_oneWorker g clk id g1 clk1 : oneWorker g -> Next g clk = Some (id, g1, clk1) ->
  oneWorker g1 /\ idStart g1 = idStart g.
Proof.
  intros [Hc He]. assert (Hadv : forall now c now' s' cur' c', advance g now c = Some (now', s', cur', c') -> cur' = idStart g).
  { intros now c now' s' cur' c'. unfold advance. rewrite Hc, He, Z.ltb_irrefl. repeat case_match; by intros [= <- <- <- <-]. }
  unfold Next. destruct clk as [|t clk]; [done|]. destruct (if _ <? _ then _ else _) as [[now c]|]; [|done].
  destruct (advance g now c) as [[[[now' s'] cur'] c']|] eqn:E; [|done]. apply Hadv in E as ->. intros [= _ <- _].
  done.
Qed.

Lemma nexts_oneWorker n g clk ids g1 clk1 : oneWorker g -> nexts n g clk = Some (ids, g1, clk1) -> oneWorker g1.
Proof.
  revert g clk ids. induction n as [|n IH]; intros g clk ids Hg; cbn [nexts]; [by intros [= <- <- <-]|].
  destruct (Next g clk) as [[[id g2] clk2]|] eqn:E; [|done]. destruct (Next_oneWorker _ _ _ _ _ Hg E) as [Hg2 _].
  destruct (nexts n g2 clk2) as [[[ids2 g3] clk3]|] eqn:E2; [|done]. intros [= <- <- <-]. by eapply IH.
Qed.

(** The calls after the first one in a millisecond use one reading and one sequence
    number each. *)
Lemma nexts_same_ms ms pre clk : forall g, lastTs g = ms -> 0 <= seq g -> seq g + Z.of_nat (length pre) < SeqMask ->
  Forall (fun t => getMs t = ms) pre ->
  exists ids, nexts (length pre) g (pre ++ clk) =
    Some (ids, mkGen (idStart g) (idEnd g) (idCur g) ms (seq g + Z.of_nat (length pre)), clk).
Proof.
  induction pre as [|t pre IH]; intros g Hl H0 Hs Hall; cbn [length app].
  { exists []. cbn. rewrite Z.add_0_r. by destruct g as [? ? ? ? ?]; cbn in *; subst. }
  apply Forall_cons in Hall as [Ht Hall]. cbn [length] in Hs. set (g1 := mkGen (idStart g) (idEnd g) (idCur g) ms (seq g + 1)).
  assert (E : Next g (t :: pre ++ clk) = Some (mkId ms (seq g + 1) (idCur g), g1, (pre ++ clk)%list)).
  { unfold Next. rewrite Ht, Hl, Z.ltb_irrefl. unfold advance. rewrite Hl, Z.eqb_refl, Z.rem_small by lia.
    by rewrite (proj2 (Z.eqb_neq (seq g + 1) 0)) by lia. }
  destruct (IH g1) as [ids Hids]; [done|cbn; lia|cbn; lia|done|]. eexists. erewrite nexts_S by done. do 3 f_equal.
  unfold g1. cbn [seq idStart idEnd idCur]. f_equal. lia.
Qed.

Lemma nexts_app m n g clk ids g1 clk1 ids2 g2 clk2 :
  nexts m g clk = Some (ids, g1, clk1) -> nexts n g1 clk1 = Some (ids2, g2, clk2) ->
  nexts (m + n) g clk = Some ((ids ++ ids2)%list, g2, clk2).
Proof.
  revert g clk ids. induction m as [|m IH]; intros g clk ids; cbn [nexts Nat.add]; [by intros [= <- <- <-]|].
  destruct (Next g clk) as [[[id g3] clk3]|]; [|done]. destruct (nexts m g3 clk3) as [[[ids3 g4] clk4]|] eqn:E; [|done].
  intros [= <- <- <-] E2. by erewrite IH.
Qed.

(** C36: the wait loop does not leave the millisecond.  A generator of the server
    (with one worker id) that has been used in any way and then is called 4096 times
    in one later millisecond gives the last call the identifier of the first: after
    4095 calls the sequence numbers are used up, and [Next] compares the clock in
    nanoseconds with the start of the same millisecond, so that any reading inside it
    ([wake]) ends the wait. *)
Theorem Next_reissues_first_id instanceID g n clk0 ids0 g0 readings wake clk ms :
  NewDefaultIdGenerator instanceID = Ok g ->
  nexts n g clk0 = Some (ids0, g0, (readings ++ wake :: clk)%list) -> lastTs g0 < ms ->
  length readings = 4096%nat -> Forall (fun t => getMs t = ms) readings -> getMs wake = ms -> ms * 1000000 < wake ->
  exists id ids g1, nexts 4096 g0 (readings ++ wake :: clk) = Some ((id :: ids) ++ [id], g1, clk)%list.
Proof.
  intros Hg Hrun Hlt Hlen Hall Hw Hgt.
  assert (Hone : oneWorker g0).
  { eapply nexts_oneWorker; [|exact Hrun]. unfold NewDefaultIdGenerator in Hg. destruct (_ || _) in Hg; [done|]. by injection Hg as <-. }
  destruct readings as [|t pre]; [done|]. destruct pre as [|t1 pre1 _] using rev_ind; [done|].
  rewrite Forall_cons, Forall_app, Forall_singleton in Hall. destruct Hall as (Ht & Hpre & Ht1).
  cbn [length] in Hlen. rewrite length_app in Hlen. cbn [length] in Hlen.
  set (g1 := mkGen (idStart g0) (idEnd g0) (idStart g0) ms 0).
  assert (E0 : forall rest, Next g0 (t :: rest) = Some (mkId ms 0 (idStart g0), g1, rest)).
  { intros rest. unfold Next. rewrite Ht. destruct (Z.ltb_spec ms (lastTs g0)); [lia|]. unfold advance.
    by rewrite (proj2 (Z.eqb_neq ms (lastTs g0))) by lia. }
  destruct (nexts_same_ms ms pre1 (t1 :: wake :: clk) g1) as [ids E1];
    [done|done|cbn [seq g1]; replace (length pre1) with 4094%nat by lia; vm_compute; done|done|].
  replace (length pre1) with 4094%nat in E1 by lia. change (seq g1 + Z.of_nat 4094) with (SeqMask - 1) in E1.
  assert (E2 : exists g3, nexts 1 (mkGen (idStart g1) (idEnd g1) (idCur g1) ms (SeqMask - 1)) (t1 :: wake :: clk) =
                 Some ([mkId ms 0 (idStart g0)], g3, clk)).
  { eexists. cbn [nexts]. unfold Next. rewrite Ht1. cbn [lastTs]. rewrite Z.ltb_irrefl. unfold advance. cbn [lastTs seq idCur idEnd idStart g1].
    rewrite Z.eqb_refl. change (Z.rem (SeqMask - 1 + 1) SeqMask =? 0) with true. cbv iota.
    destruct Hone as [_ ->]. rewrite Z.ltb_irrefl. cbn [waitSlot]. destruct (Z.gtb_spec wake (ms * 1000000)); [|lia].
    fold (getMs wake). by rewrite Hw. }
  destruct E2 as [g3 E2]. exists (mkId ms 0 (idStart g0)), ids, g3.
  change 4096%nat with (1 + (4094 + 1))%nat. rewrite <- app_comm_cons, <- (assoc app). cbn [app].
  exact (nexts_S (4094 + 1) _ _ _ _ _ _ _ _ (E0 _) (nexts_app 4094 1 _ _ _ _ _ _ _ _ E1 E2)).
Qed.

(** ** Witnesses *)

Lemma nexts_increasing_witness :
  exists g, NewDefaultIdGenerator 3 = Ok g /\
  exists ids g' clk',
    nexts 3 g [1600000000000000000; 1600000000000000500; 1600000000002000000] = Some (ids, g', clk')
    /\ length ids = 3%nat /\ StronglySorted Z.lt ids.
Proof.
  eexists. split; [reflexivity|].
  apply (nexts_increasing 3); [reflexivity| | | |].
  - repeat constructor; lia.
  - repeat constructor; vm_compute; congruence.
  - intros ms. change (Z.to_nat SeqMask) with 4095%nat. unfold inSlot.
    etransitivity; [apply length_filter|]. simpl. lia.
  - simpl. lia.
Defined.

Lemma mkId_fields_witness :
  idTs (mkId 1600000000000 7 3) = 1600000000000 /\ idSeq (mkId 1600000000000 7 3) = 7 /\
  idWorker (mkId 1600000000000 7 3) = 3 /\ 0 <= mkId 1600000000000 7 3 < 2^63.
Proof. apply mkId_fields; [split; vm_compute; congruence|vm_compute; split; congruence|vm_compute; split; congruence]. Defined.

Lemma Next_reissues_first_id_witness :
  exists id ids g1, nexts 4096 (mkGen 3 3 3 1600000000000 0) (replicate 4096 1600000001000000000 ++ [1600000001000000500]) =
    Some ((id :: ids) ++ [id], g1, [])%list.
Proof.
  apply (Next_reissues_first_id 3 (mkGen 3 3 3 (-1) 0) 1
    (1600000000000000000 :: replicate 4096 1600000001000000000 ++ [1600000001000000500])
    [mkId 1600000000000 0 3] _ (replicate 4096 1600000001000000000) 1600000001000000500 [] 1600000001000);
    [done|done|done|by rewrite length_replicate|by apply Forall_replicate|done|done].
Defined.

End Snowflake.
