(* ===== verification/Timeline.v ===== *)
(** * Timelines ([src/model/feedstypes/timeline.go])

    A [TimeLines] keeps the feeds of a room, a user or a domain in arrival
    order: a growing array when [limit] is false, a ring buffer of [size] slots
    when it is true.  [lower] and [upper] are the smallest and largest feed
    offset it holds; [ofo] records that a bounded timeline got an out-of-order
    feed, after which [calc] sorts the ring.

    Slot numbers and sizes are [nat] (they count array cells); feed offsets are
    [Z].  An index out of range, a division by a zero [size] and a method call
    on a nil feed are [Panic]. *)

From Stdlib Require Import ZArith List Sorted Permutation.
From stdpp Require Import base tactics list.
From S2P Require Import Prelude.

#[local] Open Scope nat_scope.

(** [feedstypes.Feed]. *)
Class Feed (F : Type) := GetOffset : F -> Z.

Module Timeline.

Section Timeline.
Context {F : Type} `{Feed F}.

Record TimeLines := mkTL {
  size : nat;
  offset : nat;
  limit : bool;
  lower : Z;
  upper : Z;
  data : list (option F);
  ofo : bool;
}.

Definition NewEvTimeLines (size_ : nat) (limit_ : bool) : TimeLines :=
  mkTL size_ 0 limit_ 0 0 (replicate size_ None) false.

(** [tl.data[i % tl.size]]. *)
Definition getFeed (tl : TimeLines) (i : nat) : res (option F) :=
  if size tl =? 0 then Panic
  else match data tl !! (i mod size tl) with Some x => Ok x | None => Panic end.

(** [tl.data[i % tl.size] = x]. *)
Definition putFeed (tl : TimeLines) (i : nat) (x : option F) : res TimeLines :=
  if size tl =? 0 then Panic
  else if i mod size tl <? length (data tl)
       then Ok (mkTL (size tl) (offset tl) (limit tl) (lower tl) (upper tl)
                     (<[i mod size tl := x]> (data tl)) (ofo tl))
       else Panic.

(** [feed.GetOffset()] through the interface. *)
Definition feedOffset (x : option F) : res Z :=
  match x with Some f => Ok (GetOffset f) | None => Panic end.

Definition set_bounds (tl : TimeLines) (lo up : Z) : TimeLines :=
  mkTL (size tl) (offset tl) (limit tl) lo up (data tl) (ofo tl).

Definition set_ofo (tl : TimeLines) (b : bool) : TimeLines :=
  mkTL (size tl) (offset tl) (limit tl) (lower tl) (upper tl) (data tl) b.

Definition set_offset (tl : TimeLines) (o : nat) : TimeLines :=
  mkTL (size tl) o (limit tl) (lower tl) (upper tl) (data tl) (ofo tl).

(** One comparison of the bubble sort of [calc]. *)
Definition sortStep (base j : nat) (tl : TimeLines) : res TimeLines :=
  cur ← getFeed tl (base + j);
  next ← getFeed tl (base + j + 1);
  co ← feedOffset cur;
  no ← feedOffset next;
  if (co >? no)%Z then
    tl1 ← putFeed tl (base + j) next;
    putFeed tl1 (base + j + 1) cur
  else Ok tl.

Fixpoint sortInner (base : nat) (js : list nat) (tl : TimeLines) : res TimeLines :=
  match js with
  | [] => Ok tl
  | j :: js' => tl1 ← sortStep base j tl; sortInner base js' tl1
  end.

Fixpoint sortOuter (base sz : nat) (ks : list nat) (tl : TimeLines) : res TimeLines :=
  match ks with
  | [] => Ok tl
  | i :: ks' => tl1 ← sortInner base (seq 0 (sz - 1 - i)) tl; sortOuter base sz ks' tl1
  end.

(** The two assignments at the end of both branches of [calc]. *)
Definition calcBounds (tl : TimeLines) : res TimeLines :=
  first ← getFeed tl (offset tl - size tl);
  lo ← feedOffset first;
  last ← getFeed tl (offset tl - 1);
  up ← feedOffset last;
  Ok (set_bounds tl lo up).

Definition calc (tl : TimeLines) : res TimeLines :=
  if negb (limit tl) then Ok tl
  else if offset tl <=? size tl then Ok tl
  else if negb (ofo tl) then calcBounds tl
  else
    tl1 ← sortOuter (offset tl - size tl) (size tl) (seq 0 (size tl - 1)) tl;
    calcBounds tl1.

Definition checkOutOfOrder (tl : TimeLines) : res TimeLines :=
  if negb (limit tl) then Ok tl
  else if offset tl <=? 1 then Ok tl
  else
    cur ← getFeed tl (offset tl - 1);
    pre ← getFeed tl (offset tl - 2);
    match cur, pre with
    | Some c, Some p =>
        if negb (ofo tl) && (GetOffset c <? GetOffset p)%Z then Ok (set_ofo tl true) else Ok tl
    | _, _ => Ok tl
    end.

(** The doubling loop of [Expanse]; running out of [fuel] is a loop that never
    ends (only a zero size does that, [Expanse_terminates]). *)
Fixpoint expandLoop (fuel oldsize off : nat) : res nat :=
  match fuel with
  | O => Diverge
  | S fuel' =>
      let newsize := oldsize * 2 in
      if off <? newsize then Ok newsize else expandLoop fuel' newsize off
  end.

Definition Expanse (tl : TimeLines) : res nat :=
  if size tl <=? offset tl then expandLoop (S (offset tl)) (size tl) (offset tl)
  else Ok (size tl).

(** The copy loop of the resize: [newdata[i] = data[i]] for [i < size]. *)
Definition resize (tl : TimeLines) (newsize : nat) : res TimeLines :=
  if (length (data tl) <? size tl) || (newsize <? size tl) then Panic
  else Ok (mkTL newsize (offset tl) (limit tl) (lower tl) (upper tl)
                (take (size tl) (data tl) ++ replicate (newsize - size tl) None) (ofo tl)).

(** [tl.data[tl.offset] = feed], without the modulo. *)
Definition putAt (tl : TimeLines) (i : nat) (x : option F) : res TimeLines :=
  if i <? length (data tl)
  then Ok (mkTL (size tl) (offset tl) (limit tl) (lower tl) (upper tl)
                (<[i := x]> (data tl)) (ofo tl))
  else Panic.

(** The first half of [Add]: store the feed, growing or overwriting. *)
Definition store (tl : TimeLines) (feed : F) : res (TimeLines * option F) :=
  if limit tl then
    remove ← getFeed tl (offset tl);
    tl1 ← putFeed tl (offset tl) (Some feed);
    Ok (set_offset tl1 (offset tl + 1), remove)
  else if offset tl <? size tl then
    tl1 ← putAt tl (offset tl) (Some feed);
    Ok (set_offset tl1 (offset tl + 1), None)
  else
    newsize ← Expanse tl;
    tl1 ← resize tl newsize;
    tl2 ← putAt tl1 (offset tl) (Some feed);
    Ok (set_offset tl2 (offset tl + 1), None).

(** The second half of [Add]: the bounds. *)
Definition rebound (tl : TimeLines) (feed : F) (remove : option F) : res TimeLines :=
  if (lower tl =? 0)%Z then Ok (set_bounds tl (GetOffset feed) (GetOffset feed))
  else
    let off := GetOffset feed in
    let tl1 := if (off <? lower tl)%Z then set_bounds tl off (upper tl)
               else if (off >? upper tl)%Z then set_bounds tl (lower tl) off
               else tl in
    tl2 ← checkOutOfOrder tl1;
    match remove with
    | Some r =>
        if (GetOffset r =? lower tl2)%Z || (GetOffset r =? upper tl2)%Z then calc tl2 else Ok tl2
    | None => Ok tl2
    end.

(** [Add]: a nil feed is logged and ignored. *)
Definition Add (tl : TimeLines) (feed : option F) : res (TimeLines * option F) :=
  match feed with
  | None => Ok (tl, None)
  | Some f =>
      '(tl1, remove) ← store tl f;
      tl2 ← rebound tl1 f remove;
      Ok (tl2, remove)
  end.

Definition GetRange (tl : TimeLines) : nat * nat :=
  if offset tl <? size tl then (0, offset tl) else (offset tl - size tl, offset tl).

Definition GetFeedRange (tl : TimeLines) : Z * Z := (lower tl, upper tl).

(** [for i := start; i < end; i++ { res = append(res, tl.getFeed(i)) }]. *)
Fixpoint collect (tl : TimeLines) (ks : list nat) : res (list (option F)) :=
  match ks with
  | [] => Ok []
  | i :: ks' => x ← getFeed tl i; xs ← collect tl ks'; Ok (x :: xs)
  end.

Definition GetAllFeeds (tl : TimeLines) : res (list (option F) * nat * nat * Z * Z) :=
  let '(start, end_) := GetRange tl in
  if end_ <=? start then Ok ([], start, end_, lower tl, upper tl)
  else
    fs ← collect tl (seq start (end_ - start));
    Ok (fs, start, end_, lower tl, upper tl).

Definition GetAllFeedsReverse (tl : TimeLines) : res (list (option F) * nat * nat * Z * Z) :=
  let '(start, end_) := GetRange tl in
  if end_ <=? start then Ok ([], start, end_, lower tl, upper tl)
  else
    fs ← collect tl (reverse (seq start (end_ - start)));
    Ok (fs, start, end_, lower tl, upper tl).

(** The filtering loop of [GetFeeds]. *)
Fixpoint collectIn (tl : TimeLines) (lo up : Z) (ks : list nat) : res (list (option F)) :=
  match ks with
  | [] => Ok []
  | i :: ks' =>
      v ← getFeed tl i;
      o ← feedOffset v;
      xs ← collectIn tl lo up ks';
      Ok (if (lo <=? o)%Z && (o <=? up)%Z then v :: xs else xs)
  end.

Definition GetFeeds (tl : TimeLines) (fromPos endPos : Z) : res (list (option F) * nat * nat * Z * Z) :=
  let '(start, end_) := GetRange tl in
  if end_ <=? start then Ok ([], start, end_, lower tl, upper tl)
  else if (0 <? fromPos)%Z && (0 <? endPos)%Z && (endPos <=? fromPos)%Z
  then Ok ([], start, end_, lower tl, upper tl)
  else
    let lowerPos := if (fromPos >? lower tl)%Z && (fromPos <? upper tl)%Z then fromPos else lower tl in
    let upperPos := if (0 <? endPos)%Z && (endPos <? upper tl)%Z then endPos else upper tl in
    fs ← collectIn tl lowerPos upperPos (seq start (end_ - start));
    Ok (fs, start, end_, lower tl, upper tl).

(** [ForRange] and [ForRangeReverse]: the callback threads a state [S] and
    stops the walk by returning false. *)
Fixpoint walk {S} (tl : TimeLines) (f : S -> nat -> option F -> S * bool) (ks : list nat) (s : S) : res S :=
  match ks with
  | [] => Ok s
  | i :: ks' =>
      feed ← getFeed tl i;
      let '(s', go) := f s i feed in
      if go then walk tl f ks' s' else Ok s'
  end.

Definition ForRange {S} (tl : TimeLines) (f : S -> nat -> option F -> S * bool) (s : S) : res S :=
  let '(start, end_) := GetRange tl in walk tl f (seq start (end_ - start)) s.

Definition ForRangeReverse {S} (tl : TimeLines) (f : S -> nat -> option F -> S * bool) (s : S) : res S :=
  let '(start, end_) := GetRange tl in walk tl f (reverse (seq start (end_ - start))) s.

(** ** The abstract timeline

    [Rep tl l]: [tl] is well formed and holds exactly the feeds [l], oldest
    first.  [window] is what a bounded timeline promises after an [Add]. *)
Record Rep (tl : TimeLines) (l : list F) : Prop := {
  rep_size : 0 < size tl;
  rep_len : length (data tl) = size tl;
  rep_unl : limit tl = false -> offset tl <= size tl;
  rep_n : length l = min (offset tl) (size tl);
  rep_at : forall k x, l !! k = Some x ->
             data tl !! ((offset tl - size tl + k) mod size tl) = Some (Some x);
  rep_free : forall i, offset tl <= i < size tl -> data tl !! i = Some None;
}.

Definition window (tl : TimeLines) (l : list F) (f : F) : list F :=
  (if limit tl && (size tl <=? length l) then drop 1 l else l) ++ [f].

Definition evicted (tl : TimeLines) (l : list F) : option F :=
  if limit tl && (size tl <=? length l) then head l else None.

(** [lower] and [upper] are the extreme offsets, 0 for an empty timeline. *)
Definition Bounds (tl : TimeLines) (l : list F) : Prop :=
  match l with
  | [] => lower tl = 0%Z /\ upper tl = 0%Z
  | _ => (exists x, x ∈ l /\ GetOffset x = lower tl) /\ (exists y, y ∈ l /\ GetOffset y = upper tl)
         /\ Forall (fun z => (0 < GetOffset z)%Z /\ (lower tl <= GetOffset z <= upper tl)%Z) l
  end.

(** A bounded timeline that saw no out-of-order feed is ascending. *)
Definition Ordered (tl : TimeLines) (l : list F) : Prop :=
  limit tl = true -> ofo tl = false -> StronglySorted (fun a b => (GetOffset a <= GetOffset b)%Z) l.

(** The bubble sort on the abstract list. *)
Definition swapStep (l : list F) (j : nat) : list F :=
  match l !! j, l !! S j with
  | Some a, Some b => if (GetOffset a >? GetOffset b)%Z then <[S j := a]> (<[j := b]> l) else l
  | _, _ => l
  end.

Definition bubble (l : list F) : list F :=
  foldl (fun acc i => foldl swapStep acc (seq 0 (length l - 1 - i))) l (seq 0 (length l - 1)).

(** ** The bubble sort sorts *)

Lemma swap_lookup_split (l : list F) j a b :
  l !! j = Some a -> l !! S j = Some b ->
  l = take j l ++ a :: b :: drop (S (S j)) l.
Proof using.
  intros Ha Hb. rewrite <- (take_drop j l) at 1. f_equal.
  rewrite (drop_S _ _ _ Ha). f_equal. by rewrite (drop_S _ _ _ Hb).
Qed.

Lemma swapStep_perm l j : Permutation (swapStep l j) l.
Proof.
  unfold swapStep. destruct (l !! j) as [a|] eqn:Ha; [|done].
  destruct (l !! S j) as [b|] eqn:Hb; [|done].
  destruct (_ >? _)%Z; [|done].
  pose proof (lookup_lt_Some _ _ _ Ha). pose proof (lookup_lt_Some _ _ _ Hb).
  rewrite (swap_lookup_split l j a b Ha Hb) at 1 2.
  rewrite !insert_app_r_alt by (rewrite length_take; lia).
  rewrite !length_take, Nat.min_l by lia.
  replace (j - j) with 0 by lia. replace (S j - j) with 1 by lia. simpl.
  by rewrite perm_swap.
Qed.

Lemma swapStep_length l j : length (swapStep l j) = length l.
Proof. apply Permutation_length, swapStep_perm. Qed.

(** After the inner loop over [0..m-1] slot [m] holds the largest of the first
    [m+1] feeds, and the slots after it are untouched. *)
Lemma pass_spec m l :
  m < length l ->
  let l' := foldl swapStep l (seq 0 m) in
  Permutation l' l /\ (forall k, m < k -> l' !! k = l !! k) /\
  (forall k y, k <= m -> l' !! k = Some y -> exists k0, k0 <= m /\ l !! k0 = Some y) /\
  (exists x, l' !! m = Some x /\ forall k y, k <= m -> l' !! k = Some y -> (GetOffset y <= GetOffset x)%Z).
Proof.
  induction m as [|m IH]; intros Hm l'.
  { subst l'. simpl. split; [done|]. split; [done|]. split; [eauto|].
    destruct (lookup_lt_is_Some_2 l 0 Hm) as [x Hx]. exists x. split; [done|].
    intros k y Hk Hy. replace k with 0 in Hy by lia. rewrite Hx in Hy. injection Hy as <-. lia. }
  destruct IH as (HP & Hafter & Hfrom & x & Hx & Hmax); [lia|].
  subst l'. rewrite seq_S, foldl_app. simpl.
  set (l1 := foldl swapStep l (seq 0 m)) in *.
  assert (Hlen : length l1 = length l) by (by apply Permutation_length).
  destruct (lookup_lt_is_Some_2 l1 (S m)) as [b Hb]; [lia|].
  assert (Hb0 : l !! S m = Some b) by (rewrite <- Hafter; [done|lia]).
  split; [by rewrite swapStep_perm|].
  unfold swapStep. rewrite Hx, Hb. destruct (Z.gtb_spec (GetOffset x) (GetOffset b)) as [Hgt|Hle].
  - assert (Hlk : forall k, (<[S m:=x]> (<[m:=b]> l1)) !! k
        = if decide (k = S m) then Some x else if decide (k = m) then Some b else l1 !! k).
    { intros k. destruct (decide (k = S m)) as [->|].
      { apply list_lookup_insert_eq. rewrite length_insert. lia. }
      rewrite list_lookup_insert_ne by done. destruct (decide (k = m)) as [->|].
      { apply list_lookup_insert_eq. lia. }
      by rewrite list_lookup_insert_ne by done. }
    setoid_rewrite Hlk. repeat split.
    + intros k Hk. rewrite !decide_False by lia. apply Hafter. lia.
    + intros k y Hk Hy. destruct (decide (k = S m)) as [->|].
      { injection Hy as <-. destruct (Hfrom m x) as (k0 & ? & ?); [lia|done|]. exists k0. split; [lia|done]. }
      destruct (decide (k = m)) as [->|].
      { injection Hy as <-. exists (S m). split; [lia|done]. }
      destruct (Hfrom k y) as (k0 & ? & ?); [lia|done|]. exists k0. split; [lia|done].
    + exists x. rewrite decide_True by done. split; [done|]. intros k y Hk Hy.
      destruct (decide (k = S m)); [injection Hy as <-; lia|].
      destruct (decide (k = m)); [injection Hy as <-; lia|]. apply (Hmax k); [lia|done].
  - repeat split.
    + intros k Hk. apply Hafter. lia.
    + intros k y Hk Hy. destruct (decide (k = S m)) as [->|]; [exists (S m); split; [lia|congruence]|].
      destruct (Hfrom k y) as (k0 & ? & ?); [lia|done|]. exists k0. split; [lia|done].
    + exists b. split; [done|]. intros k y Hk Hy. destruct (decide (k = S m)) as [->|].
      { rewrite Hb in Hy. injection Hy as <-. lia. }
      specialize (Hmax k y). etransitivity; [apply Hmax; [lia|done]|lia].
Qed.

(** The suffix sorted so far: the last [t] slots dominate everything before. *)
Definition tailSorted (t : nat) (l : list F) : Prop :=
  forall a b x y, a < b -> length l - t <= b -> l !! a = Some x -> l !! b = Some y ->
    (GetOffset x <= GetOffset y)%Z.

Lemma passes_spec t l :
  t <= length l - 1 ->
  let l' := foldl (fun acc i => foldl swapStep acc (seq 0 (length l - 1 - i))) l (seq 0 t) in
  Permutation l' l /\ tailSorted t l'.
Proof.
  induction t as [|t IH]; intros Ht l'.
  { subst l'. simpl. split; [done|]. intros a b x y _ Hb _ Hy.
    apply lookup_lt_Some in Hy. lia. }
  destruct IH as [HP HS]; [lia|]. subst l'. rewrite seq_S, foldl_app. simpl.
  set (l1 := foldl _ l (seq 0 t)) in *.
  assert (Hlen : length l1 = length l) by (by apply Permutation_length).
  destruct (pass_spec (length l - 1 - t) l1) as (HP2 & Hafter & Hfrom & x0 & Hx0 & Hmax); [lia|].
  set (l2 := foldl swapStep l1 _) in *.
  split; [by rewrite HP2|]. intros a b x y Hab Hb Ha Hy.
  assert (Hlen2 : length l2 = length l) by (rewrite (Permutation_length HP2); done).
  rewrite Hlen2 in Hb. destruct (decide (b = length l - 1 - t)) as [->|Hne].
  { rewrite Hx0 in Hy. injection Hy as <-. apply (Hmax a); [lia|done]. }
  rewrite Hafter in Hy by lia. destruct (decide (a <= length l - 1 - t)) as [Hle|Hgt].
  - destruct (Hfrom a x Hle Ha) as (k0 & Hk0 & Hx). apply (HS k0 b); [lia|lia|done|done].
  - rewrite Hafter in Ha by lia. apply (HS a b); [lia|lia|done|done].
Qed.

Lemma StronglySorted_lookup (l : list F) :
  (forall a b x y, a < b -> l !! a = Some x -> l !! b = Some y -> (GetOffset x <= GetOffset y)%Z) ->
  StronglySorted (fun a b => (GetOffset a <= GetOffset b)%Z) l.
Proof.
  induction l as [|z l IH]; intros Hl; constructor.
  - apply IH. intros a b x y Hab Ha Hb. apply (Hl (S a) (S b)); [lia|done|done].
  - apply Forall_lookup. intros i x Hx. apply (Hl 0 (S i)); [lia|done|done].
Qed.

Lemma bubble_sorted l :
  Permutation (bubble l) l /\ StronglySorted (fun a b => (GetOffset a <= GetOffset b)%Z) (bubble l).
Proof.
  destruct (passes_spec (length l - 1) l) as [HP HS]; [done|]. split; [done|].
  apply StronglySorted_lookup. intros a b x y Hab Ha Hb.
  apply (HS a b); [done| |done|done]. rewrite (Permutation_length HP).
  apply lookup_lt_Some in Hb. lia.
Qed.

(** ** Slots of the ring *)

Lemma mod_ne n a b : 0 < n -> a < b -> b < a + n -> a mod n <> b mod n.
Proof using.
  intros Hn Hab Hba E.
  pose proof (Nat.div_mod_eq a n) as Da. pose proof (Nat.div_mod_eq b n) as Db.
  rewrite E in Da. assert (n * (b / n) = n * (a / n) + (b - a)) by lia.
  assert (b / n <= a / n \/ a / n + 1 <= b / n) as [|] by lia; nia.
Qed.

Lemma getFeed_rep tl l k x :
  Rep tl l -> l !! k = Some x -> getFeed tl (offset tl - size tl + k) = Ok (Some x).
Proof using.
  intros R Hk. unfold getFeed. destruct (Nat.eqb_spec (size tl) 0); [pose proof (rep_size _ _ R); lia|].
  by rewrite (rep_at _ _ R _ _ Hk).
Qed.

(** Overwriting the feed at position [k]. *)
Lemma putFeed_rep tl l k x :
  Rep tl l -> k < length l ->
  exists d, putFeed tl (offset tl - size tl + k) (Some x)
      = Ok (mkTL (size tl) (offset tl) (limit tl) (lower tl) (upper tl) d (ofo tl)) /\
    Rep (mkTL (size tl) (offset tl) (limit tl) (lower tl) (upper tl) d (ofo tl)) (<[k := x]> l).
Proof using.
  intros R Hk. destruct R as [Hs Hl Hu Hn Ha Hf].
  unfold putFeed. destruct (Nat.eqb_spec (size tl) 0); [lia|].
  pose proof (Nat.mod_upper_bound (offset tl - size tl + k) (size tl)).
  destruct (Nat.ltb_spec ((offset tl - size tl + k) mod size tl) (length (data tl))); [|lia].
  eexists. split; [reflexivity|]. split; simpl.
  - done.
  - by rewrite length_insert.
  - done.
  - by rewrite length_insert.
  - intros k' x' Hk'. pose proof (lookup_lt_Some _ _ _ Hk') as Hlt. rewrite length_insert in Hlt.
    destruct (decide (k = k')) as [<-|Hne].
    + rewrite list_lookup_insert_eq in Hk' by done. injection Hk' as <-.
      by rewrite list_lookup_insert_eq by lia.
    + rewrite list_lookup_insert_ne in Hk' by done.
      rewrite list_lookup_insert_ne; [by apply Ha|].
      destruct (decide (k < k')); [apply mod_ne; lia|].
      apply not_eq_sym, mod_ne; lia.
  - intros i Hi. rewrite list_lookup_insert_ne; [by apply Hf|].
    rewrite Nat.mod_small by lia. lia.
Qed.

(** ** The ring sort implements [bubble] *)

(** The fields the sort leaves alone. *)
Definition sameFrame (t1 t2 : TimeLines) : Prop :=
  size t1 = size t2 /\ offset t1 = offset t2 /\ limit t1 = limit t2 /\
  lower t1 = lower t2 /\ upper t1 = upper t2 /\ ofo t1 = ofo t2.

Lemma sameFrame_trans t1 t2 t3 : sameFrame t1 t2 -> sameFrame t2 t3 -> sameFrame t1 t3.
Proof using. unfold sameFrame. intuition congruence. Qed.

Lemma sortStep_rep tl l j :
  Rep tl l -> S j < length l ->
  exists tl', sortStep (offset tl - size tl) j tl = Ok tl' /\ Rep tl' (swapStep l j) /\ sameFrame tl' tl.
Proof.
  intros R Hj. unfold sortStep, swapStep.
  destruct (lookup_lt_is_Some_2 l j) as [a Ha]; [lia|].
  destruct (lookup_lt_is_Some_2 l (S j)) as [b Hb]; [done|].
  replace (offset tl - size tl + j + 1) with (offset tl - size tl + S j) by lia.
  rewrite (getFeed_rep _ _ _ _ R Ha), (getFeed_rep _ _ _ _ R Hb), Ha, Hb. simpl.
  destruct (_ >? _)%Z; [|by exists tl].
  destruct (putFeed_rep tl l j b R) as (d1 & -> & R1); [lia|]. simpl.
  destruct (putFeed_rep _ _ (S j) a R1) as (d2 & E2 & R2); [by rewrite length_insert|].
  simpl in E2. rewrite E2. eexists. split; [reflexivity|]. split; [exact R2|]. done.
Qed.

Lemma sortInner_rep js tl l :
  Rep tl l -> Forall (fun j => S j < length l) js ->
  exists tl', sortInner (offset tl - size tl) js tl = Ok tl' /\ Rep tl' (foldl swapStep l js) /\ sameFrame tl' tl.
Proof.
  revert tl l. induction js as [|j js IH]; intros tl l R Hjs.
  { exists tl. by split. }
  inversion Hjs as [|? ? Hj Hjs']; subst. simpl.
  destruct (sortStep_rep tl l j R Hj) as (t1 & -> & R1 & F1). simpl.
  destruct (IH t1 (swapStep l j) R1) as (t2 & E2 & R2 & F2).
  { by rewrite swapStep_length. }
  pose proof F1 as (S1 & O1 & _). rewrite S1, O1 in E2. rewrite E2.
  exists t2. split; [done|]. split; [done|]. by eapply sameFrame_trans.
Qed.

Lemma sortOuter_rep ks tl l :
  Rep tl l ->
  exists tl', sortOuter (offset tl - size tl) (length l) ks tl = Ok tl' /\
    Rep tl' (foldl (fun acc i => foldl swapStep acc (seq 0 (length l - 1 - i))) l ks) /\ sameFrame tl' tl.
Proof.
  intros R. remember (length l) as n eqn:Hn.
  revert tl l R Hn. induction ks as [|k ks IH]; intros tl l R Hn.
  { exists tl. by split. }
  simpl. destruct (sortInner_rep (seq 0 (n - 1 - k)) tl l R) as (t1 & -> & R1 & F1).
  { apply Forall_seq. lia. }
  simpl. pose proof F1 as (S1 & O1 & _).
  destruct (IH t1 (foldl swapStep l (seq 0 (n - 1 - k))) R1) as (t2 & E2 & R2 & F2).
  { rewrite Hn. clear. generalize (seq 0 (length l - 1 - k)). intros js.
    revert l. induction js as [|j js IH]; intros l; simpl; [done|].
    by rewrite <- IH, swapStep_length. }
  rewrite S1, O1 in E2. rewrite E2. exists t2. split; [done|]. split; [done|].
  by eapply sameFrame_trans.
Qed.

(** ** Storing a feed *)

Lemma store_limited tl l f :
  Rep tl l -> limit tl = true ->
  exists tl', store tl f = Ok (tl', evicted tl l) /\ Rep tl' (window tl l f) /\
    limit tl' = true /\ size tl' = size tl /\ offset tl' = S (offset tl) /\
    lower tl' = lower tl /\ upper tl' = upper tl /\ ofo tl' = ofo tl.
Proof using.
  intros R Hlim. destruct R as [Hs Hl Hu Hn Ha Hf].
  unfold store, getFeed, putFeed, evicted, window. rewrite Hlim. simpl.
  destruct (Nat.eqb_spec (size tl) 0); [lia|].
  pose proof (Nat.mod_upper_bound (offset tl) (size tl)).
  destruct (lookup_lt_is_Some_2 (data tl) (offset tl mod size tl)) as [old Hold]; [lia|].
  rewrite Hold. simpl.
  destruct (Nat.ltb_spec (offset tl mod size tl) (length (data tl))); [|lia]. simpl.
  assert (old = (if size tl <=? length l then head l else None)) as ->.
  { destruct (Nat.leb_spec (size tl) (length l)) as [Hfull|Hfree].
       - destruct l as [|x l']; [simpl in *; lia|].
         specialize (Ha 0 x eq_refl). rewrite Nat.add_0_r in Ha.
         replace ((offset tl - size tl) mod size tl) with (offset tl mod size tl) in Ha.
         { rewrite Hold in Ha. by injection Ha as ->. }
         replace (offset tl) with (offset tl - size tl + 1 * size tl) at 1 by lia.
         by rewrite Nat.Div0.mod_add.
       - rewrite Nat.mod_small in Hold by lia.
         rewrite Hf in Hold by lia. by injection Hold as <-. }
  eexists. split; [reflexivity|]. split; [|simpl; repeat split; lia].
  split; simpl.
  - done.
  - by rewrite length_insert.
  - done.
  - rewrite length_app. destruct (Nat.leb_spec (size tl) (length l)).
    + rewrite length_drop. simpl. lia.
    + simpl. lia.
  - intros k x Hk. rewrite lookup_app in Hk.
    set (l0 := if size tl <=? length l then drop 1 l else l) in *.
    assert (Hl0 : length l0 = min (offset tl) (size tl - 1)).
    { unfold l0. destruct (Nat.leb_spec (size tl) (length l)); [rewrite length_drop|]; lia. }
    destruct (l0 !! k) as [y|] eqn:Ek.
    + injection Hk as <-. pose proof (lookup_lt_Some _ _ _ Ek).
      assert (Hold2 : data tl !! ((offset tl + 1 - size tl + k) mod size tl) = Some (Some y)).
      { unfold l0 in Ek. destruct (Nat.leb_spec (size tl) (length l)).
        - rewrite lookup_drop in Ek. specialize (Ha (S k) y Ek).
          by replace (offset tl + 1 - size tl + k) with (offset tl - size tl + S k) by lia.
        - specialize (Ha k y Ek). by replace (offset tl + 1 - size tl + k) with (offset tl - size tl + k) by lia. }
      rewrite list_lookup_insert_ne; [done|]. apply not_eq_sym, mod_ne; lia.
    + apply lookup_ge_None in Ek. destruct (k - length l0) as [|?] eqn:Ek2; [|done].
      simpl in Hk. injection Hk as <-.
      replace ((offset tl + 1 - size tl + k)) with (offset tl) by lia.
      by rewrite list_lookup_insert_eq.
  - intros i Hi. rewrite list_lookup_insert_ne; [apply Hf; lia|]. rewrite Nat.mod_small by lia. lia.
Qed.

Lemma expandLoop_spec fuel old off :
  0 < old -> off < old + fuel -> 0 < fuel -> exists n, expandLoop fuel old off = Ok n /\ off < n /\ old < n.
Proof using.
  revert old. induction fuel as [|fuel IH]; intros old Hold Hfuel Hpos; [lia|]. cbn [expandLoop].
  destruct (Nat.ltb_spec off (old * 2)).
  - eexists. split; [done|]. lia.
  - destruct (IH (old * 2)) as (n & -> & ? & ?); [lia|lia|lia|]. exists n. split; [done|]. lia.
Qed.

Lemma store_unlimited tl l f :
  Rep tl l -> limit tl = false ->
  exists tl', store tl f = Ok (tl', None) /\ Rep tl' (l ++ [f]) /\
    limit tl' = false /\ offset tl' = S (offset tl) /\
    lower tl' = lower tl /\ upper tl' = upper tl /\ ofo tl' = ofo tl.
Proof using.
  intros R Hlim. destruct R as [Hs Hl Hu Hn Ha Hf]. specialize (Hu Hlim).
  assert (Hrep : forall sz d, size tl <= sz -> offset tl < sz -> length d = sz ->
    (forall i, i < size tl -> d !! i = data tl !! i) ->
    (forall i, size tl <= i < sz -> d !! i = Some None) ->
    Rep (mkTL sz (offset tl + 1) false (lower tl) (upper tl) (<[offset tl := Some f]> d) (ofo tl)) (l ++ [f])).
  { intros sz d Hsz Hoff Hd Hcopy Hnone. split; simpl.
    - lia.
    - by rewrite length_insert.
    - lia.
    - rewrite length_app. simpl. lia.
    - intros k x Hk. replace (offset tl + 1 - sz) with 0 by lia. simpl.
      rewrite lookup_app in Hk. destruct (l !! k) as [y|] eqn:Ek.
      + injection Hk as <-. pose proof (lookup_lt_Some _ _ _ Ek). specialize (Ha k y Ek).
        replace (offset tl - size tl) with 0 in Ha by lia. simpl in Ha.
        rewrite Nat.mod_small in Ha by lia. rewrite Nat.mod_small by lia.
        rewrite list_lookup_insert_ne by lia. by rewrite Hcopy by lia.
      + apply lookup_ge_None in Ek. destruct (k - length l) as [|?] eqn:Ek2; [|done].
        simpl in Hk. injection Hk as <-. replace k with (offset tl) by lia.
        rewrite Nat.mod_small by lia. by rewrite list_lookup_insert_eq by lia.
    - intros i Hi. rewrite list_lookup_insert_ne by lia.
      destruct (decide (i < size tl)); [rewrite Hcopy by done; apply Hf; lia|apply Hnone; lia]. }
  unfold store. rewrite Hlim. destruct (Nat.ltb_spec (offset tl) (size tl)).
  - unfold putAt. destruct (Nat.ltb_spec (offset tl) (length (data tl))); [|lia]. simpl.
    eexists. split; [reflexivity|]. rewrite Hlim. split; [apply Hrep; try done; simpl; intros; lia|].
    simpl. repeat split; lia.
  - unfold Expanse. destruct (Nat.leb_spec (size tl) (offset tl)); [|lia].
    destruct (expandLoop_spec (S (offset tl)) (size tl) (offset tl)) as (n & -> & Hn1 & Hn2); [lia|lia|lia|].
    simpl. unfold resize. rewrite Hl.
    destruct (Nat.ltb_spec (size tl) (size tl)); [lia|]. destruct (Nat.ltb_spec n (size tl)); [lia|]. simpl.
    unfold putAt. simpl. rewrite length_app, length_take, length_replicate.
    destruct (Nat.ltb_spec (offset tl) (min (size tl) (length (data tl)) + (n - size tl))); [|lia]. simpl.
    eexists. split; [reflexivity|]. rewrite Hlim.
    split; [apply Hrep; simpl|simpl; repeat split; lia].
    + lia.
    + lia.
    + rewrite length_app, length_take, length_replicate. lia.
    + intros i Hi. rewrite lookup_app_l by (rewrite length_take; lia). by rewrite lookup_take_lt by done.
    + intros i Hi. rewrite lookup_app_r by (rewrite length_take; lia).
      apply lookup_replicate_2. rewrite length_take. lia.
Qed.

(** ** The bounds *)

Lemma Rep_ext t1 t2 l :
  size t1 = size t2 -> offset t1 = offset t2 -> limit t1 = limit t2 -> data t1 = data t2 ->
  Rep t1 l -> Rep t2 l.
Proof using.
  intros E1 E2 E3 E4 [Hs Hl Hu Hn Ha Hf].
  split; rewrite <- ?E1, <- ?E2, <- ?E3, <- ?E4; done.
Qed.

Lemma sorted_snoc (l : list F) f :
  StronglySorted (fun a b => (GetOffset a <= GetOffset b)%Z) l ->
  (forall p, last l = Some p -> (GetOffset p <= GetOffset f)%Z) ->
  StronglySorted (fun a b => (GetOffset a <= GetOffset b)%Z) (l ++ [f]).
Proof.
  induction 1 as [|x l Hs IH Hall]; intros Hlast; simpl; [repeat constructor|].
  constructor.
  - apply IH. intros p Hp. apply Hlast. destruct l; [done|]. done.
  - apply Forall_app. split; [done|]. constructor; [|done].
    destruct l as [|y l]; [by apply Hlast|].
    destruct (last (y :: l)) as [p|] eqn:El; [|by apply last_None in El].
    specialize (Hlast p El). apply last_Some_elem_of in El.
    rewrite Forall_forall in Hall. specialize (Hall p El). lia.
Qed.

Lemma StronglySorted_drop1 (l : list F) (R : F -> F -> Prop) :
  StronglySorted R l -> StronglySorted R (drop 1 l).
Proof using. destruct 1; simpl; [constructor|]. by rewrite drop_0. Qed.

(** The test of the two newest feeds. *)
Lemma checkOutOfOrder_rep tl w f :
  Rep tl (w ++ [f]) -> limit tl = true -> 2 <= offset tl ->
  exists b, checkOutOfOrder tl = Ok (set_ofo tl b) /\
    (b = false <-> ofo tl = false /\ forall p, last w = Some p -> (GetOffset p <= GetOffset f)%Z).
Proof.
  intros R Hlim Ho. unfold checkOutOfOrder. rewrite Hlim. simpl.
  destruct (Nat.leb_spec (offset tl) 1); [lia|].
  pose proof (rep_size _ _ R) as Hs. pose proof (rep_n _ _ R) as Hn. rewrite length_app in Hn. simpl in Hn.
  assert (Hcur : getFeed tl (offset tl - 1) = Ok (Some f)).
  { replace (offset tl - 1) with (offset tl - size tl + length w) by lia.
    eapply getFeed_rep; [done|]. rewrite lookup_app_r, Nat.sub_diag by lia. done. }
  assert (Hid : tl = set_ofo tl (ofo tl)) by (by destruct tl).
  rewrite Hcur. simpl. destruct (last w) as [p|] eqn:El.
  - assert (Hpre : getFeed tl (offset tl - 2) = Ok (Some p)).
    { rewrite last_lookup in El. pose proof (lookup_lt_Some _ _ _ El).
      replace (offset tl - 2) with (offset tl - size tl + Nat.pred (length w)) by lia.
      eapply getFeed_rep; [done|]. by rewrite lookup_app_l by lia. }
    rewrite Hpre. simpl. destruct (ofo tl) eqn:Eo; simpl.
    + exists true. split; [by rewrite <- Hid|]. by split; [|intros [??]].
    + destruct (Z.ltb_spec (GetOffset f) (GetOffset p)).
      * exists true. split; [done|]. split; [done|]. intros [_ Hp]. specialize (Hp p eq_refl). lia.
      * exists false. split; [by rewrite <- Hid|]. split; [|done]. intros _. split; [done|].
        intros p' [= <-]. done.
  - apply last_None in El. subst w. simpl in Hn.
    assert (Hpre : getFeed tl (offset tl - 2) = Ok (Some f)).
    { unfold getFeed in Hcur |- *. replace (size tl) with 1 in * by lia.
      rewrite Nat.mod_1_r in *. done. }
    rewrite Hpre. simpl. rewrite Z.ltb_irrefl, andb_false_r.
    exists (ofo tl). split; [by rewrite <- Hid|]. split; [done|]. by intros [? _].
Qed.

Lemma sorted_last_max (l : list F) y z :
  StronglySorted (fun a b => (GetOffset a <= GetOffset b)%Z) l -> last l = Some y -> z ∈ l ->
  (GetOffset z <= GetOffset y)%Z.
Proof.
  induction 1 as [|x l Hs IH Hall]; intros Hlast Hz; [done|].
  destruct l as [|x' l].
  - injection Hlast as <-. apply list_elem_of_singleton in Hz as ->. lia.
  - apply elem_of_cons in Hz as [->|Hz]; [|by apply IH].
    rewrite Forall_forall in Hall. apply Hall. by apply last_Some_elem_of.
Qed.

(** Reading the bounds off a sorted full ring. *)
Lemma calcBounds_rep tl w :
  Rep tl w -> size tl <= offset tl -> Forall (fun z => (0 < GetOffset z)%Z) w ->
  StronglySorted (fun a b => (GetOffset a <= GetOffset b)%Z) w ->
  exists lo up, calcBounds tl = Ok (set_bounds tl lo up) /\ Bounds (set_bounds tl lo up) w.
Proof.
  intros R Ho Hpos Hsort. pose proof (rep_size _ _ R). pose proof (rep_n _ _ R).
  destruct w as [|x w']; [simpl in *; lia|]. set (w := x :: w') in *.
  destruct (last w) as [y|] eqn:El; [|by apply last_None in El].
  unfold calcBounds.
  replace (offset tl - size tl) with (offset tl - size tl + 0) by lia.
  rewrite (getFeed_rep tl w 0 x R eq_refl). simpl.
  replace (offset tl - 1) with (offset tl - size tl + Nat.pred (length w)) by lia.
  rewrite (getFeed_rep tl w _ y R) by (by rewrite <- last_lookup). simpl.
  eexists _, _. split; [done|]. unfold Bounds. fold w. simpl.
  split; [exists x; split; [left|done]|].
  split; [exists y; split; [by apply last_Some_elem_of|done]|].
  apply Forall_forall. intros z Hz. rewrite Forall_forall in Hpos. split; [by apply Hpos|].
  split; [|by eapply sorted_last_max].
  apply StronglySorted_inv in Hsort as [_ Hall]. apply elem_of_cons in Hz as [->|Hz]; [lia|].
  rewrite Forall_forall in Hall. by apply Hall.
Qed.

Lemma Permutation_Bounds tl l l' : Permutation l l' -> Bounds tl l -> Bounds tl l'.
Proof.
  intros HP. unfold Bounds. destruct l as [|a l], l' as [|a' l']; try done.
  - by apply Permutation_nil in HP.
  - by apply Permutation_sym, Permutation_nil in HP.
  - intros ((x & Hx & ?) & (y & Hy & ?) & HF). rewrite HP in Hx, Hy, HF. eauto 10.
Qed.

Record Inv (tl : TimeLines) (l : list F) : Prop := {
  inv_rep : Rep tl l;
  inv_bounds : Bounds tl l;
  inv_ordered : Ordered tl l;
}.

Lemma New_Inv n b : 0 < n -> Inv (NewEvTimeLines n b) [].
Proof.
  intros Hn. split; [|done|intros _ _; constructor].
  split; simpl; try done; try lia.
  - apply length_replicate.
  - intros i Hi. apply lookup_replicate_2. lia.
Qed.

(** [Bounds] after storing [f], as long as the evicted feed was not extreme. *)
Lemma Bounds_store tl l t2 f :
  Bounds tl l -> l <> [] -> (0 < GetOffset f)%Z ->
  lower t2 = Z.min (lower tl) (GetOffset f) -> upper t2 = Z.max (upper tl) (GetOffset f) ->
  (forall r, evicted tl l = Some r -> GetOffset r <> lower t2 /\ GetOffset r <> upper t2) ->
  Bounds t2 (window tl l f).
Proof.
  intros HB Hne Hf Hlo Hup Hev. unfold window.
  set (l0 := if limit tl && (size tl <=? length l) then drop 1 l else l).
  assert (Hsub : forall x, x ∈ l -> (GetOffset x = lower t2 \/ GetOffset x = upper t2) -> x ∈ l0).
  { intros x Hx Hext. unfold l0, evicted in *. destruct (_ && _); [|done].
    destruct l as [|r l']; [done|]. destruct (Hev r eq_refl) as [H1 H2].
    apply elem_of_cons in Hx as [->|Hx]; [by destruct Hext|by rewrite skipn_cons, drop_0]. }
  assert (Hin : forall x, x ∈ l0 -> x ∈ l).
  { intros x. unfold l0. destruct (_ && _); [|done]. destruct l as [|r l']; [done|].
    rewrite skipn_cons, drop_0. intros ?. by right. }
  unfold Bounds in HB. destruct l as [|a l']; [done|].
  destruct HB as ((x & Hx & Ex) & (y & Hy & Ey) & HF). rewrite Forall_forall in HF.
  cut ((exists x, x ∈ l0 ++ [f] /\ GetOffset x = lower t2) /\
       (exists y, y ∈ l0 ++ [f] /\ GetOffset y = upper t2) /\
       Forall (fun z => (0 < GetOffset z)%Z /\ (lower t2 <= GetOffset z <= upper t2)%Z) (l0 ++ [f])).
  { unfold Bounds. by destruct (l0 ++ [f]) eqn:E; [destruct l0|]. }
  rewrite Hlo, Hup in Hsub |- *. repeat split.
  - destruct (Z.min_spec (lower tl) (GetOffset f)) as [[? E]|[? E]]; rewrite E in Hsub |- *.
    + exists x. split; [apply elem_of_app; left; apply Hsub; auto|done].
    + exists f. split; [apply elem_of_app; right; left|done].
  - destruct (Z.max_spec (upper tl) (GetOffset f)) as [[? E]|[? E]]; rewrite E in Hsub |- *.
    + exists f. split; [apply elem_of_app; right; left|done].
    + exists y. split; [apply elem_of_app; left; apply Hsub; auto|done].
  - apply Forall_app. split.
    + apply Forall_forall. intros z Hz. destruct (HF z (Hin z Hz)). lia.
    + constructor; [|done]. destruct (HF x Hx). lia.
Qed.

Lemma store_window tl l f :
  Rep tl l ->
  exists t1, store tl f = Ok (t1, evicted tl l) /\ Rep t1 (window tl l f) /\
    limit t1 = limit tl /\ offset t1 = S (offset tl) /\
    lower t1 = lower tl /\ upper t1 = upper tl /\ ofo t1 = ofo tl /\
    (limit tl = true -> size t1 = size tl).
Proof using.
  intros R. destruct (limit tl) eqn:Hlim.
  - destruct (store_limited tl l f R Hlim) as (t1 & ? & ? & ? & ? & ? & ? & ? & ?). exists t1. tauto.
  - destruct (store_unlimited tl l f R Hlim) as (t1 & HS & R1 & ? & ? & ? & ? & ?).
    unfold evicted, window. rewrite Hlim. exists t1. simpl. intuition done.
Qed.

Lemma Bounds_pos tl l : Bounds tl l -> Forall (fun z => (0 < GetOffset z)%Z) l.
Proof.
  destruct l; [constructor|]. intros (_ & _ & HF). eapply Forall_impl; [exact HF|]. simpl. tauto.
Qed.

Lemma window_pos tl l f : Bounds tl l -> (0 < GetOffset f)%Z ->
  Forall (fun z => (0 < GetOffset z)%Z) (window tl l f).
Proof.
  intros HB Hf. apply Bounds_pos in HB. unfold window. apply Forall_app. split; [|by constructor].
  destruct (_ && _); [by apply Forall_drop|done].
Qed.

(** [calc] on a full ring. *)
Lemma calc_Inv tl w :
  Rep tl w -> limit tl = true -> size tl < offset tl -> Forall (fun z => (0 < GetOffset z)%Z) w ->
  Ordered tl w ->
  exists t' w', calc tl = Ok t' /\ Inv t' w' /\ Permutation w' w /\ limit t' = limit tl /\
    size t' = size tl /\ ofo t' = ofo tl /\ (ofo t' = false -> w' = w).
Proof.
  intros R Hlim Ho Hpos Hord. unfold calc. rewrite Hlim. simpl.
  destruct (Nat.leb_spec (offset tl) (size tl)); [lia|]. destruct (ofo tl) eqn:Eo; simpl.
  - pose proof (rep_n _ _ R) as Hn. rewrite Nat.min_r in Hn by lia.
    destruct (sortOuter_rep (seq 0 (size tl - 1)) tl w R) as (t1 & E1 & R1 & F1).
    rewrite Hn in E1. rewrite E1. simpl.
    assert (Eb : foldl (fun acc i => foldl swapStep acc (seq 0 (length w - 1 - i))) w (seq 0 (size tl - 1)) = bubble w).
    { unfold bubble. by rewrite <- Hn. }
    rewrite Eb in R1. destruct (bubble_sorted w) as [HP HS].
    destruct F1 as (S1 & O1 & L1 & _ & _ & Of1).
    destruct (calcBounds_rep t1 (bubble w) R1) as (lo & up & -> & HB); [lia|by rewrite HP|done|].
    eexists _, _. split; [done|]. split; [split|].
    + eapply Rep_ext, R1; done.
    + done.
    + by intros _ _.
    + split; [done|]. simpl. repeat split; try congruence.
  - destruct (calcBounds_rep tl w R) as (lo & up & -> & HB); [lia|done|by apply Hord|].
    eexists _, w. split; [done|]. split; [split|done].
    + by eapply Rep_ext, R.
    + done.
    + intros ? ?. by apply Hord.
Qed.

Lemma rebound_Inv tl l t1 f :
  Inv tl l -> (0 < GetOffset f)%Z -> Rep t1 (window tl l f) ->
  limit t1 = limit tl -> offset t1 = S (offset tl) -> lower t1 = lower tl -> upper t1 = upper tl ->
  ofo t1 = ofo tl -> (limit tl = true -> size t1 = size tl) ->
  exists t' w', rebound t1 f (evicted tl l) = Ok t' /\ Inv t' w' /\
    Permutation w' (window tl l f) /\ limit t' = limit tl /\ size t' = size t1 /\
    (limit tl = false \/ ofo t' = false -> w' = window tl l f) /\
    (ofo tl = false -> (forall p, last l = Some p -> (GetOffset p <= GetOffset f)%Z) -> ofo t' = false).
Proof.
  intros [R HB HO] Hf R1 El Eo Elo Eup Eofo Esz. unfold rebound. rewrite Elo.
  pose proof (rep_size _ _ R) as Hs. pose proof (rep_n _ _ R) as Hn.
  pose proof (window_pos tl l f HB Hf) as Hpos.
  destruct (Z.eqb_spec (lower tl) 0) as [E0|E0].
  { (* the first feed *)
    assert (l = []) as ->.
    { destruct l as [|a l']; [done|]. destruct HB as ((x & Hx & Ex) & _ & HF).
      rewrite Forall_forall in HF. destruct (HF x Hx). lia. }
    assert (Ew : window tl [] f = [f]) by (unfold window; by destruct (_ && _)).
    rewrite Ew in *. eexists _, [f]. split; [done|]. split; [|simpl; rewrite Eofo; intuition done]. split.
    - by eapply Rep_ext, R1.
    - simpl. split; [exists f; split; [left|done]|]. split; [exists f; split; [left|done]|].
      constructor; [|done]. lia.
    - intros _ _. repeat constructor. }
  assert (Hne : l <> []) by (intros ->; by destruct HB).
  set (t2 := if (GetOffset f <? lower tl)%Z then _ else _).
  assert (Ht2 : t2 = set_bounds t1 (Z.min (lower tl) (GetOffset f)) (Z.max (upper tl) (GetOffset f))).
  { assert (lower tl <= upper tl)%Z.
    { destruct l as [|a l']; [done|]. destruct HB as (_ & _ & HF). inversion HF; subst. lia. }
    subst t2. rewrite Eup. destruct (Z.ltb_spec (GetOffset f) (lower tl)).
    { by rewrite Z.min_r, Z.max_l by lia. }
    destruct (Z.gtb_spec (GetOffset f) (upper tl)).
    { by rewrite Z.min_l, Z.max_r by lia. }
    rewrite Z.min_l, Z.max_l by lia. rewrite <- Elo, <- Eup. by destruct t1. }
  rewrite Ht2. clear t2 Ht2. set (t2 := set_bounds t1 _ _).
  assert (R2 : Rep t2 (window tl l f)) by (by eapply Rep_ext, R1).
  destruct (limit tl) eqn:Hlim.
  - (* a bounded timeline *)
    destruct (checkOutOfOrder_rep t2 (if limit tl && (size tl <=? length l) then drop 1 l else l) f)
      as (b & -> & Hb); [exact R2|simpl; congruence| |].
    { simpl. destruct l; [done|]. simpl in Hn. lia. }
    simpl. set (t3 := set_ofo t2 b).
    assert (R3 : Rep t3 (window tl l f)) by (by eapply Rep_ext, R2).
    assert (HO3 : Ordered t3 (window tl l f)).
    { intros _ Hb0. simpl in Hb0. destruct (proj1 Hb Hb0) as [Hofo Hlast]. simpl in Hofo.
      specialize (HO Hlim). rewrite <- Eofo in HO. specialize (HO Hofo).
      unfold window. apply sorted_snoc; [|done].
      destruct (_ && _); [by apply StronglySorted_drop1|done]. }
    assert (Hkeep : ofo tl = false -> (forall p, last l = Some p -> (GetOffset p <= GetOffset f)%Z) -> ofo t3 = false).
    { intros Ho Hp. simpl. apply Hb. simpl. split; [congruence|]. intros p. destruct (_ && _); [|apply Hp].
      intros Hd. apply Hp. clear -Hd. destruct l as [|a [|a' l']]; done. }
    destruct (evicted tl l) as [r|] eqn:Er.
    + destruct ((GetOffset r =? _)%Z || (GetOffset r =? _)%Z) eqn:Ext.
      * assert (Hfull : size tl <= length l).
        { unfold evicted in Er. destruct (Nat.leb_spec (size tl) (length l)); [done|].
          rewrite andb_false_r in Er. done. }
        destruct (calc_Inv t3 (window tl l f)) as (t' & w' & -> & HI & HP & Hl' & Hsz' & Hof' & Hw); try done.
        { simpl. rewrite Eo, (Esz eq_refl). lia. }
        exists t', w'. split; [done|]. split; [done|]. split; [done|].
        split; [simpl in Hl'; congruence|]. split; [done|]. split; [intros [?|?]; [done|by apply Hw]|].
        rewrite Hof'. exact Hkeep.
      * eexists t3, _. split; [done|]. split; [|split; [done|]; split; [simpl; congruence|split; [done|by split]]].
        split; [done| |done]. apply (Bounds_store tl l); try done.
        intros r' Er'. rewrite Er in Er'. injection Er' as <-. simpl in Ext |- *.
        rewrite orb_false_iff, !Z.eqb_neq in Ext. done.
    + eexists t3, _. split; [done|]. split; [|split; [done|]; split; [simpl; congruence|split; [done|by split]]].
      split; [done| |done]. apply (Bounds_store tl l); try done. by rewrite Er.
  - (* an unbounded timeline *)
    unfold checkOutOfOrder. replace (limit t2) with false by (simpl; congruence). simpl.
    assert (Er : evicted tl l = None) by (unfold evicted; by rewrite Hlim). rewrite Er.
    eexists t2, _. split; [done|]. split; [|split; [done|]; split; [simpl; congruence|split; [done|split; [done|]]]; simpl; congruence].
    split; [done| |].
    + apply (Bounds_store tl l); try done. by rewrite Er.
    + intros Hl2. simpl in Hl2. congruence.
Qed.

(** ** Reading a timeline *)

Lemma collect_rep tl l n k :
  Rep tl l -> k + n = length l ->
  collect tl (seq (offset tl - size tl + k) n) = Ok (Some <$> drop k l).
Proof using.
  intros R. revert k. induction n as [|n IH]; intros k Hk; simpl.
  { by rewrite drop_ge by lia. }
  destruct (lookup_lt_is_Some_2 l k) as [x Hx]; [lia|].
  rewrite (getFeed_rep _ _ _ _ R Hx). simpl.
  replace (S (offset tl - size tl + k)) with (offset tl - size tl + S k) by lia.
  rewrite IH by lia. by rewrite (drop_S _ _ _ Hx).
Qed.

Lemma collect_reverse_rep tl l n :
  Rep tl l -> n <= length l ->
  collect tl (reverse (seq (offset tl - size tl) n)) = Ok (Some <$> reverse (take n l)).
Proof using.
  intros R. induction n as [|n IH]; intros Hn; [done|].
  rewrite seq_S, reverse_app. simpl.
  destruct (lookup_lt_is_Some_2 l n) as [x Hx]; [lia|].
  rewrite (getFeed_rep _ _ _ _ R Hx). simpl. rewrite IH by lia. simpl.
  by rewrite (take_S_r _ _ _ Hx), reverse_app.
Qed.

Lemma collectIn_rep tl l lo up n k :
  Rep tl l -> k + n = length l ->
  collectIn tl lo up (seq (offset tl - size tl + k) n)
    = Ok (Some <$> filter (fun x => lo <= GetOffset x <= up)%Z (drop k l)).
Proof.
  intros R. revert k. induction n as [|n IH]; intros k Hk; simpl.
  { by rewrite drop_ge by lia. }
  destruct (lookup_lt_is_Some_2 l k) as [x Hx]; [lia|].
  rewrite (getFeed_rep _ _ _ _ R Hx). simpl.
  replace (S (offset tl - size tl + k)) with (offset tl - size tl + S k) by lia.
  rewrite IH by lia. simpl. rewrite (drop_S _ _ _ Hx), filter_cons.
  destruct (Z.leb_spec lo (GetOffset x)), (Z.leb_spec (GetOffset x) up); simpl;
    case_decide; try lia; done.
Qed.

Lemma GetRange_rep tl l :
  Rep tl l -> GetRange tl = (offset tl - size tl, offset tl) /\
  offset tl - (offset tl - size tl) = length l /\ (offset tl <=? offset tl - size tl) = (length l =? 0).
Proof using.
  intros R. pose proof (rep_n _ _ R). pose proof (rep_size _ _ R). unfold GetRange.
  destruct (Nat.ltb_spec (offset tl) (size tl)).
  - replace (offset tl - size tl) with 0 by lia. repeat split; [lia|].
    destruct (Nat.leb_spec (offset tl) 0), (Nat.eqb_spec (length l) 0); lia.
  - repeat split; [lia|].
    destruct (Nat.leb_spec (offset tl) (offset tl - size tl)), (Nat.eqb_spec (length l) 0); lia.
Qed.

Lemma GetAllFeeds_rep tl l :
  Rep tl l -> GetAllFeeds tl = Ok (Some <$> l, offset tl - size tl, offset tl, lower tl, upper tl).
Proof using.
  intros R. destruct (GetRange_rep tl l R) as (E & En & El).
  unfold GetAllFeeds. rewrite E, El, En. destruct (Nat.eqb_spec (length l) 0) as [H0|H0].
  - by destruct l.
  - pose proof (collect_rep tl l (length l) 0 R eq_refl) as HC.
    rewrite Nat.add_0_r in HC. rewrite HC. simpl. by rewrite drop_0.
Qed.

(** The sequence of [Add]s a consumer makes. *)
Fixpoint adds (tl : TimeLines) (fs : list F) : res TimeLines :=
  match fs with
  | [] => Ok tl
  | f :: fs' => '(tl1, _) ← Add tl (Some f); adds tl1 fs'
  end.

Lemma Add_Inv tl l f :
  Inv tl l -> (0 < GetOffset f)%Z ->
  exists tl' l', Add tl (Some f) = Ok (tl', evicted tl l) /\ Inv tl' l' /\
    Permutation l' (window tl l f) /\ limit tl' = limit tl /\
    (limit tl = true -> size tl' = size tl) /\
    (limit tl = false \/ ofo tl' = false -> l' = window tl l f) /\
    (ofo tl = false -> (forall p, last l = Some p -> (GetOffset p <= GetOffset f)%Z) -> ofo tl' = false).
Proof.
  intros HI Hf. destruct (store_window tl l f (inv_rep _ _ HI))
    as (t1 & E1 & R1 & L1 & O1 & Lo1 & Up1 & Of1 & S1).
  destruct (rebound_Inv tl l t1 f HI Hf R1 L1 O1 Lo1 Up1 Of1 S1) as (t' & w' & E2 & HI' & HP & HL & HSz & Hw & Hkeep).
  exists t', w'. simpl. rewrite E1. simpl. rewrite E2. split; [done|].
  split; [done|]. split; [done|]. split; [done|]. split; [|by split].
  intros Hlim. by rewrite HSz, (S1 Hlim).
Qed.

(** What a bounded timeline keeps: the newest [n] of a list. *)
Definition newest (n : nat) (l : list F) : list F := drop (length l - n) l.

Lemma adds_unbounded_Inv fs tl l :
  Inv tl l -> limit tl = false -> Forall (fun f => (0 < GetOffset f)%Z) fs ->
  exists tl', adds tl fs = Ok tl' /\ Inv tl' (l ++ fs).
Proof.
  revert tl l. induction fs as [|f fs IH]; intros tl l HI Hlim Hpos.
  { exists tl. by rewrite app_nil_r. }
  inversion Hpos as [|? ? Hf Hpos']; subst. cbn [adds].
  destruct (Add_Inv tl l f HI Hf) as (t1 & l1 & -> & HI1 & _ & HL & _ & Hw & _). simpl.
  rewrite Hw in HI1 by auto. unfold window in HI1. rewrite Hlim in HI1. simpl in HI1.
  destruct (IH t1 (l ++ [f]) HI1) as (t2 & -> & HI2); [congruence|done|].
  exists t2. by rewrite <- app_assoc in HI2.
Qed.

Lemma newest_window tl l f :
  Rep tl l -> limit tl = true -> newest (size tl) (window tl l f) = window tl l f.
Proof using.
  intros R Hlim. unfold newest, window. rewrite Hlim. simpl. rewrite length_app. simpl.
  pose proof (rep_n _ _ R). pose proof (rep_size _ _ R).
  destruct (Nat.leb_spec (size tl) (length l)); [rewrite length_drop|];
    (replace (_ - size tl) with 0 by lia; by rewrite drop_0).
Qed.

Lemma newest_snoc n l f fs :
  0 < n -> newest n ((if n <=? length l then drop 1 l else l) ++ f :: fs) = newest n (l ++ f :: fs).
Proof using.
  intros Hn. unfold newest. destruct (Nat.leb_spec n (length l)); [|done].
  rewrite !length_app, length_drop. simpl. destruct l as [|a l]; [simpl in *; lia|].
  simpl. rewrite drop_0. replace (length l - 0) with (length l) by lia.
  replace (S (length l + S (length fs)) - n) with (S (length l + S (length fs) - n)) by (simpl in *; lia).
  done.
Qed.

Lemma adds_bounded_Inv fs tl l :
  Inv tl l -> limit tl = true -> ofo tl = false -> length l <= size tl ->
  Forall (fun f => (0 < GetOffset f)%Z) fs ->
  StronglySorted (fun a b => (GetOffset a <= GetOffset b)%Z) (l ++ fs) ->
  exists tl', adds tl fs = Ok tl' /\ ofo tl' = false /\ size tl' = size tl /\
    Inv tl' (newest (size tl) (l ++ fs)).
Proof.
  revert tl l. induction fs as [|f fs IH]; intros tl l HI Hlim Hofo Hlen Hpos Hsort.
  { exists tl. rewrite app_nil_r. unfold newest. replace (length l - size tl) with 0 by lia.
    by rewrite drop_0. }
  inversion Hpos as [|? ? Hf Hpos']; subst. cbn [adds].
  destruct (Add_Inv tl l f HI Hf) as (t1 & l1 & -> & HI1 & _ & HL & HS & Hw & Hk). simpl.
  assert (Hof1 : ofo t1 = false).
  { apply Hk; [done|]. intros p Hp. apply last_Some_elem_of in Hp.
    clear -Hsort Hp. induction l as [|a l IHl]; [by apply not_elem_of_nil in Hp|].
    simpl in Hsort. apply StronglySorted_inv in Hsort as [Hs Hall].
    apply elem_of_cons in Hp as [->|Hp]; [|by apply IHl].
    rewrite Forall_forall in Hall. apply Hall, elem_of_app. right. left. }
  rewrite Hw in HI1 by auto. specialize (HS Hlim).
  pose proof (inv_rep _ _ HI) as R. pose proof (rep_size _ _ R) as Hsz.
  assert (Ew : window tl l f = (if size tl <=? length l then drop 1 l else l) ++ [f]).
  { unfold window. by rewrite Hlim. }
  destruct (IH t1 (window tl l f) HI1) as (t2 & -> & Hof2 & HS2 & HI2); [congruence|done| |done| |].
  { rewrite HS. pose proof (rep_n _ _ (inv_rep _ _ HI1)). lia. }
  { rewrite Ew, <- app_assoc. simpl. destruct (size tl <=? length l); [|done].
    destruct l; [done|]. simpl in Hsort |- *. rewrite drop_0. by apply StronglySorted_inv in Hsort as [? _]. }
  exists t2. split; [done|]. split; [done|]. split; [congruence|].
  rewrite HS, Ew, <- app_assoc in HI2. simpl in HI2. by rewrite newest_snoc in HI2.
Qed.

(** ** Properties *)

(** C23: [Add] refines the abstract timeline.  On a well-formed timeline holding
    [l], adding a feed with a positive offset never panics and returns the
    evicted feed (the oldest one of a full ring, nothing otherwise); the
    timeline stays well formed, [lower]/[upper] are the exact extreme offsets
    of its feeds, and its feeds are the window of [l] and the new feed: in
    arrival order while no out-of-order feed was seen, a permutation of it
    after the ring was sorted. *)
Theorem Add_refines tl l f :
  Inv tl l -> (0 < GetOffset f)%Z ->
  exists tl' l', Add tl (Some f) = Ok (tl', evicted tl l) /\ Inv tl' l' /\
    Permutation l' (window tl l f) /\ limit tl' = limit tl /\
    (limit tl = false \/ ofo tl' = false -> l' = window tl l f).
Proof.
  intros HI Hf. destruct (Add_Inv tl l f HI Hf) as (t1 & l1 & ? & ? & ? & ? & _ & ? & _).
  by exists t1, l1.
Qed.

(** a bounded timeline is a ring of the newest feeds.  After the feeds [fs]
    were added in ascending positive offset order to [NewEvTimeLines n true],
    [GetAllFeeds] returns the newest [n] of them, oldest first, with the slot
    range and the extreme offsets of what it returns. *)
Theorem bounded_keeps_newest n fs :
  0 < n -> Forall (fun f => (0 < GetOffset f)%Z) fs ->
  StronglySorted (fun a b => (GetOffset a <= GetOffset b)%Z) fs ->
  exists tl, adds (NewEvTimeLines n true) fs = Ok tl /\
    GetAllFeeds tl = Ok (Some <$> newest n fs, offset tl - n, offset tl, lower tl, upper tl) /\
    Bounds tl (newest n fs).
Proof.
  intros Hn Hpos Hsort.
  destruct (adds_bounded_Inv fs (NewEvTimeLines n true) []) as (tl & E & _ & HS & HI); try done.
  { by apply New_Inv. }
  { simpl. lia. }
  simpl in HS, HI. exists tl. split; [done|]. split; [|by apply inv_bounds].
  rewrite (GetAllFeeds_rep tl _ (inv_rep _ _ HI)). by rewrite HS.
Qed.

(** an unbounded timeline loses nothing.  After any feeds [fs] with positive
    offsets, in any order, [GetAllFeeds] returns all of them in arrival order
    and [GetFeedRange] their extreme offsets: the resize copies every feed. *)
Theorem unbounded_keeps_all n fs :
  0 < n -> Forall (fun f => (0 < GetOffset f)%Z) fs ->
  exists tl, adds (NewEvTimeLines n false) fs = Ok tl /\
    GetAllFeeds tl = Ok (Some <$> fs, 0, offset tl, lower tl, upper tl) /\
    Bounds (set_bounds tl (GetFeedRange tl).1 (GetFeedRange tl).2) fs.
Proof.
  intros Hn Hpos.
  destruct (adds_unbounded_Inv fs (NewEvTimeLines n false) []) as (tl & E & HI); try done.
  { by apply New_Inv. }
  simpl in HI. exists tl. split; [done|].
  split; [|pose proof (inv_bounds _ _ HI); by destruct tl].
  rewrite (GetAllFeeds_rep tl _ (inv_rep _ _ HI)).
  assert (Hlim : limit tl = false).
  { clear -E Hn Hpos. revert E. generalize (New_Inv n false Hn).
    assert (Hl : limit (@NewEvTimeLines n false) = false) by done. revert Hl.
    generalize (@NewEvTimeLines n false). intros t0 Hl. generalize (@nil F).
    revert t0 Hl. induction fs as [|f fs IH]; intros t0 Hl l0 HI E; [by injection E as <-|].
    inversion Hpos; subst. cbn [adds] in E.
    destruct (Add_Inv t0 l0 f HI) as (t1 & l1 & EA & HI1 & _ & HL & _); [done|].
    rewrite EA in E. simpl in E. eapply IH; [done| |exact HI1|done]. congruence. }
  pose proof (rep_unl _ _ (inv_rep _ _ HI) Hlim). by replace (offset tl - size tl) with 0 by lia.
Qed.

(** [GetFeeds] returns exactly the feeds of the position window: those whose
    offset lies between [fromPos] (when it is strictly inside the timeline's
    bounds) and [endPos] (when it is positive and below the upper bound), in
    timeline order, and nothing when the two positive positions are reversed. *)
Theorem GetFeeds_selects tl l fromPos endPos :
  Inv tl l ->
  GetFeeds tl fromPos endPos = Ok
    (if decide (0 < fromPos /\ 0 < endPos /\ endPos <= fromPos)%Z then []
     else Some <$> filter (fun x =>
            (if decide (lower tl < fromPos < upper tl)%Z then fromPos else lower tl) <= GetOffset x <=
            (if decide (0 < endPos < upper tl)%Z then endPos else upper tl))%Z l,
     offset tl - size tl, offset tl, lower tl, upper tl).
Proof.
  intros HI. pose proof (inv_rep _ _ HI) as R. destruct (GetRange_rep tl l R) as (E & En & El).
  unfold GetFeeds. rewrite E, El, En. destruct (Nat.eqb_spec (length l) 0) as [H0|H0].
  { destruct l; [|done]. simpl. by case_decide. }
  assert (Eb : ((0 <? fromPos) && (0 <? endPos) && (endPos <=? fromPos))%Z
            = bool_decide (0 < fromPos /\ 0 < endPos /\ endPos <= fromPos)%Z).
  { destruct (Z.ltb_spec 0 fromPos), (Z.ltb_spec 0 endPos), (Z.leb_spec endPos fromPos);
      simpl; symmetry; (rewrite bool_decide_eq_true || rewrite bool_decide_eq_false); lia. }
  rewrite Eb. case_bool_decide; [by rewrite decide_True by done|]. rewrite decide_False by done.
  pose proof (collectIn_rep tl l) as HC.
  match goal with |- context [collectIn tl ?lo ?up _] =>
    specialize (HC lo up (length l) 0 R eq_refl); set (lo' := lo) in *; set (up' := up) in * end.
  rewrite Nat.add_0_r, drop_0 in HC. rewrite HC. simpl.
  assert (lo' = if decide (lower tl < fromPos < upper tl)%Z then fromPos else lower tl) as ->.
  { unfold lo'. destruct (Z.gtb_spec fromPos (lower tl)), (Z.ltb_spec fromPos (upper tl)); simpl;
      repeat case_decide; lia. }
  assert (up' = if decide (0 < endPos < upper tl)%Z then endPos else upper tl) as ->.
  { unfold up'. destruct (Z.ltb_spec 0 endPos), (Z.ltb_spec endPos (upper tl)); simpl;
      repeat case_decide; lia. }
  done.
Qed.

(** growing always ends: on a timeline with a positive size [Expanse] returns
    a size above both the old size minus one and the write position, so the
    doubling loop cannot run forever. *)
Theorem Expanse_terminates tl :
  0 < size tl -> exists n, Expanse tl = Ok n /\ offset tl < n /\ size tl <= n.
Proof using.
  intros Hs. unfold Expanse. destruct (Nat.leb_spec (size tl) (offset tl)).
  - destruct (expandLoop_spec (S (offset tl)) (size tl) (offset tl)) as (n & -> & ? & ?); [lia|lia|lia|].
    exists n. split; [done|]. lia.
  - exists (size tl). split; [done|]. lia.
Qed.

End Timeline.
Arguments TimeLines F : clear implicits.

(** ** Witnesses: integers as feeds *)

#[local] Instance z_feed : Feed Z := fun z => z.

Lemma Add_refines_witness :
  exists tl' l', Add (NewEvTimeLines 2 true) (Some 5%Z) = Ok (tl', evicted (NewEvTimeLines 2 true) []) /\
    Inv tl' l' /\ Permutation l' (window (NewEvTimeLines 2 true) [] 5%Z) /\
    limit tl' = limit (@NewEvTimeLines Z 2 true) /\
    (limit (@NewEvTimeLines Z 2 true) = false \/ ofo tl' = false ->
       l' = window (NewEvTimeLines 2 true) [] 5%Z).
Proof. apply Add_refines; [apply New_Inv; lia|reflexivity]. Defined.

Lemma bounded_keeps_newest_witness :
  exists tl, adds (NewEvTimeLines 2 true) [3; 5; 8]%Z = Ok tl /\
    GetAllFeeds tl = Ok (Some <$> newest 2 [3; 5; 8]%Z, offset tl - 2, offset tl, lower tl, upper tl) /\
    Bounds tl (newest 2 [3; 5; 8]%Z).
Proof.
  apply bounded_keeps_newest; [lia|repeat constructor|].
  repeat constructor; unfold GetOffset, z_feed; lia.
Defined.

Lemma unbounded_keeps_all_witness :
  exists tl, adds (NewEvTimeLines 1 false) [9; 5; 8]%Z = Ok tl /\
    GetAllFeeds tl = Ok (Some <$> [9; 5; 8]%Z, 0, offset tl, lower tl, upper tl) /\
    Bounds (set_bounds tl (GetFeedRange tl).1 (GetFeedRange tl).2) [9; 5; 8]%Z.
Proof. apply unbounded_keeps_all; [lia|repeat constructor]. Defined.

Lemma GetFeeds_selects_witness :
  GetFeeds (@NewEvTimeLines Z 4 true) 1 2 = Ok
    (if decide (0 < 1 /\ 0 < 2 /\ 2 <= 1)%Z then []
     else Some <$> filter (fun x => (if decide (0 < 1 < 0)%Z then 1 else 0) <= GetOffset x <=
            (if decide (0 < 2 < 0)%Z then 2 else 0))%Z [], 0, 0, 0%Z, 0%Z).
Proof. apply (GetFeeds_selects (@NewEvTimeLines Z 4 true) []). apply New_Inv. lia. Defined.

Lemma Expanse_terminates_witness :
  exists n, Expanse (mkTL 3 20 false 0 0 (replicate 3 (@None Z)) false) = Ok n /\ 20 < n /\ 3 <= n.
Proof. apply (Expanse_terminates (mkTL 3 20 false 0 0 (replicate 3 (@None Z)) false)). simpl. lia. Defined.

End Timeline.
