(* ===== verification/Ids.v ===== *)
(** * Matrix identifiers and server domains

    The helpers every component uses to take identifiers apart and to decide
    whether a domain is served here: [src/common/utils/utils.go],
    [src/common/domain/domainMng.go], [src/adapter/adapter.go], the identifier
    functions of [src/skunkworks/gomatrixserverlib] ([event.go],
    [eventcontent.go]) and of [src/rcsserver/processors/util.go]. *)

From Stdlib Require Import String Ascii ZArith List.
From stdpp Require Import base tactics list strings pretty.
From S2P Require Import Prelude.

#[local] Open Scope string_scope.

Module Ids.

(** [utils.DomainFromID], exported as [common.DomainFromID]. *)
Definition DomainFromID (id : string) : res string :=
  match cut_at ":" id with
  | Some (_, d) => Ok d
  | None => Err (ErrMsg "invalid ID missing ':'")
  end.

(** The calls [domain, _ := common.DomainFromID(id)] keep the empty string on
    an error. *)
Definition domainOrEmpty (id : string) : string :=
  match DomainFromID id with Ok d => d | _ => "" end.

(** gomatrixserverlib's own [domainFromID], with its error type. *)
Definition domainFromID (id : string) : res string :=
  match cut_at ":" id with
  | Some (_, d) => Ok d
  | None => Err (ErrNotAllowed "invalid ID")
  end.

(** [SplitID]: the sigil, the local part and the server name. *)
Definition SplitID (sigil : ascii) (id : string) : res (string * string) :=
  match id with
  | EmptyString => Err (ErrMsg "invalid ID doesn't start with sigil")
  | String c _ =>
      if negb (Ascii.eqb c sigil) then Err (ErrMsg "invalid ID doesn't start with sigil")
      else match cut_at ":" id with
           | None => Err (ErrMsg "invalid ID missing ':'")
           | Some (local, d) =>
               match local with
               | EmptyString => Panic      (* parts[0][1:] of an empty string *)
               | String _ l => Ok (l, d)
               end
           end
  end.

Definition maxIDLength : nat := 255.

(** [checkID]. *)
Definition checkID (id : string) (sigil : ascii) : res string :=
  d ← domainFromID id;
  match id with
  | EmptyString => Panic
  | String c _ =>
      if negb (Ascii.eqb c sigil) then Err (ErrMsg "invalid ID, wrong first byte")
      else if (maxIDLength <? String.length id)%nat then Err (ErrMsg "ID is too long")
      else Ok d
  end.

(** [isValidUserID]: indexing an empty string panics. *)
Definition isValidUserID (userID : string) : res bool :=
  match userID with
  | EmptyString => Panic
  | String c _ =>
      Ok (Ascii.eqb c "@" && match cut_at ":" userID with Some _ => true | None => false end)
  end.

(** ** Domains served here *)

(** [adapter.Contains] on a string slice, and [adapter.CheckSameDomain]. *)
Definition Contains (obj : string) (target : list string) : bool :=
  existsb (fun v => String.eqb v obj) target.

Definition CheckSameDomain (domainCfg domains : list string) : bool :=
  forallb (fun d => Contains d domainCfg) domains.

Record DomainMng := mkDomainMng {
  domains : list string;
  fromDb : bool;
}.

(** What [GetDomain] reads: the cached and the stored server names. *)
Record DomainSrc := mkDomainSrc {
  cacheDomains : res (list string);
  dbDomains : res (list string);
}.

(** The writes of [GetDomain] when the cache was empty: names put back into the
    cache, names inserted into the database, and the adapter's configuration. *)
Record DomainWrites := mkDomainWrites {
  toCache : list string;
  toDb : list string;
  toAdapter : option (list string);
}.

(** [DomainMng.GetDomain]. *)
Definition GetDomain (dm : DomainMng) (src : DomainSrc) : list string * DomainMng * DomainWrites :=
  if negb (fromDb dm) then (domains dm, dm, mkDomainWrites [] [] None)
  else
    let found (ds tc td : list string) :=
      (ds, mkDomainMng ds (fromDb dm), mkDomainWrites tc td (Some ds)) in
    let miss :=
      match dbDomains src with
      | Ok ds =>
          if (length ds <=? 0)%nat
          then found (domains dm) (domains dm) (domains dm)
          else found ds ds []
      | _ => (domains dm, dm, mkDomainWrites [] [] None)
      end in
    match cacheDomains src with
    | Ok ds => if (length ds <=? 0)%nat then miss else found ds [] []
    | _ => miss
    end.

(** The list of [CheckValidDomain] when a database-backed [DomainMng] exists. *)
Definition checkDomains (dm : option (DomainMng * DomainSrc)) (given : list string) : list string :=
  match dm with
  | Some (m, src) => if fromDb m then (GetDomain m src).1.1 else given
  | None => given
  end.

Definition CheckValidDomain (dm : option (DomainMng * DomainSrc)) (domain : string) (given : list string) : bool :=
  existsb (fun v => String.eqb v domain) (checkDomains dm given).

(** ** Identifiers of the RCS server *)

Definition isBot (account : string) : bool := str_contains "-bot:" account.

(** [getUsername]: [arr1[0][1:]] panics when the account starts with a colon. *)
Definition getUsername (account : string) : res string :=
  match cut_at ":" account with
  | None => Ok ""
  | Some (EmptyString, _) => Panic
  | Some (String _ l, _) => Ok l
  end.

Definition getDomain (account : string) : string := domainOrEmpty account.

Definition getID (fcID toFcID : string) : string :=
  if str_ltb fcID toFcID then fcID ++ toFcID else toFcID ++ fcID.

(** ** Facts *)

Lemma cut_at_app c a b :
  (forall a' b', a <> a' ++ String c b') -> cut_at c (a ++ String c b) = Some (a, b).
Proof.
  induction a as [|d a IH]; simpl; intros Hno.
  - by rewrite Ascii.eqb_refl.
  - destruct (Ascii.eqb_spec d c) as [->|Hne].
    + destruct (Hno "" a). done.
    + rewrite IH; [done|]. intros a' b' ->. by apply (Hno (String d a') b').
Qed.

Lemma domainFromID_agrees id d : domainFromID id = Ok d <-> DomainFromID id = Ok d.
Proof. unfold domainFromID, DomainFromID. by destruct (cut_at ":" id) as [[??]|]. Qed.

Lemma CheckValidDomain_In dm d given :
  CheckValidDomain dm d given = true <-> In d (checkDomains dm given).
Proof.
  unfold CheckValidDomain. rewrite existsb_exists. split.
  - intros (x & Hx & E%String.eqb_eq). by subst.
  - intros Hd. exists d. by rewrite String.eqb_refl.
Qed.

Lemma str_ltb_total a b : str_ltb a b = false -> str_ltb b a = false -> a = b.
Proof.
  unfold str_ltb, String.ltb. intros H1 H2.
  rewrite String.compare_antisym in H2.
  destruct (String.compare a b) eqn:E; simpl in *; try done.
  by apply String.compare_eq_iff in E.
Qed.

Lemma str_ltb_asym a b : str_ltb a b = true -> str_ltb b a = false.
Proof.
  unfold str_ltb, String.ltb. rewrite (String.compare_antisym b a).
  by destruct (String.compare a b).
Qed.

Lemma getID_sym a b : getID a b = getID b a.
Proof.
  unfold getID. destruct (str_ltb a b) eqn:E1, (str_ltb b a) eqn:E2; try done.
  - apply str_ltb_asym in E1. congruence.
  - by rewrite (str_ltb_total a b).
Qed.

End Ids.
