(* ===== verification/Unique.v ===== *)
(** * Sorting and removing duplicates in place

    [src/skunkworks/gomatrixutil/unique.go]: [Unique] over a [sort.Interface]
    (a slice with [Less] and [Swap] by index), [SortAndUnique] and
    [UniqueStrings], which the authorisation code uses on the state keys it
    needs.  The slice is a list, an index out of range panics. *)

From Stdlib Require Import String Ascii ZArith List Sorted Permutation.
From stdpp Require Import base tactics list strings.
From S2P Require Import Prelude Ids.

Module Unique.

Section Slice.
  Context {A : Type} (ltb : A -> A -> bool).

Definition Less (data : list A) (i j : nat) : res bool :=
  match data !! i, data !! j with
  | Some x, Some y => Ok (ltb x y)
  | _, _ => Panic
  end.

Definition Swap (data : list A) (i j : nat) : res (list A) :=
  match data !! i, data !! j with
  | Some x, Some y => Ok (<[j := x]> (<[i := y]> data))
  | _, _ => Panic
  end.

(** [sort.IsSorted]: no element is less than the one before it. *)
Fixpoint IsSorted (data : list A) : bool :=
  match data with
  | x :: ((y :: _) as rest) => negb (ltb y x) && IsSorted rest
  | _ => true
  end.

(** The loop of [Unique]: [n] iterations are left, [i] is the index read and
    [j] the next output position. *)
Fixpoint uniqueLoop (n i j : nat) (data : list A) : res (nat * list A) :=
  match n with
  | O => Ok (j, data)
  | S n' =>
      less ← Less data (i - 1) i;
      if (less : bool) then
        data' ← Swap data (i - 1) j;
        uniqueLoop n' (S i) (S j) data'
      else uniqueLoop n' (S i) j data
  end.

Definition Unique (data : list A) : res (nat * list A) :=
  if negb (IsSorted data) then Panic
  else if (length data =? 0)%nat then Ok (0, data)
  else
    '(j, data1) ← uniqueLoop (length data - 1) 1 0 data;
    data2 ← Swap data1 (length data - 1) j;
    Ok (S j, data2).

(** Sorting with the slice's [Less]: [sort_insert] puts [x] before [y] unless
    [y] is less. *)
Definition SortAndUnique (data : list A) : res (nat * list A) :=
  Unique (gosort (fun x y => negb (ltb y x)) data).

(** The elements [Unique] keeps: the last of each run of equal elements. *)
Fixpoint dedup (l : list A) : list A :=
  match l with
  | x :: ((y :: _) as rest) => if ltb x y then x :: dedup rest else dedup rest
  | l => l
  end.

Lemma Swap_middle out junk x rest :
  Swap (out ++ junk ++ x :: rest) (length (out ++ junk)) (length out) =
  Ok match junk with
     | [] => out ++ x :: rest
     | g :: junk' => out ++ x :: junk' ++ g :: rest
     end.
Proof using.
  unfold Swap. rewrite (app_assoc out junk), list_lookup_middle by done.
  destruct junk as [|g junk'].
  - rewrite !app_nil_r, list_lookup_middle by done.
    f_equal. rewrite list_insert_id; [|by apply list_lookup_insert_eq; rewrite length_app; simpl; lia].
    by rewrite list_insert_id by (by apply list_lookup_middle).
  - rewrite <- !app_assoc. simpl. rewrite list_lookup_middle by done. f_equal.
    change (out ++ g :: junk' ++ x :: rest) with (out ++ (g :: junk') ++ x :: rest).
    rewrite (app_assoc out (g :: junk') (x :: rest)).
    replace (length (out ++ g :: junk')) with (length (out ++ g :: junk') + 0)%nat by lia.
    rewrite insert_app_r. simpl. rewrite <- app_assoc.
    replace (length out) with (length out + 0)%nat at 1 by lia.
    rewrite insert_app_r. done.
Qed.

Lemma uniqueLoop_spec rest : forall out junk x,
  exists out' junk' z,
    uniqueLoop (length rest) (S (length (out ++ junk))) (length out) (out ++ junk ++ x :: rest)
      = Ok (length out', out' ++ junk' ++ [z]) /\
    length (out' ++ junk') = (length (out ++ junk) + length rest)%nat /\
    out' ++ [z] = out ++ dedup (x :: rest).
Proof using.
  induction rest as [|y rest IH]; intros out junk x.
  { exists out, junk, x. simpl. rewrite Nat.add_0_r. done. }
  cbn [length uniqueLoop].
  assert (HL : Less (out ++ junk ++ x :: y :: rest) (S (length (out ++ junk)) - 1) (S (length (out ++ junk)))
               = Ok (ltb x y)).
  { unfold Less. rewrite app_assoc, Nat.sub_succ, Nat.sub_0_r, list_lookup_middle by done.
    rewrite (lookup_app_r (out ++ junk)) by lia.
    by replace (S (length (out ++ junk)) - length (out ++ junk))%nat with 1%nat by lia. }
  rewrite HL. cbn [mbind res_bind]. rewrite Nat.sub_succ, Nat.sub_0_r.
  cbn [dedup]. destruct (ltb x y).
  - rewrite Swap_middle. cbn [mbind res_bind].
    set (junk2 := match junk with [] => [] | g :: j' => j' ++ [g] end).
    assert (HJ : match junk with
                 | [] => out ++ x :: y :: rest
                 | g :: junk' => out ++ x :: junk' ++ g :: y :: rest
                 end = (out ++ [x]) ++ junk2 ++ y :: rest).
    { subst junk2. destruct junk; rewrite <- app_assoc; [done|]. simpl. by rewrite <- app_assoc. }
    rewrite HJ.
    assert (HN : S (length (out ++ junk)) = length ((out ++ [x]) ++ junk2)).
    { subst junk2. destruct junk; rewrite ?length_app; simpl; rewrite ?length_app; simpl; lia. }
    rewrite HN. replace (S (length out)) with (length (out ++ [x])) by (rewrite length_app; simpl; lia).
    destruct (IH (out ++ [x]) junk2 y) as (o & j & z & -> & Hlen & Hd).
    exists o, j, z. split; [done|]. split; [lia|].
    rewrite Hd. by rewrite <- app_assoc.
  - destruct (IH out (junk ++ [x]) y) as (o & j & z & HE & Hlen & Hd).
    exists o, j, z. rewrite !length_app in *. simpl in *.
    replace (S (length out + length junk)) with (length out + (length junk + 1))%nat by lia.
    rewrite <- app_assoc in HE. simpl in HE.
    split; [done|]. split; [lia|done].
Qed.

Lemma Unique_spec data : IsSorted data = true ->
  exists n data', Unique data = Ok (n, data') /\ take n data' = dedup data.
Proof using.
  intros Hs. unfold Unique. rewrite Hs. simpl.
  destruct data as [|x rest]; [by exists 0%nat, []|].
  cbn [length Nat.eqb Nat.sub]. rewrite Nat.sub_0_r.
  destruct (uniqueLoop_spec rest [] [] x) as (o & j & z & HE & Hlen & Hd).
  simpl in HE, Hlen. cbn [app] in Hd. rewrite HE. cbn [mbind res_bind].
  rewrite <- Hlen, Swap_middle. cbn [mbind res_bind].
  eexists _, _. split; [done|]. rewrite <- Hd.
  replace (S (length o)) with (length (o ++ [z])) by (rewrite length_app; simpl; lia).
  destruct j as [|g j'].
  - by rewrite take_ge.
  - replace (o ++ z :: j' ++ [g]) with ((o ++ [z]) ++ j' ++ [g]) by (by rewrite <- app_assoc).
    by rewrite take_app_length.
Qed.

  Context (ltb_irrefl : forall x, ltb x x = false).
  Context (ltb_trans : forall x y z, ltb x y = true -> ltb y z = true -> ltb x z = true).
  Context (ltb_total : forall x y, ltb x y = false -> ltb y x = false -> x = y).

Lemma sorted_IsSorted data :
  StronglySorted (fun x y => negb (ltb y x) = true) data -> IsSorted data = true.
Proof using.
  induction 1 as [|x xs Hs IH Hall]; simpl; [done|].
  destruct xs as [|y ys]; [done|]. apply Forall_inv in Hall. by rewrite Hall, IH.
Qed.

Lemma dedup_elem x data :
  IsSorted data = true -> x ∈ dedup data <-> x ∈ data.
Proof using ltb_total.
  induction data as [|a [|b r] IH]; [done|done|].
  cbn [IsSorted dedup]. intros [Hab Hs]%andb_true_iff. specialize (IH Hs).
  destruct (ltb a b) eqn:E.
  - rewrite elem_of_cons, IH. by rewrite (elem_of_cons (b :: r)).
  - rewrite IH, (elem_of_cons (b :: r)). split; [by right|].
    intros [->|?]; [|done]. rewrite (ltb_total a b); [left|done|by apply negb_true_iff].
Qed.

Lemma dedup_strict data :
  StronglySorted (fun x y => negb (ltb y x) = true) data ->
  StronglySorted (fun x y => ltb x y = true) (dedup data).
Proof using ltb_trans ltb_total ltb_irrefl.
  induction 1 as [|x xs Hs IH Hall]; [constructor|].
  destruct xs as [|y ys]; [repeat constructor|].
  cbn [dedup]. destruct (ltb x y) eqn:E; [|done]. constructor; [done|].
  change (Forall (fun y0 => ltb x y0 = true) (dedup (y :: ys))).
  apply Forall_forall. intros z Hz. rewrite dedup_elem in Hz by (by apply sorted_IsSorted).
  apply elem_of_cons in Hz as [->|Hz]; [done|].
  inversion Hs as [|? ? _ Hy]; subst. rewrite Forall_forall in Hy.
  specialize (Hy z Hz). simpl in Hy. apply negb_true_iff in Hy.
  destruct (ltb y z) eqn:E2; [eauto|]. by rewrite <- (ltb_total y z).
Qed.

End Slice.

Definition UniqueStrings (strings : list string) : res (list string) :=
  '(n, data) ← SortAndUnique str_ltb strings;
  Ok (take n data).

(** The strict order of Go strings. *)
Lemma str_ltb_irrefl x : str_ltb x x = false.
Proof. destruct (str_ltb x x) eqn:E; [|done]. by rewrite (Ids.str_ltb_asym _ _ E) in E. Qed.

Lemma str_ltb_trans x y z : str_ltb x y = true -> str_ltb y z = true -> str_ltb x z = true.
Proof.
  revert y z. induction x as [|a x IH]; intros [|b y] [|c z]; unfold str_ltb, String.ltb in *; simpl; try done.
  destruct (Ascii.compare a b) eqn:E1, (Ascii.compare b c) eqn:E2; try done; intros H1 H2.
  - apply Ascii.compare_eq_iff in E1, E2. subst. unfold Ascii.compare. rewrite N.compare_refl.
    by apply (IH y z).
  - apply Ascii.compare_eq_iff in E1. subst. by rewrite E2.
  - apply Ascii.compare_eq_iff in E2. subst. by rewrite E1.
  - assert (Ascii.compare a c = Lt) as ->; [|done].
    revert E1 E2. unfold Ascii.compare. rewrite !N.compare_lt_iff. lia.
Qed.

Definition str_leb (x y : string) : bool := negb (str_ltb y x).

Lemma gosort_str_sorted ss : StronglySorted (fun x y => str_leb x y = true) (gosort str_leb ss).
Proof.
  apply gosort_sorted; unfold str_leb.
  - intros x y. destruct (str_ltb y x) eqn:E; simpl; [right|by left].
    by rewrite (Ids.str_ltb_asym _ _ E).
  - intros x y z H1%negb_true_iff H2%negb_true_iff. apply negb_true_iff.
    destruct (str_ltb z x) eqn:E; [|done]. destruct (str_ltb x y) eqn:E1.
    + rewrite (str_ltb_trans z x y) in H2; done.
    + rewrite (Ids.str_ltb_total x y) in E by done. congruence.
Qed.

Lemma UniqueStrings_eq ss : UniqueStrings ss = Ok (dedup str_ltb (gosort str_leb ss)).
Proof.
  unfold UniqueStrings, SortAndUnique. fold str_leb.
  destruct (Unique_spec str_ltb (gosort str_leb ss)) as (n & d & HU & Hd).
  { apply sorted_IsSorted, gosort_str_sorted. }
  change (gosort (fun x y => negb (str_ltb y x)) ss) with (gosort str_leb ss).
  rewrite HU. simpl. by rewrite Hd.
Qed.

Lemma UniqueStrings_elem ss r x : UniqueStrings ss = Ok r -> x ∈ r <-> x ∈ ss.
Proof.
  rewrite UniqueStrings_eq. intros [= <-].
  rewrite dedup_elem; [|apply Ids.str_ltb_total|apply sorted_IsSorted, gosort_str_sorted].
  by rewrite <- (gosort_perm str_leb ss).
Qed.

(** [UniqueStrings] never panics and returns the strictly ascending list of
    exactly the strings it was given: the in-place swaps of [Unique] lose no
    string and keep one of each. *)
Theorem UniqueStrings_spec (ss : list string) :
  exists r, UniqueStrings ss = Ok r /\
    StronglySorted (fun x y => str_ltb x y = true) r /\ (forall x, x ∈ r <-> x ∈ ss).
Proof.
  eexists. split; [apply UniqueStrings_eq|]. split.
  - apply dedup_strict; auto using str_ltb_irrefl, Ids.str_ltb_total, gosort_str_sorted.
    apply str_ltb_trans.
  - intros x. by apply UniqueStrings_elem, UniqueStrings_eq.
Qed.

End Unique.
