(* ===== verification/Event.v ===== *)
(** * Matrix events

    [src/skunkworks/gomatrixserverlib/event.go] and [src/common/events.go]: the
    event record, its accessors, the field checks, building an event, and the
    classification of state events.

    The JSON library (jsoniter) is not part of the repository.  What the code
    asks of it is the class [Codec]: one decoder per Go type that is unmarshalled
    from an event's content.  Nothing is assumed about the decoders, so the
    theorems hold for every JSON library; [toyCodec] is one instance, used to run
    the model. *)

From Stdlib Require Import String Ascii ZArith List.
From stdpp Require Import base tactics list gmap strings pretty.
From S2P Require Import Prelude Snowflake Ids.

#[local] Open Scope string_scope.
#[local] Open Scope Z_scope.

Module Event.

(** ** Constants of [eventauth.go] *)

Definition join := "join".
Definition ban := "ban".
Definition leave := "leave".
Definition invite := "invite".
Definition public := "public".
Definition unban := "unban".
Definition forget := "forget".
Definition MRoomCreate := "m.room.create".
Definition MRoomJoinRules := "m.room.join_rules".
Definition MRoomPowerLevels := "m.room.power_levels".
Definition MRoomMember := "m.room.member".
Definition MRoomThirdPartyInvite := "m.room.third_party_invite".
Definition MRoomAliases := "m.room.aliases".
Definition MRoomHistoryVisibility := "m.room.history_visibility".
Definition MRoomRedaction := "m.room.redaction".
Definition MRoomArchive := "m.room.archive".
Definition MRoomUpdate := "m.room.update".

(** ** Data *)

Record Event := mkEvent {
  RoomID : string;
  EventID : string;
  EventNID : Z;
  DomainOffset : Z;
  Sender : string;
  Type_ : string;
  StateKey : option string;
  Content : string;
  Redacts : string;
  Depth : Z;
  Unsigned : string;
  OriginServerTS : Z;
  Origin : string;
  RedactsSender : string;
}.

#[export] Instance Event_eq_dec : EqDecision Event.
Proof. solve_decision. Defined.

Record EventBuilder := mkEventBuilder {
  ebSender : string;
  ebRoomID : string;
  ebType : string;
  ebStateKey : option string;
  ebRedacts : string;
  ebDepth : Z;
  ebDomainOffset : Z;
  ebContent : string;
  ebUnsigned : string;
  ebRedactsSender : string;
}.

(** [EventReference]: the hash is always empty. *)
Record EventReference := mkEventReference {
  refEventID : string;
  refEventSHA256 : string;
}.

Definition eventReference (e : Event) : EventReference := mkEventReference (EventID e) "".

Record StateKeyTuple := mkStateKeyTuple {
  EventType : string;
  TupleStateKey : string;
}.

(** ** Accessors and setters *)

Definition StateKeyEquals (e : Event) (stateKey : string) : bool :=
  match StateKey e with
  | None => false
  | Some k => String.eqb k stateKey
  end.

Definition SetDepth (e : Event) (depth : Z) : Event :=
  {| RoomID := RoomID e; EventID := EventID e; EventNID := EventNID e;
     DomainOffset := DomainOffset e; Sender := Sender e; Type_ := Type_ e;
     StateKey := StateKey e; Content := Content e; Redacts := Redacts e;
     Depth := depth; Unsigned := Unsigned e; OriginServerTS := OriginServerTS e;
     Origin := Origin e; RedactsSender := RedactsSender e |}.

Definition SetDomainOffset (e : Event) (offset : Z) : Event :=
  {| RoomID := RoomID e; EventID := EventID e; EventNID := EventNID e;
     DomainOffset := offset; Sender := Sender e; Type_ := Type_ e;
     StateKey := StateKey e; Content := Content e; Redacts := Redacts e;
     Depth := Depth e; Unsigned := Unsigned e; OriginServerTS := OriginServerTS e;
     Origin := Origin e; RedactsSender := RedactsSender e |}.

Definition SetOriginServerTS (e : Event) (ts : Z) : Event :=
  {| RoomID := RoomID e; EventID := EventID e; EventNID := EventNID e;
     DomainOffset := DomainOffset e; Sender := Sender e; Type_ := Type_ e;
     StateKey := StateKey e; Content := Content e; Redacts := Redacts e;
     Depth := Depth e; Unsigned := Unsigned e; OriginServerTS := ts;
     Origin := Origin e; RedactsSender := RedactsSender e |}.

Definition SetRedactEventSender (e : Event) (sender : string) : Event :=
  {| RoomID := RoomID e; EventID := EventID e; EventNID := EventNID e;
     DomainOffset := DomainOffset e; Sender := Sender e; Type_ := Type_ e;
     StateKey := StateKey e; Content := Content e; Redacts := Redacts e;
     Depth := Depth e; Unsigned := Unsigned e; OriginServerTS := OriginServerTS e;
     Origin := Origin e; RedactsSender := sender |}.

(** ** Field checks *)

Definition CheckFields (e : Event) : res unit :=
  if (Ids.maxIDLength <? String.length (Type_ e))%nat
  then Err (ErrMsg "event type is too long")
  else if match StateKey e with
          | Some k => (Ids.maxIDLength <? String.length k)%nat
          | None => false
          end
  then Err (ErrMsg "state key is too long")
  else
    _ ← Ids.checkID (RoomID e) "!";
    senderDomain ← Ids.checkID (Sender e) "@";
    eventDomain ← Ids.checkID (EventID e) "$";
    if negb (String.eqb (Origin e) eventDomain)
    then Err (ErrMsg "event ID domain doesn't match origin")
    else if negb (String.eqb (Origin e) senderDomain) && negb (String.eqb (Type_ e) MRoomMember)
    then Err (ErrMsg "sender domain doesn't match origin")
    else Ok ().

(** [EventBuilder.Build]; the identifier is [fmt.Sprintf("$%d:%s")]. *)
Definition Build (eb : EventBuilder) (eventNID : Z) (origin : string) : res Event :=
  let result :=
    {| RoomID := ebRoomID eb;
       EventID := "$" ++ pretty eventNID ++ ":" ++ origin;
       EventNID := eventNID;
       DomainOffset := ebDomainOffset eb;
       Sender := ebSender eb;
       Type_ := ebType eb;
       StateKey := ebStateKey eb;
       Content := ebContent eb;
       Redacts := ebRedacts eb;
       Depth := ebDepth eb;
       Unsigned := ebUnsigned eb;
       OriginServerTS := 0;
       Origin := origin;
       RedactsSender := ebRedactsSender eb |} in
  _ ← CheckFields result;
  Ok result.

(** [common.BuildEvent]: the identifier comes from the generator (whose [Next]
    always returns a nil error); [Diverge] when the clock readings run out
    before it returns. *)
Definition BuildEvent (eb : EventBuilder) (domain : string)
    (g : Snowflake.UidGenerator) (clock : list Z) : res Event :=
  match Snowflake.Next g clock with
  | Some (nid, _, _) => Build eb nid domain
  | None => Diverge
  end.

(** ** The JSON library *)

Record createFields := mkCreateFields {
  Federate : option bool;
  Creator : string;
  IsOrganizationRoom : bool;
  IsGroupRoom : bool;
}.

Record memberThirdPartyInviteSigned := mkSigned {
  MXID : string;
  Signatures : gmap string (gmap string string);
  Token : string;
}.

Record memberThirdPartyInvite := mkMemberThirdPartyInvite {
  DisplayName : string;
  Signed : memberThirdPartyInviteSigned;
}.

Record memberContent := mkMemberContent {
  Membership : string;
  ThirdPartyInvite : option memberThirdPartyInvite;
}.

(** The raw JSON values of an [m.room.power_levels] content; [None] for an
    absent key. *)
Record powerRaw := mkPowerRaw {
  rawInvite : option string;
  rawBan : option string;
  rawKick : option string;
  rawRedact : option string;
  rawUsers : gmap string string;
  rawUsersDefault : option string;
  rawEvents : gmap string string;
  rawStateDefault : option string;
  rawEventsDefault : option string;
  rawOnlyOneMember : option bool;
}.

Class Codec := {
  (** [json.Unmarshal] into the types of [eventcontent.go]. *)
  decCreate : string -> option createFields;
  decMember : string -> option memberContent;
  decMemberPtr : string -> option (option memberContent);
  decJoinRule : string -> option string;
  decThirdPartyInvite : string -> option (list string);
  decPower : string -> option powerRaw;
  (** [json.Unmarshal] of one value into [int64], [string] and [float64]; the
      last one followed by the conversion to [int64]. *)
  decInt64 : string -> option Z;
  decString : string -> option string;
  decFloatInt : string -> option Z;
  (** [common.CreateContent]'s [is_direct]. *)
  decIsDirect : string -> option (option bool);
  (** The fields after an unmarshalling whose error is ignored: the membership
      of [external.MemberContent]; [m.federate] and [is_direct] of
      [common.CreateContent]. *)
  lenientMembership : string -> string;
  lenientCreate : string -> option bool * option bool;
  (** [json.Marshal] of the signed block, and [VerifyJSON] (which panics on a
      public key of the wrong length). *)
  encSigned : memberThirdPartyInviteSigned -> option string;
  verifyJSON : string -> string -> string -> string -> res unit;
}.

(** [Event.Membership]. *)
Definition membership `{Codec} (e : Event) : res string :=
  if negb (String.eqb (Type_ e) MRoomMember) then Err (ErrMsg "not an m.room.member event")
  else match decMember (Content e) with
       | Some c => Ok (Membership c)
       | None => Err (ErrMsg "json")
       end.

(** ** [src/common/events.go] *)

Definition IsCreatingDirectRoomEv `{Codec} (e : Event) : res bool :=
  if negb (String.eqb (Type_ e) MRoomCreate) then Ok false
  else match decIsDirect (Content e) with
       | None => Err (ErrMsg "json")
       | Some d => Ok (bool_decide (d = Some true))
       end.

Definition stateEvTypes : list string :=
  ["m.room.create"; "m.room.member"; "m.room.power_levels";
   "m.room.join_rules"; "m.room.history_visibility"; "m.room.visibility";
   "m.room.name"; "m.room.topic"; "m.room.pinned_events"; "m.room.desc";
   "m.room.aliases"; "m.room.canonical_alias"; "m.room.avatar";
   "m.room.encryption";
   "m.room.third_party_invite"; "m.room.guest_access"].

Definition IsStateEv (e : Event) : bool :=
  existsb (String.eqb (Type_ e)) stateEvTypes.

(** ** A codec to run the model with

    The content of a create event is its creator, of a member event its
    membership, of a join-rules event its rule, and of a power-levels event one
    of the given tables. *)
Definition toyCodec (tables : string -> option powerRaw) : Codec := {|
  decCreate := fun s => Some (mkCreateFields None s false false);
  decMember := fun s => Some (mkMemberContent s None);
  decMemberPtr := fun s => Some (Some (mkMemberContent s None));
  decJoinRule := fun s => Some s;
  decThirdPartyInvite := fun s => Some [s];
  decPower := tables;
  decInt64 := fun s =>
    if String.eqb s "0" then Some 0 else if String.eqb s "50" then Some 50
    else if String.eqb s "100" then Some 100 else None;
  decString := fun s => Some s;
  decFloatInt := fun s => None;
  decIsDirect := fun s => Some None;
  lenientMembership := fun s => s;
  lenientCreate := fun s => (None, None);
  encSigned := fun s => Some (MXID s);
  verifyJSON := fun d k p m => Ok ();
|}.

(** ** Facts *)

Lemma checkID_inv id sigil d :
  Ids.checkID id sigil = Ok d ->
  exists s, id = String sigil s /\ (String.length id <= Ids.maxIDLength)%nat /\ Ids.domainFromID id = Ok d.
Proof.
  unfold Ids.checkID. intros (d' & Hd & H)%bind_Ok.
  destruct id as [|c s]; [done|].
  destruct (Ascii.eqb_spec c sigil) as [->|]; simpl in H; [|done].
  destruct (_ <? _)%nat eqn:E; [done|]. apply Nat.ltb_ge in E. inv_res.
  exists s. auto.
Qed.

(** what [CheckFields] accepts: an event that passes it has well-formed
    room, sender and event identifiers of at most 255 bytes, its origin is the
    domain of its event identifier, and, member events apart, of its sender. *)
Theorem CheckFields_sound (e : Event) (H : CheckFields e = Ok ()) :
  Ids.DomainFromID (EventID e) = Ok (Origin e) /\
  (exists r s i, RoomID e = String "!" r /\ Sender e = String "@" s /\ EventID e = String "$" i) /\
  (String.length (RoomID e) <= 255 /\ String.length (Sender e) <= 255 /\
   String.length (EventID e) <= 255 /\ String.length (Type_ e) <= 255)%nat /\
  (Type_ e = MRoomMember \/ Ids.DomainFromID (Sender e) = Ok (Origin e)).
Proof.
  unfold CheckFields in H.
  destruct (_ <? _)%nat eqn:ET in H; [done|]. apply Nat.ltb_ge in ET.
  destruct (match StateKey e with Some _ => _ | None => _ end); [done|].
  apply bind_Ok in H as (d1 & (r & Hr & Lr & _)%checkID_inv & H).
  apply bind_Ok in H as (d2 & (s & Hs & Ls & Ds)%checkID_inv & H).
  apply bind_Ok in H as (d3 & (i & Hi & Li & Di)%checkID_inv & H).
  rewrite Ids.domainFromID_agrees in Ds. rewrite Ids.domainFromID_agrees in Di.
  destruct (String.eqb_spec (Origin e) d3) as [->|]; [|done]. simpl in H.
  unfold Ids.maxIDLength in *.
  split; [done|]. split; [by exists r, s, i|]. split; [done|].
  destruct (String.eqb_spec d3 d2) as [->|]; [by right|].
  destruct (String.eqb_spec (Type_ e) MRoomMember); [by left|done].
Qed.

Definition demoEvent : Event :=
  mkEvent "!r:a" "$1:a" 1 0 "@u:a" "m.room.message" None "hi" "" 3 "" 0 "a" "".

Lemma CheckFields_sound_witness :
  CheckFields demoEvent = Ok () /\ Ids.DomainFromID (EventID demoEvent) = Ok "a".
Proof.
  split; [reflexivity|]. exact (proj1 (CheckFields_sound demoEvent eq_refl)).
Defined.

End Event.
