(* ===== verification/EventContent.v ===== *)
(** * Contents of the events that authorisation reads

    [src/skunkworks/gomatrixserverlib/eventcontent.go]: the create, member,
    third-party-invite, join-rules and power-levels contents, loaded from the
    events an [AuthEventProvider] gives, with their defaults.  The provider is
    the interface of [eventauth.go]; its implementations are [AuthEvents]
    ([EventAuth]), the resolver of [StateRes] and the room state of
    [RoomState]. *)

From Stdlib Require Import String Ascii ZArith List.
From stdpp Require Import base tactics list gmap strings.
From S2P Require Import Prelude Ids Event.
Import Event.Event.

#[local] Open Scope string_scope.
#[local] Open Scope Z_scope.

Module EventContent.

(** The interface [AuthEventProvider]. *)
Class AuthEventProvider (P : Type) := {
  Create : P -> res (option Event);
  JoinRules : P -> res (option Event);
  PowerLevels : P -> res (option Event);
  Member : P -> string -> res (option Event);
  GetThirdPartyInvite : P -> string -> res (option Event);
}.

(** The configuration the checks read: the domains of this deployment
    ([adapter.GetDomainCfg]) and which event types skip the power-level check
    (the value of [skip] in [commonChecks], see [EventAuth.loadSkip]). *)
Class AuthConfig := {
  domainCfg : list string;
  skipEv : string -> bool;
}.

Record createContent := mkCreateContent {
  senderDomain : string;
  roomID : string;
  eventID : string;
  fields : createFields;
}.

Record powerLevelContent := mkPowerLevelContent {
  banLevel : Z;
  inviteLevel : Z;
  kickLevel : Z;
  redactLevel : Z;
  userLevels : gmap string Z;
  userDefaultLevel : Z;
  eventLevels : gmap string Z;
  eventDefaultLevel : Z;
  stateDefaultLevel : Z;
  onlyOneMember : bool;
}.

Section Loaders.
  Context `{Codec} `{AuthConfig} {P : Type} `{AuthEventProvider P}.

Definition newCreateContentFromAuthEvents (authEvents : P) : res createContent :=
  createEvent ← Create authEvents;
  match createEvent with
  | None => Err (ErrNotAllowed "missing create event")
  | Some ev =>
      match decCreate (Content ev) with
      | None => Err (ErrNotAllowed "unparsable create event content")
      | Some c =>
          d ← Ids.domainFromID (Sender ev);
          Ok (mkCreateContent d (RoomID ev) (EventID ev) c)
      end
  end.

Definition domainAllowed (c : createContent) (domain : string) : res unit :=
  if String.eqb domain (senderDomain c) then Ok ()
  else if match Federate (fields c) with None => true | Some b => b end then Ok ()
  else if Ids.CheckSameDomain domainCfg [domain; senderDomain c] then Ok ()
  else Err (ErrNotAllowed "room is unfederatable").

Definition userIDAllowed (c : createContent) (id : string) : res unit :=
  domain ← Ids.domainFromID id;
  domainAllowed c domain.

Definition newMemberContentFromEvent (event : Event) : res memberContent :=
  match decMember (Content event) with
  | Some c => Ok c
  | None => Err (ErrNotAllowed "unparsable member event content")
  end.

Definition newMemberContentFromAuthEvents (authEvents : P) (userID : string) : res memberContent :=
  memberEvent ← Member authEvents userID;
  match memberEvent with
  | None => Ok (mkMemberContent leave None)
  | Some ev => newMemberContentFromEvent ev
  end.

(** The public keys of the third-party invite. *)
Definition newThirdPartyInviteContentFromAuthEvents (authEvents : P) (token : string) : res (list string) :=
  ev ← GetThirdPartyInvite authEvents token;
  match ev with
  | None => Err (ErrNotAllowed "Couldn't find third party invite event")
  | Some e =>
      match decThirdPartyInvite (Content e) with
      | None => Err (ErrNotAllowed "unparsable third party invite event content")
      | Some keys => Ok keys
      end
  end.

Definition newJoinRuleContentFromAuthEvents (authEvents : P) : res string :=
  ev ← JoinRules authEvents;
  match ev with
  | None => Ok invite
  | Some e =>
      match decJoinRule (Content e) with
      | None => Err (ErrNotAllowed "unparsable join_rules event content")
      | Some r => Ok r
      end
  end.

(** ** Power levels *)

Definition userLevel (c : powerLevelContent) (userID : string) : Z :=
  match userLevels c !! userID with
  | Some level => level
  | None => userDefaultLevel c
  end.

Definition eventLevel (c : powerLevelContent) (eventType : string) (isState : bool) : Z :=
  if String.eqb eventType MRoomThirdPartyInvite then inviteLevel c
  else match eventLevels c !! eventType with
       | Some level => level
       | None => if isState then stateDefaultLevel c else eventDefaultLevel c
       end.

Definition thereIsOnlyOneMember (c : powerLevelContent) : bool := onlyOneMember c.

Definition defaults : powerLevelContent :=
  {| banLevel := 50; inviteLevel := 0; kickLevel := 50; redactLevel := 50;
     userLevels := ∅; userDefaultLevel := 0; eventLevels := ∅;
     eventDefaultLevel := 0; stateDefaultLevel := 50; onlyOneMember := false |}.

(** [strconv.ParseInt(s, 10, 64)]. *)
Fixpoint parseDigits (acc : Z) (s : string) : option Z :=
  match s with
  | EmptyString => Some acc
  | String c s' =>
      let d := Z.of_nat (nat_of_ascii c) - 48 in
      if (0 <=? d) && (d <=? 9) then parseDigits (10 * acc + d) s' else None
  end.

Definition parseUnsigned (s : string) : option Z :=
  match s with EmptyString => None | _ => parseDigits 0 s end.

Definition ParseInt (s : string) : option Z :=
  let '(neg, body) :=
    match s with
    | String "+" s' => (false, s')
    | String "-" s' => (true, s')
    | _ => (false, s)
    end in
  match parseUnsigned body with
  | None => None
  | Some un =>
      if negb neg && (2^63 <=? un) then None
      else if neg && (2^63 <? un) then None
      else Some (if neg : bool then - un else un)
  end.

(** [levelJSONValue.UnmarshalJSON] on the raw value. *)
Definition levelValue (data : string) : option Z :=
  match decInt64 data with
  | Some z => Some z
  | None =>
      match decString data with
      | Some s => ParseInt s
      | None => decFloatInt data
      end
  end.

(** [assignIfExists], with the unmarshalling of the value: [None] is the error
    of [UnmarshalJSON]. *)
Definition assignIfExists (raw : option string) (to : Z) : option Z :=
  match raw with
  | None => Some to
  | Some data => levelValue data
  end.

Definition levelMap (raw : gmap string string) : option (gmap string Z) :=
  if bool_decide (map_Forall (fun _ data => is_Some (levelValue data)) raw)
  then Some (omap levelValue raw) else None.

Definition unmarshalPower (raw : powerRaw) : option powerLevelContent :=
  let d := defaults in
  inv ← assignIfExists (rawInvite raw) (inviteLevel d);
  bn ← assignIfExists (rawBan raw) (banLevel d);
  kk ← assignIfExists (rawKick raw) (kickLevel d);
  rd ← assignIfExists (rawRedact raw) (redactLevel d);
  ud ← assignIfExists (rawUsersDefault raw) (userDefaultLevel d);
  sd ← assignIfExists (rawStateDefault raw) (stateDefaultLevel d);
  ed ← assignIfExists (rawEventsDefault raw) (eventDefaultLevel d);
  ul ← levelMap (rawUsers raw);
  el ← levelMap (rawEvents raw);
  Some {| banLevel := bn; inviteLevel := inv; kickLevel := kk; redactLevel := rd;
          userLevels := ul; userDefaultLevel := ud; eventLevels := el;
          eventDefaultLevel := ed; stateDefaultLevel := sd;
          onlyOneMember := match rawOnlyOneMember raw with
                           | Some b => b | None => onlyOneMember d end |}.

Definition newPowerLevelContentFromEvent (event : Event) : res powerLevelContent :=
  match decPower (Content event) ≫= unmarshalPower with
  | None => Err (ErrNotAllowed "unparsable power_levels event content")
  | Some c => Ok c
  end.

Definition newPowerLevelContentFromAuthEvents (authEvents : P) (creatorUserID : string) : res powerLevelContent :=
  powerLevelsEvent ← PowerLevels authEvents;
  match powerLevelsEvent with
  | Some ev => newPowerLevelContentFromEvent ev
  | None =>
      let c := defaults in
      Ok {| banLevel := banLevel c; inviteLevel := inviteLevel c; kickLevel := kickLevel c;
            redactLevel := redactLevel c; userLevels := {[ creatorUserID := 100 ]};
            userDefaultLevel := userDefaultLevel c; eventLevels := eventLevels c;
            eventDefaultLevel := eventDefaultLevel c; stateDefaultLevel := 0;
            onlyOneMember := onlyOneMember c |}
  end.

End Loaders.

(** ** Facts *)

Lemma parseDigits_nonneg s : forall acc z, 0 <= acc -> parseDigits acc s = Some z -> 0 <= z.
Proof.
  induction s as [|c s IH]; simpl; intros acc z Hacc E; [by injection E as <-|].
  destruct (_ && _) eqn:Ed; [|done]. apply andb_true_iff in Ed as [?%Z.leb_le ?%Z.leb_le].
  eapply IH, E. lia.
Qed.

Lemma ParseInt_in64 s z : ParseInt s = Some z -> in64 z.
Proof.
  unfold ParseInt. destruct (match s with String _ _ => _ | EmptyString => _ end) as [neg body].
  destruct (parseUnsigned body) as [un|] eqn:E; [|done].
  assert (0 <= un).
  { unfold parseUnsigned in E. destruct body; [done|]. by eapply (parseDigits_nonneg (String a body) 0). }
  unfold in64. destruct neg; simpl.
  - destruct (Z.ltb_spec (2^63) un); [done|]. intros [= <-]. lia.
  - destruct (Z.leb_spec (2^63) un); [done|]. intros [= <-]. lia.
Qed.

End EventContent.
