(* ===== verification/EventAuth.v ===== *)
(** * Event authorisation

    [src/skunkworks/gomatrixserverlib/eventauth.go]: which state an event needs
    to be authorised ([StateNeeded]), the map-backed provider ([AuthEvents]) and
    [Allowed] with the checks for each event type.  Error messages keep the fixed
    text of the source's format strings. *)

From Stdlib Require Import String Ascii ZArith List.
From stdpp Require Import base tactics list gmap strings.
From S2P Require Import Prelude Ids Unique Event EventContent.
Import Event.Event EventContent.EventContent.

#[local] Open Scope string_scope.
#[local] Open Scope Z_scope.

Module EventAuth.

(** ** The state an event needs *)

Record StateNeeded := mkStateNeeded {
  needCreate : bool;
  needJoinRules : bool;
  needPowerLevels : bool;
  needMember : list string;
  needThirdPartyInvite : list string;
}.

Definition noState : StateNeeded := mkStateNeeded false false false [] [].

Definition Tuples (s : StateNeeded) : list StateKeyTuple :=
  (if needCreate s then [mkStateKeyTuple MRoomCreate ""] else []) ++
  (if needJoinRules s then [mkStateKeyTuple MRoomJoinRules ""] else []) ++
  (if needPowerLevels s then [mkStateKeyTuple MRoomPowerLevels ""] else []) ++
  map (mkStateKeyTuple MRoomMember) (needMember s) ++
  map (mkStateKeyTuple MRoomThirdPartyInvite) (needThirdPartyInvite s).

Section References.
  Context {P : Type} `{AuthEventProvider P}.

(** One lookup of [AuthEventReferences]: an absent event is skipped. *)
Definition refOf (r : res (option Event)) : res (list EventReference) :=
  e ← r;
  Ok match e with Some ev => [eventReference ev] | None => [] end.

Fixpoint refsOf (f : string -> res (option Event)) (keys : list string) : res (list EventReference) :=
  match keys with
  | [] => Ok []
  | k :: ks => r ← refOf (f k); rs ← refsOf f ks; Ok (r ++ rs)%list
  end.

Definition AuthEventReferences (s : StateNeeded) (provider : P) : res (list EventReference) :=
  c ← (if needCreate s then refOf (Create provider) else Ok []);
  j ← (if needJoinRules s then refOf (JoinRules provider) else Ok []);
  p ← (if needPowerLevels s then refOf (PowerLevels provider) else Ok []);
  m ← refsOf (Member provider) (needMember s);
  t ← refsOf (GetThirdPartyInvite provider) (needThirdPartyInvite s);
  Ok (c ++ j ++ p ++ m ++ t)%list.

End References.

Definition thirdPartyInviteToken (t : memberThirdPartyInvite) : res string :=
  if String.eqb (Token (Signed t)) "" then Err (ErrMsg "missing 'third_party_invite.signed.token' JSON key")
  else Ok (Token (Signed t)).

(** [accumulateStateNeeded]: the updated [result], and the error. *)
Definition accumulateStateNeeded (result : StateNeeded) (eventType sender : string)
    (stateKey : option string) (content : option memberContent) : StateNeeded * res unit :=
  if String.eqb eventType MRoomCreate then (result, Ok ())
  else if String.eqb eventType MRoomAliases then
    (mkStateNeeded true (needJoinRules result) (needPowerLevels result)
                   (needMember result) (needThirdPartyInvite result), Ok ())
  else if String.eqb eventType MRoomMember then
    match content with
    | None => (result, Err (ErrNotAllowed "missing memberContent for m.room.member event"))
    | Some c =>
        let members := match stateKey with
                       | Some k => (needMember result ++ [sender; k])%list
                       | None => needMember result
                       end in
        let joinRules := needJoinRules result || String.eqb (Membership c) join in
        let result' := mkStateNeeded true joinRules true members (needThirdPartyInvite result) in
        match ThirdPartyInvite c with
        | None => (result', Ok ())
        | Some t =>
            match thirdPartyInviteToken t with
            | Ok token =>
                (mkStateNeeded true joinRules true members
                   (needThirdPartyInvite result ++ [token])%list, Ok ())
            | _ => (result', Err (ErrNotAllowed "could not get third-party token"))
            end
        end
    end
  else
    (mkStateNeeded true (needJoinRules result) true
       (needMember result ++ [sender])%list (needThirdPartyInvite result), Ok ()).

(** The member content [StateNeededForAuth] gives to the accumulation. *)
Definition memberContentOf `{Codec} (event : Event) : option memberContent :=
  if String.eqb (Type_ event) MRoomMember then
    match newMemberContentFromEvent event with Ok c => Some c | _ => None end
  else None.

Definition dedupNeeded (s : StateNeeded) : res StateNeeded :=
  m ← Unique.UniqueStrings (needMember s);
  t ← Unique.UniqueStrings (needThirdPartyInvite s);
  Ok (mkStateNeeded (needCreate s) (needJoinRules s) (needPowerLevels s) m t).

Definition accumulateEvent `{Codec} (result : StateNeeded) (event : Event) : StateNeeded * res unit :=
  accumulateStateNeeded result (Type_ event) (Sender event) (StateKey event) (memberContentOf event).

Definition StateNeededForAuth `{Codec} (events : list Event) : res StateNeeded :=
  dedupNeeded (fold_left (fun r e => (accumulateEvent r e).1) events noState).

Definition StateNeededForEventBuilder `{Codec} (builder : EventBuilder) : res StateNeeded :=
  content ← (if String.eqb (ebType builder) MRoomMember then
               match decMemberPtr (ebContent builder) with
               | Some c => Ok c
               | None => Err (ErrNotAllowed "unparsable member event content")
               end
             else Ok None);
  let '(result, err) := accumulateStateNeeded noState (ebType builder) (ebSender builder)
                                              (ebStateKey builder) content in
  r ← dedupNeeded result;
  _ ← err;
  Ok r.

(** ** The provider backed by a map *)

Record AuthEvents := mkAuthEvents { events : gmap (string * string) Event }.

Definition AddEvent (a : AuthEvents) (event : Event) : AuthEvents * res unit :=
  match StateKey event with
  | None => (a, Err (ErrMsg "AddEvent: event does not have a state key"))
  | Some k => (mkAuthEvents (<[(Type_ event, k) := event]> (events a)), Ok ())
  end.

Definition NewAuthEvents (evs : list Event) : AuthEvents :=
  fold_left (fun a e => (AddEvent a e).1) evs (mkAuthEvents ∅).

#[export] Instance AuthEvents_provider : AuthEventProvider AuthEvents := {|
  Create a := Ok (events a !! (MRoomCreate, ""));
  JoinRules a := Ok (events a !! (MRoomJoinRules, ""));
  PowerLevels a := Ok (events a !! (MRoomPowerLevels, ""));
  Member a k := Ok (events a !! (MRoomMember, k));
  GetThirdPartyInvite a k := Ok (events a !! (MRoomThirdPartyInvite, k));
|}.

(** ** The event types that skip the power-level check *)

(** [skipMapConf], with the regular expressions of Go's [regexp] as a parameter
    ([None]: the expression does not compile), and the cache [skipMap]. *)
Section Skip.
  Context `{GoRange} (regexpMatch : string -> string -> option bool).

(** The callback of [skipMapConf.Range], iterated until it returns false. *)
Fixpoint skipRange (eventType : string) (skip : bool) (conf : list (string * bool)) : bool :=
  match conf with
  | [] => skip
  | (patten, isReg) :: rest =>
      if isReg then
        let skip' := default false (regexpMatch patten eventType) in
        if skip' then true else skipRange eventType skip' rest
      else if String.eqb patten eventType then true
      else skipRange eventType skip rest
  end.

Definition loadSkip (conf : gmap string bool) (skipMap : gmap string bool) (eventType : string) : bool * gmap string bool :=
  match skipMap !! eventType with
  | Some v => (v, skipMap)
  | None =>
      let skip := skipRange eventType false (range conf) in
      (skip, <[eventType := skip]> skipMap)
  end.

Definition AddSkipItem (conf : gmap string bool) (patten : string) (isReg : bool) : gmap string bool :=
  <[patten := isReg]> conf.

End Skip.

(** ** The checks *)

Record eventAllower := mkEventAllower {
  create : createContent;
  member : memberContent;
  powerLevels : powerLevelContent;
}.

Record membershipAllower := mkMembershipAllower {
  targetID : string;
  senderID : string;
  senderMember : memberContent;
  oldMember : memberContent;
  newMember : memberContent;
  mcreate : createContent;
  mpowerLevels : powerLevelContent;
  joinRule : string;
  thirdPartyInvite : list string;
}.

Section Checks.
  Context `{GoRange} `{Codec} `{AuthConfig} {P : Type} `{AuthEventProvider P}.

(** [create, _ := authEvents.Create()]: an error leaves a nil event. *)
Definition optEvent (r : res (option Event)) : option Event :=
  match r with Ok e => e | _ => None end.

Definition createEventAllowed (event : Event) (authEvents : P) : res unit :=
  match optEvent (Create authEvents) with
  | Some _ => Err (ErrNotAllowed "create event must be the first event in the room")
  | None =>
      if negb (StateKeyEquals event "") then Err (ErrNotAllowed "create event state key is not empty")
      else
        roomIDDomain ← Ids.domainFromID (RoomID event);
        senderDomain ← Ids.domainFromID (Sender event);
        if negb (String.eqb senderDomain roomIDDomain)
        then Err (ErrNotAllowed "create event room ID domain does not match sender")
        else Ok ()
  end.

Definition aliasEventAllowed (event : Event) (authEvents : P) : res unit :=
  create ← newCreateContentFromAuthEvents authEvents;
  senderDomain ← Ids.domainFromID (Sender event);
  if negb (String.eqb (RoomID event) (roomID create))
  then Err (ErrNotAllowed "create event has different roomID")
  else
    _ ← domainAllowed create senderDomain;
    if negb (StateKeyEquals event senderDomain)
    then Err (ErrNotAllowed "alias state_key does not match sender domain")
    else Ok ().

(** *** Ordinary events *)

Definition newEventAllower (authEvents : P) (senderID : string) : res eventAllower :=
  c ← newCreateContentFromAuthEvents authEvents;
  m ← newMemberContentFromAuthEvents authEvents senderID;
  p ← newPowerLevelContentFromAuthEvents authEvents (Creator (fields c));
  Ok (mkEventAllower c m p).

Definition startsWithAt (s : string) : bool :=
  match s with String "@" _ => true | _ => false end.

Definition commonChecks (e : eventAllower) (event : Event) : res unit :=
  if negb (String.eqb (RoomID event) (roomID (create e)))
  then Err (ErrNotAllowed "create event has different roomID")
  else
    let sender := Sender event in
    let stateKey := StateKey event in
    _ ← userIDAllowed (create e) sender;
    if negb (String.eqb (Membership (member e)) join)
    then Err (ErrNotAllowed "sender not in room")
    else if negb (skipEv (Type_ event)) &&
            (userLevel (powerLevels e) sender <?
             eventLevel (powerLevels e) (Type_ event) (bool_decide (is_Some stateKey))) &&
            negb (String.eqb (Type_ event) MRoomArchive)
    then Err (ErrNotAllowed "sender is not allowed to send event")
    else match stateKey with
         | Some k =>
             if startsWithAt k && negb (String.eqb k sender)
             then Err (ErrNotAllowed "sender is not allowed to modify the state belonging to another user")
             else Ok ()
         | None => Ok ()
         end.

Definition defaultEventAllowed (event : Event) (authEvents : P) : res unit :=
  allower ← newEventAllower authEvents (Sender event);
  commonChecks allower event.

Definition redactEventAllowed (event : Event) (authEvents : P) : res unit :=
  allower ← newEventAllower authEvents (Sender event);
  _ ← commonChecks allower event;
  senderDomain ← Ids.domainFromID (Sender event);
  redactDomain ← Ids.domainFromID (Redacts event);
  if String.eqb senderDomain redactDomain then
    if String.eqb (Sender event) (RedactsSender event) then Ok ()
    else if String.eqb (Sender event) (Creator (fields (create allower))) then Ok ()
    else Err (ErrNotAllowed "not allowed to redact message")
  else if redactLevel (powerLevels allower) <=? userLevel (powerLevels allower) (Sender event)
  then Ok ()
  else Err (ErrNotAllowed "not allowed to redact message").

(** *** Power levels *)

Definition levelPair : Type := Z * Z.

Definition eventLevelChecks (oldPL newPL : powerLevelContent) : list levelPair :=
  [(banLevel oldPL, banLevel newPL); (inviteLevel oldPL, inviteLevel newPL);
   (kickLevel oldPL, kickLevel newPL); (redactLevel oldPL, redactLevel newPL);
   (stateDefaultLevel oldPL, stateDefaultLevel newPL);
   (eventDefaultLevel oldPL, eventDefaultLevel newPL)] ++
  map (fun kv => (eventLevel oldPL kv.1 false, eventLevel newPL kv.1 false)) (range (eventLevels newPL)) ++
  map (fun kv => (eventLevel oldPL kv.1 false, eventLevel newPL kv.1 false)) (range (eventLevels oldPL)).

Fixpoint checkEventPairs (senderLevel : Z) (checks : list levelPair) : res unit :=
  match checks with
  | [] => Ok ()
  | (old, new) :: rest =>
      if old =? new then checkEventPairs senderLevel rest
      else if senderLevel <? new then Err (ErrNotAllowed "the new level is above the level of the sender")
      else if senderLevel <? old then Err (ErrNotAllowed "the current level is above the level of the sender")
      else checkEventPairs senderLevel rest
  end.

Definition checkEventLevels (senderLevel : Z) (oldPL newPL : powerLevelContent) : res unit :=
  checkEventPairs senderLevel (eventLevelChecks oldPL newPL).

Definition userLevelChecks (oldPL newPL : powerLevelContent) : list (Z * Z * string) :=
  (userDefaultLevel oldPL, userDefaultLevel newPL, "") ::
  map (fun kv => (userLevel oldPL kv.1, userLevel newPL kv.1, kv.1)) (range (userLevels newPL)) ++
  map (fun kv => (userLevel oldPL kv.1, userLevel newPL kv.1, kv.1)) (range (userLevels oldPL)).

Fixpoint checkUserPairs (senderLevel : Z) (senderID : string) (newPL : powerLevelContent)
    (checks : list (Z * Z * string)) : res unit :=
  match checks with
  | [] => Ok ()
  | (old, new, userID) :: rest =>
      let continue := checkUserPairs senderLevel senderID newPL rest in
      if old =? new then continue
      else if senderLevel <? new then Err (ErrNotAllowed "the new level is above the level of the sender")
      else if String.eqb userID senderID then continue
      else if thereIsOnlyOneMember newPL then continue
      else if senderLevel <=? old
      then Err (ErrNotAllowed "the old level is equal to or above the level of the sender")
      else continue
  end.

Definition checkUserLevels (senderLevel : Z) (senderID : string) (oldPL newPL : powerLevelContent) : res unit :=
  checkUserPairs senderLevel senderID newPL (userLevelChecks oldPL newPL).

(** The loop over [newPowerLevels.userLevels]. *)
Fixpoint checkUserIDs (ids : list (string * Z)) : res unit :=
  match ids with
  | [] => Ok ()
  | (userID, _) :: rest =>
      valid ← Ids.isValidUserID userID;
      if (valid : bool) then checkUserIDs rest else Err (ErrNotAllowed "Not a valid user ID")
  end.

Definition powerLevelsEventAllowed (event : Event) (authEvents : P) : res unit :=
  allower ← newEventAllower authEvents (Sender event);
  _ ← commonChecks allower event;
  newPowerLevels ← newPowerLevelContentFromEvent event;
  _ ← checkUserIDs (range (userLevels newPowerLevels));
  oldEvent ← PowerLevels authEvents;
  match oldEvent with
  | None => Ok ()
  | Some _ =>
      let oldPowerLevels := powerLevels allower in
      let senderLevel := userLevel oldPowerLevels (Sender event) in
      _ ← checkEventLevels senderLevel oldPowerLevels newPowerLevels;
      checkUserLevels senderLevel (Sender event) oldPowerLevels newPowerLevels
  end.

(** *** Membership *)

Definition newMembershipAllower (authEvents : P) (event : Event) : res membershipAllower :=
  match StateKey event with
  | None => Err (ErrNotAllowed "m.room.member must be a state event")
  | Some target =>
      let sender := Sender event in
      c ← newCreateContentFromAuthEvents authEvents;
      nm0 ← newMemberContentFromEvent event;
      let nm := if String.eqb (Membership nm0) "kick"
                then mkMemberContent leave (ThirdPartyInvite nm0) else nm0 in
      om ← newMemberContentFromAuthEvents authEvents target;
      sm ← newMemberContentFromAuthEvents authEvents sender;
      pl ← newPowerLevelContentFromAuthEvents authEvents (Creator (fields c));
      jr ← (if String.eqb (Membership nm) "join"
            then newJoinRuleContentFromAuthEvents authEvents else Ok "");
      tp ← match ThirdPartyInvite nm with
           | Some t => newThirdPartyInviteContentFromAuthEvents authEvents (Token (Signed t))
           | None => Ok []
           end;
      Ok (mkMembershipAllower target sender sm om nm c pl jr tp)
  end.

Definition membershipFailed (m : membershipAllower) : res unit :=
  if String.eqb (senderID m) (targetID m)
  then Err (ErrNotAllowed "not allowed to change their membership")
  else Err (ErrNotAllowed "not allowed to change the membership of another user").

(** A loop that returns at the first success. *)
Fixpoint anyOf {A} (f : A -> res bool) (l : list A) : res bool :=
  match l with
  | [] => Ok false
  | x :: rest =>
      b ← f x;
      if (b : bool) then Ok true else anyOf f rest
  end.

(** The three nested loops: public keys, domains, key identifiers. *)
Definition signatureVerifies (t : memberThirdPartyInvite) (keys : list string) (msg : string) : res bool :=
  anyOf (fun publicKey =>
    anyOf (fun ds : string * gmap string string =>
      anyOf (fun kv : string * string =>
        if String.prefix "ed25519" kv.1 then
          match verifyJSON ds.1 kv.1 publicKey msg with
          | Ok _ => Ok true
          | Err _ => Ok false
          | Panic => Panic
          | Diverge => Diverge
          end
        else Ok false) (range ds.2))
      (range (Signatures (Signed t)))) keys.

Definition membershipAllowedFromThirdPartyInvite (m : membershipAllower) : res unit :=
  match ThirdPartyInvite (newMember m) with
  | None => Panic
  | Some t =>
      if negb (String.eqb (targetID m) (MXID (Signed t)))
      then Err (ErrNotAllowed "The invite target doesn't match with the Matrix ID provided by the identity server")
      else match encSigned (Signed t) with
           | None => Err (ErrMsg "json")
           | Some marshalledSigned =>
               ok ← signatureVerifies t (thirdPartyInvite m) marshalledSigned;
               if (ok : bool) then Ok ()
               else Err (ErrNotAllowed "Couldn't verify signature on third-party invite")
           end
  end.

Definition membershipAllowedSelf (m : membershipAllower) : res unit :=
  let new := Membership (newMember m) in
  let old := Membership (oldMember m) in
  let rule := joinRule m in
  if String.eqb new join &&
     (String.eqb old leave && String.eqb rule public
      || String.eqb old forget && String.eqb rule public
      || String.eqb old invite && String.eqb rule public
      || String.eqb old invite && String.eqb rule invite
      || String.eqb old join) then Ok ()
  else if String.eqb new leave && (String.eqb old join || String.eqb old invite) then Ok ()
  else if String.eqb new forget && (String.eqb old leave || String.eqb old ban) then Ok ()
  else membershipFailed m.

Definition membershipAllowedOther (m : membershipAllower) : res unit :=
  let new := Membership (newMember m) in
  let old := Membership (oldMember m) in
  let pl := mpowerLevels m in
  let senderLevel := userLevel pl (senderID m) in
  let targetLevel := userLevel pl (targetID m) in
  if negb (String.eqb (Membership (senderMember m)) join) then Err (ErrNotAllowed "sender is not in the room")
  else if String.eqb new ban && ((banLevel pl <=? senderLevel) && (targetLevel <=? senderLevel)) then Ok ()
  else if String.eqb new leave &&
          (String.eqb old ban && (banLevel pl <=? senderLevel)
           || negb (String.eqb old ban) && (kickLevel pl <=? senderLevel) && (targetLevel <? senderLevel)) then Ok ()
  else if String.eqb new invite &&
          (String.eqb old leave && (inviteLevel pl <=? senderLevel)
           || String.eqb old invite && (inviteLevel pl <=? senderLevel)
           || String.eqb old forget && (inviteLevel pl <=? senderLevel)) then Ok ()
  else membershipFailed m.

Definition membershipAllowed (m : membershipAllower) (event : Event) (prevEvent : option Event) : res unit :=
  let new := Membership (newMember m) in
  let creator := Creator (fields (mcreate m)) in
  if negb (String.eqb (roomID (mcreate m)) (RoomID event))
  then Err (ErrNotAllowed "create event has different roomID")
  else
    _ ← userIDAllowed (mcreate m) (senderID m);
    _ ← userIDAllowed (mcreate m) (targetID m);
    if (IsOrganizationRoom (fields (mcreate m)) || IsGroupRoom (fields (mcreate m))) &&
       String.eqb (senderID m) (targetID m) && String.eqb new invite then Ok ()
    else if String.eqb (targetID m) creator && String.eqb new join &&
            String.eqb (senderID m) (targetID m) && bool_decide (prevEvent = None) then Ok ()
    else if String.eqb new join && String.eqb (senderID m) creator &&
            negb (String.eqb (targetID m) creator) && bool_decide (prevEvent <> None) then Ok ()
    else if String.eqb new invite && bool_decide (is_Some (ThirdPartyInvite (newMember m)))
    then membershipAllowedFromThirdPartyInvite m
    else if String.eqb (targetID m) (senderID m) then membershipAllowedSelf m
    else membershipAllowedOther m.

Definition memberEventAllowed (event : Event) (authEvents : P) : res unit :=
  allower ← newMembershipAllower authEvents event;
  k ← deref (StateKey event);
  let pre := optEvent (Member authEvents k) in
  membershipAllowed allower event pre.

(** [Allowed]. *)
Definition Allowed (event : Event) (authEvents : P) : res unit :=
  let t := Type_ event in
  if String.eqb t MRoomCreate then createEventAllowed event authEvents
  else if String.eqb t MRoomAliases then aliasEventAllowed event authEvents
  else if String.eqb t MRoomMember then memberEventAllowed event authEvents
  else if String.eqb t MRoomPowerLevels then powerLevelsEventAllowed event authEvents
  else if String.eqb t MRoomRedaction || String.eqb t MRoomUpdate then redactEventAllowed event authEvents
  else defaultEventAllowed event authEvents.

End Checks.

End EventAuth.
