(* ===== verification/AuthFacts.v ===== *)
(** * What event authorisation guarantees

    Theorems about [EventAuth]: authorisation reads no more state than
    [StateNeededForAuth] says; the membership rules as an inductive
    specification, equivalent to the code; a change of power levels cannot
    exceed the sender's own level; and the two ways the power-level checks can be
    passed or broken that the code leaves open. *)

From Stdlib Require Import String Ascii ZArith List Permutation.
From stdpp Require Import base tactics list gmap strings.
From S2P Require Import Prelude Ids Unique Event EventContent EventAuth.
Import Event.Event EventContent.EventContent EventAuth.EventAuth.

#[local] Open Scope string_scope.
#[local] Open Scope Z_scope.

Module AuthFacts.

(** ** The state that authorisation reads *)

Definition lookupTuple {P} `{AuthEventProvider P} (p : P) (t : StateKeyTuple) : res (option Event) :=
  if String.eqb (EventType t) MRoomCreate then Create p
  else if String.eqb (EventType t) MRoomJoinRules then JoinRules p
  else if String.eqb (EventType t) MRoomPowerLevels then PowerLevels p
  else if String.eqb (EventType t) MRoomMember then Member p (TupleStateKey t)
  else GetThirdPartyInvite p (TupleStateKey t).

Section Locality.
  Context `{GoRange} `{Codec} `{AuthConfig} {P1 P2 : Type} `{AuthEventProvider P1} `{AuthEventProvider P2}.
  Context (p1 : P1) (p2 : P2).

(** The two providers agree on what [s] lists. *)
Record agree (s : StateNeeded) : Prop := {
  agree_create : needCreate s = true -> Create p1 = Create p2;
  agree_join : needJoinRules s = true -> JoinRules p1 = JoinRules p2;
  agree_power : needPowerLevels s = true -> PowerLevels p1 = PowerLevels p2;
  agree_member : forall u, u ∈ needMember s -> Member p1 u = Member p2 u;
  agree_invite : forall t, t ∈ needThirdPartyInvite s ->
    GetThirdPartyInvite p1 t = GetThirdPartyInvite p2 t;
}.

Lemma agree_Tuples s :
  (forall t, t ∈ Tuples s -> lookupTuple p1 t = lookupTuple p2 t) -> agree s.
Proof using.
  unfold Tuples. intros HT. split.
  - intros E. apply (HT (mkStateKeyTuple MRoomCreate "")). rewrite E. set_solver.
  - intros E. apply (HT (mkStateKeyTuple MRoomJoinRules "")). rewrite E. set_solver.
  - intros E. apply (HT (mkStateKeyTuple MRoomPowerLevels "")). rewrite E. set_solver.
  - intros u Hu. apply (HT (mkStateKeyTuple MRoomMember u)).
    rewrite !elem_of_app, !list_elem_of_fmap. eauto 8.
  - intros u Hu. apply (HT (mkStateKeyTuple MRoomThirdPartyInvite u)).
    rewrite !elem_of_app, !list_elem_of_fmap. eauto 8.
Qed.

Lemma agree_dedup s s' : dedupNeeded s = Ok s' -> agree s' -> agree s.
Proof using.
  unfold dedupNeeded. intros (m & Hm & (t & Ht & E)%bind_Ok)%bind_Ok HA. inv_res.
  destruct HA as [Hc Hj Hp Hmem Hinv]. simpl in *. split; auto.
  - intros u Hu. apply Hmem. by rewrite (Unique.UniqueStrings_elem _ _ _ Hm).
  - intros u Hu. apply Hinv. by rewrite (Unique.UniqueStrings_elem _ _ _ Ht).
Qed.

Lemma newCreate_agree : Create p1 = Create p2 ->
  newCreateContentFromAuthEvents p1 = newCreateContentFromAuthEvents p2.
Proof using. unfold newCreateContentFromAuthEvents. by intros ->. Qed.

Lemma newMember_agree u : Member p1 u = Member p2 u ->
  newMemberContentFromAuthEvents p1 u = newMemberContentFromAuthEvents p2 u.
Proof using. unfold newMemberContentFromAuthEvents. by intros ->. Qed.

Lemma newPower_agree c : PowerLevels p1 = PowerLevels p2 ->
  newPowerLevelContentFromAuthEvents p1 c = newPowerLevelContentFromAuthEvents p2 c.
Proof using. unfold newPowerLevelContentFromAuthEvents. by intros ->. Qed.

Lemma newEventAllower_agree u :
  Create p1 = Create p2 -> Member p1 u = Member p2 u -> PowerLevels p1 = PowerLevels p2 ->
  newEventAllower p1 u = newEventAllower p2 u.
Proof using.
  intros Hc Hm Hp. unfold newEventAllower. rewrite newCreate_agree, newMember_agree by done.
  destruct (newCreateContentFromAuthEvents p2); simpl; try done.
  destruct (newMemberContentFromAuthEvents p2 u); simpl; try done.
  by rewrite newPower_agree.
Qed.

(** An ordinary event: the create event, the power levels and the sender. *)
Lemma Allowed_ordinary event :
  Type_ event <> MRoomCreate -> Type_ event <> MRoomAliases -> Type_ event <> MRoomMember ->
  Create p1 = Create p2 -> Member p1 (Sender event) = Member p2 (Sender event) ->
  PowerLevels p1 = PowerLevels p2 -> Allowed event p1 = Allowed event p2.
Proof using.
  intros T1%String.eqb_neq T2%String.eqb_neq T3%String.eqb_neq Hc Hm Hp.
  unfold Allowed. rewrite T1, T2, T3.
  unfold powerLevelsEventAllowed, redactEventAllowed, defaultEventAllowed.
  by rewrite newEventAllower_agree, Hp by done.
Qed.

Lemma Allowed_member event k c :
  Type_ event = MRoomMember -> StateKey event = Some k -> decMember (Content event) = Some c ->
  Create p1 = Create p2 -> PowerLevels p1 = PowerLevels p2 ->
  (forall u, u ∈ [Sender event; k] -> Member p1 u = Member p2 u) ->
  (Membership c = join -> JoinRules p1 = JoinRules p2) ->
  (forall t, ThirdPartyInvite c = Some t ->
     GetThirdPartyInvite p1 (Token (Signed t)) = GetThirdPartyInvite p2 (Token (Signed t))) ->
  Allowed event p1 = Allowed event p2.
Proof using.
  intros Ht Hk Hc HC HP HM HJ HT. unfold Allowed. rewrite Ht. simpl.
  unfold memberEventAllowed. rewrite Hk. simpl. rewrite (HM k) by set_solver.
  enough (newMembershipAllower p1 event = newMembershipAllower p2 event) as -> by done.
  unfold newMembershipAllower, newMemberContentFromEvent. rewrite Hk, Hc, newCreate_agree by done.
  destruct (newCreateContentFromAuthEvents p2); simpl; try done.
  rewrite !newMember_agree by (apply HM; set_solver).
  destruct (newMemberContentFromAuthEvents p2 k); simpl; try done.
  destruct (newMemberContentFromAuthEvents p2 (Sender event)); simpl; try done.
  rewrite newPower_agree by done.
  destruct (newPowerLevelContentFromAuthEvents p2 _); simpl; try done.
  destruct (String.eqb_spec (Membership c) "kick") as [Ek|Nk]; simpl.
  - unfold newThirdPartyInviteContentFromAuthEvents.
    destruct (ThirdPartyInvite c) as [t|] eqn:Et; [|done]. by rewrite HT.
  - destruct (String.eqb_spec (Membership c) "join") as [Ej|Nj]; simpl.
    + unfold newJoinRuleContentFromAuthEvents. rewrite HJ by done.
      unfold newThirdPartyInviteContentFromAuthEvents.
      destruct (ThirdPartyInvite c) as [t|] eqn:Et; [|done]. by rewrite HT.
    + unfold newThirdPartyInviteContentFromAuthEvents.
      destruct (ThirdPartyInvite c) as [t|] eqn:Et; [|done]. by rewrite HT.
Qed.

(** C1: Authorisation is local for every event that is no [m.room.create] event and
    for which [StateNeededForAuth] lists the state it needs without an error of
    [accumulateStateNeeded]: two providers of any kind that agree on the listed (type,
    state key) pairs authorise it alike, with the same error. So fetching only those
    state events is enough for such an event. *)
Theorem Allowed_reads_only_needed (event : Event) (s : StateNeeded)
  (Hneeded : StateNeededForAuth [event] = Ok s)
  (Hnoerr : (accumulateEvent noState event).2 = Ok ())
  (Htype : Type_ event <> MRoomCreate)
  (Hagree : forall t, t ∈ Tuples s -> lookupTuple p1 t = lookupTuple p2 t) :
  Allowed event p1 = Allowed event p2.
Proof using.
  apply agree_Tuples in Hagree. apply (agree_dedup _ _ Hneeded) in Hagree. clear Hneeded.
  simpl in Hagree. unfold accumulateEvent, accumulateStateNeeded in Hnoerr, Hagree.
  apply String.eqb_neq in Htype as Htb. rewrite Htb in Hnoerr, Hagree.
  destruct (String.eqb_spec (Type_ event) MRoomAliases) as [Ea|Na].
  { unfold Allowed. rewrite Ea. simpl. unfold aliasEventAllowed.
    rewrite newCreate_agree by (by apply Hagree). done. }
  destruct (String.eqb_spec (Type_ event) MRoomMember) as [Em|Nm]; cycle 1.
  { destruct Hagree as [HC _ HP HM _]; simpl in *.
    apply Allowed_ordinary; auto. apply HM. set_solver. }
  unfold memberContentOf, newMemberContentFromEvent in Hnoerr, Hagree. rewrite Em in Hnoerr, Hagree. simpl in *.
  destruct (decMember (Content event)) as [c|] eqn:Ec; simpl in *; [|done].
  destruct (StateKey event) as [k|] eqn:Ek; cycle 1.
  { unfold Allowed. rewrite Em. simpl. unfold memberEventAllowed, newMembershipAllower. by rewrite Ek. }
  destruct (ThirdPartyInvite c) as [t|] eqn:Et.
  - unfold thirdPartyInviteToken in *. destruct (String.eqb_spec (Token (Signed t)) "") as [|]; [done|].
    destruct Hagree as [HC HJ HP HM HT]; simpl in *.
    eapply Allowed_member; eauto.
    + intros Hj. apply HJ. by rewrite Hj.
    + intros t' Ht'. assert (t' = t) as -> by congruence. apply HT. set_solver.
  - destruct Hagree as [HC HJ HP HM HT]; simpl in *.
    eapply Allowed_member; eauto.
    + intros Hj. apply HJ. by rewrite Hj.
    + congruence.
Qed.

End Locality.

(** ** The membership rules *)

Section Membership.
  Context `{GoRange} `{Codec} `{AuthConfig}.

(** The rules a membership change can be made by, one constructor per rule. *)
Inductive MayChange (m : membershipAllower) (prev : option Event) : Prop :=
  | mc_group_invite :
      IsOrganizationRoom (fields (mcreate m)) = true \/ IsGroupRoom (fields (mcreate m)) = true ->
      senderID m = targetID m -> Membership (newMember m) = invite -> MayChange m prev
  | mc_creator_joins :
      targetID m = Creator (fields (mcreate m)) -> senderID m = targetID m ->
      Membership (newMember m) = join -> prev = None -> MayChange m prev
  | mc_creator_adds :
      senderID m = Creator (fields (mcreate m)) -> targetID m <> Creator (fields (mcreate m)) ->
      Membership (newMember m) = join -> prev <> None -> MayChange m prev
  | mc_third_party t msg :
      Membership (newMember m) = invite -> ThirdPartyInvite (newMember m) = Some t ->
      targetID m = MXID (Signed t) -> encSigned (Signed t) = Some msg ->
      signatureVerifies t (thirdPartyInvite m) msg = Ok true -> MayChange m prev
  | mc_join_public :
      senderID m = targetID m -> Membership (newMember m) = join -> joinRule m = public ->
      Membership (oldMember m) ∈ [leave; forget; invite] -> MayChange m prev
  | mc_join_invited :
      senderID m = targetID m -> Membership (newMember m) = join -> joinRule m = invite ->
      Membership (oldMember m) = invite -> MayChange m prev
  | mc_stay :
      senderID m = targetID m -> Membership (newMember m) = join ->
      Membership (oldMember m) = join -> MayChange m prev
  | mc_leave :
      senderID m = targetID m -> Membership (newMember m) = leave ->
      Membership (oldMember m) ∈ [join; invite] -> MayChange m prev
  | mc_forget :
      senderID m = targetID m -> Membership (newMember m) = forget ->
      Membership (oldMember m) ∈ [leave; ban] -> MayChange m prev
  | mc_ban :
      senderID m <> targetID m -> Membership (senderMember m) = join ->
      Membership (newMember m) = ban ->
      banLevel (mpowerLevels m) <= userLevel (mpowerLevels m) (senderID m) ->
      userLevel (mpowerLevels m) (targetID m) <= userLevel (mpowerLevels m) (senderID m) ->
      MayChange m prev
  | mc_unban :
      senderID m <> targetID m -> Membership (senderMember m) = join ->
      Membership (newMember m) = leave -> Membership (oldMember m) = ban ->
      banLevel (mpowerLevels m) <= userLevel (mpowerLevels m) (senderID m) -> MayChange m prev
  | mc_kick :
      senderID m <> targetID m -> Membership (senderMember m) = join ->
      Membership (newMember m) = leave -> Membership (oldMember m) <> ban ->
      kickLevel (mpowerLevels m) <= userLevel (mpowerLevels m) (senderID m) ->
      userLevel (mpowerLevels m) (targetID m) < userLevel (mpowerLevels m) (senderID m) ->
      MayChange m prev
  | mc_invite :
      senderID m <> targetID m -> Membership (senderMember m) = join ->
      Membership (newMember m) = invite -> ThirdPartyInvite (newMember m) = None ->
      Membership (oldMember m) ∈ [leave; invite; forget] ->
      inviteLevel (mpowerLevels m) <= userLevel (mpowerLevels m) (senderID m) -> MayChange m prev.

(** Turn the boolean tests of the goal's hypotheses into propositions. *)
Ltac bools :=
  repeat match goal with
  | E : (_ && _)%bool = true |- _ => apply andb_true_iff in E as [? ?]
  | E : (_ || _)%bool = true |- _ => apply orb_true_iff in E as [?|?]
  | E : negb _ = true |- _ => apply negb_true_iff in E
  | E : negb _ = false |- _ => apply negb_false_iff in E
  | E : String.eqb _ _ = true |- _ => apply String.eqb_eq in E
  | E : String.eqb _ _ = false |- _ => apply String.eqb_neq in E
  | E : (_ <=? _) = true |- _ => apply Z.leb_le in E
  | E : (_ <? _) = true |- _ => apply Z.ltb_lt in E
  | E : bool_decide _ = true |- _ => apply bool_decide_eq_true in E
  | E : bool_decide _ = false |- _ => apply bool_decide_eq_false in E
  end.

Lemma membershipFailed_err m : membershipFailed m <> Ok ().
Proof using. unfold membershipFailed. by destruct (String.eqb _ _). Qed.

Lemma self_sound m prev :
  senderID m = targetID m -> membershipAllowedSelf m = Ok () -> MayChange m prev.
Proof using.
  intros Hs. unfold membershipAllowedSelf.
  destruct (_ && _)%bool eqn:E1.
  { intros _. bools; [apply mc_join_public|apply mc_join_public|apply mc_join_public
      |apply mc_join_invited|apply mc_stay]; auto; set_solver. }
  clear E1. destruct (_ && _)%bool eqn:E1.
  { intros _. bools; apply mc_leave; auto; set_solver. }
  clear E1. destruct (_ && _)%bool eqn:E1.
  { intros _. bools; apply mc_forget; auto; set_solver. }
  by intros ?%membershipFailed_err.
Qed.

Lemma other_sound m prev :
  senderID m <> targetID m ->
  (Membership (newMember m) = invite -> ThirdPartyInvite (newMember m) = None) ->
  membershipAllowedOther m = Ok () -> MayChange m prev.
Proof using.
  intros Hs H3. unfold membershipAllowedOther.
  destruct (negb _) eqn:Es; [done|]. bools.
  destruct (_ && _)%bool eqn:E1.
  { intros _. bools. by apply mc_ban. }
  clear E1. destruct (_ && _)%bool eqn:E1.
  { intros _. bools; [by apply mc_unban|by apply mc_kick]. }
  clear E1. destruct (_ && _)%bool eqn:E1.
  { intros _. bools; apply mc_invite; auto; set_solver. }
  by intros ?%membershipFailed_err.
Qed.

Lemma thirdparty_iff m :
  Membership (newMember m) = invite -> is_Some (ThirdPartyInvite (newMember m)) ->
  membershipAllowedFromThirdPartyInvite m = Ok () <->
  exists t msg, ThirdPartyInvite (newMember m) = Some t /\ targetID m = MXID (Signed t) /\
    encSigned (Signed t) = Some msg /\ signatureVerifies t (thirdPartyInvite m) msg = Ok true.
Proof using.
  intros Hn [t Ht]. unfold membershipAllowedFromThirdPartyInvite. rewrite Ht. split.
  - destruct (String.eqb_spec (targetID m) (MXID (Signed t))); simpl; [|done].
    destruct (encSigned (Signed t)) as [msg|] eqn:Ee; [|done].
    intros (b & Hb & Hok)%bind_Ok. destruct b; [|done]. eauto 8.
  - intros (t' & msg & [= <-] & -> & Ee & Hv). rewrite String.eqb_refl. simpl.
    by rewrite Ee, Hv.
Qed.

Lemma self_complete m prev :
  senderID m = targetID m -> MayChange m prev ->
  (Membership (newMember m) = invite -> ThirdPartyInvite (newMember m) = None) ->
  (Membership (newMember m) = invite ->
   IsOrganizationRoom (fields (mcreate m)) = true \/ IsGroupRoom (fields (mcreate m)) = true -> False) ->
  (targetID m = Creator (fields (mcreate m)) -> Membership (newMember m) = join -> prev = None -> False) ->
  membershipAllowedSelf m = Ok ().
Proof using.
  intros Hs HM H3p Hg Hc. unfold membershipAllowedSelf.
  destruct HM as [| | | |_ Hn Hr Ho|_ Hn Hr Ho|_ Hn Ho|_ Hn Ho|_ Hn Ho| | | |];
    try congruence; try (exfalso; by eauto); try (rewrite H3p in *; congruence).
  - rewrite Hn, Hr. simpl.
    apply elem_of_cons in Ho as [->|[->|[->|[]%elem_of_nil]%elem_of_cons]%elem_of_cons]; done.
  - by rewrite Hn, Hr, Ho.
  - by rewrite Hn, Ho.
  - rewrite Hn. by apply elem_of_cons in Ho as [->|[->|[]%elem_of_nil]%elem_of_cons].
  - rewrite Hn. by apply elem_of_cons in Ho as [->|[->|[]%elem_of_nil]%elem_of_cons].
Qed.

Lemma other_complete m prev :
  senderID m <> targetID m -> MayChange m prev ->
  (Membership (newMember m) = invite -> ThirdPartyInvite (newMember m) = None) ->
  (senderID m = Creator (fields (mcreate m)) -> targetID m <> Creator (fields (mcreate m)) ->
   Membership (newMember m) = join -> prev <> None -> False) ->
  membershipAllowedOther m = Ok ().
Proof using.
  intros Hs HM H3p Hadd. unfold membershipAllowedOther.
  destruct HM as [| | | | | | | | |_ Hj Hn Hl Ht|_ Hj Hn Ho Hl|_ Hj Hn Ho Hl Ht|_ Hj Hn _ Ho Hl];
    try congruence; try (exfalso; by eauto); try (rewrite H3p in *; congruence).
  - rewrite Hj, Hn. simpl. by rewrite !(proj2 (Z.leb_le _ _)).
  - rewrite Hj, Hn, Ho. simpl. by rewrite (proj2 (Z.leb_le _ _)).
  - rewrite Hj, Hn. simpl. rewrite (proj2 (String.eqb_neq _ _) Ho). simpl.
    by rewrite (proj2 (Z.leb_le _ _)), (proj2 (Z.ltb_lt _ _)).
  - rewrite Hj, Hn. simpl. rewrite (proj2 (Z.leb_le _ _)) by done.
    by apply elem_of_cons in Ho as [->|[->|[->|[]%elem_of_nil]%elem_of_cons]%elem_of_cons].
Qed.

Lemma membershipAllowed_rules (m : membershipAllower) (event : Event) (prev : option Event) :
  membershipAllowed m event prev = Ok () <->
  roomID (mcreate m) = RoomID event /\
  userIDAllowed (mcreate m) (senderID m) = Ok () /\
  userIDAllowed (mcreate m) (targetID m) = Ok () /\
  MayChange m prev.
Proof using.
  unfold membershipAllowed.
  destruct (String.eqb_spec (roomID (mcreate m)) (RoomID event)) as [Hr|Nr]; simpl; cycle 1.
  { split; [done|]. by intros []. }
  destruct (userIDAllowed (mcreate m) (senderID m)) as [[]| | |]; simpl;
    try (split; [done|intros (_ & ? & _); done]).
  destruct (userIDAllowed (mcreate m) (targetID m)) as [[]| | |]; simpl;
    try (split; [done|intros (_ & _ & ? & _); done]).
  match goal with |- ?A <-> _ /\ _ /\ _ /\ ?B => enough (A <-> B) by tauto end.
  destruct (_ && _)%bool eqn:E1.
  { split; [intros _|done]. bools; eapply mc_group_invite; eauto. }
  destruct (String.eqb (targetID m) _ && _ && _ && _)%bool eqn:E2.
  { split; [intros _|done]. bools. by apply mc_creator_joins. }
  destruct (String.eqb _ join && _ && _ && _)%bool eqn:E3.
  { split; [intros _|done]. bools. by apply mc_creator_adds. }
  destruct (String.eqb _ invite && bool_decide _)%bool eqn:E4.
  { bools. rewrite thirdparty_iff by done. split.
    - intros (t & msg & ? & ? & ? & ?). by eapply mc_third_party.
    - intros HM. destruct HM as [Hg Hs Hi| | |t msg| | | | | | | | |? ? ? HN];
        try (unfold invite, join, ban, leave, forget in *; congruence).
      + exfalso. revert E1. destruct Hg as [-> | ->]; rewrite ?orb_true_r; simpl;
        rewrite Hs, String.eqb_refl, Hi; done.
      + eauto 8.
      + rewrite HN in *. match goal with I : is_Some None |- _ => by apply is_Some_None in I end. }
  assert (H3p : Membership (newMember m) = invite -> ThirdPartyInvite (newMember m) = None).
  { intros Hi. rewrite Hi in E4. simpl in E4. bools. by apply eq_None_not_Some. }
  destruct (String.eqb_spec (targetID m) (senderID m)) as [Hst|Nst].
  - split; [by apply self_sound|]. intros HM. eapply self_complete; eauto.
    + intros Hi Hg. rewrite Hi, Hst, !String.eqb_refl in E1.
      destruct Hg as [Hg|Hg]; rewrite Hg, ?orb_true_r in E1; done.
    + intros Ht Hj Hp. rewrite Hj, Hp, <- Hst, Ht, !String.eqb_refl in E2. done.
  - split; [apply other_sound; auto|]. intros HM. eapply other_complete; eauto.
    intros Hs Ht Hj Hp. rewrite Hs, Hj, !String.eqb_refl in E3. simpl in E3.
    rewrite (proj2 (String.eqb_neq _ _) Ht), bool_decide_true in E3; done.
Qed.

  Context {P : Type} `{AuthEventProvider P}.

Lemma Allowed_member_inv event (p : P) :
  Type_ event = MRoomMember ->
  Allowed event p = Ok () <->
  exists m k, newMembershipAllower p event = Ok m /\ StateKey event = Some k /\
    membershipAllowed m event (optEvent (Member p k)) = Ok ().
Proof using.
  intros Ht. unfold Allowed. rewrite Ht. simpl. unfold memberEventAllowed. split.
  - intros (m & Hm & (k & Hk & Hok)%bind_Ok)%bind_Ok.
    destruct (StateKey event) as [k'|]; [|done]. injection Hk as ->. by exists m, k.
  - intros (m & k & Hm & Hk & Hok). rewrite Hm, Hk. done.
Qed.

(** C2: the membership rules: a member event is authorised exactly when its
    contents load, the create event is of the same room, the domains of sender
    and target may take part, and one of the rules of [MayChange] applies.  No
    other change is accepted and none of these is refused. *)
Theorem member_event_rules (event : Event) (p : P) (Htype : Type_ event = MRoomMember) :
  Allowed event p = Ok () <->
  exists m k, newMembershipAllower p event = Ok m /\ StateKey event = Some k /\
    roomID (mcreate m) = RoomID event /\
    userIDAllowed (mcreate m) (senderID m) = Ok () /\
    userIDAllowed (mcreate m) (targetID m) = Ok () /\
    MayChange m (optEvent (Member p k)).
Proof using.
  rewrite Allowed_member_inv by done. split; intros (m & k & Hm & Hk & HR);
    exists m, k; repeat split; try apply HR; try done; by apply membershipAllowed_rules in HR as (? & ? & ? & ?) || by apply membershipAllowed_rules.
Qed.

Lemma ban_refuses_join (event banEv : Event) (p : P) (c bc : memberContent)
  (Htype : Type_ event = MRoomMember)
  (Hself : StateKey event = Some (Sender event))
  (Hc : decMember (Content event) = Some c) (Hjoin : Membership c = join)
  (Hban : Member p (Sender event) = Ok (Some banEv))
  (Hbc : decMember (Content banEv) = Some bc) (Hbanned : Membership bc = ban) :
  Allowed event p <> Ok ().
Proof using.
  rewrite Allowed_member_inv by done. intros (m & k & Hm & Hk & HR).
  apply membershipAllowed_rules in HR as (_ & _ & _ & HR).
  assert (k = Sender event) as -> by congruence. rewrite Hban in HR. simpl in HR.
  unfold newMembershipAllower, newMemberContentFromEvent, newMemberContentFromAuthEvents,
    newMemberContentFromEvent in Hm.
  rewrite Hself, Hc, Hban in Hm. simpl in Hm. rewrite Hbc, Hjoin in Hm. simpl in Hm.
  repeat (apply bind_Ok in Hm as (? & _ & Hm)). inv_res. simpl in *.
  destruct HR; simpl in *; rewrite ?Hjoin, ?Hbanned in *; unfold join, ban, invite, leave, forget in *;
    try congruence; set_solver.
Qed.

(** a banned user cannot join: a join that a user sends for themselves is
    refused whatever the join rules and power levels, when the room state has
    their ban. *)
Theorem banned_cannot_join (event banEv : Event) (p : P) (c bc : memberContent)
  (Htype : Type_ event = MRoomMember)
  (Hself : StateKey event = Some (Sender event))
  (Hc : decMember (Content event) = Some c) (Hjoin : Membership c = join)
  (Hban : Member p (Sender event) = Ok (Some banEv))
  (Hbc : decMember (Content banEv) = Some bc) (Hbanned : Membership bc = ban) :
  Allowed event p <> Ok ().
Proof using. by eapply ban_refuses_join. Qed.

End Membership.

(** ** Changing power levels *)

Section Power.
  Context `{GoRange} `{Codec} `{AuthConfig} {P : Type} `{AuthEventProvider P}.

(** What [checkUserPairs] accepts of one pair. *)
Definition userPairOk (senderLevel : Z) (senderID : string) (newPL : powerLevelContent) (c : Z * Z * string) : Prop :=
  let '(old, new, userID) := c in
  old = new \/
  (new <= senderLevel /\ (userID = senderID \/ onlyOneMember newPL = true \/ old < senderLevel)).

Lemma checkUserPairs_iff lvl sid newPL checks :
  checkUserPairs lvl sid newPL checks = Ok () <-> Forall (userPairOk lvl sid newPL) checks.
Proof using.
  induction checks as [|[[old new] u] rest IH]; [simpl; split; auto|].
  rewrite Forall_cons. cbn [checkUserPairs]. unfold userPairOk at 1, thereIsOnlyOneMember.
  destruct (Z.eqb_spec old new); [tauto|].
  destruct (Z.ltb_spec lvl new); [split; [done|]; intros [[?|[? _]] _]; lia|].
  destruct (String.eqb_spec u sid); [tauto|].
  destruct (onlyOneMember newPL); [tauto|].
  destruct (Z.leb_spec lvl old); [split; [done|]; intros [[?|(_ & [?|[?|?]])] _]; done || lia|].
  tauto.
Qed.

Definition eventPairOk (senderLevel : Z) (c : levelPair) : Prop :=
  c.1 = c.2 \/ (c.1 <= senderLevel /\ c.2 <= senderLevel).

Lemma checkEventPairs_iff lvl checks :
  checkEventPairs lvl checks = Ok () <-> Forall (eventPairOk lvl) checks.
Proof using.
  induction checks as [|[old new] rest IH]; [simpl; split; auto|].
  rewrite Forall_cons. cbn [checkEventPairs]. unfold eventPairOk at 1. simpl.
  destruct (Z.eqb_spec old new); [tauto|].
  destruct (Z.ltb_spec lvl new); [split; [done|]; intros [? _]; lia|].
  destruct (Z.ltb_spec lvl old); [split; [done|]; intros [? _]; lia|].
  tauto.
Qed.

(** Every user's pair is checked, also that of a user no event lists. *)
Lemma userLevelChecks_covers lvl sid oldPL newPL u :
  Forall (userPairOk lvl sid newPL) (userLevelChecks oldPL newPL) ->
  userPairOk lvl sid newPL (userLevel oldPL u, userLevel newPL u, u) \/
  userPairOk lvl sid newPL (userLevel oldPL u, userLevel newPL u, "").
Proof using.
  unfold userLevelChecks. rewrite Forall_cons, Forall_app, !Forall_fmap.
  intros (Hd & Hn & Ho). rewrite Forall_forall in Hn. rewrite Forall_forall in Ho.
  destruct (userLevels newPL !! u) as [z|] eqn:En.
  { left. apply (Hn (u, z)). by apply range_elem. }
  destruct (userLevels oldPL !! u) as [z|] eqn:Eo.
  { left. apply (Ho (u, z)). by apply range_elem. }
  right. unfold userLevel. by rewrite En, Eo.
Qed.

Lemma powerLevelsEventAllowed_inv event p oldEv :
  powerLevelsEventAllowed event p = Ok () -> PowerLevels p = Ok (Some oldEv) ->
  exists oldPL newPL,
    newPowerLevelContentFromEvent oldEv = Ok oldPL /\
    newPowerLevelContentFromEvent event = Ok newPL /\
    checkEventLevels (userLevel oldPL (Sender event)) oldPL newPL = Ok () /\
    checkUserLevels (userLevel oldPL (Sender event)) (Sender event) oldPL newPL = Ok ().
Proof using.
  intros HA HP. unfold powerLevelsEventAllowed in HA.
  apply bind_Ok in HA as (al & Hal & HA). apply bind_Ok in HA as ([] & _ & HA).
  apply bind_Ok in HA as (newPL & Hnew & HA). apply bind_Ok in HA as ([] & _ & HA).
  rewrite HP in HA. simpl in HA. apply bind_Ok in HA as ([] & He & Hu).
  unfold newEventAllower in Hal.
  apply bind_Ok in Hal as (c & _ & Hal). apply bind_Ok in Hal as (mm & _ & Hal).
  apply bind_Ok in Hal as (pl & Hpl & Hal). inv_res.
  unfold newPowerLevelContentFromAuthEvents in Hpl. rewrite HP in Hpl. simpl in *.
  eauto 8.
Qed.

(** C3: No escalation of user levels in a room that has a power-levels event: when a
    new one is accepted over it, then for every user whose level it changes the new
    level is at most the old level of the sender; and unless the new event carries
    [only_one_member], the level of another user that changes was below the sender's.
    (The first power-levels event of a room may set any level.) *)
Theorem power_no_user_escalation (event oldEv : Event) (p : P) (oldPL newPL : powerLevelContent) (u : string)
  (Htype : Type_ event = MRoomPowerLevels)
  (Hallowed : Allowed event p = Ok ())
  (Hold : PowerLevels p = Ok (Some oldEv))
  (HoldPL : newPowerLevelContentFromEvent oldEv = Ok oldPL)
  (HnewPL : newPowerLevelContentFromEvent event = Ok newPL)
  (Hchange : userLevel oldPL u <> userLevel newPL u) :
  userLevel newPL u <= userLevel oldPL (Sender event) /\
  (onlyOneMember newPL = false -> u <> Sender event -> Sender event <> "" ->
   userLevel oldPL u < userLevel oldPL (Sender event)).
Proof using.
  unfold Allowed in Hallowed. rewrite Htype in Hallowed. simpl in Hallowed.
  destruct (powerLevelsEventAllowed_inv _ _ _ Hallowed Hold) as (o & n & Ho & Hn & _ & Hu).
  assert (o = oldPL) as -> by congruence. assert (n = newPL) as -> by congruence.
  apply checkUserPairs_iff in Hu.
  apply (userLevelChecks_covers _ _ _ _ u) in Hu. unfold userPairOk in Hu.
  destruct Hu as [[?|[Hle Hlt]]|[?|[Hle Hlt]]]; try congruence;
    (split; [done|]); intros Hone Hne Hnil;
    destruct Hlt as [?|[?|?]]; congruence || done.
Qed.

(** no escalation of the room's thresholds: an accepted power-levels event
    changes the ban, invite, kick, redact, default and per-type levels only
    within the sender's own level, both before and after. *)
Theorem power_no_threshold_escalation (event oldEv : Event) (p : P) (oldPL newPL : powerLevelContent)
  (Htype : Type_ event = MRoomPowerLevels)
  (Hallowed : Allowed event p = Ok ())
  (Hold : PowerLevels p = Ok (Some oldEv))
  (HoldPL : newPowerLevelContentFromEvent oldEv = Ok oldPL)
  (HnewPL : newPowerLevelContentFromEvent event = Ok newPL) :
  let within f := f oldPL = f newPL \/
    (f oldPL <= userLevel oldPL (Sender event) /\ f newPL <= userLevel oldPL (Sender event)) in
  within banLevel /\ within inviteLevel /\ within kickLevel /\ within redactLevel /\
  within stateDefaultLevel /\ within eventDefaultLevel /\
  (forall t, within (fun pl => eventLevel pl t false)).
Proof using.
  unfold Allowed in Hallowed. rewrite Htype in Hallowed. simpl in Hallowed.
  destruct (powerLevelsEventAllowed_inv _ _ _ Hallowed Hold) as (o & n & Ho & Hn & He & _).
  assert (o = oldPL) as -> by congruence. assert (n = newPL) as -> by congruence.
  unfold checkEventLevels, eventLevelChecks in He. rewrite checkEventPairs_iff in He.
  apply Forall_app in He as [Hnamed [HN HO]%Forall_app].
  repeat (apply Forall_cons in Hnamed as [? Hnamed]). simpl.
  repeat split; try done. intros t. unfold eventLevel.
  destruct (String.eqb_spec t MRoomThirdPartyInvite); [done|].
  rewrite Forall_fmap, Forall_forall in HN. rewrite Forall_fmap, Forall_forall in HO.
  assert (Hgen : forall z, eventLevels newPL !! t = Some z \/ eventLevels oldPL !! t = Some z ->
     eventPairOk (userLevel oldPL (Sender event)) (eventLevel oldPL t false, eventLevel newPL t false)).
  { intros z [Hz|Hz]; [apply (HN (t, z))|apply (HO (t, z))]; by apply range_elem. }
  unfold eventPairOk, eventLevel in Hgen. rewrite (proj2 (String.eqb_neq t _)) in Hgen by done. simpl in Hgen.
  destruct (eventLevels newPL !! t) as [z|]; [eauto|].
  destruct (eventLevels oldPL !! t) as [z|]; eauto.
Qed.

End Power.

(** ** The provider backed by a map *)

Lemma NewAuthEvents_snoc evs e : NewAuthEvents (evs ++ [e])%list = (AddEvent (NewAuthEvents evs) e).1.
Proof. unfold NewAuthEvents. by rewrite fold_left_app. Qed.

(** [NewAuthEvents] keeps, for every event type and state key, the last
    state event of the list with that type and key, and no other. *)
Theorem NewAuthEvents_last (evs : list Event) (t k : string) :
  events (NewAuthEvents evs) !! (t, k) =
  last (filter (fun e => Type_ e = t /\ StateKey e = Some k) evs).
Proof.
  induction evs as [|e evs IH] using rev_ind; [done|].
  rewrite NewAuthEvents_snoc, filter_app. unfold AddEvent.
  destruct (decide (Type_ e = t /\ StateKey e = Some k)) as [[Ht Hk]|Hno].
  - rewrite Hk. simpl. rewrite Ht, lookup_insert_eq.
    rewrite filter_cons_True by done. by rewrite filter_nil, last_snoc.
  - rewrite (filter_cons_False _ e) by done. rewrite filter_nil, app_nil_r, <- IH.
    destruct (StateKey e) as [k'|] eqn:Ek; [|done]. simpl.
    rewrite lookup_insert_ne; [done|]. intros [= <- <-]. by apply Hno.
Qed.

(** ** The event types that skip the power check *)

Section SkipFacts.
  Context `{GoRange} (regexpMatch : string -> string -> option bool).

(** An entry of the configuration matches the event type. *)
Definition skips (conf : gmap string bool) (t : string) : Prop :=
  exists patten isReg, conf !! patten = Some isReg /\
    if (isReg : bool) then regexpMatch patten t = Some true else patten = t.

Lemma skipRange_iff t l :
  skipRange regexpMatch t false l = true <->
  exists patten isReg, (patten, isReg) ∈ l /\
    if (isReg : bool) then regexpMatch patten t = Some true else patten = t.
Proof using.
  induction l as [|[p r] l IH]; simpl.
  { split; [done|]. intros (? & ? & []%elem_of_nil & _). }
  setoid_rewrite elem_of_cons. destruct r.
  - destruct (regexpMatch p t) as [[]|] eqn:E; simpl.
    + split; [|done]. intros _. exists p, true. auto.
    + rewrite IH. split; [intros (? & ? & ? & ?); eauto|].
      intros (q & b & [[= -> ->]|?] & Hb); [congruence|eauto].
    + rewrite IH. split; [intros (? & ? & ? & ?); eauto|].
      intros (q & b & [[= -> ->]|?] & Hb); [congruence|eauto].
  - destruct (String.eqb_spec p t) as [->|Hne].
    + split; [|done]. intros _. exists t, false. auto.
    + rewrite IH. split; [intros (? & ? & ? & ?); eauto|].
      intros (q & b & [[= -> ->]|?] & Hb); [congruence|eauto].
Qed.

Definition skipCoherent (conf skipMap : gmap string bool) : Prop :=
  forall t v, skipMap !! t = Some v -> (v = true <-> skips conf t).

(** the cache of the skip decisions is transparent: from an empty cache and
    under an unchanged configuration, every lookup answers whether some entry of
    the configuration matches the event type, in whatever order the entries are
    visited, and leaves the cache coherent. *)
Theorem loadSkip_coherent (conf skipMap : gmap string bool) (t : string)
  (Hco : skipCoherent conf skipMap) :
  ((loadSkip regexpMatch conf skipMap t).1 = true <-> skips conf t) /\
  skipCoherent conf (loadSkip regexpMatch conf skipMap t).2.
Proof using.
  assert (Hfresh : skipRange regexpMatch t false (range conf) = true <-> skips conf t).
  { rewrite skipRange_iff. unfold skips. by setoid_rewrite range_elem. }
  unfold loadSkip. destruct (skipMap !! t) as [v|] eqn:E; simpl; [eauto|].
  split; [done|]. intros t' v'. destruct (decide (t = t')) as [->|Hne].
  - rewrite lookup_insert_eq. by intros [= <-].
  - rewrite lookup_insert_ne by done. apply Hco.
Qed.

End SkipFacts.

Lemma loadSkip_coherent_witness :
  let conf : gmap string bool := {[ "m.typing" := false; "m.modular" := true ]} in
  skipCoherent (fun p t => Some (String.prefix p t)) conf ∅ /\
  ((loadSkip (fun p t => Some (String.prefix p t)) conf ∅ "m.modular.x").1 = true <->
   skips (fun p t => Some (String.prefix p t)) conf "m.modular.x").
Proof.
  assert (Hnil : forall conf, skipCoherent (fun p t => Some (String.prefix p t)) conf ∅)
    by (intros conf t v E; by rewrite lookup_empty in E).
  split; [apply Hnil|].
  exact (proj1 (loadSkip_coherent (fun p t => Some (String.prefix p t)) _ _ _ (Hnil _))).
Defined.

(** ** A room to run the checks in *)

Definition ev (type : string) (key : option string) (sender content : string) : Event :=
  mkEvent "!r:a" "$1:a" 1 0 sender type key content "" 3 "" 0 "a" "".

(** Power levels: alice 100 and bob 50; bob's event that lowers alice to 0 and
    claims to be alone; one that names the empty user. *)
Definition demoTables (s : string) : option powerRaw :=
  let pl users one := mkPowerRaw None None None None users None ∅ None None one in
  if String.eqb s "old" then Some (pl {[ "@alice:a" := "100"; "@bob:a" := "50" ]} None)
  else if String.eqb s "demote" then Some (pl {[ "@alice:a" := "0"; "@bob:a" := "50" ]} (Some true))
  else if String.eqb s "self" then Some (pl {[ "@alice:a" := "100"; "@bob:a" := "0" ]} None)
  else if String.eqb s "empty" then Some (pl {[ "" := "0" ]} None)
  else None.

#[local] Instance demoCodec : Codec := toyCodec demoTables.
#[local] Instance demoConfig : AuthConfig := {| domainCfg := ["a"]; skipEv := fun _ => false |}.

Definition demoRoom : AuthEvents := NewAuthEvents
  [ev MRoomCreate (Some "") "@alice:a" "@alice:a";
   ev MRoomMember (Some "@alice:a") "@alice:a" join;
   ev MRoomMember (Some "@bob:a") "@bob:a" join;
   ev MRoomMember (Some "@eve:a") "@alice:a" ban;
   ev MRoomJoinRules (Some "") "@alice:a" public;
   ev MRoomPowerLevels (Some "") "@alice:a" "old"].

Definition demoted : Event := ev MRoomPowerLevels (Some "") "@bob:a" "demote".

(** the [only_one_member] exception is taken from the event being checked,
    not from the room: bob, with level 50 in a room where alice has joined with
    level 100, is allowed to set alice's level to 0 by putting the flag in his
    own event. *)
Theorem only_one_member_demotes_admin :
  Allowed demoted demoRoom = Ok () /\
  exists oldPL newPL,
    newPowerLevelContentFromAuthEvents demoRoom "@alice:a" = Ok oldPL /\
    newPowerLevelContentFromEvent demoted = Ok newPL /\
    userLevel oldPL "@alice:a" = 100 /\ userLevel oldPL "@bob:a" = 50 /\
    userLevel newPL "@alice:a" = 0.
Proof. split; [by vm_compute|]. eexists _, _. by vm_compute. Qed.

(** a power-levels event that gives a level to the empty user identifier
    makes the check panic: [isValidUserID] reads the first byte of an empty
    string. *)
Theorem empty_user_id_panics :
  Allowed (ev MRoomPowerLevels (Some "") "@alice:a" "empty") demoRoom = Panic.
Proof. by vm_compute. Qed.

Lemma banned_cannot_join_witness :
  Allowed (ev MRoomMember (Some "@eve:a") "@eve:a" join) demoRoom <> Ok () /\
  Allowed (ev MRoomMember (Some "@carol:a") "@carol:a" join) demoRoom = Ok ().
Proof.
  split; [|by vm_compute].
  exact (banned_cannot_join (ev MRoomMember (Some "@eve:a") "@eve:a" join)
           (ev MRoomMember (Some "@eve:a") "@alice:a" ban) demoRoom
           (mkMemberContent join None) (mkMemberContent ban None)
           eq_refl eq_refl eq_refl eq_refl ltac:(by vm_compute) eq_refl eq_refl).
Defined.

Lemma member_event_rules_witness :
  Allowed (ev MRoomMember (Some "@bob:a") "@alice:a" ban) demoRoom = Ok () /\
  exists m k, newMembershipAllower demoRoom (ev MRoomMember (Some "@bob:a") "@alice:a" ban) = Ok m /\
    Some "@bob:a" = Some k /\
    roomID (mcreate m) = "!r:a" /\
    userIDAllowed (mcreate m) (senderID m) = Ok () /\
    userIDAllowed (mcreate m) (targetID m) = Ok () /\
    MayChange m (optEvent (Member demoRoom k)).
Proof.
  assert (E : Allowed (ev MRoomMember (Some "@bob:a") "@alice:a" ban) demoRoom = Ok ()) by (by vm_compute).
  split; [exact E|].
  exact (proj1 (member_event_rules (ev MRoomMember (Some "@bob:a") "@alice:a" ban) demoRoom eq_refl) E).
Defined.

Definition demoOldPL : powerLevelContent :=
  mkPowerLevelContent 50 0 50 50 {[ "@alice:a" := 100; "@bob:a" := 50 ]} 0 ∅ 0 50 false.
Definition demoNewPL : powerLevelContent :=
  mkPowerLevelContent 50 0 50 50 {[ "@alice:a" := 100; "@bob:a" := 0 ]} 0 ∅ 0 50 false.

Lemma power_no_user_escalation_witness :
  Allowed (ev MRoomPowerLevels (Some "") "@alice:a" "self") demoRoom = Ok () /\
  userLevel demoNewPL "@bob:a" <= userLevel demoOldPL "@alice:a".
Proof.
  assert (E : Allowed (ev MRoomPowerLevels (Some "") "@alice:a" "self") demoRoom = Ok ()) by (by vm_compute).
  split; [exact E|].
  exact (proj1 (power_no_user_escalation (ev MRoomPowerLevels (Some "") "@alice:a" "self")
    (ev MRoomPowerLevels (Some "") "@alice:a" "old") demoRoom demoOldPL demoNewPL "@bob:a"
    eq_refl E ltac:(by vm_compute) ltac:(by vm_compute) ltac:(by vm_compute) ltac:(by vm_compute))).
Defined.

Lemma power_no_threshold_escalation_witness :
  Allowed (ev MRoomPowerLevels (Some "") "@alice:a" "self") demoRoom = Ok () /\
  (banLevel demoOldPL = banLevel demoNewPL \/
   (banLevel demoOldPL <= 100 /\ banLevel demoNewPL <= 100)).
Proof.
  assert (E : Allowed (ev MRoomPowerLevels (Some "") "@alice:a" "self") demoRoom = Ok ()) by (by vm_compute).
  split; [exact E|].
  exact (proj1 (power_no_threshold_escalation (ev MRoomPowerLevels (Some "") "@alice:a" "self")
    (ev MRoomPowerLevels (Some "") "@alice:a" "old") demoRoom demoOldPL demoNewPL
    eq_refl E ltac:(by vm_compute) ltac:(by vm_compute) ltac:(by vm_compute))).
Defined.

(** The same room without the ban and the join rules, which a message does not
    need. *)
Definition demoRoomSmall : AuthEvents := NewAuthEvents
  [ev MRoomCreate (Some "") "@alice:a" "@alice:a";
   ev MRoomMember (Some "@bob:a") "@bob:a" join;
   ev MRoomPowerLevels (Some "") "@alice:a" "old"].

Lemma Allowed_reads_only_needed_witness :
  Allowed (ev "m.room.message" None "@bob:a" "hi") demoRoom =
  Allowed (ev "m.room.message" None "@bob:a" "hi") demoRoomSmall.
Proof.
  apply (Allowed_reads_only_needed demoRoom demoRoomSmall (ev "m.room.message" None "@bob:a" "hi")
           (mkStateNeeded true false true ["@bob:a"] [])); [by vm_compute|reflexivity|done|].
  intros t Ht. simpl in Ht.
  repeat (apply elem_of_cons in Ht as [->|Ht]; [by vm_compute|]). by apply elem_of_nil in Ht.
Defined.

End AuthFacts.
