(* ===== verification/AuthTotal.v ===== *)
(** * Authorisation always answers

    [Allowed] is total: it returns a verdict for every event and every room
    state, with two exceptions that are hypotheses here, an empty user identifier
    in the power levels of the event and a public key on which signature
    verification panics. *)

From Stdlib Require Import String Ascii ZArith List Permutation.
From stdpp Require Import base tactics list gmap strings.
From S2P Require Import Prelude Ids Event EventContent EventAuth.
Import Event.Event EventContent.EventContent EventAuth.EventAuth.

#[local] Open Scope string_scope.
#[local] Open Scope Z_scope.

Module AuthTotal.

(** A provider whose answers do not panic. *)
Record totalProvider `{AuthEventProvider P} (p : P) : Prop := {
  tp_create : returns (Create p);
  tp_join : returns (JoinRules p);
  tp_power : returns (PowerLevels p);
  tp_member : forall k, returns (Member p k);
  tp_third : forall k, returns (GetThirdPartyInvite p k);
}.

Section Total.
  Context `{GoRange} `{Codec} `{AuthConfig} {P : Type} `{AuthEventProvider P}.
  Context (Hverify : forall d k p m, returns (verifyJSON d k p m)).

(** The event gives no level to the empty user identifier. *)
Definition noEmptyUser (event : Event) : Prop :=
  Type_ event = MRoomPowerLevels ->
  forall pl, newPowerLevelContentFromEvent event = Ok pl -> userLevels pl !! "" = None.

#[local] Ltac returning :=
  repeat first
    [ done
    | progress eauto 2 with ligase
    | apply returns_bind; [|intros ? ?]
    | match goal with |- returns (if ?b then _ else _) => destruct b eqn:? end
    | match goal with |- returns (match ?o with _ => _ end) => destruct o end ].

Lemma domainFromID_returns id : returns (Ids.domainFromID id).
Proof using. unfold Ids.domainFromID. by destruct (cut_at _ _) as [[]|]. Qed.
#[local] Hint Resolve domainFromID_returns : ligase.

Lemma domainAllowed_returns c d : returns (domainAllowed c d).
Proof using. unfold domainAllowed. returning. Qed.
#[local] Hint Resolve domainAllowed_returns : ligase.

Lemma userIDAllowed_returns c id : returns (userIDAllowed c id).
Proof using. unfold userIDAllowed. returning. Qed.
#[local] Hint Resolve userIDAllowed_returns : ligase.

Lemma memberFromEvent_returns e : returns (newMemberContentFromEvent e).
Proof using. unfold newMemberContentFromEvent. returning. Qed.
Lemma powerFromEvent_returns e : returns (newPowerLevelContentFromEvent e).
Proof using. unfold newPowerLevelContentFromEvent. by destruct (_ ≫= _). Qed.
#[local] Hint Resolve memberFromEvent_returns powerFromEvent_returns : ligase.

Section Provider.
  Context (p : P) (Hp : totalProvider p).

#[local] Hint Resolve Hp : ligase.
#[local] Hint Resolve tp_create tp_join tp_power tp_member tp_third : ligase.

Lemma createContent_returns : returns (newCreateContentFromAuthEvents p).
Proof using Hp. unfold newCreateContentFromAuthEvents. returning. Qed.
Lemma memberContent_returns u : returns (newMemberContentFromAuthEvents p u).
Proof using Hp. unfold newMemberContentFromAuthEvents. returning. Qed.
Lemma powerContent_returns u : returns (newPowerLevelContentFromAuthEvents p u).
Proof using Hp. unfold newPowerLevelContentFromAuthEvents. returning. Qed.
Lemma joinContent_returns : returns (newJoinRuleContentFromAuthEvents p).
Proof using Hp. unfold newJoinRuleContentFromAuthEvents. returning. Qed.
Lemma thirdContent_returns t : returns (newThirdPartyInviteContentFromAuthEvents p t).
Proof using Hp. unfold newThirdPartyInviteContentFromAuthEvents. returning. Qed.
#[local] Hint Resolve createContent_returns memberContent_returns powerContent_returns
  joinContent_returns thirdContent_returns : ligase.

Lemma eventAllower_returns u : returns (newEventAllower p u).
Proof using Hp. unfold newEventAllower. returning. Qed.
#[local] Hint Resolve eventAllower_returns : ligase.

Lemma commonChecks_returns a e : returns (commonChecks a e).
Proof using. unfold commonChecks. returning. Qed.
#[local] Hint Resolve commonChecks_returns : ligase.

Lemma checkEventPairs_returns n l : returns (checkEventPairs n l).
Proof using. induction l as [|[] l IH]; simpl; returning. Qed.
Lemma checkUserPairs_returns n s pl l : returns (checkUserPairs n s pl l).
Proof using. induction l as [|[[] ] l IH]; simpl; returning. Qed.
#[local] Hint Resolve checkEventPairs_returns checkUserPairs_returns : ligase.

Lemma checkUserIDs_returns ids : Forall (fun kv => kv.1 <> "") ids -> returns (checkUserIDs ids).
Proof using.
  induction 1 as [|[[|a u] l] ids Hu _ IH]; simpl in *; returning.
Qed.

Lemma anyOf_returns {A} (f : A -> res bool) l : (forall x, returns (f x)) -> returns (anyOf f l).
Proof using. intros Hf. induction l; simpl; returning. Qed.

Lemma signature_returns t keys msg : returns (signatureVerifies t keys msg).
Proof using Hverify.
  unfold signatureVerifies. apply anyOf_returns. intros pk. apply anyOf_returns. intros ds. apply anyOf_returns. intros kv.
  destruct (String.prefix _ _); [|done]. pose proof (Hverify ds.1 kv.1 pk msg). by destruct (verifyJSON _ _ _ _).
Qed.
#[local] Hint Resolve signature_returns : ligase.

Lemma membershipAllower_returns e : returns (newMembershipAllower p e).
Proof using Hp. unfold newMembershipAllower. returning. Qed.
#[local] Hint Resolve membershipAllower_returns : ligase.

Lemma membershipFailed_returns m : returns (membershipFailed m).
Proof using. unfold membershipFailed. returning. Qed.
#[local] Hint Resolve membershipFailed_returns : ligase.

Lemma membershipAllowed_returns m e pre : returns (membershipAllowed m e pre).
Proof using Hverify.
  unfold membershipAllowed. returning.
  - unfold membershipAllowedFromThirdPartyInvite.
    destruct (ThirdPartyInvite (newMember m)) eqn:E; [returning|].
    match goal with HT : _ && bool_decide (is_Some None) = true |- _ => by apply andb_true_iff in HT as [_ HT] end.
  - unfold membershipAllowedSelf. returning.
  - unfold membershipAllowedOther. returning.
Qed.

#[local] Hint Resolve membershipAllowed_returns : ligase.

(** Authorisation by a provider that answers. *)
Lemma Allowed_returns e : noEmptyUser e -> returns (Allowed e p).
Proof using Hp Hverify.
  intros Hu. unfold Allowed.
  destruct (String.eqb (Type_ e) MRoomCreate); [unfold createEventAllowed; returning|].
  destruct (String.eqb (Type_ e) MRoomAliases); [unfold aliasEventAllowed; returning|].
  destruct (String.eqb (Type_ e) MRoomMember).
  { unfold memberEventAllowed. returning. unfold newMembershipAllower in *. by destruct (StateKey e). }
  destruct (String.eqb_spec (Type_ e) MRoomPowerLevels) as [Et|_].
  { unfold powerLevelsEventAllowed, checkEventLevels, checkUserLevels. returning. apply checkUserIDs_returns.
    apply Forall_forall. intros [u lvl] Hin%range_elem Eu. simpl in Eu. subst u. by erewrite Hu in Hin. }
  destruct (_ || _); [unfold redactEventAllowed|unfold defaultEventAllowed]; returning.
Qed.

End Provider.
End Total.

Section Claim.
  Context `{GoRange} `{Codec} `{AuthConfig}.
  Context (Hverify : forall d k p m, returns (verifyJSON d k p m)).

(** authorisation always answers.  Against any set of auth events, an event
    whose power levels do not name the empty user is allowed or refused with an
    error; the check never panics, as long as signature verification does
    not. *)
Theorem Allowed_total (event : Event) (evs : list Event) (Huser : noEmptyUser event) :
  Allowed event (NewAuthEvents evs) = Ok () \/ exists e, Allowed event (NewAuthEvents evs) = Err e.
Proof using Hverify.
  pose proof (Allowed_returns Hverify (NewAuthEvents evs) ltac:(by split) event Huser) as HR.
  destruct (Allowed event _) as [[]|e| |]; [by left|right; by exists e|done|done].
Qed.

End Claim.

(** ** A run *)

#[local] Instance demoCodec : Codec := toyCodec (fun s =>
  if String.eqb s "levels" then Some (mkPowerRaw None None None None {[ "@alice:a" := "100" ]} None ∅ None None None)
  else None).
#[local] Instance demoConfig : AuthConfig := {| domainCfg := ["a"]; skipEv := fun _ => false |}.

Definition stateEv (type key content : string) : Event :=
  mkEvent "!r:a" "$p:a" 1 0 "@alice:a" type (Some key) content "" 1 "" 1 "a" "".

Definition aliceRoom : list Event :=
  [stateEv MRoomCreate "" "@alice:a"; stateEv MRoomMember "@alice:a" join].

Lemma Allowed_total_witness :
  noEmptyUser (stateEv MRoomPowerLevels "" "levels") /\
  Allowed (stateEv MRoomPowerLevels "" "levels") (NewAuthEvents aliceRoom) = Ok () /\
  (Allowed (stateEv MRoomPowerLevels "" "levels") (NewAuthEvents aliceRoom) = Ok () \/
   exists e, Allowed (stateEv MRoomPowerLevels "" "levels") (NewAuthEvents aliceRoom) = Err e).
Proof.
  assert (Hu : noEmptyUser (stateEv MRoomPowerLevels "" "levels")).
  { intros _ pl E. vm_compute in E. injection E as <-. reflexivity. }
  split; [exact Hu|]. split; [vm_compute; reflexivity|].
  exact (Allowed_total (fun _ _ _ _ => I) _ aliceRoom Hu).
Defined.

End AuthTotal.
