(* ===== verification/StateRes.v ===== *)
(** * State resolution

    [src/skunkworks/gomatrixserverlib/stateresolution.go]: which event of a set
    of conflicting state events is kept for each type and state key.  The
    events are split into blocks of one type and state key; the blocks of the
    types that authorisation reads are resolved first, type by type, each against
    the events resolved before it; the other blocks follow.

    The maps of pointers never hold an event under a key that was set to nil, so
    a nil entry is a missing one here.  The SHA-1 digest of Go's library is a
    parameter. *)

From Stdlib Require Import String Ascii ZArith List.
From stdpp Require Import base tactics list gmap strings.
From S2P Require Import Prelude Ids Event EventContent EventAuth.
Import Event.Event EventContent.EventContent EventAuth.EventAuth.

#[local] Open Scope string_scope.
#[local] Open Scope Z_scope.

Module StateRes.

(** [stateResolver]: the blocks ... *)
Record Blocks := mkBlocks {
  bCreates : list Event;
  bPowerLevels : list Event;
  bJoinRules : list Event;
  bThirdPartyInvites : list (list Event);
  bMembers : list (list Event);
  bOthers : list (list Event);
}.

(** ... and the resolved auth events. *)
Record Resolved := mkResolved {
  resolvedCreate : option Event;
  resolvedPowerLevels : option Event;
  resolvedJoinRules : option Event;
  resolvedThirdPartyInvites : gmap string Event;
  resolvedMembers : gmap string Event;
}.

#[export] Instance Resolved_provider : AuthEventProvider Resolved := {|
  Create r := Ok (resolvedCreate r);
  JoinRules r := Ok (resolvedJoinRules r);
  PowerLevels r := Ok (resolvedPowerLevels r);
  Member r k := Ok (resolvedMembers r !! k);
  GetThirdPartyInvite r k := Ok (resolvedThirdPartyInvites r !! k);
|}.

(** ** Grouping the conflicted events *)

Definition conflictKey : Type := string * string.

Inductive blockList := LCreates | LPowerLevels | LJoinRules | LThirdPartyInvites | LMembers | LOthers.

#[export] Instance blockList_eq_dec : EqDecision blockList.
Proof. solve_decision. Defined.

(** The switch of [addConflicted]. *)
Definition listOf (key : conflictKey) : blockList :=
  let '(t, k) := key in
  if String.eqb t MRoomCreate then if String.eqb k "" then LCreates else LOthers
  else if String.eqb t MRoomPowerLevels then if String.eqb k "" then LPowerLevels else LOthers
  else if String.eqb t MRoomJoinRules then if String.eqb k "" then LJoinRules else LOthers
  else if String.eqb t MRoomMember then LMembers
  else if String.eqb t MRoomThirdPartyInvite then LThirdPartyInvites
  else LOthers.

(** Adding an event to its block in one of the block lists. *)
Definition addToBlock (offsets : gmap conflictKey nat) (blocks : list (list Event)) (key : conflictKey) (event : Event)
  : res (gmap conflictKey nat * list (list Event)) :=
  match offsets !! key with
  | Some offset =>
      match blocks !! offset with
      | Some block => Ok (offsets, <[offset := (block ++ [event])%list]> blocks)
      | None => Panic
      end
  | None => Ok (<[key := length blocks]> offsets, (blocks ++ [[event]])%list)
  end.

Definition addEvent (st : gmap conflictKey nat * Blocks) (event : Event) : res (gmap conflictKey nat * Blocks) :=
  let '(offsets, b) := st in
  stateKey ← deref (StateKey event);
  let key := (Type_ event, stateKey) in
  match listOf key with
  | LCreates => Ok (offsets, mkBlocks (bCreates b ++ [event]) (bPowerLevels b) (bJoinRules b) (bThirdPartyInvites b) (bMembers b) (bOthers b))
  | LPowerLevels => Ok (offsets, mkBlocks (bCreates b) (bPowerLevels b ++ [event]) (bJoinRules b) (bThirdPartyInvites b) (bMembers b) (bOthers b))
  | LJoinRules => Ok (offsets, mkBlocks (bCreates b) (bPowerLevels b) (bJoinRules b ++ [event]) (bThirdPartyInvites b) (bMembers b) (bOthers b))
  | LMembers =>
      '(o, l) ← addToBlock offsets (bMembers b) key event;
      Ok (o, mkBlocks (bCreates b) (bPowerLevels b) (bJoinRules b) (bThirdPartyInvites b) l (bOthers b))
  | LThirdPartyInvites =>
      '(o, l) ← addToBlock offsets (bThirdPartyInvites b) key event;
      Ok (o, mkBlocks (bCreates b) (bPowerLevels b) (bJoinRules b) l (bMembers b) (bOthers b))
  | LOthers =>
      '(o, l) ← addToBlock offsets (bOthers b) key event;
      Ok (o, mkBlocks (bCreates b) (bPowerLevels b) (bJoinRules b) (bThirdPartyInvites b) (bMembers b) l)
  end.

Fixpoint addEvents (st : gmap conflictKey nat * Blocks) (events : list Event) : res (gmap conflictKey nat * Blocks) :=
  match events with
  | [] => Ok st
  | event :: rest => st1 ← addEvent st event; addEvents st1 rest
  end.

Definition addConflicted (events : list Event) : res Blocks :=
  '(_, b) ← addEvents (∅, mkBlocks [] [] [] [] [] []) events; Ok b.

(** ** The resolved auth events *)

Definition set_create (r : Resolved) (o : option Event) : Resolved :=
  mkResolved o (resolvedPowerLevels r) (resolvedJoinRules r) (resolvedThirdPartyInvites r) (resolvedMembers r).
Definition set_power (r : Resolved) (o : option Event) : Resolved :=
  mkResolved (resolvedCreate r) o (resolvedJoinRules r) (resolvedThirdPartyInvites r) (resolvedMembers r).
Definition set_join (r : Resolved) (o : option Event) : Resolved :=
  mkResolved (resolvedCreate r) (resolvedPowerLevels r) o (resolvedThirdPartyInvites r) (resolvedMembers r).
Definition set_invites (r : Resolved) (m : gmap string Event) : Resolved :=
  mkResolved (resolvedCreate r) (resolvedPowerLevels r) (resolvedJoinRules r) m (resolvedMembers r).
Definition set_memberMap (r : Resolved) (m : gmap string Event) : Resolved :=
  mkResolved (resolvedCreate r) (resolvedPowerLevels r) (resolvedJoinRules r) (resolvedThirdPartyInvites r) m.

Definition addAuthEvent (r : Resolved) (event : Event) : res Resolved :=
  let t := Type_ event in
  if String.eqb t MRoomCreate then Ok (if StateKeyEquals event "" then set_create r (Some event) else r)
  else if String.eqb t MRoomPowerLevels then Ok (if StateKeyEquals event "" then set_power r (Some event) else r)
  else if String.eqb t MRoomJoinRules then Ok (if StateKeyEquals event "" then set_join r (Some event) else r)
  else if String.eqb t MRoomMember then
    k ← deref (StateKey event); Ok (set_memberMap r (<[k := event]> (resolvedMembers r)))
  else if String.eqb t MRoomThirdPartyInvite then
    k ← deref (StateKey event); Ok (set_invites r (<[k := event]> (resolvedThirdPartyInvites r)))
  else Panic.

Definition removeAuthEvent (r : Resolved) (eventType stateKey : string) : res Resolved :=
  if String.eqb eventType MRoomCreate then Ok (if String.eqb stateKey "" then set_create r None else r)
  else if String.eqb eventType MRoomPowerLevels then Ok (if String.eqb stateKey "" then set_power r None else r)
  else if String.eqb eventType MRoomJoinRules then Ok (if String.eqb stateKey "" then set_join r None else r)
  else if String.eqb eventType MRoomMember then Ok (set_memberMap r (delete stateKey (resolvedMembers r)))
  else if String.eqb eventType MRoomThirdPartyInvite then
    Ok (set_invites r (delete stateKey (resolvedThirdPartyInvites r)))
  else Panic.

Fixpoint addAuthEvents (r : Resolved) (events : list Event) : res Resolved :=
  match events with
  | [] => Ok r
  | e :: rest => r1 ← addAuthEvent r e; addAuthEvents r1 rest
  end.

(** ** Resolving a block *)

Section Resolve.
  Context `{GoRange} `{Codec} `{AuthConfig} (sha1 : string -> string).

Record conflictedEvent := mkConflicted { depth : Z; eventIDSHA1 : string; event : Event }.

Definition conflicted (e : Event) : conflictedEvent := mkConflicted (Depth e) (sha1 (EventID e)) e.

(** [conflictedEventSorter.Less]. *)
Definition Less (a b : conflictedEvent) : bool :=
  if depth a =? depth b then str_ltb (eventIDSHA1 b) (eventIDSHA1 a) else depth a <? depth b.

Definition sortConflictedEventsByDepthAndSHA1 (events : list Event) : list conflictedEvent :=
  gosort (fun a b => negb (Less b a)) (map conflicted events).

(** The loop of [resolveAuthBlock] over the newer events. *)
Fixpoint authCandidates (r : Resolved) (result : Event) (block : list conflictedEvent) : res (Event * Resolved) :=
  match block with
  | [] => Ok (result, r)
  | c :: rest =>
      match Allowed (event c) r with
      | Ok _ => r1 ← addAuthEvent r (event c); authCandidates r1 (event c) rest
      | Err _ => Ok (result, r)
      | Panic => Panic
      | Diverge => Diverge
      end
  end.

Definition resolveAuthBlock (r : Resolved) (events : list Event) : res (Event * Resolved) :=
  match sortConflictedEventsByDepthAndSHA1 events with
  | [] => Panic
  | c :: rest =>
      r1 ← addAuthEvent r (event c);
      '(result, r2) ← authCandidates r1 (event c) rest;
      k ← deref (StateKey result);
      r3 ← removeAuthEvent r2 (Type_ result) k;
      Ok (result, r3)
  end.

(** The loop of [resolveNormalBlock], from the newest event down to the second
    oldest. *)
Fixpoint newestAllowed (r : Resolved) (newestFirst : list conflictedEvent) : res (option Event) :=
  match newestFirst with
  | [] => Ok None
  | c :: rest =>
      match Allowed (event c) r with
      | Ok _ => Ok (Some (event c))
      | Err _ => newestAllowed r rest
      | Panic => Panic
      | Diverge => Diverge
      end
  end.

Definition resolveNormalBlock (r : Resolved) (events : list Event) : res Event :=
  match sortConflictedEventsByDepthAndSHA1 events with
  | [] => Panic
  | c :: rest =>
      o ← newestAllowed r (rev rest);
      Ok (default (event c) o)
  end.

(** ** Resolving all blocks *)

(** The first loop of [resolveAndAddAuthBlocks]. *)
Fixpoint resolveAuthBlocks (r : Resolved) (blocks : list (list Event)) : res (list Event * Resolved) :=
  match blocks with
  | [] => Ok ([], r)
  | [] :: rest => resolveAuthBlocks r rest
  | block :: rest =>
      '(e, r1) ← resolveAuthBlock r block;
      '(es, r2) ← resolveAuthBlocks r1 rest;
      Ok (e :: es, r2)
  end.

(** [resolveAndAddAuthBlocks]; the state is the auth events and the result. *)
Definition resolveAndAddAuthBlocks (st : Resolved * list Event) (blocks : list (list Event)) : res (Resolved * list Event) :=
  let '(r, result) := st in
  '(es, r1) ← resolveAuthBlocks r blocks;
  r2 ← addAuthEvents r1 es;
  Ok (r2, (result ++ es)%list).

Fixpoint resolveNormalBlocks (r : Resolved) (blocks : list (list Event)) : res (list Event) :=
  match blocks with
  | [] => Ok []
  | block :: rest =>
      e ← resolveNormalBlock r block;
      es ← resolveNormalBlocks r rest;
      Ok (e :: es)
  end.

Definition emptyResolved : Resolved := mkResolved None None None ∅ ∅.

Definition ResolveStateConflicts (conflicted authEvents : list Event) : res (list Event) :=
  b ← addConflicted conflicted;
  r0 ← addAuthEvents emptyResolved authEvents;
  st1 ← resolveAndAddAuthBlocks (r0, []) [bCreates b];
  st2 ← resolveAndAddAuthBlocks st1 [bPowerLevels b];
  st3 ← resolveAndAddAuthBlocks st2 [bJoinRules b];
  st4 ← resolveAndAddAuthBlocks st3 (bThirdPartyInvites b);
  st5 ← resolveAndAddAuthBlocks st4 (bMembers b);
  es ← resolveNormalBlocks st5.1 (bOthers b);
  Ok (st5.2 ++ es)%list.

End Resolve.

End StateRes.
