(* ===== verification/StateResFacts.v ===== *)
(** * What state resolution guarantees

    Theorems about [StateRes]: resolution keeps exactly one of the conflicting
    events for each type and state key, and the choice does not depend on the
    order in which the conflicting events are given, which is what lets servers
    agree; a ban is not undone by a conflicting join. *)

From Stdlib Require Import String Ascii ZArith List Permutation.
From stdpp Require Import base tactics list gmap strings.
From S2P Require Import Prelude Ids Unique Event EventContent EventAuth AuthFacts AuthTotal StateRes.
Import Event.Event EventContent.EventContent EventAuth.EventAuth StateRes.StateRes.

#[local] Open Scope string_scope.
#[local] Open Scope Z_scope.

Module StateResFacts.

(** ** Keys and blocks *)

Definition keyOf (e : Event) : conflictKey := (Type_ e, default "" (StateKey e)).
Definition hasKey (e : Event) : Prop := is_Some (StateKey e).

Definition blockOf (l : list Event) (k : conflictKey) : list Event := filter (fun e => keyOf e = k) l.

(** The keys of [l] that belong to one block list. *)
Record keysIn (L : blockList) (l : list Event) (ks : list conflictKey) : Prop := {
  ki_nodup : NoDup ks;
  ki_keys : forall k, k ∈ ks <-> listOf k = L /\ k ∈ (keyOf <$> l);
}.

Lemma hasKey_key e : hasKey e -> StateKey e = Some (keyOf e).2.
Proof. intros [k E]. unfold keyOf. by rewrite E. Qed.

Lemma blockOf_snoc l e k :
  blockOf (l ++ [e]) k = (blockOf l k ++ (if decide (keyOf e = k) then [e] else []))%list.
Proof. unfold blockOf. by rewrite filter_app. Qed.

Lemma elem_of_blockOf l k e : e ∈ blockOf l k <-> keyOf e = k /\ e ∈ l.
Proof. unfold blockOf. by rewrite list_elem_of_filter. Qed.

Lemma elem_of_keys_snoc l e k :
  k ∈ (keyOf <$> (l ++ [e])%list) <-> k ∈ (keyOf <$> l) \/ k = keyOf e.
Proof. rewrite fmap_app, elem_of_app. simpl. by rewrite list_elem_of_singleton. Qed.

Lemma blockOf_nil l k : k ∉ (keyOf <$> l) -> blockOf l k = [].
Proof.
  intros Hk. destruct (blockOf l k) as [|e b] eqn:E; [done|]. exfalso. apply Hk.
  assert (He : e ∈ blockOf l k) by (rewrite E; left). apply elem_of_blockOf in He as [<- He].
  by apply list_elem_of_fmap_2.
Qed.

Lemma blockOf_nonnil l k : k ∈ (keyOf <$> l) -> blockOf l k <> [].
Proof.
  intros (e & -> & He)%list_elem_of_fmap E. assert (Hin : e ∈ blockOf l (keyOf e)) by by apply elem_of_blockOf.
  rewrite E in Hin. by apply not_elem_of_nil in Hin.
Qed.

Lemma keysIn_perm L l l' ks ks' : l ≡ₚ l' -> keysIn L l ks -> keysIn L l' ks' -> ks ≡ₚ ks'.
Proof.
  intros HP [N1 K1] [N2 K2]. apply NoDup_Permutation; [done|done|].
  intros k. rewrite K1, K2. by rewrite HP.
Qed.

(** ** Grouping *)

(** What a block list and the offsets look like after the events [l]. *)
Record grouped (L : blockList) (l : list Event) (offsets : gmap conflictKey nat)
    (blocks : list (list Event)) (ks : list conflictKey) : Prop := {
  gr_keys : keysIn L l ks;
  gr_blocks : blocks = (blockOf l <$> ks);
  gr_offsets : forall k, listOf k = L -> forall i, offsets !! k = Some i <-> ks !! i = Some k;
}.

Lemma addToBlock_grouped L l offsets blocks ks e :
  grouped L l offsets blocks ks -> listOf (keyOf e) = L ->
  exists offsets' blocks' ks', addToBlock offsets blocks (keyOf e) e = Ok (offsets', blocks') /\
    grouped L (l ++ [e]) offsets' blocks' ks' /\
    (forall k, k <> keyOf e -> offsets' !! k = offsets !! k).
Proof.
  intros [[HN HK] -> HO] HL. unfold addToBlock. destruct (offsets !! keyOf e) as [i|] eqn:Ei.
  - pose proof (proj1 (HO _ HL i) Ei) as Hi.
    rewrite list_lookup_fmap, Hi. simpl. eexists _, _, ks. split; [done|]. split; [|done]. split; [split; [done|]| |done].
    + intros k. rewrite HK, elem_of_keys_snoc. split; [tauto|].
      intros [? [?| ->]]; [done|]. split; [done|]. apply HK. by eapply list_elem_of_lookup_2.
    + apply list_eq. intros j. rewrite list_lookup_fmap. destruct (decide (i = j)) as [<-|Hne].
      * rewrite list_lookup_insert_eq by (rewrite length_fmap; by eapply lookup_lt_Some).
        rewrite Hi. simpl. rewrite blockOf_snoc, decide_True by done. done.
      * rewrite list_lookup_insert_ne, list_lookup_fmap by done. destruct (ks !! j) as [k|] eqn:Ej; [|done]. simpl.
        rewrite blockOf_snoc, decide_False, app_nil_r; [done|]. intros <-. apply Hne. by eapply NoDup_lookup.
  - assert (Hnew : keyOf e ∉ ks).
    { intros [i Hi]%list_elem_of_lookup_1. apply (HO _ HL) in Hi. congruence. }
    eexists _, _, (ks ++ [keyOf e])%list. split; [done|]. split; [split; [split| |]|].
    + apply NoDup_app. split; [done|]. split; [|apply NoDup_singleton].
      intros k Hk ->%list_elem_of_singleton. done.
    + intros k. rewrite elem_of_app, HK, list_elem_of_singleton, elem_of_keys_snoc.
      split; [intros [[? ?]| ->]; auto|]. intros [? [?| ->]]; auto.
    + rewrite fmap_app. f_equal; simpl.
      * apply map_ext_in. intros k Hk%list_elem_of_In. rewrite blockOf_snoc, decide_False, app_nil_r; [done|].
        by intros <-.
      * rewrite blockOf_snoc, decide_True by done. rewrite blockOf_nil; [done|].
        intros Hin. apply Hnew, HK. done.
    + intros k Hk i. rewrite lookup_insert, length_fmap. case_decide as Ek.
      * subst k. split.
        -- intros [= <-]. by rewrite list_lookup_middle.
        -- intros Hi. apply lookup_app_Some in Hi as [Hi|[Hle Hi]].
           ++ exfalso. apply Hnew. by eapply list_elem_of_lookup_2.
           ++ apply list_lookup_singleton_Some in Hi as [Hi _]. f_equal. lia.
      * rewrite HO by done. split; [apply lookup_app_l_Some|].
        intros [Hi|[_ [_ Hi]%list_lookup_singleton_Some]]%lookup_app_Some; congruence.
    + intros k Hne. by rewrite lookup_insert_ne.
Qed.

Lemma grouped_other L l offsets offsets' blocks ks e :
  grouped L l offsets blocks ks -> listOf (keyOf e) <> L ->
  (forall k, k <> keyOf e -> offsets' !! k = offsets !! k) -> grouped L (l ++ [e]) offsets' blocks ks.
Proof.
  intros [[HN HK] -> HO] HL Hoff. split; [split; [done|]| |].
  - intros k. rewrite HK, elem_of_keys_snoc. split; [tauto|].
    intros [? [?| ->]]; done.
  - apply map_ext_in. intros k [Hk _]%list_elem_of_In%HK. rewrite blockOf_snoc, decide_False, app_nil_r; [done|].
    intros <-. done.
  - intros k Hk i. rewrite Hoff by congruence. by apply HO.
Qed.

(** The blocks after the events [l]. *)
Definition blocksInv (l : list Event) (offsets : gmap conflictKey nat) (b : Blocks) : Prop :=
  bCreates b = blockOf l (MRoomCreate, "") /\ bPowerLevels b = blockOf l (MRoomPowerLevels, "") /\
  bJoinRules b = blockOf l (MRoomJoinRules, "") /\
  (exists ks, grouped LThirdPartyInvites l offsets (bThirdPartyInvites b) ks) /\
  (exists ks, grouped LMembers l offsets (bMembers b) ks) /\
  (exists ks, grouped LOthers l offsets (bOthers b) ks).

Lemma grouped_nil L : grouped L [] ∅ [] [].
Proof.
  split; [split; [constructor|]|done|].
  - intros k. simpl. split; [by intros ?%not_elem_of_nil|by intros [_ ?%not_elem_of_nil]].
  - intros k _ i. by rewrite lookup_empty.
Qed.

Lemma listOf_single k :
  (listOf k = LCreates -> k = (MRoomCreate, "")) /\ (listOf k = LPowerLevels -> k = (MRoomPowerLevels, "")) /\
  (listOf k = LJoinRules -> k = (MRoomJoinRules, "")).
Proof.
  destruct k as [t k]. unfold listOf.
  repeat match goal with |- context [String.eqb ?a ?b] => destruct (String.eqb_spec a b); subst end;
  repeat split; try done.
Qed.

Lemma addEvent_inv l offsets b e :
  blocksInv l offsets b -> hasKey e ->
  exists offsets' b', addEvent (offsets, b) e = Ok (offsets', b') /\ blocksInv (l ++ [e]) offsets' b'.
Proof.
  intros (HC & HP & HJ & [kt HT] & [km HM] & [ko HO]) He. unfold addEvent. rewrite (hasKey_key _ He). cbn [deref mbind res_bind].
  change (Type_ e, (keyOf e).2) with (keyOf e).
  pose proof (listOf_single (keyOf e)) as (SC & SP & SJ).
  assert (Hsingle : forall k, listOf k <> listOf (keyOf e) -> blockOf (l ++ [e]) k = blockOf l k).
  { intros k Hk. rewrite blockOf_snoc, decide_False, app_nil_r; [done|]. by intros <-. }
  destruct (listOf (keyOf e)) eqn:EL;
  [pose proof (SC eq_refl) as Ek|pose proof (SP eq_refl) as Ek|pose proof (SJ eq_refl) as Ek| | |].
  1-3: eexists _, _; split; [done|]; unfold blocksInv; simpl;
    rewrite ?(Hsingle (MRoomCreate, "")), ?(Hsingle (MRoomPowerLevels, "")), ?(Hsingle (MRoomJoinRules, "")) by done;
    rewrite HC, HP, HJ, blockOf_snoc, decide_True by auto; repeat split; try done;
    eexists; (eapply grouped_other; [done|congruence|done]).
  - destruct (addToBlock_grouped _ _ _ _ _ e HT EL) as (o' & bl' & ks' & -> & HG & Ho).
    eexists _, _. split; [done|]. unfold blocksInv. simpl. rewrite !Hsingle by done.
    repeat split; try done; eexists; [done|..]; (eapply grouped_other; [done|congruence|done]).
  - destruct (addToBlock_grouped _ _ _ _ _ e HM EL) as (o' & bl' & ks' & -> & HG & Ho).
    eexists _, _. split; [done|]. unfold blocksInv. simpl. rewrite !Hsingle by done.
    repeat split; try done; eexists; [|done|]; (eapply grouped_other; [done|congruence|done]).
  - destruct (addToBlock_grouped _ _ _ _ _ e HO EL) as (o' & bl' & ks' & -> & HG & Ho).
    eexists _, _. split; [done|]. unfold blocksInv. simpl. rewrite !Hsingle by done.
    repeat split; try done; eexists; [| |done]; (eapply grouped_other; [done|congruence|done]).
Qed.

Lemma addEvents_inv rest : forall l offsets b,
  blocksInv l offsets b -> Forall hasKey rest ->
  exists offsets' b', addEvents (offsets, b) rest = Ok (offsets', b') /\ blocksInv (l ++ rest) offsets' b'.
Proof.
  induction rest as [|e rest IH]; intros l offsets b HI HF; cbn [addEvents]; [rewrite app_nil_r; eauto|].
  apply Forall_cons in HF as [He HF]. destruct (addEvent_inv _ _ _ _ HI He) as (o1 & b1 & -> & H1). cbn [mbind res_bind].
  destruct (IH _ _ _ H1 HF) as (o2 & b2 & -> & H2). rewrite <- app_assoc in H2. eauto.
Qed.

Lemma addConflicted_spec l : Forall hasKey l ->
  exists b kt km ko, addConflicted l = Ok b /\
    bCreates b = blockOf l (MRoomCreate, "") /\ bPowerLevels b = blockOf l (MRoomPowerLevels, "") /\
    bJoinRules b = blockOf l (MRoomJoinRules, "") /\
    bThirdPartyInvites b = (blockOf l <$> kt) /\ keysIn LThirdPartyInvites l kt /\
    bMembers b = (blockOf l <$> km) /\ keysIn LMembers l km /\
    bOthers b = (blockOf l <$> ko) /\ keysIn LOthers l ko.
Proof.
  intros HF. destruct (addEvents_inv l [] ∅ (mkBlocks [] [] [] [] [] [])) as (o & b & E & HC & HP & HJ & [kt [? ? _]] & [km [? ? _]] & [ko [? ? _]]).
  { repeat split; eexists; apply grouped_nil. }
  { done. }
  unfold addConflicted. rewrite E. simpl. by exists b, kt, km, ko.
Qed.

(** ** The resolved events as a map *)

Definition getA (r : Resolved) (key : conflictKey) : option Event :=
  match listOf key with
  | LCreates => resolvedCreate r
  | LPowerLevels => resolvedPowerLevels r
  | LJoinRules => resolvedJoinRules r
  | LThirdPartyInvites => resolvedThirdPartyInvites r !! key.2
  | LMembers => resolvedMembers r !! key.2
  | LOthers => None
  end.

Definition setA (r : Resolved) (key : conflictKey) (o : option Event) : Resolved :=
  match listOf key with
  | LCreates => set_create r o
  | LPowerLevels => set_power r o
  | LJoinRules => set_join r o
  | LThirdPartyInvites => set_invites r (partial_alter (fun _ => o) key.2 (resolvedThirdPartyInvites r))
  | LMembers => set_memberMap r (partial_alter (fun _ => o) key.2 (resolvedMembers r))
  | LOthers => r
  end.

Lemma listOf_inj_type k1 k2 : listOf k1 = listOf k2 -> listOf k1 <> LOthers -> k1.2 = k2.2 -> k1 = k2.
Proof.
  destruct k1 as [t1 s1], k2 as [t2 s2]. unfold listOf. simpl. intros E Hne ->.
  repeat match goal with H : context [String.eqb ?a ?b] |- _ => destruct (String.eqb_spec a b); subst end; congruence.
Qed.

Lemma getA_setA r k o k' : listOf k <> LOthers ->
  getA (setA r k o) k' = if decide (k' = k) then o else getA r k'.
Proof.
  intros Hk. case_decide as E.
  - subst. unfold getA, setA. destruct (listOf k); try done; simpl; apply lookup_partial_alter_eq.
  - unfold getA, setA. pose proof (listOf_single k) as (A1 & A2 & A3). pose proof (listOf_single k') as (B1 & B2 & B3).
    pose proof (listOf_inj_type k k') as HI.
    destruct (listOf k), (listOf k'); simpl; try done;
      try (rewrite lookup_partial_alter_ne; [done|]; intros ?; apply E; symmetry; by apply HI);
      exfalso; apply E; [rewrite A1, B1|rewrite A2, B2|rewrite A3, B3]; done.
Qed.

Lemma Resolved_ext r1 r2 : (forall k, getA r1 k = getA r2 k) -> r1 = r2.
Proof.
  intros E. destruct r1, r2.
  pose proof (E (MRoomCreate, "")). pose proof (E (MRoomPowerLevels, "")). pose proof (E (MRoomJoinRules, "")).
  cbn in *. f_equal; try done; apply map_eq; intros k.
  - exact (E (MRoomThirdPartyInvite, k)).
  - exact (E (MRoomMember, k)).
Qed.

Lemma setA_setA r k o o' : listOf k <> LOthers -> setA (setA r k o) k o' = setA r k o'.
Proof. intros Hk. apply Resolved_ext. intros q. rewrite !getA_setA by done. by case_decide. Qed.

Lemma setA_comm r k k' o o' : listOf k <> LOthers -> listOf k' <> LOthers -> k <> k' ->
  setA (setA r k o) k' o' = setA (setA r k' o') k o.
Proof. intros Hk Hk' Hne. apply Resolved_ext. intros q. rewrite !getA_setA by done. repeat case_decide; congruence. Qed.

Lemma setA_None r k : listOf k <> LOthers -> getA r k = None -> setA r k None = r.
Proof. intros Hk E. apply Resolved_ext. intros q. rewrite getA_setA by done. case_decide; congruence. Qed.

Lemma addAuthEvent_setA r e : hasKey e -> listOf (keyOf e) <> LOthers ->
  addAuthEvent r e = Ok (setA r (keyOf e) (Some e)).
Proof.
  intros [k E]. unfold addAuthEvent, setA, listOf, keyOf, StateKeyEquals. rewrite E. simpl.
  repeat match goal with |- context [String.eqb (Type_ e) ?b] => destruct (String.eqb (Type_ e) b) end;
  try (destruct (String.eqb k "")); intros; congruence || done.
Qed.

Lemma removeAuthEvent_setA r t k : listOf (t, k) <> LOthers -> removeAuthEvent r t k = Ok (setA r (t, k) None).
Proof.
  unfold removeAuthEvent, setA, listOf.
  repeat match goal with |- context [String.eqb t ?b] => destruct (String.eqb t b) end;
  try (destruct (String.eqb k "")); intros; congruence || done.
Qed.

(** ** Resolving one block *)

Section Resolve.
  Context `{GoRange} `{Codec} `{AuthConfig} (sha1 : string -> string).

(** The candidate of an auth block, with the events of the other keys fixed. *)
Fixpoint pickFrom (r : Resolved) (k : conflictKey) (e : Event) (block : list conflictedEvent) : res Event :=
  match block with
  | [] => Ok e
  | c :: rest =>
      match Allowed (event c) (setA r k (Some e)) with
      | Ok _ => pickFrom r k (event c) rest
      | Err _ => Ok e
      | Panic => Panic
      | Diverge => Diverge
      end
  end.

Definition pick (r : Resolved) (l : list Event) (k : conflictKey) : res Event :=
  match sortConflictedEventsByDepthAndSHA1 sha1 (blockOf l k) with
  | [] => Panic
  | c :: rest => pickFrom r k (event c) rest
  end.

Definition keyed (k : conflictKey) (c : conflictedEvent) : Prop := hasKey (event c) /\ keyOf (event c) = k.

Lemma authCandidates_pick k block : listOf k <> LOthers -> Forall (keyed k) block -> forall r e,
  hasKey e -> keyOf e = k ->
  authCandidates (setA r k (Some e)) e block = (e' ← pickFrom r k e block; Ok (e', setA r k (Some e'))) /\
  (forall e', pickFrom r k e block = Ok e' -> hasKey e' /\ keyOf e' = k /\ (e' = e \/ e' ∈ map event block)).
Proof using.
  intros Hk. induction 1 as [|c rest [Hc1 Hc2] HF IH]; intros r e He1 He2; simpl.
  { split; [done|]. intros e' [= <-]. auto. }
  destruct (Allowed (event c) _) as [[]|err| |]; simpl; try done.
  - rewrite addAuthEvent_setA by (rewrite ?Hc2; done). cbn [mbind res_bind]. rewrite Hc2, setA_setA by done.
    destruct (IH r (event c) Hc1 Hc2) as [E HR]. split; [done|].
    intros e' (? & ? & [->|?])%HR; repeat split; auto; right; [left|by right].
  - split; [done|]. intros e' [= <-]. auto.
Qed.

Lemma sort_perm l : map event (sortConflictedEventsByDepthAndSHA1 sha1 l) ≡ₚ l.
Proof using.
  unfold sortConflictedEventsByDepthAndSHA1. rewrite <- gosort_perm, map_map. simpl. by rewrite map_id.
Qed.

Lemma sort_keyed l k : Forall hasKey l -> Forall (keyed k) (sortConflictedEventsByDepthAndSHA1 sha1 (blockOf l k)).
Proof using.
  intros HF. apply Forall_forall. intros c Hc.
  assert (He : event c ∈ blockOf l k) by (rewrite <- sort_perm; by apply list_elem_of_fmap_2).
  apply elem_of_blockOf in He as [<- He]. split; [|done]. by eapply Forall_forall in HF.
Qed.

Lemma resolveAuthBlock_pick r l k : Forall hasKey l -> listOf k <> LOthers -> getA r k = None ->
  resolveAuthBlock sha1 r (blockOf l k) = (e ← pick r l k; Ok (e, r)).
Proof using.
  intros HF Hk Hr. unfold resolveAuthBlock, pick. pose proof (sort_keyed l k HF) as HS.
  destruct (sortConflictedEventsByDepthAndSHA1 sha1 (blockOf l k)) as [|c rest]; [done|].
  apply Forall_cons in HS as [[Hc1 Hc2] HS].
  rewrite addAuthEvent_setA by (rewrite ?Hc2; done). cbn [mbind res_bind]. rewrite Hc2.
  destruct (authCandidates_pick k rest Hk HS r (event c) Hc1 Hc2) as [-> HR].
  destruct (pickFrom r k (event c) rest) as [e|err| |]; simpl; try done.
  destruct (HR e eq_refl) as (He1 & He2 & _). rewrite (hasKey_key e He1). cbn [deref mbind res_bind].
  change (Type_ e) with (keyOf e).1. rewrite He2. destruct k as [t k]. simpl.
  rewrite removeAuthEvent_setA by done. simpl. by rewrite setA_setA, setA_None.
Qed.

Lemma pick_in r l k e : Forall hasKey l -> listOf k <> LOthers -> pick r l k = Ok e -> keyOf e = k /\ e ∈ l.
Proof using.
  intros HF Hk. unfold pick. pose proof (sort_keyed l k HF) as HS.
  pose proof (sort_perm (blockOf l k)) as HP.
  destruct (sortConflictedEventsByDepthAndSHA1 sha1 (blockOf l k)) as [|c rest]; [done|].
  apply Forall_cons in HS as [[Hc1 Hc2] HS]. intros E.
  destruct (authCandidates_pick k rest Hk HS r (event c) Hc1 Hc2) as [_ HR].
  destruct (HR e E) as (_ & He2 & Hin). split; [done|].
  assert (He : e ∈ blockOf l k) by (rewrite <- HP; apply elem_of_cons; naive_solver).
  by apply elem_of_blockOf in He as [_ ?].
Qed.

(** ** Resolving all blocks *)

Fixpoint mapR {A B} (f : A -> res B) (l : list A) : res (list B) :=
  match l with
  | [] => Ok []
  | x :: rest => y ← f x; ys ← mapR f rest; Ok (y :: ys)
  end.

Lemma mapR_ext {A B} (f g : A -> res B) l : (forall x, x ∈ l -> f x = g x) -> mapR f l = mapR g l.
Proof using.
  induction l as [|x l IH]; intros Hfg; simpl; [done|]. rewrite Hfg by left. rewrite IH; [done|].
  intros y Hy. apply Hfg. by right.
Qed.

Lemma mapR_Forall2 {A B} (f : A -> res B) l ys : mapR f l = Ok ys -> Forall2 (fun x y => f x = Ok y) l ys.
Proof using.
  revert ys. induction l as [|x l IH]; intros ys; simpl; [intros [= <-]; constructor|].
  intros (y & E1 & (ys' & E2 & [= <-])%bind_Ok)%bind_Ok. constructor; auto.
Qed.

(** Both runs return permutations of one list, or both do not return. *)
Definition permRes {A} (r1 r2 : res (list A)) : Prop :=
  match r1, r2 with
  | Ok l1, Ok l2 => l1 ≡ₚ l2
  | Ok _, _ | _, Ok _ => False
  | _, _ => True
  end.

Lemma mapR_perm {A B} (f : A -> res B) l l' : l ≡ₚ l' -> permRes (mapR f l) (mapR f l').
Proof using.
  induction 1 as [|x l l' _ IH|x y l|l1 l2 l3 _ IH1 _ IH2]; simpl.
  - done.
  - destruct (f x); simpl; try done. destruct (mapR f l), (mapR f l'); simpl in *; try done. by constructor.
  - destruct (f x), (f y); simpl; try done; destruct (mapR f l); simpl; try done. constructor.
  - destruct (mapR f l1), (mapR f l2), (mapR f l3); simpl in *; try done. by etrans.
Qed.

Lemma bind_ext_ok {A B} (m : res A) (f g : A -> res B) :
  (forall a, m = Ok a -> f a = g a) -> (m ≫= f) = (m ≫= g).
Proof using. intros E. destruct m; simpl; auto. Qed.

Definition addAll (r : Resolved) (es : list Event) : Resolved :=
  fold_left (fun r e => setA r (keyOf e) (Some e)) es r.

Definition authEv (e : Event) : Prop := hasKey e /\ listOf (keyOf e) <> LOthers.

Lemma addAuthEvents_addAll es : Forall authEv es -> forall r, addAuthEvents r es = Ok (addAll r es).
Proof using.
  induction 1 as [|e es [He1 He2] _ IH]; intros r; simpl; [done|].
  rewrite addAuthEvent_setA by done. apply IH.
Qed.

Lemma addAll_perm es es' : es ≡ₚ es' -> Forall authEv es -> NoDup (keyOf <$> es) ->
  forall r, addAll r es = addAll r es'.
Proof using.
  induction 1 as [|e es es' _ IH|x y es|l1 l2 l3 P1 IH1 _ IH2]; intros HF HN r; simpl; try done.
  - apply Forall_cons in HF as [_ HF]. apply NoDup_cons in HN as [_ HN]. by apply IH.
  - apply Forall_cons in HF as [[_ Hx] [[_ Hy] _]%Forall_cons]. apply NoDup_cons in HN as [Hne _].
    f_equal. apply setA_comm; [done|done|]. intros E. apply Hne. simpl. rewrite E. left.
  - rewrite IH1 by done. apply IH2; [by rewrite <- P1|by rewrite <- P1].
Qed.

Lemma getA_addAll es k : Forall authEv es -> k ∉ (keyOf <$> es) -> forall r, getA (addAll r es) k = getA r k.
Proof using.
  induction 1 as [|e es [_ He] _ IH]; intros Hk r; simpl; [done|].
  apply not_elem_of_cons in Hk as [Hne Hk]. rewrite IH by done. rewrite getA_setA by done. by rewrite decide_False.
Qed.

(** One type of auth events, in terms of the keys. *)
Definition phase (l : list Event) (ks : list conflictKey) (st : Resolved * list Event) : res (Resolved * list Event) :=
  es ← mapR (pick st.1 l) ks;
  Ok (addAll st.1 es, (st.2 ++ es)%list).

Definition fresh (l : list Event) (Ls : list blockList) (r : Resolved) : Prop :=
  forall k, listOf k ∈ Ls -> k ∈ (keyOf <$> l) -> getA r k = None.

Lemma picked_keys l L ks r es : Forall hasKey l -> L <> LOthers -> keysIn L l ks ->
  mapR (pick r l) ks = Ok es -> (keyOf <$> es) = ks /\ Forall (fun e => e ∈ l) es /\ Forall authEv es.
Proof using.
  intros HF HL [_ HK] E%mapR_Forall2.
  assert (Hks : forall k, k ∈ ks -> listOf k = L) by (intros k; rewrite HK; tauto). clear HK.
  induction E as [|k e ks es E _ IH]; [done|]. destruct IH as (<- & I2 & I3); [intros; apply Hks; by right|].
  assert (Hk : listOf k = L) by (apply Hks; left).
  apply pick_in in E as [<- Hin]; [|done|congruence]. simpl. split; [done|]. split; constructor; try done.
  split; [by eapply Forall_forall in HF|congruence].
Qed.

Lemma resolveAuthBlocks_map l r ks : Forall hasKey l ->
  (forall k, k ∈ ks -> k ∈ (keyOf <$> l) /\ listOf k <> LOthers /\ getA r k = None) ->
  resolveAuthBlocks sha1 r (blockOf l <$> ks) = (es ← mapR (pick r l) ks; Ok (es, r)).
Proof using.
  intros HF. induction ks as [|k ks IH]; intros Hks; [done|]. rewrite fmap_cons. cbn [mapR].
  destruct (Hks k) as (Hin & Hk & Hr); [left|].
  assert (Hb : resolveAuthBlocks sha1 r (blockOf l k :: (blockOf l <$> ks)) =
    ('(e, r1) ← resolveAuthBlock sha1 r (blockOf l k);
     '(es, r2) ← resolveAuthBlocks sha1 r1 (blockOf l <$> ks); Ok (e :: es, r2))).
  { pose proof (blockOf_nonnil l k Hin). simpl. by destruct (blockOf l k). }
  rewrite Hb. rewrite resolveAuthBlock_pick by done.
  destruct (pick r l k); simpl; try done. rewrite IH by (intros; apply Hks; by right).
  by destruct (mapR (pick r l) ks).
Qed.

Lemma phase_correct l L ks st : Forall hasKey l -> L <> LOthers -> keysIn L l ks -> fresh l [L] st.1 ->
  resolveAndAddAuthBlocks sha1 st (blockOf l <$> ks) = phase l ks st.
Proof using.
  intros HF HL HK Hfr. destruct st as [r result]. unfold resolveAndAddAuthBlocks, phase. simpl.
  rewrite resolveAuthBlocks_map; [|done|].
  - destruct (mapR (pick r l) ks) as [es|e| |] eqn:E; simpl; try done.
    apply picked_keys with (L := L) in E as (_ & _ & HA); [|done..]. by rewrite addAuthEvents_addAll.
  - intros k [Hk Hin]%(ki_keys _ _ _ HK). split; [done|]. split; [congruence|]. apply Hfr; [|done].
    rewrite Hk. left.
Qed.

Lemma phase_fresh l L ks st st' Ls : Forall hasKey l -> L <> LOthers -> keysIn L l ks -> L ∉ Ls ->
  phase l ks st = Ok st' -> fresh l Ls st.1 -> fresh l Ls st'.1.
Proof using.
  intros HF HL HK HLs (es & E & [= <-])%bind_Ok Hfr k Hk Hin. simpl.
  apply picked_keys with (L := L) in E as (HE & _ & HA); [|done..].
  rewrite getA_addAll; [by apply Hfr|done|]. rewrite HE. intros [? _]%(ki_keys _ _ _ HK). congruence.
Qed.

Definition singleKey (l : list Event) (k : conflictKey) : list conflictKey :=
  if decide (k ∈ (keyOf <$> l)) then [k] else [].

Lemma singleKey_in L l k : (forall q, listOf q = L -> q = k) -> listOf k = L -> keysIn L l (singleKey l k).
Proof using.
  intros Huniq Hk. unfold singleKey. case_decide; (split; [auto using NoDup_singleton, NoDup_nil_2|]).
  - intros q. rewrite list_elem_of_singleton. split; [by intros ->|]. by intros [? _]; auto.
  - intros q. split; [by intros ?%not_elem_of_nil|]. intros [->%Huniq ?]. done.
Qed.

Lemma single_block l k st :
  resolveAndAddAuthBlocks sha1 st [blockOf l k] = resolveAndAddAuthBlocks sha1 st (blockOf l <$> singleKey l k).
Proof using.
  unfold singleKey. case_decide as E; [done|]. by rewrite (blockOf_nil l k E).
Qed.

Lemma resolveNormalBlocks_map l r ks :
  resolveNormalBlocks sha1 r (blockOf l <$> ks) = mapR (fun k => resolveNormalBlock sha1 r (blockOf l k)) ks.
Proof using. induction ks as [|k ks IH]; [done|]. rewrite fmap_cons. cbn [resolveNormalBlocks mapR]. by rewrite IH. Qed.

(** The whole resolution in terms of the keys of each list. *)
Record Keys := mkKeys { kc : list conflictKey; kp : list conflictKey; kj : list conflictKey;
                        kt : list conflictKey; km : list conflictKey; ko : list conflictKey }.

Definition allKeysIn (l : list Event) (K : Keys) : Prop :=
  keysIn LCreates l (kc K) /\ keysIn LPowerLevels l (kp K) /\ keysIn LJoinRules l (kj K) /\
  keysIn LThirdPartyInvites l (kt K) /\ keysIn LMembers l (km K) /\ keysIn LOthers l (ko K).

Definition resolveKeys (l : list Event) (r0 : Resolved) (K : Keys) : res (list Event) :=
  st1 ← phase l (kc K) (r0, []);
  st2 ← phase l (kp K) st1;
  st3 ← phase l (kj K) st2;
  st4 ← phase l (kt K) st3;
  st5 ← phase l (km K) st4;
  es ← mapR (fun k => resolveNormalBlock sha1 st5.1 (blockOf l k)) (ko K);
  Ok (st5.2 ++ es)%list.

Lemma fresh_sub l Ls Ls' r : Ls ⊆ Ls' -> fresh l Ls' r -> fresh l Ls r.
Proof using. intros Hs Hf k Hk. apply Hf. by apply Hs. Qed.

#[local] Ltac still_fresh F :=
  first [ done | eapply fresh_sub; [|exact F]; set_solver | set_solver ].

Lemma Resolve_keys l auth r0 : Forall hasKey l -> addAuthEvents emptyResolved auth = Ok r0 ->
  (forall k, k ∈ (keyOf <$> l) -> getA r0 k = None) ->
  exists K, allKeysIn l K /\ ResolveStateConflicts sha1 l auth = resolveKeys l r0 K.
Proof using.
  intros HF Hauth Hfresh.
  destruct (addConflicted_spec l HF) as (b & kt0 & km0 & ko0 & Eb & EC & EP & EJ & ET & HT & EM & HM & EO & HO).
  assert (HC : keysIn LCreates l (singleKey l (MRoomCreate, ""))) by (apply singleKey_in; [apply listOf_single|done]).
  assert (HP : keysIn LPowerLevels l (singleKey l (MRoomPowerLevels, ""))) by (apply singleKey_in; [apply listOf_single|done]).
  assert (HJ : keysIn LJoinRules l (singleKey l (MRoomJoinRules, ""))) by (apply singleKey_in; [apply listOf_single|done]).
  exists (mkKeys (singleKey l (MRoomCreate, "")) (singleKey l (MRoomPowerLevels, "")) (singleKey l (MRoomJoinRules, "")) kt0 km0 ko0).
  split; [done|]. unfold ResolveStateConflicts, resolveKeys. rewrite Eb, Hauth. cbn [mbind res_bind].
  rewrite EC, EP, EJ, ET, EM, EO, single_block. cbn [kc kp kj kt km ko].
  assert (F0 : fresh l [LCreates; LPowerLevels; LJoinRules; LThirdPartyInvites; LMembers] (r0, [] : list Event).1) by (intros k _; apply Hfresh).
  rewrite (phase_correct l LCreates) by still_fresh F0.
  apply bind_ext_ok. intros st1 E1.
  apply (phase_fresh l LCreates _ _ _ [LPowerLevels; LJoinRules; LThirdPartyInvites; LMembers]) in E1 as F1;
    [|still_fresh F0..].
  rewrite single_block, (phase_correct l LPowerLevels) by still_fresh F1.
  apply bind_ext_ok. intros st2 E2.
  apply (phase_fresh l LPowerLevels _ _ _ [LJoinRules; LThirdPartyInvites; LMembers]) in E2 as F2;
    [|still_fresh F1..].
  rewrite single_block, (phase_correct l LJoinRules) by still_fresh F2.
  apply bind_ext_ok. intros st3 E3.
  apply (phase_fresh l LJoinRules _ _ _ [LThirdPartyInvites; LMembers]) in E3 as F3;
    [|still_fresh F2..].
  rewrite (phase_correct l LThirdPartyInvites) by still_fresh F3.
  apply bind_ext_ok. intros st4 E4.
  apply (phase_fresh l LThirdPartyInvites _ _ _ [LMembers]) in E4 as F4;
    [|still_fresh F3..].
  rewrite (phase_correct l LMembers) by done.
  apply bind_ext_ok. intros st5 _. by rewrite resolveNormalBlocks_map.
Qed.

(** ** The order of the conflicted events *)

(** Events of one key with the same depth and digest are one event: the sort
    has no ties to break. *)
Definition noTies (l : list Event) : Prop :=
  forall e1 e2, e1 ∈ l -> e2 ∈ l -> keyOf e1 = keyOf e2 -> Depth e1 = Depth e2 ->
    sha1 (EventID e1) = sha1 (EventID e2) -> e1 = e2.

Lemma Less_spec a b : Less a b = true <->
  (depth a < depth b \/ (depth a = depth b /\ str_ltb (eventIDSHA1 b) (eventIDSHA1 a) = true)).
Proof using. unfold Less. destruct (Z.eqb_spec (depth a) (depth b)); [|rewrite Z.ltb_lt]; naive_solver lia. Qed.

Lemma Less_asym a b : Less a b = true -> Less b a = false.
Proof using.
  intros Hab. destruct (Less b a) eqn:Hba; [|done]. rewrite Less_spec in *.
  destruct Hab as [?|[? S1]], Hba as [?|[? S2]]; try lia. apply Ids.str_ltb_asym in S1. congruence.
Qed.

Lemma Less_trans a b c : Less a b = true -> Less b c = true -> Less a c = true.
Proof using.
  rewrite !Less_spec. intros [?|[? S1]] [?|[? S2]]; try (left; lia). right. split; [lia|].
  by eapply Unique.str_ltb_trans.
Qed.

Lemma Less_total a b : Less a b = false -> Less b a = false -> depth a = depth b /\ eventIDSHA1 a = eventIDSHA1 b.
Proof using.
  intros Hab Hba. destruct (Z.lt_trichotomy (depth a) (depth b)) as [?|[E|?]].
  - rewrite (proj2 (Less_spec a b)) in Hab by auto. done.
  - split; [done|]. apply Ids.str_ltb_total.
    + apply not_true_is_false. intros S. rewrite (proj2 (Less_spec b a)) in Hba by auto. done.
    + apply not_true_is_false. intros S. rewrite (proj2 (Less_spec a b)) in Hab by auto. done.
  - rewrite (proj2 (Less_spec b a)) in Hba by auto. done.
Qed.

Lemma leb_total x y : negb (Less y x) = true \/ negb (Less x y) = true.
Proof using. destruct (Less y x) eqn:E; [right; by rewrite (Less_asym _ _ E)|by left]. Qed.

Lemma leb_trans x y z : negb (Less y x) = true -> negb (Less z y) = true -> negb (Less z x) = true.
Proof using.
  intros H1' H2'. rewrite negb_true_iff in *. apply not_true_is_false. intros Hzx.
  destruct (Less x y) eqn:Exy; [by rewrite (Less_trans z x y) in H2'|].
  destruct (Less_total _ _ Exy H1') as [Ed Es]. rewrite Less_spec in Hzx. rewrite <- not_true_iff_false, Less_spec in H2'.
  apply H2'. rewrite <- Ed, <- Es. done.
Qed.

Lemma sort_sorted l :
  Sorted.StronglySorted (fun a b => negb (Less b a) = true) (sortConflictedEventsByDepthAndSHA1 sha1 l).
Proof using. apply (gosort_sorted _ leb_total leb_trans). Qed.

Lemma sort_unique l l' : l ≡ₚ l' ->
  (forall e1 e2, e1 ∈ l -> e2 ∈ l -> Depth e1 = Depth e2 -> sha1 (EventID e1) = sha1 (EventID e2) -> e1 = e2) ->
  sortConflictedEventsByDepthAndSHA1 sha1 l = sortConflictedEventsByDepthAndSHA1 sha1 l'.
Proof using.
  intros HP HT. unfold sortConflictedEventsByDepthAndSHA1.
  apply (sorted_perm_unique (fun a b => negb (Less b a))); try apply (gosort_sorted _ leb_total leb_trans).
  - intros x y Hx Hy. rewrite <- gosort_perm in Hx, Hy.
    apply list_elem_of_fmap in Hx as (e1 & -> & He1). apply list_elem_of_fmap in Hy as (e2 & -> & He2).
    rewrite !negb_true_iff. intros E1 E2. destruct (Less_total _ _ E2 E1) as [Ed Es]. by rewrite (HT e1 e2).
  - rewrite <- !gosort_perm. by rewrite HP.
Qed.

Lemma blockOf_perm l l' k : l ≡ₚ l' -> blockOf l k ≡ₚ blockOf l' k.
Proof using. intros HP. unfold blockOf. by rewrite HP. Qed.

Lemma sort_block l l' k : l ≡ₚ l' -> noTies l ->
  sortConflictedEventsByDepthAndSHA1 sha1 (blockOf l k) = sortConflictedEventsByDepthAndSHA1 sha1 (blockOf l' k).
Proof using.
  intros HP HT. apply sort_unique; [by apply blockOf_perm|].
  intros e1 e2 [K1 ?]%elem_of_blockOf [K2 ?]%elem_of_blockOf. apply HT; congruence || done.
Qed.

(** The state after a phase, up to the order of the result. *)
Definition sameState (s1 s2 : res (Resolved * list Event)) : Prop :=
  match s1, s2 with
  | Ok (r1, l1), Ok (r2, l2) => r1 = r2 /\ l1 ≡ₚ l2
  | Ok _, _ | _, Ok _ => False
  | _, _ => True
  end.

Lemma phase_same l l' L ks ks' st st' : l ≡ₚ l' -> noTies l -> Forall hasKey l -> L <> LOthers ->
  keysIn L l ks -> keysIn L l' ks' -> sameState (Ok st) (Ok st') ->
  sameState (phase l ks st) (phase l' ks' st').
Proof using.
  intros HP HT HF HL HK HK'. destruct st as [r res1], st' as [r' res2]. intros [<- Hres]. unfold phase. simpl.
  rewrite (mapR_ext (pick r l') (pick r l)) by (intros; unfold pick; by rewrite (sort_block l l')).
  pose proof (mapR_perm (pick r l) ks ks' (keysIn_perm _ _ _ _ _ HP HK HK')) as HR.
  destruct (mapR (pick r l) ks) as [es|e| |] eqn:E, (mapR (pick r l) ks') as [es'|e'| |]; simpl in *; try done.
  apply picked_keys with (L := L) in E as (HE & _ & HA); [|done..]. split; [|by rewrite Hres, HR].
  apply addAll_perm; [done|done|]. rewrite HE. apply HK.
Qed.

Lemma sameState_last s1 s2 (f g : Resolved * list Event -> res (list Event)) :
  sameState s1 s2 -> (forall a b, sameState (Ok a) (Ok b) -> permRes (f a) (g b)) ->
  permRes (s1 ≫= f) (s2 ≫= g).
Proof using.
  destruct s1 as [[]|e1| |], s2 as [[]|e2| |]; simpl; try done. intros HS Hfg. by apply Hfg.
Qed.

Lemma resolveKeys_same l l' r0 K K' : l ≡ₚ l' -> noTies l -> Forall hasKey l ->
  allKeysIn l K -> allKeysIn l' K' -> permRes (resolveKeys l r0 K) (resolveKeys l' r0 K').
Proof using.
  intros HP HT HF (C1 & P1 & J1 & T1 & M1 & O1) (C2 & P2 & J2 & T2 & M2 & O2). unfold resolveKeys.
  apply sameState_last. { by eapply (phase_same l l' LCreates). } intros ? ? S1.
  apply sameState_last. { by eapply (phase_same l l' LPowerLevels). } intros ? ? S2.
  apply sameState_last. { by eapply (phase_same l l' LJoinRules). } intros ? ? S3.
  apply sameState_last. { by eapply (phase_same l l' LThirdPartyInvites). } intros ? ? S4.
  apply sameState_last. { by eapply (phase_same l l' LMembers). } intros [r es] [r' es'] [<- Hes]. simpl.
  rewrite (mapR_ext (fun k => resolveNormalBlock sha1 r (blockOf l' k)) (fun k => resolveNormalBlock sha1 r (blockOf l k)))
    by (intros; unfold resolveNormalBlock; by rewrite (sort_block l l')).
  pose proof (mapR_perm (fun k => resolveNormalBlock sha1 r (blockOf l k)) _ _ (keysIn_perm _ _ _ _ _ HP O1 O2)) as HR.
  destruct (mapR _ (ko K)), (mapR _ (ko K')); simpl in *; try done. by rewrite Hes, HR.
Qed.

(** C29: the order of the conflicted events does not matter: resolving the same
    events in another order gives the same events (or, when a check panics, no
    result in both cases).  The auth events are for other keys than the
    conflicted events, and events of one key with the same depth have different
    digests. *)
Theorem resolution_order_independent (l l' auth : list Event) (r0 : Resolved)
  (Hperm : l ≡ₚ l') (Hkeys : Forall hasKey l) (Hties : noTies l)
  (Hauth : addAuthEvents emptyResolved auth = Ok r0)
  (Hdisjoint : forall k, k ∈ (keyOf <$> l) -> getA r0 k = None) :
  permRes (ResolveStateConflicts sha1 l auth) (ResolveStateConflicts sha1 l' auth).
Proof using.
  destruct (Resolve_keys l auth r0) as (K & HK & ->); [done..|].
  destruct (Resolve_keys l' auth r0) as (K' & HK' & ->); [by rewrite <- Hperm|done|intros k; by rewrite <- Hperm; auto|].
  by apply resolveKeys_same.
Qed.

(** ** One event per key *)

Lemma newestAllowed_in r block e : newestAllowed r block = Ok (Some e) -> e ∈ map event block.
Proof using.
  induction block as [|c block IH]; simpl; [done|].
  destruct (Allowed (event c) r); try done; [intros [= <-]; left|intros ?; right; auto].
Qed.

Lemma resolveNormal_in r l k e : resolveNormalBlock sha1 r (blockOf l k) = Ok e -> keyOf e = k /\ e ∈ l.
Proof using.
  intros E. apply elem_of_blockOf. rewrite <- sort_perm. revert E. unfold resolveNormalBlock.
  destruct (sortConflictedEventsByDepthAndSHA1 sha1 (blockOf l k)) as [|c rest]; [done|].
  intros (o & E & [= <-])%bind_Ok. destruct o as [e|]; simpl; [|left]. right.
  apply newestAllowed_in in E. by rewrite map_rev, <- Permutation_rev in E.
Qed.

Lemma phase_keys l L ks st st' : Forall hasKey l -> L <> LOthers -> keysIn L l ks -> phase l ks st = Ok st' ->
  exists es, st'.2 = (st.2 ++ es)%list /\ (keyOf <$> es) = ks /\ Forall (fun e => e ∈ l) es.
Proof using.
  intros HF HL HK (es & E & [= <-])%bind_Ok. exists es. split; [done|].
  apply picked_keys with (L := L) in E as (? & ? & _); done.
Qed.

Lemma resolveKeys_keys l r0 K es : Forall hasKey l -> allKeysIn l K -> resolveKeys l r0 K = Ok es ->
  (keyOf <$> es) = (kc K ++ kp K ++ kj K ++ kt K ++ km K ++ ko K)%list /\ Forall (fun e => e ∈ l) es.
Proof using.
  intros HF (C1 & P1 & J1 & T1 & M1 & O1). unfold resolveKeys.
  intros (st1 & (e1 & Q1 & K1 & I1)%(phase_keys l LCreates) & E)%bind_Ok; [|done..].
  apply bind_Ok in E as (st2 & (e2 & Q2 & K2 & I2)%(phase_keys l LPowerLevels) & E); [|done..].
  apply bind_Ok in E as (st3 & (e3 & Q3 & K3 & I3)%(phase_keys l LJoinRules) & E); [|done..].
  apply bind_Ok in E as (st4 & (e4 & Q4 & K4 & I4)%(phase_keys l LThirdPartyInvites) & E); [|done..].
  apply bind_Ok in E as (st5 & (e5 & Q5 & K5 & I5)%(phase_keys l LMembers) & E); [|done..].
  apply bind_Ok in E as (e6 & E6%mapR_Forall2 & [= <-]).
  assert (H6 : (keyOf <$> e6) = ko K /\ Forall (fun e => e ∈ l) e6).
  { clear -E6. induction E6 as [|k e ks es E _ [IH1 IH2]]; [done|].
    apply resolveNormal_in in E as [<- ?]. rewrite fmap_cons, IH1. auto. }
  destruct H6 as [K6 I6]. rewrite Q5, Q4, Q3, Q2, Q1. simpl. rewrite !fmap_app, K1, K2, K3, K4, K5, K6, <- !app_assoc.
  split; [done|]. by rewrite !Forall_app.
Qed.

Lemma listOf_cases k : listOf k = LCreates \/ listOf k = LPowerLevels \/ listOf k = LJoinRules \/
  listOf k = LThirdPartyInvites \/ listOf k = LMembers \/ listOf k = LOthers.
Proof using. destruct (listOf k); tauto. Qed.

Lemma allKeys_complete l K : allKeysIn l K ->
  NoDup (kc K ++ kp K ++ kj K ++ kt K ++ km K ++ ko K)%list /\
  forall k, k ∈ (kc K ++ kp K ++ kj K ++ kt K ++ km K ++ ko K)%list <-> k ∈ (keyOf <$> l).
Proof using.
  intros ([N1 C1] & [N2 C2] & [N3 C3] & [N4 C4] & [N5 C5] & [N6 C6]). split.
  - rewrite !NoDup_app. repeat split; try done; intros k; rewrite ?elem_of_app, ?C1, ?C2, ?C3, ?C4, ?C5, ?C6;
      intros [-> _]; naive_solver.
  - intros k. rewrite !elem_of_app, C1, C2, C3, C4, C5, C6. pose proof (listOf_cases k). tauto.
Qed.

(** *** Resolution returns *)

Section Returns.
  Context (Hverify : forall d k p m, returns (verifyJSON d k p m)).

Lemma Allowed_resolver e (r : Resolved) : AuthTotal.noEmptyUser e -> returns (Allowed e r).
Proof using Hverify. intros He. apply AuthTotal.Allowed_returns; [done|by split|done]. Qed.

Definition good (c : conflictedEvent) : Prop := AuthTotal.noEmptyUser (event c).

Lemma pickFrom_Ok r k block : Forall good block -> forall e, exists e', pickFrom r k e block = Ok e'.
Proof using Hverify.
  induction 1 as [|c block Hc _ IH]; intros e; simpl; [eauto|].
  pose proof (Allowed_resolver _ (setA r k (Some e)) Hc) as HR. destruct (Allowed (event c) _); simpl in *; try done; eauto.
Qed.

Lemma newestAllowed_Ok r block : Forall good block -> exists o, newestAllowed r block = Ok o.
Proof using Hverify.
  induction 1 as [|c block Hc _ IH]; simpl; [eauto|].
  pose proof (Allowed_resolver _ r Hc) as HR. destruct (Allowed (event c) r); simpl in *; try done; eauto.
Qed.

Lemma sort_good l k : Forall AuthTotal.noEmptyUser l -> k ∈ (keyOf <$> l) ->
  exists c rest, sortConflictedEventsByDepthAndSHA1 sha1 (blockOf l k) = c :: rest /\ Forall good rest.
Proof using.
  intros HF Hk. pose proof (blockOf_nonnil l k Hk) as Hne. pose proof (sort_perm (blockOf l k)) as HP.
  destruct (sortConflictedEventsByDepthAndSHA1 sha1 (blockOf l k)) as [|c rest].
  { apply Permutation_nil in HP. done. }
  exists c, rest. split; [done|]. apply Forall_forall. intros c' Hc'.
  assert (He : event c' ∈ blockOf l k) by (rewrite <- HP; right; by apply list_elem_of_fmap_2).
  apply elem_of_blockOf in He as [_ He]. by eapply Forall_forall in HF.
Qed.

Lemma mapR_Ok {A B} (f : A -> res B) l : (forall x, x ∈ l -> exists y, f x = Ok y) -> exists ys, mapR f l = Ok ys.
Proof using.
  induction l as [|x l IH]; intros Hf; simpl; [eauto|]. destruct (Hf x) as [y ->]; [left|]. simpl.
  destruct IH as [ys ->]; [intros; apply Hf; by right|]. simpl. eauto.
Qed.

Lemma phase_Ok l L ks st : Forall AuthTotal.noEmptyUser l -> keysIn L l ks -> exists st', phase l ks st = Ok st'.
Proof using Hverify.
  intros HF HK. unfold phase. destruct (mapR_Ok (pick st.1 l) ks) as [es ->]; [|simpl; eauto].
  intros k [_ Hk]%(ki_keys _ _ _ HK). unfold pick. destruct (sort_good l k HF Hk) as (c & rest & -> & HG).
  by apply pickFrom_Ok.
Qed.

Lemma resolveKeys_Ok l r0 K : Forall AuthTotal.noEmptyUser l -> allKeysIn l K -> exists es, resolveKeys l r0 K = Ok es.
Proof using Hverify.
  intros HF (C1 & P1 & J1 & T1 & M1 & O1). unfold resolveKeys.
  destruct (phase_Ok l LCreates (kc K) (r0, []) HF C1) as [st1 ->]. cbn [mbind res_bind].
  destruct (phase_Ok l LPowerLevels (kp K) st1 HF P1) as [st2 ->]. cbn [mbind res_bind].
  destruct (phase_Ok l LJoinRules (kj K) st2 HF J1) as [st3 ->]. cbn [mbind res_bind].
  destruct (phase_Ok l LThirdPartyInvites (kt K) st3 HF T1) as [st4 ->]. cbn [mbind res_bind].
  destruct (phase_Ok l LMembers (km K) st4 HF M1) as [st5 ->]. cbn [mbind res_bind].
  destruct (mapR_Ok (fun k => resolveNormalBlock sha1 st5.1 (blockOf l k)) (ko K)) as [es ->]; [|simpl; eauto].
  intros k [_ Hk]%(ki_keys _ _ _ O1). unfold resolveNormalBlock. destruct (sort_good l k HF Hk) as (c & rest & -> & HG).
  destruct (newestAllowed_Ok st5.1 (rev rest)) as [o ->]; [by apply Forall_rev|]. simpl. eauto.
Qed.

(** state resolution keeps one event per key: it returns, every event of the
    result is one of the conflicted events, and the result has exactly one event
    for each conflicted type and state key. *)
Theorem resolution_one_per_key (l auth : list Event) (r0 : Resolved)
  (Hkeys : Forall hasKey l) (Husers : Forall AuthTotal.noEmptyUser l)
  (Hauth : addAuthEvents emptyResolved auth = Ok r0)
  (Hdisjoint : forall k, k ∈ (keyOf <$> l) -> getA r0 k = None) :
  exists es, ResolveStateConflicts sha1 l auth = Ok es /\ Forall (fun e => e ∈ l) es /\
    NoDup (keyOf <$> es) /\ forall k, k ∈ (keyOf <$> es) <-> k ∈ (keyOf <$> l).
Proof using Hverify.
  destruct (Resolve_keys l auth r0) as (K & HK & ->); [done..|].
  destruct (resolveKeys_Ok l r0 K Husers HK) as [es E]. exists es. split; [done|].
  destruct (resolveKeys_keys l r0 K es Hkeys HK E) as [-> HI]. split; [done|]. by apply allKeys_complete.
Qed.

(** *** Bans *)

Lemma sort_oldest l k b : b ∈ l -> keyOf b = k ->
  (forall e, e ∈ l -> keyOf e = k -> e = b \/ Depth b < Depth e) ->
  exists rest, sortConflictedEventsByDepthAndSHA1 sha1 (blockOf l k) = conflicted sha1 b :: rest.
Proof using.
  intros Hb Hk Hmin. pose proof (sort_perm (blockOf l k)) as HP. pose proof (sort_sorted (blockOf l k)) as HS.
  assert (Hform : Forall (fun c => c = conflicted sha1 (event c)) (sortConflictedEventsByDepthAndSHA1 sha1 (blockOf l k))).
  { unfold sortConflictedEventsByDepthAndSHA1. apply Forall_forall. intros c Hc. rewrite <- gosort_perm in Hc.
    by apply list_elem_of_fmap in Hc as (e & -> & _). }
  assert (Hb' : b ∈ blockOf l k) by by apply elem_of_blockOf. rewrite <- HP in Hb'.
  destruct (sortConflictedEventsByDepthAndSHA1 sha1 (blockOf l k)) as [|c rest]; [by apply not_elem_of_nil in Hb'|].
  exists rest. f_equal. apply Forall_cons in Hform as [Ec Hform]. rewrite Ec. f_equal.
  assert (Hc : event c ∈ blockOf l k) by (rewrite <- HP; left). apply elem_of_blockOf in Hc as [Kc Hc].
  destruct (Hmin _ Hc Kc) as [?|Hlt]; [done|]. exfalso.
  apply elem_of_cons in Hb' as [->|Hin]; [lia|]. apply list_elem_of_fmap in Hin as (cb & -> & Hcb).
  inversion HS as [|? ? _ HA]; subst. eapply Forall_forall in HA; [|exact Hcb].
  eapply Forall_forall in Hform; [|exact Hcb].
  rewrite (proj2 (Less_spec cb c)) in HA; [done|]. left. rewrite Ec, Hform. simpl. done.
Qed.

Lemma phase_contains l ks st st' k : phase l ks st = Ok st' -> k ∈ ks ->
  exists e, pick st.1 l k = Ok e /\ e ∈ st'.2.
Proof using.
  intros (es & E%mapR_Forall2 & [= <-])%bind_Ok [i Hi]%list_elem_of_lookup_1.
  destruct (Forall2_lookup_l _ _ _ _ _ E Hi) as (e & He & Ee). exists e. split; [done|]. simpl.
  apply elem_of_app. right. by eapply list_elem_of_lookup_2.
Qed.

Lemma resolveKeys_member l r0 K es k : Forall hasKey l -> allKeysIn l K -> resolveKeys l r0 K = Ok es -> k ∈ km K ->
  exists r e, pick r l k = Ok e /\ e ∈ es.
Proof using.
  intros HF HK. unfold resolveKeys. intros (st1 & _ & E)%bind_Ok Hk.
  apply bind_Ok in E as (st2 & _ & E). apply bind_Ok in E as (st3 & _ & E). apply bind_Ok in E as (st4 & _ & E).
  apply bind_Ok in E as (st5 & E5 & E). apply bind_Ok in E as (e6 & _ & [= <-]).
  destruct (phase_contains _ _ _ _ _ E5 Hk) as (e & Ee & Hin). exists st4.1, e. split; [done|].
  apply elem_of_app. by left.
Qed.

(** a ban survives a conflict: when the oldest conflicting membership of a
    user is a ban and the others are joins the user sent, the resolution keeps
    the ban. *)
Theorem ban_survives_conflict (l auth : list Event) (r0 : Resolved) (u : string) (b : Event) (bc : memberContent)
  (Hkeys : Forall hasKey l) (Husers : Forall AuthTotal.noEmptyUser l)
  (Hauth : addAuthEvents emptyResolved auth = Ok r0)
  (Hdisjoint : forall k, k ∈ (keyOf <$> l) -> getA r0 k = None)
  (Hnodup : NoDup l) (Hb : b ∈ l) (Hbkey : keyOf b = (MRoomMember, u))
  (Hban : decMember (Content b) = Some bc) (Hmember : Membership bc = ban)
  (Hjoins : forall e, e ∈ l -> keyOf e = (MRoomMember, u) -> e = b \/
     (Depth b < Depth e /\ Sender e = u /\
      exists c, decMember (Content e) = Some c /\ Membership c = join)) :
  exists es, ResolveStateConflicts sha1 l auth = Ok es /\ b ∈ es.
Proof using Hverify.
  destruct (Resolve_keys l auth r0) as (K & HK & ->); [done..|].
  destruct (resolveKeys_Ok l r0 K Husers HK) as [es E]. exists es. split; [done|].
  destruct (resolveKeys_member l r0 K es (MRoomMember, u) Hkeys HK E) as (r & e & Hp & He).
  { apply HK. split; [done|]. rewrite <- Hbkey. by apply list_elem_of_fmap_2. }
  assert (e = b) as ->; [|done]. unfold pick in Hp.
  destruct (sort_oldest l (MRoomMember, u) b) as [rest Es]; [done|done| |].
  { intros e' He' Hk'. destruct (Hjoins e' He' Hk') as [?|[? _]]; auto. }
  pose proof (sort_perm (blockOf l (MRoomMember, u))) as HP. rewrite Es in Hp, HP. simpl in Hp.
  destruct rest as [|c rest]; [by injection Hp|]. simpl in Hp.
  assert (Hc : event c ∈ blockOf l (MRoomMember, u)) by (rewrite <- HP; right; left).
  apply elem_of_blockOf in Hc as [Kc Hc].
  assert (Hcb : event c <> b).
  { assert (HN : NoDup (blockOf l (MRoomMember, u))) by by apply NoDup_filter.
    rewrite <- HP in HN. apply NoDup_cons in HN as [HN _]. intros Ecb. apply HN. simpl. rewrite Ecb. left. }
  destruct (Hjoins _ Hc Kc) as [?|(_ & Hs & jc & Hd & Hj)]; [done|].
  assert (HA : Allowed (event c) (setA r (MRoomMember, u) (Some b)) <> Ok ()).
  { eapply (AuthFacts.ban_refuses_join (event c) b); try done.
    - by injection Kc.
    - rewrite (hasKey_key (event c)) by (by eapply Forall_forall in Hkeys). rewrite Kc. by rewrite Hs.
    - simpl. rewrite Hs. f_equal. unfold setA. simpl. apply lookup_partial_alter_eq. }
  assert (HR : returns (Allowed (event c) (setA r (MRoomMember, u) (Some b)))).
  { apply Allowed_resolver. by eapply Forall_forall in Husers. }
  destruct (Allowed (event c) _) as [[]|err| |]; [done|by injection Hp|done|done].
Qed.

End Returns.

End Resolve.

(** ** A room with a conflict *)

#[local] Instance demoCodec : Codec := toyCodec (fun _ => None).
#[local] Instance demoConfig : AuthConfig := {| domainCfg := ["a"]; skipEv := fun _ => false |}.

Definition cev (id type key sender content : string) (d : Z) : Event :=
  mkEvent "!r:a" id 1 0 sender type (Some key) content "" d "" 0 "a" "".

(** alice's room; bob is banned on one branch and joins on the other, and there
    are two topics. *)
Definition demoAuth : list Event :=
  [cev "$c:a" MRoomCreate "" "@alice:a" "@alice:a" 1;
   cev "$j:a" MRoomMember "@alice:a" "@alice:a" join 2;
   cev "$r:a" MRoomJoinRules "" "@alice:a" public 3].

Definition bobBan : Event := cev "$b:a" MRoomMember "@bob:a" "@alice:a" ban 4.
Definition bobJoin : Event := cev "$k:a" MRoomMember "@bob:a" "@bob:a" join 5.

Definition demoConflict : list Event :=
  [bobJoin; bobBan; cev "$t:a" "m.room.topic" "" "@alice:a" "one" 5; cev "$u:a" "m.room.topic" "" "@alice:a" "two" 5].

Definition demoResolved : Resolved :=
  match addAuthEvents emptyResolved demoAuth with Ok r => r | _ => emptyResolved end.

Lemma demo_verify d k p m : returns (verifyJSON d k p m).
Proof. exact I. Qed.
Lemma demo_keys : Forall hasKey demoConflict.
Proof. repeat constructor; by eexists. Qed.
Lemma demo_users : Forall AuthTotal.noEmptyUser demoConflict.
Proof. repeat constructor; intros E; discriminate E. Qed.
Lemma demo_disjoint k : k ∈ (keyOf <$> demoConflict) -> getA demoResolved k = None.
Proof. rewrite list_elem_of_In. simpl. intros [<-|[<-|[<-|[<-|[]]]]]; reflexivity. Qed.
Lemma demo_nodup : NoDup demoConflict.
Proof. repeat (apply NoDup_cons; split; [rewrite list_elem_of_In; simpl; intuition discriminate|]). constructor. Qed.
Lemma demo_noTies : noTies (fun s => s) demoConflict.
Proof.
  intros e1 e2 H1%list_elem_of_In H2%list_elem_of_In _ _. simpl in H1, H2.
  destruct H1 as [<-|[<-|[<-|[<-|[]]]]], H2 as [<-|[<-|[<-|[<-|[]]]]]; simpl; intros E; done.
Qed.

Lemma resolution_order_independent_witness :
  permRes (ResolveStateConflicts (fun s => s) demoConflict demoAuth)
          (ResolveStateConflicts (fun s => s) (rev demoConflict) demoAuth).
Proof.
  apply (resolution_order_independent (fun s => s) demoConflict (rev demoConflict) demoAuth demoResolved
    (Permutation_rev _) demo_keys demo_noTies eq_refl demo_disjoint).
Defined.

Lemma resolution_one_per_key_witness :
  exists es, ResolveStateConflicts (fun s => s) demoConflict demoAuth = Ok es /\ Forall (fun e => e ∈ demoConflict) es /\
    NoDup (keyOf <$> es) /\ forall k, k ∈ (keyOf <$> es) <-> k ∈ (keyOf <$> demoConflict).
Proof.
  exact (resolution_one_per_key (fun s => s) demo_verify demoConflict demoAuth demoResolved
    demo_keys demo_users eq_refl demo_disjoint).
Defined.

Lemma ban_survives_conflict_witness :
  exists es, ResolveStateConflicts (fun s => s) demoConflict demoAuth = Ok es /\ bobBan ∈ es.
Proof.
  apply (ban_survives_conflict (fun s => s) demo_verify demoConflict demoAuth demoResolved "@bob:a" bobBan
    (mkMemberContent ban None) demo_keys demo_users eq_refl demo_disjoint demo_nodup).
  - right. left.
  - reflexivity.
  - reflexivity.
  - reflexivity.
  - intros e He%list_elem_of_In. simpl in He. destruct He as [<-|[<-|[<-|[<-|[]]]]]; intros Hk.
    + right. split; [reflexivity|]. split; [reflexivity|]. eexists. split; reflexivity.
    + left. reflexivity.
    + discriminate Hk.
    + discriminate Hk.
Defined.

End StateResFacts.
