(* ===== verification/RoomState.v ===== *)
(** * The current state of a room

    [src/model/repos/roomserverStateRepo.go]: [RoomServerState], what each event
    does to it ([onEvent]), its use as an [AuthEventProvider], its export to the
    cache and its reconstruction, and the repository that loads it from cache or
    database.  [sync.Map]s are finite maps; the cache and the database are
    interfaces. *)

From Stdlib Require Import String Ascii ZArith List.
From stdpp Require Import base tactics list gmap strings pretty.
From S2P Require Import Prelude Ids Timeline Event EventContent EventAuth.
Import Event.Event EventContent.EventContent EventAuth.EventAuth.

#[local] Open Scope string_scope.
#[local] Open Scope Z_scope.

Module RoomState.

(** ** Data *)

Record eventFeed := mkEventFeed { feedEv : Event; feedOffset : Z }.

#[export] Instance eventFeed_feed : Feed eventFeed := feedOffset.

Record DomainTLItem := mkDomainTLItem {
  tl : @Timeline.TimeLines eventFeed;
  MemberCnt : Z;
}.

Record RoomStateExt := mkRoomStateExt {
  PreStateId : string;
  LastStateId : string;
  PreMsgId : string;
  LastMsgId : string;
  extDepth : Z;
  HasUpdate : bool;
  OutEventOffset : Z;
  Domains : gmap string Z;
}.

(** The fields that hold one event. *)
Inductive slot :=
  | SCreator | SJoinRule | SHistoryVisibility | SVisibility | SName | STopic | SDesc
  | SCanonicalAlias | SAlias | SPower | SGuestAccess | SAvatar | SPin.

#[export] Instance slot_eq_dec : EqDecision slot.
Proof. solve_decision. Defined.

Record Slots := mkSlots {
  sCreator : option Event;
  sJoinRule : option Event;
  sHistoryVisibility : option Event;
  sVisibility : option Event;
  sName : option Event;
  sTopic : option Event;
  sDesc : option Event;
  sCanonicalAlias : option Event;
  sAlias : option Event;
  sPower : option Event;
  sGuestAccess : option Event;
  sAvatar : option Event;
  sPin : option Event;
}.

Definition noSlots : Slots :=
  mkSlots None None None None None None None None None None None None None.

Definition getSlot (s : Slots) (k : slot) : option Event :=
  match k with
  | SCreator => sCreator s | SJoinRule => sJoinRule s
  | SHistoryVisibility => sHistoryVisibility s | SVisibility => sVisibility s
  | SName => sName s | STopic => sTopic s | SDesc => sDesc s
  | SCanonicalAlias => sCanonicalAlias s | SAlias => sAlias s | SPower => sPower s
  | SGuestAccess => sGuestAccess s | SAvatar => sAvatar s | SPin => sPin s
  end.

(** Assignment to one of the fields. *)
Definition setSlot (s : Slots) (k : slot) (e : option Event) : Slots :=
  let put k' := if decide (k' = k) then e else getSlot s k' in
  mkSlots (put SCreator) (put SJoinRule) (put SHistoryVisibility) (put SVisibility)
    (put SName) (put STopic) (put SDesc) (put SCanonicalAlias) (put SAlias)
    (put SPower) (put SGuestAccess) (put SAvatar) (put SPin).

(** The event type of each field, as the [switch]es of the file have it. *)
Definition slotType (k : slot) : string :=
  match k with
  | SCreator => "m.room.create" | SJoinRule => "m.room.join_rules"
  | SHistoryVisibility => "m.room.history_visibility" | SVisibility => "m.room.visibility"
  | SName => "m.room.name" | STopic => "m.room.topic" | SDesc => "m.room.desc"
  | SCanonicalAlias => "m.room.canonical_alias" | SAlias => "m.room.aliases"
  | SPower => "m.room.power_levels" | SGuestAccess => "m.room.guest_access"
  | SAvatar => "m.room.avatar" | SPin => "m.room.pinned_events"
  end.

Definition allSlots : list slot :=
  [SCreator; SJoinRule; SHistoryVisibility; SVisibility; SName; STopic; SDesc;
   SCanonicalAlias; SAlias; SPower; SGuestAccess; SAvatar; SPin].

Definition slotOfType (t : string) : option slot :=
  List.find (fun k => String.eqb (slotType k) t) allSlots.

Record RoomServerState := mkRoomServerState {
  roomId : string;
  RoomNid : Z;
  SnapId : Z;
  IsEncrypted : bool;
  IsFed : bool;
  isDirect : bool;
  slots : Slots;
  joined : gmap string Event;
  left : gmap string Event;
  invited : gmap string Event;
  thirdInvite : gmap string Event;
  domainTl : gmap string DomainTLItem;
  Version : Z;
  ext : RoomStateExt;
}.

Definition emptyExt : RoomStateExt := mkRoomStateExt "" "" "" "" 0 false 0 ∅.

(** [init] on a new state. *)
Definition init (room : string) : RoomServerState :=
  mkRoomServerState room (-1) 0 false false false noSlots ∅ ∅ ∅ ∅ ∅ 0 emptyExt.

(** *** Updates of single fields *)

Definition set_flags (rs : RoomServerState) (enc fed direct : bool) : RoomServerState :=
  mkRoomServerState (roomId rs) (RoomNid rs) (SnapId rs) enc fed direct (slots rs)
    (joined rs) (left rs) (invited rs) (thirdInvite rs) (domainTl rs) (Version rs) (ext rs).
Definition set_slots (rs : RoomServerState) (s : Slots) : RoomServerState :=
  mkRoomServerState (roomId rs) (RoomNid rs) (SnapId rs) (IsEncrypted rs) (IsFed rs) (isDirect rs) s
    (joined rs) (left rs) (invited rs) (thirdInvite rs) (domainTl rs) (Version rs) (ext rs).
Definition set_members (rs : RoomServerState) (j l i t : gmap string Event) : RoomServerState :=
  mkRoomServerState (roomId rs) (RoomNid rs) (SnapId rs) (IsEncrypted rs) (IsFed rs) (isDirect rs) (slots rs)
    j l i t (domainTl rs) (Version rs) (ext rs).
Definition set_domainTl (rs : RoomServerState) (d : gmap string DomainTLItem) : RoomServerState :=
  mkRoomServerState (roomId rs) (RoomNid rs) (SnapId rs) (IsEncrypted rs) (IsFed rs) (isDirect rs) (slots rs)
    (joined rs) (left rs) (invited rs) (thirdInvite rs) d (Version rs) (ext rs).
Definition set_ext (rs : RoomServerState) (e : RoomStateExt) : RoomServerState :=
  mkRoomServerState (roomId rs) (RoomNid rs) (SnapId rs) (IsEncrypted rs) (IsFed rs) (isDirect rs) (slots rs)
    (joined rs) (left rs) (invited rs) (thirdInvite rs) (domainTl rs) (Version rs) e.

Definition set_HasUpdate (e : RoomStateExt) (b : bool) : RoomStateExt :=
  mkRoomStateExt (PreStateId e) (LastStateId e) (PreMsgId e) (LastMsgId e) (extDepth e) b
    (OutEventOffset e) (Domains e).

(** [SetSnapId] and [SetRoomNID]. *)
Definition SetSnapId (rs : RoomServerState) (snap : Z) : RoomServerState :=
  mkRoomServerState (roomId rs) (RoomNid rs) snap (IsEncrypted rs) (IsFed rs) (isDirect rs) (slots rs)
    (joined rs) (left rs) (invited rs) (thirdInvite rs) (domainTl rs) (Version rs) (ext rs).
Definition SetRoomNID (rs : RoomServerState) (nid : Z) : RoomServerState :=
  mkRoomServerState (roomId rs) nid (SnapId rs) (IsEncrypted rs) (IsFed rs) (isDirect rs) (slots rs)
    (joined rs) (left rs) (invited rs) (thirdInvite rs) (domainTl rs) (Version rs) (ext rs).

(** [UpdateDomainExt], [UpdateDepth], [UpdateOutEventOffset], [UpdateMsgExt]. *)
Definition UpdateDomainExt (rs : RoomServerState) (domains : gmap string Z) : RoomServerState :=
  let e := ext rs in
  set_ext rs (mkRoomStateExt (PreStateId e) (LastStateId e) (PreMsgId e) (LastMsgId e)
                (extDepth e) (HasUpdate e) (OutEventOffset e) domains).
Definition UpdateDepth (rs : RoomServerState) (depth : Z) : RoomServerState :=
  let e := ext rs in
  set_ext rs (mkRoomStateExt (PreStateId e) (LastStateId e) (PreMsgId e) (LastMsgId e)
                depth (HasUpdate e) (OutEventOffset e) (Domains e)).
Definition UpdateOutEventOffset (rs : RoomServerState) (o : Z) : RoomServerState :=
  let e := ext rs in
  set_ext rs (mkRoomStateExt (PreStateId e) (LastStateId e) (PreMsgId e) (LastMsgId e)
                (extDepth e) (HasUpdate e) o (Domains e)).
Definition UpdateMsgExt (rs : RoomServerState) (preStateId lastStateId preMsgId lastMsgId : string) : RoomServerState :=
  let e := ext rs in
  set_ext rs (mkRoomStateExt preStateId lastStateId preMsgId lastMsgId
                (extDepth e) (HasUpdate e) (OutEventOffset e) (Domains e)).

(** ** Reading the state *)

(** [Member]: the maps are tried in the order join, leave, invite. *)
Definition memberEvent (rs : RoomServerState) (stateKey : string) : option Event :=
  match joined rs !! stateKey with
  | Some e => Some e
  | None => match left rs !! stateKey with
            | Some e => Some e
            | None => invited rs !! stateKey
            end
  end.

#[export] Instance RoomServerState_provider : AuthEventProvider RoomServerState := {|
  Create rs := Ok (sCreator (slots rs));
  JoinRules rs := Ok (sJoinRule (slots rs));
  PowerLevels rs := Ok (sPower (slots rs));
  Member rs k := Ok (memberEvent rs k);
  GetThirdPartyInvite rs k := Ok (thirdInvite rs !! k);
|}.

(** [GetPreEvent]: the event this one replaces, and whether it is state.  A
    member or third-party-invite event without a state key panics. *)
Definition GetPreEvent (rs : RoomServerState) (ev : Event) : res (option Event * bool) :=
  let t := Type_ ev in
  if String.eqb t "m.room.member" then k ← deref (StateKey ev); Ok (memberEvent rs k, true)
  else if String.eqb t "m.room.third_party_invite" then k ← deref (StateKey ev); Ok (thirdInvite rs !! k, true)
  else if String.eqb t "m.room.encryption" then Ok (None, true)
  else match slotOfType t with
       | Some k => Ok (getSlot (slots rs) k, true)
       | None => Ok (None, false)
       end.

Definition refTypes : list string :=
  ["m.room.create"; "m.room.member"; "m.room.power_levels"; "m.room.third_party_invite";
   "m.room.join_rules"; "m.room.history_visibility"; "m.room.visibility"; "m.room.name";
   "m.room.topic"; "m.room.desc"; "m.room.aliases"; "m.room.avatar"; "m.room.pinned_events";
   "m.room.canonical_alias"].

(** [GetRefs]: the identifier of the previous event. *)
Definition GetRefs (rs : RoomServerState) (ev : Event) : string :=
  if existsb (String.eqb (Type_ ev)) refTypes then PreStateId (ext rs) else PreMsgId (ext rs).

Definition GetLastDomainOffset (rs : RoomServerState) (ev : Event) (domain : string) : Z :=
  match Domains (ext rs) !! domain with
  | Some v => if DomainOffset ev <? v then v else DomainOffset ev
  | None => DomainOffset ev
  end.

Definition nidLeb (a b : Event) : bool := EventNID a <=? EventNID b.

Section Range.
  Context `{GoRange}.

Definition optList {A} (o : option A) : list A := match o with Some a => [a] | None => [] end.
Definition values {A} (m : gmap string A) : list A := map snd (range m).

(** [GetAllState]: the room must have its create event. *)
Definition GetAllState (rs : RoomServerState) : res (list Event) :=
  c ← deref (sCreator (slots rs));
  let s := slots rs in
  Ok (gosort nidLeb
        ([c] ++ optList (sJoinRule s) ++ optList (sHistoryVisibility s) ++ optList (sVisibility s) ++
         optList (sName s) ++ optList (sTopic s) ++ optList (sCanonicalAlias s) ++ optList (sAlias s) ++
         optList (sPower s) ++ optList (sAvatar s) ++ optList (sPin s) ++ optList (sGuestAccess s) ++
         values (joined rs) ++ values (left rs) ++ values (invited rs) ++ values (thirdInvite rs))%list).

(** [GetLastState]. *)
Definition GetLastState (rs : RoomServerState) : list Z :=
  map (fun item => (Timeline.GetFeedRange (tl item)).2) (values (domainTl rs)).

(** [calcToken]: the domains in ascending order with their last offsets. *)
Definition calcToken (rs : RoomServerState) : string :=
  let domains := gosort (fun a b => negb (str_ltb b a)) (map fst (range (domainTl rs))) in
  let part d := d ++ ":" ++ pretty (match domainTl rs !! d with
                                    | Some item => (Timeline.GetFeedRange (tl item)).2
                                    | None => 0 end) in
  match domains with
  | [] => ""
  | d :: ds => fold_left (fun token v => token ++ "_" ++ part v) ds (part d)
  end.

End Range.

(** ** What an event does *)

Section OnEvent.
  Context `{Codec} `{AuthConfig} (domainMng : option (Ids.DomainMng * Ids.DomainSrc)).

Definition localDomain (domain : string) : bool := Ids.CheckValidDomain domainMng domain domainCfg.

Definition freshItem : DomainTLItem := mkDomainTLItem (Timeline.NewEvTimeLines 16 false) 0.

(** [getDomainTL(domain, true)]: the item, stored when it is new. *)
Definition getDomainTL (rs : RoomServerState) (domain : string) : DomainTLItem * RoomServerState :=
  match domainTl rs !! domain with
  | Some item => (item, rs)
  | None => (freshItem, set_domainTl rs (<[domain := freshItem]> (domainTl rs)))
  end.

Definition onCreateEv (rs : RoomServerState) (ev : Event) : RoomServerState :=
  let rs1 := set_slots rs (setSlot (slots rs) SCreator (Some ev)) in
  let '(fed, direct) := lenientCreate (Content ev) in
  set_flags rs1 (IsEncrypted rs1) (default false fed) (default false direct).

(** The previous membership as [onMemberEv] names it. *)
Definition preMembership (rs : RoomServerState) (k : string) : string :=
  if bool_decide (is_Some (joined rs !! k)) then "join"
  else if bool_decide (is_Some (left rs !! k)) then "leave"
  else if bool_decide (is_Some (invited rs !! k)) then "invite"
  else "".

(** The first half of [onMemberEv]: storing the event by its membership. *)
Definition storeMember (rs : RoomServerState) (k membership : string) (ev : Event) : RoomServerState :=
  if String.eqb membership "join" then
    set_members rs (<[k := ev]> (joined rs)) (left rs) (invited rs) (delete k (thirdInvite rs))
  else if String.eqb membership "invite" then
    set_members rs (joined rs) (left rs) (<[k := ev]> (invited rs)) (thirdInvite rs)
  else if String.eqb membership "leave" || String.eqb membership "ban" then
    set_members rs (joined rs) (<[k := ev]> (left rs)) (invited rs) (delete k (thirdInvite rs))
  else rs.

(** [tgtItem.MemberCnt = tgtItem.MemberCnt + d]. *)
Definition addMemberCnt (rs : RoomServerState) (domain : string) (d : Z) : RoomServerState :=
  set_domainTl rs (alter (fun it => mkDomainTLItem (tl it) (MemberCnt it + d)) domain (domainTl rs)).

(** The second half: removing the previous membership and counting. *)
Definition dropPrevious (rs : RoomServerState) (domain k pre membership : string) : RoomServerState :=
  if String.eqb membership pre then rs
  else
    let rs1 :=
      if String.eqb pre "join" then
        addMemberCnt (set_members rs (delete k (joined rs)) (left rs) (invited rs) (thirdInvite rs)) domain (-1)
      else if String.eqb pre "invite" then
        set_members rs (joined rs) (left rs) (delete k (invited rs)) (thirdInvite rs)
      else if String.eqb pre "leave" then
        set_members rs (joined rs) (delete k (left rs)) (invited rs) (thirdInvite rs)
      else rs in
    if String.eqb membership "join" then addMemberCnt rs1 domain 1 else rs1.

Definition onMemberEv (rs : RoomServerState) (ev : Event) : res RoomServerState :=
  k ← deref (StateKey ev);
  match Ids.DomainFromID k with
  | Ok domain =>
      let rs1 := (getDomainTL rs domain).2 in
      let membership := lenientMembership (Content ev) in
      let pre := preMembership rs1 k in
      let rs2 := storeMember rs1 k membership ev in
      Ok (dropPrevious rs2 domain k pre membership)
  | _ => Ok rs
  end.

Definition onEventUpdate (rs : RoomServerState) (ev : Event) : res RoomServerState :=
  let t := Type_ ev in
  if String.eqb t "m.room.create" then Ok (onCreateEv rs ev)
  else if String.eqb t "m.room.member" then onMemberEv rs ev
  else if String.eqb t "m.room.third_party_invite" then
    k ← deref (StateKey ev);
    Ok (set_members rs (joined rs) (left rs) (invited rs) (<[k := ev]> (thirdInvite rs)))
  else if String.eqb t "m.room.encryption" then Ok (set_flags rs true (IsFed rs) (isDirect rs))
  else match slotOfType t with
       | Some k => Ok (set_slots rs (setSlot (slots rs) k (Some ev)))
       | None => Ok rs
       end.

(** [onEventCheckUpdate]: whether the event changes the state, and the new
    [ext]. *)
Definition onEventCheckUpdate (rs : RoomServerState) (ev : Event) (pre : option Event)
    (domain : string) (isState recover : bool) : bool * RoomStateExt :=
  let e := ext rs in
  if localDomain domain then
    let e1 := set_HasUpdate e isState in
    let e2 :=
      if recover then
        if isState then
          mkRoomStateExt (LastStateId e1) (EventID ev) (PreMsgId e1) (EventID ev) (extDepth e1)
            (HasUpdate e1) (OutEventOffset e1) (Domains e1)
        else
          mkRoomStateExt (PreStateId e1) (LastStateId e1) (LastMsgId e1) (EventID ev) (extDepth e1)
            (HasUpdate e1) (OutEventOffset e1) (Domains e1)
      else e1 in
    (isState, e2)
  else
    let newer := match pre with
                 | None => true
                 | Some p => (OriginServerTS p <=? OriginServerTS ev) && negb (String.eqb (EventID p) (EventID ev))
                 end in
    (isState && newer, e).

Definition onEvent (rs : RoomServerState) (ev : Event) (offset : Z) (recover : bool) : res RoomServerState :=
  '(pre, isState) ← GetPreEvent rs ev;
  match Ids.DomainFromID (Sender ev) with
  | Ok domain =>
      let '(upd, e1) := onEventCheckUpdate rs ev pre domain isState recover in
      let rs1 := set_ext rs (set_HasUpdate e1 upd) in
      if negb upd then Ok rs1
      else
        rs2 ← onEventUpdate rs1 ev;
        let '(item, rs3) := getDomainTL rs2 domain in
        '(tl', _) ← Timeline.Add (tl item) (Some (mkEventFeed ev offset));
        Ok (set_domainTl rs3 (<[domain := mkDomainTLItem tl' (MemberCnt item)]> (domainTl rs3)))
  | _ => Ok rs
  end.

(** A sequence of events with their offsets, as the loaders replay it. *)
Fixpoint onEvents (rs : RoomServerState) (evs : list (Event * Z)) (recover : bool) : res RoomServerState :=
  match evs with
  | [] => Ok rs
  | (ev, offset) :: rest => rs1 ← onEvent rs ev offset recover; onEvents rs1 rest recover
  end.

(** ** Export to the cache and back *)

(** The fields [json.Marshal] writes. *)
Record Exported := mkExported {
  xRoomNid : Z;
  xSnapId : Z;
  xIsEncrypted : bool;
  xIsFed : bool;
  xSlots : Slots;
  xJoin : gmap string Event;
  xLeave : gmap string Event;
  xInvite : gmap string Event;
  xThirdInvite : gmap string Event;
  xDomains : gmap string Z;
  xVersion : Z;
}.

(** [serialize], up to the call of [json.Marshal]. *)
Definition serialize (rs : RoomServerState) : Exported * RoomServerState :=
  let rs' := mkRoomServerState (roomId rs) (RoomNid rs) (SnapId rs) (IsEncrypted rs) (IsFed rs) (isDirect rs)
               (slots rs) (joined rs) (left rs) (invited rs) (thirdInvite rs) (domainTl rs)
               (Version rs + 1) (ext rs) in
  (mkExported (RoomNid rs) (SnapId rs) (IsEncrypted rs) (IsFed rs) (slots rs)
     (joined rs) (left rs) (invited rs) (thirdInvite rs) (MemberCnt <$> domainTl rs) (Version rs + 1), rs').

(** The events of an exported room, in the order of the fields. *)
Definition exportedEvents `{GoRange} (x : Exported) : list Event :=
  let s := xSlots x in
  (optList (sCreator s) ++ optList (sJoinRule s) ++ optList (sHistoryVisibility s) ++
   optList (sVisibility s) ++ optList (sName s) ++ optList (sTopic s) ++ optList (sDesc s) ++
   optList (sCanonicalAlias s) ++ optList (sAlias s) ++ optList (sPower s) ++ optList (sGuestAccess s) ++
   optList (sAvatar s) ++ optList (sPin s) ++
   values (xJoin x) ++ values (xLeave x) ++ values (xInvite x) ++ values (xThirdInvite x))%list.

(** Every event is decoded by [Event.UnmarshalJSON], that is by
    [NewEventFromUntrustedJSON], which fails when [CheckFields] does. *)
Fixpoint checkEvents (l : list Event) : res unit :=
  match l with
  | [] => Ok ()
  | ev :: rest => _ ← CheckFields ev; checkEvents rest
  end.

(** [rs.init(roomid)] followed by [json.Unmarshal]. *)
Definition unmarshalState `{GoRange} (room : string) (x : Exported) : res RoomServerState :=
  _ ← checkEvents (exportedEvents x);
  Ok (mkRoomServerState room (xRoomNid x) (xSnapId x) (xIsEncrypted x) (xIsFed x) false (xSlots x)
        ∅ ∅ ∅ ∅ ∅ (xVersion x) emptyExt).

(** The events [parseCacheRoomState] collects, in its order, and the fields it
    leaves: only [Desc] is kept. *)
Definition cachedStates `{GoRange} (x : Exported) : list Event :=
  let s := xSlots x in
  (optList (sCreator s) ++ optList (sJoinRule s) ++ optList (sHistoryVisibility s) ++
   optList (sVisibility s) ++ optList (sName s) ++ optList (sPower s) ++ optList (sTopic s) ++
   optList (sCanonicalAlias s) ++ optList (sAlias s) ++ optList (sAvatar s) ++ optList (sPin s) ++
   optList (sGuestAccess s) ++
   values (xJoin x) ++ values (xLeave x) ++ values (xInvite x) ++ values (xThirdInvite x))%list.

Definition onlyDesc (s : Slots) : Slots := setSlot noSlots SDesc (sDesc s).

(** [rs] is what [json.Unmarshal] has filled from [x]. *)
Definition parseCacheRoomState `{GoRange} (rs : RoomServerState) (x : Exported) : res RoomServerState :=
  let states := gosort nidLeb (cachedStates x) in
  onEvents (set_slots rs (onlyDesc (slots rs))) (map (fun v => (v, EventNID v)) states) true.

(** ** The repository *)

(** The fields [UpdateRoomStateExt] is given: a Go map with the present keys. *)
Record ExtUpdate := mkExtUpdate {
  uDepth : option Z;
  uDomain : option (string * Z);
  uPreStateId : option string;
  uLastStateId : option string;
  uPreMsgId : option string;
  uLastMsgId : option string;
  uHasUpdate : bool;
  uOutEventOffset : Z;
}.

(** What [service.Cache] offers for room states and memberships, over a store [C]; the bytes of
    a state are the exported record. *)
Class RoomCache (C : Type) := {
  cacheGetRoomState : C -> string -> res (option Exported);
  cacheSetRoomState : C -> string -> Exported -> string -> C * res unit;
  cacheGetRoomStateExt : C -> string -> res (option RoomStateExt);
  cacheSetRoomStateExt : C -> string -> RoomStateExt -> C * res unit;
  cacheUpdateRoomStateExt : C -> string -> ExtUpdate -> C * res unit;
  cacheMembershipExists : C -> string -> res bool;
  cacheSetMembershipMulti : C -> string -> gmap string Z -> C * res unit;
  cacheSetMembership : C -> string -> string -> Z -> C * res unit;
}.

(** What [model.RoomServerDatabase] offers: values and error as the code reads
    them. *)
Class RoomDb (D : Type) := {
  dbGetRoomStates : D -> string -> res (list (Event * Z));
  dbRoomInfo : D -> string -> (Z * Z * Z) * option goerr;
  dbGetRoomDomainsOffset : D -> Z -> res (list (string * Z));
  dbGetUserRooms : D -> string -> res (list string * list string * list string);
}.

Section Repo.
  Context `{GoRange} {C D : Type} `{RoomCache C} `{RoomDb D}.

Definition FlushRoomState (c : C) (rs : RoomServerState) : C * RoomServerState :=
  let '(x, rs') := serialize rs in
  ((cacheSetRoomState c (roomId rs') x (calcToken rs')).1, rs').

Definition getRoomStateFromCache (c : C) (roomid : string) : res (option RoomServerState) :=
  bytes ← cacheGetRoomState c roomid;
  match bytes with
  | None => Ok None
  | Some x => rs ← unmarshalState roomid x; rs1 ← parseCacheRoomState rs x; Ok (Some rs1)
  end.

Definition getRoomStateFromDb (db : D) (roomid : string) : res RoomServerState :=
  evs ← dbGetRoomStates db roomid;
  rs ← onEvents (init roomid) evs true;
  match dbRoomInfo db roomid with
  | (_, Some e) => Err e
  | ((roomNid, snapId, _), None) => Ok (SetRoomNID (SetSnapId rs snapId) roomNid)
  end.

Definition set_extDepth (e : RoomStateExt) (depth : Z) : RoomStateExt :=
  mkRoomStateExt (PreStateId e) (LastStateId e) (PreMsgId e) (LastMsgId e) depth (HasUpdate e)
    (OutEventOffset e) (Domains e).
Definition set_extDomains (e : RoomStateExt) (d : gmap string Z) : RoomStateExt :=
  mkRoomStateExt (PreStateId e) (LastStateId e) (PreMsgId e) (LastMsgId e) (extDepth e) (HasUpdate e)
    (OutEventOffset e) d.

Definition getRoomStateExtFromDb (db : D) (roomid : string) : res RoomStateExt :=
  let '((roomNid, _, depth), err) := dbRoomInfo db roomid in
  if match err with Some e => negb (bool_decide (e = ErrNoRows)) | None => false end
  then Err (default ErrNoRows err)
  else
    let e := set_extDepth emptyExt depth in
    match dbGetRoomDomainsOffset db roomNid with
    | Err ErrNoRows => Ok e
    | Err er => Err er
    | Ok ds => Ok (set_extDomains e (fold_left (fun m dv => <[dv.1 := dv.2]> m) ds (Domains e)))
    | Panic => Panic
    | Diverge => Diverge
    end.

(** [GetRoomState]: [None] is the nil the code returns when the database
    fails. *)
Definition GetRoomState (c : C) (db : D) (roomid : string) : res (option RoomServerState * C) :=
  let loaded : res (option RoomServerState * C) :=
    match getRoomStateFromCache c roomid with
    | Ok (Some rs) => Ok (Some rs, c)
    | Panic => Panic
    | Diverge => Diverge
    | _ =>
        match getRoomStateFromDb db roomid with
        | Ok rs => let '(c1, rs1) := FlushRoomState c rs in Ok (Some rs1, c1)
        | Err _ => Ok (None, c)
        | Panic => Panic
        | Diverge => Diverge
        end
    end in
  '(mrs, c1) ← loaded;
  match mrs with
  | None => Ok (None, c1)
  | Some rs =>
      match cacheGetRoomStateExt c1 roomid with
      | Ok (Some e) => Ok (Some (set_ext rs e), c1)
      | Panic => Panic
      | Diverge => Diverge
      | _ =>
          match getRoomStateExtFromDb db roomid with
          | Ok e =>
              let r := ext rs in
              let e1 := mkRoomStateExt (PreStateId r) (LastStateId r) (PreMsgId r) (LastMsgId r)
                          (extDepth e) false (OutEventOffset e) (Domains e) in
              Ok (Some (set_ext rs e1), (cacheSetRoomStateExt c1 roomid e1).1)
          | Err _ => Ok (None, c1)
          | Panic => Panic
          | Diverge => Diverge
          end
      end
  end.

(** [OnEvent]: a nil state is loaded, or made for a create event; the load can
    give nil again, and the call on it panics. *)
Definition OnEvent (c : C) (db : D) (ev : Event) (offset : Z) (rs : option RoomServerState) : res (RoomServerState * C) :=
  '(rs1, c1) ← match rs with
               | Some r => Ok (Some r, c)
               | None =>
                   if negb (String.eqb (Type_ ev) "m.room.create") then GetRoomState c db (RoomID ev)
                   else Ok (Some (init (RoomID ev)), c)
               end;
  r ← deref rs1;
  r' ← onEvent r ev offset false;
  Ok (r', c1).

Definition OnEventRecover (c : C) (db : D) (ev : Event) (offset : Z) : res (option RoomServerState * C) :=
  '(rs, c1) ← GetRoomState c db (RoomID ev);
  match rs with
  | None => Ok (None, c1)
  | Some r => r' ← onEvent r ev offset true; Ok (Some r', c1)
  end.

Definition GetRoomStateExt (c : C) (db : D) (roomid : string) : res (RoomStateExt * C) :=
  match cacheGetRoomStateExt c roomid with
  | Ok (Some e) => Ok (e, c)
  | Panic => Panic
  | Diverge => Diverge
  | _ =>
      e ← getRoomStateExtFromDb db roomid;
      Ok (e, (cacheSetRoomStateExt c roomid e).1)
  end.

End Repo.

End OnEvent.

End RoomState.
