(* ===== verification/RoomStateFacts.v ===== *)
(** * What the room state guarantees

    Theorems about [RoomState]: every event keeps the state well formed (each
    event in the field of its type, the three membership maps disjoint, the
    member count of every domain exact); what a member event does to every user;
    stale and repeated remote events change nothing; the cache round trip. *)

From Stdlib Require Import String Ascii ZArith List Permutation.
From stdpp Require Import base tactics list gmap strings pretty.
From S2P Require Import Prelude Ids Timeline Event EventContent EventAuth RoomState.
Import Event.Event EventContent.EventContent EventAuth.EventAuth RoomState.RoomState.

#[local] Open Scope string_scope.
#[local] Open Scope Z_scope.

Module RoomStateFacts.

(** ** Fields *)

Lemma getSlot_set s k e k' :
  getSlot (setSlot s k e) k' = if decide (k' = k) then e else getSlot s k'.
Proof. by destruct k'. Qed.

Lemma slotOfType_type t k : slotOfType t = Some k -> slotType k = t.
Proof. unfold slotOfType. intros [_ E]%List.find_some. by apply String.eqb_eq in E. Qed.

Lemma slotOfType_slotType k : slotOfType (slotType k) = Some k.
Proof. by destruct k. Qed.

Lemma Slots_ext s1 s2 : (forall k, getSlot s1 k = getSlot s2 k) -> s1 = s2.
Proof.
  intros E. destruct s1, s2.
  pose proof (E SCreator); pose proof (E SJoinRule); pose proof (E SHistoryVisibility);
  pose proof (E SVisibility); pose proof (E SName); pose proof (E STopic); pose proof (E SDesc);
  pose proof (E SCanonicalAlias); pose proof (E SAlias); pose proof (E SPower);
  pose proof (E SGuestAccess); pose proof (E SAvatar); pose proof (E SPin). simpl in *. congruence.
Qed.

(** ** Counting the joined users of a domain *)

Definition inDomain (d : string) (kv : string * Event) : Prop := Ids.DomainFromID kv.1 = Ok d.

#[local] Instance inDomain_dec d kv : Decision (inDomain d kv).
Proof. unfold inDomain. apply _. Defined.

Definition countIn (m : gmap string Event) (d : string) : Z :=
  Z.of_nat (size (filter (inDomain d) m)).

Lemma countIn_add m u e d0 d :
  m !! u = None -> Ids.DomainFromID u = Ok d0 ->
  countIn (<[u := e]> m) d = countIn m d + (if decide (d = d0) then 1 else 0).
Proof.
  intros Hu Hd. unfold countIn. case_decide as Ed.
  - rewrite map_filter_insert_True by (unfold inDomain; simpl; congruence).
    rewrite map_size_insert_None; [lia|]. apply map_lookup_filter_None. by left.
  - rewrite map_filter_insert_False by (unfold inDomain; simpl; congruence).
    rewrite map_filter_delete, delete_id; [lia|]. apply map_lookup_filter_None. by left.
Qed.

Lemma countIn_remove m u e d0 d :
  m !! u = Some e -> Ids.DomainFromID u = Ok d0 ->
  countIn (delete u m) d = countIn m d - (if decide (d = d0) then 1 else 0).
Proof.
  intros Hu Hd. rewrite <- (insert_delete_id m u e) at 2 by done.
  rewrite (countIn_add (delete u m) u e d0 d) by (done || apply lookup_delete_eq). lia.
Qed.

Lemma countIn_replace m u e e' d :
  m !! u = Some e -> countIn (<[u := e']> m) d = countIn m d.
Proof.
  intros Hu. unfold countIn. destruct (decide (inDomain d (u, e'))) as [Hd|Hd].
  - rewrite map_filter_insert_True by done. f_equal.
    apply map_size_insert_Some. exists e. apply map_lookup_filter_Some. split; [done|exact Hd].
  - rewrite map_filter_insert_False by done. rewrite map_filter_delete, delete_id; [done|].
    apply map_lookup_filter_None. right. intros x _ Hx. exact (Hd Hx).
Qed.

(** ** Well-formed states *)

Section WF.
  Context `{Codec} `{AuthConfig} (domainMng : option (Ids.DomainMng * Ids.DomainSrc)).

(** An event stored for a user in the map of the memberships [ms]. *)
Definition storedAs (ms : list string) (u : string) (e : Event) : Prop :=
  Type_ e = MRoomMember /\ StateKey e = Some u /\ lenientMembership (Content e) ∈ ms.

Definition countOf (rs : RoomServerState) (d : string) : Z :=
  match domainTl rs !! d with Some it => MemberCnt it | None => 0 end.

(** The membership maps and the counts. *)
Record WFmembers (rs : RoomServerState) : Prop := {
  wf_joined : map_Forall (storedAs ["join"]) (joined rs);
  wf_left : map_Forall (storedAs ["leave"; "ban"]) (left rs);
  wf_invited : map_Forall (storedAs ["invite"]) (invited rs);
  wf_joined_left : forall u, joined rs !! u = None \/ left rs !! u = None;
  wf_joined_invited : forall u, joined rs !! u = None \/ invited rs !! u = None;
  wf_left_invited : forall u, left rs !! u = None \/ invited rs !! u = None;
  wf_domain : forall u, is_Some (joined rs !! u) -> isOk (Ids.DomainFromID u) = true;
  wf_count : forall d, countOf rs d = countIn (joined rs) d;
}.

Record WF (rs : RoomServerState) : Prop := {
  wf_slots : forall k e, getSlot (slots rs) k = Some e -> Type_ e = slotType k;
  wf_third : forall k e, thirdInvite rs !! k = Some e ->
               Type_ e = MRoomThirdPartyInvite /\ StateKey e = Some k;
  wf_members : WFmembers rs;
  wf_tl : forall d it, domainTl rs !! d = Some it -> exists l, Timeline.Inv (tl it) l;
}.

Lemma preMembership_cases rs u :
  (preMembership rs u = "join" /\ exists e, joined rs !! u = Some e) \/
  (preMembership rs u = "leave" /\ joined rs !! u = None /\ exists e, left rs !! u = Some e) \/
  (preMembership rs u = "invite" /\ joined rs !! u = None /\ left rs !! u = None /\ exists e, invited rs !! u = Some e) \/
  (preMembership rs u = "" /\ joined rs !! u = None /\ left rs !! u = None /\ invited rs !! u = None).
Proof using.
  unfold preMembership.
  destruct (joined rs !! u) eqn:E1; simpl; [left; eauto|].
  destruct (left rs !! u) eqn:E2; simpl; [right; left; eauto|].
  destruct (invited rs !! u) eqn:E3; simpl; [right; right; left; eauto|].
  by repeat right.
Qed.

Lemma init_WF room : WF (init room).
Proof using.
  split; simpl; [by intros []|intros ? ?; by rewrite lookup_empty| |intros ? ?; by rewrite lookup_empty].
  split; simpl; try (apply map_Forall_empty).
  - intros u. left. by rewrite lookup_empty.
  - intros u. left. by rewrite lookup_empty.
  - intros u. left. by rewrite lookup_empty.
  - intros u [? Hu]. by rewrite lookup_empty in Hu.
  - intros d. unfold countOf, countIn. simpl. by rewrite lookup_empty.
Qed.

(** The fields an event other than a create or encryption event leaves. *)
Definition header (rs : RoomServerState) :=
  (roomId rs, RoomNid rs, SnapId rs, IsEncrypted rs, IsFed rs, isDirect rs, Version rs).

(** ** Member events *)

(** The three maps after a member event of user [k]. *)
Definition joinedAfter (rs : RoomServerState) (k m : string) (ev : Event) : gmap string Event :=
  if String.eqb m "join" then <[k := ev]> (joined rs) else delete k (joined rs).
Definition invitedAfter (rs : RoomServerState) (k m : string) (ev : Event) : gmap string Event :=
  if String.eqb m "invite" then <[k := ev]> (invited rs) else delete k (invited rs).
Definition leftAfter (rs : RoomServerState) (k m : string) (ev : Event) : gmap string Event :=
  if String.eqb m "leave" || String.eqb m "ban" && negb (String.eqb (preMembership rs k) "leave")
  then <[k := ev]> (left rs) else delete k (left rs).

Definition thirdAfter (rs : RoomServerState) (k m : string) : gmap string Event :=
  if String.eqb m "join" || String.eqb m "leave" || String.eqb m "ban"
  then delete k (thirdInvite rs) else thirdInvite rs.

Definition b2z (b : bool) : Z := if b then 1 else 0.

(** The counting of [dropPrevious], as one addition. *)
Definition countDelta (pre m : string) : Z := b2z (String.eqb m "join") - b2z (String.eqb pre "join").

Lemma membership_cases (m : string) :
  m = "join" \/ m = "invite" \/ m = "leave" \/ m = "ban" \/
  (String.eqb m "join" = false /\ String.eqb m "invite" = false /\
   String.eqb m "leave" = false /\ String.eqb m "ban" = false).
Proof using.
  destruct (String.eqb_spec m "join"); [by left|].
  destruct (String.eqb_spec m "invite"); [by right; left|].
  destruct (String.eqb_spec m "leave"); [by right; right; left|].
  destruct (String.eqb_spec m "ban"); [by right; right; right; left|]. by repeat right.
Qed.

Lemma preMembership_getDomainTL rs d k : preMembership (getDomainTL rs d).2 k = preMembership rs k.
Proof using. unfold getDomainTL. by destruct (domainTl rs !! d). Qed.

Lemma countOf_add rs d x d' :
  is_Some (domainTl rs !! d) ->
  countOf (addMemberCnt rs d x) d' = countOf rs d' + (if decide (d' = d) then x else 0).
Proof using.
  intros [it Hit]. unfold countOf, addMemberCnt. simpl. case_decide as E.
  - subst. by rewrite lookup_alter_eq, Hit.
  - rewrite lookup_alter_ne by done. lia.
Qed.

Lemma getDomainTL_has rs d : is_Some (domainTl (getDomainTL rs d).2 !! d).
Proof using.
  unfold getDomainTL. destruct (domainTl rs !! d) eqn:E; simpl; [by rewrite E|].
  by rewrite lookup_insert_eq.
Qed.

Lemma countOf_getDomainTL rs d d' : countOf (getDomainTL rs d).2 d' = countOf rs d'.
Proof using.
  unfold getDomainTL, countOf. destruct (domainTl rs !! d) eqn:E; simpl; [done|].
  destruct (decide (d = d')) as [->|].
  - by rewrite lookup_insert_eq, E.
  - by rewrite lookup_insert_ne.
Qed.

(** [dropPrevious] changes the maps as described and nothing else. *)
Record memberStep (rs rs' : RoomServerState) (d k m : string) (ev : Event) : Prop := {
  ms_joined : joined rs' = joinedAfter rs k m ev;
  ms_left : left rs' = leftAfter rs k m ev;
  ms_invited : invited rs' = invitedAfter rs k m ev;
  ms_third : thirdInvite rs' = thirdAfter rs k m;
  ms_slots : slots rs' = slots rs;
  ms_ext : ext rs' = ext rs;
  ms_header : header rs' = header rs;
  ms_tl : forall d' it', domainTl rs' !! d' = Some it' ->
     tl it' = tl freshItem \/ exists it, domainTl rs !! d' = Some it /\ tl it = tl it';
  ms_count : forall d', countOf rs' d' =
     countOf rs d' + (if decide (d' = d) then countDelta (preMembership rs k) m else 0);
}.

Lemma dropPrevious_count rs d k pre m d' :
  is_Some (domainTl rs !! d) ->
  countOf (dropPrevious rs d k pre m) d' =
  countOf rs d' + (if decide (d' = d) then countDelta pre m else 0).
Proof using.
  intros Hd. unfold dropPrevious, countDelta.
  destruct (String.eqb_spec m pre) as [->|Hne].
  { destruct (String.eqb pre "join"); simpl; case_decide; lia. }
  destruct (String.eqb_spec pre "join") as [->|Hpj].
  - rewrite (proj2 (String.eqb_neq m "join")) by done.
    rewrite countOf_add by done. done.
  - assert (Hset : forall j l i t, countOf (set_members rs j l i t) d' = countOf rs d') by done.
    destruct (String.eqb m "join"); simpl.
    + rewrite countOf_add; [|by destruct (String.eqb pre "invite"), (String.eqb pre "leave")].
      by destruct (String.eqb pre "invite"), (String.eqb pre "leave").
    + destruct (String.eqb pre "invite"), (String.eqb pre "leave"); rewrite ?Hset;
        case_decide; simpl; lia.
Qed.

Lemma dropPrevious_maps rs d k m ev :
  WFmembers rs ->
  let r := dropPrevious (storeMember rs k m ev) d k (preMembership rs k) m in
  joined r = joinedAfter rs k m ev /\ left r = leftAfter rs k m ev /\
  invited r = invitedAfter rs k m ev /\ thirdInvite r = thirdAfter rs k m /\
  slots r = slots rs /\ ext r = ext rs /\ header r = header rs.
Proof using.
  intros HW. pose proof (wf_joined_left _ HW k) as H1. pose proof (wf_joined_invited _ HW k) as H2.
  pose proof (wf_left_invited _ HW k) as H3.
  unfold dropPrevious, storeMember, joinedAfter, leftAfter, invitedAfter, thirdAfter, addMemberCnt.
  destruct (membership_cases m) as [->|[->|[->|[->|(Ej & Ei & El & Eb)]]]];
  destruct (preMembership_cases rs k) as
    [[-> [e He]]|[(-> & Hj & e & He)|[(-> & Hj & Hl & e & He)|(-> & Hj & Hl & Hi)]]];
  rewrite ?Hj, ?Hl, ?Hi, ?He in *;
  repeat match goal with E : Some _ = None \/ _ |- _ => destruct E as [E|E]; [discriminate E|]
                       | E : _ \/ Some _ = None |- _ => destruct E as [E|E]; [|discriminate E] end;
  rewrite ?Ej, ?Ei, ?El, ?Eb; simpl; try destruct (String.eqb m ""); simpl;
  repeat split; rewrite ?delete_insert_eq, ?delete_id by done; try done.
Qed.

(** The timelines are the old ones or empty. *)
Definition tlKept (rs rs' : RoomServerState) : Prop :=
  forall d' it', domainTl rs' !! d' = Some it' ->
    tl it' = tl freshItem \/ exists it, domainTl rs !! d' = Some it /\ tl it = tl it'.

Lemma tlKept_refl rs rs' : domainTl rs' = domainTl rs -> tlKept rs rs'.
Proof using. intros E d it. rewrite E. eauto. Qed.

Lemma tlKept_getDomainTL rs d : tlKept rs (getDomainTL rs d).2.
Proof using.
  unfold getDomainTL, tlKept. destruct (domainTl rs !! d) eqn:E; simpl; [eauto|].
  intros d' it'. destruct (decide (d = d')) as [->|].
  - rewrite lookup_insert_eq. intros [= <-]. by left.
  - rewrite lookup_insert_ne by done. eauto.
Qed.

Lemma tlKept_add rs rs' d x : tlKept rs rs' -> tlKept rs (addMemberCnt rs' d x).
Proof using.
  unfold tlKept, addMemberCnt. simpl. intros HK d' it'. rewrite lookup_alter_Some.
  intros [(<- & it & Hit & ->)|[_ Hit]]; [exact (HK d it Hit)|exact (HK d' it' Hit)].
Qed.

Lemma tlKept_dropPrevious rs rs' d k pre m : tlKept rs rs' -> tlKept rs (dropPrevious rs' d k pre m).
Proof using.
  intros HK. unfold dropPrevious.
  destruct (String.eqb m pre), (String.eqb pre "join"), (String.eqb pre "invite"),
    (String.eqb pre "leave"), (String.eqb m "join"); repeat apply tlKept_add; exact HK.
Qed.

Lemma getDomainTL_same rs d : let r := (getDomainTL rs d).2 in
  joined r = joined rs /\ left r = left rs /\ invited r = invited rs /\
  thirdInvite r = thirdInvite rs /\ slots r = slots rs /\ ext r = ext rs /\ header r = header rs.
Proof using. unfold getDomainTL. by destruct (domainTl rs !! d). Qed.

Lemma WFmembers_same rs rs' :
  joined rs' = joined rs -> left rs' = left rs -> invited rs' = invited rs ->
  (forall d, countOf rs' d = countOf rs d) -> WFmembers rs -> WFmembers rs'.
Proof using.
  intros Ej El Ei Ec [A B C D E F G I].
  split; rewrite ?Ej, ?El, ?Ei; try done. intros d. by rewrite Ec.
Qed.

Lemma WFmembers_getDomainTL rs d : WFmembers rs -> WFmembers (getDomainTL rs d).2.
Proof using.
  destruct (getDomainTL_same rs d) as (? & ? & ? & _).
  apply WFmembers_same; auto using countOf_getDomainTL.
Qed.

Lemma onMemberEv_step rs ev k d :
  WFmembers rs -> StateKey ev = Some k -> Ids.DomainFromID k = Ok d ->
  exists rs', onMemberEv rs ev = Ok rs' /\ memberStep rs rs' d k (lenientMembership (Content ev)) ev.
Proof using.
  intros HW Hk Hd. unfold onMemberEv. rewrite Hk. simpl. rewrite Hd. eexists. split; [done|].
  pose proof (dropPrevious_maps _ d k (lenientMembership (Content ev)) ev
                (WFmembers_getDomainTL rs d HW)) as (Mj & Ml & Mi & Mt & Ms & Me & Mh).
  set (m := lenientMembership (Content ev)) in *.
  destruct (getDomainTL_same rs d) as (S1 & S2 & S3 & S4 & S5 & S6 & S7).
  split.
  - rewrite Mj. unfold joinedAfter. by rewrite S1.
  - rewrite Ml. unfold leftAfter. by rewrite S2, preMembership_getDomainTL.
  - rewrite Mi. unfold invitedAfter. by rewrite S3.
  - rewrite Mt. unfold thirdAfter. by rewrite S4.
  - by rewrite Ms.
  - by rewrite Me.
  - by rewrite Mh.
  - apply tlKept_dropPrevious. intros d' it' Hit. apply (tlKept_getDomainTL rs d).
    unfold storeMember in Hit.
    by destruct (String.eqb m "join"), (String.eqb m "invite"), (String.eqb m "leave" || String.eqb m "ban").
  - intros d'. rewrite dropPrevious_count.
    + rewrite preMembership_getDomainTL. f_equal. rewrite <- (countOf_getDomainTL rs d d').
      unfold storeMember.
      by destruct (String.eqb m "join"), (String.eqb m "invite"), (String.eqb m "leave" || String.eqb m "ban").
    + pose proof (getDomainTL_has rs d). unfold storeMember.
      by destruct (String.eqb m "join"), (String.eqb m "invite"), (String.eqb m "leave" || String.eqb m "ban").
Qed.

(** What the maps hold for one user afterwards. *)
Lemma memberStep_lookup rs rs' d k m ev u : memberStep rs rs' d k m ev ->
  joined rs' !! u = (if decide (u = k) then if String.eqb m "join" then Some ev else None else joined rs !! u) /\
  left rs' !! u = (if decide (u = k)
     then if String.eqb m "leave" || String.eqb m "ban" && negb (String.eqb (preMembership rs k) "leave")
          then Some ev else None
     else left rs !! u) /\
  invited rs' !! u = (if decide (u = k) then if String.eqb m "invite" then Some ev else None else invited rs !! u).
Proof using.
  intros [-> -> -> _ _ _ _ _ _]. unfold joinedAfter, leftAfter, invitedAfter.
  split; [|split]; case_decide as E; subst;
  match goal with |- context [if ?b then _ else _] => destruct b end;
  rewrite ?lookup_insert_eq, ?lookup_delete_eq, ?lookup_insert_ne, ?lookup_delete_ne by done; done.
Qed.

Lemma memberStep_WF rs rs' d k m ev :
  WFmembers rs -> memberStep rs rs' d k m ev ->
  Type_ ev = MRoomMember -> StateKey ev = Some k -> m = lenientMembership (Content ev) ->
  Ids.DomainFromID k = Ok d -> WFmembers rs'.
Proof using.
  intros HW HM Ht Hk Hm Hd. pose proof (memberStep_lookup _ _ _ _ _ _ k HM) as Lk.
  assert (L : forall u, u <> k -> joined rs' !! u = joined rs !! u /\ left rs' !! u = left rs !! u
     /\ invited rs' !! u = invited rs !! u).
  { intros u Hu. pose proof (memberStep_lookup _ _ _ _ _ _ u HM) as Lu.
    by rewrite !decide_False in Lu by done. }
  rewrite !decide_True in Lk by done. destruct Lk as (Lj & Ll & Li). split.
  - rewrite (ms_joined _ _ _ _ _ _ HM). unfold joinedAfter. destruct (String.eqb_spec m "join").
    + apply map_Forall_insert_2; [|apply HW]. split; [done|]. split; [done|]. rewrite <- Hm. set_solver.
    + apply map_Forall_delete, HW.
  - rewrite (ms_left _ _ _ _ _ _ HM). unfold leftAfter.
    destruct (_ || _) eqn:E; [|apply map_Forall_delete, HW].
    apply map_Forall_insert_2; [|apply HW]. split; [done|]. split; [done|]. rewrite <- Hm.
    apply orb_true_iff in E as [E%String.eqb_eq|[E%String.eqb_eq _]%andb_true_iff]; set_solver.
  - rewrite (ms_invited _ _ _ _ _ _ HM). unfold invitedAfter. destruct (String.eqb_spec m "invite").
    + apply map_Forall_insert_2; [|apply HW]. split; [done|]. split; [done|]. rewrite <- Hm. set_solver.
    + apply map_Forall_delete, HW.
  - intros u. destruct (decide (u = k)) as [->|Hu]; [|destruct (L u Hu) as (-> & -> & _); apply HW].
    rewrite Lj, Ll. destruct (String.eqb_spec m "join") as [->|]; auto.
  - intros u. destruct (decide (u = k)) as [->|Hu]; [|destruct (L u Hu) as (-> & _ & ->); apply HW].
    rewrite Lj, Li. destruct (String.eqb_spec m "join") as [->|]; auto.
  - intros u. destruct (decide (u = k)) as [->|Hu]; [|destruct (L u Hu) as (_ & -> & ->); apply HW].
    rewrite Ll, Li. destruct (String.eqb_spec m "invite") as [->|]; auto.
  - intros u Hu. destruct (decide (u = k)) as [->|Hne]; [by rewrite Hd|].
    apply (wf_domain _ HW). by destruct (L u Hne) as (<- & _).
  - intros d'. rewrite (ms_count _ _ _ _ _ _ HM), (wf_count _ HW), (ms_joined _ _ _ _ _ _ HM).
    unfold joinedAfter, countDelta.
    destruct (preMembership_cases rs k) as [[-> [e He]]|Hno].
    + destruct (String.eqb m "join"); simpl.
      * rewrite (countIn_replace _ _ e) by done. case_decide; lia.
      * rewrite (countIn_remove _ _ e d) by done. case_decide; lia.
    + assert (Hnj : joined rs !! k = None /\ String.eqb (preMembership rs k) "join" = false).
      { by destruct Hno as [(-> & ? & _)|[(-> & ? & _)|(-> & ? & _)]]. }
      destruct Hnj as [Hnj ->].
      destruct (String.eqb m "join"); simpl.
      * by rewrite (countIn_add _ _ _ d).
      * rewrite delete_id by done. case_decide; lia.
Qed.

(** ** Every event keeps the state well formed *)

(** The events the room server stores: a member or third-party-invite event has
    a state key. *)
Definition keyed (ev : Event) : Prop :=
  Type_ ev = MRoomMember \/ Type_ ev = MRoomThirdPartyInvite -> is_Some (StateKey ev).

Lemma tlKept_Inv rs rs' :
  tlKept rs rs' -> (forall d it, domainTl rs !! d = Some it -> exists l, Timeline.Inv (tl it) l) ->
  forall d it, domainTl rs' !! d = Some it -> exists l, Timeline.Inv (tl it) l.
Proof using.
  intros HK HI d it Hit. destruct (HK d it Hit) as [->|(it0 & Hit0 & <-)]; [|eauto].
  exists []. apply Timeline.New_Inv. lia.
Qed.

(** Flags and [ext] do not matter. *)
Lemma WF_frame rs rs' :
  slots rs' = slots rs -> joined rs' = joined rs -> left rs' = left rs -> invited rs' = invited rs ->
  thirdInvite rs' = thirdInvite rs -> domainTl rs' = domainTl rs -> WF rs -> WF rs'.
Proof using.
  intros Es Ej El Ei Et Ed [A B C D]. split; rewrite ?Es, ?Et, ?Ed; auto.
  apply (WFmembers_same rs); auto. intros d. unfold countOf. by rewrite Ed.
Qed.

Lemma WF_setSlot rs k ev :
  WF rs -> Type_ ev = slotType k -> WF (set_slots rs (setSlot (slots rs) k (Some ev))).
Proof using.
  intros [A B C D] Ht. split; simpl; try done.
  - intros k' e. rewrite getSlot_set. case_decide; [|apply A]. subst. by intros [= <-].
  - by apply (WFmembers_same rs).
Qed.

Lemma onEventUpdate_WF rs ev :
  WF rs -> keyed ev -> exists rs', onEventUpdate rs ev = Ok rs' /\ WF rs'.
Proof using.
  intros HW Hkey. unfold onEventUpdate.
  destruct (String.eqb_spec (Type_ ev) "m.room.create") as [Ec|_].
  { eexists. split; [done|]. unfold onCreateEv. destruct (lenientCreate (Content ev)) as [f d].
    eapply WF_frame; [..|apply (WF_setSlot rs SCreator ev HW)]; done. }
  destruct (String.eqb_spec (Type_ ev) "m.room.member") as [Em|_].
  { destruct (Hkey (or_introl Em)) as [k Hk].
    destruct (Ids.DomainFromID k) as [d| | |] eqn:Ed;
      try (exists rs; split; [|done]; unfold onMemberEv; rewrite Hk; simpl; by rewrite Ed).
    destruct (onMemberEv_step rs ev k d (wf_members _ HW) Hk Ed) as (rs' & E & HM).
    exists rs'. split; [done|]. split.
    - intros k' e. rewrite (ms_slots _ _ _ _ _ _ HM). apply HW.
    - intros k' e. rewrite (ms_third _ _ _ _ _ _ HM). unfold thirdAfter.
      destruct (_ || _); [|apply HW]. intros [_ Hd]%lookup_delete_Some. by apply HW.
    - eapply memberStep_WF; eauto. apply HW.
    - eapply tlKept_Inv; [exact (ms_tl _ _ _ _ _ _ HM)|apply HW]. }
  destruct (String.eqb_spec (Type_ ev) "m.room.third_party_invite") as [Et|_].
  { destruct (Hkey (or_intror Et)) as [k Hk]. rewrite Hk. eexists. split; [done|].
    destruct HW as [A B C D]. split; simpl; try done.
    - intros k' e [[-> <-]|[_ ?]]%lookup_insert_Some; auto.
    - by apply (WFmembers_same rs). }
  destruct (String.eqb_spec (Type_ ev) "m.room.encryption") as [Ee|_].
  { eexists. split; [done|]. by apply (WF_frame rs). }
  destruct (slotOfType (Type_ ev)) as [k|] eqn:Es; [|by exists rs].
  eexists. split; [done|]. apply WF_setSlot; [done|]. symmetry. by apply slotOfType_type.
Qed.

(** Recording the event in the timeline of its sender's domain. *)
Lemma addFeed_WF rs domain ev offset :
  WF rs -> 0 < offset ->
  let '(item, rs3) := getDomainTL rs domain in
  exists tl' x, Timeline.Add (tl item) (Some (mkEventFeed ev offset)) = Ok (tl', x) /\
    WF (set_domainTl rs3 (<[domain := mkDomainTLItem tl' (MemberCnt item)]> (domainTl rs3))).
Proof using.
  intros HW Hoff.
  assert (Hit : exists l, Timeline.Inv (tl (getDomainTL rs domain).1) l).
  { unfold getDomainTL. destruct (domainTl rs !! domain) eqn:E; [by eapply HW|].
    exists []. apply Timeline.New_Inv. lia. }
  assert (Hcnt : MemberCnt (getDomainTL rs domain).1 = countOf rs domain).
  { unfold getDomainTL, countOf. by destruct (domainTl rs !! domain). }
  destruct (getDomainTL_same rs domain) as (Ej & El & Ei & Et & Es & _).
  pose proof (tlKept_Inv _ _ (tlKept_getDomainTL rs domain) (wf_tl _ HW)) as HT.
  pose proof (countOf_getDomainTL rs domain) as Hc.
  destruct (getDomainTL rs domain) as [item rs3]. simpl in *. destruct Hit as [l Hl].
  destruct (Timeline.Add_Inv _ l (mkEventFeed ev offset) Hl Hoff) as (tl' & l' & EA & HI & _).
  exists tl', (Timeline.evicted (tl item) l). split; [done|]. destruct HW as [A B C D]. split; simpl.
  - by rewrite Es.
  - by rewrite Et.
  - apply (WFmembers_same rs); simpl; auto. intros d. rewrite <- (Hc d). unfold countOf at 1. simpl.
    destruct (decide (domain = d)) as [->|]; [|by rewrite lookup_insert_ne].
    rewrite lookup_insert_eq. simpl. by rewrite Hcnt, Hc.
  - intros d it [[-> <-]|[_ ?]]%lookup_insert_Some; simpl; eauto.
Qed.

Lemma GetPreEvent_keyed rs ev : keyed ev -> exists pre isState, GetPreEvent rs ev = Ok (pre, isState).
Proof using.
  intros Hkey. unfold GetPreEvent.
  destruct (String.eqb_spec (Type_ ev) "m.room.member") as [Em|_].
  { destruct (Hkey (or_introl Em)) as [k ->]. simpl. eauto. }
  destruct (String.eqb_spec (Type_ ev) "m.room.third_party_invite") as [Et|_].
  { destruct (Hkey (or_intror Et)) as [k ->]. simpl. eauto. }
  destruct (String.eqb _ _); [eauto|]. destruct (slotOfType _); eauto.
Qed.

Lemma onEvent_WF rs ev offset recover :
  WF rs -> keyed ev -> 0 < offset ->
  exists rs', onEvent domainMng rs ev offset recover = Ok rs' /\ WF rs'.
Proof using.
  intros HW Hkey Hoff. unfold onEvent.
  destruct (GetPreEvent_keyed rs ev Hkey) as (pre & isState & ->). cbn [mbind res_bind].
  destruct (Ids.DomainFromID (Sender ev)) as [domain| | |]; try (by exists rs).
  destruct (onEventCheckUpdate domainMng rs ev pre domain isState recover) as [upd e1].
  assert (HW1 : WF (set_ext rs (set_HasUpdate e1 upd))) by (by apply (WF_frame rs)).
  destruct upd; cbn [negb]; [|by eexists].
  destruct (onEventUpdate_WF _ ev HW1 Hkey) as (rs2 & -> & HW2).
  cbn [mbind res_bind].
  pose proof (addFeed_WF rs2 domain ev offset HW2 Hoff) as HA.
  destruct (getDomainTL rs2 domain) as [item rs3]. destruct HA as (tl' & x & -> & HA). eauto.
Qed.

(** C22: The room-state invariant: replaying any sequence of events in which the
    member and third-party-invite events have a state key and the offsets are
    positive, from a new room, never panics, and the state reached is well formed:
    every event sits in the field or map of its type and state key, no user is in two
    of the maps join, leave and invite, the member count of each domain is the number
    of its joined users, and the per-domain timelines are intact. *)
Theorem onEvents_well_formed (room : string) (evs : list (Event * Z)) (recover : bool)
  (Hevs : Forall (fun eo => keyed eo.1 /\ 0 < eo.2) evs) :
  exists rs, onEvents domainMng (init room) evs recover = Ok rs /\ WF rs.
Proof using.
  generalize (init_WF room). generalize (init room). induction Hevs as [|[ev off] evs [Hk Ho] _ IH]; intros rs HW.
  { by exists rs. }
  destruct (onEvent_WF rs ev off recover HW Hk Ho) as (rs1 & E & HW1).
  simpl. rewrite E. simpl. by apply IH.
Qed.

(** ** What a member event does *)

(** The last part of [onEvent] touches neither the maps nor the fields. *)
Lemma onEvent_update rs ev offset recover pre isState domain e1 rs2 :
  GetPreEvent rs ev = Ok (pre, isState) -> Ids.DomainFromID (Sender ev) = Ok domain ->
  onEventCheckUpdate domainMng rs ev pre domain isState recover = (true, e1) ->
  onEventUpdate (set_ext rs (set_HasUpdate e1 true)) ev = Ok rs2 -> WF rs2 -> 0 < offset ->
  exists rs', onEvent domainMng rs ev offset recover = Ok rs' /\
    joined rs' = joined rs2 /\ left rs' = left rs2 /\ invited rs' = invited rs2 /\
    thirdInvite rs' = thirdInvite rs2 /\ slots rs' = slots rs2 /\ header rs' = header rs2.
Proof using.
  intros Hp Hd Hc Hu HW Hoff. unfold onEvent. rewrite Hp. cbn [mbind res_bind]. rewrite Hd, Hc.
  cbn [negb]. rewrite Hu. cbn [mbind res_bind].
  pose proof (addFeed_WF rs2 domain ev offset HW Hoff) as HA.
  pose proof (getDomainTL_same rs2 domain) as HS.
  destruct (getDomainTL rs2 domain) as [item rs3]. destruct HA as (tl' & x & -> & HA).
  eexists. split; [done|]. simpl in *. change (header (set_domainTl rs3 _)) with (header rs3). tauto.
Qed.

(** The event [Member] gives for the user after a member event. *)
Definition memberAfter (pre m : string) (ev : Event) : option Event :=
  if String.eqb m "join" || String.eqb m "invite" || String.eqb m "leave" then Some ev
  else if String.eqb m "ban" then if String.eqb pre "leave" then None else Some ev
  else None.

Lemma member_event_step rs ev offset recover k d sd :
  WF rs -> Type_ ev = MRoomMember -> StateKey ev = Some k -> Ids.DomainFromID k = Ok d ->
  Ids.DomainFromID (Sender ev) = Ok sd -> localDomain domainMng sd = true -> 0 < offset ->
  exists rs', onEvent domainMng rs ev offset recover = Ok rs' /\
    (forall u, u <> k -> memberEvent rs' u = memberEvent rs u) /\
    memberEvent rs' k = memberAfter (preMembership rs k) (lenientMembership (Content ev)) ev.
Proof using.
  intros HW Ht Hk Hd Hsd Hloc Hoff.
  assert (Hpre : GetPreEvent rs ev = Ok (memberEvent rs k, true)).
  { unfold GetPreEvent. rewrite Ht, Hk. done. }
  destruct (onEventCheckUpdate domainMng rs ev (memberEvent rs k) sd true recover) as [upd e1] eqn:Ec.
  assert (upd = true) as ->.
  { unfold onEventCheckUpdate in Ec. rewrite Hloc in Ec. by injection Ec. }
  set (rs1 := set_ext rs (set_HasUpdate e1 true)).
  assert (HW1 : WF rs1) by (by apply (WF_frame rs)).
  destruct (onMemberEv_step rs1 ev k d (wf_members _ HW1) Hk Hd) as (rs2 & E2 & HM).
  assert (Hupd : onEventUpdate rs1 ev = Ok rs2).
  { unfold onEventUpdate. rewrite Ht. exact E2. }
  assert (HW2 : WF rs2).
  { destruct (onEventUpdate_WF rs1 ev HW1) as (r & Er & Hr); [intros _; rewrite Hk; eauto|]. congruence. }
  destruct (onEvent_update rs ev offset recover _ _ _ _ _ Hpre Hsd Ec Hupd HW2 Hoff)
    as (rs' & E' & Ej & El & Ei & _).
  exists rs'. split; [done|].
  assert (HL : forall u, memberEvent rs' u = memberEvent rs2 u).
  { intros u. unfold memberEvent. by rewrite Ej, El, Ei. }
  split.
  - intros u Hu. rewrite HL. destruct (memberStep_lookup _ _ _ _ _ _ u HM) as (A & B & C).
    rewrite !decide_False in A, B, C by done. unfold memberEvent. rewrite A, B, C. done.
  - rewrite HL. destruct (memberStep_lookup _ _ _ _ _ _ k HM) as (A & B & C).
    rewrite !decide_True in A, B, C by done. unfold memberEvent, memberAfter. rewrite A, B, C.
    change (preMembership rs1 k) with (preMembership rs k).
    destruct (membership_cases (lenientMembership (Content ev))) as [->|[->|[->|[->|(-> & -> & -> & ->)]]]];
      simpl; try done. by destruct (String.eqb (preMembership rs k) "leave").
Qed.

(** what a member event of a local sender does to the membership lookups:
    every other user keeps their event; a join, invite or leave becomes the
    user's event; a ban becomes it too unless the user was in the leave map, in
    which case (as for an unknown membership) the lookup gives nothing
    afterwards. *)
Theorem member_event_effect (rs : RoomServerState) (ev : Event) (offset : Z) (recover : bool) (k d sd : string)
  (HW : WF rs) (Ht : Type_ ev = MRoomMember) (Hk : StateKey ev = Some k)
  (Hd : Ids.DomainFromID k = Ok d) (Hsd : Ids.DomainFromID (Sender ev) = Ok sd)
  (Hloc : localDomain domainMng sd = true) (Hoff : 0 < offset) :
  exists rs', onEvent domainMng rs ev offset recover = Ok rs' /\
    (forall u, u <> k -> Member rs' u = Member rs u) /\
    Member rs' k = Ok (memberAfter (preMembership rs k) (lenientMembership (Content ev)) ev).
Proof using.
  destruct (member_event_step rs ev offset recover k d sd) as (rs' & E & Ho & Hm); try done.
  exists rs'. split; [done|]. simpl. rewrite Hm. split; [|done]. intros u Hu. by rewrite Ho.
Qed.

(** stale and repeated remote events are ignored: a state event whose sender
    is on another server changes nothing but the [HasUpdate] flag when the
    current event of the same field or user is newer or has the same
    identifier. *)
Theorem remote_stale_ignored (rs : RoomServerState) (ev pre : Event) (offset : Z) (recover : bool) (d : string)
  (Hpre : GetPreEvent rs ev = Ok (Some pre, true))
  (Hd : Ids.DomainFromID (Sender ev) = Ok d) (Hrem : localDomain domainMng d = false)
  (Hstale : OriginServerTS ev < OriginServerTS pre \/ EventID pre = EventID ev) :
  onEvent domainMng rs ev offset recover = Ok (set_ext rs (set_HasUpdate (ext rs) false)).
Proof using.
  unfold onEvent, onEventCheckUpdate. rewrite Hpre. cbn [mbind res_bind]. rewrite Hd, Hrem.
  assert ((OriginServerTS pre <=? OriginServerTS ev) && negb (String.eqb (EventID pre) (EventID ev)) = false) as ->.
  { destruct Hstale as [Hlt|Heq].
    - by rewrite (proj2 (Z.leb_gt _ _)).
    - rewrite Heq, String.eqb_refl. apply andb_false_r. }
  done.
Qed.

End WF.

(** ** Witnesses and the repeated ban *)

Definition mev (sender user membership : string) (n : Z) : Event :=
  mkEvent "!r:a" ("$" ++ pretty n ++ ":a") n 0 sender MRoomMember (Some user) membership "" 3 "" n "a" "".
Definition sev (type sender content : string) (n : Z) : Event :=
  mkEvent "!r:a" "$s:a" n 0 sender type (Some "") content "" 3 "" n "a" "".

#[local] Instance demoCodec : Codec := toyCodec (fun _ => None).
#[local] Instance demoConfig : AuthConfig := {| domainCfg := ["a"]; skipEv := fun _ => false |}.

Definition publicRoom : list (Event * Z) :=
  [(sev "m.room.create" "@alice:a" "@alice:a" 1, 1); (mev "@alice:a" "@alice:a" "join" 2, 2);
   (sev "m.room.join_rules" "@alice:a" "public" 3, 3); (mev "@alice:a" "@eve:a" "ban" 4, 4)].

Definition eveJoins : Event := mev "@eve:a" "@eve:a" "join" 6.

(** banning a banned user lifts the ban.  In a public room where eve is
    banned, eve's join is refused; after alice's second ban, which is authorised,
    the state has no member event for eve and her join is authorised. *)
Theorem second_ban_lifts_ban :
  let again := mev "@alice:a" "@eve:a" "ban" 5 in
  exists rs rs',
    onEvents None (init "!r:a") publicRoom false = Ok rs /\
    Allowed eveJoins rs <> Ok () /\ Allowed again rs = Ok () /\
    onEvent None rs again 5 false = Ok rs' /\
    Member rs' "@eve:a" = Ok None /\ Allowed eveJoins rs' = Ok ().
Proof.
  eexists _, _. split; [vm_compute; reflexivity|]. split; [by vm_compute|]. split; [by vm_compute|].
  split; [vm_compute; reflexivity|]. split; by vm_compute.
Qed.

Lemma onEvents_well_formed_witness :
  exists rs, onEvents None (init "!r:a") publicRoom false = Ok rs /\ WF rs.
Proof.
  apply (onEvents_well_formed None "!r:a" publicRoom false).
  repeat constructor; simpl; try lia; intros _; eauto.
Defined.

Lemma member_event_effect_witness :
  exists rs', onEvent None (init "!r:a") (mev "@alice:a" "@eve:a" "ban" 4) 4 false = Ok rs' /\
    (forall u, u <> "@eve:a" -> Member rs' u = Member (init "!r:a") u) /\
    Member rs' "@eve:a" = Ok (Some (mev "@alice:a" "@eve:a" "ban" 4)).
Proof.
  exact (member_event_effect None (init "!r:a") (mev "@alice:a" "@eve:a" "ban" 4) 4 false "@eve:a" "a" "a"
           (init_WF _) eq_refl eq_refl eq_refl eq_refl eq_refl eq_refl).
Defined.

Definition remoteName (n : Z) : Event :=
  mkEvent "!r:a" "$n:b" n 0 "@bob:b" "m.room.name" (Some "") "x" "" 3 "" n "b" "".
Definition namedRoom : RoomServerState :=
  set_slots (init "!r:a") (setSlot noSlots SName (Some (remoteName 5))).

Lemma remote_stale_ignored_witness :
  onEvent None namedRoom (remoteName 4) 4 false = Ok (set_ext namedRoom (set_HasUpdate (ext namedRoom) false)).
Proof.
  apply (remote_stale_ignored None namedRoom (remoteName 4) (remoteName 5) 4 false "b");
    [reflexivity|reflexivity|reflexivity|left; simpl; lia].
Defined.

End RoomStateFacts.
