(* ===== verification/RoomCache.v ===== *)
(** * The room state survives the cache

    [serialize] followed by [getRoomStateFromCache] ([RoomState]), which decodes every
    event with its checks and replays them, gives back the fields, the membership
    maps and the flags of a room whose events pass the checks, whatever order the
    cached maps are visited in. *)

From Stdlib Require Import String Ascii ZArith List Permutation.
From stdpp Require Import base tactics list gmap strings.
From S2P Require Import Prelude Ids Timeline Event EventContent EventAuth RoomState RoomStateFacts.
Import Event.Event EventContent.EventContent EventAuth.EventAuth RoomState.RoomState RoomStateFacts.RoomStateFacts.

#[local] Open Scope string_scope.
#[local] Open Scope Z_scope.

Module RoomCache.

Section Cells.
  Context `{Codec} `{AuthConfig} (domainMng : option (Ids.DomainMng * Ids.DomainSrc)).

(** The place an event is stored at: its type, with its state key for member and
    third-party-invite events. *)
Definition keyOf (ev : Event) : string * string :=
  if String.eqb (Type_ ev) MRoomMember || String.eqb (Type_ ev) MRoomThirdPartyInvite
  then (Type_ ev, default "" (StateKey ev)) else (Type_ ev, "").

Definition cell (rs : RoomServerState) (tk : string * string) : option Event :=
  if String.eqb tk.1 MRoomMember then memberEvent rs tk.2
  else if String.eqb tk.1 MRoomThirdPartyInvite then thirdInvite rs !! tk.2
  else if String.eqb tk.2 "" then
    match slotOfType tk.1 with Some k => getSlot (slots rs) k | None => None end
  else None.

(** An event the cache can hold. *)
Record storable (ev : Event) : Prop := {
  st_sender : isOk (Ids.DomainFromID (Sender ev)) = true;
  st_nid : 0 < EventNID ev;
  st_fields : CheckFields ev = Ok ();
  st_kind :
    (exists u, Type_ ev = MRoomMember /\ StateKey ev = Some u /\ isOk (Ids.DomainFromID u) = true /\
       lenientMembership (Content ev) ∈ ["join"; "invite"; "leave"; "ban"]) \/
    (exists k, Type_ ev = MRoomThirdPartyInvite /\ StateKey ev = Some k) \/
    (exists s, Type_ ev = slotType s);
}.

Lemma slotType_special s : String.eqb (slotType s) MRoomMember = false /\
  String.eqb (slotType s) MRoomThirdPartyInvite = false /\ String.eqb (slotType s) "m.room.encryption" = false.
Proof using. by destruct s. Qed.

Lemma slotType_inj s1 s2 : slotType s1 = slotType s2 -> s1 = s2.
Proof using.
  intros E. assert (Some s1 = Some s2) by (rewrite <- !slotOfType_slotType; by rewrite E). congruence.
Qed.

(** Case analysis on membership in explicit lists. *)
Ltac members :=
  repeat match goal with
  | E : _ ∈ [] |- _ => by apply elem_of_nil in E
  | E : _ ∈ _ :: _ |- _ => apply elem_of_cons in E as [E|E]
  end; try congruence.

(** Well-formed states are determined by their cells. *)
Lemma joined_cell rs u e : WFmembers rs ->
  joined rs !! u = Some e <-> memberEvent rs u = Some e /\ lenientMembership (Content e) = "join".
Proof using.
  intros HW. unfold memberEvent. split.
  - intros E. rewrite E. split; [done|]. destruct (wf_joined _ HW _ _ E) as (_ & _ & ?). members.
  - destruct (joined rs !! u) as [j|] eqn:Ej; [tauto|].
    destruct (left rs !! u) as [l|] eqn:El.
    + intros [[= <-] Hm]. destruct (wf_left _ HW _ _ El) as (_ & _ & ?). members.
    + intros [Ei Hm]. destruct (wf_invited _ HW _ _ Ei) as (_ & _ & ?). members.
Qed.

Lemma left_cell rs u e : WFmembers rs ->
  left rs !! u = Some e <-> memberEvent rs u = Some e /\ lenientMembership (Content e) ∈ ["leave"; "ban"].
Proof using.
  intros HW. unfold memberEvent. split.
  - intros E. destruct (wf_joined_left _ HW u) as [-> |?]; [|congruence]. rewrite E.
    split; [done|]. by destruct (wf_left _ HW _ _ E) as (_ & _ & ?).
  - destruct (joined rs !! u) as [j|] eqn:Ej.
    + intros [[= <-] Hm]. destruct (wf_joined _ HW _ _ Ej) as (_ & _ & ?). members.
    + destruct (left rs !! u) as [l|] eqn:El; [tauto|].
      intros [Ei Hm]. destruct (wf_invited _ HW _ _ Ei) as (_ & _ & ?). members.
Qed.

Lemma invited_cell rs u e : WFmembers rs ->
  invited rs !! u = Some e <-> memberEvent rs u = Some e /\ lenientMembership (Content e) = "invite".
Proof using.
  intros HW. unfold memberEvent. split.
  - intros E. destruct (wf_joined_invited _ HW u) as [-> |?]; [|congruence].
    destruct (wf_left_invited _ HW u) as [-> |?]; [|congruence]. rewrite E.
    split; [done|]. destruct (wf_invited _ HW _ _ E) as (_ & _ & ?). members.
  - destruct (joined rs !! u) as [j|] eqn:Ej.
    + intros [[= <-] Hm]. destruct (wf_joined _ HW _ _ Ej) as (_ & _ & ?). members.
    + destruct (left rs !! u) as [l|] eqn:El; [|tauto].
      intros [[= <-] Hm]. destruct (wf_left _ HW _ _ El) as (_ & _ & ?). members.
Qed.

Lemma cells_determine rs1 rs2 :
  WF rs1 -> WF rs2 -> (forall tk, cell rs1 tk = cell rs2 tk) ->
  slots rs1 = slots rs2 /\ joined rs1 = joined rs2 /\ left rs1 = left rs2 /\
  invited rs1 = invited rs2 /\ thirdInvite rs1 = thirdInvite rs2.
Proof using.
  intros [_ _ W1 _] [_ _ W2 _] HC.
  assert (HM : forall u, memberEvent rs1 u = memberEvent rs2 u) by (intros u; apply (HC (MRoomMember, u))).
  split; [|split; [|split; [|split]]].
  - apply Slots_ext. intros k. specialize (HC (slotType k, "")). unfold cell in HC. simpl in HC.
    destruct (slotType_special k) as (E1 & E2 & _). rewrite E1, E2, slotOfType_slotType in HC. done.
  - apply map_eq. intros u. apply option_eq. intros e. by rewrite !joined_cell, HM.
  - apply map_eq. intros u. apply option_eq. intros e. by rewrite !left_cell, HM.
  - apply map_eq. intros u. apply option_eq. intros e. by rewrite !invited_cell, HM.
  - apply map_eq. intros u. apply (HC (MRoomThirdPartyInvite, u)).
Qed.

(** Replaying an event whose cell is empty stores it there and changes no other
    cell. *)
Lemma keyOf_member ev u : Type_ ev = MRoomMember -> StateKey ev = Some u -> keyOf ev = (MRoomMember, u).
Proof using. intros Ht Hk. unfold keyOf. by rewrite Ht, Hk. Qed.

Lemma keyOf_third ev u : Type_ ev = MRoomThirdPartyInvite -> StateKey ev = Some u ->
  keyOf ev = (MRoomThirdPartyInvite, u).
Proof using. intros Ht Hk. unfold keyOf. by rewrite Ht, Hk. Qed.

Lemma keyOf_slot ev s : Type_ ev = slotType s -> keyOf ev = (slotType s, "").
Proof using.
  intros Ht. unfold keyOf. rewrite Ht. by destruct (slotType_special s) as (-> & -> & _).
Qed.

Lemma cell_slot rs s : cell rs (slotType s, "") = getSlot (slots rs) s.
Proof using.
  unfold cell. simpl. destruct (slotType_special s) as (-> & -> & _). by rewrite slotOfType_slotType.
Qed.

Lemma GetPreEvent_cell rs ev : storable ev -> GetPreEvent rs ev = Ok (cell rs (keyOf ev), true).
Proof using.
  intros [_ _ _ [(u & Ht & Hk & _)|[(k & Ht & Hk)|(s & Ht)]]]; unfold GetPreEvent.
  - rewrite (keyOf_member _ _ Ht Hk), Ht, Hk. done.
  - rewrite (keyOf_third _ _ Ht Hk), Ht, Hk. done.
  - rewrite (keyOf_slot _ _ Ht), cell_slot, Ht.
    destruct (slotType_special s) as (E1 & E2 & E3). unfold MRoomMember, MRoomThirdPartyInvite in *.
    by rewrite E1, E2, E3, slotOfType_slotType.
Qed.

(** The flags after an event: only a create event sets them. *)
Definition headerAfter (rs : RoomServerState) (ev : Event) :=
  if String.eqb (Type_ ev) MRoomCreate
  then (roomId rs, RoomNid rs, SnapId rs, IsEncrypted rs,
        default false (lenientCreate (Content ev)).1, default false (lenientCreate (Content ev)).2, Version rs)
  else header rs.

Lemma update_cell rs ev :
  WF rs -> storable ev -> cell rs (keyOf ev) = None ->
  (forall u, keyOf ev = (MRoomMember, u) -> thirdInvite rs !! u = None) ->
  exists rs', onEventUpdate rs ev = Ok rs' /\ header rs' = headerAfter rs ev /\
    forall tk, cell rs' tk = if decide (tk = keyOf ev) then Some ev else cell rs tk.
Proof using.
  intros HW [_ _ _ Hkind] Hempty Hthird. unfold onEventUpdate, headerAfter.
  destruct Hkind as [(u & Ht & Hk & Hdom & Hm)|[(k & Ht & Hk)|(s & Ht)]].
  - rewrite (keyOf_member _ _ Ht Hk) in *. rewrite Ht. simpl.
    destruct (Ids.DomainFromID u) as [d| | |] eqn:Ed; try done.
    destruct (onMemberEv_step rs ev u d (wf_members _ HW) Hk Ed) as (rs' & E & HM).
    exists rs'. split; [done|]. split; [by rewrite (ms_header _ _ _ _ _ _ HM)|].
    intros [t k]. unfold cell at 1. simpl.
    assert (Hpre : preMembership rs u = "").
    { change (cell rs (MRoomMember, u)) with (memberEvent rs u) in Hempty. unfold memberEvent in Hempty.
      destruct (preMembership_cases rs u) as [[_ [e E1]]|[(_ & E1 & e & E2)|[(_ & E1 & E2 & e & E3)|[? _]]]];
      rewrite ?E1, ?E2, ?E3 in Hempty; done. }
    destruct (String.eqb_spec t MRoomMember) as [->|Nt].
    + destruct (memberStep_lookup _ _ _ _ _ _ k HM) as (A & B & C). unfold memberEvent. rewrite A, B, C.
      destruct (decide (k = u)) as [->|Hne].
      * rewrite decide_True by done. rewrite Hpre.
        members; match goal with E : lenientMembership _ = _ |- _ => rewrite E end; done.
      * rewrite decide_False by congruence. done.
    + rewrite decide_False by congruence. unfold cell. simpl. rewrite (proj2 (String.eqb_neq t MRoomMember)) by done.
      rewrite (ms_slots _ _ _ _ _ _ HM), (ms_third _ _ _ _ _ _ HM). unfold thirdAfter.
      destruct (String.eqb t MRoomThirdPartyInvite); [|done].
      destruct (_ || _); [|done]. rewrite delete_id; [done|]. by apply Hthird.
  - rewrite (keyOf_third _ _ Ht Hk) in *. rewrite Ht, Hk. simpl. eexists. split; [done|]. split; [done|].
    intros [t k']. unfold cell. simpl.
    destruct (String.eqb_spec t MRoomMember) as [->|Nt].
    { by rewrite decide_False by (intros [= E _]; discriminate E). }
    destruct (String.eqb_spec t MRoomThirdPartyInvite) as [->|Nt2].
    + destruct (decide (k = k')) as [->|Hne].
      * by rewrite lookup_insert_eq, decide_True.
      * by rewrite lookup_insert_ne, decide_False by congruence.
    + by rewrite decide_False by congruence.
  - rewrite (keyOf_slot _ _ Ht) in *. rewrite Ht.
    assert (HC : forall rs', joined rs' = joined rs -> left rs' = left rs -> invited rs' = invited rs ->
       thirdInvite rs' = thirdInvite rs -> slots rs' = setSlot (slots rs) s (Some ev) ->
       forall tk, cell rs' tk = if decide (tk = (slotType s, "")) then Some ev else cell rs tk).
    { intros rs' E1 E2 E3 E4 E5 [t k]. destruct (slotType_special s) as (S1 & S2 & _).
      apply String.eqb_neq in S1, S2. unfold cell, memberEvent. simpl. rewrite E1, E2, E3, E4, E5.
      destruct (String.eqb_spec t MRoomMember); [by rewrite decide_False by congruence|].
      destruct (String.eqb_spec t MRoomThirdPartyInvite); [by rewrite decide_False by congruence|].
      destruct (String.eqb_spec k "") as [->|]; [|by rewrite decide_False by congruence].
      destruct (slotOfType t) as [s'|] eqn:Es.
      - apply slotOfType_type in Es as <-. rewrite getSlot_set. case_decide as E; subst.
        + by rewrite decide_True.
        + rewrite decide_False; [done|]. intros [= ?%slotType_inj]. done.
      - rewrite decide_False; [done|]. intros [= ->]. by rewrite slotOfType_slotType in Es. }
    destruct (slotType_special s) as (E1 & E2 & E3). unfold MRoomMember, MRoomThirdPartyInvite in *.
    rewrite E1, E2, E3, slotOfType_slotType.
    destruct (String.eqb_spec (slotType s) "m.room.create") as [Ec|Nc].
    + assert (s = SCreator) as -> by (by apply slotType_inj). eexists. split; [done|].
      unfold onCreateEv. destruct (lenientCreate (Content ev)) as [f d] eqn:El. simpl.
      split; [done|]. by apply HC.
    + eexists. split; [done|]. split.
      { unfold MRoomCreate. by rewrite (proj2 (String.eqb_neq _ _) Nc). }
      by apply HC.
Qed.

Lemma cell_frame rs rs' tk :
  joined rs' = joined rs -> left rs' = left rs -> invited rs' = invited rs ->
  thirdInvite rs' = thirdInvite rs -> slots rs' = slots rs -> cell rs' tk = cell rs tk.
Proof using. intros E1 E2 E3 E4 E5. unfold cell, memberEvent. by rewrite E1, E2, E3, E4, E5. Qed.

Lemma storable_keyed ev : storable ev -> keyed ev.
Proof using.
  intros [_ _ _ Hkind] HT. destruct Hkind as [(u & _ & Hk & _)|[(k & _ & Hk)|(s & Ht)]]; [eauto|eauto|].
  destruct (slotType_special s) as (E1%String.eqb_neq & E2%String.eqb_neq & _). destruct HT; congruence.
Qed.

Lemma replay_step rs ev :
  WF rs -> storable ev -> cell rs (keyOf ev) = None ->
  (forall u, keyOf ev = (MRoomMember, u) -> thirdInvite rs !! u = None) ->
  exists rs', onEvent domainMng rs ev (EventNID ev) true = Ok rs' /\ WF rs' /\
    header rs' = headerAfter rs ev /\
    forall tk, cell rs' tk = if decide (tk = keyOf ev) then Some ev else cell rs tk.
Proof using.
  intros HW Hst Hempty Hthird. pose proof (GetPreEvent_cell rs ev Hst) as Hpre. rewrite Hempty in Hpre.
  pose proof (st_sender _ Hst) as Hs. destruct (Ids.DomainFromID (Sender ev)) as [d| | |] eqn:Ed; try done.
  destruct (onEventCheckUpdate domainMng rs ev None d true true) as [upd e1] eqn:Ec.
  assert (upd = true) as ->.
  { unfold onEventCheckUpdate in Ec. destruct (localDomain _ _); by injection Ec. }
  set (rs1 := set_ext rs (set_HasUpdate e1 true)).
  assert (HW1 : WF rs1) by (by apply (WF_frame rs)).
  destruct (update_cell rs1 ev HW1 Hst Hempty Hthird) as (rs2 & E2 & Hh & Hc).
  destruct (onEventUpdate_WF rs1 ev HW1 (storable_keyed ev Hst)) as (rs2' & E2' & HW2).
  assert (rs2' = rs2) as -> by congruence.
  destruct (onEvent_update domainMng rs ev _ true _ _ _ _ _ Hpre Ed Ec E2 HW2 (st_nid _ Hst))
    as (rs' & E' & Ej & El & Ei & Et & Es & Eh).
  destruct (onEvent_WF domainMng rs ev _ true HW (storable_keyed ev Hst) (st_nid _ Hst)) as (r & Er & HWr).
  assert (r = rs') as -> by congruence.
  exists rs'. split; [done|]. split; [done|]. split; [by rewrite Eh|].
  intros tk. rewrite (cell_frame rs2 rs') by done. apply Hc.
Qed.

(** The flags after a list of events with at most one create event. *)
Definition headerAll (rs : RoomServerState) (l : list Event) :=
  match List.find (fun e => String.eqb (Type_ e) MRoomCreate) l with
  | Some e => (roomId rs, RoomNid rs, SnapId rs, IsEncrypted rs,
        default false (lenientCreate (Content e)).1, default false (lenientCreate (Content e)).2, Version rs)
  | None => header rs
  end.

Lemma replay_all l : forall rs,
  WF rs -> Forall storable l -> NoDup (map keyOf l) ->
  (forall e, e ∈ l -> cell rs (keyOf e) = None) ->
  (forall e u, e ∈ l -> keyOf e = (MRoomMember, u) ->
     thirdInvite rs !! u = None /\ (MRoomThirdPartyInvite, u) ∉ map keyOf l) ->
  exists rs', onEvents domainMng rs (map (fun v => (v, EventNID v)) l) true = Ok rs' /\ WF rs' /\
    header rs' = headerAll rs l /\
    (forall e, e ∈ l -> cell rs' (keyOf e) = Some e) /\
    (forall tk, tk ∉ map keyOf l -> cell rs' tk = cell rs tk).
Proof using.
  induction l as [|ev l IH]; intros rs HW Hst Hnd Hempty Hthird.
  { exists rs. do 2 (split; [done|]). split; [done|]. split; [set_solver|done]. }
  apply Forall_cons in Hst as [Hst0 Hst]. simpl in Hnd. apply NoDup_cons in Hnd as [Hnotin Hnd].
  destruct (replay_step rs ev HW Hst0) as (rs1 & E1 & HW1 & Hh1 & Hc1).
  { apply Hempty. left. }
  { intros u Hu. apply (Hthird ev u); [left|done]. }
  destruct (IH rs1 HW1 Hst Hnd) as (rs' & E' & HW' & Hh' & Hin & Hout).
  { intros e He. rewrite Hc1, decide_False; [apply Hempty; by right|].
    intros E. apply Hnotin. rewrite <- E. by apply list_elem_of_fmap_2. }
  { intros e u He Hu. destruct (Hthird e u) as [T1 T2]; [by right|done|]. simpl in T2.
    split; [|set_solver]. change (cell rs1 (MRoomThirdPartyInvite, u) = None).
    rewrite Hc1, decide_False; [exact T1|]. intros E. apply T2. rewrite E. left. }
  exists rs'. simpl. rewrite E1. cbn [mbind res_bind]. split; [done|]. split; [done|].
  split; [|split].
  - rewrite Hh'. unfold headerAll. simpl. unfold headerAfter in Hh1.
    unfold header in Hh1. destruct (String.eqb (Type_ ev) MRoomCreate) eqn:Ec.
    + assert (List.find (fun e => String.eqb (Type_ e) MRoomCreate) l = None) as ->; [|done].
      destruct (List.find _ l) as [e|] eqn:Ef; [|done]. apply List.find_some in Ef as [He%list_elem_of_In Et].
      exfalso. apply Hnotin. apply String.eqb_eq in Ec, Et.
      assert (keyOf ev = keyOf e) as ->; [|by apply list_elem_of_fmap_2].
      by rewrite (keyOf_slot ev SCreator), (keyOf_slot e SCreator).
    + unfold header. injection Hh1 as -> -> -> -> -> -> ->. done.
  - intros e [->|He]%elem_of_cons; [|by apply Hin].
    rewrite Hout by done. by rewrite Hc1, decide_True.
  - intros tk Htk. rewrite Hout by set_solver. rewrite Hc1, decide_False; [done|]. set_solver.
Qed.

(** ** The round trip *)

Context `{GoRange}.

(** The fields in the order [parseCacheRoomState] collects them. *)
Definition cachedSlots : list slot :=
  [SCreator; SJoinRule; SHistoryVisibility; SVisibility; SName; SPower; STopic;
   SCanonicalAlias; SAlias; SAvatar; SPin; SGuestAccess].

Lemma cachedStates_omap x :
  cachedStates x = (omap (getSlot (xSlots x)) cachedSlots ++
    values (xJoin x) ++ values (xLeave x) ++ values (xInvite x) ++ values (xThirdInvite x))%list.
Proof using.
  assert (Hc : forall k l, omap (getSlot (xSlots x)) (k :: l) =
                           (optList (getSlot (xSlots x) k) ++ omap (getSlot (xSlots x)) l)%list)
    by (intros; simpl; by destruct (getSlot _ _)).
  unfold cachedStates, cachedSlots. rewrite !Hc. simpl. rewrite <- !app_assoc. done.
Qed.

Lemma values_elem (m : gmap string Event) e : e ∈ values m <-> exists u, m !! u = Some e.
Proof using.
  unfold values. rewrite list_elem_of_fmap. split.
  - intros ([u e'] & -> & He). exists u. by apply range_elem.
  - intros [u Hu]. exists (u, e). split; [done|]. by apply range_elem.
Qed.

Lemma values_keys t (m : gmap string Event) :
  (forall u e, m !! u = Some e -> keyOf e = (t, u)) -> NoDup (map keyOf (values m)).
Proof using.
  intros Hk. unfold values. rewrite map_map.
  assert (map (fun x => keyOf x.2) (range m) = map (fun x => (t, x.1)) (range m)) as ->.
  { apply list_fmap_ext. intros i [u e] Hi%list_elem_of_lookup_2. simpl. apply Hk. by apply range_elem. }
  rewrite <- (map_map fst (fun u => (t, u))). apply NoDup_fmap_2; [intros ? ? [=]; done|].
  rewrite (Permutation_map fst (range_perm _ m)). apply NoDup_fst_map_to_list.
Qed.

Lemma slots_keys s ks :
  (forall k e, getSlot s k = Some e -> Type_ e = slotType k) -> NoDup ks ->
  NoDup (map keyOf (omap (getSlot s) ks)) /\
  forall tk, tk ∈ map keyOf (omap (getSlot s) ks) -> exists k, k ∈ ks /\ tk = (slotType k, "").
Proof using.
  intros Ht. induction 1 as [|k ks Hk Hnd [IHn IHt]]; simpl; [split; [constructor|set_solver]|].
  destruct (getSlot s k) as [e|] eqn:Ek; simpl.
  - rewrite (keyOf_slot e k) by auto. split.
    + constructor; [|done]. intros (k' & Hk' & [= E%slotType_inj])%IHt. congruence.
    + intros tk [->|Htk]%elem_of_cons; [exists k; set_solver|]. destruct (IHt tk Htk) as (k' & ? & ?). set_solver.
  - split; [done|]. intros tk Htk. destruct (IHt tk Htk) as (k' & ? & ?). set_solver.
Qed.

(** A room as the room server keeps it. *)
Record Cacheable (rs : RoomServerState) : Prop := {
  cb_wf : WF rs;
  cb_storable : forall tk e, cell rs tk = Some e -> storable e;
  cb_third : forall u, is_Some (memberEvent rs u) -> thirdInvite rs !! u = None;
  cb_create : exists c, sCreator (slots rs) = Some c /\
     IsFed rs = default false (lenientCreate (Content c)).1 /\
     isDirect rs = default false (lenientCreate (Content c)).2;
}.

Lemma memberEvent_key rs u e : WF rs -> memberEvent rs u = Some e -> keyOf e = (MRoomMember, u).
Proof using.
  intros HW E.
  assert (HS : exists ms, storedAs ms u e).
  { unfold memberEvent in E. destruct (joined rs !! u) eqn:Ej.
    { eexists. eapply (wf_joined _ (wf_members _ HW)). congruence. }
    destruct (left rs !! u) eqn:El.
    { eexists. eapply (wf_left _ (wf_members _ HW)). congruence. }
    eexists. by eapply (wf_invited _ (wf_members _ HW)). }
  destruct HS as (ms & Ht & Hk & _). by apply keyOf_member.
Qed.

Lemma cell_key rs tk e : WF rs -> cell rs tk = Some e -> keyOf e = tk.
Proof using.
  intros HW. destruct tk as [t k]. unfold cell. simpl.
  destruct (String.eqb_spec t MRoomMember) as [->|]; [by apply memberEvent_key|].
  destruct (String.eqb_spec t MRoomThirdPartyInvite) as [->|].
  { intros E. destruct (wf_third _ HW _ _ E) as [? ?]. by apply keyOf_third. }
  destruct (String.eqb_spec k "") as [->|]; [|done].
  destruct (slotOfType t) as [s|] eqn:Es; [|done]. apply slotOfType_type in Es as <-.
  intros E. apply keyOf_slot. by apply (wf_slots _ HW).
Qed.

Lemma member_maps rs e : WF rs ->
  (exists u, joined rs !! u = Some e) \/ (exists u, left rs !! u = Some e) \/ (exists u, invited rs !! u = Some e) <->
  exists u, memberEvent rs u = Some e.
Proof using.
  intros HW. pose proof (wf_members _ HW) as HM. split.
  - intros [[u E]|[[u E]|[u E]]]; exists u.
    + by apply joined_cell in E as [? _].
    + by apply left_cell in E as [? _].
    + by apply invited_cell in E as [? _].
  - intros [u E]. unfold memberEvent in E. destruct (joined rs !! u) eqn:Ej; [left; exists u; congruence|].
    destruct (left rs !! u) eqn:El; [right; left; exists u; congruence|]. right. right. eauto.
Qed.

Lemma cachedSlots_all k : k ∈ cachedSlots <-> k <> SDesc.
Proof using.
  split; [intros Hk ->; unfold cachedSlots in Hk; members|].
  destruct k; intros Hne; try done; apply list_elem_of_In; simpl; tauto.
Qed.

Lemma cached_elem rs e : WF rs ->
  e ∈ cachedStates (serialize rs).1 <-> cell rs (keyOf e) = Some e /\ Type_ e <> slotType SDesc.
Proof using.
  intros HW. rewrite cachedStates_omap, !elem_of_app, !values_elem, list_elem_of_omap.
  cbn [serialize fst xSlots xJoin xLeave xInvite xThirdInvite]. split.
  - intros [(k & Hk%cachedSlots_all & E)|HM].
    + pose proof (wf_slots _ HW _ _ E) as Ht. rewrite (keyOf_slot _ _ Ht), cell_slot, Ht.
      split; [done|]. intros ?%slotType_inj. done.
    + assert (HM' : (exists u, memberEvent rs u = Some e) \/ exists u, thirdInvite rs !! u = Some e).
      { rewrite <- member_maps by done. tauto. }
      destruct HM' as [[u E]|[u E]].
      * rewrite (memberEvent_key rs u e HW E). split; [exact E|].
        intros Ht. pose proof (memberEvent_key rs u e HW E) as Hk. by rewrite (keyOf_slot _ _ Ht) in Hk.
      * destruct (wf_third _ HW _ _ E) as [Ht Hk]. rewrite (keyOf_third _ _ Ht Hk), Ht. done.
  - intros [E Hd]. unfold cell in E. destruct (keyOf e) as [t k] eqn:Ek. simpl in E.
    destruct (String.eqb t MRoomMember).
    { right. assert (HM : exists u, memberEvent rs u = Some e) by eauto.
      rewrite <- member_maps in HM by done. tauto. }
    destruct (String.eqb t MRoomThirdPartyInvite); [right; eauto 6|].
    destruct (String.eqb k ""); [|done]. left.
    destruct (slotOfType t) as [s|] eqn:Es; [|done]. exists s. split; [|done].
    apply cachedSlots_all. intros ->. apply Hd. by apply (wf_slots _ HW).
Qed.

Lemma cached_nodup rs : WF rs -> NoDup (map keyOf (cachedStates (serialize rs).1)).
Proof using.
  intros HW. pose proof (wf_members _ HW) as HM. rewrite cachedStates_omap.
  cbn [serialize fst xSlots xJoin xLeave xInvite xThirdInvite]. rewrite !map_app.
  assert (Kj : forall u e, joined rs !! u = Some e -> keyOf e = (MRoomMember, u)).
  { intros u e E. apply (memberEvent_key rs u e HW). by apply joined_cell in E as [? _]. }
  assert (Kl : forall u e, left rs !! u = Some e -> keyOf e = (MRoomMember, u)).
  { intros u e E. apply (memberEvent_key rs u e HW). by apply left_cell in E as [? _]. }
  assert (Ki : forall u e, invited rs !! u = Some e -> keyOf e = (MRoomMember, u)).
  { intros u e E. apply (memberEvent_key rs u e HW). by apply invited_cell in E as [? _]. }
  assert (Kt : forall u e, thirdInvite rs !! u = Some e -> keyOf e = (MRoomThirdPartyInvite, u)).
  { intros u e E. destruct (wf_third _ HW _ _ E). by apply keyOf_third. }
  assert (KV : forall t (m : gmap string Event), (forall u e, m !! u = Some e -> keyOf e = (t, u)) ->
            forall tk, tk ∈ map keyOf (values m) -> exists u, tk = (t, u) /\ is_Some (m !! u)).
  { intros t m Hk tk (e & -> & [u Hu]%values_elem)%list_elem_of_fmap. exists u. rewrite (Hk u e Hu). eauto. }
  destruct (slots_keys (slots rs) cachedSlots (wf_slots _ HW)) as [HN HT].
  { unfold cachedSlots. apply (bool_decide_unpack _). by vm_compute. }
  apply NoDup_app. split; [done|]. split.
  { intros tk (s & _ & ->)%HT. destruct (slotType_special s) as (E1%String.eqb_neq & E2%String.eqb_neq & _).
    rewrite !elem_of_app. intros [HI|[HI|[HI|HI]]]; eapply KV in HI; eauto; destruct HI as (u & [= ? ?] & _); done. }
  apply NoDup_app. split; [by eapply values_keys|]. split.
  { intros tk (u & -> & [e1 E1])%(KV _ _ Kj). rewrite !elem_of_app. intros [HI|[HI|HI]]; eapply KV in HI; eauto;
    destruct HI as (u' & [=] & [e2 E2]); subst.
    - destruct (wf_joined_left _ HM u'); congruence.
    - destruct (wf_joined_invited _ HM u'); congruence. }
  apply NoDup_app. split; [by eapply values_keys|]. split.
  { intros tk (u & -> & [e1 E1])%(KV _ _ Kl). rewrite !elem_of_app. intros [HI|HI]; eapply KV in HI; eauto;
    destruct HI as (u' & [=] & [e2 E2]); subst. destruct (wf_left_invited _ HM u'); congruence. }
  apply NoDup_app. split; [by eapply values_keys|]. split; [|by eapply values_keys].
  intros tk (u & -> & _)%(KV _ _ Ki) HI. eapply KV in HI; eauto. by destruct HI as (u' & [=] & _).
Qed.

(** Every exported event is one of the cells. *)
Lemma exported_cells rs e : WF rs -> e ∈ exportedEvents (serialize rs).1 -> exists tk, cell rs tk = Some e.
Proof using.
  intros HW. unfold exportedEvents. rewrite !elem_of_app, !values_elem. cbn [serialize fst xSlots xJoin xLeave xInvite xThirdInvite].
  assert (HS : forall s, e ∈ optList (getSlot (slots rs) s) -> exists tk, cell rs tk = Some e).
  { intros s Hs. exists (slotType s, ""). rewrite cell_slot. destruct (getSlot (slots rs) s) as [e'|]; simpl in Hs.
    - by apply list_elem_of_singleton in Hs as ->.
    - by apply elem_of_nil in Hs. }
  assert (HM : (exists u, joined rs !! u = Some e) \/ (exists u, left rs !! u = Some e) \/ (exists u, invited rs !! u = Some e) ->
            exists tk, cell rs tk = Some e).
  { intros [u Hu]%member_maps; [|done]. by exists (MRoomMember, u). }
  intros [?|[?|[?|[?|[?|[?|[?|[?|[?|[?|[?|[?|[?|[?|[?|[?|[u Hu]]]]]]]]]]]]]]]]]; [..|by exists (MRoomThirdPartyInvite, u)];
    first [by apply HM; auto|by apply (HS SCreator)|by apply (HS SJoinRule)|by apply (HS SHistoryVisibility)|by apply (HS SVisibility)
      |by apply (HS SName)|by apply (HS STopic)|by apply (HS SDesc)|by apply (HS SCanonicalAlias)|by apply (HS SAlias)
      |by apply (HS SPower)|by apply (HS SGuestAccess)|by apply (HS SAvatar)|by apply (HS SPin)].
Qed.

Lemma checkEvents_ok l : Forall (fun e => CheckFields e = Ok ()) l -> checkEvents l = Ok ().
Proof using. induction 1 as [|e l He _ IH]; [done|]. cbn [checkEvents]. by rewrite He. Qed.

(** What is loaded before the replay. *)
Definition loaded (rs : RoomServerState) : RoomServerState :=
  let x := (serialize rs).1 in
  mkRoomServerState (roomId rs) (xRoomNid x) (xSnapId x) (xIsEncrypted x) (xIsFed x) false (xSlots x)
    ∅ ∅ ∅ ∅ ∅ (xVersion x) emptyExt.

Lemma unmarshal_loaded rs : Cacheable rs -> unmarshalState (roomId rs) (serialize rs).1 = Ok (loaded rs).
Proof using.
  intros [HW Hst _ _]. unfold unmarshalState. rewrite checkEvents_ok; [done|]. apply Forall_forall.
  intros e (tk & He)%exported_cells; [|done]. by apply (Hst tk).
Qed.

Lemma base_cell rs tk :
  cell (set_slots (loaded rs) (onlyDesc (slots rs))) tk =
  if decide (tk = (slotType SDesc, "")) then sDesc (slots rs) else None.
Proof using.
  destruct tk as [t k]. unfold cell, memberEvent. simpl. rewrite !lookup_empty.
  destruct (String.eqb_spec t MRoomMember) as [->|]; [by rewrite decide_False by (intros [= E _]; discriminate E)|].
  destruct (String.eqb_spec t MRoomThirdPartyInvite) as [->|];
    [by rewrite decide_False by (intros [= E _]; discriminate E)|].
  destruct (String.eqb_spec k "") as [->|]; [|by rewrite decide_False by congruence].
  destruct (slotOfType t) as [s|] eqn:Es.
  - apply slotOfType_type in Es as <-. unfold onlyDesc. rewrite getSlot_set. case_decide as E; subst.
    + by rewrite decide_True.
    + rewrite decide_False; [by destruct s|]. intros [= ?%(slotType_inj s SDesc)]. done.
  - rewrite decide_False; [done|]. intros [= ->]. by apply (slotOfType_slotType SDesc) in Es || done.
Qed.

Lemma base_WF rs : WF rs ->
  WF (set_slots (loaded rs) (onlyDesc (slots rs))).
Proof using.
  intros HW. destruct (init_WF (roomId rs)) as [A B C D]. split; [|exact B| |exact D].
  - intros k e. simpl. unfold onlyDesc. rewrite getSlot_set. case_decide as E; [|by destruct k].
    subst. intros E. by apply (wf_slots _ HW SDesc).
  - by apply (WFmembers_same (init (roomId rs))).
Qed.

(** The replay of a cached room. *)
Lemma parse_cells rs : Cacheable rs ->
  exists rs', parseCacheRoomState domainMng (loaded rs) (serialize rs).1 = Ok rs' /\ WF rs' /\
    header rs' = header (serialize rs).2 /\ forall tk, cell rs' tk = cell rs tk.
Proof using.
  intros [HW Hst Hthird (c & Hc & Hfed & Hdir)].
  set (l := gosort nidLeb (cachedStates (serialize rs).1)).
  assert (HP : Permutation l (cachedStates (serialize rs).1)) by (symmetry; apply gosort_perm).
  assert (Hin : forall e, e ∈ l <-> cell rs (keyOf e) = Some e /\ Type_ e <> slotType SDesc).
  { intros e. rewrite HP. by apply cached_elem. }
  assert (Hkeys : forall tk, tk ∈ map keyOf l -> exists e, cell rs tk = Some e /\ e ∈ l /\ keyOf e = tk).
  { intros tk (e & -> & He)%list_elem_of_fmap. exists e. split; [by apply Hin|done]. }
  destruct (replay_all l (set_slots (loaded rs) (onlyDesc (slots rs))))
    as (rs' & E & HW' & Hh & Hi & Ho).
  - by apply base_WF.
  - apply Forall_forall. intros e [He _]%Hin. by eapply Hst.
  - rewrite (Permutation_map keyOf HP). by apply cached_nodup.
  - intros e [He Hd]%Hin. rewrite base_cell. apply decide_False. intros Hk.
    apply Hd. unfold keyOf in Hk. destruct (_ || _) in Hk; by injection Hk.
  - intros e u [He _]%Hin Hu. split; [apply lookup_empty|]. intros (e' & He' & _)%Hkeys.
    rewrite Hu in He. change (cell rs (MRoomMember, u)) with (memberEvent rs u) in He.
    change (cell rs (MRoomThirdPartyInvite, u)) with (thirdInvite rs !! u) in He'.
    rewrite Hthird in He' by eauto. done.
  - exists rs'. split; [exact E|]. split; [done|]. split.
    + rewrite Hh. unfold headerAll.
      assert (Hfind : List.find (fun e => String.eqb (Type_ e) MRoomCreate) l = Some c).
      { assert (Hcell : forall e, e ∈ l -> Type_ e = MRoomCreate -> e = c).
        { intros e [He _]%Hin Ht. rewrite (keyOf_slot e SCreator), cell_slot in He by done.
          simpl in He. congruence. }
        assert (Hcl : c ∈ l).
        { apply Hin. pose proof (wf_slots _ HW SCreator c Hc) as Ht.
          rewrite (keyOf_slot c SCreator), cell_slot, Ht by done. done. }
        destruct (List.find _ l) as [e|] eqn:Ef.
        - apply List.find_some in Ef as [He%list_elem_of_In Et%String.eqb_eq]. f_equal. auto.
        - apply list_elem_of_In, (List.find_none _ _ Ef) in Hcl. simpl in Hcl.
          by rewrite (wf_slots _ HW SCreator c Hc) in Hcl. }
      rewrite Hfind. unfold header. simpl. by rewrite Hfed, Hdir.
    + intros tk. destruct (decide (tk ∈ map keyOf l)) as [Htk|Htk].
      * destruct (Hkeys tk Htk) as (e & He & Hel & <-). by rewrite Hi, He.
      * rewrite (Ho tk Htk), base_cell. case_decide as Ed.
        { subst. by rewrite cell_slot. }
        destruct (cell rs tk) as [e|] eqn:Ec; [|done]. exfalso. apply Htk.
        pose proof (cell_key rs tk e HW Ec) as Hk. rewrite <- Hk. apply list_elem_of_fmap_2, Hin.
        split; [by rewrite Hk|]. intros Ht. apply Ed. rewrite <- Hk. by apply keyOf_slot.
Qed.

(** C24: the cache round trip.  A room whose events pass [CheckFields] (which decoding
    an event runs), have a kind the cache holds and positive numbers, with a create
    event its flags agree with: when the cache answers with what [serialize] gave,
    [getRoomStateFromCache] gives back the same state events, membership maps, flags
    and identifiers, and the same member count for every domain, whatever order the
    exported maps are visited in. *)
Theorem cache_roundtrip {C : Type} `{RoomCache C} (c : C) (rs : RoomServerState) (Hrs : Cacheable rs)
    (Hcache : cacheGetRoomState c (roomId rs) = Ok (Some (serialize rs).1)) :
  exists rs', getRoomStateFromCache domainMng c (roomId rs) = Ok (Some rs') /\
    slots rs' = slots rs /\ joined rs' = joined rs /\ left rs' = left rs /\
    invited rs' = invited rs /\ thirdInvite rs' = thirdInvite rs /\
    header rs' = header (serialize rs).2 /\
    forall d, countOf rs' d = countOf rs d.
Proof using.
  destruct (parse_cells rs Hrs) as (rs' & E & HW' & Hh & Hc). pose proof (cb_wf _ Hrs) as HW.
  destruct (cells_determine rs' rs HW' HW Hc) as (E1 & E2 & E3 & E4 & E5).
  exists rs'. split.
  { unfold getRoomStateFromCache. rewrite Hcache. cbn [mbind res_bind]. rewrite (unmarshal_loaded rs Hrs).
    cbn [mbind res_bind]. by rewrite E. }
  do 6 (split; [done|]). intros d.
  by rewrite (wf_count _ (wf_members _ HW')), (wf_count _ (wf_members _ HW)), E2.
Qed.

End Cells.

(** A room with a joined and a banned user, and two state events. *)
#[local] Instance demoCodec : Codec := toyCodec (fun _ => None).
#[local] Instance demoConfig : AuthConfig := {| domainCfg := ["a"]; skipEv := fun _ => false |}.

Definition smallRoom : RoomServerState :=
  match onEvents None (init "!r:a") publicRoom false with Ok rs => rs | _ => init "!r:a" end.

Lemma smallRoom_WF : WF smallRoom.
Proof.
  assert (HW : WF (init "!r:a")) by apply init_WF.
  assert (HF : Forall (fun eo => keyed eo.1 /\ 0 < eo.2) publicRoom)
    by (repeat constructor; simpl; try lia; intros _; eauto).
  unfold smallRoom. revert HW. generalize (init "!r:a"). induction HF as [|[e o] l [Hk Ho] _ IH]; intros rs HW; [done|].
  destruct (onEvent_WF None rs e o false HW Hk Ho) as (r & E & Hr). cbn [onEvents]. rewrite E.
  cbn [mbind res_bind]. specialize (IH r Hr).
  destruct (onEvents None r l false) eqn:E2; try done.
Qed.

Lemma smallRoom_joined : joined smallRoom = {[ "@alice:a" := mev "@alice:a" "@alice:a" "join" 2 ]}.
Proof. by vm_compute. Qed.
Lemma smallRoom_left : left smallRoom = {[ "@eve:a" := mev "@alice:a" "@eve:a" "ban" 4 ]}.
Proof. by vm_compute. Qed.
Lemma smallRoom_invited : invited smallRoom = ∅ /\ thirdInvite smallRoom = ∅.
Proof. by vm_compute. Qed.

Lemma smallRoom_member u e : memberEvent smallRoom u = Some e ->
  e = mev "@alice:a" "@alice:a" "join" 2 \/ e = mev "@alice:a" "@eve:a" "ban" 4.
Proof.
  unfold memberEvent. rewrite smallRoom_joined, smallRoom_left, (proj1 smallRoom_invited), lookup_empty.
  destruct (decide ("@alice:a" = u)) as [<-|Hne].
  { rewrite lookup_singleton_eq. intros [= <-]. by left. }
  rewrite lookup_singleton_ne by done. destruct (decide ("@eve:a" = u)) as [<-|Hne2].
  { rewrite lookup_singleton_eq. intros [= <-]. by right. }
  by rewrite lookup_singleton_ne.
Qed.

Lemma smallRoom_Cacheable : Cacheable smallRoom.
Proof.
  split; [apply smallRoom_WF| | |].
  - intros [t k] e. unfold cell. simpl. destruct (String.eqb t MRoomMember).
    { intros [-> | ->]%smallRoom_member; (split; [done..|]); left; eexists;
        (split; [done|]); (split; [done|]); (split; [done|]); apply list_elem_of_In; simpl; tauto. }
    destruct (String.eqb t MRoomThirdPartyInvite); [by rewrite (proj2 smallRoom_invited), lookup_empty|].
    destruct (String.eqb k ""); [|done]. destruct (slotOfType t) as [s|]; [|done].
    destruct s; vm_compute; intros [= <-]; (split; [done..|]); right; right; [by exists SCreator|by exists SJoinRule].
  - intros u _. by rewrite (proj2 smallRoom_invited), lookup_empty.
  - eexists. vm_compute. by repeat split.
Qed.

(** A cache with one room in it. *)
#[local] Instance OneRoom : RoomState.RoomCache Exported := {|
  cacheGetRoomState c _ := Ok (Some c);
  cacheSetRoomState c _ x _ := (x, Ok ());
  cacheGetRoomStateExt _ _ := Ok None;
  cacheSetRoomStateExt c _ _ := (c, Ok ());
  cacheUpdateRoomStateExt c _ _ := (c, Ok ());
  cacheMembershipExists _ _ := Ok false;
  cacheSetMembershipMulti c _ _ := (c, Ok ());
  cacheSetMembership c _ _ _ := (c, Ok ());
|}.

Lemma cache_roundtrip_witness :
  exists rs', getRoomStateFromCache None (serialize smallRoom).1 (roomId smallRoom) = Ok (Some rs') /\
    slots rs' = slots smallRoom /\ joined rs' = joined smallRoom /\ left rs' = left smallRoom /\
    invited rs' = invited smallRoom /\ thirdInvite rs' = thirdInvite smallRoom /\
    header rs' = header (serialize smallRoom).2 /\
    forall d, countOf rs' d = countOf smallRoom d.
Proof.
  exact (cache_roundtrip None _ smallRoom smallRoom_Cacheable eq_refl).
Defined.

End RoomCache.
