(* ===== verification/RoomProc.v ===== *)
(** * Processing room events

    [src/roomserver/processors/eventProcessor.go] (with
    [src/model/repos/roomserverUserMembershipRepo.go]): a new or backfilled event
    is authorised against the room state, applied to it, numbered, stored and
    sent on.  The processor is a state and error monad over a [World]: the cache,
    the database it reads, the identifier generator with its clock, and the list
    of the writes made so far.  A write can fail; [Env] holds the answers of the
    services the processor calls. *)

From Stdlib Require Import String Ascii ZArith List.
From stdpp Require Import base tactics list gmap strings.
From S2P Require Import Prelude Snowflake Ids Event EventContent EventAuth RoomState.
Import Event.Event EventContent.EventContent EventAuth.EventAuth RoomState.RoomState.

#[local] Open Scope string_scope.
#[local] Open Scope Z_scope.

Module RoomProc.

Definition KindNew : Z := 2.
Definition KindBackfill : Z := 3.

(** [OutputEvent] with its [OutputNewRoomEvent]. *)
Record OutputEvent := mkOutputEvent {
  oBackfill : bool;
  oEvent : Event;
  oEventOffset : Z;
  oAdds : list string;
  oRemoves : list string;
  oJoined : list string;
  oSendAsServer : string;
  oTxn : option string;
}.

(** The writes of the processor. *)
Inductive Action :=
  | AAssignRoomNID (room : string)
  | AAddState (roomNID : Z) (state : list Z)
  | ASetToInvite (roomNID : Z) (user sender eventID : string) (json : Event) (nid : Z) (pre room : string)
  | ASetToJoin (roomNID : Z) (user sender : string) (nid : Z) (pre room : string)
  | ASetToLeave (roomNID : Z) (user sender : string) (nid : Z) (pre room : string)
  | ASetToForget (roomNID : Z) (user : string) (nid : Z) (pre room : string)
  | ASetLatestEvents (roomNID eventNID snap depth : Z)
  | AStoreEvent (ev : Event) (roomNID snap : Z) (refId : string)
  | AOutput (o : OutputEvent)
  | ASaveRoomDomainsOffset (roomNID : Z) (domain : string) (offset : Z)
  | AFedEvent (room : string) (ev : Event)
  | AFedOnRoomEvent (ev : Event)
  | ASendInvite (domain : string) (ev : Event)
  | ALockState (room : string)
  | AUnlockState (room : string)
  | ALockExt (room : string)
  | AUnlockExt (room : string).

Record World (C D : Type) := mkWorld {
  cache : C;
  db : D;
  idg : Snowflake.UidGenerator;
  clock : list Z;
  acts : list Action;
}.
Arguments mkWorld {C D}.
Arguments cache {C D}.
Arguments db {C D}.
Arguments idg {C D}.
Arguments clock {C D}.
Arguments acts {C D}.

(** The answers of the services. *)
Record Env := mkEnv {
  serverNames : list string;                        (** [Cfg.Matrix.ServerName] *)
  timeNow : Z;                                      (** [AsTimestamp(time.Now())] *)
  fails : Action -> option goerr;                   (** the error of a write *)
  assignRoomNID : string -> Z;
  addState : Z -> list Z -> Z;
  rcsRequest : Event -> res (bool * list Event);    (** the RCS server's reply *)
  contentMembership : Event -> res (option string); (** [content["membership"]] if it is a string *)
  withInviteStates : Event -> list Event -> res Event;  (** [SetUnsigned] *)
  sendInvite : string -> Event -> Z * res Event;    (** code, and event or error *)
}.

Section Proc.
  Context `{GoRange} `{Codec} `{AuthConfig} (domainMng : option (Ids.DomainMng * Ids.DomainSrc)).
  Context {C D : Type} `{RoomCache C} `{RoomDb D} (env : Env).

(** ** The monad *)

#[local] Abbreviation M := (ST (World C D)).

(** A write: recorded when it succeeds. *)
Definition act (a : Action) : M unit := fun w =>
  match fails env a with
  | Some e => (Err e, w)
  | None => (Ok (), mkWorld (cache w) (db w) (idg w) (clock w) (acts w ++ [a])%list)
  end.

(** A call to another server: made whatever it answers. *)
Definition emit (a : Action) : M unit := fun w =>
  (Ok (), mkWorld (cache w) (db w) (idg w) (clock w) (acts w ++ [a])%list).

(** A call whose error is ignored. *)
Definition ignoreErr (m : M unit) : M unit := fun w =>
  match m w with
  | (Err _, w1) => (Ok (), w1)
  | r => r
  end.

Definition withCache {A} (f : C -> D -> res (A * C)) : M A := fun w =>
  match f (cache w) (db w) with
  | Ok (a, c1) => (Ok a, mkWorld c1 (db w) (idg w) (clock w) (acts w))
  | Err e => (Err e, w)
  | Panic => (Panic, w)
  | Diverge => (Diverge, w)
  end.

Definition cacheWrite (f : C -> C * res unit) : M unit := fun w =>
  let '(c1, r) := f (cache w) in (r, mkWorld c1 (db w) (idg w) (clock w) (acts w)).

(** [r.Idg.Next()]. *)
Definition nextId : M Z := fun w =>
  match Snowflake.Next (idg w) (clock w) with
  | Some (id, g, clk) => (Ok id, mkWorld (cache w) (db w) g clk (acts w))
  | None => (Diverge, w)
  end.

Definition localServer (domain : string) : bool := Ids.CheckValidDomain domainMng domain (serverNames env).

(** [Allowed(event, rs)] with a state that may be nil: [Create] accepts a nil
    receiver, the other methods panic on it. *)
#[export] Instance optState_provider : AuthEventProvider (option RoomServerState) := {|
  Create ors := match ors with Some rs => Create rs | None => Ok None end;
  JoinRules ors := match ors with Some rs => JoinRules rs | None => Panic end;
  PowerLevels ors := match ors with Some rs => PowerLevels rs | None => Panic end;
  Member ors k := match ors with Some rs => Member rs k | None => Panic end;
  GetThirdPartyInvite ors k := match ors with Some rs => GetThirdPartyInvite rs k | None => Panic end;
|}.

(** ** Aliasing

    The state keeps a pointer to the event being processed, so later changes of
    the event are changes of the state too, when [onEvent] has stored it. *)
Definition aliasSlots (s : Slots) (old new : Event) : Slots :=
  fold_left (fun acc k => if decide (getSlot acc k = Some old) then setSlot acc k (Some new) else acc) allSlots s.

Definition aliasEvent (rs : RoomServerState) (old new : Event) : RoomServerState :=
  if HasUpdate (ext rs) then
    let f e := if decide (e = old) then new else e in
    set_members (set_slots rs (aliasSlots (slots rs) old new))
      (f <$> joined rs) (f <$> left rs) (f <$> invited rs) (f <$> thirdInvite rs)
  else rs.

(** ** The user-membership repository *)

Definition MembershipStateLeaveOrBan : Z := 1.
Definition MembershipStateInvite : Z := 2.
Definition MembershipStateJoin : Z := 3.

(** [getUserMemberShipFromDB]: the memberships, and the cache filled with
    them. *)
Definition getUserMemberShipFromDB (c : C) (d : D) (userID : string) : res (gmap string Z * C) :=
  '(js, is_, ls) ← dbGetUserRooms d userID;
  let put v m id := <[id := v]> m in
  let ums := fold_left (put MembershipStateLeaveOrBan) ls
               (fold_left (put MembershipStateInvite) is_
                 (fold_left (put MembershipStateJoin) js ∅)) in
  if bool_decide (ums = ∅) then Ok (ums, c)
  else Ok (ums, (cacheSetMembershipMulti c userID ums).1).

Definition membershipCode (m : string) : Z :=
  if String.eqb m "invite" then MembershipStateInvite
  else if String.eqb m "join" then MembershipStateJoin
  else MembershipStateLeaveOrBan.

(** [membership, _ := ev.Membership()]. *)
Definition membershipOf (ev : Event) : string :=
  match membership ev with Ok m => m | _ => "" end.

Definition umsOnEvent (c : C) (d : D) (ev : Event) (pre : option Event) : res C :=
  if negb (String.eqb (Type_ ev) "m.room.member") then Ok c
  else
    let old := match pre with Some p => membershipOf p | None => "" end in
    let new := membershipOf ev in
    if String.eqb old new then Ok c
    else
      user ← deref (StateKey ev);
      let inited :=
        match cacheMembershipExists c user with
        | Ok true => Ok c
        | Ok false => r ← getUserMemberShipFromDB c d user; Ok r.2
        | Err e => Err e
        | Panic => Panic
        | Diverge => Diverge
        end in
      match inited with
      | Ok c1 => Ok (cacheSetMembership c1 (RoomID ev) user (membershipCode new)).1
      | Err _ => Ok c
      | Panic => Panic
      | Diverge => Diverge
      end.

(** ** Numbering the event *)

Fixpoint outOffsetLoop (fuel : nat) (last : Z) : M Z :=
  match fuel with
  | O => liftR Diverge
  | S f => out ← nextId; if last <? out then mret out else outOffsetLoop f last
  end.

(** Every turn of the loop reads the clock, so the readings bound the turns. *)
Definition getOutEventOffset (last : Z) : M Z := fun w => outOffsetLoop (S (length (clock w))) last w.

Definition freshExt : RoomStateExt := emptyExt.

(** The depth part of [updateRoomStateExt]: the event, the new depth, and the
    field that is written. *)
Definition assignDepth (event : Event) (depth : Z) : Event * Z * option Z :=
  if Depth event =? 0 then
    let next := wrap64 (depth + 1) in (SetDepth event next, next, Some next)
  else if depth <? Depth event then (event, Depth event, Some (Depth event))
  else (event, depth, None).

(** The domain-offset part. *)
Definition assignOffset (event : Event) (domain : string) (domains : gmap string Z)
  : Event * gmap string Z * option (string * Z) :=
  let domainOffset := default 0 (domains !! domain) in
  if DomainOffset event =? 0 then
    let next := wrap64 (domainOffset + 1) in
    (SetDomainOffset event next, <[domain := next]> domains, Some (domain, next))
  else if domainOffset <? DomainOffset event then
    (event, <[domain := DomainOffset event]> domains, Some (domain, DomainOffset event))
  else (event, domains, None).

(** The identifier part, when [all] is set. *)
Definition chainIds (e : RoomStateExt) (event : Event) : RoomStateExt :=
  if IsStateEv event
  then mkRoomStateExt (LastStateId e) (EventID event) (PreMsgId e) (EventID event)
         (extDepth e) (HasUpdate e) (OutEventOffset e) (Domains e)
  else mkRoomStateExt (PreStateId e) (LastStateId e) (LastMsgId e) (EventID event)
         (extDepth e) (HasUpdate e) (OutEventOffset e) (Domains e).

(** [GetRoomStateExt] with the fallback for a create event. *)
Definition loadExt (event : Event) : M RoomStateExt := fun w =>
  match withCache (fun c d => GetRoomStateExt c d (RoomID event)) w with
  | (Err ErrNoRows, w1) =>
      if String.eqb (Type_ event) "m.room.create" then (Ok freshExt, w1) else (Err ErrNoRows, w1)
  | r => r
  end.

(** The body of [updateRoomStateExt] between lock and unlock. *)
Definition updateExtLocked (event : Event) (rs : RoomServerState) (all : bool) (domain : string)
  : M (Event * RoomServerState) :=
  roomStateExt ← loadExt event;
  let '(event1, depth1, uD) := assignDepth event (extDepth roomStateExt) in
  let '(event2, domains1, uO) := assignOffset event1 domain (Domains roomStateExt) in
  let e1 := if (all : bool) then chainIds roomStateExt event2 else roomStateExt in
  let rs1 := if (all : bool) then UpdateMsgExt rs (PreStateId e1) (LastStateId e1) (PreMsgId e1) (LastMsgId e1) else rs in
  outEventOffset ← getOutEventOffset (OutEventOffset roomStateExt);
  let rs2 := UpdateDomainExt (UpdateDepth (UpdateOutEventOffset rs1 outEventOffset) depth1) domains1 in
  let isState := IsStateEv event2 in
  let u := mkExtUpdate uD uO
             (if all && isState then Some (PreStateId e1) else None)
             (if all && isState then Some (LastStateId e1) else None)
             (if all && negb isState then Some (PreMsgId e1) else None)
             (if all then Some (LastMsgId e1) else None)
             (HasUpdate (ext rs1)) outEventOffset in
  _ ← cacheWrite (fun c => cacheUpdateRoomStateExt c (RoomID event2) u);
  mret (event2, rs2).

(** [defer UnLock]: run on every path, its error is only logged. *)
Definition deferred {A} (m : M A) (final : M unit) : M A := fun w =>
  let '(r, w1) := m w in
  let '(_, w2) := ignoreErr final w1 in
  (r, w2).

Definition updateRoomStateExt (event : Event) (rs : RoomServerState) (all : bool) : M (Event * RoomServerState) :=
  match Ids.DomainFromID (Sender event) with
  | Ok domain =>
      _ ← act (ALockExt (RoomID event));
      deferred (updateExtLocked event rs all domain) (act (AUnlockExt (RoomID event)))
  | _ => fail (ErrMsg "event send invalid doamin")
  end.

(** ** Memberships in the database *)

Definition updateMemberShip (roomNID eventNID : Z) (event : Event) (pre : option Event) : M unit :=
  if negb (String.eqb (Type_ event) "m.room.member") then mret ()
  else
    let old := match pre with Some p => membershipOf p | None => "" end in
    let new := membershipOf event in
    let room := RoomID event in
    if negb (String.eqb old new) || String.eqb new "join" then
      if String.eqb new "invite" then
        user ← liftR (deref (StateKey event));
        act (ASetToInvite roomNID user (Sender event) (EventID event) event eventNID old room)
      else if String.eqb new "join" then
        user ← liftR (deref (StateKey event));
        act (ASetToJoin roomNID user (Sender event) eventNID old room)
      else if String.eqb new "leave" || String.eqb new "ban" || String.eqb new "kick" then
        user ← liftR (deref (StateKey event));
        act (ASetToLeave roomNID user (Sender event) eventNID old room)
      else if String.eqb new "forget" then
        user ← liftR (deref (StateKey event));
        _ ← act (ASetToLeave roomNID user (Sender event) eventNID old room);
        act (ASetToForget roomNID user eventNID old room)
      else mret ()
    else mret ().

(** ** Output *)

(** The offset the output carries: a fresh identifier when none was assigned. *)
Definition outOffsetOf (rs : RoomServerState) : M Z :=
  if OutEventOffset (ext rs) <=? 0 then nextId else mret (OutEventOffset (ext rs)).

Definition buildOutputRoomEvent (txn : option string) (sendServer : string) (rs : RoomServerState)
    (event : Event) (pre : option Event) : M OutputEvent :=
  off ← outOffsetOf rs;
  mret (mkOutputEvent false event off
          (if IsStateEv event then [EventID event] else [])
          (match pre with Some p => [EventID p] | None => [] end)
          (map fst (range (joined rs))) sendServer txn).

Fixpoint WriteOutputEvents (updates : list OutputEvent) : M unit :=
  match updates with
  | [] => mret ()
  | o :: rest => _ ← act (AOutput o); WriteOutputEvents rest
  end.

(** Some domain of the room's timelines is not the sending server. *)
Definition hasFed (rs : RoomServerState) (sendServer : string) : bool :=
  existsb (fun kv : string * DomainTLItem => negb (String.eqb kv.1 sendServer)) (range (domainTl rs)).

Definition flushState (rs : RoomServerState) : M RoomServerState := fun w =>
  let '(c1, rs1) := FlushRoomState (cache w) rs in
  (Ok rs1, mkWorld c1 (db w) (idg w) (clock w) (acts w)).

Definition postProcessNew (event : Event) (pre : option Event) (eventNID roomNID : Z)
    (rs : RoomServerState) (sendServer : string) (txn : option string) (curSnap : Z) : M RoomServerState :=
  _ ← updateMemberShip roomNID eventNID event pre;
  let sendDomain := Ids.domainOrEmpty (Sender event) in
  rs1 ← (if IsStateEv event then flushState rs else mret rs);
  let stamp := localServer sendDomain && (OriginServerTS event =? 0) in
  let event1 := if stamp then SetOriginServerTS event (timeNow env) else event in
  let rs2 := if stamp then aliasEvent rs1 event event1 else rs1 in
  ore ← buildOutputRoomEvent txn sendServer rs2 event1 pre;
  _ ← act (ASetLatestEvents roomNID eventNID curSnap (extDepth (ext rs2)));
  _ ← act (AStoreEvent event1 roomNID curSnap (GetRefs rs2 event1));
  _ ← WriteOutputEvents [ore];
  _ ← act (ASaveRoomDomainsOffset roomNID sendDomain (GetLastDomainOffset rs2 event1 sendDomain));
  _ ← (if localServer sendDomain then
         if hasFed rs2 sendServer then ignoreErr (act (AFedEvent (RoomID event1) event1)) else mret ()
       else ignoreErr (act (AFedOnRoomEvent event1)));
  mret rs2.

(** ** New events *)

(** The common part of [processNew] after the room was found. *)
Definition applyNew (event : Event) (txn : option string) (svrName : string) (trustedJSON : bool)
    (rs : option RoomServerState) (roomNID : Z) (preEv : option Event) : M RoomServerState :=
  _ ← (if (trustedJSON : bool) then mret () else liftR (Allowed event rs));
  let eventNID := EventNID event in
  rs1 ← withCache (fun c d => OnEvent domainMng c d event eventNID rs);
  _ ← withCache (fun c d => c1 ← umsOnEvent c d event preEv; Ok ((), c1));
  '(event1, rs2) ← updateRoomStateExt event rs1 true;
  let rs3 := SetRoomNID (aliasEvent rs2 event event1) roomNID in
  if IsStateEv event1 then
    let state := GetLastState rs3 in
    _ ← act (AAddState roomNID state);
    let curSnap := addState env roomNID state in
    postProcessNew event1 preEv eventNID roomNID (SetSnapId rs3 curSnap) svrName txn curSnap
  else postProcessNew event1 preEv eventNID roomNID rs3 svrName txn (SnapId rs3).

(** [processNew]; the result is the state the caller's pointer sees. *)
Definition processNew (event : Event) (txn : option string) (svrName : string) (trustedJSON : bool)
    (rs : option RoomServerState) : M (option RoomServerState) :=
  if String.eqb (Type_ event) "m.room.create" then
    match rs with
    | Some _ => mret rs
    | None =>
        _ ← act (AAssignRoomNID (RoomID event));
        _ ← applyNew event txn svrName trustedJSON None (assignRoomNID env (RoomID event)) None;
        mret None
    end
  else
    match rs with
    | None => fail (ErrMsg "can't find room")
    | Some r =>
        '(preEv, _) ← liftR (GetPreEvent r event);
        r1 ← applyNew event txn svrName trustedJSON (Some r) (RoomNid r) preEv;
        mret (Some r1)
    end.

Definition processFedInvite (event : Event) (rs : option RoomServerState) : M Event :=
  if negb (String.eqb (Type_ event) MRoomMember) || bool_decide (StateKey event = None) then mret event
  else if negb (localServer (Ids.domainOrEmpty (Sender event))) then mret event
  else
    m ← liftR (contentMembership env event);
    if negb (bool_decide (m = Some "invite")) then mret event
    else
      match rs with
      | None => fail (ErrMsg "Room not found")
      | Some r =>
          userID ← liftR (deref (StateKey event));
          match Ids.DomainFromID userID with
          | Ok inviteeDomain =>
              if localServer inviteeDomain then mret event
              else
                states ← liftR (GetAllState r);
                inviteEv ← liftR (withInviteStates env event states);
                _ ← emit (ASendInvite inviteeDomain inviteEv);
                let '(code, resp) := sendInvite env inviteeDomain inviteEv in
                if negb (code =? 200) then fail (ErrMsg "SendInvite error")
                else liftR resp
          | _ => fail (ErrMsg "invitee Id must be in the form '@localpart:domain'")
          end
      end.

(** The loop over the events the RCS server returns. *)
Fixpoint processDirect (evs : list Event) (txn : option string) (svrName : string) (trustedJSON : bool)
    (rs : option RoomServerState) : M unit :=
  match evs with
  | [] => mret ()
  | ev :: rest =>
      ev1 ← processFedInvite ev rs;
      rs1 ← processNew ev1 txn svrName trustedJSON rs;
      processDirect rest txn svrName trustedJSON rs1
  end.

Definition processDirectRoomCreateOrMemberEvent (event : Event) : M (list Event) :=
  '(succeed, evs) ← liftR (rcsRequest env event);
  if negb succeed then fail (ErrMsg "RCS Server error") else mret evs.

(** State events of a room are processed under a lock; a lock that cannot be
    taken is only logged. *)
Definition lockProcess {A} (event : Event) (m : M A) : M A :=
  if IsStateEv event then
    _ ← ignoreErr (act (ALockState (RoomID event)));
    deferred m (act (AUnlockState (RoomID event)))
  else m.

Definition processRoomNewEvent (event : Event) (trustedJSON : bool) (txn : option string) (svrName : string) : M unit :=
  lockProcess event (
  '(rs, isDirect_) ←
    (if String.eqb (Type_ event) MRoomCreate then
       d ← liftR (IsCreatingDirectRoomEv event);
       mret (None, d)
     else
       mrs ← withCache (fun c d => GetRoomState domainMng c d (RoomID event));
       match mrs with
       | None => fail (ErrMsg "Room not found")
       | Some r => mret (Some r, isDirect r)
       end);
  if isDirect_ && (String.eqb (Type_ event) MRoomCreate || String.eqb (Type_ event) MRoomMember) then
    evs ← processDirectRoomCreateOrMemberEvent event;
    processDirect evs txn svrName trustedJSON rs
  else
    event1 ← processFedInvite event rs;
    _ ← processNew event1 txn svrName trustedJSON rs;
    mret ()).

(** ** Backfilled events *)

Definition postProcessBackfill (event : Event) (roomNID : Z) (rs : RoomServerState)
    (sendServer : string) (txn : option string) (curSnap : Z) : M unit :=
  let refId := GetRefs rs event in
  '(event1, rs1) ← updateRoomStateExt event rs false;
  off ← outOffsetOf rs1;
  _ ← act (AStoreEvent event1 roomNID curSnap refId);
  _ ← WriteOutputEvents [mkOutputEvent true event1 off [] [] [] sendServer txn];
  let sendDomain := Ids.domainOrEmpty (Sender event1) in
  act (ASaveRoomDomainsOffset roomNID sendDomain (GetLastDomainOffset rs1 event1 sendDomain)).

Definition processBackfill (event : Event) (txn : option string) (svrName : string) : M unit :=
  mrs ← withCache (fun c d => GetRoomState domainMng c d (RoomID event));
  match mrs with
  | None => fail (ErrMsg "can't find room")
  | Some rs =>
      '(preEv, isState) ← liftR (GetPreEvent rs event);
      if match preEv with Some p => isState && String.eqb (EventID p) (EventID event) | None => false end
      then mret ()
      else postProcessBackfill event (RoomNid rs) rs svrName txn (SnapId rs)
  end.

Definition processRoomEvent (event : Event) (kind : Z) (trustedJSON : bool) (txn : option string) (svrName : string) : M unit :=
  if kind =? KindNew then processRoomNewEvent event trustedJSON txn svrName
  else if kind =? KindBackfill then processBackfill event txn svrName
  else mret ().

(** [processInput]: the number of events processed before the first error. *)
Fixpoint processInput (events : list Event) (kind : Z) (trust : bool) (txn : option string) (svrName : string)
    (n : nat) (w : World C D) : (nat * res unit) * World C D :=
  match events with
  | [] => ((n, Ok ()), w)
  | ev :: rest =>
      match processRoomEvent ev kind trust txn svrName w with
      | (Ok _, w1) => processInput rest kind trust txn svrName (S n) w1
      | (r, w1) => ((n, r), w1)
      end
  end.

End Proc.

End RoomProc.
