(* ===== verification/RoomProcFacts.v ===== *)
(** * What event processing guarantees

    Theorems about [RoomProc]: an event that is not authorised is not stored or
    sent; how an event is numbered; what is stored is what is sent; processing
    stops at the first error; and three behaviours of the code that its comments
    do not intend. *)

From Stdlib Require Import String Ascii ZArith List Permutation.
From stdpp Require Import base tactics list gmap strings pretty.
From S2P Require Import Prelude Snowflake Ids Event EventContent EventAuth RoomState RoomProc.
Import Event.Event EventContent.EventContent EventAuth.EventAuth RoomState.RoomState RoomProc.RoomProc.

#[local] Open Scope string_scope.
#[local] Open Scope Z_scope.

Module RoomProcFacts.

Section Facts.
  Context `{GoRange} `{Codec} `{AuthConfig} (domainMng : option (Ids.DomainMng * Ids.DomainSrc)).
  Context {C D : Type} `{RoomCache C} `{RoomDb D} (env : Env).
  Implicit Types w : World C D.

(** ** Authorisation comes before every write *)

Lemma processNew_rejects event txn svr r pre b e w :
  Type_ event <> "m.room.create" -> GetPreEvent r event = Ok (pre, b) ->
  Allowed event (Some r) = Err e ->
  processNew domainMng env event txn svr false (Some r) w = (Err e, w).
Proof using.
  intros Ht Hp HA. unfold processNew. rewrite (proj2 (String.eqb_neq _ _) Ht).
  erewrite ST_bind_Ok by (unfold liftR; by rewrite Hp).
  unfold applyNew. erewrite ST_bind_Err; [done|].
  apply ST_bind_Err. unfold liftR. by rewrite HA.
Qed.

(** Only invites are sent to another server. *)
Lemma processFedInvite_passes event rs w :
  (Type_ event = MRoomMember -> exists m, contentMembership env event = Ok m /\ m <> Some "invite") ->
  processFedInvite domainMng env event rs w = (Ok event, w).
Proof using.
  intros Hm. unfold processFedInvite.
  destruct (String.eqb_spec (Type_ event) MRoomMember) as [Et|]; [|done].
  destruct (bool_decide (StateKey event = None)); [done|]. simpl.
  destruct (localServer _ _ _); [|done]. simpl. destruct (Hm Et) as (m & E & Hne).
  erewrite ST_bind_Ok by (unfold liftR; by rewrite E). by rewrite (bool_decide_eq_false_2 _ Hne).
Qed.

Definition isLock (a : Action) : Prop :=
  match a with ALockState _ | AUnlockState _ => True | _ => False end.

(** Taking or releasing a lock: at most one action. *)
Lemma ignoreErr_act a w :
  exists l, ignoreErr (act env a) w = (Ok (), mkWorld (cache w) (db w) (idg w) (clock w) (acts w ++ l)%list) /\
    (l = [] \/ l = [a]).
Proof using.
  unfold ignoreErr, act. destruct (fails env a); [exists []|exists [a]; auto].
  rewrite app_nil_r. destruct w. auto.
Qed.

Lemma lockProcess_err {A} event (m : ST (World C D) A) w c1 e :
  (forall w', cache w' = cache w -> db w' = db w ->
     m w' = (Err e, mkWorld c1 (db w') (idg w') (clock w') (acts w'))) ->
  exists locks, Forall isLock locks /\
    lockProcess env event m w = (Err e, mkWorld c1 (db w) (idg w) (clock w) (acts w ++ locks)%list).
Proof using.
  intros Hm. unfold lockProcess. destruct (IsStateEv event).
  - destruct (ignoreErr_act (ALockState (RoomID event)) w) as (l1 & E1 & HL1).
    erewrite ST_bind_Ok by exact E1. unfold deferred. rewrite Hm by done. simpl.
    match goal with |- context [ignoreErr (act env ?a) ?w2] => destruct (ignoreErr_act a w2) as (l2 & E2 & HL2) end.
    rewrite E2. simpl. exists (l1 ++ l2)%list. rewrite <- app_assoc. split; [|done].
    apply Forall_app. split; [destruct HL1 as [->| ->]|destruct HL2 as [->| ->]]; repeat constructor.
  - exists []. rewrite app_nil_r. split; [constructor|]. by apply Hm.
Qed.

(** C28: An event that the room does not authorise is not processed: a new, untrusted
    event for an existing room, which is no create event, no invite and no member
    event of a direct room, whose authorisation fails is refused with that error, and
    nothing was written: no database write, no output event, no identifier drawn; the
    room's lock was taken and released, and the cache may have been filled by loading
    the room. *)
Theorem unauthorised_writes_nothing (event : Event) (txn : option string) (svr : string)
  (r : RoomServerState) (pre : option Event) (b : bool) (e : goerr) (c1 : C) (w : World C D)
  (Htype : Type_ event <> MRoomCreate)
  (Hroom : GetRoomState domainMng (cache w) (db w) (RoomID event) = Ok (Some r, c1))
  (Hdirect : isDirect r && String.eqb (Type_ event) MRoomMember = false)
  (Hlocal : Type_ event = MRoomMember -> exists m, contentMembership env event = Ok m /\ m <> Some "invite")
  (Hpre : GetPreEvent r event = Ok (pre, b))
  (Hauth : Allowed event (Some r) = Err e) :
  exists locks, Forall isLock locks /\
    processRoomNewEvent domainMng env event false txn svr w =
    (Err e, mkWorld c1 (db w) (idg w) (clock w) (acts w ++ locks)%list).
Proof using.
  unfold processRoomNewEvent.
  apply lockProcess_err.
  intros w' Hc Hd. rewrite <- Hc, <- Hd in Hroom. rewrite (proj2 (String.eqb_neq _ _) Htype).
  erewrite ST_bind_Ok.
  2:{ erewrite ST_bind_Ok by (unfold withCache; by rewrite Hroom). done. }
  simpl. rewrite Hdirect. erewrite ST_bind_Ok by (by apply processFedInvite_passes).
  apply ST_bind_Err. by eapply processNew_rejects.
Qed.

(** ** Numbering *)

Lemma outOffsetLoop_gt fuel last w out w1 :
  outOffsetLoop fuel last w = (Ok out, w1) -> last < out.
Proof using.
  revert w. induction fuel as [|f IH]; intros w; [done|]. cbn [outOffsetLoop].
  intros (o & w2 & _ & E)%ST_bind_inv. destruct (Z.ltb_spec last o); [|by apply IH in E].
  by injection E as -> _.
Qed.

(** What numbering does to the event. *)
Definition numbered (event event' : Event) (domain : string) (e : RoomStateExt) : Prop :=
  Depth event' = (if Depth event =? 0 then wrap64 (extDepth e + 1) else Depth event) /\
  DomainOffset event' = (if DomainOffset event =? 0 then wrap64 (default 0 (Domains e !! domain) + 1)
                         else DomainOffset event) /\
  EventID event' = EventID event /\ Type_ event' = Type_ event /\ StateKey event' = StateKey event /\
  Sender event' = Sender event /\ Content event' = Content event /\
  OriginServerTS event' = OriginServerTS event.

Lemma assignDepth_spec event depth ev1 d1 u :
  in64 (depth + 1) -> assignDepth event depth = (ev1, d1, u) ->
  d1 = Z.max depth (Depth ev1) \/ (Depth ev1 = depth + 1 /\ d1 = depth + 1).
Proof using.
  intros Hw. unfold assignDepth. rewrite (wrap64_id _ Hw). destruct (Z.eqb_spec (Depth event) 0); [intros [= <- <- <-]; by right|].
  destruct (Z.ltb_spec depth (Depth event)); intros [= <- <- <-]; left; lia.
Qed.

Lemma assignDepth_ge event depth ev1 d1 u :
  in64 (depth + 1) -> assignDepth event depth = (ev1, d1, u) -> depth <= d1 /\ Depth ev1 <= d1.
Proof using. intros Hw [?|[? ?]]%assignDepth_spec; [lia..|done]. Qed.

Lemma assignOffset_ge event domain ds ev1 ds1 u :
  in64 (default 0 (ds !! domain) + 1) -> assignOffset event domain ds = (ev1, ds1, u) ->
  DomainOffset ev1 <= default 0 (ds1 !! domain) /\
  (forall d, default 0 (ds !! d) <= default 0 (ds1 !! d)).
Proof using.
  intros Hw. unfold assignOffset. rewrite (wrap64_id _ Hw). destruct (Z.eqb_spec (DomainOffset event) 0).
  - intros [= <- <- <-]. rewrite lookup_insert_eq. simpl. split; [lia|]. intros d.
    destruct (decide (domain = d)) as [->|]; [rewrite lookup_insert_eq; simpl; lia|].
    rewrite lookup_insert_ne by done. lia.
  - destruct (Z.ltb_spec (default 0 (ds !! domain)) (DomainOffset event)); intros [= <- <- <-]; [|split; [lia|lia]].
    rewrite lookup_insert_eq. simpl. split; [lia|]. intros d.
    destruct (decide (domain = d)) as [->|]; [rewrite lookup_insert_eq; simpl; lia|].
    rewrite lookup_insert_ne by done. lia.
Qed.

Lemma assign_numbered event domain e ev1 d1 u1 ev2 ds u2 :
  assignDepth event (extDepth e) = (ev1, d1, u1) ->
  assignOffset ev1 domain (Domains e) = (ev2, ds, u2) -> numbered event ev2 domain e /\ Depth ev2 = Depth ev1.
Proof using.
  unfold assignDepth, assignOffset, numbered.
  destruct (Depth event =? 0) eqn:E1; intros [= <- <- <-] || (destruct (_ <? _); intros [= <- <- <-]);
  simpl; destruct (DomainOffset event =? 0) eqn:E2;
  (intros [= <- <- <-] || (destruct (_ <? _); intros [= <- <- <-])); simpl; rewrite ?E1; repeat split; done.
Qed.

Lemma IsStateEv_type e1 e2 : Type_ e1 = Type_ e2 -> IsStateEv e1 = IsStateEv e2.
Proof using. intros E. unfold IsStateEv. by rewrite E. Qed.

(** numbering an event.  When the room's extension loads, the lock and the
    cache answer, the next identifier exceeds the last output offset and the
    counters are not at the largest integer,
    [updateRoomStateExt] succeeds: an event without depth gets the next depth
    and one without domain offset the next offset of its domain, others keep
    theirs; nothing else of the event changes; the room's depth and all domain
    offsets never go down and cover the event's; the output offset is above the
    previous one; and a state event is chained to the last state event, any other
    event to the last message. *)
Theorem event_numbering (event : Event) (rs : RoomServerState) (all : bool) (w : World C D)
  (domain : string) (e : RoomStateExt) (c1 : C) (off : Z) (g : Snowflake.UidGenerator) (clk : list Z)
  (Hdomain : Ids.DomainFromID (Sender event) = Ok domain)
  (Hlock : fails env (ALockExt (RoomID event)) = None)
  (Hext : GetRoomStateExt (cache w) (db w) (RoomID event) = Ok (e, c1))
  (Hid : Snowflake.Next (idg w) (clock w) = Some (off, g, clk)) (Hoff : OutEventOffset e < off)
  (Hdepth : in64 (extDepth e + 1)) (Hcount : in64 (default 0 (Domains e !! domain) + 1))
  (Hcache : forall u, exists c2, cacheUpdateRoomStateExt c1 (RoomID event) u = (c2, Ok ())) :
  exists event' rs' w',
    updateRoomStateExt env event rs all w = (Ok (event', rs'), w') /\
    numbered event event' domain e /\
    extDepth e <= extDepth (ext rs') /\ Depth event' <= extDepth (ext rs') /\
    (forall d, default 0 (Domains e !! d) <= default 0 (Domains (ext rs') !! d)) /\
    DomainOffset event' <= default 0 (Domains (ext rs') !! domain) /\
    OutEventOffset e < OutEventOffset (ext rs') /\
    (all = true -> if IsStateEv event
       then PreStateId (ext rs') = LastStateId e /\ LastStateId (ext rs') = EventID event
       else PreMsgId (ext rs') = LastMsgId e /\ LastMsgId (ext rs') = EventID event).
Proof using.
  unfold updateRoomStateExt. rewrite Hdomain.
  erewrite ST_bind_Ok by (unfold act; by rewrite Hlock). unfold deferred.
  set (w1 := mkWorld _ _ _ _ _).
  destruct (assignDepth event (extDepth e)) as [[ev1 d1] u1] eqn:E1.
  destruct (assignOffset ev1 domain (Domains e)) as [[ev2 ds] u2] eqn:E2.
  destruct (assign_numbered _ _ _ _ _ _ _ _ _ E1 E2) as [HN HD].
  apply assignDepth_ge in E1 as HD1; [|done]. apply assignOffset_ge in E2 as HO1; [|done].
  assert (HI : IsStateEv ev2 = IsStateEv event) by (apply IsStateEv_type; apply HN).
  assert (HE : EventID ev2 = EventID event) by apply HN.
  assert (HR : RoomID ev2 = RoomID event).
  { unfold assignDepth, assignOffset in *. clear -E1 E2.
    repeat (case_match; simplify_eq/=); done. }
  assert (Hbody : exists rs' w2, updateExtLocked event rs all domain w1 = (Ok (ev2, rs'), w2) /\
    extDepth (ext rs') = d1 /\ Domains (ext rs') = ds /\ OutEventOffset (ext rs') = off /\
    (all = true -> if IsStateEv event
       then PreStateId (ext rs') = LastStateId e /\ LastStateId (ext rs') = EventID event
       else PreMsgId (ext rs') = LastMsgId e /\ LastMsgId (ext rs') = EventID event)).
  { unfold updateExtLocked.
    erewrite ST_bind_Ok by (unfold loadExt, withCache; simpl; by rewrite Hext).
    rewrite E1, E2. erewrite ST_bind_Ok.
    2:{ unfold getOutEventOffset. cbn [outOffsetLoop]. erewrite ST_bind_Ok by (unfold nextId; simpl; by rewrite Hid).
        rewrite (proj2 (Z.ltb_lt _ _) Hoff). done. }
    rewrite HR. match goal with |- context [mkExtUpdate ?a ?b ?c ?d ?x ?y ?z ?t] =>
      destruct (Hcache (mkExtUpdate a b c d x y z t)) as [c2 Hc2] end.
    erewrite ST_bind_Ok by (unfold cacheWrite; simpl; by rewrite Hc2).
    eexists _, _. split; [done|]. simpl. split; [done|]. split; [done|]. split; [done|].
    intros ->. unfold chainIds. rewrite HI, HE. by destruct (IsStateEv event). }
  destruct Hbody as (rs' & w2 & -> & R1 & R2 & R3 & R4).
  destruct (ignoreErr _ w2) as [? w3]. exists ev2, rs', w3. rewrite R1, R2, R3, HD.
  split; [done|]. split; [done|]. split; [lia|]. split; [lia|]. split; [apply HO1|]. split; [apply HO1|].
  split; [lia|done].
Qed.

(** ** What is stored is what is sent *)

Lemma act_ok a w : fails env a = None ->
  act env a w = (Ok (), mkWorld (cache w) (db w) (idg w) (clock w) (acts w ++ [a])%list).
Proof using. intros E. unfold act. by rewrite E. Qed.

(** The event that leaves [postProcessNew]: stamped when it is local and has no
    timestamp yet. *)
Definition stamped (event : Event) : Event :=
  if localServer domainMng env (Ids.domainOrEmpty (Sender event)) && (OriginServerTS event =? 0)
  then SetOriginServerTS event (timeNow env) else event.

Definition membershipWrites (roomNID eventNID : Z) (event : Event) (pre : option Event) (user : string) : list Action :=
  let old := match pre with Some p => membershipOf p | None => "" end in
  let new := membershipOf event in
  if String.eqb (Type_ event) "m.room.member" && (negb (String.eqb old new) || String.eqb new "join") then
    if String.eqb new "invite" then [ASetToInvite roomNID user (Sender event) (EventID event) event eventNID old (RoomID event)]
    else if String.eqb new "join" then [ASetToJoin roomNID user (Sender event) eventNID old (RoomID event)]
    else if String.eqb new "leave" || String.eqb new "ban" || String.eqb new "kick"
    then [ASetToLeave roomNID user (Sender event) eventNID old (RoomID event)]
    else if String.eqb new "forget"
    then [ASetToLeave roomNID user (Sender event) eventNID old (RoomID event);
          ASetToForget roomNID user eventNID old (RoomID event)]
    else []
  else [].

Definition addActs (w : World C D) (l : list Action) : World C D :=
  mkWorld (cache w) (db w) (idg w) (clock w) (acts w ++ l)%list.

Lemma updateMemberShip_writes roomNID eventNID event pre user w :
  (forall a, fails env a = None) -> (Type_ event = MRoomMember -> StateKey event = Some user) ->
  updateMemberShip env roomNID eventNID event pre w =
  (Ok (), addActs w (membershipWrites roomNID eventNID event pre user)).
Proof using.
  intros Hf Hk. unfold updateMemberShip, membershipWrites, addActs.
  assert (Hnil : mkWorld (cache w) (db w) (idg w) (clock w) (acts w ++ [])%list = w)
    by (rewrite app_nil_r; by destruct w).
  destruct (String.eqb_spec (Type_ event) "m.room.member") as [Et|Ne]; simpl; [|by rewrite Hnil].
  rewrite (Hk Et). cbn [deref].
  destruct (_ || _); [|by rewrite Hnil].
  repeat (match goal with |- context [if ?b then _ else _] => destruct b end;
    [try (erewrite ST_bind_Ok by reflexivity; rewrite act_ok by auto; done)|]).
  - erewrite ST_bind_Ok by reflexivity. erewrite ST_bind_Ok by (by apply act_ok).
    rewrite act_ok by auto. simpl. by rewrite <- app_assoc.
  - by rewrite Hnil.
Qed.

(** what is stored is what is sent: when no write fails and the event has its
    output offset, [postProcessNew] succeeds and its writes are, in this order,
    the membership, the latest event, the event itself, the output event, the
    domain offset, and at most one hand-over to federation, all carrying the same
    (stamped) event. *)
Theorem stored_is_sent (event : Event) (pre : option Event) (eventNID roomNID : Z) (rs : RoomServerState)
  (sendServer : string) (txn : option string) (curSnap : Z) (w : World C D) (user : string)
  (Hok : forall a, fails env a = None)
  (Hkey : Type_ event = MRoomMember -> StateKey event = Some user)
  (Hoff : 0 < OutEventOffset (ext rs)) :
  exists rs' w' o fed,
    postProcessNew domainMng env event pre eventNID roomNID rs sendServer txn curSnap w = (Ok rs', w') /\
    acts w' = (acts w ++ membershipWrites roomNID eventNID event pre user ++
      [ASetLatestEvents roomNID eventNID curSnap (extDepth (ext rs));
       AStoreEvent (stamped event) roomNID curSnap (GetRefs rs event);
       AOutput o;
       ASaveRoomDomainsOffset roomNID (Ids.domainOrEmpty (Sender event))
         (GetLastDomainOffset rs event (Ids.domainOrEmpty (Sender event)))] ++ fed)%list /\
    oEvent o = stamped event /\ oEventOffset o = OutEventOffset (ext rs) /\
    (fed = [] \/ fed = [AFedEvent (RoomID event) (stamped event)] \/ fed = [AFedOnRoomEvent (stamped event)]).
Proof using.
  unfold postProcessNew.
  erewrite ST_bind_Ok by (by apply updateMemberShip_writes).
  set (w1 := addActs w _).
  assert (Hflush : exists rs1 w2, (if IsStateEv event then flushState rs else mret rs) w1 = (Ok rs1, w2) /\
    ext rs1 = ext rs /\ acts w2 = acts w1).
  { destruct (IsStateEv event); [|by eexists _, _].
    unfold flushState, FlushRoomState. simpl. by eexists _, _. }
  destruct Hflush as (rs1 & w2 & Hfl & Hext1 & Hacts2). erewrite ST_bind_Ok by exact Hfl. clear Hfl.
  fold (stamped event).
  assert (Hst : Type_ (stamped event) = Type_ event /\ RoomID (stamped event) = RoomID event /\
                DomainOffset (stamped event) = DomainOffset event).
  { unfold stamped. by destruct (_ && _). }
  destruct Hst as (Ht & Hr & Ho).
  match goal with |- context [if ?b then aliasEvent rs1 event ?e else rs1] =>
    set (rs2 := if b then aliasEvent rs1 event e else rs1) end.
  assert (Hext2 : ext rs2 = ext rs).
  { subst rs2. destruct (_ && _); [|done]. rewrite <- Hext1. unfold aliasEvent. by destruct (HasUpdate _). }
  assert (Hout : exists o, buildOutputRoomEvent txn sendServer rs2 (stamped event) pre w2 = (Ok o, w2) /\
            oEvent o = stamped event /\ oEventOffset o = OutEventOffset (ext rs)).
  { unfold buildOutputRoomEvent, outOffsetOf. rewrite Hext2, (proj2 (Z.leb_gt _ _)) by lia.
    by eexists. }
  destruct Hout as (o & Hbo & Ho1 & Ho2). erewrite ST_bind_Ok by exact Hbo. clear Hbo.
  erewrite ST_bind_Ok by (by apply act_ok). erewrite ST_bind_Ok by (by apply act_ok).
  erewrite ST_bind_Ok.
  2:{ cbn [WriteOutputEvents]. erewrite ST_bind_Ok by (by apply act_ok). done. }
  erewrite ST_bind_Ok by (by apply act_ok). cbn [cache db idg clock acts].
  assert (Href : GetRefs rs2 (stamped event) = GetRefs rs event).
  { unfold GetRefs. by rewrite Hext2, Ht. }
  assert (Hlast : GetLastDomainOffset rs2 (stamped event) (Ids.domainOrEmpty (Sender event)) =
                  GetLastDomainOffset rs event (Ids.domainOrEmpty (Sender event))).
  { unfold GetLastDomainOffset. by rewrite Hext2, Ho. }
  rewrite Href, Hlast, Hext2, Hacts2, Hr. clear Href Hlast Hacts2.
  destruct (localServer domainMng env _).
  - destruct (hasFed rs2 sendServer).
    + erewrite ST_bind_Ok by (unfold ignoreErr; rewrite act_ok by auto; done).
      eexists _, _, o, [_]. split; [done|]. simpl. rewrite <- !app_assoc. simpl. auto 10.
    + erewrite ST_bind_Ok by done. eexists _, _, o, []. split; [done|]. simpl. rewrite <- !app_assoc. simpl. auto.
  - erewrite ST_bind_Ok by (unfold ignoreErr; rewrite act_ok by auto; done).
    eexists _, _, o, [_]. split; [done|]. simpl. rewrite <- !app_assoc. simpl. auto 10.
Qed.

(** ** A batch of events *)

(** The events are processed one after the other, from the world the previous
    one left. *)
Inductive processed (kind : Z) (trust : bool) (txn : option string) (svr : string) :
    list Event -> World C D -> World C D -> Prop :=
  | processed_nil w : processed kind trust txn svr [] w w
  | processed_cons ev evs w w1 w2 :
      processRoomEvent domainMng env ev kind trust txn svr w = (Ok (), w1) ->
      processed kind trust txn svr evs w1 w2 -> processed kind trust txn svr (ev :: evs) w w2.

Lemma processInput_from kind trust txn svr evs : forall n w m r w',
  processInput domainMng env evs kind trust txn svr n w = ((m, r), w') ->
  (r = Ok () /\ m = (n + length evs)%nat /\ processed kind trust txn svr evs w w') \/
  (exists k ev w1, m = (n + k)%nat /\ evs !! k = Some ev /\
     processed kind trust txn svr (take k evs) w w1 /\
     processRoomEvent domainMng env ev kind trust txn svr w1 = (r, w') /\ isOk r = false).
Proof using.
  induction evs as [|ev evs IH]; intros n w m r w'; simpl.
  { intros [= <- <- <-]. left. split; [done|]. split; [lia|constructor]. }
  destruct (processRoomEvent domainMng env ev kind trust txn svr w) as [[[]|e| |] w1] eqn:E.
  - intros [(-> & -> & HP)|(k & ev' & w2 & -> & Hk & HP & Hr)]%IH.
    + left. split; [done|]. split; [lia|]. by econstructor.
    + right. exists (S k), ev', w2. split; [lia|]. split; [done|]. split; [by econstructor|done].
  - intros [= <- <- <-]. right. exists 0%nat, ev, w. split; [lia|]. repeat split; [constructor|done].
  - intros [= <- <- <-]. right. exists 0%nat, ev, w. split; [lia|]. repeat split; [constructor|done].
  - intros [= <- <- <-]. right. exists 0%nat, ev, w. split; [lia|]. repeat split; [constructor|done].
Qed.

(** a batch stops at the first failure: [processInput] either processes every
    event, in order, and reports their number without an error, or reports the
    number of events before the first one that failed, with its error, and the
    events after it are not looked at. *)
Theorem batch_stops_at_error (evs : list Event) (kind : Z) (trust : bool) (txn : option string) (svr : string)
  (w : World C D) :
  let '((n, r), w') := processInput domainMng env evs kind trust txn svr 0 w in
  (r = Ok () /\ n = length evs /\ processed kind trust txn svr evs w w') \/
  (exists ev w1, evs !! n = Some ev /\ processed kind trust txn svr (take n evs) w w1 /\
     processRoomEvent domainMng env ev kind trust txn svr w1 = (r, w') /\ isOk r = false).
Proof using.
  destruct (processInput domainMng env evs kind trust txn svr 0 w) as [[n r] w'] eqn:E.
  apply processInput_from in E as [(-> & -> & HP)|(k & ev & w1 & -> & Hk & HP & Hr)].
  - by left.
  - right. by exists ev, w1.
Qed.

End Facts.

(** ** A cache in memory *)

Record MemCache := mkMemCache {
  mState : gmap string Exported;
  mExt : gmap string RoomStateExt;
  mMembership : gmap string (gmap string Z);
}.

Definition mergeExt (e : RoomStateExt) (u : ExtUpdate) : RoomStateExt :=
  mkRoomStateExt (default (PreStateId e) (uPreStateId u)) (default (LastStateId e) (uLastStateId u))
    (default (PreMsgId e) (uPreMsgId u)) (default (LastMsgId e) (uLastMsgId u))
    (default (extDepth e) (uDepth u)) (uHasUpdate u) (uOutEventOffset u)
    (match uDomain u with Some (d, o) => <[d := o]> (Domains e) | None => Domains e end).

#[export] Instance MemCache_cache : RoomCache MemCache := {|
  cacheGetRoomState c room := Ok (mState c !! room);
  cacheSetRoomState c room x token := (mkMemCache (<[room := x]> (mState c)) (mExt c) (mMembership c), Ok ());
  cacheGetRoomStateExt c room := Ok (mExt c !! room);
  cacheSetRoomStateExt c room e := (mkMemCache (mState c) (<[room := e]> (mExt c)) (mMembership c), Ok ());
  cacheUpdateRoomStateExt c room u :=
    (mkMemCache (mState c) (<[room := mergeExt (default emptyExt (mExt c !! room)) u]> (mExt c)) (mMembership c), Ok ());
  cacheMembershipExists c user := Ok (bool_decide (is_Some (mMembership c !! user)));
  cacheSetMembershipMulti c user ums := (mkMemCache (mState c) (mExt c) (<[user := ums]> (mMembership c)), Ok ());
  cacheSetMembership c room user v :=
    (mkMemCache (mState c) (mExt c)
       (<[user := <[room := v]> (default ∅ (mMembership c !! user))]> (mMembership c)), Ok ());
|}.

(** An empty database. *)
#[export] Instance unit_db : RoomDb unit := {|
  dbGetRoomStates _ _ := Ok [];
  dbRoomInfo _ _ := ((0, 0, 0), Some ErrNoRows);
  dbGetRoomDomainsOffset _ _ := Err ErrNoRows;
  dbGetUserRooms _ _ := Ok ([], [], []);
|}.

(** ** Runs *)

#[local] Instance demoCodec : Codec := toyCodec (fun _ => None).
#[local] Instance demoConfig : AuthConfig := {| domainCfg := ["a"]; skipEv := fun _ => false |}.

Definition demoEnv : Env :=
  mkEnv ["a"] 1000 (fun _ => None) (fun _ => 7) (fun _ l => Z.of_nat (length l))
    (fun ev => Ok (true, [ev])) (fun ev => Ok (Some (Content ev))) (fun ev _ => Ok ev) (fun _ ev => (200, Ok ev)).

Definition sev (type sender content : string) (key : option string) (n ts : Z) : Event :=
  mkEvent "!r:a" ("$" ++ pretty n ++ ":a") n 0 sender type key content "" 0 "" ts "a" "".

Definition createEv : Event := sev "m.room.create" "@alice:a" "@alice:a" (Some "") 1 0.
Definition joinEv : Event := sev "m.room.member" "@alice:a" "join" (Some "@alice:a") 2 0.

Definition demoGen : Snowflake.UidGenerator := Snowflake.mkGen 0 1023 0 0 0.
Definition clockOf (n : nat) : list Z := map (fun k => (1600000000000 + Z.of_nat k) * 1000000) (seq 0 n).
Definition w0 : World MemCache unit := mkWorld (mkMemCache ∅ ∅ ∅) () demoGen (clockOf 40) [].

Definition run (evs : list Event) (w : World MemCache unit) : World MemCache unit :=
  (processInput None demoEnv evs KindNew false None "a" 0 w).2.

Definition created : World MemCache unit := run [createEv; joinEv] w0.

(** The members of the cached room. *)
Definition cachedMembers (w : World MemCache unit) : list string :=
  match mState (cache w) !! "!r:a" with
  | Some x => map fst (map_to_list (xJoin x))
  | None => []
  end.

(** a repeated create event resets the room.  The guard against it tests the
    room state, which is never loaded for a create event: after alice created and
    joined a room, processing the same create event again succeeds and leaves a
    cached room without members. *)
Theorem second_create_resets_room :
  cachedMembers created = ["@alice:a"] /\
  (processInput None demoEnv [createEv] KindNew false None "a" 0 created).1 = (1%nat, Ok ()) /\
  cachedMembers (run [createEv] created) = [].
Proof. by vm_compute. Qed.

Definition nameEv : Event := sev "m.room.name" "@alice:a" "new" (Some "") 3 0.
Definition oldRemoteName : Event :=
  mkEvent "!r:a" "$n:b" 4 0 "@bob:b" "m.room.name" (Some "") "old" "" 0 "" 5 "b" "".

Definition cachedName (w : World MemCache unit) : option (string * Z) :=
  match mState (cache w) !! "!r:a" with
  | Some x => (fun e => (Content e, OriginServerTS e)) <$> sName (xSlots x)
  | None => None
  end.

Definition storedNames (w : World MemCache unit) : list (string * Z) :=
  omap (fun a => match a with
                 | AStoreEvent e _ _ _ => if String.eqb (Type_ e) "m.room.name" then Some (Content e, OriginServerTS e) else None
                 | _ => None end) (acts w).

(** the room is written to the cache before the event gets its timestamp.  A
    room name set locally at time 1000 is stored in the database with that time
    but cached with time 0; so a remote name of time 5, older than the local one,
    replaces it. *)
Theorem cached_state_has_no_timestamp :
  let w1 := run [nameEv] created in
  let w2 := (processInput None demoEnv [oldRemoteName] KindNew true None "b" 0 w1).2 in
  storedNames w1 = [("new", 1000)] /\ cachedName w1 = Some ("new", 0) /\
  cachedName w2 = Some ("old", 5).
Proof. by vm_compute. Qed.

Definition deepRemote : Event :=
  mkEvent "!r:a" "$d:b" 5 0 "@bob:b" "m.room.message" None "x" "" (2^63 - 1) "" 5 "b" "".

Definition storedDepths (w : World MemCache unit) : list Z :=
  omap (fun a => match a with
                 | AStoreEvent e _ _ _ => if String.eqb (Type_ e) "m.room.message" then Some (Depth e) else None
                 | _ => None end) (acts w).

(** depths wrap around.  The depth of a remote event is taken as it is; after
    one with the largest integer the next local event gets the smallest one, and
    the room's depth goes down with it. *)
Theorem remote_depth_wraps :
  let w1 := (processInput None demoEnv [deepRemote] KindNew true None "b" 0 created).2 in
  storedDepths (run [sev "m.room.message" "@alice:a" "hi" None 6 0] w1) = [2^63 - 1; - 2^63].
Proof. by vm_compute. Qed.

Definition demoState : RoomServerState :=
  match GetRoomState None (cache created) () "!r:a" with Ok (Some rs, _) => rs | _ => init "" end.
Definition demoCache : MemCache :=
  match GetRoomState None (cache created) () "!r:a" with Ok (_, c) => c | _ => mkMemCache ∅ ∅ ∅ end.

Definition strangerMsg : Event := sev "m.room.message" "@eve:a" "hi" None 9 0.

Lemma unauthorised_writes_nothing_witness :
  exists locks, Forall isLock locks /\
  processRoomNewEvent None demoEnv strangerMsg false None "a" created =
  (Err (ErrNotAllowed "sender not in room"),
   mkWorld demoCache () (idg created) (clock created) (acts created ++ locks)%list).
Proof.
  apply (unauthorised_writes_nothing None demoEnv strangerMsg None "a" demoState None false
           (ErrNotAllowed "sender not in room") demoCache created);
    [discriminate|vm_compute; reflexivity|vm_compute; reflexivity|discriminate
    |vm_compute; reflexivity|vm_compute; reflexivity].
Defined.

Definition demoExt : RoomStateExt := mkRoomStateExt "" "" "" "" 3 false 10 {[ "a" := 4 ]}.
Definition extWorld : World MemCache unit :=
  mkWorld (mkMemCache ∅ {[ "!r:a" := demoExt ]} ∅) () demoGen (clockOf 3) [].

Lemma event_numbering_witness :
  exists event' rs' w',
    updateRoomStateExt demoEnv nameEv (init "!r:a") true extWorld = (Ok (event', rs'), w') /\
    numbered nameEv event' "a" demoExt /\
    extDepth demoExt <= extDepth (ext rs') /\ Depth event' <= extDepth (ext rs') /\
    (forall d, default 0 (Domains demoExt !! d) <= default 0 (Domains (ext rs') !! d)) /\
    DomainOffset event' <= default 0 (Domains (ext rs') !! "a") /\
    OutEventOffset demoExt < OutEventOffset (ext rs') /\
    (true = true -> if IsStateEv nameEv
       then PreStateId (ext rs') = LastStateId demoExt /\ LastStateId (ext rs') = EventID nameEv
       else PreMsgId (ext rs') = LastMsgId demoExt /\ LastMsgId (ext rs') = EventID nameEv).
Proof.
  eapply (event_numbering demoEnv nameEv (init "!r:a") true extWorld "a" demoExt (cache extWorld));
    [reflexivity|reflexivity|reflexivity|vm_compute; reflexivity|vm_compute; reflexivity
    |unfold in64; simpl; lia|unfold in64; vm_compute; split; [discriminate|reflexivity]|].
  intros u. eexists. reflexivity.
Defined.

Lemma stored_is_sent_witness :
  exists rs' w' o fed,
    postProcessNew None demoEnv nameEv None 3 7 (UpdateOutEventOffset (init "!r:a") 11) "a" None 1 w0 = (Ok rs', w') /\
    acts w' = (acts w0 ++ membershipWrites 7 3 nameEv None "" ++
      [ASetLatestEvents 7 3 1 0;
       AStoreEvent (stamped None demoEnv nameEv) 7 1 "";
       AOutput o;
       ASaveRoomDomainsOffset 7 "a" 0] ++ fed)%list /\
    oEvent o = stamped None demoEnv nameEv /\ oEventOffset o = 11 /\
    (fed = [] \/ fed = [AFedEvent "!r:a" (stamped None demoEnv nameEv)] \/
     fed = [AFedOnRoomEvent (stamped None demoEnv nameEv)]).
Proof.
  exact (stored_is_sent None demoEnv nameEv None 3 7 (UpdateOutEventOffset (init "!r:a") 11) "a" None 1 w0 ""
           (fun _ => eq_refl) (fun E => ltac:(discriminate E)) eq_refl).
Defined.

End RoomProcFacts.
