(* ===== verification/Rcs.v ===== *)
(** * Direct rooms: the RCS server

    [src/rcsserver/processors/event_processor.go], [src/rcsserver/rpc/event.go]
    and the table of [src/storage/implements/rcs_server/friendship.go]: the
    friendship of the two members of a direct room, the state machine of their
    memberships, and the resolution of two rooms created for the same pair.

    The table is a finite map keyed by room (its unique index) whose primary key
    [_id] is unique.  The state machine library (gofsm) is the class [GoFSM];
    what the code relies on is its laws.  Failures of the database connection
    are not modelled, violated constraints are. *)

From Stdlib Require Import String Ascii ZArith List.
From stdpp Require Import base tactics list gmap strings.
From S2P Require Import Prelude Snowflake Ids Event.
Import Event.Event.

#[local] Open Scope string_scope.

Module Rcs.

Definition ST_INIT := "init".
Definition ST_INVITE := "invite".
Definition ST_JOIN := "join".
Definition ST_LEAVE := "leave".
Definition OP_JOIN := "join".
Definition OP_INVITE := "invite".
Definition OP_LEAVE := "leave".

Inductive action := ACT_DEFAULT | ACT_IGNORE | ACT_JOIN | ACT_INVITE.

#[export] Instance action_eq_dec : EqDecision action.
Proof. solve_decision. Defined.

(** ** The friendship table *)

Record RCSFriendship := mkFriendship {
  ID : string;
  fRoomID : string;
  FcID : string;
  ToFcID : string;
  FcIDState : string;
  ToFcIDState : string;
  FcIDIsBot : bool;
  ToFcIDIsBot : bool;
  FcIDRemark : string;
  ToFcIDRemark : string;
  FcIDOnceJoined : bool;
  ToFcIDOnceJoined : bool;
  FcIDDomain : string;
  ToFcIDDomain : string;
  fEventID : string;
}.

Record Server := mkServer {
  table : gmap string RCSFriendship;
  rcsIdg : Snowflake.UidGenerator;
  rcsClock : list Z;
}.

#[local] Abbreviation M := (ST Server).

Definition setTable (t : gmap string RCSFriendship) : M unit := fun s =>
  (Ok (), mkServer t (rcsIdg s) (rcsClock s)).
Definition getTable : M (gmap string RCSFriendship) := fun s => (Ok (table s), s).

(** The primary key is taken by another room. *)
Definition idTaken (t : gmap string RCSFriendship) (id room : string) : bool :=
  existsb (fun kv => String.eqb (ID kv.2) id && negb (String.eqb kv.1 room)) (map_to_list t).

Definition InsertFriendship (f : RCSFriendship) : M unit :=
  t ← getTable;
  if bool_decide (is_Some (t !! fRoomID f)) || idTaken t (ID f) (fRoomID f)
  then fail (ErrMsg "duplicate key")
  else setTable (<[fRoomID f := f]> t).

Definition GetFriendshipByRoomID (room : string) : M RCSFriendship :=
  t ← getTable;
  match t !! room with Some f => mret f | None => fail ErrNoRows end.

(** [UPDATE ... WHERE room_id = $2]: no row is no error. *)
Definition UpdateFriendshipByRoomID (f : RCSFriendship) : M unit :=
  t ← getTable;
  match t !! fRoomID f with
  | None => mret ()
  | Some _ =>
      if idTaken t (ID f) (fRoomID f) then fail (ErrMsg "duplicate key")
      else setTable (<[fRoomID f := f]> t)
  end.

Definition DeleteFriendshipByRoomID (room : string) : M unit :=
  t ← getTable; setTable (delete room t).

Section Rcs.
  Context `{GoRange} `{Codec} (domainMng : option (Ids.DomainMng * Ids.DomainSrc)).
  (** [cfg.Matrix.ServerName]; the content of [external.MemberContent] as JSON,
      and its display name. *)
  Context (serverNames : list string) (encMember : string -> res string) (displayName : string -> string).

(** The row the query returns first. *)
Definition GetFriendshipByFcIDAndToFcID (fcID toFcID : string) : M RCSFriendship :=
  t ← getTable;
  match List.find (fun kv : string * RCSFriendship => String.eqb (FcID kv.2) fcID && String.eqb (ToFcID kv.2) toFcID) (range t) with
  | Some (_, f) => mret f
  | None => fail ErrNoRows
  end.

Definition localServer (domain : string) : bool := Ids.CheckValidDomain domainMng domain serverNames.

Definition remark (account : string) (ev : Event) : res string :=
  if negb (String.eqb (displayName (Content ev)) "") then Ok (displayName (Content ev))
  else Ids.getUsername account.

Definition buildEvent (sender roomID stateKey membership : string) : M Event := fun s =>
  match encMember membership with
  | Ok content =>
      let builder := mkEventBuilder sender roomID MRoomMember (Some stateKey) "" 0 0 content "" "" in
      match Snowflake.Next (rcsIdg s) (rcsClock s) with
      | Some (nid, g, clk) => (Build builder nid (Ids.domainOrEmpty sender), mkServer (table s) g clk)
      | None => (Diverge, s)
      end
  | Err e => (Err e, s)
  | Panic => (Panic, s)
  | Diverge => (Diverge, s)
  end.

(** ** The state machine *)

Record Transition := mkTransition { From : string; TEvent : string; To : string; TAction : action }.

Definition transitions : list Transition :=
  [ mkTransition ST_INIT OP_JOIN ST_JOIN ACT_JOIN;
    mkTransition ST_INIT OP_INVITE ST_INVITE ACT_INVITE;
    mkTransition ST_JOIN OP_LEAVE ST_LEAVE ACT_DEFAULT;
    mkTransition ST_INVITE OP_JOIN ST_JOIN ACT_JOIN;
    mkTransition ST_INVITE OP_LEAVE ST_LEAVE ACT_DEFAULT;
    mkTransition ST_LEAVE OP_INVITE ST_INVITE ACT_INVITE;
    mkTransition ST_JOIN OP_JOIN ST_JOIN ACT_IGNORE;
    mkTransition ST_INVITE OP_INVITE ST_INVITE ACT_IGNORE;
    mkTransition ST_LEAVE OP_LEAVE ST_LEAVE ACT_IGNORE ].

Definition findTransition (ts : list Transition) (st op : string) : option Transition :=
  List.find (fun t => String.eqb (From t) st && String.eqb (TEvent t) op) ts.

(** What the code relies on of gofsm's [Trigger]: it calls the delegate with the
    action and target state of the matching transition, and fails without one. *)
Class GoFSM := {
  Trigger : list Transition -> (action -> string -> string -> M unit) -> string -> string -> M unit;
  Trigger_match : forall ts h st op t, findTransition ts st op = Some t ->
    forall s, Trigger ts h st op s = h (TAction t) st (To t) s;
  Trigger_none : forall ts h st op, findTransition ts st op = None ->
    forall s, exists e, Trigger ts h st op s = (Err e, s);
}.

(** The three operations of the delegate. *)
Definition handleJoinOperation (toState stateKey : string) (isCreator : bool) (f : RCSFriendship) (ev : Event) : M unit :=
  r ← liftR (remark stateKey ev);
  if isCreator then
    UpdateFriendshipByRoomID
      (mkFriendship (ID f) (fRoomID f) stateKey (ToFcID f) toState (ToFcIDState f)
         (Ids.isBot stateKey) (Ids.isBot (ToFcID f)) r (ToFcIDRemark f)
         true (ToFcIDOnceJoined f) (Ids.getDomain stateKey) (Ids.getDomain (ToFcID f)) (EventID ev))
  else
    UpdateFriendshipByRoomID
      (mkFriendship (ID f) (fRoomID f) (FcID f) stateKey (FcIDState f) toState
         (Ids.isBot (FcID f)) (Ids.isBot stateKey) (FcIDRemark f) r
         (FcIDOnceJoined f) true (Ids.getDomain (FcID f)) (Ids.getDomain stateKey) (EventID ev)).

Definition updateKeepingOnce (id toState stateKey : string) (isCreator : bool) (f : RCSFriendship) (ev : Event) : M unit :=
  r ← liftR (remark stateKey ev);
  if isCreator then
    UpdateFriendshipByRoomID
      (mkFriendship id (fRoomID f) stateKey (ToFcID f) toState (ToFcIDState f)
         (Ids.isBot stateKey) (Ids.isBot (ToFcID f)) r (ToFcIDRemark f)
         (FcIDOnceJoined f) (ToFcIDOnceJoined f) (Ids.getDomain stateKey) (Ids.getDomain (ToFcID f)) (EventID ev))
  else
    UpdateFriendshipByRoomID
      (mkFriendship id (fRoomID f) (FcID f) stateKey (FcIDState f) toState
         (Ids.isBot (FcID f)) (Ids.isBot stateKey) (FcIDRemark f) r
         (FcIDOnceJoined f) (ToFcIDOnceJoined f) (Ids.getDomain (FcID f)) (Ids.getDomain stateKey) (EventID ev)).

Definition handleInviteOperation (toState sender stateKey : string) (isCreator : bool) (f : RCSFriendship) (ev : Event) : M unit :=
  updateKeepingOnce (if negb (String.eqb sender stateKey) then Ids.getID sender stateKey else ID f)
    toState stateKey isCreator f ev.

Definition handleNormalOperation (toState stateKey : string) (isCreator : bool) (f : RCSFriendship) (ev : Event) : M unit :=
  updateKeepingOnce (ID f) toState stateKey isCreator f ev.

(** [RCSDelegate.HandleEvent]. *)
Definition HandleEvent (sender stateKey : string) (isCreator : bool) (f : RCSFriendship) (ev : Event)
    (act : action) (fromState toState : string) : M unit :=
  match act with
  | ACT_IGNORE => mret ()
  | ACT_JOIN => handleJoinOperation toState stateKey isCreator f ev
  | ACT_INVITE => handleInviteOperation toState sender stateKey isCreator f ev
  | ACT_DEFAULT => handleNormalOperation toState stateKey isCreator f ev
  end.

(** ** The event processor *)

Context `{GoFSM}.

Definition HandleCreate (ev : Event) : M (list Event) :=
  _ ← InsertFriendship (mkFriendship (EventID ev) (RoomID ev) (Sender ev) "" ST_INIT ST_INIT
         false false "" "" false false "" "" (EventID ev));
  mret [ev].

(** A member that has left invites the other one: events and new states. *)
Definition reinvite (ev : Event) (f : RCSFriendship) (sender stateKey stateKeySt : string) (senderIsCreator : bool) : M (list Event) :=
  e1 ← buildEvent sender (RoomID ev) sender "invite";
  e2 ← buildEvent sender (RoomID ev) sender "join";
  '(newSt, more) ← (if String.eqb stateKeySt ST_LEAVE
                    then e3 ← buildEvent sender (RoomID ev) stateKey "invite"; mret (ST_INVITE, [e3])
                    else mret (stateKeySt, []));
  let fcSt := if senderIsCreator then ST_JOIN else newSt in
  let toSt := if senderIsCreator then newSt else ST_JOIN in
  _ ← UpdateFriendshipByRoomID
        (mkFriendship (ID f) (fRoomID f) (FcID f) (ToFcID f) fcSt toSt
           (Ids.isBot (FcID f)) (Ids.isBot (ToFcID f)) (FcIDRemark f) (ToFcIDRemark f)
           (FcIDOnceJoined f) (ToFcIDOnceJoined f) (Ids.getDomain (FcID f)) (Ids.getDomain (ToFcID f)) (EventID ev));
  mret ([e1; e2] ++ more)%list.

(** [handleNormalMembership] once the state key and the membership are known. *)
Definition normalMembership (ev : Event) (stateKey op : string) : M (list Event) := fun s =>
  let sender := Sender ev in
  let local := localServer (Ids.domainOrEmpty sender) in
  match GetFriendshipByRoomID (RoomID ev) s with
  | (Err e, s1) =>
      if bool_decide (e = ErrNoRows) && String.eqb op OP_LEAVE && negb local then (Ok [ev], s1) else (Err e, s1)
  | (Panic, s1) => (Panic, s1)
  | (Diverge, s1) => (Diverge, s1)
  | (Ok f, s1) =>
      let senderIsCreator := String.eqb sender (FcID f) in
      let senderSt := if senderIsCreator then FcIDState f else ToFcIDState f in
      let stateKeyIsCreator := String.eqb stateKey (FcID f) in
      let stateKeySt := if stateKeyIsCreator then FcIDState f else ToFcIDState f in
      if local && String.eqb senderSt ST_LEAVE && String.eqb op OP_INVITE && negb (String.eqb sender stateKey)
      then reinvite ev f sender stateKey stateKeySt senderIsCreator s1
      else (_ ← Trigger transitions (HandleEvent sender stateKey stateKeyIsCreator f ev) stateKeySt op;
            mret [ev]) s1
  end.

Definition handleNormalMembership (ev : Event) : M (list Event) :=
  match StateKey ev with
  | None => fail (ErrMsg "StateKey is nil")
  | Some stateKey =>
      op ← liftR (membership ev);
      normalMembership ev stateKey op
  end.

(** [f2, err := GetFriendshipByFcIDAndToFcID]: a missing row is not an error. *)
Definition otherRoom (fcID toFcID : string) : M (option RCSFriendship) := fun s =>
  match GetFriendshipByFcIDAndToFcID fcID toFcID s with
  | (Ok f, s1) => (Ok (Some f), s1)
  | (Err ErrNoRows, s1) => (Ok None, s1)
  | (Err e, s1) => (Err e, s1)
  | (Panic, s1) => (Panic, s1)
  | (Diverge, s1) => (Diverge, s1)
  end.

Definition handleFedInvite (ev : Event) : M (list Event) :=
  toFcID1 ← liftR (deref (StateKey ev));
  let fcID1 := Sender ev in
  let room1 := RoomID ev in
  f2 ← otherRoom toFcID1 fcID1;
  match f2 with
  | Some f2 =>
      let room2 := fRoomID f2 in
      if String.eqb room2 room1 then handleNormalMembership ev
      else if str_ltb room1 room2 then
        _ ← DeleteFriendshipByRoomID room2;
        f1 ← GetFriendshipByRoomID room1;
        r ← liftR (remark toFcID1 ev);
        _ ← UpdateFriendshipByRoomID
              (mkFriendship (Ids.getID fcID1 toFcID1) room1 fcID1 toFcID1 (FcIDState f1) ST_JOIN
                 (Ids.isBot fcID1) (Ids.isBot toFcID1) (FcIDRemark f1) r
                 true true (Ids.getDomain fcID1) (Ids.getDomain toFcID1) (EventID ev));
        e1 ← buildEvent toFcID1 room2 toFcID1 "leave";
        e2 ← buildEvent toFcID1 room1 toFcID1 "join";
        mret [e1; e2]
      else
        _ ← DeleteFriendshipByRoomID room1;
        e ← buildEvent toFcID1 room1 toFcID1 "leave";
        mret [e]
  | None => handleNormalMembership ev
  end.

(** The sender was invited: the invite becomes a join. *)
Definition joinInstead (ev : Event) (f1 : RCSFriendship) : M (list Event) :=
  let fcID1 := Sender ev in
  let room1 := RoomID ev in
  let upd fs ts fo to :=
    UpdateFriendshipByRoomID
      (mkFriendship (ID f1) (fRoomID f1) (FcID f1) (ToFcID f1) fs ts
         (Ids.isBot (FcID f1)) (Ids.isBot (ToFcID f1)) (FcIDRemark f1) (ToFcIDRemark f1)
         fo to (Ids.getDomain (FcID f1)) (Ids.getDomain (ToFcID f1)) (EventID ev)) in
  if String.eqb fcID1 (FcID f1) then
    if String.eqb (FcIDState f1) ST_INVITE then
      _ ← upd ST_JOIN (ToFcIDState f1) true (ToFcIDOnceJoined f1);
      e ← buildEvent fcID1 room1 fcID1 "join";
      mret [e]
    else mret []
  else
    if String.eqb (ToFcIDState f1) ST_INVITE then
      _ ← upd (FcIDState f1) ST_JOIN (FcIDOnceJoined f1) true;
      e ← buildEvent fcID1 room1 fcID1 "join";
      mret [e]
    else mret [].

Definition handleLocalInvite (ev : Event) : M (list Event) :=
  toFcID1 ← liftR (deref (StateKey ev));
  let fcID1 := Sender ev in
  let room1 := RoomID ev in
  f2 ← otherRoom toFcID1 fcID1;
  match (f2 : option RCSFriendship) with
  | Some f2 =>
      if negb (String.eqb (fRoomID f2) room1) then
        let room2 := fRoomID f2 in
        _ ← DeleteFriendshipByRoomID room1;
        e1 ← buildEvent fcID1 room1 fcID1 "leave";
        r ← liftR (Ids.getUsername (ToFcID f2));
        _ ← UpdateFriendshipByRoomID
              (mkFriendship (ID f2) room2 (FcID f2) (ToFcID f2) (FcIDState f2) ST_JOIN
                 (Ids.isBot (FcID f2)) (Ids.isBot (ToFcID f2)) (FcIDRemark f2) r
                 (FcIDOnceJoined f2) true (Ids.getDomain (FcID f2)) (Ids.getDomain (ToFcID f2)) (EventID ev));
        e2 ← buildEvent fcID1 room2 fcID1 "join";
        mret [e1; e2]
      else
        f1 ← GetFriendshipByRoomID room1;
        evs ← joinInstead ev f1;
        if (0 <? length (evs : list Event))%nat then mret evs else handleNormalMembership ev
  | None =>
      f1 ← GetFriendshipByRoomID room1;
      evs ← joinInstead ev f1;
      if (0 <? length (evs : list Event))%nat then mret evs else handleNormalMembership ev
  end.

Definition handleInvite (ev : Event) : M (list Event) :=
  if bool_decide (StateKey ev = None) then fail (ErrMsg "State key is nil")
  else if localServer (Ids.domainOrEmpty (Sender ev)) then handleLocalInvite ev
  else handleFedInvite ev.

Definition HandleMembership (ev : Event) : M (list Event) :=
  m ← liftR (membership ev);
  if String.eqb m "invite" then handleInvite ev else handleNormalMembership ev.

(** [EventConsumer.handleEvent]: the reply, with the [Succeed] flag. *)
Definition handleEvent (ev : Event) : M (list Event * bool) := fun s =>
  let r := if String.eqb (Type_ ev) MRoomCreate then HandleCreate ev s
           else if String.eqb (Type_ ev) MRoomMember then HandleMembership ev s
           else (Ok [ev], s) in
  match r with
  | (Ok evs, s1) => (Ok (evs, true), s1)
  | (Err _, s1) => (Ok ([], false), s1)
  | (Panic, s1) => (Panic, s1)
  | (Diverge, s1) => (Diverge, s1)
  end.

End Rcs.

End Rcs.
