(* ===== verification/RcsFacts.v ===== *)
(** * What the RCS server guarantees

    Theorems about [Rcs], for every state machine library that obeys [GoFSM]:
    the friendship table stays consistent and an event changes only the rooms of its
    pair ([only_the_pair_changes]), a membership event moves exactly the state of its
    user along the transition table ([membership_follows_machine]), and two servers
    that created a room for the same pair keep the one with the smaller identifier
    ([glare_converges]). *)

From Stdlib Require Import String Ascii ZArith List.
From stdpp Require Import base tactics list gmap strings.
From S2P Require Import Prelude Snowflake Ids Event Rcs.
Import Event.Event Rcs.Rcs.

#[local] Open Scope string_scope.

Module RcsFacts.

(** ** The table *)

Definition validState (st : string) : Prop := st ∈ [ST_INIT; ST_INVITE; ST_JOIN; ST_LEAVE].

Definition validRow (f : RCSFriendship) : Prop := validState (FcIDState f) /\ validState (ToFcIDState f).

(** Every row is stored under its room, its states are states of the machine,
    and the primary key is unique. *)
Record TableOK (t : gmap string RCSFriendship) : Prop := {
  tok_room : forall r f, t !! r = Some f -> fRoomID f = r;
  tok_valid : forall r f, t !! r = Some f -> validRow f;
  tok_id : forall r1 r2 f1 f2, t !! r1 = Some f1 -> t !! r2 = Some f2 -> ID f1 = ID f2 -> r1 = r2;
}.

Lemma idTaken_false t id room :
  idTaken t id room = false <-> (forall r f, t !! r = Some f -> ID f = id -> r = room).
Proof.
  unfold idTaken. rewrite <- not_true_iff_false, existsb_exists. split.
  - intros Hno r f Hr Hid. destruct (decide (r = room)) as [|Hne]; [done|]. exfalso. apply Hno.
    exists (r, f). split; [by apply list_elem_of_In, elem_of_map_to_list|]. simpl.
    by rewrite Hid, String.eqb_refl, (proj2 (String.eqb_neq _ _) Hne).
  - intros HF ([r f] & Hin%list_elem_of_In%elem_of_map_to_list & [E1%String.eqb_eq E2]%andb_true_iff).
    simpl in *. rewrite (HF r f Hin E1), String.eqb_refl in E2. done.
Qed.

Lemma TableOK_insert t f :
  TableOK t -> validRow f -> idTaken t (ID f) (fRoomID f) = false -> TableOK (<[fRoomID f := f]> t).
Proof.
  intros [A B C] Hf Hid. rewrite idTaken_false in Hid. split.
  - intros r g [[<- <-]|[_ ?]]%lookup_insert_Some; eauto.
  - intros r g [[<- <-]|[_ ?]]%lookup_insert_Some; eauto.
  - intros r1 r2 f1 f2 [[<- <-]|[N1 E1]]%lookup_insert_Some [[<- <-]|[N2 E2]]%lookup_insert_Some E; eauto.
    symmetry. eauto.
Qed.

Lemma TableOK_delete t r : TableOK t -> TableOK (delete r t).
Proof.
  intros [A B C]. split.
  - intros r' f [_ ?]%lookup_delete_Some. eauto.
  - intros r' f [_ ?]%lookup_delete_Some. eauto.
  - intros r1 r2 f1 f2 [_ E1]%lookup_delete_Some [_ E2]%lookup_delete_Some. eauto.
Qed.

(** ** A small program logic: the table stays consistent, and [Q] holds of the
    result. *)
Definition keeps {A} (m : ST Server A) (Q : A -> Prop) : Prop :=
  forall s, TableOK (table s) -> TableOK (table (m s).2) /\ forall a, (m s).1 = Ok a -> Q a.

Lemma keeps_bind {A B} (m : ST Server A) (f : A -> ST Server B) Q R :
  keeps m Q -> (forall a, Q a -> keeps (f a) R) -> keeps (m ≫= f) R.
Proof.
  intros Hm Hf s Hs. destruct (Hm s Hs) as [HT HQ]. unfold mbind, ST_bind.
  destruct (m s) as [[a|e| |] s1]; simpl in *; try done. apply Hf; auto.
Qed.

Lemma keeps_ret {A} (a : A) (Q : A -> Prop) : Q a -> keeps (mret a) Q.
Proof. intros Ha s Hs. split; [done|]. by intros b [= <-]. Qed.

Lemma keeps_lift {A} (r : res A) : keeps (liftR r) (fun _ => True).
Proof. by intros s Hs. Qed.

Lemma keeps_fail {A} e (Q : A -> Prop) : keeps (fail e) Q.
Proof. by intros s Hs. Qed.

Lemma keeps_Get r : keeps (GetFriendshipByRoomID r) validRow.
Proof.
  intros s Hs. unfold GetFriendshipByRoomID, getTable, mbind, ST_bind.
  destruct (table s !! r) as [f|] eqn:E; simpl; (split; [done|]); intros a [= <-].
  by apply (tok_valid _ Hs r).
Qed.

Lemma keeps_Update f : validRow f -> keeps (UpdateFriendshipByRoomID f) (fun _ => True).
Proof.
  intros Hf s Hs. unfold UpdateFriendshipByRoomID, getTable, mbind, ST_bind.
  destruct (table s !! fRoomID f); [|done]. destruct (idTaken _ _ _) eqn:E; [done|]. simpl.
  split; [|done]. by apply TableOK_insert.
Qed.

Lemma keeps_Insert f : validRow f -> keeps (InsertFriendship f) (fun _ => True).
Proof.
  intros Hf s Hs. unfold InsertFriendship, getTable, mbind, ST_bind.
  destruct (_ || _) eqn:E; [done|]. apply orb_false_iff in E as [_ E]. simpl.
  split; [|done]. by apply TableOK_insert.
Qed.

Lemma keeps_Delete r : keeps (DeleteFriendshipByRoomID r) (fun _ => True).
Proof. intros s Hs. simpl. split; [|done]. by apply TableOK_delete. Qed.

Lemma validState_consts : validState ST_INIT /\ validState ST_INVITE /\ validState ST_JOIN /\ validState ST_LEAVE.
Proof. unfold validState. repeat split; apply list_elem_of_In; simpl; tauto. Qed.

#[local] Hint Resolve keeps_ret keeps_fail keeps_Get keeps_Update keeps_Insert keeps_Delete : ligase.
#[local] Hint Extern 2 (validState _) => apply validState_consts : ligase.

Section Facts.
  Context `{GoRange} `{Codec} (domainMng : option (Ids.DomainMng * Ids.DomainSrc)).
  Context (serverNames : list string) (encMember : string -> res string) (displayName : string -> string).
  Context `{GoFSM}.

Lemma buildEvent_table a b c d s : table (buildEvent encMember a b c d s).2 = table s.
Proof using.
  unfold buildEvent. destruct (encMember d); try done.
  by destruct (Snowflake.Next _ _) as [[[nid g] clk]|].
Qed.

Lemma keeps_buildEvent a b c d : keeps (buildEvent encMember a b c d) (fun _ => True).
Proof using. intros s Hs. split; [|done]. by rewrite buildEvent_table. Qed.

Lemma keeps_Query a b : keeps (GetFriendshipByFcIDAndToFcID a b) validRow.
Proof using.
  intros s Hs. unfold GetFriendshipByFcIDAndToFcID, getTable, mbind, ST_bind.
  destruct (List.find _ (range (table s))) as [[r f]|] eqn:E; simpl; (split; [done|]); intros x [= <-].
  apply List.find_some in E as [Hin%list_elem_of_In%range_elem _]. by apply (tok_valid _ Hs r).
Qed.

Lemma keeps_otherRoom a b : keeps (otherRoom a b) (fun o => forall f, o = Some f -> validRow f).
Proof using.
  intros s Hs. destruct (keeps_Query a b s Hs) as [HT HQ]. unfold otherRoom.
  destruct (GetFriendshipByFcIDAndToFcID a b s) as [[f|[]| |] s1]; simpl in *; (split; [done|]); intros o [= <-].
  - intros f' [= <-]. auto.
  - done.
Qed.

(** Step through a program. *)
Ltac step :=
  match goal with
  | |- keeps (_ ≫= _) _ => eapply keeps_bind
  | |- keeps (buildEvent _ _ _ _ _) _ => apply keeps_buildEvent
  | |- keeps (otherRoom _ _) _ => apply keeps_otherRoom
  | |- keeps (liftR _) _ => apply keeps_lift
  | |- keeps (UpdateFriendshipByRoomID _) _ => apply keeps_Update
  | |- keeps (if ?b then _ else _) _ => destruct b eqn:?
  | |- keeps (mret _) _ => apply keeps_ret; exact I
  | |- keeps _ _ => solve [eauto with ligase]
  | |- forall _, _ => intros
  | |- validRow _ => split; simpl
  | H : validRow _ |- validState _ => solve [apply H | eauto with ligase]
  | |- validState _ => solve [eauto with ligase]
  end.

Lemma findTransition_To st op t : findTransition transitions st op = Some t -> validState (To t).
Proof using.
  unfold findTransition. intros [Hin _]%List.find_some.
  simpl in Hin. repeat destruct Hin as [<-|Hin]; [..|done]; simpl; apply validState_consts.
Qed.

Lemma keeps_HandleEvent sender key cr f ev act from to :
  validRow f -> validState to ->
  keeps (HandleEvent displayName sender key cr f ev act from to) (fun _ => True).
Proof using.
  intros Hf Hto. unfold HandleEvent, handleInviteOperation, handleNormalOperation, handleJoinOperation, updateKeepingOnce.
  destruct act; repeat step; assumption.
Qed.

Lemma keeps_Trigger sender key cr f ev st op :
  validRow f ->
  keeps (Trigger transitions (HandleEvent displayName sender key cr f ev) st op) (fun _ => True).
Proof using.
  intros Hf s Hs. destruct (findTransition transitions st op) as [t|] eqn:E.
  - rewrite (Trigger_match _ _ _ _ _ E).
    apply keeps_HandleEvent; [done|by eapply findTransition_To|done].
  - destruct (Trigger_none _ (HandleEvent displayName sender key cr f ev) _ _ E s) as [e ->]. done.
Qed.

Lemma keeps_reinvite ev f a b st cr :
  validRow f -> validState st -> keeps (reinvite encMember ev f a b st cr) (fun _ => True).
Proof using.
  intros Hf Hst. unfold reinvite. do 4 step. step.
  { instantiate (1 := fun p => validState p.1). destruct (String.eqb st ST_LEAVE); [|by apply keeps_ret].
    step; [by step|]. intros e3 _. apply keeps_ret, validState_consts. }
  intros [st' more] Hst'. simpl in Hst'. repeat step; destruct cr; (assumption || apply validState_consts).
Qed.

Lemma keeps_normal ev :
  keeps (handleNormalMembership domainMng serverNames encMember displayName ev) (fun _ => True).
Proof using.
  unfold handleNormalMembership. destruct (StateKey ev) as [k|]; [|by step].
  step; [by step|]. intros op _ s Hs. unfold normalMembership.
  destruct (keeps_Get (RoomID ev) s Hs) as [HT HQ].
  destruct (GetFriendshipByRoomID (RoomID ev) s) as [[f|e| |] s1]; simpl in *; try done.
  2:{ by destruct (_ && _). }
  specialize (HQ f eq_refl).
  assert (Hst : forall b : bool, validState (if b then FcIDState f else ToFcIDState f)) by (intros []; apply HQ).
  destruct (_ && _); [by apply keeps_reinvite|].
  eapply (keeps_bind _ _ (fun _ => True)); [by apply keeps_Trigger|by intros; step|done].
Qed.

Lemma keeps_joinInstead ev f : validRow f -> keeps (joinInstead encMember ev f) (fun _ => True).
Proof using. intros Hf. unfold joinInstead. repeat step. Qed.

Lemma keeps_fed ev : keeps (handleFedInvite domainMng serverNames encMember displayName ev) (fun _ => True).
Proof using.
  unfold handleFedInvite. step; [by step|]. intros k _. step; [by step|]. intros [f2|] Hf2; [|by apply keeps_normal].
  destruct (String.eqb _ _); [by apply keeps_normal|]. repeat step.
Qed.

Lemma keeps_local ev : keeps (handleLocalInvite domainMng serverNames encMember displayName ev) (fun _ => True).
Proof using.
  assert (Hrest : keeps (f1 ← GetFriendshipByRoomID (RoomID ev); evs ← joinInstead encMember ev f1;
      if (0 <? length (evs : list Event))%nat then mret evs
      else handleNormalMembership domainMng serverNames encMember displayName ev) (fun _ => True)).
  { step; [by step|]. intros f1 Hf1. step; [by apply keeps_joinInstead|]. intros evs _.
    destruct (_ <? _)%nat; [by step|apply keeps_normal]. }
  unfold handleLocalInvite. step; [by step|]. intros k _. step; [by step|]. intros [f2|] Hf2; [|done].
  specialize (Hf2 f2 eq_refl). destruct (negb _); [|done]. repeat step.
Qed.

Lemma handleEvent_OK (ev : Event) (s : Server) (Hs : TableOK (table s)) :
  TableOK (table (handleEvent domainMng serverNames encMember displayName ev s).2).
Proof using.
  assert (HK : keeps (fun s => if String.eqb (Type_ ev) MRoomCreate then HandleCreate ev s
           else if String.eqb (Type_ ev) MRoomMember
           then HandleMembership domainMng serverNames encMember displayName ev s
           else (Ok [ev], s)) (fun _ => True)).
  { intros s0 Hs0. destruct (String.eqb (Type_ ev) MRoomCreate).
    { assert (HC : keeps (HandleCreate ev) (fun _ => True)); [|by apply HC].
      unfold HandleCreate. step; [apply keeps_Insert; split; apply validState_consts|]. by intros; step. }
    destruct (String.eqb (Type_ ev) MRoomMember); [|done].
    assert (HM : keeps (HandleMembership domainMng serverNames encMember displayName ev) (fun _ => True)); [|by apply HM].
    unfold HandleMembership. step; [by step|]. intros m _. destruct (String.eqb m "invite"); [|apply keeps_normal].
    unfold handleInvite. step; [by step|]. destruct (localServer _ _ _); [apply keeps_local|apply keeps_fed]. }
  destruct (HK s Hs) as [HT _]. unfold handleEvent. simpl in HT.
  by destruct (if String.eqb (Type_ ev) MRoomCreate then _ else _) as [[]].
Qed.

(** ** The state machine *)

Definition memberState (f : RCSFriendship) (u : string) : string :=
  if String.eqb u (FcID f) then FcIDState f else ToFcIDState f.
Definition otherState (f : RCSFriendship) (u : string) : string :=
  if String.eqb u (FcID f) then ToFcIDState f else FcIDState f.

(** Only the row of the room changed, from [f] to [f']. *)
Definition rowChanged (s s' : Server) (room : string) (f' : RCSFriendship) : Prop :=
  table s' !! room = Some f' /\ forall r, r <> room -> table s' !! r = table s !! r.

Lemma Update_row f s g :
  table s !! fRoomID f = Some g -> idTaken (table s) (ID f) (fRoomID f) = false ->
  exists s', UpdateFriendshipByRoomID f s = (Ok (), s') /\ rowChanged s s' (fRoomID f) f.
Proof using.
  intros Hg Hid. unfold UpdateFriendshipByRoomID, getTable, mbind, ST_bind. rewrite Hg, Hid.
  eexists. split; [done|]. split; simpl; [apply lookup_insert_eq|]. intros r Hr. by apply lookup_insert_ne.
Qed.

Lemma Get_row s room f :
  table s !! room = Some f -> GetFriendshipByRoomID room s = (Ok f, s).
Proof using. intros Hf. unfold GetFriendshipByRoomID, getTable, mbind, ST_bind. by rewrite Hf. Qed.

Lemma HandleEvent_moves sender k f ev act from to s r :
  table s !! fRoomID f = Some f -> remark displayName k ev = Ok r -> act <> ACT_IGNORE ->
  idTaken (table s) (ID f) (fRoomID f) = false ->
  (sender <> k -> act = ACT_INVITE -> idTaken (table s) (Ids.getID sender k) (fRoomID f) = false) ->
  exists s' f', HandleEvent displayName sender k (String.eqb k (FcID f)) f ev act from to s = (Ok (), s') /\
    rowChanged s s' (fRoomID f) f' /\ memberState f' k = to /\ otherState f' k = otherState f k.
Proof using.
  intros Hf Hr Hact Hid Hinv.
  assert (HU : forall g, fRoomID g = fRoomID f -> idTaken (table s) (ID g) (fRoomID f) = false ->
     memberState g k = to -> otherState g k = otherState f k ->
     exists s' f', UpdateFriendshipByRoomID g s = (Ok (), s') /\
       rowChanged s s' (fRoomID f) f' /\ memberState f' k = to /\ otherState f' k = otherState f k).
  { intros g Hg Hgid Hm Ho. rewrite <- Hg in *. destruct (Update_row g s f Hf Hgid) as (s' & E & HR). by exists s', g. }
  unfold memberState, otherState in *.
  destruct act; [| done | |];
    unfold HandleEvent, handleInviteOperation, handleNormalOperation, handleJoinOperation, updateKeepingOnce;
    erewrite ST_bind_Ok by (unfold liftR; by rewrite Hr);
    destruct (String.eqb k (FcID f)) eqn:Ek; apply HU; simpl; rewrite ?Ek, ?String.eqb_refl; try done;
    destruct (String.eqb_spec sender k); simpl; auto.
Qed.

Lemma ignore_stays t st op :
  findTransition transitions st op = Some t -> TAction t = ACT_IGNORE -> To t = st.
Proof using.
  unfold findTransition. intros [Hin E]%List.find_some Ha. apply andb_true_iff in E as [<-%String.eqb_eq _].
  simpl in Hin. repeat destruct Hin as [<-|Hin]; [..|done]; done.
Qed.

(** C32: Memberships follow the state machine: when [handleNormalMembership] gets a
    membership event of a room in the table, the only one of its pair, it moves the
    state of its user along the transition table and changes neither the other member
    nor another room; without a transition it fails and changes nothing. (Not the case
    of a local sender who left the room and invites: [reinvite].) *)
Theorem membership_follows_machine (ev : Event) (s : Server) (f : RCSFriendship) (k op r : string)
  (Hs : TableOK (table s)) (Hk : StateKey ev = Some k) (Hop : membership ev = Ok op)
  (Hf : table s !! RoomID ev = Some f)
  (Hnormal : localServer domainMng serverNames (Ids.domainOrEmpty (Sender ev)) &&
             String.eqb (memberState f (Sender ev)) ST_LEAVE && String.eqb op OP_INVITE = false)
  (Hremark : remark displayName k ev = Ok r)
  (Hpair : forall r g, table s !! r = Some g -> ID g = Ids.getID (Sender ev) k -> r = RoomID ev) :
  match findTransition transitions (memberState f k) op with
  | Some t => exists s' f',
      handleNormalMembership domainMng serverNames encMember displayName ev s = (Ok [ev], s') /\
      rowChanged s s' (RoomID ev) f' /\ memberState f' k = To t /\ otherState f' k = otherState f k
  | None => exists e, handleNormalMembership domainMng serverNames encMember displayName ev s = (Err e, s)
  end.
Proof using.
  pose proof (tok_room _ Hs _ _ Hf) as Hroom. rewrite <- Hroom in *.
  unfold handleNormalMembership. rewrite Hk. erewrite ST_bind_Ok by (unfold liftR; by rewrite Hop).
  unfold normalMembership. rewrite <- Hroom, (Get_row _ _ _ Hf).
  fold (memberState f (Sender ev)) (memberState f k).
  rewrite Hnormal. cbn [andb].
  destruct (findTransition transitions (memberState f k) op) as [t|] eqn:Et.
  - destruct (decide (TAction t = ACT_IGNORE)) as [Ea|Ea].
    { exists s, f. erewrite ST_bind_Ok by (rewrite (Trigger_match _ _ _ _ _ Et), Ea; done).
      split; [done|]. split; [by split|]. split; [|done]. symmetry. by eapply ignore_stays. }
    destruct (HandleEvent_moves (Sender ev) k f ev (TAction t) (memberState f k) (To t) s r) as (s' & f' & E & HR); try done.
    { apply idTaken_false. intros r' g Hg Hid. by eapply (tok_id _ Hs r' (fRoomID f)). }
    { intros _ _. apply idTaken_false. intros r' g Hg Hid. by eapply Hpair. }
    exists s', f'. erewrite ST_bind_Ok by (rewrite (Trigger_match _ _ _ _ _ Et); exact E). done.
  - destruct (Trigger_none _ (HandleEvent displayName (Sender ev) k (String.eqb k (FcID f)) f ev) _ _ Et s) as [e E].
    exists e. apply ST_bind_Err. exact E.
Qed.

(** ** Which rows an event reaches *)

Definition invariant {A} (I : gmap string RCSFriendship -> Prop) (m : ST Server A) : Prop :=
  forall s, I (table s) -> I (table (m s).2).

(** Only the row of [room] differs from [t0]. *)
Definition outside (room : string) (t0 t : gmap string RCSFriendship) : Prop := forall r, r <> room -> t !! r = t0 !! r.

Lemma inv_bind {A B} I (m : ST Server A) (f : A -> ST Server B) :
  invariant I m -> (forall a, invariant I (f a)) -> invariant I (m ≫= f).
Proof using.
  intros Hm Hf s Hs%Hm. unfold mbind, ST_bind. destruct (m s) as [[a|e| |] s1]; cbn in *; [by apply Hf|done..].
Qed.

Lemma inv_still {A} I (m : ST Server A) : (forall s, table (m s).2 = table s) -> invariant I m.
Proof using. intros Hm s. by rewrite Hm. Qed.

Lemma Update_tables f s : let t := table s in
  let t' := table (UpdateFriendshipByRoomID f s).2 in t' = t \/ (is_Some (t !! fRoomID f) /\ t' = <[fRoomID f := f]> t).
Proof using.
  cbv zeta. unfold UpdateFriendshipByRoomID, getTable, mbind, ST_bind. destruct (table s !! fRoomID f); [|by left].
  destruct (idTaken _ _ _); [by left|]. right. eauto.
Qed.

Lemma inv_Update room t0 f : fRoomID f = room -> invariant (outside room t0) (UpdateFriendshipByRoomID f).
Proof using.
  intros Hf s Hs. destruct (Update_tables f s) as [->|[_ ->]]; [done|]. intros r Hr. rewrite lookup_insert_ne by congruence. by apply Hs.
Qed.

Lemma inv_Delete room t0 : invariant (outside room t0) (DeleteFriendshipByRoomID room).
Proof using.
  intros s Hs r Hr. change (table (DeleteFriendshipByRoomID room s).2) with (delete room (table s)).
  rewrite lookup_delete_ne by congruence. by apply Hs.
Qed.

Lemma inv_Insert room t0 f : fRoomID f = room -> invariant (outside room t0) (InsertFriendship f).
Proof using.
  intros Hf s Hs r Hr. unfold InsertFriendship, getTable, mbind, ST_bind. destruct (_ || _); [by apply Hs|]. simpl.
  rewrite lookup_insert_ne by congruence. by apply Hs.
Qed.

Lemma Get_still room s : table (GetFriendshipByRoomID room s).2 = table s.
Proof using. unfold GetFriendshipByRoomID, getTable, mbind, ST_bind. by destruct (table s !! room). Qed.

Ltac reach :=
  match goal with
  | |- invariant _ (_ ≫= _) => apply inv_bind; [|intros]
  | |- invariant _ (UpdateFriendshipByRoomID _) => by apply inv_Update
  | |- invariant _ (DeleteFriendshipByRoomID _) => apply inv_Delete
  | |- invariant _ (InsertFriendship _) => by apply inv_Insert
  | |- invariant _ (if ?b then _ else _) => destruct b
  | |- invariant _ (GetFriendshipByRoomID _) => apply inv_still; intros; apply Get_still
  | |- invariant _ (buildEvent _ _ _ _ _) => apply inv_still; intros; apply buildEvent_table
  | |- invariant _ (let '(_, _) := ?p in _) => destruct p
  | |- invariant _ _ => by apply inv_still
  end.

Lemma inv_HandleEvent t0 sender key cr f ev act from to :
  invariant (outside (fRoomID f) t0) (HandleEvent displayName sender key cr f ev act from to).
Proof using.
  unfold HandleEvent, handleInviteOperation, handleNormalOperation, handleJoinOperation, updateKeepingOnce.
  destruct act; repeat reach.
Qed.

Lemma inv_Trigger t0 sender key cr f ev st op :
  invariant (outside (fRoomID f) t0) (Trigger transitions (HandleEvent displayName sender key cr f ev) st op).
Proof using.
  intros s Hs. destruct (findTransition transitions st op) as [t|] eqn:E.
  - rewrite (Trigger_match _ _ _ _ _ E). by apply inv_HandleEvent.
  - by destruct (Trigger_none _ (HandleEvent displayName sender key cr f ev) _ _ E s) as [e ->].
Qed.

Lemma inv_reinvite t0 ev f a b st cr : invariant (outside (fRoomID f) t0) (reinvite encMember ev f a b st cr).
Proof using. unfold reinvite. repeat reach. Qed.

Lemma inv_joinInstead t0 ev f : invariant (outside (fRoomID f) t0) (joinInstead encMember ev f).
Proof using. unfold joinInstead. repeat reach. Qed.

Lemma Get_cases room s : TableOK (table s) ->
  GetFriendshipByRoomID room s = (Err ErrNoRows, s) \/ exists f, GetFriendshipByRoomID room s = (Ok f, s) /\ fRoomID f = room /\ validRow f.
Proof using.
  intros Hs. unfold GetFriendshipByRoomID, getTable, mbind, ST_bind. destruct (table s !! room) as [f|] eqn:E; [right|by left].
  exists f. split; [done|]. split; [by eapply tok_room|by eapply tok_valid].
Qed.

Lemma normal_outside ev s : TableOK (table s) ->
  outside (RoomID ev) (table s) (table (handleNormalMembership domainMng serverNames encMember displayName ev s).2).
Proof using.
  intros Hs. unfold handleNormalMembership. destruct (StateKey ev) as [k|]; [|done].
  unfold liftR, mbind, ST_bind at 1. destruct (membership ev) as [op|e| |]; [|done..]. unfold normalMembership.
  destruct (Get_cases (RoomID ev) s Hs) as [->|(f & -> & Hf & _)]; [by destruct (_ && _)|]. rewrite <- Hf.
  destruct (_ && _); [by apply inv_reinvite|]. by apply (inv_bind _ _ _ (inv_Trigger _ _ _ _ _ _ _ _)); [intros; reach|].
Qed.

Lemma otherRoom_same a b s : (otherRoom a b s).2 = s /\
  forall f, (otherRoom a b s).1 = Ok (Some f) -> exists r, table s !! r = Some f /\ FcID f = a /\ ToFcID f = b.
Proof using.
  unfold otherRoom, GetFriendshipByFcIDAndToFcID, getTable, mbind, ST_bind.
  destruct (List.find _ (range (table s))) as [[r f]|] eqn:E; cbn; (split; [done|]); intros f' [= <-].
  apply List.find_some in E as [Hin%list_elem_of_In%range_elem [E1%String.eqb_eq E2%String.eqb_eq]%andb_true_iff]. by exists r.
Qed.

(** What an event may do to the row of another room: nothing, unless it is an invite
    and the row is the friendship that its user began with its sender; that row is
    given up, or its second member has joined. *)
Definition touches (ev : Event) (f : RCSFriendship) (new : option RCSFriendship) : Prop :=
  Type_ ev = MRoomMember /\ membership ev = Ok "invite" /\ StateKey ev = Some (FcID f) /\ ToFcID f = Sender ev /\
  match new with
  | None => True
  | Some f' => FcID f' = FcID f /\ ToFcID f' = ToFcID f /\ FcIDState f' = FcIDState f /\ ToFcIDState f' = ST_JOIN
  end.

Definition pairOnly (ev : Event) (t t' : gmap string RCSFriendship) : Prop :=
  forall r, r <> RoomID ev -> t' !! r = t !! r \/ exists f, t !! r = Some f /\ touches ev f (t' !! r).

Lemma outside_pair ev t t' : outside (RoomID ev) t t' -> pairOnly ev t t'.
Proof using. intros Ho r Hr. left. by apply Ho. Qed.

Lemma bind_run {A B} (m : ST Server A) (f : A -> ST Server B) s : (m ≫= f) s =
  match m s with (Ok a, s1) => f a s1 | (Err e, s1) => (Err e, s1) | (Panic, s1) => (Panic, s1) | (Diverge, s1) => (Diverge, s1) end.
Proof using. done. Qed.

(** After the deletion of a row. *)
Lemma after_Delete {A} (g : unit -> ST Server A) I r0 s : invariant I (g ()) -> I (delete r0 (table s)) ->
  I (table ((DeleteFriendshipByRoomID r0 ≫= g) s).2).
Proof using. intros Hg Hi. exact (Hg (mkServer (delete r0 (table s)) (rcsIdg s) (rcsClock s)) Hi). Qed.

Lemma fed_pair ev s : TableOK (table s) -> Type_ ev = MRoomMember -> membership ev = Ok "invite" ->
  pairOnly ev (table s) (table (handleFedInvite domainMng serverNames encMember displayName ev s).2).
Proof using.
  intros Hs Ht Hm. unfold handleFedInvite. destruct (StateKey ev) as [k|] eqn:Ek; [|by left].
  erewrite ST_bind_Ok by done. cbv zeta. rewrite bind_run.
  destruct (otherRoom_same k (Sender ev) s) as [Es Hf2]. destruct (otherRoom k (Sender ev) s) as [[[f2|]|e| |] s1];
    cbn in Es; subst s1; cbn [fst snd]; try by left.
  2:{ by apply outside_pair, normal_outside. }
  destruct (Hf2 f2 eq_refl) as (r2 & Hr2 & Hfc & Hto). pose proof (tok_room _ Hs _ _ Hr2) as Hroom. subst r2.
  destruct (String.eqb_spec (fRoomID f2) (RoomID ev)) as [|Hne]; [by apply outside_pair, normal_outside|].
  destruct (str_ltb _ _).
  - intros r Hr. rewrite (after_Delete _ (outside (RoomID ev) (delete (fRoomID f2) (table s)))); [|repeat reach|done|exact Hr].
    destruct (decide (r = fRoomID f2)) as [->|Hr2']; [|left; by rewrite lookup_delete_ne].
    right. exists f2. rewrite lookup_delete_eq. split; [done|]. unfold touches. split_and!; first [done|congruence].
  - apply outside_pair. intros r Hr. rewrite (after_Delete _ (outside (RoomID ev) (delete (RoomID ev) (table s)))); [|repeat reach|done|exact Hr]. by rewrite lookup_delete_ne.
Qed.

Lemma local_pair ev s : TableOK (table s) -> Type_ ev = MRoomMember -> membership ev = Ok "invite" ->
  pairOnly ev (table s) (table (handleLocalInvite domainMng serverNames encMember displayName ev s).2).
Proof using.
  intros Hs Ht Hm. unfold handleLocalInvite. destruct (StateKey ev) as [k|] eqn:Ek; [|by left].
  erewrite ST_bind_Ok by done. cbv zeta. rewrite bind_run.
  assert (Hrest : pairOnly ev (table s) (table ((f1 ← GetFriendshipByRoomID (RoomID ev); evs ← joinInstead encMember ev f1;
      if (0 <? length (evs : list Event))%nat then mret evs
      else handleNormalMembership domainMng serverNames encMember displayName ev) s).2)).
  { apply outside_pair. rewrite bind_run. destruct (Get_cases (RoomID ev) s Hs) as [->|(f1 & -> & Hf1 & Hv)]; [done|].
    rewrite bind_run. assert (Hj := inv_joinInstead (table s) ev f1 s ltac:(done)). destruct (keeps_joinInstead ev f1 Hv s Hs) as [Hok _].
    rewrite Hf1 in Hj. destruct (joinInstead encMember ev f1 s) as [[evs|e| |] s1]; cbn [fst snd] in *; try done.
    destruct (_ <? _)%nat; [done|]. intros r Hr. rewrite (normal_outside ev s1 Hok r Hr). by apply Hj. }
  destruct (otherRoom_same k (Sender ev) s) as [Es Hf2]. destruct (otherRoom k (Sender ev) s) as [[[f2|]|e| |] s1];
    cbn in Es; subst s1; cbn [fst snd]; try by left.
  2:{ done. }
  destruct (Hf2 f2 eq_refl) as (r2 & Hr2 & Hfc & Hto). pose proof (tok_room _ Hs _ _ Hr2) as Hroom. subst r2.
  destruct (String.eqb_spec (fRoomID f2) (RoomID ev)) as [|Hne]; cbn [negb]; [done|]. clear Hrest.
  set (D := delete (RoomID ev) (table s)).
  set (I := fun t => t = D \/ exists g, t = <[fRoomID f2 := g]> D /\ FcID g = FcID f2 /\ ToFcID g = ToFcID f2 /\
                       FcIDState g = FcIDState f2 /\ ToFcIDState g = ST_JOIN).
  assert (HU : forall g, fRoomID g = fRoomID f2 -> FcID g = FcID f2 -> ToFcID g = ToFcID f2 -> FcIDState g = FcIDState f2 ->
                 ToFcIDState g = ST_JOIN -> invariant I (UpdateFriendshipByRoomID g)).
  { intros g Hg H2 H3 H4 H5 s1 Hs1. destruct (Update_tables g s1) as [->|[_ ->]]; [done|]. right. exists g. split; [|done].
    rewrite Hg. destruct Hs1 as [->|(g' & -> & _)]; [done|]. apply insert_insert_eq. }
  match goal with |- pairOnly _ _ ?t => assert (Hend : I t); [|generalize dependent t; intros t' Hend] end.
  { apply after_Delete; [|by left]. repeat first [apply HU; done | reach]. }
  destruct Hend as [->|(g & -> & H2 & H3 & H4 & H5)]; intros r Hr.
  - left. by apply lookup_delete_ne.
  - destruct (decide (r = fRoomID f2)) as [->|Hr2']; [|left; rewrite lookup_insert_ne by done; by apply lookup_delete_ne].
    right. exists f2. rewrite lookup_insert_eq. split; [done|]. unfold touches. split_and!; first [done|congruence].
Qed.

(** C31: an event changes the friendships of its own room and pair only.  Whatever
    event the RCS server handles, and whether it succeeds or not: afterwards every row
    is stored under its room, both members are in one of the four states and no two
    rooms have the same friendship identifier; a room other than that of the event is
    neither created nor changed, unless the event is an invite and the room is the one
    that the invited user began with the sender: that room is either given up, or
    keeps its members and the state of its creator while the sender has joined it. *)
Theorem only_the_pair_changes (ev : Event) (s : Server) (Hs : TableOK (table s)) :
  let t' := table (handleEvent domainMng serverNames encMember displayName ev s).2 in
  TableOK t' /\ pairOnly ev (table s) t'.
Proof using.
  split; [by apply handleEvent_OK|]. unfold handleEvent.
  assert (Hp : pairOnly ev (table s) (table (if String.eqb (Type_ ev) MRoomCreate then HandleCreate ev s
           else if String.eqb (Type_ ev) MRoomMember
           then HandleMembership domainMng serverNames encMember displayName ev s else (Ok [ev], s)).2)).
  { destruct (String.eqb (Type_ ev) MRoomCreate).
    { apply outside_pair. assert (Hi : invariant (outside (RoomID ev) (table s)) (HandleCreate ev)) by (unfold HandleCreate; repeat reach).
      by apply Hi. }
    destruct (String.eqb_spec (Type_ ev) MRoomMember) as [Ht|]; [|by left]. unfold HandleMembership. rewrite bind_run. unfold liftR.
    destruct (membership ev) as [m|e| |] eqn:Em; try by left.
    destruct (String.eqb_spec m "invite") as [->|]; [|by apply outside_pair, normal_outside].
    unfold handleInvite. destruct (bool_decide _); [by left|]. destruct (localServer _ _ _); [by apply local_pair|by apply fed_pair]. }
  revert Hp. by destruct (if String.eqb (Type_ ev) MRoomCreate then _ else _) as [[]].
Qed.

(** ** Two rooms for one pair *)

(** The row the query finds: a row of [t] from [fc] to [to]. *)
Definition onlyRow (t : gmap string RCSFriendship) (fc to room : string) (f : RCSFriendship) : Prop :=
  t !! room = Some f /\ FcID f = fc /\ ToFcID f = to /\
  forall r g, t !! r = Some g -> FcID g = fc -> ToFcID g = to -> r = room.

Lemma otherRoom_finds s fc to room f :
  onlyRow (table s) fc to room f -> otherRoom fc to s = (Ok (Some f), s).
Proof using.
  intros (Hf & Hfc & Hto & Honly). unfold otherRoom, GetFriendshipByFcIDAndToFcID, getTable, mbind, ST_bind.
  destruct (List.find _ (range (table s))) as [[r g]|] eqn:E.
  - apply List.find_some in E as [Hin%list_elem_of_In%range_elem [E1%String.eqb_eq E2%String.eqb_eq]%andb_true_iff].
    simpl in *. assert (r = room) as -> by eauto. assert (g = f) as -> by congruence. done.
  - apply (List.find_none _ _) with (x := (room, f)) in E; [|by apply list_elem_of_In, range_elem].
    simpl in E. by rewrite Hfc, Hto, !String.eqb_refl in E.
Qed.

Lemma table_bind {A B} (m : ST Server A) (g : A -> ST Server B) s :
  (forall a s1, table (g a s1).2 = table s1) -> table ((m ≫= g) s).2 = table (m s).2.
Proof using. intros Hg. unfold mbind, ST_bind. destruct (m s) as [[a|e| |] s1]; simpl; auto. Qed.

(** A federated invite for [room1] meets the local room [room2]. *)
Lemma fedInvite_keeps_smaller ev s k f2 room2 r :
  TableOK (table s) -> StateKey ev = Some k -> onlyRow (table s) k (Sender ev) room2 f2 ->
  is_Some (table s !! RoomID ev) -> RoomID ev <> room2 -> remark displayName k ev = Ok r ->
  (forall r g, table s !! r = Some g -> ID g = Ids.getID (Sender ev) k -> r = room2) ->
  let t' := table (handleFedInvite domainMng serverNames encMember displayName ev s).2 in
  if str_ltb (RoomID ev) room2
  then (exists f', t' !! RoomID ev = Some f' /\ FcID f' = Sender ev /\ ToFcID f' = k /\ ToFcIDState f' = ST_JOIN) /\ t' !! room2 = None
  else t' !! room2 = Some f2 /\ t' !! RoomID ev = None.
Proof using.
  intros Hs Hk Hrow [f1 Hf1] Hne Hr Hpair. cbv zeta.
  pose proof (tok_room _ Hs _ _ (proj1 Hrow)) as Hroom. unfold handleFedInvite.
  erewrite ST_bind_Ok by (unfold liftR; by rewrite Hk).
  erewrite ST_bind_Ok by (by eapply otherRoom_finds). cbv beta iota zeta. rewrite Hroom.
  rewrite (proj2 (String.eqb_neq room2 (RoomID ev))) by done.
  destruct (str_ltb (RoomID ev) room2).
  - erewrite ST_bind_Ok by done. cbn [table].
    set (s1 := mkServer _ _ _).
    assert (Hf1' : table s1 !! RoomID ev = Some f1) by (subst s1; simpl; by rewrite lookup_delete_ne).
    erewrite ST_bind_Ok by (by apply Get_row).
    erewrite ST_bind_Ok by (unfold liftR; by rewrite Hr).
    match goal with |- context [UpdateFriendshipByRoomID ?g] => set (row := g) end.
    destruct (Update_row row s1 f1) as (s2 & E2 & HR2 & HO2).
    { exact Hf1'. }
    { apply idTaken_false. intros r' g Hg Hid. subst s1. simpl in Hg. apply lookup_delete_Some in Hg as [Hn Hg].
      exfalso. apply Hn. symmetry. by eapply Hpair. }
    erewrite ST_bind_Ok by exact E2.
    rewrite table_bind by (intros; rewrite table_bind by done; apply buildEvent_table).
    rewrite buildEvent_table. simpl in HR2, HO2. rewrite HR2, HO2 by congruence. split; [by eexists|].
    subst s1. simpl. apply lookup_delete_eq.
  - erewrite ST_bind_Ok by done. rewrite table_bind by done. rewrite buildEvent_table. simpl.
    rewrite lookup_delete_eq, lookup_delete_ne by done. split; [apply Hrow|done].
Qed.

(** The invite of another server is handled there. *)
Lemma handle_fed_invite ev s k : Type_ ev = MRoomMember -> membership ev = Ok "invite" -> StateKey ev = Some k ->
  localServer domainMng serverNames (Ids.domainOrEmpty (Sender ev)) = false ->
  table (handleEvent domainMng serverNames encMember displayName ev s).2 =
  table (handleFedInvite domainMng serverNames encMember displayName ev s).2.
Proof using.
  intros Ht Hm Hk Hl. unfold handleEvent, HandleMembership, handleInvite. rewrite Ht, Hm, Hk, Hl.
  change (String.eqb MRoomMember MRoomCreate) with false. change (String.eqb MRoomMember MRoomMember) with true. cbv beta iota zeta.
  rewrite bind_run. unfold liftR. change (String.eqb "invite" "invite") with true. rewrite bool_decide_false by done.
  by destruct (handleFedInvite domainMng serverNames encMember displayName ev s) as [[]].
Qed.

End Facts.

(** ** Convergence of two servers *)

Section Glare.
  Context `{GoRange} `{Codec} (domainMng : option (Ids.DomainMng * Ids.DomainSrc)).
  Context (encMember : string -> res string) (displayName : string -> string) `{GoFSM}.

(** C30: two servers agree on the room to keep, the one with the smaller identifier.
    alice on server A has created a room for bob, bob on server B has created one for
    alice, each server knows the other's room and gets the other's invite.  After
    handling it both servers have the friendship of the room with the smaller
    identifier, with its creator first and the invited user second, the invited user
    has joined it on their own server, and neither has the other room. *)
Theorem glare_converges (namesA namesB : list string) (evA evB : Event) (a b rA rB : string)
  (sA sB : Server) (fA fB : RCSFriendship)
  (HA : TableOK (table sA)) (HB : TableOK (table sB))
  (HinvA : Type_ evA = MRoomMember /\ membership evA = Ok "invite" /\ Sender evA = a /\ StateKey evA = Some b)
  (HinvB : Type_ evB = MRoomMember /\ membership evB = Ok "invite" /\ Sender evB = b /\ StateKey evB = Some a)
  (HfarA : localServer domainMng namesA (Ids.domainOrEmpty b) = false)
  (HfarB : localServer domainMng namesB (Ids.domainOrEmpty a) = false)
  (Hne : RoomID evA <> RoomID evB)
  (HrowA : onlyRow (table sA) a b (RoomID evA) fA) (HrowB : onlyRow (table sB) b a (RoomID evB) fB)
  (HknowA : is_Some (table sA !! RoomID evB)) (HknowB : is_Some (table sB !! RoomID evA))
  (HrA : remark displayName a evB = Ok rA) (HrB : remark displayName b evA = Ok rB)
  (HpA : forall r g, table sA !! r = Some g -> ID g = Ids.getID b a -> r = RoomID evA)
  (HpB : forall r g, table sB !! r = Some g -> ID g = Ids.getID a b -> r = RoomID evB) :
  let tA := table (handleEvent domainMng namesA encMember displayName evB sA).2 in
  let tB := table (handleEvent domainMng namesB encMember displayName evA sB).2 in
  if str_ltb (RoomID evA) (RoomID evB)
  then tA !! RoomID evB = None /\ tB !! RoomID evB = None /\ tA !! RoomID evA = Some fA /\
       exists g, tB !! RoomID evA = Some g /\ FcID g = a /\ ToFcID g = b /\ ToFcIDState g = ST_JOIN
  else tA !! RoomID evA = None /\ tB !! RoomID evA = None /\ tB !! RoomID evB = Some fB /\
       exists g, tA !! RoomID evB = Some g /\ FcID g = b /\ ToFcID g = a /\ ToFcIDState g = ST_JOIN.
Proof using.
  destruct HinvA as (TA & MA & SA & KA), HinvB as (TB & MB & SB & KB). cbv zeta. subst a b.
  erewrite !handle_fed_invite by eauto.
  pose proof (fedInvite_keeps_smaller domainMng namesA encMember displayName evB sA (Sender evA) fA (RoomID evA) rA) as PA.
  pose proof (fedInvite_keeps_smaller domainMng namesB encMember displayName evA sB (Sender evB) fB (RoomID evB) rB) as PB.
  cbv zeta in PA, PB. specialize (PA HA KB HrowA HknowA ltac:(done) HrA HpA). specialize (PB HB KA HrowB HknowB Hne HrB HpB).
  destruct (str_ltb (RoomID evA) (RoomID evB)) eqn:E.
  - rewrite (Ids.str_ltb_asym _ _ E) in PA. tauto.
  - destruct (str_ltb (RoomID evB) (RoomID evA)) eqn:E2; [tauto|]. exfalso. by apply Hne, Ids.str_ltb_total.
Qed.

End Glare.

(** ** Witnesses *)

(** A state machine library. *)
#[export] Instance simpleFSM : GoFSM.
Proof.
  refine {| Trigger ts h st op :=
    match findTransition ts st op with
    | Some t => h (TAction t) st (To t)
    | None => fail (ErrMsg "state machine error")
    end |}.
  - by intros ts h st op t -> s.
  - intros ts h st op -> s. by eexists.
Defined.

#[local] Instance demoCodec : Codec := toyCodec (fun _ => None).

Definition mrow (id room fc to fst tst : string) : RCSFriendship :=
  mkFriendship id room fc to fst tst false false "" "" false false "" "" "".

Definition mem (room sender key m : string) : Event :=
  mkEvent room "$1:a" 1 0 sender MRoomMember (Some key) m "" 3 "" 0 "a" "".

Definition gen0 : Snowflake.UidGenerator := Snowflake.mkGen 0 1023 0 0 0.

Definition srv (rows : list RCSFriendship) : Server :=
  mkServer (list_to_map (map (fun f => (fRoomID f, f)) rows)) gen0
    [1600000000000000000%Z; 1600000000001000000%Z; 1600000000002000000%Z].

(** alice and bob: alice joined, bob invited. *)
Definition oneRow : Server := srv [mrow "@alice:a@bob:b" "!1:a" "@alice:a" "@bob:b" "join" "invite"].

Lemma singleton_TableOK f : validRow f -> TableOK {[ fRoomID f := f ]}.
Proof.
  intros Hf. split.
  - intros r g [<- <-]%lookup_singleton_Some. done.
  - intros r g [<- <-]%lookup_singleton_Some. done.
  - intros r1 r2 f1 f2 [<- _]%lookup_singleton_Some [<- _]%lookup_singleton_Some. done.
Qed.

Lemma oneRow_OK : TableOK (table oneRow).
Proof. apply (singleton_TableOK (mrow "@alice:a@bob:b" "!1:a" "@alice:a" "@bob:b" "join" "invite")).
  split; apply validState_consts. Qed.

Lemma oneRow_lookup r g : table oneRow !! r = Some g -> r = "!1:a".
Proof. unfold oneRow, srv. simpl. intros [[<- _]|[_ E]]%lookup_insert_Some; [done|]. by rewrite lookup_empty in E. Qed.

Lemma two_rows f1 f2 r g :
  table (srv [f1; f2]) !! r = Some g -> (r = fRoomID f1 /\ g = f1) \/ (r = fRoomID f2 /\ g = f2).
Proof.
  simpl. intros [[<- <-]|[_ [[<- <-]|[_ E]]%lookup_insert_Some]]%lookup_insert_Some; auto.
  by rewrite lookup_empty in E.
Qed.

Lemma two_rows_OK f1 f2 :
  validRow f1 -> validRow f2 -> fRoomID f1 <> fRoomID f2 -> ID f1 <> ID f2 -> TableOK (table (srv [f1; f2])).
Proof.
  intros V1 V2 Hr Hi. apply TableOK_insert; [by apply singleton_TableOK|done|].
  apply idTaken_false. intros r g [<- <-]%lookup_singleton_Some E. by destruct Hi.
Qed.

Lemma only_the_pair_changes_witness :
  let ev := mem "!1:a" "@bob:b" "@bob:b" "join" in
  let t' := table (handleEvent None ["a"] Ok (fun _ => "") ev oneRow).2 in
  TableOK t' /\ pairOnly ev (table oneRow) t'.
Proof. exact (only_the_pair_changes None ["a"] Ok (fun _ => "") _ oneRow oneRow_OK). Defined.

Lemma membership_follows_machine_witness :
  exists s' f',
    handleNormalMembership None ["a"] Ok (fun _ => "") (mem "!1:a" "@bob:b" "@bob:b" "join") oneRow =
      (Ok [mem "!1:a" "@bob:b" "@bob:b" "join"], s') /\
    rowChanged oneRow s' "!1:a" f' /\ memberState f' "@bob:b" = "join" /\ otherState f' "@bob:b" = "join".
Proof.
  refine (membership_follows_machine None ["a"] Ok (fun _ => "") (mem "!1:a" "@bob:b" "@bob:b" "join") oneRow
    (mrow "@alice:a@bob:b" "!1:a" "@alice:a" "@bob:b" "join" "invite") "@bob:b" "join" "bob"
    oneRow_OK eq_refl eq_refl eq_refl eq_refl eq_refl _).
  intros r g Hg%oneRow_lookup _. exact Hg.
Defined.

(** alice (server a) and bob (server b) have each created a room. *)
Definition ownA := mrow "@alice:a@bob:b" "!1:a" "@alice:a" "@bob:b" "join" "invite".
Definition ownB := mrow "@alice:a@bob:b" "!2:b" "@bob:b" "@alice:a" "join" "invite".
Definition seenA := mrow "$1:a" "!1:a" "@alice:a" "" "join" "init".
Definition seenB := mrow "$2:b" "!2:b" "@bob:b" "" "join" "init".

Lemma glare_converges_witness :
  let tA := table (handleEvent None ["a"] Ok (fun _ => "") (mem "!2:b" "@bob:b" "@alice:a" "invite") (srv [ownA; seenB])).2 in
  let tB := table (handleEvent None ["b"] Ok (fun _ => "") (mem "!1:a" "@alice:a" "@bob:b" "invite") (srv [ownB; seenA])).2 in
  tA !! "!2:b" = None /\ tB !! "!2:b" = None /\ tA !! "!1:a" = Some ownA /\
  exists g, tB !! "!1:a" = Some g /\ FcID g = "@alice:a" /\ ToFcID g = "@bob:b" /\ ToFcIDState g = ST_JOIN.
Proof.
  apply (glare_converges None Ok (fun _ => "") ["a"] ["b"]
    (mem "!1:a" "@alice:a" "@bob:b" "invite") (mem "!2:b" "@bob:b" "@alice:a" "invite")
    "@alice:a" "@bob:b" "alice" "bob" (srv [ownA; seenB]) (srv [ownB; seenA]) ownA ownB);
    try (apply two_rows_OK; [split; apply validState_consts|split; apply validState_consts|done|done]);
    try reflexivity; try (by eexists); try done;
    repeat split; try reflexivity;
    intros r g [[-> ->]|[-> ->]]%two_rows; done.
Defined.

End RcsFacts.
