(* ===== verification/PushRules.v ===== *)
(** * Push rules

    [src/pushapi/routing/baserules.go], [src/pushapi/routing/push_rules.go] (the
    functions that put the rules of a user together) and the types of
    [src/model/pushapitypes/types.go]: the default rules, the user's own rules
    from the cache, their ranking by class and priority, and the conversion of
    their conditions.

    An action is an [interface{}]: a string, a [Tweak] (in the default rules) or a
    value decoded from JSON, in which an object is a map and not a [Tweak].  The
    cache and the JSON decoders are the class [PushCache]; a decoding that fails
    leaves what it decodes into as it was. *)

From Stdlib Require Import String Ascii ZArith List Permutation Sorted.
From stdpp Require Import base tactics list gmap strings.
From S2P Require Import Prelude Ids.

#[local] Open Scope string_scope.
#[local] Open Scope Z_scope.

Module PushRules.

(** ** Types *)

Inductive Value := VNil | VString (s : string) | VBool (b : bool) | VOther.

Record Tweak := mkTweak { SetTweak : string; TValue : Value }.

Inductive Action :=
  | AString (s : string)
  | ATweak (t : Tweak)
  | AObject (fields : gmap string Value).  (** a JSON object *)

Record PushCondition := mkCond { Kind : string; Key : string; Pattern : string; Is : string }.

Record PushRule := mkRule {
  Actions : list Action;
  Default : bool;
  Enabled : bool;
  RuleId : string;
  Conditions : list PushCondition;
  rPattern : string;
}.

Record PushRuleCacheData := mkRuleData {
  dUserName : string;
  dRuleId : string;
  PriorityClass : Z;
  Priority : Z;
  dConditions : string;
  dActions : string;
}.

Record Rules := mkRules {
  Content : list PushRule;
  Override : list PushRule;
  Room : list PushRule;
  SenderRules : list PushRule;
  UnderRide : list PushRule;
}.

(** [PriorityMap] and [RevPriorityMap]; a missing class gives the zero value. *)
Definition RevPriorityMap (c : Z) : string :=
  if c =? 1 then "underride" else if c =? 2 then "sender" else if c =? 3 then "room"
  else if c =? 4 then "content" else if c =? 5 then "override" else "".

Definition PriorityMapLen : Z := 5.

(** [PushRuleCacheDataArray.Less]. *)
Definition Less (a b : PushRuleCacheData) : bool :=
  if PriorityClass b <? PriorityClass a then true
  else if PriorityClass a <? PriorityClass b then false
  else Priority b <? Priority a.

(** ** The default rules *)

Definition sound (s : string) : Action := ATweak (mkTweak "sound" (VString s)).
Definition highlight (v : Value) : Action := ATweak (mkTweak "highlight" v).

Definition GetAction : list Action := [AString "dont_notify"].
Definition GetAction1 : list Action := [AString "notify"; sound "default"; highlight (VBool false)].
Definition GetAction2 : list Action := [AString "notify"; sound "default"; highlight VNil].
Definition GetAction4 : list Action := [AString "notify"; sound "ring"; highlight (VBool false)].
Definition GetAction5 : list Action := [AString "notify"; highlight (VBool false)].
Definition GetAction6 : list Action := [AString "notify"; sound "default"].

Definition eventMatchCond (key pattern : string) : PushCondition := mkCond "event_match" key pattern "".

Definition baseRule (enabled : bool) (id : string) (conds : list PushCondition) (actions : list Action) : PushRule :=
  mkRule actions true enabled id conds "".

Definition BasePreOverrideRules : list PushRule :=
  [baseRule false "global/override/.m.rule.master" [] GetAction].

Definition BaseOverrideRules : list PushRule :=
  [ baseRule true "global/override/.m.rule.suppress_notices"
      [eventMatchCond "content.msgtype" "m.notice"] GetAction;
    baseRule true "global/override/.m.rule.invite_for_me"
      [eventMatchCond "type" "m.room.member"; eventMatchCond "content.membership" "invite";
       eventMatchCond "state_key" "user_id"] GetAction1;
    baseRule true "global/override/.m.rule.member_event"
      [eventMatchCond "type" "m.room.member"] GetAction;
    baseRule true "global/override/.m.rule.signals"
      [eventMatchCond "content.msgtype" "m.alert"; mkCond "signal" "" "" ""] GetAction2;
    baseRule false "global/override/.m.rule.contains_display_name"
      [mkCond "contains_display_name" "" "" ""] GetAction2 ].

Definition BaseContentRules : list PushRule :=
  [ baseRule false "global/content/.m.rule.contains_user_name"
      [eventMatchCond "content.body" "user_localpart"] GetAction2 ].

Definition BaseUnderRideRules : list PushRule :=
  [ baseRule true "global/underride/.m.rule.call" [eventMatchCond "type" "m.call.invite"] GetAction4;
    baseRule true "global/underride/.m.rule.room_one_to_one" [mkCond "room_member_count" "" "" "2"] GetAction1;
    baseRule true "global/underride/.m.rule.message" [eventMatchCond "type" "m.room.message"] GetAction6;
    baseRule true "global/underride/.m.rule.encrypted" [eventMatchCond "type" "m.room.encrypted"] GetAction5;
    baseRule true "global/underride/.m.rule.video"
      [eventMatchCond "type" "m.modular.video"; eventMatchCond "content.data.isCreate" "true"] GetAction5 ].

Definition BaseRuleIds (id : string) : option string :=
  if existsb (String.eqb id)
       ["global/override/.m.rule.master"; "global/override/.m.rule.suppress_notices";
        "global/override/.m.rule.invite_for_me"; "global/override/.m.rule.member_event";
        "global/override/.m.rule.signals"; "global/override/.m.rule.contains_display_name"] then Some "override"
  else if String.eqb id "global/content/.m.rule.contains_user_name" then Some "content"
  else if existsb (String.eqb id)
       ["global/underride/.m.rule.call"; "global/underride/.m.rule.room_one_to_one";
        "global/underride/.m.rule.message"; "global/underride/.m.rule.video";
        "global/underride/.m.rule.encrypted"] then Some "underride"
  else None.

Definition emptyRule : PushRule := mkRule [] false false "" [] "".

(** [GetBasePushRule]: the last rule with the identifier, or the zero rule. *)
Definition GetBasePushRule (ruleID : string) : PushRule :=
  let pick rules := fold_left (fun acc v => if String.eqb (RuleId v) ruleID then v else acc) rules emptyRule in
  match BaseRuleIds ruleID with
  | None => emptyRule
  | Some c =>
      if String.eqb c "override" then
        if String.eqb ruleID "global/override/.m.rule.master" then pick BasePreOverrideRules
        else pick BaseOverrideRules
      else if String.eqb c "content" then pick BaseContentRules
      else if String.eqb c "underride" then pick BaseUnderRideRules
      else emptyRule
  end.

(** ** Rule identifiers *)

(** [strings.Split(ruleID, "/")]. *)
Fixpoint splitSlash (acc s : string) : list string :=
  match s with
  | EmptyString => [acc]
  | String c s' => if Ascii.eqb c "/" then acc :: splitSlash "" s' else splitSlash (acc ++ String c "") s'
  end.

Definition GetOriginalRuleId (ruleID : string) : string := List.last (splitSlash "" ruleID) "".

(** [s[len(s)-2]] panics without a slash. *)
Definition GetKindFromRuleId (ruleID : string) : res string :=
  match rev (splitSlash "" ruleID) with
  | _ :: k :: _ => Ok k
  | _ => Panic
  end.

(** ** Putting the rules of a user together *)

Class PushCache := {
  GetUserPushRuleIds : string -> list string;
  GetPushRuleCacheData : string -> option PushRuleCacheData;
  GetPushRuleEnabled : string -> string -> option string;
  decActions : string -> option (list Action);
  decConditions : string -> option (list PushCondition);
}.

Section Rules.
  Context `{PushCache}.

Definition GetRuleEnabled (userName ruleID : string) : bool :=
  match GetPushRuleEnabled userName ruleID with
  | Some v => String.eqb v "1"
  | None =>
      if negb (String.prefix "." (GetOriginalRuleId ruleID)) then true
      else
        let baseRule := GetBasePushRule ruleID in
        if String.eqb (RuleId baseRule) ruleID then Enabled baseRule else false
  end.

(** [ConvertPushRule]; its error is ignored by the caller. *)
Definition ConvertPushRule (data : PushRuleCacheData) (defaultRule : bool) : PushRule :=
  let r actions conds := mkRule actions defaultRule false (dRuleId data) conds "" in
  match decActions (dActions data) with
  | None => r [] []
  | Some actions =>
      if defaultRule then r actions []
      else match decConditions (dConditions data) with
           | None => r actions []
           | Some conds => r actions conds
           end
  end.

(** The user's changes of the actions of default rules. *)
Definition withModified (modified : gmap string PushRuleCacheData) (rules : list PushRule) : list PushRule :=
  map (fun rule =>
    match modified !! RuleId rule with
    | Some data =>
        match decActions (dActions data) with
        | Some actions => mkRule actions (Default rule) (Enabled rule) (RuleId rule) (Conditions rule) (rPattern rule)
        | None => rule
        end
    | None => rule
    end) rules.

Definition MakeBaseAppendRule (kind : string) (modified : gmap string PushRuleCacheData) : list PushRule :=
  withModified modified
    (if String.eqb kind "underride" then BaseUnderRideRules
     else if String.eqb kind "content" then BaseContentRules
     else if String.eqb kind "override" then BaseOverrideRules
     else []).

Definition MakeBasePreAppendRule (kind : string) (modified : gmap string PushRuleCacheData) : list PushRule :=
  withModified modified (if String.eqb kind "override" then BasePreOverrideRules else []).

Definition AddRules (kind : string) (rule : PushRule) (rules : Rules) : Rules :=
  let '(mkRules c o r s u) := rules in
  if String.eqb kind "underride" then mkRules c o r s (u ++ [rule])
  else if String.eqb kind "sender" then mkRules c o r (s ++ [rule]) u
  else if String.eqb kind "room" then mkRules c o (r ++ [rule]) s u
  else if String.eqb kind "content" then mkRules (c ++ [rule]) o r s u
  else if String.eqb kind "override" then mkRules c (o ++ [rule]) r s u
  else rules.

Definition addAll (kind : string) (l : list PushRule) (g : Rules) : Rules :=
  fold_left (fun g v => AddRules kind v g) l g.

(** [n] turns of the loops that append the default rules of the current class
    and go on to the next lower one. *)
Fixpoint appendBases (n : nat) (modified : gmap string PushRuleCacheData) (currentClass : Z) (global : Rules) : Rules :=
  match n with
  | O => global
  | S n' =>
      let kind := RevPriorityMap currentClass in
      appendBases n' modified (currentClass - 1) (addAll kind (MakeBaseAppendRule kind modified) global)
  end.

(** The loop over the user's rules; [for v.PriorityClass < currentClass] takes
    the difference of the two as turns. *)
Fixpoint rankRules (rules : list PushRuleCacheData) (modified : gmap string PushRuleCacheData)
    (currentClass : Z) (global : Rules) : Z * Rules :=
  match rules with
  | [] => (currentClass, global)
  | v :: rest =>
      let turns := Z.to_nat (currentClass - PriorityClass v) in
      let global1 := appendBases turns modified currentClass global in
      let currentClass1 := currentClass - Z.of_nat turns in
      rankRules rest modified currentClass1
        (AddRules (RevPriorityMap (PriorityClass v)) (ConvertPushRule v false) global1)
  end.

(** [ConvertConditions] on one pattern. *)
Definition convertPattern (userID : string) (c : PushCondition) : res PushCondition :=
  if String.eqb (Pattern c) "user_id" then Ok (mkCond (Kind c) (Key c) userID (Is c))
  else if String.eqb (Pattern c) "user_localpart" then
    match Ids.SplitID "@" userID with
    | Ok (l, _) => Ok (mkCond (Kind c) (Key c) l (Is c))
    | Err _ => Ok (mkCond (Kind c) (Key c) "" (Is c))
    | Panic => Panic
    | Diverge => Diverge
    end
  else Ok c.

Fixpoint convertPatterns (userID : string) (cs : list PushCondition) : res (list PushCondition) :=
  match cs with
  | [] => Ok []
  | c :: rest => c1 ← convertPattern userID c; rest1 ← convertPatterns userID rest; Ok (c1 :: rest1)
  end.

(** For a request the conditions of content, sender and room rules are cleared
    in the first turn of the loop, which ends it. *)
Definition ConvertConditions (userID kind : string) (rule : PushRule) (forRequest : bool) : res PushRule :=
  match Conditions rule with
  | [] => Ok rule
  | c :: rest =>
      let upd conds pat := mkRule (Actions rule) (Default rule) (Enabled rule) (RuleId rule) conds pat in
      c1 ← convertPattern userID c;
      let pat := if String.eqb kind "content" then Pattern c1 else rPattern rule in
      if (forRequest : bool) && (String.eqb kind "content" || String.eqb kind "sender" || String.eqb kind "room")
      then Ok (upd [] pat)
      else
        rest1 ← convertPatterns userID rest;
        Ok (upd (c1 :: rest1) pat)
  end.

Definition formatRule (userID : string) (forRequest : bool) (rule : PushRule) : res PushRule :=
  let rule1 := mkRule (Actions rule) (Default rule) (GetRuleEnabled userID (RuleId rule)) (RuleId rule) (Conditions rule) (rPattern rule) in
  kind ← GetKindFromRuleId (RuleId rule1);
  rule2 ← ConvertConditions userID kind rule1 forRequest;
  Ok (mkRule (Actions rule2) (Default rule2) (Enabled rule2) (GetOriginalRuleId (RuleId rule2)) (Conditions rule2) (rPattern rule2)).

Fixpoint formatList (userID : string) (forRequest : bool) (l : list PushRule) : res (list PushRule) :=
  match l with
  | [] => Ok []
  | r :: rest => r1 ← formatRule userID forRequest r; rest1 ← formatList userID forRequest rest; Ok (r1 :: rest1)
  end.

Definition FormatRules (userID : string) (global : Rules) (forRequest : bool) : res Rules :=
  u ← formatList userID forRequest (UnderRide global);
  c ← formatList userID forRequest (Content global);
  o ← formatList userID forRequest (Override global);
  r ← formatList userID forRequest (Room global);
  s ← formatList userID forRequest (SenderRules global);
  Ok (mkRules c o r s u).

(** The rules of the user in the cache: changed default rules (class -1) and
    rules of the user's own. *)
Fixpoint splitRules (ruleIDs : list string) (bases : gmap string PushRuleCacheData) (rules : list PushRuleCacheData)
  : gmap string PushRuleCacheData * list PushRuleCacheData :=
  match ruleIDs with
  | [] => (bases, rules)
  | rid :: rest =>
      match GetPushRuleCacheData rid with
      | Some rule =>
          if PriorityClass rule =? -1 then splitRules rest (<[rid := rule]> bases) rules
          else splitRules rest bases (rules ++ [rule])
      | None => splitRules rest bases rules
      end
  end.

Definition rankAll (bases : gmap string PushRuleCacheData) (rules : list PushRuleCacheData) : Rules :=
  let currentClass := PriorityMapLen in
  let kind := RevPriorityMap currentClass in
  let global := addAll kind (MakeBasePreAppendRule kind bases) (mkRules [] [] [] [] []) in
  let '(currentClass1, global1) := rankRules (gosort (fun a b => negb (Less b a)) rules) bases currentClass global in
  appendBases (Z.to_nat currentClass1) bases currentClass1 global1.

Definition GetUserPushRules (userID : string) (forRequest : bool) : res Rules :=
  let '(bases, rules) := splitRules (GetUserPushRuleIds userID) ∅ [] in
  FormatRules userID (rankAll bases rules) forRequest.

(** ** The ranking *)

Definition rulesOf (g : Rules) (c : Z) : list PushRule :=
  if c =? 1 then UnderRide g else if c =? 2 then SenderRules g else if c =? 3 then Room g
  else if c =? 4 then Content g else if c =? 5 then Override g else [].

Definition validClass (c : Z) : Prop := 1 <= c <= 5.

Lemma rulesOf_Add g c d r : validClass c -> validClass d ->
  rulesOf (AddRules (RevPriorityMap d) r g) c = (rulesOf g c ++ (if c =? d then [r] else []))%list.
Proof using.
  intros Hc Hd. destruct g. unfold validClass in *.
  assert (c = 1 \/ c = 2 \/ c = 3 \/ c = 4 \/ c = 5) as [->|[->|[->|[->| ->]]]] by lia;
  assert (d = 1 \/ d = 2 \/ d = 3 \/ d = 4 \/ d = 5) as [->|[->|[->|[->| ->]]]] by lia; cbn; by rewrite ?app_nil_r.
Qed.

Lemma rulesOf_addAll c d l : validClass c -> validClass d -> forall g,
  rulesOf (addAll (RevPriorityMap d) l g) c = (rulesOf g c ++ (if c =? d then l else []))%list.
Proof using.
  intros Hc Hd. induction l as [|r l IH]; intros g; cbn [addAll fold_left].
  { destruct (c =? d); by rewrite app_nil_r. }
  change (fold_left _ l ?g') with (addAll (RevPriorityMap d) l g').
  rewrite IH, rulesOf_Add by done. destruct (c =? d); by rewrite <- ?app_assoc.
Qed.

(** The default rules of a class, as they are appended. *)
Definition baseOf (modified : gmap string PushRuleCacheData) (c : Z) : list PushRule :=
  MakeBaseAppendRule (RevPriorityMap c) modified.

Lemma rulesOf_appendBases n modified c : validClass c -> forall cur g, Z.of_nat n <= cur <= 5 ->
  rulesOf (appendBases n modified cur g) c =
  (rulesOf g c ++ (if (cur - Z.of_nat n <? c) && (c <=? cur) then baseOf modified c else []))%list.
Proof using.
  intros Hc. induction n as [|n IH]; intros cur g Hcur; cbn [appendBases].
  { destruct (Z.ltb_spec (cur - Z.of_nat 0) c), (Z.leb_spec c cur); simpl; try lia; by rewrite app_nil_r. }
  rewrite IH by lia. rewrite rulesOf_addAll by (unfold validClass in *; lia). rewrite <- app_assoc. f_equal.
  fold (baseOf modified cur).
  destruct (Z.eqb_spec c cur), (Z.ltb_spec (cur - 1 - Z.of_nat n) c), (Z.leb_spec c (cur - 1)),
    (Z.ltb_spec (cur - Z.of_nat (S n)) c), (Z.leb_spec c cur); subst; simpl; try lia; by rewrite ?app_nil_r.
Qed.

(** The user's rules of one class, converted. *)
Definition ownOf (rules : list PushRuleCacheData) (c : Z) : list PushRule :=
  map (fun v => ConvertPushRule v false) (filter (fun v => PriorityClass v = c) rules).

Lemma rankRules_spec modified c rules : validClass c ->
  StronglySorted (fun a b => PriorityClass b <= PriorityClass a) rules ->
  Forall (fun v => validClass (PriorityClass v)) rules -> forall cur g, 0 <= cur <= 5 ->
  Forall (fun v => PriorityClass v <= cur) rules ->
  let '(cur1, g1) := rankRules rules modified cur g in
  rulesOf (appendBases (Z.to_nat cur1) modified cur1 g1) c =
  (rulesOf g c ++ ownOf rules c ++ (if c <=? cur then baseOf modified c else []))%list.
Proof using.
  intros Hc. unfold ownOf. induction 1 as [|v rest HS IH Hle]; intros HV cur g Hcur HF; cbn [rankRules].
  { rewrite rulesOf_appendBases by (done || lia). simpl. f_equal.
    destruct (Z.ltb_spec (cur - Z.of_nat (Z.to_nat cur)) c), (Z.leb_spec c cur); simpl; try done; unfold validClass in *; lia. }
  apply Forall_cons in HV as [Hv HV]. apply Forall_cons in HF as [Hvc HF].
  assert (Ecur : cur - Z.of_nat (Z.to_nat (cur - PriorityClass v)) = PriorityClass v) by lia. rewrite Ecur.
  specialize (IH HV (PriorityClass v)
    (AddRules (RevPriorityMap (PriorityClass v)) (ConvertPushRule v false)
      (appendBases (Z.to_nat (cur - PriorityClass v)) modified cur g)) ltac:(unfold validClass in *; lia) Hle).
  destruct (rankRules rest modified (PriorityClass v) _) as [cur1 g1]. rewrite IH.
  rewrite rulesOf_Add, rulesOf_appendBases by (done || (unfold validClass in *; lia)). rewrite Ecur, <- !app_assoc. f_equal.
  rewrite filter_cons. destruct (Z.ltb_spec (PriorityClass v) c), (Z.leb_spec c cur), (Z.eqb_spec c (PriorityClass v)),
    (Z.leb_spec c (PriorityClass v)); simpl; try lia.
  - rewrite decide_False by lia.
    assert (filter (fun v => PriorityClass v = c) rest = []) as ->; [|simpl; by rewrite !app_nil_r].
    apply elem_of_nil_inv. intros x [? Hx]%list_elem_of_filter. rewrite Forall_forall in Hle. specialize (Hle x Hx). lia.
  - rewrite decide_False by lia.
    assert (filter (fun v => PriorityClass v = c) rest = []) as ->; [|done].
    apply elem_of_nil_inv. intros x [? Hx]%list_elem_of_filter. rewrite Forall_forall in Hle. specialize (Hle x Hx). lia.
  - rewrite decide_True by lia. done.
  - rewrite decide_False by lia. done.
Qed.

Lemma rankLess_spec a b : Less a b = true <->
  PriorityClass b < PriorityClass a \/ (PriorityClass b = PriorityClass a /\ Priority b < Priority a).
Proof using.
  unfold Less. destruct (Z.ltb_spec (PriorityClass b) (PriorityClass a)); [naive_solver|].
  destruct (Z.ltb_spec (PriorityClass a) (PriorityClass b)); [naive_solver lia|]. rewrite Z.ltb_lt. naive_solver lia.
Qed.

Lemma rankLeb_spec a b : negb (Less b a) = true <->
  PriorityClass b < PriorityClass a \/ (PriorityClass b = PriorityClass a /\ Priority b <= Priority a).
Proof using. rewrite negb_true_iff, <- not_true_iff_false, rankLess_spec. lia. Qed.

Lemma ranked_sorted rules :
  StronglySorted (fun a b => negb (Less b a) = true) (gosort (fun a b => negb (Less b a)) rules).
Proof using.
  apply gosort_sorted.
  - intros x y. rewrite !rankLeb_spec. lia.
  - intros x y z. rewrite !rankLeb_spec. lia.
Qed.

Lemma StronglySorted_filter {A} (R R' : A -> A -> Prop) (Q : A -> Prop) `{forall x, Decision (Q x)} l :
  (forall x y, Q x -> Q y -> R x y -> R' x y) -> StronglySorted R l -> StronglySorted R' (filter Q l).
Proof using.
  intros HR. induction 1 as [|x l HS IH HF]; [constructor|]. rewrite filter_cons. destruct (decide (Q x)); [|done].
  constructor; [done|]. apply Forall_forall. intros y [Hy Hin]%list_elem_of_filter.
  apply HR; [done|done|]. rewrite Forall_forall in HF. by apply HF.
Qed.

Lemma StronglySorted_weaken {A} (R R' : A -> A -> Prop) l :
  (forall x y, R x y -> R' x y) -> StronglySorted R l -> StronglySorted R' l.
Proof using. intros HR. induction 1 as [|x l HS IH HF]; constructor; [done|]. eapply Forall_impl; [exact HF|]. auto. Qed.

Lemma rulesOf_rankAll bases rules c : validClass c -> Forall (fun v => validClass (PriorityClass v)) rules ->
  rulesOf (rankAll bases rules) c =
  ((if Z.eqb c 5 then withModified bases BasePreOverrideRules else []) ++
   ownOf (gosort (fun a b => negb (Less b a)) rules) c ++ baseOf bases c)%list.
Proof using.
  intros Hc HV. unfold rankAll, PriorityMapLen. rewrite (gosort_perm (fun a b => negb (Less b a)) rules) in HV.
  pose proof (rankRules_spec bases c (gosort (fun a b => negb (Less b a)) rules) Hc
    ltac:(eapply StronglySorted_weaken; [|apply ranked_sorted]; intros x y; simpl; rewrite rankLeb_spec; lia) HV 5
    (addAll (RevPriorityMap 5) (MakeBasePreAppendRule (RevPriorityMap 5) bases) (mkRules [] [] [] [] [])) ltac:(lia)
    ltac:(eapply Forall_impl; [exact HV|]; simpl; unfold validClass; lia)) as E.
  destruct (rankRules _ _ _ _) as [cur1 g1]. rewrite E. rewrite rulesOf_addAll by (done || (unfold validClass; lia)).
  rewrite (proj2 (Z.leb_le c 5)) by (unfold validClass in *; lia). unfold validClass in Hc.
  assert (c = 1 \/ c = 2 \/ c = 3 \/ c = 4 \/ c = 5) as [->|[->|[->|[->| ->]]]] by lia; done.
Qed.

Lemma Rules_ext g1 g2 : (forall c, validClass c -> rulesOf g1 c = rulesOf g2 c) -> g1 = g2.
Proof using.
  intros E. unfold validClass in E. destruct g1, g2.
  pose proof (E 1 ltac:(lia)). pose proof (E 2 ltac:(lia)). pose proof (E 3 ltac:(lia)).
  pose proof (E 4 ltac:(lia)). pose proof (E 5 ltac:(lia)). cbn in *. congruence.
Qed.

(** how the rules of a user are ranked: in every kind the user's own rules
    come first, by falling priority, then the default rules of the kind (with the
    user's changes of their actions); the master rule comes before all
    others. *)
Theorem rules_ranked (bases : gmap string PushRuleCacheData) (rules : list PushRuleCacheData)
  (Hclass : Forall (fun v => validClass (PriorityClass v)) rules) :
  exists own : Z -> list PushRuleCacheData,
    (forall c, own c ≡ₚ filter (fun v => PriorityClass v = c) rules /\
       StronglySorted (fun a b => Priority b <= Priority a) (own c)) /\
    let conv c := map (fun v => ConvertPushRule v false) (own c) in
    rankAll bases rules =
    mkRules (conv 4 ++ withModified bases BaseContentRules)
            (withModified bases BasePreOverrideRules ++ conv 5 ++ withModified bases BaseOverrideRules)
            (conv 3) (conv 2)
            (conv 1 ++ withModified bases BaseUnderRideRules).
Proof using.
  exists (fun c => filter (fun v => PriorityClass v = c) (gosort (fun a b => negb (Less b a)) rules)). split.
  - intros c. split; [by rewrite <- gosort_perm|].
    eapply StronglySorted_filter; [|apply ranked_sorted]. intros x y Hx Hy. simpl. rewrite rankLeb_spec. lia.
  - cbv zeta. apply Rules_ext. intros c Hc. rewrite rulesOf_rankAll by done. unfold ownOf, baseOf. unfold validClass in Hc.
    assert (c = 1 \/ c = 2 \/ c = 3 \/ c = 4 \/ c = 5) as [->|[->|[->|[->| ->]]]] by lia;
      try change (MakeBaseAppendRule (RevPriorityMap 2) bases) with (@nil PushRule);
      try change (MakeBaseAppendRule (RevPriorityMap 3) bases) with (@nil PushRule);
      rewrite ?app_nil_r; reflexivity.
Qed.

End Rules.

(** ** Runs *)

#[export] Instance demoPushCache : PushCache := {|
  GetUserPushRuleIds _ := [];
  GetPushRuleCacheData _ := None;
  GetPushRuleEnabled _ _ := None;
  decActions s := if String.eqb s "notify" then Some [AString "notify"]
    else if String.eqb s "highlight"
    then Some [AString "notify"; AObject {[ "set_tweak" := VString "highlight" ]}] else None;
  decConditions s := if String.eqb s "" then Some [] else Some [eventMatchCond "content.body" s];
|}.

Lemma rules_ranked_witness :
  exists own : Z -> list PushRuleCacheData,
    (forall c, own c ≡ₚ filter (fun v => PriorityClass v = c)
                 [mkRuleData "u" "a" 1 0 "" "notify"; mkRuleData "u" "b" 5 1 "" "notify"; mkRuleData "u" "c" 5 2 "" "notify"] /\
       StronglySorted (fun a b => Priority b <= Priority a) (own c)) /\
    let conv c := map (fun v => ConvertPushRule v false) (own c) in
    rankAll ∅ [mkRuleData "u" "a" 1 0 "" "notify"; mkRuleData "u" "b" 5 1 "" "notify"; mkRuleData "u" "c" 5 2 "" "notify"] =
    mkRules (conv 4 ++ withModified ∅ BaseContentRules)
            (withModified ∅ BasePreOverrideRules ++ conv 5 ++ withModified ∅ BaseOverrideRules)
            (conv 3) (conv 2)
            (conv 1 ++ withModified ∅ BaseUnderRideRules).
Proof.
  apply rules_ranked. unfold validClass. repeat (constructor; simpl; [lia|]). constructor.
Defined.

End PushRules.
