(* ===== verification/Push.v ===== *)
(** * Unread counts and push notifications

    [src/model/repos/readCountRepo.go], [src/model/repos/eventReadStreamRepo.go] and
    the evaluation of push rules in [src/syncserver/consumers/push.go]
    ([preProcessPush] and what it calls): for each member of a room an event raises
    the unread count and produces a notification according to the first push
    rule that matches.

    The user identifier and the display name are passed as pointers, and
    [globalMatch] writes the regular expression it builds back through the pointer
    it is given; both are cells of the state here.  Go's regular expressions are
    the class [GoRegexp], reading a value out of the event's JSON the class
    [EventJson]. *)

From Stdlib Require Import String Ascii ZArith List Permutation.
From stdpp Require Import base tactics list gmap strings.
From S2P Require Import Prelude Ids PushRules.
Import PushRules.PushRules.

#[local] Open Scope string_scope.
#[local] Open Scope Z_scope.

Module Push.

(** ** Unread counts *)

Record ReadCountRepo := mkCounts {
  readCount : gmap string Z;
  hlCount : gmap string Z;
  updated : gmap string (string * string);
  unread : gmap (string * string) (Z * Z);   (** the cache: (user, room) to (highlights, unread) *)
}.

Definition countKey (roomID userID : string) : string := roomID ++ ":" ++ userID.

Definition setRead (r : ReadCountRepo) (key : string) (v : Z) : ReadCountRepo :=
  mkCounts (<[key := v]> (readCount r)) (hlCount r) (updated r) (unread r).
Definition setHl (r : ReadCountRepo) (key : string) (v : Z) : ReadCountRepo :=
  mkCounts (readCount r) (<[key := v]> (hlCount r)) (updated r) (unread r).

(** [GetRoomUnreadCount] gives zeros when the cache has no entry or fails. *)
Definition UpdateRoomReadCountFromCache (r : ReadCountRepo) (roomID userID : string) : ReadCountRepo :=
  let '(hl, count) := default (0, 0) (unread r !! (userID, roomID)) in
  setHl (setRead r (countKey roomID userID) count) (countKey roomID userID) hl.

Definition GetRoomReadCount (r : ReadCountRepo) (roomID userID : string) : (Z * Z) * ReadCountRepo :=
  let key := countKey roomID userID in
  let r1 := match readCount r !! key with Some _ => r | None => UpdateRoomReadCountFromCache r roomID userID end in
  let read := default 0 (readCount r1 !! key) in
  let r2 := match hlCount r1 !! key with Some _ => r1 | None => UpdateRoomReadCountFromCache r1 roomID userID end in
  ((read, default 0 (hlCount r2 !! key)), r2).

Inductive updateType := Reset | Increase | IncreaseHl | Decrease.

(** The body of the [decrease] case once the count is loaded. *)
Definition decreaseLoaded (r : ReadCountRepo) (key : string) (count : Z) : ReadCountRepo :=
  if 0 <? count then
    let r1 := setRead r key (count - 1) in
    match hlCount r1 !! key with
    | Some hl => if count <=? hl then setHl r1 key (count - 1) else r1
    | None => r1
    end
  else r.

Definition UpdateRoomReadCount (r : ReadCountRepo) (roomID userID : string) (t : updateType) : ReadCountRepo :=
  let key := countKey roomID userID in
  let r1 :=
    match t with
    | Reset => setHl (setRead r key 0) key 0
    | Increase =>
        match readCount r !! key with
        | Some v => setRead r key (wrap64 (v + 1))
        | None =>
            let r0 := UpdateRoomReadCountFromCache r roomID userID in
            match readCount r0 !! key with
            | Some v => setRead r0 key (wrap64 (v + 1))
            | None => setRead r0 key 1
            end
        end
    | IncreaseHl =>
        match hlCount r !! key with
        | Some v => setHl r key (wrap64 (v + 1))
        | None =>
            let r0 := UpdateRoomReadCountFromCache r roomID userID in
            match hlCount r0 !! key with
            | Some v => setHl r0 key (wrap64 (v + 1))
            | None => setHl r0 key 1
            end
        end
    | Decrease =>
        match readCount r !! key with
        | Some count => decreaseLoaded r key count
        | None =>
            let r0 := UpdateRoomReadCountFromCache r roomID userID in
            match readCount r0 !! key with
            | Some count => decreaseLoaded r0 key count
            | None => setHl (setRead r0 key 0) key 0
            end
        end
    end in
  mkCounts (readCount r1) (hlCount r1) (<[key := (roomID, userID)]> (updated r1)) (unread r1).

(** One turn of [flush]; [setFails]: the write to the cache fails. *)
Definition flushOne (setFails : string -> string -> bool) (r : ReadCountRepo) (kv : string * (string * string)) : ReadCountRepo :=
  let '(key, (roomID, userID)) := kv in
  let r1 := mkCounts (readCount r) (hlCount r) (delete key (updated r)) (unread r) in
  let '((read, hl), r2) := GetRoomReadCount r1 roomID userID in
  if setFails userID roomID then r2
  else mkCounts (readCount r2) (hlCount r2) (updated r2) (<[(userID, roomID) := (hl, read)]> (unread r2)).

Definition flush `{GoRange} (setFails : string -> string -> bool) (r : ReadCountRepo) : ReadCountRepo :=
  fold_left (flushOne setFails) (range (updated r)) r.

(** ** Receipt offsets *)

Record EventReadStreamRepo := mkReadStream { userReceiptOffset : gmap string Z }.

Definition AddUserReceiptOffset (e : EventReadStreamRepo) (userID roomID : string) (off : Z) : EventReadStreamRepo :=
  mkReadStream (<[userID ++ ":" ++ roomID := off]> (userReceiptOffset e)).

(** [dbOffset]: the answer of [GetUserHistoryReceiptData]. *)
Definition GetUserLastOffset (dbOffset : string -> string -> res Z) (e : EventReadStreamRepo) (userID roomID : string)
  : Z * EventReadStreamRepo :=
  match userReceiptOffset e !! (userID ++ ":" ++ roomID) with
  | Some v => (v, e)
  | None =>
      match dbOffset roomID userID with
      | Ok v => (v, AddUserReceiptOffset e userID roomID v)
      | _ => (0, e)
      end
  end.

(** ** Matching *)

Class GoRegexp := {
  (** [regexp.MustCompile(p).Match(s)]; [None]: [p] does not compile. *)
  MatchString : string -> string -> option bool;
  (** The submatches of the expression [globalRegex] of [globalMatch]. *)
  FindGlob : string -> option (string * string);
}.

Class EventJson := {
  jString : string -> string -> string;   (** [gjson.Get(json, path).String()] *)
  jStr : string -> string -> string;      (** [.Str] *)
  jRaw : string -> string -> string;      (** [.Raw] *)
}.

(** [regexp.QuoteMeta]. *)
Definition isMeta (c : ascii) : bool :=
  existsb (Ascii.eqb c) ["\"; "."; "+"; "*"; "?"; "("; ")"; "|"; "["; "]"; "{"; "}"; "^"; "$"]%char.

Fixpoint QuoteMeta (s : string) : string :=
  match s with
  | EmptyString => ""
  | String c s' => if isMeta c then String "\" (String c (QuoteMeta s')) else String c (QuoteMeta s')
  end.

(** [strings.Replace(s, old, new, -1)] for an [old] of two bytes. *)
Fixpoint replace2 (a b : ascii) (new s : string) : string :=
  match s with
  | String c (String d rest as s') =>
      if Ascii.eqb c a && Ascii.eqb d b then new ++ replace2 a b new rest else String c (replace2 a b new s')
  | _ => s
  end.

(** [strings.Replace(s, `\\\-`, "-", -1)]: four bytes, three backslashes and a
    dash. *)
Fixpoint unescapeDash (s : string) : string :=
  match s with
  | String c s' =>
      match s with
      | String "\" (String "\" (String "\" (String "-" rest))) => String "-" (unescapeDash rest)
      | _ => String c (unescapeDash s')
      end
  | EmptyString => ""
  end.

Definition globChar (c : ascii) : bool := existsb (Ascii.eqb c) ["?"; "*"; "["; "]"]%char.

Definition isGlob (s : string) : bool := existsb globChar (list_ascii_of_string s).

Definition wordPattern (s : string) : string := "(^|\W)" ++ s ++ "(\W|$)".

Section Push.
  Context `{GoRegexp} `{EventJson} `{GoRange}.

(** The regular expression [globalMatch] builds. *)
Definition globalPattern (global : string) (wordBoundary : bool) : string :=
  let q := QuoteMeta global in
  if isGlob global then
    let g1 := replace2 "\" "?" "." (replace2 "\" "*" ".*?" q) in
    let g2 := match FindGlob g1 with
              | Some (s1, s2) => "[" ++ (if String.eqb s1 "" then "" else "^") ++ unescapeDash s2 ++ "]"
              | None => g1
              end in
    if wordBoundary then wordPattern g2 else "^" ++ g2 ++ "$"
  else if wordBoundary then wordPattern q
  else "^" ++ q ++ "$".

(** [globalMatch]: the verdict, and what [*global] is afterwards. *)
Definition globalMatch (global req : string) (wordBoundary : bool) : res (bool * string) :=
  let p := globalPattern global wordBoundary in
  match MatchString p req with
  | Some b => Ok (b, p)
  | None => Panic
  end.

(** The member-count expression: comparison signs, then digits. *)
Fixpoint spanCmp (s : string) : string * string :=
  match s with
  | String c s' =>
      if existsb (Ascii.eqb c) ["="; "<"; ">"]%char then let '(a, b) := spanCmp s' in (String c a, b) else ("", s)
  | EmptyString => ("", "")
  end.

Fixpoint digits (acc : Z) (s : string) : option Z :=
  match s with
  | EmptyString => Some acc
  | String c s' =>
      let d := Z.of_nat (nat_of_ascii c) - 48 in
      if (0 <=? d) && (d <=? 9) then digits (10 * acc + d) s' else None
  end.

(** [num, _ := strconv.Atoi(...)]: out of range it is the largest integer. *)
Definition roomMemberCount (c : PushCondition) (memCount : Z) : bool :=
  if String.eqb (Is c) "" then false
  else
    let '(op, ds) := spanCmp (Is c) in
    match digits 0 ds with
    | None => false
    | Some n =>
        let num := Z.min n (2^63 - 1) in
        if String.eqb op "" || String.eqb op "==" then memCount =? num
        else if String.eqb op "<" then memCount <? num
        else if String.eqb op ">" then num <? memCount
        else if String.eqb op "<=" then memCount <=? num
        else if String.eqb op ">=" then num <=? memCount
        else false
    end.

(** The cells behind the pointers [userID] and [displayName]. *)
Record Cells := mkCells { userID : string; displayName : string }.

#[local] Abbreviation M := (ST Cells).

Definition signal (eventJSON : string) : M bool := fun s =>
  let raw := jRaw eventJSON "content.signals" in
  (Ok (negb (String.eqb raw "") && (str_contains "@all" raw || str_contains (userID s) raw)), s).

Definition eventMatch (c : PushCondition) (eventJSON : string) : M bool := fun s =>
  let go (pattern : string) (write : string -> Cells) : res bool * Cells :=
    let body := String.eqb (Key c) "content.body" in
    let context := jString eventJSON (if body then "content.body" else Key c) in
    if String.eqb context "" then (Ok false, s)
    else match globalMatch pattern context body with
         | Ok (b, p) => (Ok b, write p)
         | Err e => (Err e, s)
         | Panic => (Panic, s)
         | Diverge => (Diverge, s)
         end in
  if String.eqb (Pattern c) "" then (Ok false, s)
  else if String.eqb (Pattern c) "user_id" then go (userID s) (fun p => mkCells p (displayName s))
  else if String.eqb (Pattern c) "user_localpart" then
    match Ids.SplitID "@" (userID s) with
    | Ok (l, _) => go l (fun _ => s)
    | Err _ => (Ok false, s)
    | Panic => (Panic, s)
    | Diverge => (Diverge, s)
    end
  else go (Pattern c) (fun _ => s).

Definition containsDisplayName (eventJSON : string) : M bool := fun s =>
  if String.eqb (displayName s) "" then (Ok false, s)
  else
    let value := jString eventJSON "content.body" in
    if String.eqb value "" then (Ok false, s)
    else match globalMatch (displayName s) value true with
         | Ok (b, p) => (Ok b, mkCells (userID s) p)
         | Err e => (Err e, s)
         | Panic => (Panic, s)
         | Diverge => (Diverge, s)
         end.

Definition isMatch (c : PushCondition) (memCount : Z) (eventJSON : string) : M bool :=
  if String.eqb (Kind c) "event_match" then eventMatch c eventJSON
  else if String.eqb (Kind c) "contains_display_name" then containsDisplayName eventJSON
  else if String.eqb (Kind c) "room_member_count" then mret (roomMemberCount c memCount)
  else if String.eqb (Kind c) "signal" then signal eventJSON
  else mret true.

Fixpoint checkCondition (conditions : list PushCondition) (memCount : Z) (eventJSON : string) : M bool :=
  match conditions with
  | [] => mret true
  | v :: rest =>
      b ← isMatch v memCount eventJSON;
      if (b : bool) then checkCondition rest memCount eventJSON else mret false
  end.

(** ** Actions *)

Record TweakAction := mkTweakAction { Notify : string; Sound : string; HighLight : bool }.

(** One turn of [getActions]; a type assertion that fails panics. *)
Definition applyAction (a : TweakAction) (val : Action) : res TweakAction :=
  match val with
  | AString v => Ok (mkTweakAction v (Sound a) (HighLight a))
  | ATweak t =>
      if String.eqb (SetTweak t) "sound" then
        match TValue t with VString v => Ok (mkTweakAction (Notify a) v (HighLight a)) | _ => Panic end
      else if String.eqb (SetTweak t) "highlight" then
        match TValue t with
        | VNil => Ok (mkTweakAction (Notify a) (Sound a) true)
        | VBool b => Ok (mkTweakAction (Notify a) (Sound a) b)
        | _ => Panic
        end
      else Ok a
  | AObject _ => Ok a
  end.

Fixpoint applyActions (a : TweakAction) (actions : list Action) : res TweakAction :=
  match actions with
  | [] => Ok a
  | v :: rest => a1 ← applyAction a v; applyActions a1 rest
  end.

Definition getActions (actions : list Action) : res TweakAction := applyActions (mkTweakAction "" "" false) actions.

(** ** Processing *)

Record PushPubContent := mkPub { pUserID : string; pAction : TweakAction; pNotifyCount : Z }.

Record PushState := mkPush {
  cells : Cells;
  counts : ReadCountRepo;
  contents : list PushPubContent;
}.

(** The event as far as push processing reads it, and the pushers of the user:
    [hasPushers] stands for the RPC client and a pusher being there. *)
Record Input := mkInput { iType : string; iRoomID : string; iSender : string; iJSON : string }.

Definition isMessage (i : Input) : bool :=
  String.eqb (iType i) "m.room.message" || String.eqb (iType i) "m.room.encrypted".

(** The body of the loop for a rule that matches. *)
Definition fire (i : Input) (hasPushers : bool) (rule : PushRule) : ST PushState unit := fun s =>
  match getActions (Actions rule) with
  | Ok action =>
      let user := userID (cells s) in
      let c1 := if isMessage i then UpdateRoomReadCount (counts s) (iRoomID i) user Increase else counts s in
      let '((count, _), c2) := GetRoomReadCount c1 (iRoomID i) user in
      let c3 := if HighLight action && isMessage i then UpdateRoomReadCount c2 (iRoomID i) user IncreaseHl else c2 in
      let pub := if String.eqb (Notify action) "notify" && hasPushers then [mkPub user action count] else [] in
      (Ok (), mkPush (cells s) c3 (contents s ++ pub)%list)
  | Err e => (Err e, s)
  | Panic => (Panic, s)
  | Diverge => (Diverge, s)
  end.

Definition onCells {A} (m : M A) : ST PushState A := fun s =>
  let '(r, c1) := m (cells s) in (r, mkPush c1 (counts s) (contents s)).

Fixpoint pushLoop (i : Input) (hasPushers : bool) (memCount : Z) (rules : list PushRule) : ST PushState unit :=
  match rules with
  | [] => mret ()
  | v :: rest =>
      if negb (Enabled v) then pushLoop i hasPushers memCount rest
      else
        b ← onCells (checkCondition (Conditions v) memCount (iJSON i));
        if (b : bool) then fire i hasPushers v else pushLoop i hasPushers memCount rest
  end.

Definition processPush (i : Input) (hasPushers : bool) (memCount : Z) (rules : list PushRule) : ST PushState unit :=
  if String.eqb (jStr (iJSON i) "content.msgtype") "m.notice" then mret ()
  else pushLoop i hasPushers memCount rules.

(** The order in which [preProcessPush] puts the kinds of rules. *)
Definition ruleOrder (global : Rules) : list PushRule :=
  (Override global ++ Content global ++ Room global ++ SenderRules global ++ UnderRide global)%list.

(** [preProcessPush] for one member, with the repositories it changes. *)
Definition preProcessPush (dbOffset : string -> string -> res Z) (i : Input) (hasPushers : bool) (memCount : Z)
    (eventOffset redactOffset : Z) (isRelatesContent : bool) (global : Rules) (name member : string)
    (e : EventReadStreamRepo) (c : ReadCountRepo) (out : list PushPubContent)
  : res unit * (EventReadStreamRepo * ReadCountRepo * list PushPubContent) :=
  if negb (String.eqb member (iSender i)) then
    let '(e1, c1) :=
      if String.eqb (iType i) "m.room.redaction" then
        let '(last, e1) := GetUserLastOffset dbOffset e member (iRoomID i) in
        (e1, if ((last <? redactOffset) || (redactOffset =? -1)) && negb isRelatesContent
             then UpdateRoomReadCount c (iRoomID i) member Decrease else c)
      else (e, c) in
    let '(r, s) := processPush i hasPushers memCount (ruleOrder global) (mkPush (mkCells member name) c1 out) in
    (r, (e1, counts s, contents s))
  else
    (Ok (), (AddUserReceiptOffset e member (iRoomID i) eventOffset,
             UpdateRoomReadCount c (iRoomID i) member Reset, out)).

End Push.

End Push.
