(* ===== verification/PushFacts.v ===== *)
(** * What push processing guarantees

    Theorems about [Push]: an event changes the unread counts of its room and member
    only, by one, and they stay sound ([unread_counts_sound]); a user is notified by the
    first rule that matches, and by no other ([first_matching_rule_acts]); and two
    consequences of how the code handles patterns and actions. *)

From Stdlib Require Import String Ascii ZArith List Permutation.
From stdpp Require Import base tactics list gmap strings.
From S2P Require Import Prelude Ids PushRules Push.
Import PushRules.PushRules Push.Push.

#[local] Open Scope string_scope.
#[local] Open Scope Z_scope.

Module PushFacts.

(** ** Unread counts *)

(** Both counts are known for the same keys, highlights are unread messages, and
    no count exceeds [N]. *)
Record countsOK (N : Z) (r : ReadCountRepo) : Prop := {
  ck_dom : forall k, is_Some (readCount r !! k) <-> is_Some (hlCount r !! k);
  ck_le : forall k v h, readCount r !! k = Some v -> hlCount r !! k = Some h -> 0 <= h <= v /\ v <= N;
  ck_cache : forall k h v, unread r !! k = Some (h, v) -> 0 <= h <= v /\ v <= N;
}.

(** The pair of counts of a key. *)
Definition pairOf (r : ReadCountRepo) (k : string) : option (Z * Z) :=
  match readCount r !! k, hlCount r !! k with Some v, Some h => Some (v, h) | _, _ => None end.

Definition goodPair (N : Z) (p : Z * Z) : Prop := 0 <= p.2 <= p.1 /\ p.1 <= N.

Lemma countsOK_mono N N' r : N <= N' -> countsOK N r -> countsOK N' r.
Proof.
  intros HN [A B C]. split; [done| |].
  - intros k v h Hv Hh. destruct (B k v h Hv Hh). split; [done|lia].
  - intros k h v E. destruct (C k h v E). split; [done|lia].
Qed.

(** Setting both counts of a key to a good pair. *)
Lemma countsOK_set N r k v h u :
  countsOK N r -> goodPair N (v, h) ->
  countsOK N (mkCounts (<[k := v]> (readCount r)) (<[k := h]> (hlCount r)) u (unread r)).
Proof.
  intros [A B C] Hg. split; simpl; [| |done].
  - intros k'. destruct (decide (k = k')) as [->|Hne]; [by rewrite !lookup_insert_eq|by rewrite !lookup_insert_ne].
  - intros k' v' h'. destruct (decide (k = k')) as [->|Hne].
    + rewrite !lookup_insert_eq. intros [= <-] [= <-]. exact Hg.
    + rewrite !lookup_insert_ne by done. apply B.
Qed.

Lemma countsOK_updated N r u : countsOK N r -> countsOK N (mkCounts (readCount r) (hlCount r) u (unread r)).
Proof. by intros [A B C]. Qed.

Lemma countsOK_load N r room user : 0 <= N -> countsOK N r -> countsOK N (UpdateRoomReadCountFromCache r room user).
Proof.
  intros HN HOK. unfold UpdateRoomReadCountFromCache, setHl, setRead.
  destruct (unread r !! (user, room)) as [[h v]|] eqn:E; simpl.
  - by apply countsOK_set; [|eapply (ck_cache N)].
  - by apply countsOK_set; [|unfold goodPair; simpl; lia].
Qed.

(** The counts of a key that is known. *)
Lemma countsOK_known N r k v : countsOK N r -> readCount r !! k = Some v ->
  exists h, hlCount r !! k = Some h /\ goodPair N (v, h).
Proof.
  intros HOK Hv. destruct (proj1 (ck_dom N r HOK k)) as [h Hh]; [by rewrite Hv|].
  exists h. split; [done|]. by eapply (ck_le N).
Qed.

Lemma countsOK_unknown N r k : countsOK N r -> readCount r !! k = None -> hlCount r !! k = None.
Proof.
  intros HOK Hv. destruct (hlCount r !! k) as [h|] eqn:E; [|done].
  destruct (proj2 (ck_dom N r HOK k)) as [v Hv']; [by rewrite E|congruence].
Qed.

(** The state in which the counts of the key are loaded. *)
Definition loaded (r : ReadCountRepo) (room user : string) : ReadCountRepo :=
  match readCount r !! countKey room user with Some _ => r | None => UpdateRoomReadCountFromCache r room user end.

Lemma loaded_spec N r room user : 0 <= N -> countsOK N r ->
  countsOK N (loaded r room user) /\
  exists v h, readCount (loaded r room user) !! countKey room user = Some v /\
    hlCount (loaded r room user) !! countKey room user = Some h /\ goodPair N (v, h).
Proof.
  intros HN HOK. unfold loaded. destruct (readCount r !! countKey room user) as [v|] eqn:E.
  - split; [done|]. destruct (countsOK_known N r _ _ HOK E) as (h & Hh & Hg). by exists v, h.
  - pose proof (countsOK_load N r room user HN HOK) as HL. split; [done|].
    assert (Hv : is_Some (readCount (UpdateRoomReadCountFromCache r room user) !! countKey room user)).
    { unfold UpdateRoomReadCountFromCache. destruct (default _ _). simpl. rewrite lookup_insert_eq. eauto. }
    destruct Hv as [v Hv]. destruct (countsOK_known N _ _ _ HL Hv) as (h & Hh & Hg). by exists v, h.
Qed.

Lemma Get_loaded N r room user : 0 <= N -> countsOK N r ->
  exists v h, GetRoomReadCount r room user = ((v, h), loaded r room user) /\ goodPair N (v, h) /\
    readCount (loaded r room user) !! countKey room user = Some v /\
    hlCount (loaded r room user) !! countKey room user = Some h.
Proof.
  intros HN HOK. destruct (loaded_spec N r room user HN HOK) as (_ & v & h & Hv & Hh & Hg).
  exists v, h. split; [|done]. unfold GetRoomReadCount. cbv zeta. fold (loaded r room user). rewrite Hv, Hh. simpl. by rewrite Hh.
Qed.

(** Every update in terms of the loaded counts. *)
Lemma Update_loaded N r room user t : 0 <= N -> countsOK N r ->
  exists v h, readCount (loaded r room user) !! countKey room user = Some v /\
    hlCount (loaded r room user) !! countKey room user = Some h /\ goodPair N (v, h) /\
    let r' := UpdateRoomReadCount r room user t in
    let k := countKey room user in
    let put v' h' := readCount r' = <[k := v']> (readCount (loaded r room user)) /\
                     hlCount r' = <[k := h']> (hlCount (loaded r room user)) /\
                     unread r' = unread (loaded r room user) in
    match t with
    | Reset => put 0 0
    | Increase => put (wrap64 (v + 1)) h
    | IncreaseHl => put v (wrap64 (h + 1))
    | Decrease => put (if 0 <? v then v - 1 else v) (if (0 <? v) && (v <=? h) then v - 1 else h)
    end.
Proof.
  intros HN HOK. destruct (loaded_spec N r room user HN HOK) as (HL & v & h & Hv & Hh & Hg).
  exists v, h. split; [done|]. split; [done|]. split; [done|]. cbv zeta.
  unfold UpdateRoomReadCount, loaded, decreaseLoaded in *. clear HL Hg.
  destruct (readCount r !! countKey room user) as [v'|] eqn:E.
  - rewrite E in Hv. injection Hv as ->. rewrite ?Hh.
    destruct t; simpl; rewrite ?Hh; try done.
    + by rewrite (insert_id _ _ _ Hh).
    + by rewrite (insert_id _ _ _ E).
    + destruct (0 <? v); simpl; [destruct (v <=? h)|]; simpl; rewrite ?(insert_id _ _ _ Hh), ?(insert_id _ _ _ E); done.
  - rewrite (countsOK_unknown N r _ HOK E) in *. unfold UpdateRoomReadCountFromCache in *.
    destruct (default (0, 0) (unread r !! (user, room))) as [h0 v0]. simpl in *.
    rewrite lookup_insert_eq in Hv, Hh. injection Hv as ->. injection Hh as ->. rewrite !lookup_insert_eq.
    destruct t; simpl; rewrite ?insert_insert_eq; try done.
    destruct (0 <? v); simpl; rewrite ?lookup_insert_eq; [destruct (v <=? h)|]; simpl; by rewrite ?insert_insert_eq.
Qed.

(** What is read for a room and user. *)
Definition counted (r : ReadCountRepo) (room user : string) : Z * Z := (GetRoomReadCount r room user).1.

(** Only the counts of [room] and [user] may differ. *)
Definition onlyOwn (room user : string) (r r' : ReadCountRepo) : Prop :=
  unread r' = unread r /\
  forall k, k <> countKey room user -> readCount r' !! k = readCount r !! k /\ hlCount r' !! k = hlCount r !! k.

Lemma onlyOwn_refl room user r : onlyOwn room user r r.
Proof. done. Qed.

Lemma onlyOwn_trans room user r1 r2 r3 : onlyOwn room user r1 r2 -> onlyOwn room user r2 r3 -> onlyOwn room user r1 r3.
Proof.
  intros [E1 H1] [E2 H2]. split; [congruence|]. intros k Hk. destruct (H1 k Hk), (H2 k Hk). split; congruence.
Qed.

Lemma loaded_own room user r : onlyOwn room user r (loaded r room user).
Proof.
  unfold loaded, UpdateRoomReadCountFromCache. destruct (readCount r !! _); [done|]. destruct (default _ _).
  split; [done|]. intros k Hk. cbn. by rewrite !lookup_insert_ne.
Qed.

Lemma Get_own N r room user : 0 <= N -> countsOK N r -> onlyOwn room user r (GetRoomReadCount r room user).2.
Proof. intros HN HOK. destruct (Get_loaded N r room user HN HOK) as (v & h & -> & _). apply loaded_own. Qed.

Lemma counted_loaded r room user v h : readCount (loaded r room user) !! countKey room user = Some v ->
  hlCount (loaded r room user) !! countKey room user = Some h -> counted r room user = (v, h).
Proof.
  intros Hv Hh. unfold counted, GetRoomReadCount. cbv zeta. fold (loaded r room user). rewrite Hv, Hh. cbn. by rewrite Hh.
Qed.

Lemma counted_here r room user v h : readCount r !! countKey room user = Some v -> hlCount r !! countKey room user = Some h ->
  counted r room user = (v, h).
Proof. intros Hv Hh. apply counted_loaded; unfold loaded; by rewrite Hv. Qed.

Lemma counted_good N r room user : 0 <= N -> countsOK N r -> goodPair N (counted r room user).
Proof.
  intros HN HOK. destruct (Get_loaded N r room user HN HOK) as (v & h & E & Hg & _). unfold counted. by rewrite E.
Qed.

Lemma counted_Get N r room user : 0 <= N -> countsOK N r ->
  counted (GetRoomReadCount r room user).2 room user = counted r room user.
Proof.
  intros HN HOK. destruct (Get_loaded N r room user HN HOK) as (v & h & E & _ & Hv & Hh).
  rewrite (counted_loaded r room user v h) by done. rewrite E. by apply counted_here.
Qed.

Lemma Update_own N r room user t : 0 <= N -> countsOK N r ->
  onlyOwn room user r (UpdateRoomReadCount r room user t) /\
  counted (UpdateRoomReadCount r room user t) room user =
    let '(v, h) := counted r room user in
    match t with
    | Reset => (0, 0)
    | Increase => (wrap64 (v + 1), h)
    | IncreaseHl => (v, wrap64 (h + 1))
    | Decrease => (Z.max 0 (v - 1), Z.min h (Z.max 0 (v - 1)))
    end.
Proof.
  intros HN HOK. destruct (Update_loaded N r room user t HN HOK) as (v & h & Hv & Hh & [? ?] & Ht). cbv zeta in Ht. cbn [fst snd] in *.
  rewrite (counted_loaded r room user v h) by done.
  assert (Hput : forall v' h', readCount (UpdateRoomReadCount r room user t) = <[countKey room user := v']> (readCount (loaded r room user)) /\
      hlCount (UpdateRoomReadCount r room user t) = <[countKey room user := h']> (hlCount (loaded r room user)) /\
      unread (UpdateRoomReadCount r room user t) = unread (loaded r room user) ->
      onlyOwn room user r (UpdateRoomReadCount r room user t) /\ counted (UpdateRoomReadCount r room user t) room user = (v', h')).
  { intros v' h' (E1 & E2 & E3). split.
    - apply (onlyOwn_trans _ _ _ (loaded r room user)); [apply loaded_own|]. split; [done|]. intros k Hk. by rewrite E1, E2, !lookup_insert_ne.
    - apply counted_here; [rewrite E1|rewrite E2]; apply lookup_insert_eq. }
  destruct t; apply Hput in Ht as [Ho ->]; (split; [done|]); try done.
  destruct (Z.ltb_spec 0 v); cbn [andb]; [destruct (Z.leb_spec v h)|]; f_equal; lia.
Qed.

Lemma countsOK_put N r L k v h :
  countsOK N L -> goodPair N (v, h) -> readCount r = <[k := v]> (readCount L) ->
  hlCount r = <[k := h]> (hlCount L) -> unread r = unread L -> countsOK N r.
Proof.
  intros HL Hg E1 E2 E3. destruct r as [rc hc up un]. simpl in *. subst. by apply countsOK_set.
Qed.

Lemma Reset_OK N r room user : 0 <= N -> countsOK N r -> countsOK N (UpdateRoomReadCount r room user Reset).
Proof.
  intros HN HOK. destruct (Update_loaded N r room user Reset HN HOK) as (v & h & _ & _ & _ & E1 & E2 & E3).
  eapply countsOK_put; [by apply loaded_spec|..|exact E1|exact E2|exact E3]. unfold goodPair; simpl; lia.
Qed.

Lemma Decrease_OK N r room user : 0 <= N -> countsOK N r -> countsOK N (UpdateRoomReadCount r room user Decrease).
Proof.
  intros HN HOK. destruct (Update_loaded N r room user Decrease HN HOK) as (v & h & _ & _ & [? ?] & E1 & E2 & E3).
  eapply countsOK_put; [by apply loaded_spec|..|exact E1|exact E2|exact E3]. unfold goodPair; simpl in *.
  destruct (Z.ltb_spec 0 v); simpl; [|lia]. destruct (Z.leb_spec v h); lia.
Qed.

Lemma Increase_OK N r room user : 0 <= N < 2^63 - 1 -> countsOK N r ->
  countsOK (N + 1) (UpdateRoomReadCount r room user Increase) /\
  exists v h, readCount (UpdateRoomReadCount r room user Increase) !! countKey room user = Some v /\
    hlCount (UpdateRoomReadCount r room user Increase) !! countKey room user = Some h /\ h < v.
Proof.
  intros HN HOK. destruct (Update_loaded N r room user Increase) as (v & h & _ & _ & [? ?] & E1 & E2 & E3); [lia|done|].
  simpl in *. rewrite wrap64_id in E1 by (unfold in64; lia). split.
  - eapply countsOK_put; [apply (countsOK_mono N); [lia|apply loaded_spec; [lia|done]]|..|exact E1|exact E2|exact E3].
    unfold goodPair; simpl; lia.
  - exists (v + 1), h. rewrite E1, E2, !lookup_insert_eq. split; [done|]. split; [done|lia].
Qed.

Lemma IncreaseHl_OK N r room user v h : 0 <= N < 2^63 -> countsOK N r ->
  readCount r !! countKey room user = Some v -> hlCount r !! countKey room user = Some h -> h < v ->
  countsOK N (UpdateRoomReadCount r room user IncreaseHl).
Proof.
  intros HN HOK Hv Hh Hlt.
  destruct (Update_loaded N r room user IncreaseHl) as (v' & h' & Hv' & Hh' & [? ?] & E1 & E2 & E3); [lia|done|].
  assert (EL : loaded r room user = r) by (unfold loaded; by rewrite Hv). rewrite EL in *.
  assert (v' = v) as -> by congruence. assert (h' = h) as -> by congruence. simpl in *.
  rewrite wrap64_id in E2 by (unfold in64; lia).
  eapply countsOK_put; [exact HOK|..|exact E1|exact E2|exact E3]. unfold goodPair; simpl; lia.
Qed.

Lemma flushOne_OK setFails N r kv : 0 <= N -> countsOK N r -> countsOK N (flushOne setFails r kv).
Proof.
  intros HN HOK. destruct kv as [k [room user]]. unfold flushOne.
  set (r1 := mkCounts _ _ _ _). assert (HOK1 : countsOK N r1) by by apply countsOK_updated.
  destruct (Get_loaded N r1 room user HN HOK1) as (v & h & -> & Hg & _ & _).
  destruct (loaded_spec N r1 room user HN HOK1) as [HL _].
  destruct (setFails user room); [done|]. destruct HL as [A B C]. split; [done|done|]. simpl.
  intros q h' v'. destruct (decide ((user, room) = q)) as [<-|Hne].
  - rewrite lookup_insert_eq. intros [= <- <-]. exact Hg.
  - rewrite lookup_insert_ne by done. apply C.
Qed.

Section Facts.
  Context `{GoRegexp} `{EventJson} `{GoRange}.

Lemma flush_OK setFails N r : 0 <= N -> countsOK N r -> countsOK N (flush setFails r).
Proof using.
  intros HN. unfold flush. generalize (range (updated r)). intros l. revert r.
  induction l as [|kv l IH]; intros r HOK; simpl; [done|]. apply IH. by apply flushOne_OK.
Qed.

Lemma fire_OK i hp rule N s : 0 <= N < 2^63 - 1 -> countsOK N (counts s) -> countsOK (N + 1) (counts (fire i hp rule s).2).
Proof using.
  intros HN HOK. assert (HOK1 : countsOK (N + 1) (counts s)) by (eapply countsOK_mono; [|done]; lia).
  unfold fire. destruct (getActions (Actions rule)) as [a|e| |]; try exact HOK1.
  set (user := userID (cells s)). destruct (isMessage i) eqn:Em.
  - destruct (Increase_OK N (counts s) (iRoomID i) user HN HOK) as (HI & v & h & Hv & Hh & Hlt).
    set (c1 := UpdateRoomReadCount _ _ _ _) in *.
    destruct (Get_loaded (N + 1) c1 (iRoomID i) user ltac:(lia) HI) as (v' & h' & -> & _ & _ & _).
    assert (EL : loaded c1 (iRoomID i) user = c1) by (unfold loaded; by rewrite Hv). rewrite EL. simpl.
    rewrite andb_true_r. destruct (HighLight a); [|done]. eapply IncreaseHl_OK; [|done..]. lia.
  - destruct (Get_loaded (N + 1) (counts s) (iRoomID i) user ltac:(lia) HOK1) as (v' & h' & -> & _ & _ & _).
    rewrite andb_false_r. simpl. apply loaded_spec; [lia|done].
Qed.

Lemma pushLoop_OK i hp n rules N : 0 <= N < 2^63 - 1 -> forall s, countsOK N (counts s) ->
  countsOK (N + 1) (counts (pushLoop i hp n rules s).2).
Proof using.
  intros HN. induction rules as [|v rules IH]; intros s HOK; cbn [pushLoop].
  { eapply countsOK_mono; [|done]. lia. }
  destruct (negb (Enabled v)); [by apply IH|].
  assert (HC : counts (onCells (checkCondition (Conditions v) n (iJSON i)) s).2 = counts s).
  { unfold onCells. by destruct (checkCondition _ _ _ _). }
  unfold mbind, ST_bind. destruct (onCells _ s) as [[[|]|e| |] s1]; simpl in HC; rewrite <- HC in HOK.
  - by apply fire_OK.
  - by apply IH.
  - eapply countsOK_mono; [|done]; lia.
  - eapply countsOK_mono; [|done]; lia.
  - eapply countsOK_mono; [|done]; lia.
Qed.

(** The counts stay sound, in the cache too. *)
Lemma preProcess_OK (N : Z) (dbOffset : string -> string -> res Z) (i : Input) (hasPushers : bool)
  (memCount eventOffset redactOffset : Z) (isRelated : bool) (global : Rules) (name member : string)
  (e : EventReadStreamRepo) (c : ReadCountRepo) (out : list PushPubContent) (setFails : string -> string -> bool)
  (HN : 0 <= N < 2^63 - 1) (Hc : countsOK N c) :
  let '(_, (_, c', _)) :=
    preProcessPush dbOffset i hasPushers memCount eventOffset redactOffset isRelated global name member e c out in
  countsOK (N + 1) c' /\ countsOK (N + 1) (flush setFails c').
Proof using.
  assert (HG : countsOK (N + 1) (preProcessPush dbOffset i hasPushers memCount eventOffset redactOffset isRelated
                 global name member e c out).2.1.2).
  { unfold preProcessPush. destruct (negb (String.eqb member (iSender i))).
    - assert (HC : exists e1 c1, (if String.eqb (iType i) "m.room.redaction" then
         let '(last, e1) := GetUserLastOffset dbOffset e member (iRoomID i) in
         (e1, if ((last <? redactOffset) || (redactOffset =? -1)) && negb isRelated
              then UpdateRoomReadCount c (iRoomID i) member Decrease else c) else (e, c)) = (e1, c1) /\ countsOK N c1).
      { destruct (String.eqb _ _); [|by eexists _, _]. destruct (GetUserLastOffset _ _ _ _) as [last e1].
        eexists _, _. split; [done|]. destruct (_ && _); [apply Decrease_OK; [lia|done]|done]. }
      destruct HC as (e1 & c1 & -> & HC1).
      assert (HP : countsOK (N + 1) (counts (processPush i hasPushers memCount (ruleOrder global) (mkPush (mkCells member name) c1 out)).2)).
      { unfold processPush. destruct (String.eqb _ _); [eapply countsOK_mono; [|exact HC1]; lia|]. by apply pushLoop_OK. }
      by destruct (processPush _ _ _ _ _).
    - apply Reset_OK; [lia|]. eapply countsOK_mono; [|done]; lia. }
  destruct (preProcessPush _ _ _ _ _ _ _ _ _ _ _ _ _) as [r [[e' c'] out']]. split; [exact HG|].
  apply flush_OK; [lia|exact HG].
Qed.

(** ** The first rule that matches *)

(** The condition reads the display name. *)
Definition readsName (c : PushCondition) : bool :=
  negb (String.eqb (Kind c) "event_match") && String.eqb (Kind c) "contains_display_name".

(** The condition has no pattern [user_id] left (see [ConvertConditions]). *)
Definition converted (c : PushCondition) : Prop := Kind c = "event_match" -> Pattern c <> "user_id".

Definition nameReads (rules : list PushRule) : nat :=
  length (filter (fun c => readsName c = true) (concat (map Conditions rules))).

(** Conditions and rules judged with the user's identifier and display name as
    they were given. *)
Definition holds (s0 : Cells) (n : Z) (json : string) (c : PushCondition) : bool :=
  match (isMatch c n json s0).1 with Ok b => b | _ => false end.

Definition applies (s0 : Cells) (n : Z) (json : string) (r : PushRule) : bool :=
  Enabled r && forallb (holds s0 n json) (Conditions r).

(** The regular expressions of the condition compile. *)
Definition compiles (s0 : Cells) (n : Z) (json : string) (c : PushCondition) : Prop :=
  exists b, (isMatch c n json s0).1 = Ok b.

Lemma isMatch_pure c n json s s0 : converted c -> readsName c = false -> userID s = userID s0 ->
  isMatch c n json s = ((isMatch c n json s0).1, s).
Proof using.
  intros Hc Hr Hu. unfold isMatch, readsName in *.
  destruct (String.eqb_spec (Kind c) "event_match") as [Ek|]; simpl in Hr.
  - unfold eventMatch. rewrite (proj2 (String.eqb_neq _ _) (Hc Ek)), Hu.
    destruct (String.eqb (Pattern c) ""); [done|]. destruct (String.eqb (Pattern c) "user_localpart").
    + destruct (Ids.SplitID "@" (userID s0)) as [[l d]|e| |]; try done.
      destruct (String.eqb (jString _ _) ""); [done|]. by destruct (globalMatch _ _ _) as [[]|e| |].
    + destruct (String.eqb (jString _ _) ""); [done|]. by destruct (globalMatch _ _ _) as [[]|e| |].
  - rewrite Hr. destruct (String.eqb (Kind c) "room_member_count"); [done|].
    destruct (String.eqb (Kind c) "signal"); [|done]. unfold signal. by rewrite Hu.
Qed.

Lemma isMatch_user c n json s b s' : converted c -> isMatch c n json s = (b, s') -> userID s' = userID s.
Proof using.
  intros Hc. destruct (readsName c) eqn:Hr.
  - apply andb_true_iff in Hr as [Hk1%negb_true_iff Hk2]. unfold isMatch. rewrite Hk1, Hk2.
    unfold containsDisplayName. destruct (String.eqb _ ""); [by intros [= _ <-]|].
    destruct (String.eqb _ ""); [by intros [= _ <-]|]. by destruct (globalMatch _ _ _) as [[]|e| |]; intros [= _ <-].
  - rewrite (isMatch_pure c n json s s) by done. by intros [= _ <-].
Qed.

(** Where the cells are while the conditions [cs] are still to be judged. *)
Definition cellsOK (s0 s : Cells) (cs : list PushCondition) : Prop :=
  userID s = userID s0 /\
  ((s = s0 /\ (length (filter (fun c => readsName c = true) cs) <= 1)%nat) \/
   filter (fun c => readsName c = true) cs = []).

Lemma isMatch_step c cs n json s s0 : converted c -> cellsOK s0 s (c :: cs) ->
  exists s', isMatch c n json s = ((isMatch c n json s0).1, s') /\ cellsOK s0 s' cs.
Proof using.
  intros Hc [Hu HF]. rewrite filter_cons in HF. destruct (decide (readsName c = true)) as [Hr|Hr].
  - destruct HF as [[-> Hlen]|HF]; [|done]. destruct (isMatch c n json s0) as [b s'] eqn:E. exists s'. split; [done|].
    split; [by eapply isMatch_user|]. right. simpl in Hlen. apply nil_length_inv. lia.
  - apply not_true_is_false in Hr. exists s. split; [by apply isMatch_pure|]. split; [done|]. destruct HF as [[-> ?]|?]; auto.
Qed.

Lemma filter_app_nil (a b : list PushCondition) :
  filter (fun c => readsName c = true) (a ++ b)%list = [] -> filter (fun c => readsName c = true) b = [].
Proof using. rewrite filter_app. by intros [_ ?]%app_eq_nil. Qed.

Lemma cellsOK_drop s0 s a b : cellsOK s0 s (a ++ b)%list -> cellsOK s0 s b.
Proof using.
  intros [Hu [[-> HL]|HF]]; (split; [done|]).
  - left. split; [done|]. rewrite filter_app, length_app in HL. lia.
  - right. by eapply filter_app_nil.
Qed.

Lemma checkCondition_step conds rest n json s0 : Forall converted conds -> Forall (compiles s0 n json) conds ->
  forall s, cellsOK s0 s (conds ++ rest)%list ->
  exists s', checkCondition conds n json s = (Ok (forallb (holds s0 n json) conds), s') /\ cellsOK s0 s' rest.
Proof using.
  induction conds as [|c conds IH]; intros HC HK s HS; [by exists s|].
  apply Forall_cons in HC as [Hc HC]. apply Forall_cons in HK as [[b Hb] HK]. simpl in HS.
  destruct (isMatch_step c (conds ++ rest)%list n json s s0 Hc HS) as (s1 & E1 & HS1).
  cbn [checkCondition forallb]. rewrite Hb in E1. erewrite ST_bind_Ok by exact E1.
  assert (holds s0 n json c = b) as -> by (unfold holds; by rewrite Hb).
  destruct b; simpl; [by apply IH|]. exists s1. split; [done|]. by eapply cellsOK_drop.
Qed.

(** What [fire] does to the counts and contents depends on the user only. *)
Lemma fire_user i hp r c1 c2 k out : userID c1 = userID c2 ->
  (fire i hp r (mkPush c1 k out)).1 = (fire i hp r (mkPush c2 k out)).1 /\
  counts (fire i hp r (mkPush c1 k out)).2 = counts (fire i hp r (mkPush c2 k out)).2 /\
  contents (fire i hp r (mkPush c1 k out)).2 = contents (fire i hp r (mkPush c2 k out)).2.
Proof using.
  intros Hu. unfold fire. simpl. rewrite Hu. destruct (getActions (Actions r)); done.
Qed.

(** What should happen: the first rule that applies fires, if there is one. *)
Definition firstRule (i : Input) (hp : bool) (n : Z) (rules : list PushRule) : ST PushState unit := fun s =>
  match List.find (applies (cells s) n (iJSON i)) rules with
  | Some r => fire i hp r s
  | None => (Ok (), s)
  end.

Lemma pushLoop_first i hp n rules s0 k out :
  Forall (fun r => Forall converted (Conditions r) /\ Forall (compiles s0 n (iJSON i)) (Conditions r)) rules ->
  forall s, cellsOK s0 s (concat (map Conditions rules)) ->
  (pushLoop i hp n rules (mkPush s k out)).1 = (firstRule i hp n rules (mkPush s0 k out)).1 /\
  counts (pushLoop i hp n rules (mkPush s k out)).2 = counts (firstRule i hp n rules (mkPush s0 k out)).2 /\
  contents (pushLoop i hp n rules (mkPush s k out)).2 = contents (firstRule i hp n rules (mkPush s0 k out)).2.
Proof using.
  induction 1 as [|r rules [HC HK] _ IH]; intros s HS; [done|]. cbn [pushLoop]. unfold firstRule in *. cbn [List.find cells].
  unfold applies at 1 3 5. simpl in HS. destruct (Enabled r); simpl; [|apply IH; by eapply cellsOK_drop].
  destruct (checkCondition_step _ _ _ _ _ HC HK s HS) as (s1 & E1 & HS1).
  erewrite ST_bind_Ok by (unfold onCells; simpl; by rewrite E1).
  destruct (forallb (holds s0 n (iJSON i)) (Conditions r)); [apply fire_user; apply HS1|by apply IH].
Qed.

(** ** The counts of one event *)

(** A condition that was converted keeps the identifier of the user. *)
Lemma checkCondition_user cs n json : forall s, Forall converted cs -> userID (checkCondition cs n json s).2 = userID s.
Proof using.
  induction cs as [|c cs IH]; intros s Hc; [done|]. apply Forall_cons in Hc as [Hc Hcs]. cbn [checkCondition].
  unfold mbind, ST_bind. destruct (isMatch c n json s) as [r s1] eqn:E. pose proof (isMatch_user _ _ _ _ _ _ Hc E) as Hu.
  destruct r as [[|]|e| |]; cbn; [|done..]. by rewrite IH.
Qed.

(** The counts of the member after an event that a rule counted or not. *)
Definition countedOrNot (i : Input) (room user : string) (c c' : ReadCountRepo) : Prop :=
  let '(v, h) := counted c room user in
  counted c' room user = (v, h) \/
  (isMessage i = true /\ (counted c' room user = (v + 1, h) \/ counted c' room user = (v + 1, h + 1))).

Lemma not_counted i room user c : countedOrNot i room user c c.
Proof using. unfold countedOrNot. destruct (counted c room user). by left. Qed.

Lemma fire_own i hp rule N s : 0 <= N < 2^63 - 1 -> countsOK N (counts s) ->
  onlyOwn (iRoomID i) (userID (cells s)) (counts s) (counts (fire i hp rule s).2) /\
  countedOrNot i (iRoomID i) (userID (cells s)) (counts s) (counts (fire i hp rule s).2).
Proof using.
  intros HN HOK. assert (Hsame : onlyOwn (iRoomID i) (userID (cells s)) (counts s) (counts s) /\
    countedOrNot i (iRoomID i) (userID (cells s)) (counts s) (counts s)).
  { split; [done|]. apply not_counted. }
  unfold fire. destruct (getActions (Actions rule)) as [a|e| |]; try exact Hsame. clear Hsame.
  set (user := userID (cells s)). set (room := iRoomID i). unfold countedOrNot.
  pose proof (counted_good N (counts s) room user ltac:(lia) HOK) as [Hg1 Hg2].
  destruct (counted (counts s) room user) as [v h] eqn:Ec. cbn [fst snd] in *. destruct (isMessage i) eqn:Em.
  - destruct (Update_own N (counts s) room user Increase ltac:(lia) HOK) as [O1 C1]. rewrite Ec, wrap64_id in C1 by (unfold in64; lia).
    destruct (Increase_OK N (counts s) room user HN HOK) as (HI & _). set (c1 := UpdateRoomReadCount _ _ _ Increase) in *.
    pose proof (Get_own (N + 1) c1 room user ltac:(lia) HI) as O2. pose proof (counted_Get (N + 1) c1 room user ltac:(lia) HI) as C2.
    destruct (Get_loaded (N + 1) c1 room user ltac:(lia) HI) as (v1 & h1 & E1 & _). rewrite E1 in *. cbn [fst snd] in *.
    rewrite C1 in C2. rewrite andb_true_r. destruct (HighLight a).
    + destruct (loaded_spec (N + 1) c1 room user ltac:(lia) HI) as [HL _].
      destruct (Update_own (N + 1) (loaded c1 room user) room user IncreaseHl ltac:(lia) HL) as [O3 C3].
      rewrite C2, wrap64_id in C3 by (unfold in64; lia). split; [|right; split; [done|by right]]. by do 2 (eapply onlyOwn_trans; [done|]).
    + split; [|right; split; [done|by left]]. by eapply onlyOwn_trans.
  - pose proof (Get_own N (counts s) room user ltac:(lia) HOK) as O2. pose proof (counted_Get N (counts s) room user ltac:(lia) HOK) as C2.
    destruct (GetRoomReadCount (counts s) room user) as [[count hl] c2]. cbn [fst snd] in *. rewrite andb_false_r. cbn [andb counts snd].
    split; [done|]. left. by rewrite C2.
Qed.

Lemma pushLoop_own i hp n rules N : 0 <= N < 2^63 - 1 -> forall s, countsOK N (counts s) -> Forall (fun r => Forall converted (Conditions r)) rules ->
  onlyOwn (iRoomID i) (userID (cells s)) (counts s) (counts (pushLoop i hp n rules s).2) /\
  countedOrNot i (iRoomID i) (userID (cells s)) (counts s) (counts (pushLoop i hp n rules s).2).
Proof using.
  intros HN. induction rules as [|v rules IH]; intros s HOK Hc; cbn [pushLoop].
  { split; [done|]. apply not_counted. }
  apply Forall_cons in Hc as [Hv Hc]. destruct (negb (Enabled v)); [by apply IH|].
  pose proof (checkCondition_user (Conditions v) n (iJSON i) (cells s) Hv) as Hu. unfold mbind, ST_bind, onCells.
  destruct (checkCondition (Conditions v) n (iJSON i) (cells s)) as [r c1]. cbn [snd] in Hu. rewrite <- Hu.
  set (s1 := mkPush c1 (counts s) (contents s)). change (counts s) with (counts s1). change c1 with (cells s1) at 1 2.
  destruct r as [[|]|e| |]; [by apply (fire_own i hp v N s1)|by apply (IH s1)|..]; (split; [done|apply not_counted]).
Qed.

(** C33: an event changes the unread counts of one room and member, by one.  Whatever
    event is processed for a member, with rules whose [user_id] patterns were
    converted: the counts of every other key and the cache stay; the sender's own
    counts become zero; for another member a message adds at most one to the unread
    count and at most one highlight with it, a redaction takes away at most one, and
    any other event changes nothing.  Highlights stay between zero and the unread
    count in every key, and so they do, in the cache too, after the counts are
    flushed. *)
Theorem unread_counts_sound (N : Z) (dbOffset : string -> string -> res Z) (i : Input) (hasPushers : bool)
  (memCount eventOffset redactOffset : Z) (isRelated : bool) (global : Rules) (name member : string)
  (e : EventReadStreamRepo) (c : ReadCountRepo) (out : list PushPubContent) (setFails : string -> string -> bool)
  (HN : 0 <= N < 2^63 - 1) (Hc : countsOK N c) (Hconv : Forall (fun r => Forall converted (Conditions r)) (ruleOrder global)) :
  let '(_, (_, c', _)) :=
    preProcessPush dbOffset i hasPushers memCount eventOffset redactOffset isRelated global name member e c out in
  countsOK (N + 1) c' /\ countsOK (N + 1) (flush setFails c') /\ onlyOwn (iRoomID i) member c c' /\
  let '(v, h) := counted c (iRoomID i) member in
  let '(v', h') := counted c' (iRoomID i) member in
  0 <= h' <= v' /\
  if String.eqb member (iSender i) then v' = 0
  else if isMessage i then (v', h') = (v, h) \/ (v', h') = (v + 1, h) \/ (v', h') = (v + 1, h + 1)
  else (v', h') = (v, h) \/
       (iType i = "m.room.redaction" /\ v' = Z.max 0 (v - 1) /\ h' = Z.min h v').
Proof using.
  pose proof (preProcess_OK N dbOffset i hasPushers memCount eventOffset redactOffset isRelated global name member e c out setFails HN Hc) as HS.
  revert HS. unfold preProcessPush. set (room := iRoomID i). destruct (String.eqb member (iSender i)); cbn [negb].
  { intros [S1 S2]. split; [done|]. split; [done|]. destruct (Update_own N c room member Reset ltac:(lia) Hc) as [O1 C1]. split; [done|].
    rewrite C1. destruct (counted c room member). cbn. lia. }
  assert (HC : exists e1 c1, (if String.eqb (iType i) "m.room.redaction" then
         let '(last, e1) := GetUserLastOffset dbOffset e member room in
         (e1, if ((last <? redactOffset) || (redactOffset =? -1)) && negb isRelated
              then UpdateRoomReadCount c room member Decrease else c) else (e, c)) = (e1, c1) /\ countsOK N c1 /\
      (c1 = c \/ (iType i = "m.room.redaction" /\ c1 = UpdateRoomReadCount c room member Decrease))).
  { destruct (String.eqb_spec (iType i) "m.room.redaction") as [Et|]; [|eexists _, _; split_and!; auto].
    destruct (GetUserLastOffset _ _ _ _) as [last e1]. eexists _, _. split; [done|].
    destruct (_ && _); [split; [apply Decrease_OK; [lia|done]|auto]|auto]. }
  destruct HC as (e1 & c1 & -> & HC1 & Hc1).
  assert (HP : let c' := counts (processPush i hasPushers memCount (ruleOrder global) (mkPush (mkCells member name) c1 out)).2 in
             onlyOwn room member c1 c' /\ countedOrNot i room member c1 c').
  { unfold processPush. destruct (String.eqb _ _); [|by apply (pushLoop_own i hasPushers memCount _ N HN (mkPush (mkCells member name) c1 out))].
    split; [done|apply not_counted]. }
  destruct (processPush _ _ _ _ _) as [r s]. cbn [snd] in HP. cbv zeta in HP. destruct HP as [O1 C1]. intros [S1 S2].
  split; [done|]. split; [done|].
  pose proof (counted_good (N + 1) (counts s) room member ltac:(lia) S1) as [Hg1 Hg2]. unfold countedOrNot in C1.
  destruct Hc1 as [->|(Et & ->)].
  - split; [done|]. destruct (counted c room member) as [v h], (counted (counts s) room member) as [v' h']. cbn [fst snd] in *.
    split; [lia|]. destruct (isMessage i); [tauto|]. destruct C1 as [C1|[? _]]; [by left|done].
  - destruct (Update_own N c room member Decrease ltac:(lia) Hc) as [O2 C2]. split; [by eapply onlyOwn_trans|].
    assert (Em : isMessage i = false) by (unfold isMessage; by rewrite Et). rewrite Em in *. rewrite C2 in C1.
    destruct (counted c room member) as [v h]. destruct (counted (counts s) room member) as [v' h']. cbn [fst snd] in *.
    split; [lia|]. destruct C1 as [[= -> ->]|[? _]]; [|done]. right. done.
Qed.

(** C34: The first matching rule decides, when the rules are converted
    ([ConvertConditions]), at most one of all their conditions reads the display name,
    and the patterns compile: a notice does nothing; for any other event the first
    enabled rule all of whose conditions hold acts, exactly once, and the rules after
    it are not looked at; without such a rule nothing happens. *)
Theorem first_matching_rule_acts (i : Input) (hasPushers : bool) (memCount : Z) (rules : list PushRule)
  (c : Cells) (k : ReadCountRepo) (out : list PushPubContent)
  (Hconv : Forall (fun r => Forall converted (Conditions r)) rules)
  (Hcomp : Forall (fun r => Forall (compiles c memCount (iJSON i)) (Conditions r)) rules)
  (Hname : (nameReads rules <= 1)%nat) :
  let s := mkPush c k out in
  let '(r, s') := processPush i hasPushers memCount rules s in
  let '(r1, s1) := if String.eqb (jStr (iJSON i) "content.msgtype") "m.notice" then (Ok (), s)
                   else firstRule i hasPushers memCount rules s in
  r = r1 /\ counts s' = counts s1 /\ contents s' = contents s1.
Proof using.
  cbv zeta. unfold processPush. destruct (String.eqb _ "m.notice"); [done|].
  destruct (pushLoop_first i hasPushers memCount rules c k out) with (s := c) as (E1 & E2 & E3).
  { apply Forall_forall. intros r Hr. rewrite Forall_forall in Hconv, Hcomp. auto. }
  { split; [done|]. left. done. }
  destruct (pushLoop _ _ _ _ _) as [r s'], (firstRule _ _ _ _ _) as [r1 s1]. done.
Qed.

(** ** The display name *)

Lemma isGlob_app a b : isGlob (a ++ b) = isGlob a || isGlob b.
Proof using.
  induction a as [|x a IH]; [done|]. change (String x a ++ b) with (String x (a ++ b)).
  unfold isGlob in *. cbn [list_ascii_of_string existsb]. by rewrite IH, orb_assoc.
Qed.

Lemma isGlob_QuoteMeta s : isGlob (QuoteMeta s) = isGlob s.
Proof using.
  unfold isGlob. induction s as [|c s IH]; [done|]. cbn [QuoteMeta].
  destruct (isMeta c); cbn [list_ascii_of_string existsb]; by rewrite IH.
Qed.

Lemma containsDisplayName_word json s : displayName s <> "" -> isGlob (displayName s) = false ->
  jString json "content.body" <> "" ->
  containsDisplayName json s =
  match MatchString (wordPattern (QuoteMeta (displayName s))) (jString json "content.body") with
  | Some b => (Ok b, mkCells (userID s) (wordPattern (QuoteMeta (displayName s))))
  | None => (Panic, s)
  end.
Proof using.
  intros Hn Hg Hb. unfold containsDisplayName, globalMatch, globalPattern.
  rewrite (proj2 (String.eqb_neq _ _) Hn), (proj2 (String.eqb_neq _ _) Hb), Hg. by destruct (MatchString _ _).
Qed.

(** the display name is matched once: the first condition that reads the
    display name overwrites it with the regular expression built from it; every
    further one looks for the text of that expression, and does not match a
    message that contains the name only.  The regular expression library finds
    a quoted text only where the text is. *)
Theorem second_name_condition_dead (json : string) (s : Cells)
  (Hquote : forall a t, exists b, MatchString (wordPattern (QuoteMeta a)) t = Some b /\ (b = true -> str_contains a t = true))
  (Hname : displayName s <> "") (Hglob : isGlob (displayName s) = false)
  (Hbody : jString json "content.body" <> "")
  (Htext : str_contains (wordPattern (QuoteMeta (displayName s))) (jString json "content.body") = false) :
  exists b s1, containsDisplayName json s = (Ok b, s1) /\ (containsDisplayName json s1).1 = Ok false.
Proof using.
  rewrite (containsDisplayName_word json s) by done.
  destruct (Hquote (displayName s) (jString json "content.body")) as (b & -> & _).
  eexists _, _. split; [done|]. rewrite containsDisplayName_word; [|done| |done]; cbn [displayName].
  - destruct (Hquote (wordPattern (QuoteMeta (displayName s))) (jString json "content.body")) as ([|] & -> & Hb); [|done].
    rewrite Hb in Htext by done. done.
  - unfold wordPattern. by rewrite !isGlob_app, isGlob_QuoteMeta, Hglob.
Qed.

End Facts.

(** ** Actions of the user's own rules *)

Section Own.
  Context `{PushCache}.

Definition notTweak (a : Action) : Prop := match a with ATweak _ => False | _ => True end.

Lemma applyActions_plain acts : Forall notTweak acts -> forall a,
  exists n, applyActions a acts = Ok (mkTweakAction n (Sound a) (HighLight a)).
Proof using.
  induction 1 as [|v acts Hv _ IH]; intros a; simpl; [by exists (Notify a); destruct a|].
  destruct v as [n|t|o]; simpl; [destruct (IH (mkTweakAction n (Sound a) (HighLight a))) as [n' ->]; by eexists|done|apply IH].
Qed.

(** the tweaks of the user's own rules are lost: the actions of a rule from
    the cache are decoded from JSON, where a tweak is a map and not a [Tweak], so
    the rule never highlights and never has a sound. *)
Theorem own_rules_never_highlight (data : PushRuleCacheData)
  (Hjson : forall s l, decActions s = Some l -> Forall notTweak l) :
  exists n, getActions (Actions (ConvertPushRule data false)) = Ok (mkTweakAction n "" false).
Proof using.
  unfold getActions, ConvertPushRule. destruct (decActions (dActions data)) as [acts|] eqn:E; [|by exists ""].
  assert (HA : forall conds, Actions (mkRule acts false false (dRuleId data) conds "") = acts) by done.
  destruct (decConditions (dConditions data)); rewrite HA; apply (applyActions_plain acts); by eapply Hjson.
Qed.

End Own.

(** ** Runs *)

(** Expressions of the two shapes [globalMatch] builds from plain text: the
    quoted text is looked for. *)
Fixpoint unquote (s : string) : string :=
  match s with
  | String "\" (String c s') => String c (unquote s')
  | String c s' => String c (unquote s')
  | EmptyString => ""
  end.

Definition stripWord (p : string) : string := String.substring 6 (String.length p - 12) p.

#[export] Instance simpleRegexp : GoRegexp := {|
  MatchString p t :=
    if String.prefix "(^|\W)" p then Some (str_contains (unquote (stripWord p)) t)
    else Some (String.eqb p ("^" ++ QuoteMeta t ++ "$"));
  FindGlob _ := None;
|}.

(** The JSON of an event is its type, a bar and its body. *)
#[export] Instance simpleJson : EventJson := {|
  jString json path :=
    match cut_at "|" json with
    | Some (t, b) => if String.eqb path "content.body" then b else if String.eqb path "type" then t else ""
    | None => ""
    end;
  jStr _ _ := "";
  jRaw _ _ := "";
|}.

Definition demoInput : Input := mkInput "m.room.message" "!r:a" "@alice:a" "m.room.message|hello bob".
Definition demoCells : Cells := mkCells "@bob:b" "bob".

Definition demoRules : list PushRule :=
  (mkRule GetAction2 false true "mine" [mkCond "contains_display_name" "" "" ""] "" :: BaseUnderRideRules)%list.

Definition demoCounts : ReadCountRepo :=
  mkCounts {[ "!r:a:@bob:b" := 2 ]} {[ "!r:a:@bob:b" := 1 ]} ∅ ∅.

Lemma demoCounts_OK : countsOK 5 demoCounts.
Proof.
  split; simpl.
  - intros k. destruct (decide ("!r:a:@bob:b" = k)) as [<-|Hne].
    + rewrite !lookup_singleton_eq. split; eauto.
    + by rewrite !lookup_singleton_ne.
  - intros k v h [<- <-]%lookup_singleton_Some [_ <-]%lookup_singleton_Some. lia.
  - intros k h v E. by rewrite lookup_empty in E.
Qed.

Lemma unread_counts_sound_witness :
  let '(_, (_, c', _)) :=
    preProcessPush (fun _ _ => Ok 0) demoInput true 2 7 (-1) false (mkRules [] demoRules [] [] []) "bob" "@bob:b"
      (mkReadStream ∅) demoCounts [] in
  countsOK 6 c' /\ countsOK 6 (flush (fun _ _ => false) c') /\ onlyOwn "!r:a" "@bob:b" demoCounts c' /\
  let '(v, h) := counted demoCounts "!r:a" "@bob:b" in
  let '(v', h') := counted c' "!r:a" "@bob:b" in
  0 <= h' <= v' /\ ((v', h') = (v, h) \/ (v', h') = (v + 1, h) \/ (v', h') = (v + 1, h + 1)).
Proof.
  apply (unread_counts_sound 5 (fun _ _ => Ok 0) demoInput true 2 7 (-1) false (mkRules [] demoRules [] [] []) "bob" "@bob:b"
    (mkReadStream ∅) demoCounts [] (fun _ _ => false)); [lia|exact demoCounts_OK|].
  unfold ruleOrder, demoRules, BaseUnderRideRules, converted. repeat constructor; simpl; intros _; discriminate.
Defined.

(** The user's rule fires: the message is counted and highlighted, and the user
    is notified. *)
Lemma first_matching_rule_acts_witness :
  let s := mkPush demoCells demoCounts [] in
  let '(r, s') := processPush demoInput true 2 demoRules s in
  let '(r1, s1) := if String.eqb (jStr (iJSON demoInput) "content.msgtype") "m.notice" then (Ok (), s)
                   else firstRule demoInput true 2 demoRules s in
  r = r1 /\ counts s' = counts s1 /\ contents s' = contents s1.
Proof.
  apply (first_matching_rule_acts demoInput true 2 demoRules demoCells demoCounts []).
  - unfold demoRules, BaseUnderRideRules, converted. repeat constructor; simpl; intros _; discriminate.
  - unfold demoRules, BaseUnderRideRules, compiles. repeat constructor; eexists; vm_compute; reflexivity.
  - vm_compute. reflexivity.
Defined.

(** *** The simple expressions *)

Lemma unquote_QuoteMeta s : unquote (QuoteMeta s) = s.
Proof.
  induction s as [|c s IH]; [done|]. cbn [QuoteMeta]. destruct (isMeta c) eqn:E; [cbn [unquote]; by rewrite IH|].
  destruct (Ascii.eqb_spec c "\") as [->|Hne]; [done|].
  destruct c as [[] [] [] [] [] [] [] []]; simpl; try (by rewrite IH); done.
Qed.

Lemma length_append a b : String.length (a ++ b) = (String.length a + String.length b)%nat.
Proof. induction a as [|c a IH]; [done|]. change (String c a ++ b) with (String c (a ++ b)). cbn [String.length]. by rewrite IH. Qed.

Lemma substring_app s x : String.substring 0 (String.length s) (s ++ x) = s.
Proof.
  induction s as [|c s IH]; [by destruct x|].
  change (String c s ++ x) with (String c (s ++ x)). cbn [String.length String.substring]. by rewrite IH.
Qed.

Lemma prefix_app p x : String.prefix p (p ++ x) = true.
Proof.
  induction p as [|c p IH]; [by destruct x|]. change (String c p ++ x) with (String c (p ++ x)).
  cbn [String.prefix]. destruct (ascii_dec c c); [done|congruence].
Qed.

Lemma stripWord_wordPattern s : stripWord (wordPattern s) = s.
Proof.
  unfold stripWord, wordPattern. rewrite !length_append. cbn [String.length].
  replace (6 + (String.length s + 6) - 12)%nat with (String.length s) by lia.
  exact (substring_app s "(\W|$)").
Qed.

Lemma simple_quote a t :
  exists b, MatchString (wordPattern (QuoteMeta a)) t = Some b /\ (b = true -> str_contains a t = true).
Proof.
  exists (str_contains a t). split; [|done]. unfold MatchString, simpleRegexp.
  rewrite stripWord_wordPattern, unquote_QuoteMeta.
  unfold wordPattern. by rewrite prefix_app.
Qed.

Lemma second_name_condition_dead_witness :
  exists b s1, containsDisplayName (iJSON demoInput) demoCells = (Ok b, s1) /\
    (containsDisplayName (iJSON demoInput) s1).1 = Ok false.
Proof.
  apply (second_name_condition_dead (iJSON demoInput) demoCells simple_quote); [discriminate|reflexivity|discriminate|].
  vm_compute. reflexivity.
Defined.

Lemma own_rules_never_highlight_witness :
  exists n, getActions (Actions (ConvertPushRule (mkRuleData "u" "global/content/x" 4 0 "bob" "highlight") false)) =
    Ok (mkTweakAction n "" false).
Proof.
  apply own_rules_never_highlight. intros s l. simpl.
  destruct (String.eqb s "notify"); [intros [= <-]; repeat constructor|].
  destruct (String.eqb s "highlight"); [intros [= <-]; repeat constructor|discriminate].
Defined.

End PushFacts.
