(* ===== verification/RoomTables.v ===== *)
(** * The room server's database

    [src/storage/implements/roomserver/]: the tables of the room server, the
    statements on them and the operations of [Database] made of the statements.

    A table is a finite map from its primary key to the columns some statement
    reads (the columns no statement reads are left out).  [INSERT ... ON CONFLICT
    ON CONSTRAINT c DO NOTHING] ignores a row that clashes on [c] and fails on a
    row that clashes on another unique index.  A statement without [ORDER BY]
    returns its rows in an order the server chooses: that order is the parameter
    [SqlRows].  A statement can fail before it reaches the tables: [faults] says
    which of the next ones do.

    With [AsyncSave] an operation does not touch the tables: it sends the update
    to the message queue, which a consumer applies (file [DbPipeline]). *)

From Stdlib Require Import String Ascii ZArith List.
From stdpp Require Import base tactics list gmap strings.
From S2P Require Import Prelude Snowflake Ids Event RoomState.

#[local] Open Scope string_scope.
#[local] Open Scope Z_scope.

Module RoomTables.
Import Event RoomState.

(** ** Parameters *)

(** The row order of a statement without [ORDER BY]. *)
Class SqlRows := {
  scan : forall {A : Type}, list A -> list A;
  scan_perm : forall (A : Type) (l : list A), Permutation (scan l) l;
}.

(** [encryption.Encryption], an interface the deployment provides. *)
Class Encryption := {
  CheckCrypto : string -> bool;
  CheckMirror : string -> bool;
  Encrypt : string -> string;
  Decrypt : string -> string;
}.

(** [EmptyEncryption], the default. *)
#[global] Instance EmptyEncryption : Encryption := {|
  CheckCrypto _ := false;
  CheckMirror _ := false;
  Encrypt data := data;
  Decrypt data := data;
|}.

(** The JSON library on events: [Event.JSON], and the event
    [NewEventFromUntrustedJSON] returns (its error is ignored by the callers). *)
Class EventJSON := {
  eventJSON : Event -> string;
  NewEventFromUntrustedJSON : string -> Event;
}.

(** ** Rows *)

Record EventRow := mkEventRow {
  e_room_nid : Z;
  e_type : string;
  e_state_key : string;
  e_snap : Z;
  e_depth : Z;
  e_event_id : string;
  e_offsets : Z;
  e_domain : string;
}.

Record RoomRow := mkRoomRow {
  r_room_id : string;
  r_last_sent : Z;
  r_snap : Z;
  r_depth : Z;
  r_version : Z;
}.

Record InviteRow := mkInviteRow {
  i_room_nid : Z;
  i_target : string;
  i_sender : string;
  i_retired : bool;
  i_json : string;
}.

Record MemberRow := mkMemberRow {
  m_forget_nid : Z;
  m_membership : Z;
  m_event_nid : Z;
  m_sender : string;
  m_room_id : string;
  m_version : Z;
}.

Record Tables := mkTables {
  t_events : gmap Z EventRow;
  t_json : gmap Z string;
  t_mirror : gmap Z string;
  t_rooms : gmap Z RoomRow;
  t_snaps : gmap Z (Z * list Z);
  t_invites : gmap string InviteRow;
  t_members : gmap (Z * string) MemberRow;
  t_aliases : gmap string string;
  t_domains : gmap (Z * string) Z;
  t_settings : gmap string string;
}.

Definition noTables : Tables := mkTables ∅ ∅ ∅ ∅ ∅ ∅ ∅ ∅ ∅ ∅.

Definition set_events (t : Tables) x := mkTables x (t_json t) (t_mirror t) (t_rooms t) (t_snaps t) (t_invites t) (t_members t) (t_aliases t) (t_domains t) (t_settings t).
Definition set_json (t : Tables) x y := mkTables (t_events t) x y (t_rooms t) (t_snaps t) (t_invites t) (t_members t) (t_aliases t) (t_domains t) (t_settings t).
Definition set_rooms (t : Tables) x := mkTables (t_events t) (t_json t) (t_mirror t) x (t_snaps t) (t_invites t) (t_members t) (t_aliases t) (t_domains t) (t_settings t).
Definition set_snaps (t : Tables) x := mkTables (t_events t) (t_json t) (t_mirror t) (t_rooms t) x (t_invites t) (t_members t) (t_aliases t) (t_domains t) (t_settings t).
Definition set_invites (t : Tables) x := mkTables (t_events t) (t_json t) (t_mirror t) (t_rooms t) (t_snaps t) x (t_members t) (t_aliases t) (t_domains t) (t_settings t).
Definition set_members (t : Tables) x := mkTables (t_events t) (t_json t) (t_mirror t) (t_rooms t) (t_snaps t) (t_invites t) x (t_aliases t) (t_domains t) (t_settings t).
Definition set_aliases (t : Tables) x := mkTables (t_events t) (t_json t) (t_mirror t) (t_rooms t) (t_snaps t) (t_invites t) (t_members t) x (t_domains t) (t_settings t).
Definition set_domains (t : Tables) x := mkTables (t_events t) (t_json t) (t_mirror t) (t_rooms t) (t_snaps t) (t_invites t) (t_members t) (t_aliases t) x (t_settings t).
Definition set_settings (t : Tables) x := mkTables (t_events t) (t_json t) (t_mirror t) (t_rooms t) (t_snaps t) (t_invites t) (t_members t) (t_aliases t) (t_domains t) x.

(** ** Updates in flight

    [dbtypes.DBEvent] of the room category: a key and, in [RoomDBEvents], the
    payload of that key. *)
Inductive DBEvent :=
  | EventJsonInsert (nid : Z) (json type : string)
  | EventInsert (nid : Z) (row : EventRow)
  | EventRoomInsert (roomNID : Z) (roomID : string)
  | EventRoomUpdate (roomNID last snap version depth : Z)
  | EventStateSnapInsert (snap roomNID : Z) (blocks : list Z)
  | EventInviteInsert (eventID : string) (roomNID : Z) (target sender content : string)
  | EventInviteUpdate (roomNID : Z) (target : string)
  | EventMembershipInsert (roomNID : Z) (target roomID : string) (membership eventNID : Z)
  | EventMembershipUpdate (roomNID : Z) (target sender : string) (membership eventNID version : Z)
  | EventMembershipForgetUpdate (roomNID : Z) (target : string) (forget : Z)
  | AliaseInsert (alias roomID : string)
  | AliaseDelete (alias : string)
  | RoomDomainInsert (roomNID : Z) (domain : string) (offset : Z)
  | RoomEventUpdate (nid roomNID depth offset : Z) (domain : string)
  | RoomDepthUpdate (roomNID depth : Z)
  | SettingsInsert (key val : string).

(** [DBEvent.Key]. *)
Definition Key (e : DBEvent) : Z :=
  match e with
  | EventJsonInsert _ _ _ => 0
  | EventInsert _ _ => 1
  | EventRoomInsert _ _ => 2
  | EventRoomUpdate _ _ _ _ _ => 3
  | EventStateSnapInsert _ _ _ => 4
  | EventInviteInsert _ _ _ _ _ => 5
  | EventInviteUpdate _ _ => 6
  | EventMembershipInsert _ _ _ _ _ => 7
  | EventMembershipUpdate _ _ _ _ _ _ => 8
  | EventMembershipForgetUpdate _ _ _ => 9
  | AliaseInsert _ _ => 10
  | AliaseDelete _ => 11
  | RoomDomainInsert _ _ _ => 12
  | RoomEventUpdate _ _ _ _ _ => 13
  | RoomDepthUpdate _ _ => 14
  | SettingsInsert _ _ => 15
  end.

(** The topic an update is written to ([WriteDBEventWithTbl]). *)
Inductive table :=
  | TEvents | TJson | TRooms | TSnaps | TInvites | TMembers | TAliases | TDomains | TSettings.

#[export] Instance table_eq_dec : EqDecision table.
Proof. solve_decision. Defined.

Definition tableOf (e : DBEvent) : table :=
  match e with
  | EventJsonInsert _ _ _ => TJson
  | EventInsert _ _ | RoomEventUpdate _ _ _ _ _ => TEvents
  | EventRoomInsert _ _ | EventRoomUpdate _ _ _ _ _ | RoomDepthUpdate _ _ => TRooms
  | EventStateSnapInsert _ _ _ => TSnaps
  | EventInviteInsert _ _ _ _ _ | EventInviteUpdate _ _ => TInvites
  | EventMembershipInsert _ _ _ _ _ | EventMembershipUpdate _ _ _ _ _ _
  | EventMembershipForgetUpdate _ _ _ => TMembers
  | AliaseInsert _ _ | AliaseDelete _ => TAliases
  | RoomDomainInsert _ _ _ => TDomains
  | SettingsInsert _ _ => TSettings
  end.

(** [DBEvent.Uid], which with the table is the partition key of the message;
    an alias is hashed ([hash] stands for [CalcStringHashCode64]). *)
Definition Uid (hash : string -> Z) (e : DBEvent) : Z :=
  match e with
  | EventJsonInsert nid _ _ => nid
  | EventInsert _ row => e_room_nid row
  | EventRoomInsert roomNID _ | EventRoomUpdate roomNID _ _ _ _ => roomNID
  | EventStateSnapInsert snap _ _ => snap
  | EventInviteInsert _ roomNID _ _ _ | EventInviteUpdate roomNID _ => roomNID
  | EventMembershipInsert roomNID _ _ _ _ | EventMembershipUpdate roomNID _ _ _ _ _
  | EventMembershipForgetUpdate roomNID _ _ => roomNID
  | AliaseInsert alias _ | AliaseDelete alias => hash alias
  | RoomDomainInsert roomNID _ _ => roomNID
  | RoomEventUpdate _ roomNID _ _ _ => roomNID
  | RoomDepthUpdate roomNID _ => roomNID
  | SettingsInsert _ _ => 0
  end.

(** ** Statements that write

    Each returns the new tables or the error of the statement. *)

Definition uniqueViolation : goerr := ErrMsg "duplicate key value violates unique constraint".

Definition hasEventID (m : gmap Z EventRow) (id : string) : bool :=
  existsb (fun kv : Z * EventRow => String.eqb (e_event_id kv.2) id) (map_to_list m).

Definition hasRoomID (m : gmap Z RoomRow) (id : string) : bool :=
  existsb (fun kv : Z * RoomRow => String.eqb (r_room_id kv.2) id) (map_to_list m).

(** [insertEventRaw]; the query that follows it only logs. *)
Definition insertEventRaw (nid : Z) (row : EventRow) (t : Tables) : res Tables :=
  if hasEventID (t_events t) (e_event_id row) then Ok t
  else match t_events t !! nid with
       | Some _ => Err uniqueViolation
       | None => Ok (set_events t (<[nid := row]> (t_events t)))
       end.

Definition setPosition (depth offset : Z) (domain : string) (r : EventRow) : EventRow :=
  mkEventRow (e_room_nid r) (e_type r) (e_state_key r) (e_snap r) depth (e_event_id r) offset domain.

Definition onUpdateRoomEvent (nid roomNID depth offset : Z) (domain : string) (t : Tables) : res Tables :=
  Ok (set_events t (alter (fun r => if e_room_nid r =? roomNID then setPosition depth offset domain r else r)
                          nid (t_events t))).

Definition insertNothing {K A} `{Countable K} (k : K) (a : A) (m : gmap K A) : gmap K A :=
  match m !! k with Some _ => m | None => <[k := a]> m end.

(** The two statements of [insertEventJSONRaw]. *)
Definition insertJSON (nid : Z) (json : string) (t : Tables) : res Tables :=
  Ok (set_json t (insertNothing nid json (t_json t)) (t_mirror t)).
Definition insertMirror (nid : Z) (json : string) (t : Tables) : res Tables :=
  Ok (set_json t (t_json t) (insertNothing nid json (t_mirror t))).

Definition insertRoomNIDRaw (roomNID : Z) (roomID : string) (t : Tables) : res Tables :=
  if hasRoomID (t_rooms t) roomID then Ok t
  else match t_rooms t !! roomNID with
       | Some _ => Err uniqueViolation
       | None => Ok (set_rooms t (<[roomNID := mkRoomRow roomID 0 0 0 0]> (t_rooms t)))
       end.

Definition updateLatestEventNIDsRaw (roomNID last snap version depth : Z) (t : Tables) : res Tables :=
  Ok (set_rooms t (alter (fun r => if r_version r <? version
                                   then mkRoomRow (r_room_id r) last snap depth version else r)
                         roomNID (t_rooms t))).

Definition onUpdateRoomDepth (depth roomNID : Z) (t : Tables) : res Tables :=
  Ok (set_rooms t (alter (fun r => mkRoomRow (r_room_id r) (r_last_sent r) (r_snap r) depth (r_version r))
                         roomNID (t_rooms t))).

Definition insertStateRaw (snap roomNID : Z) (blocks : list Z) (t : Tables) : res Tables :=
  Ok (set_snaps t (insertNothing snap (roomNID, blocks) (t_snaps t))).

Definition insertInviteEventRaw (eventID : string) (roomNID : Z) (target sender content : string)
    (t : Tables) : res Tables :=
  Ok (set_invites t (insertNothing eventID (mkInviteRow roomNID target sender false content) (t_invites t))).

Definition retire (roomNID : Z) (target : string) (r : InviteRow) : InviteRow :=
  if (i_room_nid r =? roomNID) && String.eqb (i_target r) target && negb (i_retired r)
  then mkInviteRow (i_room_nid r) (i_target r) (i_sender r) true (i_json r) else r.

Definition updateInviteRetiredRaw (roomNID : Z) (target : string) (t : Tables) : res Tables :=
  Ok (set_invites t (retire roomNID target <$> t_invites t)).

Definition membershipInsertdRaw (roomNID : Z) (target roomID : string) (membership eventNID : Z)
    (t : Tables) : res Tables :=
  Ok (set_members t (insertNothing (roomNID, target)
                       (mkMemberRow (-1) membership eventNID "" roomID 0) (t_members t))).

Definition membershipUpdateRaw (roomNID : Z) (target sender : string) (membership eventNID version : Z)
    (t : Tables) : res Tables :=
  Ok (set_members t (alter (fun r => if m_version r <? version
                                     then mkMemberRow (m_forget_nid r) membership eventNID sender (m_room_id r) version
                                     else r)
                           (roomNID, target) (t_members t))).

Definition membershipForgetUpdateRaw (roomNID : Z) (target : string) (forget : Z) (t : Tables) : res Tables :=
  Ok (set_members t (alter (fun r => if m_forget_nid r =? -1
                                     then mkMemberRow forget (m_membership r) (m_event_nid r) (m_sender r) (m_room_id r) (m_version r)
                                     else r)
                           (roomNID, target) (t_members t))).

Definition insertRoomAliasRaw (alias roomID : string) (t : Tables) : res Tables :=
  Ok (set_aliases t (insertNothing alias roomID (t_aliases t))).

Definition deleteRoomAliasRaw (alias : string) (t : Tables) : res Tables :=
  Ok (set_aliases t (delete alias (t_aliases t))).

Definition insertRoomDomainsRaw (roomNID : Z) (domain : string) (offset : Z) (t : Tables) : res Tables :=
  Ok (set_domains t (<[(roomNID, domain) := offset]> (t_domains t))).

Definition insertSettingRaw (key val : string) (t : Tables) : res Tables :=
  Ok (set_settings t (<[key := val]> (t_settings t))).

(** The statement of an update other than the insertion of JSON. *)
Definition statement (e : DBEvent) : Tables -> res Tables :=
  match e with
  | EventJsonInsert nid json _ => insertJSON nid json
  | EventInsert nid row => insertEventRaw nid row
  | EventRoomInsert roomNID roomID => insertRoomNIDRaw roomNID roomID
  | EventRoomUpdate roomNID last snap version depth => updateLatestEventNIDsRaw roomNID last snap version depth
  | EventStateSnapInsert snap roomNID blocks => insertStateRaw snap roomNID blocks
  | EventInviteInsert eventID roomNID target sender content => insertInviteEventRaw eventID roomNID target sender content
  | EventInviteUpdate roomNID target => updateInviteRetiredRaw roomNID target
  | EventMembershipInsert roomNID target roomID membership eventNID => membershipInsertdRaw roomNID target roomID membership eventNID
  | EventMembershipUpdate roomNID target sender membership eventNID version => membershipUpdateRaw roomNID target sender membership eventNID version
  | EventMembershipForgetUpdate roomNID target forget => membershipForgetUpdateRaw roomNID target forget
  | AliaseInsert alias roomID => insertRoomAliasRaw alias roomID
  | AliaseDelete alias => deleteRoomAliasRaw alias
  | RoomDomainInsert roomNID domain offset => insertRoomDomainsRaw roomNID domain offset
  | RoomEventUpdate nid roomNID depth offset domain => onUpdateRoomEvent nid roomNID depth offset domain
  | RoomDepthUpdate roomNID depth => onUpdateRoomDepth depth roomNID
  | SettingsInsert key val => insertSettingRaw key val
  end.

(** ** The connection

    [U] is the type of the updates sent to the queue, [T] the tables. *)

Record Conn (U T : Type) := mkConn {
  tabs : T;
  asyncSave : bool;
  outbox : list U;
  idg : Snowflake.UidGenerator;
  clock : list Z;
  faults : list bool;
}.
Arguments mkConn {U T}.
Arguments tabs {U T}.
Arguments asyncSave {U T}.
Arguments outbox {U T}.
Arguments idg {U T}.
Arguments clock {U T}.
Arguments faults {U T}.

Abbreviation DB := (ST (Conn DBEvent Tables)).

Definition connErr : goerr := ErrMsg "driver: bad connection".

Section Connection.
  Context {U T : Type}.
  #[local] Abbreviation C := (Conn U T).

Definition set_tabs (c : C) (t : T) : C :=
  mkConn t (asyncSave c) (outbox c) (idg c) (clock c) (faults c).
Definition set_faults (c : C) (f : list bool) : C :=
  mkConn (tabs c) (asyncSave c) (outbox c) (idg c) (clock c) f.

(** Whether the next call on the connection succeeds. *)
Definition pop : ST C bool := fun c =>
  (Ok (match faults c with false :: _ => false | _ => true end), set_faults c (tail (faults c))).

Definition getTabs : ST C T := fun c => (Ok (tabs c), c).
Definition putTabs (t : T) : ST C unit := fun c => (Ok (), set_tabs c t).

(** One statement. *)
Definition exec (f : T -> res T) : ST C unit :=
  up ← pop;
  if negb up then fail connErr
  else
    t ← getTabs;
    t1 ← liftR (f t);
    putTabs t1.

Definition query {A} (f : T -> res A) : ST C A :=
  up ← pop;
  if negb up then fail connErr
  else
    t ← getTabs;
    liftR (f t).

(** A statement whose error is overwritten by the next one's. *)
Definition ignoring (m : ST C unit) : ST C unit := fun c =>
  match m c with
  | (Err _, c1) => (Ok (), c1)
  | r => r
  end.

(** [s.db.idg.Next()]. *)
Definition nextID : ST C Z := fun c =>
  match Snowflake.Next (idg c) (clock c) with
  | Some (id, g, clk) => (Ok id, mkConn (tabs c) (asyncSave c) (outbox c) g clk (faults c))
  | None => (Diverge, c)
  end.

Definition WriteDBEventWithTbl (e : U) : ST C unit := fun c =>
  (Ok (), mkConn (tabs c) (asyncSave c) (outbox c ++ [e])%list (idg c) (clock c) (faults c)).

Definition getAsync : ST C bool := fun c => (Ok (asyncSave c), c).

End Connection.

Section Operations.
  Context `{SqlRows} `{Encryption} `{EventJSON}.

Definition insertEventJSONRaw (nid : Z) (json type : string) : DB unit :=
  if CheckCrypto type then
    if CheckMirror type then
      _ ← ignoring (exec (insertJSON nid (Encrypt json)));
      exec (insertMirror nid json)
    else exec (insertJSON nid (Encrypt json))
  else exec (insertJSON nid json).

(** The [...Raw] function of an update. *)
Definition applyRaw (e : DBEvent) : DB unit :=
  match e with
  | EventJsonInsert nid json type => insertEventJSONRaw nid json type
  | _ => exec (statement e)
  end.

(** The shape every writing operation has: to the queue, or to the table. *)
Definition save (e : DBEvent) : DB unit :=
  a ← getAsync;
  if (a : bool) then WriteDBEventWithTbl e else applyRaw e.

(** ** Writing operations of [Database] *)

Definition insertEvent (nid : Z) (row : EventRow) : DB Z :=
  nid ← (if nid =? 0 then nextID else mret nid);
  _ ← save (EventInsert nid row);
  mret nid.

Definition eventRowOf (ev : Event) (roomNID stateNID : Z) : EventRow :=
  mkEventRow roomNID (Type_ ev) (default "" (StateKey ev)) stateNID (Depth ev) (EventID ev)
    (DomainOffset ev) (Ids.domainOrEmpty (Sender ev)).

Definition StoreEvent (ev : Event) (roomNID stateNID : Z) : DB unit :=
  nid ← insertEvent (EventNID ev) (eventRowOf ev roomNID stateNID);
  save (EventJsonInsert nid (eventJSON ev) (Type_ ev)).

Definition AssignRoomNID (roomID : string) : DB Z :=
  id ← nextID;
  _ ← save (EventRoomInsert id roomID);
  mret id.

Definition AddState (roomNID : Z) (blocks : list Z) : DB Z :=
  id ← nextID;
  _ ← save (EventStateSnapInsert id roomNID blocks);
  mret id.

Definition SetLatestEvents (roomNID last snap depth : Z) : DB unit :=
  version ← nextID;
  save (EventRoomUpdate roomNID last snap version depth).

Definition updateMembership (roomNID : Z) (target sender : string) (membership eventNID : Z) : DB unit :=
  version ← nextID;
  save (EventMembershipUpdate roomNID target sender membership eventNID version).

Definition MembershipStateLeaveOrBan : Z := 1.
Definition MembershipStateInvite : Z := 2.
Definition MembershipStateJoin : Z := 3.

Definition SetToInvite (roomNID : Z) (target sender eventID json : string) (eventNID : Z)
    (pre roomID : string) : DB unit :=
  _ ← save (EventInviteInsert eventID roomNID target sender json);
  if String.eqb pre "" then save (EventMembershipInsert roomNID target roomID MembershipStateInvite eventNID)
  else updateMembership roomNID target sender MembershipStateInvite eventNID.

Definition SetToJoin (roomNID : Z) (target sender : string) (eventNID : Z) (pre roomID : string) : DB unit :=
  if String.eqb pre "" then save (EventMembershipInsert roomNID target roomID MembershipStateJoin eventNID)
  else
    _ ← (if String.eqb pre "invite" then save (EventInviteUpdate roomNID target) else mret ());
    updateMembership roomNID target sender MembershipStateJoin eventNID.

Definition SetToLeave (roomNID : Z) (target sender : string) (eventNID : Z) (pre roomID : string) : DB unit :=
  _ ← save (EventInviteUpdate roomNID target);
  if String.eqb pre "" then save (EventMembershipInsert roomNID target roomID MembershipStateLeaveOrBan eventNID)
  else updateMembership roomNID target sender MembershipStateLeaveOrBan eventNID.

Definition SetToForget (roomNID : Z) (target : string) (eventNID : Z) (pre roomID : string) : DB unit :=
  if String.eqb pre "" then save (EventMembershipInsert roomNID target roomID MembershipStateLeaveOrBan eventNID)
  else save (EventMembershipForgetUpdate roomNID target eventNID).

Definition SetRoomAlias (alias roomID : string) : DB unit := save (AliaseInsert alias roomID).
Definition RemoveRoomAlias (alias : string) : DB unit := save (AliaseDelete alias).
Definition SaveRoomDomainsOffset (roomNID : Z) (domain : string) (offset : Z) : DB unit :=
  save (RoomDomainInsert roomNID domain offset).
Definition UpdateRoomEvent (nid roomNID depth offset : Z) (domain : string) : DB unit :=
  save (RoomEventUpdate nid roomNID depth offset domain).
Definition UpdateRoomDepth (depth roomNID : Z) : DB unit := save (RoomDepthUpdate roomNID depth).
Definition SaveSettings (key val : string) : DB unit := save (SettingsInsert key val).

(** ** Queries *)

(** Rows of a table that satisfy [p]. *)
Definition select {K A} `{Countable K} (p : K -> A -> bool) (m : gmap K A) : list (K * A) :=
  scan (List.filter (fun kv => p kv.1 kv.2) (map_to_list m)).

Definition nidAsc (a b : Z * EventRow) : bool := a.1 <=? b.1.
Definition nidDesc (a b : Z * EventRow) : bool := b.1 <=? a.1.
Definition offsetAsc (a b : Z * EventRow) : bool := e_offsets a.2 <=? e_offsets b.2.

(** [LIMIT n] ([n] is positive where the code uses it). *)
Definition limit {A} (n : Z) (l : list A) : list A := take (Z.to_nat n) l.

Definition selectEvents (p : Z -> EventRow -> bool) (leb : Z * EventRow -> Z * EventRow -> bool)
    (t : Tables) : list (Z * EventRow) :=
  gosort leb (select p (t_events t)).

Definition EventNID (eventID : string) : DB Z :=
  query (fun t => match select (fun _ r => String.eqb (e_event_id r) eventID) (t_events t) with
                  | [] => Err ErrNoRows
                  | kv :: _ => Ok kv.1
                  end).

Definition EventNIDs (eventIDs : list string) : DB (gmap string Z) :=
  query (fun t => Ok (list_to_map (map (fun kv => (e_event_id kv.2, kv.1))
    (select (fun _ r => bool_decide (e_event_id r ∈ eventIDs)) (t_events t))))).

(** [bulkEvents]: the join of the two tables, in the order of the numbers. *)
Definition bulkRows (nids : list Z) (t : Tables) : list (Z * (string * string)) :=
  omap (fun kv : Z * EventRow =>
          match t_json t !! kv.1 with Some j => Some (kv.1, (j, e_type kv.2)) | None => None end)
    (selectEvents (fun nid _ => bool_decide (nid ∈ nids)) nidAsc t).

Definition decodeEvent (jt : string * string) : Event :=
  NewEventFromUntrustedJSON (if CheckCrypto jt.2 then Decrypt jt.1 else jt.1).

Definition Events (nids : list Z) : DB (list (Event * Z)) :=
  query (fun t => Ok (map (fun r => (decodeEvent r.2, r.1)) (bulkRows nids t))).

Definition backfillRows (roomNID : Z) (domain : string) (nid : Z) (dir : string) (t : Tables) : list Z :=
  map fst (if String.eqb dir "f"
           then selectEvents (fun k r => (e_room_nid r =? roomNID) && String.eqb (e_domain r) domain && (nid <? k)) nidAsc t
           else selectEvents (fun k r => (e_room_nid r =? roomNID) && String.eqb (e_domain r) domain && (k <? nid)) nidDesc t).

Definition BackFillNids (roomNID : Z) (domain : string) (nid lim : Z) (dir : string) : DB (list Z) :=
  query (fun t => Ok (if 0 <? lim then limit lim (backfillRows roomNID domain nid dir t)
                      else backfillRows roomNID domain nid dir t)).

Definition SelectRoomEventsByDomainOffset (roomNID : Z) (domain : string) (offset lim : Z) : DB (list Z) :=
  query (fun t => Ok (limit lim (map fst
    (selectEvents (fun _ r => (e_room_nid r =? roomNID) && String.eqb (e_domain r) domain && (offset <=? e_offsets r))
       offsetAsc t)))).

(** [LIKE]: [%] is any text, [_] any character, a backslash quotes. *)
Fixpoint like (p : string) (s : string) {struct p} : bool :=
  match p with
  | EmptyString => match s with EmptyString => true | _ => false end
  | String c p' =>
      if Ascii.eqb c "%" then
        (fix any (s : string) : bool :=
           like p' s || match s with EmptyString => false | String _ s' => any s' end) s
      else if Ascii.eqb c "_" then
        match s with EmptyString => false | String _ s' => like p' s' end
      else if Ascii.eqb c "\" then
        match p' with
        | EmptyString => false
        | String d p'' => match s with String x s' => Ascii.eqb x d && like p'' s' | EmptyString => false end
        end
      else match s with String x s' => Ascii.eqb x c && like p' s' | EmptyString => false end
  end.

(** [selectEventNidForBackfill]: the first membership event of the domain's users. *)
Definition SelectEventNidForBackfill (roomNID : Z) (domain : string) : DB Z :=
  query (fun t => Ok (match selectEvents (fun _ r => (e_room_nid r =? roomNID) && String.eqb (e_type r) "m.room.member"
                                                     && like ("%" ++ domain) (e_state_key r)) nidAsc t with
                      | [] => 0
                      | kv :: _ => kv.1
                      end)).

Definition SelectEventStateSnapshotNID (eventID : string) : DB Z :=
  query (fun t => match select (fun _ r => String.eqb (e_event_id r) eventID) (t_events t) with
                  | [] => Err ErrNoRows
                  | kv :: _ => Ok (e_snap kv.2)
                  end).

Definition stateTypes : list string :=
  ["m.room.create"; "m.room.member"; "m.room.power_levels"; "m.room.join_rules";
   "m.room.third_party_invite"; "m.room.history_visibility"; "m.room.visibility"; "m.room.name";
   "m.room.topic"; "m.room.desc"; "m.room.pinned_events"; "m.room.aliases"; "m.room.canonical_alias"].

Definition isStateType (ty : string) : bool := bool_decide (ty ∈ stateTypes).

Definition SelectRoomStateNIDByStateBlockNID (roomNID block : Z) : DB (list (Z * EventRow)) :=
  query (fun t => Ok (selectEvents (fun nid r => (e_room_nid r =? roomNID) && (nid <=? block) && isStateType (e_type r))
                        nidAsc t)).

Definition SelectState (snap : Z) : DB (Z * list Z) :=
  query (fun t => match t_snaps t !! snap with Some rs => Ok rs | None => Err ErrNoRows end).

(** [selectRoomInfo]: what is scanned and the error. *)
Definition roomInfo (roomID : string) (t : Tables) : res (Z * Z * Z) :=
  match select (fun _ r => String.eqb (r_room_id r) roomID) (t_rooms t) with
  | [] => Err ErrNoRows
  | kv :: _ => Ok (kv.1, r_snap kv.2, r_depth kv.2)
  end.

Definition RoomInfo (roomID : string) : DB (Z * Z * Z) := query (roomInfo roomID).

Definition RoomNID (roomID : string) : DB Z := fun c =>
  match RoomInfo roomID c with
  | (Ok (nid, _, _), c1) => (Ok nid, c1)
  | (Err e, c1) => if bool_decide (e = ErrNoRows) then (Ok 0, c1) else (Err e, c1)
  | (Panic, c1) => (Panic, c1)
  | (Diverge, c1) => (Diverge, c1)
  end.

Definition RoomExists (roomID : string) : DB bool :=
  query (fun t => Ok (hasRoomID (t_rooms t) roomID)).

Definition getRoomsStateEvNID (roomNID : Z) : DB (list Z) :=
  query (fun t => Ok (map fst (selectEvents (fun _ r => (e_room_nid r =? roomNID) && isStateType (e_type r)) nidAsc t))).

Definition GetRoomStates (roomID : string) : DB (list (Event * Z)) :=
  nid ← RoomNID roomID;
  nids ← getRoomsStateEvNID nid;
  Events nids.

Definition GetRoomIDFromAlias (alias : string) : DB string :=
  query (fun t => Ok (default "" (t_aliases t !! alias))).

Definition GetAliasesFromRoomID (roomID : string) : DB (list string) :=
  query (fun t => Ok (map fst (select (fun _ r => String.eqb r roomID) (t_aliases t)))).

Definition GetRoomDomainsOffset (roomNID : Z) : DB (list (string * Z)) :=
  query (fun t => Ok (map (fun kv => (kv.1.2, kv.2)) (select (fun k _ => k.1 =? roomNID) (t_domains t)))).

Definition selectSettingKey (key : string) : DB string :=
  query (fun t => Ok (default "" (t_settings t !! key))).

(** [selectMembershipsFromTarget]: a map from room identifiers, later rows win. *)
Definition membershipsOf (user : string) (t : Tables) : gmap string Z :=
  fold_left (fun m kv => <[m_room_id kv.2 := m_membership kv.2]> m)
    (select (fun k _ => String.eqb k.2 user) (t_members t)) ∅.

Definition GetUserRooms `{GoRange} (user : string) : DB (list string * list string * list string) :=
  query (fun t =>
    let rooms := range (membershipsOf user t) in
    Ok (map fst (List.filter (fun kv => kv.2 =? MembershipStateJoin) rooms),
        map fst (List.filter (fun kv => negb (kv.2 =? MembershipStateJoin) && (kv.2 =? MembershipStateInvite)) rooms),
        map fst (List.filter (fun kv => negb (kv.2 =? MembershipStateJoin) && negb (kv.2 =? MembershipStateInvite)) rooms))).

End Operations.

End RoomTables.
