(* ===== verification/RoomRows.v ===== *)
(** * The selects of the events table

    What [selectEvents] of [RoomTables] returns: exactly the rows that satisfy the
    condition ([selectEvents_elem]), strictly sorted by number whatever order the
    database scans them in ([selectEvents_asc], [selectEvents_desc]).  A strictly
    sorted list is determined by its elements ([sorted_ext]). *)

From Stdlib Require Import String Ascii ZArith List Permutation Sorted Lia.
From stdpp Require Import base tactics list gmap strings.
From S2P Require Import Prelude RoomTables.

#[local] Open Scope string_scope.
#[local] Open Scope Z_scope.

Module RoomRows.
Import RoomTables.

(** ** Sorted selections *)

Lemma sorted_ext {A} (R : A -> A -> Prop) (l1 l2 : list A) :
  (forall x, ~ R x x) -> (forall x y z, R x y -> R y z -> R x z) ->
  StronglySorted R l1 -> StronglySorted R l2 -> (forall x, x ∈ l1 <-> x ∈ l2) -> l1 = l2.
Proof.
  intros Hi Ht H1. revert l2. induction H1 as [|x l1 H1 IH Hx]; intros l2 H2 He.
  - destruct l2 as [|y l2]; [done|]. exfalso. apply (not_elem_of_nil y), He. left.
  - destruct H2 as [|y l2 H2 Hy]; [exfalso; apply (not_elem_of_nil x), He; left|].
    rewrite List.Forall_forall in Hx, Hy. setoid_rewrite <- list_elem_of_In in Hx. setoid_rewrite <- list_elem_of_In in Hy.
    assert (x = y) as <-.
    { assert (Hxy : x ∈ y :: l2) by (apply He; left). assert (Hyx : y ∈ x :: l1) by (apply He; left).
      apply elem_of_cons in Hxy as [|Hxy]; [done|]. apply elem_of_cons in Hyx as [|Hyx]; [done|].
      destruct (Hi x). eapply Ht; [by apply Hx|by apply Hy]. }
    f_equal. apply IH; [done|]. intros z. specialize (He z). rewrite !elem_of_cons in He. split; intros Hz.
    + destruct (proj1 He (or_intror Hz)) as [->|]; [|done]. destruct (Hi x). by apply Hx.
    + destruct (proj2 He (or_intror Hz)) as [->|]; [|done]. destruct (Hi x). by apply Hy.
Qed.

Section Rows.
  Context `{SqlRows}.
  #[local] Abbreviation Row := (Z * EventRow)%type.

Definition above (a b : Row) : Prop := b.1 < a.1.
Definition below (a b : Row) : Prop := a.1 < b.1.

Lemma selectEvents_elem p leb t n r :
  (n, r) ∈ selectEvents p leb t <-> t_events t !! n = Some r /\ p n r = true.
Proof using.
  unfold selectEvents, select. rewrite list_elem_of_In, <- gosort_perm, scan_perm, filter_In, <- list_elem_of_In,
    elem_of_map_to_list. done.
Qed.

Lemma selectEvents_nodup p leb t : NoDup (map fst (selectEvents p leb t)).
Proof using.
  unfold selectEvents, select. rewrite <- gosort_perm, scan_perm.
  pose proof (NoDup_fst_map_to_list (t_events t)) as Hn. revert Hn. generalize (map_to_list (t_events t)).
  induction l as [|[n r] l IH]; simpl; [done|]. intros [Hx Hl]%NoDup_cons.
  destruct (p n r); simpl; [|by apply IH]. apply NoDup_cons. split; [|by apply IH].
  intros Hin. apply Hx. apply list_elem_of_In in Hin. apply in_map_iff in Hin as (kv & <- & Hin).
  apply filter_In in Hin as [Hin _]. apply list_elem_of_In, in_map. done.
Qed.

Lemma strict_of_nodup (R : Row -> Row -> Prop) (leb : Row -> Row -> bool) l :
  (forall a b, leb a b = true -> a.1 <> b.1 -> R a b) ->
  StronglySorted (fun a b => leb a b = true) l -> NoDup (map fst l) -> StronglySorted R l.
Proof using.
  intros HR. induction 1 as [|x l Hs IH Hx]; simpl; [constructor|]. intros [Hn Hl]%NoDup_cons.
  constructor; [by apply IH|]. rewrite List.Forall_forall in *. intros y Hy. apply HR; [by apply Hx|].
  intros Heq. apply Hn. rewrite Heq. by apply list_elem_of_In, in_map.
Qed.

Lemma selectEvents_desc p t : StronglySorted above (selectEvents p nidDesc t).
Proof using.
  apply (strict_of_nodup _ nidDesc); [|apply gosort_sorted|apply selectEvents_nodup].
  - intros a b. unfold nidDesc, above. rewrite Z.leb_le. lia.
  - intros a b. unfold nidDesc. rewrite !Z.leb_le. lia.
  - intros a b c. unfold nidDesc. rewrite !Z.leb_le. lia.
Qed.

Lemma selectEvents_asc p t : StronglySorted below (selectEvents p nidAsc t).
Proof using.
  apply (strict_of_nodup _ nidAsc); [|apply gosort_sorted|apply selectEvents_nodup].
  - intros a b. unfold nidAsc, below. rewrite Z.leb_le. lia.
  - intros a b. unfold nidAsc. rewrite !Z.leb_le. lia.
  - intros a b c. unfold nidAsc. rewrite !Z.leb_le. lia.
Qed.

(** Parts of a sorted list are sorted. *)
Lemma sorted_filter (R : Row -> Row -> Prop) f l : StronglySorted R l -> StronglySorted R (List.filter f l).
Proof using.
  induction 1 as [|x l Hs IH Hx]; simpl; [constructor|]. destruct (f x); [|done]. constructor; [done|].
  rewrite List.Forall_forall in *. intros y Hy. apply filter_In in Hy as [Hy _]. by apply Hx.
Qed.

(** Reversing a sorted list. *)
Lemma sorted_flip (R Q : Row -> Row -> Prop) l : (forall x y, R x y -> Q y x) ->
  StronglySorted R l -> StronglySorted Q (rev l).
Proof using.
  intros HQ. induction 1 as [|x l Hs IH Hx]; simpl; [constructor|].
  assert (Hall : Forall (fun y => Q y x) (rev l)) by (apply Forall_rev; eapply Forall_impl; [exact Hx|auto]).
  revert IH Hall. generalize (rev l). induction l0 as [|y m IHm]; simpl; intros Hm Hall; [repeat constructor|].
  apply StronglySorted_inv in Hm as [Hm Hy]. inversion Hall; subst. constructor; [by apply IHm|].
  apply Forall_app; split; [done|]. by constructor.
Qed.

Lemma sorted_rev l : StronglySorted above l -> StronglySorted below (rev l).
Proof using. by apply sorted_flip. Qed.

Lemma sorted_rev_below l : StronglySorted below l -> StronglySorted above (rev l).
Proof using. by apply sorted_flip. Qed.

Lemma sorted_firstn (R : Row -> Row -> Prop) k l : StronglySorted R l -> StronglySorted R (take k l).
Proof using.
  intros Hs. revert k. induction Hs as [|y l Hs IH Hy]; intros [|k]; simpl; constructor; [done|]. by apply Forall_take.
Qed.

End Rows.

End RoomRows.
