(* ===== verification/DbPipeline.v ===== *)
(** * Writing the database behind the message queue

    [src/dbupdates/]: with [AsyncSave] the room server's updates go to one topic
    per table.  A consumer per topic ([DBEventSeqConsumer]) collects them into
    batches, the processor of the table ([dbupdates/processors/roomserver/])
    writes a batch, and the messages are committed to the queue.

    - [Worker]: the collecting loop of [startWorker], a state machine on messages
      and timer ticks.
    - [processInsert...]: a batch of more than one insertion is first written with
      [COPY] in a transaction; when that fails, row by row.
    - [Manager]: the consumers of all topics on one database, an interleaving of
      their steps.
    - [SyncEvents]: the same worker over the processor of
      [syncapi_output_room_events], whose insertions have key 0. *)

From Stdlib Require Import String Ascii ZArith List.
From stdpp Require Import base tactics list gmap strings.
From S2P Require Import Prelude Snowflake Ids Event RoomState RoomTables.

#[local] Open Scope string_scope.
#[local] Open Scope Z_scope.

Module DbPipeline.
Import Event RoomTables.

(** ** The collecting loop *)
Section Consumer.
  Context {E T : Type} (key : E -> Z) (batchKeys : option (list Z)) (process : list E -> ST T unit).

(** The local variables of [startWorker]; [commits] is what the queue was told
    is done. *)
Record Worker := mkWorker {
  inputSeq : list E;
  lastKey : Z;
  commits : list E;
}.

Definition startWorker : Worker := mkWorker [] 0 [].

Inductive Msg :=
  | Tick                 (** the 50 ms timer *)
  | Recv (e : E).        (** a message from the channel *)

(** [processInputs]: the error of the processor is ignored, and the messages are
    committed by a deferred call, which a panic runs too. *)
Definition processInputs (inputs : list E) (w : Worker) (t : T) : res unit * Worker * T :=
  match inputs with
  | [] => (Ok (), w, t)
  | _ =>
      let '(r, t1) := process inputs t in
      (match r with Ok _ | Err _ => Ok () | Panic => Panic | Diverge => Diverge end,
       mkWorker (inputSeq w) (lastKey w) (commits w ++ inputs)%list, t1)
  end.

Definition set_seq (w : Worker) (seq : list E) (last : Z) : Worker := mkWorker seq last (commits w).

Definition batched (k : Z) : bool :=
  match batchKeys with Some ks => existsb (Z.eqb k) ks | None => false end.

(** One turn of the [select] with [EnableBatch]. *)
Definition batchStep (m : Msg) (w : Worker) (t : T) : res unit * Worker * T :=
  match m with
  | Tick =>
      match inputSeq w with
      | [] => (Ok (), w, t)
      | seq =>
          match processInputs seq w t with
          | (Ok _, w1, t1) => (Ok (), set_seq w1 [] 0, t1)
          | r => r
          end
      end
  | Recv e =>
      let '(r, w1, t1) :=
        if negb (key e =? lastKey w) && negb (lastKey w =? 0) then
          match processInputs (inputSeq w) w t with
          | (Ok _, w1, t1) => (Ok (), set_seq w1 [] (lastKey w1), t1)
          | r => r
          end
        else (Ok (), w, t) in
      match r with
      | Ok _ =>
          let w2 := set_seq w1 (inputSeq w1 ++ [e])%list (key e) in
          if (30 <=? length (inputSeq w2))%nat || negb (batched (key e)) then
            match processInputs (inputSeq w2) w2 t1 with
            | (Ok _, w3, t3) => (Ok (), set_seq w3 [] 0, t3)
            | r => r
            end
          else (Ok (), w2, t1)
      | _ => (r, w1, t1)
      end
  end.

(** The loop without [EnableBatch]: one message at a time. *)
Definition singleStep (m : Msg) (w : Worker) (t : T) : res unit * Worker * T :=
  match m with
  | Tick => (Ok (), w, t)
  | Recv e => processInputs [e] w t
  end.

Definition workerStep (enableBatch : bool) : Msg -> Worker -> T -> res unit * Worker * T :=
  if enableBatch then batchStep else singleStep.

(** [OnMessage]: updates that only refresh the cache are not written again. *)
Definition OnMessage (isRecovery : bool) (e : E) : list Msg :=
  if isRecovery then [] else [Recv e].

(** A run of the worker; a panic ends the process. *)
Fixpoint runWorker (enableBatch : bool) (ms : list Msg) (w : Worker) (t : T) : res unit * Worker * T :=
  match ms with
  | [] => (Ok (), w, t)
  | m :: ms' =>
      match workerStep enableBatch m w t with
      | (Ok _, w1, t1) => runWorker enableBatch ms' w1 t1
      | r => r
      end
  end.

End Consumer.

Arguments Worker E : clear implicits.
Arguments Msg E : clear implicits.

(** ** Transactions *)

Section Transactions.
  Context {U T : Type}.
  #[local] Abbreviation D := (ST (Conn U T)).

(** The loop of [stmt.ExecContext] over the rows of a [COPY]: a nil payload
    panics, the first call that fails ends it ([None]); [mirrored] rows are sent
    twice. *)
Fixpoint sendRows {P} (payload : U -> option P) (mirrored : P -> bool) (inputs : list U) : D (option (list P)) :=
  match inputs with
  | [] => mret (Some [])
  | v :: vs =>
      msg ← liftR (deref (payload v));
      sent ← pop;
      if negb sent then mret None else
      copied ← (if mirrored msg then pop else mret true);
      if negb copied then mret None else
      rest ← sendRows payload mirrored vs;
      mret (match rest with Some ps => Some (msg :: ps) | None => None end)
  end.

(** The rows of a [COPY], none of which may clash. *)
Fixpoint copyIn (rows : list (T -> option T)) (t : T) : option T :=
  match rows with
  | [] => Some t
  | r :: rs => match r t with Some t1 => copyIn rs t1 | None => None end
  end.

(** A commit whose error is ignored. *)
Definition commit (t : T) : D unit :=
  b ← pop;
  if (b : bool) then putTabs t else mret ().

(** [common.WithTransaction] around the [COPY]: [success] is set before the
    transaction is committed, and the error of the commit is ignored. *)
Definition withTransaction {P} (payload : U -> option P) (strict : P -> T -> option T)
    (inputs : list U) : D bool :=
  begun ← pop;
  if negb begun then mret false else
  prepared ← pop;
  if negb prepared then mret false else
  sent ← sendRows payload (fun _ => false) inputs;
  match sent with
  | None => mret false
  | Some ps =>
      flushed ← pop;
      if negb flushed then mret false else
      t ← getTabs;
      match copyIn (map strict ps) t with
      | None => mret false
      | Some t1 => _ ← commit t1; mret true
      end
  end.

(** [sqlutil.WithTransaction]: two transactions, for a table and its mirror,
    committed one after the other. *)
Definition withTransaction2 {P} (payload : U -> option P) (strict mirror : P -> T -> option T)
    (mirrored : P -> bool) (inputs : list U) : D bool :=
  begun0 ← pop;
  if negb begun0 then mret false else
  begun1 ← pop;
  if negb begun1 then mret false else
  prepared0 ← pop;
  if negb prepared0 then mret false else
  prepared1 ← pop;
  if negb prepared1 then mret false else
  sent ← sendRows payload mirrored inputs;
  match sent with
  | None => mret false
  | Some ps =>
      let rows1 := map mirror (List.filter mirrored ps) in
      flushed0 ← pop;
      if negb flushed0 then mret false else
      t ← getTabs;
      match copyIn (map strict ps) t with
      | None => mret false
      | Some t0 =>
          flushed1 ← pop;
          if negb flushed1 then mret false else
          match copyIn rows1 t with
          | None => mret false
          | Some _ =>
              _ ← commit t0;
              now ← getTabs;
              _ ← commit (default now (copyIn rows1 now));
              mret true
          end
      end
  end.

(** ** What processors share *)

(** [for _, v := range inputs { msg := ...; err := p.db.Raw(msg); log }]: the
    payload of another key is a nil pointer. *)
Fixpoint eachRaw {P} (payload : U -> option P) (raw : P -> D unit) (inputs : list U) : D unit :=
  match inputs with
  | [] => mret ()
  | v :: vs =>
      msg ← liftR (deref (payload v));
      _ ← ignoring (raw msg);
      eachRaw payload raw vs
  end.

(** [processInsert] of the processors with one [COPY]. *)
Definition processInsert {P} (payload : U -> option P) (strict : P -> T -> option T)
    (raw : P -> D unit) (inputs : list U) : D unit :=
  success ← (if (1 <? length inputs)%nat then withTransaction payload strict inputs else mret false);
  if (success : bool) then mret () else eachRaw payload raw inputs.

(** [processInsert] of the processors with a mirror table. *)
Definition processInsert2 {P} (payload : U -> option P) (strict mirror : P -> T -> option T)
    (mirrored : P -> bool) (raw : P -> D unit) (inputs : list U) : D unit :=
  success ← (if (1 <? length inputs)%nat then withTransaction2 payload strict mirror mirrored inputs
             else mret false);
  if (success : bool) then mret () else eachRaw payload raw inputs.

End Transactions.

(** ** Processors *)

Section Processors.
  Context `{Encryption}.

(** *** roomserver_events *)

Definition pEventInsert (e : DBEvent) := match e with EventInsert nid row => Some (nid, row) | _ => None end.
Definition pRoomEventUpdate (e : DBEvent) :=
  match e with RoomEventUpdate nid room depth offset domain => Some (nid, room, depth, offset, domain) | _ => None end.

Definition copyEvent (p : Z * EventRow) (t : Tables) : option Tables :=
  if hasEventID (t_events t) (e_event_id p.2) then None
  else match t_events t !! p.1 with
       | Some _ => None
       | None => Some (set_events t (<[p.1 := p.2]> (t_events t)))
       end.

Definition processEvents (inputs : list DBEvent) : DB unit :=
  match inputs with
  | [] => mret ()
  | e :: _ =>
      if Key e =? 1 then processInsert pEventInsert copyEvent (fun p => exec (insertEventRaw p.1 p.2)) inputs
      else if Key e =? 13 then
        eachRaw pRoomEventUpdate (fun '(nid, room, depth, offset, domain) => exec (onUpdateRoomEvent nid room depth offset domain)) inputs
      else mret ()
  end.

(** *** roomserver_event_json *)

Definition pEventJsonInsert (e : DBEvent) :=
  match e with EventJsonInsert nid json type => Some (nid, json, type) | _ => None end.

Definition copyJson (p : Z * string * string) (t : Tables) : option Tables :=
  let '(nid, json, type) := p in
  match t_json t !! nid with
  | Some _ => None
  | None => Some (set_json t (<[nid := if CheckCrypto type then Encrypt json else json]> (t_json t)) (t_mirror t))
  end.

Definition isMirrored (p : Z * string * string) : bool := CheckCrypto p.2 && CheckMirror p.2.

Definition copyMirror (p : Z * string * string) (t : Tables) : option Tables :=
  let '(nid, json, _) := p in
  match t_mirror t !! nid with
  | Some _ => None
  | None => Some (set_json t (t_json t) (<[nid := json]> (t_mirror t)))
  end.

Definition processEventJson (inputs : list DBEvent) : DB unit :=
  match inputs with
  | [] => mret ()
  | e :: _ =>
      if Key e =? 0 then
        processInsert2 pEventJsonInsert copyJson copyMirror isMirrored
          (fun '(nid, json, type) => insertEventJSONRaw nid json type) inputs
      else mret ()
  end.

(** *** roomserver_rooms *)

Definition pEventRoomInsert (e : DBEvent) := match e with EventRoomInsert nid id => Some (nid, id) | _ => None end.
Definition pEventRoomUpdate (e : DBEvent) :=
  match e with EventRoomUpdate nid last snap version depth => Some (nid, last, snap, version, depth) | _ => None end.
Definition pRoomDepthUpdate (e : DBEvent) := match e with RoomDepthUpdate nid depth => Some (nid, depth) | _ => None end.

Definition copyRoom (p : Z * string) (t : Tables) : option Tables :=
  if hasRoomID (t_rooms t) p.2 then None
  else match t_rooms t !! p.1 with
       | Some _ => None
       | None => Some (set_rooms t (<[p.1 := mkRoomRow p.2 0 0 0 0]> (t_rooms t)))
       end.

Definition processRooms (inputs : list DBEvent) : DB unit :=
  match inputs with
  | [] => mret ()
  | e :: _ =>
      if Key e =? 2 then processInsert pEventRoomInsert copyRoom (fun p => exec (insertRoomNIDRaw p.1 p.2)) inputs
      else if Key e =? 3 then
        eachRaw pEventRoomUpdate (fun '(nid, last, snap, version, depth) => exec (updateLatestEventNIDsRaw nid last snap version depth)) inputs
      else if Key e =? 14 then eachRaw pRoomDepthUpdate (fun p => exec (onUpdateRoomDepth p.2 p.1)) inputs
      else mret ()
  end.

(** *** roomserver_state_snapshots *)

Definition pStateSnap (e : DBEvent) :=
  match e with EventStateSnapInsert snap room blocks => Some (snap, room, blocks) | _ => None end.

Definition processSnaps (inputs : list DBEvent) : DB unit :=
  match inputs with
  | [] => mret ()
  | e :: _ =>
      if Key e =? 4 then eachRaw pStateSnap (fun '(snap, room, blocks) => exec (insertStateRaw snap room blocks)) inputs
      else mret ()
  end.

(** *** roomserver_invites *)

Definition pInviteInsert (e : DBEvent) :=
  match e with EventInviteInsert id room target sender content => Some (id, room, target, sender, content) | _ => None end.
Definition pInviteUpdate (e : DBEvent) := match e with EventInviteUpdate room target => Some (room, target) | _ => None end.

Definition copyInvite (p : string * Z * string * string * string) (t : Tables) : option Tables :=
  let '(id, room, target, sender, content) := p in
  match t_invites t !! id with
  | Some _ => None
  | None => Some (set_invites t (<[id := mkInviteRow room target sender false content]> (t_invites t)))
  end.

Definition processInvites (inputs : list DBEvent) : DB unit :=
  match inputs with
  | [] => mret ()
  | e :: _ =>
      if Key e =? 5 then
        processInsert pInviteInsert copyInvite
          (fun '(id, room, target, sender, content) => exec (insertInviteEventRaw id room target sender content)) inputs
      else if Key e =? 6 then eachRaw pInviteUpdate (fun p => exec (updateInviteRetiredRaw p.1 p.2)) inputs
      else mret ()
  end.

(** *** roomserver_membership *)

Definition pMemberInsert (e : DBEvent) :=
  match e with EventMembershipInsert room target roomID membership nid => Some (room, target, roomID, membership, nid) | _ => None end.
Definition pMemberUpdate (e : DBEvent) :=
  match e with
  | EventMembershipUpdate room target sender membership nid version => Some (room, target, sender, membership, nid, version)
  | _ => None
  end.
Definition pMemberForget (e : DBEvent) :=
  match e with EventMembershipForgetUpdate room target forget => Some (room, target, forget) | _ => None end.

Definition copyMember (p : Z * string * string * Z * Z) (t : Tables) : option Tables :=
  let '(room, target, roomID, membership, nid) := p in
  match t_members t !! (room, target) with
  | Some _ => None
  | None => Some (set_members t (<[(room, target) := mkMemberRow (-1) membership nid "" roomID 0]> (t_members t)))
  end.

Definition processMembership (inputs : list DBEvent) : DB unit :=
  match inputs with
  | [] => mret ()
  | e :: _ =>
      if Key e =? 7 then
        processInsert pMemberInsert copyMember
          (fun '(room, target, roomID, membership, nid) => exec (membershipInsertdRaw room target roomID membership nid)) inputs
      else if Key e =? 8 then
        eachRaw pMemberUpdate
          (fun '(room, target, sender, membership, nid, version) => exec (membershipUpdateRaw room target sender membership nid version)) inputs
      else if Key e =? 9 then
        eachRaw pMemberForget (fun '(room, target, forget) => exec (membershipForgetUpdateRaw room target forget)) inputs
      else mret ()
  end.

(** *** roomserver_room_aliases *)

Definition pAliasInsert (e : DBEvent) := match e with AliaseInsert alias room => Some (alias, room) | _ => None end.
Definition pAliasDelete (e : DBEvent) := match e with AliaseDelete alias => Some alias | _ => None end.

Definition copyAlias (p : string * string) (t : Tables) : option Tables :=
  match t_aliases t !! p.1 with
  | Some _ => None
  | None => Some (set_aliases t (<[p.1 := p.2]> (t_aliases t)))
  end.

Definition processAliases (inputs : list DBEvent) : DB unit :=
  match inputs with
  | [] => mret ()
  | e :: _ =>
      if Key e =? 10 then processInsert pAliasInsert copyAlias (fun p => exec (insertRoomAliasRaw p.1 p.2)) inputs
      else if Key e =? 11 then eachRaw pAliasDelete (fun alias => exec (deleteRoomAliasRaw alias)) inputs
      else mret ()
  end.

(** *** roomserver_room_domains and roomserver_settings *)

Definition pDomainInsert (e : DBEvent) :=
  match e with RoomDomainInsert room domain offset => Some (room, domain, offset) | _ => None end.

Definition processDomains (inputs : list DBEvent) : DB unit :=
  match inputs with
  | [] => mret ()
  | e :: _ =>
      if Key e =? 12 then eachRaw pDomainInsert (fun '(room, domain, offset) => exec (insertRoomDomainsRaw room domain offset)) inputs
      else mret ()
  end.

Definition pSettingsInsert (e : DBEvent) := match e with SettingsInsert key val => Some (key, val) | _ => None end.

Definition processSettings (inputs : list DBEvent) : DB unit :=
  match inputs with
  | [] => mret ()
  | e :: _ =>
      if Key e =? 15 then eachRaw pSettingsInsert (fun p => exec (insertSettingRaw p.1 p.2)) inputs
      else mret ()
  end.

(** ** The registry of processors *)

Definition Process (t : table) : list DBEvent -> DB unit :=
  match t with
  | TEvents => processEvents
  | TJson => processEventJson
  | TRooms => processRooms
  | TSnaps => processSnaps
  | TInvites => processInvites
  | TMembers => processMembership
  | TAliases => processAliases
  | TDomains => processDomains
  | TSettings => processSettings
  end.

(** [BatchKeys]; the processors without the method have none. *)
Definition BatchKeys (t : table) : option (list Z) :=
  match t with
  | TEvents => Some [1]
  | TJson => Some [0]
  | TRooms => Some [2]
  | TInvites => Some [5]
  | TMembers => Some [7]
  | TAliases => Some [10]
  | TSnaps | TDomains | TSettings => None
  end.

(** ** All consumers on one database *)

Record Manager := mkManager {
  conn : Conn DBEvent Tables;
  workers : table -> Worker DBEvent;
}.

Definition NewDBEventSeqManager (c : Conn DBEvent Tables) : Manager := mkManager c (fun _ => startWorker).

Definition set_worker (ws : table -> Worker DBEvent) (t : table) (w : Worker DBEvent) : table -> Worker DBEvent :=
  fun t' => if decide (t' = t) then w else ws t'.

(** The worker of topic [t] takes one turn. *)
Definition managerStep (enableBatch : bool) (t : table) (m : Msg DBEvent) (s : Manager) : res unit * Manager :=
  let '(r, w, c) := workerStep Key (BatchKeys t) (Process t) enableBatch m (workers s t) (conn s) in
  (r, mkManager c (set_worker (workers s) t w)).

Fixpoint runManager (enableBatch : bool) (ms : list (table * Msg DBEvent)) (s : Manager) : res unit * Manager :=
  match ms with
  | [] => (Ok (), s)
  | (t, m) :: ms' =>
      match managerStep enableBatch t m s with
      | (Ok _, s1) => runManager enableBatch ms' s1
      | r => r
      end
  end.

(** The updates a run receives, in order. *)
Definition received (ms : list (table * Msg DBEvent)) : list DBEvent :=
  omap (fun tm : table * Msg DBEvent => match tm.2 with Recv e => Some e | Tick => None end) ms.

End Processors.

(** ** The events of the sync server

    [processors/syncapi/syncapi_output_room_events.go]: the key of an insertion
    is 0, which [startWorker] takes for an empty batch. *)
Section SyncEvents.
  Context `{Encryption}.

Record SyncRow := mkSyncRow {
  s_event_id : string;
  s_room : string;
  s_json : string;
  s_add : list string;
  s_remove : list string;
  s_device : string;
  s_txn : string;
  s_type : string;
  s_domain_offset : Z;
  s_depth : Z;
  s_domain : string;
  s_origin_ts : Z;
}.

Inductive SyncDBEvent :=
  | SyncEventInsert (pos : Z) (row : SyncRow)
  | SyncEventUpdate (offset ts : Z) (domain room eventID : string)
  | SyncEventUpdateContent (eventID room content type : string).

Definition syncKey (e : SyncDBEvent) : Z :=
  match e with
  | SyncEventInsert _ _ => 0
  | SyncEventUpdate _ _ _ _ _ => 13
  | SyncEventUpdateContent _ _ _ _ => 14
  end.

Record SyncTables := mkSyncTables {
  y_events : gmap Z SyncRow;
  y_mirror : gmap Z SyncRow;
}.

#[local] Abbreviation SDB := (ST (Conn SyncDBEvent SyncTables)).

Definition with_json (r : SyncRow) (json : string) : SyncRow :=
  mkSyncRow (s_event_id r) (s_room r) json (s_add r) (s_remove r) (s_device r) (s_txn r) (s_type r)
    (s_domain_offset r) (s_depth r) (s_domain r) (s_origin_ts r).

Definition sameEvent (eventID room : string) (r : SyncRow) : bool :=
  String.eqb (s_event_id r) eventID && String.eqb (s_room r) room.

(** A row that clashes on the number or on the event and its room. *)
Definition clashes (pos : Z) (row : SyncRow) (m : gmap Z SyncRow) : bool :=
  bool_decide (is_Some (m !! pos))
  || existsb (fun kv : Z * SyncRow => sameEvent (s_event_id row) (s_room row) kv.2) (map_to_list m).

Definition syncInsert (pos : Z) (row : SyncRow) (t : SyncTables) : res SyncTables :=
  Ok (mkSyncTables (if clashes pos row (y_events t) then y_events t else <[pos := row]> (y_events t)) (y_mirror t)).
Definition syncInsertMirror (pos : Z) (row : SyncRow) (t : SyncTables) : res SyncTables :=
  Ok (mkSyncTables (y_events t) (if clashes pos row (y_mirror t) then y_mirror t else <[pos := row]> (y_mirror t))).

(** [insertEventRaw] of [output_room_events_table.go]. *)
Definition syncInsertEventRaw (pos : Z) (row : SyncRow) : SDB unit :=
  if CheckCrypto (s_type row) then
    let enc := with_json row (Encrypt (s_json row)) in
    if CheckMirror (s_type row) then
      _ ← ignoring (exec (syncInsert pos enc));
      exec (syncInsertMirror pos row)
    else exec (syncInsert pos enc)
  else exec (syncInsert pos row).

Definition onUpdateSyncEvent (offset ts : Z) (domain room eventID : string) (t : SyncTables) : res SyncTables :=
  Ok (mkSyncTables
        ((fun r => if sameEvent eventID room r
                   then mkSyncRow (s_event_id r) (s_room r) (s_json r) (s_add r) (s_remove r) (s_device r) (s_txn r)
                          (s_type r) offset (s_depth r) domain ts
                   else r) <$> y_events t)
        (y_mirror t)).

Definition setContent (eventID room json : string) (m : gmap Z SyncRow) : gmap Z SyncRow :=
  (fun r => if sameEvent eventID room r then with_json r json else r) <$> m.

(** [updateEventRaw]. *)
Definition updateEventRaw (eventID room content type : string) : SDB unit :=
  if CheckCrypto type then
    if CheckMirror type then
      _ ← ignoring (exec (fun t => Ok (mkSyncTables (setContent eventID room (Encrypt content) (y_events t)) (y_mirror t))));
      exec (fun t => Ok (mkSyncTables (y_events t) (setContent eventID room content (y_mirror t))))
    else exec (fun t => Ok (mkSyncTables (setContent eventID room (Encrypt content) (y_events t)) (y_mirror t)))
  else exec (fun t => Ok (mkSyncTables (setContent eventID room content (y_events t)) (y_mirror t))).

Definition pSyncInsert (e : SyncDBEvent) := match e with SyncEventInsert pos row => Some (pos, row) | _ => None end.
Definition pSyncUpdate (e : SyncDBEvent) :=
  match e with SyncEventUpdate offset ts domain room id => Some (offset, ts, domain, room, id) | _ => None end.
Definition pSyncUpdateContent (e : SyncDBEvent) :=
  match e with SyncEventUpdateContent id room content type => Some (id, room, content, type) | _ => None end.

Definition copySync (p : Z * SyncRow) (t : SyncTables) : option SyncTables :=
  let row := if CheckCrypto (s_type p.2) then with_json p.2 (Encrypt (s_json p.2)) else p.2 in
  if clashes p.1 row (y_events t) then None
  else Some (mkSyncTables (<[p.1 := row]> (y_events t)) (y_mirror t)).

Definition copySyncMirror (p : Z * SyncRow) (t : SyncTables) : option SyncTables :=
  if clashes p.1 p.2 (y_mirror t) then None
  else Some (mkSyncTables (y_events t) (<[p.1 := p.2]> (y_mirror t))).

Definition syncMirrored (p : Z * SyncRow) : bool := CheckCrypto (s_type p.2) && CheckMirror (s_type p.2).

Definition processSyncEvents (inputs : list SyncDBEvent) : SDB unit :=
  match inputs with
  | [] => mret ()
  | e :: _ =>
      if syncKey e =? 0 then
        processInsert2 pSyncInsert copySync copySyncMirror syncMirrored
          (fun p => syncInsertEventRaw p.1 p.2) inputs
      else if syncKey e =? 13 then
        eachRaw pSyncUpdate
          (fun '(offset, ts, domain, room, id) => exec (onUpdateSyncEvent offset ts domain room id)) inputs
      else if syncKey e =? 14 then
        eachRaw pSyncUpdateContent (fun '(id, room, content, type) => updateEventRaw id room content type) inputs
      else mret ()
  end.

Definition syncBatchKeys : option (list Z) := Some [0].

End SyncEvents.

End DbPipeline.
