(* ===== verification/DbDelivery.v ===== *)
(** * From the operations of the database to its tables

    - Section [Partitions]: steps with different keys that commute can be
      reordered.
    - [commute]: updates with different partition keys ([table:uid]) commute.
    - [sameAsync]: an operation run with [AsyncSave] sends the updates that, run
      without it, it applies.
    - [async_save_equals_sync] puts the three files together. *)

From Stdlib Require Import String Ascii ZArith List Permutation.
From stdpp Require Import base tactics list gmap strings.
From S2P Require Import Prelude Snowflake Ids Event RoomState RoomTables DbPipeline DbPipelineFacts.

#[local] Open Scope string_scope.
#[local] Open Scope Z_scope.

Module DbDelivery.
Import RoomTables DbPipeline DbPipelineFacts.

(** ** Reordering *)
Section Partitions.
  Context {E T K : Type} `{EqDecision K} (key : E -> K) (act : E -> T -> T).

Definition ofKey (k : K) (l : list E) : list E := List.filter (fun e => bool_decide (key e = k)) l.

Definition sameOrder (l l' : list E) : Prop := forall k, ofKey k l = ofKey k l'.

(** Neighbours of different partitions may be swapped. *)
Lemma sameOrder_swap a b l : key a <> key b -> sameOrder (a :: b :: l) (b :: a :: l).
Proof using. intros Hne k. unfold ofKey. simpl. repeat case_bool_decide; congruence. Qed.

Lemma ofKey_app k l1 l2 : ofKey k (l1 ++ l2) = (ofKey k l1 ++ ofKey k l2)%list.
Proof using. apply List.filter_app. Qed.

Lemma ofKey_elem e k l : e ∈ ofKey k l <-> e ∈ l /\ key e = k.
Proof using.
  unfold ofKey. rewrite !list_elem_of_In, filter_In, bool_decide_eq_true. done.
Qed.

Lemma ofKey_none k l : (forall e, e ∈ l -> key e <> k) -> ofKey k l = [].
Proof using.
  intros Hn. destruct (ofKey k l) as [|e r] eqn:Ef; [done|].
  destruct (Hn e); [|]; by apply (ofKey_elem e k l); rewrite Ef; left.
Qed.

Lemma ofKey_split k l e r :
  ofKey k l = e :: r ->
  exists l1 l2, l = (l1 ++ e :: l2)%list /\ (forall x, x ∈ l1 -> key x <> k) /\ ofKey k l2 = r /\ key e = k.
Proof using.
  induction l as [|x l IH]; simpl; [done|]. case_bool_decide as Hx.
  - intros [= -> <-]. exists [], l. split_and!; [done| |done|done]. intros ? Hin. by apply elem_of_nil in Hin.
  - intros Hf. destruct (IH Hf) as (l1 & l2 & -> & Hn & Hr & Hk).
    exists (x :: l1), l2. split_and!; [done| |done|done].
    intros y [->|Hy]%elem_of_cons; auto.
Qed.

Lemma sameOrder_elem l l' e : sameOrder l l' -> e ∈ l' -> e ∈ l.
Proof using.
  intros Hs He. apply (ofKey_elem e (key e) l). rewrite (Hs (key e)). by apply ofKey_elem.
Qed.

#[local] Abbreviation run := (effects act).

Lemma move_front e l1 l2 t :
  (forall x t, x ∈ l1 -> act e (act x t) = act x (act e t)) ->
  run (l1 ++ e :: l2) t = run (l1 ++ l2) (act e t).
Proof using.
  revert t. induction l1 as [|x l1 IH]; intros t Hc; [done|].
  unfold effects in *. simpl. rewrite IH, Hc; [done|left|]. intros y t' Hy. apply Hc. by right.
Qed.

Lemma reorder l l' t :
  sameOrder l l' ->
  (forall a b t, a ∈ l -> b ∈ l -> key a <> key b -> act a (act b t) = act b (act a t)) ->
  run l t = run l' t.
Proof using.
  revert l' t. induction l as [|e l IH]; intros l' t Hs Hc.
  { destruct l' as [|x l']; [done|]. apply (sameOrder_elem _ _ x) in Hs; [by apply elem_of_nil in Hs|left]. }
  pose proof (Hs (key e)) as He. simpl in He. rewrite bool_decide_eq_true_2 in He by done.
  symmetry in He. apply ofKey_split in He as (l1 & l2 & -> & Hn & Hr & _).
  rewrite move_front.
  - change (run (e :: l) t) with (run l (act e t)). apply IH.
    + intros k. pose proof (Hs k) as Hk. rewrite ofKey_app in Hk |- *. simpl in Hk.
      case_bool_decide as Hek; [|by rewrite Hk].
      subst k. rewrite (ofKey_none (key e) l1) in Hk |- * by done. simpl in *. by injection Hk.
    + intros a b t' Ha Hb. apply Hc; by right.
  - intros x t' Hx. apply Hc; [left| |].
    + apply (sameOrder_elem _ _ x Hs). apply elem_of_app. by left.
    + intros Heq. by apply (Hn x Hx).
Qed.

End Partitions.

(** ** Updates of different partitions *)
Section Commute.
  Context `{Encryption} (hash : string -> Z).

(** [GetEventKey]: the table and the uid. *)
Definition partition (e : DBEvent) : table * Z := (tableOf e, Uid hash e).

(** Rows of different partitions do not meet on a unique index. *)
Definition distinctRows (a b : DBEvent) : Prop :=
  match a, b with
  | EventInsert n r, EventInsert n' r' => n <> n' /\ e_event_id r <> e_event_id r'
  | EventRoomInsert _ i, EventRoomInsert _ i' => i <> i'
  | EventInviteInsert i _ _ _ _, EventInviteInsert i' _ _ _ _ => i <> i'
  | _, _ => True
  end.

Lemma insertNothing_comm {K A} `{Countable K} (k k' : K) (a a' : A) m :
  k <> k' -> insertNothing k a (insertNothing k' a' m) = insertNothing k' a' (insertNothing k a m).
Proof using.
  intros Hne. unfold insertNothing.
  destruct (m !! k) eqn:E1, (m !! k') eqn:E2; rewrite ?lookup_insert_ne by done; rewrite ?E1, ?E2; try done.
  by apply insert_insert_ne.
Qed.

Lemma existsb_map_spec {A} (p : A -> bool) (m : gmap Z A) :
  existsb (fun kv : Z * A => p kv.2) (map_to_list m) = true <-> exists k a, m !! k = Some a /\ p a = true.
Proof using.
  rewrite existsb_exists. split.
  - intros ([k a] & Hin & Hp). apply list_elem_of_In, elem_of_map_to_list in Hin. eauto.
  - intros (k & a & Hm & Hp). exists (k, a). split; [|done]. by apply list_elem_of_In, elem_of_map_to_list.
Qed.

(** Whether an identifier is taken does not change when its rows keep it. *)
Lemma taken_alter {A} (p : A -> bool) (f : A -> A) k (m : gmap Z A) :
  (forall a, p (f a) = p a) ->
  existsb (fun kv : Z * A => p kv.2) (map_to_list (alter f k m)) = existsb (fun kv : Z * A => p kv.2) (map_to_list m).
Proof using.
  intros Hf. apply eq_true_iff_eq. rewrite !existsb_map_spec. split.
  - intros (k' & a & Hm & Hp). destruct (decide (k' = k)) as [->|Hne].
    + rewrite lookup_alter_eq in Hm. destruct (m !! k) as [b|] eqn:Eb; [|done].
      injection Hm as <-. rewrite Hf in Hp. eauto.
    + rewrite lookup_alter_ne in Hm by done. eauto.
  - intros (k' & a & Hm & Hp). destruct (decide (k' = k)) as [->|Hne].
    + exists k, (f a). rewrite lookup_alter_eq, Hm, Hf. done.
    + exists k', a. by rewrite lookup_alter_ne by done.
Qed.

Lemma taken_insert {A} (p : A -> bool) k a (m : gmap Z A) :
  m !! k = None -> p a = false ->
  existsb (fun kv : Z * A => p kv.2) (map_to_list (<[k := a]> m)) = existsb (fun kv : Z * A => p kv.2) (map_to_list m).
Proof using.
  intros Hk Hp. apply eq_true_iff_eq. rewrite !existsb_map_spec. split.
  - intros (k' & b & Hm & Hb). rewrite lookup_insert_Some in Hm. destruct Hm as [[<- <-]|[_ Hm]]; [congruence|eauto].
  - intros (k' & b & Hm & Hb). exists k', b. rewrite lookup_insert_ne; [done|congruence].
Qed.

(** The insertions with two unique indexes, on their map. *)
Definition addEventRow (nid : Z) (row : EventRow) (m : gmap Z EventRow) : gmap Z EventRow :=
  if hasEventID m (e_event_id row) then m else insertNothing nid row m.
Definition addRoom (nid : Z) (id : string) (m : gmap Z RoomRow) : gmap Z RoomRow :=
  if hasRoomID m id then m else insertNothing nid (mkRoomRow id 0 0 0 0) m.

Lemma effect_event nid row t : effect (EventInsert nid row) t = set_events t (addEventRow nid row (t_events t)).
Proof using.
  simpl. unfold insertEventRaw, addEventRow, insertNothing. repeat break_match; simpl; try done; by destruct t.
Qed.

Lemma effect_room nid id t : effect (EventRoomInsert nid id) t = set_rooms t (addRoom nid id (t_rooms t)).
Proof using.
  simpl. unfold insertRoomNIDRaw, addRoom, insertNothing. repeat break_match; simpl; try done; by destruct t.
Qed.

(** An insertion commutes with what keeps the identifiers and, at its number,
    leaves both the new row and an old one alone. *)
Lemma insertNothing_alter {K A} `{Countable K} nid (row : A) f nid' (m : gmap K A) :
  (nid = nid' -> f row = row) ->
  insertNothing nid row (alter f nid' m) = alter f nid' (insertNothing nid row m).
Proof using.
  intros Hf. unfold insertNothing. destruct (decide (nid' = nid)) as [->|Hne].
  - rewrite lookup_alter_eq. destruct (m !! nid) eqn:Em; simpl; [done|].
    rewrite alter_insert_eq. rewrite Hf by done. f_equal. by apply alter_id' .
  - rewrite lookup_alter_ne by done. destruct (m !! nid) eqn:Em; [done|].
    symmetry. by apply alter_insert_ne.
Qed.

Lemma addEventRow_comm n r n' r' m :
  n <> n' -> e_event_id r <> e_event_id r' -> addEventRow n r (addEventRow n' r' m) = addEventRow n' r' (addEventRow n r m).
Proof using.
  intros Hn Hr. unfold addEventRow.
  assert (Hno : forall n r r' m, e_event_id r <> e_event_id r' ->
            hasEventID (insertNothing n r m) (e_event_id r') = hasEventID m (e_event_id r')).
  { intros n0 r0 r1 m0 Hne. unfold insertNothing. destruct (m0 !! n0) eqn:E0; [done|].
    apply (taken_insert (fun row => String.eqb (e_event_id row) (e_event_id r1))); [done|]. by apply String.eqb_neq. }
  destruct (hasEventID m (e_event_id r)) eqn:E1, (hasEventID m (e_event_id r')) eqn:E2;
    rewrite ?Hno by auto; rewrite ?E1, ?E2; try done.
  by apply insertNothing_comm.
Qed.

Lemma addRoom_comm n i n' i' m :
  n <> n' -> i <> i' -> addRoom n i (addRoom n' i' m) = addRoom n' i' (addRoom n i m).
Proof using.
  intros Hn Hi. unfold addRoom.
  assert (Hno : forall n i i' m, i <> i' ->
            hasRoomID (insertNothing n (mkRoomRow i 0 0 0 0) m) i' = hasRoomID m i').
  { intros n0 i0 i1 m0 Hne. unfold insertNothing. destruct (m0 !! n0) eqn:E0; [done|].
    apply (taken_insert (fun row => String.eqb (r_room_id row) i1)); [done|]. by apply String.eqb_neq. }
  destruct (hasRoomID m i) eqn:E1, (hasRoomID m i') eqn:E2; rewrite ?Hno by auto; rewrite ?E1, ?E2; try done.
  by apply insertNothing_comm.
Qed.

Lemma addEventRow_alter n r f n' m :
  (forall x, e_event_id (f x) = e_event_id x) -> (n = n' -> f r = r) ->
  addEventRow n r (alter f n' m) = alter f n' (addEventRow n r m).
Proof using.
  intros Hid Hf. unfold addEventRow, hasEventID.
  rewrite (taken_alter (fun row => String.eqb (e_event_id row) (e_event_id r))) by (intros x; by rewrite Hid).
  destruct (existsb _ _); [done|]. by apply insertNothing_alter.
Qed.

Lemma addRoom_alter n i f n' m :
  (forall x, r_room_id (f x) = r_room_id x) -> n <> n' -> addRoom n i (alter f n' m) = alter f n' (addRoom n i m).
Proof using.
  intros Hid Hn. unfold addRoom, hasRoomID.
  rewrite (taken_alter (fun row => String.eqb (r_room_id row) i)) by (intros x; by rewrite Hid).
  destruct (existsb _ _); [done|]. by apply insertNothing_alter.
Qed.

(** Updates of different tables. *)
Lemma commute_tables a b t : tableOf a <> tableOf b -> effect a (effect b t) = effect b (effect a t).
Proof using.
  intros Hne. apply view_ext. intros tbl.
  destruct (decide (tableOf a = tbl)) as [<-|Ha].
  - rewrite view_mine. rewrite (view_other (tableOf a) b), (view_other (tableOf a) b) by congruence.
    by rewrite view_mine.
  - rewrite (view_other tbl a) by done. destruct (decide (tableOf b = tbl)) as [<-|Hb].
    + rewrite !view_mine. by rewrite (view_other (tableOf b) a) by done.
    + by rewrite !view_other by done.
Qed.

Lemma position_comm n n' room room' d o dom d' o' dom' (m : gmap Z EventRow) :
  room <> room' ->
  let f room d o dom := fun r => if e_room_nid r =? room then setPosition d o dom r else r in
  alter (f room d o dom) n (alter (f room' d' o' dom') n' m) = alter (f room' d' o' dom') n' (alter (f room d o dom) n m).
Proof using.
  intros Hr f. destruct (decide (n = n')) as [->|Hn]; [|by apply alter_alter_ne].
  rewrite !alter_alter_eq. apply alter_ext. intros r _. subst f. simpl.
  destruct (Z.eqb_spec (e_room_nid r) room), (Z.eqb_spec (e_room_nid r) room'); simpl;
    repeat case_match; try done; lia.
Qed.

Lemma retire_comm room target room' target' r :
  room <> room' -> retire room target (retire room' target' r) = retire room' target' (retire room target r).
Proof using.
  intros Hr. unfold retire.
  destruct (i_room_nid r =? room) eqn:E1, (i_room_nid r =? room') eqn:E2; simpl; rewrite ?E1, ?E2; try done.
  - lia.
  - destruct (String.eqb (i_target r) target), (i_retired r); simpl; by rewrite E2.
  - destruct (String.eqb (i_target r) target'), (i_retired r); simpl; by rewrite E1.
Qed.

Lemma retire_insert id room target sender json room' target' (m : gmap string InviteRow) :
  room <> room' ->
  insertNothing id (mkInviteRow room target sender false json) (retire room' target' <$> m)
  = retire room' target' <$> insertNothing id (mkInviteRow room target sender false json) m.
Proof using.
  intros Hr. unfold insertNothing. rewrite lookup_fmap. destruct (m !! id); simpl; [done|].
  rewrite fmap_insert. f_equal. unfold retire. simpl. by rewrite (proj2 (Z.eqb_neq _ _) Hr).
Qed.

Lemma commute_json n j ty n' j' ty' t :
  n <> n' ->
  effect (EventJsonInsert n j ty) (effect (EventJsonInsert n' j' ty') t)
  = effect (EventJsonInsert n' j' ty') (effect (EventJsonInsert n j ty) t).
Proof using.
  intros Hn. simpl.
  destruct (CheckCrypto ty), (CheckCrypto ty'), (CheckMirror ty), (CheckMirror ty');
    unfold set_json; simpl; f_equal; by apply insertNothing_comm.
Qed.

(** Closes the cases that update one map at different keys. *)
Ltac other_key :=
  first [ by apply insertNothing_comm; congruence
        | by apply alter_alter_ne; congruence
        | by apply insertNothing_alter; congruence
        | by symmetry; apply insertNothing_alter; congruence
        | by apply insert_insert_ne; congruence ].

Lemma commute_members a b t :
  tableOf a = TMembers -> tableOf b = TMembers -> Uid hash a <> Uid hash b ->
  effect a (effect b t) = effect b (effect a t).
Proof using.
  intros Ha Hb Hu. destruct a; try discriminate Ha; destruct b; try discriminate Hb; simpl in *;
    unfold set_members; simpl; f_equal; other_key.
Qed.

Lemma commute_events a b t :
  tableOf a = TEvents -> tableOf b = TEvents -> Uid hash a <> Uid hash b -> distinctRows a b ->
  effect a (effect b t) = effect b (effect a t).
Proof using.
  assert (Hmove : forall n r n' room d o dom (m : gmap Z EventRow), e_room_nid r <> room ->
    addEventRow n r (alter (fun r => if e_room_nid r =? room then setPosition d o dom r else r) n' m)
    = alter (fun r => if e_room_nid r =? room then setPosition d o dom r else r) n' (addEventRow n r m)).
  { intros n r n' room d o dom m Hr. apply addEventRow_alter.
    - intros x. by case_match.
    - intros _. by rewrite (proj2 (Z.eqb_neq _ _) Hr). }
  intros Ha Hb Hu Hd. destruct a; try discriminate Ha; destruct b; try discriminate Hb;
    rewrite ?effect_event; simpl in *; rewrite ?effect_event; unfold set_events; simpl; f_equal.
  - destruct Hd. by apply addEventRow_comm.
  - by apply Hmove.
  - symmetry. by apply Hmove.
  - by apply position_comm.
Qed.

Lemma commute_rooms a b t :
  tableOf a = TRooms -> tableOf b = TRooms -> Uid hash a <> Uid hash b -> distinctRows a b ->
  effect a (effect b t) = effect b (effect a t).
Proof using.
  intros Ha Hb Hu Hd. destruct a; try discriminate Ha; destruct b; try discriminate Hb;
    rewrite ?effect_room; simpl in *; rewrite ?effect_room; unfold set_rooms; simpl; f_equal;
    try other_key; try (by apply addRoom_comm);
    first [apply addRoom_alter|symmetry; apply addRoom_alter]; try congruence; intros x; by repeat case_match.
Qed.

Lemma commute a b t :
  partition a <> partition b -> distinctRows a b -> effect a (effect b t) = effect b (effect a t).
Proof using.
  intros Hp Hd. destruct (decide (tableOf a = tableOf b)) as [Ht|Ht]; [|by apply commute_tables].
  assert (Hu : Uid hash a <> Uid hash b) by (unfold partition in Hp; congruence). clear Hp.
  destruct (tableOf a) eqn:Ha; symmetry in Ht; auto using commute_events, commute_rooms, commute_members;
    destruct a; try discriminate Ha; destruct b; try discriminate Ht; simpl Uid in Hu; simpl distinctRows in Hd.
  - by apply commute_json.
  - simpl. unfold set_snaps. simpl. f_equal. other_key.
  - simpl. unfold set_invites. simpl. f_equal. other_key.
  - simpl. unfold set_invites. simpl. f_equal. by apply retire_insert.
  - simpl. unfold set_invites. simpl. f_equal. symmetry. by apply retire_insert.
  - simpl. unfold set_invites. simpl. f_equal. rewrite <- !map_fmap_compose. apply map_fmap_ext.
    intros i x _. by apply retire_comm.
  - simpl. unfold set_aliases. simpl. f_equal. other_key.
  - simpl. unfold set_aliases. simpl. f_equal. unfold insertNothing.
    rewrite lookup_delete_ne by congruence. case_match; [done|]. rewrite delete_insert_ne by congruence. done.
  - simpl. unfold set_aliases. simpl. f_equal. unfold insertNothing.
    rewrite lookup_delete_ne by congruence. case_match; [done|]. rewrite delete_insert_ne by congruence. done.
  - simpl. unfold set_aliases. simpl. f_equal. apply delete_delete.
  - simpl. unfold set_domains. simpl. f_equal. other_key.
  - done.
Qed.

(** Order across partitions does not matter.  If two deliveries keep the order
    of the updates with the same partition key ([table:uid]), and updates of
    different partitions do not meet on a unique index, both lead to the same
    tables. *)
Theorem delivery_order_irrelevant (l l' : list DBEvent) (t : Tables) :
  sameOrder partition l l' ->
  (forall a b, a ∈ l -> b ∈ l -> partition a <> partition b -> distinctRows a b) ->
  effects effect l t = effects effect l' t.
Proof using.
  intros Hs Hd. apply (reorder partition); [done|]. intros a b t' Ha Hb Hp. apply commute; auto.
Qed.

End Commute.

(** ** Saving now or later *)
Section Async.
  Context `{Encryption} `{EventJSON}.

(** Run without [AsyncSave], the operation applies the updates [l]; run with it,
    it returns the same, draws the same identifiers, leaves the tables alone and
    sends [l]. *)
Definition sameAsync {A} (m : DB A) : Prop :=
  forall c a c1, up c -> asyncSave c = false -> m c = (Ok a, c1) ->
  up c1 /\ asyncSave c1 = false /\
  exists l, tabs c1 = effects effect l (tabs c) /\
    forall t ob, m (mkConn t true ob (idg c) (clock c) []) = (Ok a, mkConn t true (ob ++ l)%list (idg c1) (clock c1) []).

Lemma sameAsync_ret {A} (a : A) : sameAsync (mret a).
Proof using.
  intros c a' c1 Hu Ha [= <- <-]. split_and!; [done..|]. exists []. split; [done|]. intros. by rewrite app_nil_r.
Qed.

Lemma sameAsync_bind {A B} (m : DB A) (f : A -> DB B) :
  sameAsync m -> (forall a, sameAsync (f a)) -> sameAsync (m ≫= f).
Proof using.
  intros Hm Hf c b c2 Hu Ha Hr. apply ST_bind_inv in Hr as (a & c1 & E1 & E2).
  destruct (Hm c a c1 Hu Ha E1) as (Hu1 & Ha1 & l1 & Ht1 & Hq1).
  destruct (Hf a c1 b c2 Hu1 Ha1 E2) as (Hu2 & Ha2 & l2 & Ht2 & Hq2).
  split_and!; [done..|]. exists (l1 ++ l2)%list. split; [by rewrite effects_app, <- Ht1|].
  intros t ob. rewrite (ST_bind_Ok _ _ _ _ _ (Hq1 t ob)), Hq2. by rewrite app_assoc.
Qed.

Lemma sameAsync_nextID : sameAsync nextID.
Proof using.
  intros c a c1 Hu Ha. unfold nextID. destruct (Snowflake.Next (idg c) (clock c)) as [[[id g] clk]|] eqn:En; [|done].
  intros [= <- <-]. split_and!; [done..|]. exists []. split; [done|]. intros t ob. simpl. rewrite En. by rewrite app_nil_r.
Qed.

Lemma applyRaw_Ok e c u c1 : up c -> applyRaw e c = (Ok u, c1) -> c1 = ceffect e c.
Proof using.
  intros Hu Hr. pose proof (applyRaw_up e c Hu) as Hi. unfold ignoring in Hi. rewrite Hr in Hi. by injection Hi.
Qed.

Lemma sameAsync_save e : sameAsync (save e).
Proof using.
  intros c [] c1 Hu Ha. unfold save, getAsync. unfold mbind, ST_bind. rewrite Ha. intros Hr.
  apply applyRaw_Ok in Hr; [|done]. subst c1. split_and!; [done..|]. exists [e]. by split.
Qed.

End Async.

#[export] Hint Resolve sameAsync_ret sameAsync_bind sameAsync_nextID sameAsync_save : ligase.

(** *** The operations the room server calls *)
Section Operations.
  Context `{Encryption} `{EventJSON}.

Inductive Op :=
  | OStoreEvent (ev : Event.Event) (roomNID snap : Z)
  | OAssignRoomNID (roomID : string)
  | OAddState (roomNID : Z) (blocks : list Z)
  | OSetLatestEvents (roomNID last snap depth : Z)
  | OSetToInvite (roomNID : Z) (target sender eventID json : string) (nid : Z) (pre roomID : string)
  | OSetToJoin (roomNID : Z) (target sender : string) (nid : Z) (pre roomID : string)
  | OSetToLeave (roomNID : Z) (target sender : string) (nid : Z) (pre roomID : string)
  | OSetToForget (roomNID : Z) (target : string) (nid : Z) (pre roomID : string)
  | OSetRoomAlias (alias roomID : string)
  | ORemoveRoomAlias (alias : string)
  | OSaveRoomDomainsOffset (roomNID : Z) (domain : string) (offset : Z)
  | OUpdateRoomEvent (nid roomNID depth offset : Z) (domain : string)
  | OUpdateRoomDepth (depth roomNID : Z)
  | OSaveSettings (key val : string).

Definition runOp (o : Op) : DB unit :=
  match o with
  | OStoreEvent ev room snap => StoreEvent ev room snap
  | OAssignRoomNID room => _ ← AssignRoomNID room; mret ()
  | OAddState room blocks => _ ← AddState room blocks; mret ()
  | OSetLatestEvents room last snap depth => SetLatestEvents room last snap depth
  | OSetToInvite room target sender id json nid pre roomID => SetToInvite room target sender id json nid pre roomID
  | OSetToJoin room target sender nid pre roomID => SetToJoin room target sender nid pre roomID
  | OSetToLeave room target sender nid pre roomID => SetToLeave room target sender nid pre roomID
  | OSetToForget room target nid pre roomID => SetToForget room target nid pre roomID
  | OSetRoomAlias alias room => SetRoomAlias alias room
  | ORemoveRoomAlias alias => RemoveRoomAlias alias
  | OSaveRoomDomainsOffset room domain offset => SaveRoomDomainsOffset room domain offset
  | OUpdateRoomEvent nid room depth offset domain => UpdateRoomEvent nid room depth offset domain
  | OUpdateRoomDepth depth room => UpdateRoomDepth depth room
  | OSaveSettings key val => SaveSettings key val
  end.

Fixpoint runOps (os : list Op) : DB unit :=
  match os with
  | [] => mret ()
  | o :: os' => _ ← runOp o; runOps os'
  end.

Lemma sameAsync_if {A} (b : bool) (m n : DB A) : sameAsync m -> sameAsync n -> sameAsync (if b then m else n).
Proof using. by destruct b. Qed.
#[local] Hint Resolve sameAsync_if : ligase.

Lemma sameAsync_op o : sameAsync (runOp o).
Proof using.
  destruct o; simpl;
    unfold StoreEvent, insertEvent, AssignRoomNID, AddState, SetLatestEvents, SetToInvite, SetToJoin, SetToLeave,
      SetToForget, updateMembership, SetRoomAlias, RemoveRoomAlias, SaveRoomDomainsOffset, UpdateRoomEvent,
      UpdateRoomDepth, SaveSettings; auto 10 with ligase.
Qed.

Lemma sameAsync_ops os : sameAsync (runOps os).
Proof using. induction os; simpl; auto using sameAsync_op with ligase. Qed.

(** C21: Saving through the queue is saving.  When a sequence of operations without
    [AsyncSave] succeeds with the tables [tabs c1], the same operations with
    [AsyncSave] succeed, return without touching the tables, and send updates [l];
    and however those are delivered (any order that keeps each partition's, any
    interleaving with the timers, batched or not), the consumers end in
    [tabs c1]. *)
Theorem async_save_equals_sync (hash : string -> Z) (enableBatch : bool) (os : list Op)
    (c c1 : Conn DBEvent Tables) (ms : list (table * Msg DBEvent)) (l : list DBEvent) :
  faults c = [] -> asyncSave c = false -> runOps os c = (Ok (), c1) ->
  outbox (runOps os (mkConn (tabs c) true [] (idg c) (clock c) [])).2 = l ->
  (forall a b, a ∈ l -> b ∈ l -> partition hash a <> partition hash b -> distinctRows a b) ->
  Forall routed ms -> sameOrder (partition hash) l (received ms) ->
  tabs (runOps os (mkConn (tabs c) true [] (idg c) (clock c) [])).2 = tabs c /\
  exists s, runManager enableBatch (ms ++ ticks) (NewDBEventSeqManager c) = (Ok (), s) /\
            tabs (conn s) = tabs c1.
Proof using.
  intros Hu Ha Hr Hl Hd Hm Hs.
  destruct (sameAsync_ops os c () c1 Hu Ha Hr) as (_ & _ & l0 & Ht & Hq).
  rewrite Hq in Hl |- *. simpl in Hl |- *. subst l0. split; [done|].
  destruct (manager_run enableBatch (tabs c) ms [] _ (consistent_start _ c Hu) Hm) as (s1 & E1 & Hs1).
  destruct (ticks_drain enableBatch allTables s1 _ _ Hs1) as (s2 & E2 & Hs2 & Hdr).
  exists s2. split; [by rewrite (runManager_app _ _ _ _ _ E1)|].
  destruct (consistent_drained enableBatch _ _ _ Hs2) as [-> _].
  - intros tbl. apply Hdr. left. by destruct tbl; set_solver.
  - rewrite Ht. simpl. symmetry. apply (reorder (partition hash)); [done|].
    intros x y t' Hx Hy Hp. apply (commute hash); auto.
Qed.

End Operations.

(** ** Where rows are lost *)

Section Losses.
  Context `{Encryption}.

(** Key 0 is not an empty batch.  [startWorker] takes [lastKey = 0] for an empty
    batch, but 0 is the key of the sync server's insertions: with batching, an
    insertion and an update that follow each other before the timer fires end up
    in one batch, and the processor dereferences the missing payload.  Without
    batching the same two messages are written. *)
Theorem insert_then_update_panics (pos : Z) (row : SyncRow) (offset ts : Z) (domain room id : string)
    (c : Conn SyncDBEvent SyncTables) :
  faults c = [] ->
  let msgs := [Recv (SyncEventInsert pos row); Recv (SyncEventUpdate offset ts domain room id)] in
  (runWorker syncKey syncBatchKeys processSyncEvents true msgs startWorker c).1.1 = Panic /\
  (runWorker syncKey syncBatchKeys processSyncEvents false msgs startWorker c).1.1 = Ok ().
Proof using.
  intros Hf msgs. destruct c as [t a ob g clk fs]. simpl in Hf. subst fs. split.
  - destruct (syncMirrored (pos, row)) eqn:E; unfold syncMirrored in E; vm_compute in E |- *; by rewrite E.
  - destruct row as [? ? ? ? ? ? ? ty ? ? ? ?].
    destruct (CheckCrypto ty) eqn:E; [destruct (CheckMirror ty) eqn:E'|];
      cbv -[clashes insert onUpdateSyncEvent CheckCrypto CheckMirror]; rewrite ?E, ?E'; reflexivity.
Qed.

(** A failed commit loses the batch.  [success] is set before the transaction is
    committed and the error of the commit is ignored: when a batch of insertions
    is sent but its commit fails, the rows are neither in the table nor written
    again, and the messages are committed to the queue as done. *)
Theorem failed_commit_loses_batch (a b ra rb : string) (c : Conn DBEvent Tables) :
  faults c = [true; true; true; true; true; false] ->
  a <> b -> t_aliases (tabs c) !! a = None -> t_aliases (tabs c) !! b = None ->
  exists w, runWorker Key (BatchKeys TAliases) (Process TAliases) true
              [Recv (AliaseInsert a ra); Recv (AliaseInsert b rb); Tick] startWorker c
            = (Ok (), w, set_faults c []) /\
            commits w = [AliaseInsert a ra; AliaseInsert b rb] /\
            tabs (set_faults c []) = tabs c.
Proof using.
  intros Hf Hab Ha Hb. destruct c as [t s ob g clk fs]. simpl in *. subst fs.
  assert (exists t1, copyIn [copyAlias (a, ra); copyAlias (b, rb)] t = Some t1) as [t1 Ht].
  { unfold copyIn, copyAlias. simpl. rewrite Ha. simpl. rewrite lookup_insert_ne, Hb by done. by eexists. }
  eexists. split; [|split; [|reflexivity]].
  - cbv -[copyIn copyAlias noTables]. rewrite Ht. reflexivity.
  - reflexivity.
Qed.

End Losses.

(** ** Concrete runs *)

Definition exGen : Snowflake.UidGenerator := Snowflake.mkGen 0 0 0 (-1) 0.
Definition exConn (faults : list bool) : Conn DBEvent Tables := mkConn noTables false [] exGen [1600000000000000000; 1600000000001000000; 1600000000002000000] faults.

Definition exMsgs : list (table * Msg DBEvent) :=
  [(TAliases, Recv (AliaseInsert "#a:x" "!r:x")); (TMembers, Recv (EventMembershipInsert 7 "@u:x" "!r:x" 3 11));
   (TAliases, Recv (AliaseInsert "#b:x" "!r:x")); (TMembers, Tick); (TAliases, Recv (AliaseDelete "#a:x"))].

Lemma pipeline_writes_everything_witness :
  exists s, runManager true (exMsgs ++ ticks) (NewDBEventSeqManager (exConn [])) = (Ok (), s) /\
    tabs (conn s) = effects effect (received exMsgs) noTables /\
    forall tbl, commits (workers s tbl) = ofTable tbl (received exMsgs).
Proof. apply (pipeline_writes_everything true (exConn []) exMsgs); [reflexivity|]. repeat constructor. Defined.

(** Two rooms' messages delivered in either order. *)
Lemma delivery_order_irrelevant_witness :
  let a := EventMembershipInsert 7 "@u:x" "!r:x" 3 11 in
  let b := EventMembershipInsert 8 "@u:x" "!s:x" 3 12 in
  effects effect [a; b] noTables = effects effect [b; a] noTables.
Proof.
  apply (delivery_order_irrelevant (fun _ => 0)).
  - by apply sameOrder_swap.
  - intros a b Ha Hb _. set_unfold. by destruct_or!; subst.
Defined.

Definition exOps : list Op :=
  [OSetRoomAlias "#a:x" "!r:x"; OAddState 7 [4; 5]; OSaveRoomDomainsOffset 7 "x" 2].

(** The snapshot's row arrives before the alias's. *)
Definition exDelivered (snap : Z) : list (table * Msg DBEvent) :=
  [(TSnaps, Recv (EventStateSnapInsert snap 7 [4; 5])); (TAliases, Recv (AliaseInsert "#a:x" "!r:x"));
   (TDomains, Recv (RoomDomainInsert 7 "x" 2))].

Definition exJSON : EventJSON := {|
  eventJSON ev := Event.EventID ev;
  NewEventFromUntrustedJSON id := Event.mkEvent "!r:x" id 1 0 "@u:x" "m.room.message" None "hi" "" 3 "" 0 "x" "";
|}.

Definition exFinal : Conn DBEvent Tables := (runOps (H0 := exJSON) exOps (exConn [])).2.
Definition exSent : list DBEvent :=
  outbox (runOps (H0 := exJSON) exOps (mkConn noTables true [] exGen (clock (exConn [])) [])).2.
Definition exSnap : Z := Eval vm_compute in match exSent with [_; EventStateSnapInsert snap _ _; _] => snap | _ => 0 end.

Lemma async_save_equals_sync_witness :
  exists s, runManager true (exDelivered exSnap ++ ticks) (NewDBEventSeqManager (exConn [])) = (Ok (), s) /\
            tabs (conn s) = tabs exFinal.
Proof.
  apply (async_save_equals_sync (H0 := exJSON) (fun _ => 0) true exOps (exConn []) exFinal
           (exDelivered exSnap) exSent).
  - reflexivity.
  - reflexivity.
  - vm_compute. reflexivity.
  - reflexivity.
  - intros a b Ha Hb _. vm_compute in Ha, Hb. set_unfold. by destruct_or!; subst.
  - repeat constructor.
  - change (sameOrder (partition (fun _ => 0)) exSent (received (exDelivered exSnap))).
    replace exSent with ([AliaseInsert "#a:x" "!r:x"; EventStateSnapInsert exSnap 7 [4; 5]; RoomDomainInsert 7 "x" 2])
      by (vm_compute; reflexivity).
    by apply sameOrder_swap.
Defined.

Definition exRow : SyncRow := mkSyncRow "$e:x" "!r:x" "{}" [] [] "" "" "m.room.message" 1 1 "x" 0.

Lemma insert_then_update_panics_witness :
  let msgs := [Recv (SyncEventInsert 5 exRow); Recv (SyncEventUpdate 2 0 "x" "!r:x" "$e:x")] in
  let c := mkConn (mkSyncTables ∅ ∅) false [] exGen [] [] in
  (runWorker syncKey syncBatchKeys processSyncEvents true msgs startWorker c).1.1 = Panic /\
  (runWorker syncKey syncBatchKeys processSyncEvents false msgs startWorker c).1.1 = Ok ().
Proof. by apply insert_then_update_panics. Defined.

Lemma failed_commit_loses_batch_witness :
  let c := exConn [true; true; true; true; true; false] in
  exists w, runWorker Key (BatchKeys TAliases) (Process TAliases) true
              [Recv (AliaseInsert "#a:x" "!r:x"); Recv (AliaseInsert "#b:x" "!r:x"); Tick] startWorker c
            = (Ok (), w, set_faults c []) /\
            commits w = [AliaseInsert "#a:x" "!r:x"; AliaseInsert "#b:x" "!r:x"] /\
            tabs (set_faults c []) = tabs c.
Proof. by apply failed_commit_loses_batch. Defined.

End DbDelivery.
