(* ===== verification/RoomQuery.v ===== *)
(** * Queries of the room server

    [src/roomserver/processors/roomQryProcessor.go] on the tables of [RoomTables],
    the RPC that answers them ([src/roomserver/rpc/roomServerRpc.go]) and the
    federation entry for backfill ([src/federation/federationapi/entry/backfill.go]).

    A query fills a response and returns an error.  The RPC sends the response
    and drops the error, so both are part of the result.  [Repo] is the room state
    repository's answer for a room (file [RoomState]).

    - [authNIDs]: the selection of [QueryEventAuth]; [auth_events_are_latest] is
      its specification. *)

From Stdlib Require Import String Ascii ZArith List Permutation Sorted Lia.
From stdpp Require Import base tactics list gmap strings.
From S2P Require Import Prelude Snowflake Ids Event RoomState RoomTables RoomRows.

#[local] Open Scope string_scope.
#[local] Open Scope Z_scope.

Module RoomQuery.
Import Event RoomState RoomTables RoomRows.

Definition MaxInt64 : Z := 2^63 - 1.
Definition MinInt64 : Z := - 2^63.

(** A call whose error the caller looks at. *)
Definition attempt {S A} (m : ST S A) : ST S (A + goerr) := fun s =>
  match m s with
  | (Ok a, s1) => (Ok (inl a), s1)
  | (Err e, s1) => (Ok (inr e), s1)
  | (Panic, s1) => (Panic, s1)
  | (Diverge, s1) => (Diverge, s1)
  end.

Definition errText (e : goerr) : string :=
  match e with
  | ErrNotAllowed msg => "eventauth: " ++ msg
  | ErrMsg msg => msg
  | ErrNoRows => "sql: no rows in result set"
  end.

(** ** Requests and responses *)

Record BackfillRequest := mkBackfillRequest {
  bqEventID : string;
  bqLimit : Z;
  bqRoomID : string;
  bqDir : string;
  bqDomain : string;
  bqOrigin : string;
}.

Record BackfillResponse := mkBackfillResponse {
  brError : string;
  brPDUs : list Event;
}.

Definition noPDUs (err : string) : BackfillResponse := mkBackfillResponse err [].

Record OffsetRequest := mkOffsetRequest {
  oqRoomID : string;
  oqDomain : string;
  oqDomainOffset : Z;
  oqEventID : string;
  oqUseEventID : bool;
  oqLimit : Z;
}.

Record RoomStateResponse := mkRoomStateResponse {
  rrRoomID : string;
  rrRoomExists : bool;
  rrSlots : option Slots;
  rrJoin : gmap string Event;
  rrLeave : gmap string Event;
  rrInvite : gmap string Event;
  rrThirdInvite : gmap string Event;
}.

(** ** The choice of the auth events *)

(** Remove the first occurrence. *)
Fixpoint removeFirst (v : Z) (l : list Z) : option (list Z) :=
  match l with
  | [] => None
  | x :: l' => if x =? v then Some l' else match removeFirst v l' with Some r => Some (x :: r) | None => None end
  end.

(** The loop that fills [domainMap]: the newest block of each domain. *)
Fixpoint domainMap (rows : list (Z * EventRow)) (blocks : list Z) (m : gmap string Z) : gmap string Z :=
  match rows with
  | [] => m
  | (nid, r) :: rows' =>
      match removeFirst nid blocks with
      | Some blocks' =>
          let m1 := <[e_domain r := nid]> m in
          if (length blocks' =? 0)%nat then m1 else domainMap rows' blocks' m1
      | None => if (length blocks =? 0)%nat then m else domainMap rows' blocks m
      end
  end.

Definition stateKeyOf (r : EventRow) : string := e_type r ++ e_state_key r.

(** Rows that are not newer than the newest block of their domain. *)
Definition visible (dm : gmap string Z) (kv : Z * EventRow) : bool :=
  negb (default 0 (dm !! e_domain kv.2) <? kv.1).

(** One round of the loop that fills [domainEventMap] and [stateList]. *)
Definition addState (acc : gmap string (gmap string Z) * list string) (kv : Z * EventRow) :
    gmap string (gmap string Z) * list string :=
  let '(dem, keys) := acc in
  let key := stateKeyOf kv.2 in
  let tmp := default ∅ (dem !! e_domain kv.2) in
  let lastID := default 0 (tmp !! key) in
  (<[e_domain kv.2 := if lastID <? kv.1 then <[key := kv.1]> tmp else tmp]> dem, (keys ++ [key])%list).

Definition domainEvents (dm : gmap string Z) (rows : list (Z * EventRow)) : gmap string (gmap string Z) * list string :=
  fold_left (fun acc kv => if visible dm kv then addState acc kv else acc) rows (∅, []).

(** The newest number of a key over all domains; a domain without it counts as 0. *)
Definition maxNID `{GoRange} (dem : gmap string (gmap string Z)) (key : string) : Z :=
  fold_left (fun mx kv => let v := default 0 (kv.2 !! key) in if mx <? v then v else mx) (range dem) MinInt64.

Definition authNIDs `{GoRange} (rows : list (Z * EventRow)) (blocks : list Z) : list Z :=
  let '(dem, keys) := domainEvents (domainMap rows blocks ∅) rows in
  map (maxNID dem) keys.

Definition maxBlock (blocks : list Z) : Z := fold_left (fun mx v => if mx <? v then v else mx) blocks MinInt64.

(** ** The processor *)

Section Processor.
  Context `{SqlRows} `{Encryption} `{EventJSON} `{GoRange}.
  Variable Repo : string -> option RoomServerState.
  Variable ServerName0 : string.

Definition QueryRoomState (roomID : string) : RoomStateResponse * option goerr :=
  match Repo roomID with
  | None => (mkRoomStateResponse roomID false None ∅ ∅ ∅ ∅, Some (ErrMsg "room not exits"))
  | Some rs => (mkRoomStateResponse roomID true (Some (slots rs)) (joined rs) (left rs) (invited rs) (thirdInvite rs), None)
  end.

Definition QueryEventsByID (ids : list string) : DB (list Event) :=
  nids ← EventNIDs ids;
  evs ← Events (map snd (range nids));
  mret (map fst evs).

(** [evs[0]] of a non-nil slice; [Events] returns nil when there is no row. *)
Definition QueryRoomEventByID (id : string) : DB (option Event) :=
  nid ← EventNID id;
  evs ← Events [nid];
  mret (head (map fst evs)).

(** Where the search starts: the number, whether it is the event that let the
    origin in ([checkFirstEv]). *)
Definition backfillStart (rs : RoomServerState) (req : BackfillRequest) : DB (Z * bool) :=
  if negb (String.eqb (bqEventID req) "") then
    nid ← EventNID (bqEventID req);
    mret (nid, false)
  else if String.eqb (bqDir req) "b" then
    r ← attempt (SelectEventNidForBackfill (RoomNid rs) (bqOrigin req));
    let endEventNID := match r with inl nid => nid | inr _ => 0 end in
    mret (if endEventNID =? 0 then (MaxInt64, false) else (endEventNID, true))
  else mret (MinInt64, false).

(** The event the answer must reach: 0 when there is none to check. *)
Definition backfillLast (rs : RoomServerState) (eventNid : Z) (checkFirstEv : bool) : DB (Z + goerr) :=
  if checkFirstEv then mret (inl eventNid)
  else if negb (String.eqb (LastMsgId (ext rs)) "") then attempt (EventNID (LastMsgId (ext rs)))
  else mret (inl 0).

(** The first event numbered [lastNID] or later, taken out. *)
Fixpoint cutLast (lastNID : Z) (evs : list Event) : option (list Event) :=
  match evs with
  | [] => None
  | ev :: evs' =>
      if lastNID <=? Event.EventNID ev then Some evs'
      else match cutLast lastNID evs' with Some r => Some (ev :: r) | None => None end
  end.

Definition notFullyStored : string := "backfill event is not fully store".

Definition checkLast (rs : RoomServerState) (eventNid : Z) (checkFirstEv : bool) (evs : list Event) :
    DB (BackfillResponse * option goerr) :=
  last ← backfillLast rs eventNid checkFirstEv;
  match last with
  | inr _ => mret (noPDUs notFullyStored, Some (ErrMsg notFullyStored))
  | inl lastNID =>
      if lastNID =? 0 then mret (mkBackfillResponse "" evs, None)
      else
        match cutLast lastNID evs with
        | Some rest => mret (mkBackfillResponse "" (if checkFirstEv then rest else evs), None)
        | None => mret (noPDUs notFullyStored, Some (ErrMsg notFullyStored))
        end
  end.

Definition QueryBackFillEvents (req : BackfillRequest) : DB (BackfillResponse * option goerr) :=
  match Repo (bqRoomID req) with
  | None => mret (noPDUs "", Some (ErrMsg "room not exits"))
  | Some rs =>
      let domain := if String.eqb (bqDomain req) "" then ServerName0 else bqDomain req in
      start ← attempt (backfillStart rs req);
      match start with
      | inr e => mret (noPDUs (errText e), Some e)
      | inl (eventNid, checkFirstEv) =>
          r ← attempt (BackFillNids (RoomNid rs) domain
                         (if checkFirstEv then wrap64 (eventNid + 1) else eventNid) (bqLimit req) (bqDir req));
          match r with
          | inr e => mret (noPDUs (errText e), Some e)
          | inl nids =>
              r ← attempt (Events nids);
              match r with
              | inr e => mret (noPDUs (errText e), Some e)
              | inl evs =>
                  if String.eqb (bqDir req) "b" && String.eqb (bqEventID req) ""
                  then checkLast rs eventNid checkFirstEv (map fst evs)
                  else mret (mkBackfillResponse "" (map fst evs), None)
              end
          end
      end
  end.

Definition QueryEventAuth (eventID : string) : DB (list Event) :=
  snap ← SelectEventStateSnapshotNID eventID;
  rb ← SelectState snap;
  let blocks := List.filter (fun v => negb (v =? 0)) rb.2 in
  if (length blocks =? 0)%nat then fail (ErrMsg "stateBlockNIDs")
  else
    rows ← SelectRoomStateNIDByStateBlockNID rb.1 (maxBlock blocks);
    evs ← Events (authNIDs rows blocks);
    mret (map fst evs).

Definition QueryEventsByDomainOffset (req : OffsetRequest) : DB (BackfillResponse * option goerr) :=
  match Repo (oqRoomID req) with
  | None => mret (noPDUs "", Some (ErrMsg "room not exits"))
  | Some rs =>
      start ← attempt (if oqUseEventID req then
                         nid ← EventNID (oqEventID req);
                         evs ← Events [nid];
                         mret (match head (map fst evs) with Some ev => Some (DomainOffset ev) | None => None end)
                       else mret (Some (oqDomainOffset req)));
      match start with
      | inr e => mret (noPDUs "", Some e)
      | inl None =>
          let msg := "event not found " ++ oqEventID req in
          mret (noPDUs msg, Some (ErrMsg msg))
      | inl (Some offset) =>
          r ← attempt (SelectRoomEventsByDomainOffset (RoomNid rs) (oqDomain req) offset (oqLimit req));
          match r with
          | inr e => mret (noPDUs (errText e), Some e)
          | inl nids =>
              r ← attempt (Events nids);
              mret (mkBackfillResponse "" (match r with inl evs => map fst evs | inr _ => [] end), None)
          end
      end
  end.

(** [processQueryBackFillEvents]: the error is not part of the reply. *)
Definition processQueryBackFillEvents (req : BackfillRequest) : DB BackfillResponse :=
  r ← QueryBackFillEvents req;
  mret r.1.

End Processor.

(** ** [QueryEventAuth] *)

Section AuthFacts.
  Context `{GoRange}.
  #[local] Abbreviation Row := (Z * EventRow)%type.

Definition weight (dem : gmap string (gmap string Z)) (d key : string) : Z :=
  default 0 (default ∅ (dem !! d) !! key).

Lemma removeFirst_Some v l l' : removeFirst v l = Some l' -> v ∈ l /\ forall x, x ∈ l' -> x ∈ l.
Proof using.
  revert l'. induction l as [|x l IH]; intros l'; simpl; [done|].
  destruct (Z.eqb_spec x v) as [->|].
  - intros [= ->]. set_solver.
  - destruct (removeFirst v l) as [r|]; [|done]. intros [= <-].
    destruct (IH r eq_refl). set_solver.
Qed.

Lemma removeFirst_None v l : removeFirst v l = None <-> v ∉ l.
Proof using.
  induction l as [|x l IH]; simpl; [set_solver|].
  destruct (Z.eqb_spec x v) as [->|]; [set_solver|].
  destruct (removeFirst v l); set_solver.
Qed.

Lemma removeFirst_keeps v l l' x : removeFirst v l = Some l' -> x ∈ l -> x <> v -> x ∈ l'.
Proof using.
  revert l'. induction l as [|y l IH]; intros l'; simpl; [done|].
  destruct (Z.eqb_spec y v) as [->|].
  - intros [= ->]. set_solver.
  - destruct (removeFirst v l) as [r|] eqn:E; [|done]. intros [= <-] Hx Hne.
    apply elem_of_cons in Hx as [->|Hx]; [set_solver|]. apply elem_of_cons. right. by apply IH.
Qed.

(** The numbers of the rows rise. *)
Abbreviation rising := (StronglySorted below).

Lemma rising_cons x l : rising (x :: l) -> rising l /\ forall y, y ∈ l -> x.1 < y.1.
Proof using.
  intros Hs. apply StronglySorted_inv in Hs as [Hs Hf]. split; [done|].
  intros y Hy. rewrite List.Forall_forall in Hf. by apply Hf, list_elem_of_In.
Qed.

Lemma domainMap_step (m : gmap string Z) d nid n r : default 0 (m !! d) < n ->
  nid <= default 0 (<[e_domain r := n]> m !! d) <-> nid <= default 0 (m !! d) \/ (e_domain r = d /\ nid <= n).
Proof using.
  intros Hm. destruct (decide (e_domain r = d)) as [->|Hd].
  - rewrite lookup_insert_eq. simpl. naive_solver lia.
  - rewrite lookup_insert_ne by done. naive_solver.
Qed.

(** [domainMap] leaves every domain at its newest block. *)
Lemma domainMap_spec rows blocks m d nid :
  rising rows -> blocks <> [] ->
  (forall r, r ∈ rows -> default 0 (m !! d) < r.1) -> 0 < nid ->
  nid <= default 0 (domainMap rows blocks m !! d) <->
  nid <= default 0 (m !! d) \/ exists r, r ∈ rows /\ r.1 ∈ blocks /\ e_domain r.2 = d /\ nid <= r.1.
Proof using.
  revert blocks m. induction rows as [|[n r] rows IH]; intros blocks m Hs Hb Hm Hn; cbn [domainMap].
  { set_solver. }
  apply rising_cons in Hs as [Hs Hlt].
  destruct (removeFirst n blocks) as [blocks'|] eqn:E.
  - assert (Hin := proj1 (removeFirst_Some _ _ _ E)).
    pose proof (domainMap_step m d nid n r (Hm (n, r) ltac:(set_solver))) as Hstep. simpl in Hstep.
    destruct blocks' as [|b blocks'].
    + simpl. rewrite Hstep. split.
      * intros [?|[Hd ?]]; [by left|]. right. exists (n, r). set_solver.
      * intros [?|(x & Hx & Hxb & Hd & ?)]; [by left|].
        destruct (decide (x.1 = n)) as [Hxn|Hxn].
        { apply elem_of_cons in Hx as [->|Hx]; [by right|]. pose proof (Hlt x Hx). simpl in *. lia. }
        pose proof (removeFirst_keeps _ _ _ x.1 E Hxb Hxn). set_solver.
    + change (if (length (b :: blocks') =? 0)%nat then _ else ?k) with k.
      rewrite IH; [|done|done| |done].
      2:{ intros x Hx. pose proof (Hlt x Hx). simpl in *. destruct (decide (e_domain r = d)) as [->|Hd].
          - by rewrite lookup_insert_eq.
          - rewrite lookup_insert_ne by done. apply Hm. set_solver. }
      rewrite Hstep. split.
      * intros [[?|[Hd ?]]|(x & Hx & Hxb & Hd & ?)]; [by left| |].
        -- right. exists (n, r). set_solver.
        -- right. exists x. pose proof (proj2 (removeFirst_Some _ _ _ E) x.1 Hxb). set_solver.
      * intros [?|(x & Hx & Hxb & Hd & ?)]; [by left; left|].
        apply elem_of_cons in Hx as [->|Hx]; [by left; right|].
        right. exists x. split_and!; try done. eapply removeFirst_keeps; [done..|]. pose proof (Hlt x Hx). simpl in *. lia.
  - apply removeFirst_None in E.
    replace ((length blocks =? 0)%nat) with false by (destruct blocks; done).
    rewrite IH; [|done|done|set_solver|done]. split.
    + intros [?|(x & ? & ? & ? & ?)]; [by left|]. right. exists x. set_solver.
    + intros [?|(x & Hx & ? & ? & ?)]; [by left|]. right. exists x.
      apply elem_of_cons in Hx as [->|Hx]; [done|]. done.
Qed.

(** What the loop over the rows has collected. *)
Record collected (l : list Row) (dem : gmap string (gmap string Z)) (keys : list string) : Prop := {
  col_keys : keys = map (fun kv => stateKeyOf kv.2) l;
  col_dom : forall kv, kv ∈ l -> is_Some (dem !! e_domain kv.2);
  col_ge : forall kv, kv ∈ l -> kv.1 <= weight dem (e_domain kv.2) (stateKeyOf kv.2);
  col_from : forall d key, weight dem d key = 0 \/
    exists kv, kv ∈ l /\ weight dem d key = kv.1 /\ e_domain kv.2 = d /\ stateKeyOf kv.2 = key;
}.

Lemma addState_weight dem keys kv d key :
  weight (addState (dem, keys) kv).1 d key =
  if decide (d = e_domain kv.2 /\ key = stateKeyOf kv.2) then Z.max (weight dem d key) kv.1 else weight dem d key.
Proof using.
  unfold addState, weight. simpl. case_decide as Hd.
  - destruct Hd as [-> ->]. rewrite lookup_insert_eq. simpl.
    destruct (Z.ltb_spec (default 0 (default ∅ (dem !! e_domain kv.2) !! stateKeyOf kv.2)) kv.1).
    + rewrite lookup_insert_eq. simpl. lia.
    + lia.
  - destruct (decide (d = e_domain kv.2)) as [->|]; [|by rewrite lookup_insert_ne by done].
    rewrite lookup_insert_eq. simpl. destruct (_ <? _); [|done]. rewrite lookup_insert_ne; naive_solver.
Qed.

Lemma addState_collects l dem keys kv :
  collected l dem keys ->
  collected (l ++ [kv]) (addState (dem, keys) kv).1 (addState (dem, keys) kv).2.
Proof using.
  intros [Hk Hd Hg Hf]. split.
  - simpl. by rewrite Hk, map_app.
  - intros x Hx. simpl. destruct (decide (e_domain x.2 = e_domain kv.2)) as [->|Hne].
    + by rewrite lookup_insert_eq.
    + rewrite lookup_insert_ne by done. apply Hd. apply elem_of_app in Hx as [?|Hx]; [done|].
      apply list_elem_of_singleton in Hx as ->. done.
  - intros x Hx. rewrite addState_weight. apply elem_of_app in Hx as [Hx|Hx].
    + pose proof (Hg x Hx). case_decide; lia.
    + apply list_elem_of_singleton in Hx as ->. rewrite decide_True by done. lia.
  - intros d key. rewrite addState_weight. case_decide as Hc.
    + destruct Hc as [-> ->]. destruct (Z.max_spec (weight dem (e_domain kv.2) (stateKeyOf kv.2)) kv.1) as [[_ ->]|[_ ->]].
      * right. exists kv. set_solver.
      * destruct (Hf (e_domain kv.2) (stateKeyOf kv.2)) as [?|(x & Hx & ?)]; [by left|]. right. exists x. set_solver.
    + destruct (Hf d key) as [?|(x & Hx & ?)]; [by left|]. right. exists x. set_solver.
Qed.

Lemma domainEvents_collected dm rows :
  collected (List.filter (visible dm) rows) (domainEvents dm rows).1 (domainEvents dm rows).2.
Proof using.
  unfold domainEvents.
  assert (Hgen : forall rows l acc, collected l acc.1 acc.2 ->
    collected (l ++ List.filter (visible dm) rows)
      (fold_left (fun acc kv => if visible dm kv then addState acc kv else acc) rows acc).1
      (fold_left (fun acc kv => if visible dm kv then addState acc kv else acc) rows acc).2).
  { clear rows. induction rows as [|kv rows IH]; intros l [dem keys] Hc; simpl; [by rewrite app_nil_r|].
    destruct (visible dm kv); [|by apply IH].
    change (kv :: ?r) with ([kv] ++ r)%list. rewrite app_assoc. by apply IH, addState_collects. }
  apply (Hgen rows [] (∅, [])). split; simpl; try set_solver.
Qed.

Lemma fold_max_spec {A} (f : A -> Z) l mx :
  let r := fold_left (fun mx x => if mx <? f x then f x else mx) l mx in
  mx <= r /\ (forall x, x ∈ l -> f x <= r) /\ (r = mx \/ exists x, x ∈ l /\ r = f x).
Proof using.
  revert mx. induction l as [|y l IH]; intros mx r; simpl in r; subst r; [split_and!; [lia|set_solver|by left]|].
  destruct (Z.ltb_spec mx (f y)).
  - destruct (IH (f y)) as (? & Hl & Hr). split_and!; [lia| |].
    + intros x [->|Hx]%elem_of_cons; [done|by apply Hl].
    + destruct Hr as [->|(x & ? & ->)]; right; [exists y|exists x]; set_solver.
  - destruct (IH mx) as (? & Hl & Hr). split_and!; [lia| |].
    + intros x [->|Hx]%elem_of_cons; [lia|by apply Hl].
    + destruct Hr as [->|(x & ? & ->)]; [by left|]. right. exists x. set_solver.
Qed.

Lemma maxNID_spec dem key :
  (forall d, is_Some (dem !! d) -> weight dem d key <= maxNID dem key) /\
  (maxNID dem key = MinInt64 \/ exists d, maxNID dem key = weight dem d key).
Proof using.
  unfold maxNID. destruct (fold_max_spec (fun kv : string * gmap string Z => default 0 (kv.2 !! key)) (range dem) MinInt64)
    as (_ & Hl & Hr). split.
  - intros d [m Hm]. unfold weight. rewrite Hm. apply (Hl (d, m)), range_elem, Hm.
  - destruct Hr as [?|([d m] & Hin & ->)]; [by left|]. right. exists d. unfold weight.
    apply range_elem in Hin. by rewrite Hin.
Qed.

(** The state a snapshot describes: a row is in it when its domain has a block
    that is not older. *)
Definition inSnapshot (rows : list Row) (blocks : list Z) (kv : Row) : Prop :=
  exists b, b ∈ rows /\ b.1 ∈ blocks /\ e_domain b.2 = e_domain kv.2 /\ kv.1 <= b.1.

Lemma visible_inSnapshot rows blocks kv :
  rising rows -> (forall r, r ∈ rows -> 0 < r.1) -> blocks <> [] -> kv ∈ rows ->
  visible (domainMap rows blocks ∅) kv = true <-> inSnapshot rows blocks kv.
Proof using.
  intros Hs Hp Hb Hin. unfold visible. rewrite negb_true_iff, Z.ltb_ge.
  rewrite domainMap_spec; [|done|done| |by apply Hp].
  - rewrite lookup_empty. simpl. unfold inSnapshot. pose proof (Hp kv Hin).
    split; [intros [?|Hx]; [lia|exact Hx]|by right].
  - intros r Hr. rewrite lookup_empty. by apply Hp.
Qed.

(** The maximum chosen for the key of a row is the number of the newest row with
    that key. *)
Lemma maxNID_latest (l : list Row) dem keys r :
  (forall kv, kv ∈ l -> 0 < kv.1) -> collected l dem keys -> r ∈ l ->
  exists x, x ∈ l /\ stateKeyOf x.2 = stateKeyOf r.2 /\ maxNID dem (stateKeyOf r.2) = x.1 /\
    forall kv, kv ∈ l -> stateKeyOf kv.2 = stateKeyOf r.2 -> kv.1 <= x.1.
Proof using.
  intros Hp [_ Hd Hg Hf] Hr. destruct (maxNID_spec dem (stateKeyOf r.2)) as [Hge Hm].
  assert (Hall : forall kv, kv ∈ l -> stateKeyOf kv.2 = stateKeyOf r.2 -> kv.1 <= maxNID dem (stateKeyOf r.2)).
  { intros kv Hk Heq. etrans; [apply (Hg kv Hk)|]. rewrite Heq. by apply Hge, Hd. }
  pose proof (Hall r Hr eq_refl). pose proof (Hp r Hr).
  destruct Hm as [Hm|[d Hm]]; [unfold MinInt64 in Hm; lia|].
  destruct (Hf d (stateKeyOf r.2)) as [?|(x & Hx & Hw & ? & Hk)]; [lia|].
  exists x. split_and!; try done; [congruence|]. intros kv ? ?. rewrite <- Hw, <- Hm. by apply Hall.
Qed.

(** The auth events of an event are the latest state of its snapshot: for every
    type and state key the newest selected row that is not newer than the newest
    block of its sender's domain, and nothing else. *)
Theorem auth_events_are_latest `{SqlRows} (p : Z -> EventRow -> bool) (t : Tables) (blocks : list Z) (n : Z) :
  (forall nid r, t_events t !! nid = Some r -> 0 < nid) -> blocks <> [] ->
  let rows := selectEvents p nidAsc t in
  n ∈ authNIDs rows blocks <->
  exists r, (n, r) ∈ rows /\ inSnapshot rows blocks (n, r) /\
    forall kv, kv ∈ rows -> inSnapshot rows blocks kv -> stateKeyOf kv.2 = stateKeyOf r -> kv.1 <= n.
Proof using.
  intros Ht Hb rows. assert (Hs : rising rows) by apply selectEvents_asc.
  assert (Hp : forall r, r ∈ rows -> 0 < r.1).
  { intros [k r] Hr. apply selectEvents_elem in Hr as [Hr _]. by apply (Ht k r). }
  clearbody rows. unfold authNIDs.
  pose proof (domainEvents_collected (domainMap rows blocks ∅) rows) as Hc.
  destruct (domainEvents (domainMap rows blocks ∅) rows) as [dem keys]. simpl in Hc.
  assert (Hvis : forall kv, kv ∈ List.filter (visible (domainMap rows blocks ∅)) rows <->
                            kv ∈ rows /\ inSnapshot rows blocks kv).
  { intros kv. rewrite list_elem_of_In, filter_In, <- list_elem_of_In.
    split; intros [Hin Hv]; split; try done; by apply (visible_inSnapshot rows blocks kv Hs Hp Hb Hin). }
  assert (Hpv : forall kv, kv ∈ List.filter (visible (domainMap rows blocks ∅)) rows -> 0 < kv.1).
  { intros kv [Hk _]%Hvis. by apply Hp. }
  rewrite list_elem_of_In, in_map_iff. split.
  - intros (key & <- & Hkey). rewrite (col_keys _ _ _ Hc) in Hkey. apply in_map_iff in Hkey as (r & <- & Hr).
    apply list_elem_of_In in Hr. destruct (maxNID_latest _ _ _ r Hpv Hc Hr) as ([n' r'] & Hx & Hk & -> & Hall).
    apply Hvis in Hx as [Hx Hix]. exists r'. split_and!; try done.
    intros kv Hin Hi Heq. apply Hall; [by apply Hvis|]. simpl in Hk. congruence.
  - intros (r & Hr & Hi & Hall). assert (Hv := proj2 (Hvis (n, r)) (conj Hr Hi)). exists (stateKeyOf r).
    destruct (maxNID_latest _ _ _ (n, r) Hpv Hc Hv) as (x & Hx & Hk & Hm & Hall').
    simpl in *. split.
    + rewrite Hm. apply Hvis in Hx as [Hx Hix]. apply Z.le_antisymm; [by apply Hall|]. by apply (Hall' (n, r)).
    + rewrite (col_keys _ _ _ Hc). apply in_map_iff. exists (n, r). split; [done|]. by apply list_elem_of_In.
Qed.

End AuthFacts.

(** ** A concrete snapshot *)

#[local] Instance exScan : SqlRows := {| scan A l := l; scan_perm A l := Permutation_refl l |}.

Definition exRow (type domain : string) : EventRow := mkEventRow 7 type "" 0 0 "" 0 domain.
Definition exTables : Tables :=
  set_events noTables (list_to_map [(1, exRow "m.room.create" "a"); (2, exRow "m.room.name" "a");
                                    (3, exRow "m.room.topic" "c"); (4, exRow "m.room.name" "a")]).

(** The snapshot with the block 2 of domain [a]: the second name is not in it. *)
Lemma auth_events_are_latest_witness :
  let rows := selectEvents (fun _ _ => true) nidAsc exTables in
  authNIDs rows [2] = [1; 2] /\
  (2 ∈ authNIDs rows [2] <->
   exists r, (2, r) ∈ rows /\ inSnapshot rows [2] (2, r) /\
     forall kv, kv ∈ rows -> inSnapshot rows [2] kv -> stateKeyOf kv.2 = stateKeyOf r -> kv.1 <= 2).
Proof.
  split; [vm_compute; reflexivity|]. apply (auth_events_are_latest (fun _ _ => true) exTables [2] 2); [|done].
  assert (Hall : map_Forall (fun nid (_ : EventRow) => 0 < nid) (t_events exTables)); [|exact Hall].
  refine (proj1 (bool_decide_eq_true _) _). vm_compute. reflexivity.
Defined.

End RoomQuery.
