(* ===== verification/Backfill.v ===== *)
(** * Federation backfill

    [src/federation/fedbackfill/]: when a server enters a room it fetches the
    earlier events of the room from the server of every other domain, newest
    first, in pages of [kBatchSize], and gives them to its room server.  The
    serving side is [QueryBackFillEvents] of [RoomQuery], reached through
    [src/federation/federationapi/entry/backfill.go].

    [Net] is what one goroutine of [Process] sees: the requests that get through
    ([link], all of them once the list is used up), the database connection of
    the peer, the events given to the room server, and the channel [respCh],
    which has room for 1000 items and which nobody reads.

    - [backfillLoop]: the loop of the goroutine, with fuel for its rounds. *)

From Stdlib Require Import String Ascii ZArith List.
From stdpp Require Import base tactics list gmap strings.
From S2P Require Import Prelude Snowflake Ids Event RoomState RoomTables RoomQuery.

#[local] Open Scope string_scope.
#[local] Open Scope Z_scope.

Module Backfill.
Import Event RoomState RoomTables RoomQuery.

(** ** Data *)

Record BackfillJobFinishItem := mkFinishItem {
  fiEventID : string;
  fiStartEventID : string;
  fiStartOffset : Z;
  fiFinished : bool;
}.

Record BackFillJob := mkBackFillJob {
  jPDUs : list Event;
  jDepth : Z;
  jLimit : Z;
  jFinishedDomains : gmap string BackfillJobFinishItem;
}.

Record BackfillItem := mkBackfillItem {
  biDomain : string;
  biEnd : bool;
  biErr : bool;
}.

(** What [Process] writes with [UpdateRecord]. *)
Record BackfillRecord := mkBackfillRecord {
  recRoomID : string;
  recDepth : Z;
  recFinished : bool;
  recFinishedDomains : gmap string BackfillJobFinishItem;
  recStates : list Event;
}.

Definition kBatchSize : Z := 50.
Definition respChCap : nat := 1000.

Record Net := mkNet {
  link : list bool;
  peer : Conn DBEvent Tables;
  inputs : list (list Event);
  respCh : list BackfillItem;
}.

(** ** A job *)

(** The first loop of [Process]: the state events by identifier, and a status per
    domain. *)
Definition jobStates (pdus : list Event) : gmap string Event :=
  fold_left (fun m ev => <[Event.EventID ev := ev]> m) pdus ∅.

Section Job.
  Variable domainMng : option (Ids.DomainMng * Ids.DomainSrc).
  Variable serverNames : list string.
  #[local] Abbreviation isLocal d := (Ids.CheckValidDomain domainMng d serverNames).

Definition addDomain (job : BackFillJob) (m : gmap string BackfillJobFinishItem) (ev : Event) :
    gmap string BackfillJobFinishItem :=
  let domain := Ids.domainOrEmpty (Sender ev) in
  match m !! domain with
  | Some _ => m
  | None =>
      match jFinishedDomains job !! domain with
      | Some v => <[domain := v]> m
      | None => <[domain := mkFinishItem "" "" 0 (isLocal domain)]> m
      end
  end.

Definition jobDomains (job : BackFillJob) : gmap string BackfillJobFinishItem :=
  fold_left (addDomain job) (jPDUs job) ∅.

(** The goroutines that are started: domain and event to start from. *)
Definition jobTasks `{GoRange} (job : BackFillJob) : list (string * string) :=
  map (fun kv => (kv.1, fiEventID kv.2))
    (List.filter (fun kv => negb (fiFinished kv.2) && negb (isLocal kv.1)) (range (jobDomains job))).

(** [Process]: the tasks it starts and the record it writes; [job.PDUs[0]] panics
    without events, which the deferred [recover] turns into doing nothing. *)
Definition Process `{GoRange} (job : BackFillJob) : option (list (string * string) * BackfillRecord) :=
  match jPDUs job with
  | [] => None
  | ev :: _ =>
      Some (jobTasks job,
            mkBackfillRecord (RoomID ev) 0 true (jobDomains job) (map snd (range (jobStates (jPDUs job)))))
  end.

End Job.

(** ** Paging *)

(** [sort.Slice] by falling number. *)
Definition newestFirst (a b : Event) : bool := Event.EventNID b <=? Event.EventNID a.

(** The loop from the last event to the first that resets the depth and takes the
    state events out. *)
Fixpoint trimLoop (states : gmap string Event) (i : nat) (pdus : list Event) : list Event :=
  match i with
  | O => pdus
  | S i' =>
      let pdus1 := alter (fun ev => SetDepth ev (-1)) i' pdus in
      let pdus2 :=
        match pdus1 !! i' with
        | Some ev =>
            match states !! Event.EventID ev with
            | Some _ => (take i' pdus1 ++ drop (S i') pdus1)%list
            | None => pdus1
            end
        | None => pdus1
        end in
      trimLoop states i' pdus2
  end.

Section Paging.
  Context `{SqlRows} `{Encryption} `{EventJSON}.
  (** The peer: its room states and its name. *)
  Variable Repo : string -> option RoomServerState.
  Variable ServerName0 : string.
  (** The task: the room, the domain asked, our name, the state events known. *)
  Variables roomID domain origin : string.
  Variable states : gmap string Event.

(** One request: the entry of the peer copies it into a query. *)
Definition Request (eventID : string) : BackfillRequest :=
  mkBackfillRequest eventID kBatchSize roomID "b" domain origin.

(** The answer of the peer, [None] for an error on the way or in the answer. *)
Definition ask (eventID : string) : ST Net (option (list Event)) := fun n =>
  match link n with
  | false :: l => (Ok None, mkNet l (peer n) (inputs n) (respCh n))
  | l =>
      let '(r, p) := processQueryBackFillEvents Repo ServerName0 (Request eventID) (peer n) in
      let n1 := mkNet (tail l) p (inputs n) (respCh n) in
      match r with
      | Ok resp => (Ok (if String.eqb (brError resp) "" then Some (brPDUs resp) else None), n1)
      | _ => (Ok None, n1)
      end
  end.

(** [respCh <- item]: blocks when the channel is full. *)
Definition sendResp (item : BackfillItem) : ST Net unit := fun n =>
  if (length (respCh n) <? respChCap)%nat
  then (Ok (), mkNet (link n) (peer n) (inputs n) (respCh n ++ [item])%list)
  else (Diverge, n).

Definition inputRoomEvents (pdus : list Event) : ST Net unit := fun n =>
  match pdus with
  | [] => (Ok (), n)
  | _ => (Ok (), mkNet (link n) (peer n) (inputs n ++ [pdus])%list (respCh n))
  end.

Fixpoint backfillLoop (fuel : nat) (eventID : string) (failedTimes : Z) : ST Net unit :=
  match fuel with
  | O => liftR Diverge
  | S fuel' =>
      resp ← ask eventID;
      match resp with
      | None =>
          _ ← (if failedTimes =? 0 then sendResp (mkBackfillItem domain false true) else mret ());
          backfillLoop fuel' eventID (failedTimes + 1)
      | Some [] => sendResp (mkBackfillItem domain true false)
      | Some pdus =>
          let sorted := gosort newestFirst pdus in
          let newEventID := match last sorted with Some ev => Event.EventID ev | None => "" end in
          if String.eqb newEventID "" || String.eqb newEventID eventID then mret ()
          else
            _ ← inputRoomEvents (trimLoop states (length sorted) sorted);
            backfillLoop fuel' newEventID 0
      end
  end.

End Paging.

End Backfill.
