(* ===== verification/BackfillFacts.v ===== *)
(** * Backfill fetches the history of a domain

    - [coherent]: every row has its JSON, which decodes to the event of the row;
      [store_then_read] shows that storing keeps it and that what is stored is
      what is read.
    - [backfill_complete]: paging through [QueryBackFillEvents] ends and gives the
      room server every earlier event of the domain once, newest first.
    - [uninvited_backfill_never_ends]: the case the serving side refuses forever. *)

From Stdlib Require Import String Ascii ZArith List Permutation Sorted Lia.
From stdpp Require Import base tactics list gmap strings.
From S2P Require Import Prelude Snowflake Ids Event RoomState RoomTables RoomRows RoomQuery Backfill.

#[local] Open Scope string_scope.
#[local] Open Scope Z_scope.

Module BackfillFacts.
Import RoomState RoomTables RoomRows RoomQuery Backfill.

(** ** Trimming a page *)

Definition fresh (states : gmap string Event.Event) (ev : Event.Event) : bool :=
  match states !! Event.EventID ev with Some _ => false | None => true end.

Definition cleaned (states : gmap string Event.Event) (evs : list Event.Event) : list Event.Event :=
  map (fun ev => Event.SetDepth ev (-1)) (List.filter (fresh states) evs).

Lemma cleaned_app states a b : cleaned states (a ++ b) = (cleaned states a ++ cleaned states b)%list.
Proof. unfold cleaned. by rewrite List.filter_app, map_app. Qed.

Lemma trimLoop_spec states i l : (i <= length l)%nat ->
  trimLoop states i l = (cleaned states (take i l) ++ drop i l)%list.
Proof.
  revert l. induction i as [|i IH]; intros l Hi; [done|]. cbn [trimLoop].
  destruct (lookup_lt_is_Some_2 l i ltac:(lia)) as [ev Hev].
  rewrite (take_S_r _ _ _ Hev), cleaned_app.
  rewrite list_lookup_alter_eq, Hev. cbn [fmap option_fmap option_map].
  assert (Ht : take i (alter (fun ev => Event.SetDepth ev (-1)) i l) = take i l) by (by rewrite take_alter_ge).
  assert (Hd : drop (S i) (alter (fun ev => Event.SetDepth ev (-1)) i l) = drop (S i) l) by (by rewrite drop_alter_lt by lia).
  unfold cleaned at 2. unfold fresh. simpl.
  change (Event.EventID (Event.SetDepth ev (-1))) with (Event.EventID ev).
  destruct (states !! Event.EventID ev) eqn:E; simpl.
  - rewrite Ht, Hd, IH by (rewrite length_app, length_take; lia).
    rewrite take_app_le, drop_app_le by (rewrite length_take; lia). rewrite take_take, Nat.min_id.
    rewrite drop_ge by (rewrite length_take; lia). by rewrite app_nil_r.
  - rewrite IH by (rewrite length_alter; lia). rewrite Ht, <- app_assoc. f_equal. simpl.
    rewrite (drop_S _ (Event.SetDepth ev (-1)) i), Hd; [done|]. by rewrite list_lookup_alter_eq, Hev.
Qed.

(** ** The serving side *)

Section Serving.
  Context `{SqlRows} `{Encryption} `{EventJSON}.
  #[local] Abbreviation Row := (Z * EventRow)%type.

Lemma query_up {A} (f : Tables -> res A) (c : Conn DBEvent Tables) : faults c = [] -> query f c = (f (tabs c), c).
Proof using. destruct c as [t a o g k f']. simpl. by intros ->. Qed.

(** The event of a row. *)
Definition dec (t : Tables) (kv : Row) : Event.Event := decodeEvent (default "" (t_json t !! kv.1), e_type kv.2).

Record coherent (t : Tables) : Prop := {
  co_json : forall n r, t_events t !! n = Some r -> is_Some (t_json t !! n);
  co_nid : forall n r, t_events t !! n = Some r -> Event.EventNID (dec t (n, r)) = n;
  co_id : forall n r, t_events t !! n = Some r -> Event.EventID (dec t (n, r)) = e_event_id r;
  co_named : forall n r, t_events t !! n = Some r -> e_event_id r <> "";
  co_unique : forall n r n' r', t_events t !! n = Some r -> t_events t !! n' = Some r' ->
                e_event_id r = e_event_id r' -> n = n';
}.

(** The events of a domain in a room, newest first. *)
Definition history (t : Tables) (roomNID : Z) (domain : string) : list Row :=
  selectEvents (fun _ r => (e_room_nid r =? roomNID) && String.eqb (e_domain r) domain) nidDesc t.

Definition older (x : Z) (l : list Row) : list Row := List.filter (fun kv => kv.1 <? x) l.

Lemma older_elem x l kv : kv ∈ older x l <-> kv ∈ l /\ kv.1 < x.
Proof using. unfold older. by rewrite !list_elem_of_In, filter_In, Z.ltb_lt. Qed.

Lemma above_irrefl (x : Row) : ~ above x x.
Proof using. unfold above. lia. Qed.
Lemma above_trans (x y z : Row) : above x y -> above y z -> above x z.
Proof using. unfold above. lia. Qed.

Lemma backfillRows_older t roomNID domain x :
  backfillRows roomNID domain x "b" t = map fst (older x (history t roomNID domain)).
Proof using.
  unfold backfillRows. simpl. f_equal. apply (sorted_ext above); [apply above_irrefl|apply above_trans|
    apply selectEvents_desc|apply sorted_filter, selectEvents_desc|].
  intros [n r]. rewrite older_elem. unfold history. rewrite !selectEvents_elem, !andb_true_iff, Z.ltb_lt. simpl. tauto.
Qed.

Definition rows_of (t : Tables) (l : list Row) : Prop := forall kv, kv ∈ l -> t_events t !! kv.1 = Some kv.2.

Lemma history_rows t roomNID domain : rows_of t (history t roomNID domain).
Proof using. intros [n r] Hin. by apply selectEvents_elem in Hin as [Hr _]. Qed.

Lemma elem_of_rev {A} (x : A) l : x ∈ rev l <-> x ∈ l.
Proof using. by rewrite !list_elem_of_In, <- in_rev. Qed.

Lemma events_page c l : faults c = [] -> coherent (tabs c) -> StronglySorted above l -> rows_of (tabs c) l ->
  Events (map fst l) c = (Ok (map (fun kv => (dec (tabs c) kv, kv.1)) (rev l)), c).
Proof using.
  intros Hu Hc Hs Hr. unfold Events. rewrite query_up by done. do 2 f_equal. unfold bulkRows.
  rewrite (sorted_ext below (selectEvents _ nidAsc (tabs c)) (rev l)).
  - assert (Hl : rows_of (tabs c) (rev l)) by (intros kv Hk; apply Hr; by apply elem_of_rev).
    revert Hl. generalize (rev l). clear -Hc. induction l as [|[n r] l IH]; intros Hl; [done|]. cbn.
    pose proof (Hl (n, r) ltac:(set_solver)) as Hn. simpl in Hn.
    destruct (co_json _ Hc _ _ Hn) as [j Hj]. unfold dec at 1. cbn. rewrite Hj. cbn. f_equal. apply IH. set_solver.
  - unfold below. intros x. lia.
  - unfold below. intros x y z. lia.
  - apply selectEvents_asc.
  - by apply sorted_rev.
  - intros [n r]. rewrite selectEvents_elem, bool_decide_eq_true, elem_of_rev. split.
    + intros [Hn Hin]. apply list_elem_of_In, in_map_iff in Hin as ([n' r'] & Heq & Hin). simpl in Heq. subst n'.
      apply list_elem_of_In in Hin. pose proof (Hr _ Hin) as Hn'. simpl in Hn'. by simplify_eq.
    + intros Hin. split; [by apply (Hr (n, r))|]. apply list_elem_of_In, in_map_iff. exists (n, r).
      split; [done|]. by apply list_elem_of_In.
Qed.

Lemma EventNID_up c x r : faults c = [] -> coherent (tabs c) -> t_events (tabs c) !! x = Some r ->
  RoomTables.EventNID (e_event_id r) c = (Ok x, c).
Proof using.
  intros Hu Hc Hx. unfold RoomTables.EventNID. rewrite query_up by done. f_equal. unfold select.
  set (l := List.filter _ _).
  assert (Hl : forall kv, kv ∈ scan l <-> t_events (tabs c) !! kv.1 = Some kv.2 /\ e_event_id kv.2 = e_event_id r).
  { intros [n' r']. rewrite list_elem_of_In, scan_perm. unfold l.
    rewrite filter_In, <- list_elem_of_In, elem_of_map_to_list. simpl. by rewrite String.eqb_eq. }
  destruct (scan l) as [|[n' r'] l'] eqn:E.
  - exfalso. by apply (not_elem_of_nil (x, r)), Hl.
  - destruct (proj1 (Hl (n', r')) ltac:(left)) as [Hn He]. simpl in *. f_equal. by apply (co_unique _ Hc n' r' x r).
Qed.

Lemma attempt_Ok {S A} (m : ST S A) s a s1 : m s = (Ok a, s1) -> attempt m s = (Ok (inl a), s1).
Proof using. unfold attempt. by intros ->. Qed.

Lemma sorted_older x l : StronglySorted above l -> StronglySorted above (older x l).
Proof using. apply sorted_filter. Qed.

(** The page before number [x]. *)
Definition page (x : Z) (l : list Row) : list Row := take (Z.to_nat kBatchSize) (older x l).

Lemma page_sorted x l : StronglySorted above l -> StronglySorted above (page x l).
Proof using. intros Hs. by apply sorted_firstn, sorted_older. Qed.

Lemma take_rows t k x l : rows_of t l -> rows_of t (take k (older x l)).
Proof using.
  intros Hr kv Hk. apply Hr. apply elem_of_take in Hk as (i & Hi & _).
  apply list_elem_of_lookup_2, older_elem in Hi. tauto.
Qed.

Lemma page_rows t x l : rows_of t l -> rows_of t (page x l).
Proof using. apply take_rows. Qed.

Lemma BackFillNids_page c roomNID domain x : faults c = [] ->
  BackFillNids roomNID domain x kBatchSize "b" c = (Ok (map fst (page x (history (tabs c) roomNID domain))), c).
Proof using.
  intros Hu. unfold BackFillNids. rewrite query_up by done. cbv iota. unfold limit.
  rewrite backfillRows_older. unfold page. by rewrite firstn_map.
Qed.

Lemma older_app x a b : older x (a ++ b) = (older x a ++ older x b)%list.
Proof using. apply List.filter_app. Qed.

Lemma older_all x l : (forall kv, kv ∈ l -> kv.1 < x) -> older x l = l.
Proof using.
  induction l as [|kv l IH]; intros Hl; [done|]. unfold older. simpl.
  rewrite (proj2 (Z.ltb_lt _ _)) by (apply Hl; left). f_equal. apply IH. set_solver.
Qed.

Lemma older_none x l : (forall kv, kv ∈ l -> x <= kv.1) -> older x l = [].
Proof using.
  induction l as [|kv l IH]; intros Hl; [done|]. unfold older. simpl.
  rewrite (proj2 (Z.ltb_ge _ _)) by (apply Hl; left). apply IH. set_solver.
Qed.

Lemma sorted_split (a : list Row) kv b : StronglySorted above (a ++ kv :: b) ->
  (forall x, x ∈ a -> kv.1 < x.1) /\ (forall x, x ∈ b -> x.1 < kv.1).
Proof using.
  induction a as [|y a IH]; simpl; intros [Hs Hy]%StronglySorted_inv; rewrite List.Forall_forall in Hy.
  - split; [set_solver|]. intros x Hx. by apply Hy, list_elem_of_In.
  - destruct (IH Hs) as [Ha Hb]. split; [|done]. intros x [->|Hx]%elem_of_cons; [|by apply Ha].
    apply (Hy kv), in_app_iff. right. by left.
Qed.

(** What is older than a row of a sorted list is what follows it. *)
Lemma older_split (a : list Row) kv b : StronglySorted above (a ++ kv :: b) -> older kv.1 (a ++ kv :: b) = b.
Proof using.
  intros [Ha Hb]%sorted_split. rewrite older_app, older_none by (intros x Hx; pose proof (Ha x Hx); lia).
  simpl. unfold older. simpl. rewrite Z.ltb_irrefl. by apply older_all.
Qed.

Lemma older_split_incl (a : list Row) kv b : StronglySorted above (a ++ kv :: b) ->
  older (kv.1 + 1) (a ++ kv :: b) = kv :: b.
Proof using.
  intros [Ha Hb]%sorted_split. rewrite older_app, older_none by (intros x Hx; pose proof (Ha x Hx); lia).
  apply older_all. intros x [->|Hx]%elem_of_cons; [lia|]. pose proof (Hb x Hx). lia.
Qed.

Lemma cutLast_last x evs ev : (forall e, e ∈ evs -> Event.EventNID e < x) -> Event.EventNID ev = x ->
  cutLast x (evs ++ [ev]) = Some evs.
Proof using.
  intros He Hx. induction evs as [|e evs IH]; simpl.
  - by rewrite Hx, Z.leb_refl.
  - rewrite (proj2 (Z.leb_gt _ _)) by (apply He; left). rewrite IH; [done|]. set_solver.
Qed.

Lemma cutLast_none x evs : (forall e, e ∈ evs -> Event.EventNID e < x) -> cutLast x evs = None.
Proof using.
  intros He. induction evs as [|e evs IH]; simpl; [done|].
  rewrite (proj2 (Z.leb_gt _ _)) by (apply He; left). rewrite IH; [done|]. set_solver.
Qed.

Lemma older_older y x l : y <= x -> older y (older x l) = older y l.
Proof using.
  intros Hyx. induction l as [|kv l IH]; [done|]. unfold older in *. simpl.
  destruct (Z.ltb_spec kv.1 x); simpl; rewrite IH; [done|]. by rewrite (proj2 (Z.ltb_ge _ _)) by lia.
Qed.

(** A page is followed by what is older than its last row. *)
Lemma page_step k x l : StronglySorted above l -> older x l <> [] -> (0 < k)%nat ->
  exists y r, last (take k (older x l)) = Some (y, r) /\ (y, r) ∈ older x l /\ older y l = drop k (older x l).
Proof using.
  intros Hs Hne Hk. destruct (last (take k (older x l))) as [[y r]|] eqn:E.
  - exists y, r. split; [done|]. apply last_Some in E as [P E].
    pose proof (take_drop k (older x l)) as Ho. rewrite E, <- app_assoc in Ho. simpl in Ho.
    pose proof (sorted_older x l Hs) as Hs'. rewrite <- Ho in Hs'.
    assert (Hin : (y, r) ∈ older x l) by (rewrite <- Ho; set_solver).
    split; [done|]. pose proof Hin as [_ Hyx]%older_elem. simpl in Hyx.
    rewrite <- (older_older y x) by lia. rewrite <- Ho at 1. apply (older_split P (y, r) _ Hs').
  - apply last_None in E. destruct (older x l); [done|]. by destruct k; [lia|].
Qed.

Variable Repo : string -> option RoomServerState.
Variable ServerName0 : string.
Variables roomID domain origin : string.

Lemma reply_of req c resp e c1 : QueryBackFillEvents Repo ServerName0 req c = (Ok (resp, e), c1) ->
  processQueryBackFillEvents Repo ServerName0 req c = (Ok resp, c1).
Proof using. intros HQ. unfold processQueryBackFillEvents. by erewrite ST_bind_Ok by exact HQ. Qed.

(** What is answered to a request that names an event. *)
Lemma answer_after c rs x r :
  faults c = [] -> coherent (tabs c) -> Repo roomID = Some rs -> domain <> "" -> t_events (tabs c) !! x = Some r ->
  processQueryBackFillEvents Repo ServerName0 (Request roomID domain origin (e_event_id r)) c =
  (Ok (mkBackfillResponse "" (map (dec (tabs c)) (rev (page x (history (tabs c) (RoomNid rs) domain))))), c).
Proof using.
  intros Hu Hc Hr Hd Hx. pose proof (co_named _ Hc _ _ Hx) as Hne.
  apply (reply_of _ _ _ None). unfold QueryBackFillEvents, Request. cbn [bqRoomID bqDomain bqEventID bqLimit bqDir].
  rewrite Hr. apply String.eqb_neq in Hne, Hd. rewrite Hd.
  erewrite ST_bind_Ok.
  2:{ apply attempt_Ok. unfold backfillStart. cbn [bqEventID]. rewrite Hne. cbn [negb].
      erewrite ST_bind_Ok by (by apply EventNID_up). reflexivity. }
  cbv iota. erewrite ST_bind_Ok by (by apply attempt_Ok, BackFillNids_page).
  cbv iota. erewrite ST_bind_Ok.
  2:{ apply attempt_Ok, events_page; [done..|apply page_sorted, selectEvents_desc|apply page_rows, history_rows]. }
  cbv iota. rewrite Hne, andb_false_r. by rewrite map_map.
Qed.

(** What is answered to the first request, when the event that let us in was sent
    by the domain that is asked: the events before it. *)
Lemma answer_first c rs x r :
  faults c = [] -> coherent (tabs c) -> Repo roomID = Some rs -> domain <> "" ->
  SelectEventNidForBackfill (RoomNid rs) origin c = (Ok x, c) -> x <> 0 -> in64 (x + 1) ->
  t_events (tabs c) !! x = Some r -> e_room_nid r = RoomNid rs -> e_domain r = domain ->
  processQueryBackFillEvents Repo ServerName0 (Request roomID domain origin "") c =
  (Ok (mkBackfillResponse "" (map (dec (tabs c)) (rev (take 49 (older x (history (tabs c) (RoomNid rs) domain)))))), c).
Proof using.
  intros Hu Hc Hr Hd Hsel Hx0 Hx64 Hx Hroom Hdom. apply String.eqb_neq in Hd. apply Z.eqb_neq in Hx0.
  apply (reply_of _ _ _ None). unfold QueryBackFillEvents, Request. cbn [bqRoomID bqDomain bqEventID bqLimit bqDir].
  rewrite Hr, Hd. erewrite ST_bind_Ok.
  2:{ apply attempt_Ok. unfold backfillStart. cbn [bqEventID bqDir bqOrigin negb String.eqb Ascii.eqb Bool.eqb].
      erewrite ST_bind_Ok by (by apply attempt_Ok). cbv iota. rewrite Hx0. reflexivity. }
  cbv iota. rewrite wrap64_id by done. erewrite ST_bind_Ok by (by apply attempt_Ok, BackFillNids_page).
  cbv iota. erewrite ST_bind_Ok.
  2:{ apply attempt_Ok, events_page; [done..|apply page_sorted, selectEvents_desc|apply page_rows, history_rows]. }
  cbv iota. cbn [andb String.eqb Ascii.eqb Bool.eqb]. unfold checkLast, backfillLast.
  erewrite ST_bind_Ok by reflexivity. cbv iota. rewrite Hx0, map_map.
  assert (Hin : (x, r) ∈ history (tabs c) (RoomNid rs) domain).
  { apply selectEvents_elem. by rewrite Hx, Hroom, Hdom, Z.eqb_refl, String.eqb_refl. }
  pose proof (selectEvents_desc (fun _ r => (e_room_nid r =? RoomNid rs) && String.eqb (e_domain r) domain) (tabs c)) as Hs.
  fold (history (tabs c) (RoomNid rs) domain) in Hs. pose proof (history_rows (tabs c) (RoomNid rs) domain) as Hrows.
  apply list_elem_of_split in Hin as (a & b & E). rewrite E in Hs, Hrows |- *.
  unfold page. rewrite (older_split_incl a (x, r) b Hs : older (x + 1) _ = _), (older_split a (x, r) b Hs : older x _ = _).
  destruct (sorted_split a (x, r) b Hs) as [_ Hb].
  change (take (Z.to_nat kBatchSize) ((x, r) :: b)) with ((x, r) :: take 49 b). cbn [rev]. rewrite map_app. cbn [map].
  rewrite cutLast_last; [done| |by apply (co_nid _ Hc)].
  intros e He. apply list_elem_of_In, in_map_iff in He as ([n r'] & <- & He).
  apply in_rev, list_elem_of_In, elem_of_take in He as (i & Hi%list_elem_of_lookup_2 & _).
  cbn [fst]. rewrite (co_nid _ Hc n r'); [by apply (Hb (n, r'))|]. apply (Hrows (n, r')). set_solver.
Qed.

(** ** The asking side *)

Variable states : gmap string Event.Event.

Lemma sorted_page t l : coherent t -> rows_of t l -> StronglySorted above l ->
  gosort newestFirst (map (dec t) (rev l)) = map (dec t) l.
Proof using.
  intros Hc Hr Hs. symmetry. apply (sorted_perm_unique newestFirst).
  - intros x y Hx Hy. unfold newestFirst. rewrite !Z.leb_le. intros Hxy Hyx.
    apply list_elem_of_In, in_map_iff in Hx as ([n r] & <- & Hn%list_elem_of_In).
    apply list_elem_of_In, in_map_iff in Hy as ([n' r'] & <- & Hn'%list_elem_of_In).
    pose proof (Hr _ Hn) as Hl. pose proof (Hr _ Hn') as Hl'. simpl in Hl, Hl'.
    rewrite (co_nid _ Hc n r), (co_nid _ Hc n' r') in * by done. by replace n' with n in * by lia; simplify_eq.
  - revert Hr. induction Hs as [|[n r] l Hs IH Hx]; intros Hr; [constructor|]. simpl. constructor.
    + apply IH. intros kv Hk. apply Hr. by right.
    + rewrite List.Forall_forall in *. intros e He. apply in_map_iff in He as ([n' r'] & <- & He).
      unfold newestFirst. rewrite (co_nid _ Hc n r), (co_nid _ Hc n' r').
      * apply Z.leb_le. pose proof (Hx _ He). unfold above in *. simpl in *. lia.
      * apply (Hr (n', r')). right. by apply list_elem_of_In.
      * apply (Hr (n, r)). left.
  - apply gosort_sorted; intros; unfold newestFirst in *; rewrite ?Z.leb_le in *; lia.
  - rewrite <- gosort_perm. apply Permutation_map, Permutation_rev.
Qed.

Definition push (n : Net) (l : list Event.Event) : Net :=
  (inputRoomEvents l n).2.

Lemma push_inputs n l : concat (inputs (push n l)) = (concat (inputs n) ++ l)%list.
Proof using. destruct l; simpl; [by rewrite app_nil_r|]. rewrite concat_app. simpl. by rewrite app_nil_r. Qed.

#[local] Abbreviation Ask := (ask Repo ServerName0 roomID domain origin).
#[local] Abbreviation Loop := (backfillLoop Repo ServerName0 roomID domain origin states).

(** A round that gets a page. *)
Lemma page_round fuel id failed n n1 t P y r :
  coherent t -> rows_of t P -> StronglySorted above P -> last P = Some (y, r) -> e_event_id r <> id ->
  Ask id n = (Ok (Some (map (dec t) (rev P))), n1) ->
  Loop (S fuel) id failed n = Loop fuel (e_event_id r) 0 (push n1 (cleaned states (map (dec t) P))).
Proof using.
  intros Hc Hr Hs Hl Hid Ha. cbn [backfillLoop]. erewrite ST_bind_Ok by exact Ha. cbv iota. clear Ha.
  assert (Hy : t_events t !! y = Some r).
  { apply (Hr (y, r)). apply last_Some in Hl as [l' ->]. set_solver. }
  destruct (map (dec t) (rev P)) as [|e es] eqn:E.
  { apply (f_equal length) in E. rewrite length_map, length_rev in E. destruct P; done. }
  rewrite <- E, sorted_page by done. clear e es E.
  rewrite (fmap_last (dec t) P : last (map (dec t) P) = _), Hl. cbn [fmap option_fmap option_map]. rewrite (co_id _ Hc _ _ Hy).
  rewrite (proj2 (String.eqb_neq _ _) (co_named _ Hc _ _ Hy)), (proj2 (String.eqb_neq _ _) Hid). cbn [orb].
  rewrite trimLoop_spec, take_ge, drop_ge, app_nil_r by done.
  destruct (cleaned states (map (dec t) P)); reflexivity.
Qed.

Lemma ask_up c id n pdus :
  peer n = c -> head (link n) <> Some false ->
  processQueryBackFillEvents Repo ServerName0 (Request roomID domain origin id) c =
    (Ok (mkBackfillResponse "" pdus), c) ->
  Ask id n = (Ok (Some pdus), mkNet (tail (link n)) c (inputs n) (respCh n)).
Proof using.
  intros <- Hl Hq. unfold ask. destruct (link n) as [|[] l]; simpl in *; [rewrite Hq; done|rewrite Hq; done|done].
Qed.

(** A request that is lost is sent again. *)
Lemma lost_round fuel id failed n l :
  link n = false :: l -> (length (respCh n) < respChCap)%nat ->
  exists ch, (length ch <= S (length (respCh n)))%nat /\
    Loop (S fuel) id failed n = Loop fuel id (failed + 1) (mkNet l (peer n) (inputs n) ch).
Proof using.
  intros Hl Hc. cbn [backfillLoop]. erewrite ST_bind_Ok by (unfold ask; by rewrite Hl). cbv iota.
  destruct (failed =? 0).
  - exists (respCh n ++ [mkBackfillItem domain false true])%list. split; [rewrite length_app; simpl; lia|].
    erewrite ST_bind_Ok; [done|]. unfold sendResp. simpl. by rewrite (proj2 (Nat.ltb_lt _ _) Hc).
  - exists (respCh n). split; [lia|]. by erewrite ST_bind_Ok by reflexivity.
Qed.

Lemma last_round fuel id failed n n1 :
  Ask id n = (Ok (Some []), n1) -> (length (respCh n1) < respChCap)%nat ->
  exists n', Loop (S fuel) id failed n = (Ok (), n') /\ peer n' = peer n1 /\ inputs n' = inputs n1.
Proof using.
  intros Ha Hc. cbn [backfillLoop]. erewrite ST_bind_Ok by exact Ha. cbv iota. unfold sendResp.
  rewrite (proj2 (Nat.ltb_lt _ _) Hc). by eexists.
Qed.

Section Served.
  Variable c : Conn DBEvent Tables.
  Variable rs : RoomServerState.
  Hypothesis Hup : faults c = [].
  Hypothesis Hco : coherent (tabs c).
  Hypothesis Hrepo : Repo roomID = Some rs.
  Hypothesis Hdom : domain <> "".
  #[local] Abbreviation hist := (history (tabs c) (RoomNid rs) domain).
  #[local] Abbreviation fetched l := (cleaned states (map (dec (tabs c)) l)).

Lemma hist_sorted : StronglySorted above hist.
Proof using. apply selectEvents_desc. Qed.

(** From event [x] on the loop fetches everything older. *)
Definition fetches (fuel : nat) (x : Z) : Prop := forall r failed n,
  peer n = c -> t_events (tabs c) !! x = Some r ->
  (length (link n) + length (older x hist) < fuel)%nat -> (length (respCh n) + length (link n) < respChCap)%nat ->
  exists n', Loop fuel (e_event_id r) failed n = (Ok (), n') /\
    concat (inputs n') = (concat (inputs n) ++ fetched (older x hist))%list.

(** A page of [k] events before [x], then the rest. *)
Lemma page_then_rest fuel k x id failed n :
  (forall y, y < x -> fetches fuel y) -> (0 < k)%nat -> older x hist <> [] -> peer n = c ->
  (forall y r, (y, r) ∈ older x hist -> e_event_id r <> id) ->
  Ask id n = (Ok (Some (map (dec (tabs c)) (rev (take k (older x hist))))),
              mkNet (tail (link n)) c (inputs n) (respCh n)) ->
  (length (link n) + length (older x hist) <= fuel)%nat -> (length (respCh n) + length (link n) < respChCap)%nat ->
  exists n', Loop (S fuel) id failed n = (Ok (), n') /\
    concat (inputs n') = (concat (inputs n) ++ fetched (older x hist))%list.
Proof using Hco.
  intros IH Hk Ho Hp Hid Ha Hf Hch.
  assert (Htl : (length (tail (link n)) <= length (link n))%nat) by (destruct (link n); simpl; lia).
  destruct (page_step k x hist hist_sorted Ho Hk) as (y & r & Hlast & Hin & Hnext).
  assert (Hy : t_events (tabs c) !! y = Some r).
  { apply older_elem in Hin as [Hin _]. exact (history_rows (tabs c) (RoomNid rs) domain (y, r) Hin). }
  erewrite (page_round fuel id failed n _ (tabs c) (take k (older x hist)) y r Hco); [|apply take_rows, history_rows|apply sorted_firstn, sorted_older, hist_sorted|done|by apply (Hid y)|exact Ha].
  set (n1 := push _ _).
  assert (Hn1 : peer n1 = c /\ link n1 = tail (link n) /\ respCh n1 = respCh n).
  { unfold n1, push. by destruct (fetched (take k (older x hist))). }
  destruct Hn1 as (Hp1 & Hl1 & Hc1).
  assert (Hyx : y < x) by (apply older_elem in Hin; tauto).
  destruct (IH y Hyx r 0 n1 Hp1 Hy) as (n' & -> & Hc').
  - rewrite Hl1, Hnext, length_drop. destruct (older x hist); [done|]. simpl in *. lia.
  - rewrite Hl1, Hc1. lia.
  - exists n'. split; [done|]. rewrite Hc'. unfold n1. rewrite push_inputs. simpl. rewrite <- app_assoc. f_equal.
    rewrite <- cleaned_app, <- map_app, Hnext. by rewrite take_drop.
Qed.

Lemma paging fuel x : fetches fuel x.
Proof using Hup Hco Hrepo Hdom.
  revert x. induction fuel as [|fuel IH]; intros x r failed n Hp Hx Hf Hch; [lia|].
  destruct (decide (head (link n) = Some false)) as [Hl|Hl].
  { destruct (link n) as [|[] l] eqn:E; try done. simpl in Hf, Hch.
    destruct (lost_round fuel (e_event_id r) failed n l E ltac:(lia)) as (ch & Hlen & ->).
    destruct (IH x r (failed + 1) (mkNet l (peer n) (inputs n) ch) Hp Hx) as (n' & -> & Hc'); simpl; [lia..|].
    by exists n'. }
  assert (Ha := ask_up c (e_event_id r) n _ Hp Hl (answer_after c rs x r Hup Hco Hrepo Hdom Hx)). unfold page in Ha.
  destruct (decide (older x hist = [])) as [Ho|Ho].
  - rewrite Ho, take_nil in Ha. destruct (last_round fuel _ failed n _ Ha) as (n' & -> & _ & Hi); [simpl; lia|].
    exists n'. by rewrite Hi, Ho, app_nil_r.
  - apply (page_then_rest fuel (Z.to_nat kBatchSize) x); [by auto|unfold kBatchSize; lia|done|done| |done|lia|done].
    intros y ry Hin. apply older_elem in Hin as [Hin Hyx]. simpl in Hyx. intros Heq.
    pose proof (history_rows (tabs c) (RoomNid rs) domain (y, ry) Hin) as Hy.
    assert (y = x) by (by apply (co_unique _ Hco y ry x r)). lia.
Qed.

(** C17: Backfill fetches the history of a domain. When the event that let this server
    into the room was sent by the domain that is asked, the loop ends however the
    requests are lost in between, as long as the losses fit the channel of the
    replies, and the room server is given exactly the events of that domain before it,
    each once, newest first, without the state events that it knows already. *)
Theorem backfill_complete (fuel : nat) (x : Z) (r : EventRow) (failed : Z) (n : Net) :
  SelectEventNidForBackfill (RoomNid rs) origin c = (Ok x, c) -> x <> 0 -> in64 (x + 1) ->
  t_events (tabs c) !! x = Some r -> e_room_nid r = RoomNid rs -> e_domain r = domain ->
  peer n = c ->
  (length (link n) + length (older x hist) < fuel)%nat -> (length (respCh n) + length (link n) < respChCap)%nat ->
  exists n', Loop fuel "" failed n = (Ok (), n') /\
    concat (inputs n') = (concat (inputs n) ++ fetched (older x hist))%list.
Proof using Hup Hco Hrepo Hdom.
  intros Hsel Hx0 Hx64 Hx Hroom Hd. revert failed n.
  induction fuel as [|fuel IH]; intros failed n Hp Hf Hch; [lia|].
  destruct (decide (head (link n) = Some false)) as [Hl|Hl].
  { destruct (link n) as [|[] l] eqn:E; try done. simpl in Hf, Hch.
    destruct (lost_round fuel "" failed n l E ltac:(lia)) as (ch & Hlen & ->).
    destruct (IH (failed + 1) (mkNet l (peer n) (inputs n) ch) Hp) as (n' & -> & Hc'); simpl; [lia..|]. by exists n'. }
  assert (Hq := answer_first c rs x r Hup Hco Hrepo Hdom Hsel Hx0 Hx64 Hx Hroom Hd).
  assert (Ha := ask_up c "" n _ Hp Hl Hq).
  destruct (decide (older x hist = [])) as [Ho|Ho].
  - rewrite Ho, take_nil in Ha. destruct (last_round fuel _ failed n _ Ha) as (n' & -> & _ & Hi); [simpl; lia|].
    exists n'. by rewrite Hi, Ho, app_nil_r.
  - apply (page_then_rest fuel 49 x); [intros; apply paging|lia|done|done| |done|lia|done].
    intros y ry Hin. apply older_elem in Hin as [Hin _].
    exact (co_named _ Hco _ _ (history_rows (tabs c) (RoomNid rs) domain (y, ry) Hin)).
Qed.

(** The first request is refused when the event that let us in was sent by
    another domain than the one asked. *)
Lemma answer_refused x r :
  SelectEventNidForBackfill (RoomNid rs) origin c = (Ok x, c) -> x <> 0 -> in64 (x + 1) ->
  t_events (tabs c) !! x = Some r -> e_domain r <> domain ->
  processQueryBackFillEvents Repo ServerName0 (Request roomID domain origin "") c = (Ok (noPDUs notFullyStored), c).
Proof using Hup Hco Hrepo Hdom.
  intros Hsel Hx0 Hx64 Hx Hd. apply (reply_of _ _ _ (Some (ErrMsg notFullyStored))). apply Z.eqb_neq in Hx0.
  unfold QueryBackFillEvents, Request. cbn [bqRoomID bqDomain bqEventID bqLimit bqDir].
  rewrite Hrepo, (proj2 (String.eqb_neq _ _) Hdom). erewrite ST_bind_Ok.
  2:{ apply attempt_Ok. unfold backfillStart. cbn [bqEventID bqDir bqOrigin negb String.eqb Ascii.eqb Bool.eqb].
      erewrite ST_bind_Ok by (by apply attempt_Ok). cbv iota. rewrite Hx0. reflexivity. }
  cbv iota. rewrite wrap64_id by done. erewrite ST_bind_Ok by (by apply attempt_Ok, BackFillNids_page).
  cbv iota. erewrite ST_bind_Ok.
  2:{ apply attempt_Ok, events_page; [done..|apply page_sorted, selectEvents_desc|apply page_rows, history_rows]. }
  cbv iota. cbn [andb String.eqb Ascii.eqb Bool.eqb]. unfold checkLast, backfillLast.
  erewrite ST_bind_Ok by reflexivity. cbv iota. rewrite Hx0, map_map.
  rewrite cutLast_none; [done|]. intros e He.
  apply list_elem_of_In, in_map_iff in He as ([n' r'] & <- & He). apply in_rev, list_elem_of_In in He. cbn [fst].
  assert (Hr' := page_rows (tabs c) (x + 1) _ (history_rows (tabs c) (RoomNid rs) domain) _ He). simpl in Hr'.
  rewrite (co_nid _ Hco _ _ Hr'). apply elem_of_take in He as (i & Hi%list_elem_of_lookup_2 & _).
  apply older_elem in Hi as [Hi Hlt]. simpl in Hlt. apply selectEvents_elem in Hi as [_ Hi].
  apply andb_true_iff in Hi as [_ Hi%String.eqb_eq].
  assert (n' <> x) by (intros ->; simplify_eq). lia.
Qed.

(** A server that was not invited by the domain it asks never gets its history:
    when the event that let it into the room was sent by another domain (its own
    user joined, or a third server invited), every answer is the error "not fully
    store", and the loop asks again without end and gives nothing to the room
    server. *)
Theorem uninvited_backfill_never_ends (fuel : nat) (x : Z) (r : EventRow) (failed : Z) (n : Net) :
  SelectEventNidForBackfill (RoomNid rs) origin c = (Ok x, c) -> x <> 0 -> in64 (x + 1) ->
  t_events (tabs c) !! x = Some r -> e_domain r <> domain -> peer n = c ->
  (Loop fuel "" failed n).1 = Diverge /\ inputs (Loop fuel "" failed n).2 = inputs n.
Proof using Hup Hco Hrepo Hdom.
  intros Hsel Hx0 Hx64 Hx Hd. assert (Hq := answer_refused x r Hsel Hx0 Hx64 Hx Hd).
  revert failed n. induction fuel as [|fuel IH]; intros failed n Hp; [done|].
  assert (Ha : exists l, Ask "" n = (Ok None, mkNet l c (inputs n) (respCh n))).
  { unfold ask. rewrite Hp, Hq. simpl. destruct (link n) as [|[] l]; by eexists. }
  destruct Ha as [l Ha]. cbn [backfillLoop]. erewrite ST_bind_Ok by exact Ha. cbv iota.
  destruct (failed =? 0).
  - unfold sendResp. cbn [respCh link peer inputs]. destruct (length (respCh n) <? respChCap)%nat eqn:E.
    + erewrite ST_bind_Ok by (cbn [respCh]; by rewrite E).
      exact (IH _ (mkNet l c (inputs n) _) eq_refl).
    + unfold mbind, ST_bind. cbn [respCh]. by rewrite E.
  - erewrite ST_bind_Ok by reflexivity. exact (IH _ (mkNet l c (inputs n) _) eq_refl).
Qed.

End Served.

End Serving.

(** ** Storing and reading *)

Section Storing.
  Context `{SqlRows} `{Encryption} `{EventJSON}.

Lemma exec_Ok (f : Tables -> res Tables) (c : Conn DBEvent Tables) t1 : faults c = [] -> f (tabs c) = Ok t1 ->
  exec f c = (Ok (), set_tabs c t1).
Proof using.
  destruct c as [t a o g k f']. cbn [faults tabs]. intros -> Hf.
  unfold exec, pop, getTabs, liftR, putTabs, mbind, ST_bind. simpl. by rewrite Hf.
Qed.

Lemma save_event nid row c : faults c = [] -> asyncSave c = false ->
  t_events (tabs c) !! nid = None -> (forall n r, t_events (tabs c) !! n = Some r -> e_event_id r <> e_event_id row) ->
  save (EventInsert nid row) c = (Ok (), set_tabs c (set_events (tabs c) (<[nid := row]> (t_events (tabs c))))).
Proof using.
  intros Hu Ha Hn Hid. unfold save, getAsync. erewrite ST_bind_Ok by reflexivity. rewrite Ha. apply exec_Ok; [done|].
  simpl. unfold insertEventRaw. rewrite Hn. replace (hasEventID (t_events (tabs c)) (e_event_id row)) with false; [done|].
  symmetry. apply not_true_iff_false. unfold hasEventID. rewrite existsb_exists. intros ([n r] & Hin & He%String.eqb_eq).
  apply list_elem_of_In, elem_of_map_to_list in Hin. by apply (Hid n r).
Qed.

Definition stored (json type : string) : string := if CheckCrypto type then Encrypt json else json.

Lemma save_json nid json type c : faults c = [] -> asyncSave c = false -> t_json (tabs c) !! nid = None ->
  exists t1, save (EventJsonInsert nid json type) c = (Ok (), set_tabs c t1) /\ t_events t1 = t_events (tabs c) /\
    t_json t1 = <[nid := stored json type]> (t_json (tabs c)).
Proof using.
  intros Hu Ha Hn. unfold save, getAsync. erewrite ST_bind_Ok by reflexivity. rewrite Ha.
  unfold applyRaw, insertEventJSONRaw, stored. destruct (CheckCrypto type); [destruct (CheckMirror type)|].
  - erewrite ST_bind_Ok.
    2:{ unfold ignoring. by erewrite exec_Ok by done. }
    erewrite exec_Ok by done. eexists. split; [reflexivity|]. simpl. unfold insertNothing. by rewrite Hn.
  - erewrite exec_Ok by done. eexists. split; [reflexivity|]. simpl. unfold insertNothing. by rewrite Hn.
  - erewrite exec_Ok by done. eexists. split; [reflexivity|]. simpl. unfold insertNothing. by rewrite Hn.
Qed.

Lemma coherent_insert t t1 nid row json :
  coherent t -> t_events t1 = <[nid := row]> (t_events t) -> t_json t1 = <[nid := json]> (t_json t) ->
  Event.EventNID (dec t1 (nid, row)) = nid -> Event.EventID (dec t1 (nid, row)) = e_event_id row ->
  e_event_id row <> "" -> (forall n r, t_events t !! n = Some r -> e_event_id r <> e_event_id row) -> coherent t1.
Proof using.
  intros Hc He Hj Hn Hi Hid Hf.
  assert (Hold : forall n r, n <> nid -> dec t1 (n, r) = dec t (n, r)).
  { intros n r Hne. unfold dec. simpl. by rewrite Hj, lookup_insert_ne by done. }
  split; rewrite He; simpl.
  - intros n r. rewrite Hj, !lookup_insert_Some, lookup_insert_is_Some. intros [[<- _]|[Hne Hr]]; [by left|].
    right. split; [done|]. by eapply (co_json _ Hc).
  - intros n r. rewrite lookup_insert_Some. intros [[<- <-]|[Hne Hr]]; [done|].
    rewrite Hold by done. by apply (co_nid _ Hc).
  - intros n r. rewrite lookup_insert_Some. intros [[<- <-]|[Hne Hr]]; [done|].
    rewrite Hold by done. by apply (co_id _ Hc).
  - intros n r. rewrite lookup_insert_Some. intros [[<- <-]|[Hne Hr]]; [done|]. by apply (co_named _ Hc n r).
  - intros n r n' r'. rewrite !lookup_insert_Some. intros [[<- <-]|[Hne Hr]] [[<- <-]|[Hne' Hr']] Heq; [done| | |].
    + by destruct (Hf n' r').
    + by destruct (Hf n r).
    + by apply (co_unique _ Hc n r n' r').
Qed.

(** What is stored is what is read.  Storing an event with a number and an
    identifier that are not used yet succeeds, keeps the tables coherent, and the
    event is found by its identifier and read back unchanged. *)
Theorem store_then_read (ev : Event.Event) (roomNID snap : Z) (c : Conn DBEvent Tables) :
  (forall data, Decrypt (Encrypt data) = data) -> NewEventFromUntrustedJSON (eventJSON ev) = ev ->
  faults c = [] -> asyncSave c = false -> coherent (tabs c) ->
  Event.EventNID ev <> 0 -> Event.EventID ev <> "" ->
  t_events (tabs c) !! Event.EventNID ev = None -> t_json (tabs c) !! Event.EventNID ev = None ->
  (forall n r, t_events (tabs c) !! n = Some r -> e_event_id r <> Event.EventID ev) ->
  exists c1, StoreEvent ev roomNID snap c = (Ok (), c1) /\ coherent (tabs c1) /\
    RoomTables.EventNID (Event.EventID ev) c1 = (Ok (Event.EventNID ev), c1) /\
    QueryRoomEventByID (Event.EventID ev) c1 = (Ok (Some ev), c1).
Proof using.
  intros Hcr Hjs Hu Ha Hc Hnz Hid Hn Hj Hf. set (nid := Event.EventNID ev). set (row := eventRowOf ev roomNID snap).
  set (c0 := set_tabs c (set_events (tabs c) (<[nid := row]> (t_events (tabs c))))).
  destruct (save_json nid (eventJSON ev) (Event.Type_ ev) c0 Hu Ha Hj) as (t1 & Es & He & Hj1).
  exists (set_tabs c t1).
  assert (Hst : StoreEvent ev roomNID snap c = (Ok (), set_tabs c t1)).
  { unfold StoreEvent, insertEvent. rewrite (proj2 (Z.eqb_neq _ _) Hnz). fold nid row.
    erewrite ST_bind_Ok; [exact Es|]. erewrite ST_bind_Ok by reflexivity.
    erewrite ST_bind_Ok by (by apply save_event). reflexivity. }
  assert (Hnew : dec t1 (nid, row) = ev).
  { unfold dec, decodeEvent. simpl. rewrite Hj1, lookup_insert_eq. simpl. unfold stored.
    destruct (CheckCrypto (Event.Type_ ev)); by rewrite ?Hcr. }
  assert (Hco : coherent t1) by (by apply (coherent_insert (tabs c) t1 nid row _ Hc He Hj1); rewrite ?Hnew).
  assert (Hrow : t_events t1 !! nid = Some row) by (by rewrite He; apply lookup_insert_eq).
  assert (Hq := EventNID_up (set_tabs c t1) nid row Hu Hco Hrow). split_and!; [done..|].
  unfold QueryRoomEventByID. erewrite ST_bind_Ok by exact Hq.
  erewrite ST_bind_Ok by (apply (events_page (set_tabs c t1) [(nid, row)]); [done|done|repeat constructor|set_solver]).
  simpl. by rewrite Hnew.
Qed.

End Storing.

(** ** Concrete runs *)

(** [coherent] as a check on a finite table. *)
Lemma coherent_check `{Encryption} `{EventJSON} t :
  bool_decide (map_Forall (fun n r => is_Some (t_json t !! n) /\ Event.EventNID (dec t (n, r)) = n /\
      Event.EventID (dec t (n, r)) = e_event_id r /\ e_event_id r <> "" /\
      map_Forall (fun n' r' => e_event_id r = e_event_id r' -> n = n') (t_events t)) (t_events t)) = true -> coherent t.
Proof.
  rewrite bool_decide_eq_true. intros Hall.
  split; intros n r; [| | | |intros n' r'; intros Hr Hr' Heq; destruct (Hall n r Hr) as (_ & _ & _ & _ & Hu);
    by apply (Hu n' r')]; intros Hr; by destruct (Hall n r Hr) as (? & ? & ? & ? & ?).
Qed.

#[local] Instance exScan : SqlRows := {| scan A l := l; scan_perm A l := Permutation_refl l |}.

Definition exHistory : list Event.Event :=
  [Event.mkEvent "!r:a" "$1:a" 1 1 "@u:a" "m.room.create" (Some "") "" "" 1 "" 0 "a" "";
   Event.mkEvent "!r:a" "$2:a" 2 2 "@u:a" "m.room.message" None "hi" "" 2 "" 0 "a" "";
   Event.mkEvent "!r:a" "$3:c" 3 1 "@v:c" "m.room.message" None "ho" "" 3 "" 0 "c" ""].
Definition exInvite : Event.Event :=
  Event.mkEvent "!r:a" "$4:a" 4 3 "@u:a" "m.room.member" (Some "@w:b") "invite" "" 4 "" 0 "a" "".
Definition exJoin : Event.Event :=
  Event.mkEvent "!r:a" "$5:b" 5 1 "@w:b" "m.room.member" (Some "@w:b") "join" "" 4 "" 0 "b" "".

(** An event is stored as its identifier and read back from the list. *)
#[local] Instance exJSON : EventJSON := {|
  eventJSON ev := Event.EventID ev;
  NewEventFromUntrustedJSON id :=
    default exInvite (List.find (fun ev => String.eqb (Event.EventID ev) id) (exHistory ++ [exInvite; exJoin])%list);
|}.

Definition exConn (evs : list Event.Event) : Conn DBEvent Tables :=
  fold_left (fun c ev => (StoreEvent ev 7 0 c).2) evs
    (mkConn noTables false [] (Snowflake.mkGen 0 0 0 (-1) 0) [] []).

Definition exRoom : RoomServerState := SetRoomNID (init "!r:a") 7.

(** Storing the invite after the others. *)
Lemma store_then_read_witness :
  let c := exConn exHistory in
  exists c1, StoreEvent exInvite 7 0 c = (Ok (), c1) /\ coherent (tabs c1) /\
    RoomTables.EventNID "$4:a" c1 = (Ok 4, c1) /\ QueryRoomEventByID "$4:a" c1 = (Ok (Some exInvite), c1).
Proof.
  apply (store_then_read exInvite 7 0 (exConn exHistory)); try reflexivity; try done.
  - by apply coherent_check.
  - intros n r Hr.
    assert (Hall : map_Forall (fun n r => e_event_id r <> "$4:a") (t_events (tabs (exConn exHistory)))).
    { refine (proj1 (bool_decide_eq_true _) _). vm_compute. reflexivity. }
    exact (Hall n r Hr).
Defined.

(** The invited server fetches the message; the create event is known, and the
    first request is lost. *)
Lemma backfill_complete_witness :
  let c := exConn (exHistory ++ [exInvite]) in
  let n := mkNet [false] c [] [] in
  exists n', backfillLoop (fun _ => Some exRoom) "a" "!r:a" "a" "b" (jobStates (take 1 exHistory)) 4 "" 0 n = (Ok (), n') /\
    concat (inputs n') = [Event.SetDepth (Event.mkEvent "!r:a" "$2:a" 2 2 "@u:a" "m.room.message" None "hi" "" 2 "" 0 "a" "") (-1)].
Proof.
  set (c := exConn (exHistory ++ [exInvite])).
  destruct (t_events (tabs c) !! 4) as [r|] eqn:Hr; [|by vm_compute in Hr].
  apply (backfill_complete (fun _ => Some exRoom) "a" "!r:a" "a" "b" (jobStates (take 1 exHistory)) c exRoom
           eq_refl ltac:(by apply coherent_check) eq_refl ltac:(done) 4 4 r 0 (mkNet [false] c [] []));
    vm_compute in Hr; simplify_eq; try reflexivity; try done.
  all: vm_compute; lia.
Defined.

(** The server whose user joined by themselves is refused. *)
Lemma uninvited_backfill_never_ends_witness :
  let c := exConn (exHistory ++ [exJoin]) in
  let n := mkNet [] c [] [] in
  (backfillLoop (fun _ => Some exRoom) "a" "!r:a" "a" "b" ∅ 1000 "" 0 n).1 = Diverge /\
  inputs (backfillLoop (fun _ => Some exRoom) "a" "!r:a" "a" "b" ∅ 1000 "" 0 n).2 = [].
Proof.
  set (c := exConn (exHistory ++ [exJoin])).
  destruct (t_events (tabs c) !! 5) as [r|] eqn:Hr; [|by vm_compute in Hr].
  apply (uninvited_backfill_never_ends (fun _ => Some exRoom) "a" "!r:a" "a" "b" ∅ c exRoom
           eq_refl ltac:(by apply coherent_check) eq_refl ltac:(done) 1000 5 r 0 (mkNet [] c [] []));
    vm_compute in Hr; simplify_eq; try reflexivity; try done.
Defined.

End BackfillFacts.
