(* ===== verification/SendRec.v ===== *)
(** * Records of the federation sender

    For every room and destination the sender keeps how far it has sent: the
    domain offset of the next event, the number of events that wait and how often
    it has sent.  The record lives in three places, and
    [src/federation/model/repos/sendRecRepo.go] keeps them together:
    - [mem], the map [repo] of the process;
    - [cache], the hash [fedsend:...] in Redis ([src/cache/redis_cache.go]), with
      the set [fedsender:pendding] of the rooms that wait and the lock
      [fedpart:...] that gives a room to one process;
    - [table], the table [federation_send_record]
      ([src/federation/storage/implements/federation/send_record_table.go]).

    Calls to Redis and to the database can fail: [calls] says which of the next
    ones do not get through.  The lock's expiry after 30 seconds is not modelled:
    the process renews it every 10 seconds.

    - [agree], [repo_is_one_record]: while no call fails the copies are equal, and
      the repository behaves as one record; the row of a record that [StoreRec] made
      has another identifier and offset until the record is advanced. *)

From Stdlib Require Import String Ascii ZArith List Lia.
From stdpp Require Import base tactics list gmap strings.
From S2P Require Import Prelude.

#[local] Open Scope string_scope.
#[local] Open Scope Z_scope.

Module SendRec.

(** ** State *)

(** [int32]. *)
Definition wrap32 (z : Z) : Z := (z + 2^31) mod 2^32 - 2^31.

(** A column of type [int4] refuses other numbers. *)
Definition int4 (z : Z) : bool := (- 2^31 <=? z) && (z <? 2^31).

Record RecordItem := mkRecordItem {
  EventID : string;
  SendTimes : Z;
  PendingSize : Z;
  DomainOffset : Z;
}.

Record Store := mkStore {
  mem : gmap string RecordItem;
  cache : gmap string RecordItem;
  pending : gset string;
  locks : gmap string Z;
  table : gmap (string * string) RecordItem;
  assigned : gset string;
  calls : list bool;
}.

Abbreviation SR := (ST Store).

Definition set_mem (s : Store) m := mkStore m (cache s) (pending s) (locks s) (table s) (assigned s) (calls s).
Definition set_cache (s : Store) c p := mkStore (mem s) c p (locks s) (table s) (assigned s) (calls s).
Definition set_locks (s : Store) l := mkStore (mem s) (cache s) (pending s) l (table s) (assigned s) (calls s).
Definition set_table (s : Store) t := mkStore (mem s) (cache s) (pending s) (locks s) t (assigned s) (calls s).
Definition set_assigned (s : Store) a := mkStore (mem s) (cache s) (pending s) (locks s) (table s) a (calls s).
Definition set_calls (s : Store) l := mkStore (mem s) (cache s) (pending s) (locks s) (table s) (assigned s) l.

Definition modify (f : Store -> Store) : SR unit := fun s => (Ok (), f s).

(** A call to Redis or to the database. *)
Definition remote {A} (m : SR A) : SR A := fun s =>
  match calls s with
  | false :: l => (Err (ErrMsg "connection refused"), set_calls s l)
  | l => m (set_calls s (tail l))
  end.

(** A call whose error the caller only tests. *)
Definition ok {A} (m : SR A) : SR bool := fun s =>
  match m s with
  | (Ok _, s1) => (Ok true, s1)
  | (Err _, s1) => (Ok false, s1)
  | (Panic, s1) => (Panic, s1)
  | (Diverge, s1) => (Diverge, s1)
  end.

(** ** Redis *)

Section Operations.
  Variables roomID domain : string.

Definition key : string := roomID ++ ":" ++ domain.
Definition pendingKey : string := roomID ++ "|" ++ domain.

(** [SET key partition NX]: no reply when the key exists. *)
Definition AssignFedSendRecPartition (partition : Z) : SR unit :=
  remote (fun s => match locks s !! key with
                   | Some _ => (Err (ErrMsg "redigo: nil returned"), s)
                   | None => (Ok (), set_locks s (<[key := partition]> (locks s)))
                   end).

Definition UnassignFedSendRecPartition : SR unit := remote (modify (fun s => set_locks s (delete key (locks s)))).

Definition GetFedSendRec : SR RecordItem :=
  remote (fun s => match cache s !! key with
                   | Some r => (Ok r, s)
                   | None => (Err (ErrMsg "redis value nil"), s)
                   end).

Definition StoreFedSendRec (r : RecordItem) : SR unit :=
  remote (modify (fun s => set_cache s (<[key := r]> (cache s)) (pending s))).

Definition FreeFedSendRec : SR unit :=
  remote (modify (fun s => set_cache s (delete key (cache s)) (pending s))).

(** [HINCRBY] of [pendingSize]. *)
Definition addPending (amt : Z) (r : RecordItem) : RecordItem :=
  mkRecordItem (EventID r) (SendTimes r) (PendingSize r + amt) (DomainOffset r).

Definition IncrFedRoomPending (amt : Z) : SR unit :=
  remote (modify (fun s => set_cache s (alter (addPending amt) key (cache s)) ({[pendingKey]} ∪ pending s))).

Definition advanceRec (eventID : string) (domainOffset decr : Z) (r : RecordItem) : RecordItem :=
  mkRecordItem eventID (SendTimes r + 1) (PendingSize r - decr) domainOffset.

Definition IncrFedRoomDomainOffset (eventID : string) (domainOffset decr : Z) : SR unit :=
  remote (modify (fun s =>
    match cache s !! key with
    | None => s
    | Some r =>
        let r1 := advanceRec eventID domainOffset decr r in
        set_cache s (<[key := r1]> (cache s)) (if PendingSize r1 <=? 0 then pending s ∖ {[pendingKey]} else pending s)
    end)).

(** ** The table *)

(** [insertSendRecord]: the offset is not written, the identifier is the text 0. *)
Definition InsertSendRecord (domainOffset : Z) : SR unit :=
  remote (modify (fun s => match table s !! (roomID, domain) with
                           | Some _ => s
                           | None => set_table s (<[(roomID, domain) := mkRecordItem "0" 0 0 0]> (table s))
                           end)).

Definition SelectSendRecord : SR RecordItem :=
  remote (fun s => match table s !! (roomID, domain) with
                   | Some r => (Ok r, s)
                   | None => (Err ErrNoRows, s)
                   end).

Definition outOfRange : goerr := ErrMsg "integer out of range".

Definition UpdateSendRecordPendingSize (amt domainOffset : Z) : SR unit :=
  remote (fun s =>
    match table s !! (roomID, domain) with
    | Some r => if int4 (PendingSize r + amt) && int4 domainOffset && int4 amt
                then (Ok (), set_table s (<[(roomID, domain) := addPending amt r]> (table s)))
                else (Err outOfRange, s)
    | None => if int4 amt && int4 domainOffset
              then (Ok (), set_table s (<[(roomID, domain) := mkRecordItem "" 0 amt domainOffset]> (table s)))
              else (Err outOfRange, s)
    end).

Definition UpdateSendRecordPendingSizeAndEventID (decr : Z) (eventID : string) (domainOffset : Z) : SR unit :=
  remote (fun s =>
    match table s !! (roomID, domain) with
    | Some r => if int4 (PendingSize r - decr) && int4 domainOffset && int4 (SendTimes r + 1)
                then (Ok (), set_table s (<[(roomID, domain) := advanceRec eventID domainOffset decr r]> (table s)))
                else (Err outOfRange, s)
    | None => (Ok (), s)
    end).

(** ** The repository *)

Definition loadOrStore (r : RecordItem) : SR RecordItem := fun s =>
  match mem s !! key with
  | Some v => (Ok v, s)
  | None => (Ok r, set_mem s (<[key := r]> (mem s)))
  end.

Definition GetRec : SR (option RecordItem) := fun s =>
  match mem s !! key with
  | Some v => (Ok (Some v), s)
  | None =>
      match GetFedSendRec s with
      | (Ok r, s1) => (v ← loadOrStore r; mret (Some v)) s1
      | (_, s1) =>
          match SelectSendRecord s1 with
          | (Ok r, s2) => (_ ← ok (StoreFedSendRec r); v ← loadOrStore r; mret (Some v)) s2
          | (_, s2) => (Ok None, s2)
          end
      end
  end.

Definition StoreRec (domainOffset : Z) : SR RecordItem :=
  let rec := mkRecordItem "" 0 0 domainOffset in
  _ ← modify (fun s => set_mem s (<[key := rec]> (mem s)));
  stored ← ok (StoreFedSendRec rec);
  _ ← (if (stored : bool) then mret true else ok FreeFedSendRec);
  _ ← InsertSendRecord domainOffset;
  mret rec.

Definition addPending32 (amt : Z) (r : RecordItem) : RecordItem :=
  mkRecordItem (EventID r) (SendTimes r) (wrap32 (PendingSize r + wrap32 amt)) (DomainOffset r).

Definition IncrPendingSize (amt domainOffset : Z) : SR unit :=
  _ ← modify (fun s => set_mem s (alter (addPending32 amt) key (mem s)));
  counted ← ok (IncrFedRoomPending amt);
  _ ← (if (counted : bool) then mret true else ok FreeFedSendRec);
  UpdateSendRecordPendingSize (wrap32 amt) domainOffset.

Definition advanceRec32 (eventID : string) (domainOffset decr : Z) (r : RecordItem) : RecordItem :=
  mkRecordItem eventID (wrap32 (SendTimes r + 1)) (wrap32 (PendingSize r - decr)) domainOffset.

Definition UpdateDomainOffset (eventID : string) (domainOffset decr : Z) : SR unit :=
  _ ← modify (fun s => set_mem s (alter (advanceRec32 eventID domainOffset decr) key (mem s)));
  counted ← ok (IncrFedRoomDomainOffset eventID domainOffset decr);
  _ ← (if (counted : bool) then mret true else ok FreeFedSendRec);
  _ ← ok (UpdateSendRecordPendingSizeAndEventID decr eventID domainOffset);
  mret ().

Definition recAssignRoomPartition (partition : Z) : SR (option RecordItem) :=
  locked ← ok (AssignFedSendRecPartition partition);
  if negb locked then mret None
  else
    rec ← GetRec;
    match rec with
    | None => _ ← ok UnassignFedSendRecPartition; mret None
    | Some r => mret (Some r)
    end.

Definition recUnassignRoomPartition : SR unit :=
  _ ← ok UnassignFedSendRecPartition;
  modify (fun s => set_mem s (delete key (mem s))).

(** ** The partition processor ([src/federation/fedsender/fedsender.go]) *)

(** The loop that tries for [retryTime]: [tries] attempts after the first. *)
Fixpoint tryAssign (tries : nat) (partition : Z) : SR (option RecordItem) :=
  rec ← recAssignRoomPartition partition;
  match rec, tries with
  | Some r, _ => mret (Some r)
  | None, O => mret None
  | None, S tries' => tryAssign tries' partition
  end.

Definition AssignRoomPartition (tries : nat) (partition : Z) : SR (option RecordItem) :=
  rec ← tryAssign tries partition;
  _ ← (match rec with
       | Some _ => modify (fun s => set_assigned s ({[pendingKey]} ∪ assigned s))
       | None => mret ()
       end);
  mret rec.

Definition UnassignRoomPartition : SR unit :=
  _ ← modify (fun s => set_assigned s (assigned s ∖ {[pendingKey]}));
  recUnassignRoomPartition.

(** Without the map of queues, which [FedQueue.release] adds. *)
Definition OnRoomDomainRelease : SR unit :=
  _ ← recUnassignRoomPartition;
  modify (fun s => set_assigned s (assigned s ∖ {[pendingKey]})).

(** The record may be nil although the room is assigned. *)
Definition HasAssgined : SR (option (option RecordItem)) := fun s =>
  if bool_decide (pendingKey ∈ assigned s) then (rec ← GetRec; mret (Some rec)) s else (Ok None, s).

End Operations.

(** ** One record *)

Inductive RecOp :=
  | RStore (domainOffset : Z)
  | RIncr (domainOffset : Z)
  | RUpdate (eventID : string) (domainOffset decr : Z)
  | RGet
  | RAssign (partition : Z)
  | RUnassign.

Section OneRecord.
  Variables roomID domain : string.
  #[local] Abbreviation k := (key roomID domain).

(** The operations on the three copies. *)
Definition runRecOp (o : RecOp) : SR (option RecordItem) :=
  match o with
  | RStore off => r ← StoreRec roomID domain off; mret (Some r)
  | RIncr off => _ ← IncrPendingSize roomID domain 1 off; mret None
  | RUpdate id off decr => _ ← UpdateDomainOffset roomID domain id off decr; mret None
  | RGet => GetRec roomID domain
  | RAssign p => AssignRoomPartition roomID domain 0 p
  | RUnassign => _ ← UnassignRoomPartition roomID domain; mret None
  end.

(** And on one. *)
Definition recSpec (o : RecOp) (v : option RecordItem) : option RecordItem :=
  match o, v with
  | RStore off, None => Some (mkRecordItem "" 0 0 off)
  | RIncr off, None => Some (mkRecordItem "" 0 1 off)
  | RIncr _, Some r => Some (addPending 1 r)
  | RUpdate id off decr, Some r => Some (advanceRec id off decr r)
  | _, _ => v
  end.

(** Numbers the columns can hold, before and after; a record is stored by its caller
    ([FedQueue.nextState]) when there is none. *)
Definition fits (o : RecOp) (v : option RecordItem) : bool :=
  match o, v with
  | RStore _, Some _ => false
  | RIncr off, None => int4 off
  | RIncr off, Some r => int4 off && int4 (PendingSize r) && int4 (PendingSize r + 1)
  | RUpdate _ off decr, Some r => (0 <=? decr) && int4 off && int4 (PendingSize r - decr) && int4 (SendTimes r + 1)
  | _, _ => true
  end.

(** The row of a record that [StoreRec] made: without the offset, and with another
    identifier. *)
Definition inserted (r : RecordItem) : RecordItem := mkRecordItem "0" (SendTimes r) (PendingSize r) 0.

(** The copies of a record: the table has it, and so have the cache and the
    memory unless they have none; the set lists the rooms that wait.  After
    [StoreRec] and until the next [UpdateDomainOffset] the table has only the counts
    of the record, and the cache has the record. *)
Record agree (v : option RecordItem) (s : Store) : Prop := {
  ag_calls : calls s = [];
  ag_table : table s !! (roomID, domain) = v \/
             (cache s !! k = v /\ exists r, v = Some r /\ table s !! (roomID, domain) = Some (inserted r));
  ag_cache : cache s !! k = None \/ cache s !! k = v;
  ag_mem : mem s !! k = None \/ (mem s !! k = v /\ cache s !! k = v);
  ag_pending : forall r, v = Some r -> 0 < PendingSize r -> pendingKey roomID domain ∈ pending s;
}.

Lemma remote_up {A} (m : SR A) s : calls s = [] -> remote m s = m s.
Proof using. unfold remote. destruct s. simpl. by intros ->. Qed.

Lemma int4_spec z : int4 z = true <-> - 2^31 <= z < 2^31.
Proof using. unfold int4. rewrite andb_true_iff, Z.leb_le, Z.ltb_lt. done. Qed.

Lemma wrap32_id z : int4 z = true -> wrap32 z = z.
Proof using. rewrite int4_spec. intros Hz. unfold wrap32. rewrite Z.mod_small by lia. lia. Qed.

(** The row of a record, or of one that was just stored. *)
Lemma row_cases v s : agree v s -> table s !! (roomID, domain) = v \/
  exists r, v = Some r /\ cache s !! k = Some r /\ table s !! (roomID, domain) = Some (inserted r).
Proof using. intros [_ [?|(Hc & r & -> & Ht)] _ _ _]; [by left|right; by exists r]. Qed.

Lemma store_agrees off v s : agree v s -> fits (RStore off) v = true ->
  exists s1, StoreRec roomID domain off s = (Ok (mkRecordItem "" 0 0 off), s1) /\ agree (recSpec (RStore off) v) s1.
Proof using.
  intros Hag Hf. destruct v as [r|]; [done|]. destruct Hag as [Hc Ht _ _ Hp]. destruct s as [m c p l t a cs]. simpl in *. subst cs.
  assert (Ht0 : t !! (roomID, domain) = None) by (by destruct Ht as [?|(_ & ? & ? & _)]).
  unfold StoreRec, StoreFedSendRec, InsertSendRecord. cbv [mbind ST_bind modify ok remote mret ST_ret]. simpl. rewrite Ht0. simpl.
  eexists. split; [reflexivity|]. split; simpl; [done|right|right|right|intros r [= <-]; simpl; lia]; rewrite ?lookup_insert_eq; [|done|done].
  split; [done|]. by eexists.
Qed.

Lemma incr_agrees off v s : agree v s -> fits (RIncr off) v = true ->
  exists s1, IncrPendingSize roomID domain 1 off s = (Ok (), s1) /\ agree (recSpec (RIncr off) v) s1.
Proof using.
  intros Hag Hf. pose proof (row_cases v s Hag) as Hrow. destruct Hag as [Hc _ Hca Hm Hp]. destruct s as [m c p l t a cs]. simpl in *. subst cs.
  unfold IncrPendingSize, UpdateSendRecordPendingSize. cbv [mbind ST_bind modify ok remote mret ST_ret].
  simpl. change (wrap32 1) with 1. change (int4 1) with true. destruct v as [r|]; simpl in *.
  - apply andb_true_iff in Hf as [[Ho H0]%andb_true_iff H1].
    assert (Hmem : alter (addPending32 1) k m !! k = None \/
                   (alter (addPending32 1) k m !! k = Some (addPending 1 r) /\ alter (addPending 1) k c !! k = Some (addPending 1 r))).
    { destruct Hm as [E|[E E']]; rewrite !lookup_alter_eq, E; [by left|]. right. rewrite E'. simpl. split; [|done].
      unfold addPending32, addPending. change (wrap32 1) with 1. by rewrite wrap32_id. }
    destruct Hrow as [->|(r' & [= <-] & Ec & ->)]; cbn [PendingSize inserted]; rewrite Ho, H1; simpl; (eexists; split; [reflexivity|]);
      (split; simpl; [done| | |done|set_solver]).
    + left. by rewrite lookup_insert_eq.
    + destruct Hca as [E|E]; rewrite lookup_alter_eq, E; [by left|by right].
    + right. rewrite lookup_alter_eq, Ec, lookup_insert_eq. simpl. split; [done|]. by eexists.
    + right. by rewrite lookup_alter_eq, Ec.
  - destruct Hrow as [->|(? & ? & _)]; [|done]. rewrite Hf. simpl. eexists. split; [reflexivity|].
    split; simpl; [done|left; by rewrite lookup_insert_eq| | |set_solver].
    + left. rewrite lookup_alter_eq. by destruct Hca as [->| ->].
    + left. rewrite lookup_alter_eq. by destruct Hm as [->|[-> _]].
Qed.

Lemma update_agrees id off decr v s : agree v s -> fits (RUpdate id off decr) v = true ->
  exists s1, UpdateDomainOffset roomID domain id off decr s = (Ok (), s1) /\ agree (recSpec (RUpdate id off decr) v) s1 /\
    assigned s1 = assigned s.
Proof using.
  intros Hag Hf. pose proof (row_cases v s Hag) as Hrow. destruct Hag as [Hc _ Hca Hm Hp]. destruct s as [m c p l t a cs]. simpl in *. subst cs.
  unfold UpdateDomainOffset, IncrFedRoomDomainOffset, UpdateSendRecordPendingSizeAndEventID.
  cbv [mbind ST_bind modify ok remote mret ST_ret]. simpl.
  destruct v as [r|]; simpl in *.
  - apply andb_true_iff in Hf as [[[Hd%Z.leb_le Ho]%andb_true_iff H0]%andb_true_iff H1].
    assert (Hrow1 : exists t0, t !! (roomID, domain) = Some t0 /\ SendTimes t0 = SendTimes r /\ PendingSize t0 = PendingSize r).
    { destruct Hrow as [->|(r' & [= <-] & _ & ->)]; by eexists. }
    destruct Hrow1 as (t0 & Ht & Es & Ep). assert (Eadv : advanceRec id off decr t0 = advanceRec id off decr r) by (unfold advanceRec; congruence).
    assert (Hpend : forall r1, Some (advanceRec id off decr r) = Some r1 -> 0 < PendingSize r1 -> pendingKey roomID domain ∈ p).
    { intros r1 [= <-]. simpl. intros Hpos. apply (Hp r); [done|lia]. }
    destruct (c !! k) as [rc|] eqn:Ec; simpl; rewrite Ht, Es, Ep, Ho, H0, H1, Eadv; simpl; (eexists; split; [reflexivity|]); (split; [|done]).
    + destruct Hca as [|E]; [done|]. simplify_eq.
      split; simpl; [done|left; by rewrite lookup_insert_eq|right; by rewrite lookup_insert_eq| |].
      * destruct Hm as [E|[E _]]; rewrite lookup_alter_eq, E; [by left|]. right. rewrite lookup_insert_eq. simpl.
        split; [|done]. unfold advanceRec32, advanceRec. by rewrite !wrap32_id.
      * intros r1 E Hpos. rewrite (proj2 (Z.leb_gt _ _)) by (simplify_eq; simpl in *; lia). by eapply Hpend.
    + split; simpl; [done|left; by rewrite lookup_insert_eq|by left| |done].
      left. rewrite lookup_alter_eq. by destruct Hm as [->|[_ ?]].
  - destruct Hrow as [Ht|(? & ? & _)]; [|done].
    replace (c !! k) with (@None RecordItem) by (by destruct Hca). simpl. rewrite Ht. eexists. split; [reflexivity|]. split; [|done].
    split; simpl; [done|by left|tauto| |done].
    left. rewrite lookup_alter_eq. by destruct Hm as [->|[-> _]].
Qed.

Lemma get_agrees v s : agree v s ->
  exists s1, GetRec roomID domain s = (Ok v, s1) /\ agree v s1 /\ (v <> None -> mem s1 !! k = v) /\
    assigned s1 = assigned s /\ locks s1 = locks s.
Proof using.
  intros [Hc Ht Hca Hm Hp]. destruct s as [m c p l t a cs]. simpl in *. subst cs.
  unfold GetRec, GetFedSendRec, SelectSendRecord, StoreFedSendRec, loadOrStore.
  cbv [mbind ST_bind modify ok remote mret ST_ret]. simpl.
  destruct (m !! k) as [r|] eqn:Em.
  { destruct Hm as [|[E Ec]]; [done|]. assert (v = Some r) as -> by congruence. eexists. split; [reflexivity|]. split; [|done].
    split; simpl; [done|done|done|by right|done]. }
  destruct (c !! k) as [r|] eqn:Ec; simpl.
  { destruct Hca as [|E]; [done|]. assert (v = Some r) as -> by congruence. rewrite Em. eexists. split; [reflexivity|].
    split; [split; simpl; [done|by rewrite Ec|by right|right; by rewrite lookup_insert_eq|done]|]. simpl. by rewrite lookup_insert_eq. }
  assert (Ht0 : t !! (roomID, domain) = v) by (by destruct Ht as [?|(<- & ? & ? & _)]). rewrite Ht0. destruct v as [r|]; simpl.
  - rewrite Em. eexists. split; [reflexivity|].
    split; [split; simpl; [done|by left|right|right|done]|]; simpl; by rewrite ?lookup_insert_eq.
  - eexists. split; [reflexivity|]. split; [|done]. split; simpl; [done|by left|by left|by left|done].
Qed.

(** Locks and the list of assigned rooms are no part of the record. *)
Lemma agree_ext v s s1 : agree v s -> calls s1 = [] -> table s1 = table s -> cache s1 = cache s -> pending s1 = pending s ->
  (mem s1 !! k = None \/ mem s1 !! k = mem s !! k) -> agree v s1.
Proof using.
  intros [Hc Ht Hca Hm Hp] Hc1 Et Ec Ep Hm1. split; rewrite ?Et, ?Ec, ?Ep; [done..| |done].
  destruct Hm1 as [->| ->]; [by left|done].
Qed.

Lemma unassign_agrees v s : agree v s ->
  exists s1, UnassignRoomPartition roomID domain s = (Ok (), s1) /\ agree v s1 /\ mem s1 !! k = None /\
    locks s1 !! k = None.
Proof using.
  intros Hag. pose proof (ag_calls _ _ Hag) as Hc. destruct s as [m c p l t a cs]. simpl in Hc. subst cs.
  unfold UnassignRoomPartition, recUnassignRoomPartition, UnassignFedSendRecPartition.
  cbv [mbind ST_bind modify ok remote mret ST_ret]. simpl. eexists. split; [reflexivity|].
  split; [|split; simpl; apply lookup_delete_eq]. apply (agree_ext _ _ _ Hag); try done. left. apply lookup_delete_eq.
Qed.

Lemma release_agrees v s : agree v s ->
  exists s1, OnRoomDomainRelease roomID domain s = (Ok (), s1) /\ agree v s1.
Proof using.
  intros Hag. pose proof (ag_calls _ _ Hag) as Hc. destruct s as [m c p l t a cs]. simpl in Hc. subst cs.
  unfold OnRoomDomainRelease, recUnassignRoomPartition, UnassignFedSendRecPartition.
  cbv [mbind ST_bind modify ok remote mret ST_ret]. simpl. eexists. split; [reflexivity|].
  apply (agree_ext _ _ _ Hag); try done. left. apply lookup_delete_eq.
Qed.

Lemma try_once p v s : agree v s ->
  exists w s1, recAssignRoomPartition roomID domain p s = (Ok w, s1) /\ agree v s1 /\ (w = None \/ w = v) /\
    (locks s !! k = None -> w = v) /\ (w <> None -> mem s1 !! k = v).
Proof using.
  intros Hag. pose proof (ag_calls _ _ Hag) as Hc. unfold recAssignRoomPartition.
  destruct (locks s !! k) as [q|] eqn:El.
  - erewrite ST_bind_Ok by (unfold ok, AssignFedSendRecPartition; by rewrite remote_up, El by done).
    cbn [negb]. eexists None, s. split_and!; [reflexivity|done|by left|done|done].
  - erewrite ST_bind_Ok by (unfold ok, AssignFedSendRecPartition; by rewrite remote_up, El by done). cbn [negb].
    assert (Hag0 : agree v (set_locks s (<[k := p]> (locks s)))) by (apply (agree_ext _ _ _ Hag); try done; by right).
    destruct (get_agrees _ _ Hag0) as (s1 & E & Hag1 & Hm & _). erewrite ST_bind_Ok by exact E. destruct v as [r|].
    + eexists _, _. split; [reflexivity|]. by split_and!; [..|right| |].
    + erewrite ST_bind_Ok by (unfold ok, UnassignFedSendRecPartition; by rewrite remote_up by apply Hag1).
      eexists _, _. split; [reflexivity|]. split_and!; [|by left|done|done].
      apply (agree_ext _ _ _ Hag1); try done; [apply Hag1|by right].
Qed.

(** A room is assigned when its lock is free and its record exists; otherwise
    nothing is answered. *)
Lemma assign_agrees tries p v s : agree v s ->
  exists w s1, AssignRoomPartition roomID domain tries p s = (Ok w, s1) /\ agree v s1 /\ (w = None \/ w = v) /\
    (locks s !! k = None -> w = v) /\ (w <> None -> mem s1 !! k = v /\ pendingKey roomID domain ∈ assigned s1).
Proof using.
  intros Hag.
  assert (Htry : exists w s1, tryAssign roomID domain tries p s = (Ok w, s1) /\ agree v s1 /\ (w = None \/ w = v) /\
                   (locks s !! k = None -> w = v) /\ (w <> None -> mem s1 !! k = v)).
  { revert s Hag. induction tries as [|tries IH]; intros s Hag; cbn [tryAssign].
    - destruct (try_once p v s Hag) as (w & s1 & E & Hag1 & Hw & Hl & Hm). erewrite ST_bind_Ok by exact E.
      exists w, s1. by destruct w.
    - destruct (try_once p v s Hag) as (w & s1 & E & Hag1 & Hw & Hl & Hm). erewrite ST_bind_Ok by exact E.
      destruct w as [r|]; [by exists (Some r), s1|]. destruct (IH s1 Hag1) as (w & s2 & E2 & ? & Hw2 & _ & Hm2).
      exists w, s2. split_and!; try done. intros Hk. destruct v; [by specialize (Hl Hk)|]. by destruct Hw2. }
  destruct Htry as (w & s1 & E & Hag1 & Hw & Hl & Hm). unfold AssignRoomPartition. erewrite ST_bind_Ok by exact E.
  destruct w as [r|].
  - erewrite ST_bind_Ok by reflexivity. exists (Some r). eexists. split; [reflexivity|]. split_and!; try done.
    + apply (agree_ext _ _ _ Hag1); try done; [apply Hag1|by right].
    + intros _. split; [by apply Hm|]. simpl. set_solver.
  - erewrite ST_bind_Ok by reflexivity. by exists None, s1.
Qed.

(** ** Sequences of operations *)

Fixpoint runRecOps (os : list RecOp) : SR (list (option RecordItem)) :=
  match os with
  | [] => mret []
  | o :: os' => a ← runRecOp o; rest ← runRecOps os'; mret (a :: rest)
  end.

Fixpoint allFit (os : list RecOp) (v : option RecordItem) : bool :=
  match os with
  | [] => true
  | o :: os' => fits o v && allFit os' (recSpec o v)
  end.

(** What the answers may be. *)
Fixpoint answers (os : list RecOp) (v : option RecordItem) (rs : list (option RecordItem)) : Prop :=
  match os, rs with
  | [], [] => True
  | o :: os', a :: rs' =>
      match o with RGet => a = v | RAssign _ => a = None \/ a = v | RStore _ => a = recSpec o v | _ => True end /\ answers os' (recSpec o v) rs'
  | _, _ => False
  end.

Lemma runRecOp_agrees o v s : agree v s -> fits o v = true ->
  exists a s1, runRecOp o s = (Ok a, s1) /\ agree (recSpec o v) s1 /\
    match o with RGet => a = v | RAssign _ => a = None \/ a = v | RStore _ => a = recSpec o v | _ => True end.
Proof using.
  intros Hag Hf. destruct o; cbn [runRecOp].
  - destruct (store_agrees _ _ _ Hag Hf) as (s1 & E & ?). erewrite ST_bind_Ok by exact E. eexists _, _. split; [done|]. split; [done|]. by destruct v.
  - destruct (incr_agrees _ _ _ Hag Hf) as (s1 & E & ?). erewrite ST_bind_Ok by exact E. by eexists _, _.
  - destruct (update_agrees _ _ _ _ _ Hag Hf) as (s1 & E & ? & _). erewrite ST_bind_Ok by exact E. by eexists _, _.
  - destruct (get_agrees _ _ Hag) as (s1 & E & ? & _). exists v, s1. by destruct v.
  - destruct (assign_agrees 0 partition _ _ Hag) as (w & s1 & E & ? & ? & _). exists w, s1. by destruct v.
  - destruct (unassign_agrees _ _ Hag) as (s1 & E & ? & _). erewrite ST_bind_Ok by exact E. eexists _, _. by destruct v.
Qed.

(** C20: The repository is one record.  While Redis and the database answer and the
    numbers fit their columns, any sequence of operations on a room and domain (a
    record being stored when there is none) leaves the memory and the cache, unless
    they have no copy, equal to the record that the same operations make of one
    record, and every read returns it; the table is equal to it too, but for the
    event identifier and offset of a record that was stored and not advanced since;
    and a room that waits is in the list of waiting rooms. *)
Theorem repo_is_one_record (os : list RecOp) (v : option RecordItem) (s : Store) :
  agree v s -> allFit os v = true ->
  exists rs s1, runRecOps os s = (Ok rs, s1) /\ answers os v rs /\ agree (fold_left (fun w o => recSpec o w) os v) s1.
Proof using.
  revert v s. induction os as [|o os IH]; intros v s Hag Hf; cbn [runRecOps].
  { by exists [], s. }
  apply andb_true_iff in Hf as [Ho Hf].
  destruct (runRecOp_agrees o v s Hag Ho) as (a & s1 & E & Hag1 & Ha). erewrite ST_bind_Ok by exact E.
  destruct (IH _ _ Hag1 Hf) as (rs & s2 & E2 & Hr & Hag2). erewrite ST_bind_Ok by exact E2.
  exists (a :: rs), s2. by split_and!.
Qed.

End OneRecord.

(** A record is stored, an event waits, the room is assigned, the event is sent, the
    room is left. *)
Lemma repo_is_one_record_witness :
  let os := [RStore 4; RIncr 5; RAssign 1; RGet; RUpdate "$e" 6 1; RUnassign; RGet] in
  let s := mkStore ∅ ∅ ∅ ∅ ∅ ∅ [] in
  exists rs s1, runRecOps "!r:a" "b" os s = (Ok rs, s1) /\ answers os None rs /\
    agree "!r:a" "b" (fold_left (fun w o => recSpec o w) os None) s1.
Proof.
  intros os s. apply (repo_is_one_record "!r:a" "b" os None s); [|by vm_compute].
  split; [done|by left|by left|by left|]. intros r [=].
Defined.

End SendRec.
