(* ===== verification/FedQueue.v ===== *)
(** * The queue of a destination

    [src/federation/fedsender/queue/destinationqueue.go]: the events and EDUs that
    wait for one room and one destination, and the goroutine that sends them.
    [SendEvent] and [SendEDU] append and start the goroutine when none is
    [running]; [backgroundSend] builds a transaction ([next]), sends it, drops
    what was sent and moves the record on ([SendRec]).  Events that are not in
    the queue (after a restart) are asked from the room server by domain offset
    ([RoomQuery]).

    [next] runs under the mutex, sending and what follows it do not: a goroutine
    is therefore a state machine ([Phase]) whose steps [wake] (up to the request)
    and [finish] (after the reply) interleave with [SendEvent], [SendEDU] and the
    other goroutines.  A goroutine that ends takes its queue out of the map of
    queues ([src/federation/fedsender/queue/queue.go]), so that the next event
    makes a new one.

    Sleeping and retrying change no state: a goroutine that waits is [Ready].
    Reading the record again after the request is reading [mem], where the
    pointer the goroutine holds lives. *)

From Stdlib Require Import String Ascii ZArith List.
From stdpp Require Import base tactics list gmap strings.
From S2P Require Import Prelude Snowflake Ids Event RoomState RoomTables RoomQuery SendRec.

#[local] Open Scope string_scope.
#[local] Open Scope Z_scope.

Module FedQueue.
Import RoomState RoomTables RoomQuery SendRec.
#[local] Abbreviation Ev := Event.Event.

(** ** Data *)

Record EDU := mkEDU {
  eduType : string;
  eduOrigin : string;
  eduDestination : string;
  eduContent : string;
}.

(** The identifier is the time and the counter. *)
Record Transaction := mkTransaction {
  TransactionID : Z * Z;
  tOrigin : string;
  tDestination : string;
  tOriginServerTS : Z;
  PreviousIDs : list (Z * Z);
  PDUs : list Ev;
  EDUs : list EDU;
}.

Record Queue := mkQueue {
  running : bool;
  sentCounter : Z;
  lastTransactionIDs : list (Z * Z);
  pendingEvents : list Ev;
  pendingEDUs : list EDU;
}.

(** What [next] returns. *)
Record NextResult := mkNext {
  nTrans : option Transaction;
  nEventID : string;
  nDecr : Z;
  nUsePDU : nat;
  nUseEDU : nat;
}.

Inductive Phase :=
  | Ready
  | InFlight (t : Transaction) (n : NextResult) (rec : option RecordItem)
  | Exited.

(** Everything of one origin, room and domain: the queue objects, the goroutines
    with the number of their object, the store of the records, the room server's
    database, and the transactions that arrived.  [listed] is the object the map
    [queues] of [OutgoingQueues] holds.  The object that is worked on is [queue],
    the others are on the [shelf] (its own place there is stale). *)
Record Dest := mkDest {
  queue : Queue;
  self : nat;
  shelf : list Queue;
  listed : option nat;
  store : Store;
  server : Conn DBEvent Tables;
  workers : list (nat * Phase);
  arrived : list Transaction;
}.

Definition set_queue (d : Dest) q := mkDest q (self d) (shelf d) (listed d) (store d) (server d) (workers d) (arrived d).
Definition set_listed (d : Dest) l := mkDest (queue d) (self d) (shelf d) l (store d) (server d) (workers d) (arrived d).
Definition set_store (d : Dest) s := mkDest (queue d) (self d) (shelf d) (listed d) s (server d) (workers d) (arrived d).
Definition set_server (d : Dest) c := mkDest (queue d) (self d) (shelf d) (listed d) (store d) c (workers d) (arrived d).
Definition set_workers (d : Dest) w := mkDest (queue d) (self d) (shelf d) (listed d) (store d) (server d) w (arrived d).
Definition set_arrived (d : Dest) a := mkDest (queue d) (self d) (shelf d) (listed d) (store d) (server d) (workers d) a.

Definition withStore {A} (m : SR A) : ST Dest A := fun d =>
  let '(r, s) := m (store d) in (r, set_store d s).
Definition withServer {A} (m : DB A) : ST Dest A := fun d =>
  let '(r, c) := m (server d) in (r, set_server d c).
Definition modifyD (f : Dest -> Dest) : ST Dest unit := fun d => (Ok (), f d).
Definition modifyQ (f : Queue -> Queue) : ST Dest unit := fun d => (Ok (), set_queue d (f (queue d))).
Definition getQ : ST Dest Queue := fun d => (Ok (queue d), d).

Definition set_running (q : Queue) b := mkQueue b (sentCounter q) (lastTransactionIDs q) (pendingEvents q) (pendingEDUs q).
Definition set_pending (q : Queue) evs edus := mkQueue (running q) (sentCounter q) (lastTransactionIDs q) evs edus.
Definition set_sent (q : Queue) id n :=
  mkQueue (running q) (sentCounter q + n) [id] (pendingEvents q) (pendingEDUs q).

Definition MAX_SIZE : Z := 50.

(** [for i, v := range l { ...; if i > MAX_SIZE { break } }]. *)
Fixpoint upTo {A} (i : Z) (l : list A) : list A :=
  match l with
  | [] => []
  | v :: l' => if MAX_SIZE <? i then [v] else v :: upTo (i + 1) l'
  end.

(** ** The queue objects *)

Definition newQueue : Queue := mkQueue false 0 [] [] [].

(** Turn to another object. *)
Definition focus (i : nat) (d : Dest) : Dest :=
  if (i =? self d)%nat then d
  else
    let all := <[self d := queue d]> (shelf d) in
    mkDest (default newQueue (all !! i)) i all (listed d) (store d) (server d) (workers d) (arrived d).

(** The listed object, or a new one. *)
Definition getDestinationQueue (d : Dest) : Dest :=
  match listed d with
  | Some i => focus i d
  | None =>
      let all := <[self d := queue d]> (shelf d) in
      mkDest newQueue (length all) (all ++ [newQueue])%list (Some (length all)) (store d) (server d) (workers d) (arrived d)
  end.

(** ** Adding to the queue *)

Definition start (d : Dest) : Dest :=
  if running (queue d) then d
  else set_workers (set_queue d (set_running (queue d) true)) (workers d ++ [(self d, Ready)])%list.

Definition SendEvent (ev : Ev) (d : Dest) : Dest :=
  start (set_queue d (set_pending (queue d) (pendingEvents (queue d) ++ [ev])%list (pendingEDUs (queue d)))).

Definition SendEDU (e : EDU) (d : Dest) : Dest :=
  start (set_queue d (set_pending (queue d) (pendingEvents (queue d)) (pendingEDUs (queue d) ++ [e])%list)).

Section Sending.
  Context `{SqlRows} `{Encryption} `{EventJSON} `{GoRange}.
  Variables origin roomID domain : string.
  (** The room states of this server, and of the room server that answers. *)
  Variable rsRepo : string -> option RoomServerState.
  (** The host of the domain, the number of this process. *)
  Variable host : option string.
  Variable partition : Z.

(** [processEvent] of [FederationSender]: count the event, then queue it. *)
Definition processEvent (ev : Ev) : ST Dest unit :=
  _ ← withStore (ok (IncrPendingSize roomID domain 1 (Event.DomainOffset ev)));
  modifyD (fun d => SendEvent ev (getDestinationQueue d)).

Definition processEdu (e : EDU) : ST Dest unit :=
  modifyD (fun d => SendEDU e (getDestinationQueue d)).

Definition newTransaction (now : Z) (destination : string) (pdus : list Ev) (edus : list EDU) (q : Queue) : Transaction :=
  mkTransaction (now, sentCounter q) origin destination now (lastTransactionIDs q) pdus edus.

Fixpoint creator (states : list Ev) (sender : string) : string :=
  match states with
  | [] => sender
  | s :: rest => creator rest (if String.eqb (Event.Type_ s) "m.room.create" then Event.Sender s else sender)
  end.

(** A nil room state panics. *)
Definition getStateEvs : ST Dest (option (list Ev)) :=
  rs ← liftR (deref (rsRepo roomID));
  states ← liftR (GetAllState rs);
  mret (if (length states =? 0)%nat then None
        else if String.eqb (Ids.domainOrEmpty (creator states "")) domain then None
        else Some states).

Definition getPendingEvs (domainOffset : Z) (eventID : string) (limit : Z) : ST Dest (list Ev) :=
  let req := mkOffsetRequest roomID origin domainOffset eventID
               ((domainOffset =? 0) && negb (String.eqb eventID "")) limit in
  r ← withServer (QueryEventsByDomainOffset rsRepo req);
  mret (if String.eqb (brError r.1) "" then brPDUs r.1 else []).

(** The loop of the first transaction, from the last state event to the first:
    events from [domainOffset] on are taken out; the identifier kept is that of
    the first event that stays. *)
Fixpoint dropStates (domainOffset : Z) (states : list Ev) : list Ev * string :=
  match states with
  | [] => ([], "")
  | ev :: rest =>
      let '(kept, id) := dropStates domainOffset rest in
      if negb (domainOffset =? 0) && (domainOffset <=? Event.DomainOffset ev) then (kept, id)
      else (ev :: kept, Event.EventID ev)
  end.

Definition onlyEDUs (now : Z) (destination : string) (edus : list EDU) (q : Queue) : NextResult :=
  match edus with
  | [] => mkNext None "" 0 0 0
  | _ => mkNext (Some (newTransaction now destination [] edus q)) "" 0 0 (length edus)
  end.

(** The first transaction carries the state of the room. *)
Definition nextState (now : Z) (destination : string) (rec : option RecordItem) (pdus : list Ev) (edus : list EDU) :
    ST Dest NextResult :=
  q ← getQ;
  off ← (match rec with
         | Some r => mret (Some (DomainOffset r))
         | None =>
             let off := match pendingEvents q with ev :: _ => Event.DomainOffset ev | [] => 0 end in
             stored ← withStore (ok (StoreRec roomID domain off));
             mret (if (stored : bool) then Some off else None)
         end);
  match off with
  | None =>
      _ ← (match edus with [] => modifyQ (fun q => set_running q false) | _ => mret () end);
      mret (onlyEDUs now destination edus q)
  | Some off =>
      let '(kept, id) := dropStates off pdus in
      let q1 := mkQueue (running q) (sentCounter q + Z.of_nat (length kept)) (lastTransactionIDs q)
                  (pendingEvents q) (pendingEDUs q) in
      let t := newTransaction now destination kept edus q1 in
      _ ← modifyQ (fun q => set_sent q (TransactionID t) (Z.of_nat (length kept)));
      mret (mkNext (Some t) id 0 0 (length edus))
  end.

(** Waiting events: from the queue when it starts at the record, else from the
    room server. *)
Definition nextPending (now : Z) (destination : string) (r : RecordItem) (edus : list EDU) : ST Dest NextResult :=
  q ← getQ;
  let fromQueue := match pendingEvents q with
                   | ev :: _ => if DomainOffset r =? Event.DomainOffset ev then upTo 0 (pendingEvents q) else []
                   | [] => []
                   end in
  let getSize := if (length fromQueue =? 0)%nat then Z.min (PendingSize r) MAX_SIZE else 0 in
  got ← (if 0 <? getSize then getPendingEvs (DomainOffset r) (EventID r) getSize else mret []);
  let pdus := (fromQueue ++ got)%list in
  match last pdus with
  | None => mret (onlyEDUs now destination edus q)
  | Some ev =>
      let t := newTransaction now destination pdus edus q in
      _ ← modifyQ (fun q => set_sent q (TransactionID t) (Z.of_nat (length pdus)));
      mret (mkNext (Some t) (Event.EventID ev) (Z.of_nat (length pdus)) (length fromQueue) (length edus))
  end.

Definition next (now : Z) (rec : option RecordItem) (destination : string) : ST Dest NextResult :=
  q ← getQ;
  let edus := upTo 0 (pendingEDUs q) in
  if String.eqb roomID "" then
    _ ← (match edus with [] => modifyQ (fun q => set_running q false) | _ => mret () end);
    mret (onlyEDUs now destination edus q)
  else
    states ← (match rec with
              | Some r => if SendTimes r =? 0 then getStateEvs else mret None
              | None => getStateEvs
              end);
    match states, rec with
    | Some pdus, _ => nextState now destination rec pdus edus
    | None, Some r =>
        if 0 <? PendingSize r then nextPending now destination r edus
        else
          _ ← modifyQ (fun q => set_running q false);
          mret (onlyEDUs now destination edus q)
    | None, None =>
        _ ← modifyQ (fun q => set_running q false);
        mret (onlyEDUs now destination edus q)
    end.

(** ** The goroutine *)

Definition isEmpty (n : NextResult) : bool :=
  match nTrans n with
  | None => true
  | Some t => match PDUs t, EDUs t with [], [] => true | _, _ => false end
  end.

(** The record of the room: [None] when the goroutine has to end; a record that is
    assigned but nil panics. *)
Definition acquire : ST Dest (option (option RecordItem)) :=
  if String.eqb roomID "" then mret (Some None)
  else
    has ← withStore (HasAssgined roomID domain);
    match has with
    | Some rec => r ← liftR (deref rec); mret (Some (Some r))
    | None =>
        rec ← withStore (AssignRoomPartition roomID domain 600 partition);
        mret (match rec with Some r => Some (Some r) | None => None end)
    end.

Definition giveUp : ST Dest unit :=
  if String.eqb roomID "" then mret () else withStore (UnassignRoomPartition roomID domain).

(** The map forgets the room and domain, whatever object it holds. *)
Definition release : ST Dest unit :=
  _ ← modifyD (fun d => set_listed d None);
  withStore (OnRoomDomainRelease roomID domain).

(** From the head of the loop to the request. *)
Definition wake (now : Z) : ST Dest Phase :=
  got ← acquire;
  match got with
  | None => _ ← release; mret Exited
  | Some rec =>
      match host with
      | None => _ ← giveUp; mret Ready
      | Some destination =>
          n ← next now rec destination;
          q ← getQ;
          if isEmpty n && negb (running q) then _ ← release; mret Exited
          else
            match nTrans n with
            | Some t => if isEmpty n then _ ← giveUp; mret Ready else mret (InFlight t n rec)
            | None => _ ← giveUp; mret Ready
            end
      end
  end.

(** [s[n:]] panics when [n] is larger than the length. *)
Definition slice {A} (n : nat) (l : list A) : res (list A) :=
  if (n <=? length l)%nat then Ok (drop n l) else Panic.

Definition getMem : ST Dest (option RecordItem) := fun d => (Ok (mem (store d) !! key roomID domain), d).

(** After the request: [ok] is whether it was answered. *)
Definition finish (okay : bool) (t : Transaction) (n : NextResult) (rec : option RecordItem) : ST Dest Phase :=
  if negb okay then _ ← giveUp; mret Ready
  else
    _ ← modifyD (fun d => set_arrived d (arrived d ++ [t])%list);
    q ← getQ;
    evs ← liftR (slice (nUsePDU n) (pendingEvents q));
    _ ← modifyQ (fun q => set_pending q evs (pendingEDUs q));
    edus ← liftR (slice (nUseEDU n) (pendingEDUs q));
    _ ← modifyQ (fun q => set_pending q (pendingEvents q) edus);
    match rec, last (PDUs t) with
    | Some r, Some ev =>
        cur ← getMem;
        let off := Z.max (DomainOffset (default r cur)) (Event.DomainOffset ev + 1) in
        _ ← withStore (ok (UpdateDomainOffset roomID domain (nEventID n) off (nDecr n)));
        mret Ready
    | _, _ => mret Ready
    end.

(** ** Interleavings *)

Inductive Action :=
  | AEvent (ev : Ev)
  | AEDU (e : EDU)
  | AWake (g : nat) (now : Z)
  | AReply (g : nat) (okay : bool).

Definition setPhase (g : nat) (p : Phase) : ST Dest unit :=
  modifyD (fun d => set_workers d (<[g := (self d, p)]> (workers d))).

(** An action that does not fit the phase of its goroutine does nothing. *)
Definition act (a : Action) : ST Dest unit := fun d =>
  match a with
  | AEvent ev => processEvent ev d
  | AEDU e => processEdu e d
  | AWake g now =>
      match workers d !! g with
      | Some (i, Ready) => (p ← wake now; setPhase g p) (focus i d)
      | _ => (Ok (), d)
      end
  | AReply g okay =>
      match workers d !! g with
      | Some (i, InFlight t n rec) => (p ← finish okay t n rec; setPhase g p) (focus i d)
      | _ => (Ok (), d)
      end
  end.

Fixpoint acts (l : list Action) : ST Dest unit :=
  match l with
  | [] => mret ()
  | a :: l' => _ ← act a; acts l'
  end.

End Sending.

(** The requests that are under way. *)
Definition inFlight (d : Dest) : list Transaction :=
  omap (fun p => match p.2 with InFlight t _ _ => Some t | _ => None end) (workers d).

End FedQueue.
