(* ===== verification/FedQueueFacts.v ===== *)
(** * What arrives at a destination

    - Section [Drain]: one goroutine with a backlog.  [Backlog] is its state:
      the record agrees in its three places, points at the first event not yet
      sent, and counts the events from there on.
    - [backlog_drains]: when nothing new arrives, however requests fail in between, once
      enough of them are answered everything that waits has arrived, in order and once,
      and the goroutine has ended.
    - [overlapping_senders_panic]: an EDU makes [next] clear [running] while it
      is still to be sent; the next event starts a second goroutine, both send
      the EDU, and the second one to be answered slices past the end. *)

From Stdlib Require Import String Ascii ZArith List Permutation Sorted Lia.
From stdpp Require Import base tactics list gmap strings.
From S2P Require Import Prelude Snowflake Ids Event RoomState RoomTables RoomRows RoomQuery Backfill BackfillFacts SendRec FedQueue.

#[local] Open Scope string_scope.
#[local] Open Scope Z_scope.

Module FedQueueFacts.
Import RoomState RoomTables RoomRows RoomQuery BackfillFacts SendRec FedQueue.

Lemma upTo_take {A} (l : list A) i : 0 <= i -> upTo i l = take (Z.to_nat (52 - i) `max` 1) l.
Proof.
  revert i. induction l as [|v l IH]; intros i Hi; simpl; [by rewrite take_nil|].
  unfold MAX_SIZE. destruct (Z.ltb_spec 50 i).
  - replace (Z.to_nat (52 - i) `max` 1)%nat with 1%nat by lia. done.
  - rewrite IH by lia. replace (Z.to_nat (52 - i) `max` 1)%nat with (S (Z.to_nat (52 - (i + 1)) `max` 1)) by lia. done.
Qed.

Lemma upTo_first {A} (l : list A) : upTo 0 l = take 52 l.
Proof. by rewrite upTo_take by lia. Qed.

Lemma take_length_take {A} k (l : list A) : take (length (take k l)) l = take k l.
Proof.
  rewrite length_take. destruct (decide (k <= length l)%nat); [by rewrite Nat.min_l by lia|].
  rewrite Nat.min_r by lia. by rewrite !take_ge by lia.
Qed.

(** ** Events by domain offset *)

Section Offsets.
  Context `{SqlRows} `{Encryption} `{EventJSON}.
  #[local] Abbreviation Row := (Z * EventRow)%type.

(** The events of a domain in a room, oldest first, and those from an offset on. *)
Definition sent (t : Tables) (roomNID : Z) (domain : string) : list Row :=
  selectEvents (fun _ r => (e_room_nid r =? roomNID) && String.eqb (e_domain r) domain) nidAsc t.

Definition from (off : Z) (l : list Row) : list Row := List.filter (fun kv => off <=? e_offsets kv.2) l.

(** Offsets rise with the numbers. *)
Definition rising (l : list Row) : Prop := StronglySorted (fun a b : Row => e_offsets a.2 < e_offsets b.2) l.

Lemma from_elem off l kv : kv ∈ from off l <-> kv ∈ l /\ off <= e_offsets kv.2.
Proof using. unfold from. by rewrite !list_elem_of_In, filter_In, Z.leb_le. Qed.

Lemma from_sorted off l : rising l -> rising (from off l).
Proof using. apply sorted_filter. Qed.

Lemma from_from a b l : a <= b -> from b (from a l) = from b l.
Proof using.
  intros Hab. induction l as [|kv l IH]; [done|]. unfold from in *. simpl.
  destruct (Z.leb_spec a (e_offsets kv.2)); simpl; rewrite IH; [done|]. by rewrite (proj2 (Z.leb_gt _ _)) by lia.
Qed.

Lemma from_all off l : (forall kv, kv ∈ l -> off <= e_offsets kv.2) -> from off l = l.
Proof using.
  induction l as [|kv l IH]; intros Hl; [done|]. unfold from. simpl.
  rewrite (proj2 (Z.leb_le _ _)) by (apply Hl; left). f_equal. apply IH. set_solver.
Qed.

Lemma from_none off l : (forall kv, kv ∈ l -> e_offsets kv.2 < off) -> from off l = [].
Proof using.
  induction l as [|kv l IH]; intros Hl; [done|]. unfold from. simpl.
  rewrite (proj2 (Z.leb_gt _ _)) by (apply Hl; left). apply IH. set_solver.
Qed.

Lemma rising_split (a : list Row) kv b : rising (a ++ kv :: b) ->
  (forall x, x ∈ a -> e_offsets x.2 < e_offsets kv.2) /\ (forall x, x ∈ b -> e_offsets kv.2 < e_offsets x.2).
Proof using.
  unfold rising. induction a as [|y a IH]; simpl; intros [Hs Hy]%StronglySorted_inv; rewrite List.Forall_forall in Hy.
  - split; [set_solver|]. intros x Hx. by apply Hy, list_elem_of_In.
  - destruct (IH Hs) as [Ha Hb]. split; [|done]. intros x [->|Hx]%elem_of_cons; [|by apply Ha].
    apply (Hy kv), in_app_iff. right. by left.
Qed.

(** What follows a row is what is from the next offset on. *)
Lemma from_next (a : list Row) kv b : rising (a ++ kv :: b) -> from (e_offsets kv.2 + 1) (a ++ kv :: b) = b.
Proof using.
  intros [Ha Hb]%rising_split. unfold from. rewrite List.filter_app. fold (from (e_offsets kv.2 + 1) a).
  rewrite (from_none _ a) by (intros x Hx; pose proof (Ha x Hx); lia). simpl.
  rewrite (proj2 (Z.leb_gt _ _)) by lia. apply from_all. intros x Hx. pose proof (Hb x Hx). lia.
Qed.

(** The list from [p] on that starts at [off] is the one from [off] on. *)
Lemma from_head p off l kv rest : rising l -> from p l = kv :: rest -> e_offsets kv.2 = off -> from off l = kv :: rest.
Proof using.
  intros Hs Hp Ho. assert (p <= off).
  { assert (Hin : kv ∈ from p l) by (rewrite Hp; left). apply from_elem in Hin. lia. }
  rewrite <- (from_from p off) by done. rewrite Hp. pose proof (from_sorted p l Hs) as Hs'. rewrite Hp in Hs'.
  destruct (rising_split [] kv rest Hs') as [_ Hr]. apply from_all.
  intros x [->|Hx]%elem_of_cons; [lia|]. pose proof (Hr x Hx). lia.
Qed.

Lemma take_last_drop {A} k (l : list A) x : last (take k l) = Some x -> exists a, l = (a ++ x :: drop k l)%list.
Proof using.
  intros Hl. apply last_Some in Hl as [a Ha]. exists a. rewrite <- (take_drop k l) at 1. rewrite Ha, <- app_assoc. done.
Qed.

(** After the first [k] events the rest is from the offset after the last one. *)
Lemma from_step k off l kv : rising l -> last (take k (from off l)) = Some kv ->
  off <= e_offsets kv.2 /\ from (e_offsets kv.2 + 1) l = drop k (from off l).
Proof using.
  intros Hs Hl. destruct (take_last_drop _ _ _ Hl) as [a Ha].
  assert (Hin : kv ∈ from off l) by (rewrite Ha; set_solver). apply from_elem in Hin as [_ Ho]. split; [done|].
  rewrite <- (from_from off) by lia. pose proof (from_sorted off l Hs) as Hs'. rewrite Ha in Hs' |- * at 1.
  by apply from_next.
Qed.

Lemma last_in m off l e : last (take m (from off l)) = Some e -> e ∈ l.
Proof using.
  intros [a Ha]%last_Some. assert (Hin : e ∈ take m (from off l)) by (rewrite Ha; set_solver).
  apply elem_of_take in Hin as (i & Hi%list_elem_of_lookup_2 & _). by apply from_elem in Hi as [? _].
Qed.

Lemma rising_inj l a b : rising l -> a ∈ l -> b ∈ l -> e_offsets a.2 = e_offsets b.2 -> a = b.
Proof using.
  induction 1 as [|x l Hs IH Hx]; [set_solver|]. rewrite List.Forall_forall in Hx. setoid_rewrite <- list_elem_of_In in Hx.
  intros [->|Ha]%elem_of_cons [->|Hb]%elem_of_cons He; [done|pose proof (Hx _ Hb); lia|pose proof (Hx _ Ha); lia|by apply IH].
Qed.

Lemma rising_nodup l : rising l -> NoDup l.
Proof using.
  induction 1 as [|x l Hs IH Hx]; constructor; [|done]. rewrite List.Forall_forall in Hx.
  intros Hin%list_elem_of_In. specialize (Hx x Hin). lia.
Qed.

Lemma sent_elem t roomNID domain n r :
  (n, r) ∈ sent t roomNID domain <-> t_events t !! n = Some r /\ e_room_nid r = roomNID /\ e_domain r = domain.
Proof using. unfold sent. by rewrite selectEvents_elem, andb_true_iff, Z.eqb_eq, String.eqb_eq. Qed.

Lemma sent_rows t roomNID domain : rows_of t (sent t roomNID domain).
Proof using. intros [n r] Hin. by apply sent_elem in Hin as [? _]. Qed.

(** [ORDER BY offsets] gives the rows in the order of their numbers. *)
Lemma select_from t roomNID domain off : rising (sent t roomNID domain) ->
  selectEvents (fun _ r => (e_room_nid r =? roomNID) && String.eqb (e_domain r) domain && (off <=? e_offsets r)) offsetAsc t
  = from off (sent t roomNID domain).
Proof using.
  intros Hs. symmetry. apply (sorted_perm_unique offsetAsc).
  - intros x y Hx Hy. unfold offsetAsc. rewrite !Z.leb_le. intros Hxy Hyx.
    apply from_elem in Hx as [Hx _], Hy as [Hy _]. apply (rising_inj _ x y Hs Hx Hy). lia.
  - pose proof (from_sorted off _ Hs) as Hf. induction Hf as [|x l Hl IH Hx]; constructor; [done|].
    eapply Forall_impl; [exact Hx|]. intros y Hy. unfold offsetAsc. apply Z.leb_le. simpl in Hy. lia.
  - apply gosort_sorted; intros; unfold offsetAsc in *; rewrite ?Z.leb_le in *; lia.
  - apply NoDup_Permutation.
    + by apply rising_nodup, from_sorted.
    + apply (NoDup_fmap_1 fst), selectEvents_nodup.
    + intros [n r]. rewrite from_elem, selectEvents_elem, sent_elem, !andb_true_iff, Z.eqb_eq, String.eqb_eq, Z.leb_le.
      simpl. tauto.
Qed.

Lemma Events_same nids nids' c : faults c = [] -> (forall n, n ∈ nids <-> n ∈ nids') -> Events nids c = Events nids' c.
Proof using.
  intros Hu He. unfold Events. rewrite !query_up by done. unfold bulkRows, selectEvents, select.
  assert (Hf : forall l : list Row, List.filter (fun kv => bool_decide (kv.1 ∈ nids)) l =
                 List.filter (fun kv => bool_decide (kv.1 ∈ nids')) l).
  { intros l. apply List.filter_ext. intros [n r]. simpl. apply bool_decide_ext, He. }
  by rewrite Hf.
Qed.

(** The room server's answer to a request by offset. *)
Lemma offset_answer Repo roomID rs origin off id lim c :
  faults c = [] -> coherent (tabs c) -> Repo roomID = Some rs -> rising (sent (tabs c) (RoomNid rs) origin) ->
  QueryEventsByDomainOffset Repo (mkOffsetRequest roomID origin off id false lim) c =
  (Ok (mkBackfillResponse "" (map (dec (tabs c)) (limit lim (from off (sent (tabs c) (RoomNid rs) origin)))), None), c).
Proof using.
  intros Hu Hc Hr Hs. unfold QueryEventsByDomainOffset. cbn [oqRoomID oqDomain oqDomainOffset oqEventID oqUseEventID oqLimit].
  rewrite Hr. erewrite ST_bind_Ok by reflexivity. cbv iota. set (l := limit lim (from off (sent (tabs c) (RoomNid rs) origin))).
  assert (Hsub : forall kv, kv ∈ l -> kv ∈ sent (tabs c) (RoomNid rs) origin).
  { intros kv Hk. unfold l, limit in Hk. apply elem_of_take in Hk as (i & Hi%list_elem_of_lookup_2 & _).
    by apply from_elem in Hi as [? _]. }
  assert (Hl : StronglySorted below l).
  { unfold l, limit. apply sorted_firstn, sorted_filter, selectEvents_asc. }
  erewrite ST_bind_Ok.
  2:{ apply attempt_Ok. unfold SelectRoomEventsByDomainOffset. rewrite query_up by done. rewrite select_from by done.
      reflexivity. }
  cbv iota. erewrite ST_bind_Ok.
  2:{ apply attempt_Ok. rewrite (Events_same _ (map fst (rev l))); [|done|].
      - apply events_page; [done|done|by apply sorted_rev_below|]. intros kv Hk. rewrite elem_of_rev in Hk.
        exact (sent_rows (tabs c) (RoomNid rs) origin kv (Hsub kv Hk)).
      - intros n. unfold l, limit. rewrite firstn_map, map_rev. by rewrite elem_of_rev. }
  cbv iota. rewrite rev_involutive, map_map. done.
Qed.

End Offsets.

(** ** Draining a backlog *)

Section Drain.
  Context `{SqlRows} `{Encryption} `{EventJSON} `{GoRange}.
  Variables origin roomID domain dst : string.
  Variable rsRepo : string -> option RoomServerState.
  Variable partition : Z.
  Variable c : Conn DBEvent Tables.
  Variable rs : RoomServerState.
  Hypothesis Hroom : roomID <> "".
  Hypothesis Hup : faults c = [].
  Hypothesis Hco : coherent (tabs c).
  Hypothesis Hrs : rsRepo roomID = Some rs.
  #[local] Abbreviation hist := (sent (tabs c) (RoomNid rs) origin).
  #[local] Abbreviation ev := (dec (tabs c)).
  Hypothesis Hrise : rising hist.
  Hypothesis Hoff : forall kv, kv ∈ hist -> Event.DomainOffset (ev kv) = e_offsets kv.2 /\ 0 < e_offsets kv.2 < 2^31 - 1.

  #[local] Abbreviation k := (key roomID domain).
  #[local] Abbreviation Wake := (wake origin roomID domain rsRepo (Some dst) partition).
  #[local] Abbreviation Acts := (acts origin roomID domain rsRepo (Some dst) partition).

Definition pdusOf (d : Dest) : list Event.Event := concat (map PDUs (arrived d)).
Definition edusOf (d : Dest) : list EDU := concat (map EDUs (arrived d)).

(** The record of a room this process may send for. *)
Record holds (r : RecordItem) (s : Store) : Prop := {
  ho_agree : agree roomID domain (Some r) s;
  ho_own : pendingKey roomID domain ∈ assigned s \/ locks s !! k = None;
}.

Record Backlog (r : RecordItem) (d : Dest) : Prop := {
  bl_server : server d = c;
  bl_workers : workers d = [(self d, Ready)];
  bl_holds : holds r (store d);
  bl_times : 0 < SendTimes r /\ SendTimes r + Z.of_nat (length (from (DomainOffset r) hist)) < 2^31;
  bl_off : 0 < DomainOffset r;
  bl_size : PendingSize r = Z.of_nat (length (from (DomainOffset r) hist));
  bl_queue : exists p, pendingEvents (queue d) = map ev (from p hist);
}.

Lemma roomNE : String.eqb roomID "" = false.
Proof using Hroom. by apply String.eqb_neq. Qed.

Lemma acquire_up r d : holds r (store d) ->
  exists s1, acquire roomID domain partition d = (Ok (Some (Some r)), set_store d s1) /\
    agree roomID domain (Some r) s1 /\ pendingKey roomID domain ∈ assigned s1 /\ mem s1 !! k = Some r.
Proof using Hroom.
  intros [Hag Ho]. unfold acquire. rewrite roomNE.
  destruct (decide (pendingKey roomID domain ∈ assigned (store d))) as [Ha|Ha].
  - destruct (get_agrees roomID domain _ _ Hag) as (s1 & E & Hag1 & Hm & Has & _).
    exists s1. split_and!; [|done|by rewrite Has|by apply Hm].
    erewrite ST_bind_Ok.
    2:{ unfold withStore, HasAssgined. rewrite bool_decide_true by done. by erewrite ST_bind_Ok by exact E. }
    cbv iota. by erewrite ST_bind_Ok by reflexivity.
  - destruct Ho as [|Hl]; [done|].
    destruct (assign_agrees roomID domain 600 partition _ _ Hag) as (w & s1 & E & Hag1 & _ & Hw & Hm).
    specialize (Hw Hl). subst w. destruct (Hm ltac:(done)) as [Hm1 Ha1]. exists s1. split_and!; try done.
    erewrite ST_bind_Ok. 2:{ unfold withStore, HasAssgined. by rewrite bool_decide_false by done. }
    cbv iota. erewrite ST_bind_Ok. 2:{ unfold withStore. simpl. by rewrite E. } done.
Qed.

Lemma giveUp_up r d : agree roomID domain (Some r) (store d) ->
  exists s1, giveUp roomID domain d = (Ok (), set_store d s1) /\ holds r s1.
Proof using Hroom.
  intros Hag. unfold giveUp. rewrite roomNE.
  destruct (unassign_agrees roomID domain _ _ Hag) as (s1 & E & Hag1 & _ & Hl). exists s1.
  unfold withStore. rewrite E. split; [done|]. split; [done|by right].
Qed.

Lemma getPendingEvs_up off id lim d : server d = c -> 0 < off ->
  getPendingEvs origin roomID rsRepo off id lim d = (Ok (map ev (limit lim (from off hist))), d).
Proof using Hup Hco Hrs Hrise.
  intros Hs Ho. unfold getPendingEvs. rewrite (proj2 (Z.eqb_neq _ _)) by lia. cbn [andb].
  erewrite ST_bind_Ok. 2:{ unfold withServer. rewrite Hs. by erewrite (offset_answer rsRepo roomID rs). }
  destruct d. simpl in *. by subst.
Qed.

Lemma last_take_some m (l : list (Z * EventRow)) : (0 < m)%nat -> l <> [] ->
  exists e, last (map ev (take m l)) = Some e.
Proof using.
  intros Hm Hl. destruct (last (map ev (take m l))) as [e|] eqn:E; [by exists e|].
  apply last_None in E. destruct m, l; try lia; done.
Qed.

(** What [next] makes of the backlog. *)
Lemma next_pending now r d :
  server d = c -> 0 < SendTimes r -> 0 < DomainOffset r -> 0 < PendingSize r ->
  PendingSize r = Z.of_nat (length (from (DomainOffset r) hist)) ->
  (exists p, pendingEvents (queue d) = map ev (from p hist)) ->
  exists m use t q1, (0 < m)%nat /\ PDUs t = map ev (take m (from (DomainOffset r) hist)) /\
    EDUs t = take 52 (pendingEDUs (queue d)) /\
    next origin roomID domain rsRepo now (Some r) dst d =
      (Ok (mkNext (Some t) (match last (PDUs t) with Some e => Event.EventID e | None => "" end)
             (Z.of_nat (length (PDUs t))) use (length (EDUs t))), set_queue d q1) /\
    pendingEvents q1 = pendingEvents (queue d) /\ pendingEDUs q1 = pendingEDUs (queue d) /\ running q1 = running (queue d) /\
    (use = 0%nat \/ (use = length (PDUs t) /\ pendingEvents (queue d) = map ev (from (DomainOffset r) hist))).
Proof using Hroom Hup Hco Hrs Hrise Hoff.
  intros Hsv Hst Ho Hps Hsz [p Hp]. unfold next. erewrite ST_bind_Ok by reflexivity. rewrite roomNE.
  rewrite (proj2 (Z.eqb_neq _ _)) by lia. erewrite ST_bind_Ok by reflexivity. cbv iota.
  rewrite (proj2 (Z.ltb_lt _ _) Hps). unfold nextPending. erewrite ST_bind_Ok by reflexivity.
  set (fromQueue := match pendingEvents (queue d) with [] => [] | e :: _ => _ end).
  assert (Hq : fromQueue = [] \/ (fromQueue = take 52 (map ev (from (DomainOffset r) hist)) /\
                                   pendingEvents (queue d) = map ev (from (DomainOffset r) hist))).
  { unfold fromQueue. destruct (from p hist) as [|kv rest] eqn:Ef; rewrite Hp; simpl; [by left|].
    destruct (Z.eqb_spec (DomainOffset r) (Event.DomainOffset (ev kv))) as [He|]; [|by left]. right.
    assert (Hin : kv ∈ from p hist) by (rewrite Ef; left). apply from_elem in Hin as [Hin _].
    destruct (Hoff kv Hin) as [Hk _]. rewrite (from_head p _ hist kv rest Hrise Ef) by congruence.
    split; [|done]. exact (upTo_first (map ev (kv :: rest))). }
  assert (Hne : from (DomainOffset r) hist <> []) by (intros E; rewrite E in Hsz; simpl in Hsz; lia).
  destruct Hq as [->|[-> Hpe]].
  - cbn [length Nat.eqb]. set (sz := Z.min (PendingSize r) MAX_SIZE).
    assert (Hz : 0 < sz) by (unfold sz, MAX_SIZE; lia). rewrite (proj2 (Z.ltb_lt _ _) Hz).
    erewrite ST_bind_Ok by (by apply getPendingEvs_up). cbn [app].
    destruct (last_take_some (Z.to_nat sz) (from (DomainOffset r) hist)) as [e He]; [lia|done|].
    unfold limit. rewrite He. erewrite ST_bind_Ok by reflexivity.
    exists (Z.to_nat sz), 0%nat. eexists (newTransaction _ _ _ _ _ _), _. split; [lia|]. split; [reflexivity|].
    cbn [PDUs EDUs newTransaction]. rewrite He, upTo_first. split; [reflexivity|].
    split; [reflexivity|]. split_and!; [reflexivity..|by left].
  - assert (Hlen : (length (take 52 (map ev (from (DomainOffset r) hist))) =? 0)%nat = false).
    { apply Nat.eqb_neq. rewrite length_take, length_map. destruct (from (DomainOffset r) hist); simpl; [done|lia]. }
    rewrite Hlen. cbn [Z.ltb Z.compare]. erewrite ST_bind_Ok by reflexivity. rewrite app_nil_r, firstn_map.
    destruct (last_take_some 52 (from (DomainOffset r) hist)) as [e He]; [lia|done|].
    rewrite He. erewrite ST_bind_Ok by reflexivity.
    exists 52%nat. eexists _, (newTransaction _ _ _ _ _ _), _. split; [lia|]. split; [reflexivity|].
    cbn [PDUs EDUs newTransaction]. rewrite He, upTo_first. split; [reflexivity|].
    split; [reflexivity|]. split_and!; [reflexivity..|by right].
Qed.

Lemma next_idle now r d : 0 < SendTimes r -> PendingSize r = 0 ->
  next origin roomID domain rsRepo now (Some r) dst d =
    (Ok (onlyEDUs origin now dst (take 52 (pendingEDUs (queue d))) (queue d)), set_queue d (set_running (queue d) false)).
Proof using Hroom.
  intros Hst Hps. unfold next. erewrite ST_bind_Ok by reflexivity. rewrite roomNE.
  rewrite (proj2 (Z.eqb_neq _ _)) by lia. erewrite ST_bind_Ok by reflexivity. cbv iota.
  rewrite Hps. cbn [Z.ltb Z.compare]. erewrite ST_bind_Ok by reflexivity. by rewrite upTo_first.
Qed.

(** The state of a goroutine whose request is under way: [sends m t n]. *)
Record sends (r : RecordItem) (m : nat) (t : Transaction) (n : NextResult) (d : Dest) : Prop := {
  sd_pdus : PDUs t = map ev (take m (from (DomainOffset r) hist));
  sd_edus : EDUs t = take 52 (pendingEDUs (queue d));
  sd_decr : nDecr n = Z.of_nat (length (PDUs t));
  sd_useEDU : nUseEDU n = length (EDUs t);
  sd_use : nUsePDU n = 0%nat \/
    (nUsePDU n = length (PDUs t) /\ pendingEvents (queue d) = map ev (from (DomainOffset r) hist));
  sd_agree : agree roomID domain (Some r) (store d);
  sd_own : pendingKey roomID domain ∈ assigned (store d);
  sd_mem : mem (store d) !! k = Some r;
}.

(** Everything a step of the goroutine leaves alone. *)
Definition untouched (d d1 : Dest) : Prop :=
  server d1 = server d /\ arrived d1 = arrived d /\ pendingEvents (queue d1) = pendingEvents (queue d) /\
  pendingEDUs (queue d1) = pendingEDUs (queue d).

Definition stays (d d1 : Dest) : Prop := workers d1 = workers d /\ self d1 = self d.

(** Up to the request: the goroutine has something to send, or it ends. *)
Lemma wake_up now r d : Backlog r d ->
  exists ph d1, Wake now d = (Ok ph, d1) /\ untouched d d1 /\ stays d d1 /\
    ((exists m t n, ph = InFlight t n (Some r) /\ sends r m t n d1 /\
        ((0 < m)%nat /\ from (DomainOffset r) hist <> [] \/ m = 0%nat /\ EDUs t <> [])) \/
     (ph = Exited /\ from (DomainOffset r) hist = [] /\ pendingEDUs (queue d) = [] /\ running (queue d1) = false /\
      agree roomID domain (Some r) (store d1))).
Proof using Hroom Hup Hco Hrs Hrise Hoff.
  intros [Hsv Hw Hh [Hst _] Ho Hsz Hq].
  destruct (acquire_up r d Hh) as (s1 & Ea & Hag & Has & Hm). unfold wake. erewrite ST_bind_Ok by exact Ea. cbv iota.
  destruct (decide (from (DomainOffset r) hist = [])) as [He|He].
  - rewrite He in Hsz. simpl in Hsz. erewrite ST_bind_Ok by (by apply next_idle).
    erewrite ST_bind_Ok by reflexivity. cbn [queue set_queue set_store running set_running negb].
    destruct (pendingEDUs (queue d)) as [|e es] eqn:Ee.
    + cbn [onlyEDUs take isEmpty nTrans andb].
      destruct (release_agrees roomID domain _ _ Hag) as (s2 & Eu & Hag2).
      erewrite ST_bind_Ok. 2:{ unfold release. erewrite ST_bind_Ok by reflexivity. unfold withStore. cbn [store set_queue set_store set_listed]. by rewrite Eu. }
      eexists _, _. split; [reflexivity|]. split; [done|]. split; [done|]. right. by split_and!.
    + cbn [onlyEDUs take isEmpty nTrans andb PDUs EDUs newTransaction].
      eexists _, _. split; [reflexivity|]. split; [done|]. split; [done|]. left.
      exists 0%nat. eexists _, _. split; [reflexivity|]. split; [|by right].
      split; cbn [queue store set_queue set_store pendingEDUs set_running EDUs PDUs nDecr nUseEDU nUsePDU length]; try done.
      * by rewrite Ee.
      * by left.
  - assert (Hps : 0 < PendingSize r) by (rewrite Hsz; destruct (from (DomainOffset r) hist); [done|simpl; lia]).
    destruct (next_pending now r (set_store d s1) Hsv Hst Ho Hps Hsz Hq)
      as (m & use & t & q1 & Hm0 & Hpd & Hed & En & Hq1 & Hq2 & Hq3 & Huse).
    erewrite ST_bind_Ok by exact En. erewrite ST_bind_Ok by reflexivity. cbn [nTrans].
    destruct (last_take_some m _ Hm0 He) as [e Hl]. rewrite <- Hpd in Hl.
    assert (Hie : isEmpty (mkNext (Some t) (match last (PDUs t) with Some e => Event.EventID e | None => "" end)
             (Z.of_nat (length (PDUs t))) use (length (EDUs t))) = false).
    { cbn [isEmpty nTrans]. destruct (PDUs t); [done|done]. }
    rewrite Hie. cbn [andb]. eexists _, _. split; [reflexivity|]. split; [by split_and!|]. split; [done|]. left.
    eexists m, t, _. split; [reflexivity|]. split; [|by left].
    split; cbn [queue store set_queue set_store nDecr nUseEDU nUsePDU]; try done; by rewrite ?Hq1, ?Hq2.
Qed.

(** The step of the record that goes with an answered request. *)
Lemma advance_up r m e id s :
  agree roomID domain (Some r) s -> pendingKey roomID domain ∈ assigned s ->
  0 < SendTimes r /\ SendTimes r + Z.of_nat (length (from (DomainOffset r) hist)) < 2^31 ->
  PendingSize r = Z.of_nat (length (from (DomainOffset r) hist)) -> (0 < m)%nat ->
  last (take m (from (DomainOffset r) hist)) = Some e ->
  let pdus := take m (from (DomainOffset r) hist) in
  let off := Z.max (DomainOffset r) (e_offsets e.2 + 1) in
  let r1 := advanceRec id off (Z.of_nat (length pdus)) r in
  exists s1, UpdateDomainOffset roomID domain id off (Z.of_nat (length pdus)) s = (Ok (), s1) /\ holds r1 s1 /\
    from off hist = drop m (from (DomainOffset r) hist) /\
    (SendTimes r1 + Z.of_nat (length (from off hist)) < 2^31) /\ PendingSize r1 = Z.of_nat (length (from off hist)).
Proof using Hroom Hup Hco Hrs Hrise Hoff.
  intros Hag Has [Ht0 Ht] Hsz Hm Hl pdus off r1.
  destruct (from_step m (DomainOffset r) hist e Hrise Hl) as [Hle Hfr].
  assert (Hof : off = e_offsets e.2 + 1) by (unfold off; lia). rewrite <- Hof in Hfr.
  assert (Hin := last_in _ _ _ _ Hl).
  destruct (Hoff e Hin) as [_ He].
  assert (Hlen : (length pdus + length (from off hist) = length (from (DomainOffset r) hist))%nat).
  { rewrite Hfr. unfold pdus. rewrite length_take, length_drop. lia. }
  assert (Hpos : (0 < length pdus)%nat) by (unfold pdus; destruct (take m (from (DomainOffset r) hist)); [done|simpl; lia]).
  destruct (update_agrees roomID domain id off (Z.of_nat (length pdus)) (Some r) s Hag) as (s1 & E & Hag1 & Has1).
  { cbn [fits]. rewrite !andb_true_iff, Z.leb_le, !int4_spec. lia. }
  exists s1. split_and!; [done|split; [done|left; by rewrite Has1]|done|unfold r1; simpl; lia|unfold r1; simpl; lia].
Qed.

#[local] Abbreviation Finish := (finish roomID domain).

(** A request that is not answered changes nothing but the lock. *)
Lemma finish_lost r m t n d : sends r m t n d ->
  exists s1, Finish false t n (Some r) d = (Ok Ready, set_store d s1) /\ holds r s1.
Proof using Hroom.
  intros Hs. destruct (giveUp_up r d (sd_agree _ _ _ _ _ Hs)) as (s1 & E & Hh). exists s1. split; [|done].
  unfold finish. cbn [negb]. by erewrite ST_bind_Ok by exact E.
Qed.

Lemma slice_ok {A} n (l : list A) : (n <= length l)%nat -> slice n l = Ok (drop n l).
Proof using. intros Hn. unfold slice. by rewrite (proj2 (Nat.leb_le _ _) Hn). Qed.

(** The queue after an answered request. *)
Definition delivered (t : Transaction) (n : NextResult) (d : Dest) : Dest :=
  set_arrived (set_queue d
    (set_pending (queue d) (drop (nUsePDU n) (pendingEvents (queue d))) (drop (nUseEDU n) (pendingEDUs (queue d)))))
    (arrived d ++ [t])%list.

Lemma finish_queue t n r d :
  (nUsePDU n <= length (pendingEvents (queue d)))%nat -> (nUseEDU n <= length (pendingEDUs (queue d)))%nat ->
  mem (store d) !! k = Some r ->
  Finish true t n (Some r) d =
  match last (PDUs t) with
  | Some e => (_ ← withStore (ok (UpdateDomainOffset roomID domain (nEventID n)
                                    (Z.max (DomainOffset r) (Event.DomainOffset e + 1)) (nDecr n))); mret Ready) (delivered t n d)
  | None => (Ok Ready, delivered t n d)
  end.
Proof using.
  intros Hl1 Hl2 Hm. unfold finish. cbn [negb].
  erewrite ST_bind_Ok by reflexivity. erewrite ST_bind_Ok by reflexivity. cbn [queue set_arrived].
  erewrite ST_bind_Ok by (unfold liftR; by rewrite (slice_ok _ _ Hl1)). erewrite ST_bind_Ok by reflexivity.
  erewrite ST_bind_Ok by (unfold liftR; by rewrite (slice_ok _ _ Hl2)). erewrite ST_bind_Ok by reflexivity.
  change (set_queue _ _) with (delivered t n d). destruct (last (PDUs t)) as [e|]; [|done].
  erewrite ST_bind_Ok by reflexivity. cbn [store delivered set_arrived set_queue]. by rewrite Hm.
Qed.

(** What an answered request leaves behind. *)
Record answered (r : RecordItem) (m : nat) (t : Transaction) (d : Dest) (r1 : RecordItem) (d1 : Dest) : Prop := {
  an_server : server d1 = server d;
  an_workers : stays d d1;
  an_arrived : arrived d1 = (arrived d ++ [t])%list;
  an_edus : pendingEDUs (queue d1) = drop (length (EDUs t)) (pendingEDUs (queue d));
  an_queue : exists p, pendingEvents (queue d1) = map ev (from p hist);
  an_holds : holds r1 (store d1);
  an_from : from (DomainOffset r1) hist = drop m (from (DomainOffset r) hist);
  an_times : 0 < SendTimes r1 /\ SendTimes r1 + Z.of_nat (length (from (DomainOffset r1) hist)) < 2^31;
  an_size : PendingSize r1 = Z.of_nat (length (from (DomainOffset r1) hist));
  an_off : 0 < DomainOffset r1;
}.

Lemma finish_sent r m t n d :
  sends r m t n d -> 0 < SendTimes r /\ SendTimes r + Z.of_nat (length (from (DomainOffset r) hist)) < 2^31 ->
  PendingSize r = Z.of_nat (length (from (DomainOffset r) hist)) -> 0 < DomainOffset r ->
  (exists p, pendingEvents (queue d) = map ev (from p hist)) ->
  ((0 < m)%nat /\ from (DomainOffset r) hist <> [] \/ m = 0%nat /\ EDUs t <> []) ->
  exists r1 d1, Finish true t n (Some r) d = (Ok Ready, d1) /\ answered r m t d r1 d1.
Proof using Hroom Hup Hco Hrs Hrise Hoff.
  intros [Hpd Hed Hdc Hue Huse Hag Has Hmem] Ht Hsz Ho [p Hp] Hcase.
  rewrite finish_queue with (r := r); [|destruct Huse as [->|[-> ->]]; [lia|rewrite Hpd, !length_map, length_take; lia]|
    rewrite Hue, Hed, length_take; lia|done].
  destruct Hcase as [[Hm Hne]|[-> Hne]].
  - destruct (last (take m (from (DomainOffset r) hist))) as [e|] eqn:Hl.
    2:{ apply last_None in Hl. destruct (from (DomainOffset r) hist); [done|]. by destruct m; [lia|]. }
    rewrite Hpd, (fmap_last ev _ : last (map ev _) = _), Hl. cbn [fmap option_fmap option_map].
    destruct (Hoff e (last_in _ _ _ _ Hl)) as [Hoe Hob]. rewrite Hoe, Hdc, Hpd, length_map.
    destruct (advance_up r m e (nEventID n) (store d) Hag Has Ht Hsz Hm Hl) as (s1 & Eu & Hh & Hfr & Ht1 & Hp1).
    eexists _, _. split; [erewrite ST_bind_Ok; [reflexivity|]; unfold withStore, ok; cbn [store delivered set_arrived set_queue]; by rewrite Eu|].
    split; cbn [delivered set_arrived set_queue server workers arrived queue pendingEDUs pendingEvents set_pending store set_store];
      [done..|by rewrite Hue| |exact Hh|done|split; [simpl; lia|done]|done|simpl; lia].
    destruct Huse as [->|[-> Hpe]]; [by exists p|]. exists (Z.max (DomainOffset r) (e_offsets e.2 + 1)).
    rewrite Hfr, Hpe, Hpd, length_map, length_take, skipn_map. f_equal. destruct (decide (m <= length (from (DomainOffset r) hist))%nat).
    + by rewrite Nat.min_l by lia.
    + by rewrite Nat.min_r, !drop_ge by lia.
  - rewrite Hpd. cbn [take map last]. exists r. eexists. split; [reflexivity|].
    split; cbn [delivered set_arrived set_queue server workers arrived queue pendingEDUs pendingEvents set_pending store]; try done.
    + by rewrite Hue.
    + exists p. destruct Huse as [->|[-> _]]; [done|]. by rewrite Hpd.
    + split; [done|by left].
Qed.

(** ** Rounds *)

Definition round (now : Z) (okay : bool) : list Action := [AWake 0 now; AReply 0 okay].
Definition rounds (l : list (Z * bool)) : list Action := flat_map (fun a => round a.1 a.2) l.

Lemma acts_app l1 l2 d d1 : Acts l1 d = (Ok (), d1) -> Acts (l1 ++ l2) d = Acts l2 d1.
Proof using.
  revert d. induction l1 as [|a l1 IH]; intros d Ha; cbn [acts app] in *; [by injection Ha as ->|].
  apply ST_bind_inv in Ha as (u & d2 & E & Ha). erewrite ST_bind_Ok by exact E. by apply IH.
Qed.

Lemma focus_self d : focus (self d) d = d.
Proof using. unfold focus. by rewrite Nat.eqb_refl. Qed.

Lemma act_wake now d ph d1 : workers d = [(self d, Ready)] -> Wake now d = (Ok ph, d1) -> stays d d1 ->
  act origin roomID domain rsRepo (Some dst) partition (AWake 0 now) d = (Ok (), set_workers d1 [(self d1, ph)]).
Proof using.
  intros Hw E [Hw1 _]. unfold act. rewrite Hw. cbn [lookup list_lookup]. rewrite focus_self.
  erewrite ST_bind_Ok by exact E. unfold setPhase, modifyD. by rewrite Hw1, Hw.
Qed.

Lemma act_reply okay t n rec d ph d1 : workers d = [(self d, InFlight t n rec)] -> Finish okay t n rec d = (Ok ph, d1) ->
  stays d d1 ->
  act origin roomID domain rsRepo (Some dst) partition (AReply 0 okay) d = (Ok (), set_workers d1 [(self d1, ph)]).
Proof using.
  intros Hw E [Hw1 _]. unfold act. rewrite Hw. cbn [lookup list_lookup]. rewrite focus_self.
  erewrite ST_bind_Ok by exact E. unfold setPhase, modifyD. by rewrite Hw1, Hw.
Qed.

(** What a round moves from the backlog to the destination. *)
Definition moved (r : RecordItem) (d : Dest) (r1 : RecordItem) (d1 : Dest) : Prop := exists m e,
  from (DomainOffset r1) hist = drop m (from (DomainOffset r) hist) /\
  pdusOf d1 = (pdusOf d ++ map ev (take m (from (DomainOffset r) hist)))%list /\
  pendingEDUs (queue d1) = drop e (pendingEDUs (queue d)) /\
  edusOf d1 = (edusOf d ++ take e (pendingEDUs (queue d)))%list.

Definition waiting (r : RecordItem) (d : Dest) : nat :=
  (length (from (DomainOffset r) hist) + length (pendingEDUs (queue d)))%nat.

Lemma round_step now okay r d : Backlog r d ->
  exists d1, Acts (round now okay) d = (Ok (), d1) /\
    ((exists r1, Backlog r1 d1 /\ moved r d r1 d1 /\ (okay = true -> waiting r1 d1 < waiting r d)%nat) \/
     (map snd (workers d1) = [Exited] /\ from (DomainOffset r) hist = [] /\ untouched d d1 /\ pendingEDUs (queue d) = [] /\
      running (queue d1) = false /\ agree roomID domain (Some r) (store d1))).
Proof using Hroom Hup Hco Hrs Hrise Hoff.
  intros HB. pose proof HB as [Hsv Hw Hh Ht Ho Hsz Hq].
  destruct (wake_up now r d HB) as (ph & d0 & Ew & (Hu1 & Hu2 & Hu3 & Hu4) & Hw0 & Hph).
  unfold round. cbn [acts]. erewrite ST_bind_Ok by (apply act_wake; [done|exact Ew|done]).
  destruct Hph as [(m & t & n & -> & Hs & Hcase)|(-> & He & Hpe & Hrun & Hag)].
  2:{ erewrite ST_bind_Ok by reflexivity. eexists. split; [reflexivity|]. by right. }
  set (d2 := set_workers d0 [(self d0, InFlight t n (Some r))]). assert (Hs2 : sends r m t n d2) by (by destruct Hs).
  destruct okay.
  - destruct (finish_sent r m t n d2 Hs2 Ht Hsz Ho) as (r1 & d3 & Ef & Han); [by rewrite <- Hu3 in Hq|done|].
    destruct Han as [A1 A2 A3 A4 A5 A6 A7 A8 A9 A10].
    erewrite ST_bind_Ok by (eapply act_reply; [reflexivity|exact Ef|done]).
    eexists. split; [reflexivity|]. left. exists r1. split; [|split].
    + split; cbn [server workers store queue set_workers]; try done. rewrite A1. simpl. by rewrite Hu1.
    + exists m, (length (EDUs t)). unfold pdusOf, edusOf.
      cbn [arrived set_workers queue]. rewrite A3, A4. simpl. rewrite Hu2, Hu4, !map_app, !concat_app. simpl.
      rewrite !app_nil_r. split_and!; [done|by rewrite (sd_pdus _ _ _ _ _ Hs)|done|].
      rewrite (sd_edus _ _ _ _ _ Hs), Hu4. by rewrite take_length_take.
    + intros _. unfold waiting. cbn [queue set_workers]. rewrite A4, A7, !length_drop. simpl. rewrite Hu4.
      pose proof (sd_edus _ _ _ _ _ Hs) as He. rewrite Hu4 in He. destruct Hcase as [[Hm Hne]|[-> Hne]].
      * destruct (from (DomainOffset r) hist); [done|]. simpl. lia.
      * rewrite He. destruct (pendingEDUs (queue d)); [by rewrite take_nil in He|]. rewrite length_take. simpl. lia.
  - destruct (finish_lost r m t n d2 Hs2) as (s1 & Ef & Hh1).
    erewrite ST_bind_Ok by (eapply act_reply; [reflexivity|exact Ef|done]).
    eexists. split; [reflexivity|]. left. exists r. split; [|split; [|done]].
    + split; cbn [server workers store queue set_workers set_store d2]; try done; [by rewrite Hu1|]. by rewrite Hu3.
    + exists 0%nat, 0%nat. unfold pdusOf, edusOf. simpl. by rewrite Hu2, Hu4, !drop_0, !app_nil_r.
Qed.

Lemma exited_idle l d : map snd (workers d) = [Exited] -> Acts (rounds l) d = (Ok (), d).
Proof using.
  intros Hw. induction l as [|[now okay] l IH]; [done|]. change (rounds ((now, okay) :: l)) with (round now okay ++ rounds l)%list.
  erewrite acts_app; [exact IH|]. unfold round. cbn [acts].
  destruct (workers d) as [|[i ph] [|? ?]] eqn:Ew; try done. injection Hw as ->.
  erewrite ST_bind_Ok by (unfold act; by rewrite Ew). by erewrite ST_bind_Ok by (unfold act; by rewrite Ew).
Qed.

(** C19: The backlog of one goroutine arrives. One goroutine is ready, no event
    arrives meanwhile, something was sent to the destination before, and the record is
    the same in memory, cache and table and counts the stored events from its offset
    on. Then whatever requests fail, once more requests are answered than events and
    EDUs wait, everything that waited has arrived, in order, each event once, and the
    goroutine has ended with nothing left to send. *)
Theorem backlog_drains (l : list (Z * bool)) (r : RecordItem) (d : Dest) :
  Backlog r d -> (waiting r d < length (List.filter snd l))%nat ->
  exists d1, Acts (rounds l) d = (Ok (), d1) /\ map snd (workers d1) = [Exited] /\ running (queue d1) = false /\
    pdusOf d1 = (pdusOf d ++ map ev (from (DomainOffset r) hist))%list /\
    edusOf d1 = (edusOf d ++ pendingEDUs (queue d))%list /\ pendingEDUs (queue d1) = [] /\
    exists r1, agree roomID domain (Some r1) (store d1) /\ PendingSize r1 = 0.
Proof using Hroom Hup Hco Hrs Hrise Hoff.
  revert r d. induction l as [|[now okay] l IH]; intros r d HB Hl; [simpl in Hl; lia|].
  change (rounds ((now, okay) :: l)) with (round now okay ++ rounds l)%list.
  destruct (round_step now okay r d HB) as (d1 & E & [(r1 & HB1 & (m & e & M1 & M2 & M3 & M4) & Hlt)|
    (Hw & He & (_ & Ha & _ & Hpe1) & Hpe & Hrun & Hag)]).
  - assert (Hw1 : (waiting r1 d1 < length (List.filter snd l))%nat).
    { simpl in Hl. destruct okay; simpl in Hl; [specialize (Hlt eq_refl); lia|].
      enough (waiting r1 d1 <= waiting r d)%nat by lia. unfold waiting. rewrite M1, M3, !length_drop. lia. }
    destruct (IH r1 d1 HB1 Hw1) as (d2 & E2 & H2w & H2r & H2p & H2e & H2n & H2x).
    exists d2. rewrite (acts_app _ _ _ _ E). split_and!; try done.
    + rewrite H2p, M2, M1, <- app_assoc, <- map_app. by rewrite take_drop.
    + rewrite H2e, M4, M3, <- app_assoc. by rewrite take_drop.
  - exists d1. rewrite (acts_app _ _ _ _ E), exited_idle by done. unfold pdusOf, edusOf. rewrite Ha, He, Hpe1, Hpe.
    simpl. rewrite !app_nil_r. split_and!; try done. exists r. split; [done|]. by rewrite (bl_size _ _ HB), He.
Qed.

End Drain.

(** ** The first transaction *)

Section First.
  Context `{SqlRows} `{Encryption} `{EventJSON} `{GoRange}.

Lemma dropStates_keeps off l : off <> 0 -> (dropStates off l).1 = List.filter (fun e => Event.DomainOffset e <? off) l.
Proof using.
  intros Ho. induction l as [|e l IH]; simpl; [done|]. destruct (dropStates off l) as [kept id]. simpl in IH.
  rewrite (proj2 (Z.eqb_neq _ _) Ho). cbn [negb andb].
  destruct (Z.leb_spec off (Event.DomainOffset e)); simpl; subst kept.
  - by rewrite (proj2 (Z.ltb_ge _ _)) by lia.
  - by rewrite (proj2 (Z.ltb_lt _ _)) by lia.
Qed.

(** The state a new destination is sent lacks events of other domains: the first
    transaction leaves out every state event whose domain offset reaches the
    record's, also those of other domains, whose offsets count something else and
    which are not sent later either. *)
Theorem first_transaction_drops_state (origin roomID domain dst : string) (rsRepo : string -> option RoomServerState)
    (now : Z) (r : RecordItem) (states : list Event.Event) (d : Dest) :
  roomID <> "" -> SendTimes r = 0 -> DomainOffset r <> 0 ->
  getStateEvs roomID domain rsRepo d = (Ok (Some states), d) ->
  exists n t d1, next origin roomID domain rsRepo now (Some r) dst d = (Ok n, d1) /\ nTrans n = Some t /\
    PDUs t = List.filter (fun e => Event.DomainOffset e <? DomainOffset r) states /\
    nUsePDU n = 0%nat /\ nDecr n = 0.
Proof using.
  intros Hr Hs Ho Hg. unfold next. erewrite ST_bind_Ok by reflexivity. rewrite (proj2 (String.eqb_neq _ _) Hr), Hs.
  cbn [Z.eqb]. erewrite ST_bind_Ok by exact Hg. cbv iota. unfold nextState. erewrite ST_bind_Ok by reflexivity.
  erewrite ST_bind_Ok by reflexivity. cbv iota. pose proof (dropStates_keeps (DomainOffset r) states Ho) as Hk.
  destruct (dropStates (DomainOffset r) states) as [kept id]. simpl in Hk. subst kept.
  erewrite ST_bind_Ok by reflexivity. eexists _, _, _. split; [reflexivity|]. by split_and!.
Qed.

End First.

(** ** Concrete runs *)

#[local] Existing Instances BackfillFacts.exScan BackfillFacts.exJSON.

Definition exRec (sendTimes pendingSize domainOffset : Z) : RecordItem := mkRecordItem "" sendTimes pendingSize domainOffset.

Definition exStore (r : RecordItem) : Store :=
  mkStore ∅ {[key "!r:a" "b" := r]} {[pendingKey "!r:a" "b"]} ∅ {[("!r:a", "b") := r]} ∅ [].

Definition exDest (r : RecordItem) (edus : list EDU) (workers : list Phase) : Dest :=
  mkDest (mkQueue (negb (length workers =? 0)%nat) 0 [] [] edus) 0 [newQueue] (Some 0%nat) (exStore r) (exConn exHistory)
    (map (pair 0%nat) workers) [].

Definition exEDU : EDU := mkEDU "typing" "a" "b" "{}".

(** Two requests are under way at once, and the process ends.  The comment of
    [destinationQueue] promises one request at a time, but [next] clears [running]
    when only EDUs are left, before they are sent.  An event that arrives while
    the EDU is under way starts a second goroutine, which sends the EDU again;
    when both requests are answered, the second one slices the emptied list of
    EDUs out of range and panics. *)
Theorem overlapping_senders_panic (e : EDU) :
  let run l := acts "a" "!r:a" "b" (fun _ => Some exRoom) (Some "host") 1 l in
  let r := run [AEDU e; AWake 0 1; AEvent exInvite; AWake 1 2] (exDest (exRec 1 0 3) [] []) in
  r.1 = Ok () /\ map EDUs (inFlight r.2) = [[e]; [e]] /\ (run [AReply 0 true; AReply 1 true] r.2).1 = Panic.
Proof. cbv zeta. split_and!; vm_compute; reflexivity. Qed.

(** Two stored events and an EDU, one request lost. *)
Lemma backlog_drains_witness :
  let d := exDest (exRec 1 2 1) [exEDU] [Ready] in
  exists d1, acts "a" "!r:a" "b" (fun _ => Some exRoom) (Some "host") 1
      (rounds [(1, false); (2, true); (3, true); (4, true); (5, true)]) d = (Ok (), d1) /\
    map snd (workers d1) = [Exited] /\ pdusOf d1 = take 2 exHistory /\ edusOf d1 = [exEDU].
Proof.
  intros d.
  assert (Hh : exists a b, sent (tabs (exConn exHistory)) 7 "a" = [a; b] /\ e_offsets a.2 = 1 /\ e_offsets b.2 = 2 /\
    dec (tabs (exConn exHistory)) a = nth 0 exHistory exInvite /\ dec (tabs (exConn exHistory)) b = nth 1 exHistory exInvite).
  { eexists _, _. split; [vm_compute; reflexivity|]. split_and!; vm_compute; reflexivity. }
  destruct Hh as (a & b & Hh & Ha & Hb & Hma & Hmb).
  destruct (backlog_drains "a" "!r:a" "b" "host" (fun _ => Some exRoom) 1 (exConn exHistory) exRoom
              ltac:(done) eq_refl ltac:(by apply coherent_check) eq_refl) with
    (l := [(1, false); (2, true); (3, true); (4, true); (5, true)]) (r := exRec 1 2 1) (d := d)
    as (d1 & E & Hw & _ & Hp & He & _).
  - change (RoomNid exRoom) with 7. rewrite Hh. repeat constructor; simpl; lia.
  - intros kv. change (RoomNid exRoom) with 7. rewrite Hh. intros [->|[->|Hn]%elem_of_cons]%elem_of_cons;
      [rewrite Hma, Ha; simpl; lia|rewrite Hmb, Hb; simpl; lia|by apply elem_of_nil in Hn].
  - split; try done.
    + split; [|by right]. split; [done|left; by vm_compute|right; by vm_compute|left; by vm_compute|]. intros r _ _. simpl. set_solver.
    + exists 3. change (RoomNid exRoom) with 7. rewrite Hh. unfold from. simpl. by rewrite Ha, Hb.
  - unfold waiting. change (RoomNid exRoom) with 7. rewrite Hh. unfold from. simpl. rewrite Ha, Hb. simpl. lia.
  - exists d1. by split_and!.
Defined.

Lemma first_transaction_drops_state_witness :
  let remote := Event.mkEvent "!r:a" "$9:c" 9 9 "@v:c" "m.room.topic" (Some "") "" "" 1 "" 0 "c" "" in
  let creator := hd exInvite exHistory in
  let room := set_slots exRoom (let s := noSlots in
                mkSlots (Some creator) (sJoinRule s) (sHistoryVisibility s) (sVisibility s) (sName s) (Some remote)
                  (sDesc s) (sCanonicalAlias s) (sAlias s) (sPower s) (sGuestAccess s) (sAvatar s) (sPin s)) in
  exists n t d1, next "a" "!r:a" "b" (fun _ => Some room) 1 (Some (exRec 0 1 3)) "host" (exDest (exRec 0 1 3) [] [Ready]) = (Ok n, d1) /\
    nTrans n = Some t /\ PDUs t = [creator].
Proof.
  intros remote creator room.
  destruct (first_transaction_drops_state "a" "!r:a" "b" "host" (fun _ => Some room) 1 (exRec 0 1 3) [creator; remote]
              (exDest (exRec 0 1 3) [] [Ready])) as (n & t & d1 & E & Hn & Hp & _); [done..|vm_compute; reflexivity|].
  by exists n, t, d1.
Defined.

End FedQueueFacts.
