(* ===== verification/CanonJson.v ===== *)
(** * Canonical JSON

    [src/skunkworks/gomatrixserverlib/json.go]: the encoding of JSON that is hashed
    and signed.  [CanonicalJSON] checks the text, removes whitespace and needless
    escapes ([CompactJSON]) and sorts the members of objects ([SortJSON]).

    Bytes are numbers from 0 to 255.  An index into the input is modelled by the
    bytes from it on, so that [len(input) - index] is the length of what is left,
    and the bytes that are appended to [output] are returned.  Reading past the end
    panics.

    The library [gjson] is outside the repository: [GJson] is what the code calls of
    it, and [Result] what it gives back; [Raw] is the text of a value, which
    [rawJSONFromResult] cuts out of the input or copies. *)

From Stdlib Require Import String ZArith List.
From stdpp Require Import base tactics list.
From S2P Require Import Prelude.

#[local] Open Scope Z_scope.

Module CanonJson.

Abbreviation bytes := (list Z).

(** ** UTF-8 *)

(** [utf8.EncodeRune]: what is no character becomes U+FFFD. *)
Definition EncodeRune (r0 : Z) : bytes :=
  let r := if (r0 <? 0) || (0x10FFFF <? r0) || ((0xD800 <=? r0) && (r0 <=? 0xDFFF)) then 0xFFFD else r0 in
  if r <=? 0x7F then [r]
  else if r <=? 0x7FF then [Z.lor 0xC0 (Z.shiftr r 6); Z.lor 0x80 (Z.land r 0x3F)]
  else if r <=? 0xFFFF then
    [Z.lor 0xE0 (Z.shiftr r 12); Z.lor 0x80 (Z.land (Z.shiftr r 6) 0x3F); Z.lor 0x80 (Z.land r 0x3F)]
  else
    [Z.lor 0xF0 (Z.shiftr r 18); Z.lor 0x80 (Z.land (Z.shiftr r 12) 0x3F);
     Z.lor 0x80 (Z.land (Z.shiftr r 6) 0x3F); Z.lor 0x80 (Z.land r 0x3F)].

(** ** Compacting *)

(** [uint32]. *)
Definition wrapU32 (z : Z) : Z := z mod 2^32.

Definition readHexDigits (input : bytes) : res Z :=
  match input with
  | a :: b :: c :: d :: _ =>
      let hex := ((a * 256 + b) * 256 + c) * 256 + d in
      let hex := wrapU32 (hex - 0x30303030) in
      let hex := Z.land hex 0x1F1F1F1F in
      let mask := Z.land hex 0x10101010 in
      let hex := wrapU32 (hex - Z.shiftr mask 1) in
      let hex := wrapU32 (hex + Z.shiftr mask 4) in
      let hex := Z.lor hex (Z.shiftr hex 4) in
      let hex := Z.land hex 0xFF00FF in
      let hex := Z.lor hex (Z.shiftr hex 8) in
      Ok (Z.land hex 0xFFFF)
  | _ => Panic
  end.

(** The constants [ESCAPES] and [HEX]. *)
Definition ESCAPES : bytes :=
  [117; 117; 117; 117; 117; 117; 117; 117; 98; 116; 110; 117; 102; 114; 117; 117;
   117; 117; 117; 117; 117; 117; 117; 117; 117; 117; 117; 117; 117; 117; 117; 117].
Definition HEX : bytes := [48; 49; 50; 51; 52; 53; 54; 55; 56; 57; 65; 66; 67; 68; 69; 70].

Definition index (l : bytes) (i : Z) : res Z := deref (l !! Z.to_nat i).

(** The bytes written, and the input that is left. *)
Definition compactUnicodeEscape (input : bytes) : res (bytes * bytes) :=
  if (length input <? 4)%nat then Ok ([], [])
  else
    c ← readHexDigits input;
    let input1 := drop 4 input in
    if c <? 32 then
      escape ← index ESCAPES c;
      if escape =? 117 then
        h ← index HEX (Z.land c 0xF);
        Ok ([92; escape; 48; 48; 48 + Z.shiftr c 4; h], input1)
      else Ok ([92; escape], input1)
    else if (c =? 92) || (c =? 34) then Ok ([92; c], input1)
    else if (c <? 0xD800) || (0xE000 <=? c) then Ok (EncodeRune c, input1)
    else if (length input1 <? 6)%nat then Ok ([], [])
    else
      surrogate ← readHexDigits (drop 2 input1);
      let codepoint := 0x10000 + Z.lor (Z.shiftl (Z.land c 0x3FF) 10) (Z.land surrogate 0x3FF) in
      Ok (EncodeRune codepoint, drop 6 input1).

Definition appendOut (out : bytes) (r : res bytes) : res bytes := rest ← r; Ok (out ++ rest).

(** The two loops: [inString] says which one runs. *)
Fixpoint compact (fuel : nat) (inString : bool) (input : bytes) : res bytes :=
  match fuel, input with
  | _, [] => Ok []
  | O, _ => Diverge
  | S fuel', c :: rest =>
      if negb inString then
        if c <=? 32 then compact fuel' false rest
        else appendOut [c] (compact fuel' (c =? 34) rest)
      else if c =? 92 then
        match rest with
        | [] => Panic
        | escape :: rest1 =>
            if escape =? 117 then
              p ← compactUnicodeEscape rest1;
              appendOut p.1 (compact fuel' true p.2)
            else if escape =? 47 then appendOut [escape] (compact fuel' true rest1)
            else appendOut [92; escape] (compact fuel' true rest1)
        end
      else appendOut [c] (compact fuel' (negb (c =? 34)) rest)
  end.

Definition CompactJSON (input : bytes) : res bytes := compact (length input) false input.

(** ** Sorting *)

#[warnings="-register-all"]
Inductive Result :=
  | RLeaf (Raw : bytes)
  | RArray (Raw : bytes) (values : list Result)
  | RObject (Raw : bytes) (entries : list (bytes * bytes * Result)).

Class GJson := {
  Valid : bytes -> bool;
  ParseBytes : bytes -> Result;
}.

(** The order of Go strings. *)
Fixpoint bytes_leb (a b : bytes) : bool :=
  match a, b with
  | [], _ => true
  | _ :: _, [] => false
  | x :: a', y :: b' => (x <? y) || ((x =? y) && bytes_leb a' b')
  end.

(** Parts behind [open] and then commas, ended by [close]. *)
Fixpoint joined (sep : Z) (parts : list bytes) : bytes :=
  match parts with
  | [] => []
  | p :: rest => sep :: p ++ joined 44 rest
  end.

Definition enclose (open close : Z) (parts : list bytes) : bytes :=
  match parts with
  | [] => [open; close]
  | _ => joined open parts ++ [close]
  end.

(** An entry: the key, its raw text, the value (here already sorted: the order
    looks at the keys only). *)
Abbreviation entry := (bytes * bytes * bytes)%type.
Definition entry_leb (a b : entry) : bool := bytes_leb a.1.1 b.1.1.
Definition printEntry (e : entry) : bytes := e.1.2 ++ [58] ++ e.2.

Fixpoint sortJSONValue (input : Result) : bytes :=
  match input with
  | RArray _ values => enclose 91 93 (map sortJSONValue values)
  | RObject _ entries =>
      enclose 123 125 (map printEntry (gosort entry_leb (map (fun e => (e.1, sortJSONValue e.2)) entries)))
  | RLeaf Raw => Raw
  end.

Section Canonical.
  Context `{GJson}.

Definition SortJSON (input : bytes) : bytes := sortJSONValue (ParseBytes input).

Definition CanonicalJSONAssumeValid (input : bytes) : res bytes :=
  b ← CompactJSON input; Ok (SortJSON b).

Definition CanonicalJSON (input : bytes) : res bytes :=
  if negb (Valid input) then Err (ErrMsg "invalid json"%string) else CanonicalJSONAssumeValid input.

End Canonical.

End CanonJson.
