(* ===== verification/CanonBytes.v ===== *)
(** * Bytes of canonical JSON

    The bit tricks of [readHexDigits] compute the value of four hex digits
    ([readHexDigits_spec]), and [EncodeRune] gives the UTF-8 encoding of a
    character, which can be decoded again ([decodeChar_utf8]) and is in the order of
    the characters ([utf8_order]). *)

From Stdlib Require Import ZArith List Lia.
From stdpp Require Import base tactics list.
From S2P Require Import Prelude CanonJson.

#[local] Open Scope Z_scope.

Module CanonBytes.
Import CanonJson.

(** ** Bits of numbers in a positional system *)

Section Digits.
  Variables (k x y x' y' : Z).
  Hypotheses (Hk : 0 <= k) (Hy : 0 <= y < 2^k) (Hy' : 0 <= y' < 2^k).

Lemma testbit_cat n : 0 <= n ->
  Z.testbit (x * 2^k + y) n = if n <? k then Z.testbit y n else Z.testbit x (n - k).
Proof using Hk Hy.
  intros Hn. destruct (Z.ltb_spec n k) as [Hl|Hl].
  - rewrite <- (Z.mod_pow2_bits_low (x * 2^k + y) k n) by lia.
    by rewrite Z.add_comm, Z_mod_plus_full, Z.mod_small by lia.
  - rewrite <- (Z.sub_add k n) at 1. rewrite <- Z.div_pow2_bits by lia.
    by rewrite Z.add_comm, Z.div_add, Z.div_small, Z.add_0_l by lia.
Qed.

End Digits.

Lemma digit_bits k y n : 0 <= k -> 0 <= y < 2^k -> k <= n -> Z.testbit y n = false.
Proof. intros Hk [H1 H2] Hn. by apply (proj1 (Z.bounded_iff_bits_nonneg k y Hk H1)). Qed.

Section Combine.
  Variables (k x y x' y' : Z).
  Hypotheses (Hk : 0 <= k) (Hy : 0 <= y < 2^k) (Hy' : 0 <= y' < 2^k).

Lemma land_cat : Z.land (x * 2^k + y) (x' * 2^k + y') = Z.land x x' * 2^k + Z.land y y'.
Proof using Hk Hy Hy'.
  assert (Hn : 0 <= Z.land y y') by (apply Z.land_nonneg; lia).
  assert (Hl : 0 <= Z.land y y' < 2^k).
  { split; [done|]. apply Z.bounded_iff_bits_nonneg; [done..|]. intros n ?. by rewrite Z.land_spec, (digit_bits k y). }
  apply Z.bits_inj'. intros n ?. rewrite Z.land_spec, !testbit_cat by lia. destruct (n <? k); by rewrite Z.land_spec.
Qed.

Lemma lor_cat : Z.lor (x * 2^k + y) (x' * 2^k + y') = Z.lor x x' * 2^k + Z.lor y y'.
Proof using Hk Hy Hy'.
  assert (Hn : 0 <= Z.lor y y') by (apply Z.lor_nonneg; lia).
  assert (Hl : 0 <= Z.lor y y' < 2^k).
  { split; [done|]. apply Z.bounded_iff_bits_nonneg; [done..|]. intros n ?.
    by rewrite Z.lor_spec, (digit_bits k y), (digit_bits k y'). }
  apply Z.bits_inj'. intros n ?. rewrite Z.lor_spec, !testbit_cat by lia. destruct (n <? k); by rewrite Z.lor_spec.
Qed.

End Combine.

(** Bits that do not meet. *)
Lemma lor_high k x y : 0 <= k -> 0 <= y < 2^k -> Z.lor (x * 2^k) y = x * 2^k + y.
Proof.
  intros Hk Hy. rewrite <- (Z.add_0_r (x * 2^k)) at 1. change y with (0 * 2^k + y) at 1.
  rewrite lor_cat by lia. by rewrite Z.lor_0_r, Z.lor_0_l.
Qed.

(** ** Hex digits *)

Definition hexVal (b : Z) : option Z :=
  if (48 <=? b) && (b <=? 57) then Some (b - 48)
  else if (65 <=? b) && (b <=? 70) then Some (b - 55)
  else if (97 <=? b) && (b <=? 102) then Some (b - 87)
  else None.

Definition word4 (a b c d : Z) : Z := ((a * 256 + b) * 256 + c) * 256 + d.

Lemma land_word4 a b c d a' b' c' d' :
  0 <= b < 256 -> 0 <= c < 256 -> 0 <= d < 256 -> 0 <= b' < 256 -> 0 <= c' < 256 -> 0 <= d' < 256 ->
  Z.land (word4 a b c d) (word4 a' b' c' d') = word4 (Z.land a a') (Z.land b b') (Z.land c c') (Z.land d d').
Proof. intros. unfold word4. change 256 with (2^8) in *. by rewrite !land_cat by lia. Qed.

Lemma lor_word4 a b c d a' b' c' d' :
  0 <= b < 256 -> 0 <= c < 256 -> 0 <= d < 256 -> 0 <= b' < 256 -> 0 <= c' < 256 -> 0 <= d' < 256 ->
  Z.lor (word4 a b c d) (word4 a' b' c' d') = word4 (Z.lor a a') (Z.lor b b') (Z.lor c c') (Z.lor d d').
Proof. intros. unfold word4. change 256 with (2^8) in *. by rewrite !lor_cat by lia. Qed.

(** One digit: what the mask leaves of it, and which bit tells letters. *)
Lemma hex_byte b v : hexVal b = Some v ->
  48 <= b < 256 /\ 0 <= v < 16 /\ exists t, 0 <= t <= 1 /\ t <= v /\
    Z.land (b - 48) 31 = v + 7 * t /\ Z.land (v + 7 * t) 16 = 16 * t.
Proof.
  unfold hexVal. intros Hv.
  destruct (Z.leb_spec 48 b), (Z.leb_spec b 57); simpl in Hv.
  1: { injection Hv as <-. repeat split; try lia. exists 0.
       assert (b = 48 \/ b = 49 \/ b = 50 \/ b = 51 \/ b = 52 \/ b = 53 \/ b = 54 \/ b = 55 \/ b = 56 \/ b = 57) as Hb by lia.
       repeat destruct Hb as [->|Hb]; try subst b; done. }
  all: destruct (Z.leb_spec 65 b), (Z.leb_spec b 70); simpl in Hv; try lia.
  1: { injection Hv as <-. repeat split; try lia. exists 1.
       assert (b = 65 \/ b = 66 \/ b = 67 \/ b = 68 \/ b = 69 \/ b = 70) as Hb by lia.
       repeat destruct Hb as [->|Hb]; try subst b; done. }
  all: destruct (Z.leb_spec 97 b), (Z.leb_spec b 102); simpl in Hv; try lia; try done.
  injection Hv as <-. repeat split; try lia. exists 1.
  assert (b = 97 \/ b = 98 \/ b = 99 \/ b = 100 \/ b = 101 \/ b = 102) as Hb by lia.
  repeat destruct Hb as [->|Hb]; try subst b; done.
Qed.

(** Collecting the nibbles. *)
Lemma collect_nibbles p q r s : 0 <= p < 16 -> 0 <= q < 16 -> 0 <= r < 16 -> 0 <= s < 16 ->
  let hex := Z.lor (word4 p q r s) (Z.shiftr (word4 p q r s) 4) in
  let hex := Z.land hex 0xFF00FF in
  Z.land (Z.lor hex (Z.shiftr hex 8)) 0xFFFF = ((p * 16 + q) * 16 + r) * 16 + s.
Proof.
  intros Hp Hq Hr Hs. cbv zeta.
  assert (E1 : Z.shiftr (word4 p q r s) 4 = word4 0 (p * 16) (q * 16) (r * 16)).
  { rewrite Z.shiftr_div_pow2 by lia. unfold word4. Z.to_euclidean_division_equations. lia. }
  assert (Hn : forall a b, 0 <= a < 16 -> 0 <= b < 16 -> Z.lor a (b * 16) = b * 16 + a).
  { intros a b Ha Hb. rewrite Z.lor_comm. by apply (lor_high 4). }
  rewrite E1, lor_word4, !Hn by lia. change 0xFF00FF with (word4 0 255 0 255). rewrite land_word4 by lia.
  assert (Hb : forall a, 0 <= a < 256 -> Z.land a 255 = a).
  { intros a Ha. change 255 with (Z.ones 8). rewrite Z.land_ones, Z.mod_small by lia. done. }
  rewrite !Hb, !Z.land_0_r by lia.
  assert (E2 : Z.shiftr (word4 0 (p * 16 + q) 0 (r * 16 + s)) 8 = word4 0 0 (p * 16 + q) 0).
  { rewrite Z.shiftr_div_pow2 by lia. unfold word4. Z.to_euclidean_division_equations. lia. }
  rewrite E2, lor_word4 by lia. rewrite !Z.lor_0_l, !Z.lor_0_r.
  change 0xFFFF with (word4 0 0 255 255). rewrite land_word4 by lia. rewrite !Z.land_0_r, !Hb by lia. unfold word4. lia.
Qed.

Lemma readHexDigits_spec a b c d p q r s rest :
  hexVal a = Some p -> hexVal b = Some q -> hexVal c = Some r -> hexVal d = Some s ->
  readHexDigits (a :: b :: c :: d :: rest) = Ok (((p * 16 + q) * 16 + r) * 16 + s).
Proof.
  intros (Ha & Hp & t & Ht & Ht1 & Ea & Ma)%hex_byte (Hb & Hq & u & Hu & Hu1 & Eb & Mb)%hex_byte
    (Hc & Hr & v & Hv & Hv1 & Ec & Mc)%hex_byte (Hd & Hs & w & Hw & Hw1 & Ed & Md)%hex_byte.
  unfold readHexDigits, wrapU32. cbv zeta. f_equal.
  replace (((a * 256 + b) * 256 + c) * 256 + d - 0x30303030) with (word4 (a - 48) (b - 48) (c - 48) (d - 48)) by (unfold word4; lia).
  rewrite (Z.mod_small (word4 (a - 48) _ _ _)) by (unfold word4; lia).
  change 0x1F1F1F1F with (word4 31 31 31 31). rewrite land_word4, Ea, Eb, Ec, Ed by lia.
  change 0x10101010 with (word4 16 16 16 16). rewrite land_word4, Ma, Mb, Mc, Md by lia.
  replace (Z.shiftr (word4 (16 * t) (16 * u) (16 * v) (16 * w)) 1) with (word4 (8 * t) (8 * u) (8 * v) (8 * w)).
  2:{ rewrite Z.shiftr_div_pow2 by lia. unfold word4. Z.to_euclidean_division_equations. lia. }
  replace (Z.shiftr (word4 (16 * t) (16 * u) (16 * v) (16 * w)) 4) with (word4 t u v w).
  2:{ rewrite Z.shiftr_div_pow2 by lia. unfold word4. Z.to_euclidean_division_equations. lia. }
  rewrite (Z.mod_small (_ - _)) by (unfold word4; lia).
  replace (word4 _ _ _ _ - word4 _ _ _ _ + word4 _ _ _ _) with (word4 p q r s) by (unfold word4; lia).
  rewrite Z.mod_small by (unfold word4; lia). by apply collect_nibbles.
Qed.

(** ** UTF-8 *)

(** Characters: code points that are no surrogates. *)
Definition scalar (c : Z) : bool :=
  (0 <=? c) && (c <=? 0x10FFFF) && negb ((0xD800 <=? c) && (c <=? 0xDFFF)).

Definition utf8 (c : Z) : bytes :=
  if c <=? 0x7F then [c]
  else if c <=? 0x7FF then [192 + c / 64; 128 + c mod 64]
  else if c <=? 0xFFFF then [224 + c / 4096; 128 + c / 64 mod 64; 128 + c mod 64]
  else [240 + c / 262144; 128 + c / 4096 mod 64; 128 + c / 64 mod 64; 128 + c mod 64].

Lemma scalar_range c : scalar c = true -> 0 <= c <= 0x10FFFF /\ ~ (0xD800 <= c <= 0xDFFF).
Proof. unfold scalar. rewrite !andb_true_iff, negb_true_iff, andb_false_iff, !Z.leb_le, !Z.leb_gt. lia. Qed.

Lemma EncodeRune_utf8 c : scalar c = true -> EncodeRune c = utf8 c.
Proof.
  intros Hs. pose proof (scalar_range c Hs) as [Hr Hn]. unfold EncodeRune.
  rewrite (proj2 (Z.ltb_ge c 0)), (proj2 (Z.ltb_ge 0x10FFFF c)) by lia. cbn [orb].
  assert (Hsur : (0xD800 <=? c) && (c <=? 0xDFFF) = false) by (apply andb_false_iff; rewrite !Z.leb_gt; lia).
  rewrite Hsur. unfold utf8.
  assert (Hlow : forall z, Z.lor 0x80 (Z.land z 0x3F) = 128 + z mod 64).
  { intros z. change 0x3F with (Z.ones 6). rewrite Z.land_ones by lia. change (2^6) with 64.
    apply (lor_high 6 2); [lia|]. apply Z.mod_pos_bound. lia. }
  rewrite !Hlow, !Z.shiftr_div_pow2 by lia. change (2^6) with 64. change (2^12) with 4096. change (2^18) with 262144.
  destruct (Z.leb_spec c 0x7F); [done|]. destruct (Z.leb_spec c 0x7FF).
  { f_equal. apply (lor_high 5 6); [lia|]. Z.to_euclidean_division_equations. lia. }
  destruct (Z.leb_spec c 0xFFFF).
  - f_equal. apply (lor_high 4 14); [lia|]. Z.to_euclidean_division_equations. lia.
  - f_equal. apply (lor_high 3 30); [lia|]. Z.to_euclidean_division_equations. lia.
Qed.

Definition decodeChar (b : bytes) : option (Z * bytes) :=
  match b with
  | x :: r =>
      if x <? 128 then Some (x, r)
      else if x <? 224 then
        match r with y :: r => Some ((x - 192) * 64 + (y - 128), r) | _ => None end
      else if x <? 240 then
        match r with y :: z :: r => Some (((x - 224) * 64 + (y - 128)) * 64 + (z - 128), r) | _ => None end
      else
        match r with
        | y :: z :: w :: r => Some ((((x - 240) * 64 + (y - 128)) * 64 + (z - 128)) * 64 + (w - 128), r)
        | _ => None
        end
  | [] => None
  end.

Lemma decodeChar_utf8 c rest : scalar c = true -> decodeChar (utf8 c ++ rest) = Some (c, rest).
Proof.
  intros Hs%scalar_range. unfold utf8. destruct (Z.leb_spec c 0x7F); [|destruct (Z.leb_spec c 0x7FF); [|destruct (Z.leb_spec c 0xFFFF)]].
  all: cbn [decodeChar app]; repeat (case (Z.ltb_spec _ _); intros).
  all: try (exfalso; Z.to_euclidean_division_equations; lia).
  all: f_equal; f_equal; Z.to_euclidean_division_equations; lia.
Qed.

(** The bytes of a character: an ASCII character alone, or bytes from 128 on. *)
Lemma utf8_high c b : scalar c = true -> 128 <= c -> b ∈ utf8 c -> 128 <= b < 256.
Proof.
  intros Hs%scalar_range Hc Hb. unfold utf8 in Hb.
  destruct (Z.leb_spec c 0x7F); [lia|]. destruct (Z.leb_spec c 0x7FF); [|destruct (Z.leb_spec c 0xFFFF)];
    rewrite !elem_of_cons, elem_of_nil in Hb; Z.to_euclidean_division_equations; lia.
Qed.

Lemma bytes_leb_cons x y a b : bytes_leb (x :: a) (y :: b) = (x <? y) || ((x =? y) && bytes_leb a b).
Proof. done. Qed.

Lemma bytes_leb_app p a b : bytes_leb (p ++ a) (p ++ b) = bytes_leb a b.
Proof. induction p as [|x p IH]; [done|]. cbn [app bytes_leb]. by rewrite Z.ltb_irrefl, Z.eqb_refl, IH. Qed.

(** A smaller character has smaller bytes, whatever follows. *)
Lemma utf8_less c d a b : scalar c = true -> scalar d = true -> c < d ->
  bytes_leb (utf8 c ++ a) (utf8 d ++ b) = true /\ bytes_leb (utf8 d ++ b) (utf8 c ++ a) = false.
Proof.
  intros Hc%scalar_range Hd%scalar_range Hlt. unfold utf8.
  destruct (Z.leb_spec c 0x7F); [|destruct (Z.leb_spec c 0x7FF); [|destruct (Z.leb_spec c 0xFFFF)]];
    (destruct (Z.leb_spec d 0x7F); [|destruct (Z.leb_spec d 0x7FF); [|destruct (Z.leb_spec d 0xFFFF)]]); try lia.
  all: cbn [app]; rewrite !bytes_leb_cons; split.
  all: repeat (case (Z.ltb_spec _ _); intros; cbn [orb andb]; try done).
  all: repeat (case (Z.eqb_spec _ _); intros; cbn [orb andb]; try done).
  all: try (exfalso; Z.to_euclidean_division_equations; lia).
Qed.

Definition encode (s : list Z) : bytes := flat_map utf8 s.

Lemma utf8_ne c : utf8 c <> [].
Proof. unfold utf8. by repeat case_match. Qed.

(** Sorting by bytes is sorting by code points. *)
Lemma utf8_order s t : forallb scalar s = true -> forallb scalar t = true ->
  bytes_leb (encode s) (encode t) = bytes_leb s t.
Proof.
  revert t. induction s as [|c s IH]; intros [|d t] Hs Ht; try done.
  - cbn [encode flat_map bytes_leb]. pose proof (utf8_ne c). by destruct (utf8 c).
  - cbn [forallb] in Hs, Ht. apply andb_true_iff in Hs as [Hc Hs], Ht as [Hd Ht].
    cbn [encode flat_map]. rewrite bytes_leb_cons. destruct (Z.lt_trichotomy c d) as [Hl|[->|Hl]].
    + rewrite (proj2 (Z.ltb_lt _ _) Hl). by apply utf8_less.
    + rewrite Z.ltb_irrefl, Z.eqb_refl, bytes_leb_app. by apply IH.
    + rewrite (proj2 (Z.ltb_ge _ _)), (proj2 (Z.eqb_neq _ _)) by lia. by apply utf8_less.
Qed.

End CanonBytes.
