(* ===== verification/CanonText.v ===== *)
(** * Texts of JSON values

    A JSON value (its literals are [true], [false], [null] and numbers, a number being the
    way it is written) has many texts: whitespace, escapes and the order of members are
    free.  [text v b] says that [b] is one of them.  [CompactJSON] brings every text
    of a value into the same form ([compact_text]), and that form determines the
    value: [parseVal] reads it back ([parse_compact]). *)

From Stdlib Require Import ZArith List Lia.
From stdpp Require Import base tactics list.
From S2P Require Import Prelude CanonJson CanonBytes.

#[local] Open Scope Z_scope.

Module CanonText.
Import CanonJson CanonBytes.

(** ** Values and their texts *)

(** Numbers, [true], [false] and [null] are kept as they are written ([literal]). *)
#[warnings="-register-all"]
Inductive json :=
  | JLit (l : bytes)
  | JStr (s : list Z)
  | JArr (l : list json)
  | JObj (l : list (list Z * json)).

Definition litByte (b : Z) : bool :=
  (b =? 43) || (b =? 45) || (b =? 46) || ((48 <=? b) && (b <=? 57)) ||
  ((65 <=? b) && (b <=? 90)) || ((97 <=? b) && (b <=? 122)).

(** The grammar of numbers: an optional sign, an integer without leading zeros, a
    fraction, an exponent. *)
Definition digit (b : Z) : bool := (48 <=? b) && (b <=? 57).

Fixpoint skipDigits (l : bytes) : bytes :=
  match l with
  | d :: r => if digit d then skipDigits r else l
  | [] => []
  end.

Definition digits1 (l : bytes) : bool := match l with d :: r => digit d && forallb digit r | [] => false end.

Definition exponent (l : bytes) : bool :=
  match l with
  | [] => true
  | e :: r =>
      ((e =? 69) || (e =? 101)) &&
      match r with
      | s :: r1 => if (s =? 43) || (s =? 45) then digits1 r1 else digits1 r
      | [] => false
      end
  end.

Definition fraction (l : bytes) : bool :=
  match l with
  | p :: r => if p =? 46 then match r with d :: r1 => digit d && exponent (skipDigits r1) | [] => false end else exponent l
  | [] => true
  end.

Definition unsigned (l : bytes) : bool :=
  match l with
  | d :: r => if d =? 48 then fraction r else digit d && fraction (skipDigits r)
  | [] => false
  end.

Definition number (l : bytes) : bool :=
  match l with
  | m :: r => if m =? 45 then unsigned r else unsigned l
  | [] => false
  end.

(** The texts of [null], [true], [false] and of numbers. *)
Definition literal (l : bytes) : bool :=
  bool_decide (l = [110; 117; 108; 108]) || bool_decide (l = [116; 114; 117; 101]) ||
  bool_decide (l = [102; 97; 108; 115; 101]) || number l.

Definition isWs (b : Z) : bool := (b =? 9) || (b =? 10) || (b =? 13) || (b =? 32).

(** The ways to write a character in a string. *)
Definition digits4 (h : bytes) (z : Z) : Prop :=
  exists a b c d p q r s, h = [a; b; c; d] /\ hexVal a = Some p /\ hexVal b = Some q /\ hexVal c = Some r /\
    hexVal d = Some s /\ z = ((p * 16 + q) * 16 + r) * 16 + s.

(** The letters of the short escapes. *)
Definition shortEscapes : list (Z * Z) := [(34, 34); (92, 92); (8, 98); (9, 116); (10, 110); (12, 102); (13, 114)].

Inductive spells : Z -> bytes -> Prop :=
  | sp_raw c : scalar c = true -> 32 <= c -> c <> 34 -> c <> 92 -> spells c (utf8 c)
  | sp_short c e : (c, e) ∈ shortEscapes -> spells c [92; e]
  | sp_slash : spells 47 [92; 47]
  | sp_hex c h : scalar c = true -> digits4 h c -> spells c (92 :: 117 :: h)
  | sp_pair c hi lo h1 h2 : scalar c = true -> 0xFFFF < c -> digits4 h1 hi -> digits4 h2 lo ->
      hi = 0xD800 + (c - 0x10000) / 1024 -> lo = 0xDC00 + (c - 0x10000) mod 1024 ->
      spells c (92 :: 117 :: h1 ++ 92 :: 117 :: h2).

Inductive spelled : list Z -> bytes -> Prop :=
  | spelled_nil : spelled [] []
  | spelled_cons c b s bs : spells c b -> spelled s bs -> spelled (c :: s) (b ++ bs).

Inductive text : json -> bytes -> Prop :=
  | text_lit l : literal l = true -> text (JLit l) l
  | text_str s b : spelled s b -> text (JStr s) (34 :: b ++ [34])
  | text_arr vs b : elems vs b -> text (JArr vs) (91 :: b ++ [93])
  | text_obj ms b : members ms b -> text (JObj ms) (123 :: b ++ [125])
  | text_ws v w1 b w2 : forallb isWs w1 = true -> forallb isWs w2 = true -> text v b -> text v (w1 ++ b ++ w2)
with elems : list json -> bytes -> Prop :=
  | elems_nil w : forallb isWs w = true -> elems [] w
  | elems_one v b : text v b -> elems [v] b
  | elems_more v b u vs bs : text v b -> elems (u :: vs) bs -> elems (v :: u :: vs) (b ++ 44 :: bs)
with members : list (list Z * json) -> bytes -> Prop :=
  | members_nil w : forallb isWs w = true -> members [] w
  | members_one k kb v b : text (JStr k) kb -> text v b -> members [(k, v)] (kb ++ 58 :: b)
  | members_more k kb v b m ms bs : text (JStr k) kb -> text v b -> members (m :: ms) bs ->
      members ((k, v) :: m :: ms) (kb ++ 58 :: b ++ 44 :: bs).

Scheme text_min := Minimality for text Sort Prop
with elems_min := Minimality for elems Sort Prop
with members_min := Minimality for members Sort Prop.
Combined Scheme text_mutind from text_min, elems_min, members_min.

(** What a literal is made of. *)
Lemma digit_lit b : digit b = true -> litByte b = true.
Proof. unfold litByte. fold (digit b). intros ->. by rewrite !orb_true_r. Qed.

Lemma digits_lit l : forallb digit l = true -> forallb litByte l = true.
Proof. rewrite !forallb_forall. intros Hl x Hx. by apply digit_lit, Hl. Qed.

Lemma skip_lit l : forallb litByte (skipDigits l) = true -> forallb litByte l = true.
Proof.
  induction l as [|d r IH]; [done|]. cbn [skipDigits]. destruct (digit d) eqn:Ed; [|done].
  intros Hr. cbn [forallb]. by rewrite (digit_lit d Ed), IH.
Qed.

Lemma digits1_lit l : digits1 l = true -> forallb litByte l = true.
Proof.
  destruct l as [|d r]; [done|]. cbn [digits1 forallb]. intros [Hd Hr]%andb_true_iff. by rewrite digit_lit, digits_lit.
Qed.

Lemma exponent_lit l : exponent l = true -> forallb litByte l = true.
Proof.
  destruct l as [|e r]; [done|]. cbn [exponent]. rewrite andb_true_iff, orb_true_iff, !Z.eqb_eq. intros [He Hr].
  assert (Hb : litByte e = true) by (by destruct He as [-> | ->]). cbn [forallb]. rewrite Hb. simpl.
  destruct r as [|s r]; [done|]. destruct ((s =? 43) || (s =? 45)) eqn:Es; [|by apply digits1_lit].
  apply orb_true_iff in Es. rewrite !Z.eqb_eq in Es. cbn [forallb]. rewrite (digits1_lit r Hr). by destruct Es as [-> | ->].
Qed.

Lemma fraction_lit l : fraction l = true -> forallb litByte l = true.
Proof.
  destruct l as [|p r]; [done|]. unfold fraction. destruct (Z.eqb_spec p 46) as [->|Hp]; [|apply exponent_lit].
  destruct r as [|d r]; [done|]. intros [Hd Hr]%andb_true_iff. cbn [forallb].
  by rewrite (digit_lit d Hd), (skip_lit r (exponent_lit _ Hr)).
Qed.

Lemma unsigned_lit l : unsigned l = true -> forallb litByte l = true /\ l <> [].
Proof.
  destruct l as [|d r]; [done|]. cbn [unsigned]. intros Hl. split; [|done]. destruct (Z.eqb_spec d 48) as [->|Hd].
  - cbn [forallb]. by rewrite fraction_lit.
  - apply andb_true_iff in Hl as [Hl Hr]. cbn [forallb]. by rewrite (digit_lit d Hl), (skip_lit r (fraction_lit _ Hr)).
Qed.

Lemma literal_bytes l : literal l = true -> forallb litByte l = true /\ l <> [].
Proof.
  unfold literal. rewrite !orb_true_iff, !bool_decide_eq_true. intros [[[-> | ->]| ->]|Hn]; [done..|].
  destruct l as [|m r]; [done|]. cbn [number] in Hn. destruct (Z.eqb_spec m 45) as [->|Hm]; [|by apply unsigned_lit].
  split; [|done]. cbn [forallb]. by rewrite (proj1 (unsigned_lit r Hn)).
Qed.

(** ** The compact form *)

Definition canonChar (c : Z) : bytes :=
  if c <? 32 then
    let e := nth (Z.to_nat c) ESCAPES 0 in
    if e =? 117 then [92; 117; 48; 48; 48 + c / 16; nth (Z.to_nat (c mod 16)) HEX 0] else [92; e]
  else if (c =? 34) || (c =? 92) then [92; c]
  else utf8 c.

Definition canonStr (s : list Z) : bytes := 34 :: flat_map canonChar s ++ [34].

Fixpoint compactOf (v : json) : bytes :=
  match v with
  | JLit l => l
  | JStr s => canonStr s
  | JArr vs => enclose 91 93 (map compactOf vs)
  | JObj ms => enclose 123 125 (map (fun m => canonStr m.1 ++ [58] ++ compactOf m.2) ms)
  end.

(** ** The loops of [CompactJSON] *)

Lemma emit_emit a b r : appendOut a (appendOut b r) = appendOut (a ++ b) r.
Proof. destruct r; simpl; try done. by rewrite app_assoc. Qed.

Lemma emit_nil r : appendOut [] r = r.
Proof. by destruct r. Qed.

Lemma escape_shorter b p : compactUnicodeEscape b = Ok p -> (length p.2 <= length b)%nat.
Proof.
  unfold compactUnicodeEscape. case_match; [intros [= <-]; simpl; lia|].
  intros (c & _ & Hp)%bind_Ok. repeat case_match; simplify_eq; simpl; rewrite ?length_drop; try lia.
  all: apply bind_Ok in Hp as (x & _ & Hp); repeat case_match; simplify_eq; simpl; rewrite ?length_drop; try lia.
  apply bind_Ok in Hp as (y & _ & Hp). simplify_eq. simpl. rewrite length_drop. lia.
Qed.

(** The fuel does not matter once it reaches the length of the input. *)
Lemma compact_fuel n m s b : (length b <= n)%nat -> (length b <= m)%nat -> compact n s b = compact m s b.
Proof.
  revert m s b. induction n as [|n IH]; intros [|m] s [|c b] Hn Hm; simpl in Hn, Hm; try lia; try done.
  cbn [compact]. destruct s; cbn [negb].
  - case_match; [|f_equal; apply IH; lia]. destruct b as [|e b]; [done|]. simpl in Hn, Hm.
    case_match; [|case_match; f_equal; apply IH; lia].
    destruct (compactUnicodeEscape b) as [p| | |] eqn:E; simpl; try done. apply escape_shorter in E.
    f_equal. apply IH; lia.
  - case_match; [apply IH; lia|f_equal; apply IH; lia].
Qed.

(** The loops without fuel. *)
Definition run (inString : bool) (b : bytes) : res bytes := compact (length b) inString b.

Lemma run_nil s : run s [] = Ok [].
Proof. done. Qed.

Lemma run_out c b : run false (c :: b) = if c <=? 32 then run false b else appendOut [c] (run (c =? 34) b).
Proof. done. Qed.

Lemma run_byte c b : c <> 92 -> run true (c :: b) = appendOut [c] (run (negb (c =? 34)) b).
Proof. intros Hc. unfold run. cbn [length compact negb]. by rewrite (proj2 (Z.eqb_neq _ _) Hc). Qed.

Lemma compact_escape n e b : compact (S n) true (92 :: e :: b) =
  if e =? 117 then p ← compactUnicodeEscape b; appendOut p.1 (compact n true p.2)
  else if e =? 47 then appendOut [e] (compact n true b)
  else appendOut [92; e] (compact n true b).
Proof. done. Qed.

Lemma run_escape e b : e <> 117 -> run true (92 :: e :: b) = appendOut (if e =? 47 then [e] else [92; e]) (run true b).
Proof.
  intros He. unfold run. cbn [length]. rewrite compact_escape, (proj2 (Z.eqb_neq _ _) He).
  case_match; f_equal; apply compact_fuel; simpl; lia.
Qed.

Lemma run_unicode b p : compactUnicodeEscape b = Ok p -> run true (92 :: 117 :: b) = appendOut p.1 (run true p.2).
Proof.
  intros E. unfold run. cbn [length]. rewrite compact_escape, Z.eqb_refl, E. cbn [mbind res_bind]. f_equal.
  apply escape_shorter in E. apply compact_fuel; simpl; lia.
Qed.

(** ** Characters *)

Lemma canon_ascii c : 32 <= c < 128 -> c <> 34 -> c <> 92 -> canonChar c = [c].
Proof.
  intros Hc H1 H2. unfold canonChar. rewrite (proj2 (Z.ltb_ge _ _)), (proj2 (Z.eqb_neq _ _) H1), (proj2 (Z.eqb_neq _ _) H2) by lia.
  unfold utf8. by rewrite (proj2 (Z.leb_le _ _)) by lia.
Qed.

Lemma canon_high c : 128 <= c -> canonChar c = utf8 c.
Proof.
  intros Hc. unfold canonChar. by rewrite (proj2 (Z.ltb_ge _ _)), !(proj2 (Z.eqb_neq _ _)) by lia.
Qed.

(** Bytes that are copied inside a string. *)
Lemma run_copies l b : Forall (fun x => x <> 34 /\ x <> 92) l -> run true (l ++ b) = appendOut l (run true b).
Proof.
  induction 1 as [|x l [H1 H2] _ IH]; [by rewrite emit_nil|].
  rewrite <- app_comm_cons, run_byte, (proj2 (Z.eqb_neq _ _) H1) by done. cbn [negb]. by rewrite IH, emit_emit.
Qed.

Lemma raw_copies c : scalar c = true -> 32 <= c -> c <> 34 -> c <> 92 -> Forall (fun x => x <> 34 /\ x <> 92) (utf8 c).
Proof.
  intros Hs Hc H1 H2. destruct (decide (c < 128)).
  - unfold utf8. rewrite (proj2 (Z.leb_le _ _)) by lia. by repeat constructor.
  - apply Forall_forall. intros x Hx. apply (utf8_high c x Hs) in Hx; lia.
Qed.

(** What a Unicode escape is replaced by. *)
Lemma escape_char h c b : scalar c = true -> digits4 h c -> compactUnicodeEscape (h ++ b) = Ok (canonChar c, b).
Proof.
  intros Hs (x & y & z & w & p & q & r & s & -> & Hx & Hy & Hz & Hw & Hc).
  unfold compactUnicodeEscape. cbn [app length Nat.ltb Nat.leb].
  erewrite readHexDigits_spec by eassumption. rewrite <- Hc. cbn [mbind res_bind drop].
  pose proof (scalar_range c Hs) as [Hr Hn]. unfold canonChar. destruct (Z.ltb_spec c 32) as [Hl|Hl].
  - assert (Hi : forall l, (Z.to_nat c < length l)%nat -> index l c = Ok (nth (Z.to_nat c) l 0)).
    { intros l Hlen. unfold index. destruct (nth_lookup_or_length l (Z.to_nat c) 0) as [->|]; [done|lia]. }
    rewrite Hi by (simpl; lia). cbn [mbind res_bind]. case_match; [|done].
    change 0xF with (Z.ones 4). rewrite Z.land_ones, Z.shiftr_div_pow2 by lia. change (2^4) with 16.
    unfold index. pose proof (Z.mod_pos_bound c 16). destruct (nth_lookup_or_length HEX (Z.to_nat (c mod 16)) 0) as [->|Hlen]; [|simpl in Hlen; lia].
    cbn [deref mbind res_bind]. replace 117 with (nth (Z.to_nat c) ESCAPES 0) at 1; [done|]. by apply Z.eqb_eq.
  - rewrite (orb_comm (c =? 34)). destruct ((c =? 92) || (c =? 34)); [done|].
    assert (Hd : (c <? 0xD800) || (0xE000 <=? c) = true) by (rewrite orb_true_iff, Z.ltb_lt, Z.leb_le; lia).
    by rewrite Hd, EncodeRune_utf8.
Qed.

Lemma digits4_length h z : digits4 h z -> length h = 4%nat.
Proof. by intros (? & ? & ? & ? & ? & ? & ? & ? & -> & _). Qed.

Lemma digits4_read h z b : digits4 h z -> readHexDigits (h ++ b) = Ok z.
Proof. intros (x & y & z' & w & p & q & r & s & -> & Hx & Hy & Hz & Hw & ->). by apply readHexDigits_spec. Qed.

Lemma escape_pair c hi lo h1 h2 b :
  scalar c = true -> 0xFFFF < c -> digits4 h1 hi -> digits4 h2 lo ->
  hi = 0xD800 + (c - 0x10000) / 1024 -> lo = 0xDC00 + (c - 0x10000) mod 1024 ->
  compactUnicodeEscape (h1 ++ 92 :: 117 :: h2 ++ b) = Ok (canonChar c, b).
Proof.
  intros Hs Hc H1 H2 Ehi Elo. pose proof (scalar_range c Hs) as [Hr _].
  pose proof (digits4_length _ _ H1) as L1. pose proof (digits4_length _ _ H2) as L2.
  assert (Hh : 0xD800 <= hi < 0xDC00) by (Z.to_euclidean_division_equations; lia).
  assert (Hl : 0xDC00 <= lo < 0xE000) by (Z.to_euclidean_division_equations; lia).
  unfold compactUnicodeEscape. rewrite (proj2 (Nat.ltb_ge _ _)) by (rewrite length_app; lia).
  rewrite (digits4_read _ _ _ H1). cbn [mbind res_bind]. rewrite (proj2 (Z.ltb_ge _ _)) by lia.
  rewrite !(proj2 (Z.eqb_neq _ _)) by lia. cbn [orb]. rewrite (proj2 (Z.ltb_ge _ _)), (proj2 (Z.leb_gt _ _)) by lia. cbn [orb].
  rewrite drop_app_length' by lia. rewrite (proj2 (Nat.ltb_ge _ _)) by (simpl; rewrite length_app; lia).
  cbn [drop]. rewrite drop_0, (digits4_read _ _ _ H2). cbn [mbind res_bind].
  replace (drop 4 (h2 ++ b)) with b by (by rewrite drop_app_length' by lia).
  f_equal. f_equal. rewrite canon_high, <- EncodeRune_utf8 by (done || lia). f_equal.
  change 0x3FF with (Z.ones 10). rewrite !Z.land_ones, Z.shiftl_mul_pow2, lor_high by (try apply Z.mod_pos_bound; lia).
  change (2^10) with 1024. Z.to_euclidean_division_equations. lia.
Qed.

Lemma spells_run c sp b : spells c sp -> run true (sp ++ b) = appendOut (canonChar c) (run true b).
Proof.
  destruct 1 as [c Hs Hc H1 H2|c e He| |c h Hs Hd|c hi lo h1 h2 Hs Hc H1 H2 Ehi Elo].
  - rewrite run_copies by (by apply raw_copies). f_equal. destruct (decide (c < 128)); [|by rewrite canon_high by lia].
    rewrite canon_ascii by lia. unfold utf8. by rewrite (proj2 (Z.leb_le _ _)) by lia.
  - rewrite <- !app_comm_cons. unfold shortEscapes in He. rewrite !elem_of_cons, elem_of_nil in He.
    destruct He as [[= -> ->]|[[= -> ->]|[[= -> ->]|[[= -> ->]|[[= -> ->]|[[= -> ->]|[[= -> ->]|[]]]]]]]]; by rewrite run_escape.
  - rewrite <- !app_comm_cons, run_escape by done. done.
  - rewrite <- !app_comm_cons. erewrite run_unicode by (by apply escape_char). done.
  - rewrite <- !app_comm_cons, <- app_assoc, <- !app_comm_cons. erewrite run_unicode by (by eapply escape_pair). done.
Qed.

Lemma spelled_run s sp b : spelled s sp -> run true (sp ++ b) = appendOut (flat_map canonChar s) (run true b).
Proof.
  induction 1 as [|c sp s bs Hc _ IH]; [by rewrite emit_nil|].
  rewrite <- app_assoc, (spells_run c) by done. by rewrite IH, emit_emit.
Qed.

(** ** Texts *)

(** Parts with commas between them. *)
Definition commas (parts : list bytes) : bytes :=
  match parts with
  | [] => []
  | p :: rest => p ++ joined 44 rest
  end.

Lemma enclose_commas o c parts : enclose o c parts = o :: commas parts ++ [c].
Proof. by destruct parts. Qed.

Definition printMember (m : list Z * json) : bytes := canonStr m.1 ++ 58 :: compactOf m.2.

Lemma compactOf_obj ms : compactOf (JObj ms) = 123 :: commas (map printMember ms) ++ [125].
Proof. apply enclose_commas. Qed.

Lemma commas_cons p q parts : commas (p :: q :: parts) = p ++ 44 :: commas (q :: parts).
Proof. done. Qed.

Lemma run_ws w b : forallb isWs w = true -> run false (w ++ b) = run false b.
Proof.
  induction w as [|x w IH]; [done|]. cbn [forallb]. intros [Hx Hw]%andb_true_iff. rewrite <- app_comm_cons, run_out.
  rewrite (proj2 (Z.leb_le _ _)); [by apply IH|]. unfold isWs in Hx. rewrite !orb_true_iff, !Z.eqb_eq in Hx. lia.
Qed.

Lemma litByte_range b : litByte b = true -> 32 < b /\ b <> 34 /\ b <> 91 /\ b <> 123 /\ b <> 93 /\ b <> 125 /\ b <> 44 /\ b <> 58.
Proof. unfold litByte. rewrite !orb_true_iff, !andb_true_iff, !Z.eqb_eq, !Z.leb_le. lia. Qed.

Lemma run_plain c b : 32 < c -> c <> 34 -> run false (c :: b) = appendOut [c] (run false b).
Proof. intros H1 H2. by rewrite run_out, (proj2 (Z.leb_gt _ _)), (proj2 (Z.eqb_neq _ _) H2) by lia. Qed.

Lemma run_lit l b : forallb litByte l = true -> run false (l ++ b) = appendOut l (run false b).
Proof.
  induction l as [|x l IH]; cbn [forallb]; [by rewrite emit_nil|]. intros [Hx%litByte_range Hl]%andb_true_iff.
  rewrite <- app_comm_cons, run_plain by lia. by rewrite IH, emit_emit.
Qed.

Lemma run_string s sp b : spelled s sp -> run false (34 :: sp ++ 34 :: b) = appendOut (canonStr s) (run false b).
Proof.
  intros Hs. rewrite run_out. cbn [Z.leb Z.compare Z.eqb]. change (34 =? 34) with true.
  rewrite (spelled_run s) by done. rewrite run_byte by done. change (negb (34 =? 34)) with false.
  by rewrite !emit_emit.
Qed.

(** Every text of a value has the same compact form. *)
Lemma text_run :
  (forall v b, text v b -> forall rest, run false (b ++ rest) = appendOut (compactOf v) (run false rest)) /\
  (forall vs b, elems vs b -> forall rest, run false (b ++ rest) = appendOut (commas (map compactOf vs)) (run false rest)) /\
  (forall ms b, members ms b -> forall rest, run false (b ++ rest) =
     appendOut (commas (map printMember ms)) (run false rest)).
Proof.
  apply text_mutind.
  - intros l [Hl _]%literal_bytes rest. by apply run_lit.
  - intros s b Hs rest. rewrite <- app_comm_cons, <- app_assoc. by apply run_string.
  - intros vs b _ IH rest. rewrite <- app_comm_cons, <- app_assoc, run_plain by done. cbn [app].
    rewrite IH, run_plain by done. cbn [compactOf]. by rewrite enclose_commas, !emit_emit.
  - intros ms b _ IH rest. rewrite <- app_comm_cons, <- app_assoc, run_plain by done. cbn [app].
    rewrite IH, run_plain by done. by rewrite compactOf_obj, !emit_emit.
  - intros v w1 b w2 H1 H2 _ IH rest. by rewrite <- !app_assoc, run_ws, IH, run_ws.
  - intros w Hw rest. by rewrite run_ws, emit_nil.
  - intros v b _ IH rest. cbn [map commas joined]. by rewrite app_nil_r, IH.
  - intros v b u vs bs _ IHv _ IHe rest. rewrite <- app_assoc, IHv, <- app_comm_cons, run_plain, IHe by done.
    rewrite !emit_emit. cbn [map]. by rewrite commas_cons, <- app_assoc.
  - intros w Hw rest. by rewrite run_ws, emit_nil.
  - intros k kb v b _ IHk _ IHv rest. cbn [map commas joined]. unfold printMember. cbn [fst snd]. rewrite app_nil_r, <- app_assoc, IHk.
    rewrite <- app_comm_cons, run_plain, IHv by done. rewrite !emit_emit. by rewrite <- app_assoc.
  - intros k kb v b m ms bs _ IHk _ IHv _ IHm rest. cbn [map]. rewrite commas_cons. unfold printMember at 1. cbn [fst snd].
    rewrite <- app_assoc, IHk, <- app_comm_cons, run_plain by done. rewrite <- app_assoc, IHv.
    rewrite <- app_comm_cons, run_plain, IHm by done. rewrite !emit_emit. cbn [map]. by rewrite <- !app_assoc.
Qed.

Lemma compact_text v b : text v b -> CompactJSON b = Ok (compactOf v).
Proof.
  intros Hv. change (CompactJSON b) with (run false b). rewrite <- (app_nil_r b), (proj1 text_run v b Hv).
  rewrite run_nil. cbn [appendOut mbind res_bind]. by rewrite app_nil_r.
Qed.

(** ** Well-formed values *)

Section Induction.
  Variable P : json -> Prop.
  Hypotheses (Hlit : forall l, P (JLit l)) (Hstr : forall s, P (JStr s)).
  Hypotheses (Harr : forall vs, Forall P vs -> P (JArr vs)) (Hobj : forall ms, Forall (fun m => P m.2) ms -> P (JObj ms)).

Fixpoint json_nested_ind (v : json) : P v :=
  match v with
  | JLit l => Hlit l
  | JStr s => Hstr s
  | JArr vs => Harr vs ((fix go l : Forall P l :=
      match l with [] => Forall_nil_2 _ | x :: l' => Forall_cons_2 _ _ _ (json_nested_ind x) (go l') end) vs)
  | JObj ms => Hobj ms ((fix go l : Forall (fun m => P m.2) l :=
      match l with [] => Forall_nil_2 _ | x :: l' => Forall_cons_2 _ _ _ (json_nested_ind x.2) (go l') end) ms)
  end.

End Induction.

Fixpoint wf (v : json) : bool :=
  match v with
  | JLit l => literal l
  | JStr s => forallb scalar s
  | JArr vs => forallb wf vs
  | JObj ms => forallb (fun m => forallb scalar m.1 && wf m.2) ms
  end.

Lemma spelled_scalar s b : spelled s b -> forallb scalar s = true.
Proof.
  induction 1 as [|c sp s bs Hc _ IH]; [done|]. cbn [forallb]. rewrite IH, andb_true_r. destruct Hc; try done.
  unfold shortEscapes in *. repeat (match goal with H : _ ∈ _ :: _ |- _ => apply elem_of_cons in H as [[= -> ->]|H] end; [done|]).
  by apply elem_of_nil in H.
Qed.

Lemma text_wf :
  (forall v b, text v b -> wf v = true) /\
  (forall vs b, elems vs b -> forallb wf vs = true) /\
  (forall ms b, members ms b -> forallb (fun m => forallb scalar m.1 && wf m.2) ms = true).
Proof.
  apply text_mutind; cbn [wf forallb fst snd]; intros; rewrite ?andb_true_iff in *; try done; try naive_solver.
  - by eapply spelled_scalar.
Qed.

(** ** Reading the compact form *)

Definition parseChar (b : bytes) : option (Z * bytes) :=
  match b with
  | 92 :: e :: r =>
      if e =? 117 then
        match r with
        | _ :: _ :: h :: l :: r1 =>
            match hexVal h, hexVal l with Some x, Some y => Some (x * 16 + y, r1) | _, _ => None end
        | _ => None
        end
      else match List.find (fun p => p.2 =? e) shortEscapes with Some p => Some (p.1, r) | None => None end
  | _ => decodeChar b
  end.

Fixpoint parseStr (fuel : nat) (b : bytes) : option (list Z * bytes) :=
  match fuel, b with
  | _, 34 :: r => Some ([], r)
  | O, _ => None
  | S fuel', _ =>
      match parseChar b with
      | Some (c, r) => match parseStr fuel' r with Some (s, r1) => Some (c :: s, r1) | None => None end
      | None => None
      end
  end.

Fixpoint span (b : bytes) : bytes * bytes :=
  match b with
  | x :: r => if litByte x then let '(l, r1) := span r in (x :: l, r1) else ([], b)
  | [] => ([], [])
  end.

Fixpoint parseVal (fuel : nat) (b : bytes) : option (json * bytes) :=
  match fuel with
  | O => None
  | S fuel' =>
      match b with
      | 34 :: r => match parseStr (length r) r with Some (s, r1) => Some (JStr s, r1) | None => None end
      | 91 :: 93 :: r => Some (JArr [], r)
      | 91 :: r => match parseElems fuel' r with Some (vs, r1) => Some (JArr vs, r1) | None => None end
      | 123 :: 125 :: r => Some (JObj [], r)
      | 123 :: r => match parseMembers fuel' r with Some (ms, r1) => Some (JObj ms, r1) | None => None end
      | _ => let '(l, r) := span b in if literal l then Some (JLit l, r) else None
      end
  end
with parseElems (fuel : nat) (b : bytes) : option (list json * bytes) :=
  match fuel with
  | O => None
  | S fuel' =>
      match parseVal fuel' b with
      | Some (v, 93 :: r) => Some ([v], r)
      | Some (v, 44 :: r) => match parseElems fuel' r with Some (vs, r1) => Some (v :: vs, r1) | None => None end
      | _ => None
      end
  end
with parseMembers (fuel : nat) (b : bytes) : option (list (list Z * json) * bytes) :=
  match fuel with
  | O => None
  | S fuel' =>
      match parseVal fuel' b with
      | Some (JStr k, 58 :: r) =>
          match parseVal fuel' r with
          | Some (v, 125 :: r1) => Some ([(k, v)], r1)
          | Some (v, 44 :: r1) =>
              match parseMembers fuel' r1 with Some (ms, r2) => Some ((k, v) :: ms, r2) | None => None end
          | _ => None
          end
      | _ => None
      end
  end.

Lemma parse_canonChar c r : scalar c = true -> parseChar (canonChar c ++ r) = Some (c, r).
Proof.
  intros Hs. pose proof (scalar_range c Hs) as [Hr _]. unfold canonChar. destruct (Z.ltb_spec c 32) as [Hl|Hl].
  - destruct (Z_of_nat_complete c) as [n ->]; [lia|]. do 32 (destruct n as [|n]; [reflexivity|]). lia.
  - destruct (Z.eqb_spec c 34) as [->|H1]; [done|]. destruct (Z.eqb_spec c 92) as [->|H2]; [done|]. cbn [orb].
    pose proof (decodeChar_utf8 c r Hs) as Hd. pose proof (raw_copies c Hs Hl H1 H2) as Hc.
    destruct (utf8 c) as [|x l] eqn:E; [by apply utf8_ne in E|]. apply Forall_inv in Hc as [_ Hx].
    cbn [app parseChar] in *. case_match; try done; by repeat (case_match; try done).
Qed.

Lemma canonChar_head c r : scalar c = true -> exists x l, canonChar c ++ r = x :: l /\ x <> 34.
Proof.
  intros Hs. pose proof (scalar_range c Hs) as [Hr _]. unfold canonChar. destruct (Z.ltb_spec c 32) as [Hl|Hl].
  - case_match; by eexists _, _.
  - destruct (Z.eqb_spec c 34) as [->|H1]; [by eexists _, _|]. destruct (Z.eqb_spec c 92) as [->|H2]; [by eexists _, _|].
    cbn [orb]. pose proof (raw_copies c Hs Hl H1 H2) as Hc.
    destruct (utf8 c) as [|x l] eqn:E; [by apply utf8_ne in E|]. apply Forall_inv in Hc as [Hx _]. by eexists _, _.
Qed.

Lemma parse_canonStr s : forall fuel r, forallb scalar s = true -> (length s <= fuel)%nat ->
  parseStr fuel (flat_map canonChar s ++ 34 :: r) = Some (s, r).
Proof.
  induction s as [|c s IH]; intros fuel r; [by destruct fuel|]. cbn [forallb]. intros [Hc Hs]%andb_true_iff Hf.
  destruct fuel as [|fuel]; [simpl in Hf; lia|]. simpl in Hf. cbn [flat_map]. rewrite <- app_assoc.
  destruct (canonChar_head c (flat_map canonChar s ++ 34 :: r) Hc) as (x & l & E & Hx).
  assert (Hp : parseStr (S fuel) (x :: l) =
    match parseChar (x :: l) with
    | Some (c, r) => match parseStr fuel r with Some (s, r1) => Some (c :: s, r1) | None => None end
    | None => None
    end) by (cbn [parseStr]; repeat (case_match; try done)).
  rewrite E, Hp, <- E, parse_canonChar, IH by (done || lia). done.
Qed.

(** What may follow a literal. *)
Definition stops (r : bytes) : Prop := match r with x :: _ => litByte x = false | [] => True end.

Lemma span_lit l r : forallb litByte l = true -> stops r -> span (l ++ r) = (l, r).
Proof.
  intros Hl Hr. induction l as [|x l IH].
  - destruct r; [done|]. simpl in Hr |- *. by rewrite Hr.
  - cbn [forallb] in Hl. apply andb_true_iff in Hl as [Hx Hl]. cbn [app span]. by rewrite Hx, IH.
Qed.

Lemma parseVal_lit fuel x b : litByte x = true ->
  parseVal (S fuel) (x :: b) = (let '(l, r) := span (x :: b) in if literal l then Some (JLit l, r) else None).
Proof.
  intros (_ & H1 & H2 & H3 & _)%litByte_range. cbn [parseVal]. repeat (case_match; try done; try (by exfalso; congruence)).
Qed.

Lemma parseVal_arr fuel x b : x <> 93 -> parseVal (S fuel) (91 :: x :: b) =
  match parseElems fuel (x :: b) with Some (vs, r1) => Some (JArr vs, r1) | None => None end.
Proof. intros Hx. cbn [parseVal]. repeat (case_match; try done). Qed.

Lemma parseVal_obj fuel x b : x <> 125 -> parseVal (S fuel) (123 :: x :: b) =
  match parseMembers fuel (x :: b) with Some (ms, r1) => Some (JObj ms, r1) | None => None end.
Proof. intros Hx. cbn [parseVal]. repeat (case_match; try done). Qed.

Lemma compactOf_head v : wf v = true -> exists x l, compactOf v = x :: l /\ x <> 93.
Proof.
  destruct v as [l|s|vs|ms]; cbn [wf compactOf]; intros Hw; rewrite ?enclose_commas; unfold canonStr.
  - apply literal_bytes in Hw as [Hw Hn]. destruct l as [|x l]; [done|]. cbn [forallb] in Hw.
    apply andb_true_iff in Hw as [Hx%litByte_range _].
    exists x, l. split; [done|lia].
  - eexists 34, _. by split.
  - eexists 91, _. by split.
  - eexists 123, _. by split.
Qed.

Fixpoint size (v : json) : nat :=
  match v with
  | JLit _ | JStr _ => 1
  | JArr vs => S (sum_list_with (fun v => S (size v)) vs)
  | JObj ms => S (sum_list_with (fun m => S (S (size m.2))) ms)
  end.

Definition parses (v : json) : Prop := forall fuel rest, wf v = true -> (size v <= fuel)%nat -> stops rest ->
  parseVal fuel (compactOf v ++ rest) = Some (v, rest).

Lemma parse_elems vs : Forall parses vs -> vs <> [] -> forall fuel rest, forallb wf vs = true ->
  (sum_list_with (fun v => S (size v)) vs <= fuel)%nat ->
  parseElems fuel (commas (map compactOf vs) ++ 93 :: rest) = Some (vs, rest).
Proof.
  induction 1 as [|v vs Hv Hvs IH]; [done|]. intros _ fuel rest. cbn [forallb sum_list_with map]. intros [Hw Hws]%andb_true_iff Hf.
  destruct fuel as [|fuel]; [lia|]. destruct vs as [|u vs].
  - cbn [commas joined]. rewrite app_nil_r. cbn [parseElems]. by rewrite Hv by (done || lia).
  - cbn [map]. rewrite commas_cons, <- app_assoc. cbn [parseElems app]. rewrite Hv by (done || lia).
    change (compactOf u :: map compactOf vs) with (map compactOf (u :: vs)). by rewrite IH by (done || lia).
Qed.

Lemma parse_string fuel s r : forallb scalar s = true -> parseVal (S fuel) (canonStr s ++ r) = Some (JStr s, r).
Proof.
  intros Hs. unfold canonStr. rewrite <- app_comm_cons, <- app_assoc. cbn [parseVal app].
  rewrite parse_canonStr; [done|done|]. rewrite length_app. clear Hs.
  enough (length s <= length (flat_map canonChar s))%nat by lia.
  induction s as [|c s IH]; [done|]. cbn [flat_map]. rewrite length_app. simpl.
  enough (0 < length (canonChar c))%nat by lia. unfold canonChar, utf8. repeat case_match; simpl; lia.
Qed.

Lemma parseMembers_S fuel b : parseMembers (S fuel) b =
  match parseVal fuel b with
  | Some (JStr k, 58 :: r) =>
      match parseVal fuel r with
      | Some (v, 125 :: r1) => Some ([(k, v)], r1)
      | Some (v, 44 :: r1) =>
          match parseMembers fuel r1 with Some (ms, r2) => Some ((k, v) :: ms, r2) | None => None end
      | _ => None
      end
  | _ => None
  end.
Proof. done. Qed.

Lemma parse_members ms : Forall (fun m => parses m.2) ms -> ms <> [] -> forall fuel rest,
  forallb (fun m => forallb scalar m.1 && wf m.2) ms = true ->
  (sum_list_with (fun m => S (S (size m.2))) ms <= fuel)%nat ->
  parseMembers fuel (commas (map printMember ms) ++ 125 :: rest) = Some (ms, rest).
Proof.
  induction 1 as [|[k v] ms Hv Hms IH]; [done|]. intros _ fuel rest. cbn [forallb sum_list_with map fst snd].
  intros [[Hk Hw]%andb_true_iff Hws]%andb_true_iff Hf. destruct fuel as [|fuel]; [lia|]. destruct fuel as [|fuel]; [lia|].
  simpl in Hv. destruct ms as [|m ms].
  - cbn [map commas joined]. unfold printMember. cbn [fst snd]. rewrite app_nil_r, <- !app_assoc.
    rewrite parseMembers_S, parse_string by done. cbn [app]. by rewrite Hv by (done || lia).
  - change (map printMember (m :: ms)) with (printMember m :: map printMember ms). rewrite commas_cons. unfold printMember at 1.
    cbn [fst snd]. rewrite <- !app_assoc. rewrite parseMembers_S, parse_string by done. cbn [app].
    rewrite Hv by (done || lia). cbn [app]. change (printMember m :: map printMember ms) with (map printMember (m :: ms)).
    by rewrite IH by (done || lia).
Qed.

Lemma parse_value v : parses v.
Proof.
  induction v as [l|s|vs IH|ms IH] using json_nested_ind; intros fuel rest Hw Hf Hr.
  - destruct fuel as [|fuel]; [simpl in Hf; lia|]. cbn [wf] in Hw. pose proof (literal_bytes l Hw) as [Hl Hn].
    destruct l as [|x l]; [done|]. pose proof Hl as Hx. cbn [forallb] in Hx. apply andb_true_iff in Hx as [Hx _].
    cbn [compactOf]. rewrite <- app_comm_cons, parseVal_lit, app_comm_cons, span_lit by done. by rewrite Hw.
  - destruct fuel as [|fuel]; [simpl in Hf; lia|]. by apply parse_string.
  - destruct fuel as [|fuel]; [simpl in Hf; lia|]. cbn [compactOf]. rewrite enclose_commas. destruct vs as [|v vs]; [done|].
    pose proof Hw as Hw'. cbn [wf forallb] in Hw'. apply andb_true_iff in Hw' as [Hv _].
    destruct (compactOf_head v Hv) as (x & l & E & Hx).
    assert (Hc : exists l', commas (map compactOf (v :: vs)) = x :: l') by (cbn [map commas]; rewrite E; by eexists).
    destruct Hc as [l' Hc]. rewrite <- app_comm_cons, <- app_assoc, Hc. cbn [app].
    rewrite parseVal_arr, app_comm_cons, <- Hc by done. rewrite parse_elems by (done || simpl in *; lia). done.
  - destruct fuel as [|fuel]; [simpl in Hf; lia|]. rewrite compactOf_obj. destruct ms as [|m ms]; [done|].
    set (cs := commas _). assert (Hc : exists l', cs = 34 :: l') by (by eexists). destruct Hc as [l' Hc].
    rewrite <- app_comm_cons, <- app_assoc, Hc. cbn [app]. rewrite parseVal_obj, app_comm_cons, <- Hc by done.
    unfold cs. rewrite parse_members by (done || simpl in *; lia). done.
Qed.

Lemma printMember_length m : (S (S (length (compactOf m.2))) <= length (printMember m))%nat.
Proof. unfold printMember, canonStr. rewrite length_app. simpl. lia. Qed.

Lemma compactOf_size v : wf v = true -> (size v <= length (compactOf v))%nat.
Proof.
  induction v as [l|s|vs IH|ms IH] using json_nested_ind; cbn [wf size compactOf]; intros Hw.
  - destruct l; simpl in *; [done|lia].
  - unfold canonStr. simpl. lia.
  - rewrite enclose_commas. simpl. rewrite length_app. simpl.
    enough (sum_list_with (fun v => S (size v)) vs <= S (length (commas (map compactOf vs))))%nat by lia.
    induction IH as [|v vs Hv _ IHl]; [simpl; lia|]. cbn [forallb] in Hw. apply andb_true_iff in Hw as [Hw Hws].
    specialize (Hv Hw). specialize (IHl Hws). destruct vs as [|u vs].
    + simpl in *. rewrite app_nil_r. lia.
    + cbn [map sum_list_with] in *. rewrite commas_cons, length_app. cbn [length]. lia.
  - change (enclose _ _ _) with (compactOf (JObj ms)). rewrite compactOf_obj. simpl. rewrite length_app. simpl.
    enough (sum_list_with (fun m => S (S (size m.2))) ms <=
      S (length (commas (map printMember ms))))%nat by lia.
    induction IH as [|[k v] ms Hv _ IHl]; [simpl; lia|]. cbn [forallb fst snd] in *.
    apply andb_true_iff in Hw as [[_ Hw]%andb_true_iff Hws]. specialize (Hv Hw). specialize (IHl Hws). destruct ms as [|u ms].
    + cbn [map commas joined sum_list_with fst snd]. rewrite app_nil_r.
      pose proof (printMember_length (k, v)) as Hp. cbn [snd] in Hp. lia.
    + cbn [map sum_list_with fst snd] in *. rewrite commas_cons, length_app. cbn [length].
      pose proof (printMember_length (k, v)) as Hp. cbn [snd] in Hp. lia.
Qed.

(** The compact form determines the value. *)
Definition parse (b : bytes) : option json :=
  match parseVal (length b) b with Some (v, []) => Some v | _ => None end.

Lemma parse_compact v : wf v = true -> parse (compactOf v) = Some v.
Proof.
  intros Hw. unfold parse. rewrite <- (app_nil_r (compactOf v)) at 2.
  by rewrite parse_value by (done || by apply compactOf_size).
Qed.

Lemma compactOf_inj v w : wf v = true -> wf w = true -> compactOf v = compactOf w -> v = w.
Proof. intros Hv Hw E. apply parse_compact in Hv, Hw. congruence. Qed.

End CanonText.
