(* ===== verification/CanonJsonFacts.v ===== *)
(** * Canonical JSON: theorems

    Two texts have the same canonical form exactly when they are texts of the same
    value, up to the order of the members of objects ([canonical_json_faithful]).
    This is what makes signatures and hashes of events meaningful: every server
    computes the same bytes ([<-]), and no other value has them ([->]).  It holds
    for texts whose strings are sequences of characters; a lone surrogate escape
    breaks it ([lone_surrogate_collides]).

    [GJsonLaws] is what is needed of [gjson]: it accepts JSON, and parsing a compact
    text gives the parts of the value with their texts.  [referenceGJson] has these
    properties. *)

From Stdlib Require Import ZArith List Lia Sorted Permutation.
From stdpp Require Import base tactics list.
From S2P Require Import Prelude CanonJson CanonBytes CanonText.

#[local] Open Scope Z_scope.

Module CanonJsonFacts.
Import CanonJson CanonBytes CanonText.

(** ** Equal values *)

Inductive same : json -> json -> Prop :=
  | same_lit l : same (JLit l) (JLit l)
  | same_str s : same (JStr s) (JStr s)
  | same_arr vs ws : sames vs ws -> same (JArr vs) (JArr ws)
  | same_obj ms ps ns : Permutation ms ps -> sameMembers ps ns -> same (JObj ms) (JObj ns)
with sames : list json -> list json -> Prop :=
  | sames_nil : sames [] []
  | sames_cons v w vs ws : same v w -> sames vs ws -> sames (v :: vs) (w :: ws)
with sameMembers : list (list Z * json) -> list (list Z * json) -> Prop :=
  | sameMembers_nil : sameMembers [] []
  | sameMembers_cons k v w ms ns : same v w -> sameMembers ms ns -> sameMembers ((k, v) :: ms) ((k, w) :: ns).

Scheme same_min := Minimality for same Sort Prop
with sames_min := Minimality for sames Sort Prop
with sameMembers_min := Minimality for sameMembers Sort Prop.
Combined Scheme same_mutind from same_min, sames_min, sameMembers_min.

(** No object names a member twice. *)
Fixpoint distinct (v : json) : bool :=
  match v with
  | JArr vs => forallb distinct vs
  | JObj ms => bool_decide (NoDup (map fst ms)) && forallb (fun m => distinct m.2) ms
  | _ => true
  end.

(** ** The sorted value *)

Definition key_leb (a b : list Z * json) : bool := bytes_leb a.1 b.1.

Fixpoint sortValue (v : json) : json :=
  match v with
  | JArr vs => JArr (map sortValue vs)
  | JObj ms => JObj (gosort key_leb (map (fun m => (m.1, sortValue m.2)) ms))
  | _ => v
  end.

Lemma bytes_leb_total a b : bytes_leb a b = true \/ bytes_leb b a = true.
Proof.
  revert b. induction a as [|x a IH]; intros [|y b]; simpl; auto.
  destruct (Z.lt_trichotomy x y) as [Hl|[->|Hl]].
  - left. by rewrite (proj2 (Z.ltb_lt _ _) Hl).
  - rewrite Z.ltb_irrefl, Z.eqb_refl. simpl. apply IH.
  - right. by rewrite (proj2 (Z.ltb_lt _ _) Hl).
Qed.

Lemma bytes_leb_spec x a y b : bytes_leb (x :: a) (y :: b) = true <-> x < y \/ (x = y /\ bytes_leb a b = true).
Proof. simpl. by rewrite orb_true_iff, andb_true_iff, Z.ltb_lt, Z.eqb_eq. Qed.

Lemma bytes_leb_trans a b c : bytes_leb a b = true -> bytes_leb b c = true -> bytes_leb a c = true.
Proof.
  revert b c. induction a as [|x a IH]; intros [|y b] [|z c]; try done. rewrite !bytes_leb_spec.
  intros [?|[-> ?]] [?|[-> ?]]; eauto; lia.
Qed.

Lemma bytes_leb_antisym a b : bytes_leb a b = true -> bytes_leb b a = true -> a = b.
Proof.
  revert b. induction a as [|x a IH]; intros [|y b]; try done. rewrite !bytes_leb_spec.
  intros [?|[-> ?]] [?|[? ?]]; try lia. f_equal. by apply IH.
Qed.

(** Sorting commutes with a map that keeps the order. *)
Section SortMap.
  Context {A B : Type} (f : A -> B) (la : A -> A -> bool) (lb : B -> B -> bool).

Lemma sort_insert_map x l : (forall y, y ∈ l -> lb (f x) (f y) = la x y) ->
  sort_insert lb (f x) (map f l) = map f (sort_insert la x l).
Proof using.
  induction l as [|y l IH]; intros Hf; [done|]. cbn [map sort_insert]. rewrite Hf by left.
  destruct (la x y); [done|]. cbn [map]. f_equal. apply IH. intros z Hz. apply Hf. by right.
Qed.

Lemma gosort_map l : (forall x y, x ∈ l -> y ∈ l -> lb (f x) (f y) = la x y) -> gosort lb (map f l) = map f (gosort la l).
Proof using.
  induction l as [|x l IH]; intros Hf; [done|]. cbn [map gosort]. rewrite IH, sort_insert_map; [done| |].
  - intros y Hy. apply Hf; [left|]. right. by rewrite (gosort_perm la l).
  - intros y z Hy Hz. apply Hf; by right.
Qed.

End SortMap.

(** ** What [gjson] has to do *)

Fixpoint resultOf (v : json) : Result :=
  match v with
  | JArr vs => RArray (compactOf v) (map resultOf vs)
  | JObj ms => RObject (compactOf v) (map (fun m => (encode m.1, canonStr m.1, resultOf m.2)) ms)
  | _ => RLeaf (compactOf v)
  end.

Class GJsonLaws `{GJson} : Prop := {
  valid_text : forall v b, text v b -> Valid b = true;
  parse_text : forall v, wf v = true -> ParseBytes (compactOf v) = resultOf v;
}.

Definition printed (m : list Z * json) : entry := (encode m.1, canonStr m.1, compactOf m.2).

Lemma sorted_value v : wf v = true -> sortJSONValue (resultOf v) = compactOf (sortValue v).
Proof.
  induction v as [l|s|vs IH|ms IH] using json_nested_ind; intros Hw; cbn [resultOf sortJSONValue sortValue compactOf]; try done.
  - f_equal. rewrite !map_map. cbn [wf] in Hw. induction IH as [|v vs Hv _ IHl]; [done|]. cbn [forallb map] in *.
    apply andb_true_iff in Hw as [Hw Hws]. by rewrite Hv, IHl.
  - change (enclose _ _ _) with (compactOf (JObj (gosort key_leb (map (fun m => (m.1, sortValue m.2)) ms)))) at 2.
    cbn [compactOf]. f_equal. rewrite map_map. cbn [wf] in Hw.
    assert (Hm : map (fun m : list Z * json => (encode m.1, canonStr m.1, sortJSONValue (resultOf m.2))) ms =
                 map printed (map (fun m => (m.1, sortValue m.2)) ms)).
    { rewrite map_map. unfold printed. induction IH as [|m ms Hv _ IHl]; [done|]. cbn [forallb map] in *.
      apply andb_true_iff in Hw as [[_ Hw]%andb_true_iff Hws]. cbn [fst snd]. by rewrite Hv, IHl. }
    cbn [fst snd]. rewrite Hm, (gosort_map printed key_leb).
    + rewrite map_map. done.
    + intros x y Hx Hy. unfold entry_leb, key_leb, printed. cbn [fst].
      apply utf8_order; rewrite forallb_forall in Hw.
      * apply list_elem_of_In, in_map_iff in Hx as (m & <- & Hx). apply Hw, andb_true_iff in Hx. naive_solver.
      * apply list_elem_of_In, in_map_iff in Hy as (m & <- & Hy). apply Hw, andb_true_iff in Hy. naive_solver.
Qed.

Lemma canonical_text `{GJsonLaws} v b : text v b -> CanonicalJSON b = Ok (compactOf (sortValue v)).
Proof.
  intros Ht. pose proof (proj1 text_wf v b Ht) as Hw. unfold CanonicalJSON, CanonicalJSONAssumeValid, SortJSON.
  rewrite (valid_text v b Ht). cbn [negb]. rewrite (compact_text v b Ht). cbn [mbind res_bind].
  by rewrite parse_text, sorted_value.
Qed.

(** ** Sorting decides equality *)

Lemma wf_sortValue v : wf v = true -> wf (sortValue v) = true.
Proof.
  induction v as [l|s|vs IH|ms IH] using json_nested_ind; cbn [wf sortValue]; try done; intros Hw.
  - rewrite forallb_forall in Hw |- *. intros x Hx. apply in_map_iff in Hx as (v & <- & Hv).
    rewrite Forall_forall in IH. apply IH; [by apply list_elem_of_In|by apply Hw].
  - rewrite forallb_forall in Hw |- *. intros x Hx. apply list_elem_of_In in Hx. rewrite <- (gosort_perm key_leb) in Hx.
    apply list_elem_of_In, in_map_iff in Hx as (m & <- & Hm). cbn [fst snd]. specialize (Hw m Hm).
    apply andb_true_iff in Hw as [-> Hw]. rewrite Forall_forall in IH. by apply IH; [apply list_elem_of_In|].
Qed.

Lemma members_sorted ms ns : NoDup (map fst ms) -> Permutation ms ns -> gosort key_leb ms = gosort key_leb ns.
Proof.
  intros Hn Hp. apply (sorted_perm_unique key_leb).
  - intros x y. rewrite <- !(gosort_perm key_leb ms). intros Hx Hy H1 H2.
    pose proof (bytes_leb_antisym _ _ H1 H2) as Hk. destruct x as [k v], y as [k' w]. simpl in Hk. subst k'. f_equal.
    apply list_elem_of_lookup in Hx as [i Hi], Hy as [j Hj].
    assert (i = j) as ->; [|by simplify_eq].
    eapply NoDup_lookup; [exact Hn| |]; by rewrite list_lookup_fmap, ?Hi, ?Hj.
  - apply gosort_sorted; [intros; apply bytes_leb_total|intros ? ? ?; apply bytes_leb_trans].
  - apply gosort_sorted; [intros; apply bytes_leb_total|intros ? ? ?; apply bytes_leb_trans].
  - by rewrite <- !gosort_perm.
Qed.

Abbreviation inner := (fun m : list Z * json => (m.1, sortValue m.2)).

Lemma same_sorted :
  (forall v w, same v w -> distinct v = true -> distinct w = true -> sortValue v = sortValue w) /\
  (forall vs ws, sames vs ws -> forallb distinct vs = true -> forallb distinct ws = true -> map sortValue vs = map sortValue ws) /\
  (forall ms ns, sameMembers ms ns -> forallb (fun m => distinct m.2) ms = true -> forallb (fun m => distinct m.2) ns = true ->
     map inner ms = map inner ns).
Proof.
  apply same_mutind; try done.
  - intros vs ws _ IH Hv Hw. cbn [sortValue]. f_equal. by apply IH.
  - intros ms ps ns Hp _ IH Hm Hn. cbn [distinct sortValue] in *. apply andb_true_iff in Hm as [Hk%bool_decide_eq_true Hm], Hn as [_ Hn].
    assert (Hps : forallb (fun m => distinct m.2) ps = true).
    { rewrite forallb_forall in Hm |- *. intros x Hx. apply Hm. by rewrite Hp. }
    rewrite <- (IH Hps Hn). f_equal. apply members_sorted; [|by apply Permutation_map]. by rewrite map_map.
  - intros v w vs ws _ IHv _ IHvs Hv Hw. cbn [forallb map] in *. apply andb_true_iff in Hv as [? ?], Hw as [? ?].
    f_equal; auto.
  - intros k v w ms ns _ IHv _ IHms Hv Hw. cbn [forallb map fst snd] in *. apply andb_true_iff in Hv as [? ?], Hw as [? ?].
    rewrite IHv, IHms by done. done.
Qed.

Lemma sorted_same v : forall w, sortValue v = sortValue w -> same v w.
Proof.
  induction v as [l|s|vs IH|ms IH] using json_nested_ind; intros [l'|s'|ws|ns]; cbn [sortValue]; intros E; try discriminate.
  - injection E as ->. constructor.
  - injection E as ->. constructor.
  - injection E as E. constructor. revert ws E. induction IH as [|v vs Hv _ IHl]; intros [|w ws]; try discriminate; [constructor|].
    cbn [map]. intros [= E1 E2]. constructor; auto.
  - injection E as E.
    assert (Hp : Permutation (map inner ms) (map inner ns)) by (by rewrite (gosort_perm key_leb), E, <- (gosort_perm key_leb)).
    symmetry in Hp. apply Permutation_map_inv in Hp as (ps & Em & Hps). econstructor; [exact Hps|].
    assert (Hall : Forall (fun m => forall w, sortValue m.2 = sortValue w -> same m.2 w) ps) by (by rewrite <- Hps).
    clear IH E Hps. revert ns Em. induction Hall as [|[k v] ps Hv _ IHl]; intros [|[k' w] ns]; try discriminate; [constructor|].
    cbn [map fst snd]. intros [= -> E1 E2]. constructor; auto.
Qed.

(** C7: Canonical JSON identifies values. For any two texts of JSON values (a number
    being the way it is written) whose strings are sequences of characters (no lone
    surrogates) and whose objects do not name a member twice, with any whitespace, any
    escapes and members in any order, the canonical encodings are equal if and only if
    the values are the same up to the order of members: every server computes the same
    bytes for one value, and different values have different bytes. *)
Theorem canonical_json_faithful `{GJsonLaws} (v w : json) (b c : bytes) :
  text v b -> text w c -> distinct v = true -> distinct w = true ->
  (CanonicalJSON b = CanonicalJSON c <-> same v w).
Proof.
  intros Hb Hc Hv Hw. pose proof (proj1 text_wf v b Hb). pose proof (proj1 text_wf w c Hc).
  rewrite (canonical_text v b Hb), (canonical_text w c Hc). split; intros E.
  - injection E as E. apply sorted_same, compactOf_inj; by try apply wf_sortValue.
  - by rewrite (proj1 same_sorted v w E).
Qed.

(** ** The canonical form is a text of the value *)

Lemma spells_canon c : scalar c = true -> spells c (canonChar c).
Proof.
  intros Hs. pose proof (scalar_range c Hs) as [Hr _]. destruct (decide (c < 32)) as [Hl|Hl].
  - destruct (Z_of_nat_complete c) as [n ->]; [lia|].
    do 32 (destruct n as [|n];
      [ match goal with |- spells ?c ?b => let c' := eval vm_compute in c in let b' := eval vm_compute in b in change (spells c' b') end;
        first [ apply sp_short; unfold shortEscapes; by repeat first [left|right]
              | apply sp_hex; [done|by eexists _, _, _, _, _, _, _, _] ] |]).
    lia.
  - destruct (decide (c = 34)) as [->|H1]; [apply sp_short; unfold shortEscapes; left|].
    destruct (decide (c = 92)) as [->|H2]; [apply sp_short; unfold shortEscapes; right; left|].
    replace (canonChar c) with (utf8 c); [apply sp_raw; auto; lia|]. destruct (decide (c < 128)).
    + rewrite canon_ascii by lia. unfold utf8. by rewrite (proj2 (Z.leb_le _ _)) by lia.
    + by rewrite canon_high by lia.
Qed.

Lemma text_canonStr s : forallb scalar s = true -> text (JStr s) (canonStr s).
Proof.
  intros Hs. constructor. induction s as [|c s IH]; [constructor|]. cbn [forallb] in Hs. apply andb_true_iff in Hs as [Hc Hs].
  cbn [flat_map]. constructor; [by apply spells_canon|auto].
Qed.

Lemma text_compactOf v : wf v = true -> text v (compactOf v).
Proof.
  induction v as [l|s|vs IH|ms IH] using json_nested_ind; cbn [wf]; intros Hw.
  - by constructor.
  - by apply text_canonStr.
  - cbn [compactOf]. rewrite enclose_commas. constructor.
    induction IH as [|v vs Hv _ IHl]; [by constructor|]. cbn [forallb] in Hw. apply andb_true_iff in Hw as [Hw Hws].
    destruct vs as [|u vs].
    + cbn [map commas joined]. rewrite app_nil_r. constructor. auto.
    + cbn [map]. rewrite commas_cons. constructor; auto.
  - rewrite compactOf_obj. constructor.
    induction IH as [|[k v] ms Hv _ IHl]; [by constructor|]. cbn [forallb fst snd] in *.
    apply andb_true_iff in Hw as [[Hk Hw]%andb_true_iff Hws]. destruct ms as [|m ms].
    + cbn [map commas joined]. rewrite app_nil_r. unfold printMember. constructor; auto using text_canonStr.
    + cbn [map]. rewrite commas_cons. unfold printMember at 1. rewrite <- app_assoc, <- app_comm_cons.
      constructor; auto using text_canonStr.
Qed.

(** The canonical form is canonical. *)
Lemma sortValue_idem v : distinct v = true -> sortValue (sortValue v) = sortValue v.
Proof.
  induction v as [l|s|vs IH|ms IH] using json_nested_ind; cbn [distinct]; intros Hd; try done.
  - cbn [sortValue]. f_equal. rewrite map_map. induction IH as [|v vs Hv _ IHl]; [done|]. cbn [forallb map] in *.
    apply andb_true_iff in Hd as [? ?]. f_equal; auto.
  - cbn [sortValue]. f_equal. apply andb_true_iff in Hd as [Hk%bool_decide_eq_true Hd].
    assert (Hi : map inner (map inner ms) = map inner ms).
    { rewrite map_map. induction IH as [|m ms Hv _ IHl]; [done|]. cbn [forallb map fst snd] in *.
      apply andb_true_iff in Hd as [? ?]. inversion Hk; subst. f_equal; [by rewrite Hv|auto]. }
    rewrite <- Hi at 2. symmetry. apply members_sorted; [by rewrite Hi, map_map|].
    apply Permutation_map, gosort_perm.
Qed.

Lemma canonical_idempotent `{GJsonLaws} v b c : text v b -> distinct v = true ->
  CanonicalJSON b = Ok c -> CanonicalJSON c = Ok c.
Proof.
  intros Hb Hd. pose proof (proj1 text_wf v b Hb) as Hw. rewrite (canonical_text v b Hb). intros [= <-].
  rewrite (canonical_text (sortValue v)) by (by apply text_compactOf, wf_sortValue). by rewrite sortValue_idem.
Qed.

(** ** Any input *)

Lemma EncodeRune_length r : (length (EncodeRune r) <= 4)%nat /\ (r < 0x10000 -> (length (EncodeRune r) <= 3)%nat).
Proof. unfold EncodeRune. split; intros; repeat (case_match; simpl; try lia). Qed.

Lemma readHex_total b : (4 <= length b)%nat -> exists c, readHexDigits b = Ok c /\ 0 <= c < 65536.
Proof.
  destruct b as [|x [|y [|z [|w b]]]]; simpl; try lia. intros _. eexists. split; [reflexivity|].
  change 0xFFFF with (Z.ones 16). rewrite Z.land_ones by lia. apply Z.mod_pos_bound. lia.
Qed.

(** What an escape becomes is at most as long as its digits, and two more. *)
Lemma escape_total b : exists o r, compactUnicodeEscape b = Ok (o, r) /\ (length o + length r <= length b + 2)%nat.
Proof.
  unfold compactUnicodeEscape. case_match eqn:E; [by eexists _, _; split; [done|simpl; lia]|]. apply Nat.ltb_ge in E.
  destruct (readHex_total b E) as (c & -> & Hc). cbn [mbind res_bind].
  assert (Hi : forall l i, 0 <= i < Z.of_nat (length l) -> exists x, index l i = Ok x).
  { intros l i Hi. unfold index. destruct (lookup_lt_is_Some_2 l (Z.to_nat i)) as [x ->]; [lia|by exists x]. }
  destruct (Z.ltb_spec c 32).
  { destruct (Hi ESCAPES c) as [x ->]; [simpl; lia|]. cbn [mbind res_bind].
    destruct (Hi HEX (Z.land c 0xF)) as [y ->].
    { change 0xF with (Z.ones 4). rewrite Z.land_ones by lia. simpl. apply Z.mod_pos_bound. lia. }
    cbn [mbind res_bind]. case_match; (eexists _, _; split; [reflexivity|simpl; rewrite length_drop; lia]). }
  pose proof (EncodeRune_length c) as [_ Hl3].
  repeat (case_match; [eexists _, _; split; [reflexivity|simpl; rewrite ?length_drop; lia]|]).
  match goal with H : (_ <? 6)%nat = false |- _ => apply Nat.ltb_ge in H; rewrite length_drop in H end.
  destruct (readHex_total (drop 2 (drop 4 b))) as (d & -> & _); [rewrite !length_drop; lia|]. cbn [mbind res_bind].
  set (cp := 0x10000 + _). pose proof (EncodeRune_length cp) as [Hl4 _].
  eexists _, _. split; [reflexivity|]. simpl. rewrite !length_drop. lia.
Qed.

(** At most [n] bytes, or a panic. *)
Definition atMost (n : nat) (r : res bytes) : Prop :=
  match r with Ok c => (length c <= n)%nat | Panic => True | _ => False end.

Lemma emit_atMost o r n m : atMost n r -> (length o + n <= m)%nat -> atMost m (appendOut o r).
Proof. destruct r; simpl; try done. rewrite length_app. lia. Qed.

Lemma compact_total fuel s b : (length b <= fuel)%nat -> atMost (length b) (compact fuel s b).
Proof.
  revert s b. induction fuel as [|fuel IH]; intros s [|c b] Hf; simpl in Hf; try lia; try (simpl; lia).
  assert (Hone : forall s, atMost (length (c :: b)) (appendOut [c] (compact fuel s b))).
  { intros s'. by apply (emit_atMost _ _ (length b)); [apply IH; lia|]. }
  cbn [compact]. destruct s; cbn [negb].
  - destruct (c =? 92); [|apply Hone]. destruct b as [|e b]; [done|]. simpl in Hf.
    assert (Hm : forall o, (length o <= 2)%nat -> atMost (length (c :: e :: b)) (appendOut o (compact fuel true b))).
    { intros o Ho. apply (emit_atMost _ _ (length b)); [apply IH; lia|simpl; lia]. }
    destruct (e =? 117); [|destruct (e =? 47); apply Hm; simpl; lia].
    destruct (escape_total b) as (o & r & E & Hl). pose proof (escape_shorter _ _ E) as Hs. rewrite E. cbn [mbind res_bind fst snd] in *.
    apply (emit_atMost _ _ (length r)); [apply IH; lia|simpl; lia].
  - destruct (c <=? 32); [|apply Hone]. specialize (IH false b ltac:(lia)). unfold atMost in *. case_match; simpl; try done. lia.
Qed.

(** C37: [CompactJSON] ends on every input, also one that is not JSON: it returns at
    most as many bytes as it was given, which is the capacity the callers reserve,
    or panics; an error is not possible.  A text of a value never panics
    ([compact_text]). *)
Theorem CompactJSON_total (b : bytes) :
  (exists c, CompactJSON b = Ok c /\ (length c <= length b)%nat) \/ CompactJSON b = Panic.
Proof.
  pose proof (compact_total (length b) false b ltac:(lia)) as Hc. unfold CompactJSON, atMost in *.
  destruct (compact _ _ _) as [c| | |]; try done; [left; by exists c|by right].
Qed.

(** ** A concrete [gjson] *)

#[local] Instance referenceGJson : GJson := {
  Valid b := match CompactJSON b with Ok c => match parse c with Some _ => true | None => false end | _ => false end;
  ParseBytes b := match parse b with Some v => resultOf v | None => RLeaf b end;
}.

#[local] Instance referenceGJson_laws : GJsonLaws.
Proof.
  split.
  - intros v b Ht. simpl. by rewrite (compact_text v b Ht), parse_compact by (by eapply text_wf).
  - intros v Hw. simpl. by rewrite parse_compact.
Qed.

(** [{"b": "\u0041", "a": 1}] and [{"a":1,"b":"A"}]. *)
Lemma canonical_json_faithful_witness :
  let v := JObj [([98], JStr [65]); ([97], JLit [49])] in
  let w := JObj [([97], JLit [49]); ([98], JStr [65])] in
  CanonicalJSON [123; 34; 98; 34; 58; 32; 34; 92; 117; 48; 48; 52; 49; 34; 44; 32; 34; 97; 34; 58; 32; 49; 125] =
  CanonicalJSON [123; 34; 97; 34; 58; 49; 44; 34; 98; 34; 58; 34; 65; 34; 125] <-> same v w.
Proof.
  intros v w. apply (canonical_json_faithful v w); [|by apply (text_compactOf w)|done|done].
  apply (text_obj _ [34; 98; 34; 58; 32; 34; 92; 117; 48; 48; 52; 49; 34; 44; 32; 34; 97; 34; 58; 32; 49]).
  apply (members_more [98] [34; 98; 34] (JStr [65]) [32; 34; 92; 117; 48; 48; 52; 49; 34] ([97], JLit [49]) []
           [32; 34; 97; 34; 58; 32; 49]).
  - by apply (text_compactOf (JStr [98])).
  - apply (text_ws _ [32] [34; 92; 117; 48; 48; 52; 49; 34] []); [done..|].
    apply (text_str [65] [92; 117; 48; 48; 52; 49]). apply (spelled_cons 65 [92; 117; 48; 48; 52; 49] [] []); [|constructor].
    apply sp_hex; [done|]. by eexists _, _, _, _, _, _, _, _.
  - apply (members_one [97] [32; 34; 97; 34] (JLit [49]) [32; 49]).
    + apply (text_ws _ [32] [34; 97; 34] []); [done..|]. by apply (text_compactOf (JStr [97])).
    + apply (text_ws _ [32] [49] []); [done..|]. by apply (text_compactOf (JLit [49])).
Defined.

(** A lone surrogate breaks canonical JSON.  [compactUnicodeEscape] takes the six
    bytes after a surrogate for its partner without looking at the first two, and
    gives up the rest of the input when fewer are left.  The different strings
    ["\ud800\udc00"] and ["\ud800xxdc00"] therefore have the same canonical form,
    and with it the same hash and signature, and ["\ud800"] loses its end. *)
Theorem lone_surrogate_collides `{GJson} :
  CanonicalJSONAssumeValid [34; 92; 117; 100; 56; 48; 48; 92; 117; 100; 99; 48; 48; 34] =
  CanonicalJSONAssumeValid [34; 92; 117; 100; 56; 48; 48; 120; 120; 100; 99; 48; 48; 34] /\
  CompactJSON [34; 92; 117; 100; 56; 48; 48; 34] = Ok [34].
Proof. split; vm_compute; reflexivity. Qed.

End CanonJsonFacts.
