(* ===== verification/Signing.v ===== *)
(** * Signing of JSON and of events

    [SignJSON] and [VerifyJSON] ([src/skunkworks/gomatrixserverlib/signing.go]) sign
    the canonical form of an object without its members [signatures] and [unsigned].
    Events are redacted before they are signed ([redactevent.go], [eventcrypto.go]),
    so that the signature stays valid when the event is redacted later.

    Outside the repository, and therefore parameters: the JSON library ([JsonLib]),
    Ed25519 and SHA-256 ([Crypto]) and [gjson] ([GJson]).  A Go map that may be nil is
    an [option]; writing to a nil map panics.  In a map of pointers [null] is a nil
    pointer. *)

From Stdlib Require Import String Ascii ZArith List.
From stdpp Require Import base tactics list gmap.
From S2P Require Import Prelude CanonJson.

#[local] Open Scope Z_scope.

Module Signing.
Import CanonJson.

(** ** Data *)

(** Strings are their bytes. *)
Fixpoint str (s : string) : list Z :=
  match s with
  | EmptyString => []
  | String a s' => Z.of_nat (nat_of_ascii a) :: str s'
  end.

Definition kSignatures : list Z := str "signatures".
Definition kUnsigned : list Z := str "unsigned".
Definition kHashes : list Z := str "hashes".
Definition kEventID : list Z := str "event_id".

(** [map[string]*RawMessage] and [map[string]rawJSON]. *)
Abbreviation Pointers := (option (gmap (list Z) (option bytes))).
Abbreviation Raws := (option (gmap (list Z) bytes)).
(** [map[string]map[KeyID]Base64String]; a nil inner map is like an empty one. *)
Abbreviation Sigs := (gmap (list Z) (gmap (list Z) bytes)).

(** The union of the contents that are kept; an empty field is absent. *)
Record allContent := mkContent {
  Creator : bytes;
  JoinRule : bytes;
  Users : bytes;
  UsersDefault : bytes;
  Events : bytes;
  EventsDefault : bytes;
  StateDefault : bytes;
  Ban : bytes;
  Kick : bytes;
  Redact : bytes;
  cMembership : bytes;
  Aliases : bytes;
  HistoryVisibility : bytes;
}.

Definition emptyContent : allContent := mkContent [] [] [] [] [] [] [] [] [] [] [] [] [].

Record eventFields := mkEventFields {
  fEventID : bytes;
  fSender : bytes;
  fRoomID : bytes;
  fHashes : bytes;
  fSignatures : bytes;
  fContent : allContent;
  fType : list Z;
  fStateKey : bytes;
  fDepth : bytes;
  fPrevEvents : bytes;
  fPrevState : bytes;
  fAuthEvents : bytes;
  fOrigin : bytes;
  fOriginServerTS : bytes;
  fMembership : bytes;
}.

Record ReferenceBytes := mkReference {
  refEventID : list Z;
  EventSHA256 : bytes;
}.

(** ** Libraries *)

Class JsonLib := {
  unmarshalPointers : bytes -> res Pointers;
  marshalPointers : Pointers -> res bytes;
  unmarshalRaws : bytes -> res Raws;
  marshalRaws : Raws -> res bytes;
  (** the text of this error is not modelled: it depends on the order of the members *)
  unmarshalSigs : bytes -> option Sigs;
  marshalSigs : Sigs -> res bytes;
  unmarshalEvent : bytes -> res eventFields;
  marshalEvent : eventFields -> res bytes;
  (** [struct { Signatures rawJSON }], a string, [struct { Sha256 Base64String }] *)
  unmarshalSignatures : bytes -> res bytes;
  unmarshalString : bytes -> res (list Z);
  marshalHashes : bytes -> res bytes;
}.

Class Crypto := {
  PrivateKey : Type;
  PublicKey : Type;
  Sign : PrivateKey -> bytes -> bytes;
  Verify : PublicKey -> bytes -> bytes -> bool;
  Sum256 : bytes -> bytes;
}.

Definition SignatureSize : nat := 64.

(** Reading and deleting works on a nil map, writing panics. *)
Definition get {A} (m : option (gmap (list Z) A)) (k : list Z) : option A := m ≫= lookup k.
Definition del {A} (k : list Z) (m : option (gmap (list Z) A)) : option (gmap (list Z) A) := delete k <$> m.
Definition put {A} (k : list Z) (a : A) (m : option (gmap (list Z) A)) : res (option (gmap (list Z) A)) :=
  o ← deref m; Ok (Some (<[k := a]> o)).

Definition decoded_sigs (o : option Sigs) : res Sigs :=
  match o with Some s => Ok s | None => Err (ErrMsg "json") end.

Section Signing.
  Context `{GJson} `{JsonLib} `{Crypto}.

(** ** JSON *)

Definition SignJSON (signingName keyID : list Z) (privateKey : PrivateKey) (message : bytes) : res bytes :=
  object ← unmarshalPointers message;
  let rawUnsigned := get object kUnsigned in
  let object := del kUnsigned object in
  p ← (match get object kSignatures with
       | Some (Some rawSignatures) =>
           signatures ← decoded_sigs (unmarshalSigs rawSignatures);
           Ok (signatures, del kSignatures object)
       | _ => Ok (∅, object)
       end);
  let '(signatures, object) := p in
  unsorted ← marshalPointers object;
  canonical ← CanonicalJSON unsorted;
  let signature := Sign privateKey canonical in
  let signatures := <[signingName := <[keyID := signature]> (default ∅ (signatures !! signingName))]> signatures in
  rawSignatures ← marshalSigs signatures;
  object ← put kSignatures (Some rawSignatures) object;
  object ← (match rawUnsigned with Some raw => put kUnsigned raw object | None => Ok object end);
  marshalPointers object.

Definition VerifyJSON (signingName keyID : list Z) (publicKey : PublicKey) (message : bytes) : res unit :=
  object ← unmarshalPointers message;
  match get object kSignatures with
  | Some (Some rawSignatures) =>
      signatures ← decoded_sigs (unmarshalSigs rawSignatures);
      match signatures !! signingName ≫= lookup keyID with
      | None => Err (ErrMsg "No signature")
      | Some signature =>
          if negb (length signature =? SignatureSize)%nat then Err (ErrMsg "Bad signature length")
          else
            let object := del kSignatures (del kUnsigned object) in
            unsorted ← marshalPointers object;
            canonical ← CanonicalJSON unsorted;
            if negb (Verify publicKey canonical signature) then Err (ErrMsg "Bad signature") else Ok ()
      end
  | _ => Err (ErrMsg "No signatures")
  end.

(** ** Redaction *)

(** The [switch] on the type of the event. *)
Definition newContent (ty : list Z) (c : allContent) : allContent :=
  if decide (ty = str "m.room.create") then
    mkContent (Creator c) [] [] [] [] [] [] [] [] [] [] [] []
  else if decide (ty = str "m.room.member") then
    mkContent [] [] [] [] [] [] [] [] [] [] (cMembership c) [] []
  else if decide (ty = str "m.room.join_rules") then
    mkContent [] (JoinRule c) [] [] [] [] [] [] [] [] [] [] []
  else if decide (ty = str "m.room.power_levels") then
    mkContent [] [] (Users c) (UsersDefault c) (Events c) (EventsDefault c) (StateDefault c) (Ban c) (Kick c) (Redact c)
      [] [] []
  else if decide (ty = str "m.room.history_visibility") then
    mkContent [] [] [] [] [] [] [] [] [] [] [] [] (HistoryVisibility c)
  else if decide (ty = str "m.room.aliases") then
    mkContent [] [] [] [] [] [] [] [] [] [] [] (Aliases c) []
  else emptyContent.

Definition set_content (e : eventFields) (c : allContent) : eventFields :=
  mkEventFields (fEventID e) (fSender e) (fRoomID e) (fHashes e) (fSignatures e) c (fType e) (fStateKey e) (fDepth e)
    (fPrevEvents e) (fPrevState e) (fAuthEvents e) (fOrigin e) (fOriginServerTS e) (fMembership e).

Definition redactFields (event : eventFields) : eventFields :=
  set_content event (newContent (fType event) (fContent event)).

Definition redactEvent (eventJSON : bytes) : res bytes :=
  event ← unmarshalEvent eventJSON;
  marshalEvent (redactFields event).

(** ** Events *)

Definition addContentHashesToEvent (eventJSON : bytes) : res bytes :=
  event ← unmarshalRaws eventJSON;
  let unsignedJSON := default [] (get event kUnsigned) in
  let event := del kHashes (del kUnsigned event) in
  hashable ← marshalRaws event;
  canonical ← CanonicalJSON hashable;
  hashesJSON ← marshalHashes (Sum256 canonical);
  event ← (if (0 <? length unsignedJSON)%nat then put kUnsigned unsignedJSON event else Ok event);
  event ← put kHashes hashesJSON event;
  marshalRaws event.

Definition referenceOfEvent (eventJSON : bytes) : res ReferenceBytes :=
  redactedJSON ← redactEvent eventJSON;
  event ← unmarshalRaws redactedJSON;
  let event := del kUnsigned (del kSignatures event) in
  hashable ← marshalRaws event;
  canonical ← CanonicalJSON hashable;
  eventID ← unmarshalString (default [] (get event kEventID));
  Ok (mkReference eventID (Sum256 canonical)).

Definition signEvent (signingName keyID : list Z) (privateKey : PrivateKey) (eventJSON : bytes) : res bytes :=
  redactedJSON ← redactEvent eventJSON;
  signedJSON ← SignJSON signingName keyID privateKey redactedJSON;
  signatures ← unmarshalSignatures signedJSON;
  event ← unmarshalRaws eventJSON;
  event ← put kSignatures signatures event;
  marshalRaws event.

Definition verifyEventSignature (signingName keyID : list Z) (publicKey : PublicKey) (eventJSON : bytes) : res unit :=
  redactedJSON ← redactEvent eventJSON;
  VerifyJSON signingName keyID publicKey redactedJSON.

End Signing.

End Signing.
