(* ===== verification/SigningFacts.v ===== *)
(** * Signing: theorems

    The libraries are described by [JsonLaws] and [CryptoLaws]: decoding an object
    gives the texts of its members and depends on the value only (in the Go version of
    the repository, 1.14, nesting has no bound), encoding gives a text of the object, a
    signature made with a key is accepted by its public key.

    - [signature_depends_on_value]: re-encoding a message does not change whether its
      signature is valid.
    - [sign_then_verify]: what is signed verifies, and earlier signatures still do.
    - [redacted_event_shape]: what a redacted event may contain.
    - [signature_survives_redaction]: an event's signature is valid for the event and
      for what is left of it after redaction. *)

From Stdlib Require Import String ZArith List Lia Permutation.
From stdpp Require Import base tactics list gmap.
From S2P Require Import Prelude CanonJson CanonBytes CanonText CanonJsonFacts Signing.

#[local] Open Scope Z_scope.

Module SigningFacts.
Import CanonJson CanonBytes CanonText CanonJsonFacts Signing.

(** ** Objects as maps *)

Abbreviation Obj := (gmap (list Z) json).

(** [b] is a text of the object [M]. *)
Definition object (M : Obj) (b : bytes) : Prop :=
  exists ms, NoDup (ms.*1) /\ list_to_map ms = M /\ text (JObj ms) b.

Definition canonOf (M : Obj) : bytes := compactOf (JObj (gosort key_leb (map_to_list (sortValue <$> M)))).

Definition keysOk (M : Obj) : Prop := map_Forall (fun k _ => forallb scalar k = true) M.

Lemma members_of ms M : NoDup (ms.*1) -> list_to_map ms = M -> Permutation (map inner ms) (map_to_list (sortValue <$> M)).
Proof.
  intros Hn <-. by rewrite map_to_list_fmap, map_to_list_to_map.
Qed.

Lemma object_canonical `{GJsonLaws} M b : object M b -> CanonicalJSON b = Ok (canonOf M).
Proof.
  intros (ms & Hn & Hm & Ht). rewrite (canonical_text _ b Ht). unfold canonOf. cbn [sortValue]. do 3 f_equal.
  apply members_sorted; [|by apply members_of]. by rewrite map_map.
Qed.

Lemma object_keys M b : object M b -> keysOk M.
Proof.
  intros (ms & Hn & <- & Ht) k v Hk. apply elem_of_list_to_map_2 in Hk.
  pose proof (proj1 text_wf _ b Ht) as Hw. cbn [wf] in Hw. rewrite forallb_forall in Hw.
  apply list_elem_of_In, Hw, andb_true_iff in Hk. naive_solver.
Qed.

Lemma object_wf M b k w : object M b -> M !! k = Some w -> wf w = true.
Proof.
  intros (ms & Hn & <- & Ht) Hk. apply elem_of_list_to_map_2 in Hk.
  pose proof (proj1 text_wf _ b Ht) as Hw. cbn [wf] in Hw. rewrite forallb_forall in Hw.
  apply list_elem_of_In, Hw, andb_true_iff in Hk. naive_solver.
Qed.

Lemma keysOk_delete k M : keysOk M -> keysOk (delete k M).
Proof. by apply map_Forall_delete. Qed.

Lemma keysOk_insert k v M : forallb scalar k = true -> keysOk M -> keysOk (<[k := v]> M).
Proof. intros. by apply map_Forall_insert_2. Qed.

(** Maps that belong together member by member. *)
Definition holds {A} (R : json -> A -> Prop) (M : Obj) (m : gmap (list Z) A) : Prop :=
  forall k, option_Forall2 R (M !! k) (m !! k).

Section Holds.
  Context {A : Type} (R : json -> A -> Prop).

Lemma holds_delete k M m : holds R M m -> holds R (delete k M) (delete k m).
Proof using.
  intros Hm k'. destruct (decide (k = k')) as [->|Hk]; [rewrite !lookup_delete_eq; constructor|].
  by rewrite !lookup_delete_ne.
Qed.

Lemma holds_insert k v a M m : R v a -> holds R M m -> holds R (<[k := v]> M) (<[k := a]> m).
Proof using.
  intros Hv Hm k'. destruct (decide (k = k')) as [->|Hk]; [rewrite !lookup_insert_eq; by constructor|].
  by rewrite !lookup_insert_ne.
Qed.

Lemma holds_some k v M m : holds R M m -> M !! k = Some v -> exists a, m !! k = Some a /\ R v a.
Proof using. intros Hm E. specialize (Hm k). rewrite E in Hm. inversion Hm; subst. by eexists. Qed.

Lemma holds_none k M m : holds R M m -> M !! k = None -> m !! k = None.
Proof using. intros Hm E. specialize (Hm k). rewrite E in Hm. by inversion Hm. Qed.

End Holds.

Definition isNull (v : json) : bool := match v with JLit l => bool_decide (l = str "null") | _ => false end.

(** A pointer to a text, or nil for [null]. *)
Definition pointsTo (v : json) (o : option bytes) : Prop :=
  match o with Some raw => text v raw /\ isNull v = false | None => isNull v = true end.

(** ** What the libraries do *)

(** Names are matched without regard to case: a key is clear when it is one of the
    names, or differs from all of them also in small letters. *)
Definition lower (k : list Z) : list Z := map (fun c => if (65 <=? c) && (c <=? 90) then c + 32 else c) k.
Definition clear (names : list (list Z)) (k : list Z) : Prop :=
  k ∈ names \/ (forallb (fun c => c <? 128) k = true /\ lower k ∉ names).

(** Names are characters, signatures are bytes. *)
Definition byte (b : Z) : Prop := 0 <= b < 256.
Definition okSigs (s : Sigs) : Prop :=
  map_Forall (fun n ks => forallb scalar n = true /\ map_Forall (fun k sig => forallb scalar k = true /\ Forall byte sig) ks) s.

Class JsonLaws `{JsonLib} : Prop := {
  law_unmarshalPointers M b : object M b -> exists m, unmarshalPointers b = Ok (Some m) /\ holds pointsTo M m;
  law_marshalPointers M m : keysOk M -> holds pointsTo M m -> exists b, marshalPointers (Some m) = Ok b /\ object M b;
  law_unmarshalRaws M b : object M b -> exists m, unmarshalRaws b = Ok (Some m) /\ holds text M m;
  law_marshalRaws M m : keysOk M -> holds text M m -> exists b, marshalRaws (Some m) = Ok b /\ object M b;
  law_sigs_value v w b c : text v b -> text w c -> sortValue v = sortValue w -> unmarshalSigs b = unmarshalSigs c;
  law_sigs_ok b s : unmarshalSigs b = Some s -> okSigs s;
  law_marshalSigs s : okSigs s -> exists v b, marshalSigs s = Ok b /\ text v b /\ isNull v = false /\ unmarshalSigs b = Some s;
  law_unmarshalSignatures M b v : object M b -> map_Forall (fun k _ => clear [kSignatures] k) M -> M !! kSignatures = Some v ->
    exists raw, unmarshalSignatures b = Ok raw /\ text v raw;
}.

Class CryptoLaws `{Crypto} (sk : PrivateKey) (pk : PublicKey) : Prop := {
  law_signature m : length (Sign sk m) = SignatureSize /\ Forall byte (Sign sk m);
  law_verify m : Verify pk m (Sign sk m) = true;
}.

(** ** Verifying reads the value *)

Section Verifying.
  Context `{GJsonLaws} `{JsonLaws} `{Crypto}.

(** What is signed of an object. *)
Definition signedPart (M : Obj) : Obj := delete kSignatures (delete kUnsigned M).

Definition verifyValue (name keyID : list Z) (pk : PublicKey) (M : Obj) : res unit :=
  match M !! kSignatures with
  | Some w =>
      if isNull w then Err (ErrMsg "No signatures")
      else
        sigs ← decoded_sigs (unmarshalSigs (compactOf w));
        match sigs !! name ≫= lookup keyID with
        | None => Err (ErrMsg "No signature")
        | Some signature =>
            if negb (length signature =? SignatureSize)%nat then Err (ErrMsg "Bad signature length")
            else if negb (Verify pk (canonOf (signedPart M)) signature) then Err (ErrMsg "Bad signature") else Ok ()
        end
  | None => Err (ErrMsg "No signatures")
  end.

(** The signatures of a member, whatever its text. *)
Lemma sigs_text w b : text w b -> unmarshalSigs b = unmarshalSigs (compactOf w).
Proof using H2. intros Ht. apply (law_sigs_value w w); [done|by apply text_compactOf, (proj1 text_wf w b)|done]. Qed.

Lemma marshal_canonical M m : keysOk M -> holds pointsTo M m ->
  (unsorted ← marshalPointers (Some m); CanonicalJSON unsorted) = Ok (canonOf M).
Proof using H0 H2.
  intros Hk Hm. destruct (law_marshalPointers M m Hk Hm) as (b & -> & Hb). by apply object_canonical.
Qed.

Lemma verify_object name keyID pk M b : object M b -> VerifyJSON name keyID pk b = verifyValue name keyID pk M.
Proof using H0 H2.
  intros Hb. destruct (law_unmarshalPointers M b Hb) as (m & E & Hm). unfold VerifyJSON, verifyValue. rewrite E.
  cbn [mbind res_bind]. unfold get. cbn [mbind option_bind].
  destruct (M !! kSignatures) as [w|] eqn:Ew; [|by rewrite (holds_none _ _ _ _ Hm Ew)].
  destruct (holds_some _ _ _ _ _ Hm Ew) as ([raw|] & -> & Hp); simpl in Hp; [|by rewrite Hp].
  destruct Hp as [Ht ->]. rewrite (sigs_text w raw Ht). destruct (unmarshalSigs (compactOf w)) as [sigs|];
    cbn [decoded_sigs mbind res_bind]; [|done]. destruct (sigs !! name ≫= lookup keyID) as [sg|]; [|done]. destruct (negb _); [done|].
  unfold del. cbn [fmap option_fmap option_map].
  pose proof (marshal_canonical (signedPart M) (delete kSignatures (delete kUnsigned m))
    (keysOk_delete _ _ (keysOk_delete _ _ (object_keys M b Hb))) (holds_delete _ _ _ _ (holds_delete _ _ _ _ Hm))) as Ec.
  destruct (marshalPointers _) as [u| | |]; cbn [mbind res_bind] in Ec |- *; try done. by rewrite Ec.
Qed.

Lemma verifyValue_sorted name keyID pk M N b c : object M b -> object N c -> sortValue <$> M = sortValue <$> N ->
  verifyValue name keyID pk M = verifyValue name keyID pk N.
Proof using H2.
  intros Hb Hc E. unfold verifyValue.
  assert (Ep : canonOf (signedPart M) = canonOf (signedPart N)) by (unfold canonOf, signedPart; by rewrite !fmap_delete, E).
  assert (Ek : sortValue <$> M !! kSignatures = sortValue <$> N !! kSignatures) by (by rewrite <- !lookup_fmap, E).
  rewrite Ep. destruct (M !! kSignatures) as [v|] eqn:Ev, (N !! kSignatures) as [w|] eqn:Ew; try done.
  injection Ek as Ek. pose proof (sorted_same v w Ek) as Hvw.
  assert (isNull v = isNull w) as -> by (by destruct Hvw). destruct (isNull w); [done|].
  by rewrite (law_sigs_value v w (compactOf v) (compactOf w)) by (try apply text_compactOf; by eauto using object_wf).
Qed.

Lemma sorted_members ms ns : NoDup (ms.*1) -> NoDup (ns.*1) -> sortValue (JObj ms) = sortValue (JObj ns) ->
  sortValue <$> (list_to_map ms : Obj) = sortValue <$> (list_to_map ns : Obj).
Proof using.
  intros Hm Hn [= E]. apply map_to_list_inj. rewrite <- (members_of ms), <- (members_of ns) by done.
  by rewrite (gosort_perm key_leb), E, <- (gosort_perm key_leb).
Qed.

Lemma distinct_keys ms : distinct (JObj ms) = true -> NoDup (ms.*1).
Proof using. cbn [distinct]. by intros [Hl%bool_decide_eq_true _]%andb_true_iff. Qed.

(** A signature belongs to the value that is signed, not to its text: two
    messages that are texts of the same object, up to whitespace, escapes and the
    order of members at any depth, get the same verdict for every name and key. *)
Theorem signature_depends_on_value (name keyID : list Z) (pk : PublicKey) (ms ns : list (list Z * json)) (b c : bytes) :
  text (JObj ms) b -> text (JObj ns) c -> distinct (JObj ms) = true -> distinct (JObj ns) = true ->
  same (JObj ms) (JObj ns) -> VerifyJSON name keyID pk b = VerifyJSON name keyID pk c.
Proof using H0 H2.
  intros Hb Hc Hd Hd' Hs. pose proof (distinct_keys ms Hd) as Hm. pose proof (distinct_keys ns Hd') as Hn.
  assert (HM : object (list_to_map ms) b) by (exists ms; auto). assert (HN : object (list_to_map ns) c) by (exists ns; auto).
  rewrite (verify_object name keyID pk _ b HM), (verify_object name keyID pk _ c HN).
  apply (verifyValue_sorted _ _ _ _ _ b c HM HN). apply sorted_members; auto. by apply (proj1 same_sorted).
Qed.

End Verifying.

(** ** Signing *)

Section SignThenVerify.
  Context `{GJsonLaws} `{JsonLaws} `{Crypto} (sk : PrivateKey) (pk : PublicKey) `{!CryptoLaws sk pk}.

Lemma okSigs_insert s name keyID sig :
  okSigs s -> forallb scalar name = true -> forallb scalar keyID = true -> Forall byte sig ->
  okSigs (<[name := <[keyID := sig]> (default ∅ (s !! name))]> s).
Proof using.
  intros Hs Hn Hk Hb. apply map_Forall_insert_2; [|done]. split; [done|]. apply map_Forall_insert_2; [done|].
  destruct (s !! name) as [ks|] eqn:E; [|apply map_Forall_empty]. by apply Hs in E as [_ E].
Qed.

(** The signatures an object carries. *)
Definition carries (M : Obj) (s : Sigs) : Prop :=
  match M !! kSignatures with
  | Some w => isNull w = false /\ unmarshalSigs (compactOf w) = Some s
  | None => s = ∅
  end.

(** What signing makes of an object. *)
Lemma sign_object name keyID M b s0 : object M b -> carries M s0 ->
  forallb scalar name = true -> forallb scalar keyID = true ->
  let s1 := <[name := <[keyID := Sign sk (canonOf (signedPart M))]> (default ∅ (s0 !! name))]> s0 in
  exists c w, SignJSON name keyID sk b = Ok c /\ object (<[kSignatures := w]> M) c /\ isNull w = false /\
    unmarshalSigs (compactOf w) = Some s1.
Proof using All.
  intros Hb Hc Hn Hk s1. destruct (law_unmarshalPointers M b Hb) as (m & E & Hm). unfold SignJSON. rewrite E.
  cbn [mbind res_bind]. unfold get, del. cbn [mbind option_bind fmap option_fmap option_map].
  assert (Hp : match (delete kUnsigned m) !! kSignatures with
               | Some (Some raw) => signatures ← decoded_sigs (unmarshalSigs raw); Ok (signatures, Some (delete kSignatures (delete kUnsigned m)))
               | _ => Ok (∅, Some (delete kUnsigned m))
               end = Ok (s0, Some (delete kSignatures (delete kUnsigned m)))).
  { rewrite lookup_delete_ne by done. unfold carries in Hc. destruct (M !! kSignatures) as [w|] eqn:Ew.
    - destruct (holds_some _ _ _ _ _ Hm Ew) as ([raw|] & -> & Hp); simpl in Hp; [|destruct Hc; congruence].
      destruct Hp as [Ht _], Hc as [_ Hs]. rewrite (sigs_text w raw Ht), Hs. done.
    - rewrite (holds_none _ _ _ _ Hm Ew). subst s0.
      rewrite (delete_id (delete kUnsigned m)); [done|]. rewrite lookup_delete_ne by done. by apply (holds_none _ _ _ _ Hm). }
  rewrite Hp. cbn [mbind res_bind]. clear Hp. set (d := delete kSignatures (delete kUnsigned m)).
  assert (Hd : holds pointsTo (signedPart M) d) by (by apply holds_delete, holds_delete).
  assert (Hkp : keysOk (signedPart M)) by (apply keysOk_delete, keysOk_delete; by eapply object_keys).
  pose proof (marshal_canonical (signedPart M) d Hkp Hd) as Ec.
  destruct (marshalPointers (Some d)) as [u| | |]; cbn [mbind res_bind] in Ec |- *; try done. rewrite Ec. cbn [mbind res_bind].
  destruct (law_signature (sk := sk) (canonOf (signedPart M))) as [_ Hby].
  assert (Hs0 : okSigs s0).
  { unfold carries in Hc. destruct (M !! kSignatures); [|subst s0; apply map_Forall_empty]. destruct Hc as [_ Hc]. by eapply law_sigs_ok. }
  destruct (law_marshalSigs s1) as (w & raw & Es & Ht & Hnull & Er); [by apply okSigs_insert|].
  fold s1. rewrite Es. cbn [mbind res_bind].
  set (m1 := match m !! kUnsigned with Some r => <[kUnsigned := r]> (<[kSignatures := Some raw]> d) | None => <[kSignatures := Some raw]> d end).
  assert (Hf : (object0 ← put kSignatures (Some raw) (Some d);
                object1 ← (match m !! kUnsigned with Some r => put kUnsigned r object0 | None => Ok object0 end);
                marshalPointers object1) = marshalPointers (Some m1)).
  { unfold put, m1. cbn [deref mbind res_bind]. by destruct (m !! kUnsigned). }
  rewrite Hf.
  assert (Hm1 : holds pointsTo (<[kSignatures := w]> M) m1).
  { intros k. unfold m1, d. destruct (decide (k = kSignatures)) as [->|Hks].
    - rewrite lookup_insert_eq. destruct (m !! kUnsigned); rewrite ?lookup_insert_ne, ?lookup_insert_eq by done; by constructor.
    - rewrite lookup_insert_ne by done. destruct (decide (k = kUnsigned)) as [->|Hku].
      + specialize (Hm kUnsigned). destruct (m !! kUnsigned) eqn:Eu; rewrite ?lookup_insert_eq; [done|].
        rewrite lookup_insert_ne, lookup_delete_ne, lookup_delete_eq by done. done.
      + specialize (Hm k). destruct (m !! kUnsigned); by rewrite ?lookup_insert_ne, !lookup_delete_ne by done. }
  destruct (law_marshalPointers (<[kSignatures := w]> M) m1) as (c & -> & Hoc); [|done|].
  { apply keysOk_insert; [done|by eapply object_keys]. }
  exists c, w. split_and!; try done. by rewrite <- (sigs_text w raw).
Qed.

Lemma signedPart_sign w M : signedPart (<[kSignatures := w]> M) = signedPart M.
Proof using. unfold signedPart. by rewrite delete_insert_ne, delete_insert_eq by done. Qed.

Lemma verify_signed name keyID M w s0 :
  isNull w = false ->
  unmarshalSigs (compactOf w) = Some (<[name := <[keyID := Sign sk (canonOf (signedPart M))]> (default ∅ (s0 !! name))]> s0) ->
  verifyValue name keyID pk (<[kSignatures := w]> M) = Ok ().
Proof using All.
  intros Hn Hu. unfold verifyValue. rewrite lookup_insert_eq, Hn, Hu, signedPart_sign. cbn [decoded_sigs mbind res_bind option_bind].
  rewrite lookup_insert_eq. cbn [mbind option_bind]. rewrite lookup_insert_eq.
  destruct (law_signature (sk := sk) (canonOf (signedPart M))) as [-> _]. rewrite Nat.eqb_refl. cbn [negb].
  by rewrite (law_verify (sk := sk)).
Qed.

(** C38: Signing a message that carries no signatures, or an object of them
    ([carries]: not [null]), with names that are sequences of characters is a success,
    the signature verifies, and the signatures of other servers and keys that the
    message carried before are still valid. *)
Theorem sign_then_verify (name keyID : list Z) (M : Obj) (b : bytes) (s0 : Sigs) :
  object M b -> carries M s0 -> forallb scalar name = true -> forallb scalar keyID = true ->
  exists c, SignJSON name keyID sk b = Ok c /\ VerifyJSON name keyID pk c = Ok () /\
    forall n k p, (n, k) <> (name, keyID) -> VerifyJSON n k p b = Ok () -> VerifyJSON n k p c = Ok ().
Proof using All.
  intros Hb Hc Hn Hk. destruct (sign_object name keyID M b s0 Hb Hc Hn Hk) as (c & w & E & Hoc & Hnull & Hu).
  exists c. split; [done|]. split; [rewrite (verify_object _ _ _ _ _ Hoc); by eapply verify_signed|].
  intros n k p Hnk. rewrite (verify_object _ _ _ _ _ Hb), (verify_object _ _ _ _ _ Hoc). unfold verifyValue, carries in *.
  destruct (M !! kSignatures) as [w0|]; [|done]. destruct Hc as [-> Hc]. rewrite lookup_insert_eq, Hnull, Hu, Hc, signedPart_sign.
  cbn [decoded_sigs mbind res_bind option_bind]. destruct (decide (n = name)) as [->|Hne].
  - rewrite lookup_insert_eq. cbn [mbind option_bind]. rewrite lookup_insert_ne by congruence. by destruct (s0 !! name).
  - by rewrite lookup_insert_ne.
Qed.

End SignThenVerify.

(** ** Redaction *)

Definition kType : list Z := str "type".
Definition kContent : list Z := str "content".

Definition fieldsOf (e : eventFields) : list (list Z * bytes) :=
  [(str "event_id", fEventID e); (str "sender", fSender e); (str "room_id", fRoomID e); (str "hashes", fHashes e);
   (str "signatures", fSignatures e); (str "state_key", fStateKey e); (str "depth", fDepth e);
   (str "prev_events", fPrevEvents e); (str "prev_state", fPrevState e); (str "auth_events", fAuthEvents e);
   (str "origin", fOrigin e); (str "origin_server_ts", fOriginServerTS e); (str "membership", fMembership e)].

Definition contentOf (c : allContent) : list (list Z * bytes) :=
  [(str "creator", Creator c); (str "join_rule", JoinRule c); (str "users", Users c); (str "users_default", UsersDefault c);
   (str "events", Events c); (str "events_default", EventsDefault c); (str "state_default", StateDefault c);
   (str "ban", Ban c); (str "kick", Kick c); (str "redact", Redact c); (str "membership", cMembership c);
   (str "aliases", Aliases c); (str "history_visibility", HistoryVisibility c)].

Definition eventNames : list (list Z) :=
  map fst (fieldsOf (mkEventFields [] [] [] [] [] emptyContent [] [] [] [] [] [] [] [] [])).
Definition contentNames : list (list Z) := map fst (contentOf emptyContent).

(** The members of the content that are kept for a type. *)
Definition keptFor (ty : list Z) : list (list Z) :=
  if decide (ty = str "m.room.create") then [str "creator"]
  else if decide (ty = str "m.room.member") then [str "membership"]
  else if decide (ty = str "m.room.join_rules") then [str "join_rule"]
  else if decide (ty = str "m.room.power_levels") then
    [str "users"; str "users_default"; str "events"; str "events_default"; str "state_default"; str "ban"; str "kick"; str "redact"]
  else if decide (ty = str "m.room.history_visibility") then [str "history_visibility"]
  else if decide (ty = str "m.room.aliases") then [str "aliases"]
  else [].

Definition restrict (names : list (list Z)) (M : Obj) : Obj := filter (fun kv => kv.1 ∈ names) M.

Lemma restrict_in names M k : k ∈ names -> restrict names M !! k = M !! k.
Proof.
  intros Hk. unfold restrict. destruct (M !! k) as [v|] eqn:E.
  - by apply map_lookup_filter_Some.
  - apply map_lookup_filter_None. by left.
Qed.

Lemma restrict_out names M k : k ∉ names -> restrict names M !! k = None.
Proof. intros Hk. apply map_lookup_filter_None. right. by intros ? _. Qed.

(** Fields hold the text of a member, or nothing. *)
Definition readsFields (M : Obj) (fs : list (list Z * bytes)) : Prop :=
  Forall (fun f => match M !! f.1 with Some w => text w f.2 | None => f.2 = [] end) fs.

Record isEvent (M : Obj) (cms : list (list Z * json)) (ty : list Z) : Prop := {
  ev_type : M !! kType = Some (JStr ty);
  ev_content : M !! kContent = Some (JObj cms);
  ev_nodup : NoDup (cms.*1);
  ev_keys : map_Forall (fun k _ => clear (kType :: kContent :: eventNames) k) M;
  ev_ckeys : Forall (clear contentNames) (cms.*1);
}.

Class EventLaws `{JsonLib} : Prop := {
  law_unmarshalEvent M cms ty b : object M b -> isEvent M cms ty ->
    exists e, unmarshalEvent b = Ok e /\ fType e = ty /\ readsFields M (fieldsOf e) /\
      readsFields (list_to_map cms) (contentOf (fContent e));
  law_marshalEvent e M C : readsFields M (fieldsOf e) -> readsFields C (contentOf (fContent e)) ->
    forallb scalar (fType e) = true ->
    exists b cms, marshalEvent e = Ok b /\ NoDup (cms.*1) /\ list_to_map cms = restrict contentNames C /\
      object (<[kType := JStr (fType e)]> (<[kContent := JObj cms]> (restrict eventNames M))) b;
}.

Lemma kept_names ty : keptFor ty ⊆ contentNames.
Proof.
  unfold keptFor. repeat case_decide; apply (bool_decide_unpack _); vm_compute; exact I.
Qed.

Lemma newContent_reads (ty : list Z) (c : allContent) (C : Obj) : readsFields C (contentOf c) ->
  readsFields (restrict (keptFor ty) C) (contentOf (newContent ty c)).
Proof.
  unfold readsFields, contentOf. rewrite !Forall_cons. cbn [fst snd]. intros Hc. destruct_and! Hc.
  unfold newContent, keptFor. repeat case_decide; cbn [Creator JoinRule Users UsersDefault Events EventsDefault StateDefault Ban Kick
    Redact cMembership Aliases HistoryVisibility emptyContent].
  all: repeat match goal with
    | |- Forall _ (_ :: _) => apply Forall_cons; split; cbn [fst snd]
    | |- Forall _ [] => apply Forall_nil_2
    | |- context [restrict ?n ?M !! ?k] =>
        first [ rewrite (restrict_in n M k) by (apply (bool_decide_unpack _); vm_compute; exact I)
              | rewrite (restrict_out n M k) by (apply (bool_decide_unpack _); vm_compute; exact I) ]
    end; try done.
Qed.

(** What is left of an event: the listed members with their values, its type, and of
    its content the members kept for the type. *)
Definition redacted (M : Obj) (cms : list (list Z * json)) (ty : list Z) (N : Obj) : Prop :=
  exists kms, NoDup (kms.*1) /\ list_to_map kms = restrict (keptFor ty) (list_to_map cms) /\
    N = <[kType := JStr ty]> (<[kContent := JObj kms]> (restrict eventNames M)).

Lemma restrict_twice (ks ns : list (list Z)) (M : Obj) : ks ⊆ ns -> restrict ns (restrict ks M) = restrict ks M.
Proof.
  intros Hs. apply map_eq. intros k. destruct (decide (k ∈ ns)) as [Hk|Hk]; [by apply restrict_in|].
  rewrite !restrict_out; auto.
Qed.

Lemma type_scalar M cms ty b : object M b -> isEvent M cms ty -> forallb scalar ty = true.
Proof. intros Hb He. exact (object_wf M b kType (JStr ty) Hb (ev_type _ _ _ He)). Qed.

Lemma redact_object `{EventLaws} M cms ty b : object M b -> isEvent M cms ty ->
  exists c N, redactEvent b = Ok c /\ object N c /\ redacted M cms ty N.
Proof.
  intros Hb He. destruct (law_unmarshalEvent M cms ty b Hb He) as (e & E & Ht & Hf & Hc).
  destruct (law_marshalEvent (redactFields e) M (restrict (keptFor ty) (list_to_map cms))) as (c & kms & Em & Hn & Hk & Ho).
  - done.
  - unfold redactFields. rewrite Ht. by apply newContent_reads.
  - cbn [redactFields set_content fType]. rewrite Ht. by eapply type_scalar.
  - cbn [redactFields set_content fType] in Ho. rewrite Ht in Ho. rewrite restrict_twice in Hk by apply kept_names.
    eexists c, _. split; [|split; [exact Ho|by exists kms]]. unfold redactEvent. by rewrite E.
Qed.

(** C39: Redaction gives exactly what is left of an event: for every event (an object
    with a type, a content and keys that do not differ from the known names in case
    only) [redactEvent] succeeds, and its result is a text of the object that has
    the thirteen kept members with their values, the type, and as content only the
    members kept for this type. *)
Theorem redacted_event_shape `{EventLaws} (M : Obj) (cms : list (list Z * json)) (ty : list Z) (b : bytes) :
  object M b -> isEvent M cms ty -> exists c N, redactEvent b = Ok c /\ object N c /\ redacted M cms ty N.
Proof. apply redact_object. Qed.

Section Events.
  Context `{GJsonLaws} `{JsonLib} `{!JsonLaws} `{!EventLaws} `{Crypto} (sk : PrivateKey) (pk : PublicKey) `{!CryptoLaws sk pk}.

(** What is redacted is an event, with the same signatures. *)
Lemma redacted_event M cms ty N : isEvent M cms ty -> redacted M cms ty N ->
  exists kms, isEvent N kms ty /\ list_to_map kms = restrict (keptFor ty) (list_to_map cms) /\
    restrict eventNames N = restrict eventNames M.
Proof using.
  intros He (kms & Hn & Hk & ->). exists kms. split_and!; [split| done |].
  - apply lookup_insert_eq.
  - rewrite lookup_insert_ne, lookup_insert_eq by done. done.
  - done.
  - apply map_Forall_insert_2; [left; by left|]. apply map_Forall_insert_2; [left; right; by left|].
    intros k v [_ Hin]%map_lookup_filter_Some. left. by do 2 right.
  - apply Forall_forall. intros k [[k' v] [-> Hk']]%list_elem_of_fmap. left. apply (kept_names ty).
    apply (elem_of_list_to_map_1 _ _ _ Hn) in Hk'. rewrite Hk in Hk'. by apply map_lookup_filter_Some in Hk' as [_ ?].
  - apply map_eq. intros k. destruct (decide (k ∈ eventNames)) as [Hin|Hin]; [|by rewrite !restrict_out].
    rewrite !restrict_in by done. rewrite !lookup_insert_ne, restrict_in; [done|done| |];
      intros <-; revert Hin; apply (bool_decide_unpack _); vm_compute; exact I.
Qed.

(** Two redactions of one event are the same value. *)
Lemma redacted_sorted M cms ty N M' cms' N' :
  redacted M cms ty N -> redacted M' cms' ty N' -> restrict eventNames M = restrict eventNames M' ->
  restrict (keptFor ty) (list_to_map cms) = restrict (keptFor ty) (list_to_map cms') -> sortValue <$> N = sortValue <$> N'.
Proof using.
  intros (kms & Hn & Hk & ->) (kms' & Hn' & Hk' & ->) HM HC. rewrite !fmap_insert, HM. do 2 f_equal. cbn [sortValue]. f_equal.
  apply members_sorted; [by rewrite map_map|]. apply Permutation_map.
  apply (list_to_map_inj (M := gmap (list Z))); [done..|]. by rewrite Hk, Hk', HC.
Qed.

Lemma signed_event M cms ty w : isEvent M cms ty -> isEvent (<[kSignatures := w]> M) cms ty.
Proof using.
  intros [? ? ? ? ?]. split; try done.
  - by rewrite lookup_insert_ne.
  - by rewrite lookup_insert_ne.
  - apply map_Forall_insert_2; [|done]. left. apply (bool_decide_unpack _). vm_compute. exact I.
Qed.

Lemma restrict_signed w M : restrict eventNames (<[kSignatures := w]> M) = <[kSignatures := w]> (restrict eventNames M).
Proof using.
  apply map_filter_insert_True. apply (bool_decide_unpack _). vm_compute. exact I.
Qed.

Lemma redacted_signed M cms ty N w : redacted M cms ty N -> redacted (<[kSignatures := w]> M) cms ty (<[kSignatures := w]> N).
Proof using.
  intros (kms & Hn & Hk & ->). exists kms. split_and!; [done..|]. rewrite restrict_signed.
  by rewrite !(insert_insert_ne _ kSignatures) by done.
Qed.

Lemma redacted_carries M cms ty N s : redacted M cms ty N -> carries M s -> carries N s.
Proof using.
  intros (kms & _ & _ & ->). unfold carries. rewrite !lookup_insert_ne by done.
  rewrite restrict_in by (apply (bool_decide_unpack _); vm_compute; exact I). done.
Qed.

(** No name of a redacted event differs from [signatures] in case only. *)
Lemma redacted_clear M cms ty N w : redacted M cms ty N ->
  map_Forall (fun k _ => clear [kSignatures] k) (<[kSignatures := w]> N).
Proof using.
  intros (kms & _ & _ & ->).
  assert (Hall : Forall (clear [kSignatures]) (kSignatures :: kType :: kContent :: eventNames)).
  { repeat (apply Forall_cons; split; [unfold clear; apply (bool_decide_unpack _); vm_compute; exact I|]). apply Forall_nil_2. }
  rewrite Forall_forall in Hall.
  apply map_Forall_insert_2; [apply Hall; by left|]. apply map_Forall_insert_2; [apply Hall; right; by left|].
  apply map_Forall_insert_2; [apply Hall; right; right; by left|].
  intros k v [_ Hin]%map_lookup_filter_Some. apply Hall. by do 3 right.
Qed.

(** Redacting what is redacted changes nothing. *)
Lemma redact_again M cms ty N r : isEvent M cms ty -> redacted M cms ty N -> object N r ->
  exists r' N', redactEvent r = Ok r' /\ object N' r' /\ sortValue <$> N' = sortValue <$> N.
Proof using All.
  intros He HR Ho. destruct (redacted_event M cms ty N He HR) as (kms & HeN & Hk & Hr).
  destruct (redact_object N kms ty r Ho HeN) as (r' & N' & E & Ho' & HR'). exists r', N'. split_and!; [done..|].
  eapply redacted_sorted; [exact HR'|exact HR|done|]. rewrite Hk. by apply restrict_twice.
Qed.

(** The event with the new signatures. *)
Lemma signEvent_object name keyID M cms ty b s0 : object M b -> isEvent M cms ty -> carries M s0 ->
  forallb scalar name = true -> forallb scalar keyID = true ->
  exists e w N sj, signEvent name keyID sk b = Ok e /\ object (<[kSignatures := w]> M) e /\ redacted M cms ty N /\
    object (<[kSignatures := w]> N) sj /\ verifyValue name keyID pk (<[kSignatures := w]> N) = Ok ().
Proof using All.
  intros Hb He Hc Hn Hk. destruct (redact_object M cms ty b Hb He) as (r0 & N & E0 & HN & HR).
  destruct (sign_object sk pk name keyID N r0 s0 HN) as (sj & w & Es & Hsj & Hnull & Hu); [by eapply redacted_carries|done..|].
  destruct (law_unmarshalSignatures _ sj w Hsj) as (raw & Eu & Hw); [by eapply redacted_clear|apply lookup_insert_eq|].
  destruct (law_unmarshalRaws M b Hb) as (m & Em & Hm).
  destruct (law_marshalRaws (<[kSignatures := w]> M) (<[kSignatures := raw]> m)) as (e & Ee & Ho).
  { apply keysOk_insert; [done|by eapply object_keys]. }
  { by apply holds_insert. }
  exists e, w, N, sj. split_and!; try done.
  - unfold signEvent. rewrite E0. cbn [mbind res_bind]. rewrite Es. cbn [mbind res_bind]. rewrite Eu. cbn [mbind res_bind].
    rewrite Em. cbn [mbind res_bind put deref]. done.
  - by eapply verify_signed.
Qed.

(** C14: An event's signature survives redaction. For an event (an object with a type,
    a content and no member names that differ from the known ones in case only) that
    carries no [null] as signatures: signing it succeeds; the signature verifies on
    the signed event, and after the event was redacted it verifies on what is left,
    both as an event and as plain JSON. *)
Theorem signature_survives_redaction (name keyID : list Z) (M : Obj) (cms : list (list Z * json)) (ty : list Z)
    (b : bytes) (s0 : Sigs) :
  object M b -> isEvent M cms ty -> carries M s0 -> forallb scalar name = true -> forallb scalar keyID = true ->
  exists e r, signEvent name keyID sk b = Ok e /\ verifyEventSignature name keyID pk e = Ok () /\
    redactEvent e = Ok r /\ verifyEventSignature name keyID pk r = Ok () /\ VerifyJSON name keyID pk r = Ok ().
Proof using All.
  intros Hb He Hc Hn Hk.
  destruct (signEvent_object name keyID M cms ty b s0 Hb He Hc Hn Hk) as (e & w & N & sj & E & Ho & HR & Hsj & Hv).
  pose proof (signed_event M cms ty w He) as He1.
  destruct (redact_object _ cms ty e Ho He1) as (r & N1 & Er & Ho1 & HR1).
  assert (Hs : sortValue <$> N1 = sortValue <$> <[kSignatures := w]> N).
  { eapply redacted_sorted; [exact HR1|by apply redacted_signed|done|done]. }
  assert (Hr : VerifyJSON name keyID pk r = Ok ()).
  { rewrite (verify_object _ _ _ _ _ Ho1). by rewrite (verifyValue_sorted _ _ _ _ _ _ _ Ho1 Hsj Hs). }
  destruct (redact_again _ cms ty N1 r He1 HR1 Ho1) as (r' & N' & Er' & Ho' & Hs').
  exists e, r. unfold verifyEventSignature. rewrite Er, Er'. cbn [mbind res_bind]. split_and!; try done.
  rewrite (verify_object _ _ _ _ _ Ho'), (verifyValue_sorted _ _ _ _ _ _ _ Ho' Ho1 Hs').
  by rewrite <- (verify_object _ _ _ _ _ Ho1).
Qed.

End Events.

End SigningFacts.
