(* ===== verification/SigningModel.v ===== *)
(** * A JSON library that has the laws

    [JsonLaws], [EventLaws] and [CryptoLaws] describe libraries outside the
    repository.  Here they are met by a library built on the reference parser
    ([CanonText.parse]) and by a checksum in place of Ed25519, so that the theorems on
    signing apply to concrete messages. *)

From Stdlib Require Import String ZArith List Lia Permutation.
From stdpp Require Import base tactics list gmap.
From S2P Require Import Prelude CanonJson CanonBytes CanonText CanonJsonFacts Signing SigningFacts.

#[local] Open Scope Z_scope.

Module SigningModel.
Import CanonJson CanonBytes CanonText CanonJsonFacts Signing SigningFacts.

#[local] Existing Instances CanonJsonFacts.referenceGJson CanonJsonFacts.referenceGJson_laws.

(** ** Decoding *)

Definition decodeText (b : bytes) : option json := match CompactJSON b with Ok c => parse c | _ => None end.

Lemma decode_text v b : text v b -> decodeText b = Some v.
Proof. intros Ht. unfold decodeText. rewrite (compact_text v b Ht). apply parse_compact. by eapply text_wf. Qed.

Definition jnull : json := JLit (str "null").

Definition decoded (raw : bytes) : json := default jnull (decodeText raw).

Lemma decoded_text v b : text v b -> decoded b = v.
Proof. intros Ht. unfold decoded. by rewrite (decode_text v b Ht). Qed.

Lemma null_inv v : isNull v = true -> v = jnull.
Proof. destruct v; try done. simpl. by intros ->%bool_decide_eq_true. Qed.

Definition objOf (b : bytes) : option Obj :=
  match decodeText b with Some (JObj ms) => Some (list_to_map ms) | _ => None end.

Lemma objOf_object M b : object M b -> objOf b = Some M.
Proof. intros (ms & _ & <- & Ht). unfold objOf. by rewrite (decode_text _ b Ht). Qed.

Definition printObj (M : Obj) : bytes := compactOf (JObj (map_to_list M)).

Definition printable (M : Obj) : Prop := map_Forall (fun k v => forallb scalar k = true /\ wf v = true) M.

Lemma text_print M : printable M -> text (JObj (map_to_list M)) (printObj M).
Proof.
  intros HM. apply text_compactOf. cbn [wf]. apply forallb_forall. intros [k v] Hkv.
  apply list_elem_of_In, elem_of_map_to_list, HM in Hkv. cbn [fst snd]. by apply andb_true_iff.
Qed.

Lemma object_print M : printable M -> object M (printObj M).
Proof.
  intros HM. exists (map_to_list M). split_and!; [apply NoDup_fst_map_to_list|apply list_to_map_to_list|by apply text_print].
Qed.

(** ** Maps of texts *)

Section Holding.
  Context {A : Type} (R : json -> A -> Prop) (read : json -> A) (write : A -> json).
  Hypothesis Hread : forall v, wf v = true -> R v (read v).
  Hypothesis Hwrite : forall v a, R v a -> write a = v /\ wf v = true.

Lemma holds_read M b : object M b -> holds R M (read <$> M).
Proof using Hread.
  intros Hb k. rewrite lookup_fmap. destruct (M !! k) as [v|] eqn:E; [|constructor]. constructor.
  apply Hread. by eapply object_wf.
Qed.

Lemma holds_write M m : keysOk M -> holds R M m -> write <$> m = M /\ object M (printObj (write <$> m)).
Proof using Hwrite.
  intros Hk Hm. assert (E : write <$> m = M).
  { apply map_eq. intros k. rewrite lookup_fmap. destruct (Hm k) as [v a Ha|]; [|done]. cbn. by rewrite (proj1 (Hwrite v a Ha)). }
  split; [done|]. rewrite E. apply object_print. intros k v Hv. split; [by eapply Hk|].
  destruct (holds_some _ _ _ _ _ Hm Hv) as (a & _ & Ha). by apply (Hwrite v a).
Qed.

End Holding.

Definition readPointer (v : json) : option bytes := if isNull v then None else Some (compactOf v).
Definition writePointer (o : option bytes) : json := match o with Some raw => decoded raw | None => jnull end.

Lemma readPointer_ok v : wf v = true -> pointsTo v (readPointer v).
Proof. intros Hw. unfold readPointer. destruct (isNull v) eqn:E; simpl; auto using text_compactOf. Qed.

Lemma writePointer_ok v o : pointsTo v o -> writePointer o = v /\ wf v = true.
Proof.
  destruct o as [raw|]; simpl; [intros [Ht _]; split; [by apply decoded_text|by eapply text_wf]|].
  by intros ->%null_inv.
Qed.

Lemma readRaw_ok v : wf v = true -> text v (compactOf v).
Proof. apply text_compactOf. Qed.

Lemma writeRaw_ok v raw : text v raw -> decoded raw = v /\ wf v = true.
Proof. intros Ht. split; [by apply decoded_text|by eapply text_wf]. Qed.

(** ** Signatures *)

Definition sigsJson (s : Sigs) : Obj := (fun ks => JObj (map_to_list (JStr <$> (ks : gmap (list Z) bytes)))) <$> s.

Definition strOf (v : json) : option bytes := match v with JStr s => Some s | _ => None end.
Definition innerSigs (v : json) : option (gmap (list Z) bytes) :=
  match v with JObj ks => Some (omap strOf (list_to_map ks : Obj)) | _ => None end.

#[local] Instance okSigs_dec (s : Sigs) : Decision (okSigs s).
Proof. unfold okSigs, byte. apply _. Defined.

Definition readSigs (v : json) : option Sigs :=
  match v with
  | JObj ms => let s := omap innerSigs (list_to_map ms : Obj) in
               if decide (okSigs s) then Some s else None
  | _ => None
  end.

(** Sorting an object does not change it as a map. *)
Lemma sorted_map (M : Obj) : (list_to_map (gosort key_leb (map inner (map_to_list M))) : Obj) = sortValue <$> M.
Proof.
  assert (Hp : Permutation (gosort key_leb (map inner (map_to_list M))) (map_to_list (sortValue <$> M))).
  { rewrite <- (gosort_perm key_leb), map_to_list_fmap. done. }
  rewrite <- (list_to_map_to_list (sortValue <$> M)). apply list_to_map_proper; [|done].
  rewrite Hp. apply NoDup_fst_map_to_list.
Qed.

Lemma readSigs_back s : okSigs s -> readSigs (sortValue (JObj (map_to_list (sigsJson s)))) = Some s.
Proof.
  intros Hs. cbn [sortValue readSigs]. rewrite sorted_map.
  assert (E : omap innerSigs (sortValue <$> sigsJson s) = s).
  { apply map_eq. intros n. rewrite lookup_omap, lookup_fmap. unfold sigsJson. rewrite lookup_fmap.
    destruct (s !! n) as [ks|]; [|done]. cbn [fmap option_fmap option_map mbind option_bind sortValue innerSigs]. f_equal.
    rewrite sorted_map. apply map_eq. intros k. rewrite lookup_omap, !lookup_fmap. by destruct (ks !! k). }
  rewrite E. by rewrite decide_True.
Qed.

Lemma wf_sigsJson s : okSigs s -> printable (sigsJson s).
Proof.
  intros Hs n v Hn. unfold sigsJson in Hn. rewrite lookup_fmap in Hn. destruct (s !! n) as [ks|] eqn:E; [|done].
  injection Hn as <-. destruct (Hs n ks E) as [Hsn Hks]. split; [done|]. cbn [wf]. apply forallb_forall.
  intros [k v] Hkv. apply list_elem_of_In, elem_of_map_to_list in Hkv. rewrite lookup_fmap in Hkv.
  destruct (ks !! k) as [sg|] eqn:Ek; [|done]. injection Hkv as <-. destruct (Hks k sg Ek) as [Hk Hb]. cbn [fst snd wf].
  apply andb_true_iff. split; [done|]. apply forallb_forall. intros c Hc%list_elem_of_In. rewrite Forall_forall in Hb.
  apply Hb in Hc. unfold byte, scalar in *. rewrite !andb_true_iff, negb_true_iff, andb_false_iff, !Z.leb_le, !Z.leb_gt. lia.
Qed.

(** ** Fields of a struct *)

Definition field (M : Obj) (k : list Z) : bytes := match M !! k with Some v => compactOf v | None => [] end.

(** The fields that are not empty. *)
Definition present (fs : list (list Z * bytes)) : list (list Z * json) :=
  map (fun f => (f.1, decoded f.2)) (List.filter (fun f => negb (length f.2 =? 0)%nat) fs).

Lemma text_nonempty v b : text v b -> b <> [].
Proof. induction 1; try done; [by apply literal_bytes|by destruct w1, b, w2]. Qed.

Lemma present_keys fs : NoDup (map fst fs) -> NoDup ((present fs).*1) /\ (present fs).*1 ⊆ map fst fs.
Proof.
  unfold present. induction fs as [|[k raw] fs IH]; [split; [constructor|done]|]. cbn [map fst]. intros [Hk Hn]%NoDup_cons.
  destruct (IH Hn) as [Hd Hs]. cbn [List.filter snd]. destruct (negb _); [|split; [done|]; by apply list_subseteq_cons].
  cbn [map fst]. split; [apply NoDup_cons; split; [by intros ?%Hs|done]|]. by apply list_subseteq_skip.
Qed.

Lemma restrict_cons_ne k ns M k' : k <> k' -> restrict (k :: ns) M !! k' = restrict ns M !! k'.
Proof.
  intros Hk. destruct (decide (k' ∈ ns)) as [Hin|Hin].
  - rewrite (restrict_in ns) by done. apply restrict_in. by right.
  - rewrite (restrict_out ns) by done. apply restrict_out. by apply not_elem_of_cons.
Qed.

Lemma present_map fs M : NoDup (map fst fs) -> readsFields M fs -> list_to_map (present fs) = restrict (map fst fs) M.
Proof.
  induction fs as [|[k raw] fs IH]; intros Hn Hf.
  - apply map_eq. intros k. rewrite restrict_out by apply not_elem_of_nil. done.
  - cbn [map fst] in Hn. apply NoDup_cons in Hn as [Hk Hn]. apply Forall_cons in Hf as [Hr Hf]. cbn [fst snd] in Hr.
    specialize (IH Hn Hf). apply map_eq. intros k'. unfold present. cbn [List.filter snd map fst].
    destruct (M !! k) as [w|] eqn:E.
    + pose proof (text_nonempty w raw Hr) as Hne. destruct raw as [|x raw]; [done|]. cbn [length Nat.eqb negb map fst snd list_to_map foldr].
      fold (present fs). rewrite IH, (decoded_text w) by done. destruct (decide (k = k')) as [->|Hkk].
      * rewrite lookup_insert_eq, restrict_in by left. done.
      * by rewrite lookup_insert_ne, restrict_cons_ne.
    + subst raw. cbn [length Nat.eqb negb]. fold (present fs). rewrite IH. destruct (decide (k = k')) as [->|Hkk].
      * rewrite (restrict_in (k' :: _)) by left. rewrite E. by apply restrict_out.
      * by rewrite restrict_cons_ne.
Qed.

Lemma reads_field M b fs : object M b -> Forall (fun f => f.2 = field M f.1) fs -> readsFields M fs.
Proof.
  intros Hb Hf. eapply Forall_impl; [exact Hf|]. intros [k raw]. cbn [fst snd]. intros ->. unfold field.
  destruct (M !! k) as [v|] eqn:E; [|done]. apply text_compactOf. by eapply object_wf.
Qed.

Definition readContent (C : Obj) : allContent :=
  mkContent (field C (str "creator")) (field C (str "join_rule")) (field C (str "users")) (field C (str "users_default"))
    (field C (str "events")) (field C (str "events_default")) (field C (str "state_default")) (field C (str "ban"))
    (field C (str "kick")) (field C (str "redact")) (field C (str "membership")) (field C (str "aliases"))
    (field C (str "history_visibility")).

Definition readEvent (M : Obj) : res eventFields :=
  match M !! kType, M !! kContent with
  | Some (JStr ty), Some (JObj cms) =>
      Ok (mkEventFields (field M (str "event_id")) (field M (str "sender")) (field M (str "room_id")) (field M (str "hashes"))
            (field M (str "signatures")) (readContent (list_to_map cms)) ty (field M (str "state_key")) (field M (str "depth"))
            (field M (str "prev_events")) (field M (str "prev_state")) (field M (str "auth_events")) (field M (str "origin"))
            (field M (str "origin_server_ts")) (field M (str "membership")))
  | _, _ => Err (ErrMsg "not an event")
  end.

Definition writeEvent (e : eventFields) : list (list Z * json) :=
  (kType, JStr (fType e)) :: (kContent, JObj (present (contentOf (fContent e)))) :: present (fieldsOf e).

(** ** The library *)

Definition withObject {A} (b : bytes) (f : Obj -> res A) : res A :=
  match objOf b with Some M => f M | None => Err (ErrMsg "not an object") end.

#[local] Instance referenceJson : JsonLib := {
  unmarshalPointers b := withObject b (fun M => Ok (Some (readPointer <$> M)));
  marshalPointers o := Ok (match o with Some m => printObj (writePointer <$> m) | None => str "null" end);
  unmarshalRaws b := withObject b (fun M => Ok (Some (compactOf <$> M)));
  marshalRaws o := Ok (match o with Some m => printObj (decoded <$> m) | None => str "null" end);
  unmarshalSigs b := readSigs (sortValue (decoded b));
  marshalSigs s := Ok (printObj (sigsJson s));
  unmarshalEvent b := withObject b readEvent;
  marshalEvent e := Ok (compactOf (JObj (writeEvent e)));
  unmarshalSignatures b := withObject b (fun M => Ok (field M kSignatures));
  unmarshalString b := match decodeText b with Some (JStr s) => Ok s | _ => Err (ErrMsg "not a string") end;
  marshalHashes h := Ok (compactOf (JObj [(str "sha256", JStr h)]));
}.

#[local] Instance referenceJson_laws : JsonLaws.
Proof.
  split; cbn [unmarshalPointers marshalPointers unmarshalRaws marshalRaws unmarshalSigs marshalSigs unmarshalSignatures referenceJson];
    unfold withObject.
  - intros M b Hb. rewrite (objOf_object M b Hb). eexists. split; [done|]. by apply (holds_read _ _ readPointer_ok M b).
  - intros M m Hk Hm. eexists. split; [done|]. by apply (holds_write _ _ writePointer_ok).
  - intros M b Hb. rewrite (objOf_object M b Hb). eexists. split; [done|]. by apply (holds_read _ _ readRaw_ok M b).
  - intros M m Hk Hm. eexists. split; [done|]. by apply (holds_write _ _ writeRaw_ok).
  - intros v w b c Hb Hc E. by rewrite (decoded_text v b Hb), (decoded_text w c Hc), E.
  - intros b s. unfold readSigs. intros Hr. repeat case_match; try done. by injection Hr as <-.
  - intros s Hs. pose proof (text_print _ (wf_sigsJson s Hs)) as Ht. eexists _, _. split_and!; [done|exact Ht|done|].
    rewrite (decoded_text _ _ Ht). by apply readSigs_back.
  - intros M b v Hb _ Hv. rewrite (objOf_object M b Hb). eexists. split; [done|]. unfold field. rewrite Hv.
    apply text_compactOf. by eapply object_wf.
Qed.

Lemma present_wf fs M : readsFields M fs -> Forall (fun f => forallb scalar f.1 = true) fs ->
  forallb (fun m => forallb scalar m.1 && wf m.2) (present fs) = true.
Proof.
  intros Hf Hk. apply forallb_forall. intros m Hm. unfold present in Hm. apply in_map_iff in Hm as (f & <- & Hm).
  apply filter_In in Hm as [Hin Hne]. apply list_elem_of_In in Hin. unfold readsFields in Hf. rewrite Forall_forall in Hf, Hk.
  specialize (Hf f Hin). cbn [fst snd]. rewrite (Hk f Hin). simpl. destruct (M !! f.1) as [w|].
  - rewrite (decoded_text w) by done. by eapply text_wf.
  - by rewrite Hf in Hne.
Qed.

Lemma writeEvent_object e M C :
  readsFields M (fieldsOf e) -> readsFields C (contentOf (fContent e)) -> forallb scalar (fType e) = true ->
  let cms := present (contentOf (fContent e)) in
  NoDup (cms.*1) /\ list_to_map cms = restrict contentNames C /\
  object (<[kType := JStr (fType e)]> (<[kContent := JObj cms]> (restrict eventNames M))) (compactOf (JObj (writeEvent e))).
Proof.
  intros Hf Hc Ht cms.
  assert (Nf : NoDup (map fst (fieldsOf e))) by (apply (bool_decide_unpack _); vm_compute; exact I).
  assert (Nc : NoDup (map fst (contentOf (fContent e)))) by (apply (bool_decide_unpack _); vm_compute; exact I).
  assert (Kf : Forall (fun f => forallb scalar f.1 = true) (fieldsOf e)) by (by repeat constructor).
  assert (Kc : Forall (fun f => forallb scalar f.1 = true) (contentOf (fContent e))) by (by repeat constructor).
  destruct (present_keys _ Nf) as [Df Sf], (present_keys _ Nc) as [Dc _].
  pose proof (present_map _ _ Nf Hf) as Mf. pose proof (present_map _ _ Nc Hc) as Mc.
  split_and!; [done|done|]. exists (writeEvent e). split_and!.
  - unfold writeEvent. cbn [fmap list_fmap fst]. apply NoDup_cons. split.
    + intros [Hk|Hk%Sf]%elem_of_cons; [done|]. revert Hk. apply (bool_decide_unpack _). vm_compute. exact I.
    + apply NoDup_cons. split; [|done]. intros Hk%Sf. revert Hk. apply (bool_decide_unpack _). vm_compute. exact I.
  - unfold writeEvent. cbn [list_to_map foldr fst snd]. do 2 f_equal. exact Mf.
  - apply text_compactOf. unfold writeEvent. cbn [wf forallb fst snd]. rewrite Ht.
    by rewrite (present_wf _ _ Hc Kc), (present_wf _ _ Hf Kf).
Qed.

#[local] Instance referenceEvent_laws : EventLaws.
Proof.
  split; cbn [unmarshalEvent marshalEvent referenceJson]; unfold withObject.
  - intros M cms ty b Hb He. rewrite (objOf_object M b Hb). unfold readEvent. rewrite (ev_type _ _ _ He), (ev_content _ _ _ He).
    eexists. split; [done|]. split; [done|]. split.
    + apply (reads_field M b _ Hb). by repeat constructor.
    + cbn [fContent]. assert (Hc : object (list_to_map cms) (compactOf (JObj cms))).
      { exists cms. split_and!; [apply He|done|]. apply text_compactOf. exact (object_wf M b _ _ Hb (ev_content _ _ _ He)). }
      apply (reads_field _ _ _ Hc). by repeat constructor.
  - intros e M C Hf Hc Ht. destruct (writeEvent_object e M C Hf Hc Ht) as (Hn & Hm & Ho). by eexists _, _.
Qed.

(** ** Signatures of 64 bytes that depend on the message *)

Definition checksum (m : bytes) : Z := fold_left (fun a b => (a * 31 + b) mod 256) m 7.

#[local] Instance referenceCrypto : Crypto := {
  PrivateKey := unit;
  PublicKey := unit;
  Sign _ m := repeat (checksum m) SignatureSize;
  Verify _ m s := bool_decide (s = repeat (checksum m) SignatureSize);
  Sum256 m := repeat (checksum m) 32;
}.

Lemma checksum_byte m : byte (checksum m).
Proof.
  unfold checksum. assert (H : byte 7) by (unfold byte; lia). revert H. generalize 7.
  induction m as [|b m IH]; intros a Ha; [done|]. cbn [fold_left]. apply IH. unfold byte. apply Z.mod_pos_bound. lia.
Qed.

#[local] Instance referenceCrypto_laws : CryptoLaws (() : @PrivateKey referenceCrypto) (() : @PublicKey referenceCrypto).
Proof.
  split.
  - intros m. split; [apply repeat_length|]. apply Forall_forall. intros x Hx%list_elem_of_In%repeat_spec. subst x. apply checksum_byte.
  - intros m. by apply bool_decide_eq_true.
Qed.

(** ** Concrete messages *)

(** [{"type":"m.room.member","content":{"membership":"join","x":1},"event_id":"$e"}] *)
Definition exContent : list (list Z * json) :=
  [(str "membership", JStr (str "join")); (str "x", JLit (str "1"))].
Definition exMembers : list (list Z * json) :=
  [(kType, JStr (str "m.room.member")); (kContent, JObj exContent); (kEventID, JStr (str "$e"))].
Definition exText : bytes := compactOf (JObj exMembers).

Lemma exObject : object (list_to_map exMembers) exText.
Proof. exists exMembers. split_and!; [apply (bool_decide_unpack _); vm_compute; exact I|done|by apply text_compactOf]. Qed.

Lemma exEvent : isEvent (list_to_map exMembers) exContent (str "m.room.member").
Proof.
  split; [by vm_compute|by vm_compute|apply (bool_decide_unpack _); vm_compute; exact I| |].
  - intros k v Hk%elem_of_list_to_map_2. left.
    repeat (apply elem_of_cons in Hk as [[= -> ->]|Hk]; [apply (bool_decide_unpack _); vm_compute; exact I|]). by apply elem_of_nil in Hk.
  - apply Forall_cons. split; [left; apply (bool_decide_unpack _); vm_compute; exact I|]. apply Forall_cons. split; [|constructor].
    right. split; [done|]. apply (bool_decide_unpack _). vm_compute. exact I.
Qed.

Definition exKey : @PrivateKey referenceCrypto := ().
Definition exPub : @PublicKey referenceCrypto := ().

(** The same members in another order. *)
Lemma signature_depends_on_value_witness :
  let ms := [(str "a", JLit (str "1")); (str "b", JLit (str "2"))] in
  let ns := [(str "b", JLit (str "2")); (str "a", JLit (str "1"))] in
  VerifyJSON (str "host") (str "ed25519:1") exPub (compactOf (JObj ms)) =
  VerifyJSON (str "host") (str "ed25519:1") exPub (compactOf (JObj ns)).
Proof.
  intros ms ns. apply (signature_depends_on_value _ _ _ ms ns); [by apply text_compactOf..|by vm_compute|by vm_compute|].
  apply (same_obj ms ns ns); [apply perm_swap|]. repeat constructor.
Defined.

Lemma sign_then_verify_witness :
  exists c, SignJSON (str "host") (str "ed25519:1") exKey exText = Ok c /\ VerifyJSON (str "host") (str "ed25519:1") exPub c = Ok () /\
    forall n k p, (n, k) <> (str "host", str "ed25519:1") -> VerifyJSON n k p exText = Ok () -> VerifyJSON n k p c = Ok ().
Proof. by apply (sign_then_verify exKey exPub (str "host") (str "ed25519:1") _ exText ∅ exObject). Defined.

Lemma redacted_event_shape_witness :
  exists c N, redactEvent exText = Ok c /\ object N c /\ redacted (list_to_map exMembers) exContent (str "m.room.member") N.
Proof. apply (redacted_event_shape _ _ _ _ exObject exEvent). Defined.

Lemma signature_survives_redaction_witness :
  exists e r, signEvent (str "host") (str "ed25519:1") exKey exText = Ok e /\
    verifyEventSignature (str "host") (str "ed25519:1") exPub e = Ok () /\ redactEvent e = Ok r /\
    verifyEventSignature (str "host") (str "ed25519:1") exPub r = Ok () /\ VerifyJSON (str "host") (str "ed25519:1") exPub r = Ok ().
Proof.
  by apply (signature_survives_redaction exKey exPub (str "host") (str "ed25519:1") _ exContent (str "m.room.member") exText ∅ exObject exEvent).
Defined.

End SigningModel.
