(* ===== verification/KeyRing.v ===== *)
(** * The key ring

    [src/skunkworks/gomatrixserverlib/keyring.go], [keys.go] and the verification of
    events in [eventcrypto.go]: which signatures an event needs, how the public keys
    of a server are obtained (from the database, or from the server itself), and how
    they are checked.

    The three slices that [VerifyJSONs] walks in parallel (requests, results, key
    identifiers) are one list of [Job]s.  The key database and the other key fetchers
    are the class [KeyStore]: calls that change a state and can fail. *)

From Stdlib Require Import String Ascii ZArith List.
From stdpp Require Import base tactics list gmap strings.
From S2P Require Import Prelude Ids Event EventContent CanonJson Signing.

#[local] Open Scope Z_scope.

Module KeyRing.
Import Event CanonJson Signing.

(** ** Data *)

Abbreviation ServerName := (list Z).
Abbreviation KeyID := (list Z).
Abbreviation Timestamp := Z.

(** [PublicKeyLookupRequest]: server and key. *)
Abbreviation LookupRequest := (list Z * list Z)%type.

Definition PublicKeyNotExpired : Timestamp := 0.
Definition PublicKeyNotValid : Timestamp := 0.

Record PublicKeyLookupResult := mkLookup {
  Key : bytes;
  ExpiredTS : Timestamp;
  ValidUntilTS : Timestamp;
}.

Definition WasValidAt (r : PublicKeyLookupResult) (atTs : Timestamp) : bool :=
  if negb (ExpiredTS r =? PublicKeyNotExpired) && (ExpiredTS r <=? atTs) then false
  else if (ValidUntilTS r =? PublicKeyNotValid) || (ValidUntilTS r <? atTs) then false
  else true.

Record VerifyJSONRequest := mkRequest {
  rServerName : ServerName;
  AtTS : Timestamp;
  Message : bytes;
}.

Record Job := mkJob {
  request : VerifyJSONRequest;
  jError : option goerr;
  keyIDs : list KeyID;
}.

Definition set_error (j : Job) (e : option goerr) : Job := mkJob (request j) e (keyIDs j).

(** [ServerKeys] with its raw text; an old key with the time it expired. *)
Record ServerKeys := mkServerKeys {
  kRaw : bytes;
  kServerName : ServerName;
  TLSFingerprints : list bytes;
  VerifyKeys : gmap KeyID bytes;
  kValidUntilTS : Timestamp;
  OldVerifyKeys : gmap KeyID (bytes * Timestamp);
}.

Abbreviation Requests := (gmap LookupRequest Timestamp).
Abbreviation Keys := (gmap LookupRequest PublicKeyLookupResult).

(** ** Parameters *)

(** Ranging over a map with byte strings as keys. *)
Class RangeKeys := {
  rangeKeys : forall {A : Type}, gmap (list Z) A -> list (list Z * A);
  rangeKeys_perm : forall (A : Type) (m : gmap (list Z) A), Permutation (rangeKeys m) (map_to_list m);
}.

(** [struct { Signatures map[string]map[KeyID]RawMessage }], and keys as bytes. *)
Class KeyLib `{Crypto} := {
  unmarshalKeyIDs : bytes -> res (gmap (list Z) (gmap KeyID bytes));
  asKey : bytes -> PublicKey;
}.

(** The state [D] behind the key database and the network. *)
Class KeyStore (D : Type) := {
  dbFetchKeys : Requests -> ST D Keys;
  dbStoreKeys : Keys -> ST D unit;
  GetServerKeys : ServerName -> ST D ServerKeys;
  LookupServerKeys : ServerName -> Requests -> ST D (list ServerKeys);
}.

Section KeyRing.
  Context `{GJson} `{JsonLib} `{Crypto} `{!KeyLib} `{RangeKeys}.

Definition ListKeyIDs (signingName : list Z) (message : bytes) : res (list KeyID) :=
  sigs ← unmarshalKeyIDs message;
  Ok (map fst (rangeKeys (default ∅ (sigs !! signingName)))).

(** [ed25519.Verify] panics when the key does not have 32 bytes. *)
Definition VerifyJSON_bytes (name : ServerName) (keyID : KeyID) (key message : bytes) : res unit :=
  let r := VerifyJSON name keyID (asKey key) message in
  if (length key =? 32)%nat then r
  else match r with
       | Ok _ => Panic
       | Err e => if decide (e = ErrMsg "Bad signature") then Panic else Err e
       | _ => r
       end.

Definition isAlgorithmSupported (keyID : KeyID) : bool := bool_decide (take 8 keyID = str "ed25519:").

(** The first loop of [VerifyJSONs]. *)
Definition newJob (r : VerifyJSONRequest) : res Job :=
  match ListKeyIDs (rServerName r) (Message r) with
  | Panic => Panic
  | Diverge => Diverge
  | Err _ => Ok (mkJob r (Some (ErrMsg "error extracting key IDs")) [])
  | Ok ids =>
      match List.filter isAlgorithmSupported ids with
      | [] => Ok (mkJob r (Some (ErrMsg "not signed with a supported algorithm")) [])
      | ks => Ok (mkJob r (Some (ErrMsg "could not download key")) ks)
      end
  end.

Definition addRequest (server : ServerName) (ts : Timestamp) (reqs : Requests) (keyID : KeyID) : Requests :=
  let maxTS := default 0 (reqs !! (server, keyID)) in
  if maxTS <=? ts then <[(server, keyID) := ts]> reqs else reqs.

Definition publicKeyRequests (jobs : list Job) : Requests :=
  fold_left (fun reqs j =>
    match jError j with
    | None => reqs
    | Some _ => fold_left (addRequest (rServerName (request j)) (AtTS (request j))) (keyIDs j) reqs
    end) jobs ∅.

(** One message with the keys at hand: the loop over its key identifiers. *)
Fixpoint checkKeyIDs (r : VerifyJSONRequest) (keys : Keys) (ids : list KeyID) (err : option goerr) : res (option goerr) :=
  match ids with
  | [] => Ok err
  | keyID :: rest =>
      match keys !! (rServerName r, keyID) with
      | None => checkKeyIDs r keys rest err
      | Some serverKey =>
          if negb (WasValidAt serverKey (AtTS r)) then
            checkKeyIDs r keys rest (Some (ErrMsg "key not valid at the time"))
          else
            match VerifyJSON_bytes (rServerName r) keyID (Key serverKey) (Message r) with
            | Ok _ => Ok None
            | Err e => checkKeyIDs r keys rest (Some e)
            | Panic => Panic
            | Diverge => Diverge
            end
      end
  end.

Fixpoint checkUsingKeys (keys : Keys) (jobs : list Job) : res (list Job) :=
  match jobs with
  | [] => Ok []
  | j :: rest =>
      j1 ← (match jError j with
            | None => Ok j
            | Some _ => e ← checkKeyIDs (request j) keys (keyIDs j) (jError j); Ok (set_error j e)
            end);
      rest1 ← checkUsingKeys keys rest;
      Ok (j1 :: rest1)
  end.

(** ** The keys a server publishes ([keys.go]) *)

(** [strings.SplitN(keyID, ":", 2)[0] == "ed25519"]. *)
Definition isEd25519 (keyID : KeyID) : bool :=
  bool_decide (keyID = str "ed25519") || bool_decide (take 8 keyID = str "ed25519:").

(** [checkVerifyKeys]: whether there is a key, and whether all of them have signed
    the response. *)
Definition checkVerifyKeys (keys : ServerKeys) : res (bool * bool) :=
  fold_left (fun acc kv =>
    p ← acc;
    if isEd25519 kv.1 then
      matching ← (if (length kv.2 =? 32)%nat then
                    match VerifyJSON_bytes (kServerName keys) kv.1 kv.2 (kRaw keys) with
                    | Ok _ => Ok true
                    | Err _ => Ok false
                    | Panic => Panic
                    | Diverge => Diverge
                    end
                  else Ok false);
      Ok (true, p.2 && matching)
    else Ok p) (rangeKeys (VerifyKeys keys)) (Ok (false, true)).

(** [checkTLSFingerprints]: there is one, and all are SHA-256. *)
Definition checkTLSFingerprints (keys : ServerKeys) : bool :=
  negb (length (TLSFingerprints keys) =? 0)%nat && forallb (fun f => (length f =? 32)%nat) (TLSFingerprints keys).

(** [Timestamp.Time], in milliseconds: the unsigned number is read as signed. *)
Definition Time (ts : Timestamp) : Z := wrap64 ts.

(** [ServerKeys.PublicKey]. *)
Definition PublicKeyAt (keys : ServerKeys) (keyID : KeyID) (atTS : Timestamp) : option bytes :=
  match VerifyKeys keys !! keyID with
  | Some currentKey =>
      if atTS <=? kValidUntilTS keys then Some currentKey
      else match OldVerifyKeys keys !! keyID with
           | Some (key, expired) => if atTS <=? expired then Some key else None
           | None => None
           end
  | None =>
      match OldVerifyKeys keys !! keyID with
      | Some (key, expired) => if atTS <=? expired then Some key else None
      | None => None
      end
  end.

(** [AllChecksOK] of [CheckKeys] without a connection; [now] in milliseconds. *)
Definition CheckKeys (serverName : ServerName) (now : Timestamp) (keys : ServerKeys) : res bool :=
  let ok := bool_decide (serverName = kServerName keys) && (now <? Time (kValidUntilTS keys)) in
  p ← checkVerifyKeys keys;
  let ok := if ok then p.1 && p.2 else ok in
  Ok (if ok then checkTLSFingerprints keys else ok).

Definition mapServerKeysToPublicKeyLookupResult (k : ServerKeys) (results : Keys) : Keys :=
  let results := fold_left (fun m kv =>
    <[(kServerName k, kv.1) := mkLookup kv.2 PublicKeyNotExpired (kValidUntilTS k)]> m) (rangeKeys (VerifyKeys k)) results in
  fold_left (fun m kv =>
    <[(kServerName k, kv.1) := mkLookup kv.2.1 kv.2.2 PublicKeyNotValid]> m) (rangeKeys (OldVerifyKeys k)) results.

Section Fetching.
  Context {D : Type} `{KeyStore D}.

Definition fetchKeysForServer (serverName : ServerName) : ST D Keys :=
  keys ← GetServerKeys serverName;
  ok ← liftR (CheckKeys serverName 0 keys);
  if negb ok then fail (ErrMsg "key response failed checks")
  else mret (mapServerKeysToPublicKeyLookupResult keys ∅).

(** The servers of the requests, each once, in any order. *)
Definition serversOf (reqs : Requests) : list ServerName :=
  map fst (rangeKeys (list_to_map (map (fun kv => (kv.1.1, ())) (map_to_list reqs)) : gmap (list Z) unit)).

Fixpoint fetchServers (servers : list ServerName) (results : Keys) : ST D Keys :=
  match servers with
  | [] => mret results
  | s :: rest => r ← fetchKeysForServer s; fetchServers rest (r ∪ results)
  end.

(** A perspective server vouches for a response with a key we know: the first of the
    signing keys that is known decides. *)
Fixpoint vouched (name : ServerName) (known : gmap KeyID bytes) (raw : bytes) (ids : list KeyID) : res unit :=
  match ids with
  | [] => Err (ErrMsg "not signed with a known key for the perspective server")
  | keyID :: rest =>
      match known !! keyID with
      | None => vouched name known raw rest
      | Some key => VerifyJSON_bytes name keyID key raw
      end
  end.

(** The loop over the responses of the perspective server. *)
Fixpoint perspectiveLoop (name : ServerName) (known : gmap KeyID bytes) (responses : list ServerKeys) (results : Keys) :
    res Keys :=
  match responses with
  | [] => Ok results
  | keys :: rest =>
      ids ← ListKeyIDs name (kRaw keys);
      _ ← vouched name known (kRaw keys) ids;
      ok ← CheckKeys (kServerName keys) 0 keys;
      if negb ok then Err (ErrMsg "key response from perspective server failed checks")
      else perspectiveLoop name known rest (mapServerKeysToPublicKeyLookupResult keys results)
  end.

Definition PerspectiveFetchKeys (name : ServerName) (known : gmap KeyID bytes) (reqs : Requests) : ST D Keys :=
  serverKeys ← LookupServerKeys name reqs;
  liftR (perspectiveLoop name known serverKeys ∅).

Definition DirectFetchKeys (reqs : Requests) : ST D Keys := fetchServers (serversOf reqs) ∅.

(** The fetchers of the key ring that [CreateKeyRing] makes. *)
Definition CreateKeyRing : list (Requests -> ST D Keys) := [DirectFetchKeys].

(** The loop over the fetchers. *)
Fixpoint fetchLoop (fetchers : list (Requests -> ST D Keys)) (jobs : list Job) : ST D (list Job) :=
  match fetchers with
  | [] => mret jobs
  | fetcher :: rest =>
      let keyRequests := publicKeyRequests jobs in
      if (size keyRequests =? 0)%nat then mret jobs
      else
        keysFetched ← fetcher keyRequests;
        jobs1 ← liftR (checkUsingKeys keysFetched jobs);
        _ ← dbStoreKeys keysFetched;
        fetchLoop rest jobs1
  end.

Definition VerifyJSONs (fetchers : list (Requests -> ST D Keys)) (requests : list VerifyJSONRequest) :
    ST D (list (option goerr)) :=
  jobs ← liftR (mapM newJob requests);
  let keyRequests := publicKeyRequests jobs in
  if (size keyRequests =? 0)%nat then mret (map jError jobs)
  else
    keysFromDatabase ← dbFetchKeys keyRequests;
    jobs1 ← liftR (checkUsingKeys keysFromDatabase jobs);
    jobs2 ← fetchLoop fetchers jobs1;
    mret (map jError jobs2).

(** ** Events *)

Section Events.
  Context `{Codec} (JSON : Event -> bytes).

(** The servers that have to sign an event, as a set. *)
Definition signers (event : Event) : res (gmap (list Z) unit) :=
  let domains := <[str (Origin event) := ()]> ∅ in
  senderDomain ← Ids.domainFromID (Sender event);
  let domains := <[str senderDomain := ()]> domains in
  match StateKey event with
  | Some stateKey =>
      if String.eqb (Type_ event) MRoomMember then
        targetDomain ← Ids.domainFromID stateKey;
        if String.eqb targetDomain (Origin event) then Ok domains
        else
          c ← EventContent.newMemberContentFromEvent event;
          Ok (if String.eqb (Membership c) invite then <[str targetDomain := ()]> domains else domains)
      else Ok domains
  | None => Ok domains
  end.

(** The requests of an event. *)
Definition eventRequests (event : Event) : res (list VerifyJSONRequest) :=
  redactedJSON ← redactEvent (JSON event);
  domains ← signers event;
  Ok (map (fun d => mkRequest d.1 (OriginServerTS event) redactedJSON) (rangeKeys domains)).

Definition firstError (l : list (option goerr)) : option goerr :=
  match List.find (fun e => bool_decide (e <> None)) l with Some e => e | None => None end.

(** The results of the events, from the results of their requests in order. *)
Fixpoint splitResults (sizes : list nat) (results : list (option goerr)) : list (option goerr) :=
  match sizes with
  | [] => []
  | n :: rest => firstError (take n results) :: splitResults rest (drop n results)
  end.

Definition VerifyEventSignatures (fetchers : list (Requests -> ST D Keys)) (events : list Event) : ST D (list (option goerr)) :=
  toVerify ← liftR (mapM eventRequests events);
  results ← VerifyJSONs fetchers (concat toVerify);
  mret (splitResults (map length toVerify) results).

Definition VerifyAllEventSignatures (fetchers : list (Requests -> ST D Keys)) (events : list Event) : ST D unit :=
  errors ← VerifyEventSignatures fetchers events;
  match firstError errors with
  | Some e => fail e
  | None => mret ()
  end.

End Events.

End Fetching.

End KeyRing.

End KeyRing.
