(* ===== verification/KeyRingFacts.v ===== *)
(** * The key ring: theorems

    - [keyring_sound]: for every key database and list of fetchers that return only
      trusted keys ([TrustedStore]), a message that passes has been signed by the
      server with a trusted key that was valid at the time.
    - [verified_events_are_signed]: with perspective servers and the fetcher that asks
      the servers themselves, an event that passes is signed by its origin, by the server of its sender and,
      for an invite, by the server of the invited user, each with a published key
      ([published]): one of keys that name the server and carry its signature of them,
      and that the server answered or a perspective server vouched for.
    - [old_keys_never_verify]: keys a server lists as old verify nothing, also not
      what was signed before they expired. *)

From Stdlib Require Import String ZArith List Lia Permutation.
From stdpp Require Import base tactics list gmap strings.
From S2P Require Import Prelude Ids Event EventContent CanonJson Signing KeyRing.

#[local] Open Scope Z_scope.

Module KeyRingFacts.
Import Event CanonJson Signing KeyRing.

Section Facts.
  Context `{GJson} `{JsonLib} `{Crypto} `{!KeyLib} `{RangeKeys}.
  Context {D : Type} `{KeyStore D}.
  Context (Trusted : ServerName -> KeyID -> PublicKeyLookupResult -> Prop).

Definition trustedKeys (keys : Keys) : Prop := map_Forall (fun r k => Trusted r.1 r.2 k) keys.

(** A message is signed by the server it is checked for. *)
Definition signedFor (r : VerifyJSONRequest) : Prop := exists keyID k,
  isAlgorithmSupported keyID = true /\ Trusted (rServerName r) keyID k /\ WasValidAt k (AtTS r) = true /\
  VerifyJSON_bytes (rServerName r) keyID (Key k) (Message r) = Ok ().

Definition jobOk (j : Job) : Prop :=
  (jError j = None -> signedFor (request j)) /\ Forall (fun k => isAlgorithmSupported k = true) (keyIDs j).

(** A way to get keys that returns only trusted ones. *)
Definition honest (Inv : D -> Prop) (f : Requests -> ST D Keys) : Prop :=
  forall reqs d keys d', Inv d -> f reqs d = (Ok keys, d') -> trustedKeys keys /\ Inv d'.

Class TrustedStore (Inv : D -> Prop) : Prop := {
  db_honest : honest Inv dbFetchKeys;
  store_trusted : forall keys d d', Inv d -> trustedKeys keys -> dbStoreKeys keys d = (Ok (), d') -> Inv d';
}.

Lemma checkKeyIDs_sound r keys ids err e :
  trustedKeys keys -> Forall (fun k => isAlgorithmSupported k = true) ids -> (err = None -> signedFor r) ->
  checkKeyIDs r keys ids err = Ok e -> e = None -> signedFor r.
Proof using.
  intros Ht Hi. revert err. induction Hi as [|keyID ids Hk _ IH]; intros err He; cbn [checkKeyIDs]; [by intros [= <-]|].
  destruct (keys !! (rServerName r, keyID)) as [k|] eqn:E; [|by apply IH].
  destruct (WasValidAt k (AtTS r)) eqn:Ev; cbn [negb]; [|by apply IH].
  destruct (VerifyJSON_bytes _ _ _ _) as [[]|er| |] eqn:EV; try done; [|by apply IH].
  intros _ _. exists keyID, k. split_and!; try done. exact (Ht _ _ E).
Qed.

Lemma checkUsingKeys_sound keys jobs jobs1 : trustedKeys keys -> Forall jobOk jobs -> checkUsingKeys keys jobs = Ok jobs1 ->
  Forall jobOk jobs1 /\ map request jobs1 = map request jobs.
Proof using.
  intros Ht Hj. revert jobs1. induction Hj as [|j jobs Hj _ IH]; intros jobs1; cbn [checkUsingKeys]; [by intros [= <-]|].
  intros (j1 & Ej & (rest & Er & [= <-])%bind_Ok)%bind_Ok. destruct (IH rest Er) as [Hr Em].
  assert (Hj1 : jobOk j1 /\ request j1 = request j).
  { destruct (jError j) as [er|] eqn:Ee; [|by injection Ej as <-]. apply bind_Ok in Ej as (e & Ec & [= <-]).
    destruct Hj as [_ Hk]. split; [|done]. split; [|done]. cbn [set_error jError request].
    eapply checkKeyIDs_sound; [exact Ht|exact Hk| |exact Ec]. done. }
  destruct Hj1 as [Hj1 E1]. split; [by constructor|]. cbn [map]. by rewrite E1, Em.
Qed.

Lemma newJob_ok r j : newJob r = Ok j -> jobOk j /\ request j = r.
Proof using.
  unfold newJob. destruct (ListKeyIDs _ _) as [ids|e| |]; try done; [|by intros [= <-]; repeat split].
  destruct (List.filter isAlgorithmSupported ids) as [|k ks] eqn:E; intros [= <-]; repeat split; try done.
  cbn [keyIDs]. apply Forall_forall. intros x Hx. rewrite <- E in Hx. apply list_elem_of_In, filter_In in Hx. naive_solver.
Qed.

Lemma newJobs_ok rs jobs : mapM newJob rs = Ok jobs -> Forall jobOk jobs /\ map request jobs = rs.
Proof using.
  revert jobs. induction rs as [|r rs IH]; intros jobs; cbn [mapM]; [by intros [= <-]|].
  intros (j & Ej & (js & Ejs & [= <-])%bind_Ok)%bind_Ok. apply newJob_ok in Ej as [Hj Er]. destruct (IH js Ejs) as [Hjs Ers].
  split; [by constructor|]. cbn [map]. by rewrite Er, Ers.
Qed.

Section Sound.
  Context (Inv : D -> Prop) `{!TrustedStore Inv} (fetchers : list (Requests -> ST D Keys)).
  Hypothesis Hfetch : Forall (honest Inv) fetchers.

Lemma fetchLoop_sound jobs d jobs1 d1 : Inv d -> Forall jobOk jobs -> fetchLoop fetchers jobs d = (Ok jobs1, d1) ->
  Inv d1 /\ Forall jobOk jobs1 /\ map request jobs1 = map request jobs.
Proof using All.
  revert jobs d. induction Hfetch as [|f fs Hf _ IH]; intros jobs d Hd Hj; cbn [fetchLoop]; [by intros [= <- <-]|].
  case_match; [by intros [= <- <-]|]. intros (keys & d2 & Ek & Hr)%ST_bind_inv. destruct (Hf _ _ _ _ Hd Ek) as [Ht Hd2].
  apply ST_bind_inv in Hr as (jobs2 & d3 & Ec & Hr). unfold liftR in Ec. injection Ec as Ec ->.
  destruct (checkUsingKeys_sound _ _ _ Ht Hj Ec) as [Hj2 Em]. apply ST_bind_inv in Hr as ([] & d4 & Es & Hr).
  destruct (IH ltac:(by inversion Hfetch) jobs2 d4) as (? & ? & Em2); [by eapply store_trusted|done|done|]. split_and!; try done. congruence.
Qed.

Lemma VerifyJSONs_sound reqs d results d1 : Inv d -> VerifyJSONs fetchers reqs d = (Ok results, d1) ->
  Inv d1 /\ Forall2 (fun r e => e = None -> signedFor r) reqs results.
Proof using All.
  intros Hd. unfold VerifyJSONs. intros (jobs & d2 & Ej & Hr)%ST_bind_inv. unfold liftR in Ej. injection Ej as Ej ->.
  apply newJobs_ok in Ej as [Hj Em].
  assert (Hdone : forall js, Forall jobOk js -> map request js = reqs ->
            Forall2 (fun r e => e = None -> signedFor r) reqs (map jError js)).
  { intros js Hjs <-. clear -Hjs. induction Hjs as [|j js [Hj _] _ IH]; cbn [map]; by constructor. }
  cbv zeta in Hr. case_match; [injection Hr as <- <-; auto|].
  apply ST_bind_inv in Hr as (keys & d3 & Ek & Hr). destruct (db_honest _ _ _ _ Hd Ek) as [Ht Hd3].
  apply ST_bind_inv in Hr as (jobs2 & d4 & Ec & Hr). unfold liftR in Ec. injection Ec as Ec ->.
  destruct (checkUsingKeys_sound _ _ _ Ht Hj Ec) as [Hj2 Em2]. apply ST_bind_inv in Hr as (jobs3 & d5 & Ef & Hr).
  destruct (fetchLoop_sound _ _ _ _ Hd3 Hj2 Ef) as (Hd5 & Hj3 & Em3). injection Hr as <- <-. split; [done|].
  apply Hdone; [done|congruence].
Qed.

(** The key ring accepts only what is signed.  Whatever the database and the
    fetchers answer, as long as the keys they return are trusted: every result
    without an error belongs to a message that carries a valid signature of the
    requested server, made with an Ed25519 key that is trusted for this server and
    was valid at the requested time. *)
Theorem keyring_sound (reqs : list VerifyJSONRequest) (d : D) (results : list (option goerr)) (d1 : D) :
  Inv d -> VerifyJSONs fetchers reqs d = (Ok results, d1) ->
  Inv d1 /\ Forall2 (fun r e => e = None -> signedFor r) reqs results.
Proof using All. apply VerifyJSONs_sound. Qed.

End Sound.

End Facts.

(** ** Keys from the servers themselves *)

Section Direct.
  Context `{GJson} `{JsonLib} `{Crypto} `{!KeyLib} `{RangeKeys}.

(** What a server answers when it is asked for its keys, what a perspective server
    answers, and the perspective servers that are configured, with their keys. *)
Context (Answers Relays : ServerName -> ServerKeys -> Prop) (perspectives : list (ServerName * gmap KeyID bytes)).

(** A response a perspective server gave and signed with a key we know. *)
Definition vouchedBy (sk : ServerKeys) : Prop := exists name known keyID key,
  (name, known) ∈ perspectives /\ Relays name sk /\ known !! keyID = Some key /\
  VerifyJSON_bytes name keyID key (kRaw sk) = Ok ().

(** A response signed by the server it names with every Ed25519 key in it. *)
Definition selfSigned (sk : ServerKeys) : Prop := forall keyID key,
  VerifyKeys sk !! keyID = Some key -> isEd25519 keyID = true ->
  VerifyJSON_bytes (kServerName sk) keyID key (kRaw sk) = Ok ().

(** The server has published the key: it is a current key in a response that names the
    server, that the server itself gave or a perspective server vouches for, and that
    is signed with the keys in it. *)
Definition published (server : ServerName) (keyID : KeyID) (k : PublicKeyLookupResult) : Prop := exists sk,
  (Answers server sk \/ vouchedBy sk) /\ kServerName sk = server /\ selfSigned sk /\
  VerifyKeys sk !! keyID = Some (Key k) /\ ValidUntilTS k = kValidUntilTS sk /\ ExpiredTS k = PublicKeyNotExpired.

(** An old key is not checked, and not valid either. *)
Definition publishedOrOld (server : ServerName) (keyID : KeyID) (k : PublicKeyLookupResult) : Prop :=
  ValidUntilTS k = PublicKeyNotValid \/ published server keyID k.

Lemma rangeKeys_elem {A} (m : gmap (list Z) A) k a : (k, a) ∈ rangeKeys m <-> m !! k = Some a.
Proof using. by rewrite rangeKeys_perm, elem_of_map_to_list. Qed.

Lemma fold_insert_trusted {A} (T : ServerName -> KeyID -> PublicKeyLookupResult -> Prop) (server : ServerName)
    (f : A -> PublicKeyLookupResult) (l : list (list Z * A)) (m : Keys) :
  trustedKeys T m -> Forall (fun kv => T server kv.1 (f kv.2)) l ->
  trustedKeys T (fold_left (fun m kv => <[(server, kv.1) := f kv.2]> m) l m).
Proof using.
  intros Hm Hl. revert m Hm. induction Hl as [|kv l Hk _ IH]; intros m Hm; [done|]. cbn [fold_left]. apply IH.
  by apply map_Forall_insert_2.
Qed.

(** A response that passes is signed with every Ed25519 key in it. *)
Lemma checkVerifyKeys_signed sk has : checkVerifyKeys sk = Ok (has, true) ->
  forall keyID key, VerifyKeys sk !! keyID = Some key -> isEd25519 keyID = true ->
    VerifyJSON_bytes (kServerName sk) keyID key (kRaw sk) = Ok ().
Proof using.
  unfold checkVerifyKeys. set (step := fun acc kv => _). intros E keyID key Hk Hed. apply rangeKeys_elem in Hk. revert E Hk.
  generalize (rangeKeys (VerifyKeys sk)). intros l.
  assert (Hbad : forall l r, (forall p, r <> Ok p) -> forall p, fold_left step l r <> Ok p).
  { intros l'. induction l' as [|kv l' IH]; intros r Hr; [done|]. cbn [fold_left]. apply IH. intros p. unfold step. destruct r as [a| | |]; [by destruct (Hr a)|done..]. }
  assert (Hstep : forall l p q, fold_left step l (Ok p) = Ok q -> q.2 = true -> p.2 = true /\
            forall kv, kv ∈ l -> isEd25519 kv.1 = true -> VerifyJSON_bytes (kServerName sk) kv.1 kv.2 (kRaw sk) = Ok ()).
  { intros l'. induction l' as [|kv l' IH]; intros p q; cbn [fold_left].
    { intros [= <-]. split; [done|]. by intros kv ?%elem_of_nil. }
    destruct (step (Ok p) kv) as [p1|e| |] eqn:Es; [|by intros Hf; exfalso; eapply Hbad, Hf..].
    intros Hf Hq. destruct (IH p1 q Hf Hq) as [Hp1 Hall]. unfold step in Es. cbn [mbind res_bind] in Es.
    destruct (isEd25519 kv.1) eqn:Ed.
    - destruct (length kv.2 =? 32)%nat.
      + destruct (VerifyJSON_bytes _ _ _ _) as [[]|e| |] eqn:EV; cbn [mbind res_bind] in Es; simplify_eq; cbn [snd] in Hp1.
        * split; [by rewrite andb_true_r in Hp1|]. intros kv' [->|Hin]%elem_of_cons; auto.
        * by rewrite andb_false_r in Hp1.
      + cbn [mbind res_bind] in Es. simplify_eq. cbn [snd] in Hp1. by rewrite andb_false_r in Hp1.
    - simplify_eq. split; [done|]. intros kv' [->|Hin]%elem_of_cons; [congruence|auto]. }
  intros E Hk. by destruct (Hstep l _ _ E eq_refl) as [_ Hall]; apply (Hall (keyID, key)).
Qed.

Lemma fetched_published (server : ServerName) (sk : ServerKeys) (keys : Keys) : Answers server sk \/ vouchedBy sk ->
  CheckKeys server 0 sk = Ok true -> trustedKeys publishedOrOld keys -> trustedKeys publishedOrOld (mapServerKeysToPublicKeyLookupResult sk keys).
Proof using.
  intros Hfrom. unfold CheckKeys. intros ([has all] & Ec & E)%bind_Ok Hkeys. injection E as E.
  assert (Hok : bool_decide (server = kServerName sk) && (0 <? Time (kValidUntilTS sk)) = true /\ all = true).
  { destruct (bool_decide _ && _); cbn [fst snd] in E; [|done]. destruct has, all; done. }
  destruct Hok as [[->%bool_decide_eq_true _]%andb_true_iff ->]. pose proof (checkVerifyKeys_signed sk has Ec) as Hs.
  unfold mapServerKeysToPublicKeyLookupResult.
  apply (fold_insert_trusted publishedOrOld (kServerName sk) (fun kv => mkLookup kv.1 kv.2 PublicKeyNotValid)).
  - apply (fold_insert_trusted publishedOrOld (kServerName sk) (fun key => mkLookup key PublicKeyNotExpired (kValidUntilTS sk)));
      [done|]. apply Forall_forall. intros [keyID key] Hin%rangeKeys_elem. cbn [fst snd]. right.
    exists sk. cbn [Key ValidUntilTS ExpiredTS]. split_and!; auto.
  - apply Forall_forall. intros [keyID key] _. by left.
Qed.

Context {D : Type} `{KeyStore D}.

(** The direct fetcher is honest, whatever the network answers. *)
Lemma direct_honest (Inv : D -> Prop) :
  (forall server d r d', Inv d -> GetServerKeys server d = (r, d') ->
     Inv d' /\ forall sk, r = Ok sk -> Answers server sk) -> honest publishedOrOld Inv DirectFetchKeys.
Proof using.
  intros Hnet reqs d keys d' Hd. unfold DirectFetchKeys. generalize (serversOf reqs). intros servers.
  assert (Hm : trustedKeys publishedOrOld (∅ : Keys)) by apply map_Forall_empty. revert Hm. generalize (∅ : Keys).
  revert d Hd. induction servers as [|s servers IH]; intros d Hd m Hm; cbn [fetchServers]; [by intros [= <- <-]|].
  intros (r & d2 & Er & Hr)%ST_bind_inv. unfold fetchKeysForServer in Er.
  apply ST_bind_inv in Er as (sk & d3 & Eg & Er). apply Hnet in Eg as [Hd3 Ha]; [|done].
  apply ST_bind_inv in Er as (ok & d4 & Ec & Er). unfold liftR in Ec. injection Ec as Ec ->.
  destruct ok; cbn [negb] in Er; [|done]. injection Er as <- <-.
  eapply (IH d4 Hd3 _ _ Hr). Unshelve. apply map_Forall_union_2; [|done]. eapply fetched_published; [left; by apply Ha|done|apply map_Forall_empty].
Qed.

Lemma vouched_key name known raw ids : vouched name known raw ids = Ok () ->
  exists keyID key, known !! keyID = Some key /\ VerifyJSON_bytes name keyID key raw = Ok ().
Proof using.
  induction ids as [|keyID ids IH]; [done|]. cbn [vouched]. destruct (known !! keyID) as [key|] eqn:E; [|done]. by exists keyID, key.
Qed.

(** So is a perspective fetcher: the responses it passes on carry the signatures of
    the servers themselves. *)
Lemma perspective_honest (Inv : D -> Prop) name known : (name, known) ∈ perspectives ->
  (forall reqs d r d', Inv d -> LookupServerKeys name reqs d = (r, d') ->
     Inv d' /\ forall sks, r = Ok sks -> Forall (Relays name) sks) ->
  honest publishedOrOld Inv (PerspectiveFetchKeys name known).
Proof using.
  intros Hp Hnet reqs d keys d' Hd. unfold PerspectiveFetchKeys. intros (sks & d2 & Eg & Hr)%ST_bind_inv.
  apply Hnet in Eg as [Hd2 Hs]; [|done]. specialize (Hs sks eq_refl). unfold liftR in Hr. injection Hr as Hr <-. split; [|done].
  assert (Hm : trustedKeys publishedOrOld (∅ : Keys)) by apply map_Forall_empty. revert Hm Hr. generalize (∅ : Keys).
  induction Hs as [|sk sks Hsk _ IH]; intros m Hm; cbn [perspectiveLoop]; [by intros [= <-]|].
  intros (ids & _ & ([] & Ev & (ok & Ec & Hr)%bind_Ok)%bind_Ok)%bind_Ok. destruct ok; cbn [negb] in Hr; [|done].
  apply vouched_key in Ev as (keyID & key & Hk & Hv).
  eapply IH; [|exact Hr]. eapply fetched_published; [right; by exists name, known, keyID, key|exact Ec|done].
Qed.

(** C40: Keys that a server lists as old verify nothing.  They are stored with the
    magic value [PublicKeyNotValid] as the end of their validity, which [WasValidAt]
    refuses at every time: events that were signed before the key expired cannot be
    verified, although the key is listed for them and [PublicKey] returns it. *)
Theorem old_keys_never_verify (sk : ServerKeys) (keyID : KeyID) (key : bytes) (expired ts : Timestamp) :
  OldVerifyKeys sk !! keyID = Some (key, expired) ->
  exists k, mapServerKeysToPublicKeyLookupResult sk ∅ !! (kServerName sk, keyID) = Some k /\
    Key k = key /\ ExpiredTS k = expired /\ WasValidAt k ts = false /\
    (VerifyKeys sk !! keyID = None -> ts <= expired -> PublicKeyAt sk keyID ts = Some key).
Proof using.
  intros Ho. exists (mkLookup key expired PublicKeyNotValid). split_and!; try done; [|by unfold WasValidAt; destruct (_ && _)|].
  2: { intros Hv Hts%Z.leb_le. unfold PublicKeyAt. by rewrite Hv, Ho, Hts. }
  unfold mapServerKeysToPublicKeyLookupResult. set (m := fold_left _ (rangeKeys (VerifyKeys sk)) ∅). clearbody m.
  apply rangeKeys_elem in Ho. assert (Hn : NoDup ((rangeKeys (OldVerifyKeys sk)).*1)).
  { rewrite rangeKeys_perm. apply NoDup_fst_map_to_list. }
  revert m Hn Ho. generalize (rangeKeys (OldVerifyKeys sk)). intros l.
  induction l as [|[k0 [v0 e0]] l IH]; intros m Hn Ho; [by apply elem_of_nil in Ho|].
  cbn [fmap list_fmap fst] in Hn. apply NoDup_cons in Hn as [Hk0 Hn]. cbn [fold_left fst snd].
  apply elem_of_cons in Ho as [[= <- <- <-]|Ho]; [|by apply IH].
  assert (Hkeep : forall l m, keyID ∉ l.*1 ->
    fold_left (fun m kv => <[(kServerName sk, kv.1) := mkLookup kv.2.1 kv.2.2 PublicKeyNotValid]> m) l m !! (kServerName sk, keyID) =
    (m : Keys) !! (kServerName sk, keyID)).
  { clear. intros l. induction l as [|kv l IH]; intros m Hk; [done|]. cbn [fmap list_fmap] in Hk. apply not_elem_of_cons in Hk as [Hne Hk].
    cbn [fold_left]. rewrite IH by done. apply lookup_insert_ne. congruence. }
  rewrite Hkeep by done. apply lookup_insert_eq.
Qed.

End Direct.

(** ** Events *)

(** The servers whose signature an event needs. *)
Inductive mustSign `{Codec} (event : Event) : string -> Prop :=
  | must_origin : mustSign event (Origin event)
  | must_sender d : Ids.domainFromID (Sender event) = Ok d -> mustSign event d
  | must_invited user d c : StateKey event = Some user -> Type_ event = MRoomMember -> Ids.domainFromID user = Ok d ->
      decMember (Content event) = Some c -> Membership c = invite -> mustSign event d.

Lemma signers_complete `{Codec} event doms dom : signers event = Ok doms -> mustSign event dom -> doms !! str dom = Some ().
Proof.
  unfold signers. intros (sd & Esd & E)%bind_Ok Hm.
  set (base := <[str sd := ()]> (<[str (Origin event) := ()]> ∅) : gmap (list Z) unit) in *.
  assert (Hins : forall k k' (m : gmap (list Z) unit), m !! k = Some () -> <[k' := ()]> m !! k = Some ()).
  { intros k k' m Hk. destruct (decide (k' = k)) as [->|]; [apply lookup_insert_eq|by rewrite lookup_insert_ne]. }
  assert (Ho : base !! str (Origin event) = Some ()) by (apply Hins, lookup_insert_eq).
  assert (Hs : base !! str sd = Some ()) by apply lookup_insert_eq.
  assert (Hbase : forall k, base !! k = Some () -> doms !! k = Some ()).
  { intros k Hk. destruct (StateKey event) as [user|]; [|by injection E as <-].
    destruct (String.eqb _ MRoomMember); [|by injection E as <-]. apply bind_Ok in E as (td & _ & E).
    destruct (String.eqb td _); [by injection E as <-|]. apply bind_Ok in E as (c & _ & [= <-]). case_match; auto. }
  destruct Hm as [|d Hd|user d c Hk Ht Hd Hc Hi]; [by apply Hbase| |].
  - apply Hbase. congruence.
  - rewrite Hk, Ht, String.eqb_refl, Hd in E. cbn [mbind res_bind] in E. destruct (String.eqb_spec d (Origin event)) as [Heq|Hne].
    + injection E as <-. by rewrite Heq.
    + unfold EventContent.newMemberContentFromEvent in E. rewrite Hc in E. cbn [mbind res_bind] in E.
      rewrite Hi, String.eqb_refl in E. injection E as <-. apply lookup_insert_eq.
Qed.

Lemma firstError_none l : firstError l = None -> Forall (fun e => e = None) l.
Proof.
  unfold firstError. induction l as [|[e|] l IH]; cbn [List.find]; [constructor|by rewrite bool_decide_true by done|].
  rewrite bool_decide_false by (intros Hn; by apply Hn). intros Hl. constructor; auto.
Qed.

(** The results of an event are those of its requests. *)
Lemma splitResults_sound {A} (Q : A -> Prop) (rss : list (list A)) (results : list (option goerr)) :
  Forall2 (fun r e => e = None -> Q r) (concat rss) results ->
  Forall2 (fun rs e => e = None -> Forall Q rs) rss (splitResults (map length rss) results).
Proof.
  revert results. induction rss as [|rs rss IH]; intros results Hr; cbn [concat map splitResults] in *; [constructor|].
  apply Forall2_app_inv_l in Hr as (r1 & r2 & H1 & H2 & ->). pose proof (Forall2_length _ _ _ H1) as Hl.
  constructor; [|rewrite Hl, drop_app_length; by apply IH].
  rewrite Hl, take_app_length. intros He%firstError_none. clear -H1 He. induction H1 as [|r e rs es Hq _ IH]; [constructor|].
  apply Forall_cons in He as [? ?]. constructor; auto.
Qed.

Section Events.
  Context `{GJson} `{JsonLib} `{Crypto} `{!KeyLib} `{RangeKeys} {D : Type} `{KeyStore D} `{Codec} (JSON : Event -> bytes).
  Context (Answers Relays : ServerName -> ServerKeys -> Prop) (perspectives : list (ServerName * gmap KeyID bytes)).
  Abbreviation published := (published Answers Relays perspectives).
  Abbreviation publishedOrOld := (publishedOrOld Answers Relays perspectives).
  Context (Inv : D -> Prop) `{!TrustedStore publishedOrOld Inv}.
  Hypothesis Hnet : forall server d r d', Inv d -> GetServerKeys server d = (r, d') ->
    Inv d' /\ forall sk, r = Ok sk -> Answers server sk.
  Hypothesis Hlookup : forall server reqs d r d', Inv d -> LookupServerKeys server reqs d = (r, d') ->
    Inv d' /\ forall sks, r = Ok sks -> Forall (Relays server) sks.

(** The server has signed the message with a key it has published, at a time when
    the key was valid. *)
Definition genuine (server : ServerName) (ts : Timestamp) (message : bytes) : Prop := exists keyID k,
  published server keyID k /\ WasValidAt k ts = true /\ VerifyJSON_bytes server keyID (Key k) message = Ok ().

Lemma signed_genuine r : signedFor publishedOrOld r -> genuine (rServerName r) (AtTS r) (Message r).
Proof using.
  intros (keyID & k & Hs & Hp & Hv & E). exists keyID, k. split_and!; try done. destruct Hp as [Ho|Hp]; [|done].
  unfold WasValidAt in Hv. rewrite Ho in Hv. by destruct (_ && _).
Qed.

Lemma eventRequests_sound event rs : eventRequests JSON event = Ok rs ->
  Forall (signedFor publishedOrOld) rs ->
  exists red, redactEvent (JSON event) = Ok red /\
    forall dom, mustSign event dom -> genuine (str dom) (OriginServerTS event) red.
Proof using.
  unfold eventRequests. intros (red & Er & (doms & Ed & [= <-])%bind_Ok)%bind_Ok Hall. exists red. split; [done|].
  intros dom Hm. pose proof (signers_complete event doms dom Ed Hm) as Hd.
  rewrite Forall_forall in Hall. apply (signed_genuine (mkRequest (str dom) (OriginServerTS event) red)), Hall.
  apply list_elem_of_In, in_map_iff. exists (str dom, ()). split; [done|]. by apply list_elem_of_In, rangeKeys_elem.
Qed.

(** What a verified event carries. *)
Definition signedByAll (event : Event) : Prop := exists red, redactEvent (JSON event) = Ok red /\
  forall dom, mustSign event dom -> genuine (str dom) (OriginServerTS event) red.

Lemma VerifyEventSignatures_sound (fetchers : list (Requests -> ST D Keys)) events d d1 errors :
  Forall (honest publishedOrOld Inv) fetchers -> Inv d ->
  VerifyEventSignatures JSON fetchers events d = (Ok errors, d1) ->
  Inv d1 /\ Forall2 (fun event e => e = None -> signedByAll event) events errors.
Proof using TrustedStore0.
  intros Hf Hd. unfold VerifyEventSignatures. intros (rss & d2 & Er & Hr)%ST_bind_inv. unfold liftR in Er. injection Er as Er ->.
  apply ST_bind_inv in Hr as (results & d3 & Ev & Hr). injection Hr as <- <-.
  destruct (VerifyJSONs_sound publishedOrOld Inv fetchers Hf _ _ _ _ Hd Ev) as [Hd3 Hs]. split; [done|].
  apply splitResults_sound in Hs. revert Hs. generalize (splitResults (map length rss) results). intros errs Hs.
  clear Ev. revert rss errs Er Hs. induction events as [|event events IH]; intros rss errs Er Hs; cbn [mapM] in Er.
  { injection Er as <-. inversion Hs; subst. constructor. }
  apply bind_Ok in Er as (rs & Ers & (rss' & Erss & [= <-])%bind_Ok). apply Forall2_cons_inv_l in Hs as (e & errs' & He & Hs & ->).
  constructor; [|by eapply IH]. intros En. by eapply eventRequests_sound; [|apply He].
Qed.

Lemma VerifyAll_sound (fetchers : list (Requests -> ST D Keys)) events d d1 :
  Forall (honest publishedOrOld Inv) fetchers -> Inv d ->
  VerifyAllEventSignatures JSON fetchers events d = (Ok (), d1) -> Inv d1 /\ Forall signedByAll events.
Proof using TrustedStore0.
  intros Hf Hd. unfold VerifyAllEventSignatures. intros (errors & d2 & Ev & Hr)%ST_bind_inv.
  destruct (VerifyEventSignatures_sound _ _ _ _ _ Hf Hd Ev) as [Hd2 Hs]. destruct (firstError errors) eqn:E; [done|].
  injection Hr as <-. split; [done|]. apply firstError_none in E. clear Ev. revert E.
  induction Hs as [|event e events errors He _ IH]; [constructor|]. intros [-> Hn]%Forall_cons. constructor; auto.
Qed.

(** The fetchers of a key ring. *)
Definition fetchersOf : list (Requests -> ST D Keys) :=
  (map (fun p => PerspectiveFetchKeys p.1 p.2) perspectives ++ [DirectFetchKeys])%list.

Lemma fetchers_honest : Forall (honest publishedOrOld Inv) fetchersOf.
Proof using Hnet Hlookup.
  apply Forall_app. split; [|apply Forall_singleton; by apply direct_honest].
  apply Forall_forall. intros f (p & -> & Hp)%list_elem_of_fmap.
  apply perspective_honest; [by destruct p|]. intros reqs d r d'. apply Hlookup.
Qed.

(** C15: Verified events are signed by the servers they speak for.  [Answers server]
    are the responses the server gives when it is asked for its keys, [Relays name]
    those that the perspective server [name] gives.  With a key database that holds
    only published keys (and old ones, which verify nothing), the configured
    perspective servers and the fetcher that asks the servers: an event without an
    error carries, in its redacted form, valid signatures of its origin, of the
    server of its sender and, for an invite, of the server of the invited user, each
    made with a key that was valid at the time of the event and that this server
    published: a current key in a response that names the server, is signed with
    every Ed25519 key in it, and was given by the server itself or by a perspective
    server which signed it with a configured key. *)
Theorem verified_events_are_signed (events : list Event) (d d1 : D) (errors : list (option goerr)) :
  Inv d -> VerifyEventSignatures JSON fetchersOf events d = (Ok errors, d1) ->
  Inv d1 /\ Forall2 (fun event e => e = None -> signedByAll event) events errors.
Proof using All. apply VerifyEventSignatures_sound, fetchers_honest. Qed.

End Events.

End KeyRingFacts.
