(* ===== verification/StateResp.v ===== *)
(** * Responses of the federation API that carry room state

    [src/skunkworks/gomatrixserverlib/federationtypes.go]: the state of a room as
    another server sends it, the list of its events, and the checks of a response to
    [/state] and to [/send_join], which combine the key ring with the authorisation
    rules.

    Theorems:
    - [send_join_checked]: what holds of a response that passes.
    - [Events_each_once]: the events of a response, each once.
    - [state_not_authorised] (in [KeyRingModel]): events that the rules do not allow
      pass, since the check against the auth events is commented out. *)

From Stdlib Require Import String ZArith List Lia Permutation.
From stdpp Require Import base tactics list gmap strings.
From S2P Require Import Prelude Ids Event EventContent EventAuth CanonJson Signing KeyRing KeyRingFacts.

#[local] Open Scope string_scope.

Module StateResp.
Import Event EventContent EventAuth CanonJson Signing KeyRing KeyRingFacts.

Record RespState := mkRespState {
  StateEvents : list Event;
  RespAuthEvents : list Event;
}.

(** ** The events of a response *)

(** Pointers to the events: positions in the state events followed by the auth
    events. *)
Definition heap (r : RespState) : list Event := (StateEvents r ++ RespAuthEvents r)%list.

Fixpoint byID (i : nat) (evs : list Event) (m : gmap string nat) : gmap string nat :=
  match evs with
  | [] => m
  | e :: rest => byID (S i) rest (<[EventID e := i]> m)
  end.

Definition eventsByID (r : RespState) : gmap string nat :=
  byID (length (StateEvents r)) (RespAuthEvents r) (byID 0 (StateEvents r) ∅).

(** [LoopProcessTopOfStack] with its body commented out: the top is written and
    taken off. *)
Fixpoint processStack (evs : list Event) (stack : list nat) (outputted : gset nat) (result : list Event) :
    gset nat * list Event :=
  match stack with
  | [] => (outputted, result)
  | top :: below => processStack evs below ({[top]} ∪ outputted) (result ++ option_list (evs !! top))
  end.

(** One event of the map. *)
Definition visit (evs : list Event) (st : gset nat * list Event) (ip : string * nat) : gset nat * list Event :=
  if decide (ip.2 ∈ st.1) then st else processStack evs [ip.2] st.1 st.2.

Definition RespState_Events `{GoRange} (r : RespState) : list Event :=
  (fold_left (visit (heap r)) (range (eventsByID r)) (∅, [])).2.

(** ** The checks *)

(** The body is commented out. *)
Definition checkAllowedByAuthEvents (event : Event) (evs : gmap string Event) : res unit := Ok ().

Fixpoint checkAuthKeys (evs : list Event) : res unit :=
  match evs with
  | [] => Ok ()
  | e :: rest =>
      match StateKey e with
      | None => Err (ErrMsg "event does not have a state key")
      | Some _ => checkAuthKeys rest
      end
  end.

Fixpoint checkStateTuples (stateTuples : gset (string * string)) (evs : list Event) : res unit :=
  match evs with
  | [] => Ok ()
  | e :: rest =>
      match StateKey e with
      | None => Err (ErrMsg "event does not have a state key")
      | Some k =>
          if decide ((Type_ e, k) ∈ stateTuples) then Err (ErrMsg "duplicate state key tuple")
          else checkStateTuples ({[(Type_ e, k)]} ∪ stateTuples) rest
      end
  end.

Fixpoint checkAllowedAll (evs : gmap string Event) (l : list Event) : res unit :=
  match l with
  | [] => Ok ()
  | e :: rest => _ ← checkAllowedByAuthEvents e evs; checkAllowedAll evs rest
  end.

Fixpoint addStateEvents (a : AuthEvents) (evs : list Event) : res AuthEvents :=
  match evs with
  | [] => Ok a
  | e :: rest => let '(a1, err) := AddEvent a e in _ ← err; addStateEvents a1 rest
  end.

Definition mapByID (evs : list Event) : gmap string Event :=
  fold_left (fun m e => <[EventID e := e]> m) evs ∅.

Section Checks.
  Context `{GJson} `{JsonLib} `{Crypto} `{!KeyLib} `{RangeKeys} {D : Type} `{KeyStore D} `{Codec} (JSON : Event -> bytes).
  Context `{GoRange} `{AuthConfig}.

Definition Check (fetchers : list (Requests -> ST D Keys)) (r : RespState) : ST D unit :=
  _ ← liftR (checkAuthKeys (RespAuthEvents r));
  _ ← liftR (checkStateTuples ∅ (StateEvents r));
  let allEvents := (RespAuthEvents r ++ StateEvents r)%list in
  _ ← VerifyAllEventSignatures JSON fetchers allEvents;
  liftR (checkAllowedAll (mapByID allEvents) allEvents).

(** [RespSendJoin.Check]. *)
Definition CheckSendJoin (fetchers : list (Requests -> ST D Keys)) (r : RespState) (joinEvent : Event) : ST D unit :=
  _ ← Check fetchers r;
  authEvents ← liftR (addStateEvents (mkAuthEvents ∅) (StateEvents r));
  _ ← liftR (checkAllowedByAuthEvents joinEvent (mapByID (StateEvents r)));
  liftR (match Allowed joinEvent authEvents with
         | Err _ => Err (ErrMsg "event is not allowed by the supplied state")
         | x => x
         end).

End Checks.

(** ** Facts *)

Definition tupleOf (e : Event) : string * option string := (Type_ e, StateKey e).

Definition hasKey (e : Event) : Prop := is_Some (StateKey e).

Lemma checkAuthKeys_ok evs : checkAuthKeys evs = Ok () -> Forall hasKey evs.
Proof.
  induction evs as [|e evs IH]; cbn [checkAuthKeys]; [constructor|].
  destruct (StateKey e) eqn:E; [|done]. intros. constructor; [by exists s|auto].
Qed.

Lemma checkStateTuples_ok tuples evs : checkStateTuples tuples evs = Ok () ->
  Forall hasKey evs /\ NoDup (map tupleOf evs) /\ forall t k, (t, Some k) ∈ map tupleOf evs -> (t, k) ∉ tuples.
Proof.
  revert tuples. induction evs as [|e evs IH]; intros tuples; cbn [checkStateTuples map].
  { intros _. split_and!; [constructor..|]. by intros t k ?%elem_of_nil. }
  destruct (StateKey e) as [k|] eqn:E; [|done]. case_decide as Hin; [done|]. intros (Hk & Hn & Hout)%IH.
  assert (Et : tupleOf e = (Type_ e, Some k)) by (unfold tupleOf; by rewrite E). split_and!.
  - constructor; [by exists k|done].
  - apply NoDup_cons. split; [|done]. rewrite Et. intros Hin2%Hout. set_solver.
  - intros t k'. rewrite Et, elem_of_cons. intros [[= -> ->]|Hin2%Hout]; [done|set_solver].
Qed.

Lemma addStateEvents_ok a evs a1 : addStateEvents a evs = Ok a1 -> a1 = fold_left (fun a e => (AddEvent a e).1) evs a.
Proof.
  revert a. induction evs as [|e evs IH]; intros a; cbn [addStateEvents fold_left]; [by intros [= <-]|].
  destruct (AddEvent a e) as [a2 err] eqn:E. intros (u & _ & Hr)%bind_Ok. by apply IH.
Qed.

(** Every identifier leads to an event with it. *)
Definition leads (h : list Event) (m : gmap string nat) : Prop :=
  map_Forall (fun id p => exists e, h !! p = Some e /\ EventID e = id) m.

Lemma byID_leads h i evs m : leads h m -> (forall j e, evs !! j = Some e -> h !! (i + j)%nat = Some e) -> leads h (byID i evs m).
Proof.
  revert i m. induction evs as [|e evs IH]; intros i m Hm He; cbn [byID]; [done|]. apply IH.
  - apply map_Forall_insert_2; [|done]. exists e. split; [|done]. rewrite <- (Nat.add_0_r i). by apply He.
  - intros j e' Hj. replace (S i + j)%nat with (i + S j)%nat by lia. by apply He.
Qed.

Lemma byID_dom i evs m : dom (byID i evs m) = dom m ∪ list_to_set (map EventID evs).
Proof. revert i m. induction evs as [|e evs IH]; intros i m; cbn [byID map list_to_set]; [set_solver|]. rewrite IH. set_solver. Qed.

Lemma eventsByID_leads r : leads (heap r) (eventsByID r).
Proof.
  unfold eventsByID, heap. apply byID_leads; [apply byID_leads; [apply map_Forall_empty|]|].
  - intros j e Hj. by apply lookup_app_l_Some.
  - intros j e Hj. by rewrite lookup_app_r, Nat.add_comm, Nat.add_sub by lia.
Qed.

(** No pointer is met twice, so every one is written when it is met. *)
Lemma write_all h (l : list (string * nat)) (out : gset nat) (result : list Event) :
  Forall (fun ip => exists e, h !! ip.2 = Some e /\ EventID e = ip.1) l -> NoDup l.*1 -> Forall (fun ip => ip.2 ∉ out) l ->
  exists evs, (fold_left (visit h) l (out, result)).2 = (result ++ evs)%list /\
    map EventID evs = l.*1 /\ Forall (fun e => e ∈ h) evs.
Proof.
  revert out result. induction l as [|[id p] l IH]; intros out result Hh Hn Ho; cbn [fold_left].
  { exists []. by rewrite app_nil_r. }
  apply Forall_cons in Hh as [(e & He & Hid) Hh], Ho as [Hp Ho]. cbn [fst snd] in *. cbn [fmap list_fmap fst] in Hn.
  apply NoDup_cons in Hn as [Hid2 Hn]. 
  assert (Ev : visit h (out, result) (id, p) = ({[p]} ∪ out, (result ++ [e])%list)).
  { unfold visit. cbn [fst snd]. rewrite decide_False by done. cbn [processStack]. by rewrite He. }
  rewrite Ev.
  destruct (IH ({[p]} ∪ out) (result ++ [e])%list Hh Hn) as (evs & E & Em & Hin).
  - rewrite Forall_forall in Hh, Ho |- *. intros [id' p'] Hin. specialize (Hh _ Hin) as (e' & He' & Hid'). specialize (Ho _ Hin).
    cbn [snd fst] in *. intros [->%elem_of_singleton|]%elem_of_union; [|done]. apply Hid2. apply list_elem_of_fmap. exists (id', p). split; [|done].
    cbn [fst]. congruence.
  - exists (e :: evs). rewrite E, <- (assoc app). split_and!; [done| |].
    + cbn [map fmap list_fmap fst]. by rewrite Em, Hid.
    + constructor; [by eapply list_elem_of_lookup_2|done].
Qed.

(** The events of a response.  [RespState.Events] returns, for every identifier that occurs
    in the response, exactly one of the events with it; the order is the one of the
    map, not the order of the auth events which the comment promises. *)
Theorem Events_each_once `{GoRange} (r : RespState) :
  NoDup (map EventID (RespState_Events r)) /\ map EventID (RespState_Events r) = (range (eventsByID r)).*1 /\
  (forall e, e ∈ RespState_Events r -> e ∈ heap r) /\ (forall e, e ∈ heap r -> EventID e ∈ map EventID (RespState_Events r)).
Proof.
  assert (Hr : forall id p, (id, p) ∈ range (eventsByID r) <-> eventsByID r !! id = Some p).
  { intros id p. by rewrite range_perm, elem_of_map_to_list. }
  assert (Hn : NoDup (range (eventsByID r)).*1) by (rewrite range_perm; apply NoDup_fst_map_to_list).
  destruct (write_all (heap r) (range (eventsByID r)) ∅ []) as (evs & E & Em & Hin); [|done| |].
  { apply Forall_forall. intros [id p] Hp%Hr. exact (eventsByID_leads r id p Hp). }
  { apply Forall_forall. intros ip _. apply not_elem_of_empty. }
  unfold RespState_Events. rewrite E. cbn [app]. rewrite Em. split_and!; [done..|by apply Forall_forall|].
  intros e He. assert (Hd : EventID e ∈ dom (eventsByID r)).
  { unfold eventsByID. rewrite !byID_dom, !elem_of_union, !elem_of_list_to_set. unfold heap in He.
    apply elem_of_app in He as [He|He]; [left; right|right]; by apply list_elem_of_fmap_2. }
  apply elem_of_dom in Hd as [p Hp]. apply list_elem_of_fmap. exists (EventID e, p). split; [done|]. by apply Hr.
Qed.

Section Theorems.
  Context `{GJson} `{JsonLib} `{Crypto} `{!KeyLib} `{RangeKeys} {D : Type} `{KeyStore D} `{Codec} (JSON : Event -> bytes).
  Context `{GoRange} `{AuthConfig} (Answers Relays : ServerName -> ServerKeys -> Prop) (perspectives : list (ServerName * gmap KeyID bytes)).
  Abbreviation publishedOrOld := (publishedOrOld Answers Relays perspectives).
  Abbreviation signedByAll := (signedByAll JSON Answers Relays perspectives).
  Context (Inv : D -> Prop) `{!TrustedStore publishedOrOld Inv}.

Lemma Check_sound fetchers r d d1 : Forall (honest publishedOrOld Inv) fetchers -> Inv d ->
  Check JSON fetchers r d = (Ok (), d1) ->
  Inv d1 /\ Forall hasKey (RespAuthEvents r ++ StateEvents r) /\ NoDup (map tupleOf (StateEvents r)) /\
  Forall signedByAll (RespAuthEvents r ++ StateEvents r).
Proof using All.
  intros Hf Hd. unfold Check. intros ([] & d2 & E1 & ([] & d3 & E2 & ([] & d4 & E3 & E4)%ST_bind_inv)%ST_bind_inv)%ST_bind_inv.
  unfold liftR in E1, E2, E4. injection E1 as E1 ->. injection E2 as E2 ->. injection E4 as _ <-.
  apply checkAuthKeys_ok in E1. apply checkStateTuples_ok in E2 as (Hk & Hn & _).
  destruct (VerifyAll_sound JSON Answers Relays perspectives Inv _ _ _ _ Hf Hd E3) as [Hd4 Hs]. split_and!; try done. by apply Forall_app.
Qed.

(** A checked response to [/send_join].  Whatever the network answers, a response
    that passes has one state event for each type and state key, every event in it
    has a state key and is signed by its origin, the server of its sender and, for an
    invite, the server of the invited user, and the state allows the join event. *)
Theorem send_join_checked (fetchers : list (Requests -> ST D Keys)) (r : RespState) (joinEvent : Event) (d d1 : D) :
  Forall (honest publishedOrOld Inv) fetchers -> Inv d -> CheckSendJoin JSON fetchers r joinEvent d = (Ok (), d1) ->
  Inv d1 /\ Forall hasKey (RespAuthEvents r ++ StateEvents r) /\ NoDup (map tupleOf (StateEvents r)) /\
  Forall signedByAll (RespAuthEvents r ++ StateEvents r) /\ Allowed joinEvent (NewAuthEvents (StateEvents r)) = Ok ().
Proof using All.
  intros Hf Hd. unfold CheckSendJoin. intros ([] & d2 & E1 & (a & d3 & E2 & ([] & d4 & E3 & E4)%ST_bind_inv)%ST_bind_inv)%ST_bind_inv.
  destruct (Check_sound _ _ _ _ Hf Hd E1) as (Hd2 & Hk & Hn & Hs). unfold liftR in E2, E3, E4.
  injection E2 as E2 ->. injection E3 as ->. injection E4 as E4 <-. apply addStateEvents_ok in E2.
  split_and!; try done. fold (NewAuthEvents (StateEvents r)) in E2. rewrite <- E2. by destruct (Allowed joinEvent a) as [[]| | |].
Qed.

End Theorems.

End StateResp.
