(* ===== verification/KeyRingModel.v ===== *)
(** * A key ring that runs

    The libraries of [SigningModel] with a key database in memory and one server,
    [host], that publishes one key: the theorems on the key ring and on the responses
    of the federation API applied to concrete events, and a response that passes
    although the authorisation rules do not allow one of its events. *)

From Stdlib Require Import String ZArith List Lia.
From stdpp Require Import base tactics list gmap strings.
From S2P Require Import Prelude Ids Event EventContent EventAuth CanonJson CanonText CanonJsonFacts Signing SigningFacts SigningModel KeyRing KeyRingFacts StateResp.

#[local] Open Scope string_scope.
#[local] Open Scope Z_scope.

Module KeyRingModel.
Import Event EventContent EventAuth CanonJson CanonText CanonJsonFacts Signing SigningFacts SigningModel KeyRing KeyRingFacts StateResp.

#[local] Existing Instances CanonJsonFacts.referenceGJson SigningModel.referenceJson SigningModel.referenceCrypto.

#[local] Instance referenceKeyLib : KeyLib := {
  unmarshalKeyIDs b := withObject b (fun M => match M !! kSignatures with Some v => decoded_sigs (readSigs (sortValue v)) | None => Ok ∅ end);
  asKey _ := ();
}.

#[local] Instance listRangeKeys : RangeKeys.
Proof. refine {| rangeKeys A m := map_to_list m |}. by intros. Defined.

#[local] Instance modelCodec : Codec := toyCodec (fun _ => None).
#[local] Instance modelConfig : AuthConfig := {| domainCfg := ["host"]; skipEv := fun _ => false |}.

Definition host : ServerName := str "host".
Definition hostKey : KeyID := str "ed25519:1".

(** A text signed by [host]. *)
Definition signed (sign : bytes -> res bytes) (v : json) : bytes :=
  match sign (compactOf v) with Ok t => t | _ => [] end.

Definition hostKeys : ServerKeys :=
  mkServerKeys (signed (SignJSON host hostKey exKey) (JObj [])) host [repeat 0 32] {[ hostKey := repeat 1 32 ]} 1000
    {[ str "ed25519:0" := (repeat 2 32, 500) ]}.

#[local] Instance memoryStore : KeyStore Keys := {
  dbFetchKeys _ := fun d => (Ok d, d);
  dbStoreKeys ks := fun d => (Ok (), ks ∪ d);
  GetServerKeys s := fun d => (if decide (s = host) then Ok hostKeys else Err (ErrMsg "no such host"), d);
  LookupServerKeys _ _ := fun d => (Ok [hostKeys], d);
}.

(** [host] answers with its keys, and vouches for itself as a perspective server. *)
Definition hostAnswers (server : ServerName) (sk : ServerKeys) : Prop := server = host /\ sk = hostKeys.
Definition hostRelays (server : ServerName) (sk : ServerKeys) : Prop := sk = hostKeys.
Definition perspectives : list (ServerName * gmap KeyID bytes) := [(host, {[ hostKey := repeat 1 32 ]})].

Abbreviation Published := (publishedOrOld hostAnswers hostRelays perspectives).
Abbreviation Stored := (trustedKeys Published).

#[local] Instance memoryStore_trusted : TrustedStore Published Stored.
Proof.
  split.
  - intros reqs d keys d' Hd [= <- <-]. done.
  - intros keys d d' Hd Hk [= <-]. by apply map_Forall_union_2.
Qed.

Lemma network_answers (server : ServerName) (d : Keys) (r : res ServerKeys) (d' : Keys) :
  Stored d -> GetServerKeys server d = (r, d') -> Stored d' /\ forall sk, r = Ok sk -> hostAnswers server sk.
Proof. intros Hd [= <- <-]. split; [done|]. intros sk. case_decide; [|done]. by intros [= <-]. Qed.

Lemma network_relays (server : ServerName) (reqs : Requests) (d : Keys) (r : res (list ServerKeys)) (d' : Keys) :
  Stored d -> LookupServerKeys server reqs d = (r, d') -> Stored d' /\ forall sks, r = Ok sks -> Forall (hostRelays server) sks.
Proof. intros Hd [= <- <-]. split; [done|]. intros sks [= <-]. by repeat constructor. Qed.

(** The text of an event. *)
Definition textOf (e : Event) : bytes :=
  signed (signEvent host hostKey exKey)
    (JObj [(kType, JStr (str (Type_ e))); (kContent, JObj [(str "membership", JStr (str (Content e)))]);
           (kEventID, JStr (str (EventID e)))]).

Definition event (id type : string) (key : option string) (sender content : string) : Event :=
  mkEvent "!r:host" id 1 0 sender type key content "" 1 "" 700 "host" "".

Definition created : Event := event "$1:host" MRoomCreate (Some "") "@alice:host" "@alice:host".
Definition aliceJoined : Event := event "$2:host" MRoomMember (Some "@alice:host") "@alice:host" join.
Definition open : Event := event "$3:host" MRoomJoinRules (Some "") "@alice:host" public.
(** Eve, who is not in the room, sets the topic. *)
Definition intruded : Event := event "$4:host" "m.room.topic" (Some "") "@eve:host" "".
Definition joining : Event := event "$5:host" MRoomMember (Some "@bob:host") "@bob:host" join.

Lemma keyFetchers_honest : Forall (honest Published Stored) CreateKeyRing.
Proof. apply Forall_singleton, direct_honest, network_answers. Qed.

Lemma stored_empty : Stored ∅.
Proof. apply map_Forall_empty. Qed.

Lemma keyring_sound_witness :
  let reqs := [mkRequest host 700 (signed (SignJSON host hostKey exKey) (JObj []))] in
  Stored (VerifyJSONs CreateKeyRing reqs ∅).2 /\ Forall2 (fun r e => e = None -> signedFor Published r) reqs [None : option goerr].
Proof.
  intros reqs. apply (keyring_sound Published Stored CreateKeyRing keyFetchers_honest reqs ∅ [None]); [apply stored_empty|].
  vm_compute. reflexivity.
Defined.

Lemma old_keys_never_verify_witness :
  exists k, mapServerKeysToPublicKeyLookupResult hostKeys ∅ !! (host, str "ed25519:0") = Some k /\
    Key k = repeat 2 32 /\ ExpiredTS k = 500 /\ WasValidAt k 400 = false /\
    (VerifyKeys hostKeys !! str "ed25519:0" = None -> 400 <= 500 -> PublicKeyAt hostKeys (str "ed25519:0") 400 = Some (repeat 2 32)).
Proof. apply (old_keys_never_verify hostKeys (str "ed25519:0")). vm_compute. reflexivity. Defined.

Abbreviation signedByHosts := (signedByAll textOf hostAnswers hostRelays perspectives).

Lemma verified_events_are_signed_witness :
  Stored (VerifyEventSignatures textOf (fetchersOf perspectives) [created; aliceJoined] ∅).2 /\
  Forall2 (fun event e => e = None -> signedByHosts event) [created; aliceJoined] [None; None : option goerr].
Proof.
  apply (verified_events_are_signed textOf hostAnswers hostRelays perspectives Stored network_answers network_relays
    [created; aliceJoined] ∅ _ [None; None]); [apply stored_empty|]. vm_compute. reflexivity.
Defined.

Definition response : RespState := mkRespState [created; aliceJoined; open; intruded] [created].

Lemma send_join_checked_witness :
  Stored (CheckSendJoin textOf CreateKeyRing response joining ∅).2 /\
  Forall hasKey (RespAuthEvents response ++ StateEvents response) /\ NoDup (map tupleOf (StateEvents response)) /\
  Forall signedByHosts (RespAuthEvents response ++ StateEvents response) /\
  Allowed joining (NewAuthEvents (StateEvents response)) = Ok ().
Proof.
  apply (send_join_checked textOf hostAnswers hostRelays perspectives Stored CreateKeyRing response joining ∅); [apply keyFetchers_honest|apply stored_empty|].
  vm_compute. reflexivity.
Defined.

(** The authorisation of the received state is not checked.  The response passes
    although one of its events, the topic set by a user who is not in the room, is
    not allowed by the other events: the body of [checkAllowedByAuthEvents] is
    commented out. *)
Theorem state_not_authorised :
  (Check textOf CreateKeyRing response ∅).1 = Ok () /\
  Allowed intruded (NewAuthEvents (StateEvents response)) = Err (ErrNotAllowed "sender not in room").
Proof. split; vm_compute; reflexivity. Qed.

End KeyRingModel.
