(* ===== verification/TimelineRepo.v ===== *)
(** * Timelines by key, with a bound on their number

    [src/model/repos/timelineRepo.go] keeps one timeline for each key in buckets
    chosen by a hash of the key ([src/common/util.go]); [src/model/repos/lru.go]
    names the key that was not used for longest when there are too many.

    - [repo_refines_map]: every operation on the buckets and the list of keys is the
      one on a map of timelines, which never holds more than the permitted number.
    - [lru_keeps_most_recent]: which keys are kept.

    An element of the linked list is its key: the map [cache] from keys to elements is
    the set of the keys that have one. *)

From Stdlib Require Import String Ascii ZArith List Lia Permutation.
From stdpp Require Import base tactics list gmap strings.
From S2P Require Import Prelude Timeline.

#[local] Open Scope string_scope.
#[local] Open Scope nat_scope.

Module TimelineRepo.
Import Timeline.

(** ** The hash of a key: FNV-1a *)

Definition fnvStep (h : Z) (c : ascii) : Z := (Z.lxor h (Z.of_N (N_of_ascii c)) * 16777619 mod 2 ^ 32)%Z.

Definition CalcStringHashCode (str : string) : Z := fold_left fnvStep (list_ascii_of_string str) 2166136261%Z.

Example hash_a : CalcStringHashCode "a" = 3826002220%Z.
Proof. reflexivity. Qed.

(** ** The order of use *)

Record Lru := mkLru {
  lruList : list string;      (** the front first *)
  maxEntries : nat;
  cache : gset string;
  removeCount : Z;
}.

Definition NewLru (max : nat) : Lru := mkLru [] max ∅ 1.

Definition MoveToFront (key : string) (l : list string) : list string :=
  key :: List.filter (fun k => negb (String.eqb k key)) l.

(** [Lru.Add]: the key to remove, if any. *)
Definition LruAdd (lru : Lru) (key : string) : option string * Lru :=
  if decide (key ∈ cache lru) then
    (None, mkLru (MoveToFront key (lruList lru)) (maxEntries lru) (cache lru) (removeCount lru))
  else
    let l := key :: lruList lru in
    let c := {[key]} ∪ cache lru in
    if negb (maxEntries lru =? 0) && (maxEntries lru <? length l) then
      match last l with
      | Some kv => (Some kv, mkLru (removelast l) (maxEntries lru) (c ∖ {[kv]}) (removeCount lru + 1))
      | None => (None, mkLru l (maxEntries lru) c (removeCount lru))
      end
    else (None, mkLru l (maxEntries lru) c (removeCount lru)).

(** [Lru.Get]. *)
Definition LruGet (lru : Lru) (key : string) : Lru :=
  if decide (key ∈ cache lru) then
    mkLru (MoveToFront key (lruList lru)) (maxEntries lru) (cache lru) (removeCount lru)
  else lru.

(** ** The repository *)

Section Repo.
  Context {F : Type} `{Feed F}.

Record TimeLineRepo := mkRepo {
  bukSize : nat;
  tlSize : nat;
  tlLimit : bool;
  buks : list (gmap string (TimeLines F));
  lru : option Lru;           (** [None]: [entryLimit] is false *)
}.

Definition NewTimeLineRepo (bukSize tlSize : nat) (tlLimit : bool) (maxEntries : nat) : TimeLineRepo :=
  mkRepo bukSize tlSize tlLimit (replicate bukSize ∅) (if 0 <? maxEntries then Some (NewLru maxEntries) else None).

Definition getSlot (tl : TimeLineRepo) (key : string) : res nat :=
  if bukSize tl =? 0 then Panic
  else Ok (Z.to_nat (CalcStringHashCode key mod Z.of_nat (bukSize tl))).

(** [tl.buks[slot]]. *)
Definition bucket (tl : TimeLineRepo) (slot : nat) : res (gmap string (TimeLines F)) :=
  match buks tl !! slot with Some m => Ok m | None => Panic end.

Definition set_bucket (tl : TimeLineRepo) (slot : nat) (m : gmap string (TimeLines F)) : TimeLineRepo :=
  mkRepo (bukSize tl) (tlSize tl) (tlLimit tl) (<[slot := m]> (buks tl)) (lru tl).

Definition set_lru (tl : TimeLineRepo) (l : option Lru) : TimeLineRepo :=
  mkRepo (bukSize tl) (tlSize tl) (tlLimit tl) (buks tl) l.

(** [remove]. *)
Definition remove (tl : TimeLineRepo) (key : string) : res TimeLineRepo :=
  slot ← getSlot tl key;
  m ← bucket tl slot;
  Ok (set_bucket tl slot (delete key m)).

(** The first part of [add] and of [setDefault]. *)
Definition touch (tl : TimeLineRepo) (key : string) : res TimeLineRepo :=
  match lru tl with
  | None => Ok tl
  | Some l =>
      let '(toRemove, l1) := LruAdd l key in
      let tl1 := set_lru tl (Some l1) in
      match toRemove with
      | Some k => remove tl1 k
      | None => Ok tl1
      end
  end.

(** [add]: returns the feed that was removed. *)
Definition add (tl : TimeLineRepo) (key : string) (feed : F) : res (TimeLineRepo * option F) :=
  tl1 ← touch tl key;
  slot ← getSlot tl1 key;
  m ← bucket tl1 slot;
  let tls := default (NewEvTimeLines (tlSize tl1) (tlLimit tl1)) (m !! key) in
  '(tls1, removed) ← Add tls (Some feed);
  Ok (set_bucket tl1 slot (<[key := tls1]> m), removed).

Definition setDefault (tl : TimeLineRepo) (key : string) : res TimeLineRepo :=
  tl1 ← touch tl key;
  slot ← getSlot tl1 key;
  m ← bucket tl1 slot;
  match m !! key with
  | Some _ => Ok tl1
  | None => Ok (set_bucket tl1 slot (<[key := NewEvTimeLines (tlSize tl1) (tlLimit tl1)]> m))
  end.

Definition getTimeLine (tl : TimeLineRepo) (key : string) : res (option (TimeLines F) * TimeLineRepo) :=
  let tl1 := set_lru tl (match lru tl with Some l => Some (LruGet l key) | None => None end) in
  slot ← getSlot tl1 key;
  m ← bucket tl1 slot;
  Ok (m !! key, tl1).

(** [exits]. *)
Definition exits (tl : TimeLineRepo) (key : string) : res bool :=
  slot ← getSlot tl key;
  m ← bucket tl slot;
  Ok (match m !! key with Some _ => true | None => false end).

End Repo.
Arguments TimeLineRepo F : clear implicits.

(** ** The keys that are kept *)

Record LruInv (l : Lru) : Prop := {
  lru_nodup : NoDup (lruList l);
  lru_cache : cache l = list_to_set (lruList l);
  lru_bound : maxEntries l <> 0 -> length (lruList l) <= maxEntries l;
}.

Lemma without_id key l : key ∉ l -> List.filter (fun k => negb (String.eqb k key)) l = l.
Proof.
  induction l as [|k l IH]; [done|]. intros [Hk Hl]%not_elem_of_cons. cbn [List.filter].
  rewrite (proj2 (String.eqb_neq k key)) by congruence. cbn [negb]. by rewrite IH.
Qed.

Lemma without_perm key l : NoDup l -> key ∈ l -> Permutation (MoveToFront key l) l.
Proof.
  unfold MoveToFront. induction l as [|k l IH]; intros Hn Hk; [by apply elem_of_nil in Hk|].
  apply NoDup_cons in Hn as [Hkl Hn]. cbn [List.filter]. destruct (String.eqb_spec k key) as [->|Hne]; cbn [negb].
  - by rewrite without_id.
  - apply elem_of_cons in Hk as [->|Hk]; [done|]. rewrite perm_swap. by rewrite IH.
Qed.

(** [MoveToFront] on the first [n] keys. *)
Lemma without_take key n l : NoDup l ->
  take n (MoveToFront key l) =
  if decide (key ∈ take n l) then MoveToFront key (take n l) else take n (key :: take n l).
Proof.
  intros Hn. unfold MoveToFront. destruct n as [|n]; [by rewrite !take_0, decide_False by apply not_elem_of_nil|].
  cbn [take]. assert (Hin : forall n l, NoDup l -> key ∈ take (S n) l ->
    take n (List.filter (fun k => negb (String.eqb k key)) l) = List.filter (fun k => negb (String.eqb k key)) (take (S n) l)).
  { clear. intros n l. revert n. induction l as [|k l IH]; intros n Hn Hk; [by apply elem_of_nil in Hk|].
    apply NoDup_cons in Hn as [Hkl Hn]. cbn [take List.filter] in *. destruct (String.eqb_spec k key) as [->|Hne]; cbn [negb].
    - rewrite !without_id; [done|intros Hk2; apply Hkl; by eapply elem_of_take in Hk2 as (? & ? & ?); eapply list_elem_of_lookup_2|done].
    - apply elem_of_cons in Hk as [->|Hk]; [done|]. destruct n as [|n]; [by apply elem_of_nil in Hk|]. cbn [take]. f_equal. by apply IH. }
  case_decide as Hk; [f_equal; by apply Hin|]. f_equal. clear -Hk. revert n Hk.
  induction l as [|k l IH]; intros n Hk; [by rewrite take_nil|]. cbn [take List.filter] in *.
  apply not_elem_of_cons in Hk as [Hne Hk]. rewrite (proj2 (String.eqb_neq k key)) by congruence. cbn [negb].
  destruct n as [|n]; [done|]. cbn [take] in *. f_equal. by apply IH.
Qed.

Lemma LruAdd_inv l key : LruInv l -> LruInv (LruAdd l key).2 /\ maxEntries (LruAdd l key).2 = maxEntries l /\
  lruList (LruAdd l key).2 = (if decide (key ∈ lruList l) then MoveToFront key (lruList l)
                             else if maxEntries l =? 0 then key :: lruList l else take (maxEntries l) (key :: lruList l)) /\
  forall k, (LruAdd l key).1 = Some k -> (key ∉ lruList l) /\ k <> key /\ (k ∉ lruList (LruAdd l key).2) /\
    forall k', k' ∈ lruList l -> k' = k \/ k' ∈ lruList (LruAdd l key).2.
Proof.
  intros [Hn Hc Hb]. unfold LruAdd. assert (Hin : (key ∈ cache l) <-> (key ∈ lruList l)) by (rewrite Hc; apply elem_of_list_to_set).
  destruct (decide (key ∈ cache l)) as [Hk|Hk].
  { apply Hin in Hk. cbn [fst snd maxEntries lruList]. rewrite decide_True by done. split_and!; try done.
    split; cbn [lruList cache maxEntries].
    - by rewrite without_perm.
    - rewrite Hc. apply set_eq. intros k. rewrite !elem_of_list_to_set. by rewrite without_perm.
    - intros Hm. rewrite without_perm by done. auto. }
  rewrite Hin in Hk. rewrite (decide_False (P := key ∈ lruList l)) by done.
  assert (Hn2 : NoDup (key :: lruList l)) by by apply NoDup_cons.
  destruct (Nat.eqb_spec (maxEntries l) 0) as [Hm|Hm]; cbn [negb andb].
  { cbn [fst snd maxEntries lruList]. split_and!; try done. split; cbn; [done|by rewrite Hc|done]. }
  specialize (Hb Hm). destruct (Nat.ltb_spec (maxEntries l) (length (key :: lruList l))) as [Hlt|Hge]; cbn [andb].
  - destruct (exists_last (l := key :: lruList l)) as (l1 & kv & E); [done|]. rewrite E, last_snoc, removelast_last.
    cbn [fst snd maxEntries lruList length] in *. assert (El : length l1 = maxEntries l).
    { apply (f_equal length) in E. rewrite length_app in E. cbn in E. lia. }
    rewrite E in Hn2. apply NoDup_app in Hn2 as (Hn1 & Hd & _).
    assert (Hkv : kv ∉ l1) by (intros Hx; apply (Hd kv Hx); by left).
    split_and!; [split; cbn [lruList cache maxEntries]| | |].
    + done.
    + apply set_eq. intros k. rewrite elem_of_difference, elem_of_union, !elem_of_singleton, Hc, !elem_of_list_to_set.
      rewrite <- elem_of_cons, E, elem_of_app, list_elem_of_singleton. naive_solver.
    + intros _. lia.
    + done.
    + rewrite <- El. by rewrite take_app_length.
    + intros k [= <-]. split_and!; [done| |done|].
      * intros ->. destruct l1 as [|k1 l1]; [cbn in El; lia|]. injection E as <- _. apply Hkv. by left.
      * intros k' Hk'. assert (Hx : k' ∈ (l1 ++ [kv])%list) by (rewrite <- E; by right).
        apply elem_of_app in Hx as [?|?%list_elem_of_singleton]; auto.
  - cbn [fst snd maxEntries lruList]. split_and!; [split; cbn [lruList cache maxEntries]| | |]; try done.
    + by rewrite Hc.
    + by rewrite take_ge.
Qed.

(** The keys in the order of their last use. *)
Fixpoint recent (ks : list string) : list string :=
  match ks with
  | [] => []
  | k :: earlier => MoveToFront k (recent earlier)
  end.

Lemma recent_nodup ks : NoDup (recent ks).
Proof.
  induction ks as [|k ks IH]; [constructor|]. cbn [recent]. destruct (decide (k ∈ recent ks)) as [Hk|Hk].
  - by rewrite without_perm.
  - unfold MoveToFront. rewrite without_id by done. by apply NoDup_cons.
Qed.

(** Uses, the last one first. *)
Fixpoint useAll (l : Lru) (ks : list string) : Lru :=
  match ks with
  | [] => l
  | k :: earlier => (LruAdd (useAll l earlier) k).2
  end.

(** The bounded list keeps the keys used last.  After any sequence of [Add]s (the
    last one first in [ks]) it holds exactly the first [maxEntries] keys in the order
    of their last use. *)
Theorem lru_keeps_most_recent (max : nat) (ks : list string) (Hmax : max <> 0) :
  lruList (useAll (NewLru max) ks) = take max (recent ks).
Proof.
  assert (Hinv : LruInv (useAll (NewLru max) ks) /\ maxEntries (useAll (NewLru max) ks) = max /\
                 lruList (useAll (NewLru max) ks) = take max (recent ks)); [|tauto].
  induction ks as [|k ks (Hi & Em & El)]; cbn [useAll recent].
  { rewrite take_nil. split_and!; [split; cbn|..]; try done; [constructor|lia]. }
  destruct (LruAdd_inv _ k Hi) as (Hi2 & Em2 & El2 & _). split_and!; [done|congruence|].
  rewrite El2, Em, El, without_take by apply recent_nodup. by rewrite (proj2 (Nat.eqb_neq max 0)).
Qed.

Lemma lru_keeps_most_recent_witness :
  lruList (useAll (NewLru 2) ["b"; "c"; "a"; "b"]) = take 2 (recent ["b"; "c"; "a"; "b"]).
Proof. apply lru_keeps_most_recent. lia. Defined.

(** ** The repository as a map *)

Section Facts.
  Context {F : Type} `{Feed F}.
  Implicit Types (r : TimeLineRepo F) (k key : string).

(** The timeline of a key. *)
Definition get r k : option (TimeLines F) :=
  match getSlot r k with Ok s => buks r !! s ≫= fun m => m !! k | _ => None end.

Definition keys r : gset string := ⋃ (dom <$> buks r).

Record RepoInv r : Prop := {
  repo_slots : 0 < bukSize r /\ length (buks r) = bukSize r;
  repo_size : 0 < tlSize r;
  repo_placed : forall s m k, buks r !! s = Some m -> is_Some (m !! k) -> getSlot r k = Ok s;
  repo_lines : forall k tl, get r k = Some tl -> limit tl = tlLimit r /\ exists l, Inv tl l;
  repo_lru : forall l, lru r = Some l -> LruInv l /\ maxEntries l <> 0 /\ forall k, is_Some (get r k) -> k ∈ lruList l;
}.

Lemma getSlot_ok r k : 0 < bukSize r -> exists s, getSlot r k = Ok s /\ s < bukSize r.
Proof using.
  intros Hb. unfold getSlot. rewrite (proj2 (Nat.eqb_neq _ 0)) by lia. eexists. split; [done|].
  pose proof (Z.mod_pos_bound (CalcStringHashCode k) (Z.of_nat (bukSize r)) ltac:(lia)). lia.
Qed.

Lemma get_bucket r s m k : buks r !! s = Some m -> getSlot r k = Ok s -> get r k = m !! k.
Proof using. intros Hm Hs. unfold get. by rewrite Hs, Hm. Qed.

Lemma get_set_bucket r s m m' k0 k : buks r !! s = Some m -> (forall k', k' <> k0 -> m' !! k' = m !! k') -> getSlot r k0 = Ok s ->
  get (set_bucket r s m') k = if decide (k = k0) then m' !! k0 else get r k.
Proof using.
  intros Hm Hother Hs. unfold get at 1. change (getSlot (set_bucket r s m') k) with (getSlot r k). cbn [set_bucket buks].
  pose proof (lookup_lt_Some _ _ _ Hm) as Hlt. case_decide as Hk.
  - subst k. by rewrite Hs, list_lookup_insert_eq.
  - unfold get. destruct (getSlot r k) as [s'| | |]; [|done..]. destruct (decide (s' = s)) as [->|Hne].
    + rewrite list_lookup_insert_eq, Hm by done. by apply Hother.
    + by rewrite list_lookup_insert_ne.
Qed.

Lemma keys_get r k : RepoInv r -> k ∈ keys r <-> is_Some (get r k).
Proof using.
  intros Hr. unfold keys. rewrite elem_of_union_list. split.
  - intros (d & (m & -> & (s & Hm)%list_elem_of_lookup_1)%list_elem_of_fmap & Hk%elem_of_dom).
    rewrite (get_bucket r s m k); [done..|]. by eapply repo_placed.
  - destruct (getSlot_ok r k) as (s & Hs & Hlt); [apply Hr|]. destruct (repo_slots r Hr) as [_ Hlen].
    destruct (lookup_lt_is_Some_2 (buks r) s) as [m Hm]; [lia|]. rewrite (get_bucket r s m k) by done. intros Hk.
    exists (dom m). split; [apply list_elem_of_fmap; exists m; split; [done|by eapply list_elem_of_lookup_2]|by apply elem_of_dom].
Qed.

(** One key of one bucket changes. *)
Lemma set_bucket_inv r s m m' k0 : RepoInv r -> buks r !! s = Some m -> getSlot r k0 = Ok s ->
  (forall k', k' <> k0 -> m' !! k' = m !! k') ->
  (forall tl, m' !! k0 = Some tl -> (limit tl = tlLimit r /\ exists l, Inv tl l) /\ forall l, lru r = Some l -> k0 ∈ lruList l) ->
  RepoInv (set_bucket r s m').
Proof using.
  intros Hr Hm Hs Hother Hnew. pose proof (fun k => get_set_bucket r s m m' k0 k Hm Hother Hs) as Hget. destruct Hr as [[Hb Hlen] Hsz Hpl Hln Hlru].
  split; cbn [set_bucket bukSize buks tlSize tlLimit lru].
  - split; [done|]. by rewrite length_insert.
  - done.
  - intros s' m1 k Hm1 Hk. change (getSlot r k = Ok s'). destruct (decide (s' = s)) as [->|Hne].
    + rewrite list_lookup_insert_eq in Hm1 by by eapply lookup_lt_Some. injection Hm1 as <-.
      destruct (decide (k = k0)) as [->|Hk0]; [done|]. rewrite Hother in Hk by done. by eapply Hpl.
    + rewrite list_lookup_insert_ne in Hm1 by done. by eapply Hpl.
  - intros k tl. rewrite Hget. case_decide as Hk; [intros Htl; by apply Hnew|apply Hln].
  - intros l Hl. destruct (Hlru l Hl) as (Hi & Hmax & Hin). split_and!; try done. intros k. rewrite Hget.
    case_decide as Hk; [|apply Hin]. subst k. intros [tl Htl]. by apply (Hnew tl Htl).
Qed.

Lemma remove_inv r k : RepoInv r -> exists r', remove r k = Ok r' /\ RepoInv r' /\ lru r' = lru r /\ tlSize r' = tlSize r /\
  tlLimit r' = tlLimit r /\ bukSize r' = bukSize r /\ forall k', get r' k' = if decide (k' = k) then None else get r k'.
Proof using.
  intros Hr. destruct (getSlot_ok r k) as (s & Hs & Hlt); [apply Hr|]. destruct (repo_slots r Hr) as [_ Hlen].
  destruct (lookup_lt_is_Some_2 (buks r) s) as [m Hm]; [lia|]. unfold remove. rewrite Hs. cbn [mbind res_bind]. unfold bucket. rewrite Hm.
  cbn [mbind res_bind]. eexists. split; [done|]. split_and!; try done.
  - apply (set_bucket_inv r s m (delete k m) k); try done; [intros; by apply lookup_delete_ne|]. intros tl. by rewrite lookup_delete_eq.
  - intros k'. rewrite (get_set_bucket r s m (delete k m) k); [|done|intros; by apply lookup_delete_ne|done]. by rewrite lookup_delete_eq.
Qed.

(** The key that [Add] of the list gives up. *)
Definition evictedKey r key : option string := match lru r with Some l => (LruAdd l key).1 | None => None end.

Lemma touch_inv r key : RepoInv r -> exists r', touch r key = Ok r' /\ RepoInv r' /\ tlSize r' = tlSize r /\
  tlLimit r' = tlLimit r /\ bukSize r' = bukSize r /\ (forall l, lru r' = Some l -> key ∈ lruList l) /\
  (forall k, get r' k = if decide (evictedKey r key = Some k) then None else get r k) /\ evictedKey r key <> Some key.
Proof using.
  intros Hr. unfold touch, evictedKey. destruct (lru r) as [l|] eqn:El; [|exists r; split_and!; try done; congruence].
  destruct (repo_lru r Hr l El) as (Hi & Hmax & Hin). destruct (LruAdd_inv l key Hi) as (Hi2 & Em & Ekeys & Hev).
  destruct (LruAdd l key) as [ev l1] eqn:Ea. cbn [fst snd] in *.
  assert (Hfront : key ∈ lruList l1).
  { rewrite Ekeys. case_decide; [left|]. rewrite (proj2 (Nat.eqb_neq _ 0)) by done. destruct (maxEntries l); [done|]. left. }
  destruct ev as [k|].
  - destruct (Hev k eq_refl) as (Hknew & Hne & Hgone & Hkeep).
    destruct (remove_inv r k Hr) as (r1 & E1 & Hr1 & L1 & S1 & T1 & B1 & G1).
    assert (Erem : remove (set_lru r (Some l1)) k = Ok (set_lru r1 (Some l1))).
    { revert E1. unfold remove, getSlot, bucket. cbn [set_lru bukSize buks]. destruct (bukSize r =? 0); [done|].
      cbn [mbind res_bind]. destruct (buks r !! _); [|done]. cbn [mbind res_bind]. by intros [= <-]. }
    rewrite Erem. eexists. split; [done|]. split_and!; try done.
    + destruct Hr1 as [? ? ? ? Hl1]. split; try done. intros l2 [= <-]. split_and!; [done|congruence|].
      intros k' Hk'. change (is_Some (get r1 k')) in Hk'. rewrite G1 in Hk'. case_decide as Hx; [by destruct Hk'|].
      destruct (Hkeep k' (Hin k' Hk')); done.
    + intros l2 [= <-]. done.
    + intros k'. change (get (set_lru r1 (Some l1)) k') with (get r1 k'). rewrite G1.
      destruct (decide (k' = k)) as [->|Hx]; [by rewrite decide_True|by rewrite decide_False by congruence].
    + congruence.
  - eexists. split; [done|]. split_and!; try done.
    + destruct Hr as [? ? ? ? Hl1]. split; try done. intros l2 [= <-]. split_and!; [done|congruence|].
      intros k' Hk'%Hin. rewrite Ekeys. unfold LruAdd in Ea. case_decide; [rewrite without_perm; [done|apply Hi|done]|].
      rewrite decide_False in Ea by (by rewrite (lru_cache l Hi), elem_of_list_to_set).
      rewrite (proj2 (Nat.eqb_neq _ 0)) in * by done. cbn [negb andb] in Ea.
      destruct (Nat.ltb_spec (maxEntries l) (length (key :: lruList l))); [|rewrite take_ge by lia; by right].
      destruct (exists_last (l := key :: lruList l)) as (l2 & kv & E); [done|]. by rewrite E, last_snoc in Ea.
    + intros l2 [= <-]. done.
Qed.

Lemma add_map r key (f : F) : RepoInv r -> (0 < GetOffset f)%Z ->
  exists r' tl removed, add r key f = Ok (r', removed) /\ RepoInv r' /\ tlSize r' = tlSize r /\ tlLimit r' = tlLimit r /\
    Add (default (NewEvTimeLines (tlSize r) (tlLimit r)) (get r key)) (Some f) = Ok (tl, removed) /\
    get r' key = Some tl /\ (forall k, evictedKey r key = Some k -> get r' k = None) /\
    (forall k, k <> key -> evictedKey r key <> Some k -> get r' k = get r k) /\
    (forall l, lru r' = Some l -> base.size (keys r') <= maxEntries l).
Proof.
  intros Hr Hf. destruct (touch_inv r key Hr) as (r1 & E1 & Hr1 & S1 & T1 & B1 & Hin & G1 & Hev).
  unfold add. rewrite E1. cbn [mbind res_bind]. destruct (getSlot_ok r1 key) as (s & Hs & Hlt); [apply Hr1|].
  destruct (repo_slots r1 Hr1) as [_ Hlen]. destruct (lookup_lt_is_Some_2 (buks r1) s) as [m Hm]; [lia|].
  rewrite Hs. cbn [mbind res_bind]. unfold bucket. rewrite Hm. cbn [mbind res_bind].
  assert (Em : m !! key = get r key). { rewrite <- (get_bucket r1 s m key Hm Hs), G1. by rewrite decide_False. }
  rewrite Em, S1, T1. set (tl := default _ (get r key)).
  assert (Htl : limit tl = tlLimit r /\ exists l, Inv tl l).
  { unfold tl. destruct (get r key) eqn:E; cbn [default]; [by eapply repo_lines|]. split; [done|]. exists []. apply New_Inv, Hr. }
  destruct Htl as [Hlim (l & Hl)]. destruct (Add_Inv tl l f Hl Hf) as (tl' & l' & -> & Hl' & _ & Hlim' & _).
  cbn [mbind res_bind]. eexists _, tl', _. split; [done|].
  assert (Hr2 : RepoInv (set_bucket r1 s (<[key := tl']> m))).
  { apply (set_bucket_inv r1 s m _ key); try done; [intros; by apply lookup_insert_ne|].
    intros tl2. rewrite lookup_insert_eq. intros [= <-]. split; [|done]. split; [congruence|by exists l']. }
  assert (Hget : forall k, get (set_bucket r1 s (<[key := tl']> m)) k = if decide (k = key) then Some tl' else get r1 k).
  { intros k. rewrite (get_set_bucket r1 s m _ key); [|done|intros; by apply lookup_insert_ne|done]. by rewrite lookup_insert_eq. }
  split_and!; try done.
  - by rewrite Hget, decide_True.
  - intros k Hk. rewrite Hget, decide_False by congruence. by rewrite G1, decide_True.
  - intros k Hk Hne. rewrite Hget, decide_False by done. by rewrite G1, decide_False.
  - intros l2 Hl2. destruct (repo_lru _ Hr2 l2 Hl2) as (Hi & Hmax & Hkeys). etrans; [|by apply Hi].
    rewrite <- (size_list_to_set (C := gset string)) by apply Hi. apply subseteq_size. intros k Hk%keys_get; [|done].
    apply elem_of_list_to_set. auto.
Qed.

Lemma getTimeLine_map r key : RepoInv r -> exists r', getTimeLine r key = Ok (get r key, r') /\ RepoInv r' /\
  tlSize r' = tlSize r /\ tlLimit r' = tlLimit r /\ forall k, get r' k = get r k.
Proof using.
  intros Hr. unfold getTimeLine. set (r' := set_lru r _). destruct (getSlot_ok r key) as (s & Hs & Hlt); [apply Hr|].
  destruct (repo_slots r Hr) as [_ Hlen]. destruct (lookup_lt_is_Some_2 (buks r) s) as [m Hm]; [lia|].
  change (getSlot r' key) with (getSlot r key). rewrite Hs. cbn [mbind res_bind]. unfold bucket. cbn [r' set_lru buks]. rewrite Hm.
  cbn [mbind res_bind]. exists r'. split_and!; try done; [by rewrite (get_bucket r s m key)|].
  destruct Hr as [? ? ? ? Hl]. split; try done. intros l. cbn [r' set_lru lru]. destruct (lru r) as [l0|] eqn:El; [|done]. intros [= <-].
  destruct (Hl l0 eq_refl) as (Hi & Hmax & Hin). unfold LruGet. case_decide as Hk; [|done].
  rewrite (lru_cache l0 Hi), elem_of_list_to_set in Hk. destruct (LruAdd_inv l0 key Hi) as (Hi2 & Em & Ek & _).
  rewrite decide_True in Ek by done. unfold LruAdd in *. rewrite decide_True in * by (by rewrite (lru_cache l0 Hi), elem_of_list_to_set).
  cbn [fst snd] in *. split_and!; [done|done|]. intros k Hk2. change (k ∈ MoveToFront key (lruList l0)).
  rewrite without_perm; [by apply Hin|apply Hi|done].
Qed.

Lemma setDefault_map r key : RepoInv r ->
  exists r', setDefault r key = Ok r' /\ RepoInv r' /\
    get r' key = Some (default (NewEvTimeLines (tlSize r) (tlLimit r)) (get r key)) /\
    (forall k, evictedKey r key = Some k -> get r' k = None) /\
    (forall k, k <> key -> evictedKey r key <> Some k -> get r' k = get r k).
Proof using.
  intros Hr. destruct (touch_inv r key Hr) as (r1 & E1 & Hr1 & S1 & T1 & B1 & Hin & G1 & Hev).
  unfold setDefault. rewrite E1. cbn [mbind res_bind]. destruct (getSlot_ok r1 key) as (s & Hs & Hlt); [apply Hr1|].
  destruct (repo_slots r1 Hr1) as [_ Hlen]. destruct (lookup_lt_is_Some_2 (buks r1) s) as [m Hm]; [lia|].
  rewrite Hs. cbn [mbind res_bind]. unfold bucket. rewrite Hm. cbn [mbind res_bind].
  assert (Em : m !! key = get r key). { rewrite <- (get_bucket r1 s m key Hm Hs), G1. by rewrite decide_False. }
  assert (Hothers : forall k, k <> key -> get r1 k = if decide (evictedKey r key = Some k) then None else get r k) by (intros; apply G1).
  destruct (m !! key) as [tl|] eqn:Ek.
  - exists r1. rewrite <- Em. split_and!; [done|done|by rewrite (get_bucket r1 s m key Hm Hs)| |].
    + intros k Hk. rewrite G1. by rewrite decide_True.
    + intros k Hk Hne. rewrite G1. by rewrite decide_False.
  - assert (Hget : forall k, get (set_bucket r1 s (<[key := NewEvTimeLines (tlSize r1) (tlLimit r1)]> m)) k =
        if decide (k = key) then Some (NewEvTimeLines (tlSize r1) (tlLimit r1)) else get r1 k).
    { intros k. rewrite (get_set_bucket r1 s m _ key); [|done|intros; by apply lookup_insert_ne|done]. by rewrite lookup_insert_eq. }
    eexists. split; [done|]. split_and!.
    + apply (set_bucket_inv r1 s m _ key); try done; [intros; by apply lookup_insert_ne|].
      intros tl2. rewrite lookup_insert_eq. intros [= <-]. split; [|done]. split; [done|]. exists []. apply New_Inv, Hr1.
    + rewrite Hget, decide_True, <- Em by done. cbn. by rewrite S1, T1.
    + intros k Hk. rewrite Hget, decide_False by congruence. by rewrite G1, decide_True.
    + intros k Hk Hne. rewrite Hget, decide_False by done. by rewrite G1, decide_False.
Qed.

Lemma exits_map r key : RepoInv r -> exits r key = Ok (bool_decide (is_Some (get r key))).
Proof using.
  intros Hr. unfold exits. destruct (getSlot_ok r key) as (s & Hs & Hlt); [apply Hr|]. destruct (repo_slots r Hr) as [_ Hlen].
  destruct (lookup_lt_is_Some_2 (buks r) s) as [m Hm]; [lia|]. rewrite Hs. cbn [mbind res_bind]. unfold bucket. rewrite Hm.
  cbn [mbind res_bind]. rewrite (get_bucket r s m key) by done. destruct (m !! key) as [tl|]; [|done].
  by rewrite bool_decide_true by by eexists.
Qed.

(** C27: The repository is a bounded map of timelines.  No operation panics.  Adding a
    feed to a key puts it into the timeline of that key (a new one when there is
    none), removes the timeline of the key the list of uses gives up and leaves all
    other timelines alone, and with a limit there are never more timelines than it
    permits; so does giving a key an empty timeline, which keeps one that is there;
    looking up a key answers its timeline, asking for it whether there is one, and
    neither changes a timeline; removing a key removes its timeline only. *)
Theorem repo_refines_map r : RepoInv r ->
  (forall key (f : F), (0 < GetOffset f)%Z ->
    exists r' tl removed, add r key f = Ok (r', removed) /\ RepoInv r' /\
      Add (default (NewEvTimeLines (tlSize r) (tlLimit r)) (get r key)) (Some f) = Ok (tl, removed) /\
      get r' key = Some tl /\ (forall k, evictedKey r key = Some k -> get r' k = None) /\
      (forall k, k <> key -> evictedKey r key <> Some k -> get r' k = get r k) /\
      (forall l, lru r' = Some l -> base.size (keys r') <= maxEntries l)) /\
  (forall key, exists r', setDefault r key = Ok r' /\ RepoInv r' /\
      get r' key = Some (default (NewEvTimeLines (tlSize r) (tlLimit r)) (get r key)) /\
      (forall k, evictedKey r key = Some k -> get r' k = None) /\
      (forall k, k <> key -> evictedKey r key <> Some k -> get r' k = get r k)) /\
  (forall key, exists r', getTimeLine r key = Ok (get r key, r') /\ RepoInv r' /\ forall k, get r' k = get r k) /\
  (forall key, exits r key = Ok (bool_decide (is_Some (get r key)))) /\
  (forall key, exists r', remove r key = Ok r' /\ RepoInv r' /\ forall k, get r' k = if decide (k = key) then None else get r k).
Proof.
  intros Hr. split_and!; intros key.
  - intros f Hf. destruct (add_map r key f Hr Hf) as (r' & tl & removed & ? & ? & _ & _ & ?). by exists r', tl, removed.
  - by apply setDefault_map.
  - destruct (getTimeLine_map r key Hr) as (r' & E & Hr' & _ & _ & Hg). by exists r'.
  - by apply exits_map.
  - destruct (remove_inv r key Hr) as (r' & E & Hr' & _ & _ & _ & _ & Hg). by exists r'.
Qed.

End Facts.

Lemma NewTimeLineRepo_inv {F} `{Feed F} n sz lim max : 0 < n -> 0 < sz -> RepoInv (@NewTimeLineRepo F n sz lim max).
Proof.
  intros Hn Hs. assert (He : forall k, get (@NewTimeLineRepo F n sz lim max) k = None).
  { intros k. unfold get. destruct (getSlot _ k) as [s| | |]; [|done..]. cbn [NewTimeLineRepo buks].
    destruct (replicate n ∅ !! s) as [m|] eqn:E; [|done]. apply lookup_replicate in E as [-> _]. cbn. apply lookup_empty. }
  split; cbn [NewTimeLineRepo bukSize buks tlSize lru].
  - by rewrite length_replicate.
  - done.
  - intros s m k [-> _]%lookup_replicate [tl Htl]. by rewrite lookup_empty in Htl.
  - intros k tl. by rewrite He.
  - intros l. destruct (Nat.ltb_spec 0 max); [|done]. intros [= <-]. split_and!; [split; cbn; [constructor|done|lia]|cbn; lia|].
    intros k. rewrite He. by intros [? ?].
Qed.

#[local] Instance number_feed : Feed Z := fun z => z.

(** A repository of four buckets that may hold two timelines, with one feed. *)
Definition oneFeed : TimeLineRepo Z :=
  match add (NewTimeLineRepo 4 8 true 2) "a" 7%Z with Ok (r, _) => r | _ => NewTimeLineRepo 4 8 true 2 end.

Lemma oneFeed_inv : RepoInv oneFeed.
Proof.
  unfold oneFeed. destruct (add_map (@NewTimeLineRepo Z 4 8 true 2) "a" 7%Z) as (r' & tl & removed & -> & Hr & _);
    [apply NewTimeLineRepo_inv; lia|done|done].
Qed.

Lemma repo_refines_map_witness :
  exists r', getTimeLine oneFeed "a" = Ok (get oneFeed "a", r') /\ RepoInv r' /\ forall k, get r' k = get oneFeed k.
Proof. destruct (repo_refines_map oneFeed oneFeed_inv) as (_ & _ & Hget & _). apply Hget. Defined.

End TimelineRepo.
