(* ===== verification/RepoLines.v ===== *)
(** * Timelines in a repository: items changed in place, and room for all keys

    The repositories share pointers to their timelines and items.  [putTimeLine] is the
    effect of changing the timeline of a key through its pointer.  [Roomy]: the keys in
    use fit into the bound of the repository, so that no timeline is dropped. *)

From Stdlib Require Import String ZArith List Lia Sorted.
From stdpp Require Import base tactics list gmap strings.
From S2P Require Import Prelude Timeline TimelineRepo.

#[local] Open Scope nat_scope.

Module RepoLines.
Import Timeline TimelineRepo.

(** ** Sorted lists *)

Lemma sorted_app {A} (R : A -> A -> Prop) l1 l2 : StronglySorted R (l1 ++ l2) <->
  StronglySorted R l1 /\ StronglySorted R l2 /\ forall a b, a ∈ l1 -> b ∈ l2 -> R a b.
Proof.
  induction l1 as [|x l1 IH]; cbn.
  { split; [intros Hs; split_and!; [constructor|done|by intros ? ? ?%elem_of_nil]|tauto]. }
  split.
  - intros [(H1 & H2 & H3)%IH Hx]%StronglySorted_inv. apply Forall_app in Hx as [Hx1 Hx2]. rewrite Forall_forall in Hx2.
    split_and!; [by constructor|done|]. intros a b [->|Ha]%elem_of_cons Hb; auto.
  - intros ([H1 Hx]%StronglySorted_inv & H2 & H3). constructor.
    + apply IH. split_and!; [done..|]. intros. apply H3; [by right|done].
    + apply Forall_app. split; [done|]. apply Forall_forall. intros. apply H3; [by left|done].
Qed.

Lemma sorted_reverse {A} (R : A -> A -> Prop) l : StronglySorted R l -> StronglySorted (fun a b => R b a) (reverse l).
Proof.
  induction 1 as [|a l _ IH Ha]; [constructor|]. rewrite reverse_cons. apply sorted_app. split_and!; [done|by repeat constructor|].
  intros x y Hx ->%list_elem_of_singleton. rewrite elem_of_reverse in Hx. rewrite Forall_forall in Ha. by apply Ha.
Qed.

Lemma sorted_take {A} (R : A -> A -> Prop) n l : StronglySorted R l -> StronglySorted R (take n l).
Proof. intros Hs. rewrite <- (take_drop n l) in Hs. by apply sorted_app in Hs as [? _]. Qed.

Lemma sorted_omap {A B} (R : A -> A -> Prop) (Q : B -> B -> Prop) (f : A -> option B) l :
  (forall a b x y, R a b -> f a = Some x -> f b = Some y -> Q x y) -> StronglySorted R l -> StronglySorted Q (omap f l).
Proof.
  intros Hf. induction 1 as [|a l _ IH Ha]; [constructor|]. cbn. destruct (f a) as [x|] eqn:Ex; [|done]. constructor; [done|].
  rewrite Forall_forall in Ha. apply Forall_forall. intros y (b & Hb & Ey)%list_elem_of_omap. eauto.
Qed.

(** Sorted lists with the same elements are equal. *)
Lemma sorted_unique {A} (R : A -> A -> Prop) l1 l2 : (forall a, ~ R a a) -> (forall a b, R a b -> R b a -> False) -> StronglySorted R l1 -> StronglySorted R l2 ->
  (forall a, a ∈ l1 <-> a ∈ l2) -> l1 = l2.
Proof.
  intros Hirr Hasym Hs1. revert l2. induction Hs1 as [|a l1 Hs1 IH Ha]; intros l2 Hs2 Hin.
  { destruct l2 as [|b l2]; [done|]. assert (Hx : b ∈ []) by (apply Hin; left). by apply elem_of_nil in Hx. }
  destruct Hs2 as [|b l2 Hs2 Hb]; [assert (Hx : a ∈ []) by (apply Hin; left); by apply elem_of_nil in Hx|]. rewrite Forall_forall in Ha, Hb.
  assert (E : a = b).
  { assert (H1 : a ∈ b :: l2) by (apply Hin; left). assert (H2 : b ∈ a :: l1) by (apply Hin; left).
    apply elem_of_cons in H1 as [?|H1]; [done|]. apply elem_of_cons in H2 as [?|H2]; [done|]. destruct (Hasym a b); auto. }
  subst b. f_equal. apply IH; [done|]. intros x. split; intros Hx.
  - assert (H1 : x ∈ a :: l2) by (apply Hin; by right). apply elem_of_cons in H1 as [->|H1]; [|done]. destruct (Hirr a). by apply Ha.
  - assert (H1 : x ∈ a :: l1) by (apply Hin; by right). apply elem_of_cons in H1 as [->|H1]; [|done]. destruct (Hirr a). by apply Hb.
Qed.

(** ** The items of a timeline *)

Section Lines.
  Context {F : Type} `{Feed F}.
  Implicit Types (tl : TimeLines F) (l : list F).

Definition items tl : list F :=
  match GetAllFeeds tl with Ok (fs, _, _, _, _) => omap id fs | _ => [] end.

Lemma items_inv tl l : Inv tl l -> items tl = l.
Proof.
  intros Hi. unfold items. rewrite (GetAllFeeds_rep tl l (inv_rep _ _ Hi)). clear. induction l as [|x l IH]; [done|].
  cbn in *. by rewrite IH.
Qed.

Lemma items_new n b : 0 < n -> items (NewEvTimeLines n b) = [].
Proof. intros Hn. by apply items_inv, New_Inv. Qed.

Definition ascending l : Prop := StronglySorted (fun a b => (GetOffset a < GetOffset b)%Z) l.

Lemma ascending_app l1 l2 : ascending (l1 ++ l2) <->
  ascending l1 /\ ascending l2 /\ forall a b, a ∈ l1 -> b ∈ l2 -> (GetOffset a < GetOffset b)%Z.
Proof. apply sorted_app. Qed.

Lemma Forall_offsets (P : Z -> Prop) l l' : map GetOffset l' = map GetOffset l -> Forall (fun x => P (GetOffset x)) l -> Forall (fun x => P (GetOffset x)) l'.
Proof. intros E HF. apply Forall_map. rewrite E. by apply Forall_map. Qed.

Lemma ascending_offsets l l' : map GetOffset l' = map GetOffset l -> ascending l -> ascending l'.
Proof.
  revert l'. induction l as [|x l IH]; intros [|x' l'] E Hs; try done. cbn in E. injection E as Ex E.
  apply StronglySorted_inv in Hs as [Hs Hx]. constructor; [by apply IH|].
  rewrite Ex. by apply (Forall_offsets (fun o => (GetOffset x < o)%Z) l).
Qed.

Lemma ascending_inj l a b : ascending l -> a ∈ l -> b ∈ l -> GetOffset a = GetOffset b -> a = b.
Proof.
  induction l as [|x l IH]; intros Hs Ha Hb E; [by apply elem_of_nil in Ha|]. apply StronglySorted_inv in Hs as [Hs Hx].
  rewrite Forall_forall in Hx. apply elem_of_cons in Ha as [->|Ha], Hb as [->|Hb]; [done| | |by apply IH].
  - specialize (Hx _ Hb). lia.
  - specialize (Hx _ Ha). lia.
Qed.

(** What [Inv] says about offsets only. *)
Lemma Inv_same_offsets (tl tl' : TimeLines F) l l' : Inv tl l -> sameFrame tl' tl -> Rep tl' l' -> map GetOffset l' = map GetOffset l -> Inv tl' l'.
Proof.
  intros [_ Hb Ho] (Es & Eo & El & Elo & Eup & Eofo) Hrep Hm.
  assert (Hin : forall l1 l2 : list F, map GetOffset l1 = map GetOffset l2 -> forall x, x ∈ l1 -> exists y, y ∈ l2 /\ GetOffset y = GetOffset x).
  { intros l1 l2 E x Hx. apply (list_elem_of_fmap_2 GetOffset) in Hx. change (GetOffset <$> l1) with (map GetOffset l1) in Hx. rewrite E in Hx.
    apply list_elem_of_fmap in Hx as (y & ? & ?). eauto. }
  split; [done| |].
  - destruct l as [|a l], l' as [|b l']; try done; [unfold Bounds in *; by rewrite Elo, Eup|].
    destruct Hb as ((x & Hx & Ex) & (y & Hy & Ey) & Hall). unfold Bounds. rewrite Elo, Eup. split_and!.
    + destruct (Hin _ _ (eq_sym Hm) x Hx) as (x' & ? & E). exists x'. split; [done|]. congruence.
    + destruct (Hin _ _ (eq_sym Hm) y Hy) as (y' & ? & E). exists y'. split; [done|]. congruence.
    + rewrite Forall_forall in Hall |- *. intros z Hz. destruct (Hin _ _ Hm z Hz) as (z' & Hz' & E). apply Hall in Hz'. by rewrite E in Hz'.
  - intros Hl Hofo. assert (Hs : StronglySorted (fun a b => (GetOffset a <= GetOffset b)%Z) l) by (apply Ho; congruence). clear -Hs Hm.
    revert l' Hm. induction Hs as [|x l Hs IH Hx]; intros [|x' l'] E; try done; [constructor|]. cbn in E. injection E as Ex E.
    constructor; [by apply IH|].
    rewrite Ex. by apply (Forall_offsets (fun o => (GetOffset x <= o)%Z) l).
Qed.

(** An item is replaced by one with its offset. *)
Lemma putFeed_inv tl l k x y : Inv tl l -> l !! k = Some x -> GetOffset y = GetOffset x ->
  exists tl', putFeed tl (offset tl - size tl + k) (Some y) = Ok tl' /\ Inv tl' (<[k := y]> l) /\ sameFrame tl' tl.
Proof.
  intros Hi Hk E. destruct (putFeed_rep tl l k y (inv_rep _ _ Hi)) as (d & Ep & Hr); [by eapply lookup_lt_Some|].
  eexists. split; [exact Ep|]. split; [|done]. apply (Inv_same_offsets tl _ l); [done|done|done|].
  apply list_eq. intros i. change (map GetOffset) with (fmap (M := list) (@GetOffset F _)). rewrite !list_lookup_fmap.
  destruct (decide (i = k)) as [->|Hne]; [|by rewrite list_lookup_insert_ne].
  rewrite list_lookup_insert_eq, Hk by (by eapply lookup_lt_Some). cbn. by rewrite E.
Qed.

(** Adding a newer item to an ascending timeline. *)
Lemma Add_ascending tl l x : Inv tl l -> limit tl = true -> ofo tl = false -> ascending (l ++ [x]) -> (0 < GetOffset x)%Z ->
  exists tl', Add tl (Some x) = Ok (tl', evicted tl l) /\ Inv tl' (window tl l x) /\ limit tl' = true /\ ofo tl' = false /\ size tl' = size tl /\
    ascending (window tl l x).
Proof.
  intros Hi Hlim Hofo Has Hx. apply ascending_app in Has as (Hl & _ & Hlast).
  destruct (Add_Inv tl l x Hi Hx) as (tl' & l' & E & Hi' & _ & Hlim' & Hsz & Hw & Hk).
  assert (Ho : ofo tl' = false).
  { apply Hk; [done|]. intros p Hp%last_Some_elem_of. assert (GetOffset p < GetOffset x)%Z by (apply Hlast; [done|by left]). lia. }
  rewrite Hw in Hi' by auto. exists tl'. split_and!; try done; [congruence|auto|].
  unfold window. apply ascending_app. split_and!.
  - destruct (_ && _); [|done]. destruct l; [done|]. rewrite skipn_cons, drop_0. by apply StronglySorted_inv in Hl as [? _].
  - by repeat constructor.
  - intros a b Ha Hb. apply Hlast; [|done]. destruct (_ && _); [|done]. destruct l as [|y l]; [done|]. rewrite skipn_cons, drop_0 in Ha. by right.
Qed.

End Lines.

(** ** Repositories *)

Section Repos.
  Context {F : Type} `{Feed F}.
  Implicit Types (r : TimeLineRepo F) (k key : string).

Definition putTimeLine r key (tl : TimeLines F) : res (TimeLineRepo F) :=
  slot ← getSlot r key;
  m ← bucket r slot;
  Ok (set_bucket r slot (<[key := tl]> m)).

Context (K : gset string).

Record Roomy r : Prop := {
  ro_inv : RepoInv r;
  ro_room : forall l, lru r = Some l -> (forall k, k ∈ lruList l -> k ∈ K) /\ base.size K <= maxEntries l;
}.

(** The same timelines, for another state of the list of uses. *)
Definition sameLines r r' : Prop := tlSize r' = tlSize r /\ tlLimit r' = tlLimit r /\ forall k, get r' k = get r k.

Lemma roomy_add l key : LruInv l -> (forall k, k ∈ lruList l -> k ∈ K) -> base.size K <= maxEntries l -> key ∈ K ->
  (LruAdd l key).1 = None /\ forall k, k ∈ lruList (LruAdd l key).2 -> k ∈ K.
Proof.
  intros [Hn Hc Hb] Hin Hsz Hkey. unfold LruAdd. case_decide as Hk.
  - split; [done|]. cbn. unfold MoveToFront. intros k [->|Hx]%elem_of_cons; [done|]. apply Hin. apply list_elem_of_In in Hx.
    apply filter_In in Hx as [Hx _]. by apply list_elem_of_In.
  - assert (Hlen : length (key :: lruList l) <= maxEntries l).
    { rewrite Hc, elem_of_list_to_set in Hk. rewrite <- (size_list_to_set (C := gset string) (key :: lruList l)) by (by apply NoDup_cons).
      etrans; [|exact Hsz]. apply subseteq_size. intros k. rewrite elem_of_list_to_set. intros [->|?]%elem_of_cons; auto. }
    destruct (Nat.ltb_spec (maxEntries l) (length (key :: lruList l))); [lia|]. rewrite andb_false_r. split; [done|].
    cbn. intros k [->|?]%elem_of_cons; auto.
Qed.

Lemma touch_roomy r key : Roomy r -> key ∈ K -> exists r', touch r key = Ok r' /\ Roomy r' /\ sameLines r r'.
Proof.
  intros [Hi Hroom] Hkey. destruct (touch_inv r key Hi) as (r' & E & Hi' & Es & El & Eb & Hfr & Hget & _). exists r'. split; [done|].
  assert (Hev : evictedKey r key = None /\ forall l, lru r' = Some l -> (forall k, k ∈ lruList l -> k ∈ K) /\ base.size K <= maxEntries l).
  { unfold evictedKey. unfold touch in E. destruct (lru r) as [l|] eqn:El2; [|injection E as <-; split; [done|congruence]].
    destruct (repo_lru r Hi l El2) as (Hl & _ & _). destruct (Hroom l eq_refl) as [Hin Hsz].
    destruct (roomy_add l key Hl Hin Hsz Hkey) as [Hev Hin2]. destruct (LruAdd_inv l key Hl) as (_ & Em & _).
    destruct (LruAdd l key) as [ev l1]. cbn [fst snd] in *. subst ev. injection E as <-. split; [done|]. cbn. intros l2 [= <-]. by rewrite Em. }
  destruct Hev as [Hev Hl]. split; [by split|]. split_and!; try done. intros k. rewrite Hget, Hev. by rewrite decide_False.
Qed.

Lemma bucket_ok r key : RepoInv r -> exists s m, getSlot r key = Ok s /\ bucket r s = Ok m /\ buks r !! s = Some m /\ get r key = m !! key.
Proof.
  intros Hr. destruct (getSlot_ok r key) as (s & Hs & Hlt); [apply Hr|]. destruct (repo_slots r Hr) as [_ Hlen].
  destruct (lookup_lt_is_Some_2 (buks r) s) as [m Hm]; [lia|]. exists s, m. split_and!; [done| |done|by apply (get_bucket r s)].
  unfold bucket. by rewrite Hm.
Qed.

Lemma roomy_set r s m key tl l : Roomy r -> getSlot r key = Ok s -> buks r !! s = Some m -> Inv tl l -> limit tl = tlLimit r ->
  (forall l, lru r = Some l -> key ∈ lruList l) ->
  Roomy (set_bucket r s (<[key := tl]> m)) /\ (forall k, get (set_bucket r s (<[key := tl]> m)) k = if decide (k = key) then Some tl else get r k).
Proof.
  intros [Hi Hroom] Hs Hm Htl Hlim Hfr. split.
  - split; [|done]. apply (set_bucket_inv r s m _ key); try done; [intros; by apply lookup_insert_ne|].
    intros tl2. rewrite lookup_insert_eq. intros [= <-]. split; [|done]. split; [done|by exists l].
  - intros k. rewrite (get_set_bucket r s m _ key); [|done|intros; by apply lookup_insert_ne|done]. by rewrite lookup_insert_eq.
Qed.

Lemma putTimeLine_roomy r key tl0 tl l : Roomy r -> get r key = Some tl0 -> Inv tl l -> limit tl = limit tl0 ->
  exists r', putTimeLine r key tl = Ok r' /\ Roomy r' /\ tlSize r' = tlSize r /\ tlLimit r' = tlLimit r /\
    (forall k, get r' k = if decide (k = key) then Some tl else get r k).
Proof.
  intros Hr Hg Hi Hlim. destruct (bucket_ok r key (ro_inv r Hr)) as (s & m & Es & Eb & Hm & _). unfold putTimeLine. rewrite Es. cbn [mbind res_bind].
  rewrite Eb. cbn [mbind res_bind]. destruct (roomy_set r s m key tl l) as [Hr' Hget]; try done.
  - destruct (repo_lines r (ro_inv r Hr) key tl0 Hg) as [E _]. congruence.
  - intros l0 Hl0. destruct (repo_lru r (ro_inv r Hr) l0 Hl0) as (_ & _ & Hk). apply Hk. by exists tl0.
  - by eexists.
Qed.

Lemma add_roomy r key (x : F) : Roomy r -> key ∈ K -> (0 < GetOffset x)%Z ->
  exists r' tl removed, add r key x = Ok (r', removed) /\ Roomy r' /\ tlSize r' = tlSize r /\ tlLimit r' = tlLimit r /\
    Add (default (NewEvTimeLines (tlSize r) (tlLimit r)) (get r key)) (Some x) = Ok (tl, removed) /\
    (forall k, get r' k = if decide (k = key) then Some tl else get r k).
Proof.
  intros Hr Hkey Hx. destruct (touch_roomy r key Hr Hkey) as (r1 & E1 & Hr1 & Es & El & Hget). unfold add. rewrite E1. cbn [mbind res_bind].
  destruct (bucket_ok r1 key (ro_inv r1 Hr1)) as (s & m & Ek & Eb & Hm & Eg). rewrite Ek. cbn [mbind res_bind]. rewrite Eb. cbn [mbind res_bind].
  rewrite <- Eg, Hget, Es, El. set (tl := default _ (get r key)).
  assert (Htl : limit tl = tlLimit r /\ exists l, Inv tl l).
  { unfold tl. destruct (get r key) eqn:E; cbn [default]; [by eapply repo_lines; [apply Hr|]|]. split; [done|]. exists []. apply New_Inv, Hr. }
  destruct Htl as [Hlim (l & Hl)]. destruct (Add_Inv tl l x Hl Hx) as (tl' & l' & -> & Hl' & _ & Hlim' & _). cbn [mbind res_bind].
  destruct (touch_inv r key (ro_inv r Hr)) as (r1' & E1' & _ & _ & _ & _ & Hfr & _). rewrite E1 in E1'. injection E1' as <-.
  destruct (roomy_set r1 s m key tl' l') as [Hr' Hget']; try done; try congruence.
  eexists _, tl', _. split; [done|]. split_and!; try done. intros k. rewrite Hget'. by rewrite Hget.
Qed.

Lemma setDefault_roomy r key : Roomy r -> key ∈ K -> exists r', setDefault r key = Ok r' /\ Roomy r' /\ tlSize r' = tlSize r /\ tlLimit r' = tlLimit r /\
  (forall k, get r' k = if decide (k = key) then Some (default (NewEvTimeLines (tlSize r) (tlLimit r)) (get r key)) else get r k).
Proof.
  intros Hr Hkey. destruct (touch_roomy r key Hr Hkey) as (r1 & E1 & Hr1 & Es & El & Hget). unfold setDefault. rewrite E1. cbn [mbind res_bind].
  destruct (bucket_ok r1 key (ro_inv r1 Hr1)) as (s & m & Ek & Eb & Hm & Eg). rewrite Ek. cbn [mbind res_bind]. rewrite Eb. cbn [mbind res_bind].
  rewrite <- Eg, Hget, Es, El. destruct (get r key) as [tl|] eqn:E.
  - exists r1. split_and!; [done..|]. intros k. rewrite Hget. case_decide as Hk; [|done]. subst k. done.
  - destruct (touch_inv r key (ro_inv r Hr)) as (r1' & E1' & _ & _ & _ & _ & Hfr & _). rewrite E1 in E1'. injection E1' as <-.
    destruct (roomy_set r1 s m key (NewEvTimeLines (tlSize r) (tlLimit r)) []) as [Hr' Hget']; try done; [apply New_Inv, Hr|].
    eexists. split; [done|]. split_and!; try done. intros k. rewrite Hget'. by rewrite Hget.
Qed.

Lemma getTimeLine_roomy r key : Roomy r -> exists r', getTimeLine r key = Ok (get r key, r') /\ Roomy r' /\ sameLines r r'.
Proof.
  intros [Hi Hroom]. destruct (getTimeLine_map r key Hi) as (r' & E & Hi' & Es & El & Hget). exists r'. split_and!; [done| |done].
  split; [done|]. revert E. unfold getTimeLine. set (r1 := set_lru r _). destruct (getSlot r1 key); [|done..]. cbn [mbind res_bind].
  destruct (bucket r1 _); [|done..]. cbn [mbind res_bind]. intros [= _ <-] l. cbn [r1 set_lru lru]. destruct (lru r) as [l0|] eqn:El0; [|done].
  intros [= <-]. destruct (Hroom l0 eq_refl) as [Hin Hsz]. unfold LruGet. case_decide as Hk; [|done]. cbn. split; [|done].
  unfold MoveToFront. rewrite (lru_cache l0), elem_of_list_to_set in Hk by (by apply (repo_lru r Hi l0)).
  intros k [->|Hx]%elem_of_cons; [auto|]. apply Hin. apply list_elem_of_In in Hx. apply filter_In in Hx as [Hx _]. by apply list_elem_of_In.
Qed.

Lemma NewTimeLineRepo_roomy n sz lim max : 0 < n -> 0 < sz -> max = 0 \/ base.size K <= max -> Roomy (@NewTimeLineRepo F n sz lim max).
Proof.
  intros Hn Hs Hmax. split; [by apply NewTimeLineRepo_inv|]. cbn [NewTimeLineRepo lru]. intros l. destruct (Nat.ltb_spec 0 max) as [Hm|Hm]; [|done].
  intros [= <-]. cbn. split; [by intros k ?%elem_of_nil|]. destruct Hmax; lia.
Qed.

End Repos.

End RepoLines.
