(* ===== verification/Loader.v ===== *)
(** * Loading on first use

    The repositories of the sync server ([src/model/repos/]) load what the database
    has for a key when the key is used first.  The code is the same in each of them:
    [ready] holds the keys that were loaded, [loading] those a goroutine is loading;
    [LoadHistory] loads, in the caller or in a goroutine of its own, or waits for
    another goroutine, polling every 50 milliseconds for at most 35 seconds
    ([CheckLoadReady]).

    A goroutine that was started is an entry of [spawned] until it runs.  The waiting
    loop reads the clock and sleeps: an item [(now, n)] of [clock] is one such turn,
    in which the clock says [now] and the first [n] goroutines run during the sleep,
    so that the list fixes an interleaving; when it is used up the loop does not end
    ([Diverge]).

    - [waiting_ends]: the wait ends when 35 seconds have passed. *)

From Stdlib Require Import String ZArith List Lia.
From stdpp Require Import base tactics list gmap strings.
From S2P Require Import Prelude.

#[local] Open Scope Z_scope.

Module Loader.

Record Gate := mkGate {
  loading : gset string;
  ready : gset string;
  spawned : list string;
  clock : list (Z * nat);
}.

Definition set_loading (g : Gate) (l : gset string) : Gate := mkGate l (ready g) (spawned g) (clock g).
Definition set_ready (g : Gate) (r : gset string) : Gate := mkGate (loading g) r (spawned g) (clock g).
Definition set_spawned (g : Gate) (s : list string) : Gate := mkGate (loading g) (ready g) s (clock g).
Definition set_clock (g : Gate) (c : list (Z * nat)) : Gate := mkGate (loading g) (ready g) (spawned g) c.

(** A repository with a gate: [body] is [loadHistory] up to [ready.Store] (an error
    of the database is logged and ends it), [stale] tells that a key which was loaded
    has to be loaded again. *)
Class Loads (T : Type) := {
  gate : T -> Gate;
  set_gate : T -> Gate -> T;
  body : string -> ST T unit;
  stale : string -> ST T bool;
}.

Section Loading.
  Context {T : Type} `{Loads T}.

Definition onGate (f : Gate -> Gate) : ST T unit := fun s => (Ok (), set_gate s (f (gate s))).

(** [loadHistory] with its deferred [loading.Delete]. *)
Definition loadHistory (key : string) : ST T unit := fun s =>
  match body key s with
  | (Panic, s1) => (Panic, s1)
  | (Diverge, s1) => (Diverge, s1)
  | (Err _, s1) => onGate (fun g => set_loading g (loading g ∖ {[key]})) s1
  | (Ok _, s1) => onGate (fun g => set_loading (set_ready g ({[key]} ∪ ready g)) (loading g ∖ {[key]})) s1
  end.

(** [n] goroutines run. *)
Fixpoint runSpawned (n : nat) : ST T unit :=
  match n with
  | O => mret ()
  | S n' => fun s =>
      match spawned (gate s) with
      | [] => (Ok (), s)
      | key :: rest =>
          (_ ← onGate (fun g => set_spawned g rest); _ ← loadHistory key; runSpawned n') s
      end
  end.

(** The branch of [LoadHistory] for a key that is not ready. *)
Definition loadNew (wait : string -> ST T unit) (key : string) (sync : bool) : ST T unit := fun s =>
  if decide (key ∈ loading (gate s)) then
    if sync then wait key s else (Ok (), s)
  else
    (_ ← onGate (fun g => set_loading g ({[key]} ∪ loading g));
     if sync then loadHistory key else onGate (fun g => set_spawned g (spawned g ++ [key]))) s.

Definition LoadWith (wait : string -> ST T unit) (key : string) (sync : bool) : ST T unit := fun s =>
  if decide (key ∈ ready (gate s)) then
    (again ← stale key;
     if (again : bool) then _ ← onGate (fun g => set_ready g (ready g ∖ {[key]})); loadNew wait key sync
     else mret ()) s
  else loadNew wait key sync s.

(** [LoadHistory(key, false)], which does not wait. *)
Definition loadAsync (key : string) : ST T unit := LoadWith (fun _ => mret ()) key false.

(** The loop of [CheckLoadReady]. *)
Fixpoint waitReady (fuel : nat) (start : Z) (key : string) : ST T unit := fun s =>
  if decide (key ∈ ready (gate s)) then (Ok (), s)
  else
    (_ ← loadAsync key;
     ((fun s1 => match fuel, clock (gate s1) with
                 | S fuel', (now, n) :: rest =>
                     (_ ← onGate (fun g => set_clock g rest);
                      if 35 <? now - start then mret ()
                      else _ ← runSpawned n; waitReady fuel' start key) s1
                 | _, _ => (Diverge, s1)
                 end) : ST T unit)) s.

Definition CheckLoadReady (key : string) (sync : bool) : ST T bool := fun s =>
  let ok := bool_decide (key ∈ ready (gate s)) in
  if ok || negb sync then
    if sync then (Ok ok, s) else (_ ← loadAsync key; mret ok) s
  else
    match clock (gate s) with
    | [] => (Diverge, s)
    | (start, n) :: rest =>
        (_ ← onGate (fun g => set_clock g rest);
         _ ← runSpawned n;
         _ ← waitReady (length rest) start key;
         ((fun s1 => (Ok (bool_decide (key ∈ ready (gate s1))), s1)) : ST T bool)) s
    end.

Definition LoadHistory (key : string) (sync : bool) : ST T unit :=
  LoadWith (fun k => _ ← CheckLoadReady k true; mret ()) key sync.

(** ** Facts *)

(** A key that nobody loads is loaded at once. *)
Lemma load_cold key s s1 : key ∉ ready (gate s) -> key ∉ loading (gate s) ->
  body key (set_gate s (set_loading (gate s) ({[key]} ∪ loading (gate s)))) = (Ok (), s1) ->
  LoadHistory key true s = (Ok (), set_gate s1 (set_loading (set_ready (gate s1) ({[key]} ∪ ready (gate s1))) (loading (gate s1) ∖ {[key]}))).
Proof using.
  intros Hr Hl E. unfold LoadHistory, LoadWith, loadNew. rewrite decide_False, decide_False by done.
  unfold mbind, ST_bind, onGate, loadHistory. by rewrite E.
Qed.

(** What the theorems need of a repository: setting the gate sets it, and on the
    states [Good] loading answers or reports an error and leaves the gate to the code
    above. *)
Class LoadsLaws (Good : T -> Prop) : Prop := {
  gate_set : forall s g, gate (set_gate s g) = g;
  good_set : forall s g, Good s -> Good (set_gate s g);
  body_returns : forall key s, Good s ->
    exists s1, (body key s = (Ok (), s1) \/ exists e, body key s = (Err e, s1)) /\ gate s1 = gate s /\ Good s1;
  stale_returns : forall key s, Good s -> exists b s1, stale key s = (Ok b, s1) /\ gate s1 = gate s /\ Good s1;
}.

Context (Good : T -> Prop) `{!LoadsLaws Good}.

Lemma loadHistory_returns key s : Good s -> exists s1, loadHistory key s = (Ok (), s1) /\
  clock (gate s1) = clock (gate s) /\ Good s1.
Proof using All.
  intros Hs. unfold loadHistory. destruct (body_returns key s Hs) as (s1 & [E|(e & E)] & Eg & Hs1); rewrite E;
    eexists; (split; [done|]); rewrite gate_set, <- Eg; (split; [done|by apply good_set]).
Qed.

Lemma runSpawned_returns n s : Good s -> exists s1, runSpawned n s = (Ok (), s1) /\ clock (gate s1) = clock (gate s) /\ Good s1.
Proof using All.
  revert s. induction n as [|n IH]; intros s Hs; cbn [runSpawned]; [by exists s|].
  destruct (spawned (gate s)) as [|key rest]; [by exists s|].
  set (s0 := set_gate s (set_spawned (gate s) rest)).
  destruct (loadHistory_returns key s0) as (s1 & E1 & C1 & Hs1); [by apply good_set|].
  destruct (IH s1 Hs1) as (s2 & E2 & C2 & Hs2). exists s2. unfold mbind, ST_bind, onGate. fold s0. rewrite E1, E2.
  unfold s0 in C1. rewrite gate_set in C1. cbn in C1. split_and!; [done|congruence|done].
Qed.

Lemma loadAsync_returns key s : Good s -> exists s1, loadAsync key s = (Ok (), s1) /\ clock (gate s1) = clock (gate s) /\ Good s1.
Proof using All.
  assert (Hnew : forall s, Good s -> exists s1, loadNew (fun _ => mret ()) key false s = (Ok (), s1) /\
                   clock (gate s1) = clock (gate s) /\ Good s1).
  { clear s. intros s Hs. unfold loadNew. case_decide; [by exists s|]. eexists. split; [done|].
    rewrite !gate_set. split; [done|]. by repeat apply good_set. }
  intros Hs. unfold loadAsync, LoadWith. case_decide; [|by apply Hnew]. destruct (stale_returns key s Hs) as (b & s1 & E & Eg & Hs1).
  unfold mbind, ST_bind. rewrite E. destruct b; [|exists s1; by rewrite Eg]. unfold onGate.
  destruct (Hnew (set_gate s1 (set_ready (gate s1) (ready (gate s1) ∖ {[key]})))) as (s2 & E2 & C2 & Hs2); [by apply good_set|].
  exists s2. split; [done|]. split; [|done]. rewrite C2, gate_set. cbn. by rewrite Eg.
Qed.

Lemma waitReady_returns fuel start key s : Good s -> (length (clock (gate s)) <= fuel)%nat ->
  Exists (fun i => 35 < i.1 - start) (clock (gate s)) -> exists s1, waitReady fuel start key s = (Ok (), s1).
Proof using All.
  revert s. induction fuel as [|fuel IH]; intros s Hs Hf Hc.
  { destruct (clock (gate s)); [by apply Exists_nil in Hc|cbn in Hf; lia]. }
  cbn [waitReady]. case_decide; [by exists s|]. destruct (loadAsync_returns key s Hs) as (s1 & E1 & C1 & Hs1).
  unfold mbind at 1, ST_bind at 1. rewrite E1, C1. destruct (clock (gate s)) as [|[now n] rest]; [by apply Exists_nil in Hc|].
  unfold mbind at 1, ST_bind at 1. cbn [onGate]. destruct (Z.ltb_spec 35 (now - start)) as [|Hle]; [by eexists|].
  set (s2 := set_gate s1 (set_clock (gate s1) rest)).
  destruct (runSpawned_returns n s2) as (s3 & E3 & C3 & Hs3); [by apply good_set|].
  unfold mbind, ST_bind. rewrite E3. assert (Er : clock (gate s3) = rest) by (rewrite C3; unfold s2; by rewrite gate_set).
  apply Exists_cons in Hc as [Hc|Hc]; [cbn in Hc; lia|]. apply IH; [done|rewrite Er; cbn in Hf; lia|by rewrite Er].
Qed.

(** Waiting for another goroutine ends.  When the clock shows more than 35 seconds
    after the start in some turn of the polling loop, whatever the goroutines do and
    whether the database answers or not, [CheckLoadReady] returns. *)
Theorem waiting_ends (key : string) (s : T) (start : Z) (n : nat) (rest : list (Z * nat)) :
  Good s -> clock (gate s) = (start, n) :: rest -> Exists (fun i => 35 < i.1 - start) rest ->
  exists ok s1, CheckLoadReady key true s = (Ok ok, s1).
Proof using All.
  intros Hs Hc Hr. unfold CheckLoadReady. cbn [negb]. rewrite orb_false_r. case_bool_decide; [by eexists _, _|]. rewrite Hc.
  unfold mbind, ST_bind, onGate at 1. set (s0 := set_gate s (set_clock (gate s) rest)).
  destruct (runSpawned_returns n s0) as (s1 & E1 & C1 & Hs1); [by apply good_set|]. rewrite E1.
  assert (Er : clock (gate s1) = rest) by (rewrite C1; unfold s0; by rewrite gate_set).
  destruct (waitReady_returns (length rest) start key s1) as (s2 & ->); [done|by rewrite Er|by rewrite Er|]. by eexists _, _.
Qed.

End Loading.

End Loader.
