(* ===== verification/SyncHistory.v ===== *)
(** * The history of rooms in the sync server

    [src/model/repos/roomHistoryTimelineRepo.go]: the newest events of the rooms, each
    room in a ring of 128, at most [maxEntries] rooms at a time; a room that was not
    used for long is dropped and loaded again from the database when needed.  The
    database is the class [HistoryDb].

    [loadingDomainMaxOffset] only keeps a second goroutine from loading at the same
    time and is left out.

    The theorems are in [SyncHistoryFacts]. *)

From Stdlib Require Import String ZArith List Lia Sorted.
From stdpp Require Import base tactics list gmap strings.
From S2P Require Import Prelude Timeline TimelineRepo Loader.

#[local] Open Scope string_scope.
#[local] Open Scope Z_scope.

Module SyncHistory.
Import Timeline TimelineRepo Loader.

(** ** Data *)

Record ClientEvent := mkClientEvent {
  ceContent : string;
  ceEventID : string;
  ceRoomID : string;
  ceSender : string;
  ceStateKey : option string;
  ceType : string;
  ceOriginServerTS : Z;
}.

Record StreamEvent := mkStreamEvent { seEv : ClientEvent; seOffset : Z }.

#[export] Instance StreamEvent_feed : Feed StreamEvent := seOffset.

(** The database; the two slices of [GetHistoryEvents] are one list of pairs. *)
Class HistoryDb (D : Type) := {
  GetHistoryEvents : string -> nat -> ST D (list (ClientEvent * Z));
  SelectOutputMinStream : string -> ST D Z;
  SelectDomainMaxOffset : string -> ST D (list (string * Z));
  GetRoomLastOffsets : list string -> ST D (gmap string Z);
}.

Section History.
  Context {D : Type} `{HistoryDb D}.

Record RoomHistory := mkHistory {
  repo : TimeLineRepo StreamEvent;
  hGate : Gate;
  roomLatest : gmap string Z;
  roomMinStream : gmap string Z;
  domainMaxOffset : gmap string (gmap string Z);
  persist : D;
}.

Definition NewRoomHistory (bukSize maxEntries : nat) (d : D) : RoomHistory :=
  mkHistory (NewTimeLineRepo bukSize 128 true maxEntries) (mkGate ∅ ∅ [] []) ∅ ∅ ∅ d.

Definition set_repo (h : RoomHistory) (r : TimeLineRepo StreamEvent) : RoomHistory :=
  mkHistory r (hGate h) (roomLatest h) (roomMinStream h) (domainMaxOffset h) (persist h).
Definition set_hGate (h : RoomHistory) (g : Gate) : RoomHistory :=
  mkHistory (repo h) g (roomLatest h) (roomMinStream h) (domainMaxOffset h) (persist h).
Definition set_latest (h : RoomHistory) (m : gmap string Z) : RoomHistory :=
  mkHistory (repo h) (hGate h) m (roomMinStream h) (domainMaxOffset h) (persist h).
Definition set_minStream (h : RoomHistory) (m : gmap string Z) : RoomHistory :=
  mkHistory (repo h) (hGate h) (roomLatest h) m (domainMaxOffset h) (persist h).
Definition set_domainMax (h : RoomHistory) (m : gmap string (gmap string Z)) : RoomHistory :=
  mkHistory (repo h) (hGate h) (roomLatest h) (roomMinStream h) m (persist h).
Definition set_persist (h : RoomHistory) (d : D) : RoomHistory :=
  mkHistory (repo h) (hGate h) (roomLatest h) (roomMinStream h) (domainMaxOffset h) d.

Definition onDb {A} (m : ST D A) : ST RoomHistory A := fun h =>
  let '(r, d) := m (persist h) in (r, set_persist h d).

(** ** Operations *)

Definition setRoomLatest (roomID : string) (offset : Z) (h : RoomHistory) : RoomHistory :=
  match roomLatest h !! roomID with
  | Some lastoffset => if lastoffset <? offset then set_latest h (<[roomID := offset]> (roomLatest h)) else h
  | None => set_latest h (<[roomID := offset]> (roomLatest h))
  end.

(** [AddEv(ev, offset, false)]. *)
Definition addLoaded (ev : ClientEvent) (offset : Z) : ST RoomHistory unit := fun h =>
  match add (repo h) (ceRoomID ev) (mkStreamEvent ev offset) with
  | Ok (r, _) => (Ok (), setRoomLatest (ceRoomID ev) offset (set_repo h r))
  | Err e => (Err e, h)
  | Panic => (Panic, h)
  | Diverge => (Diverge, h)
  end.

Fixpoint addAllLoaded (evs : list (ClientEvent * Z)) : ST RoomHistory unit :=
  match evs with
  | [] => mret ()
  | (ev, offset) :: rest => _ ← addLoaded ev offset; addAllLoaded rest
  end.

(** [loadHistory]: the newest 30 events come in descending order and are turned
    round. *)
Definition history_load (roomID : string) : ST RoomHistory unit :=
  evs ← onDb (GetHistoryEvents roomID 30);
  addAllLoaded (reverse evs).

Definition timeLineOf (roomID : string) : ST RoomHistory (option (TimeLines StreamEvent)) := fun h =>
  match getTimeLine (repo h) roomID with
  | Ok (tl, r) => (Ok tl, set_repo h r)
  | Err e => (Err e, h)
  | Panic => (Panic, h)
  | Diverge => (Diverge, h)
  end.

(** A room that was loaded but dropped since is loaded again. *)
#[local] Instance history_loads : Loads RoomHistory := {
  gate := hGate;
  set_gate := set_hGate;
  body := history_load;
  stale roomID := tl ← timeLineOf roomID; mret (match tl with Some _ => false | None => true end);
}.

Definition LoadRoomHistory (roomID : string) (sync : bool) : ST RoomHistory unit := LoadHistory roomID sync.

Definition AddEv (ev : ClientEvent) (offset : Z) (load : bool) : ST RoomHistory unit :=
  _ ← (if load && negb (String.eqb (ceType ev) "m.room.create") then LoadRoomHistory (ceRoomID ev) true else mret ());
  addLoaded ev offset.

Definition GetHistory (roomID : string) : ST RoomHistory (option (TimeLines StreamEvent)) :=
  _ ← LoadRoomHistory roomID true;
  timeLineOf roomID.

Definition isEventID (eventId : string) (found : option StreamEvent) (_ : nat) (feed : option StreamEvent) :
    option StreamEvent * bool :=
  match feed with
  | Some stream => if String.eqb (ceEventID (seEv stream)) eventId then (Some stream, false) else (found, true)
  | None => (found, true)
  end.

Definition GetStreamEv (roomID eventId : string) : ST RoomHistory (option StreamEvent) :=
  history ← GetHistory roomID;
  match history with
  | None => mret None
  | Some tl => liftR (ForRangeReverse tl (isEventID eventId) None)
  end.

Definition isLast (found : option StreamEvent) (_ : nat) (feed : option StreamEvent) : option StreamEvent * bool :=
  match feed with
  | Some stream => (Some stream, false)
  | None => (found, true)
  end.

Definition GetLastEvent (roomID : string) : ST RoomHistory (option StreamEvent) :=
  history ← GetHistory roomID;
  match history with
  | None => mret None
  | Some tl => liftR (ForRangeReverse tl isLast None)
  end.

Definition isMessageType (t : string) : bool := String.eqb t "m.room.message" || String.eqb t "m.room.encrypted".

(** The pair is [lastMessageSev], [lastSev]. *)
Definition isLastMessage (found : option StreamEvent * option StreamEvent) (_ : nat) (feed : option StreamEvent) :
    (option StreamEvent * option StreamEvent) * bool :=
  match feed with
  | Some ev =>
      let lastSev := match found.2 with None => Some ev | Some _ => found.2 end in
      if isMessageType (ceType (seEv ev)) then ((Some ev, lastSev), false) else ((found.1, lastSev), true)
  | None => (found, true)
  end.

Definition GetLastMessageEvent (roomID : string) : ST RoomHistory (option StreamEvent * option StreamEvent) :=
  history ← GetHistory roomID;
  match history with
  | None => mret (None, None)
  | Some tl => liftR (ForRangeReverse tl isLastMessage (None, None))
  end.

Definition GetRoomLastOffset (h : RoomHistory) (roomID : string) : Z := default (-1) (roomLatest h !! roomID).

Definition GetRoomMinStream (roomID : string) : ST RoomHistory Z := fun h =>
  match roomMinStream h !! roomID with
  | Some pos => (Ok pos, h)
  | None =>
      match onDb (SelectOutputMinStream roomID) h with
      | (Ok pos, h1) => (Ok pos, set_minStream h1 (<[roomID := pos]> (roomMinStream h1)))
      | (Err _, h1) => (Ok (-1), h1)
      | (Panic, h1) => (Panic, h1)
      | (Diverge, h1) => (Diverge, h1)
      end
  end.

Definition SetRoomMinStream (roomID : string) (minStream : Z) (h : RoomHistory) : RoomHistory :=
  set_minStream h (<[roomID := minStream]> (roomMinStream h)).

Definition GetDomainMaxStream (roomID domain : string) : ST RoomHistory Z := fun h =>
  match domainMaxOffset h !! roomID with
  | Some m => (Ok (default (-1) (m !! domain)), h)
  | None =>
      match onDb (SelectDomainMaxOffset roomID) h with
      | (Ok rows, h1) =>
          let domainMap := fold_left (fun m dr => <[dr.1 := dr.2]> m) rows (∅ : gmap string Z) in
          (Ok (default (-1) (domainMap !! domain)), set_domainMax h1 (<[roomID := domainMap]> (domainMaxOffset h1)))
      | (Err _, h1) => (Ok (-1), h1)
      | (Panic, h1) => (Panic, h1)
      | (Diverge, h1) => (Diverge, h1)
      end
  end.

Definition SetDomainMaxStream (roomID domain : string) (offset : Z) (h : RoomHistory) : RoomHistory :=
  let m := default ∅ (domainMaxOffset h !! roomID) in
  set_domainMax h (<[roomID := <[domain := offset]> m]> (domainMaxOffset h)).

Definition LoadRoomLatest `{GoRange} (rooms : list string) : ST RoomHistory unit := fun h =>
  let loadRooms := List.filter (fun r => match roomLatest h !! r with Some _ => false | None => true end) rooms in
  if (length loadRooms =? 0)%nat then (Ok (), h)
  else (roomMap ← onDb (GetRoomLastOffsets loadRooms);
        ((fun h1 => (Ok (), fold_left (fun h kv => setRoomLatest kv.1 kv.2 h) (range roomMap) h1)) : ST RoomHistory unit)) h.

End History.
Arguments RoomHistory D : clear implicits.

End SyncHistory.
