(* ===== verification/SyncHistoryFacts.v ===== *)
(** * The history of rooms: theorems

    - [ForRangeReverse_abs]: walking a timeline backwards is walking its list of
      feeds backwards; from it the three searches.
    - [history_is_newest]: a room that is used for the first time shows the newest
      events of the database followed by the events added since, in order, at most
      128 of them, and its latest offset is that of the last one. *)

From Stdlib Require Import String ZArith List Lia Sorted.
From stdpp Require Import base tactics list gmap strings.
From S2P Require Import Prelude Timeline TimelineRepo Loader SyncHistory.

#[local] Open Scope string_scope.
#[local] Open Scope Z_scope.

Module SyncHistoryFacts.
Import Timeline TimelineRepo Loader SyncHistory.

#[local] Existing Instance SyncHistory.history_loads.

(** ** Walking backwards *)

Fixpoint walkList {F S} (g : S -> option F -> S * bool) (l : list F) (s : S) : S :=
  match l with
  | [] => s
  | x :: rest => let '(s1, go) := g s (Some x) in if go then walkList g rest s1 else s1
  end.

Lemma ForRangeReverse_abs {F S} `{Feed F} (tl : TimeLines F) (l : list F) (g : S -> option F -> S * bool) (s : S) :
  Rep tl l -> ForRangeReverse tl (fun s _ x => g s x) s = Ok (walkList g (reverse l) s).
Proof.
  intros R. destruct (GetRange_rep tl l R) as (E & En & _). unfold ForRangeReverse. rewrite E, En.
  assert (Hn : forall n s, (n <= length l)%nat ->
    walk tl (fun s _ x => g s x) (reverse (seq (offset tl - size tl) n)) s = Ok (walkList g (reverse (take n l)) s)).
  { clear s. intros n. induction n as [|n IH]; intros s Hn; [done|]. rewrite seq_S, reverse_app. cbn [reverse rev_append app].
    destruct (lookup_lt_is_Some_2 l n) as [x Hx]; [lia|]. cbn. rewrite (getFeed_rep _ _ _ _ R Hx). cbn.
    rewrite (take_S_r _ _ _ Hx), reverse_app. cbn. destruct (g s (Some x)) as [s1 go]. destruct go; [|done]. apply IH. lia. }
  rewrite Hn by done. by rewrite firstn_all.
Qed.

Lemma isEventID_abs tl l id : Rep tl l ->
  ForRangeReverse tl (isEventID id) None = Ok (List.find (fun s => String.eqb (ceEventID (seEv s)) id) (reverse l)).
Proof.
  intros R. pose proof (ForRangeReverse_abs tl l (fun s x => isEventID id s 0 x) None R) as E. etrans; [exact E|]. clear E R.
  f_equal. induction (reverse l) as [|x r IH]; [done|]. cbn. by destruct (String.eqb _ id).
Qed.

Lemma isLast_abs tl l : Rep tl l -> ForRangeReverse tl isLast None = Ok (last l).
Proof.
  intros R. pose proof (ForRangeReverse_abs tl l (fun s x => isLast s 0 x) None R) as E. etrans; [exact E|]. f_equal.
  rewrite <- head_reverse. by destruct (reverse l).
Qed.

Definition isMessage (s : StreamEvent) : bool := isMessageType (ceType (seEv s)).

Lemma isLastMessage_abs tl l : Rep tl l ->
  ForRangeReverse tl isLastMessage (None, None) = Ok (List.find isMessage (reverse l), last l).
Proof.
  intros R. pose proof (ForRangeReverse_abs tl l (fun s x => isLastMessage s 0 x) (None, None) R) as E. etrans; [exact E|]. clear E. f_equal.
  rewrite <- head_reverse. destruct (reverse l) as [|x r]; [done|]. cbn. fold (isMessage x). destruct (isMessage x); [done|].
  induction r as [|y r IH]; [done|]. cbn. fold (isMessage y). by destruct (isMessage y).
Qed.

(** ** What a room shows *)

Section Facts.
  Context {D : Type} `{HistoryDb D}.
  Implicit Types (h : RoomHistory D).

Record HistoryInv h : Prop := {
  hi_repo : RepoInv (repo h);
  hi_size : tlSize (repo h) = 128%nat;
  hi_limit : tlLimit (repo h) = true;
}.

(** The room is in memory with the events [l], oldest first, or it is not and [l] is
    empty. *)
Definition shows h room (l : list StreamEvent) : Prop :=
  match get (repo h) room with
  | Some tl => Inv tl l /\ limit tl = true /\ size tl = 128%nat /\ ofo tl = false
  | None => l = []
  end.

Definition notAfter (l : list StreamEvent) (off : Z) : Prop := forall p, last l = Some p -> seOffset p <= off.

(** What reading and adding events leave alone. *)
Definition aside h : D * gmap string Z := (persist h, roomMinStream h).

Lemma setRoomLatest_same h room off : repo (setRoomLatest room off h) = repo h /\ hGate (setRoomLatest room off h) = hGate h /\
  aside (setRoomLatest room off h) = aside h.
Proof using. unfold setRoomLatest. by repeat case_match. Qed.

Lemma setRoomLatest_max h room off : roomLatest (setRoomLatest room off h) !! room =
  Some (match roomLatest h !! room with Some o => Z.max o off | None => off end).
Proof using.
  unfold setRoomLatest. destruct (roomLatest h !! room) as [o|] eqn:E; [|apply lookup_insert_eq].
  destruct (Z.ltb_spec o off); [rewrite Z.max_r by lia; apply lookup_insert_eq|]. by rewrite E, Z.max_l by lia.
Qed.

Lemma addLoaded_shows h ev off l : HistoryInv h -> shows h (ceRoomID ev) l -> 0 < off -> notAfter l off ->
  exists h', addLoaded ev off h = (Ok (), h') /\ HistoryInv h' /\ hGate h' = hGate h /\ aside h' = aside h /\
    is_Some (get (repo h') (ceRoomID ev)) /\ shows h' (ceRoomID ev) (newest 128 (l ++ [mkStreamEvent ev off])) /\
    roomLatest h' !! ceRoomID ev = Some (match roomLatest h !! ceRoomID ev with Some o => Z.max o off | None => off end).
Proof using.
  intros [Hr Hs Hl] Hshow Hoff Hlast. set (f := mkStreamEvent ev off).
  destruct (add_map (repo h) (ceRoomID ev) f Hr Hoff) as (r' & tl & removed & Ea & Hr' & Es & El & Eadd & Eget & _).
  unfold addLoaded. fold f. rewrite Ea. eexists. split; [done|]. set (h1 := set_repo h r').
  destruct (setRoomLatest_same h1 (ceRoomID ev) off) as (E1 & E2 & E3).
  assert (Htl : exists tl0, default (NewEvTimeLines (tlSize (repo h)) (tlLimit (repo h))) (get (repo h) (ceRoomID ev)) = tl0 /\
            Inv tl0 l /\ limit tl0 = true /\ size tl0 = 128%nat /\ ofo tl0 = false).
  { unfold shows in Hshow. destruct (get (repo h) (ceRoomID ev)) as [tl0|]; cbn [default]; [by exists tl0|]. subst l.
    rewrite Hs, Hl. eexists. split; [done|]. split_and!; try done. apply New_Inv. lia. }
  destruct Htl as (tl0 & E0 & Hi & Hlim & Hsz & Hofo). rewrite E0 in Eadd.
  destruct (Add_Inv tl0 l f Hi Hoff) as (tl1 & l1 & Eadd1 & Hi1 & _ & Hlim1 & Hsz1 & Hw & Hkeep).
  rewrite Eadd1 in Eadd. injection Eadd as <- _. assert (Hofo1 : ofo tl1 = false) by (apply Hkeep; [done|exact Hlast]).
  rewrite Hw in Hi1 by auto. split_and!.
  - split; rewrite E1; cbn [h1 set_repo repo]; [done|congruence|congruence].
  - by rewrite E2.
  - by rewrite E3.
  - rewrite E1. cbn [h1 set_repo repo]. by rewrite Eget.
  - unfold shows. rewrite E1. cbn [h1 set_repo repo]. rewrite Eget. split_and!; [|congruence| |done].
    + pose proof (newest_window tl0 l f (inv_rep _ _ Hi) Hlim) as Enw. rewrite Hsz in Enw.
      unfold window in Hi1, Enw. rewrite Hlim, Hsz in Hi1, Enw. cbn [andb] in Hi1, Enw.
      rewrite <- (newest_snoc 128 l f []) by lia. by rewrite Enw.
    + rewrite Hsz1 by done. done.
  - rewrite setRoomLatest_max. done.
Qed.

Lemma newest_last n (l : list StreamEvent) : (0 < n)%nat -> last (newest n l) = last l.
Proof using.
  intros Hn. unfold newest. destruct (decide (l = [])) as [->|Hl]; [by rewrite drop_nil|].
  assert (0 < length l)%nat by (destruct l; [done|cbn; lia]).
  rewrite !last_lookup, lookup_drop, length_drop. f_equal. lia.
Qed.

Lemma newest_newest n (l : list StreamEvent) x : newest n (newest n l ++ [x]) = newest n (l ++ [x]).
Proof using.
  unfold newest. rewrite !length_app, length_drop. cbn [length].
  destruct (decide (length l <= n)%nat).
  - replace (length l - n)%nat with 0%nat by lia. by rewrite drop_0, Nat.sub_0_r.
  - destruct (decide (n = 0)%nat) as [->|].
    + rewrite !drop_ge; [done|..]; rewrite ?length_app, ?length_drop; cbn; lia.
    + rewrite !drop_app_le by (rewrite ?length_drop; lia). rewrite drop_drop. f_equal. f_equal. lia.
Qed.

(** Feeds in ascending order after [l]. *)
Definition ascending (l : list StreamEvent) : Prop := StronglySorted (fun a b => seOffset a <= seOffset b) l.

Definition pairOf (s : StreamEvent) : ClientEvent * Z := (seEv s, seOffset s).

Lemma ascending_notAfter l x rest : ascending (l ++ x :: rest) -> notAfter l (seOffset x).
Proof using.
  intros Ha p Hp%last_Some_elem_of. induction l as [|a l IH]; [by apply elem_of_nil in Hp|]. cbn in Ha.
  apply StronglySorted_inv in Ha as [Ha Hall]. apply elem_of_cons in Hp as [->|Hp]; [|by apply IH].
  rewrite Forall_forall in Hall. apply Hall. apply elem_of_app. right. left.
Qed.

(** The newest 128 of what was added and what is added. *)
Lemma addAll_shows fs h room l0 l : HistoryInv h -> l = newest 128 l0 -> shows h room l ->
  Forall (fun f => 0 < seOffset f /\ ceRoomID (seEv f) = room) fs -> ascending (l0 ++ fs) ->
  exists h', addAllLoaded (map pairOf fs) h = (Ok (), h') /\ HistoryInv h' /\ hGate h' = hGate h /\ aside h' = aside h /\
    shows h' room (newest 128 (l0 ++ fs)) /\ (fs <> [] -> is_Some (get (repo h') room)).
Proof using.
  revert h l0 l. induction fs as [|f fs IH]; intros h l0 l Hh -> Hshow Hpos Ha.
  { exists h. rewrite app_nil_r. by split_and!. }
  apply Forall_cons in Hpos as [[Hf Hroom] Hpos]. cbn [map pairOf addAllLoaded].
  destruct (addLoaded_shows h (seEv f) (seOffset f) (newest 128 l0)) as (h1 & E1 & Hh1 & G1 & P1 & Hin1 & S1 & _); try done.
  { by rewrite Hroom. }
  { intros p Hp. rewrite newest_last in Hp by lia. by eapply ascending_notAfter. }
  destruct f as [ev off]. cbn [seEv seOffset] in *. rewrite newest_newest in S1.
  destruct (IH h1 (l0 ++ [mkStreamEvent ev off])%list _ Hh1 eq_refl) as (h2 & E2 & Hh2 & G2 & P2 & S2 & Hin2).
  { by rewrite <- Hroom. }
  { done. }
  { by rewrite <- app_assoc. }
  exists h2. unfold mbind, ST_bind. rewrite E1. cbn. rewrite E2. rewrite <- (assoc app) in S2.
  split_and!; try done; [congruence..|]. intros _. destruct fs as [|f fs]; [|by apply Hin2].
  cbn in E2. injection E2 as <-. by rewrite <- Hroom.
Qed.

(** ** Rooms in memory *)

Lemma timeLineOf_shows h room l : HistoryInv h -> shows h room l -> exists h', timeLineOf room h = (Ok (get (repo h) room), h') /\
  HistoryInv h' /\ hGate h' = hGate h /\ aside h' = aside h /\ shows h' room l /\ get (repo h') room = get (repo h) room.
Proof using.
  intros [Hr Hs Hl] Hshow. destruct (getTimeLine_map (repo h) room Hr) as (r' & E & Hr' & Es & El & Eg).
  unfold timeLineOf. rewrite E. eexists. split; [done|]. split_and!; try done.
  - split; cbn; [done|congruence..].
  - unfold shows in *. cbn. by rewrite Eg.
Qed.

(** A room that is in memory is not loaded again. *)
Lemma warm_load h room l : HistoryInv h -> shows h room l -> room ∈ ready (hGate h) -> is_Some (get (repo h) room) ->
  exists h', LoadRoomHistory room true h = (Ok (), h') /\ HistoryInv h' /\ hGate h' = hGate h /\ aside h' = aside h /\
    shows h' room l /\ get (repo h') room = get (repo h) room.
Proof using.
  intros Hh Hshow Hready [tl Htl]. destruct (timeLineOf_shows h room l Hh Hshow) as (h1 & E1 & Hh1 & G1 & P1 & S1 & Eg1).
  exists h1. split; [|done]. unfold LoadRoomHistory, LoadHistory, LoadWith. cbn [gate history_loads].
  rewrite decide_True by done. cbn [stale history_loads]. unfold mbind, ST_bind. by rewrite E1, Htl.
Qed.

Lemma warm_history h room l : HistoryInv h -> shows h room l -> room ∈ ready (hGate h) -> is_Some (get (repo h) room) ->
  exists h', GetHistory room h = (Ok (get (repo h) room), h') /\ HistoryInv h' /\ hGate h' = hGate h /\ aside h' = aside h /\
    shows h' room l /\ get (repo h') room = get (repo h) room.
Proof using.
  intros Hh Hshow Hready Hin. destruct (warm_load h room l Hh Hshow Hready Hin) as (h1 & E1 & Hh1 & G1 & P1 & S1 & Eg1).
  destruct (timeLineOf_shows h1 room l Hh1 S1) as (h2 & E2 & Hh2 & G2 & P2 & S2 & Eg2). exists h2.
  unfold GetHistory, mbind, ST_bind. rewrite E1, E2, Eg1. split_and!; try done; congruence.
Qed.

(** The searches on a room in memory. *)
Lemma warm_lastMessage h room l : HistoryInv h -> shows h room l -> room ∈ ready (hGate h) -> is_Some (get (repo h) room) ->
  exists h', GetLastMessageEvent room h = (Ok (List.find isMessage (reverse l), last l), h') /\ HistoryInv h' /\
    hGate h' = hGate h /\ aside h' = aside h /\ shows h' room l /\ get (repo h') room = get (repo h) room.
Proof using.
  intros Hh Hshow Hready Hin. destruct (warm_history h room l Hh Hshow Hready Hin) as (h1 & E1 & Hh1 & R).
  exists h1. split; [|done]. unfold GetLastMessageEvent, mbind, ST_bind. rewrite E1. unfold shows in Hshow.
  destruct (get (repo h) room) as [tl|]; [|by destruct Hin]. destruct Hshow as [[Hrep _ _] _].
  unfold liftR. by rewrite (isLastMessage_abs tl l Hrep).
Qed.

Lemma warm_streamEv h room l id : HistoryInv h -> shows h room l -> room ∈ ready (hGate h) -> is_Some (get (repo h) room) ->
  exists h', GetStreamEv room id h = (Ok (List.find (fun s => String.eqb (ceEventID (seEv s)) id) (reverse l)), h') /\ HistoryInv h' /\
    hGate h' = hGate h /\ aside h' = aside h /\ shows h' room l /\ get (repo h') room = get (repo h) room.
Proof using.
  intros Hh Hshow Hready Hin. destruct (warm_history h room l Hh Hshow Hready Hin) as (h1 & E1 & Hh1 & R).
  exists h1. split; [|done]. unfold GetStreamEv, mbind, ST_bind. rewrite E1. unfold shows in Hshow.
  destruct (get (repo h) room) as [tl|]; [|by destruct Hin]. destruct Hshow as [[Hrep _ _] _].
  unfold liftR. by rewrite (isEventID_abs tl l id Hrep).
Qed.

(** ** The first use of a room *)

Lemma cold_load h room old d' : HistoryInv h -> room ∉ ready (hGate h) -> room ∉ loading (hGate h) -> get (repo h) room = None ->
  GetHistoryEvents room 30 (persist h) = (Ok (map pairOf (reverse old)), d') ->
  Forall (fun f => 0 < seOffset f /\ ceRoomID (seEv f) = room) old -> ascending old ->
  exists h', LoadRoomHistory room true h = (Ok (), h') /\ HistoryInv h' /\ shows h' room (newest 128 old) /\
    room ∈ ready (hGate h') /\ (old <> [] -> is_Some (get (repo h') room)) /\ aside h' = (d', roomMinStream h).
Proof using.
  intros Hh Hnr Hnl Hnone Hdb Hpos Hasc. unfold LoadRoomHistory, LoadHistory, LoadWith, loadNew. cbn [gate history_loads].
  rewrite decide_False, decide_False by done. unfold mbind, ST_bind, onGate. cbn [gate set_gate history_loads].
  set (h0 := set_hGate h (set_loading (hGate h) ({[room]} ∪ loading (hGate h)))). assert (Hh0 : HistoryInv h0) by (by destruct Hh).
  unfold loadHistory. cbn [body history_loads]. unfold history_load, onDb, mbind, ST_bind.
  change (persist h0) with (persist h). rewrite Hdb. set (h1 := set_persist h0 d').
  assert (Hh1 : HistoryInv h1) by (by destruct Hh).
  assert (Hs1 : shows h1 room []) by (unfold shows; cbn [h1 h0 set_persist set_hGate repo]; by rewrite Hnone).
  destruct (addAll_shows old h1 room [] [] Hh1 eq_refl Hs1 Hpos Hasc) as (h2 & E2 & Hh2 & G2 & P2 & S2 & Hin2).
  replace (reverse (map pairOf (reverse old))) with (map pairOf old)
    by (unfold reverse; by rewrite <- !rev_alt, map_rev, rev_involutive).
  rewrite E2. eexists. split; [done|]. cbn [app] in *. split_and!; try done.
  - by destruct Hh2.
  - cbn. set_solver.
Qed.

Fixpoint addEvs (evs : list (ClientEvent * Z)) : ST (RoomHistory D) unit :=
  match evs with
  | [] => mret ()
  | (ev, off) :: rest => _ ← AddEv ev off true; addEvs rest
  end.

Lemma warm_adds fs h room l0 : HistoryInv h -> shows h room (newest 128 l0) -> room ∈ ready (hGate h) -> is_Some (get (repo h) room) ->
  Forall (fun f => 0 < seOffset f /\ ceRoomID (seEv f) = room) fs -> ascending (l0 ++ fs) ->
  exists h', addEvs (map pairOf fs) h = (Ok (), h') /\ HistoryInv h' /\ shows h' room (newest 128 (l0 ++ fs)) /\
    room ∈ ready (hGate h') /\ is_Some (get (repo h') room) /\ aside h' = aside h.
Proof using.
  revert h l0. induction fs as [|f fs IH]; intros h l0 Hh Hshow Hready Hin Hpos Hasc.
  { exists h. by rewrite app_nil_r. }
  apply Forall_cons in Hpos as [[Hf Hroom] Hpos]. destruct f as [ev off]. cbn [seEv seOffset map pairOf addEvs] in *.
  assert (Hload : exists h1, (if true && negb (String.eqb (ceType ev) "m.room.create") then LoadRoomHistory (ceRoomID ev) true else mret ()) h = (Ok (), h1) /\
            HistoryInv h1 /\ shows h1 room (newest 128 l0) /\ room ∈ ready (hGate h1) /\ is_Some (get (repo h1) room) /\ aside h1 = aside h).
  { rewrite Hroom. destruct (true && _); [|by exists h].
    destruct (warm_load h room _ Hh Hshow Hready Hin) as (h1 & E1 & Hh1 & G1 & A1 & S1 & Eg1). exists h1. rewrite G1, Eg1. done. }
  destruct Hload as (h1 & E1 & Hh1 & S1 & R1 & Hin1 & A1).
  destruct (addLoaded_shows h1 ev off (newest 128 l0)) as (h2 & E2 & Hh2 & G2 & P2 & Hin2 & S2 & _); [done|by rewrite Hroom|done| |].
  { intros p Hp. rewrite newest_last in Hp by lia. exact (ascending_notAfter _ _ _ Hasc p Hp). }
  rewrite newest_newest, Hroom in *. destruct (IH h2 (l0 ++ [mkStreamEvent ev off])%list) as (h3 & E3 & Hh3 & S3 & R3 & Hin3 & A3); try done.
  { by rewrite G2. }
  { by rewrite <- app_assoc. }
  exists h3. unfold AddEv, mbind, ST_bind. unfold mbind, ST_bind in E1. rewrite Hroom, E1, E2, E3. rewrite <- (assoc app) in S3. split_and!; try done. congruence.
Qed.

(** A room shows its newest events.  When a room that is not in memory is used
    first by an event and the database gives its last events [old], then after the
    events [fs], which follow them in the order of their offsets, the repository
    holds the newest 128 of [old] and [fs], in order; the last message event and the
    last event it reports are those of this list. *)
Theorem history_is_newest h room old fs d' : HistoryInv h ->
  room ∉ ready (hGate h) -> room ∉ loading (hGate h) -> get (repo h) room = None ->
  GetHistoryEvents room 30 (persist h) = (Ok (map pairOf (reverse old)), d') ->
  Forall (fun f => 0 < seOffset f /\ ceRoomID (seEv f) = room) (old ++ fs) -> ascending (old ++ fs) -> fs <> [] ->
  Forall (fun f => ceType (seEv f) <> "m.room.create") fs ->
  exists h1 h2, addEvs (map pairOf fs) h = (Ok (), h1) /\ shows h1 room (newest 128 (old ++ fs)) /\
    GetLastMessageEvent room h1 = (Ok (List.find isMessage (reverse (newest 128 (old ++ fs))), last fs), h2).
Proof using.
  intros Hh Hnr Hnl Hnone Hdb [Hpo Hpf]%Forall_app Hasc Hfs Hty. destruct fs as [|f fs]; [done|].
  apply Forall_cons in Hpf as [[Hf Hroom] Hpf]. apply Forall_cons in Hty as [Hty _]. destruct f as [ev off].
  cbn [seEv seOffset] in *. assert (Hao : ascending old).
  { clear -Hasc. induction old as [|a old IH]; [constructor|]. cbn in Hasc. apply StronglySorted_inv in Hasc as [Ha Hall].
    constructor; [by apply IH|]. by apply Forall_app in Hall as [? _]. }
  destruct (cold_load h room old d' Hh Hnr Hnl Hnone Hdb Hpo Hao) as (h1 & E1 & Hh1 & S1 & R1 & _).
  destruct (addLoaded_shows h1 ev off (newest 128 old)) as (h2 & E2 & Hh2 & G2 & P2 & Hin2 & S2 & _); [done|by rewrite Hroom|done| |].
  { intros p Hp. rewrite newest_last in Hp by lia. exact (ascending_notAfter _ _ _ Hasc p Hp). }
  rewrite newest_newest, Hroom in *.
  destruct (warm_adds fs h2 room (old ++ [mkStreamEvent ev off])%list) as (h3 & E3 & Hh3 & S3 & R3 & Hin3 & _); try done.
  { by rewrite G2. }
  { by rewrite <- app_assoc. }
  rewrite <- (assoc app) in S3. cbn [app] in S3. destruct (warm_lastMessage h3 room _ Hh3 S3 R3 Hin3) as (h4 & E4 & _). exists h3, h4. split_and!.
  - cbn [map pairOf seEv seOffset addEvs]. unfold AddEv, mbind, ST_bind. unfold mbind, ST_bind in E1. rewrite Hroom.
    rewrite (proj2 (String.eqb_neq _ _) Hty). cbn [negb andb]. by rewrite E1, E2, E3.
  - done.
  - rewrite E4. rewrite newest_last by lia. by rewrite last_app_cons.
Qed.

(** ** The gate of the repository *)

(** The database answers with positive offsets, or reports an error. *)
Definition answers : Prop := forall room n d, exists d',
  (exists evs, GetHistoryEvents room n d = (Ok evs, d') /\ Forall (fun e => 0 < e.2) evs) \/
  (exists e, GetHistoryEvents room n d = (Err e, d')).

Lemma addAll_returns evs h : HistoryInv h -> Forall (fun e => 0 < e.2) evs ->
  exists h', addAllLoaded evs h = (Ok (), h') /\ HistoryInv h' /\ hGate h' = hGate h.
Proof using.
  revert h. induction evs as [|[ev off] evs IH]; intros h Hh Hpos; [by exists h|]. apply Forall_cons in Hpos as [Hoff Hpos].
  cbn [addAllLoaded]. destruct Hh as [Hr Hs Hl]. cbn in Hoff.
  destruct (add_map (repo h) (ceRoomID ev) (mkStreamEvent ev off) Hr Hoff) as (r' & tl & removed & Ea & Hr' & Es & El & _).
  set (h1 := setRoomLatest (ceRoomID ev) off (set_repo h r')). destruct (setRoomLatest_same (set_repo h r') (ceRoomID ev) off) as (E1 & E2 & _).
  destruct (IH h1) as (h2 & E3 & Hh2 & G2); [split; unfold h1; rewrite E1; cbn; congruence|done|].
  exists h2. unfold mbind, ST_bind, addLoaded. rewrite Ea. fold h1. rewrite E3. split_and!; [done|done|].
  rewrite G2. unfold h1. by rewrite E2.
Qed.

Lemma history_laws : answers -> LoadsLaws HistoryInv.
Proof using.
  intros Hdb. split; [done|intros h g [? ? ?]; by split| |].
  - intros room h Hh. cbn [body history_loads]. unfold history_load, onDb, mbind, ST_bind.
    destruct (Hdb room 30%nat (persist h)) as (d' & [(evs & -> & Hpos)|(e & ->)]).
    + destruct (addAll_returns (reverse evs) (set_persist h d')) as (h1 & -> & Hh1 & G1); [by destruct Hh|by apply Forall_reverse|].
      exists h1. split_and!; [by left|done|done].
    + eexists. split_and!; [right; by exists e|done|by destruct Hh].
  - intros room h Hh. cbn [stale history_loads]. unfold mbind, ST_bind.
    destruct Hh as [Hr Hs Hl]. destruct (getTimeLine_map (repo h) room Hr) as (r' & E & Hr' & Es & El & Eg).
    unfold timeLineOf. rewrite E. eexists _, _. split_and!; [done|done|]. split; cbn; congruence.
Qed.

End Facts.

(** ** A database with two events *)

Definition sampleEv (id type : string) : ClientEvent := mkClientEvent "" id "!r:a" "@u:a" None type 0.

#[local] Instance sampleDb : HistoryDb unit := {
  GetHistoryEvents _ _ := mret [(sampleEv "$2" "m.room.message", 20); (sampleEv "$1" "m.room.topic", 10)];
  SelectOutputMinStream _ := mret 10;
  SelectDomainMaxOffset _ := mret [];
  GetRoomLastOffsets _ := mret ∅;
}.

Lemma sample_inv : HistoryInv (NewRoomHistory 4 2 ()).
Proof. split; [apply NewTimeLineRepo_inv; lia|done|done]. Qed.

Lemma history_is_newest_witness :
  let old := [mkStreamEvent (sampleEv "$1" "m.room.topic") 10; mkStreamEvent (sampleEv "$2" "m.room.message") 20] in
  let fs := [mkStreamEvent (sampleEv "$3" "m.room.topic") 30] in
  exists h1 h2, addEvs (map pairOf fs) (NewRoomHistory 4 2 ()) = (Ok (), h1) /\ shows h1 "!r:a" (newest 128 (old ++ fs)) /\
    GetLastMessageEvent "!r:a" h1 = (Ok (List.find isMessage (reverse (newest 128 (old ++ fs))), last fs), h2).
Proof.
  intros old fs. apply (history_is_newest (NewRoomHistory 4 2 ()) "!r:a" old fs ()); [apply sample_inv|set_solver|set_solver|by vm_compute|done|..].
  - by repeat constructor.
  - unfold ascending. repeat constructor; cbn; lia.
  - done.
  - by repeat constructor.
Defined.

Lemma waiting_ends_witness :
  let h := set_hGate (NewRoomHistory 4 2 ()) (mkGate {["!r:a"]} ∅ [] [(0, 0%nat); (36, 0%nat)]) in
  exists ok s1, CheckLoadReady "!r:a" true h = (Ok ok, s1).
Proof.
  intros h. apply (waiting_ends HistoryInv (LoadsLaws0 := history_laws ltac:(intros room n d; eexists; left; eexists; split; [reflexivity|by repeat constructor]))
    "!r:a" h 0 0 [(36, 0%nat)]).
  - destruct sample_inv. by split.
  - done.
  - left. cbn. lia.
Defined.

End SyncHistoryFacts.
