(* ===== verification/Receipts.v ===== *)
(** * Read receipts in the sync server

    A client marks an event as read ([OnReceipt], [src/syncserver/consumers/receipt.go]).
    The marks of a room are collected until a timer fires ([fireReceipt]); then each
    user's last mark goes to [UserReceiptRepo] ([src/model/repos/userReceiptRepo.go])
    and the marks together become one item of the room's stream of receipts
    ([src/model/repos/receiptDataStreamRepo.go]), from which [addReceipt]
    ([src/syncserver/consumers/syncServer.go]) answers the syncs of the members.  Both
    repositories keep changes in memory and write them to their tables
    ([src/storage/implements/syncapi/]) when another timer calls [flush].

    A timeline holds pointers to its items: [flush] marks an item as written by
    replacing it in its slot.  Statements can fail: [faults] says which of the next
    ones do.  The members of a room come from the sync server's room state, the class
    [RoomMembers].  The database is written directly (without [AsyncSave]). *)

From Stdlib Require Import String ZArith List Lia.
From stdpp Require Import base tactics list gmap strings.
From S2P Require Import Prelude Snowflake Timeline TimelineRepo Loader SyncHistory Ids Push.

#[local] Open Scope string_scope.
#[local] Open Scope Z_scope.

Module Receipts.
Import Timeline Loader.

(** ** The tables *)

Record SyncDb := mkSyncDb {
  (** [syncapi_user_receipt_data]: (user, room) to (evt_offset, content) *)
  userReceiptData : gmap (string * string) (Z * string);
  (** [syncapi_receipt_data_stream]: id to (evt_offset, room, content) *)
  receiptDataStream : gmap Z (Z * string * string);
  faults : list bool;
}.

(** A statement: [true] as next fault makes it fail. *)
Definition exec {A} (f : SyncDb -> A * SyncDb) : ST SyncDb A := fun d =>
  match faults d with
  | true :: rest => (Err (ErrMsg "sql"), mkSyncDb (userReceiptData d) (receiptDataStream d) rest)
  | b =>
      let d1 := mkSyncDb (userReceiptData d) (receiptDataStream d) (tail b) in
      let '(a, d2) := f d1 in (Ok a, d2)
  end.

Definition set_userData (d : SyncDb) (m : gmap (string * string) (Z * string)) : SyncDb :=
  mkSyncDb m (receiptDataStream d) (faults d).
Definition set_streamData (d : SyncDb) (m : gmap Z (Z * string * string)) : SyncDb :=
  mkSyncDb (userReceiptData d) m (faults d).

Definition UpsertUserReceiptData (roomID userID content : string) (evtOffset : Z) : ST SyncDb unit :=
  exec (fun d => ((), set_userData d (<[(userID, roomID) := (evtOffset, content)]> (userReceiptData d)))).

(** No row leaves the offset 0 and a nil content. *)
Definition GetUserHistoryReceiptData (roomID userID : string) : ST SyncDb (Z * option string) :=
  exec (fun d => (match userReceiptData d !! (userID, roomID) with
                  | Some (off, content) => (off, Some content)
                  | None => (0, None)
                  end, d)).

(** [deleteLatestReceiptDataStreamSQL] (its error is dropped), then the insertion with
    [ON CONFLICT DO NOTHING]. *)
Definition deleteOlder (roomID : string) (evtOffset : Z) : ST SyncDb unit :=
  exec (fun d => ((), set_streamData d (filter (fun kv : Z * (Z * string * string) =>
    ~ (kv.2.1.2 = roomID /\ kv.2.1.1 < evtOffset)) (receiptDataStream d)))).

Definition insertStream (id evtOffset : Z) (roomID content : string) : ST SyncDb unit :=
  exec (fun d => ((), match receiptDataStream d !! id with
                      | Some _ => d
                      | None => set_streamData d (<[id := (evtOffset, roomID, content)]> (receiptDataStream d))
                      end)).

Definition UpsertReceiptDataStream (id evtOffset : Z) (roomID content : string) : ST SyncDb unit := fun d =>
  match deleteOlder roomID evtOffset d with
  | (Panic, d1) => (Panic, d1)
  | (Diverge, d1) => (Diverge, d1)
  | (_, d1) => insertStream id evtOffset roomID content d1
  end.

Record ReceiptStream := mkReceiptStream { srRoomID : string; srContent : string; ReceiptOffset : Z }.

Definition rowKey_leb (a b : Z * ReceiptStream) : bool := a.1 <=? b.1.

(** The rows of a room, [ORDER BY id ASC]. *)
Definition streamRows (d : SyncDb) (roomID : string) : list (Z * ReceiptStream) :=
  gosort rowKey_leb (map (fun kv => (kv.1, mkReceiptStream kv.2.1.2 kv.2.2 kv.2.1.1))
    (List.filter (fun kv : Z * (Z * string * string) => String.eqb kv.2.1.2 roomID) (map_to_list (receiptDataStream d)))).

Definition GetHistoryReceiptDataStream (roomID : string) : ST SyncDb (list (Z * ReceiptStream)) :=
  exec (fun d => (streamRows d roomID, d)).

(** [max(id)] by room. *)
Definition GetRoomReceiptLastOffsets (rooms : list string) : ST SyncDb (gmap string Z) :=
  exec (fun d => (fold_left (fun m r => match last (streamRows d r) with Some row => <[r := row.1]> m | None => m end) rooms ∅, d)).

(** ** The two repositories *)

Record UserReceipt := mkUserReceipt {
  urUserID : string;
  urRoomID : string;
  EvtOffset : Z;
  urContent : option string;
  urWritten : bool;
}.

(** [feedstypes.ReceiptDataStream]. *)
Record ReceiptData := mkReceiptData { rdOffset : Z; DataStream : ReceiptStream; rdWritten : bool }.

#[export] Instance ReceiptData_feed : Feed ReceiptData := rdOffset.

Record ReceiptStreamContent := mkStreamContent { CurrentOffset : Z; Content : TimeLines ReceiptData }.

(** The joined members of a room in the order of a range, and loading the state of a
    room. *)
Class RoomMembers (M : Type) := {
  joined : M -> string -> option (list string);
  LoadStreamStates : string -> M -> M;
}.

Section Repos.
  Context {M : Type} `{RoomMembers M} `{GoRange}.

Record Repos := mkRepos {
  receipt : gmap string UserReceipt;
  urUpdated : gmap string bool;
  urGate : Gate;
  container : gmap string ReceiptStreamContent;
  rsGate : Gate;
  userMaxStream : gmap string Z;
  rsLatest : gmap string Z;
  updatedRoom : gmap string bool;
  rsTlSize : nat;
  db : SyncDb;
  members : M;
}.

Definition set_receipt (s : Repos) (r : gmap string UserReceipt) (u : gmap string bool) : Repos :=
  mkRepos r u (urGate s) (container s) (rsGate s) (userMaxStream s) (rsLatest s) (updatedRoom s) (rsTlSize s) (db s) (members s).
Definition set_urGate (s : Repos) (g : Gate) : Repos :=
  mkRepos (receipt s) (urUpdated s) g (container s) (rsGate s) (userMaxStream s) (rsLatest s) (updatedRoom s) (rsTlSize s) (db s) (members s).
Definition set_container (s : Repos) (c : gmap string ReceiptStreamContent) : Repos :=
  mkRepos (receipt s) (urUpdated s) (urGate s) c (rsGate s) (userMaxStream s) (rsLatest s) (updatedRoom s) (rsTlSize s) (db s) (members s).
Definition set_rsGate (s : Repos) (g : Gate) : Repos :=
  mkRepos (receipt s) (urUpdated s) (urGate s) (container s) g (userMaxStream s) (rsLatest s) (updatedRoom s) (rsTlSize s) (db s) (members s).
Definition set_userMax (s : Repos) (u : gmap string Z) : Repos :=
  mkRepos (receipt s) (urUpdated s) (urGate s) (container s) (rsGate s) u (rsLatest s) (updatedRoom s) (rsTlSize s) (db s) (members s).
Definition set_rsLatest (s : Repos) (l : gmap string Z) : Repos :=
  mkRepos (receipt s) (urUpdated s) (urGate s) (container s) (rsGate s) (userMaxStream s) l (updatedRoom s) (rsTlSize s) (db s) (members s).
Definition set_updatedRoom (s : Repos) (u : gmap string bool) : Repos :=
  mkRepos (receipt s) (urUpdated s) (urGate s) (container s) (rsGate s) (userMaxStream s) (rsLatest s) u (rsTlSize s) (db s) (members s).
Definition set_db (s : Repos) (d : SyncDb) : Repos :=
  mkRepos (receipt s) (urUpdated s) (urGate s) (container s) (rsGate s) (userMaxStream s) (rsLatest s) (updatedRoom s) (rsTlSize s) d (members s).
Definition set_members (s : Repos) (m : M) : Repos :=
  mkRepos (receipt s) (urUpdated s) (urGate s) (container s) (rsGate s) (userMaxStream s) (rsLatest s) (updatedRoom s) (rsTlSize s) (db s) m.

Definition emptyGate : Gate := mkGate ∅ ∅ [] [].

(** A process that starts on a database. *)
Definition NewRepos (tlSize : nat) (d : SyncDb) (m : M) : Repos :=
  mkRepos ∅ ∅ emptyGate ∅ emptyGate ∅ ∅ ∅ tlSize d m.

Definition onSql {A} (m : ST SyncDb A) : ST Repos A := fun s =>
  let '(r, d) := m (db s) in (r, set_db s d).

(** *** The last receipt of a user *)

Definition receiptKey (roomID userID : string) : string := roomID ++ ":" ++ userID.

Definition AddUserReceipt (r : UserReceipt) (s : Repos) : Repos :=
  let key := receiptKey (urRoomID r) (urUserID r) in
  set_receipt s (<[key := r]> (receipt s)) (<[key := true]> (urUpdated s)).

(** [loadHistory]. *)
Definition user_load (userID roomID : string) : ST Repos unit :=
  row ← onSql (GetUserHistoryReceiptData roomID userID);
  ((fun s => (Ok (), set_receipt s (<[receiptKey roomID userID := mkUserReceipt userID roomID row.1 row.2 true]> (receipt s)) (urUpdated s)))
    : ST Repos unit).

(** The gate of the key of one user and room. *)
Definition user_loads (userID roomID : string) : Loads Repos := {|
  gate := urGate;
  set_gate := set_urGate;
  body _ := user_load userID roomID;
  stale _ := mret false;
|}.

Definition LoadUserHistory (userID roomID : string) (sync : bool) : ST Repos unit :=
  @LoadHistory Repos (user_loads userID roomID) (receiptKey roomID userID) sync.

(** The common part of [GetLatestOffset] and [GetLatestReceipt]. *)
Definition latestReceipt (userID roomID : string) : ST Repos (option UserReceipt) := fun s =>
  (_ ← (if decide (receiptKey roomID userID ∈ ready (urGate s)) then mret () else LoadUserHistory userID roomID true);
   ((fun s1 => (Ok (receipt s1 !! receiptKey roomID userID), s1)) : ST Repos (option UserReceipt))) s.

Definition GetLatestOffset (userID roomID : string) : ST Repos Z :=
  r ← latestReceipt userID roomID;
  mret (match r with Some u => EvtOffset u | None => 0 end).

Definition GetLatestReceipt (userID roomID : string) : ST Repos (option string) :=
  r ← latestReceipt userID roomID;
  mret (match r with Some u => urContent u | None => None end).

(** [flushToDB] logs an error. *)
Definition flushToDB (r : UserReceipt) : ST Repos unit := fun s =>
  match onSql (UpsertUserReceiptData (urRoomID r) (urUserID r) (default "" (urContent r)) (EvtOffset r)) s with
  | (Panic, s1) => (Panic, s1)
  | (Diverge, s1) => (Diverge, s1)
  | (_, s1) => (Ok (), s1)
  end.

Definition markUser (key : string) (r : UserReceipt) (s : Repos) : Repos :=
  set_receipt s (<[key := mkUserReceipt (urUserID r) (urRoomID r) (EvtOffset r) (urContent r) true]> (receipt s)) (urUpdated s).

Definition flushUser (key : string) : ST Repos unit := fun s =>
  let s1 := set_receipt s (receipt s) (delete key (urUpdated s)) in
  match receipt s1 !! key with
  | Some r => if urWritten r then (Ok (), s1) else flushToDB r (markUser key r s1)
  | None => (Ok (), s1)
  end.

Fixpoint flushUsers (keys : list string) : ST Repos unit :=
  match keys with
  | [] => mret ()
  | key :: rest => _ ← flushUser key; flushUsers rest
  end.

(** [UserReceiptRepo.flush]. *)
Definition flushUserReceipts : ST Repos unit := fun s => flushUsers (map fst (range (urUpdated s))) s.

(** *** The stream of a room *)

Definition raise (m : gmap string Z) (key : string) (offset : Z) : gmap string Z :=
  match m !! key with
  | Some v => if v <? offset then <[key := offset]> m else m
  | None => <[key := offset]> m
  end.

Definition setReceiptLatest (roomID : string) (offset : Z) (s : Repos) : Repos := set_rsLatest s (raise (rsLatest s) roomID offset).
Definition setUserLatest (userID : string) (offset : Z) (s : Repos) : Repos := set_userMax s (raise (userMaxStream s) userID offset).

Definition setUsersLatest (users : list string) (offset : Z) (s : Repos) : Repos :=
  fold_left (fun s u => setUserLatest u offset s) users s.

Definition setJoinUsersLatest (roomID : string) (offset : Z) (s : Repos) : Repos :=
  match joined (members s) roomID with
  | Some users => setUsersLatest users offset s
  | None =>
      let s1 := set_members s (LoadStreamStates roomID (members s)) in
      match joined (members s1) roomID with
      | Some users => setUsersLatest users offset s1
      | None => s1
      end
  end.

Definition addReceiptDataStream (dataStream : ReceiptStream) (offset : Z) (loaded : bool) : ST Repos unit := fun s =>
  let roomID := srRoomID dataStream in
  let eventOffset := ReceiptOffset dataStream in
  let fresh := mkStreamContent eventOffset (NewEvTimeLines (rsTlSize s) false) in
  let item := default fresh (container s !! roomID) in
  let item1 := if CurrentOffset item =? eventOffset then item else fresh in
  match Add (Content item1) (Some (mkReceiptData offset dataStream loaded)) with
  | Ok (tl, _) =>
      let s1 := set_container s (<[roomID := mkStreamContent (CurrentOffset item1) tl]> (container s)) in
      let s2 := setJoinUsersLatest roomID offset s1 in
      let s3 := if loaded then s2 else set_updatedRoom s2 (<[roomID := true]> (updatedRoom s2)) in
      (Ok (), setReceiptLatest roomID offset s3)
  | Err e => (Err e, s)
  | Panic => (Panic, s)
  | Diverge => (Diverge, s)
  end.

Fixpoint addRows (rows : list (Z * ReceiptStream)) : ST Repos unit :=
  match rows with
  | [] => mret ()
  | (id, stream) :: rest => _ ← addReceiptDataStream stream id true; addRows rest
  end.

(** [loadHistory]. *)
Definition stream_load (roomID : string) : ST Repos unit :=
  rows ← onSql (GetHistoryReceiptDataStream roomID);
  addRows rows.

#[local] Instance stream_loads : Loads Repos := {
  gate := rsGate;
  set_gate := set_rsGate;
  body := stream_load;
  stale _ := mret false;
}.

Definition LoadStreamHistory (roomID : string) (sync : bool) : ST Repos unit := LoadHistory roomID sync.

Definition AddReceiptDataStream (dataStream : ReceiptStream) (offset : Z) : ST Repos unit :=
  _ ← LoadStreamHistory (srRoomID dataStream) true;
  addReceiptDataStream dataStream offset false.

Definition GetReceiptHistory (roomID : string) : ST Repos (option (TimeLines ReceiptData)) := fun s =>
  (_ ← (if decide (roomID ∈ ready (rsGate s)) then mret () else LoadStreamHistory roomID true);
   ((fun s1 => (Ok (Content <$> container s1 !! roomID), s1)) : ST Repos (option (TimeLines ReceiptData)))) s.

Definition GetReceiptLastOffset (s : Repos) (roomID : string) : Z := default 0 (rsLatest s !! roomID).

(** [LoadRoomLatest]: an error is logged, and leaves [roomMap] nil. *)
Definition LoadReceiptLatest (rooms : list string) : ST Repos unit := fun s =>
  let loadRooms := List.filter (fun r => match rsLatest s !! r with Some _ => false | None => true end) rooms in
  if (length loadRooms =? 0)%nat then (Ok (), s)
  else
    let '(r, s1) := onSql (GetRoomReceiptLastOffsets loadRooms) s in
    let roomMap := match r with Ok m => m | _ => ∅ end in
    let s2 := fold_left (fun s kv => setReceiptLatest kv.1 kv.2 s) (range roomMap) s1 in
    (Ok (), fold_left (fun s r => match roomMap !! r with Some _ => s | None => setReceiptLatest r 0 s end) loadRooms s2).

Definition ExistsReceipt (position : Z) (userID : string) (s : Repos) : bool * Repos :=
  match userMaxStream s !! userID with
  | Some maxStream => (position <? maxStream, s)
  | None => (true, setUserLatest userID position s)
  end.

Definition GetUserLatestOffset (s : Repos) (userID : string) : Z := default 0 (userMaxStream s !! userID).

(** The loop of [flush] over the items of a room: slot by slot. *)
Fixpoint flushFeeds (slots : list nat) (tl : TimeLines ReceiptData) : ST SyncDb (TimeLines ReceiptData) :=
  match slots with
  | [] => mret tl
  | i :: rest => fun d =>
      match getFeed tl i with
      | Ok (Some stream) =>
          if rdWritten stream then flushFeeds rest tl d
          else
            let ds := DataStream stream in
            match UpsertReceiptDataStream (rdOffset stream) (ReceiptOffset ds) (srRoomID ds) (srContent ds) d with
            | (Ok _, d1) =>
                match putFeed tl i (Some (mkReceiptData (rdOffset stream) ds true)) with
                | Ok tl1 => flushFeeds rest tl1 d1
                | _ => (Panic, d1)
                end
            | (Err _, d1) => flushFeeds rest tl d1
            | (Panic, d1) => (Panic, d1)
            | (Diverge, d1) => (Diverge, d1)
            end
      | Ok None => flushFeeds rest tl d
      | _ => (Panic, d)
      end
  end.

Definition flushRoom (roomID : string) : ST Repos unit := fun s =>
  let s1 := set_updatedRoom s (delete roomID (updatedRoom s)) in
  match container s1 !! roomID with
  | None => (Ok (), s1)
  | Some item =>
      let '(start, end_) := GetRange (Content item) in
      let '(r, d) := flushFeeds (seq start (end_ - start)) (Content item) (db s1) in
      let s2 := set_db s1 d in
      match r with
      | Ok tl => (Ok (), set_container s2 (<[roomID := mkStreamContent (CurrentOffset item) tl]> (container s2)))
      | Err e => (Err e, s2)
      | Panic => (Panic, s2)
      | Diverge => (Diverge, s2)
      end
  end.

Fixpoint flushRooms (rooms : list string) : ST Repos unit :=
  match rooms with
  | [] => mret ()
  | r :: rest => _ ← flushRoom r; flushRooms rest
  end.

(** [ReceiptDataStreamRepo.flush]. *)
Definition flushStreams : ST Repos unit := fun s => flushRooms (map fst (range (updatedRoom s))) s.

End Repos.
Arguments Repos M : clear implicits.

End Receipts.
