(* ===== verification/ReceiptConsumer.v ===== *)
(** * Collecting receipts and answering syncs

    [src/syncserver/consumers/receipt.go] ([OnReceipt], [fireReceipt]) and [addReceipt]
    of [src/syncserver/consumers/syncServer.go], on the repositories of [Receipts], the
    room histories of [SyncHistory] and the unread counts of [Push].

    The JSON of a receipt event is the class [ReceiptJson]: the event that was read and
    the users with their times.  The wall clock is an argument; the identifiers of
    stream items come from the generator of [Snowflake]. *)

From Stdlib Require Import String ZArith List Lia.
From stdpp Require Import base tactics list gmap strings.
From S2P Require Import Prelude Snowflake Timeline TimelineRepo Loader SyncHistory Ids Push Receipts.

#[local] Open Scope string_scope.
#[local] Open Scope Z_scope.

Module ReceiptConsumer.
Import Timeline Loader SyncHistory Receipts.

(** [types.ReceiptContent]. *)
Record ReceiptContent := mkReceiptContent {
  rcUserID : string;
  rcDeviceID : string;
  rcRoomID : string;
  ReceiptType : string;
  rcEventID : string;
  rcSource : string;
}.

Definition set_rcEventID (r : ReceiptContent) (id : string) : ReceiptContent :=
  mkReceiptContent (rcUserID r) (rcDeviceID r) (rcRoomID r) (ReceiptType r) id (rcSource r).

(** [pushapi.RoomReceipt]: the times of the users. *)
Record RoomReceipt := mkRoomReceipt { rrRoomID : string; EvID : string; EvOffSet : Z; rrContent : gmap string Z }.

Inductive Message :=
  | ReceiptEdu (origin destination : string) (content : ReceiptContent)
  | ReceiptUpdate (roomID : string) (offset : Z) (users : list string).

(** The JSON of a receipt event: event to users to times.  [decodes] tells that the
    text is that of an event, whatever its content. *)
Class ReceiptJson := {
  marshalReceipt : string -> gmap string Z -> res string;
  decodes : string -> bool;
  unmarshalReceipt : string -> res (gmap string (gmap string Z));
}.

Section Consumer.
  Context {M : Type} `{RoomMembers M} `{GoRange} {D : Type} `{HistoryDb D} `{ReceiptJson}.
  Context (dm : option (Ids.DomainMng * Ids.DomainSrc)) (ServerName : list string).

Record Consumer := mkConsumer {
  rooms : gmap string RoomReceipt;
  notifyRoom : gmap string bool;
  counts : Push.ReadCountRepo;
  history : RoomHistory D;
  repos : Repos M;
  idg : Snowflake.UidGenerator;
  idClock : list Z;
  published : list Message;
}.

Definition set_rooms (c : Consumer) (r : gmap string RoomReceipt) : Consumer :=
  mkConsumer r (notifyRoom c) (counts c) (history c) (repos c) (idg c) (idClock c) (published c).
Definition set_notify (c : Consumer) (n : gmap string bool) : Consumer :=
  mkConsumer (rooms c) n (counts c) (history c) (repos c) (idg c) (idClock c) (published c).
Definition set_counts (c : Consumer) (n : Push.ReadCountRepo) : Consumer :=
  mkConsumer (rooms c) (notifyRoom c) n (history c) (repos c) (idg c) (idClock c) (published c).
Definition set_history (c : Consumer) (h : RoomHistory D) : Consumer :=
  mkConsumer (rooms c) (notifyRoom c) (counts c) h (repos c) (idg c) (idClock c) (published c).
Definition set_repos (c : Consumer) (r : Repos M) : Consumer :=
  mkConsumer (rooms c) (notifyRoom c) (counts c) (history c) r (idg c) (idClock c) (published c).
Definition set_idg (c : Consumer) (g : Snowflake.UidGenerator) (clk : list Z) : Consumer :=
  mkConsumer (rooms c) (notifyRoom c) (counts c) (history c) (repos c) g clk (published c).
Definition publish (c : Consumer) (m : Message) : Consumer :=
  mkConsumer (rooms c) (notifyRoom c) (counts c) (history c) (repos c) (idg c) (idClock c) (published c ++ [m])%list.

Definition onHistory {A} (m : ST (RoomHistory D) A) : ST Consumer A := fun c =>
  let '(r, h) := m (history c) in (r, set_history c h).
Definition onRepos {A} (m : ST (Repos M) A) : ST Consumer A := fun c =>
  let '(r, s) := m (repos c) in (r, set_repos c s).

Definition GetJoinMap (c : Consumer) (roomID : string) : option (list string) := joined (members (repos c)) roomID.

Definition loadMembers (roomID : string) (c : Consumer) : Consumer :=
  match GetJoinMap c roomID with
  | Some _ => c
  | None => set_repos c (set_members (repos c) (LoadStreamStates roomID (members (repos c))))
  end.

(** ** Receiving *)

(** The receipt of the user is noted for the room. *)
Definition note (req : ReceiptContent) (now : Z) (r : RoomReceipt) (c : Consumer) : Consumer :=
  set_notify (set_rooms c (<[rcRoomID req := mkRoomReceipt (rrRoomID r) (EvID r) (EvOffSet r)
                             (<[rcUserID req := now * 1000]> (rrContent r))]> (rooms c)))
             (<[rcRoomID req := true]> (notifyRoom c)).

(** The part of [OnReceipt] for the current event of the room; false when the user has
    read it already and has no unread messages, which ends [OnReceipt]. *)
Definition mark (req : ReceiptContent) (receiptOffSet now : Z) (c : Consumer) : Consumer * bool :=
  let roomID := rcRoomID req in
  let receipt := default (mkRoomReceipt roomID (rcEventID req) receiptOffSet ∅) (rooms c !! roomID) in
  let c0 := set_rooms c (<[roomID := receipt]> (rooms c)) in
  if String.eqb (EvID receipt) (rcEventID req) then
    match rrContent receipt !! rcUserID req with
    | Some _ =>
        let '((readCount, hlCount), n) := Push.GetRoomReadCount (counts c0) roomID (rcUserID req) in
        let c1 := set_counts c0 n in
        if (readCount =? 0) && (hlCount =? 0) then (c1, false) else (note req now receipt c1, true)
    | None => (note req now receipt c0, true)
    end
  else (note req now (mkRoomReceipt (rrRoomID receipt) (rcEventID req) receiptOffSet ∅) c0, true).

(** The receipt goes to the servers of the other members. *)
Definition federate (req : ReceiptContent) (c : Consumer) : Consumer :=
  match GetJoinMap c (rcRoomID req) with
  | None => c
  | Some users =>
      let domainMap := fold_left (fun m u =>
        let domain := Ids.domainOrEmpty u in
        if Ids.CheckValidDomain dm domain ServerName then m else <[domain := true]> m) users (∅ : gmap string bool) in
      let senderDomain := Ids.domainOrEmpty (rcUserID req) in
      if Ids.CheckValidDomain dm senderDomain ServerName then
        fold_left (fun c kv => publish c (ReceiptEdu senderDomain kv.1 req)) (range domainMap) c
      else c
  end.

Definition OnReceipt (req : ReceiptContent) (now : Z) : ST Consumer unit := fun c =>
  let c := loadMembers (rcRoomID req) c in
  match GetJoinMap c (rcRoomID req) with
  | None => (Ok (), c)
  | Some users =>
      if negb (existsb (String.eqb (rcUserID req)) users) then (Ok (), c)
      else
        (last ← onHistory (GetLastMessageEvent (rcRoomID req));
         let lastEventID := match last.1 with Some s => ceEventID (seEv s) | None => "" end in
         let req := if String.eqb (rcEventID req) "" then set_rcEventID req lastEventID else req in
         if String.eqb (rcEventID req) "" then mret ()
         else
           stream ← onHistory (GetStreamEv (rcRoomID req) (rcEventID req));
           let receiptOffSet := match stream with Some s => seOffset s | None => -1 end in
           if String.eqb lastEventID (rcEventID req) || String.eqb lastEventID "" then
             ((fun c =>
                let '(c1, go) := mark req receiptOffSet now c in
                if (go : bool) then
                  (Ok (), federate req (set_counts c1 (Push.UpdateRoomReadCount (counts c1) (rcRoomID req) (rcUserID req) Push.Reset)))
                else (Ok (), c1)) : ST Consumer unit)
           else mret ()) c
  end.

(** ** Firing *)

Definition pubReceiptUpdate (roomID : string) (offset : Z) (c : Consumer) : Consumer :=
  match GetJoinMap c roomID with
  | Some users => publish c (ReceiptUpdate roomID offset users)
  | None => c
  end.

(** The receipts of the users of one event. *)
Definition addUserReceipts (roomID evtID : string) (evOffset : Z) (users : gmap string Z) (s : Repos M) : Repos M :=
  fold_left (fun s kv =>
    let json := match marshalReceipt evtID {[ kv.1 := kv.2 ]} with Ok j => Some j | _ => None end in
    AddUserReceipt (mkUserReceipt kv.1 roomID evOffset json false) s) (range users) s.

Definition flushReceiptUpdate (roomID content : string) (evOffset offset : Z) : ST Consumer unit := fun c =>
  match unmarshalReceipt content with
  | Ok m =>
      let c1 := set_repos c (fold_left (fun s kv => addUserReceipts roomID kv.1 evOffset kv.2 s) (range m) (repos c)) in
      (_ ← onRepos (AddReceiptDataStream (mkReceiptStream roomID content evOffset) offset);
       ((fun c => (Ok (), pubReceiptUpdate roomID offset c)) : ST Consumer unit)) c1
  | Err _ => (Ok (), c)
  | Panic => (Panic, c)
  | Diverge => (Diverge, c)
  end.

Definition fireRoomReceipt (roomID : string) : ST Consumer unit := fun c =>
  match rooms c !! roomID with
  | None => (Panic, c)
  | Some receipt =>
      let c1 := set_rooms c (<[roomID := mkRoomReceipt (rrRoomID receipt) (EvID receipt) (EvOffSet receipt) ∅]> (rooms c)) in
      match marshalReceipt (EvID receipt) (rrContent receipt) with
      | Ok eventJson =>
          match Snowflake.Next (idg c1) (idClock c1) with
          | Some (offset, g, clk) => flushReceiptUpdate roomID eventJson (EvOffSet receipt) offset (set_idg c1 g clk)
          | None => (Diverge, c1)
          end
      | Err _ => (Ok (), c1)
      | Panic => (Panic, c1)
      | Diverge => (Diverge, c1)
      end
  end.

Fixpoint fireRooms (ids : list string) : ST Consumer unit :=
  match ids with
  | [] => mret ()
  | roomID :: rest =>
      _ ← (fun c => fireRoomReceipt roomID (set_notify c (delete roomID (notifyRoom c))));
      fireRooms rest
  end.

Definition fireReceipt : ST Consumer unit := fun c => fireRooms (map fst (range (notifyRoom c))) c.

(** ** Syncing *)

Record SyncRequest := mkSyncRequest {
  sqUserID : string;
  JoinedRooms : list string;
  sqReceiptOffset : Z;
  IsFullSync : bool;
}.

(** The ephemeral events of the joined rooms, and the position reached. *)
Record SyncResponse := mkSyncResponse { Ephemeral : gmap string (list string); MaxReceiptOffset : Z }.

Definition addEphemeral (roomID content : string) (e : gmap string (list string)) : gmap string (list string) :=
  <[roomID := (default [] (e !! roomID) ++ [content])%list]> e.

(** The items between the position of the client and [maxPos]. *)
Definition addFeeds (roomID : string) (from maxPos : Z) (feeds : list ReceiptData) (acc : gmap string (list string) * Z) :
    gmap string (list string) * Z :=
  fold_left (fun acc stream =>
    if (from <? rdOffset stream) && (rdOffset stream <=? maxPos) then
      if decodes (srContent (DataStream stream)) then
        (addEphemeral roomID (srContent (DataStream stream)) acc.1, Z.max (rdOffset stream) acc.2)
      else acc
    else acc) feeds acc.

(** The receipt of the user on a full sync. *)
Definition addSelf (req : SyncRequest) (roomID : string) (lastOffset : Z) (e : gmap string (list string)) :
    ST (Repos M) (gmap string (list string) * bool) :=
  if IsFullSync req then
    uOffset ← GetLatestOffset (sqUserID req) roomID;
    if (uOffset <? lastOffset) && (sqReceiptOffset req <? uOffset) then
      selfReceipt ← GetLatestReceipt (sqUserID req) roomID;
      mret (match selfReceipt with
            | Some content => if decodes content then (addEphemeral roomID content e, true) else (e, false)
            | None => (e, true)
            end)
    else mret (e, true)
  else mret (e, true).

Definition addRoom (req : SyncRequest) (maxPos : Z) (roomID : string) (acc : gmap string (list string) * Z) :
    ST (Repos M) (gmap string (list string) * Z) := fun s =>
  if GetReceiptLastOffset s roomID <=? sqReceiptOffset req then (Ok acc, s)
  else
    (rdsTimeLine ← GetReceiptHistory roomID;
     match rdsTimeLine with
     | None => mret acc
     | Some tl =>
         if sqReceiptOffset req <? (GetFeedRange tl).2 then
           ((fun s =>
              (self ← addSelf req roomID (GetReceiptLastOffset s roomID) acc.1;
               if (self.2 : bool) then
                 feeds ← liftR (ForRange tl (fun l _ feed => (l ++ option_list feed, true)%list) []);
                 mret (addFeeds roomID (sqReceiptOffset req) maxPos feeds (self.1, acc.2))
               else mret (self.1, acc.2)) s) : ST (Repos M) (gmap string (list string) * Z))
         else mret acc
     end) s.

Fixpoint addRooms (req : SyncRequest) (maxPos : Z) (ids : list string) (acc : gmap string (list string) * Z) :
    ST (Repos M) (gmap string (list string) * Z) :=
  match ids with
  | [] => mret acc
  | roomID :: rest => acc1 ← addRoom req maxPos roomID acc; addRooms req maxPos rest acc1
  end.

Definition addReceipt (req : SyncRequest) (maxPos : Z) (response : SyncResponse) : ST (Repos M) SyncResponse := fun s =>
  let '(exists_, s1) := ExistsReceipt (sqReceiptOffset req) (sqUserID req) s in
  if negb exists_ then (Ok (mkSyncResponse (Ephemeral response) (sqReceiptOffset req)), s1)
  else
    (acc ← addRooms req maxPos (JoinedRooms req) (Ephemeral response, -1);
     mret (mkSyncResponse acc.1 (if acc.2 =? -1 then sqReceiptOffset req else acc.2))) s1.

End Consumer.
Arguments Consumer M D : clear implicits.

End ReceiptConsumer.
