(* ===== verification/ReceiptFacts.v ===== *)
(** * Read receipts: what is kept

    - [receipts_survive_restart]: the stream of a room after any additions and flushes
      is the receipts of its last event, and so it is after a restart, when the last
      receipts of its users are read back too.
    - [unloaded_receipt_lost], [failed_flush_not_retried]: receipts that never reach
      the table. *)

From Stdlib Require Import String ZArith List Lia Sorted Permutation.
From stdpp Require Import base tactics list gmap strings.
From S2P Require Import Prelude Timeline TimelineRepo Loader RoomRows Receipts.

#[local] Open Scope string_scope.
#[local] Open Scope Z_scope.

Module ReceiptFacts.
Import Timeline Loader Receipts.

#[local] Existing Instance Receipts.stream_loads.

(** ** The receipts of the last event *)

Abbreviation Item := (Z * ReceiptStream)%type.

Definition evt (it : Item) : Z := ReceiptOffset it.2.

Definition current (its : list Item) : list Item :=
  match last its with Some x => List.filter (fun it => evt it =? evt x) its | None => [] end.

(** Ascending identifiers, and event offsets that do not fall. *)
Definition before (a b : Item) : Prop := a.1 < b.1 /\ evt a <= evt b.

Definition orderly (room : string) (its : list Item) : Prop :=
  StronglySorted before its /\ Forall (fun it => 0 < it.1 /\ srRoomID it.2 = room) its.

Lemma before_last its x y : StronglySorted before (its ++ [x]) -> y ∈ its -> before y x.
Proof.
  induction its as [|a its IH]; cbn; intros Hs Hy; [by apply elem_of_nil in Hy|]. apply StronglySorted_inv in Hs as [Hs Ha].
  apply elem_of_cons in Hy as [->|Hy]; [|by apply IH]. rewrite Forall_forall in Ha. apply Ha, elem_of_app. right. by left.
Qed.

Lemma sorted_prefix {A} (R : A -> A -> Prop) l1 l2 : StronglySorted R (l1 ++ l2) -> StronglySorted R l1.
Proof.
  induction l1 as [|a l1 IH]; cbn; [constructor|]. intros [Hs Ha]%StronglySorted_inv. constructor; [by apply IH|].
  by apply Forall_app in Ha as [? _].
Qed.

Lemma sorted_impl {A} (R Q : A -> A -> Prop) l : (forall a b, R a b -> Q a b) -> StronglySorted R l -> StronglySorted Q l.
Proof. intros Himp. induction 1 as [|a l _ IH Ha]; constructor; [done|]. eapply Forall_impl; [exact Ha|auto]. Qed.

Lemma orderly_prefix room l1 l2 : orderly room (l1 ++ l2) -> orderly room l1.
Proof. intros [Hs Hf]. split; [by eapply sorted_prefix|]. by apply Forall_app in Hf as [? _]. Qed.

Lemma filter_all {A} (p : A -> bool) l : Forall (fun x => p x = true) l -> List.filter p l = l.
Proof. induction 1 as [|x l Hx _ IH]; [done|]. cbn. by rewrite Hx, IH. Qed.

Lemma filter_none {A} (p : A -> bool) l : Forall (fun x => p x = false) l -> List.filter p l = [].
Proof. induction 1 as [|x l Hx _ IH]; [done|]. cbn. by rewrite Hx. Qed.

(** An item of the same event is added, one of a later event starts again. *)
Lemma current_snoc room its x : orderly room (its ++ [x]) ->
  current (its ++ [x]) = ((match last its with Some y => if (evt y =? evt x)%Z then current its else [] | None => [] end) ++ [x])%list.
Proof.
  intros [Hs _]. unfold current. rewrite last_snoc, List.filter_app. cbn. rewrite Z.eqb_refl. f_equal.
  destruct (last its) as [y|] eqn:Hy; [|by apply last_None in Hy as ->].
  destruct (Z.eqb_spec (evt y) (evt x)) as [->|Hne]; [done|]. apply filter_none, Forall_forall. intros z Hz. apply Z.eqb_neq.
  apply last_Some in Hy as (its0 & ->). pose proof (before_last _ _ y Hs) as [_ Hyx]; [apply elem_of_app; right; by left|].
  apply sorted_prefix in Hs. apply elem_of_app in Hz as [Hz|Hz%list_elem_of_singleton]; [|by subst].
  pose proof (before_last _ _ z Hs Hz) as [_ Hzy]. lia.
Qed.

(** ** Adding to a stream *)

Section Streams.
  Context {M : Type} `{RoomMembers M} `{GoRange}.
  Implicit Types (s : Repos M).

Definition itemOf (f : ReceiptData) : Item := (rdOffset f, DataStream f).

(** The room shows the items [l] of the last event of [its]. *)
Definition streamShows s room (its : list Item) (l : list ReceiptData) : Prop :=
  match last its with
  | Some x => exists tl, container s !! room = Some (mkStreamContent (evt x) tl) /\ Inv tl l /\ limit tl = false /\
                map itemOf l = current its
  | None => container s !! room = None /\ l = []
  end.

Lemma setUsersLatest_same users off s : exists u, setUsersLatest users off s = set_userMax s u.
Proof using.
  revert s. induction users as [|v users IH]; intros s; [exists (userMaxStream s); by destruct s|].
  cbn. destruct (IH (setUserLatest v off s)) as (u & E). unfold setUsersLatest in E. rewrite E. by exists u.
Qed.

Lemma setJoin_same room off s : exists u m, setJoinUsersLatest room off s = set_members (set_userMax s u) m.
Proof using.
  unfold setJoinUsersLatest. destruct (joined (members s) room).
  - destruct (setUsersLatest_same l off s) as (u & ->). exists u, (members s). by destruct s.
  - set (s1 := set_members s _). destruct (joined (members s1) room).
    + destruct (setUsersLatest_same l off s1) as (u & ->). eexists u, _. reflexivity.
    + exists (userMaxStream s). eexists. by destruct s.
Qed.

(** The old items that stay when [x] arrives. *)
Definition kept (its : list Item) (x : Item) (l : list ReceiptData) : list ReceiptData :=
  match last its with Some y => if evt y =? evt x then l else [] | None => [] end.

Lemma addStream_shows s room its l x (w : bool) : streamShows s room its l -> orderly room (its ++ [x]) -> (0 < rsTlSize s)%nat ->
  exists s', addReceiptDataStream x.2 x.1 w s = (Ok (), s') /\
    streamShows s' room (its ++ [x]) (kept its x l ++ [mkReceiptData x.1 x.2 w]) /\
    db s' = db s /\ rsGate s' = rsGate s /\ rsTlSize s' = rsTlSize s /\
    updatedRoom s' = (if w then updatedRoom s else <[room := true]> (updatedRoom s)) /\
    (forall r, r <> room -> container s' !! r = container s !! r).
Proof using.
  intros Hshow Hord Hsz. pose proof Hord as [_ Hf]. apply Forall_app in Hf as [_ [Hx _]%Forall_cons]. destruct Hx as [Hpos Hroom].
  destruct x as [id ds]. cbn [fst snd] in *. set (x := (id, ds) : Item). set (f := mkReceiptData id ds w).
  unfold addReceiptDataStream. cbv zeta. rewrite Hroom. fold f.
  set (fresh := mkStreamContent (ReceiptOffset ds) (NewEvTimeLines (rsTlSize s) false)).
  set (item := default fresh (container s !! room)). set (item1 := if CurrentOffset item =? ReceiptOffset ds then item else fresh).
  assert (Hitem : CurrentOffset item1 = evt x /\ Inv (Content item1) (kept its x l) /\ limit (Content item1) = false /\
                  map itemOf (kept its x l) = match last its with Some y => if evt y =? evt x then current its else [] | None => [] end).
  { assert (Hfresh : Inv (Content fresh) []) by (apply New_Inv; done). unfold streamShows, kept in *.
    destruct (last its) as [y|] eqn:Ey.
    - destruct Hshow as (tl & Ec & Hi & Hlim & Hm). unfold item1, item. rewrite Ec. cbn [default Datatypes.id CurrentOffset].
      change (ReceiptOffset ds) with (evt x). destruct (Z.eqb_spec (evt y) (evt x)) as [Ee|Ee]; split_and!; try done.
    - destruct Hshow as [Ec ->]. unfold item1, item. rewrite Ec. cbn [default Datatypes.id CurrentOffset fresh]. rewrite Z.eqb_refl. done. }
  destruct Hitem as (Ecur & Hi & Hlim & Hmap). destruct (Add_Inv (Content item1) (kept its x l) f Hi Hpos) as (tl & l2 & -> & Hi2 & _ & Hlim2 & _ & Hw & _).
  rewrite Hw in Hi2 by auto. unfold window in Hi2. rewrite Hlim in Hi2. cbn [andb] in Hi2.
  set (s1 := set_container s _). destruct (setJoin_same room id s1) as (u & m & ->). eexists. split; [done|].
  set (s2 := setReceiptLatest room id _). assert (Ec2 : container s2 = container s1) by (unfold s2; by destruct w).
  split_and!; try (unfold s2; by destruct w).
  - unfold streamShows. rewrite last_snoc. exists tl. split_and!; [|done|congruence|].
    + rewrite Ec2. cbn [s1 set_container container]. rewrite lookup_insert_eq. by rewrite Ecur.
    + rewrite map_app, Hmap, (current_snoc room) by done. done.
  - intros r Hr. rewrite Ec2. cbn [s1 set_container container]. by apply lookup_insert_ne.
Qed.

(** ** Writing a stream *)

Definition marked (f : ReceiptData) : ReceiptData := mkReceiptData (rdOffset f) (DataStream f) true.

Definition rowOf (it : Item) : Z * string * string := (evt it, srRoomID it.2, srContent it.2).

(** The rows the table had at first, and the table of the receipts of users. *)
Context (base : gmap Z (Z * string * string)) (users : gmap (string * string) (Z * string)).

(** The table holds the items of the room that were written, nothing of the room but
    items that were added, and of other rooms only rows it had at first. *)
Record Written (d : SyncDb) (room : string) (its : list Item) (l : list ReceiptData) : Prop := {
  wr_faults : faults d = [];
  wr_written : forall f, f ∈ l -> rdWritten f = true -> receiptDataStream d !! rdOffset f = Some (rowOf (itemOf f));
  wr_new : forall f, f ∈ l -> rdWritten f = false -> receiptDataStream d !! rdOffset f = None;
  wr_rows : forall id e c, receiptDataStream d !! id = Some (e, room, c) -> (id, mkReceiptStream room c e) ∈ its;
  wr_other : forall id e r c, receiptDataStream d !! id = Some (e, r, c) -> r <> room -> base !! id = Some (e, r, c);
  wr_users : userReceiptData d = users;
}.

Lemma elem_item f l : f ∈ l -> itemOf f ∈ map itemOf l.
Proof using. intros Hf. by apply list_elem_of_fmap_2. Qed.

Lemma current_elem its it : it ∈ current its -> it ∈ its /\ exists x, last its = Some x /\ evt it = evt x.
Proof using.
  unfold current. destruct (last its) as [x|]; [|by intros ?%elem_of_nil]. rewrite list_elem_of_In.
  intros [Hin He%Z.eqb_eq]%filter_In. apply list_elem_of_In in Hin. eauto.
Qed.

Lemma orderly_inj room its a b : orderly room its -> a ∈ its -> b ∈ its -> a.1 = b.1 -> a = b.
Proof using.
  intros [Hs _]. induction its as [|c its IH]; intros Ha Hb E; [by apply elem_of_nil in Ha|]. apply StronglySorted_inv in Hs as [Hs Hc].
  rewrite Forall_forall in Hc. apply elem_of_cons in Ha as [->|Ha], Hb as [->|Hb]; [done| | |by apply IH].
  - apply Hc in Hb as [? _]. lia.
  - apply Hc in Ha as [? _]. lia.
Qed.

Lemma current_orderly room its : orderly room its -> orderly room (current its).
Proof using.
  intros [Hs Hf]. unfold current. destruct (last its) as [x|]; [|by split; constructor]. split.
  - clear Hf. induction Hs as [|a its Hs IH Ha]; cbn; [constructor|]. destruct (evt a =? evt x); [|done]. constructor; [done|].
    rewrite Forall_forall in Ha |- *. intros b [Hb _]%list_elem_of_In%filter_In. by apply Ha, list_elem_of_In.
  - rewrite Forall_forall in Hf |- *. intros b [Hb _]%list_elem_of_In%filter_In. by apply Hf, list_elem_of_In.
Qed.

Lemma orderly_nodup room its : orderly room its -> NoDup (map fst its).
Proof using.
  intros [Hs _]. induction Hs as [|a its Hs IH Ha]; cbn; [constructor|]. apply NoDup_cons. split; [|done].
  intros (b & E & Hb%list_elem_of_In)%list_elem_of_In%in_map_iff. rewrite Forall_forall in Ha. apply Ha in Hb as [? _]. lia.
Qed.

Lemma mark_elem l k f g : l !! k = Some f -> NoDup (map rdOffset l) -> g ∈ <[k := marked f]> l -> g = marked f \/ (g ∈ l /\ rdOffset g <> rdOffset f).
Proof using.
  intros Hk Hn [i Hi]%list_elem_of_lookup_1. destruct (decide (i = k)) as [->|Hne].
  - rewrite list_lookup_insert_eq in Hi by (by eapply lookup_lt_Some). injection Hi as <-. by left.
  - rewrite list_lookup_insert_ne in Hi by done. right. split; [by eapply list_elem_of_lookup_2|]. intros E. apply Hne.
    eapply NoDup_lookup; [exact Hn|..]; apply list_lookup_fmap_Some; [by exists g|by exists f].
Qed.

Lemma write_item d room its l k f : Written d room its l -> orderly room its -> map itemOf l = current its ->
  l !! k = Some f -> rdWritten f = false ->
  exists d1, UpsertReceiptDataStream (rdOffset f) (ReceiptOffset (DataStream f)) (srRoomID (DataStream f)) (srContent (DataStream f)) d = (Ok (), d1) /\
    Written d1 room its (<[k := marked f]> l).
Proof using.
  intros [Hfa Hw Hn Hr Hoth Hus] Hord Hcur Hk Hnew. assert (Hfl : f ∈ l) by (by eapply list_elem_of_lookup_2).
  assert (Hits : forall g, g ∈ l -> itemOf g ∈ its /\ evt (itemOf g) = evt (itemOf f) /\ srRoomID (DataStream g) = room).
  { intros g Hg. assert (Hgc : itemOf g ∈ current its) by (rewrite <- Hcur; by apply elem_item).
    assert (Hfc : itemOf f ∈ current its) by (rewrite <- Hcur; by apply elem_item).
    apply current_elem in Hgc as [Hg1 (x & Hx & Eg)], Hfc as [_ (x' & Hx' & Ef)]. split_and!; [done|congruence|].
    destruct Hord as [_ Hall]. rewrite Forall_forall in Hall. by apply Hall in Hg1 as [_ ?]. }
  assert (Hnd : NoDup (map rdOffset l)).
  { change (map rdOffset l) with (map (fun f => fst (itemOf f)) l). rewrite <- (map_map itemOf fst), Hcur.
    eapply orderly_nodup, current_orderly, Hord. }
  destruct (Hits f Hfl) as (Hif & _ & Hroom). unfold UpsertReceiptDataStream, deleteOlder, exec. rewrite Hfa, Hroom. cbn [tail set_streamData].
  unfold insertStream, exec. cbn [faults receiptDataStream userReceiptData set_streamData].
  set (keep := filter _ (receiptDataStream d)).
  assert (Hkeep : forall id row, keep !! id = Some row -> receiptDataStream d !! id = Some row).
  { intros id row E. by apply map_lookup_filter_Some in E as [? _]. }
  assert (Hnone : keep !! rdOffset f = None).
  { destruct (keep !! rdOffset f) eqn:E; [|done]. apply Hkeep in E. by rewrite (Hn f Hfl Hnew) in E. }
  cbn [tail]. rewrite Hnone. eexists. split; [done|]. split; cbn [faults receiptDataStream set_streamData].
  - done.
  - intros g Hg Hgw. apply (mark_elem l k f g Hk Hnd) in Hg as [->|[Hg Hne]].
    + cbn. rewrite lookup_insert_eq. unfold rowOf, evt, itemOf. cbn. by rewrite Hroom.
    + rewrite lookup_insert_ne by congruence. apply map_lookup_filter_Some. split; [by apply Hw|].
      destruct (Hits g Hg) as (_ & Ee & Er). unfold rowOf. cbn. unfold evt in Ee. cbn in Ee. intros [_ Hlt]. unfold evt in Hlt. cbn in Hlt. lia.
  - intros g Hg Hgw. apply (mark_elem l k f g Hk Hnd) in Hg as [->|[Hg Hne]]; [done|].
    rewrite lookup_insert_ne by congruence. destruct (keep !! rdOffset g) eqn:E; [|done]. apply Hkeep in E. by rewrite (Hn g Hg Hgw) in E.
  - intros id e c. destruct (decide (id = rdOffset f)) as [->|Hne].
    + rewrite lookup_insert_eq. intros [= <- <-]. unfold itemOf in Hif. destruct (DataStream f). cbn in *. by subst.
    + rewrite lookup_insert_ne by congruence. intros E%Hkeep. by apply Hr.
  - intros id e r c. destruct (decide (id = rdOffset f)) as [->|Hne].
    + rewrite lookup_insert_eq. intros [= <- <- <-]. done.
    + rewrite lookup_insert_ne by congruence. intros E%Hkeep. by apply Hoth.
  - done.
Qed.

(** Replacing items by items with the same offsets. *)
Lemma Inv_offsets (tl tl' : TimeLines ReceiptData) l l' : Inv tl l -> limit tl = false -> limit tl' = false ->
  lower tl' = lower tl -> upper tl' = upper tl -> Rep tl' l' -> map rdOffset l' = map rdOffset l -> Inv tl' l'.
Proof using.
  intros [_ Hb _] Hlim Hlim' Hlo Hup Hrep Hm. split; [done| |intros Hl; congruence].
  assert (Hin : forall l1 l2 : list ReceiptData, map rdOffset l1 = map rdOffset l2 -> forall x, x ∈ l1 -> exists y, y ∈ l2 /\ rdOffset y = rdOffset x).
  { intros l1 l2 E x Hx. apply (list_elem_of_fmap_2 rdOffset) in Hx. change (rdOffset <$> l1) with (map rdOffset l1) in Hx. rewrite E in Hx.
    apply list_elem_of_fmap in Hx as (y & ? & ?). eauto. }
  destruct l as [|a l], l' as [|b l']; try done; [unfold Bounds in *; by rewrite Hlo, Hup|].
  destruct Hb as ((x & Hx & Ex) & (y & Hy & Ey) & Hall). unfold Bounds. rewrite Hlo, Hup. split_and!.
  - destruct (Hin _ _ (eq_sym Hm) x Hx) as (x' & ? & E). exists x'. split; [done|]. unfold GetOffset, ReceiptData_feed in *. congruence.
  - destruct (Hin _ _ (eq_sym Hm) y Hy) as (y' & ? & E). exists y'. split; [done|]. unfold GetOffset, ReceiptData_feed in *. congruence.
  - rewrite Forall_forall in Hall |- *. intros z Hz. destruct (Hin _ _ Hm z Hz) as (z' & Hz' & E). apply Hall in Hz'.
    unfold GetOffset, ReceiptData_feed in *. by rewrite E in Hz'.
Qed.

Lemma mark_same (l : list ReceiptData) k f (B : Type) (g : ReceiptData -> B) : l !! k = Some f -> g (marked f) = g f ->
  map g (<[k := marked f]> l) = map g l.
Proof using.
  intros Hk E. apply list_eq. intros i. change (map g) with (fmap (M := list) g). rewrite !list_lookup_fmap.
  destruct (decide (i = k)) as [->|Hne]; [|by rewrite list_lookup_insert_ne].
  rewrite list_lookup_insert_eq, Hk by (by eapply lookup_lt_Some). cbn. by rewrite E.
Qed.

Lemma flushFeeds_ok room its n : forall k tl l d, Inv tl l -> limit tl = false -> Written d room its l -> orderly room its ->
  map itemOf l = current its -> (k + n = length l)%nat -> Forall (fun f => rdWritten f = true) (take k l) ->
  exists tl' d', flushFeeds (seq (offset tl - size tl + k) n) tl d = (Ok tl', d') /\ Inv tl' (map marked l) /\ limit tl' = false /\
    Written d' room its (map marked l).
Proof using.
  induction n as [|n IH]; intros k tl l d Hi Hlim Hw Hord Hcur Hlen Hdone; cbn [seq flushFeeds].
  { rewrite Nat.add_0_r in Hlen. rewrite take_ge in Hdone by lia. assert (E : map marked l = l).
    { clear -Hdone. induction Hdone as [|[id ds w] l Hx _ IH]; [done|]. cbn in *. subst w. by rewrite IH. }
    rewrite E. by exists tl, d. }
  destruct (lookup_lt_is_Some_2 l k) as [f Hk]; [lia|]. rewrite (getFeed_rep tl l k f (inv_rep _ _ Hi) Hk).
  replace (S (offset tl - size tl + k)) with (offset tl - size tl + S k)%nat by lia.
  destruct (rdWritten f) eqn:Ew.
  { apply (IH (S k)); try done; [lia|]. rewrite (take_S_r _ _ _ Hk). apply Forall_app. by split; [|constructor]. }
  destruct (write_item d room its l k f Hw Hord Hcur Hk Ew) as (d1 & -> & Hw1).
  destruct (putFeed_rep tl l k (marked f) (inv_rep _ _ Hi)) as (dt & Ep & Hrep1); [lia|]. fold (marked f). rewrite Ep.
  set (tl1 := mkTL _ _ _ _ _ _ _) in *.
  assert (Hi1 : Inv tl1 (<[k := marked f]> l)).
  { apply (Inv_offsets tl tl1 l); try done. by apply mark_same. }
  destruct (IH (S k) tl1 (<[k := marked f]> l) d1) as (tl2 & d2 & E2 & Hi2 & Hlim2 & Hw2); try done.
  - by rewrite (mark_same l k f _ itemOf).
  - rewrite length_insert. lia.
  - rewrite (take_S_r _ _ (marked f)) by (rewrite list_lookup_insert_eq; [done|by eapply lookup_lt_Some]).
    apply Forall_app. split; [|by constructor]. by rewrite take_insert_ge by lia.
  - rewrite (mark_same l k f _ marked) in Hi2, Hw2 by done. by exists tl2, d2.
Qed.

Lemma flushRoom_ok s room its l : streamShows s room its l -> Written (db s) room its l -> orderly room its ->
  exists s' l', flushRoom room s = (Ok (), s') /\ streamShows s' room its l' /\ Written (db s') room its l' /\
    Forall (fun f => rdWritten f = true) l' /\ updatedRoom s' = delete room (updatedRoom s) /\ rsGate s' = rsGate s /\ rsTlSize s' = rsTlSize s.
Proof using.
  intros Hshow Hw Hord. unfold flushRoom. cbn [set_updatedRoom container]. unfold streamShows in Hshow.
  destruct (last its) as [x|] eqn:Ex.
  - destruct Hshow as (tl & Ec & Hi & Hlim & Hcur). rewrite Ec. cbn [Content]. destruct (GetRange_rep tl l (inv_rep _ _ Hi)) as (-> & -> & _).
    destruct (flushFeeds_ok room its (length l) 0 tl l (db s) Hi Hlim Hw Hord Hcur eq_refl) as (tl' & d' & E & Hi' & Hlim' & Hw'); [constructor|].
    rewrite Nat.add_0_r in E. cbn [set_updatedRoom db]. rewrite E. eexists _, (map marked l). split; [done|]. split_and!; try done.
    + unfold streamShows. rewrite Ex. exists tl'. cbn. rewrite lookup_insert_eq. split_and!; try done. by rewrite map_map.
    + apply Forall_forall. by intros f (g & -> & _)%list_elem_of_fmap.
  - destruct Hshow as [Ec ->]. rewrite Ec. eexists _, []. split; [done|]. split_and!; try done. unfold streamShows. by rewrite Ex.
Qed.

(** ** Reading a stream back *)

Lemma streamRows_elem d room it : it ∈ streamRows d room <-> receiptDataStream d !! it.1 = Some (rowOf it) /\ srRoomID it.2 = room.
Proof using.
  unfold streamRows. rewrite <- (gosort_perm rowKey_leb). rewrite list_elem_of_In, in_map_iff. split.
  - intros ([id [[e r] c]] & <- & [Hin Hr%String.eqb_eq]%filter_In). apply list_elem_of_In, elem_of_map_to_list in Hin.
    cbn in *. by subst.
  - intros [Hd Hr]. exists (it.1, rowOf it). split; [by destruct it as [? []]|]. apply filter_In. split.
    + by apply list_elem_of_In, elem_of_map_to_list.
    + cbn. by apply String.eqb_eq.
Qed.

Definition ascends (a b : Item) : Prop := a.1 < b.1.

Lemma streamRows_sorted d room : StronglySorted ascends (streamRows d room).
Proof using.
  assert (Hs : StronglySorted (fun a b => rowKey_leb a b = true) (streamRows d room)).
  { apply gosort_sorted; unfold rowKey_leb; intros; rewrite ?Z.leb_le in *; lia. }
  assert (Hn : NoDup (map fst (streamRows d room))).
  { unfold streamRows. rewrite <- (gosort_perm rowKey_leb), map_map. cbn.
    pose proof (NoDup_fst_map_to_list (receiptDataStream d)) as Hn. revert Hn.
    generalize (map_to_list (receiptDataStream d)). intros rows. induction rows as [|r rows IH]; cbn; [constructor|].
    intros [Hr Hn]%NoDup_cons. destruct (String.eqb _ room); [|by apply IH]. cbn. apply NoDup_cons. split; [|by apply IH].
    intros (r' & E & Hr')%list_elem_of_In%in_map_iff. apply Hr. apply filter_In in Hr' as [Hr' _].
    apply list_elem_of_fmap. exists r'. split; [done|]. by apply list_elem_of_In. }
  revert Hs Hn. generalize (streamRows d room). intros rows Hs. induction Hs as [|a rows Hs IH Ha]; cbn; [constructor|].
  intros [Hna Hn]%NoDup_cons. constructor; [by apply IH|]. rewrite Forall_forall in Ha |- *. intros b Hb. specialize (Ha b Hb).
  unfold rowKey_leb in Ha. apply Z.leb_le in Ha. unfold ascends. assert (a.1 <> b.1); [|lia]. intros E. apply Hna. rewrite E.
  by apply list_elem_of_fmap_2.
Qed.

Lemma orderly_mono room its a b : orderly room its -> a ∈ its -> b ∈ its -> a.1 < b.1 -> evt a <= evt b.
Proof using.
  intros [Hs _]. induction Hs as [|c its Hs IH Hc]; intros Ha Hb E; [by apply elem_of_nil in Ha|].
  rewrite Forall_forall in Hc. apply elem_of_cons in Ha as [->|Ha], Hb as [->|Hb]; [lia|by apply Hc| |by apply IH].
  apply Hc in Ha as [? _]. lia.
Qed.

Lemma last_greatest room its x a : orderly room its -> last its = Some x -> a ∈ its -> a.1 <= x.1.
Proof using.
  intros [Hs _] (its0 & ->)%last_Some [Ha|Ha%list_elem_of_singleton]%elem_of_app; [|by subst].
  pose proof (before_last _ _ _ Hs Ha) as [? _]. lia.
Qed.

(** Rows of the room among the items of an orderly list are orderly. *)
Lemma rows_orderly room its rows : orderly room its -> StronglySorted ascends rows -> rows ⊆ its -> orderly room rows.
Proof using.
  intros Ho Hs Hsub. split.
  - induction Hs as [|a rows Hs IH Ha]; [constructor|]. constructor; [apply IH; set_solver|]. rewrite Forall_forall in Ha |- *.
    intros b Hb. split; [by apply Ha|]. eapply orderly_mono; [exact Ho|set_solver|set_solver|by apply Ha].
  - destruct Ho as [_ Hf]. rewrite Forall_forall in Hf |- *. auto.
Qed.

Lemma restart_current d room its l : Written d room its l -> Forall (fun f => rdWritten f = true) l -> map itemOf l = current its ->
  orderly room its -> its <> [] -> orderly room (streamRows d room) /\ current (streamRows d room) = current its /\ streamRows d room <> [].
Proof using.
  intros [Hfa Hw Hn Hr _ _] Hall Hcur Ho Hne.
  assert (Hsub : streamRows d room ⊆ its).
  { intros it [Hd Hroom]%streamRows_elem. unfold rowOf in Hd. rewrite Hroom in Hd. apply Hr in Hd. destruct it as [id [r c e]]. cbn in *. by subst. }
  assert (Hl : forall it, it ∈ current its -> it ∈ streamRows d room).
  { intros it Hit. pose proof Hit as [Hi _]%current_elem. rewrite <- Hcur in Hit. apply list_elem_of_fmap in Hit as (f & -> & Hf).
    apply streamRows_elem. rewrite Forall_forall in Hall. split; [by apply Hw; auto|]. destruct Ho as [_ Hf2]. rewrite Forall_forall in Hf2. by apply Hf2. }
  pose proof (rows_orderly room its _ Ho (streamRows_sorted d room) Hsub) as Hor.
  destruct (last its) as [x|] eqn:Ex; [|by apply last_None in Ex].
  assert (Hx : x ∈ streamRows d room).
  { apply Hl. unfold current. rewrite Ex. apply list_elem_of_In, filter_In. split; [|apply Z.eqb_refl].
    apply list_elem_of_In. by apply last_Some_elem_of. }
  destruct (last (streamRows d room)) as [y|] eqn:Ey; [|apply last_None in Ey; rewrite Ey in Hx; by apply elem_of_nil in Hx].
  assert (Exy : y = x).
  { pose proof (last_Some_elem_of _ _ Ey) as Hy. eapply orderly_inj; [exact Ho|by apply Hsub|by apply Hsub|].
    pose proof (last_greatest room its x y Ho Ex (Hsub _ Hy)). pose proof (last_greatest room _ y x Hor Ey Hx). lia. }
  subst y. split_and!; [done| |intros E; rewrite E in Hx; by apply elem_of_nil in Hx].
  apply (RoomRows.sorted_ext ascends).
  - intros a. unfold ascends. lia.
  - intros a b c. unfold ascends. lia.
  - destruct (current_orderly room _ Hor) as [Hs _]. eapply sorted_impl; [|exact Hs]. by intros a b [? _].
  - destruct (current_orderly room _ Ho) as [Hs _]. eapply sorted_impl; [|exact Hs]. by intros a b [? _].
  - intros it. split; [|intros Hit; pose proof (Hl it Hit) as Hin; apply current_elem in Hit as (_ & x' & Ex' & Ee)].
    + intros (Hit & x' & Ex' & Ee)%current_elem. unfold current. rewrite Ex. apply list_elem_of_In, filter_In.
      split; [by apply list_elem_of_In, Hsub|]. apply Z.eqb_eq. congruence.
    + unfold current. rewrite Ey. apply list_elem_of_In, filter_In. split; [by apply list_elem_of_In|]. apply Z.eqb_eq. congruence.
Qed.

(** ** Loading *)

Lemma addRows_shows rows : forall s room its l, streamShows s room its l -> Forall (fun f => rdWritten f = true) l ->
  orderly room (its ++ rows) -> (0 < rsTlSize s)%nat ->
  exists s' l', addRows rows s = (Ok (), s') /\ streamShows s' room (its ++ rows) l' /\ Forall (fun f => rdWritten f = true) l' /\
    db s' = db s /\ rsGate s' = rsGate s /\ rsTlSize s' = rsTlSize s /\ updatedRoom s' = updatedRoom s.
Proof using.
  induction rows as [|[id ds] rows IH]; intros s room its l Hshow Hall Hord Hsz.
  { exists s, l. rewrite app_nil_r. by split_and!. }
  cbn [addRows]. pose proof Hord as Hord0. change ((id, ds) :: rows) with ([(id, ds)] ++ rows)%list in Hord0. rewrite (assoc app) in Hord0.
  destruct (addStream_shows s room its l (id, ds) true Hshow) as (s1 & E1 & S1 & D1 & G1 & T1 & U1 & _); [by eapply orderly_prefix|done|].
  cbn [fst snd] in E1. destruct (IH s1 room (its ++ [(id, ds)])%list _ S1) as (s2 & l2 & E2 & S2 & W2 & D2 & G2 & T2 & U2); [|done|by rewrite T1|].
  { apply Forall_app. split; [|by constructor]. unfold kept. repeat case_match; try done. }
  exists s2, l2. unfold mbind, ST_bind. rewrite E1, E2. rewrite <- (assoc app) in S2. split_and!; try done; congruence.
Qed.

Record Cold s room : Prop := {
  co_ready : room ∉ ready (rsGate s);
  co_loading : room ∉ loading (rsGate s);
  co_none : container s !! room = None;
  co_updated : updatedRoom s = ∅;
  co_faults : faults (db s) = [];
  co_size : (0 < rsTlSize s)%nat;
  co_other : forall id e r c, receiptDataStream (db s) !! id = Some (e, r, c) -> r <> room -> base !! id = Some (e, r, c);
  co_users : userReceiptData (db s) = users;
}.

Record Warm s room (its : list Item) (l : list ReceiptData) : Prop := {
  wa_ready : room ∈ ready (rsGate s);
  wa_shows : streamShows s room its l;
  wa_written : Written (db s) room its l;
  wa_updated : Exists (fun f => rdWritten f = false) l -> updatedRoom s !! room = Some true;
  wa_only : forall r, r <> room -> updatedRoom s !! r = None;
  wa_size : (0 < rsTlSize s)%nat;
}.

Lemma load_warm s room : Cold s room -> orderly room (streamRows (db s) room) ->
  exists s' l, LoadStreamHistory room true s = (Ok (), s') /\ Warm s' room (streamRows (db s) room) l /\
    Forall (fun f => rdWritten f = true) l /\ receiptDataStream (db s') = receiptDataStream (db s).
Proof using.
  intros [Hr Hl Hn Hu Hf Hsz Hoth Hus] Ho. unfold LoadStreamHistory, LoadHistory, LoadWith, loadNew. cbn [gate stream_loads].
  rewrite !decide_False by done. unfold mbind, ST_bind, onGate. cbn [gate set_gate stream_loads].
  set (s0 := set_rsGate s _). unfold loadHistory. cbn [body stream_loads]. unfold stream_load, onSql, GetHistoryReceiptDataStream, exec.
  unfold mbind, ST_bind. change (db s0) with (db s). rewrite Hf. cbn [tail].
  set (d1 := mkSyncDb _ _ _). change (streamRows d1 room) with (streamRows (db s) room). set (s1 := set_db s0 d1).
  destruct (addRows_shows (streamRows (db s) room) s1 room [] []) as (s2 & l & E2 & S2 & W2 & D2 & G2 & T2 & U2); [done|constructor|done|done|].
  rewrite E2. cbn [app] in S2. eexists _, l. split; [done|]. split_and!; [|done|cbn; by rewrite D2].
  split; cbn [set_rsGate rsGate db updatedRoom rsTlSize onGate set_gate gate stream_loads].
  - cbn. set_solver.
  - unfold streamShows in *. done.
  - rewrite D2. assert (Hin : forall f, f ∈ l -> itemOf f ∈ streamRows (db s) room).
    { intros f Hf2. unfold streamShows in S2. destruct (last (streamRows (db s) room)) as [x|] eqn:Ex.
      - destruct S2 as (tl & _ & _ & _ & Hcur). apply elem_item in Hf2. rewrite Hcur in Hf2. by apply current_elem in Hf2 as [? _].
      - destruct S2 as [_ ->]. by apply elem_of_nil in Hf2. }
    split; [done| | | |exact Hoth|exact Hus].
    + intros f Hf2 _. by apply (streamRows_elem (db s) room (itemOf f)), Hin.
    + intros f Hf2 Hw. rewrite Forall_forall in W2. by rewrite W2 in Hw.
    + intros id e c Hd. apply streamRows_elem. done.
  - intros Hex. exfalso. apply Exists_exists in Hex as (f & Hf2 & Hw). rewrite Forall_forall in W2. by rewrite W2 in Hw.
  - intros r _. rewrite U2. cbn. rewrite Hu. apply lookup_empty.
  - rewrite T2. done.
Qed.

Lemma load_again s room its l : Warm s room its l -> LoadStreamHistory room true s = (Ok (), s).
Proof using. intros Hw. unfold LoadStreamHistory, LoadHistory, LoadWith. cbn [gate stream_loads]. by rewrite decide_True by apply Hw. Qed.

(** ** Operations on a room *)

Inductive Op := OpAdd (it : Item) | OpFlush.

Definition runOp (o : Op) : ST (Repos M) unit :=
  match o with
  | OpAdd it => AddReceiptDataStream it.2 it.1
  | OpFlush => flushStreams
  end.

Fixpoint runOps (os : list Op) : ST (Repos M) unit :=
  match os with
  | [] => mret ()
  | o :: rest => _ ← runOp o; runOps rest
  end.

Definition added (os : list Op) : list Item := omap (fun o => match o with OpAdd it => Some it | OpFlush => None end) os.

Lemma add_warm s room its l it : Warm s room its l -> orderly room (its ++ [it]) -> base !! it.1 = None ->
  exists s' l', runOp (OpAdd it) s = (Ok (), s') /\ Warm s' room (its ++ [it]) l'.
Proof using.
  intros Hw Ho Hnew. pose proof Hw as [Hready Hshow Hwr Hup Honly Hsz]. pose proof Ho as [Hsort Hf].
  apply Forall_app in Hf as [_ [Hroom _]%Forall_cons]. destruct Hroom as [Hpos Hroom].
  destruct (addStream_shows s room its l it false Hshow Ho Hsz) as (s1 & E1 & S1 & D1 & G1 & T1 & U1 & _).
  assert (Hk : forall f, f ∈ kept its it l -> f ∈ l) by (intros f; unfold kept; repeat case_match; try done; by intros ?%elem_of_nil).
  assert (Hfree : receiptDataStream (db s) !! it.1 = None).
  { destruct (receiptDataStream (db s) !! it.1) as [[[e r] c]|] eqn:E; [|done]. destruct (decide (r = room)) as [->|Hr].
    - apply (wr_rows _ _ _ _ Hwr) in E. pose proof (before_last _ _ _ Hsort E) as [Hlt _]. cbn in Hlt. lia.
    - by rewrite (wr_other _ _ _ _ Hwr _ _ _ _ E Hr) in Hnew. }
  eexists s1, _. split.
  { cbn [runOp]. unfold AddReceiptDataStream, mbind, ST_bind. rewrite Hroom, (load_again s room its l Hw). done. }
  split.
  - by rewrite G1.
  - exact S1.
  - rewrite D1. destruct Hwr as [Hfa Hwd Hnw Hrows Hoth Hus]. split; [done| | | |exact Hoth|exact Hus].
    + intros f [Hin%Hk|Hin%list_elem_of_singleton]%elem_of_app Hfw; [by apply Hwd|by subst].
    + intros f [Hin%Hk|Hin%list_elem_of_singleton]%elem_of_app Hfw; [by apply Hnw|by subst].
    + intros id e c Hd. apply elem_of_app. left. by apply Hrows.
  - intros _. rewrite U1. apply lookup_insert_eq.
  - intros r Hr. rewrite U1, lookup_insert_ne by done. by apply Honly.
  - by rewrite T1.
Qed.

(** A range over a map with one key at most. *)
Lemma only_key (m : gmap string bool) room : (forall r, r <> room -> m !! r = None) ->
  map fst (range m) = [room] \/ (map fst (range m) = [] /\ m !! room = None).
Proof using.
  intros Honly. change (map fst (range m)) with ((range m).*1). destruct (m !! room) as [b|] eqn:E.
  - left. assert (Em : m = {[room := b]}).
    { apply map_eq. intros r. destruct (decide (r = room)) as [->|Hr]; [by rewrite lookup_singleton_eq|]. rewrite lookup_singleton_ne by done. by apply Honly. }
    apply Permutation_length_1_inv. rewrite range_perm, Em. by rewrite map_to_list_singleton.
  - right. split; [|done]. assert (Em : m = ∅).
    { apply map_eq. intros r. rewrite lookup_empty. destruct (decide (r = room)) as [->|Hr]; [done|]. by apply Honly. }
    apply Permutation_nil. rewrite range_perm, Em. by rewrite map_to_list_empty.
Qed.

Lemma flush_warm s room its l : Warm s room its l -> orderly room its ->
  exists s' l', runOp OpFlush s = (Ok (), s') /\ Warm s' room its l' /\ Forall (fun f => rdWritten f = true) l'.
Proof using.
  intros Hw Ho. pose proof Hw as [Hready Hshow Hwr Hup Honly Hsz]. cbn [runOp]. unfold flushStreams.
  destruct (only_key (updatedRoom s) room Honly) as [->|[-> Hnone]]; cbn [flushRooms].
  - destruct (flushRoom_ok s room its l Hshow Hwr Ho) as (s1 & l1 & E1 & S1 & W1 & A1 & U1 & G1 & T1). exists s1, l1.
    unfold mbind, ST_bind. rewrite E1. split; [done|]. split; [|done]. split; try done.
    + by rewrite G1.
    + intros Hex. apply Exists_exists in Hex as (f & Hf & Hfw). rewrite Forall_forall in A1. by rewrite A1 in Hfw.
    + intros r Hr. rewrite U1. rewrite lookup_delete_ne by done. by apply Honly.
    + by rewrite T1.
  - assert (Hall : Forall (fun f => rdWritten f = true) l).
    { apply Forall_forall. intros f Hf. destruct (rdWritten f) eqn:E; [done|]. rewrite Hup in Hnone; [done|]. apply Exists_exists. eauto. }
    exists s, l. split_and!; try done.
Qed.

(** Any operations, once the room is loaded. *)
Lemma ops_warm os : forall s room its l, Warm s room its l -> orderly room (its ++ added os) ->
  Forall (fun it => base !! it.1 = None) (added os) ->
  exists s' l', runOps os s = (Ok (), s') /\ Warm s' room (its ++ added os) l'.
Proof using.
  induction os as [|[it|] os IH]; intros s room its l Hw Ho Hb; cbn [runOps].
  - exists s, l. by rewrite app_nil_r.
  - unfold added in Ho, Hb. cbn in Ho, Hb. fold (added os) in Ho, Hb. apply Forall_cons in Hb as [Hit Hb].
    change (it :: added os) with ([it] ++ added os)%list in Ho. rewrite (assoc app) in Ho.
    destruct (add_warm s room its l it Hw) as (s1 & l1 & E1 & W1); [by eapply orderly_prefix|done|].
    destruct (IH s1 room _ l1 W1 Ho Hb) as (s2 & l2 & E2 & W2). exists s2, l2. unfold mbind, ST_bind. rewrite E1, E2.
    split; [done|]. unfold added. cbn. fold (added os). by rewrite <- (assoc app) in W2.
  - destruct (flush_warm s room its l Hw) as (s1 & l1 & E1 & W1 & _); [by eapply orderly_prefix|].
    destruct (IH s1 room its l1 W1 Ho Hb) as (s2 & l2 & E2 & W2). exists s2, l2. unfold mbind, ST_bind. by rewrite E1, E2.
Qed.

(** Flushes before the first use change nothing. *)
Lemma ops_cold os : forall s room, Cold s room -> orderly room (streamRows (db s) room ++ added os) -> added os <> [] ->
  Forall (fun it => base !! it.1 = None) (added os) ->
  exists s' l', runOps os s = (Ok (), s') /\ Warm s' room (streamRows (db s) room ++ added os) l'.
Proof using.
  induction os as [|[it|] os IH]; intros s room Hc Ho Hne Hb; cbn [runOps]; [done| |].
  - destruct (load_warm s room Hc) as (s1 & l1 & E1 & W1 & _ & _); [by eapply orderly_prefix|].
    destruct (ops_warm (OpAdd it :: os) s1 room _ l1 W1 Ho Hb) as (s2 & l2 & E2 & W2). exists s2, l2. split; [|done].
    rewrite <- E2. cbn [runOps runOp]. unfold AddReceiptDataStream, mbind, ST_bind.
    assert (Hroom : srRoomID it.2 = room).
    { destruct Ho as [_ Hf]. apply Forall_app in Hf as [_ Hf]. unfold added in Hf. cbn in Hf. by apply Forall_cons in Hf as [[_ ?] _]. }
    by rewrite Hroom, E1, (load_again s1 room _ _ W1).
  - assert (E : runOp OpFlush s = (Ok (), s)).
    { cbn [runOp]. unfold flushStreams. destruct (only_key (updatedRoom s) room) as [Ek|[-> _]]; [intros; rewrite (co_updated _ _ Hc); apply lookup_empty| |done].
      exfalso. rewrite (co_updated _ _ Hc) in Ek. assert (Hn : (range (∅ : gmap string bool)).*1 = []).
      { apply Permutation_nil. by rewrite range_perm, map_to_list_empty. }
      change (map fst (range ∅)) with ((range (∅ : gmap string bool)).*1) in Ek. by rewrite Hn in Ek. }
    unfold mbind, ST_bind. rewrite E. by apply IH.
Qed.

Lemma runOps_app os1 os2 s s1 : runOps os1 s = (Ok (), s1) -> runOps (os1 ++ os2) s = runOps os2 s1.
Proof using.
  revert s. induction os1 as [|o os1 IH]; intros s; cbn [runOps app]; [by intros [= <-]|]. unfold mbind, ST_bind.
  destruct (runOp o s) as [[[]| | |] s2]; try done. apply IH.
Qed.

End Streams.

(** ** The last receipts of users *)

Lemma receiptKey_inj room a b : receiptKey room a = receiptKey room b -> a = b.
Proof. unfold receiptKey. intros E. by apply (inj (String.append ":")), (inj (String.append room)). Qed.

Section Users.
  Context {M : Type} `{RoomMembers M} `{GoRange}.
  Implicit Types s : Repos M.
  Context (room : string).

(** A user whose receipt was loaded (a sync of the user asks for the last offset) marks
    an event as read, or the receipts are written. *)
Inductive UserOp := UMark (user : string) (off : Z) (content : string) | UFlush.

Definition runUserOp (o : UserOp) : ST (Repos M) unit :=
  match o with
  | UMark user off content =>
      _ ← GetLatestOffset user room;
      ((fun s => (Ok (), AddUserReceipt (mkUserReceipt user room off (Some content) false) s)) : ST (Repos M) unit)
  | UFlush => flushUserReceipts
  end.

Fixpoint runUserOps (os : list UserOp) : ST (Repos M) unit :=
  match os with
  | [] => mret ()
  | o :: rest => _ ← runUserOp o; runUserOps rest
  end.

(** The last receipt of each user. *)
Definition lastMarks (os : list UserOp) : gmap string (Z * string) :=
  fold_left (fun m o => match o with UMark user off content => <[user := (off, content)]> m | UFlush => m end) os ∅.

(** What the streams of rooms are made of. *)
Definition streamPart s := (rsGate s, container s, updatedRoom s, rsTlSize s, receiptDataStream (db s)).

Record Marked s (m : gmap string (Z * string)) : Prop := {
  mk_faults : faults (db s) = [];
  mk_loading : loading (urGate s) = ∅;
  mk_marks : forall u off c, m !! u = Some (off, c) -> receiptKey room u ∈ ready (urGate s) /\
    exists w : bool, receipt s !! receiptKey room u = Some (mkUserReceipt u room off (Some c) w) /\
      if w then userReceiptData (db s) !! (u, room) = Some (off, c) else is_Some (urUpdated s !! receiptKey room u);
  mk_updated : forall k, is_Some (urUpdated s !! k) -> exists u, k = receiptKey room u /\ is_Some (m !! u);
}.

Definition loadedUser s (u : string) (g : Gate) (r : UserReceipt) : Repos M :=
  set_urGate (set_receipt (set_db s (mkSyncDb (userReceiptData (db s)) (receiptDataStream (db s)) []))
    (<[receiptKey room u := r]> (receipt s)) (urUpdated s)) g.

(** The row of a user is read when the key is used first. *)
Lemma user_cold s u : faults (db s) = [] -> loading (urGate s) = ∅ -> receiptKey room u ∉ ready (urGate s) ->
  exists g r, latestReceipt u room s = (Ok (Some r), loadedUser s u g r) /\ loading g = ∅ /\ ready g = {[receiptKey room u]} ∪ ready (urGate s) /\
    forall off c, userReceiptData (db s) !! (u, room) = Some (off, c) -> r = mkUserReceipt u room off (Some c) true.
Proof using.
  intros Hf Hl Hr. unfold latestReceipt, mbind, ST_bind. rewrite decide_False by done. unfold LoadUserHistory, LoadHistory, LoadWith, loadNew.
  cbn [gate user_loads]. rewrite decide_False by done. rewrite decide_False by (by rewrite Hl).
  unfold mbind, ST_bind, onGate. cbn [gate set_gate user_loads]. unfold loadHistory. cbn [body user_loads].
  unfold user_load, onSql, GetUserHistoryReceiptData, exec, mbind, ST_bind. cbn [db set_urGate]. rewrite Hf. cbn [tail userReceiptData].
  cbn. rewrite lookup_insert_eq. eexists (mkGate _ _ _ _), _. split; [done|]. cbn [loading ready].
  split; [by rewrite Hl; set_solver|]. split; [done|]. by intros off c ->.
Qed.

Lemma mark_one s m u off c : Marked s m ->
  exists s', runUserOp (UMark u off c) s = (Ok (), s') /\ Marked s' (<[u := (off, c)]> m) /\ streamPart s' = streamPart s.
Proof using.
  intros [Hf Hl Hm Hu].
  assert (Hadd : forall s1 : Repos M, streamPart s1 = streamPart s -> faults (db s1) = [] -> loading (urGate s1) = ∅ ->
      receiptKey room u ∈ ready (urGate s1) -> ready (urGate s) ⊆ ready (urGate s1) -> userReceiptData (db s1) = userReceiptData (db s) -> urUpdated s1 = urUpdated s ->
      (forall v, v <> u -> receipt s1 !! receiptKey room v = receipt s !! receiptKey room v) ->
      let s' := AddUserReceipt (mkUserReceipt u room off (Some c) false) s1 in Marked s' (<[u := (off, c)]> m) /\ streamPart s' = streamPart s).
  { intros s1 Hs1 Hf1 Hl1 Hin Hsub Ht1 Hu1 Hr1. cbv zeta. split; [|exact Hs1]. split; cbn.
    - done.
    - done.
    - intros v o1 c1 [[<- [= <- <-]]|[Hne Hv]]%lookup_insert_Some.
      + split; [done|]. exists false. rewrite !lookup_insert_eq. split; [done|by eexists].
      + destruct (Hm v o1 c1 Hv) as (Hin1 & w & Hw & Hd). split; [by apply Hsub|]. exists w.
        rewrite !lookup_insert_ne by (by intros E%receiptKey_inj). rewrite Hr1 by congruence. rewrite Ht1, Hu1. done.
    - intros k. rewrite Hu1. destruct (decide (k = receiptKey room u)) as [->|Hk].
      + intros _. exists u. split; [done|]. rewrite lookup_insert_eq. by eexists.
      + rewrite lookup_insert_ne by congruence. intros (v & -> & Hv)%Hu. exists v. split; [done|].
        rewrite lookup_insert_ne by congruence. done. }
  cbn [runUserOp]. unfold GetLatestOffset, mbind, ST_bind. destruct (decide (receiptKey room u ∈ ready (urGate s))) as [Hin|Hin].
  - unfold latestReceipt, mbind, ST_bind. rewrite decide_True by done. cbn. eexists. split; [done|]. by apply Hadd.
  - destruct (user_cold s u Hf Hl Hin) as (g & r & -> & Hlg & Hrg & _). cbn. eexists. split; [done|]. apply Hadd; try done; cbn.
    + rewrite Hrg. set_solver.
    + rewrite Hrg. set_solver.
    + intros v Hv. apply lookup_insert_ne. by intros E%receiptKey_inj.
Qed.

Lemma flush_one s m u : Marked s m -> is_Some (m !! u) -> let key := receiptKey room u in
  exists s', flushUser key s = (Ok (), s') /\ Marked s' m /\ streamPart s' = streamPart s /\ urUpdated s' = delete key (urUpdated s).
Proof using.
  intros [Hf Hl Hm Hu] [[off c] Hmu] key. destruct (Hm u off c Hmu) as (Hin & w & Hw & Hd). unfold flushUser. cbn. fold key in Hw, Hd. rewrite Hw. cbn.
  assert (Hup : forall k, is_Some (delete key (urUpdated s) !! k) -> exists v, k = receiptKey room v /\ is_Some (m !! v)).
  { intros k [b [_ Hk]%lookup_delete_Some]. apply Hu. by eexists. }
  destruct w.
  - eexists. split; [done|]. split; [|done]. split; cbn; [done|done| |done]. intros v o1 c1 Hv. destruct (Hm v o1 c1 Hv) as (Hin1 & w1 & Hw1 & Hd1).
    split; [done|]. exists w1. split; [done|]. destruct w1; [done|]. destruct (decide (v = u)) as [->|Hne]; [fold key in Hw1; congruence|].
    rewrite lookup_delete_ne; [done|]. by intros E%receiptKey_inj.
  - unfold flushToDB, onSql, UpsertUserReceiptData, exec. cbn. rewrite Hf. eexists. split; [done|]. split; [|done]. split; cbn; [done|done| |done].
    intros v o1 c1 Hv. destruct (Hm v o1 c1 Hv) as (Hin1 & w1 & Hw1 & Hd1). split; [done|]. destruct (decide (v = u)) as [->|Hne].
    + fold key. exists true. rewrite !lookup_insert_eq. rewrite Hmu in Hv. by injection Hv as <- <-.
    + exists w1. rewrite lookup_insert_ne by (by intros E%receiptKey_inj). split; [done|]. destruct w1.
      * rewrite lookup_insert_ne by congruence. done.
      * rewrite lookup_delete_ne; [done|]. by intros E%receiptKey_inj.
Qed.

Lemma flush_all m keys : forall s, Marked s m -> Forall (fun k => exists u, k = receiptKey room u /\ is_Some (m !! u)) keys ->
  exists s', flushUsers keys s = (Ok (), s') /\ Marked s' m /\ streamPart s' = streamPart s /\
    forall k, urUpdated s' !! k = if decide (k ∈ keys) then None else urUpdated s !! k.
Proof using.
  induction keys as [|k keys IH]; intros s Hs Hk; cbn [flushUsers].
  { by exists s. }
  apply Forall_cons in Hk as [(u & -> & Hmu) Hk]. destruct (flush_one s m u Hs Hmu) as (s1 & E1 & M1 & P1 & U1).
  destruct (IH s1 M1 Hk) as (s2 & E2 & M2 & P2 & U2). exists s2. unfold mbind, ST_bind. rewrite E1, E2. split_and!; [done|done|congruence|].
  intros k. rewrite U2, U1. destruct (decide (k ∈ keys)) as [Hin|Hin]; [by rewrite decide_True by (by right)|].
  destruct (decide (k = receiptKey room u)) as [->|Hne]; [by rewrite lookup_delete_eq, decide_True by left|].
  rewrite lookup_delete_ne by congruence. by rewrite decide_False by (by intros [?|?]%elem_of_cons).
Qed.

Lemma flush_marked s m : Marked s m ->
  exists s', runUserOp UFlush s = (Ok (), s') /\ Marked s' m /\ streamPart s' = streamPart s /\ urUpdated s' = ∅.
Proof using.
  intros Hs. cbn [runUserOp]. unfold flushUserReceipts. change (map fst (range (urUpdated s))) with ((range (urUpdated s)).*1).
  assert (Hin : forall k, k ∈ (range (urUpdated s)).*1 <-> is_Some (urUpdated s !! k)).
  { intros k. rewrite list_elem_of_fmap. split; [by intros ([k' b] & -> & ?%range_elem); eexists|]. intros [b Hb]. exists (k, b). by rewrite range_elem. }
  destruct (flush_all m (range (urUpdated s)).*1 s Hs) as (s' & E & M' & P' & U').
  { apply Forall_forall. intros k Hk%Hin. by apply (mk_updated s m Hs). }
  exists s'. split_and!; try done. apply map_eq. intros k. rewrite U', lookup_empty. case_decide as Hk; [done|].
  apply eq_None_not_Some. by rewrite <- Hin.
Qed.

Lemma marked_ops os : forall s m, Marked s m ->
  exists s', runUserOps os s = (Ok (), s') /\ streamPart s' = streamPart s /\
    Marked s' (fold_left (fun m o => match o with UMark user off content => <[user := (off, content)]> m | UFlush => m end) os m).
Proof using.
  induction os as [|o os IH]; intros s m Hs; cbn [runUserOps fold_left]; [by exists s|].
  assert (Ho : exists s1, runUserOp o s = (Ok (), s1) /\ streamPart s1 = streamPart s /\
     Marked s1 (match o with UMark user off content => <[user := (off, content)]> m | UFlush => m end)).
  { destruct o as [u off c|]; [destruct (mark_one s m u off c Hs) as (s1 & ? & ? & ?)|destruct (flush_marked s m Hs) as (s1 & ? & ? & ? & _)]; by exists s1. }
  destruct Ho as (s1 & E1 & P1 & M1). destruct (IH s1 _ M1) as (s2 & E2 & P2 & M2). exists s2. unfold mbind, ST_bind. rewrite E1, E2.
  split_and!; [done|congruence|done].
Qed.

Lemma runUserOps_app os1 os2 s s1 : runUserOps os1 s = (Ok (), s1) -> runUserOps (os1 ++ os2) s = runUserOps os2 s1.
Proof using.
  revert s. induction os1 as [|o os1 IH]; intros s; cbn [runUserOps app]; [by intros [= <-]|]. unfold mbind, ST_bind.
  destruct (runUserOp o s) as [[[]| | |] s2]; try done. apply IH.
Qed.

(** Written receipts are in the table. *)
Lemma users_written (os : list UserOp) (sz : nat) (d : SyncDb) (m : M) : faults d = [] ->
  exists s', runUserOps (os ++ [UFlush]) (NewRepos sz d m) = (Ok (), s') /\ streamPart s' = streamPart (NewRepos sz d m) /\ faults (db s') = [] /\
    forall u off c, lastMarks os !! u = Some (off, c) -> userReceiptData (db s') !! (u, room) = Some (off, c).
Proof using.
  intros Hf. destruct (marked_ops os (NewRepos sz d m) ∅) as (s1 & E1 & P1 & M1).
  { split; cbn; [done|done|intros u off c Hu; by rewrite lookup_empty in Hu|intros k [b Hb]; by rewrite lookup_empty in Hb]. }
  fold (lastMarks os) in M1. destruct (flush_marked s1 _ M1) as (s2 & E2 & M2 & P2 & U2). exists s2. split_and!.
  - rewrite (runUserOps_app _ _ _ _ E1). cbn [runUserOps]. unfold mbind, ST_bind. by rewrite E2.
  - congruence.
  - apply M2.
  - intros u off c Hu. destruct (mk_marks s2 _ M2 u off c Hu) as (_ & w & _ & Hw). destruct w; [done|]. rewrite U2, lookup_empty in Hw. by destruct Hw.
Qed.

End Users.

Section Restart.
  Context {M : Type} `{RoomMembers M} `{GoRange}.

Lemma new_cold (d : SyncDb) (m : M) room sz (s : Repos M) : faults (db s) = [] -> (0 < sz)%nat -> streamPart s = streamPart (NewRepos sz d m) ->
  Cold (receiptDataStream d) (userReceiptData (db s)) s room.
Proof using.
  intros Hf Hs Hp. unfold streamPart in Hp. cbn in Hp. injection Hp as Hg Hc Hu Ht Hd.
  split; rewrite ?Hg, ?Hc, ?Hu, ?Ht, ?Hd; try done; set_solver.
Qed.

(** The items as they are in memory once they are written. *)
Definition stored (its : list Item) : list ReceiptData := map (fun it => mkReceiptData it.1 it.2 true) its.

Lemma stored_items l : Forall (fun f => rdWritten f = true) l -> l = stored (map itemOf l).
Proof using. induction 1 as [|[id ds w] l Hw _ IH]; [done|]. cbn in *. subst w. unfold stored in *. cbn. by f_equal. Qed.

Lemma warm_stored base users (s : Repos M) room its l : Warm base users s room its l -> Forall (fun f => rdWritten f = true) l -> its <> [] ->
  exists tl, GetReceiptHistory room s = (Ok (Some tl), s) /\ Inv tl (stored (current its)).
Proof using.
  intros Hw Hall Hne. pose proof (wa_shows _ _ _ _ _ _ Hw) as Hshow. unfold streamShows in Hshow.
  destruct (last its) as [x|] eqn:Ex; [|by apply last_None in Ex]. destruct Hshow as (tl & Ec & Hi & _ & Hm).
  exists tl. unfold GetReceiptHistory, mbind, ST_bind. rewrite decide_True by apply Hw. cbn. rewrite Ec. split; [done|].
  rewrite <- Hm, <- stored_items by done. done.
Qed.

(** C25: Receipts that were written survive a restart.  Users of a room, whose receipts
    were loaded before, mark events as read and the receipts are written, in any order; then items are added to the stream
    of the room (with rising identifiers and event offsets that do not fall) and
    written, in any order, on any tables, and each part ends with a flush: the stream
    of the room shows exactly the receipts of its last event, in order, and a process
    that starts on the tables shows the same, and for every user the offset and the
    content of the receipt that the user set last. *)
Theorem receipts_survive_restart (d : SyncDb) (m m2 : M) (room : string) (sz : nat) (us : list UserOp) (os : list Op) :
  faults d = [] -> (0 < sz)%nat -> added os <> [] -> orderly room (streamRows d room ++ added os) ->
  Forall (fun it => receiptDataStream d !! it.1 = None) (added os) ->
  exists s0 s1 tl s2 tl2, runUserOps room (us ++ [UFlush]) (NewRepos sz d m) = (Ok (), s0) /\ runOps (os ++ [OpFlush]) s0 = (Ok (), s1) /\
    GetReceiptHistory room s1 = (Ok (Some tl), s1) /\ Inv tl (stored (current (streamRows d room ++ added os))) /\
    GetReceiptHistory room (NewRepos sz (db s1) m2) = (Ok (Some tl2), s2) /\
    Inv tl2 (stored (current (streamRows d room ++ added os))) /\
    forall u off c, lastMarks us !! u = Some (off, c) ->
      (GetLatestOffset u room (NewRepos sz (db s1) m2)).1 = Ok off /\ (GetLatestReceipt u room (NewRepos sz (db s1) m2)).1 = Ok (Some c).
Proof.
  intros Hf Hs Hne Ho Hb. set (its := (streamRows d room ++ added os)%list) in *.
  destruct (users_written room us sz d m Hf) as (su & Eu & Pu & Fu & Hmarks). pose proof (new_cold d m room sz su Fu Hs Pu) as Hcold.
  assert (Ed : receiptDataStream (db su) = receiptDataStream d) by (unfold streamPart in Pu; by injection Pu).
  assert (Er : streamRows (db su) room = streamRows d room) by (unfold streamRows; by rewrite Ed).
  destruct (ops_cold (receiptDataStream d) _ os su room Hcold) as (s0 & l0 & E0 & W0); [by rewrite Er|done|done|]. rewrite Er in W0. fold its in W0.
  destruct (flush_warm (receiptDataStream d) _ s0 room its l0 W0 Ho) as (s1 & l1 & E1 & W1 & A1).
  assert (Hits : its <> []) by (unfold its; intros [_ ?]%app_eq_nil; done).
  destruct (warm_stored _ _ s1 room its l1 W1 A1 Hits) as (tl & Et & Hi).
  assert (Hcur : map itemOf l1 = current its).
  { pose proof (wa_shows _ _ _ _ _ _ W1) as Hshow. unfold streamShows in Hshow. destruct (last its) as [x|] eqn:Ex; [|by apply last_None in Ex].
    by destruct Hshow as (? & _ & _ & _ & ?). }
  pose proof (wa_written _ _ _ _ _ _ W1) as Wr1.
  destruct (restart_current _ _ (db s1) room its l1 Wr1 A1 Hcur Ho Hits) as (Ho2 & Ec2 & Hne2).
  destruct (load_warm (receiptDataStream (db s1)) (userReceiptData (db s1)) (NewRepos sz (db s1) m2) room) as (s2 & l2 & E2 & W2 & A2 & _);
    [by apply (new_cold (db s1) m2 room sz (NewRepos sz (db s1) m2)); [apply Wr1|..]|done|].
  destruct (warm_stored _ _ s2 room _ l2 W2 A2 Hne2) as (tl2 & Et2 & Hi2). cbn [db NewRepos] in *. rewrite Ec2 in Hi2.
  exists su, s1, tl, s2, tl2. split_and!; try done.
  - rewrite (runOps_app os [OpFlush] _ s0 E0). cbn [runOps]. unfold mbind, ST_bind. by rewrite E1.
  - unfold GetReceiptHistory, mbind, ST_bind in Et2 |- *. rewrite decide_True in Et2 by apply W2.
    rewrite decide_False by (cbn; set_solver). by rewrite E2.
  - intros u off c Hu. destruct (user_cold room (NewRepos sz (db s1) m2) u) as (g & r & E & _ & _ & Hrow); [apply Wr1|done|cbn; set_solver|].
    cbn [db NewRepos] in Hrow. rewrite (wr_users _ _ _ _ _ _ Wr1) in Hrow. rewrite (Hrow off c (Hmarks u off c Hu)) in E.
    unfold GetLatestOffset, GetLatestReceipt, mbind, ST_bind. by rewrite E.
Qed.

End Restart.

(** ** Receipts that are lost *)

(** A receipt that arrives before the key of its user is loaded is lost: the load
    overwrites it with the row of the table, marked as written, and the flush writes
    nothing. *)
Theorem unloaded_receipt_lost `{RoomMembers M} `{GoRange} (s : Repos M) (r : UserReceipt) (off : Z) (content : string) :
  let key := receiptKey (urRoomID r) (urUserID r) in
  key ∉ ready (urGate s) -> key ∉ loading (urGate s) -> urUpdated s = ∅ -> faults (db s) = [] ->
  userReceiptData (db s) !! (urUserID r, urRoomID r) = Some (off, content) ->
  exists s1 s2, GetLatestOffset (urUserID r) (urRoomID r) (AddUserReceipt r s) = (Ok off, s1) /\
    flushUserReceipts s1 = (Ok (), s2) /\ userReceiptData (db s2) = userReceiptData (db s) /\ urUpdated s2 = ∅.
Proof.
  intros key Hr Hl Hu Hf Hrow. unfold GetLatestOffset, latestReceipt, mbind, ST_bind. cbn [AddUserReceipt set_receipt urGate].
  fold key. rewrite decide_False by done. unfold LoadUserHistory, LoadHistory, LoadWith, loadNew. cbn [gate user_loads set_receipt urGate].
  rewrite !decide_False by done. unfold mbind, ST_bind, onGate. cbn [gate set_gate user_loads set_receipt set_urGate urGate].
  unfold loadHistory. cbn [body user_loads]. unfold user_load, onSql, GetUserHistoryReceiptData, exec, mbind, ST_bind.
  cbn [db set_receipt set_urGate AddUserReceipt]. rewrite Hf. cbn [tail userReceiptData]. rewrite Hrow. cbn. fold key.
  rewrite lookup_insert_eq. eexists _, _. split; [done|]. unfold flushUserReceipts. cbn. rewrite Hu.
  destruct (only_key (<[key := true]> (∅ : gmap string bool)) key) as [->|[_ Hn]]; [intros k Hk; rewrite lookup_insert_ne; [apply lookup_empty|congruence]| |
    by rewrite lookup_insert_eq in Hn].
  cbn [flushUsers]. unfold mbind, ST_bind, flushUser. cbn. rewrite lookup_insert_eq. cbn. split_and!; [done|done|].
  rewrite delete_insert_eq. apply delete_empty.
Qed.

Definition sampleItem : Item := (7, mkReceiptStream "!r:a" "read" 5).

#[local] Instance noMembers : RoomMembers unit := { joined _ _ := Some []; LoadStreamStates _ m := m }.

Lemma unloaded_receipt_lost_witness :
  let d := mkSyncDb {[("@u:a", "!r:a") := (3, "old")]} ∅ [] in
  exists s1 s2, GetLatestOffset "@u:a" "!r:a" (AddUserReceipt (mkUserReceipt "@u:a" "!r:a" 5 (Some "new") false) (NewRepos 4 d ())) = (Ok 3, s1) /\
    flushUserReceipts s1 = (Ok (), s2) /\ userReceiptData (db s2) = userReceiptData d /\ urUpdated s2 = ∅.
Proof.
  intros d. apply (unloaded_receipt_lost (NewRepos 4 d ()) (mkUserReceipt "@u:a" "!r:a" 5 (Some "new") false) 3 "old");
    [set_solver|set_solver|done|done|by vm_compute].
Defined.

(** A room whose flush failed is not flushed again: the third statement, the
    insertion, fails, and the next flush, with a database that works, writes nothing,
    while the process shows the receipt. *)
Theorem failed_flush_not_retried :
  let s := NewRepos 4 (mkSyncDb ∅ ∅ [false; false; true]) () in
  exists s1, runOps [OpAdd sampleItem; OpFlush; OpFlush] s = (Ok (), s1) /\ faults (db s1) = [] /\
    receiptDataStream (db s1) = ∅ /\ updatedRoom s1 = ∅ /\ GetReceiptLastOffset s1 "!r:a" = 7.
Proof. eexists. vm_compute. by split_and!. Qed.

Lemma receipts_survive_restart_witness :
  let d := mkSyncDb {[("@u:a", "!r:a") := (3, "old")]} {[3 := (4, "!r:a", "first")]} [] in
  let us := [UMark "@u:a" 4 "new"; UFlush; UMark "@v:a" 4 "other"; UMark "@u:a" 5 "newer"] in
  let os := [OpAdd sampleItem; OpFlush; OpAdd (9, mkReceiptStream "!r:a" "more" 5)] in
  exists s0 s1 tl s2 tl2, runUserOps "!r:a" (us ++ [UFlush]) (NewRepos 4 d ()) = (Ok (), s0) /\ runOps (os ++ [OpFlush]) s0 = (Ok (), s1) /\
    GetReceiptHistory "!r:a" s1 = (Ok (Some tl), s1) /\ Inv tl (stored (current (streamRows d "!r:a" ++ added os))) /\
    GetReceiptHistory "!r:a" (NewRepos 4 (db s1) ()) = (Ok (Some tl2), s2) /\
    Inv tl2 (stored (current (streamRows d "!r:a" ++ added os))) /\
    forall u off c, lastMarks us !! u = Some (off, c) ->
      (GetLatestOffset u "!r:a" (NewRepos 4 (db s1) ())).1 = Ok off /\ (GetLatestReceipt u "!r:a" (NewRepos 4 (db s1) ())).1 = Ok (Some c).
Proof.
  intros d us os. apply (receipts_survive_restart d () () "!r:a" 4 us os); [done|lia|done| |].
  - assert (E : (streamRows d "!r:a" ++ added os)%list = [(3, mkReceiptStream "!r:a" "first" 4); sampleItem; (9, mkReceiptStream "!r:a" "more" 5)])
      by (by vm_compute).
    rewrite E. split; repeat constructor; cbn; lia.
  - by repeat constructor.
Defined.

End ReceiptFacts.
