(* ===== verification/ReceiptDelivery.v ===== *)
(** * From a receipt to the syncs of the members

    The consumer of receipts, the repositories and the answers to syncs together.

    - [receipt_reaches_members]: a receipt for the last message resets the unread
      count of its user, and when the timer fires next every member gets it.
    - [superseded_receipt_lost]: a receipt that waits for the timer is dropped when
      one for a newer event arrives. *)

From Stdlib Require Import Ascii String ZArith List Lia Sorted Permutation.
From stdpp Require Import base tactics list gmap strings.
From S2P Require Import Prelude Snowflake Timeline TimelineRepo Loader SyncHistory SyncHistoryFacts Ids Push Receipts ReceiptConsumer ReceiptFacts.

#[local] Open Scope string_scope.
#[local] Open Scope Z_scope.

Module ReceiptDelivery.
Import Timeline TimelineRepo Loader SyncHistory SyncHistoryFacts Receipts ReceiptConsumer ReceiptFacts.

#[local] Existing Instance Receipts.stream_loads.

(** ** Reading a timeline *)

Lemma ForRange_all {F} `{Feed F} (tl : TimeLines F) (l : list F) : Rep tl l ->
  ForRange tl (fun l _ feed => (l ++ option_list feed, true)%list) [] = Ok l.
Proof.
  intros R. destruct (GetRange_rep tl l R) as (E & En & _). unfold ForRange. rewrite E, En.
  assert (Hn : forall n k acc, (k + n = length l)%nat ->
    walk tl (fun l _ feed => (l ++ option_list feed, true)%list) (seq (offset tl - size tl + k) n) acc = Ok (acc ++ drop k l)%list).
  { intros n. induction n as [|n IH]; intros k acc Hk; [rewrite drop_ge, app_nil_r by lia; done|].
    destruct (lookup_lt_is_Some_2 l k) as [x Hx]; [lia|]. cbn [seq walk]. rewrite (getFeed_rep _ _ _ _ R Hx). cbn.
    replace (S (offset tl - size tl + k)) with (offset tl - size tl + S k)%nat by lia. rewrite IH by lia.
    rewrite (drop_S _ _ _ Hx). by rewrite <- app_assoc. }
  specialize (Hn (length l) 0%nat [] eq_refl). by rewrite Nat.add_0_r in Hn.
Qed.

Lemma upper_bound {F} `{Feed F} (tl : TimeLines F) (l : list F) x : Bounds tl l -> x ∈ l -> GetOffset x <= upper tl.
Proof.
  intros Hb Hx. destruct l as [|y l]; [by apply elem_of_nil in Hx|]. destruct Hb as (_ & _ & Hall).
  rewrite Forall_forall in Hall. by apply Hall in Hx as [_ [_ ?]].
Qed.

Lemma range_singleton `{GoRange} {A} k (v : A) : range ({[k := v]} : gmap string A) = [(k, v)].
Proof. apply Permutation_length_1_inv. by rewrite range_perm, map_to_list_singleton. Qed.

Section Delivery.
  Context {M : Type} `{RoomMembers M} `{GoRange} {D : Type} `{HistoryDb D} `{ReceiptJson}.
  Context (dm : option (Ids.DomainMng * Ids.DomainSrc)) (ServerName : list string).
  Implicit Types (c : Consumer M D) (s : Repos M).

(** ** Adding an item to the stream *)

Lemma raise_at m key off : exists n, raise m key off !! key = Some n /\ off <= n.
Proof using.
  unfold raise. destruct (m !! key) as [v|] eqn:E; [|exists off; by rewrite lookup_insert_eq].
  destruct (Z.ltb_spec v off); [exists off; by rewrite lookup_insert_eq|]. exists v. split; [done|lia].
Qed.

Lemma raise_mono m k key off n : m !! k = Some n -> exists n', raise m key off !! k = Some n' /\ n <= n'.
Proof using.
  intros Hk. unfold raise. destruct (decide (key = k)) as [->|Hne].
  - rewrite Hk. destruct (Z.ltb_spec n off); [exists off; rewrite lookup_insert_eq; split; [done|lia]|by exists n].
  - destruct (m !! key) as [v|]; [destruct (v <? off)|]; rewrite ?lookup_insert_ne by done; by exists n.
Qed.

Lemma setUsersLatest_at users off : forall s,
  (forall v n, userMaxStream s !! v = Some n -> exists n', userMaxStream (setUsersLatest users off s) !! v = Some n' /\ n <= n') /\
  (forall v, v ∈ users -> exists n, userMaxStream (setUsersLatest users off s) !! v = Some n /\ off <= n).
Proof using.
  induction users as [|u users IH]; intros s; [split; [intros v n E; by exists n|by intros v ?%elem_of_nil]|].
  destruct (IH (setUserLatest u off s)) as [Hm Ha]. split.
  - intros v n E. destruct (raise_mono _ v u off n E) as (n1 & E1 & Hle). destruct (Hm v n1 E1) as (n2 & E2 & Hle2).
    exists n2. split; [exact E2|lia].
  - intros v [->|Hv]%elem_of_cons; [|by apply Ha]. destruct (raise_at (userMaxStream s) u off) as (n & E & Hle).
    destruct (Hm u n E) as (n2 & E2 & Hle2). exists n2. split; [exact E2|lia].
Qed.

Lemma addStream_latest ds off (w : bool) s s' users : addReceiptDataStream ds off w s = (Ok (), s') ->
  joined (members s) (srRoomID ds) = Some users ->
  members s' = members s /\ receipt s' = receipt s /\ urUpdated s' = urUpdated s /\
  (forall v, v ∈ users -> exists n, userMaxStream s' !! v = Some n /\ off <= n) /\
  exists n, rsLatest s' !! srRoomID ds = Some n /\ off <= n.
Proof using.
  unfold addReceiptDataStream. cbv zeta. intros E Hj. destruct (Add _ _) as [[tl f]| | |]; try discriminate. injection E as <-.
  set (s1 := set_container s _). unfold setJoinUsersLatest. change (members s1) with (members s). rewrite Hj.
  destruct (setUsersLatest_at users off s1) as [_ Ha]. destruct (setUsersLatest_same users off s1) as (u & Es). rewrite Es in *.
  set (s2 := if w then _ else _). assert (Es2 : members s2 = members s /\ receipt s2 = receipt s /\ urUpdated s2 = urUpdated s /\ userMaxStream s2 = u)
    by (unfold s2; by destruct w).
  destruct Es2 as (Em & Er & Eu & Ex). unfold setReceiptLatest. cbn [set_rsLatest members receipt urUpdated userMaxStream rsLatest].
  split_and!; try done; [by rewrite Ex|]. apply raise_at.
Qed.

(** ** Answering a sync *)

Lemma addFeeds_delivers room from maxPos feeds j x : forall acc, acc.2 <= rdOffset x -> 0 < rdOffset x ->
  (forall f, f ∈ feeds -> rdOffset f <= rdOffset x) -> from < rdOffset x <= maxPos ->
  srContent (DataStream x) = j -> decodes j = true ->
  exists e, addFeeds room from maxPos (feeds ++ [x]) acc = (addEphemeral room j e, rdOffset x).
Proof using.
  intros acc Hacc Hpos Hf Hin Hj Hd. unfold addFeeds. rewrite fold_left_app. cbn [fold_left].
  assert (Hle : (addFeeds room from maxPos feeds acc).2 <= rdOffset x).
  { revert acc Hacc. unfold addFeeds. induction feeds as [|f feeds IH]; intros acc Hacc; [done|]. cbn. apply IH.
    - intros g Hg. apply Hf. by right.
    - specialize (Hf f ltac:(by left)). repeat case_match; cbn; lia. }
  fold (addFeeds room from maxPos feeds acc). rewrite Hj, Hd.
  destruct (Z.ltb_spec from (rdOffset x)); [|lia]. destruct (Z.leb_spec (rdOffset x) maxPos); [|lia]. cbn.
  eexists. f_equal. lia.
Qed.

(** The room shows a stream that ends with [x], and every member has its position. *)
Record Delivered s room (users : list string) (id : Z) (j : string) : Prop := {
  de_ready : room ∈ ready (rsGate s);
  de_shows : exists off its l f, streamShows s room (its ++ [(id, mkReceiptStream room j off)]) (l ++ [f]) /\
                orderly room (its ++ [(id, mkReceiptStream room j off)]);
  de_users : forall v, v ∈ users -> exists n, userMaxStream s !! v = Some n /\ id <= n;
  de_latest : exists n, rsLatest s !! room = Some n /\ id <= n;
}.

Lemma sync_delivers s room users id j v from maxPos resp : Delivered s room users id j -> decodes j = true -> v ∈ users ->
  from < id <= maxPos ->
  exists resp', addReceipt (mkSyncRequest v [room] from false) maxPos resp s = (Ok resp', s) /\
    (exists l, Ephemeral resp' !! room = Some l /\ j ∈ l) /\ MaxReceiptOffset resp' = id.
Proof using.
  intros [Hr (off & its & l & f & Hshow & Hord) Hu (n & El & Hn)] Hd Hv Hin. destruct (Hu v Hv) as (m & Em & Hm).
  unfold addReceipt. cbn [sqReceiptOffset sqUserID JoinedRooms]. unfold ExistsReceipt. rewrite Em.
  destruct (Z.ltb_spec from m); [|lia]. cbn [negb addRooms]. unfold mbind at 1, ST_bind at 1, mbind at 1, ST_bind at 1.
  unfold addRoom, GetReceiptLastOffset. rewrite El. cbn [default Datatypes.id sqReceiptOffset]. destruct (Z.leb_spec n from); [lia|].
  unfold GetReceiptHistory, mbind, ST_bind. rewrite decide_True by done. cbn [mret ST_ret].
  unfold streamShows in Hshow. rewrite last_snoc in Hshow. destruct Hshow as (tl & Ec & Hi & _ & Hcur). rewrite Ec.
  cbn [fmap option_fmap option_map Content]. set (x := (id, mkReceiptStream room j off) : Item) in *.
  assert (Hf : itemOf f = x /\ forall g, g ∈ l -> rdOffset g <= rdOffset f).
  { rewrite (current_snoc room), map_app in Hcur by done. apply app_inj_tail in Hcur as [Hl Hfx]. split; [done|].
    intros g Hg. apply elem_item in Hg. assert (Hits : itemOf g ∈ its).
    { rewrite Hl in Hg. destruct (last its) as [y|]; [|by apply elem_of_nil in Hg]. destruct (evt y =? evt x); [|by apply elem_of_nil in Hg].
      by apply current_elem in Hg as [? _]. }
    destruct Hord as [Hs _]. pose proof (before_last _ _ _ Hs Hits) as [Hlt _]. rewrite <- Hfx in Hlt. cbn in Hlt. lia. }
  destruct Hf as [Hfx Hle]. assert (Hid : rdOffset f = id) by (by injection Hfx). assert (Hds : DataStream f = mkReceiptStream room j off) by (by injection Hfx).
  assert (Hpos : 0 < id) by (destruct Hord as [_ Ho]; apply Forall_app in Ho as [_ [[? _] _]%Forall_cons]; done).
  assert (Hup : from < (GetFeedRange tl).2).
  { pose proof (upper_bound tl _ f (inv_bounds _ _ Hi) ltac:(apply elem_of_app; right; by left)) as Hb. change (GetOffset f) with (rdOffset f) in Hb. cbn. lia. }
  destruct (Z.ltb_spec from (GetFeedRange tl).2); [|lia]. unfold addSelf. cbn [IsFullSync mret ST_ret]. cbn [snd fst].
  rewrite (ForRange_all tl (l ++ [f]) (inv_rep _ _ Hi)). cbn [liftR].
  destruct (addFeeds_delivers room from maxPos l j f (Ephemeral resp, -1)) as (e & ->); try (cbn; lia); try done.
  { by rewrite Hds. }
  rewrite Hid. cbn [mret ST_ret fst snd]. eexists. split; [done|]. cbn [Ephemeral MaxReceiptOffset].
  unfold addEphemeral. rewrite lookup_insert_eq. split; [|destruct (Z.eqb_spec id (-1)); lia].
  eexists. split; [done|]. apply elem_of_app. right. by left.
Qed.

(** ** Receiving *)

Lemma publish_all {A} (f : A -> Message) (l : list A) : forall c, exists p,
  fold_left (fun c a => publish c (f a)) l c =
    mkConsumer (rooms c) (notifyRoom c) (counts c) (history c) (repos c) (idg c) (idClock c) (published c ++ p)%list.
Proof using.
  induction l as [|a l IH]; intros c; [exists []; rewrite app_nil_r; by destruct c|]. cbn [fold_left].
  destruct (IH (publish c (f a))) as (p & ->). exists (f a :: p). cbn. by rewrite <- app_assoc.
Qed.

Lemma federate_same req c : exists p, federate dm ServerName req c =
  mkConsumer (rooms c) (notifyRoom c) (counts c) (history c) (repos c) (idg c) (idClock c) (published c ++ p)%list.
Proof using.
  assert (Hid : exists p, c = mkConsumer (rooms c) (notifyRoom c) (counts c) (history c) (repos c) (idg c) (idClock c) (published c ++ p)%list)
    by (exists []; rewrite app_nil_r; by destruct c).
  unfold federate. destruct (GetJoinMap c _); [|done]. destruct (Ids.CheckValidDomain _ _ _); [|done].
  apply (publish_all (fun kv : string * bool => ReceiptEdu _ kv.1 req)).
Qed.

Definition idOf (e : StreamEvent) : string := ceEventID (seEv e).

(** The receipts of the users that wait for the timer, for the event [ev] at [off]. *)
Definition pending c room ev (off : Z) (m : gmap string Z) : Prop :=
  match rooms c !! room with
  | Some r => if String.eqb (EvID r) ev then EvOffSet r = off /\ rrContent r = m else m = ∅
  | None => m = ∅
  end.

Lemma mark_new req off now c m : pending c (rcRoomID req) (rcEventID req) off m -> m !! rcUserID req = None ->
  exists rr, mark req off now c = (set_notify (set_rooms c (<[rcRoomID req := mkRoomReceipt rr (rcEventID req) off (<[rcUserID req := now * 1000]> m)]> (rooms c)))
    (<[rcRoomID req := true]> (notifyRoom c)), true).
Proof using.
  intros Hp Hn. unfold pending in Hp. unfold mark, note. destruct (rooms c !! rcRoomID req) as [r|]; cbn [default Datatypes.id].
  - destruct (String.eqb_spec (EvID r) (rcEventID req)) as [E|E].
    + destruct Hp as [<- <-]. rewrite Hn. exists (rrRoomID r). cbn. rewrite insert_insert_eq, E. done.
    + subst m. exists (rrRoomID r). cbn. by rewrite insert_insert_eq.
  - subst m. cbn [EvID]. rewrite String.eqb_refl. cbn [rrContent]. rewrite lookup_empty. eexists. cbn. by rewrite insert_insert_eq.
Qed.

Lemma find_only (l : list StreamEvent) (e : StreamEvent) : NoDup (map idOf l) -> e ∈ l ->
  List.find (fun x => String.eqb (ceEventID (seEv x)) (idOf e)) (reverse l) = Some e.
Proof using.
  intros Hn He. assert (Hr : NoDup (map idOf (reverse l))) by (by rewrite reverse_Permutation).
  apply elem_of_reverse in He. induction (reverse l) as [|x r IH]; [by apply elem_of_nil in He|]. cbn in Hr |- *.
  apply NoDup_cons in Hr as [Hx Hr]. fold (idOf x). apply elem_of_cons in He as [->|He]; [by rewrite String.eqb_refl|].
  destruct (String.eqb_spec (idOf x) (idOf e)) as [E|_]; [|by apply IH]. exfalso. apply Hx. rewrite E. by apply list_elem_of_fmap_2.
Qed.

(** What a receipt for the last message does. *)
Lemma on_last req now c users l e m : joined (members (repos c)) (rcRoomID req) = Some users -> rcUserID req ∈ users ->
  HistoryInv (history c) -> shows (history c) (rcRoomID req) l -> rcRoomID req ∈ ready (hGate (history c)) ->
  NoDup (map idOf l) -> List.find isMessage (reverse l) = Some e -> rcEventID req = idOf e -> idOf e <> "" ->
  pending c (rcRoomID req) (idOf e) (seOffset e) m -> m !! rcUserID req = None ->
  exists rr h p, OnReceipt dm ServerName req now c =
    (Ok (), mkConsumer (<[rcRoomID req := mkRoomReceipt rr (idOf e) (seOffset e) (<[rcUserID req := now * 1000]> m)]> (rooms c))
              (<[rcRoomID req := true]> (notifyRoom c)) (Push.UpdateRoomReadCount (counts c) (rcRoomID req) (rcUserID req) Push.Reset)
              h (repos c) (idg c) (idClock c) (published c ++ p)%list).
Proof using.
  intros Hj Hu Hh Hshow Hready Hnd Hlast Hid Hne Hp Hm. assert (Hel : e ∈ l).
  { apply List.find_some in Hlast as [Hin _]. by rewrite <- list_elem_of_In, elem_of_reverse in Hin. }
  assert (Hin : is_Some (get (repo (history c)) (rcRoomID req))).
  { unfold shows in Hshow. destruct (get _ _); [by eexists|]. subst l. by apply elem_of_nil in Hel. }
  unfold OnReceipt, loadMembers, GetJoinMap. rewrite Hj. cbv zeta. rewrite Hj.
  replace (existsb (String.eqb (rcUserID req)) users) with true
    by (symmetry; apply existsb_exists; exists (rcUserID req); split; [by apply list_elem_of_In|apply String.eqb_refl]).
  cbn [negb]. destruct (warm_lastMessage _ _ _ Hh Hshow Hready Hin) as (h1 & E1 & Hh1 & G1 & _ & S1 & Eg1).
  unfold mbind, ST_bind, onHistory. rewrite E1, Hlast. cbn [fst]. fold (idOf e).
  rewrite Hid, (proj2 (String.eqb_neq _ _) Hne), Hid, (proj2 (String.eqb_neq _ _) Hne). cbn [set_history history].
  destruct (warm_streamEv h1 (rcRoomID req) l (idOf e) Hh1 S1) as (h2 & E2 & _); [by rewrite G1|by rewrite Eg1|].
  rewrite E2, (find_only l e Hnd Hel), String.eqb_refl. cbn [orb].
  set (c2 := set_history _ h2). rewrite <- Hid in Hp.
  destruct (mark_new req (seOffset e) now c2 m Hp Hm) as (rr & ->). rewrite Hid.
  destruct (federate_same req (set_counts (set_notify (set_rooms c2 (<[rcRoomID req := mkRoomReceipt rr (idOf e) (seOffset e) (<[rcUserID req := now * 1000]> m)]> (rooms c2)))
    (<[rcRoomID req := true]> (notifyRoom c2))) (Push.UpdateRoomReadCount (counts c2) (rcRoomID req) (rcUserID req) Push.Reset))) as (p & Ef).
  exists rr, h2, p. cbn. cbn in Ef. by rewrite Ef.
Qed.

(** ** Firing *)

Definition userJson (ev : string) (v : string) (ts : Z) : option string :=
  match marshalReceipt ev {[ v := ts ]} with Ok j => Some j | _ => None end.

Lemma addUserReceipts_list room ev off (l : list (string * Z)) : forall s, exists r u,
  fold_left (fun s kv => AddUserReceipt (mkUserReceipt kv.1 room off (userJson ev kv.1 kv.2) false) s) l s = set_receipt s r u /\
  (forall k, (forall v, v ∈ l.*1 -> k <> receiptKey room v) -> r !! k = receipt s !! k) /\
  (NoDup l.*1 -> forall v ts, (v, ts) ∈ l -> r !! receiptKey room v = Some (mkUserReceipt v room off (userJson ev v ts) false)).
Proof using.
  induction l as [|[a t] l IH]; intros s; cbn [fold_left fst snd].
  { exists (receipt s), (urUpdated s). split_and!; [by destruct s|done|]. by intros _ v ts ?%elem_of_nil. }
  destruct (IH (AddUserReceipt (mkUserReceipt a room off (userJson ev a t) false) s)) as (r & u & -> & Hk & Hl). exists r, u.
  split_and!; [done| |].
  - intros k Hne. rewrite Hk by (intros v Hv; apply Hne; by right). cbn. rewrite lookup_insert_ne; [done|].
    intros E. apply (Hne a); [by left|]. by rewrite <- E.
  - intros [Ha Hn]%NoDup_cons v ts [[= -> ->]|Hv]%elem_of_cons; [|by apply Hl]. rewrite Hk.
    + cbn. by rewrite lookup_insert_eq.
    + intros v Hv E%receiptKey_inj. by subst.
Qed.

Lemma addUserReceipts_at room ev off users s : exists r u, addUserReceipts room ev off users s = set_receipt s r u /\
  (forall v ts, users !! v = Some ts -> r !! receiptKey room v = Some (mkUserReceipt v room off (userJson ev v ts) false)) /\
  (forall v, users !! v = None -> r !! receiptKey room v = receipt s !! receiptKey room v).
Proof using.
  destruct (addUserReceipts_list room ev off (range users) s) as (r & u & E & Hk & Hl). exists r, u. split_and!; [exact E| |].
  - intros v ts Hv. apply Hl; [|by apply range_elem]. rewrite range_perm. apply NoDup_fst_map_to_list.
  - intros v Hv. apply Hk. intros w [[w' t] [-> Hw%range_elem]]%list_elem_of_fmap E2%receiptKey_inj. cbn in E2. by simplify_eq.
Qed.

Lemma fire_one c room rr ev off (m : gmap string Z) users its l id g clk j :
  rooms c !! room = Some (mkRoomReceipt rr ev off m) -> notifyRoom c !! room = Some true ->
  (forall r, r <> room -> notifyRoom c !! r = None) ->
  joined (members (repos c)) room = Some users ->
  room ∈ ready (rsGate (repos c)) -> streamShows (repos c) room its l -> (0 < rsTlSize (repos c))%nat ->
  orderly room (its ++ [(id, mkReceiptStream room j off)]) ->
  Snowflake.Next (idg c) (idClock c) = Some (id, g, clk) ->
  marshalReceipt ev m = Ok j -> unmarshalReceipt j = Ok {[ ev := m ]} ->
  exists c', fireReceipt c = (Ok (), c') /\ Delivered (repos c') room users id j /\ counts c' = counts c /\
    (exists p, published c' = p ++ [ReceiptUpdate room id users])%list /\
    (forall v ts, m !! v = Some ts -> receipt (repos c') !! receiptKey room v = Some (mkUserReceipt v room off (userJson ev v ts) false)) /\
    (forall v, m !! v = None -> receipt (repos c') !! receiptKey room v = receipt (repos c) !! receiptKey room v) /\
    rooms c' !! room = Some (mkRoomReceipt rr ev off ∅) /\ (forall r, notifyRoom c' !! r = None).
Proof using.
  intros Hr Hn Honly Hj Hready Hshow Hsz Hord Hnext Hmar Hun. unfold fireReceipt.
  destruct (only_key (notifyRoom c) room Honly) as [->|[_ Hnone]]; [|by rewrite Hn in Hnone].
  cbn [fireRooms]. unfold mbind, ST_bind, fireRoomReceipt. cbn [rooms set_notify]. rewrite Hr. cbn [EvID rrContent EvOffSet rrRoomID].
  rewrite Hmar. cbn [idg idClock set_rooms set_notify]. rewrite Hnext. unfold flushReceiptUpdate. rewrite Hun, range_singleton.
  cbn [fold_left fst snd]. set (c1 := set_idg _ g clk). change (repos c1) with (repos c).
  destruct (addUserReceipts_at room ev off m (repos c)) as (r & u & -> & Hrec & Hold).
  unfold mbind, ST_bind, onRepos. cbn [set_repos repos]. unfold AddReceiptDataStream, mbind, ST_bind. cbn [srRoomID].
  set (s1 := set_receipt (repos c) r u). assert (El : LoadStreamHistory room true s1 = (Ok (), s1)).
  { unfold LoadStreamHistory, LoadHistory, LoadWith. cbn [gate stream_loads]. by rewrite decide_True. }
  rewrite El. destruct (addStream_shows s1 room its l (id, mkReceiptStream room j off) false Hshow Hord Hsz) as (s2 & E2 & S2 & _ & G2 & _).
  cbn [fst snd] in E2. rewrite E2. destruct (addStream_latest _ _ _ _ _ users E2 Hj) as (Em & Er & _ & Hu & Hlat).
  cbn [srRoomID] in Hlat. cbn [set_repos repos]. unfold pubReceiptUpdate, GetJoinMap. cbn [repos set_repos]. rewrite Em.
  change (members s1) with (members (repos c)). rewrite Hj. eexists. split; [done|]. split_and!.
  - split; cbn [repos publish set_repos]; [by rewrite G2|by eexists off, its, _, _|done|done].
  - done.
  - cbn. by eexists.
  - intros v ts Hv. cbn. rewrite Er. by apply Hrec.
  - intros v Hv. cbn. rewrite Er. by apply Hold.
  - cbn. apply lookup_insert_eq.
  - intros r'. cbn. destruct (decide (r' = room)) as [->|Hne]; [apply lookup_delete_eq|]. rewrite lookup_delete_ne by done. by apply Honly.
Qed.

(** C18: A receipt for the last message of a room reaches every member when the timer
    fires next. When a joined user marks the last message as read, with the receipts
    [m] of other users for the same message already waiting and nothing waiting for
    another room, the unread count of the user is reset; when then the timer fires,
    the receipts of all of them are stored with the offset of the event and the update
    is published; and every member who syncs from a position before the new item (and
    up to one that is not before it) gets the receipts and that position. *)
Theorem receipt_reaches_members req now c users l e (m : gmap string Z) its ls id g clk j :
  let room := rcRoomID req in
  let read := <[rcUserID req := now * 1000]> m in
  joined (members (repos c)) room = Some users -> rcUserID req ∈ users ->
  HistoryInv (history c) -> shows (history c) room l -> room ∈ ready (hGate (history c)) -> NoDup (map idOf l) ->
  List.find isMessage (reverse l) = Some e -> rcEventID req = idOf e -> idOf e <> "" ->
  pending c room (idOf e) (seOffset e) m -> m !! rcUserID req = None -> (forall r, r <> room -> notifyRoom c !! r = None) ->
  room ∈ ready (rsGate (repos c)) -> streamShows (repos c) room its ls -> (0 < rsTlSize (repos c))%nat ->
  orderly room (its ++ [(id, mkReceiptStream room j (seOffset e))]) ->
  Snowflake.Next (idg c) (idClock c) = Some (id, g, clk) ->
  marshalReceipt (idOf e) read = Ok j -> unmarshalReceipt j = Ok {[ idOf e := read ]} -> decodes j = true ->
  exists c1 c2 p, OnReceipt dm ServerName req now c = (Ok (), c1) /\
    (Push.GetRoomReadCount (counts c1) room (rcUserID req)).1 = (0, 0) /\
    fireReceipt c1 = (Ok (), c2) /\ published c2 = (p ++ [ReceiptUpdate room id users])%list /\
    (forall v ts, read !! v = Some ts ->
       receipt (repos c2) !! receiptKey room v = Some (mkUserReceipt v room (seOffset e) (userJson (idOf e) v ts) false)) /\
    (forall v from maxPos resp, v ∈ users -> from < id <= maxPos ->
       exists resp', addReceipt (mkSyncRequest v [room] from false) maxPos resp (repos c2) = (Ok resp', repos c2) /\
         (exists es, Ephemeral resp' !! room = Some es /\ j ∈ es) /\ MaxReceiptOffset resp' = id).
Proof using.
  intros room read Hj Hu Hh Hshow Hready Hnd Hlast Hid Hne Hp Hm Honly Hrdy Hstream Hsz Hord Hnext Hmar Hun Hdec.
  destruct (on_last req now c users l e m Hj Hu Hh Hshow Hready Hnd Hlast Hid Hne Hp Hm) as (rr & h & p0 & E1). fold room read in E1.
  set (c1 := mkConsumer _ _ _ _ _ _ _ _) in E1.
  destruct (fire_one c1 room rr (idOf e) (seOffset e) read users its ls id g clk j) as (c2 & E2 & Hd & Ec & (p & Ep) & Hrec & _); try done.
  { cbn. apply lookup_insert_eq. }
  { cbn. apply lookup_insert_eq. }
  { intros r Hr. cbn. rewrite lookup_insert_ne by done. by apply Honly. }
  exists c1, c2, p. split_and!; try done.
  - unfold Push.GetRoomReadCount, c1. cbn. do 3 (rewrite !lookup_insert_eq; cbn). done.
  - intros v from maxPos resp Hv Hin. by apply (sync_delivers _ _ users).
Qed.

(** A receipt that waits for the timer is lost when one for a newer event arrives.
    The receipt of [w] for an older event was accepted; after a receipt of another user
    for the last message and the firing of the timer nothing is stored for [w], nothing
    waits any more, and what the members get does not name [w]. *)
Theorem superseded_receipt_lost req now c users l e its ls id g clk j r w t :
  let room := rcRoomID req in
  let read := {[rcUserID req := now * 1000]} : gmap string Z in
  rooms c !! room = Some r -> EvID r <> idOf e -> rrContent r !! w = Some t -> w <> rcUserID req ->
  joined (members (repos c)) room = Some users -> rcUserID req ∈ users ->
  HistoryInv (history c) -> shows (history c) room l -> room ∈ ready (hGate (history c)) -> NoDup (map idOf l) ->
  List.find isMessage (reverse l) = Some e -> rcEventID req = idOf e -> idOf e <> "" ->
  (forall r, r <> room -> notifyRoom c !! r = None) ->
  room ∈ ready (rsGate (repos c)) -> streamShows (repos c) room its ls -> (0 < rsTlSize (repos c))%nat ->
  orderly room (its ++ [(id, mkReceiptStream room j (seOffset e))]) ->
  Snowflake.Next (idg c) (idClock c) = Some (id, g, clk) ->
  marshalReceipt (idOf e) read = Ok j -> unmarshalReceipt j = Ok {[ idOf e := read ]} ->
  exists c1 c2, OnReceipt dm ServerName req now c = (Ok (), c1) /\ fireReceipt c1 = (Ok (), c2) /\
    receipt (repos c2) !! receiptKey room w = receipt (repos c) !! receiptKey room w /\
    rrContent <$> rooms c2 !! room = Some ∅ /\ (forall r, notifyRoom c2 !! r = None) /\
    (forall ev u, unmarshalReceipt j = Ok u -> (u !! ev) ≫= (fun us => us !! w) = None).
Proof using.
  intros room read Hr Hev Hw Hne2 Hj Hu Hh Hshow Hready Hnd Hlast Hid Hne Honly Hrdy Hstream Hsz Hord Hnext Hmar Hun.
  assert (Hp : pending c room (idOf e) (seOffset e) ∅) by (unfold pending; by rewrite Hr, (proj2 (String.eqb_neq _ _) Hev)).
  destruct (on_last req now c users l e ∅ Hj Hu Hh Hshow Hready Hnd Hlast Hid Hne Hp) as (rr & h & p0 & E1); [apply lookup_empty|].
  fold room in E1. change (<[rcUserID req := now * 1000]> ∅) with read in E1. set (c1 := mkConsumer _ _ _ _ _ _ _ _) in E1.
  destruct (fire_one c1 room rr (idOf e) (seOffset e) read users its ls id g clk j) as (c2 & E2 & _ & _ & _ & _ & Hold & Hroom & Hnone); try done.
  { cbn. apply lookup_insert_eq. }
  { cbn. apply lookup_insert_eq. }
  { intros r' Hr'. cbn. rewrite lookup_insert_ne by done. by apply Honly. }
  assert (Hno : read !! w = None) by (by apply lookup_singleton_ne).
  exists c1, c2. split_and!; try done; [by apply Hold|by rewrite Hroom|]. intros ev u E. rewrite Hun in E. injection E as <-.
  destruct (decide (ev = idOf e)) as [->|Hx]; [rewrite lookup_singleton_eq|rewrite lookup_singleton_ne by done; done]. done.
Qed.

End Delivery.

(** ** A room of two members *)

(** A codec for receipts: the code of the pair, in binary. *)
Fixpoint bits (p : positive) : string :=
  match p with
  | xH => ""
  | xO q => String "0"%char (bits q)
  | xI q => String "1"%char (bits q)
  end.

Fixpoint unbits (s : string) : option positive :=
  match s with
  | "" => Some xH
  | String "0"%char r => xO <$> unbits r
  | String "1"%char r => xI <$> unbits r
  | _ => None
  end.

#[local] Instance binaryJson : ReceiptJson := {
  marshalReceipt id m := Ok (bits (encode (id, m)));
  decodes s := match unbits s with Some _ => true | None => false end;
  unmarshalReceipt s :=
    match unbits s ≫= (fun p => decode p : option (string * gmap string Z)) with
    | Some (id, m) => Ok {[ id := m ]}
    | None => Err (ErrMsg "json")
    end;
}.

Lemma unbits_bits p : unbits (bits p) = Some p.
Proof. induction p as [p IH|p IH|]; cbn; by rewrite ?IH. Qed.

Lemma binary_roundtrip id (m : gmap string Z) : unmarshalReceipt (bits (encode (id, m))) = Ok {[ id := m ]}.
Proof. cbn [unmarshalReceipt binaryJson]. rewrite unbits_bits. cbn [mbind option_bind]. by rewrite decode_encode. Qed.

#[local] Existing Instance SyncHistoryFacts.sampleDb.
#[local] Instance twoMembers : RoomMembers unit := { joined _ _ := Some ["@u:a"; "@v:a"]; LoadStreamStates _ m := m }.

Definition sampleHistory : RoomHistory unit := (LoadRoomHistory "!r:a" true (NewRoomHistory 4 2 ())).2.

Definition sampleConsumer (rooms : gmap string RoomReceipt) : Consumer unit unit :=
  mkConsumer rooms ((fun _ => true) <$> rooms) (Push.mkCounts ∅ ∅ ∅ ∅) sampleHistory
    (set_rsGate (NewRepos 4 (mkSyncDb ∅ ∅ []) ()) (mkGate ∅ {["!r:a"]} [] []))
    (Snowflake.mkGen 3 3 3 (-1) 0) [1600000000000000000] [].

Definition sampleOld : list StreamEvent :=
  [mkStreamEvent (sampleEv "$1" "m.room.topic") 10; mkStreamEvent (sampleEv "$2" "m.room.message") 20].

Lemma sampleHistory_shows : HistoryInv sampleHistory /\ shows sampleHistory "!r:a" sampleOld /\ "!r:a" ∈ ready (hGate sampleHistory).
Proof.
  destruct (cold_load (NewRoomHistory 4 2 ()) "!r:a" sampleOld ()) as (h & E & Hh & S & R & _);
    [apply sample_inv|set_solver|set_solver|by vm_compute|done|by repeat constructor|unfold ascending; repeat constructor; cbn; lia|].
  unfold sampleHistory. rewrite E. by split_and!.
Qed.

Definition sampleReq : ReceiptContent := mkReceiptContent "@u:a" "d" "!r:a" "m.read" "$2" "".
Definition sampleId : Z := match Snowflake.Next (Snowflake.mkGen 3 3 3 (-1) 0) [1600000000000000000] with Some (id, _, _) => id | None => 0 end.
Definition sampleJson : string := bits (encode ("$2", <["@u:a" := 5 * 1000]> (∅ : gmap string Z))).

Lemma receipt_reaches_members_witness :
  let c := sampleConsumer ∅ in
  exists c1 c2 p, OnReceipt None ["a"] sampleReq 5 c = (Ok (), c1) /\
    (Push.GetRoomReadCount (counts c1) "!r:a" "@u:a").1 = (0, 0) /\
    fireReceipt c1 = (Ok (), c2) /\ published c2 = (p ++ [ReceiptUpdate "!r:a" sampleId ["@u:a"; "@v:a"]])%list /\
    (forall v ts, (<["@u:a" := 5 * 1000]> ∅ : gmap string Z) !! v = Some ts ->
       receipt (repos c2) !! receiptKey "!r:a" v = Some (mkUserReceipt v "!r:a" 20 (userJson "$2" v ts) false)) /\
    (forall v from maxPos resp, v ∈ ["@u:a"; "@v:a"] -> from < sampleId <= maxPos ->
       exists resp', addReceipt (mkSyncRequest v ["!r:a"] from false) maxPos resp (repos c2) = (Ok resp', repos c2) /\
         (exists es, Ephemeral resp' !! "!r:a" = Some es /\ sampleJson ∈ es) /\ MaxReceiptOffset resp' = sampleId).
Proof.
  intros c. destruct sampleHistory_shows as (Hh & Hs & Hr).
  apply (receipt_reaches_members None ["a"] sampleReq 5 c ["@u:a"; "@v:a"] sampleOld (mkStreamEvent (sampleEv "$2" "m.room.message") 20) ∅ [] []
    sampleId (Snowflake.mkGen 3 3 3 1600000000000 0) [] sampleJson);
    [reflexivity|by left|exact Hh|exact Hs|exact Hr|apply (bool_decide_unpack _); by vm_compute|reflexivity|reflexivity|done|reflexivity|
     reflexivity|intros r _; reflexivity|cbn; set_solver|by split|cbn; lia|split; repeat constructor; by vm_compute|reflexivity|
     reflexivity|apply binary_roundtrip|unfold decodes, sampleJson, binaryJson; by rewrite unbits_bits].
Defined.

Lemma superseded_receipt_lost_witness :
  let c := sampleConsumer {["!r:a" := mkRoomReceipt "!r:a" "$0" 5 {["@v:a" := 4000]}]} in
  exists c1 c2, OnReceipt None ["a"] sampleReq 5 c = (Ok (), c1) /\ fireReceipt c1 = (Ok (), c2) /\
    receipt (repos c2) !! receiptKey "!r:a" "@v:a" = receipt (repos c) !! receiptKey "!r:a" "@v:a" /\
    rrContent <$> rooms c2 !! "!r:a" = Some ∅ /\ (forall r, notifyRoom c2 !! r = None) /\
    (forall ev u, unmarshalReceipt sampleJson = Ok u -> (u !! ev) ≫= (fun us => us !! "@v:a") = None).
Proof.
  intros c. destruct sampleHistory_shows as (Hh & Hs & Hr).
  apply (superseded_receipt_lost None ["a"] sampleReq 5 c ["@u:a"; "@v:a"] sampleOld (mkStreamEvent (sampleEv "$2" "m.room.message") 20) [] []
    sampleId (Snowflake.mkGen 3 3 3 1600000000000 0) [] sampleJson (mkRoomReceipt "!r:a" "$0" 5 {["@v:a" := 4000]}) "@v:a" 4000);
    [reflexivity|done|reflexivity|done|reflexivity|by left|exact Hh|exact Hs|exact Hr|apply (bool_decide_unpack _); by vm_compute|reflexivity|reflexivity|done|
     intros r Hne; cbn; by rewrite lookup_fmap, lookup_singleton_ne|cbn; set_solver|by split|cbn; lia|split; repeat constructor; by vm_compute|
     reflexivity|reflexivity|apply binary_roundtrip].
Defined.

End ReceiptDelivery.
