(* ===== verification/SyncRoomState.v ===== *)
(** * The state of a room in the sync server

    [src/model/repos/roomStateRepo.go]: the sync server replays the state events of a
    room to know its members and, for every user, which part of the history the user
    may read.  The history is cut into ranges of time stamps.  The ranges in which the
    room was [shared] ([visiableTl]) and the ranges of a user ([userMemberView]) are
    pointers to [RangeItem]s, and a user's list can hold pointers of the room's list:
    [ranges] is the store the pointers index.

    The JSON of the contents is the class [ContentJson] (decoding errors are ignored by
    the code: the functions give what the target struct holds then).  A nil state key
    that is read makes the code panic.  Backfilled events are inserted into the ranges
    they fall in ([insertIntoRanges]).

    The theorems are in [SyncRoomStateFacts]. *)

From Stdlib Require Import String ZArith List Lia.
From stdpp Require Import base tactics list gmap strings.
From S2P Require Import Prelude Timeline TimelineRepo Loader SyncHistory.

#[local] Open Scope string_scope.
#[local] Open Scope Z_scope.

Module SyncRoomState.
Import SyncHistory.

Record RangeItem := mkRange { Start : Z; End_ : Z; isRef : bool; pairMask : Z }.

Record CreateContent := mkCreate {
  Creator : string;
  Federate : option bool;
  IsDirect : option bool;
  IsChannel : option bool;
  IsSecret : option bool;
}.

Class ContentJson := {
  createOf : string -> CreateContent;
  membershipOf : string -> string;
  joinRuleOf : string -> string;
  historyVisibilityOf : string -> string;
  visibilityOf : string -> string;
  nameOf : string -> string;
  topicOf : string -> string;
  descOf : string -> string;
  aliasOf : string -> string;
  PowerLevels : Type;
  powerOf : string -> PowerLevels;
}.

(** [common.IsStateClientEv]. *)
Definition IsStateClientEv (ev : ClientEvent) : bool :=
  existsb (String.eqb (ceType ev))
    ["m.room.create"; "m.room.member"; "m.room.power_levels"; "m.room.join_rules"; "m.room.history_visibility";
     "m.room.visibility"; "m.room.name"; "m.room.topic"; "m.room.pinned_events"; "m.room.desc"; "m.room.aliases";
     "m.room.canonical_alias"; "m.room.avatar"; "m.room.encryption"; "m.room.third_party_invite"; "m.room.guest_access"].

Section RoomState.
  Context `{ContentJson}.

(** The fields that are only set and read. *)
Record RoomInfo := mkInfo {
  creator : string;
  isDirect : bool;
  federate : bool;
  isChannel : bool;
  isSecret : bool;
  joinRule : string;
  visibility : string;
  name : string;
  topic : string;
  desc : string;
  canonicalAlias : string;
  power : option PowerLevels;
  isEncrypted : bool;
}.

(** State events by type, member events by user, aliases by server. *)
Record StateMaps := mkMaps {
  state : gmap string (option StreamEvent);
  memberState : gmap string (option StreamEvent);
  userAlias : gmap string (option StreamEvent);
}.

Record RoomState := mkRS {
  info : RoomInfo;
  historyVisibility : string;
  historyVisibilityPos : Z;
  join : gmap string Z;
  leave : gmap string Z;
  invite : gmap string Z;
  ranges : list RangeItem;
  visiableTl : list nat;
  createPos : Z;
  userMemberView : gmap string (list nat);
  userMemberViewOk : gset string;
  pre : StateMaps;
  cur : StateMaps;
}.

Definition newRoomState : RoomState :=
  mkRS (mkInfo "" false false false false "" "" "" "" "" "" None false) "" 0 ∅ ∅ ∅ [] [] 0 ∅ ∅ (mkMaps ∅ ∅ ∅) (mkMaps ∅ ∅ ∅).

Definition set_info (rs : RoomState) (i : RoomInfo) : RoomState :=
  mkRS i (historyVisibility rs) (historyVisibilityPos rs) (join rs) (leave rs) (invite rs) (ranges rs) (visiableTl rs) (createPos rs)
    (userMemberView rs) (userMemberViewOk rs) (pre rs) (cur rs).
Definition set_hv (rs : RoomState) (v : string) (p : Z) : RoomState :=
  mkRS (info rs) v p (join rs) (leave rs) (invite rs) (ranges rs) (visiableTl rs) (createPos rs)
    (userMemberView rs) (userMemberViewOk rs) (pre rs) (cur rs).
Definition set_members (rs : RoomState) (j l i : gmap string Z) : RoomState :=
  mkRS (info rs) (historyVisibility rs) (historyVisibilityPos rs) j l i (ranges rs) (visiableTl rs) (createPos rs)
    (userMemberView rs) (userMemberViewOk rs) (pre rs) (cur rs).
Definition set_ranges (rs : RoomState) (r : list RangeItem) : RoomState :=
  mkRS (info rs) (historyVisibility rs) (historyVisibilityPos rs) (join rs) (leave rs) (invite rs) r (visiableTl rs) (createPos rs)
    (userMemberView rs) (userMemberViewOk rs) (pre rs) (cur rs).
Definition set_visiableTl (rs : RoomState) (v : list nat) : RoomState :=
  mkRS (info rs) (historyVisibility rs) (historyVisibilityPos rs) (join rs) (leave rs) (invite rs) (ranges rs) v (createPos rs)
    (userMemberView rs) (userMemberViewOk rs) (pre rs) (cur rs).
Definition set_createPos (rs : RoomState) (p : Z) : RoomState :=
  mkRS (info rs) (historyVisibility rs) (historyVisibilityPos rs) (join rs) (leave rs) (invite rs) (ranges rs) (visiableTl rs) p
    (userMemberView rs) (userMemberViewOk rs) (pre rs) (cur rs).
Definition set_view (rs : RoomState) (v : gmap string (list nat)) (ok : gset string) : RoomState :=
  mkRS (info rs) (historyVisibility rs) (historyVisibilityPos rs) (join rs) (leave rs) (invite rs) (ranges rs) (visiableTl rs) (createPos rs)
    v ok (pre rs) (cur rs).
Definition set_states (rs : RoomState) (p c : StateMaps) : RoomState :=
  mkRS (info rs) (historyVisibility rs) (historyVisibilityPos rs) (join rs) (leave rs) (invite rs) (ranges rs) (visiableTl rs) (createPos rs)
    (userMemberView rs) (userMemberViewOk rs) p c.

(** ** Pointers to ranges *)

Definition deref (rs : RoomState) (p : nat) : RangeItem := default (mkRange 0 0 false 0) (ranges rs !! p).

Definition alloc (r : RangeItem) (rs : RoomState) : nat * RoomState := (length (ranges rs), set_ranges rs (ranges rs ++ [r])%list).

Definition update (p : nat) (f : RangeItem -> RangeItem) (rs : RoomState) : RoomState := set_ranges rs (alter f p (ranges rs)).

Definition set_Start (z : Z) (r : RangeItem) : RangeItem := mkRange z (End_ r) (isRef r) (pairMask r).
Definition set_End (z : Z) (r : RangeItem) : RangeItem := mkRange (Start r) z (isRef r) (pairMask r).
Definition set_mask (m : Z) (r : RangeItem) : RangeItem := mkRange (Start r) (End_ r) (isRef r) m.

(** ** Reading *)

Definition GetState (rs : RoomState) (typ key : string) : option StreamEvent :=
  if String.eqb typ "m.room.member" then mjoin (memberState (cur rs) !! key)
  else if String.eqb typ "m.room.aliases" then mjoin (userAlias (cur rs) !! key)
  else mjoin (state (cur rs) !! typ).

Definition stateKeyOf (ev : ClientEvent) : res string := match ceStateKey ev with Some k => Ok k | None => Panic end.

Definition GetPreState (rs : RoomState) (ev : ClientEvent) : res (option StreamEvent) :=
  if IsStateClientEv ev then
    if String.eqb (ceType ev) "m.room.member" then key ← stateKeyOf ev; Ok (mjoin (memberState (pre rs) !! key))
    else if String.eqb (ceType ev) "m.room.aliases" then key ← stateKeyOf ev; Ok (mjoin (userAlias (pre rs) !! key))
    else Ok (mjoin (state (pre rs) !! ceType ev))
  else Ok None.

(** ** The ranges of a user *)

(** [cur] covers [hsItem]. *)
Definition covers (cur hsItem : RangeItem) : bool :=
  (Start cur <=? Start hsItem) && ((End_ cur =? -1) || (End_ hsItem <=? End_ cur)).

(** The loops over [visiableTl] of [onUserMembershipChange] and
    [ArrangeVisibilityRange]. *)
Definition addShared (rs : RoomState) (items : list nat) : list nat :=
  fold_left (fun items hs =>
    if existsb (fun c => covers (deref rs c) (deref rs hs)) items then items else (items ++ [hs])%list) (visiableTl rs) items.

Definition onUserMembershipChange (user visibility preMembership membership : string) (offset : Z) (rs : RoomState) : RoomState :=
  let items := default [] (userMemberView rs !! user) in
  if String.eqb membership "leave" || String.eqb membership "ban" then
    if String.eqb preMembership "join" then
      let '(items, rs) := match items with
                          | [] => let '(p, rs) := alloc (mkRange (createPos rs) (-1) false 0) rs in ([p], rs)
                          | _ => (items, rs)
                          end in
      let rs := match last items with Some p => update p (set_End offset) rs | None => rs end in
      set_view rs (<[user := items]> (userMemberView rs)) (userMemberViewOk rs)
    else rs
  else if String.eqb membership "join" then
    let '(items, rs) := match items with
                        | [] => let '(p, rs) := alloc (mkRange (createPos rs) (createPos rs) false 0) rs in ([p], rs)
                        | _ => (items, rs)
                        end in
    let items := addShared rs items in
    let start := if String.eqb visibility "shared" then historyVisibilityPos rs else offset in
    let '(p, rs) := alloc (mkRange start (-1) false 0) rs in
    set_view rs (<[user := (items ++ [p])%list]> (userMemberView rs)) (userMemberViewOk rs)
  else rs.

Definition onMembership (ev : ClientEvent) (offset : Z) (rs : RoomState) : res RoomState :=
  key ← stateKeyOf ev;
  let membership := membershipOf (ceContent ev) in
  let preM := match join rs !! key with
              | Some _ => "join"
              | None => match leave rs !! key with
                        | Some _ => "leave"
                        | None => match invite rs !! key with Some _ => "invite" | None => "" end
                        end
              end in
  let rs1 :=
    if String.eqb membership "join" then set_members rs (<[key := offset]> (join rs)) (leave rs) (invite rs)
    else if String.eqb membership "invite" then set_members rs (join rs) (leave rs) (<[key := offset]> (invite rs))
    else if String.eqb membership "leave" || String.eqb membership "ban" then set_members rs (join rs) (<[key := offset]> (leave rs)) (invite rs)
    else rs in
  if String.eqb membership preM then Ok rs1
  else
    let rs2 :=
      if String.eqb preM "join" then set_members rs1 (delete key (join rs1)) (leave rs1) (invite rs1)
      else if String.eqb preM "invite" then set_members rs1 (join rs1) (leave rs1) (delete key (invite rs1))
      else if String.eqb preM "leave" then set_members rs1 (join rs1) (delete key (leave rs1)) (invite rs1)
      else rs1 in
    Ok (onUserMembershipChange key (historyVisibility rs2) preM membership (ceOriginServerTS ev) rs2).

Definition onHistoryVisibility (ev : ClientEvent) (rs : RoomState) : RoomState :=
  let hv := historyVisibilityOf (ceContent ev) in
  let ts := ceOriginServerTS ev in
  if String.eqb (historyVisibility rs) hv then rs
  else
    let rs1 := if String.eqb hv "shared" then
                 let '(p, rs) := alloc (mkRange ts (-1) true 1) rs in set_visiableTl rs (visiableTl rs ++ [p])%list
               else rs in
    let rs2 := if String.eqb hv "joined" then
                 match last (visiableTl rs1) with Some p => update p (set_End (ts - 1)) rs1 | None => rs1 end
               else rs1 in
    set_hv rs2 hv ts.

(** ** Backfilled events *)

Fixpoint findIdx (rs : RoomState) (test : RangeItem -> bool) (i : nat) (l : list nat) : option nat :=
  match l with
  | [] => None
  | p :: rest => if test (deref rs p) then Some i else findIdx rs test (S i) rest
  end.

Definition findRangeIdx (rs : RoomState) (l : list nat) (evTS : Z) (ref : bool) : option nat :=
  findIdx rs (fun v => Bool.eqb (isRef v) ref && (Start v <=? evTS) && ((evTS <? End_ v) || (End_ v =? -1))) 0 l.

(** The range that starts first at [evTS] or later, and the one that ended last
    before [evTS]: the loops keep the best value and its index. *)
Definition firstAfter (rs : RoomState) (l : list nat) (evTS : Z) : option nat :=
  (fold_left (fun acc p =>
     let '(i, idx, min) := acc in
     let v := deref rs p in
     if (evTS <=? Start v) && ((Start v <? min) || (min =? -1)) then (S i, Some i, Start v) else (S i, idx, min))
   l (0%nat, None, -1)).1.2.

Definition lastBefore (rs : RoomState) (l : list nat) (evTS : Z) : option nat :=
  (fold_left (fun acc p =>
     let '(i, idx, max) := acc in
     let v := deref rs p in
     if negb (End_ v =? -1) && (End_ v <? evTS) && ((max <? End_ v) || (max =? -1)) then (S i, Some i, End_ v) else (S i, idx, max))
   l (0%nat, None, -1)).1.2.

Definition insertAt (i : nat) (p : nat) (l : list nat) : list nat := (take i l ++ p :: drop i l)%list.

(** The result of one of the two cases: the list, [isLastOne] and [isAppend]. *)
Definition openRange (l : list nat) (ts : Z) (ref : bool) (rs : RoomState) : list nat * bool * bool * RoomState :=
  match findRangeIdx rs l ts ref with
  | Some index =>
      let p := default 0%nat (l !! index) in
      let endTmp := End_ (deref rs p) in
      if pairMask (deref rs p) =? 2 then (l, false, false, update p (fun r => set_Start ts (set_mask 3 r)) rs)
      else
        let '(n, rs) := alloc (mkRange ts endTmp ref 0) rs in
        let rs := update p (set_End (ts - 1)) rs in
        let rs := if pairMask (deref rs p) =? 1 then update n (set_mask 1) rs
                  else update n (set_mask 3) (update p (set_mask 1) rs) in
        let isLast := (length l =? S index)%nat && (pairMask (deref rs n) =? 1) in
        (insertAt (S index) n l, isLast, true, rs)
  | None =>
      match firstAfter rs l ts with
      | Some idx =>
          let end_ := Start (deref rs (default 0%nat (l !! idx))) - 1 in
          let '(n, rs) := alloc (mkRange ts end_ ref 1) rs in
          (insertAt idx n l, false, true, rs)
      | None =>
          let '(n, rs) :=
            if ref && String.eqb (historyVisibility rs) "joined" && (ts <? historyVisibilityPos rs)
            then alloc (mkRange ts (historyVisibilityPos rs) ref 3) rs
            else alloc (mkRange ts (-1) ref 1) rs in
          ((l ++ [n])%list, true, true, rs)
      end
  end.

Definition closeRange (l : list nat) (ts : Z) (ref : bool) (rs : RoomState) : list nat * bool * bool * RoomState :=
  match findRangeIdx rs l ts ref with
  | Some index =>
      let p := default 0%nat (l !! index) in
      if pairMask (deref rs p) =? 1 then
        (l, (index =? length l)%nat, false, update p (fun r => set_End (ts - 1) (set_mask 3 r)) rs)
      else
        let '(n, rs) := alloc (mkRange (Start (deref rs p)) (ts - 1) ref 0) rs in
        let rs := update p (set_Start ts) rs in
        let rs := if pairMask (deref rs p) =? 2 then update n (set_mask 2) rs
                  else update p (set_mask 2) (update n (set_mask 3) rs) in
        (insertAt index n l, false, true, rs)
  | None =>
      let idx := lastBefore rs l ts in
      let start := match idx with Some i => End_ (deref rs (default 0%nat (l !! i))) + 1 | None => createPos rs end in
      let at_ := match idx with Some i => S i | None => 0%nat end in
      let '(n, rs) := alloc (mkRange start (ts - 1) ref 2) rs in
      (insertAt at_ n l, (at_ =? length l)%nat, true, rs)
  end.

Definition set_curState (rs : RoomState) (typ : string) (s : StreamEvent) : RoomState :=
  set_states rs (match state (cur rs) !! typ with
                 | Some val => mkMaps (<[typ := val]> (state (pre rs))) (memberState (pre rs)) (userAlias (pre rs))
                 | None => pre rs
                 end)
                (mkMaps (<[typ := Some s]> (state (cur rs))) (memberState (cur rs)) (userAlias (cur rs))).

Definition set_curMember (rs : RoomState) (key : string) (s : StreamEvent) : RoomState :=
  set_states rs (match memberState (cur rs) !! key with
                 | Some val => mkMaps (state (pre rs)) (<[key := val]> (memberState (pre rs))) (userAlias (pre rs))
                 | None => pre rs
                 end)
                (mkMaps (state (cur rs)) (<[key := Some s]> (memberState (cur rs))) (userAlias (cur rs))).

Definition insertIntoRanges (l : list nat) (ev : ClientEvent) (offset : Z) (ref : bool) (openClose : Z) (rs : RoomState) : res (list nat * RoomState) :=
  let ts := ceOriginServerTS ev in
  let '(l, isLastOne, isAppend, rs) :=
    if openClose =? 1 then openRange l ts ref rs
    else if openClose =? 2 then closeRange l ts ref rs
    else (l, false, false, rs) in
  rs ← (if (isLastOne : bool) then
          let stream := mkStreamEvent ev offset in
          if ref then
            let hv := if openClose =? 1 then
                        match last l with Some p => if pairMask (deref rs p) =? 1 then "shared" else "joined" | None => "joined" end
                      else "joined" in
            Ok (set_curState (set_hv rs hv ts) (ceType ev) stream)
          else key ← stateKeyOf ev; Ok (set_curMember rs key stream)
        else Ok rs);
  Ok (l, if isAppend && ref then set_view rs (userMemberView rs) ∅ else rs).

(** ** Events *)

Definition set_curInfo (rs : RoomState) (ev : ClientEvent) : RoomState :=
  let i := info rs in
  let c := ceContent ev in
  let t := ceType ev in
  if String.eqb t "m.room.create" then
    let con := createOf c in
    set_createPos (set_info rs (mkInfo (Creator con) (default (isDirect i) (IsDirect con)) (default (federate i) (Federate con))
      (default (isChannel i) (IsChannel con)) (default (isSecret i) (IsSecret con)) (joinRule i) (visibility i) (name i) (topic i) (desc i)
      (canonicalAlias i) (power i) (isEncrypted i))) (ceOriginServerTS ev)
  else if String.eqb t "m.room.power_levels" then
    set_info rs (mkInfo (creator i) (isDirect i) (federate i) (isChannel i) (isSecret i) (joinRule i) (visibility i) (name i) (topic i) (desc i)
      (canonicalAlias i) (Some (powerOf c)) (isEncrypted i))
  else if String.eqb t "m.room.join_rules" then
    set_info rs (mkInfo (creator i) (isDirect i) (federate i) (isChannel i) (isSecret i) (joinRuleOf c) (visibility i) (name i) (topic i) (desc i)
      (canonicalAlias i) (power i) (isEncrypted i))
  else if String.eqb t "m.room.visibility" then
    set_info rs (mkInfo (creator i) (isDirect i) (federate i) (isChannel i) (isSecret i) (joinRule i) (visibilityOf c) (name i) (topic i) (desc i)
      (canonicalAlias i) (power i) (isEncrypted i))
  else if String.eqb t "m.room.name" then
    set_info rs (mkInfo (creator i) (isDirect i) (federate i) (isChannel i) (isSecret i) (joinRule i) (visibility i) (nameOf c) (topic i) (desc i)
      (canonicalAlias i) (power i) (isEncrypted i))
  else if String.eqb t "m.room.topic" then
    set_info rs (mkInfo (creator i) (isDirect i) (federate i) (isChannel i) (isSecret i) (joinRule i) (visibility i) (name i) (topicOf c) (desc i)
      (canonicalAlias i) (power i) (isEncrypted i))
  else if String.eqb t "m.room.desc" then
    set_info rs (mkInfo (creator i) (isDirect i) (federate i) (isChannel i) (isSecret i) (joinRule i) (visibility i) (name i) (topic i) (descOf c)
      (canonicalAlias i) (power i) (isEncrypted i))
  else if String.eqb t "m.room.canonical_alias" then
    set_info rs (mkInfo (creator i) (isDirect i) (federate i) (isChannel i) (isSecret i) (joinRule i) (visibility i) (name i) (topic i) (desc i)
      (aliasOf c) (power i) (isEncrypted i))
  else if String.eqb t "m.room.encryption" then
    set_info rs (mkInfo (creator i) (isDirect i) (federate i) (isChannel i) (isSecret i) (joinRule i) (visibility i) (name i) (topic i) (desc i)
      (canonicalAlias i) (power i) true)
  else rs.

(** The current state event becomes the previous one. *)
Definition recordState (ev : ClientEvent) (offset : Z) (rs : RoomState) : RoomState :=
  let statKey := default "" (ceStateKey ev) in
  let stream := Some (mkStreamEvent ev offset) in
  let c := GetState rs (ceType ev) statKey in
  let put k v (m : StateMaps) :=
    if String.eqb (ceType ev) "m.room.member" then mkMaps (state m) (<[k := v]> (memberState m)) (userAlias m)
    else if String.eqb (ceType ev) "m.room.aliases" then mkMaps (state m) (memberState m) (<[k := v]> (userAlias m))
    else mkMaps (<[ceType ev := v]> (state m)) (memberState m) (userAlias m) in
  set_states rs (put statKey c (pre rs)) (put statKey stream (cur rs)).

Definition onNewEvent (ev : ClientEvent) (offset : Z) (rs : RoomState) : res RoomState :=
  rs ← (if String.eqb (ceType ev) "m.room.member" then onMembership ev offset rs
        else if String.eqb (ceType ev) "m.room.history_visibility" then Ok (onHistoryVisibility ev rs)
        else Ok (set_curInfo rs ev));
  Ok (if IsStateClientEv ev then recordState ev offset rs else rs).

Definition onBackfillMember (ev : ClientEvent) (offset : Z) (rs : RoomState) : res RoomState :=
  key ← stateKeyOf ev;
  let membership := membershipOf (ceContent ev) in
  let val := mjoin (memberState (cur rs) !! key) in
  let newer := match val with Some s => ceOriginServerTS (seEv s) <? ceOriginServerTS ev | None => false end in
  if newer then
    rs ← onMembership ev offset rs;
    Ok (set_states rs (mkMaps (state (pre rs)) (<[key := val]> (memberState (pre rs))) (userAlias (pre rs)))
                      (mkMaps (state (cur rs)) (<[key := Some (mkStreamEvent ev offset)]> (memberState (cur rs))) (userAlias (cur rs))))
  else
    let items := default [] (userMemberView rs !! key) in
    let '(items, rs) := match items with
                        | [] => let '(p, rs) := alloc (mkRange (createPos rs) (createPos rs) false 0) rs in ([p], rs)
                        | _ => (items, rs)
                        end in
    let openClose := if String.eqb membership "join" then 1
                     else if String.eqb membership "leave" || String.eqb membership "ban" then 2 else 0 in
    '(items, rs) ← insertIntoRanges items ev offset false openClose rs;
    Ok (set_view rs (<[key := items]> (userMemberView rs)) (userMemberViewOk rs)).

Definition onBackfillVisibility (ev : ClientEvent) (offset : Z) (rs : RoomState) : res RoomState :=
  if historyVisibilityPos rs <? ceOriginServerTS ev then Ok (onHistoryVisibility ev rs)
  else
    let hv := historyVisibilityOf (ceContent ev) in
    let openClose := if String.eqb hv "shared" then 1 else if String.eqb hv "joined" then 2 else 0 in
    '(l, rs) ← insertIntoRanges (visiableTl rs) ev offset true openClose rs;
    Ok (set_visiableTl rs l).

Definition onEvent (ev : ClientEvent) (offset : Z) (backfill : bool) (rs : RoomState) : res RoomState :=
  if negb backfill then onNewEvent ev offset rs
  else if String.eqb (ceType ev) "m.room.member" then onBackfillMember ev offset rs
  else if String.eqb (ceType ev) "m.room.history_visibility" then onBackfillVisibility ev offset rs
  else if String.eqb (ceType ev) "m.room.power_levels" then
    Ok (match GetState rs (ceType ev) "" with
        | Some p => if ceOriginServerTS (seEv p) <? ceOriginServerTS ev then set_curInfo rs ev else rs
        | None => rs
        end)
  else Ok rs.

(** ** Questions *)

Definition ArrangeVisibilityRange (user : string) (rs : RoomState) : RoomState :=
  let items := default [] (userMemberView rs !! user) in
  set_view rs (<[user := addShared rs items]> (userMemberView rs)) (userMemberViewOk rs).

Definition arranged (user : string) (rs : RoomState) : RoomState :=
  if decide (user ∈ userMemberViewOk rs) then rs
  else let rs := ArrangeVisibilityRange user rs in set_view rs (userMemberView rs) ({[user]} ∪ userMemberViewOk rs).

Definition inRange (pos : Z) (item : RangeItem) : bool :=
  ((Start item <=? pos) && (End_ item =? -1)) || ((Start item <=? pos) && (pos <=? End_ item)).

Definition CheckEventVisibility (user : string) (pos : Z) (rs : RoomState) : bool * RoomState :=
  let rs := arranged user rs in
  (match userMemberView rs !! user with
   | None => true
   | Some items => existsb (fun p => inRange pos (deref rs p)) items
   end, rs).

Definition GetEventVisibility (user : string) (rs : RoomState) : list RangeItem * RoomState :=
  if String.eqb user "" then ([], rs)
  else
    let rs := arranged user rs in
    (match userMemberView rs !! user with
     | None => [mkRange 0 (-1) false 0]
     | Some items => map (deref rs) items
     end, rs).

(** ** The rooms *)

Abbreviation RoomCurStateRepo := (gmap string RoomState).

Definition GetRoomState (repo : RoomCurStateRepo) (roomID : string) : option RoomState := repo !! roomID.

Definition onRoomEvent (ev : ClientEvent) (offset : Z) (backfill : bool) (repo : RoomCurStateRepo) : res RoomCurStateRepo :=
  match repo !! ceRoomID ev, backfill with
  | None, true => Ok repo
  | r, _ => rs ← onEvent ev offset backfill (default newRoomState r); Ok (<[ceRoomID ev := rs]> repo)
  end.

Definition removeRoomState (roomID : string) (repo : RoomCurStateRepo) : RoomCurStateRepo := delete roomID repo.

End RoomState.

End SyncRoomState.
