(* ===== verification/SyncRoomStateFacts.v ===== *)
(** * Which part of the history a user may read

    - [history_visibility]: after any replay of state events (visibility shared or joined,
      no second invite of a member), with questions in between, a user sees only what was sent while the user was a member or the room
      was shared (and the instant of creation); everything sent during a membership;
      and, as a member, everything sent while the room was shared.
    - [invited_reopens_history], [left_member_keeps_reading],
      [ban_after_leave_forgotten]: what happens outside the assumptions. *)

From Stdlib Require Import String ZArith List Lia.
From stdpp Require Import base tactics list gmap strings.
From S2P Require Import Prelude Timeline TimelineRepo Loader SyncHistory SyncRoomState.

#[local] Open Scope string_scope.
#[local] Open Scope Z_scope.

Module SyncRoomStateFacts.
Import SyncHistory SyncRoomState.

(** ** The specification *)

(** Some event of the log opens, and the later ones keep it open. *)
Definition holdsAt (opens keeps : ClientEvent -> Prop) (log : list ClientEvent) : Prop :=
  exists l1 s l2, log = (l1 ++ s :: l2)%list /\ opens s /\ Forall keeps l2.

Lemma holdsAt_snoc opens keeps log e : holdsAt opens keeps (log ++ [e]) <-> (holdsAt opens keeps log /\ keeps e) \/ opens e.
Proof.
  split.
  - intros (l1 & s & l2 & E & Ho & Hk). destruct (decide (l2 = [])) as [->|Hne].
    + apply app_inj_tail in E as [_ ->]. by right.
    + destruct (exists_last Hne) as (l2' & e' & ->). rewrite app_comm_cons, app_assoc in E. apply app_inj_tail in E as [-> ->].
      apply Forall_app in Hk as [Hk [He _]%Forall_cons]. left. split; [|done]. by exists l1, s, l2'.
  - intros [[(l1 & s & l2 & -> & Ho & Hk) He]|Ho].
    + exists l1, s, (l2 ++ [e])%list. rewrite <- app_assoc. split_and!; [done|done|]. apply Forall_app. by repeat constructor.
    + exists log, e, []. by split_and!.
Qed.

Section Spec.
  Context `{ContentJson}.

Definition ts (e : ClientEvent) : Z := ceOriginServerTS e.

Definition isMember (e : ClientEvent) (u m : string) : Prop :=
  ceType e = "m.room.member" /\ ceStateKey e = Some u /\ membershipOf (ceContent e) = m.
Definition isLeave (e : ClientEvent) (u : string) : Prop := isMember e u "leave" \/ isMember e u "ban".
Definition isHv (e : ClientEvent) (v : string) : Prop := ceType e = "m.room.history_visibility" /\ historyVisibilityOf (ceContent e) = v.

(** Member at [pos]: after a join, and no leave before [pos]. *)
Definition joinedAt (log : list ClientEvent) (u : string) (pos : Z) : Prop :=
  holdsAt (fun e => isMember e u "join" /\ ts e <= pos) (fun e => isLeave e u -> pos <= ts e) log.

(** The room is shared at [pos]. *)
Definition sharedAt (log : list ClientEvent) (pos : Z) : Prop :=
  holdsAt (fun e => isHv e "shared" /\ ts e <= pos) (fun e => isHv e "joined" -> pos < ts e) log.

(** Member now. *)
Definition isJoined (log : list ClientEvent) (u : string) : Prop :=
  holdsAt (fun e => isMember e u "join") (fun e => forall m, isMember e u m -> m = "join") log.

Definition atCreate (log : list ClientEvent) (pos : Z) : Prop := pos = 0 \/ exists e, e ∈ log /\ ceType e = "m.room.create" /\ ts e = pos.

Definition mayRead (log : list ClientEvent) (u : string) (pos : Z) : Prop := atCreate log pos \/ joinedAt log u pos \/ sharedAt log pos.

(** The log of a room: time stamps do not fall, visibility is [shared] or [joined],
    members join, leave, are banned or invited, and a member is not invited. *)
Definition okEvent (log : list ClientEvent) (e : ClientEvent) : Prop :=
  0 < ts e /\ (forall e', e' ∈ log -> ts e' <= ts e) /\
  (ceType e = "m.room.history_visibility" -> isHv e "shared" \/ isHv e "joined") /\
  (ceType e = "m.room.member" -> exists u, isMember e u "join" \/ isLeave e u \/ (isMember e u "invite" /\ ~ isJoined log u)).

(** Events of the stream and questions of users. *)
Inductive Op := OpEvent (e : ClientEvent) (offset : Z) | OpAsk (u : string) (pos : Z).

Definition runOp (o : Op) (rs : RoomState) : res RoomState :=
  match o with
  | OpEvent e offset => onEvent e offset false rs
  | OpAsk u pos => Ok (CheckEventVisibility u pos rs).2
  end.

Fixpoint runOps (os : list Op) (rs : RoomState) : res RoomState :=
  match os with
  | [] => Ok rs
  | o :: rest => rs ← runOp o rs; runOps rest rs
  end.

Definition eventsOf (os : list Op) : list ClientEvent := omap (fun o => match o with OpEvent e _ => Some e | OpAsk _ _ => None end) os.

Fixpoint okLog (log : list ClientEvent) (os : list Op) : Prop :=
  match os with
  | [] => True
  | OpEvent e _ :: rest => okEvent log e /\ okLog (log ++ [e]) rest
  | OpAsk _ _ :: rest => okLog log rest
  end.

(** ** Pointers *)

Lemma deref_alloc rs r p : (p < length (ranges rs))%nat -> deref (alloc r rs).2 p = deref rs p.
Proof using. intros Hp. unfold deref, alloc. cbn. by rewrite lookup_app_l. Qed.

Lemma deref_fresh rs r : deref (alloc r rs).2 (length (ranges rs)) = r.
Proof using. unfold deref, alloc. cbn. by rewrite lookup_app_r, Nat.sub_diag by done. Qed.

Lemma deref_update_eq rs p f : (p < length (ranges rs))%nat -> deref (update p f rs) p = f (deref rs p).
Proof using.
  intros Hp. unfold deref, update. cbn. rewrite list_lookup_alter_eq. by destruct (lookup_lt_is_Some_2 _ _ Hp) as [r ->].
Qed.

Lemma deref_update_ne rs p q f : p <> q -> deref (update p f rs) q = deref rs q.
Proof using. intros Hn. unfold deref, update. cbn. by rewrite list_lookup_alter_ne. Qed.

Lemma inRange_spec pos r : inRange pos r = true <-> Start r <= pos /\ (End_ r = -1 \/ pos <= End_ r).
Proof using.
  unfold inRange. rewrite orb_true_iff, !andb_true_iff, !Z.leb_le, Z.eqb_eq. lia.
Qed.

Lemma covers_spec c hs : covers c hs = true <-> Start c <= Start hs /\ (End_ c = -1 \/ End_ hs <= End_ c).
Proof using. unfold covers. rewrite andb_true_iff, orb_true_iff, !Z.leb_le, Z.eqb_eq. done. Qed.

(** ** A longer log *)

(** [z] is not after any event that can follow. *)
Definition past (log : list ClientEvent) (z : Z) : Prop := forall t, 0 < t -> (forall e, e ∈ log -> ts e <= t) -> z <= t.

Lemma past_le log e z : okEvent log e -> past log z -> z <= ts e.
Proof using. intros (Hpos & Hle & _) Hp. by apply Hp. Qed.

Lemma past_snoc log e z : past log z -> past (log ++ [e]) z.
Proof using. intros Hp t Ht Hle. apply Hp; [done|]. intros e' He'. apply Hle, elem_of_app. by left. Qed.

Lemma past_in log e z : e ∈ log -> z <= ts e -> past log z.
Proof using. intros He Hz t _ Hle. specialize (Hle e He). lia. Qed.

Lemma past_new log e : past (log ++ [e]) (ts e).
Proof using. apply (past_in _ e); [|done]. apply elem_of_app. right. by left. Qed.

Lemma joinedAt_keep log e u pos : joinedAt log u pos -> (isLeave e u -> pos <= ts e) -> joinedAt (log ++ [e]) u pos.
Proof using. intros Hj He. apply holdsAt_snoc. by left. Qed.

Lemma sharedAt_keep log e pos : sharedAt log pos -> (isHv e "joined" -> pos < ts e) -> sharedAt (log ++ [e]) pos.
Proof using. intros Hj He. apply holdsAt_snoc. by left. Qed.

Lemma atCreate_keep log e pos : atCreate log pos -> atCreate (log ++ [e]) pos.
Proof using. intros [->|(e' & He' & Ht)]; [by left|]. right. exists e'. split; [|done]. apply elem_of_app. by left. Qed.

Lemma joinedAt_other log e u pos : (forall m, ~ isMember e u m) -> joinedAt (log ++ [e]) u pos <-> joinedAt log u pos.
Proof using.
  intros Hn. unfold joinedAt. rewrite holdsAt_snoc. split.
  - intros [[Hj _]|[Hm _]]; [done|]. by apply Hn in Hm.
  - intros Hj. left. split; [done|]. intros [Hm|Hm]; by apply Hn in Hm.
Qed.

Lemma isJoined_other log e u : (forall m, ~ isMember e u m) -> isJoined (log ++ [e]) u <-> isJoined log u.
Proof using.
  intros Hn. unfold isJoined. rewrite holdsAt_snoc. split.
  - intros [[Hj _]|Hm]; [done|]. by apply Hn in Hm.
  - intros Hj. left. split; [done|]. intros m Hm. by apply Hn in Hm.
Qed.

Lemma isJoined_member log e u m : isMember e u m -> isJoined (log ++ [e]) u <-> m = "join".
Proof using.
  intros Hm. unfold isJoined. rewrite holdsAt_snoc. split.
  - intros [[_ Hk]|Hj]; [by apply Hk|]. destruct Hm as (_ & _ & <-), Hj as (_ & _ & ?). done.
  - intros ->. by right.
Qed.

Lemma sharedAt_other log e pos : ceType e <> "m.room.history_visibility" -> sharedAt (log ++ [e]) pos <-> sharedAt log pos.
Proof using.
  intros Hn. unfold sharedAt. rewrite holdsAt_snoc. split.
  - intros [[Hj _]|[[Hm _] _]]; done.
  - intros Hj. left. split; [done|]. by intros [Hm _].
Qed.

(** ** The invariant *)

(** What a range of the user's own gives: membership, or a time before the last event
    at which the room was shared. *)
Definition ownRead (log : list ClientEvent) (u : string) (pos : Z) : Prop :=
  atCreate log pos \/ joinedAt log u pos \/ (sharedAt log pos /\ past log (pos + 1)).

Lemma ownRead_keep log e u pos : okEvent log e -> ownRead log u pos -> (isLeave e u -> pos <= ts e) -> ownRead (log ++ [e]) u pos.
Proof using.
  intros Hok [Hc|[Hj|[Hs Hp]]] Hl.
  - left. by apply atCreate_keep.
  - right. left. by apply joinedAt_keep.
  - right. right. split; [|by apply past_snoc]. apply sharedAt_keep; [done|]. intros _. pose proof (past_le _ _ _ Hok Hp). lia.
Qed.

(** A range of the room. *)
Record VisOk (log : list ClientEvent) (rs : RoomState) (p : nat) : Prop := {
  vo_alloc : (p < length (ranges rs))%nat;
  vo_sound : forall pos, inRange pos (deref rs p) = true -> sharedAt log pos;
  vo_open : End_ (deref rs p) = -1 -> historyVisibility rs = "shared" /\ last (visiableTl rs) = Some p;
  vo_closed : End_ (deref rs p) <> -1 -> past log (End_ (deref rs p) + 1);
}.

(** A range of the user [u], in the list [items]. *)
Record OwnOk (log : list ClientEvent) (rs : RoomState) (u : string) (items : list nat) (p : nat) : Prop := {
  oo_alloc : (p < length (ranges rs))%nat;
  oo_apart : p ∉ visiableTl rs;
  oo_alone : forall v its, userMemberView rs !! v = Some its -> p ∈ its -> v = u;
  oo_sound : forall pos, inRange pos (deref rs p) = true -> ownRead log u pos;
  oo_open : End_ (deref rs p) = -1 -> isJoined log u /\ last items = Some p;
  oo_closed : End_ (deref rs p) <> -1 -> past log (End_ (deref rs p));
}.

(** The open range of a member covers the shared times since it started, the older
    ones are covered by other ranges. *)
Definition memberOk (log : list ClientEvent) (rs : RoomState) (items : list nat) (p : nat) : Prop :=
  last items = Some p /\ (p ∉ visiableTl rs) /\ End_ (deref rs p) = -1 /\ past log (Start (deref rs p)) /\
  forall hs, hs ∈ visiableTl rs -> (End_ (deref rs hs) = -1 -> Start (deref rs p) <= Start (deref rs hs)) /\
    exists c, c ∈ items /\ covers (deref rs c) (deref rs hs) = true.

Record VInv (log : list ClientEvent) (rs : RoomState) : Prop := {
  vi_hv : historyVisibility rs = "shared" \/ historyVisibility rs = "joined" \/ (historyVisibility rs = "" /\ visiableTl rs = []);
  vi_shared_open : historyVisibility rs = "shared" ->
    exists p, last (visiableTl rs) = Some p /\ End_ (deref rs p) = -1 /\ Start (deref rs p) = historyVisibilityPos rs;
  vi_hvPos : past log (historyVisibilityPos rs);
  vi_create : atCreate log (createPos rs) /\ 0 <= createPos rs /\ past log (createPos rs);
  vi_vis : forall p, p ∈ visiableTl rs -> VisOk log rs p;
  vi_shared : forall pos, sharedAt log pos -> exists p, p ∈ visiableTl rs /\ inRange pos (deref rs p) = true;
  vi_joined : forall u, is_Some (join rs !! u) <-> isJoined log u;
  vi_view : forall u items p, userMemberView rs !! u = Some items -> p ∈ items -> p ∈ visiableTl rs \/ OwnOk log rs u items p;
  vi_member : forall u, isJoined log u -> exists items p, userMemberView rs !! u = Some items /\ memberOk log rs items p;
  vi_complete : forall u pos, joinedAt log u pos ->
    exists items p, userMemberView rs !! u = Some items /\ p ∈ items /\ (p ∉ visiableTl rs) /\ inRange pos (deref rs p) = true;
}.

Lemma new_inv : VInv [] newRoomState.
Proof using.
  assert (Hnil : forall o k, ~ holdsAt o k []) by (intros o k (l1 & s & l2 & E & _); by destruct l1).
  split; cbn; try done.
  - by right; right.
  - intros t Ht _. lia.
  - split_and!; [by left|done|]. intros t Ht _. lia.
  - by intros p ?%elem_of_nil.
  - intros pos Hs. by apply Hnil in Hs.
  - intros u. split; [by intros [? ?]|]. intros Hj. by apply Hnil in Hj.
  - intros u Hj. by apply Hnil in Hj.
  - intros u pos Hj. by apply Hnil in Hj.
Qed.

(** An event that tells nothing new. *)
Lemma VInv_log log e rs : VInv log rs -> okEvent log e -> (forall v, isHv e v -> historyVisibility rs = v) ->
  (forall u m, isMember e u m -> m = "join" <-> isJoined log u) -> VInv (log ++ [e]) rs.
Proof using.
  intros Hi Hok Hhv Hmem. assert (HJ : forall u, isJoined (log ++ [e]) u <-> isJoined log u).
  { intros u. unfold isJoined at 1. rewrite holdsAt_snoc. split.
    - intros [[Hj _]|Hj]; [done|]. by apply (Hmem u "join").
    - intros Hj. left. split; [done|]. intros m Hm. by apply (Hmem u m). }
  split; try apply Hi.
  - apply past_snoc, Hi.
  - destruct (vi_create _ _ Hi) as (Hc & Hp & Hpast). split_and!; [by apply atCreate_keep|done|by apply past_snoc].
  - intros p Hp. destruct (vi_vis _ _ Hi p Hp) as [Ha Hs Ho Hc]. split; [done| |done|intros He; by apply past_snoc, Hc].
    intros pos Hin. apply sharedAt_keep; [by apply Hs|]. intros Hj. assert (He : End_ (deref rs p) <> -1).
    { intros He. apply Ho in He as [He _]. rewrite (Hhv _ Hj) in He. done. }
    apply inRange_spec in Hin as [_ [?|Hle]]; [done|]. pose proof (past_le _ _ _ Hok (Hc He)). lia.
  - intros pos Hs. apply holdsAt_snoc in Hs as [[Hs _]|[Hsh Hle]]; [by apply Hi|].
    destruct (vi_shared_open _ _ Hi (Hhv _ Hsh)) as (p & Hlast & He & Hst). exists p. split; [by apply last_Some_elem_of|].
    apply inRange_spec. split; [|by left]. pose proof (past_le _ _ _ Hok (vi_hvPos _ _ Hi)). lia.
  - intros u. rewrite HJ. apply Hi.
  - intros u items p Hv Hp. destruct (vi_view _ _ Hi u items p Hv Hp) as [?|[Ha Hap Hal Hs Ho Hc]]; [by left|]. right. split; try done.
    + intros pos Hin. apply ownRead_keep; [done|by apply Hs|]. intros Hl. assert (He : End_ (deref rs p) <> -1).
      { intros He. apply Ho in He as [Hj _]. destruct Hl as [Hl|Hl]; apply (Hmem u _ Hl) in Hj; done. }
      apply inRange_spec in Hin as [_ [?|Hle]]; [done|]. pose proof (past_le _ _ _ Hok (Hc He)). lia.
    + intros He. rewrite HJ. by apply Ho.
    + intros He. by apply past_snoc, Hc.
  - intros u Hj%HJ. destruct (vi_member _ _ Hi u Hj) as (items & p & Hv & Hl & Hp & He & Hpast & Hc). exists items, p.
    split; [done|]. split_and!; try done. by apply past_snoc.
  - intros u pos Hj. apply holdsAt_snoc in Hj as [[Hj _]|[Hm Hle]]; [by apply Hi|].
    assert (Hj : isJoined log u) by (by apply (Hmem u "join" Hm)). destruct (vi_member _ _ Hi u Hj) as (items & p & Hv & Hl & Hp & He & Hpast & Hc).
    exists items, p. split_and!; [done|by apply last_Some_elem_of|done|]. apply inRange_spec. split; [|by left].
    pose proof (past_le _ _ _ Hok Hpast). lia.
Qed.

(** The invariant reads only some of the fields. *)
Lemma VInv_ext log rs rs' : VInv log rs -> historyVisibility rs' = historyVisibility rs -> historyVisibilityPos rs' = historyVisibilityPos rs ->
  (forall u, is_Some (join rs' !! u) <-> is_Some (join rs !! u)) -> ranges rs' = ranges rs -> visiableTl rs' = visiableTl rs ->
  userMemberView rs' = userMemberView rs -> atCreate log (createPos rs') /\ 0 <= createPos rs' /\ past log (createPos rs') ->
  VInv log rs'.
Proof using.
  intros Hi Ehv Epos Ej Er Ev Ew Hc. destruct rs as [i hv hp j l iv r v cp w ok pr cu], rs' as [i' hv' hp' j' l' iv' r' v' cp' w' ok' pr' cu'].
  cbn in *. subst. destruct Hi as [A1 A2 A3 A4 A5 A6 A7 A8 A9 A10]. split; try done.
  - intros p Hp. destruct (A5 p Hp). by split.
  - intros u. rewrite (Ej u). apply A7.
  - intros u items p Hv Hp. destruct (A8 u items p Hv Hp) as [?|[]]; [by left|]. right. by split.
Qed.

(** ** History visibility *)

Lemma isHv_not_member e v u m : isHv e v -> ~ isMember e u m.
Proof using. intros [Ht _] [Ht' _]. congruence. Qed.

Lemma isHv_fun e v w : isHv e v -> isHv e w -> v = w.
Proof using. intros [_ <-] [_ <-]. done. Qed.

Lemma view_own log rs u items p : VInv log rs -> userMemberView rs !! u = Some items -> p ∈ items -> p ∉ visiableTl rs -> OwnOk log rs u items p.
Proof using. intros Hi Hv Hp Hn. by destruct (vi_view _ _ Hi u items p Hv Hp). Qed.

Lemma elem_last {A} (l : list A) x : last l = Some x -> x ∈ l.
Proof using. apply last_Some_elem_of. Qed.

Lemma hv_shared log e rs : VInv log rs -> okEvent log e -> isHv e "shared" -> historyVisibility rs <> "shared" ->
  VInv (log ++ [e]) (onHistoryVisibility e rs).
Proof using.
  intros Hi Hok He Hne. unfold onHistoryVisibility. rewrite (proj2 He), (proj2 (String.eqb_neq _ _) Hne). cbn [String.eqb Ascii.eqb Bool.eqb].
  unfold alloc. cbv zeta beta iota. set (n := length (ranges rs)). set (r := mkRange _ _ _ _).
  match goal with |- VInv _ ?x => set (rs' := x) end.
  assert (Hd : forall p, (p < n)%nat -> deref rs' p = deref rs p) by (intros p Hp; exact (deref_alloc rs r p Hp)).
  assert (Hn : deref rs' n = r) by exact (deref_fresh rs r).
  assert (HJ : forall u, isJoined (log ++ [e]) u <-> isJoined log u) by (intros u; apply isJoined_other; intros m; by apply isHv_not_member with "shared").
  assert (Hvis : forall p, p ∈ visiableTl rs -> (p < n)%nat) by (intros p Hp; apply (vi_vis _ _ Hi p Hp)).
  assert (Hnot : forall p, (p < n)%nat -> p ∉ visiableTl rs -> p ∉ (visiableTl rs ++ [n])%list)
    by (intros p Hp Hnp [?|?%list_elem_of_singleton]%elem_of_app; [done|lia]).
  split; cbn [rs' set_hv set_visiableTl set_ranges historyVisibility historyVisibilityPos visiableTl userMemberView createPos join].
  - by left.
  - intros _. exists n. rewrite last_snoc, Hn. done.
  - apply past_new.
  - destruct (vi_create _ _ Hi) as (Hc & Hp & Hpast). split_and!; [by apply atCreate_keep|done|by apply past_snoc].
  - intros p [Hp|Hp%list_elem_of_singleton]%elem_of_app; [|subst p].
    + destruct (vi_vis _ _ Hi p Hp) as [Ha Hs Ho Hc]. split; rewrite ?Hd by done.
      * cbn. rewrite length_app. cbn. lia.
      * intros pos Hin. apply sharedAt_keep; [by apply Hs|]. intros Hj. by pose proof (isHv_fun _ _ _ He Hj).
      * intros Hx. by apply Ho in Hx as [? _].
      * intros Hx. by apply past_snoc, Hc.
    + split; rewrite ?Hn.
      * cbn. rewrite length_app. cbn. lia.
      * intros pos [Hin _]%inRange_spec. apply holdsAt_snoc. right. done.
      * intros _. cbn. by rewrite last_snoc.
      * done.
  - intros pos Hs. apply holdsAt_snoc in Hs as [[Hs _]|[_ Hle]].
    + destruct (vi_shared _ _ Hi pos Hs) as (p & Hp & Hin). exists p. split; [apply elem_of_app; by left|]. by rewrite Hd by auto.
    + exists n. split; [apply elem_of_app; right; by left|]. rewrite Hn. apply inRange_spec. split; [done|by left].
  - intros u. rewrite HJ. apply Hi.
  - intros u items p Hv Hp. destruct (vi_view _ _ Hi u items p Hv Hp) as [?|[Ha Hap Hal Hs Ho Hc]]; [left; apply elem_of_app; by left|].
    right. split; rewrite ?Hd by done; try done.
    + cbn. rewrite length_app. cbn. lia.
    + by apply Hnot.
    + intros pos Hin. apply ownRead_keep; [done|by apply Hs|]. intros [Hl|Hl]; by apply (isHv_not_member _ _ _ _ He) in Hl.
    + intros Hx. rewrite HJ. by apply Ho.
    + intros Hx. by apply past_snoc, Hc.
  - intros u Hj%HJ. destruct (vi_member _ _ Hi u Hj) as (items & p & Hv & Hl & Hp & Hopen & Hpast & Hc).
    pose proof (view_own log rs u items p Hi Hv (elem_last _ _ Hl) Hp) as Hown. pose proof (oo_alloc _ _ _ _ _ Hown) as Ha.
    exists items, p. split; [done|]. unfold memberOk. cbn [rs' set_hv set_visiableTl visiableTl]. rewrite Hd by done. split_and!; try done.
    + by apply Hnot.
    + by apply past_snoc.
    + intros hs [Hhs|Hhs%list_elem_of_singleton]%elem_of_app; [|subst hs].
      * rewrite Hd by auto. destruct (Hc hs Hhs) as [Ho (c & Hcin & Hcov)]. split; [done|]. exists c. split; [done|].
        rewrite Hd; [done|]. destruct (vi_view _ _ Hi u items c Hv Hcin) as [?|[]]; auto.
      * rewrite Hn. pose proof (past_le _ _ _ Hok Hpast) as Hle. split; [done|]. exists p. split; [by apply elem_last|].
        rewrite Hd by done. apply covers_spec. split; [done|by left].
  - intros u pos Hj. apply joinedAt_other in Hj; [|intros m; by apply isHv_not_member with "shared"].
    destruct (vi_complete _ _ Hi u pos Hj) as (items & p & Hv & Hp & Hnp & Hin).
    pose proof (oo_alloc _ _ _ _ _ (view_own log rs u items p Hi Hv Hp Hnp)) as Ha. exists items, p. split_and!; [done|done|by apply Hnot|by rewrite Hd].
Qed.

(** Closing an item keeps what it covers of the items that ended before. *)
Lemma covers_close c hs z : covers c hs = true -> End_ hs <= z -> covers (set_End z c) hs = true.
Proof using. rewrite !covers_spec. cbn. intros [Hs _] Hz. split; [done|by right]. Qed.

Lemma hv_joined log e rs : VInv log rs -> okEvent log e -> isHv e "joined" -> historyVisibility rs <> "joined" ->
  VInv (log ++ [e]) (onHistoryVisibility e rs).
Proof using.
  intros Hi Hok He Hne. unfold onHistoryVisibility. rewrite (proj2 He), (proj2 (String.eqb_neq _ _) Hne). cbn [String.eqb Ascii.eqb Bool.eqb].
  pose proof (proj1 Hok) as Hpos. destruct (vi_hv _ _ Hi) as [Hsh|[?|[Hh Hv]]]; [|done|].
  2:{ rewrite Hv. cbn [last]. assert (Hno : forall pos, ~ sharedAt log pos).
      { intros pos Hs. destruct (vi_shared _ _ Hi pos Hs) as (p & Hp & _). rewrite Hv in Hp. by apply elem_of_nil in Hp. }
      assert (Hi1 : VInv log (set_hv rs "joined" (historyVisibilityPos rs))).
      { destruct Hi as [A1 A2 A3 A4 A5 A6 A7 A8 A9 A10]. split; try done; cbn.
        - by right; left.
        - intros p Hp. by rewrite Hv in Hp; apply elem_of_nil in Hp.
        - intros u items p Hvw Hp. destruct (A8 u items p Hvw Hp) as [?|[]]; [by left|]. right. by split. }
      assert (Hi2 : VInv (log ++ [e]) (set_hv rs "joined" (historyVisibilityPos rs))).
      { apply VInv_log; [done|done| |]. - intros v Hv2. by apply (isHv_fun e). - intros u m Hm. by apply (isHv_not_member _ _ _ _ He) in Hm. }
      destruct Hi2 as [A1 A2 A3 A4 A5 A6 A7 A8 A9 A10]. split; try done; cbn in *.
      - apply past_new.
      - intros p Hp. by rewrite Hv in Hp; apply elem_of_nil in Hp.
      - intros u items p Hvw Hp. destruct (A8 u items p Hvw Hp) as [?|[]]; [by left|]. right. by split. }
  destruct (vi_shared_open _ _ Hi Hsh) as (p & Hlast & Hopen & Hst). rewrite Hlast.
  pose proof (elem_last _ _ Hlast) as Hpin. pose proof (vo_alloc _ _ _ (vi_vis _ _ Hi p Hpin)) as Hpa.
  match goal with |- VInv _ ?x => set (rs' := x) end. change (ceOriginServerTS e) with (ts e) in rs'.
  assert (Hp : deref rs' p = set_End (ts e - 1) (deref rs p)) by (apply (deref_update_eq rs p); done).
  assert (Hd : forall q, q <> p -> deref rs' q = deref rs q) by (intros q Hq; by apply (deref_update_ne rs p q)).
  assert (Hlen : length (ranges rs') = length (ranges rs)) by (apply length_alter).
  assert (HJ : forall u, isJoined (log ++ [e]) u <-> isJoined log u) by (intros u; apply isJoined_other; intros m; by apply isHv_not_member with "joined").
  assert (Hclosed : forall q, q ∈ visiableTl rs -> q <> p -> End_ (deref rs q) <> -1).
  { intros q Hq Hqp Hx. apply (vo_open _ _ _ (vi_vis _ _ Hi q Hq)) in Hx as [_ Hx]. congruence. }
  assert (Hend : forall q, q ∈ visiableTl rs -> q <> p -> End_ (deref rs q) + 1 <= ts e).
  { intros q Hq Hqp. apply (past_le _ _ _ Hok), (vo_closed _ _ _ (vi_vis _ _ Hi q Hq)). by apply Hclosed. }
  split; cbn [rs' set_hv update set_ranges historyVisibility historyVisibilityPos visiableTl userMemberView createPos join].
  - by right; left.
  - done.
  - apply past_new.
  - destruct (vi_create _ _ Hi) as (Hc & Hpc & Hpast). split_and!; [by apply atCreate_keep|done|by apply past_snoc].
  - intros q Hq. destruct (vi_vis _ _ Hi q Hq) as [Ha Hs Ho Hc]. destruct (decide (q = p)) as [->|Hqp]; split; rewrite ?Hp, ?Hd, ?Hlen by done; try done.
    + intros pos [Hlo [Hx|Hhi]]%inRange_spec; cbn in *; [lia|]. apply sharedAt_keep; [|lia]. apply Hs, inRange_spec. split; [done|by left].
    + cbn. lia.
    + intros _. cbn. replace (ts e - 1 + 1) with (ts e) by lia. apply past_new.
    + intros pos Hin. apply sharedAt_keep; [by apply Hs|]. intros _. pose proof (Hend q Hq Hqp). pose proof (Hclosed q Hq Hqp).
      apply inRange_spec in Hin as [_ [?|?]]; [done|lia].
    + intros Hx. by apply Hclosed in Hx.
    + intros Hx. by apply past_snoc, Hc.
  - intros pos Hs. apply holdsAt_snoc in Hs as [[Hs Hk]|[Hx _]]; [|by pose proof (isHv_fun _ _ _ He Hx)].
    specialize (Hk He). destruct (vi_shared _ _ Hi pos Hs) as (q & Hq & Hin). exists q. split; [done|].
    destruct (decide (q = p)) as [->|Hqp]; [|by rewrite Hd]. rewrite Hp. apply inRange_spec in Hin as [? _]. apply inRange_spec. cbn. lia.
  - intros u. rewrite HJ. apply Hi.
  - intros u items q Hv Hq. destruct (vi_view _ _ Hi u items q Hv Hq) as [?|[Ha Hap Hal Hs Ho Hc]]; [by left|].
    right. assert (Hqp : q <> p) by congruence. split; rewrite ?Hd, ?Hlen by done; try done.
    + intros pos Hin. apply ownRead_keep; [done|by apply Hs|]. intros [Hl|Hl]; by apply (isHv_not_member _ _ _ _ He) in Hl.
    + intros Hx. rewrite HJ. by apply Ho.
    + intros Hx. by apply past_snoc, Hc.
  - intros u Hj%HJ. destruct (vi_member _ _ Hi u Hj) as (items & q & Hv & Hl & Hq & Hqo & Hpast & Hc). assert (Hqp : q <> p) by congruence.
    exists items, q. split; [done|]. unfold memberOk. cbn [rs' set_hv update set_ranges visiableTl]. rewrite Hd by done.
    split_and!; try done; [by apply past_snoc|]. intros hs Hhs. destruct (Hc hs Hhs) as [Ho (c & Hcin & Hcov)].
    destruct (decide (hs = p)) as [->|Hhp].
    + rewrite Hp. split; [cbn; lia|]. exists q. split; [by apply elem_last|]. rewrite Hd by done. apply covers_spec. cbn. split; [by apply Ho|by left].
    + rewrite Hd by done. split; [done|]. exists c. split; [done|]. destruct (decide (c = p)) as [->|Hcp]; [|by rewrite Hd].
      rewrite Hp. apply covers_close; [done|]. pose proof (Hend hs Hhs Hhp). lia.
  - intros u pos Hj. apply joinedAt_other in Hj; [|intros m; by apply isHv_not_member with "joined"].
    destruct (vi_complete _ _ Hi u pos Hj) as (items & q & Hv & Hq & Hnq & Hin). assert (Hqp : q <> p) by congruence.
    exists items, q. split_and!; [done|done|done|by rewrite Hd].
Qed.

Lemma hv_step log e rs : VInv log rs -> okEvent log e -> ceType e = "m.room.history_visibility" -> VInv (log ++ [e]) (onHistoryVisibility e rs).
Proof using.
  intros Hi Hok Ht. pose proof Hok as (_ & _ & Hv & _). destruct (decide (historyVisibility rs = historyVisibilityOf (ceContent e))) as [E|E].
  - unfold onHistoryVisibility. rewrite (proj2 (String.eqb_eq _ _) E). apply VInv_log; try done.
    + by intros v [_ <-].
    + intros u m [Ht' _]. congruence.
  - destruct (Hv Ht) as [Hs|Hj]; [apply hv_shared|apply hv_joined]; try done.
    + by rewrite <- (proj2 Hs).
    + by rewrite <- (proj2 Hj).
Qed.

(** ** Members *)

Lemma isMember_fun e u v m k : isMember e u m -> isMember e v k -> u = v /\ m = k.
Proof using. intros (_ & Hu & <-) (_ & Hv & <-). split; [congruence|done]. Qed.

Lemma isMember_not_hv e u m v : isMember e u m -> ~ isHv e v.
Proof using. intros [Ht _] [Ht' _]. congruence. Qed.

Lemma covers_refl r : covers r r = true.
Proof using. apply covers_spec. lia. Qed.

Lemma addShared_spec rs items : exists extra, addShared rs items = (items ++ extra)%list /\ (forall p, p ∈ extra -> p ∈ visiableTl rs) /\
  forall hs, hs ∈ visiableTl rs -> exists c, c ∈ addShared rs items /\ covers (deref rs c) (deref rs hs) = true.
Proof using.
  unfold addShared. generalize (visiableTl rs) as vs. intros vs. revert items. induction vs as [|v vs IH]; intros items; cbn.
  { exists []. rewrite app_nil_r. split_and!; [done|done|]. by intros hs ?%elem_of_nil. }
  set (items1 := if existsb _ items then items else _). destruct (IH items1) as (extra & -> & Hsub & Hcov).
  assert (H1 : exists ex1, items1 = (items ++ ex1)%list /\ (forall p, p ∈ ex1 -> p = v) /\
            exists c, c ∈ items1 /\ covers (deref rs c) (deref rs v) = true).
  { unfold items1. destruct (existsb _ items) eqn:E.
    - exists []. rewrite app_nil_r. split_and!; [done|by intros p ?%elem_of_nil|]. apply existsb_exists in E as (c & Hc%list_elem_of_In & E). eauto.
    - exists [v]. split_and!; [done|by intros p ?%list_elem_of_singleton|]. exists v. split; [apply elem_of_app; right; by left|apply covers_refl]. }
  destruct H1 as (ex1 & E1 & Hex & c & Hc & Hcv). exists (ex1 ++ extra)%list. rewrite E1 at 1. rewrite <- app_assoc. split_and!; [done| |].
  - intros p [Hp|Hp]%elem_of_app; [apply Hex in Hp as ->; by left|right; by apply Hsub].
  - intros hs [->|Hhs]%elem_of_cons; [|by apply Hcov]. exists c. split; [|done]. apply elem_of_app. by left.
Qed.

(** The first range of a user is the instant of creation. *)
Lemma give_first log rs u : VInv log rs -> default [] (userMemberView rs !! u) = [] -> ~ isJoined log u ->
  let '(n, rs1) := alloc (mkRange (createPos rs) (createPos rs) false 0) rs in
  VInv log (set_view rs1 (<[u := [n]]> (userMemberView rs1)) (userMemberViewOk rs1)).
Proof using.
  intros Hi Hnone Hnj. unfold alloc. set (n := length (ranges rs)). set (r := mkRange _ _ _ _).
  match goal with |- VInv _ ?x => set (rs' := x) end. destruct (vi_create _ _ Hi) as (Hc & Hpos & Hpast).
  assert (Hd : forall p, (p < n)%nat -> deref rs' p = deref rs p) by (intros p Hp; exact (deref_alloc rs r p Hp)).
  assert (Hn : deref rs' n = r) by exact (deref_fresh rs r).
  assert (Hvis : forall p, p ∈ visiableTl rs -> (p < n)%nat) by (intros p Hp; apply (vi_vis _ _ Hi p Hp)).
  assert (Hview : forall v items p, userMemberView rs !! v = Some items -> p ∈ items -> (p < n)%nat /\ v <> u).
  { intros v items p Hv Hp. split; [destruct (vi_view _ _ Hi v items p Hv Hp) as [?|[]]; auto|]. intros ->. rewrite Hv in Hnone. cbn in Hnone. subst.
    by apply elem_of_nil in Hp. }
  assert (Hlen : (length (ranges rs') = S n)%nat) by (cbn; rewrite length_app; cbn; lia).
  split; try apply Hi; cbn [rs' set_view set_ranges visiableTl userMemberView].
  - intros Hs. destruct (vi_shared_open _ _ Hi Hs) as (p & Hl & Ho & Hst). exists p. rewrite Hd by (by apply Hvis, elem_last). done.
  - intros p Hp. destruct (vi_vis _ _ Hi p Hp) as [Ha Hs Ho Hcl]. split; rewrite ?Hd, ?Hlen by done; try done. lia.
  - intros pos Hs. destruct (vi_shared _ _ Hi pos Hs) as (p & Hp & Hin). exists p. rewrite Hd by auto. done.
  - intros v items p Hv Hp. destruct (decide (v = u)) as [->|Hvu].
    + rewrite lookup_insert_eq in Hv. injection Hv as <-. apply list_elem_of_singleton in Hp as ->. right. split; rewrite ?Hn, ?Hlen; try done; [lia|..].
      * intros Hp%Hvis. lia.
      * intros v its. cbn. destruct (decide (v = u)) as [->|Hvu]; [done|]. rewrite lookup_insert_ne by done. intros Hv Hp. apply (Hview _ _ _ Hv) in Hp as [? _]. lia.
      * intros pos [Hlo [Hx|Hhi]]%inRange_spec; cbn in *; [lia|]. left. by replace pos with (createPos rs) by lia.
      * cbn. lia.
    + rewrite lookup_insert_ne in Hv by done. destruct (vi_view _ _ Hi v items p Hv Hp) as [?|[Ha Hap Hal Hs Ho Hcl]]; [by left|].
      right. split; rewrite ?Hd, ?Hlen by done; try done; [lia|]. intros w its. cbn. destruct (decide (w = u)) as [->|Hwu].
      * rewrite lookup_insert_eq. intros [= <-] Hx%list_elem_of_singleton. unfold n in *. lia.
      * rewrite lookup_insert_ne by done. apply Hal.
  - intros v Hj. assert (Hvu : v <> u) by (by intros ->). destruct (vi_member _ _ Hi v Hj) as (items & p & Hv & Hl & Hp & Ho & Hps & Hcv).
    exists items, p. rewrite lookup_insert_ne by done. split; [done|]. destruct (Hview v items p Hv (elem_last _ _ Hl)) as [Ha _].
    unfold memberOk. rewrite Hd by done. split_and!; try done. intros hs Hhs. destruct (Hcv hs Hhs) as [Hho (c & Hcin & Hcc)].
    rewrite Hd by auto. split; [done|]. exists c. split; [done|]. rewrite Hd; [done|]. by destruct (Hview v items c Hv Hcin).
  - intros v pos Hj. destruct (vi_complete _ _ Hi v pos Hj) as (items & p & Hv & Hp & Hnp & Hin).
    destruct (Hview v items p Hv Hp) as [Ha Hvu]. exists items, p. rewrite lookup_insert_ne, Hd by done. done.
Qed.

(** A user that has ranges joins. *)
Lemma join_range log e rs u items j lv iv : VInv log rs -> okEvent log e -> isMember e u "join" -> ~ isJoined log u ->
  userMemberView rs !! u = Some items -> (forall v, is_Some (j !! v) <-> isJoined (log ++ [e]) v) ->
  let start := if String.eqb (historyVisibility rs) "shared" then historyVisibilityPos rs else ts e in
  let '(n, rs1) := alloc (mkRange start (-1) false 0) rs in
  VInv (log ++ [e]) (set_members (set_view rs1 (<[u := (addShared rs items ++ [n])%list]> (userMemberView rs1)) (userMemberViewOk rs1)) j lv iv).
Proof using.
  intros Hi Hok He Hnj Hu Hj start. unfold alloc. set (n := length (ranges rs)). set (r := mkRange _ _ _ _).
  match goal with |- VInv _ ?x => set (rs' := x) end. destruct (addShared_spec rs items) as (extra & Eadd & Hextra & Hcov).
  assert (Hd : forall p, (p < n)%nat -> deref rs' p = deref rs p) by (intros p Hp; exact (deref_alloc rs r p Hp)).
  assert (Hn : deref rs' n = r) by exact (deref_fresh rs r).
  assert (Hvis : forall p, p ∈ visiableTl rs -> (p < n)%nat) by (intros p Hp; apply (vi_vis _ _ Hi p Hp)).
  assert (Hview : forall v its p, userMemberView rs !! v = Some its -> p ∈ its -> (p < n)%nat).
  { intros v its p Hv Hp. destruct (vi_view _ _ Hi v its p Hv Hp) as [?|[]]; auto. }
  assert (Hlen : (length (ranges rs') = S n)%nat) by (cbn; rewrite length_app; cbn; lia).
  assert (Hnvis : n ∉ visiableTl rs) by (intros Hx%Hvis; lia).
  assert (HJ : forall v, v <> u -> isJoined (log ++ [e]) v <-> isJoined log v).
  { intros v Hv. apply isJoined_other. intros m Hm. by destruct (isMember_fun _ _ _ _ _ He Hm). }
  assert (HS : forall pos, sharedAt (log ++ [e]) pos <-> sharedAt log pos) by (intros pos; apply sharedAt_other; destruct He as [-> _]; done).
  assert (Hstart : start <= ts e).
  { unfold start. destruct (String.eqb _ _); [|done]. apply (past_le _ _ _ Hok), Hi. }
  assert (Hkeep : forall v pos, ownRead log v pos -> ownRead (log ++ [e]) v pos).
  { intros v pos Ho. apply ownRead_keep; [done|done|]. intros [Hl|Hl]; by destruct (isMember_fun _ _ _ _ _ He Hl). }
  split; cbn [rs' set_members set_view set_ranges historyVisibility historyVisibilityPos visiableTl userMemberView createPos join].
  - apply Hi.
  - intros Hs. destruct (vi_shared_open _ _ Hi Hs) as (p & Hl & Ho & Hst). exists p. rewrite Hd by (by apply Hvis, elem_last). done.
  - apply past_snoc, Hi.
  - destruct (vi_create _ _ Hi) as (Hc & Hp & Hpast). split_and!; [by apply atCreate_keep|done|by apply past_snoc].
  - intros p Hp. destruct (vi_vis _ _ Hi p Hp) as [Ha Hs Ho Hc]. split; rewrite ?Hd, ?Hlen by done; try done; [lia|..].
    + intros pos Hin. by apply HS, Hs.
    + intros Hx. by apply past_snoc, Hc.
  - intros pos Hs%HS. destruct (vi_shared _ _ Hi pos Hs) as (p & Hp & Hin). exists p. by rewrite Hd by auto.
  - done.
  - intros v its p Hv Hp.
    assert (Hold : forall w iw, userMemberView rs !! w = Some iw -> p ∈ iw -> p ∈ visiableTl rs \/
              ((p < n)%nat /\ OwnOk log rs w iw p /\ forall w' iw', userMemberView rs' !! w' = Some iw' -> p ∈ iw' -> w' = w)).
    { intros w iw Hw Hpw. destruct (vi_view _ _ Hi w iw p Hw Hpw) as [?|Hown]; [by left|]. right. pose proof (Hview _ _ _ Hw Hpw) as Hpn.
      split_and!; [done|done|]. intros w' iw'. cbn. destruct (decide (w' = u)) as [->|Hne].
      - rewrite lookup_insert_eq. intros [= <-]. rewrite Eadd, !elem_of_app, list_elem_of_singleton. intros [[Hx|Hx]|Hx].
        + by eapply (oo_alone _ _ _ _ _ Hown).
        + by apply Hextra, (oo_apart _ _ _ _ _ Hown) in Hx.
        + lia.
      - rewrite lookup_insert_ne by done. apply (oo_alone _ _ _ _ _ Hown). }
    destruct (decide (v = u)) as [->|Hne].
    + rewrite lookup_insert_eq in Hv. injection Hv as <-. rewrite Eadd, !elem_of_app, list_elem_of_singleton in Hp. destruct Hp as [[Hp|Hp]|Hp].
      * destruct (Hold u items Hu Hp) as [?|(Hpn & [Ha Hap Hal Hs Ho Hc] & Halone)]; [by left|]. right. split; rewrite ?Hd, ?Hlen by done; try done; [lia|auto|..].
        -- intros Hx. by destruct (Ho Hx).
        -- intros Hx. by apply past_snoc, Hc.
      * left. by apply Hextra.
      * subst p. right. split; rewrite ?Hn, ?Hlen; [lia|done| | | |done].
        -- intros w iw. cbn. destruct (decide (w = u)) as [->|Hw]; [done|]. rewrite lookup_insert_ne by done. intros Hw2 Hx%(Hview _ _ _ Hw2). lia.
        -- intros pos [Hlo _]%inRange_spec. cbn in Hlo. destruct (Z.le_gt_cases (ts e) pos) as [Hle|Hgt].
           ++ right. left. apply holdsAt_snoc. right. done.
           ++ right. right. split; [|apply (past_in _ e); [apply elem_of_app; right; by left|lia]]. apply HS.
              unfold start in Hlo. destruct (String.eqb_spec (historyVisibility rs) "shared") as [Hs|Hs]; [|lia].
              destruct (vi_shared_open _ _ Hi Hs) as (q & Hl & Ho & Hst). apply (vo_sound _ _ _ (vi_vis _ _ Hi q (elem_last _ _ Hl))).
              apply inRange_spec. rewrite Hst. split; [done|by left].
        -- intros _. split; [by apply (isJoined_member log e u "join")|]. cbn. by rewrite last_snoc.
    + rewrite lookup_insert_ne in Hv by done. destruct (Hold v its Hv Hp) as [?|(Hpn & [Ha Hap Hal Hs Ho Hc] & Halone)]; [by left|].
      right. split; rewrite ?Hd, ?Hlen by done; try done; [lia|auto|..].
      * intros Hx. rewrite HJ by done. by apply Ho.
      * intros Hx. by apply past_snoc, Hc.
  - intros v Hjv. destruct (decide (v = u)) as [->|Hne].
    + eexists _, n. rewrite lookup_insert_eq. split; [done|]. unfold memberOk. rewrite Hn, last_snoc. cbn [rs' set_members set_view set_ranges visiableTl].
      split_and!; try done.
      * apply (past_in _ e); [apply elem_of_app; right; by left|done].
      * intros hs Hhs. rewrite Hd by auto. split.
        -- intros Hx. destruct (vo_open _ _ _ (vi_vis _ _ Hi hs Hhs) Hx) as [Hsh Hl]. destruct (vi_shared_open _ _ Hi Hsh) as (q & Hl' & _ & Hst).
           assert (q = hs) as -> by congruence. cbn. unfold start. rewrite Hsh. cbn. lia.
        -- destruct (Hcov hs Hhs) as (c & Hc & Hcc). exists c. split; [apply elem_of_app; by left|]. rewrite Hd; [done|].
           rewrite Eadd in Hc. apply elem_of_app in Hc as [Hc|Hc]; [by eapply Hview|by apply Hvis, Hextra].
    + apply HJ in Hjv; [|done]. destruct (vi_member _ _ Hi v Hjv) as (its & p & Hv & Hl & Hp & Ho & Hps & Hcv).
      exists its, p. rewrite lookup_insert_ne by done. split; [done|]. pose proof (Hview v its p Hv (elem_last _ _ Hl)) as Ha.
      unfold memberOk. rewrite Hd by done. split_and!; try done; [by apply past_snoc|]. intros hs Hhs. destruct (Hcv hs Hhs) as [Hho (c & Hcin & Hcc)].
      rewrite Hd by auto. split; [done|]. exists c. split; [done|]. rewrite Hd; [done|]. by eapply Hview.
  - intros v pos Hjv. assert (Hcase : joinedAt log v pos \/ (v = u /\ ts e <= pos)).
    { apply holdsAt_snoc in Hjv as [[? _]|[Hm Hle]]; [by left|right]. by destruct (isMember_fun _ _ _ _ _ He Hm). }
    destruct Hcase as [Hjo|[-> Hle]].
    + destruct (vi_complete _ _ Hi v pos Hjo) as (its & p & Hv & Hp & Hnp & Hin). pose proof (Hview v its p Hv Hp) as Ha.
      destruct (decide (v = u)) as [->|Hne].
      * assert (its = items) as -> by congruence. eexists _, p. rewrite lookup_insert_eq. split; [done|]. rewrite Hd by done.
        split_and!; [|done|done]. rewrite Eadd, !elem_of_app. auto.
      * exists its, p. rewrite lookup_insert_ne, Hd by done. done.
    + eexists _, n. rewrite lookup_insert_eq. split; [done|]. rewrite Hn. split_and!; [apply elem_of_app; right; by left|done|].
      apply inRange_spec. cbn. split; [lia|by left].
Qed.

(** A member leaves. *)
Lemma leave_range log e rs u items p j lv iv : VInv log rs -> okEvent log e -> isLeave e u -> isJoined log u ->
  userMemberView rs !! u = Some items -> last items = Some p -> (forall v, is_Some (j !! v) <-> isJoined (log ++ [e]) v) ->
  VInv (log ++ [e]) (set_members (update p (set_End (ts e)) rs) j lv iv).
Proof using.
  intros Hi Hok He Hju Hu Hlast Hj. pose proof (proj1 Hok) as Htpos.
  assert (Hown : OwnOk log rs u items p /\ End_ (deref rs p) = -1).
  { destruct (vi_member _ _ Hi u Hju) as (its & q & Hv & Hl & Hq & Ho & _). assert (its = items) as -> by congruence. assert (q = p) as -> by congruence.
    split; [|done]. apply (view_own log rs u items p Hi Hu (elem_last _ _ Hlast) Hq). }
  destruct Hown as [[Hpa Hpap Hpal Hps Hpo _] Hopen]. match goal with |- VInv _ ?x => set (rs' := x) end.
  assert (Hp : deref rs' p = set_End (ts e) (deref rs p)) by (apply (deref_update_eq rs p); done).
  assert (Hd : forall q, q <> p -> deref rs' q = deref rs q) by (intros q Hq; by apply (deref_update_ne rs p q)).
  assert (Hvis : forall q, q ∈ visiableTl rs -> q <> p) by congruence.
  assert (Hlen : length (ranges rs') = length (ranges rs)) by (apply length_alter).
  assert (Hmem : exists m, isMember e u m /\ m <> "join") by (destruct He as [He|He]; eexists; split; [exact He|done|exact He|done]).
  destruct Hmem as (m & Hm & Hmj).
  assert (HJ : forall v, v <> u -> isJoined (log ++ [e]) v <-> isJoined log v).
  { intros v Hv. apply isJoined_other. intros k Hk. by destruct (isMember_fun _ _ _ _ _ Hm Hk). }
  assert (HS : forall pos, sharedAt (log ++ [e]) pos <-> sharedAt log pos) by (intros pos; apply sharedAt_other; destruct Hm as [-> _]; done).
  assert (Hlv : forall v, isLeave e v -> v = u) by (intros v [Hv|Hv]; by destruct (isMember_fun _ _ _ _ _ Hm Hv)).
  split; cbn [rs' set_members update set_ranges historyVisibility historyVisibilityPos visiableTl userMemberView createPos join].
  - apply Hi.
  - intros Hs. destruct (vi_shared_open _ _ Hi Hs) as (q & Hl & Ho & Hst). exists q. rewrite Hd by (by apply Hvis, elem_last). done.
  - apply past_snoc, Hi.
  - destruct (vi_create _ _ Hi) as (Hc & Hcp & Hpast). split_and!; [by apply atCreate_keep|done|by apply past_snoc].
  - intros q Hq. destruct (vi_vis _ _ Hi q Hq) as [Ha Hs Ho Hc]. split; rewrite ?Hd, ?Hlen by auto; try done.
    + intros pos Hin. by apply HS, Hs.
    + intros Hx. by apply past_snoc, Hc.
  - intros pos Hs%HS. destruct (vi_shared _ _ Hi pos Hs) as (q & Hq & Hin). exists q. by rewrite Hd by auto.
  - done.
  - intros v its q Hv Hq. destruct (decide (q = p)) as [->|Hqp].
    + assert (v = u) as -> by (by eapply Hpal). assert (its = items) as -> by congruence. right. split; rewrite ?Hp, ?Hlen; try done.
      * intros pos [Hlo [Hx|Hhi]]%inRange_spec; cbn in *; [lia|]. apply ownRead_keep; [done| |done]. apply Hps, inRange_spec. split; [done|by left].
      * cbn. lia.
      * intros _. apply past_new.
    + destruct (vi_view _ _ Hi v its q Hv Hq) as [?|[Ha Hap Hal Hs Ho Hc]]; [by left|]. right. split; rewrite ?Hd, ?Hlen by done; try done.
      * intros pos Hin. apply ownRead_keep; [done|by apply Hs|]. intros ->%Hlv. assert (its = items) as -> by congruence.
        assert (Hx : End_ (deref rs q) <> -1) by (intros [_ Hx]%Ho; congruence). apply inRange_spec in Hin as [_ [?|Hle]]; [done|].
        pose proof (past_le _ _ _ Hok (Hc Hx)). lia.
      * intros Hx. destruct (Ho Hx) as [Hjv Hl]. split; [|done]. apply HJ; [|done]. intros ->. assert (its = items) as -> by congruence. congruence.
      * intros Hx. by apply past_snoc, Hc.
  - intros v Hjv. assert (Hvu : v <> u) by (intros ->; by apply (isJoined_member log e u m Hm) in Hjv). apply HJ in Hjv; [|done].
    destruct (vi_member _ _ Hi v Hjv) as (its & q & Hv & Hl & Hq & Ho & Hpst & Hcv). exists its, q. split; [done|].
    assert (Hne : forall c, c ∈ its -> c <> p) by (intros c Hc ->; by apply Hvu, (Hpal v its)).
    unfold memberOk. cbn [rs' set_members update set_ranges visiableTl]. rewrite Hd by (by apply Hne, elem_last). split_and!; try done; [by apply past_snoc|].
    intros hs Hhs. destruct (Hcv hs Hhs) as [Hho (c & Hcin & Hcc)]. rewrite Hd by auto. split; [done|]. exists c. split; [done|]. by rewrite Hd by auto.
  - intros v pos Hjv. apply holdsAt_snoc in Hjv as [[Hjv Hk]|[Hx _]].
    2:{ destruct (isMember_fun _ _ _ _ _ Hm Hx). congruence. }
    destruct (vi_complete _ _ Hi v pos Hjv) as (its & q & Hv & Hq & Hnq & Hin). exists its, q. split_and!; try done.
    destruct (decide (q = p)) as [->|Hqp]; [|by rewrite Hd]. rewrite Hp. assert (v = u) as -> by (by eapply Hpal). specialize (Hk He).
    apply inRange_spec in Hin as [? _]. apply inRange_spec. cbn. split; [done|by right].
Qed.

(** ** A member event *)

Lemma join_new log e rs u j lv iv : VInv log rs -> okEvent log e -> isMember e u "join" -> ~ isJoined log u ->
  (forall v, is_Some (j !! v) <-> isJoined (log ++ [e]) v) -> forall preM,
  VInv (log ++ [e]) (set_members (onUserMembershipChange u (historyVisibility rs) preM "join" (ts e) rs) j lv iv).
Proof using.
  intros Hi Hok He Hnj Hj preM. unfold onUserMembershipChange. cbn [String.eqb Ascii.eqb Bool.eqb orb].
  destruct (default [] (userMemberView rs !! u)) as [|a rest] eqn:Ed.
  - pose proof (give_first log rs u Hi Ed Hnj) as Hi1. unfold alloc in *. cbv zeta beta iota in *. set (rs1 := set_view _ _ _) in Hi1.
    pose proof (join_range log e rs1 u [length (ranges rs)] j lv iv Hi1 Hok He Hnj) as Hj2. unfold alloc in Hj2. cbv zeta beta iota in Hj2.
    specialize (Hj2 ltac:(apply lookup_insert_eq) Hj). eapply VInv_ext; [exact Hj2|..]; try done.
    + cbn. by rewrite insert_insert_eq.
    + cbn. apply (vi_create _ _ Hj2).
  - assert (Hv : userMemberView rs !! u = Some (a :: rest)) by (destruct (userMemberView rs !! u); cbn in Ed; congruence).
    exact (join_range log e rs u (a :: rest) j lv iv Hi Hok He Hnj Hv Hj).
Qed.

Lemma leave_new log e rs u m j lv iv : VInv log rs -> okEvent log e -> isMember e u m -> m = "leave" \/ m = "ban" -> isJoined log u ->
  (forall v, is_Some (j !! v) <-> isJoined (log ++ [e]) v) ->
  VInv (log ++ [e]) (set_members (onUserMembershipChange u (historyVisibility rs) "join" m (ts e) rs) j lv iv).
Proof using.
  intros Hi Hok He Hm Hju Hj. assert (Hl : isLeave e u) by (destruct Hm as [-> | ->]; [by left|by right]).
  destruct (vi_member _ _ Hi u Hju) as (items & p & Hv & Hlast & _). unfold onUserMembershipChange.
  replace (String.eqb m "leave" || String.eqb m "ban") with true by (by destruct Hm as [-> | ->]). cbn [String.eqb Ascii.eqb Bool.eqb].
  rewrite Hv. cbn [default Datatypes.id]. destruct items as [|a rest]; [done|]. rewrite Hlast.
  pose proof (leave_range log e rs u (a :: rest) p j lv iv Hi Hok Hl Hju Hv Hlast Hj) as Hi2. eapply VInv_ext; [exact Hi2|..]; try done.
  - cbn. by apply insert_id.
  - apply (vi_create _ _ Hi2).
Qed.

Lemma change_members u v preM m t rs j l i :
  onUserMembershipChange u v preM m t (set_members rs j l i) = set_members (onUserMembershipChange u v preM m t rs) j l i.
Proof using.
  unfold onUserMembershipChange, alloc. cbn [userMemberView set_members createPos visiableTl ranges historyVisibilityPos].
  destruct (String.eqb m "leave" || String.eqb m "ban"), (String.eqb preM "join"), (String.eqb m "join"), (default [] (userMemberView rs !! u));
    try reflexivity; by destruct (last _).
Qed.

Lemma preM_spec log rs u (Hi : VInv log rs) :
  let preM := match join rs !! u with
              | Some _ => "join"
              | None => match leave rs !! u with
                        | Some _ => "leave"
                        | None => match invite rs !! u with Some _ => "invite" | None => "" end
                        end
              end in
  (isJoined log u /\ preM = "join") \/ (~ isJoined log u /\ preM <> "join").
Proof using.
  cbn. pose proof (vi_joined _ _ Hi u) as Hj. destruct (join rs !! u) as [o|]; [left|right].
  - split; [|done]. by apply Hj.
  - split; [intros Hx%Hj; by destruct Hx|]. by repeat case_match.
Qed.

Lemma joined_insert log e rs u off : VInv log rs -> isMember e u "join" ->
  forall v, is_Some (<[u := off]> (join rs) !! v) <-> isJoined (log ++ [e]) v.
Proof using.
  intros Hi He v. destruct (decide (v = u)) as [->|Hne].
  - rewrite lookup_insert_eq, (isJoined_member log e u "join" He). done.
  - rewrite lookup_insert_ne, (vi_joined _ _ Hi) by done. symmetry. apply isJoined_other. intros m Hm. by destruct (isMember_fun _ _ _ _ _ He Hm).
Qed.

Lemma joined_delete log e rs u m : VInv log rs -> isMember e u m -> m <> "join" ->
  forall v, is_Some (delete u (join rs) !! v) <-> isJoined (log ++ [e]) v.
Proof using.
  intros Hi He Hm v. destruct (decide (v = u)) as [->|Hne].
  - rewrite lookup_delete_eq, (isJoined_member log e u m He). split; [by intros [? ?]|done].
  - rewrite lookup_delete_ne, (vi_joined _ _ Hi) by done. symmetry. apply isJoined_other. intros k Hk. by destruct (isMember_fun _ _ _ _ _ He Hk).
Qed.

(** A member event that does not change whether the user is a member. *)
Lemma member_same log e rs u m : VInv log rs -> okEvent log e -> isMember e u m -> (m = "join" <-> isJoined log u) ->
  forall j l i, (forall v, is_Some (j !! v) <-> is_Some (join rs !! v)) -> VInv (log ++ [e]) (set_members rs j l i).
Proof using.
  intros Hi Hok He Hiff j l i Hj. assert (Hi1 : VInv (log ++ [e]) rs).
  { apply VInv_log; [done|done| |]. - intros v Hv. by apply (isMember_not_hv _ _ _ _ He) in Hv.
    - intros v k Hk. destruct (isMember_fun _ _ _ _ _ He Hk) as [-> ->]. done. }
  eapply VInv_ext; [exact Hi1|..]; try done. apply Hi1.
Qed.

Lemma member_step log e rs off : VInv log rs -> okEvent log e -> ceType e = "m.room.member" ->
  exists rs', onMembership e off rs = Ok rs' /\ VInv (log ++ [e]) rs'.
Proof using.
  intros Hi Hok Ht. pose proof Hok as (_ & _ & _ & Hm). destruct (Hm Ht) as (u & Hu).
  assert (Hkey : exists m, isMember e u m) by (destruct Hu as [?|[[?|?]|[? _]]]; by eexists). destruct Hkey as (m & He).
  unfold onMembership, stateKeyOf. rewrite (proj1 (proj2 He)), (proj2 (proj2 He)). cbn [mbind res_bind]. cbv zeta.
  pose proof (preM_spec log rs u Hi) as Hpre. cbv zeta in Hpre. set (preM := match join rs !! u with Some _ => _ | None => _ end) in *.
  assert (Hcase : (m = "join") \/ (m = "leave" \/ m = "ban") \/ (m = "invite" /\ ~ isJoined log u)).
  { destruct Hu as [Hx|[[Hx|Hx]|[Hx Hn]]]; destruct (isMember_fun _ _ _ _ _ He Hx) as [_ ->]; auto. }
  destruct Hpre as [[Hj ->]|[Hnj Hpre]].
  - assert (Hjoin : is_Some (join rs !! u)) by (by apply Hi). destruct Hcase as [->|[Hl|[_ ?]]]; [|..|done]; cbn.
    + eexists. split; [done|]. apply (member_same log e rs u "join"); try done. intros v. destruct (decide (v = u)) as [->|Hne].
      * by rewrite lookup_insert_eq.
      * by rewrite lookup_insert_ne.
    + replace (String.eqb m "join") with false by (by destruct Hl as [-> | ->]). replace (String.eqb m "invite") with false by (by destruct Hl as [-> | ->]).
      replace (String.eqb m "leave" || String.eqb m "ban") with true by (by destruct Hl as [-> | ->]). eexists. split; [done|].
      cbn [set_members join leave invite]. match goal with |- VInv _ (onUserMembershipChange _ _ _ _ _ ?x) => set (rs2 := x) end.
      change rs2 with (set_members rs (delete u (join rs)) (<[u := off]> (leave rs)) (invite rs)). rewrite change_members.
      apply (leave_new log e rs u m); try done. apply (joined_delete log e rs u m); [done|done|]. by destruct Hl as [-> | ->].
  - assert (Hpj : String.eqb preM "join" = false) by (by apply String.eqb_neq). destruct Hcase as [->|Hcase].
    + rewrite (proj2 (String.eqb_neq "join" preM)) by congruence. cbn [String.eqb Ascii.eqb Bool.eqb]. rewrite Hpj. eexists. split; [done|].
      match goal with |- VInv _ (onUserMembershipChange _ _ _ _ _ ?x) => assert (Hx : exists l i, x = set_members rs (<[u := off]> (join rs)) l i) end.
      { destruct (String.eqb preM "invite"); [by eexists _, _|]. destruct (String.eqb preM "leave"); by eexists _, _. }
      destruct Hx as (l & i & ->). rewrite change_members. apply (join_new log e rs u); try done. by apply joined_insert.
    + assert (Hmj : m <> "join") by (by destruct Hcase as [[-> | ->]|[-> _]]).
      rewrite (proj2 (String.eqb_neq _ _) Hmj). match goal with |- context [if String.eqb m preM then Ok ?x else _] =>
        assert (Hx : exists l i, x = set_members rs (join rs) l i); [|destruct Hx as (l1 & i1 & ->)] end.
      { destruct (String.eqb m "invite"); [by eexists _, _|]. destruct (_ || _); [by eexists _, _|]. exists (leave rs), (invite rs). by destruct rs. }
      destruct (String.eqb m preM); [eexists; split; [done|]; by apply (member_same log e rs u m)|]. rewrite Hpj.
      match goal with |- context [onUserMembershipChange _ _ _ _ _ ?x] => assert (Hx : exists l i, x = set_members rs (join rs) l i); [|destruct Hx as (l2 & i2 & ->)] end.
      { destruct (String.eqb preM "invite"); [by eexists _, _|]. destruct (String.eqb preM "leave"); by eexists _, _. }
      eexists. split; [done|]. rewrite change_members. unfold onUserMembershipChange. rewrite Hpj, (proj2 (String.eqb_neq _ _) Hmj).
      replace (if String.eqb m "leave" || String.eqb m "ban" then rs else rs) with rs by (by destruct (_ || _)).
      by apply (member_same log e rs u m).
Qed.

(** ** Events and questions *)

Lemma event_step log e rs off : VInv log rs -> okEvent log e -> exists rs', onEvent e off false rs = Ok rs' /\ VInv (log ++ [e]) rs'.
Proof using.
  intros Hi Hok. unfold onEvent. cbn [negb]. unfold onNewEvent.
  assert (Hrec : forall rs1, VInv (log ++ [e]) rs1 -> VInv (log ++ [e]) (if IsStateClientEv e then recordState e off rs1 else rs1)).
  { intros rs1 Hi1. destruct (IsStateClientEv e); [|done]. eapply VInv_ext; [exact Hi1|..]; try done. apply Hi1. }
  destruct (String.eqb_spec (ceType e) "m.room.member") as [Ht|Ht].
  { destruct (member_step log e rs off Hi Hok Ht) as (rs1 & -> & Hi1). eexists. split; [done|]. by apply Hrec. }
  destruct (String.eqb_spec (ceType e) "m.room.history_visibility") as [Hv|Hv].
  { eexists. split; [done|]. apply Hrec. by apply hv_step. }
  eexists. split; [done|]. apply Hrec. assert (Hi1 : VInv (log ++ [e]) rs).
  { apply VInv_log; [done|done|by intros v [? _]|by intros u m [? _]]. }
  eapply VInv_ext; [exact Hi1|..]; try (unfold set_curInfo; by repeat case_match).
  unfold set_curInfo. destruct (String.eqb_spec (ceType e) "m.room.create") as [Hc|Hc].
  - cbn. change (ceOriginServerTS e) with (ts e). split_and!; [|destruct Hok; lia|apply past_new]. right. exists e. split; [|done].
    apply elem_of_app. right. by left.
  - match goal with |- context [createPos ?x] => replace (createPos x) with (createPos rs); [apply Hi1|] end. by repeat case_match.
Qed.

Lemma addShared_covered rs items : (forall hs, hs ∈ visiableTl rs -> exists c, c ∈ items /\ covers (deref rs c) (deref rs hs) = true) ->
  addShared rs items = items.
Proof using.
  unfold addShared. generalize (visiableTl rs) as vs. induction vs as [|v vs IH]; intros Hc; [done|]. cbn.
  destruct (Hc v ltac:(by left)) as (c & Hcin & Hcc). replace (existsb _ items) with true.
  - apply IH. intros hs Hhs. apply Hc. by right.
  - symmetry. apply existsb_exists. exists c. split; [by apply list_elem_of_In|done].
Qed.

Lemma arrange_inv log rs u ok : VInv log rs -> let rs1 := ArrangeVisibilityRange u rs in VInv log (set_view rs1 (userMemberView rs1) ok).
Proof using.
  intros Hi rs1. unfold ArrangeVisibilityRange in rs1. set (items := default [] (userMemberView rs !! u)) in rs1.
  destruct (addShared_spec rs items) as (extra & Eadd & Hextra & _).
  assert (Hdec : isJoined log u \/ ~ isJoined log u).
  { pose proof (vi_joined _ _ Hi u) as Hj. destruct (join rs !! u); [left; by apply Hj|right; intros Hx%Hj; by destruct Hx]. }
  destruct Hdec as [Hj|Hnj].
  { destruct (vi_member _ _ Hi u Hj) as (its & p & Hv & _ & _ & _ & _ & Hc). assert (Ei : items = its) by (unfold items; by rewrite Hv).
    eapply VInv_ext; [exact Hi|..]; try done; [|apply Hi]. cbn. rewrite addShared_covered, Ei; [by apply insert_id|]. intros hs Hhs. rewrite Ei. by apply Hc. }
  assert (Hin : forall v its p, userMemberView rs1 !! v = Some its -> p ∈ its ->
            p ∈ visiableTl rs \/ exists its0, userMemberView rs !! v = Some its0 /\ p ∈ its0 /\ (v <> u -> its0 = its)).
  { intros v its p. unfold rs1. cbn. destruct (decide (v = u)) as [->|Hne].
    - rewrite lookup_insert_eq. intros [= <-]. rewrite Eadd. intros [Hp|Hp]%elem_of_app; [|left; by apply Hextra]. right.
      unfold items in Hp. destruct (userMemberView rs !! u) as [its0|]; [|by apply elem_of_nil in Hp]. by exists its0.
    - rewrite lookup_insert_ne by done. intros Hv Hp. right. by exists its. }
  destruct Hi as [A1 A2 A3 A4 A5 A6 A7 A8 A9 A10]. split; try done.
  - intros p Hp. destruct (A5 p Hp). by split.
  - intros v its p Hv Hp. destruct (Hin v its p Hv Hp) as [?|(its0 & Hv0 & Hp0 & Heq)]; [by left|].
    destruct (A8 v its0 p Hv0 Hp0) as [?|[Ha Hap Hal Hs Ho Hc]]; [by left|]. right. split; try done.
    + intros w iw Hw Hpw. destruct (Hin w iw p Hw Hpw) as [?|(iw0 & Hw0 & Hpw0 & _)]; [done|]. by apply (Hal w iw0).
    + intros Hx. destruct (Ho Hx) as [Hjv Hl]. split; [done|]. destruct (decide (v = u)) as [->|Hne]; [done|]. by rewrite <- Heq.
  - intros v Hjv. destruct (A9 v Hjv) as (its & p & Hv & Hm). exists its, p. split; [|done]. unfold rs1. cbn. by rewrite lookup_insert_ne by (by intros ->).
  - intros v pos Hjv. destruct (A10 v pos Hjv) as (its & p & Hv & Hp & Hnp & Hi). destruct (decide (v = u)) as [->|Hne].
    + eexists _, p. unfold rs1. cbn. rewrite lookup_insert_eq. split; [done|]. rewrite Eadd. split_and!; [|done|done]. apply elem_of_app. left.
      unfold items. by rewrite Hv.
    + exists its, p. unfold rs1. cbn. by rewrite lookup_insert_ne.
Qed.

Lemma arranged_inv log rs u : VInv log rs -> VInv log (arranged u rs).
Proof using. intros Hi. unfold arranged. case_decide; [done|]. by apply arrange_inv. Qed.

Lemma run_inv os : forall log rs, VInv log rs -> okLog log os -> exists rs', runOps os rs = Ok rs' /\ VInv (log ++ eventsOf os) rs'.
Proof using.
  induction os as [|[e off|u pos] os IH]; intros log rs Hi Hok; cbn [runOps runOp].
  - exists rs. unfold eventsOf. cbn. by rewrite app_nil_r.
  - destruct Hok as [He Hok]. destruct (event_step log e rs off Hi He) as (rs1 & -> & Hi1). destruct (IH _ _ Hi1 Hok) as (rs2 & E2 & Hi2).
    exists rs2. split; [done|]. unfold eventsOf. cbn. by rewrite <- app_assoc in Hi2.
  - cbn. apply IH; [|done]. by apply arranged_inv.
Qed.

(** A user that was asked about has a list. *)
Definition okView (rs : RoomState) : Prop := forall u, u ∈ userMemberViewOk rs -> is_Some (userMemberView rs !! u).

Lemma insert_some {A} (m : gmap string A) u v x : is_Some (m !! u) -> is_Some (<[v := x]> m !! u).
Proof using. intros Hm. destruct (decide (v = u)) as [->|Hne]; [by rewrite lookup_insert_eq|by rewrite lookup_insert_ne]. Qed.

Lemma change_okView u v preM m t rs : okView rs -> okView (onUserMembershipChange u v preM m t rs).
Proof using.
  intros Hok w. unfold onUserMembershipChange, alloc.
  destruct (String.eqb m "leave" || String.eqb m "ban"), (String.eqb preM "join"), (String.eqb m "join"), (default [] (userMemberView rs !! u));
    try destruct (last _); cbn; intros Hw; try apply insert_some; by apply Hok.
Qed.

Lemma step_okView o rs rs' : okView rs -> runOp o rs = Ok rs' -> okView rs'.
Proof using.
  intros Hok. destruct o as [e off|u pos]; cbn [runOp].
  - unfold onEvent. cbn [negb]. unfold onNewEvent. intros (rs1 & E & E2)%bind_Ok. assert (Hok1 : okView rs1).
    { destruct (String.eqb _ "m.room.member").
      - unfold onMembership in E. apply bind_Ok in E as (key & _ & E). destruct (String.eqb _ _) in E; injection E as <-.
        + by repeat case_match.
        + apply change_okView. by repeat case_match.
      - destruct (String.eqb _ "m.room.history_visibility"); injection E as <-.
        + unfold onHistoryVisibility, alloc. by repeat case_match.
        + unfold set_curInfo. by repeat case_match. }
    injection E2 as <-. by destruct (IsStateClientEv e).
  - intros [= <-]. cbn. unfold arranged. case_decide; [done|]. intros v. cbn. intros [->%elem_of_singleton|Hv]%elem_of_union.
    + by rewrite lookup_insert_eq.
    + apply insert_some. by apply Hok.
Qed.

Lemma run_okView os : forall rs rs', okView rs -> runOps os rs = Ok rs' -> okView rs'.
Proof using.
  induction os as [|o os IH]; intros rs rs' Hok; cbn [runOps]; [by intros [= <-]|]. intros (rs1 & E & E2)%bind_Ok.
  eapply IH; [|exact E2]. by eapply step_okView.
Qed.

(** C5: The sync server shows each user the right part of the history of a room whose
    visibility is always [shared] or [joined] and in which no member is invited again.
    For any such state events, with time stamps that do not fall, and with questions
    of users in between, nothing panics, and then: what a user sees was sent while the
    user was a member, or while the room was shared, or at the creation; what was sent
    during a membership of the user is seen; and a member also sees what was sent
    while the room was shared. *)
Theorem history_visibility (os : list Op) (u : string) (pos : Z) : okLog [] os ->
  exists rs, runOps os newRoomState = Ok rs /\
    let log := eventsOf os in
    let seen := (CheckEventVisibility u pos rs).1 in
    (seen = true -> atCreate log pos \/ joinedAt log u pos \/ sharedAt log pos) /\
    (joinedAt log u pos -> seen = true) /\
    (isJoined log u -> sharedAt log pos -> seen = true).
Proof using.
  intros Hok. destruct (run_inv os [] newRoomState new_inv Hok) as (rs & E & Hi). cbn [app] in Hi. exists rs. split; [done|].
  intros log. fold log in Hi. apply (arranged_inv log rs u) in Hi. unfold CheckEventVisibility. set (rs1 := arranged u rs) in *. cbn [fst].
  assert (Hv : is_Some (userMemberView rs1 !! u)).
  { assert (Hok1 : okView rs) by (eapply run_okView; [|exact E]; by intros v ?%elem_of_empty).
    unfold rs1, arranged. case_decide as Hu; [by apply Hok1|]. cbn. by rewrite lookup_insert_eq. }
  destruct Hv as [items Hv]. rewrite Hv.
  assert (Hsee : forall p, p ∈ items -> inRange pos (deref rs1 p) = true -> existsb (fun p => inRange pos (deref rs1 p)) items = true).
  { intros p Hp Hin. apply existsb_exists. exists p. split; [by apply list_elem_of_In|done]. }
  cbv zeta. split_and!.
  - intros (p & Hp%list_elem_of_In & Hin)%existsb_exists. destruct (vi_view _ _ Hi u items p Hv Hp) as [Hvis|Hown].
    + right. right. by apply (vo_sound _ _ _ (vi_vis _ _ Hi p Hvis)).
    + destruct (oo_sound _ _ _ _ _ Hown pos Hin) as [?|[?|[? _]]]; auto.
  - intros Hj. destruct (vi_complete _ _ Hi u pos Hj) as (its & p & Hv2 & Hp & _ & Hin). assert (its = items) as -> by congruence. by apply (Hsee p).
  - intros Hj Hs. destruct (vi_shared _ _ Hi pos Hs) as (hs & Hhs & Hin). destruct (vi_member _ _ Hi u Hj) as (its & p & Hv2 & Hl & _ & Hopen & _ & Hc).
    assert (its = items) as -> by congruence. destruct (Hc hs Hhs) as [Ho (c & Hcin & Hcc)]. apply inRange_spec in Hin as [Hlo Hhi].
    destruct (decide (End_ (deref rs1 hs) = -1)) as [Hx|Hx].
    + apply (Hsee p); [by apply elem_last|]. apply inRange_spec. specialize (Ho Hx). split; [lia|by left].
    + apply (Hsee c Hcin). apply covers_spec in Hcc. apply inRange_spec. lia.
Qed.

End Spec.

(** ** Rooms with events *)

#[local] Instance plainJson : ContentJson := {
  createOf c := mkCreate c None None None None;
  membershipOf c := c;
  joinRuleOf c := c;
  historyVisibilityOf c := c;
  visibilityOf c := c;
  nameOf c := c;
  topicOf c := c;
  descOf c := c;
  aliasOf c := c;
  PowerLevels := string;
  powerOf c := c;
}.

Definition stateEv (type key content : string) (t : Z) : ClientEvent := mkClientEvent content "$e" "!r:a" "@c:a" (Some key) type t.
Definition created (t : Z) : ClientEvent := stateEv "m.room.create" "" "@c:a" t.
Definition member (u m : string) (t : Z) : ClientEvent := stateEv "m.room.member" u m t.
Definition visibleEv (v : string) (t : Z) : ClientEvent := stateEv "m.room.history_visibility" "" v t.

(** The events in a row, each with whether it was backfilled. *)
Fixpoint replay (evs : list (ClientEvent * bool)) (rs : RoomState) : res RoomState :=
  match evs with
  | [] => Ok rs
  | (e, backfill) :: rest => rs ← onEvent e (ts e) backfill rs; replay rest rs
  end.

Definition sees (evs : list (ClientEvent * bool)) (u : string) (pos : Z) : res bool :=
  rs ← replay evs newRoomState; Ok (CheckEventVisibility u pos rs).1.

Lemma history_visibility_witness :
  let os := [OpEvent (created 10) 1; OpEvent (member "@u:a" "join" 20) 2; OpEvent (visibleEv "shared" 30) 3; OpAsk "@v:a" 25;
             OpEvent (visibleEv "joined" 40) 4; OpEvent (member "@u:a" "leave" 50) 5; OpEvent (member "@v:a" "join" 60) 6] in
  exists rs, runOps os newRoomState = Ok rs /\
    let log := eventsOf os in
    let seen := (CheckEventVisibility "@v:a" 35 rs).1 in
    (seen = true -> atCreate log 35 \/ joinedAt log "@v:a" 35 \/ sharedAt log 35) /\
    (joinedAt log "@v:a" 35 -> seen = true) /\
    (isJoined log "@v:a" -> sharedAt log 35 -> seen = true).
Proof.
  intros os. apply (history_visibility os "@v:a" 35).
  assert (Hle : forall e l, Forall (fun x => ts x <= ts e) l -> forall x, x ∈ l -> ts x <= ts e) by (intros e l Hl; by apply Forall_forall).
  cbn. split_and!; try done; (split_and!; [cbn; lia|apply Hle; repeat constructor; cbn; lia| |]); intros Ht; try discriminate Ht.
  - exists "@u:a". by left.
  - by left.
  - by right.
  - exists "@u:a". right. left. by left.
  - exists "@v:a". by left.
Defined.

(** A change to [invited] does not end the shared range, and the next change to
    [joined] ends it late: a user who joins afterwards sees what was sent while the
    room was not shared. *)
Theorem invited_reopens_history :
  let room := [(created 10, false); (visibleEv "shared" 20, false); (visibleEv "joined" 30, false)] in
  let later := [(visibleEv "invited" 40, false); (visibleEv "joined" 50, false)] in
  let join := [(member "@v:a" "join" 60, false)] in
  sees (room ++ join) "@v:a" 35 = Ok false /\ sees (room ++ later ++ join) "@v:a" 35 = Ok true.
Proof. by vm_compute. Qed.

(** A member who leaves can go on reading: after a backfilled visibility event the
    list of the member ends with a range of the room, and leaving closes that range
    instead of the member's own. *)
Theorem left_member_keeps_reading :
  let room := [(created 10, false); (member "@u:a" "join" 20, false); (visibleEv "joined" 30, false)] in
  let left := [(member "@u:a" "leave" 40, false)] in
  sees (room ++ left) "@u:a" 100 = Ok false /\
  (rs ← replay (room ++ [(visibleEv "shared" 15, true)]) newRoomState;
   rs1 ← replay left (CheckEventVisibility "@u:a" 35 rs).2;
   Ok (CheckEventVisibility "@u:a" 100 rs1).1) = Ok true.
Proof. by vm_compute. Qed.

(** A ban after the user left is not noted: the user is in none of the maps. *)
Theorem ban_after_leave_forgotten :
  let evs := [(created 10, false); (member "@u:a" "join" 20, false); (member "@u:a" "leave" 30, false); (member "@u:a" "ban" 40, false)] in
  (rs ← replay evs newRoomState; Ok (join rs !! "@u:a", leave rs !! "@u:a", invite rs !! "@u:a")) = Ok (None, None, None).
Proof. by vm_compute. Qed.

End SyncRoomStateFacts.
