(* ===== verification/SyncStates.v ===== *)
(** * The state timelines of rooms in the sync server

    [src/model/repos/roomStateTimelineRepo.go]: for every room the current state
    events ([repo]) and all of them ([streamRepo]), loaded on first use, each with its
    own gate.  The events of the stream are replayed into [SyncRoomState].

    A timeline holds pointers to its items, so marking an item as deleted replaces it
    in its slot.  A [StreamEvent] of these timelines carries the mark [IsDeleted].
    The database is the class [StateDb].

    - [room_members]: the members of a room, as [Receipts] asks for them.
    - [GetStateEvents]: the theorem on its answers from the database is
      [old_states_all_last] of [SyncSessions]. *)

From Stdlib Require Import String ZArith List Lia.
From stdpp Require Import base tactics list gmap strings.
From S2P Require Import Prelude Timeline TimelineRepo Loader SyncHistory SyncRoomState Ids Push Receipts.

#[local] Open Scope string_scope.
#[local] Open Scope Z_scope.

Module SyncStates.
Import Timeline TimelineRepo Loader SyncHistory SyncRoomState.

Record StateStream := mkStateStream { stream : StreamEvent; IsDeleted : bool }.

#[export] Instance StateStream_feed : Feed StateStream := fun s => seOffset (stream s).

Class StateDb (D : Type) := {
  GetStateEventsForRoom : string -> ST D (list (ClientEvent * Z));
  GetStateEventsStreamForRoom : string -> ST D (list (ClientEvent * Z));
  GetStateEventsStreamForRoomBeforePos : string -> Z -> ST D (list (ClientEvent * Z));
}.

Section States.
  Context `{ContentJson} {D : Type} `{StateDb D}.

Record RoomStates := mkStates {
  stateRepo : TimeLineRepo StateStream;
  streamRepo : TimeLineRepo StateStream;
  rsRepo : gmap string RoomState;
  stateGate : Gate;
  streamGate : Gate;
  stPersist : D;
}.

Definition NewRoomStates (bukSize maxEntries : nat) (d : D) : RoomStates :=
  mkStates (NewTimeLineRepo bukSize 128 false maxEntries) (NewTimeLineRepo bukSize 128 false maxEntries) ∅
    (mkGate ∅ ∅ [] []) (mkGate ∅ ∅ [] []) d.

Definition set_stateRepo (s : RoomStates) (r : TimeLineRepo StateStream) : RoomStates :=
  mkStates r (streamRepo s) (rsRepo s) (stateGate s) (streamGate s) (stPersist s).
Definition set_streamRepo (s : RoomStates) (r : TimeLineRepo StateStream) : RoomStates :=
  mkStates (stateRepo s) r (rsRepo s) (stateGate s) (streamGate s) (stPersist s).
Definition set_rsRepo (s : RoomStates) (r : gmap string RoomState) : RoomStates :=
  mkStates (stateRepo s) (streamRepo s) r (stateGate s) (streamGate s) (stPersist s).
Definition set_stateGate (s : RoomStates) (g : Gate) : RoomStates :=
  mkStates (stateRepo s) (streamRepo s) (rsRepo s) g (streamGate s) (stPersist s).
Definition set_streamGate (s : RoomStates) (g : Gate) : RoomStates :=
  mkStates (stateRepo s) (streamRepo s) (rsRepo s) (stateGate s) g (stPersist s).
Definition set_stPersist (s : RoomStates) (d : D) : RoomStates :=
  mkStates (stateRepo s) (streamRepo s) (rsRepo s) (stateGate s) (streamGate s) d.

Definition onStateDb {A} (m : ST D A) : ST RoomStates A := fun s =>
  let '(r, d) := m (stPersist s) in (r, set_stPersist s d).

(** A pure step that can panic. *)
Definition onRes (f : RoomStates -> res RoomStates) : ST RoomStates unit := fun s =>
  match f s with
  | Ok s1 => (Ok (), s1)
  | Err e => (Err e, s)
  | Panic => (Panic, s)
  | Diverge => (Diverge, s)
  end.

(** ** Marks *)

(** The loop over [GetAllFeeds] that marks the items [test] chooses. *)
Fixpoint markSlots (test : StateStream -> res bool) (slots : list nat) (tl : TimeLines StateStream) : res (TimeLines StateStream) :=
  match slots with
  | [] => Ok tl
  | i :: rest =>
      feed ← getFeed tl i;
      match feed with
      | None => markSlots test rest tl
      | Some s =>
          b ← (if IsDeleted s then Ok false else test s);
          tl ← (if (b : bool) then putFeed tl i (Some (mkStateStream (stream s) true)) else Ok tl);
          markSlots test rest tl
      end
  end.

Definition markAll (test : StateStream -> res bool) (tl : TimeLines StateStream) : res (TimeLines StateStream) :=
  let '(start, end_) := GetRange tl in markSlots test (seq start (end_ - start)) tl.

(** The timeline of a room is changed in place. *)
Definition markRoom (test : StateStream -> res bool) (roomID : string) (r : TimeLineRepo StateStream) : res (TimeLineRepo StateStream) :=
  slot ← getSlot r roomID;
  m ← bucket r slot;
  match m !! roomID with
  | None => Ok r
  | Some tl => tl ← markAll test tl; Ok (set_bucket r slot (<[roomID := tl]> m))
  end.

(** An older event of the same type and, for a member event, of the same user. *)
Definition replacedBy (ev : ClientEvent) (s : StateStream) : res bool :=
  let old := seEv (stream s) in
  if String.eqb (ceType old) (ceType ev) && negb (String.eqb (ceEventID old) (ceEventID ev)) then
    if String.eqb (ceType ev) "m.room.member" then
      k1 ← stateKeyOf old; k2 ← stateKeyOf ev; Ok (String.eqb k1 k2)
    else Ok true
  else Ok false.

(** ** Adding *)

Definition addState (ev : ClientEvent) (offset : Z) (s : RoomStates) : res RoomStates :=
  if IsStateClientEv ev then
    '(r, _) ← add (stateRepo s) (ceRoomID ev) (mkStateStream (mkStreamEvent ev offset) false);
    Ok (set_stateRepo s r)
  else Ok s.

Definition addStream (ev : ClientEvent) (offset : Z) (s : RoomStates) : res RoomStates :=
  if IsStateClientEv ev then
    rs ← onRoomEvent ev offset false (rsRepo s);
    '(r, _) ← add (streamRepo s) (ceRoomID ev) (mkStateStream (mkStreamEvent ev offset) false);
    Ok (set_streamRepo (set_rsRepo s rs) r)
  else Ok s.

Fixpoint addEach (f : ClientEvent -> Z -> RoomStates -> res RoomStates) (evs : list (ClientEvent * Z)) : ST RoomStates unit :=
  match evs with
  | [] => mret ()
  | (ev, offset) :: rest => _ ← onRes (f ev offset); addEach f rest
  end.

(** ** Loading *)

Definition loadStates (roomID : string) : ST RoomStates unit :=
  evs ← onStateDb (GetStateEventsForRoom roomID);
  addEach addState evs.

Definition loadStateStreams (roomID : string) : ST RoomStates unit :=
  evs ← onStateDb (GetStateEventsStreamForRoom roomID);
  addEach addStream evs.

Definition stateTimeLine (roomID : string) : ST RoomStates (option (TimeLines StateStream)) := fun s =>
  match getTimeLine (stateRepo s) roomID with
  | Ok (tl, r) => (Ok tl, set_stateRepo s r)
  | Err e => (Err e, s)
  | Panic => (Panic, s)
  | Diverge => (Diverge, s)
  end.

Definition streamTimeLine (roomID : string) : ST RoomStates (option (TimeLines StateStream)) := fun s =>
  match getTimeLine (streamRepo s) roomID with
  | Ok (tl, r) => (Ok tl, set_streamRepo s r)
  | Err e => (Err e, s)
  | Panic => (Panic, s)
  | Diverge => (Diverge, s)
  end.

(** A room that was loaded but dropped since is loaded again; for the stream the room
    state is forgotten first. *)
Definition state_loads : Loads RoomStates := {|
  gate := stateGate;
  set_gate := set_stateGate;
  body := loadStates;
  stale roomID := tl ← stateTimeLine roomID; mret (match tl with Some _ => false | None => true end);
|}.

Definition stream_loads : Loads RoomStates := {|
  gate := streamGate;
  set_gate := set_streamGate;
  body := loadStateStreams;
  stale roomID :=
    tl ← streamTimeLine roomID;
    match tl with
    | Some _ => mret false
    | None => _ ← onRes (fun s => Ok (set_rsRepo s (removeRoomState roomID (rsRepo s)))); mret true
    end;
|}.

Definition LoadStates (roomID : string) (sync : bool) : ST RoomStates unit := @LoadHistory RoomStates state_loads roomID sync.
Definition LoadStreamStates (roomID : string) (sync : bool) : ST RoomStates unit := @LoadHistory RoomStates stream_loads roomID sync.

Definition GetStates (roomID : string) : ST RoomStates (option (TimeLines StateStream)) :=
  _ ← LoadStates roomID true; stateTimeLine roomID.

Definition GetStateStreams (roomID : string) : ST RoomStates (option (TimeLines StateStream)) :=
  _ ← LoadStreamStates roomID true; streamTimeLine roomID.

(** ** Operations *)

Definition DelEv (roomID : string) (removedEventIDs : list string) : ST RoomStates unit :=
  states ← GetStates roomID;
  match states with
  | None => mret ()
  | Some _ => onRes (fun s =>
      r ← markRoom (fun st => Ok (existsb (String.eqb (ceEventID (seEv (stream st)))) removedEventIDs)) roomID (stateRepo s);
      Ok (set_stateRepo s r))
  end.

(** [AddEv]; with [load] the older events of the same kind are marked. *)
Definition AddStateEv (ev : ClientEvent) (offset : Z) (load : bool) : ST RoomStates unit :=
  _ ← (if load then
         if negb (String.eqb (ceType ev) "m.room.create") then LoadStates (ceRoomID ev) true
         else onRes (fun s => Ok (set_stateGate s (set_ready (stateGate s) ({[ceRoomID ev]} ∪ ready (stateGate s)))))
       else mret ());
  _ ← onRes (addState ev offset);
  if IsStateClientEv ev && load then
    states ← stateTimeLine (ceRoomID ev);
    match states with
    | None => mret ()
    | Some _ => onRes (fun s => r ← markRoom (replacedBy ev) (ceRoomID ev) (stateRepo s); Ok (set_stateRepo s r))
    end
  else mret ().

Definition AddStreamEv (ev : ClientEvent) (offset : Z) (load : bool) : ST RoomStates unit :=
  _ ← (if load && negb (String.eqb (ceType ev) "m.room.create") then LoadStreamStates (ceRoomID ev) true else mret ());
  onRes (addStream ev offset).

Definition AddBackfillEv (ev : ClientEvent) (offset : Z) (load : bool) : ST RoomStates unit :=
  _ ← (if load && negb (String.eqb (ceType ev) "m.room.create") then LoadStreamStates (ceRoomID ev) true else mret ());
  onRes (fun s => if IsStateClientEv ev then rs ← onRoomEvent ev offset true (rsRepo s); Ok (set_rsRepo s rs) else Ok s).

Definition RemoveStateStreams (roomID : string) : ST RoomStates unit :=
  onRes (fun s =>
    r ← remove (streamRepo s) roomID;
    Ok (set_streamGate (set_rsRepo (set_streamRepo s r) (removeRoomState roomID (rsRepo s)))
          (set_ready (streamGate s) (ready (streamGate s) ∖ {[roomID]})))).

(** [GetStateEvents]; the loop over the rows of the database stores the address of
    its variable, so that every item gets the event of the last row. *)
Definition GetStateEvents (roomID : string) (endPos : Z) : ST RoomStates (list StreamEvent) :=
  streams ← GetStateStreams roomID;
  match streams with
  | None => mret []
  | Some tl =>
      r ← liftR (GetFeeds tl (-1) endPos);
      let found := omap (fun f => stream <$> f) r.1.1.1.1 in
      if (length found =? 0)%nat then
        ((fun s =>
          match onStateDb (GetStateEventsStreamForRoomBeforePos roomID endPos) s with
          | (Ok evs, s1) =>
              (Ok (match last evs with Some lastRow => map (fun row => mkStreamEvent lastRow.1 row.2) evs | None => [] end), s1)
          | (Err _, s1) => (Ok [], s1)
          | (Panic, s1) => (Panic, s1)
          | (Diverge, s1) => (Diverge, s1)
          end) : ST RoomStates (list StreamEvent))
      else mret found
  end.

(** ** The members of a room *)

Definition joinedOf `{GoRange} (s : RoomStates) (roomID : string) : option (list string) :=
  (fun rs => map fst (range (join rs))) <$> rsRepo s !! roomID.

Definition loadedStreams (roomID : string) (s : RoomStates) : RoomStates := (LoadStreamStates roomID true s).2.

#[export] Instance room_members `{GoRange} : Receipts.RoomMembers RoomStates := {
  Receipts.joined := joinedOf;
  Receipts.LoadStreamStates := loadedStreams;
}.

End States.
Arguments RoomStates {_} D.

End SyncStates.
