(* ===== verification/SyncBuild.v ===== *)
(** * Answering a sync

    [src/syncserver/consumers/syncServer.go]: the reply to one user from the room
    histories ([SyncHistory]), the room states ([SyncStates]), the receipts
    ([Receipts], [ReceiptConsumer]) and the unread counts ([Push]).

    The loops over the items of a timeline carry their local variables in a record and
    tell whether they go on.  [visibilityTime] and [nowTs] are the setting and the
    clock.  The polling that loads the rooms beforehand is in [SyncRequests]; the
    functions here load what they need as well.  The hints that [extra.ExpandSyncData]
    adds to the reply and its compression are left out.

    The theorems are in [SyncBuildFacts]. *)

From Stdlib Require Import String ZArith List Lia.
From stdpp Require Import base tactics list gmap strings pretty.
From S2P Require Import Prelude Snowflake Timeline TimelineRepo Loader SyncHistory SyncRoomState SyncStates Ids Push Receipts ReceiptConsumer.

#[local] Open Scope string_scope.
#[local] Open Scope Z_scope.

Module SyncBuild.
Import Timeline TimelineRepo Loader SyncHistory SyncRoomState SyncStates.

Definition maxInt64 : Z := 2 ^ 63 - 1.

Definition BuildPreBatch (streamPos timestamp : Z) : string := "p:" ++ pretty streamPos ++ "_t:" ++ pretty timestamp.

Record TimelineResp := mkTimeline { Events : list ClientEvent; Limited : bool; PrevBatch : string }.

Record JoinResponse := mkJoin {
  jrTimeline : TimelineResp;
  jrState : list ClientEvent;
  jrEphemeral : list string;
  jrUnread : option (Z * Z);
}.

Definition NewJoinResponse : JoinResponse := mkJoin (mkTimeline [] false "") [] [] None.

(** The answer for a room that is not known. *)
Definition emptyTimeline : TimelineResp := mkTimeline [] true (BuildPreBatch maxInt64 maxInt64).

Record SyncRoom := mkSyncRoom { srmRoomID : string; srmStart : Z; srmEnd : Z }.

Record SyncServerRequest := mkRequest {
  InviteRooms : list SyncRoom;
  JoinRooms : list SyncRoom;
  LeaveRooms : list SyncRoom;
  rqJoinedRooms : list string;
  rqUserID : string;
  rqReceiptOffset : Z;
  rqMaxReceiptOffset : Z;
  IsHuman : bool;
  Limit : Z;
  rqIsFullSync : bool;
}.

Record SyncServerResponse := mkResponse {
  Join : gmap string JoinResponse;
  Invite : gmap string (list ClientEvent);
  Leave : gmap string TimelineResp;
  MaxRoomOffset : gmap string Z;
  AllLoaded : bool;
  NewUsers : list string;
  rpMaxReceiptOffset : Z;
}.

Section Build.
  Context `{ContentJson} `{GoRange} {D : Type} `{HistoryDb D} `{StateDb D} `{ReceiptConsumer.ReceiptJson}.
  Context (visibilityTime nowTs : Z).

(** The repositories of the server; the room states are the members of [receipts]. *)
Record SyncServer := mkServer {
  roomHistory : RoomHistory D;
  receipts : Receipts.Repos (RoomStates D);
  readCounts : Push.ReadCountRepo;
}.

Definition onRoomHistory {A} (m : ST (RoomHistory D) A) : ST SyncServer A := fun s =>
  let '(r, h) := m (roomHistory s) in (r, mkServer h (receipts s) (readCounts s)).
Definition onReceipts {A} (m : ST (Receipts.Repos (RoomStates D)) A) : ST SyncServer A := fun s =>
  let '(r, c) := m (receipts s) in (r, mkServer (roomHistory s) c (readCounts s)).
Definition onStates {A} (m : ST (RoomStates D) A) : ST SyncServer A :=
  onReceipts (fun c => let '(r, t) := m (Receipts.members c) in (r, Receipts.set_members c t)).
Definition getServer : ST SyncServer SyncServer := fun s => (Ok s, s).

Definition roomStateOf (s : SyncServer) (roomID : string) : option RoomState := GetRoomState (rsRepo (Receipts.members (receipts s))) roomID.

(** The room state is changed through its pointer. *)
Definition putRoomState (roomID : string) (rs : RoomState) : ST SyncServer unit :=
  onStates (fun t => (Ok (), set_rsRepo t (<[roomID := rs]> (rsRepo t)))).

(** ** The events of a room *)

(** The local variables of the loop over the history, newest event first. *)
Record Scan := mkScan {
  firstTimeLine : Z;
  firstTs : Z;
  limit_ : Z;
  maxPos : Z;
  msgEvent : list ClientEvent;
  evRecords : gset string;
  limited : bool;
  scanRs : RoomState;
}.

(** The first item seen, or an older one. *)
Definition noteFirst (ev : ClientEvent) (off : Z) (sc : Scan) : Scan :=
  if (firstTimeLine sc =? -1) || (off <? firstTimeLine sc)
  then mkScan off (ceOriginServerTS ev) (limit_ sc) (maxPos sc) (msgEvent sc) (evRecords sc) (limited sc) (scanRs sc)
  else sc.

Definition noteMax (off : Z) (sc : Scan) : Scan :=
  if maxPos sc <? off then mkScan (firstTimeLine sc) (firstTs sc) (limit_ sc) off (msgEvent sc) (evRecords sc) (limited sc) (scanRs sc) else sc.

(** State events are shown, others when the user may read them. *)
Definition readable (user : string) (ev : ClientEvent) (sc : Scan) : bool * Scan :=
  if IsStateClientEv ev then (true, sc)
  else
    let '(b, rs) := CheckEventVisibility user (ceOriginServerTS ev) (scanRs sc) in
    (b, mkScan (firstTimeLine sc) (firstTs sc) (limit_ sc) (maxPos sc) (msgEvent sc) (evRecords sc) (limited sc) rs).

(** The setting hides messages that are too old. *)
Definition tooOld (ev : ClientEvent) : bool :=
  (0 <? visibilityTime) && (Z.quot (ceOriginServerTS ev) 1000 + visibilityTime <? nowTs) && negb (IsStateClientEv ev).

Definition push (ev : ClientEvent) (sc : Scan) : Scan :=
  mkScan (firstTimeLine sc) (firstTs sc) (limit_ sc - 1) (maxPos sc) (msgEvent sc ++ [ev])%list ({[ceEventID ev]} ∪ evRecords sc) (limited sc) (scanRs sc).

Definition set_limited (b : bool) (sc : Scan) : Scan :=
  mkScan (firstTimeLine sc) (firstTs sc) (limit_ sc) (maxPos sc) (msgEvent sc) (evRecords sc) b (scanRs sc).

(** The end of the room, of the stream, or of the page. *)
Definition stopHere (minStream : Z) (ev : ClientEvent) (off : Z) (sc : Scan) : bool :=
  (limit_ sc =? 0) || String.eqb (ceType ev) "m.room.create" || (off <=? minStream).

(** An item up to the end of the asked interval; an event that was seen is not
    repeated. *)
Definition joinItem (user : string) (reqEnd : Z) (st : StreamEvent) (sc : Scan) : Scan :=
  let ev := seEv st in
  if (seOffset st <=? reqEnd) || (reqEnd =? -1) then
    let sc := noteMax (seOffset st) (noteFirst ev (seOffset st) sc) in
    let '(ok, sc) := readable user ev sc in
    if (ok : bool) && negb (tooOld ev) then if decide (ceEventID ev ∈ evRecords sc) then sc else push ev sc else sc
  else sc.

(** One turn of the loop of [buildRoomJoinResp]. *)
Definition joinStep (user : string) (reqStart reqEnd minStream : Z) (st : StreamEvent) (sc : Scan) : Scan * bool :=
  if seOffset st <=? reqStart then (sc, false)
  else
    let sc := joinItem user reqEnd st sc in
    if stopHere minStream (seEv st) (seOffset st) sc then (set_limited (negb (String.eqb (ceType (seEv st)) "m.room.create")) sc, false)
    else (sc, true).

Fixpoint joinLoop (user : string) (reqStart reqEnd minStream : Z) (feeds : list (option StreamEvent)) (sc : Scan) : Scan :=
  match feeds with
  | [] => sc
  | None :: rest => joinLoop user reqStart reqEnd minStream rest sc
  | Some st :: rest =>
      let '(sc, go) := joinStep user reqStart reqEnd minStream st sc in
      if go then joinLoop user reqStart reqEnd minStream rest sc else sc
  end.

(** The first event after [reqStart] with which the user is not joined: its place
    counted from the oldest event, and its offset.  The loop runs over the items from
    the oldest. *)
Fixpoint findLeave (user : string) (reqStart : Z) (j : nat) (feeds : list (option StreamEvent)) : res (option (nat * Z)) :=
  match feeds with
  | [] => Ok None
  | None :: _ => Panic
  | Some st :: rest =>
      if seOffset st <=? reqStart then findLeave user reqStart (S j) rest
      else if String.eqb (ceType (seEv st)) "m.room.member" then
        key ← stateKeyOf (seEv st);
        if String.eqb key user && negb (String.eqb (membershipOf (ceContent (seEv st))) "join") then Ok (Some (j, seOffset st))
        else findLeave user reqStart (S j) rest
      else findLeave user reqStart (S j) rest
  end.

(** ** The state of a room *)

Definition stateKey_ (ev : ClientEvent) : res string :=
  if String.eqb (ceType ev) "m.room.member" then k ← stateKeyOf ev; Ok (ceType ev ++ k) else Ok (ceType ev).

Definition pushStateIntoMap (states : gmap string (nat * ClientEvent)) (ev : ClientEvent) (prio : nat) : res (gmap string (nat * ClientEvent)) :=
  key ← stateKey_ ev; Ok (<[key := (prio, ev)]> states).

Definition prio_leb (a b : nat * ClientEvent) : bool := (a.1 <=? b.1)%nat.

Definition aggregateStates (states : gmap string (nat * ClientEvent)) : list ClientEvent :=
  map snd (gosort prio_leb (map snd (range states))).

(** The loop over the states; it ends at the first one that is in the timeline. *)
Fixpoint stateLoop (reqStart realEnd first : Z) (needState : bool) (i : nat) (feeds : list (option StateStream))
    (acc : gmap string (nat * ClientEvent) * Z) : res (gmap string (nat * ClientEvent) * Z) :=
  match feeds with
  | [] => Ok acc
  | None :: rest => stateLoop reqStart realEnd first needState (S i) rest acc
  | Some st :: rest =>
      let off := seOffset (stream st) in
      if (off <=? realEnd) || (realEnd =? -1) then
        if (first <=? off) && (0 <? first) then Ok acc
        else
          let max := Z.max acc.2 off in
          m ← (if needState || (reqStart <? off) then pushStateIntoMap acc.1 (seEv (stream st)) i else Ok acc.1);
          stateLoop reqStart realEnd first needState (S i) rest (m, max)
      else stateLoop reqStart realEnd first needState (S i) rest acc
  end.

Definition maxMember (rs : RoomState) : Z := fold_left (fun m kv => Z.max m kv.2) (range (join rs)) 0.

(** [PrevBatch]: just before the first event, or the end of time. *)
Definition prevBatch (first ts : Z) : string :=
  if first =? -1 then BuildPreBatch maxInt64 maxInt64 else BuildPreBatch (Z.max 0 (first - 1)) ts.

Definition loadRoom (user roomID : string) : ST SyncServer Z :=
  _ ← onStates (LoadStates roomID true);
  _ ← onStates (LoadStreamStates roomID true);
  _ ← onRoomHistory (LoadRoomHistory roomID true);
  _ ← onReceipts (Receipts.LoadStreamHistory roomID true);
  _ ← onReceipts (Receipts.LoadUserHistory user roomID true);
  onRoomHistory (GetRoomMinStream roomID).

Definition buildRoomJoinResp (req : SyncServerRequest) (roomID : string) (reqStart reqEnd : Z) : ST SyncServer (JoinResponse * Z * list string) :=
  let unknown := mkJoin emptyTimeline [] [] None in
  minStream ← loadRoom (rqUserID req) roomID;
  s ← getServer;
  match roomStateOf s roomID with
  | None => mret (unknown, -1, [])
  | Some rs =>
      history ← onRoomHistory (GetHistory roomID);
      match history, GetState rs "m.room.member" (rqUserID req) with
      | None, _ | _, None => mret (unknown, -1, [])
      | Some tl, Some stateEvt =>
          let addNewUser := reqStart <? maxMember rs in
          r ← liftR (GetAllFeedsReverse tl);
          let feeds := r.1.1.1.1 in
          let needState := (reqStart <? seOffset stateEvt) || rqIsFullSync req in
          let reqStart := if needState then -1 else reqStart in
          left ← liftR (if 0 <? reqStart then findLeave (rqUserID req) reqStart 0 (reverse feeds) else Ok None);
          let index := match left with Some (j, _) => S j | None => 0%nat end in
          let latestEvOffset := match left with Some (_, off) => off | None => 0 end in
          let sc := joinLoop (rqUserID req) reqStart reqEnd minStream (drop index feeds)
                      (mkScan (-1) (-1) (Limit req) (-1) [] ∅ needState rs) in
          _ ← putRoomState roomID (scanRs sc);
          states ← onStates (GetStates roomID);
          match states with
          | None => mret (unknown, maxPos sc, [])
          | Some stl =>
              r ← liftR (GetAllFeeds stl);
              let realEnd := if negb (reqEnd =? -1) && negb (latestEvOffset =? 0) && (latestEvOffset - 1 <? reqEnd) then latestEvOffset - 1 else reqEnd in
              acc ← liftR (stateLoop reqStart realEnd (firstTimeLine sc) needState 0 r.1.1.1.1 (∅, maxPos sc));
              let users := if (addNewUser || needState) && IsHuman req then map fst (range (join (scanRs sc))) else [] in
              let full := (reqStart <? firstTimeLine sc) && (0 <? reqStart) && (Limit req <=? Z.of_nat (length (msgEvent sc))) in
              let tl := if firstTimeLine sc =? -1 then mkTimeline [] true (prevBatch (-1) 0)
                        else mkTimeline (reverse (msgEvent sc)) (limited sc || full) (prevBatch (firstTimeLine sc) (firstTs sc)) in
              mret (mkJoin tl (aggregateStates acc.1) [] None, acc.2, users)
          end
      end
  end.

(** ** Invites and rooms that were left *)

(** The last invite of the user, searched from the end; without one the last item.  A
    nil item makes the search panic. *)
Fixpoint lastInvite (user : string) (i : nat) (rev : list (option StateStream)) : res (option nat) :=
  match rev with
  | [] => Ok None
  | None :: _ => Panic
  | Some st :: rest =>
      let ev := seEv (stream st) in
      if String.eqb (ceType ev) "m.room.member" then
        key ← stateKeyOf ev;
        if String.eqb key user && String.eqb (membershipOf (ceContent ev)) "invite" then Ok (Some i)
        else lastInvite user (pred i) rest
      else lastInvite user (pred i) rest
  end.

(** The states that are not deleted, and the largest offset. *)
Definition inviteEvents (feeds : list (option StateStream)) : list ClientEvent * Z :=
  fold_left (fun acc f =>
    match f with
    | Some st => if IsDeleted st then acc else ((acc.1 ++ [seEv (stream st)])%list, Z.max acc.2 (seOffset (stream st)))
    | None => acc
    end) feeds ([], -1).

Definition buildRoomInviteResp (roomID user : string) : ST SyncServer (list ClientEvent * Z) :=
  _ ← onStates (LoadStates roomID true);
  states ← onStates (GetStates roomID);
  match states with
  | None => mret ([], -1)
  | Some tl =>
      r ← liftR (GetAllFeeds tl);
      let feeds := r.1.1.1.1 in
      idx ← liftR (lastInvite user (length feeds - 1) (reverse feeds));
      let upTo := match idx with Some i => S i | None => length feeds end in
      mret (inviteEvents (take upTo feeds))
  end.

(** One turn of the loop of [buildRoomLeaveResp]; [leaveOff] is the offset of the
    member event of the user. *)
Definition leaveStep (user : string) (reqStart leaveOff minStream : Z) (st : StreamEvent) (sc : Scan) : Scan * bool :=
  let off := seOffset st in
  let ev := seEv st in
  if off <=? reqStart then (sc, false)
  else if off <? leaveOff then
    let sc := noteFirst ev off sc in
    let '(ok, sc) := readable user ev sc in
    let sc := if (ok : bool) && negb (tooOld ev) then push ev sc else sc in
    if stopHere minStream ev off sc then (set_limited (negb (String.eqb (ceType ev) "m.room.create")) sc, false)
    else (sc, true)
  else (sc, true).

Fixpoint leaveLoop (user : string) (reqStart leaveOff minStream : Z) (feeds : list (option StreamEvent)) (sc : Scan) : Scan :=
  match feeds with
  | [] => sc
  | None :: rest => leaveLoop user reqStart leaveOff minStream rest sc
  | Some st :: rest =>
      let '(sc, go) := leaveStep user reqStart leaveOff minStream st sc in
      if go then leaveLoop user reqStart leaveOff minStream rest sc else sc
  end.

Definition buildRoomLeaveResp (req : SyncServerRequest) (roomID user : string) (reqStart : Z) : ST SyncServer (TimelineResp * Z) :=
  _ ← onStates (LoadStates roomID true);
  _ ← onStates (LoadStreamStates roomID true);
  _ ← onRoomHistory (LoadRoomHistory roomID true);
  s ← getServer;
  match roomStateOf s roomID with
  | None => mret (emptyTimeline, -1)
  | Some rs =>
      history ← onRoomHistory (GetHistory roomID);
      match history, GetState rs "m.room.member" (rqUserID req) with
      | None, _ | _, None => mret (emptyTimeline, -1)
      | Some tl, Some stateEvt =>
          r ← liftR (GetAllFeedsReverse tl);
          minStream ← onRoomHistory (GetRoomMinStream roomID);
          let sc := leaveLoop (rqUserID req) reqStart (seOffset stateEvt) minStream r.1.1.1.1 (mkScan (-1) (-1) (Limit req) (-1) [] ∅ false rs) in
          _ ← putRoomState roomID (scanRs sc);
          let full := (reqStart <? firstTimeLine sc) && (0 <? reqStart) && (Limit req <=? Z.of_nat (length (msgEvent sc))) in
          let lim := if firstTimeLine sc =? -1 then true else limited sc || full in
          mret (mkTimeline (reverse (msgEvent sc) ++ [seEv stateEvt])%list lim (prevBatch (firstTimeLine sc) (firstTs sc)), seOffset stateEvt)
      end
  end.

(** ** The reply *)

Definition addJoin (roomID : string) (j : JoinResponse) (pos : Z) (r : SyncServerResponse) : SyncServerResponse :=
  mkResponse (<[roomID := j]> (Join r)) (Invite r) (Leave r) (<[roomID := pos]> (MaxRoomOffset r)) (AllLoaded r) (NewUsers r) (rpMaxReceiptOffset r).
Definition addInvite (roomID : string) (i : list ClientEvent) (pos : Z) (r : SyncServerResponse) : SyncServerResponse :=
  mkResponse (Join r) (<[roomID := i]> (Invite r)) (Leave r) (<[roomID := pos]> (MaxRoomOffset r)) (AllLoaded r) (NewUsers r) (rpMaxReceiptOffset r).
Definition addLeave (roomID : string) (l : TimelineResp) (pos : Z) (r : SyncServerResponse) : SyncServerResponse :=
  mkResponse (Join r) (Invite r) (<[roomID := l]> (Leave r)) (<[roomID := pos]> (MaxRoomOffset r)) (AllLoaded r) (NewUsers r) (rpMaxReceiptOffset r).
Definition notLoaded (missing : bool) (r : SyncServerResponse) : SyncServerResponse :=
  mkResponse (Join r) (Invite r) (Leave r) (MaxRoomOffset r) (if missing then false else AllLoaded r) (NewUsers r) (rpMaxReceiptOffset r).
Definition set_join (j : gmap string JoinResponse) (r : SyncServerResponse) : SyncServerResponse :=
  mkResponse j (Invite r) (Leave r) (MaxRoomOffset r) (AllLoaded r) (NewUsers r) (rpMaxReceiptOffset r).
Definition set_receiptPos (pos : Z) (r : SyncServerResponse) : SyncServerResponse :=
  mkResponse (Join r) (Invite r) (Leave r) (MaxRoomOffset r) (AllLoaded r) (NewUsers r) pos.
Definition set_newUsers (u : list string) (r : SyncServerResponse) : SyncServerResponse :=
  mkResponse (Join r) (Invite r) (Leave r) (MaxRoomOffset r) (AllLoaded r) u (rpMaxReceiptOffset r).

Definition emptyResponse : SyncServerResponse := mkResponse ∅ ∅ ∅ ∅ true [] 0.

Fixpoint joinRooms (req : SyncServerRequest) (increment : bool) (rooms : list SyncRoom) (acc : SyncServerResponse * gmap string bool) :
    ST SyncServer (SyncServerResponse * gmap string bool) :=
  match rooms with
  | [] => mret acc
  | room :: rest =>
      r ← buildRoomJoinResp req (srmRoomID room) (srmStart room) (srmEnd room);
      let '(resp, pos, users) := r in
      let missing := increment && (0 <? pos) && (pos <? srmEnd room) && IsHuman req in
      let acc1 := addJoin (srmRoomID room) resp pos (notLoaded missing acc.1) in
      let newUsers := if increment then fold_left (fun m u => <[u := true]> m) users acc.2 else acc.2 in
      joinRooms req increment rest (acc1, newUsers)
  end.

Fixpoint inviteRooms (req : SyncServerRequest) (increment : bool) (rooms : list SyncRoom) (acc : SyncServerResponse) : ST SyncServer SyncServerResponse :=
  match rooms with
  | [] => mret acc
  | room :: rest =>
      r ← buildRoomInviteResp (srmRoomID room) (rqUserID req);
      let missing := increment && (r.2 <? srmEnd room) && IsHuman req in
      inviteRooms req increment rest (addInvite (srmRoomID room) r.1 r.2 (notLoaded missing acc))
  end.

Fixpoint leaveRooms (req : SyncServerRequest) (rooms : list SyncRoom) (acc : SyncServerResponse) : ST SyncServer SyncServerResponse :=
  match rooms with
  | [] => mret acc
  | room :: rest =>
      r ← buildRoomLeaveResp req (srmRoomID room) (rqUserID req) (srmStart room);
      let missing := (r.2 <? srmEnd room) && IsHuman req in
      leaveRooms req rest (addLeave (srmRoomID room) r.1 r.2 (notLoaded missing acc))
  end.

(** [addReceipt] appends the receipts to the reply of their rooms. *)
Definition receiptsOf (req : SyncServerRequest) (resp : SyncServerResponse) : ST SyncServer SyncServerResponse :=
  r ← onReceipts (ReceiptConsumer.addReceipt (ReceiptConsumer.mkSyncRequest (rqUserID req) (rqJoinedRooms req) (rqReceiptOffset req) (rqIsFullSync req))
        (rqMaxReceiptOffset req) (ReceiptConsumer.mkSyncResponse ∅ (-1)));
  let join := fold_left (fun m kv =>
    let j := default NewJoinResponse (m !! kv.1) in
    <[kv.1 := mkJoin (jrTimeline j) (jrState j) (jrEphemeral j ++ kv.2)%list (jrUnread j)]> m) (range (ReceiptConsumer.Ephemeral r)) (Join resp) in
  mret (set_receiptPos (ReceiptConsumer.MaxReceiptOffset r) (set_join join resp)).

Definition addUnreadCount (userID : string) (resp : SyncServerResponse) : ST SyncServer SyncServerResponse := fun s =>
  let '(join, counts) := fold_left (fun acc kv =>
    let '(n, c) := Push.GetRoomReadCount acc.2 kv.1 userID in
    (<[kv.1 := mkJoin (jrTimeline kv.2) (jrState kv.2) (jrEphemeral kv.2) (Some n)]> acc.1, c)) (range (Join resp)) (Join resp, readCounts s) in
  (Ok (set_join join resp), mkServer (roomHistory s) (receipts s) counts).

Definition finishReply (req : SyncServerRequest) (resp : SyncServerResponse) : ST SyncServer SyncServerResponse :=
  if IsHuman req then r ← receiptsOf req resp; addUnreadCount (rqUserID req) r else mret resp.

Definition processFullSync (req : SyncServerRequest) : ST SyncServer SyncServerResponse :=
  acc ← joinRooms req false (JoinRooms req) (emptyResponse, ∅);
  r ← inviteRooms req false (InviteRooms req) acc.1;
  finishReply req r.

Definition processIncrementSync (req : SyncServerRequest) : ST SyncServer SyncServerResponse :=
  acc ← joinRooms req true (JoinRooms req) (emptyResponse, ∅);
  r ← inviteRooms req true (InviteRooms req) acc.1;
  r ← leaveRooms req (LeaveRooms req) r;
  r ← finishReply req r;
  mret (set_newUsers (map fst (range acc.2)) r).

End Build.
Arguments SyncServer {_} D.

End SyncBuild.
