(* ===== verification/SyncBuildFacts.v ===== *)
(** * The reply for a room

    - [joinLoop_spec], [scan_history]: what the loop over the history collects.
    - [WarmRoom]: a room in memory; loading it again changes the order of use of the
      timelines and nothing else ([loadRoom_quiet]).
    - [join_reply]: the reply of [buildRoomJoinResp] for a room that is in memory once
      it is loaded.  The theorems that use it are in [SyncSessions]. *)

From Stdlib Require Import String ZArith List Lia Sorted.
From stdpp Require Import base tactics list gmap strings pretty.
From S2P Require Import Prelude Snowflake Timeline TimelineRepo Loader SyncHistory SyncHistoryFacts SyncRoomState SyncStates Ids Push Receipts ReceiptConsumer SyncBuild.

#[local] Open Scope string_scope.
#[local] Open Scope Z_scope.

Module SyncBuildFacts.
Import Timeline TimelineRepo Loader SyncHistory SyncHistoryFacts SyncRoomState SyncStates SyncBuild.

(** ** The loop over the history *)

Section Loop.
  Context `{ContentJson} (visibilityTime nowTs : Z) (user : string) (rs : RoomState).

(** What the user may see, by the room state at the start. *)
Definition visibleTo (ev : ClientEvent) : bool := IsStateClientEv ev || (CheckEventVisibility user (ceOriginServerTS ev) rs).1.

Definition shown (st : StreamEvent) : bool := visibleTo (seEv st) && negb (tooOld visibilityTime nowTs (seEv st)).

Definition inWindow (reqStart reqEnd : Z) (st : StreamEvent) : bool :=
  (reqStart <? seOffset st) && ((seOffset st <=? reqEnd) || (reqEnd =? -1)).

Lemma arranged_twice : arranged user (arranged user rs) = arranged user rs.
Proof using.
  unfold arranged at 1. rewrite decide_True; [done|]. unfold arranged. case_decide; [done|]. cbn. set_solver.
Qed.

(** The room state of a scan is the one at the start, perhaps arranged for the user. *)
Definition sameRs (r : RoomState) : Prop := r = rs \/ r = arranged user rs.

Lemma readable_spec ev sc : sameRs (scanRs sc) -> exists r, readable user ev sc =
  (visibleTo ev, mkScan (firstTimeLine sc) (firstTs sc) (limit_ sc) (maxPos sc) (msgEvent sc) (evRecords sc) (limited sc) r) /\ sameRs r.
Proof using.
  intros Hs. unfold readable, visibleTo. destruct (IsStateClientEv ev).
  - exists (scanRs sc). split; [by destruct sc|done].
  - unfold CheckEventVisibility. exists (arranged user rs). split; [|by right]. destruct Hs as [-> | ->]; [done|]. by rewrite arranged_twice.
Qed.

(** [sc] after the window items [ws], newest first, of which the shown ones were
    pushed. *)
Record Scanned (sc sc' : Scan) (ws : list StreamEvent) : Prop := {
  sd_msgs : msgEvent sc' = (msgEvent sc ++ map seEv (List.filter shown ws))%list;
  sd_limit : limit_ sc' = limit_ sc - Z.of_nat (length (List.filter shown ws));
  sd_first : firstTimeLine sc' = match last ws with Some w => seOffset w | None => firstTimeLine sc end;
  sd_max : maxPos sc' = if firstTimeLine sc =? -1 then match head ws with Some w => seOffset w | None => maxPos sc end else maxPos sc;
  sd_rs : sameRs (scanRs sc');
  sd_ids : evRecords sc' ⊆ evRecords sc ∪ list_to_set (map (fun w => ceEventID (seEv w)) ws);
}.

(** The scan is at its start, or the items to come are older. *)
Definition older (sc : Scan) (fs : list StreamEvent) : Prop :=
  (firstTimeLine sc = -1 /\ maxPos sc = -1) \/
  (0 < firstTimeLine sc <= maxPos sc /\ Forall (fun f => seOffset f < firstTimeLine sc) fs).

Definition descending (fs : list StreamEvent) : Prop := StronglySorted (fun a b => seOffset b < seOffset a) fs.

(** One item of the window. *)
Lemma window_step reqEnd st fs sc : (seOffset st <=? reqEnd) || (reqEnd =? -1) = true -> sameRs (scanRs sc) -> older sc (st :: fs) ->
  0 < seOffset st -> Forall (fun f => seOffset f < seOffset st) fs -> ceEventID (seEv st) ∉ evRecords sc ->
  exists sc', joinItem visibilityTime nowTs user reqEnd st sc = sc' /\
    Scanned sc sc' [st] /\ limited sc' = limited sc /\ older sc' fs /\ firstTimeLine sc' <> -1.
Proof using.
  intros Hend Hs Hold Hpos Hfs Hid. unfold joinItem. rewrite Hend. cbv zeta. set (sc1 := noteMax _ _).
  assert (H1 : firstTimeLine sc1 = seOffset st /\ maxPos sc1 = (if firstTimeLine sc =? -1 then seOffset st else maxPos sc) /\
            limit_ sc1 = limit_ sc /\ msgEvent sc1 = msgEvent sc /\ evRecords sc1 = evRecords sc /\ limited sc1 = limited sc /\ scanRs sc1 = scanRs sc).
  { unfold sc1, noteMax, noteFirst. destruct Hold as [[-> Hm]|[[Hf Hfm] Hall]].
    - cbn. rewrite Hm. destruct (Z.ltb_spec (-1) (seOffset st)); [done|lia].
    - apply Forall_cons in Hall as [Hlt _]. destruct (Z.eqb_spec (firstTimeLine sc) (-1)); [lia|]. destruct (Z.ltb_spec (seOffset st) (firstTimeLine sc)); [|lia].
      cbn. destruct (Z.ltb_spec (maxPos sc) (seOffset st)); [lia|]. done. }
  destruct H1 as (Ef & Em & El & Emsg & Eid & Elim & Ers). destruct (readable_spec (seEv st) sc1) as (r & -> & Hr); [by rewrite Ers|].
  set (sc2 := mkScan _ _ _ _ _ _ _ r). eexists. split; [done|]. fold (shown st). cbn [evRecords sc2]. rewrite Eid.
  rewrite decide_False by done. set (sc' := if shown st then push _ sc2 else sc2).
  assert (Hcommon : firstTimeLine sc' = seOffset st /\ maxPos sc' = maxPos sc1 /\ limited sc' = limited sc /\ scanRs sc' = r)
    by (unfold sc'; destruct (shown st); cbn; by rewrite Elim).
  destruct Hcommon as (Ef' & Em' & Elim' & Ers'). split_and!.
  - split; cbn [head last].
    + unfold sc'. cbn. destruct (shown st); cbn; rewrite Emsg; [done|by rewrite app_nil_r].
    + unfold sc'. cbn. destruct (shown st); cbn; lia.
    + done.
    + by rewrite Em', Em.
    + by rewrite Ers'.
    + unfold sc'. destruct (shown st); cbn; rewrite Eid; set_solver.
  - done.
  - right. rewrite Ef', Em', Em. split; [|done]. split; [done|]. destruct Hold as [[-> _]|[[Hf Hfm] Hall]]; [cbn; lia|].
    apply Forall_cons in Hall as [Hlt _]. destruct (firstTimeLine sc =? -1); lia.
  - rewrite Ef'. lia.
Qed.

Lemma Scanned_cons sc sc1 sc' st ws : Scanned sc sc1 [st] -> Scanned sc1 sc' ws -> firstTimeLine sc1 <> -1 -> Scanned sc sc' (st :: ws).
Proof using.
  intros [M1 L1 F1 X1 R1 I1] [M2 L2 F2 X2 R2 I2] Hne. cbn in *. split.
  - cbn [List.filter]. rewrite M2, M1. destruct (shown st); cbn; rewrite ?app_nil_r; by rewrite <- ?app_assoc.
  - cbn [List.filter]. rewrite L2, L1. destruct (shown st); cbn [length]; lia.
  - rewrite F2. destruct ws as [|w ws]; [exact F1|]. change (last (st :: w :: ws)) with (last (w :: ws)).
    destruct (last (w :: ws)) eqn:E; [done|]. by apply last_None in E.
  - rewrite X2, X1. rewrite (proj2 (Z.eqb_neq _ _) Hne). done.
  - done.
  - set_solver.
Qed.

Lemma Scanned_nil sc b : sameRs (scanRs sc) -> Scanned sc (set_limited b sc) [].
Proof using. intros Hs. split; cbn; rewrite ?app_nil_r; try done; [lia|by destruct (_ =? _)|set_solver]. Qed.

Lemma set_limited_id sc : set_limited (limited sc) sc = sc.
Proof using. by destruct sc. Qed.

Lemma Scanned_limited sc sc' b ws : Scanned sc sc' ws -> Scanned sc (set_limited b sc') ws.
Proof using. by intros []. Qed.

(** How the loop ends: every item of the window was scanned, or it stopped at [x]. *)
Inductive Ended (reqStart reqEnd minStream : Z) (sc sc' : Scan) (done rest : list StreamEvent) : Prop :=
  | EndAll : limited sc' = limited sc -> Forall (fun f => inWindow reqStart reqEnd f = false) rest -> Ended reqStart reqEnd minStream sc sc' done rest
  | EndStop d0 x : done = (d0 ++ [x])%list -> limited sc' = negb (String.eqb (ceType (seEv x)) "m.room.create") ->
      stopHere minStream (seEv x) (seOffset x) sc' = true -> Ended reqStart reqEnd minStream sc sc' done rest.

Lemma joinLoop_spec reqStart reqEnd minStream fs : forall sc, sameRs (scanRs sc) -> older sc fs -> descending fs -> Forall (fun f => 0 < seOffset f) fs ->
  NoDup (map (fun f => ceEventID (seEv f)) fs) -> (forall f, f ∈ fs -> ceEventID (seEv f) ∉ evRecords sc) ->
  exists done rest sc', fs = (done ++ rest)%list /\ joinLoop visibilityTime nowTs user reqStart reqEnd minStream (map Some fs) sc = sc' /\
    Scanned sc sc' (List.filter (inWindow reqStart reqEnd) done) /\ Ended reqStart reqEnd minStream sc sc' done rest.
Proof using.
  induction fs as [|st fs IH]; intros sc Hs Hold Hdesc Hpos Hnd Hids; cbn [map joinLoop].
  { exists [], [], sc. split_and!; try done; [|by constructor]. rewrite <- (set_limited_id sc) at 2. by apply Scanned_nil. }
  apply StronglySorted_inv in Hdesc as [Hdesc Hlt]. apply Forall_cons in Hpos as [Hp0 Hpos]. cbn in Hnd. apply NoDup_cons in Hnd as [Hn0 Hnd].
  unfold joinStep. destruct (Z.leb_spec (seOffset st) reqStart) as [Hle|Hgt].
  { exists [], (st :: fs), sc. split_and!; try done.
    - rewrite <- (set_limited_id sc) at 2. by apply Scanned_nil.
    - constructor; [done|]. unfold inWindow. constructor; [destruct (Z.ltb_spec reqStart (seOffset st)); [lia|done]|].
      eapply Forall_impl; [exact Hlt|]. cbn. intros f Hf. destruct (Z.ltb_spec reqStart (seOffset f)); [lia|done]. }
  assert (Hin : inWindow reqStart reqEnd st = (seOffset st <=? reqEnd) || (reqEnd =? -1)).
  { unfold inWindow. destruct (Z.ltb_spec reqStart (seOffset st)); [done|lia]. }
  assert (Hstep : exists sc1, joinItem visibilityTime nowTs user reqEnd st sc = sc1 /\ limited sc1 = limited sc /\ older sc1 fs /\ sameRs (scanRs sc1) /\
            (forall f, f ∈ fs -> ceEventID (seEv f) ∉ evRecords sc1) /\
            forall sc' ws, Scanned sc1 sc' ws -> Scanned sc sc' (if inWindow reqStart reqEnd st then st :: ws else ws)).
  { destruct (inWindow reqStart reqEnd st); symmetry in Hin.
    - destruct (window_step reqEnd st fs sc Hin Hs Hold Hp0) as (sc1 & E & Hsc & Hl & Ho & Hne); [done|apply Hids; by left|].
      exists sc1. split_and!; try done; [by apply Hsc| |].
      + intros f Hf Hx. apply (sd_ids _ _ _ Hsc) in Hx. apply elem_of_union in Hx as [Hx|Hx]; [by apply Hids in Hx; [|right]|].
        cbn in Hx. rewrite union_empty_r_L, elem_of_singleton in Hx. apply Hn0. rewrite <- Hx. apply list_elem_of_fmap. by exists f.
      + intros sc' ws Hws. by apply (Scanned_cons sc sc1).
    - exists sc. split_and!; try done; [by unfold joinItem; rewrite Hin| |intros f Hf; apply Hids; by right]. destruct Hold as [?|[? [_ ?]%Forall_cons]]; [by left|by right]. }
  destruct Hstep as (sc1 & -> & Hl1 & Ho1 & Hs1 & Hid1 & Hcomp). destruct (stopHere minStream (seEv st) (seOffset st) sc1) eqn:Estop.
  - exists [st], fs, (set_limited (negb (String.eqb (ceType (seEv st)) "m.room.create")) sc1). split_and!; try done.
    + cbn. specialize (Hcomp _ [] (Scanned_nil sc1 (negb (String.eqb (ceType (seEv st)) "m.room.create")) Hs1)).
      by destruct (inWindow reqStart reqEnd st).
    + by apply (EndStop _ _ _ _ _ _ _ [] st).
  - destruct (IH sc1 Hs1 Ho1 Hdesc Hpos Hnd Hid1) as (dn & rest & sc' & -> & -> & Hsc & Hend). exists (st :: dn), rest, sc'. split_and!; try done.
    + apply Hcomp in Hsc. cbn. by destruct (inWindow reqStart reqEnd st).
    + destruct Hend as [Hl Hr|d0 x -> Hl Hst]; [constructor; [congruence|done]|]. by apply (EndStop _ _ _ _ _ _ _ (st :: d0) x).
Qed.

(** ** From the loop to the timeline *)

Definition ascends (l : list StreamEvent) : Prop := StronglySorted (fun a b => seOffset a < seOffset b) l.

Lemma ascends_reverse l : ascends l -> descending (reverse l).
Proof using.
  intros Ha. unfold descending. induction Ha as [|a l Ha IH Hall]; [constructor|]. rewrite reverse_cons.
  assert (Hsn : forall fs, StronglySorted (fun a b => seOffset b < seOffset a) fs -> Forall (fun f => seOffset a < seOffset f) fs ->
            StronglySorted (fun a b => seOffset b < seOffset a) (fs ++ [a])).
  { intros fs Hs. induction Hs as [|f fs Hs IHs Hf]; intros Hl; cbn; [by repeat constructor|]. apply Forall_cons in Hl as [Hl0 Hl].
    constructor; [by apply IHs|]. apply Forall_app. by repeat constructor. }
  apply Hsn; [done|]. by apply Forall_reverse.
Qed.

Lemma descending_app A B : descending (A ++ B) -> descending B.
Proof using. induction A as [|a A IH]; [done|]. cbn. by intros [Ha _]%StronglySorted_inv; apply IH. Qed.

Lemma descending_after A x B : descending (A ++ x :: B) -> Forall (fun y => seOffset y < seOffset x) B.
Proof using. intros Hd%descending_app. by apply StronglySorted_inv in Hd as [_ Hb]. Qed.

Lemma descending_before A x B : descending (A ++ x :: B) -> Forall (fun y => seOffset x < seOffset y) A.
Proof using.
  induction A as [|a A IH]; [constructor|]. cbn. intros [Hd Ha]%StronglySorted_inv. constructor; [|by apply IH].
  rewrite Forall_forall in Ha. apply Ha. set_solver.
Qed.

Lemma filter_reverse {A} (p : A -> bool) (l : list A) : List.filter p (reverse l) = reverse (List.filter p l).
Proof using.
  induction l as [|x l IH]; [done|]. rewrite reverse_cons, List.filter_app, IH. cbn [List.filter]. destruct (p x); [by rewrite reverse_cons|by rewrite app_nil_r].
Qed.

Lemma filter_all_false {A} (p : A -> bool) (l : list A) : Forall (fun x => p x = false) l -> List.filter p l = [].
Proof using. induction 1 as [|x l Hx _ IH]; [done|]. cbn. by rewrite Hx. Qed.

(** The create event is the oldest. *)
Definition createFirst (l : list StreamEvent) : Prop :=
  forall l1 x l2, l = (l1 ++ x :: l2)%list -> ceType (seEv x) = "m.room.create" -> l1 = [].

(** The events of a room as its history has them. *)
Record History (l : list StreamEvent) : Prop := {
  hs_asc : ascends l;
  hs_pos : Forall (fun f => 0 < seOffset f) l;
  hs_ids : NoDup (map (fun f => ceEventID (seEv f)) l);
  hs_create : createFirst l;
}.

Definition startScan (limit : Z) (needState : bool) : Scan := mkScan (-1) (-1) limit (-1) [] ∅ needState rs.

(** What the scan gives: the newest of the shown events, and all of them unless it is
    limited. *)
Lemma scan_history l reqStart reqEnd minStream limit needState : History l ->
  let sc := joinLoop visibilityTime nowTs user reqStart reqEnd minStream (map Some (reverse l)) (startScan limit needState) in
  let window := List.filter (inWindow reqStart reqEnd) l in
  sameRs (scanRs sc) /\
  (exists old new, List.filter shown window = (old ++ new)%list /\ reverse (msgEvent sc) = map seEv new) /\
  (limited sc = false -> reverse (msgEvent sc) = map seEv (List.filter shown window)) /\
  (firstTimeLine sc <> -1 -> 0 < firstTimeLine sc <= maxPos sc /\ exists w, last window = Some w /\ maxPos sc = seOffset w) /\
  (reqEnd = -1 -> window <> [] -> firstTimeLine sc <> -1) /\
  (firstTimeLine sc <> -1 -> (exists w, w ∈ l /\ firstTimeLine sc = seOffset w) /\
    reverse (msgEvent sc) = map seEv (List.filter shown (List.filter (fun x => firstTimeLine sc <=? seOffset x) window))) /\
  (firstTimeLine sc = -1 -> maxPos sc = -1).
Proof using.
  intros [Ha Hp Hn Hc]. cbv zeta. destruct (joinLoop_spec reqStart reqEnd minStream (reverse l) (startScan limit needState)) as (dn & rest & sc & El & -> & [M L F X R I] & Hend).
  { by left. } { by left. } { by apply ascends_reverse. } { by apply Forall_reverse. }
  { by rewrite (reverse_Permutation l). } { intros f _. cbn. set_solver. }
  assert (Erl : l = (reverse rest ++ reverse dn)%list) by (rewrite <- reverse_app, <- El; by rewrite reverse_involutive).
  cbn [startScan msgEvent firstTimeLine maxPos app Z.eqb] in M, F, X. change (-1 =? -1) with true in X.
  assert (Hw : List.filter (inWindow reqStart reqEnd) l =
            (List.filter (inWindow reqStart reqEnd) (reverse rest) ++ reverse (List.filter (inWindow reqStart reqEnd) dn))%list).
  { rewrite Erl at 1. by rewrite List.filter_app, (filter_reverse _ dn). }
  assert (Hmsg : reverse (msgEvent sc) = map seEv (List.filter shown (reverse (List.filter (inWindow reqStart reqEnd) dn)))).
  { rewrite M, filter_reverse. unfold reverse. by rewrite <- !rev_alt, map_rev. }
  split_and!; [done| | | | | |].
  - rewrite Hw, List.filter_app. eexists _, _. split; [done|exact Hmsg].
  - intros Hlim. rewrite Hw, List.filter_app, Hmsg. assert (Hz : List.filter (inWindow reqStart reqEnd) (reverse rest) = []).
    { destruct Hend as [_ Hrest|d0 x -> Hl _]; [by apply filter_all_false, Forall_reverse|]. rewrite Hlim in Hl. symmetry in Hl.
      apply negb_false_iff, String.eqb_eq in Hl. rewrite reverse_app in Erl. cbn in Erl. pose proof (Hc _ _ _ Erl Hl) as Hz. by rewrite Hz. }
    by rewrite Hz.
  - intros Hne. rewrite Hw. destruct (last (List.filter (inWindow reqStart reqEnd) dn)) as [w|] eqn:Ew; [|by cbn in F].
    destruct (List.filter (inWindow reqStart reqEnd) dn) as [|w0 ws] eqn:Ews; [done|]. cbn in X. rewrite F, X. rewrite reverse_cons, app_assoc, last_snoc.
    assert (Hin : forall y, y ∈ w0 :: ws -> y ∈ l).
    { intros y Hy. rewrite <- Ews in Hy. apply list_elem_of_In, filter_In in Hy as [Hy _]. rewrite Erl.
      apply elem_of_app. right. apply elem_of_reverse. by apply list_elem_of_In. }
    pose proof (last_Some_elem_of _ _ Ew) as Hwin. rewrite Forall_forall in Hp. split; [|by exists w0].
    split; [by apply Hp, Hin|]. apply elem_of_cons in Hwin as [->|Hwin]; [done|].
    assert (Hd : descending (w0 :: ws)).
    { rewrite <- Ews. pose proof (ascends_reverse l Ha) as Hd. rewrite El in Hd. clear -Hd. unfold descending in *.
      assert (Hd2 : StronglySorted (fun a b => seOffset b < seOffset a) dn).
      { clear -Hd. induction dn as [|a dn IH]; [constructor|]. cbn in Hd. apply StronglySorted_inv in Hd as [Hd Hf]. constructor; [by apply IH|].
        by apply Forall_app in Hf as [? _]. }
      clear Hd. induction Hd2 as [|a dn Hd IH Hf]; cbn; [constructor|]. destruct (inWindow reqStart reqEnd a); [|done]. constructor; [done|].
      rewrite Forall_forall in Hf |- *. intros y [Hy _]%list_elem_of_In%filter_In. by apply Hf, list_elem_of_In. }
    apply StronglySorted_inv in Hd as [_ Hall]. rewrite Forall_forall in Hall. specialize (Hall w Hwin). lia.
  - intros -> Hne Hf. apply Hne. rewrite F in Hf. rewrite Hw. destruct (last (List.filter _ dn)) as [w|] eqn:Ew.
    { apply last_Some_elem_of, list_elem_of_In, filter_In in Ew as [Hin _]. rewrite Forall_forall in Hp. specialize (Hp w).
      rewrite Erl, elem_of_app, !elem_of_reverse in Hp. apply list_elem_of_In in Hin. specialize (Hp (or_intror _ Hin)). lia. }
    apply last_None in Ew. rewrite Ew. cbn. rewrite app_nil_r, filter_reverse. pose proof (ascends_reverse l Ha) as Hd. rewrite El in Hd.
    destruct dn as [|x dn]; [destruct Hend as [_ Hrest|[] x E]; [by rewrite filter_all_false|done|done]|].
    apply StronglySorted_inv in Hd as [_ Hall]. rewrite filter_all_false; [done|]. apply Forall_app in Hall as [_ Hall].
    cbn in Ew. unfold inWindow in Ew |- *. rewrite Z.eqb_refl, orb_true_r, andb_true_r in Ew. destruct (Z.ltb_spec reqStart (seOffset x)); [done|].
    eapply Forall_impl; [exact Hall|]. cbn. intros f Hlt. destruct (Z.ltb_spec reqStart (seOffset f)); [lia|done].
  - intros Hne. destruct (last (List.filter (inWindow reqStart reqEnd) dn)) as [w|] eqn:Ew; [|by cbn in F]. apply last_Some in Ew as [dn0 Ew]. split.
    { exists w. split; [|done]. rewrite Erl. apply elem_of_app. right. apply elem_of_reverse. assert (Hin : w ∈ List.filter (inWindow reqStart reqEnd) dn) by (rewrite Ew; set_solver).
      apply list_elem_of_In, filter_In in Hin as [Hin _]. by apply list_elem_of_In. }
    assert (Hdn : descending (List.filter (inWindow reqStart reqEnd) dn ++ List.filter (inWindow reqStart reqEnd) rest)).
    { rewrite <- List.filter_app, <- El. pose proof (ascends_reverse l Ha) as Hd. clear -Hd. unfold descending in *. induction Hd as [|a d Hd IH Hf]; cbn; [constructor|].
      destruct (inWindow reqStart reqEnd a); [|done]. constructor; [done|]. rewrite Forall_forall in Hf |- *. intros y [Hy _]%list_elem_of_In%filter_In. by apply Hf, list_elem_of_In. }
    rewrite Hmsg, Hw, List.filter_app, F. rewrite (filter_all_false _ (List.filter _ (reverse rest))); cbn [app].
    + f_equal. f_equal. symmetry. apply List.forallb_filter_id, forallb_forall. intros y Hy%list_elem_of_In. rewrite elem_of_reverse, Ew in Hy. apply Z.leb_le.
      apply elem_of_app in Hy as [Hy|Hy]; [|apply list_elem_of_singleton in Hy as ->; lia]. rewrite Ew, <- app_assoc in Hdn. pose proof (descending_before _ _ _ Hdn) as Hb.
      rewrite Forall_forall in Hb. specialize (Hb y Hy). lia.
    + rewrite (filter_reverse _ rest). apply Forall_reverse. rewrite Ew, <- app_assoc in Hdn. eapply Forall_impl; [exact (descending_after _ _ _ Hdn)|].
      cbn. intros y Hy. apply Z.leb_gt. lia.
  - intros Hf. rewrite Hf in F. destruct (last (List.filter (inWindow reqStart reqEnd) dn)) as [w|] eqn:Ew.
    + apply last_Some_elem_of, list_elem_of_In, filter_In in Ew as [Hin%list_elem_of_In _]. rewrite Forall_forall in Hp. specialize (Hp w).
      rewrite Erl, elem_of_app, !elem_of_reverse in Hp. specialize (Hp (or_intror Hin)). lia.
    + apply last_None in Ew. by rewrite X, Ew.
Qed.

End Loop.

Lemma GetState_same `{ContentJson} user rs rs' ty key : sameRs user rs rs' -> GetState rs' ty key = GetState rs ty key.
Proof. intros [-> | ->]; [done|]. unfold arranged. by case_decide. Qed.

(** ** Parts of a history *)

Lemma ascends_ascending l : ascends l -> ascending l.
Proof.
  intros Ha. unfold ascending. induction Ha as [|a l _ IH Hall]; constructor; [done|]. eapply Forall_impl; [exact Hall|]. cbn. lia.
Qed.

Lemma ascends_suffix l1 l2 : ascends (l1 ++ l2) -> ascends l2.
Proof. induction l1 as [|a l1 IH]; [done|]. cbn. by intros [Ha _]%StronglySorted_inv; apply IH. Qed.

Lemma History_suffix l1 l2 : History (l1 ++ l2) -> History l2.
Proof.
  intros [Ha Hp Hn Hc]. split; [by eapply ascends_suffix|by apply Forall_app in Hp as [_ Hp]| |].
  - rewrite map_app in Hn. by apply NoDup_app in Hn as (_ & _ & Hn).
  - intros k1 x k2 -> Hx. specialize (Hc (l1 ++ k1)%list x k2 ltac:(by rewrite (assoc_L app)) Hx). by apply app_eq_nil in Hc as [_ ->].
Qed.

Lemma History_prefix l1 l2 : History (l1 ++ l2) -> History l1.
Proof.
  intros [Ha Hp Hn Hc]. rewrite map_app in Hn. apply NoDup_app in Hn as (Hn & _ & _). apply Forall_app in Hp as [Hp _]. split; try done.
  - clear -Ha. unfold ascends in *. induction l1 as [|a l1 IH]; [constructor|]. cbn in Ha. apply StronglySorted_inv in Ha as [Ha Hall].
    constructor; [by apply IH|]. by apply Forall_app in Hall as [? _].
  - intros k1 x k2 -> Hx. apply (Hc k1 x (k2 ++ l2)%list); [|done]. by rewrite <- app_assoc.
Qed.

Lemma ascends_before l1 x l2 y : ascends (l1 ++ x :: l2) -> y ∈ l1 -> seOffset y < seOffset x.
Proof.
  induction l1 as [|a l1 IH]; intros Ha; [by intros ?%elem_of_nil|]. cbn in Ha. apply StronglySorted_inv in Ha as [Ha Hall].
  intros [->|Hy]%elem_of_cons; [|by apply IH]. rewrite Forall_forall in Hall. apply Hall. set_solver.
Qed.

(** ** Timelines in memory *)

Section Warm.
  Context `{ContentJson} `{GoRange} {D : Type} `{HistoryDb D} `{StateDb D} `{ReceiptConsumer.ReceiptJson}.
  Context (visibilityTime nowTs : Z).
  Implicit Types (s : SyncServer D) (t : RoomStates D).

(** The same timelines, perhaps used in another order. *)
Definition like {F} `{Feed F} (r r' : TimeLineRepo F) : Prop :=
  RepoInv r' /\ tlSize r' = tlSize r /\ tlLimit r' = tlLimit r /\ forall k, get r' k = get r k.

Lemma like_refl {F} `{Feed F} (r : TimeLineRepo F) : RepoInv r -> like r r.
Proof using. done. Qed.

Lemma like_trans {F} `{Feed F} (r1 r2 r3 : TimeLineRepo F) : like r1 r2 -> like r2 r3 -> like r1 r3.
Proof using. intros (_ & S1 & L1 & G1) (I2 & S2 & L2 & G2). split_and!; [done|congruence|congruence|]. intros k. by rewrite G2. Qed.

Definition retouch s (rh : TimeLineRepo StreamEvent) (rst rsm : TimeLineRepo StateStream) : SyncServer D :=
  mkServer (set_repo (roomHistory s) rh)
    (Receipts.set_members (receipts s) (set_streamRepo (set_stateRepo (Receipts.members (receipts s)) rst) rsm)) (readCounts s).

Definition states s : RoomStates D := Receipts.members (receipts s).

(** Only the order of use changed. *)
Definition Touched s s' : Prop := exists rh rst rsm, s' = retouch s rh rst rsm /\
  like (repo (roomHistory s)) rh /\ like (stateRepo (states s)) rst /\ like (streamRepo (states s)) rsm.

Lemma Touched_trans s1 s2 s3 : Touched s1 s2 -> Touched s2 s3 -> Touched s1 s3.
Proof using.
  intros (rh & rst & rsm & -> & A1 & A2 & A3) (rh' & rst' & rsm' & -> & B1 & B2 & B3). exists rh', rst', rsm'. cbn in *.
  split_and!; [done|by eapply like_trans|by eapply like_trans|by eapply like_trans].
Qed.

Lemma Touched_history s s' : Touched s s' -> exists rh, roomHistory s' = set_repo (roomHistory s) rh.
Proof using. intros (rh & rst & rsm & -> & _). by exists rh. Qed.

Lemma touched_persist s s' : Touched s s' -> persist (roomHistory s') = persist (roomHistory s).
Proof using. intros [rh E]%Touched_history. by rewrite E. Qed.

(** A room that is loaded: its history is [l], its state [rs], its state events [sl]. *)
Record WarmRoom s (room user : string) (l : list StreamEvent) (sl : list StateStream) (min : Z) (rs : RoomState) : Prop := {
  w_hist : HistoryInv (roomHistory s);
  w_shows : shows (roomHistory s) room l;
  w_hready : room ∈ ready (hGate (roomHistory s));
  w_hget : is_Some (get (repo (roomHistory s)) room);
  w_min : roomMinStream (roomHistory s) !! room = Some min;
  w_srepo : RepoInv (stateRepo (states s));
  w_sready : room ∈ ready (stateGate (states s));
  w_sget : exists tl, get (stateRepo (states s)) room = Some tl /\ Rep tl sl;
  w_mrepo : RepoInv (streamRepo (states s));
  w_mready : room ∈ ready (streamGate (states s));
  w_mget : is_Some (get (streamRepo (states s)) room);
  w_rs : rsRepo (states s) !! room = Some rs;
  w_rcpt : room ∈ ready (Receipts.rsGate (receipts s));
  w_user : Receipts.receiptKey room user ∈ ready (Receipts.urGate (receipts s));
}.

Lemma warm_touched s s' room user l sl min rs : WarmRoom s room user l sl min rs -> Touched s s' -> WarmRoom s' room user l sl min rs.
Proof using.
  intros [[Hr Hsz Hlim] Hsh Hhr Hhg Hm Hsr Hsrd Hsg Hmr Hmrd Hmg Hrs Hrc Hus] (rh & rst & rsm & -> & (A1 & A2 & A3 & A4) & (B1 & B2 & B3 & B4) & (C1 & C2 & C3 & C4)).
  split; cbn; try done.
  - split; cbn; [done|congruence|congruence].
  - unfold shows. cbn. by rewrite A4.
  - by rewrite A4.
  - destruct Hsg as (tl & Hg & Hrep). exists tl. unfold states. cbn. by rewrite B4.
  - unfold states. cbn. by rewrite C4.
Qed.

Lemma warm_refl s room user l sl min rs : WarmRoom s room user l sl min rs -> Touched s s.
Proof using.
  intros Hw. exists (repo (roomHistory s)), (stateRepo (states s)), (streamRepo (states s)). split_and!.
  - unfold retouch, states. destruct s as [[] c n]. destruct c as [? ? ? ? ? ? ? ? ? ? []]. done.
  - apply like_refl, Hw.
  - apply like_refl, Hw.
  - apply like_refl, Hw.
Qed.

(** A step of the loading that finds everything in memory. *)
Definition quiet {A} (m : ST (SyncServer D) A) (a : A) room user l sl min rs : Prop :=
  forall s, WarmRoom s room user l sl min rs -> exists s', m s = (Ok a, s') /\ Touched s s'.

Lemma quiet_bind {A B} (m : ST (SyncServer D) A) (f : A -> ST (SyncServer D) B) a b room user l sl min rs :
  quiet m a room user l sl min rs -> quiet (f a) b room user l sl min rs -> quiet (m ≫= f) b room user l sl min rs.
Proof using.
  intros Hm Hf s Hw. destruct (Hm s Hw) as (s1 & E1 & T1). destruct (Hf s1) as (s2 & E2 & T2); [by eapply warm_touched|].
  exists s2. unfold mbind, ST_bind. rewrite E1, E2. split; [done|]. by eapply Touched_trans.
Qed.

Lemma touch_history s room user l sl min rs rh : WarmRoom s room user l sl min rs -> like (repo (roomHistory s)) rh ->
  Touched s (mkServer (set_repo (roomHistory s) rh) (receipts s) (readCounts s)).
Proof using.
  intros Hw Hl. exists rh, (stateRepo (states s)), (streamRepo (states s)). split_and!; [|done|apply like_refl, Hw|apply like_refl, Hw].
  unfold retouch, states. destruct s as [h c n]. destruct c as [? ? ? ? ? ? ? ? ? ? []]. done.
Qed.

Lemma touch_states s room user l sl min rs rst rsm : WarmRoom s room user l sl min rs -> like (stateRepo (states s)) rst -> like (streamRepo (states s)) rsm ->
  Touched s (mkServer (roomHistory s) (Receipts.set_members (receipts s) (set_streamRepo (set_stateRepo (states s) rst) rsm)) (readCounts s)).
Proof using.
  intros Hw Hl Hm. exists (repo (roomHistory s)), rst, rsm. split_and!; [|apply like_refl, Hw|done|done].
  unfold retouch, states. by destruct s as [[] c n].
Qed.

(** ** Loading what is loaded *)

Lemma timeLineOf_quiet room user l sl min rs : forall s, WarmRoom s room user l sl min rs ->
  exists s', onRoomHistory (timeLineOf room) s = (Ok (get (repo (roomHistory s)) room), s') /\ Touched s s'.
Proof using.
  intros s Hw. pose proof (w_hist _ _ _ _ _ _ _ Hw) as [Hr _ _]. destruct (getTimeLine_map (repo (roomHistory s)) room Hr) as (r' & E & Hl).
  unfold onRoomHistory, timeLineOf. rewrite E. eexists. split; [done|]. by eapply touch_history.
Qed.

Lemma history_quiet room user l sl min rs : quiet (onRoomHistory (LoadRoomHistory room true)) () room user l sl min rs.
Proof using.
  intros s Hw. destruct (timeLineOf_quiet room user l sl min rs s Hw) as (s' & E & T). exists s'. split; [|done].
  destruct (w_hget _ _ _ _ _ _ _ Hw) as [tl Htl]. rewrite Htl in E. unfold onRoomHistory, LoadRoomHistory, LoadHistory, LoadWith in *.
  cbn [gate history_loads]. rewrite decide_True by apply Hw. cbn [stale history_loads]. unfold mbind, ST_bind.
  destruct (timeLineOf room (roomHistory s)) as [x h]. injection E as -> <-. done.
Qed.

Lemma states_quiet room user l sl min rs : quiet (onStates (LoadStates room true)) () room user l sl min rs.
Proof using.
  intros s Hw. destruct (getTimeLine_map (stateRepo (states s)) room (w_srepo _ _ _ _ _ _ _ Hw)) as (r' & E & Hl).
  destruct (w_sget _ _ _ _ _ _ _ Hw) as (tl & Hg & _). eexists. split.
  - unfold onStates, onReceipts, LoadStates, LoadHistory, LoadWith. cbn [gate state_loads]. fold (states s). rewrite decide_True by apply Hw.
    cbn [stale state_loads]. unfold mbind, ST_bind, stateTimeLine. rewrite E, Hg. done.
  - pose proof (touch_states s _ _ _ _ _ _ r' (streamRepo (states s)) Hw Hl (like_refl _ (w_mrepo _ _ _ _ _ _ _ Hw))) as T.
    by destruct (states s).
Qed.

Lemma streams_quiet room user l sl min rs : quiet (onStates (LoadStreamStates room true)) () room user l sl min rs.
Proof using.
  intros s Hw. destruct (getTimeLine_map (streamRepo (states s)) room (w_mrepo _ _ _ _ _ _ _ Hw)) as (r' & E & Hl).
  destruct (w_mget _ _ _ _ _ _ _ Hw) as [tl Hg]. eexists. split.
  - unfold onStates, onReceipts, LoadStreamStates, LoadHistory, LoadWith. cbn [gate stream_loads]. fold (states s). rewrite decide_True by apply Hw.
    cbn [stale stream_loads]. unfold mbind, ST_bind, streamTimeLine. rewrite E, Hg. done.
  - pose proof (touch_states s _ _ _ _ _ _ (stateRepo (states s)) r' Hw (like_refl _ (w_srepo _ _ _ _ _ _ _ Hw)) Hl) as T.
    by destruct (states s).
Qed.

Lemma receipts_quiet room user l sl min rs : quiet (onReceipts (Receipts.LoadStreamHistory room true)) () room user l sl min rs.
Proof using.
  intros s Hw. exists s. split; [|by eapply warm_refl]. unfold onReceipts, Receipts.LoadStreamHistory, LoadHistory, LoadWith.
  cbn [gate Receipts.stream_loads]. rewrite decide_True by apply Hw. by destruct s.
Qed.

Lemma userReceipts_quiet room user l sl min rs : quiet (onReceipts (Receipts.LoadUserHistory user room true)) () room user l sl min rs.
Proof using.
  intros s Hw. exists s. split; [|by eapply warm_refl]. unfold onReceipts, Receipts.LoadUserHistory, LoadHistory, LoadWith.
  cbn [gate Receipts.user_loads]. rewrite decide_True by apply Hw. by destruct s.
Qed.

Lemma minStream_quiet room user l sl min rs : quiet (onRoomHistory (GetRoomMinStream room)) min room user l sl min rs.
Proof using.
  intros s Hw. exists s. split; [|by eapply warm_refl]. unfold onRoomHistory, GetRoomMinStream. rewrite (w_min _ _ _ _ _ _ _ Hw). by destruct s.
Qed.

Lemma loadRoom_quiet room user l sl min rs : quiet (loadRoom user room) min room user l sl min rs.
Proof using.
  unfold loadRoom. eapply quiet_bind; [apply states_quiet|]. eapply quiet_bind; [apply streams_quiet|]. eapply quiet_bind; [apply history_quiet|].
  eapply quiet_bind; [apply receipts_quiet|]. eapply quiet_bind; [apply userReceipts_quiet|]. apply minStream_quiet.
Qed.

Lemma onRoomHistory_bind {A B} (m : ST (RoomHistory D) A) (f : A -> ST (RoomHistory D) B) s :
  onRoomHistory (m ≫= f) s = (onRoomHistory m ≫= fun a => onRoomHistory (f a)) s.
Proof using. unfold onRoomHistory, mbind, ST_bind. by destruct (m (roomHistory s)) as [[]]. Qed.

Lemma onStates_bind {A B} (m : ST (RoomStates D) A) (f : A -> ST (RoomStates D) B) s :
  onStates (m ≫= f) s = (onStates m ≫= fun a => onStates (f a)) s.
Proof using. unfold onStates, onReceipts, mbind, ST_bind. by destruct (m (Receipts.members (receipts s))) as [[]]. Qed.

Lemma getHistory_quiet s room user l sl min rs : WarmRoom s room user l sl min rs ->
  exists tl s', onRoomHistory (GetHistory room) s = (Ok (Some tl), s') /\ Touched s s' /\ Inv tl l.
Proof using.
  intros Hw. destruct (history_quiet room user l sl min rs s Hw) as (s1 & E1 & T1). pose proof (warm_touched _ _ _ _ _ _ _ _ Hw T1) as Hw1.
  destruct (timeLineOf_quiet room user l sl min rs s1 Hw1) as (s2 & E2 & T2). destruct (w_hget _ _ _ _ _ _ _ Hw1) as [tl Htl]. exists tl, s2.
  unfold GetHistory. rewrite onRoomHistory_bind. unfold mbind, ST_bind. rewrite E1, E2, Htl. split_and!; [done|by eapply Touched_trans|].
  pose proof (w_shows _ _ _ _ _ _ _ Hw1) as Hs. unfold shows in Hs. rewrite Htl in Hs. apply Hs.
Qed.

Lemma getStates_quiet s room user l sl min rs : WarmRoom s room user l sl min rs ->
  exists tl s', onStates (GetStates room) s = (Ok (Some tl), s') /\ Touched s s' /\ Rep tl sl.
Proof using.
  intros Hw. destruct (states_quiet room user l sl min rs s Hw) as (s1 & E1 & T1). pose proof (warm_touched _ _ _ _ _ _ _ _ Hw T1) as Hw1.
  destruct (w_sget _ _ _ _ _ _ _ Hw1) as (tl & Hg & Hrep). destruct (getTimeLine_map (stateRepo (states s1)) room (w_srepo _ _ _ _ _ _ _ Hw1)) as (r' & E & Hl).
  eexists tl, _. split_and!; [|eapply Touched_trans; [exact T1|]|done].
  - unfold GetStates. rewrite onStates_bind. unfold mbind, ST_bind. rewrite E1. unfold onStates, onReceipts, stateTimeLine. fold (states s1). rewrite E, Hg. done.
  - pose proof (touch_states s1 _ _ _ _ _ _ r' (streamRepo (states s1)) Hw1 Hl (like_refl _ (w_mrepo _ _ _ _ _ _ _ Hw1))) as T. by destruct (states s1).
Qed.

Lemma putRoomState_warm s room user l sl min rs rs' : WarmRoom s room user l sl min rs ->
  exists s', putRoomState room rs' s = (Ok (), s') /\ WarmRoom s' room user l sl min rs'.
Proof using.
  intros [Hh Hsh Hhr Hhg Hm Hsr Hsrd Hsg Hmr Hmrd Hmg Hrs Hrc Hus]. eexists. split; [done|]. split; try done. cbn. apply lookup_insert_eq.
Qed.

(** ** The items of the timelines *)

Lemma reverse_feeds {F} `{Feed F} (tl : TimeLines F) (l : list F) : Rep tl l ->
  exists a b c d, GetAllFeedsReverse tl = Ok (map Some (reverse l), a, b, c, d).
Proof using.
  intros R. destruct (GetRange_rep tl l R) as (E & En & El). unfold GetAllFeedsReverse. rewrite E, El, En.
  destruct (Nat.eqb_spec (length l) 0) as [Hz|Hz]; [destruct l; [|done]; by eexists _, _, _, _|].
  rewrite (collect_reverse_rep tl l (length l) R) by done. cbn. rewrite firstn_all. by eexists _, _, _, _.
Qed.

(** Member events have a state key. *)
Definition keyed (ev : ClientEvent) : Prop := ceType ev = "m.room.member" -> is_Some (ceStateKey ev).

(** The user did not leave after [start]. *)
Definition stays (user : string) (start : Z) (l : list StreamEvent) : Prop :=
  forall st, st ∈ l -> start < seOffset st -> ceType (seEv st) = "m.room.member" -> ceStateKey (seEv st) = Some user ->
    membershipOf (ceContent (seEv st)) = "join".

Lemma findLeave_none user start l : Forall (fun st => keyed (seEv st)) l -> stays user start l -> forall j, findLeave user start j (map Some l) = Ok None.
Proof using.
  intros Hk. induction Hk as [|st l Hst _ IH]; intros Hs j; [done|]. cbn.
  assert (Hs' : stays user start l) by (intros x Hx; apply Hs; by right).
  destruct (Z.leb_spec (seOffset st) start); [by apply IH|]. destruct (String.eqb_spec (ceType (seEv st)) "m.room.member") as [Et|_]; [|by apply IH].
  destruct (Hst Et) as [k Ek]. unfold stateKeyOf. rewrite Ek. cbn. destruct (String.eqb_spec k user) as [->|_]; [|by apply IH]. cbn.
  rewrite (Hs st ltac:(by left) ltac:(lia) Et Ek). cbn. by apply IH.
Qed.

Lemma stateLoop_ok start realEnd first need : forall sl i acc, Forall (fun st => keyed (seEv (stream st))) sl ->
  exists m p, stateLoop start realEnd first need i (map Some sl) acc = Ok (m, p) /\ (0 < first <= acc.2 -> p = acc.2) /\
    (p = acc.2 \/ exists st, st ∈ sl /\ p = seOffset (stream st)).
Proof using.
  induction sl as [|st sl IH]; intros i acc Hk; cbn [map stateLoop]; [exists acc.1, acc.2; split_and!; [by destruct acc|done|by left]|].
  apply Forall_cons in Hk as [Hst Hk].
  assert (Hlater : forall p, (p = acc.2 \/ exists x, x ∈ sl /\ p = seOffset (stream x)) -> p = acc.2 \/ exists x, x ∈ st :: sl /\ p = seOffset (stream x)).
  { intros p [?|(x & Hx & ?)]; [by left|right]. exists x. split; [by right|done]. }
  destruct (_ || _); [|destruct (IH (S i) acc Hk) as (m & p & E & Hp & Hin); exists m, p; split_and!; [done|done|by apply Hlater]].
  destruct ((first <=? _) && (0 <? first)) eqn:Eb; [exists acc.1, acc.2; split_and!; [by destruct acc|done|by left]|].
  assert (Hp : exists m, (if need || (start <? seOffset (stream st)) then pushStateIntoMap acc.1 (seEv (stream st)) i else Ok acc.1) = Ok m).
  { destruct (need || _); [|by eexists]. unfold pushStateIntoMap, stateKey_. destruct (String.eqb_spec (ceType (seEv (stream st))) "m.room.member") as [Et|_]; [|by eexists].
    destruct (Hst Et) as [k Ek]. unfold stateKeyOf. rewrite Ek. by eexists. }
  destruct Hp as [m ->]. cbn [mbind res_bind]. destruct (IH (S i) (m, Z.max acc.2 (seOffset (stream st))) Hk) as (m2 & p & -> & Hpp & Hin).
  exists m2, p. split_and!; [done| |].
  - intros Hf. cbn in Hpp. apply andb_false_iff in Eb as [Eb%Z.leb_gt|Eb%Z.ltb_ge]; [|lia]. rewrite Hpp by lia. lia.
  - destruct Hin as [Hin|(x & Hx & Hin)]; [|right; exists x; split; [by right|done]]. cbn in Hin.
    destruct (Z.max_spec acc.2 (seOffset (stream st))) as [[_ Em]|[_ Em]]; rewrite Em in Hin; [right; exists st; split; [by left|done]|by left].
Qed.

(** ** The reply for a room *)

(** What a scan from [start] should deliver. *)
Definition wanted (user : string) (rs : RoomState) (start reqEnd : Z) (l : list StreamEvent) : list StreamEvent :=
  List.filter (shown visibilityTime nowTs user rs) (List.filter (inWindow start reqEnd) l).

(** Where the scan starts: from the beginning for a user who joined since. *)
Definition scanStart (req : SyncServerRequest) (stateEvt : StreamEvent) (reqStart : Z) : Z :=
  if (reqStart <? seOffset stateEvt) || rqIsFullSync req then -1 else reqStart.

(** Loading the room brings it into memory. *)
Definition Loadable s room user l sl min rs : Prop :=
  exists s1, loadRoom user room s = (Ok min, s1) /\ WarmRoom s1 room user l sl min rs.

Lemma warm_loadable s room user l sl min rs : WarmRoom s room user l sl min rs -> Loadable s room user l sl min rs.
Proof using.
  intros Hw. destruct (loadRoom_quiet room user l sl min rs s Hw) as (s1 & E1 & T1). exists s1. split; [done|by eapply warm_touched].
Qed.

(** The order of use changed, and the state of the room. *)
Definition Moved room s s' : Prop := exists s2 s3 rs', Touched s s2 /\ putRoomState room rs' s2 = (Ok (), s3) /\ Touched s3 s'.

Lemma join_reply s req room reqStart reqEnd l sl min rs stateEvt : Loadable s room (rqUserID req) l sl min rs ->
  History l -> Forall (fun st => keyed (seEv st)) l -> Forall (fun st => keyed (seEv (stream st))) sl ->
  GetState rs "m.room.member" (rqUserID req) = Some stateEvt -> stays (rqUserID req) (scanStart req stateEvt reqStart) l ->
  let start := scanStart req stateEvt reqStart in
  let want := wanted (rqUserID req) rs start reqEnd l in
  exists j pos users s' rs', buildRoomJoinResp visibilityTime nowTs req room reqStart reqEnd s = (Ok (j, pos, users), s') /\
    WarmRoom s' room (rqUserID req) l sl min rs' /\ sameRs (rqUserID req) rs rs' /\
    (exists old new, want = (old ++ new)%list /\ Events (jrTimeline j) = map seEv new) /\
    (Limited (jrTimeline j) = false -> Events (jrTimeline j) = map seEv want /\
       exists w, last (List.filter (inWindow start reqEnd) l) = Some w /\ pos = seOffset w) /\
    (reqEnd = -1 -> forall w, last (List.filter (inWindow start reqEnd) l) = Some w -> pos = seOffset w) /\
    (reqEnd = -1 -> List.filter (inWindow start reqEnd) l <> [] -> exists first w ts, w ∈ l /\ first = seOffset w /\ PrevBatch (jrTimeline j) = BuildPreBatch (first - 1) ts /\
       Events (jrTimeline j) = map seEv (List.filter (shown visibilityTime nowTs (rqUserID req) rs) (List.filter (fun x => first <=? seOffset x) (List.filter (inWindow start reqEnd) l)))) /\
    (forall s1, loadRoom (rqUserID req) room s = (Ok min, s1) -> persist (roomHistory s') = persist (roomHistory s1)) /\
    (Events (jrTimeline j) = [] /\ Limited (jrTimeline j) = true /\ (pos = -1 \/ exists st, st ∈ sl /\ pos = seOffset (stream st)) \/
     exists w, last (List.filter (inWindow start reqEnd) l) = Some w /\ pos = seOffset w) /\
    (forall s1, loadRoom (rqUserID req) room s = (Ok min, s1) -> Moved room s1 s').
Proof using.
  intros (s1 & E1 & Hw1) Hl Hk Hks Hst Hstay. cbv zeta. set (user := rqUserID req) in *. set (start := scanStart req stateEvt reqStart) in *.
  destruct (getHistory_quiet s1 room user l sl min rs Hw1) as (tl & s2 & E2 & T2 & Hrep). pose proof (warm_touched _ _ _ _ _ _ _ _ Hw1 T2) as Hw2.
  destruct (reverse_feeds tl l (inv_rep _ _ Hrep)) as (a & b & c & d & Ef). set (need := (reqStart <? seOffset stateEvt) || rqIsFullSync req).
  assert (Estart : (if need then -1 else reqStart) = start) by done.
  assert (Eleft : (if 0 <? start then findLeave user start 0 (reverse (map Some (reverse l))) else Ok None) = Ok None).
  { destruct (0 <? start); [|done]. replace (reverse (map Some (reverse l))) with (map Some l); [by apply findLeave_none|].
    unfold reverse. by rewrite <- !rev_alt, <- map_rev, rev_involutive. }
  pose proof (scan_history visibilityTime nowTs user rs l start reqEnd min (Limit req) need Hl) as Hscan. cbv zeta in Hscan. unfold startScan in Hscan.
  set (sc := joinLoop _ _ _ _ _ _ _ _) in Hscan. destruct Hscan as (Hrs & (old & new & Ewant & Enew) & Hcomp & Hfirst & Hsome & Hfrom & Hnone).
  destruct (putRoomState_warm s2 room user l sl min rs (scanRs sc) Hw2) as (s3 & E3 & Hw3).
  destruct (getStates_quiet s3 room user l sl min (scanRs sc) Hw3) as (stl & s4 & E4 & T4 & Hrep4). pose proof (warm_touched _ _ _ _ _ _ _ _ Hw3 T4) as Hw4.
  destruct (stateLoop_ok start reqEnd (firstTimeLine sc) need sl 0 (∅, maxPos sc) Hks) as (m & p & Eloop & Hp & Hwhere).
  set (full := (start <? firstTimeLine sc) && (0 <? start) && (Limit req <=? Z.of_nat (length (msgEvent sc)))).
  set (tlr := if firstTimeLine sc =? -1 then mkTimeline [] true (prevBatch (-1) 0)
              else mkTimeline (reverse (msgEvent sc)) (limited sc || full) (prevBatch (firstTimeLine sc) (firstTs sc))).
  exists (mkJoin tlr (aggregateStates m) [] None), p.
  exists (if ((reqStart <? maxMember rs) || need) && IsHuman req then map fst (range (join (scanRs sc))) else []), s4, (scanRs sc). split_and!; try done.
  - unfold buildRoomJoinResp, mbind, ST_bind. fold user. rewrite E1. cbn [getServer]. unfold roomStateOf, GetRoomState. fold (states s1).
    rewrite (w_rs _ _ _ _ _ _ _ Hw1), E2, Hst, Ef. cbn [liftR fst snd]. fold need. rewrite Estart, Eleft. rewrite !drop_0. fold sc. rewrite E3, E4.
    rewrite (GetAllFeeds_rep stl sl Hrep4). cbn [fst snd]. rewrite andb_false_r. cbn [andb]. change (Some <$> sl) with (map Some sl).
    rewrite Eloop. cbn [liftR fst snd mret ST_ret]. done.
  - cbn [jrTimeline]. unfold tlr. destruct (firstTimeLine sc =? -1).
    + exists (wanted user rs start reqEnd l), []. by rewrite app_nil_r.
    + by exists old, new.
  - cbn [jrTimeline]. unfold tlr. destruct (Z.eqb_spec (firstTimeLine sc) (-1)) as [|Hne]; [done|]. cbn [Limited Events].
    intros [Hlim _]%orb_false_iff. split; [by apply Hcomp|]. destruct (Hfirst Hne) as (Hf & w & Hlast & Hmax). exists w. split; [done|].
    rewrite Hp by exact Hf. exact Hmax.
  - intros Hend w Hlast. destruct (Hfirst (Hsome Hend ltac:(intros Hz; by rewrite Hz in Hlast))) as (Hf & w' & Hlast' & Hmax).
    rewrite Hp by exact Hf. rewrite Hlast in Hlast'. injection Hlast' as <-. exact Hmax.
  - intros Hend Hwin. pose proof (Hsome Hend Hwin) as Hne. destruct (Hfirst Hne) as (Hf & _). destruct (Hfrom Hne) as ((w & Hwin' & Ew) & Emsg).
    exists (firstTimeLine sc), w, (firstTs sc). cbn [jrTimeline]. unfold tlr. rewrite (proj2 (Z.eqb_neq _ _) Hne). cbn [PrevBatch Events]. split_and!; [done|done| |exact Emsg].
    unfold prevBatch. rewrite (proj2 (Z.eqb_neq _ _) Hne). by rewrite Z.max_r by lia.
  - intros s1' E1'. rewrite E1 in E1'. injection E1' as <-. rewrite (touched_persist _ _ T4). destruct (Touched_history _ _ T2) as [rh2 Eh2].
    unfold putRoomState, onStates, onReceipts in E3. injection E3 as <-. cbn. by rewrite Eh2.
  - cbn [jrTimeline]. unfold tlr. destruct (Z.eqb_spec (firstTimeLine sc) (-1)) as [He|Hne]; [left|right].
    + split_and!; [done|done|]. cbn [snd] in Hwhere. by rewrite (Hnone He) in Hwhere.
    + destruct (Hfirst Hne) as (Hf & w & Hlast & Hmax). exists w. split; [done|]. rewrite Hp by exact Hf. exact Hmax.
  - intros s1' E1'. rewrite E1 in E1'. injection E1' as <-. by exists s2, s3, (scanRs sc).
Qed.

End Warm.

End SyncBuildFacts.
