(* ===== verification/SyncSessions.v ===== *)
(** * What syncs deliver

    - [sync_complete]: the reply to a sync holds the newest of the events in memory that
      the user may see, and all of them unless it is marked as limited.
    - [successive_syncs]: two syncs in a row leave no gap in a room that is in memory.
    - [cold_room_gap]: a room that was not in memory does leave one.
    - [leave_index_reversed], [states_share_type], [old_states_all_last]: events and
      states that a reply misses. *)

From Stdlib Require Import String ZArith List Lia Sorted.
From stdpp Require Import base tactics list gmap strings pretty.
From S2P Require Import Prelude Snowflake Timeline TimelineRepo Loader SyncHistory SyncHistoryFacts SyncRoomState SyncRoomStateFacts SyncStates Ids Push Receipts ReceiptConsumer ReceiptDelivery SyncBuild SyncBuildFacts.

#[local] Open Scope string_scope.
#[local] Open Scope Z_scope.

Module SyncSessions.
Import Timeline TimelineRepo Loader SyncHistory SyncHistoryFacts SyncRoomState SyncStates SyncBuild SyncBuildFacts.

Section Sessions.
  Context `{ContentJson} `{GoRange} {D : Type} `{HistoryDb D} `{StateDb D} `{ReceiptConsumer.ReceiptJson}.
  Context (visibilityTime nowTs : Z).
  Implicit Types (s : SyncServer D) (t : RoomStates D).

(** ** A room that is not in memory *)

(** What the timeline of a room in a repository of states holds. *)
Definition holds (r : TimeLineRepo StateStream) room (l : list StateStream) : Prop :=
  match get r room with Some tl => Inv tl l | None => l = [] end.

Definition freshState (e : ClientEvent * Z) : StateStream := mkStateStream (mkStreamEvent e.1 e.2) false.

(** A row of the database for [room]. *)
Definition stateRow (room : string) (e : ClientEvent * Z) : Prop := IsStateClientEv e.1 = true /\ 0 < e.2 /\ ceRoomID e.1 = room.

Lemma add_holds r room l (f : StateStream) : RepoInv r -> tlLimit r = false -> holds r room l -> 0 < GetOffset f ->
  exists r' x, add r room f = Ok (r', x) /\ RepoInv r' /\ tlLimit r' = false /\ holds r' room (l ++ [f]) /\ is_Some (get r' room).
Proof using.
  intros Hr Hlim Hh Hf. destruct (add_map r room f Hr Hf) as (r' & tl & x & E & Hr' & _ & El & Eadd & Eg & _). exists r', x.
  assert (Hi : Inv (default (NewEvTimeLines (tlSize r) (tlLimit r)) (get r room)) l /\ limit (default (NewEvTimeLines (tlSize r) (tlLimit r)) (get r room)) = false).
  { unfold holds in Hh. pose proof (repo_lines r Hr room) as Hlines. destruct (get r room) as [tl0|]; cbn.
    - destruct (Hlines tl0 eq_refl) as [El0 _]. split; [done|congruence].
    - subst l. split; [apply New_Inv, Hr|done]. }
  destruct Hi as [Hi Hl0]. destruct (Add_Inv _ l f Hi Hf) as (tl' & l' & E' & Hi' & _ & _ & _ & Hw & _). rewrite E' in Eadd. injection Eadd as -> _.
  rewrite (Hw (or_introl Hl0)) in Hi'. unfold window in Hi'. rewrite Hl0 in Hi'. split_and!; [done|done|congruence| |by rewrite Eg].
  unfold holds. by rewrite Eg.
Qed.

Lemma addStates_holds room evs : forall t l, RepoInv (stateRepo t) -> tlLimit (stateRepo t) = false -> holds (stateRepo t) room l -> Forall (stateRow room) evs ->
  exists r, addEach addState evs t = (Ok (), set_stateRepo t r) /\ RepoInv r /\ holds r room (l ++ map freshState evs) /\
    (is_Some (get (stateRepo t) room) \/ evs <> [] -> is_Some (get r room)).
Proof using.
  induction evs as [|[ev off] evs IH]; intros t l Hr Hlim Hh Hrows.
  { exists (stateRepo t). rewrite app_nil_r. split_and!; try done; [by destruct t|]. by intros [?|?]. }
  apply Forall_cons in Hrows as [(Hst & Hoff & Hroom) Hrows]. cbn [fst snd] in Hst, Hoff, Hroom.
  destruct (add_holds (stateRepo t) room l (mkStateStream (mkStreamEvent ev off) false) Hr Hlim Hh Hoff) as (r1 & x & E & Hr1 & Hl1 & Hh1 & Hg1).
  destruct (IH (set_stateRepo t r1) _ Hr1 Hl1 Hh1 Hrows) as (r & E2 & Hr2 & Hh2 & Hg2). exists r. split_and!; [|done| |].
  - cbn [addEach]. unfold mbind at 1, ST_bind at 1, onRes, addState. rewrite Hst, Hroom, E. exact E2.
  - by rewrite <- app_assoc in Hh2.
  - intros _. apply Hg2. by left.
Qed.

(** The room state that the rows give. *)
Fixpoint replayRows (evs : list (ClientEvent * Z)) (o : option RoomState) : res (option RoomState) :=
  match evs with
  | [] => Ok o
  | (ev, off) :: rest => rs ← onEvent ev off false (default newRoomState o); replayRows rest (Some rs)
  end.

Lemma addStreams_holds room evs : forall t l o', RepoInv (streamRepo t) -> tlLimit (streamRepo t) = false -> holds (streamRepo t) room l -> Forall (stateRow room) evs ->
  replayRows evs (rsRepo t !! room) = Ok o' ->
  exists r m, addEach addStream evs t = (Ok (), set_streamRepo (set_rsRepo t m) r) /\ RepoInv r /\ m !! room = o' /\
    (is_Some (get (streamRepo t) room) \/ evs <> [] -> is_Some (get r room)).
Proof using.
  induction evs as [|[ev off] evs IH]; intros t l o' Hr Hlim Hh Hrows Ho.
  { exists (streamRepo t), (rsRepo t). cbn in Ho. injection Ho as <-. split_and!; try done; [by destruct t|]. by intros [?|?]. }
  apply Forall_cons in Hrows as [(Hst & Hoff & Hroom) Hrows]. cbn [fst snd] in Hst, Hoff, Hroom. cbn [replayRows] in Ho.
  destruct (onEvent ev off false (default newRoomState (rsRepo t !! room))) as [rs| | |] eqn:Ers; try discriminate Ho. cbn [mbind res_bind] in Ho.
  destruct (add_holds (streamRepo t) room l (mkStateStream (mkStreamEvent ev off) false) Hr Hlim Hh Hoff) as (r1 & x & E & Hr1 & Hl1 & Hh1 & Hg1).
  set (t1 := set_streamRepo (set_rsRepo t (<[room := rs]> (rsRepo t))) r1).
  destruct (IH t1 _ o' Hr1 Hl1 Hh1 Hrows) as (r & m & E2 & Hr2 & Hm2 & Hg2); [cbn; by rewrite lookup_insert_eq|]. exists r, m. split_and!; [|done|done|].
  - cbn [addEach]. unfold mbind at 1, ST_bind at 1, onRes, addStream. rewrite Hst, Hroom.
    assert (Eon : onRoomEvent ev off false (rsRepo t) = Ok (<[room := rs]> (rsRepo t))).
    { unfold onRoomEvent. rewrite Hroom. destruct (rsRepo t !! room); by rewrite Ers. }
    rewrite Eon. cbn [mbind res_bind]. rewrite E. exact E2.
  - intros _. apply Hg2. by left.
Qed.

(** A room whose events and states are in the database only: the last events [old], the
    states [evs] and the member and visibility events [rows]. *)
Record ColdRoom s (room user : string) (old : list StreamEvent) (evs rows : list (ClientEvent * Z)) (min : Z) (rs : RoomState) : Prop := {
  c_hist : HistoryInv (roomHistory s);
  c_hgate : (room ∉ ready (hGate (roomHistory s))) /\ (room ∉ loading (hGate (roomHistory s))) /\ get (repo (roomHistory s)) room = None;
  c_old : Forall (fun f => 0 < seOffset f /\ ceRoomID (seEv f) = room) old /\ ascending old /\ old <> [];
  c_min : roomMinStream (roomHistory s) !! room = None;
  c_db : exists d1 d2, GetHistoryEvents room 30 (persist (roomHistory s)) = (Ok (map pairOf (reverse old)), d1) /\ SelectOutputMinStream room d1 = (Ok min, d2);
  c_srepo : RepoInv (stateRepo (states s)) /\ tlLimit (stateRepo (states s)) = false;
  c_sgate : (room ∉ ready (stateGate (states s))) /\ (room ∉ loading (stateGate (states s))) /\ get (stateRepo (states s)) room = None;
  c_mrepo : RepoInv (streamRepo (states s)) /\ tlLimit (streamRepo (states s)) = false;
  c_mgate : (room ∉ ready (streamGate (states s))) /\ (room ∉ loading (streamGate (states s))) /\ get (streamRepo (states s)) room = None;
  c_rows : Forall (stateRow room) evs /\ Forall (stateRow room) rows /\ evs <> [] /\ rows <> [];
  c_sdb : exists d1 d2, GetStateEventsForRoom room (stPersist (states s)) = (Ok evs, d1) /\ GetStateEventsStreamForRoom room d1 = (Ok rows, d2);
  c_rs : rsRepo (states s) !! room = None /\ replayRows rows None = Ok (Some rs);
  c_rcpt : room ∈ ready (Receipts.rsGate (receipts s));
  c_user : Receipts.receiptKey room user ∈ ready (Receipts.urGate (receipts s));
}.

Lemma cold_states s room user old evs rows min rs : ColdRoom s room user old evs rows min rs ->
  exists r g d, onStates (LoadStates room true) s = (Ok (), mkServer (roomHistory s)
      (Receipts.set_members (receipts s) (mkStates r (streamRepo (states s)) (rsRepo (states s)) g (streamGate (states s)) d)) (readCounts s)) /\
    RepoInv r /\ holds r room (map freshState evs) /\ is_Some (get r room) /\ room ∈ ready g /\
    exists d2, GetStateEventsStreamForRoom room d = (Ok rows, d2).
Proof using.
  intros Hc. destruct (c_sdb _ _ _ _ _ _ _ _ Hc) as (d1 & d2 & E1 & E2). destruct (c_srepo _ _ _ _ _ _ _ _ Hc) as [Hr Hlim].
  destruct (c_sgate _ _ _ _ _ _ _ _ Hc) as (Hnr & Hnl & Hget). destruct (c_rows _ _ _ _ _ _ _ _ Hc) as (Hrow & _ & Hne & _).
  set (t0 := set_stPersist (set_stateGate (states s) (set_loading (stateGate (states s)) ({[room]} ∪ loading (stateGate (states s))))) d1).
  destruct (addStates_holds room evs t0 [] Hr Hlim) as (r & E & Hr' & Hh & Hg); [by unfold holds; cbn; rewrite Hget|done|]. eexists r, _, d1. split_and!.
  - assert (Eb : @body _ state_loads room (set_stateGate (states s) (set_loading (stateGate (states s)) ({[room]} ∪ loading (stateGate (states s))))) = (Ok (), set_stateRepo t0 r)).
    { cbn [body state_loads]. unfold loadStates, mbind, ST_bind, onStateDb. cbn [stPersist set_stateGate]. rewrite E1. exact E. }
    unfold onStates, onReceipts, LoadStates. fold (states s). by rewrite (load_cold (H := state_loads) room (states s) _ Hnr Hnl Eb).
  - done.
  - done.
  - apply Hg. by right.
  - cbn. set_solver.
  - by exists d2.
Qed.

Lemma cold_streams t room rows rs d2 : RepoInv (streamRepo t) -> tlLimit (streamRepo t) = false ->
  room ∉ ready (streamGate t) -> room ∉ loading (streamGate t) -> get (streamRepo t) room = None ->
  Forall (stateRow room) rows -> rows <> [] -> GetStateEventsStreamForRoom room (stPersist t) = (Ok rows, d2) ->
  rsRepo t !! room = None -> replayRows rows None = Ok (Some rs) ->
  exists r g m, LoadStreamStates room true t = (Ok (), mkStates (stateRepo t) r m (stateGate t) g d2) /\
    RepoInv r /\ is_Some (get r room) /\ room ∈ ready g /\ m !! room = Some rs.
Proof using.
  intros Hr Hlim Hnr Hnl Hget Hrow Hne Edb Hnone Hrep.
  set (t0 := set_stPersist (set_streamGate t (set_loading (streamGate t) ({[room]} ∪ loading (streamGate t)))) d2).
  destruct (addStreams_holds room rows t0 [] (Some rs) Hr Hlim) as (r & m & E & Hr' & Hm & Hg); [by unfold holds; cbn; rewrite Hget|done|by cbn; rewrite Hnone|].
  assert (Eb : @body _ stream_loads room (set_streamGate t (set_loading (streamGate t) ({[room]} ∪ loading (streamGate t)))) = (Ok (), set_streamRepo (set_rsRepo t0 m) r)).
  { cbn [body stream_loads]. unfold loadStateStreams, mbind, ST_bind, onStateDb. cbn [stPersist set_streamGate]. rewrite Edb. exact E. }
  eexists r, _, m. split_and!; [by unfold LoadStreamStates; rewrite (load_cold (H := stream_loads) room t _ Hnr Hnl Eb)|done|apply Hg; by right|cbn; set_solver|done].
Qed.

Lemma cold_loadable s room user old evs rows min rs : ColdRoom s room user old evs rows min rs ->
  Loadable s room user (newest 128 old) (map freshState evs) min rs.
Proof using.
  intros Hc. destruct (cold_states _ _ _ _ _ _ _ _ Hc) as (r1 & g1 & d1 & E1 & Hr1 & Hh1 & Hg1 & Hrd1 & d2 & Edb2).
  destruct Hc as [Hh (Hn1 & Hn2 & Hn3) (Hold & Hasc & Hne) Hmin (dh & dh2 & Edb & Emin) _ _ [Hm Hml] (Hm1 & Hm2 & Hm3) (_ & Hrow & _ & Hrne) _ [Hrs Hrep] Hrc Hus].
  set (t1 := mkStates r1 (streamRepo (states s)) (rsRepo (states s)) g1 (streamGate (states s)) d1) in E1.
  destruct (cold_streams t1 room rows rs d2) as (r2 & g2 & m2 & E2 & Hr2 & Hg2 & Hrd2 & Hm2'); try done.
  destruct (cold_load (roomHistory s) room old dh Hh Hn1 Hn2 Hn3 Edb Hold Hasc) as (h & E3 & Hh3 & Hs3 & Hrd3 & Hg3 & Hside).
  set (h2 := set_minStream (set_persist h dh2) (<[room := min]> (roomMinStream h))).
  set (t2 := mkStates r1 r2 m2 g1 g2 d2). eexists. split.
  - unfold loadRoom, mbind, ST_bind. rewrite E1. unfold onStates at 1, onReceipts at 1. cbn [receipts Receipts.members Receipts.set_members]. rewrite E2.
    unfold onRoomHistory at 1. cbn [roomHistory]. rewrite E3. unfold onReceipts at 1, Receipts.LoadStreamHistory, LoadHistory at 1, LoadWith at 1.
    cbn [gate Receipts.stream_loads receipts Receipts.rsGate Receipts.set_members]. rewrite decide_True by exact Hrc. cbn [stale Receipts.stream_loads].
    unfold mbind, ST_bind, onReceipts at 1, Receipts.LoadUserHistory, LoadHistory at 1, LoadWith at 1. cbn.
    rewrite decide_True by exact Hus. cbn. unfold onRoomHistory, GetRoomMinStream. cbn. unfold aside in Hside. injection Hside as Ep Em.
    unfold mbind, ST_bind, mret, ST_ret. cbn [roomHistory receipts readCounts]. rewrite Em, Hmin. unfold onDb. rewrite Ep, Emin. done.
  - split; try done; cbn.
    + by destruct Hh3.
    + by apply Hg3.
    + apply lookup_insert_eq.
    + unfold holds in Hh1. destruct (get r1 room) as [tl|] eqn:Et; [|by destruct Hg1]. exists tl. split; [done|apply Hh1].
Qed.

(** The room is in memory, or it is loaded from the database by its first use. *)
Definition Present s room user l sl min rs : Prop :=
  WarmRoom s room user l sl min rs \/
  exists old evs rows, ColdRoom s room user old evs rows min rs /\ l = newest 128 old /\ sl = map freshState evs.

Lemma present_loadable s room user l sl min rs : Present s room user l sl min rs -> Loadable s room user l sl min rs.
Proof using. intros [Hw|(old & evs & rows & Hc & -> & ->)]; [by apply warm_loadable|by eapply cold_loadable]. Qed.


(** ** Two syncs *)

Lemma shown_same user rs rs' st : sameRs user rs rs' -> shown visibilityTime nowTs user rs' st = shown visibilityTime nowTs user rs st.
Proof using. intros [-> | ->]; [done|]. unfold shown, visibleTo, CheckEventVisibility. by rewrite arranged_twice. Qed.

Lemma warm_added s room user l sl min rs fs : WarmRoom s room user l sl min rs -> ascending (l ++ fs) ->
  Forall (fun f => 0 < seOffset f /\ ceRoomID (seEv f) = room) fs ->
  exists s', onRoomHistory (addEvs (map pairOf fs)) s = (Ok (), s') /\ WarmRoom s' room user (newest 128 (l ++ fs)) sl min rs.
Proof using.
  intros [Hh Hsh Hhr Hhg Hm Hsr Hsrd Hsg Hmr Hmrd Hmg Hrs Hrc Hus] Ha Hf. assert (Hlen : (length l <= 128)%nat).
  { unfold shows in Hsh. destruct (get (repo (roomHistory s)) room) as [tl|]; [|by destruct Hhg]. destruct Hsh as ([R _ _] & _ & Hsz & _).
    rewrite (rep_n _ _ R), Hsz. lia. }
  assert (El : newest 128 l = l) by (unfold newest; by replace (length l - 128)%nat with 0%nat by lia).
  destruct (warm_adds fs (roomHistory s) room l Hh) as (h & E & Hh' & Hs' & Hr' & Hg' & Hside); [by rewrite El|done..|].
  unfold onRoomHistory. rewrite E. eexists. split; [done|]. split; try done. cbn. unfold aside in Hside. by injection Hside as _ ->.
Qed.

(** After the position of the last event of [l], only [fs] is left. *)
Lemma after_last l w fs n : last l = Some w -> ascends (l ++ fs) -> (length fs <= n)%nat ->
  List.filter (inWindow (seOffset w) (-1)) (newest n (l ++ fs)) = fs.
Proof using.
  intros Hlast Ha Hn. apply last_Some in Hlast as [l0 ->]. unfold newest. rewrite drop_app_le by (rewrite !length_app; lia).
  rewrite List.filter_app. rewrite (filter_all_false _ (drop _ _)).
  - cbn. rewrite <- app_assoc in Ha. apply ascends_suffix in Ha. apply StronglySorted_inv in Ha as [_ Hall]. rewrite List.forallb_filter_id; [done|].
    apply forallb_forall. intros f Hf%list_elem_of_In. rewrite Forall_forall in Hall. unfold inWindow. rewrite orb_true_r, andb_true_r. by apply Z.ltb_lt, Hall.
  - apply Forall_drop. rewrite Forall_forall. intros y Hy. unfold inWindow. rewrite orb_true_r, andb_true_r. apply Z.ltb_ge.
    apply elem_of_app in Hy as [Hy|Hy]; [|apply list_elem_of_singleton in Hy as ->; lia]. rewrite <- app_assoc in Ha. pose proof (ascends_before _ _ _ _ Ha Hy). lia.
Qed.

Lemma wanted_app user rs start l fs : wanted visibilityTime nowTs user rs start (-1) (l ++ fs) = (wanted visibilityTime nowTs user rs start (-1) l ++ wanted visibilityTime nowTs user rs start (-1) fs)%list.
Proof using. unfold wanted. by rewrite !List.filter_app. Qed.

Lemma wanted_all user rs start fs : Forall (fun f => start < seOffset f) fs ->
  wanted visibilityTime nowTs user rs start (-1) fs = List.filter (shown visibilityTime nowTs user rs) fs.
Proof using.
  intros Hf. unfold wanted. f_equal. apply List.forallb_filter_id, forallb_forall. intros f Hin%list_elem_of_In. rewrite Forall_forall in Hf.
  unfold inWindow. rewrite orb_true_r, andb_true_r. by apply Z.ltb_lt, Hf.
Qed.

Lemma stays_later user a b l fs n : a <= b -> stays user a (l ++ fs) -> stays user b (newest n (l ++ fs)).
Proof using.
  intros Hab Hs st Hin Hlt. apply Hs; [|lia]. unfold newest in Hin. rewrite <- (take_drop (length (l ++ fs) - n) (l ++ fs)). apply elem_of_app. by right.
Qed.


End Sessions.

(** ** A room with a few events *)

#[local] Existing Instance SyncRoomStateFacts.plainJson.
#[local] Existing Instance ReceiptDelivery.binaryJson.

Definition roomEv (id type content : string) (key : option string) (t : Z) : ClientEvent := mkClientEvent content id "!r:a" "@u:a" key type t.
Definition createEv : ClientEvent := roomEv "$1" "m.room.create" "@u:a" (Some "") 10.
Definition joinEv : ClientEvent := roomEv "$2" "m.room.member" "join" (Some "@u:a") 20.
Definition leaveEv (id : string) (t : Z) : ClientEvent := roomEv id "m.room.member" "leave" (Some "@u:a") t.
Definition message (i : Z) : ClientEvent := roomEv ("$m" ++ pretty i) "m.room.message" "" None (10 * i).

Definition at_ (e : ClientEvent * Z) : StreamEvent := mkStreamEvent e.1 e.2.

(** A database with the events of one room, oldest first; the state events are the
    first two. *)
Definition RoomDb : Type := list (ClientEvent * Z).

#[local] Instance roomDb : HistoryDb RoomDb := {
  GetHistoryEvents _ n d := (Ok (take n (reverse d)), d);
  SelectOutputMinStream _ := mret 1;
  SelectDomainMaxOffset _ := mret [];
  GetRoomLastOffsets _ := mret ∅;
}.

#[local] Instance stateDb : StateDb RoomDb := {
  GetStateEventsForRoom _ d := (Ok (take 2 d), d);
  GetStateEventsStreamForRoom _ d := (Ok (take 2 d), d);
  GetStateEventsStreamForRoomBeforePos _ pos d := (Ok (List.filter (fun e => e.2 <=? pos) d), d);
}.

Definition start3 : RoomDb := [(createEv, 1); (joinEv, 2); (message 3, 3)].

(** A server after a restart; the receipts of the room were asked for. *)
Definition restarted (d : RoomDb) : SyncServer RoomDb :=
  mkServer (NewRoomHistory 4 2 d)
    (Receipts.mkRepos ∅ ∅ (mkGate ∅ {[Receipts.receiptKey "!r:a" "@u:a"]} [] []) ∅ (mkGate ∅ {["!r:a"]} [] []) ∅ ∅ ∅ 4%nat
       (Receipts.mkSyncDb ∅ ∅ []) (NewRoomStates 4 2 d))
    (Push.mkCounts ∅ ∅ ∅ ∅).

Definition askRoom (limit : Z) : SyncServerRequest := mkRequest [] [mkSyncRoom "!r:a" 0 (-1)] [] ["!r:a"] "@u:a" 0 0 true limit false.

Definition roomRs : RoomState := match replayRows (take 2 start3) None with Ok (Some rs) => rs | _ => newRoomState end.

Lemma start3_cold : ColdRoom (restarted start3) "!r:a" "@u:a" (map at_ start3) (take 2 start3) (take 2 start3) 1 roomRs.
Proof.
  assert (Hrow : Forall (stateRow "!r:a") (take 2 start3)) by (repeat constructor).
  split; cbn [restarted roomHistory receipts Receipts.rsGate Receipts.urGate ready].
  - split; [apply NewTimeLineRepo_inv; lia|done|done].
  - split_and!; [set_solver|set_solver|by vm_compute].
  - split_and!; [by repeat constructor|unfold ascending; repeat constructor; cbn; lia|done].
  - done.
  - by exists start3, start3.
  - split; [apply NewTimeLineRepo_inv; lia|done].
  - split_and!; [set_solver|set_solver|by vm_compute].
  - split; [apply NewTimeLineRepo_inv; lia|done].
  - split_and!; [set_solver|set_solver|by vm_compute].
  - done.
  - by exists start3, start3.
  - split; [done|by vm_compute].
  - set_solver.
  - set_solver.
Qed.

Definition next2 : list StreamEvent := [mkStreamEvent (message 4) 4; mkStreamEvent (message 5) 5].

Lemma history5 : History (map at_ start3 ++ next2).
Proof.
  split.
  - unfold ascends. repeat constructor; cbn; lia.
  - by repeat constructor.
  - apply (bool_decide_unpack _). by vm_compute.
  - intros l1 x l2 E Hx. destruct l1 as [|? [|? [|? [|? [|? [|]]]]]]; [done|..]; cbn in E; try discriminate E; injection E; intros; subst; discriminate Hx.
Qed.

Lemma stays5 : stays "@u:a" (-1) (map at_ start3 ++ next2).
Proof.
  intros st Hin _ Ht Hk. cbn in Hin. repeat (apply elem_of_cons in Hin as [->|Hin]; [first [discriminate Ht|discriminate Hk|done]|]). by apply elem_of_nil in Hin.
Qed.



(** The two replies of the witness are not limited and give the five events. *)
Definition idsOf (r : res (JoinResponse * Z * list string)) : option (list string * bool * Z) :=
  match r with Ok (j, pos, _) => Some (map ceEventID (Events (jrTimeline j)), Limited (jrTimeline j), pos) | _ => None end.

Example five_events :
  let '(r1, s1) := buildRoomJoinResp 0 0 (askRoom 20) "!r:a" 0 (-1) (restarted start3) in
  let '(_, s2) := onRoomHistory (addEvs (map pairOf next2)) s1 in
  let '(r2, _) := buildRoomJoinResp 0 0 (askRoom 20) "!r:a" 3 (-1) s2 in
  idsOf r1 = Some (["$1"; "$2"; "$m3"], false, 3) /\ idsOf r2 = Some (["$m4"; "$m5"], false, 5).
Proof. by vm_compute. Qed.

(** ** What goes wrong *)

Definition messages (a n : nat) : RoomDb := map (fun i => (message (Z.of_nat i), Z.of_nat i)) (seq a n).

(** A room that is not in memory is loaded with its last 30 events.  When more
    arrived since the last sync, the reply does not hold the older ones and is not
    marked as limited: here 40 messages arrived, up to 50 were asked for, and the first
    ten are missing. *)
Theorem cold_room_gap :
  let d := ([(createEv, 1); (joinEv, 2)] ++ messages 3 40)%list in
  idsOf (buildRoomJoinResp 0 0 (askRoom 50) "!r:a" 2 (-1) (restarted d)).1 =
    Some (map (fun e => ceEventID e.1) (messages 13 30), false, 42).
Proof. by vm_compute. Qed.

(** When the history holds an event by which the user left, its place is counted
    from the oldest event but taken off from the newest: the message before the leave,
    which the user may see and got before the leave arrived, is not in the reply. *)
Theorem leave_index_reversed :
  let '(_, s) := loadRoom "@u:a" "!r:a" (restarted start3) in
  let '(_, s1) := onRoomHistory (addEvs [(leaveEv "$l" 40, 4); (message 5, 5); (message 6, 6)]) s in
  idsOf (buildRoomJoinResp 0 0 (askRoom 20) "!r:a" 2 (-1) s1).1 = Some ([], true, 2) /\
  idsOf (buildRoomJoinResp 0 0 (askRoom 20) "!r:a" 2 3 s).1 = Some (["$m3"], false, 3).
Proof. by vm_compute. Qed.

(** The states of a reply are collected by their type (and user, for members), so
    of the aliases of two servers only one is sent. *)
Theorem states_share_type :
  let aliases id server := roomEv id "m.room.aliases" "" (Some server) 10 in
  (m ← pushStateIntoMap ∅ (aliases "$a" "a") 0; m ← pushStateIntoMap m (aliases "$b" "b") 1; Ok (map ceEventID (aggregateStates m))) = Ok ["$b"].
Proof. by vm_compute. Qed.

(** When the timeline of states in memory does not reach back far enough,
    [GetStateEvents] asks the database and stores the address of its loop variable:
    every item has the event of the last row. *)
Theorem old_states_all_last :
  let name := roomEv "$1" "m.room.name" "n" (Some "") 10 in
  let topic id t := roomEv id "m.room.topic" "t" (Some "") t in
  let d := [(topic "$8" 80, 50); (topic "$9" 90, 51); (name, 1); (topic "$2" 20, 2)] in
  (GetStateEvents "!r:a" 5 (NewRoomStates 4 2 d)).1 = Ok [mkStreamEvent (topic "$2" 20) 1; mkStreamEvent (topic "$2" 20) 2].
Proof. by vm_compute. Qed.

End SyncSessions.
