(* ===== verification/RoomMessages.v ===== *)
(** * Paging through the history of a room

    [src/syncserver/api/roomMessages.go]: the request for messages before or after a
    position.  The answer comes from the timeline in memory ([SyncHistory]) and, where
    that does not reach, from the table of output events
    ([src/storage/implements/syncapi/output_room_events_table.go]).

    A position is sent as a token that [BuildPreBatch] of [SyncBuild] makes and
    [parsePosToken] reads.  A row of the table has the decoded event with its field
    [event_offset], or nothing when its text does not decode.  The display hints that
    [extra.ExpandMessages] adds are left out.

    The theorems are in [RoomMessagesFacts]. *)

From Stdlib Require Import String Ascii ZArith List Lia.
From stdpp Require Import base tactics list gmap strings pretty.
From S2P Require Import Prelude Snowflake Timeline TimelineRepo Loader SyncHistory SyncRoomState SyncStates Ids Push Receipts ReceiptConsumer SyncBuild.

#[local] Open Scope string_scope.
#[local] Open Scope Z_scope.

Module RoomMessages.
Import Timeline TimelineRepo Loader SyncHistory SyncRoomState SyncStates SyncBuild.

(** ** Tokens *)

(** [strings.Split] at one character. *)
Fixpoint splitOn (c : ascii) (s : string) : list string :=
  match s with
  | EmptyString => [""]
  | String x rest =>
      if Ascii.eqb x c then "" :: splitOn c rest
      else match splitOn c rest with w :: ws => String x w :: ws | [] => [String x ""] end
  end.

Definition minInt64 : Z := - 2 ^ 63.

(** [strconv.Atoi]: the value and whether it is without error.  Out of range the value
    is the nearest integer. *)
Definition Atoi (s : string) : Z * bool :=
  let clamp z := if z <? minInt64 then (minInt64, false) else if maxInt64 <? z then (maxInt64, false) else (z, true) in
  let number neg ds :=
    match ds with
    | EmptyString => (0, false)
    | _ => match Push.digits 0 ds with Some n => clamp (if (neg : bool) then - n else n) | None => (0, false) end
    end in
  match s with
  | String c rest => if Ascii.eqb c "-" then number true rest else if Ascii.eqb c "+" then number false rest else number false s
  | EmptyString => (0, false)
  end.

(** One part of a token; a part [p] or [t] without a colon makes the code panic. *)
Definition parsePart (acc : Z * Z) (val : string) : res (Z * Z) :=
  let items := splitOn ":" val in
  let number (old : Z) : res Z :=
    match items !! 1%nat with
    | None => Panic
    | Some v => let '(i, ok) := Atoi v in Ok (if (ok : bool) then i else old)
    end in
  match items with
  | "p" :: _ => p ← number acc.1; Ok (p, acc.2)
  | "t" :: _ => t ← number acc.2; Ok (acc.1, t)
  | _ => Ok acc
  end.

Fixpoint parseParts (acc : Z * Z) (parts : list string) : res (Z * Z) :=
  match parts with
  | [] => Ok acc
  | val :: rest => acc ← parsePart acc val; parseParts acc rest
  end.

Definition parsePosToken (s : string) (acc : Z * Z) : res (Z * Z) :=
  let offsets := splitOn "_" s in
  if (1 <? length offsets)%nat then parseParts acc offsets else Ok acc.

(** ** The table *)

Record OutputRow := mkRow {
  rowId : Z;
  rowRoom : string;
  rowEventID : string;
  rowTs : Z;
  rowEvent : option (ClientEvent * Z);
}.

Record Found := mkFound { fEv : ClientEvent; EventOffset : Z; fOffset : Z }.

(** Reading the table, which can fail. *)
Class EventsTable (D : Type) := { outputRows : ST D (list OutputRow) }.

(** The loop over the rows: the events, and position and time of the last row. *)
Fixpoint scanRows (rows : list OutputRow) (endPos endTs : Z) : res (list Found * Z * Z) :=
  match rows with
  | [] => Ok ([], endPos, endTs)
  | r :: rest =>
      match rowEvent r with
      | None => Err (ErrMsg "json")
      | Some (ev, off) => x ← scanRows rest (rowId r) (rowTs r); Ok (mkFound ev off (rowId r) :: x.1.1, x.1.2, x.2)
      end
  end.

Definition back_leb (a b : OutputRow) : bool := rowId b <=? rowId a.
Definition forward_leb (a b : OutputRow) : bool := rowId a <=? rowId b.

Section Table.
  Context {D : Type} `{EventsTable D}.

Definition selectEventsByDir (roomID dir : string) (from limit : Z) : ST D (list Found * Z * Z) :=
  rows ← outputRows;
  let mine := List.filter (fun r => String.eqb (rowRoom r) roomID) rows in
  let sorted := if String.eqb dir "b" then gosort back_leb (List.filter (fun r => rowId r <=? from) mine)
                else gosort forward_leb (List.filter (fun r => from <=? rowId r) mine) in
  if limit <? 0 then liftR (Err (ErrMsg "LIMIT must not be negative"))
  else liftR (scanRows (take (Z.to_nat limit) sorted) 0 0).

Definition selectEventsByDirRange (roomID dir : string) (from to : Z) : ST D (list Found * Z * Z) :=
  rows ← outputRows;
  let mine := List.filter (fun r => String.eqb (rowRoom r) roomID) rows in
  let sorted := if String.eqb dir "b" then gosort back_leb (List.filter (fun r => (rowId r <=? from) && (to <=? rowId r)) mine)
                else gosort forward_leb (List.filter (fun r => (from <=? rowId r) && (rowId r <=? to)) mine) in
  liftR (scanRows sorted 0 0).

(** [StreamEvents] for one identifier, in any room. *)
Definition StreamEvents (eventID : string) : ST D (list Found) :=
  rows ← outputRows;
  x ← liftR (scanRows (List.filter (fun r => String.eqb (rowEventID r) eventID) rows) 0 0);
  mret x.1.1.

End Table.

(** ** Requests *)

Record Config := mkConfig { Instance_ : Z; Total : Z; MultiWrite : bool; UseMessageFilter : bool }.

(** [common.IsRelatedRequest]: the room belongs to this instance.  The sum is that of
    32-bit integers; a remainder by zero panics. *)
Definition IsRelatedRequest (key : string) (instance total : Z) (multiWrite : bool) : res bool :=
  if total =? 0 then Panic
  else if instance =? CalcStringHashCode key mod total then Ok true
  else Ok (multiWrite && (instance =? ((CalcStringHashCode key + 1) mod 2 ^ 32) mod total)).

Record FilterPart := mkFilter { FilterLimit : option Z; Types : list string; NotTypes : list string }.

Class FilterJson := { filterOf : string -> FilterPart }.

(** [common.FilterEventTypes]. *)
Definition FilterEventTypes (events : list ClientEvent) (types notTypes : list string) : list ClientEvent :=
  List.filter (fun ev =>
    negb (existsb (String.eqb (ceType ev)) notTypes) &&
    (match types with [] => true | _ => existsb (String.eqb (ceType ev)) types end)) events.

Record MessagesRequest := mkMessages {
  mqRoomID : string;
  mqFrom : string;
  mqTo : string;
  mqDir : string;
  mqFilter : string;
  mqLimit : string;
}.

Inductive Reply :=
  | Status (code : Z)
  | MessageEventResp (start end_ : string) (chunk : list ClientEvent).

Section Messages.
  Context `{ContentJson} `{GoRange} {D : Type} `{HistoryDb D} `{StateDb D} `{EventsTable D} `{FilterJson}.
  Context (visibilityTime nowTs : Z) (cfg : Config).

(** ** From the database *)

(** Whether a row is on the asked side of the position. *)
Definition offsetOk (dir : string) (fromPos off : Z) : bool :=
  (String.eqb dir "b" && (((0 <=? fromPos) && (off <=? fromPos)) || ((fromPos <? 0) && ((0 <? off) || (off <=? fromPos))))) ||
  (String.eqb dir "f" && (fromPos <=? off)).

Record DbScan := mkDbScan { dOut : list ClientEvent; dEndPos : Z; dEndTs : Z; dLimit : Z; dRs : RoomState }.

(** The loop of [selectFromDB]. *)
Fixpoint dbLoop (user dir : string) (fromPos toPos : Z) (rows : list Found) (st : DbScan) : DbScan :=
  match rows with
  | [] => st
  | f :: rest =>
      if offsetOk dir fromPos (fOffset f) then
        let ev := fEv f in
        let '(b, rs) := CheckEventVisibility user (ceOriginServerTS ev) (dRs st) in
        let st := mkDbScan (dOut st) (dEndPos st) (dEndTs st) (dLimit st) rs in
        if (b : bool) || IsStateClientEv ev then
          if tooOld visibilityTime nowTs ev then dbLoop user dir fromPos toPos rest st
          else
            let limit := if 0 <? dLimit st then dLimit st - 1 else dLimit st in
            let st := mkDbScan (dOut st ++ [ev])%list (EventOffset f) (ceOriginServerTS ev) limit rs in
            if (toPos =? 0) && (limit <=? 0) then st
            else if (0 <? toPos) && ((String.eqb dir "b" && (EventOffset f <? toPos)) || (String.eqb dir "f" && (toPos <? EventOffset f))) then st
            else dbLoop user dir fromPos toPos rest st
        else dbLoop user dir fromPos toPos rest st
      else dbLoop user dir fromPos toPos rest st
  end.

Definition selectFromDB (rs : RoomState) (user roomID dir : string) (fromPos toPos limit : Z) : ST (SyncServer D) (list ClientEvent * Z * Z) :=
  x ← onRoomHistory (onDb (if 0 <? limit then selectEventsByDir roomID dir fromPos (limit * 2) else selectEventsByDirRange roomID dir fromPos toPos));
  let st := dbLoop user dir fromPos toPos x.1.1 (mkDbScan [] x.1.2 x.2 limit rs) in
  _ ← putRoomState roomID (dRs st);
  mret (dOut st, dEndPos st, dEndTs st).

(** ** From memory *)

Record CacheScan := mkCacheScan {
  cOut : list ClientEvent;
  cRecords : gmap string nat;
  cLimit : Z;
  cEndPos : Z;
  cEndTs : Z;
  foundAll : bool;
  cRs : RoomState;
}.

Definition checkOffset (dir : string) (off border minStream : Z) : bool :=
  (if String.eqb dir "f" then border <=? off else off <=? border) && (minStream <=? off).

(** An event that was found twice replaces the first one. *)
Definition output (toPos : Z) (ev : ClientEvent) (st : CacheScan) : CacheScan :=
  match cRecords st !! ceEventID ev with
  | Some idx => mkCacheScan (<[idx := ev]> (cOut st)) (cRecords st) (cLimit st) (cEndPos st) (cEndTs st) (foundAll st) (cRs st)
  | None =>
      mkCacheScan (cOut st ++ [ev])%list (<[ceEventID ev := length (cOut st)]> (cRecords st))
        (if toPos =? 0 then cLimit st - 1 else cLimit st) (cEndPos st) (cEndTs st) (foundAll st) (cRs st)
  end.

(** Where the next page starts after this item. *)
Definition moveEnd (dir : string) (fromTs minStream : Z) (s : StreamEvent) (st : CacheScan) : CacheScan :=
  let set p t := mkCacheScan (cOut st) (cRecords st) (cLimit st) p t (foundAll st) (cRs st) in
  let ts := ceOriginServerTS (seEv s) in
  if String.eqb dir "b" then
    if seOffset s =? minStream then set (seOffset s) (if cEndTs st =? 0 then fromTs else cEndTs st) else set (seOffset s - 1) ts
  else set (seOffset s + 1) ts.

Definition allFound (st : CacheScan) : CacheScan :=
  mkCacheScan (cOut st) (cRecords st) (cLimit st) (cEndPos st) (cEndTs st) true (cRs st).

(** One item; whether the loop goes on. *)
Definition cacheStep (user dir : string) (fromPos fromTs toPos minStream : Z) (s : StreamEvent) (st : CacheScan) : CacheScan * bool :=
  let ev := seEv s in
  if negb (checkOffset dir (seOffset s) fromPos minStream) then (st, true)
  else if negb (toPos =? 0) && ((String.eqb dir "b" && (seOffset s <? toPos)) || (String.eqb dir "f" && (toPos <? seOffset s))) then (allFound st, false)
  else
    let '(b, rs) := CheckEventVisibility user (ceOriginServerTS ev) (cRs st) in
    let st := mkCacheScan (cOut st) (cRecords st) (cLimit st) (cEndPos st) (cEndTs st) (foundAll st) rs in
    let st := if ((b : bool) || IsStateClientEv ev) && (minStream <? seOffset s) && negb (tooOld visibilityTime nowTs ev) then output toPos ev st else st in
    let st := moveEnd dir fromTs minStream s st in
    if (toPos =? 0) && (cLimit st =? 0) then (allFound st, false) else (st, true).

(** The items; a nil item makes the loop panic. *)
Fixpoint cacheLoop (user dir : string) (fromPos fromTs toPos minStream : Z) (feeds : list (option StreamEvent)) (st : CacheScan) : res CacheScan :=
  match feeds with
  | [] => Ok st
  | None :: _ => Panic
  | Some s :: rest =>
      let '(st, go) := cacheStep user dir fromPos fromTs toPos minStream s st in
      if go then cacheLoop user dir fromPos fromTs toPos minStream rest st else Ok st
  end.

(** ** The request *)

Definition stepEnd (dir : string) (pos : Z) : Z := if String.eqb dir "b" then pos - 1 else pos + 1.

(** The part that answers from memory, and from the database when that is not enough. *)
Definition fromCache (rs : RoomState) (tl : TimeLines StreamEvent) (user roomID dir : string) (fromPos fromTs toPos limit minStream : Z) :
    ST (SyncServer D) (list ClientEvent * Z * Z) :=
  r ← liftR (if String.eqb dir "f" then GetAllFeeds tl else GetAllFeedsReverse tl);
  let low := r.1.2 in
  let high := r.2 in
  st ← liftR (cacheLoop user dir fromPos fromTs toPos minStream r.1.1.1.1 (mkCacheScan [] ∅ limit 0 0 false rs));
  _ ← putRoomState roomID (cRs st);
  x ← (if (0 <? cLimit st) || negb (foundAll st) then
         let dbFrom := if cEndPos st =? 0 then fromPos else cEndPos st in
         y ← selectFromDB (cRs st) user roomID dir dbFrom toPos (cLimit st);
         mret ((cOut st ++ y.1.1)%list, stepEnd dir y.1.2, y.2)
       else mret (cOut st, cEndPos st, cEndTs st));
  let endPos := x.1.2 in
  if (endPos =? 0) || (endPos =? 1) || (endPos =? -1) then
    mret (x.1.1, if String.eqb dir "b" then Z.max (low - 1) minStream else high + 1, fromTs)
  else mret x.

(** [limit] of the request, of the filter, and none when there is an end. *)
Definition limitOf (req : MessagesRequest) (f : FilterPart) (toPos : Z) : Z :=
  let limit := (Atoi (mqLimit req)).1 in
  let limit := if (toPos =? 0) && (limit <? 50) then 50 else limit in
  let limit := match FilterLimit f with Some l => if (0 <? l) && (l <? limit) then l else limit | None => limit end in
  if (0 <? toPos) && (0 <? limit) then 0 else limit.

Definition emptyFilter : FilterPart := mkFilter None [] [].

(** The page for a position: the events, and position and time of its end. *)
Definition page (rs : RoomState) (tl : TimeLines StreamEvent) (user roomID dir : string) (fromPos fromTs toPos limit minStream : Z) :
    ST (SyncServer D) (list ClientEvent * Z * Z) :=
  let '(feedlow, feedup) := GetFeedRange tl in
  let createEv := GetState rs "m.room.create" "" in
  if (feedup <? fromPos) && String.eqb dir "f" then mret ([], fromPos, fromTs)
  else if match createEv with Some c => (0 <? fromPos) && (fromPos <=? seOffset c) && String.eqb dir "b" | None => false end then mret ([], fromPos, fromTs)
  else if (fromPos <? feedlow) || (fromPos <=? minStream) then
    x ← selectFromDB rs user roomID dir fromPos toPos limit;
    mret (x.1.1, stepEnd dir x.1.2, x.2)
  else fromCache rs tl user roomID dir fromPos fromTs toPos limit minStream.

(** An error of the database is answered with 500. *)
Definition orError (m : ST (SyncServer D) Reply) : ST (SyncServer D) Reply := fun s =>
  match m s with
  | (Err _, s1) => (Ok (Status 500), s1)
  | r => r
  end.

Definition ProcessMessages (req : MessagesRequest) (user : string) : ST (SyncServer D) Reply :=
  related ← liftR (IsRelatedRequest (mqRoomID req) (Instance_ cfg) (Total cfg) (MultiWrite cfg));
  if negb related then mret (Status (-100))
  else
    states ← onStates (GetStateStreams (mqRoomID req));
    s ← getServer;
    match states, roomStateOf s (mqRoomID req) with
    | None, _ | _, None => mret (Status 404)
    | Some _, Some rs =>
        let isJoin := bool_decide (is_Some (join rs !! user)) in
        let isLeave := bool_decide (is_Some (leave rs !! user)) in
        if negb isJoin && negb isLeave then mret (Status 403)
        else
          minStream ← onRoomHistory (GetRoomMinStream (mqRoomID req));
          lastEv ← onRoomHistory (GetLastEvent (mqRoomID req));
          let start := match lastEv with Some l => (seOffset l, ceOriginServerTS (seEv l)) | None => (maxInt64, maxInt64) end in
          from ← liftR (if String.eqb (mqFrom req) "" || String.eqb (mqFrom req) "-1" then Ok start else parsePosToken (mqFrom req) start);
          to ← liftR (if String.eqb (mqTo req) "" then Ok (0, 0) else parsePosToken (mqTo req) (0, 0));
          let f := if String.eqb (mqFilter req) "" then emptyFilter else filterOf (mqFilter req) in
          let limit := limitOf req f to.1 in
          history ← onRoomHistory (GetHistory (mqRoomID req));
          match history with
          | None => mret (Status 404)
          | Some tl =>
              orError (x ← page rs tl user (mqRoomID req) (mqDir req) from.1 from.2 to.1 limit minStream;
                mret (MessageEventResp (BuildPreBatch from.1 from.2) (BuildPreBatch x.1.2 x.2)
                  (if UseMessageFilter cfg then FilterEventTypes x.1.1 (Types f) (NotTypes f) else x.1.1)))
          end
    end.

End Messages.

End RoomMessages.
