(* ===== verification/RoomMessagesFacts.v ===== *)
(** * Paging: theorems

    - [token_roundtrip]: a position survives its token.
    - [request_spec]: a page and what is left after it are what was asked for.
    - [pages_complete]: following the tokens delivers the whole visible history; its
      witness is in [SyncPaging]. *)

From Stdlib Require Import String Ascii ZArith List Lia Sorted Permutation.
From stdpp Require Import base tactics list gmap strings pretty sorting.
From S2P Require Import Prelude Snowflake Timeline TimelineRepo Loader SyncHistory SyncHistoryFacts SyncRoomState SyncStates Ids Push Receipts ReceiptConsumer SyncBuild SyncBuildFacts RoomMessages.

#[local] Open Scope string_scope.
#[local] Open Scope Z_scope.

Module RoomMessagesFacts.
Import Timeline TimelineRepo Loader SyncHistory SyncHistoryFacts SyncRoomState SyncStates SyncBuild SyncBuildFacts RoomMessages.

(** ** Tokens *)

(** No character of [s] is [c]. *)
Fixpoint without (c : ascii) (s : string) : bool :=
  match s with
  | EmptyString => true
  | String x rest => negb (Ascii.eqb x c) && without c rest
  end.

Lemma splitOn_word c a : without c a = true -> splitOn c a = [a].
Proof.
  induction a as [|x a IH]; [done|]. cbn [splitOn without]. destruct (Ascii.eqb x c); [done|]. cbn. intros Hw. by rewrite IH.
Qed.

Lemma splitOn_app c a b : without c a = true -> splitOn c (a ++ String c b) = a :: splitOn c b.
Proof.
  induction a as [|x a IH].
  - intros _. change ("" ++ String c b) with (String c b). cbn [splitOn]. by rewrite Ascii.eqb_refl.
  - change (String x a ++ String c b) with (String x (a ++ String c b)). cbn [splitOn without]. destruct (Ascii.eqb x c); [done|].
    cbn. intros Hw. by rewrite IH.
Qed.

Lemma without_app c a b : without c (a ++ b) = without c a && without c b.
Proof.
  induction a as [|x a IH]; [done|]. change (String x a ++ b) with (String x (a ++ b)). cbn [without]. by rewrite IH, andb_assoc.
Qed.

(** The decimal digits. *)
Definition isDigit (c : ascii) : Prop := exists d, (d < 10)%N /\ c = pretty_N_char d.

Lemma digit_cases d : (d < 10)%N -> d ∈ [0; 1; 2; 3; 4; 5; 6; 7; 8; 9]%N.
Proof. intros Hd. rewrite !elem_of_cons. lia. Qed.

Lemma digit_value d : (d < 10)%N -> Z.of_nat (nat_of_ascii (pretty_N_char d)) - 48 = Z.of_N d.
Proof. intros Hd%digit_cases. repeat (apply elem_of_cons in Hd as [->|Hd]; [done|]). by apply elem_of_nil in Hd. Qed.

Lemma digit_is_not d c : (d < 10)%N -> c ∈ ["_"; ":"; "-"; "+"]%char -> Ascii.eqb (pretty_N_char d) c = false.
Proof.
  intros Hd%digit_cases Hc. repeat (apply elem_of_cons in Hd as [->|Hd];
    [repeat (apply elem_of_cons in Hc as [->|Hc]; [done|]); by apply elem_of_nil in Hc|]). by apply elem_of_nil in Hd.
Qed.

Lemma digits_step d acc s : (d < 10)%N -> Push.digits acc (String (pretty_N_char d) s) = Push.digits (10 * acc + Z.of_N d) s.
Proof.
  intros Hd. cbn [Push.digits]. rewrite (digit_value d Hd). by rewrite (proj2 (Z.leb_le 0 (Z.of_N d)) ltac:(lia)), (proj2 (Z.leb_le (Z.of_N d) 9) ltac:(lia)).
Qed.

(** Writing a number in front of [s] and reading it. *)
Lemma digits_pretty_go x : forall s acc, acc = 0 -> Push.digits acc (pretty_N_go x s) = Push.digits (Z.of_N x) s.
Proof.
  induction (N.lt_wf_0 x) as [x _ IH]. intros s acc ->. destruct (decide (x = 0)%N) as [->|Hx]; [by rewrite pretty_N_go_0|].
  rewrite pretty_N_go_step by lia. rewrite IH; [|apply N.div_lt; lia|done]. rewrite digits_step by (apply N.mod_lt; lia).
  f_equal. rewrite (N.div_mod x 10) at 3 by done. lia.
Qed.

Lemma without_pretty_go c x : c ∈ ["_"; ":"; "-"; "+"]%char -> forall s, without c s = true -> without c (pretty_N_go x s) = true.
Proof.
  intros Hc. induction (N.lt_wf_0 x) as [x _ IH]. intros s Hs. destruct (decide (x = 0)%N) as [->|Hx]; [by rewrite pretty_N_go_0|].
  rewrite pretty_N_go_step by lia. apply IH; [apply N.div_lt; lia|]. cbn [without]. rewrite digit_is_not by (done || apply N.mod_lt; lia). done.
Qed.

Lemma digits_pretty n : Push.digits 0 (pretty n) = Some (Z.of_N n).
Proof.
  unfold pretty, pretty_N. case_decide as Hn; [by rewrite Hn|]. by rewrite digits_pretty_go.
Qed.

Lemma without_pretty c (n : N) : c ∈ ["_"; ":"; "-"; "+"]%char -> without c (pretty n) = true.
Proof.
  intros Hc. unfold pretty, pretty_N. case_decide; [|by apply without_pretty_go].
  repeat (apply elem_of_cons in Hc as [->|Hc]; [done|]). by apply elem_of_nil in Hc.
Qed.

Lemma pretty_nonempty (n : N) : pretty n <> "".
Proof. intros E. pose proof (digits_pretty n) as Hd. rewrite E in Hd. cbn in Hd. injection Hd as Hd. replace n with 0%N in E by lia. done. Qed.

Lemma Atoi_pretty z : minInt64 <= z <= maxInt64 -> Atoi (pretty z) = (z, true).
Proof.
  intros Hz. unfold Atoi. set (clamp := fun z => if z <? minInt64 then (minInt64, false) else if maxInt64 <? z then (maxInt64, false) else (z, true)).
  assert (Hc : clamp z = (z, true)).
  { unfold clamp. by rewrite (proj2 (Z.ltb_ge z minInt64)), (proj2 (Z.ltb_ge maxInt64 z)) by lia. }
  destruct z as [|p|p]; [done| |].
  - change (pretty (Zpos p)) with (pretty (Npos p)). pose proof (digits_pretty (Npos p)) as Hd. pose proof (without_pretty "-" (Npos p) ltac:(set_solver)) as Hm.
    pose proof (without_pretty "+" (Npos p) ltac:(set_solver)) as Hp. pose proof (pretty_nonempty (Npos p)) as Hne.
    destruct (pretty (Npos p)) as [|x r]; [done|]. cbn [without] in Hm, Hp. destruct (Ascii.eqb x "-"); [done|]. destruct (Ascii.eqb x "+"); [done|].
    rewrite Hd. exact Hc.
  - change (pretty (Zneg p)) with (String "-" (pretty (Npos p))). pose proof (digits_pretty (Npos p)) as Hd. pose proof (pretty_nonempty (Npos p)) as Hne.
    cbn [Ascii.eqb Bool.eqb]. destruct (pretty (Npos p)) as [|x r]; [done|]. cbv zeta. change (Ascii.eqb "-" "-") with true. cbv iota. rewrite Hd. exact Hc.
Qed.

Lemma without_prettyZ c (z : Z) : c ∈ ["_"; ":"]%char -> without c (pretty z) = true.
Proof.
  intros Hc. assert (Hc' : c ∈ ["_"; ":"; "-"; "+"]%char) by set_solver. destruct z as [|p|p].
  - repeat (apply elem_of_cons in Hc as [->|Hc]; [done|]). by apply elem_of_nil in Hc.
  - by apply (without_pretty c (Npos p)).
  - change (pretty (Zneg p)) with (String "-" (pretty (Npos p))). cbn [without]. rewrite without_pretty by done.
    repeat (apply elem_of_cons in Hc as [->|Hc]; [done|]). by apply elem_of_nil in Hc.
Qed.

Lemma str_app_assoc (a b c : string) : a ++ (b ++ c) = (a ++ b) ++ c.
Proof.
  induction a as [|x a IH]; [done|]. change (String x a ++ (b ++ c)) with (String x (a ++ (b ++ c))). by rewrite IH.
Qed.

Lemma token_parts p t : splitOn "_" (BuildPreBatch p t) = ["p:" ++ pretty p; "t:" ++ pretty t].
Proof.
  unfold BuildPreBatch. change ("p:" ++ pretty p ++ "_t:" ++ pretty t) with (("p:" ++ (pretty p ++ String "_" ("t:" ++ pretty t)))).
  rewrite str_app_assoc, splitOn_app.
  - f_equal. apply splitOn_word. rewrite without_app, without_prettyZ by set_solver. done.
  - rewrite without_app, without_prettyZ by set_solver. done.
Qed.

Lemma part_items (k : string) (z : Z) : without ":" k = true -> splitOn ":" (k ++ ":" ++ pretty z) = [k; pretty z].
Proof. intros Hk. change (":" ++ pretty z) with (String ":" (pretty z)). rewrite splitOn_app by done. f_equal. apply splitOn_word, without_prettyZ. set_solver. Qed.

Lemma parse_p acc (p : Z) : minInt64 <= p <= maxInt64 -> parsePart acc ("p:" ++ pretty p) = Ok (p, acc.2).
Proof.
  intros Hp. change ("p:" ++ pretty p) with ("p" ++ ":" ++ pretty p). unfold parsePart. rewrite part_items by done.
  cbn [lookup list_lookup]. by rewrite Atoi_pretty.
Qed.

Lemma parse_t acc (t : Z) : parsePart acc ("t:" ++ pretty t) = Ok (acc.1, if (Atoi (pretty t)).2 then (Atoi (pretty t)).1 else acc.2).
Proof.
  change ("t:" ++ pretty t) with ("t" ++ ":" ++ pretty t). unfold parsePart. rewrite part_items by done.
  cbn [lookup list_lookup]. by destruct (Atoi (pretty t)).
Qed.

(** The position is read whatever the time is. *)
Lemma token_position p t acc : minInt64 <= p <= maxInt64 -> exists t', parsePosToken (BuildPreBatch p t) acc = Ok (p, t').
Proof.
  intros Hp. unfold parsePosToken. rewrite token_parts. cbn [length Nat.ltb Nat.leb parseParts]. rewrite parse_p by done.
  cbn [mbind res_bind]. rewrite parse_t. by eexists.
Qed.

(** A position survives its token: what [BuildPreBatch] writes, [parsePosToken]
    reads, for every position and time of 64 bits. *)
Theorem token_roundtrip p t acc : minInt64 <= p <= maxInt64 -> minInt64 <= t <= maxInt64 -> parsePosToken (BuildPreBatch p t) acc = Ok (p, t).
Proof.
  intros Hp Ht. unfold parsePosToken. rewrite token_parts. cbn [length Nat.ltb Nat.leb parseParts]. rewrite parse_p by done.
  cbn [mbind res_bind]. rewrite parse_t. by rewrite Atoi_pretty.
Qed.

Lemma token_roundtrip_witness : minInt64 <= -7 <= maxInt64 /\ parsePosToken (BuildPreBatch (-7) 1600000000000) (0, 0) = Ok (-7, 1600000000000).
Proof. split; [unfold minInt64, maxInt64; lia|]. apply token_roundtrip; unfold minInt64, maxInt64; lia. Defined.

(** ** The loops *)

Section Loops.
  Context `{ContentJson} (visibilityTime nowTs : Z) (user : string) (rs0 : RoomState).

#[local] Abbreviation shown := (SyncBuildFacts.shown visibilityTime nowTs user rs0).
#[local] Abbreviation sameRs := (SyncBuildFacts.sameRs user rs0).

Lemma check_same pos r : sameRs r -> CheckEventVisibility user pos r = ((CheckEventVisibility user pos rs0).1, arranged user rs0).
Proof using. intros [-> | ->]; unfold CheckEventVisibility; [done|]. by rewrite arranged_twice. Qed.

Lemma sameRs_arranged : sameRs (arranged user rs0).
Proof using. by right. Qed.

Definition foundOf (s : StreamEvent) : Found := mkFound (seEv s) (seOffset s) (seOffset s).

Lemma shown_spec s : shown s = ((CheckEventVisibility user (ceOriginServerTS (seEv s)) rs0).1 || IsStateClientEv (seEv s)) && negb (tooOld visibilityTime nowTs (seEv s)).
Proof using. unfold SyncBuildFacts.shown, visibleTo. by rewrite (orb_comm (IsStateClientEv _)). Qed.

(** Backwards: up to the last event that was taken, or the whole of [T] when none is
    shown. *)
Lemma dbLoop_spec fromPos T : forall st, sameRs (dRs st) -> 0 < dLimit st -> Forall (fun s => offsetOk "b" fromPos (seOffset s) = true) T ->
  exists A B st', dbLoop visibilityTime nowTs user "b" fromPos 0 (map foundOf T) st = st' /\ T = (A ++ B)%list /\ sameRs (dRs st') /\
    dOut st' = (dOut st ++ map seEv (List.filter shown A))%list /\ Z.of_nat (length (List.filter shown A)) <= dLimit st /\
    ((A = T /\ List.filter shown T = [] /\ dEndPos st' = dEndPos st) \/ exists A' x, A = (A' ++ [x])%list /\ dEndPos st' = seOffset x).
Proof using.
  induction T as [|x T IH]; intros st Hs Hlim Hok.
  { exists [], [], st. split_and!; try done; [by rewrite app_nil_r|cbn; lia|by left]. }
  apply Forall_cons in Hok as [Hx Hok]. cbn [map dbLoop foundOf fOffset fEv]. rewrite Hx, (check_same _ _ Hs).
  set (st1 := mkDbScan (dOut st) (dEndPos st) (dEndTs st) (dLimit st) (arranged user rs0)).
  destruct (shown x) eqn:Ex; pose proof Ex as Ex'; rewrite shown_spec in Ex'.
  - apply andb_true_iff in Ex' as [-> ->%negb_true_iff]. set (st2 := mkDbScan (dOut st ++ [seEv x])%list (seOffset x) (ceOriginServerTS (seEv x)) (dLimit st - 1) (arranged user rs0)).
    replace (if 0 <? dLimit st1 then dLimit st1 - 1 else dLimit st1) with (dLimit st - 1) by (cbn; by rewrite (proj2 (Z.ltb_lt _ _) Hlim)).
    change (0 =? 0) with true. change (0 <? 0) with false. cbn [andb]. change (mkDbScan (dOut st1 ++ [seEv x])%list _ _ _ _) with st2.
    destruct (Z.leb_spec (dLimit st - 1) 0) as [Hz|Hz].
    + exists [x], T, st2. split_and!; try done; [apply sameRs_arranged|cbn; by rewrite Ex|cbn; rewrite Ex; cbn; lia|]. right. by exists [], x.
    + destruct (IH st2 sameRs_arranged Hz Hok) as (A & B & st' & E & ET & Hs' & Eout & Elen & [(EA & Hnone & Eend)|(A' & y & -> & Eend)]).
      * exists [x], T, st'. split_and!; try done; [|cbn; rewrite Ex; cbn; lia|right; by exists [], x].
        rewrite Eout. cbn. rewrite Ex. by rewrite EA, Hnone, app_nil_r.
      * exists (x :: A' ++ [y])%list, B, st'. split_and!; try done; [by rewrite ET| | |].
        -- rewrite Eout. cbn [List.filter map st2 dOut]. rewrite Ex. cbn. by rewrite <- app_assoc.
        -- cbn [List.filter]. rewrite Ex. cbn [length st2 dLimit] in *. lia.
        -- right. by exists (x :: A')%list, y.
  - assert (Hgo : exists A B st', dbLoop visibilityTime nowTs user "b" fromPos 0 (map foundOf T) st1 = st' /\ x :: T = (A ++ B)%list /\ sameRs (dRs st') /\
      dOut st' = (dOut st ++ map seEv (List.filter shown A))%list /\ Z.of_nat (length (List.filter shown A)) <= dLimit st /\
      ((A = x :: T /\ List.filter shown (x :: T) = [] /\ dEndPos st' = dEndPos st) \/ exists A' y, A = (A' ++ [y])%list /\ dEndPos st' = seOffset y)).
    { destruct (IH st1 sameRs_arranged Hlim Hok) as (A & B & st' & E & ET & Hs' & Eout & Elen & Hend). exists (x :: A), B, st'. cbn [List.filter]. rewrite Ex.
      split_and!; try done; [by rewrite ET|]. destruct Hend as [(EA & Hnone & Eend)|(A' & y & -> & Eend)]; [left; by rewrite EA|right; by exists (x :: A'), y]. }
    destruct ((CheckEventVisibility user (ceOriginServerTS (seEv x)) rs0).1 || IsStateClientEv (seEv x)); [|exact Hgo].
    cbn [andb] in Ex'. apply negb_false_iff in Ex'. rewrite Ex'. exact Hgo.
Qed.

Definition inPage (fromPos minStream : Z) (s : StreamEvent) : bool := checkOffset "b" (seOffset s) fromPos minStream.

(** What the part from memory outputs: the event at [minStream] is left to the
    database. *)
Definition cshown (minStream : Z) (s : StreamEvent) : bool := shown s && (minStream <? seOffset s).

Definition endOf (minStream : Z) (s : StreamEvent) : Z := if seOffset s =? minStream then seOffset s else seOffset s - 1.

Lemma cacheStep_in fromPos fromTs minStream x st : inPage fromPos minStream x = true -> sameRs (cRs st) -> cRecords st !! ceEventID (seEv x) = None ->
  exists st', cacheStep visibilityTime nowTs user "b" fromPos fromTs 0 minStream x st = ((if cLimit st' =? 0 then allFound st' else st'), negb (cLimit st' =? 0)) /\
    sameRs (cRs st') /\ cOut st' = (cOut st ++ map seEv (List.filter (cshown minStream) [x]))%list /\
    cLimit st' = cLimit st - Z.of_nat (length (List.filter (cshown minStream) [x])) /\ cEndPos st' = endOf minStream x /\ foundAll st' = foundAll st /\
    forall id, id <> ceEventID (seEv x) -> cRecords st' !! id = cRecords st !! id.
Proof using.
  intros Hin Hs Hrec. unfold cacheStep. unfold inPage in Hin. rewrite Hin. cbn [negb]. change (0 =? 0) with true. cbn [negb andb]. rewrite (check_same _ _ Hs).
  set (st1 := mkCacheScan (cOut st) (cRecords st) (cLimit st) (cEndPos st) (cEndTs st) (foundAll st) (arranged user rs0)).
  replace (((CheckEventVisibility user (ceOriginServerTS (seEv x)) rs0).1 || IsStateClientEv (seEv x)) && (minStream <? seOffset x) && negb (tooOld visibilityTime nowTs (seEv x)))
    with (cshown minStream x) by (unfold cshown; rewrite shown_spec; destruct (_ || _), (tooOld _ _ _), (minStream <? seOffset x); done).
  set (st2 := if cshown minStream x then output 0 (seEv x) st1 else st1).
  assert (H2 : cOut st2 = (cOut st ++ map seEv (List.filter (cshown minStream) [x]))%list /\ cLimit st2 = cLimit st - Z.of_nat (length (List.filter (cshown minStream) [x])) /\
            cRs st2 = arranged user rs0 /\ foundAll st2 = foundAll st /\ forall id, id <> ceEventID (seEv x) -> cRecords st2 !! id = cRecords st !! id).
  { unfold st2. cbn [List.filter]. destruct (cshown minStream x).
    - unfold output. cbn [st1 cRecords]. rewrite Hrec. cbn. split_and!; try done. intros id Hid. by rewrite lookup_insert_ne.
    - cbn. rewrite app_nil_r. split_and!; try done. lia. }
  destruct H2 as (Eo & El & Er & Ef & Eid). exists (moveEnd "b" fromTs minStream x st2).
  assert (H3 : cOut (moveEnd "b" fromTs minStream x st2) = cOut st2 /\ cLimit (moveEnd "b" fromTs minStream x st2) = cLimit st2 /\ cRs (moveEnd "b" fromTs minStream x st2) = cRs st2 /\
     foundAll (moveEnd "b" fromTs minStream x st2) = foundAll st2 /\ cRecords (moveEnd "b" fromTs minStream x st2) = cRecords st2 /\ cEndPos (moveEnd "b" fromTs minStream x st2) = endOf minStream x).
  { unfold moveEnd, endOf. cbn [String.eqb Ascii.eqb Bool.eqb]. by destruct (seOffset x =? minStream). }
  destruct H3 as (F1 & F2 & F3 & F4 & F5 & F6). rewrite F1, F2, F3, F4, F5, F6, Er. split_and!; try done; [|apply sameRs_arranged].
  by destruct (cLimit st2 =? 0).
Qed.

(** Backwards from memory: the loop ends when the limit is used up or nothing is left. *)
Lemma cacheLoop_spec fromPos fromTs minStream T : forall st, sameRs (cRs st) -> 0 < cLimit st -> NoDup (map (fun s => ceEventID (seEv s)) T) ->
  (forall s, s ∈ T -> cRecords st !! ceEventID (seEv s) = None) ->
  exists A B st', cacheLoop visibilityTime nowTs user "b" fromPos fromTs 0 minStream (map Some T) st = Ok st' /\
    List.filter (inPage fromPos minStream) T = (A ++ B)%list /\ sameRs (cRs st') /\
    cOut st' = (cOut st ++ map seEv (List.filter (cshown minStream) A))%list /\
    cLimit st' = cLimit st - Z.of_nat (length (List.filter (cshown minStream) A)) /\
    cEndPos st' = match last A with Some x => endOf minStream x | None => cEndPos st end /\
    ((foundAll st' = true /\ cLimit st' = 0 /\ exists A' x, A = (A' ++ [x])%list /\ cshown minStream x = true) \/
     (foundAll st' = foundAll st /\ B = [] /\ 0 < cLimit st')).
Proof using.
  induction T as [|x T IH]; intros st Hs Hlim Hnd Hrec.
  { exists [], [], st. cbn. rewrite app_nil_r. split_and!; try done; [lia|by right]. }
  cbn in Hnd. apply NoDup_cons in Hnd as [Hn0 Hnd]. cbn [map cacheLoop List.filter]. destruct (inPage fromPos minStream x) eqn:Ein.
  - destruct (cacheStep_in fromPos fromTs minStream x st Ein Hs) as (st1 & -> & Hs1 & Eo1 & El1 & Ee1 & Ef1 & Eid1); [apply Hrec; by left|].
    destruct (Z.eqb_spec (cLimit st1) 0) as [Hz|Hz]; cbn [negb].
    + exists [x], (List.filter (inPage fromPos minStream) T), (allFound st1). cbn [last]. split_and!; try done. left. split_and!; [done|done|]. exists [], x. split; [done|].
      destruct (cshown minStream x) eqn:Ec; [done|]. cbn [List.filter] in El1. rewrite Ec in El1. cbn in El1. lia.
    + assert (Hlim1 : 0 < cLimit st1) by (cbn [List.filter] in El1; destruct (cshown minStream x); cbn in El1; lia).
      destruct (IH st1 Hs1 Hlim1 Hnd) as (A & B & st' & E & EC & Hs' & Eo & El & Ee & Hend).
      { intros s Hin. rewrite Eid1; [apply Hrec; by right|]. intros Heq. apply Hn0. rewrite <- Heq. apply list_elem_of_fmap. by exists s. }
      exists (x :: A), B, st'. assert (Efl : List.filter (cshown minStream) (x :: A) = (List.filter (cshown minStream) [x] ++ List.filter (cshown minStream) A)%list)
        by (change (x :: A) with ([x] ++ A)%list; apply List.filter_app).
      rewrite EC, Efl, map_app, Eo, Eo1, El, El1, Ee, Ee1, length_app. split_and!; try done; [by rewrite <- app_assoc|lia| |].
      * destruct A as [|a A]; [done|]. change (last (x :: a :: A)) with (last (a :: A)). destruct (last (a :: A)) eqn:Ela; [done|]. by apply last_None in Ela.
      * destruct Hend as [(F1 & F2 & A' & y & -> & Hy)|(F1 & F2 & F3)]; [left|right; split_and!; [congruence|done|lia]].
        split_and!; [done|lia|]. by exists (x :: A'), y.
  - unfold cacheStep. unfold inPage in Ein. rewrite Ein. cbn [negb]. apply IH; try done. intros s Hin. apply Hrec. by right.
Qed.

End Loops.

(** ** The table *)

Definition below (all : list StreamEvent) (p : Z) : list StreamEvent := List.filter (fun s => seOffset s <=? p) all.

(** The events up to [p], newest first. *)
Definition back (all : list StreamEvent) (p : Z) : list StreamEvent := reverse (below all p).

Lemma ascends_filter (p : StreamEvent -> bool) l : ascends l -> ascends (List.filter p l).
Proof.
  intros Ha. unfold ascends. induction Ha as [|a l Ha IH Hall]; [constructor|]. cbn. destruct (p a); [|done]. constructor; [done|].
  rewrite Forall_forall in Hall |- *. intros y [Hy _]%list_elem_of_In%filter_In. by apply Hall, list_elem_of_In.
Qed.

Lemma back_descending all p : ascends all -> descending (back all p).
Proof. intros Ha. apply ascends_reverse. by apply ascends_filter. Qed.

Lemma filter_true {A} (p : A -> bool) (l : list A) : Forall (fun x => p x = true) l -> List.filter p l = l.
Proof. induction 1 as [|x l Hx _ IH]; [done|]. cbn. by rewrite Hx, IH. Qed.

Lemma filter_filter_le all p q : q <= p -> List.filter (fun s => seOffset s <=? q) (below all p) = below all q.
Proof.
  intros Hq. unfold below. induction all as [|a all IH]; [done|]. cbn. destruct (Z.leb_spec (seOffset a) p).
  - cbn. by rewrite IH.
  - rewrite IH. destruct (Z.leb_spec (seOffset a) q); [lia|done].
Qed.

Lemma back_in all p x : x ∈ back all p <-> x ∈ all /\ seOffset x <= p.
Proof.
  unfold back, below. rewrite elem_of_reverse, !list_elem_of_In, filter_In. by rewrite Z.leb_le.
Qed.

Lemma back_back all p q : q <= p -> List.filter (fun s => seOffset s <=? q) (back all p) = back all q.
Proof. intros Hq. unfold back. by rewrite filter_reverse, filter_filter_le. Qed.

(** What follows an event is what is older. *)
Lemma back_cut all p A x B : ascends all -> back all p = ((A ++ [x]) ++ B)%list -> B = back all (seOffset x - 1).
Proof.
  intros Ha Eb. pose proof (back_descending all p Ha) as Hd. assert (Hx : x ∈ back all p) by (rewrite Eb; set_solver). apply back_in in Hx as [_ Hx].
  rewrite <- (back_back all p) by lia. rewrite Eb in Hd |- *. rewrite <- app_assoc in Hd |- *. rewrite List.filter_app. cbn [List.filter app].
  pose proof (descending_before _ _ _ Hd) as Hb. rewrite (filter_all_false _ A); [|eapply Forall_impl; [exact Hb|cbn; intros y Hy; apply Z.leb_gt; lia]].
  rewrite (proj2 (Z.leb_gt (seOffset x) (seOffset x - 1))) by lia. cbn. symmetry. apply filter_true. eapply Forall_impl; [exact (descending_after _ _ _ Hd)|].
  cbn. intros y Hy. apply Z.leb_le. lia.
Qed.

Lemma back_from all p A x B : ascends all -> back all p = (A ++ x :: B)%list -> back all (seOffset x) = x :: B.
Proof.
  intros Ha Eb. pose proof (back_descending all p Ha) as Hd. assert (Hx : x ∈ back all p) by (rewrite Eb; set_solver). apply back_in in Hx as [_ Hx].
  rewrite <- (back_back all p) by lia. rewrite Eb in Hd |- *. rewrite List.filter_app.
  rewrite (filter_all_false _ A); [|eapply Forall_impl; [exact (descending_before _ _ _ Hd)|cbn; intros y Hy; apply Z.leb_gt; lia]].
  cbn [List.filter app]. rewrite Z.leb_refl. f_equal. apply filter_true. eapply Forall_impl; [exact (descending_after _ _ _ Hd)|].
  cbn. intros y Hy. apply Z.leb_le. lia.
Qed.

Definition rowOf (room : string) (s : StreamEvent) : OutputRow :=
  mkRow (seOffset s) room (ceEventID (seEv s)) (ceOriginServerTS (seEv s)) (Some (seEv s, seOffset s)).

(** The table holds the events [all] of the room, in any order. *)
Definition HasTable {D} `{EventsTable D} (d : D) (room : string) (all : list StreamEvent) : Prop :=
  exists rows, outputRows d = (Ok rows, d) /\ Permutation (List.filter (fun r => String.eqb (rowRoom r) room) rows) (map (rowOf room) all).

Lemma scanRows_rows room T e t : exists t', scanRows (map (rowOf room) T) e t = Ok (map foundOf T, match last T with Some x => seOffset x | None => e end, t').
Proof.
  revert e t. induction T as [|x T IH]; intros e t; [by eexists|]. cbn [map scanRows rowOf rowEvent]. destruct (IH (rowId (rowOf room x)) (rowTs (rowOf room x))) as [t' E].
  exists t'. rewrite E, last_cons. by destruct (last T).
Qed.

Lemma perm_filter {A} (p : A -> bool) (l1 l2 : list A) : Permutation l1 l2 -> Permutation (List.filter p l1) (List.filter p l2).
Proof.
  induction 1 as [|x l1 l2 _ IH|x y l|l1 l2 l3 _ IH1 _ IH2]; [done| | |by etrans]; cbn; repeat destruct (p _); try done; [by constructor|apply Permutation_swap].
Qed.

Lemma filter_map_comm {A B} (f : A -> B) (p : B -> bool) (l : list A) : List.filter p (map f l) = map f (List.filter (fun x => p (f x)) l).
Proof. induction l as [|x l IH]; [done|]. cbn. destruct (p (f x)); cbn; by rewrite IH. Qed.

(** Sorting rows without ties. *)
Lemma order_unique {A} (leb : A -> A -> bool) (rows want : list A) :
  (forall a b, leb a b = true \/ leb b a = true) -> (forall a b c, leb a b = true -> leb b c = true -> leb a c = true) ->
  StronglySorted (fun a b => leb a b = true /\ leb b a = false) want -> Permutation rows want -> gosort leb rows = want.
Proof.
  intros Htot Htr Hs Hp. apply (StronglySorted_unique_strong (fun a b => leb a b = true)).
  - intros x1 x2 H1 H2 H12 H21. rewrite <- gosort_perm, Hp in H1. clear -Hs H1 H2 H12 H21.
    induction Hs as [|a l _ IH Hall]; [by apply elem_of_nil in H1|]. rewrite Forall_forall in Hall.
    apply elem_of_cons in H1 as [->|H1]; apply elem_of_cons in H2 as [->|H2]; [done|apply Hall in H2 as [? ?]; congruence|apply Hall in H1 as [? ?]; congruence|by apply IH].
  - by apply gosort_sorted.
  - clear -Hs. induction Hs as [|a l _ IH Hall]; constructor; [done|]. eapply Forall_impl; [exact Hall|]. by intros y [? _].
  - by rewrite <- gosort_perm.
Qed.

(** The order of the query. *)
Lemma sort_back room all p rows : ascends all -> Permutation rows (map (rowOf room) all) ->
  gosort back_leb (List.filter (fun r => rowId r <=? p) rows) = map (rowOf room) (back all p).
Proof.
  intros Ha Hp. apply order_unique; unfold back_leb.
  - intros a b. destruct (Z.leb_spec (rowId b) (rowId a)); [by left|right]. apply Z.leb_le. lia.
  - intros a b c Hab%Z.leb_le Hbc%Z.leb_le. apply Z.leb_le. lia.
  - pose proof (back_descending all p Ha) as Hd. induction Hd as [|a l _ IH Hall]; [constructor|]. cbn. constructor; [done|].
    apply Forall_fmap. eapply Forall_impl; [exact Hall|]. cbn. intros y Hy. split; [apply Z.leb_le|apply Z.leb_gt]; lia.
  - rewrite (perm_filter _ _ _ Hp), filter_map_comm. unfold back, below. cbn.
    change (map (rowOf room)) with (fmap (M := list) (rowOf room)). by rewrite reverse_Permutation.
Qed.

(** The events from [p] on. *)
Definition forth (all : list StreamEvent) (p : Z) : list StreamEvent := List.filter (fun s => p <=? seOffset s) all.

Lemma sort_forth room all p rows : ascends all -> Permutation rows (map (rowOf room) all) ->
  gosort forward_leb (List.filter (fun r => p <=? rowId r) rows) = map (rowOf room) (forth all p).
Proof.
  intros Ha Hp. apply order_unique; unfold forward_leb.
  - intros a b. destruct (Z.leb_spec (rowId a) (rowId b)); [by left|right]. apply Z.leb_le. lia.
  - intros a b c Hab%Z.leb_le Hbc%Z.leb_le. apply Z.leb_le. lia.
  - pose proof (ascends_filter (fun s => p <=? seOffset s) all Ha) as Hd. unfold forth. induction Hd as [|a l _ IH Hall]; [constructor|]. cbn. constructor; [done|].
    apply Forall_fmap. eapply Forall_impl; [exact Hall|]. cbn. intros y Hy. split; [apply Z.leb_le|apply Z.leb_gt]; lia.
  - by rewrite (perm_filter _ _ _ Hp), filter_map_comm.
Qed.

Lemma select_back {D} `{EventsTable D} (d : D) room all p n : HasTable d room all -> ascends all -> 0 <= n ->
  let T := take (Z.to_nat n) (back all p) in
  exists t, selectEventsByDir room "b" p n d = (Ok (map foundOf T, match last T with Some x => seOffset x | None => 0 end, t), d).
Proof.
  intros (rows & E & Hp) Ha Hn. cbv zeta. unfold selectEventsByDir, mbind, ST_bind. rewrite E. cbn [String.eqb Ascii.eqb Bool.eqb].
  rewrite (proj2 (Z.ltb_ge n 0)) by lia. rewrite (sort_back room all p _ Ha Hp), firstn_map.
  destruct (scanRows_rows room (firstn (Z.to_nat n) (back all p)) 0 0) as [t ->]. by exists t.
Qed.

Lemma select_forth {D} `{EventsTable D} (d : D) room all p n : HasTable d room all -> ascends all -> 0 <= n ->
  let T := take (Z.to_nat n) (forth all p) in
  exists t, selectEventsByDir room "f" p n d = (Ok (map foundOf T, match last T with Some x => seOffset x | None => 0 end, t), d).
Proof.
  intros (rows & E & Hp) Ha Hn. cbv zeta. unfold selectEventsByDir, mbind, ST_bind. rewrite E. cbn [String.eqb Ascii.eqb Bool.eqb].
  rewrite (proj2 (Z.ltb_ge n 0)) by lia. rewrite (sort_forth room all p _ Ha Hp), firstn_map.
  destruct (scanRows_rows room (firstn (Z.to_nat n) (forth all p)) 0 0) as [t ->]. by exists t.
Qed.

(** ** A page *)

Lemma reverse_feeds_low {F} `{Feed F} (tl : TimeLines F) (l : list F) : Rep tl l ->
  exists a b d, GetAllFeedsReverse tl = Ok (map Some (reverse l), a, b, lower tl, d).
Proof.
  intros R. destruct (GetRange_rep tl l R) as (E & En & El). unfold GetAllFeedsReverse. rewrite E, El, En.
  destruct (Nat.eqb_spec (length l) 0) as [Hz|Hz]; [destruct l; [|done]; by eexists _, _, _|].
  rewrite (collect_reverse_rep tl l (length l) R) by done. cbn. rewrite firstn_all. by eexists _, _, _.
Qed.


Section Pages.
  Context `{ContentJson} `{GoRange} {D : Type} `{HistoryDb D} `{StateDb D} `{ReceiptConsumer.ReceiptJson} `{EventsTable D} `{FilterJson}.
  Context (visibilityTime nowTs : Z) (room user : string) (rs0 : RoomState) (l : list StreamEvent) (sl : list StateStream) (minStream : Z).
  Implicit Types (s : SyncServer D) (all : list StreamEvent).

#[local] Abbreviation shown := (SyncBuildFacts.shown visibilityTime nowTs user rs0).

(** The room is in memory, with the room state [rs0] up to arranging. *)
Definition Ready s (d : D) (r : RoomState) : Prop :=
  WarmRoom s room user l sl minStream r /\ SyncBuildFacts.sameRs user rs0 r /\ persist (roomHistory s) = d.

(** What the user has still to see at the position [p], newest first. *)
Definition left all (p : Z) : list StreamEvent := List.filter shown (back all p).

Lemma onTable {A} (m : ST D A) s (d : D) r x : Ready s d r -> m d = (Ok x, d) -> onRoomHistory (onDb m) s = (Ok x, s).
Proof using.
  intros (_ & _ & Hd) E. unfold onRoomHistory, onDb. rewrite Hd, E. destruct s as [h c n]. cbn in Hd |- *. f_equal. f_equal. rewrite <- Hd. by destruct h.
Qed.

Lemma putRoomState_ready s d r r' : Ready s d r -> SyncBuildFacts.sameRs user rs0 r' -> exists s', putRoomState room r' s = (Ok (), s') /\ Ready s' d r'.
Proof using.
  intros (Hw & _ & Hd) Hr. destruct (putRoomState_warm s room user l sl minStream r r' Hw) as (s' & E & Hw'). exists s'. split; [done|]. split_and!; try done.
  unfold putRoomState, onStates, onReceipts in E. injection E as <-. done.
Qed.

Lemma selectFromDB_spec s d r all p n : Ready s d r -> HasTable d room all -> ascends all -> Forall (fun x => 2 < seOffset x) all -> 0 < n ->
  exists A B e t s' r', selectFromDB visibilityTime nowTs r user room "b" p 0 n s = (Ok (map seEv (List.filter shown A), e, t), s') /\
    back all p = (A ++ B)%list /\ (A = [] -> B = [] /\ e = 0) /\ (forall x, last A = Some x -> e = seOffset x) /\
    Z.of_nat (length (List.filter shown A)) <= n /\ Ready s' d r'.
Proof using.
  intros Hready Htab Ha Htwo Hn. destruct (select_back d room all p (n * 2) Htab Ha ltac:(lia)) as [t0 Esel]. cbv zeta in Esel.
  set (T := take (Z.to_nat (n * 2)) (back all p)) in *. unfold selectFromDB, mbind, ST_bind. rewrite (proj2 (Z.ltb_lt 0 n) Hn), (onTable _ s d r _ Hready Esel). cbn [fst snd].
  destruct (dbLoop_spec visibilityTime nowTs user rs0 p T (mkDbScan [] (match last T with Some x => seOffset x | None => 0 end) t0 n r)) as (A & B & st & -> & ET & Hs & Eout & Elen & Hend);
    [apply Hready|done| |].
  { apply Forall_take. rewrite Forall_forall. intros x [Hin Hx]%back_in. rewrite Forall_forall in Htwo. specialize (Htwo x Hin). unfold offsetOk.
    cbn [String.eqb Ascii.eqb Bool.eqb andb]. by rewrite (proj2 (Z.leb_le 0 p)), (proj2 (Z.leb_le _ _) Hx) by lia. }
  destruct (putRoomState_ready s d r (dRs st) Hready Hs) as (s' & E & Hr'). rewrite E. cbn [dOut dLimit app] in *.
  exists A, (B ++ drop (Z.to_nat (n * 2)) (back all p))%list, (dEndPos st), (dEndTs st), s', (dRs st). split_and!; try done.
  - by rewrite Eout.
  - rewrite <- (take_drop (Z.to_nat (n * 2)) (back all p)) at 1. fold T. by rewrite ET, <- app_assoc.
  - intros ->. destruct Hend as [(EA & _ & Ee)|(A' & x & EA & _)]; [|by destruct A']. subst T. rewrite <- EA in Ee. cbn in ET. cbn [dEndPos] in Ee.
    assert (Hnil : back all p = []).
    { destruct (back all p) as [|y ys]; [done|]. destruct (Z.to_nat (n * 2)) eqn:E2; [lia|]. done. }
    rewrite Hnil, take_nil in ET. rewrite Hnil, drop_nil, app_nil_r. by split.
  - intros x Hx. destruct Hend as [(EA & _ & Ee)|(A' & y & -> & Ee)]; [cbn [dEndPos] in Ee; rewrite <- EA, Hx in Ee; done|].
    rewrite last_snoc in Hx. by injection Hx as <-.
Qed.

(** What is left after a page that ended with the database. *)
Lemma db_rest all p A B e : ascends all -> Forall (fun x => 2 < seOffset x) all -> -1 <= p -> back all p = (A ++ B)%list ->
  (A = [] -> B = [] /\ e = 0) -> (forall x, last A = Some x -> e = seOffset x) ->
  left all p = (List.filter shown A ++ left all (e - 1))%list /\ -1 <= e - 1 <= p /\
  (back all p = [] /\ e = 0 \/ (length (back all (e - 1)) < length (back all p))%nat /\ 2 < e).
Proof using.
  intros Ha Htwo Hp Eb Hnil Hlast. unfold left. assert (Hnone : back all (-1) = []).
  { destruct (back all (-1)) as [|y ys] eqn:E; [done|]. assert (Hy : y ∈ back all (-1)) by (rewrite E; by left). apply back_in in Hy as [Hy Hle].
    rewrite Forall_forall in Htwo. specialize (Htwo y Hy). lia. }
  destruct (last A) as [x|] eqn:El.
  - rewrite (Hlast x eq_refl). apply last_Some in El as [A' ->]. pose proof (back_cut all p A' x B Ha Eb) as EB.
    assert (Hx : x ∈ back all p) by (rewrite Eb; set_solver). apply back_in in Hx as [Hx Hle]. rewrite Forall_forall in Htwo. specialize (Htwo x Hx).
    rewrite <- EB. split_and!; try lia; [by rewrite Eb, List.filter_app|]. right. rewrite Eb, !length_app. cbn. lia.
  - apply last_None in El as ->. destruct (Hnil eq_refl) as [-> ->]. rewrite Eb. change (0 - 1) with (-1). rewrite Hnone. split_and!; try lia; [done|by left].
Qed.

(** The part in memory is the front of what is left. *)
Lemma back_front older p : ascends (older ++ l) -> exists rest, back (older ++ l) p = (List.filter (inPage p minStream) (reverse l) ++ rest)%list.
Proof using.
  intros Ha. unfold back, below. rewrite List.filter_app, reverse_app. apply ascends_suffix in Ha as Hl.
  assert (Hsplit : forall d, descending d -> exists r, List.filter (fun y => seOffset y <=? p) d = (List.filter (inPage p minStream) d ++ r)%list).
  { intros d. induction 1 as [|a d Hd IH Hall]; [by exists []|]. destruct IH as [r IH]. cbn. unfold inPage at 1, checkOffset. cbn [String.eqb Ascii.eqb Bool.eqb].
    destruct (Z.leb_spec (seOffset a) p); cbn [andb]; [|by exists r]. destruct (Z.leb_spec minStream (seOffset a)); [by exists r; cbn; rewrite IH|].
    exists (a :: List.filter (fun y => seOffset y <=? p) d). rewrite (filter_all_false (inPage p minStream) d); [done|]. eapply Forall_impl; [exact Hall|]. cbn. intros y Hy.
    unfold inPage, checkOffset. rewrite (proj2 (Z.leb_gt minStream (seOffset y))) by lia. apply andb_false_r. }
  destruct (Hsplit (reverse l) (ascends_reverse l Hl)) as [r E]. rewrite <- (filter_reverse _ l), E, <- app_assoc. by eexists.
Qed.

(** A page of a limit [n] at [p] delivers [out] and ends at [e]. *)
Definition PageOk all (p n : Z) (out : list ClientEvent) (e : Z) : Prop :=
  exists chunk, out = map seEv chunk /\ left all p = (chunk ++ left all e)%list /\ Z.of_nat (length chunk) <= n /\ -1 <= e <= p /\
    (back all p = [] \/ (length (back all e) < length (back all p))%nat).

Lemma cshown_shown l' : Forall (fun y => minStream < seOffset y) l' -> List.filter (cshown visibilityTime nowTs user rs0 minStream) l' = List.filter shown l'.
Proof using.
  intros Hf. apply List.filter_ext_in. intros y Hy%list_elem_of_In. rewrite Forall_forall in Hf. unfold cshown.
  by rewrite (proj2 (Z.ltb_lt _ _) (Hf y Hy)), andb_true_r.
Qed.

Lemma ascends_ids older : NoDup (map (fun y => ceEventID (seEv y)) (older ++ l)) -> NoDup (map (fun y => ceEventID (seEv y)) (reverse l)).
Proof using. rewrite map_app. intros (_ & _ & Hn)%NoDup_app. by rewrite (reverse_Permutation l). Qed.

(** Where the database goes on after everything in memory was used. *)
Lemma cache_rest older p low A rest : ascends (older ++ l) -> Forall (fun x => 2 < seOffset x) (older ++ l) ->
  (exists y, y ∈ l /\ seOffset y = low) -> (forall y, y ∈ l -> low <= seOffset y) -> 0 <= p -> low <= p -> minStream < p ->
  A = List.filter (inPage p minStream) (reverse l) -> back (older ++ l) p = (A ++ rest)%list ->
  let e := match last A with Some x => endOf minStream x | None => 0 end in
  let q := if e =? 0 then p else e in
  0 <= q <= p /\ left (older ++ l) p = (List.filter (cshown visibilityTime nowTs user rs0 minStream) A ++ left (older ++ l) q)%list /\
  (length (back (older ++ l) q) <= length (back (older ++ l) p))%nat /\
  (back (older ++ l) q = [] -> Z.max (low - 1) minStream <= q /\ back (older ++ l) p <> []).
Proof using.
  intros Ha Htwo (y0 & Hy0 & Elow) Hlb Hp Hlow Hmin EC Eb e q. set (all := (older ++ l)%list) in *.
  set (out1 := List.filter (cshown visibilityTime nowTs user rs0 minStream) A) in *. symmetry in EC.
  assert (Hall : forall y, y ∈ l -> y ∈ all) by (intros y Hy; apply elem_of_app; by right).
  destruct (last A) as [x|] eqn:Elast.
  - apply last_Some in Elast as [A' ->]. rewrite <- app_assoc in Eb. cbn [app] in Eb. pose proof (back_descending all p Ha) as Hd. rewrite Eb in Hd.
    assert (Hxin : x ∈ back all p) by (rewrite Eb; set_solver). apply back_in in Hxin as [Hxin Hxle]. rewrite Forall_forall in Htwo. pose proof (Htwo x Hxin).
    assert (HxC : x ∈ List.filter (inPage p minStream) (reverse l)) by (rewrite EC; set_solver). apply list_elem_of_In, filter_In in HxC as [HxC Hxp].
    apply list_elem_of_In in HxC. rewrite elem_of_reverse in HxC. unfold inPage, checkOffset in Hxp. apply andb_true_iff in Hxp as [_ Hxm%Z.leb_le].
    assert (Hbef : Forall (fun y => minStream < seOffset y) A') by (eapply Forall_impl; [exact (descending_before _ _ _ Hd)|]; cbn; lia).
    unfold q, e, endOf. destruct (Z.eqb_spec (seOffset x) minStream) as [Ex|Ex].
    + rewrite (proj2 (Z.eqb_neq (seOffset x) 0)) by lia. pose proof (back_from all p A' x rest Ha Eb) as Efrom.
      assert (Eout1 : out1 = List.filter shown A').
      { unfold out1. rewrite List.filter_app, cshown_shown by done. cbn [List.filter]. unfold cshown. rewrite Ex, Z.ltb_irrefl, andb_false_r. by rewrite app_nil_r. }
      rewrite Efrom, Eout1. split_and!; try lia; [unfold left; by rewrite Efrom, Eb, List.filter_app|rewrite Eb, length_app; cbn; lia|done].
    + rewrite (proj2 (Z.eqb_neq (seOffset x - 1) 0)) by lia. assert (Ecut : rest = back all (seOffset x - 1)) by (apply (back_cut all p A'); [done|by rewrite Eb, <- app_assoc]).
      assert (Eout1 : out1 = List.filter shown (A' ++ [x])) by (apply cshown_shown, Forall_app; split; [done|constructor; [lia|done]]).
      rewrite Eout1, <- Ecut. split_and!; try lia.
      * unfold left. rewrite Eb, <- Ecut, !List.filter_app. cbn [List.filter]. by destruct (shown x); rewrite <- app_assoc.
      * rewrite Eb, length_app. cbn. lia.
      * intros _. specialize (Hlb x HxC). rewrite Eb. split; [lia|by destruct A'].
  - apply last_None in Elast as ->. unfold q, e. change (0 =? 0) with true. cbv iota. split_and!; try lia; [done|].
    intros Hnil. exfalso. assert (Hy : y0 ∈ back all p) by (apply back_in; split; [by apply Hall|lia]). rewrite Hnil in Hy. by apply elem_of_nil in Hy.
Qed.

Lemma fromCache_spec s d r older tl p pts n : Ready s d r -> HasTable d room (older ++ l) -> ascends (older ++ l) -> Forall (fun x => 2 < seOffset x) (older ++ l) ->
  NoDup (map (fun y => ceEventID (seEv y)) (older ++ l)) -> Inv tl l -> l <> [] -> 0 < n -> 0 <= p -> lower tl <= p -> minStream < p ->
  exists out e t s' r', fromCache visibilityTime nowTs r tl user room "b" p pts 0 n minStream s = (Ok (out, e, t), s') /\ Ready s' d r' /\
    PageOk (older ++ l) p n out e.
Proof using.
  intros Hready Htab Ha Htwo Hnd [Hrep Hbnd _] Hne Hn Hp Hlow Hmin. set (all := (older ++ l)%list) in *.
  assert (Hlb : (exists y, y ∈ l /\ seOffset y = lower tl) /\ forall y, y ∈ l -> lower tl <= seOffset y).
  { unfold Bounds in Hbnd. destruct l as [|x0 l0]; [done|]. destruct Hbnd as (Hlow' & _ & Hall). split; [exact Hlow'|]. intros y Hy.
    rewrite Forall_forall in Hall. apply Hall in Hy as (_ & Hy & _). exact Hy. }
  destruct Hlb as [(y0 & Hy0 & Elow) Hlb]. assert (Hall : forall y, y ∈ l -> y ∈ all) by (intros y Hy; apply elem_of_app; by right).
  destruct (reverse_feeds_low tl l Hrep) as (a & b & c & Ef). unfold fromCache. cbn [String.eqb Ascii.eqb Bool.eqb]. unfold mbind, ST_bind. rewrite Ef. cbn [liftR fst snd].
  destruct (cacheLoop_spec visibilityTime nowTs user rs0 p pts minStream (reverse l) (mkCacheScan [] ∅ n 0 0 false r)) as (A & B & st & -> & EC & Hs & Eo & El & Ee & Hend);
    [apply Hready|done|by eapply ascends_ids|done|]. cbn [liftR cOut cLimit app foundAll cEndPos] in *.
  destruct (putRoomState_ready s d r (cRs st) Hready Hs) as (s1 & E1 & Hr1). rewrite E1. destruct (back_front older p Ha) as [rest Eb]. fold all in Eb. rewrite EC in Eb.
  destruct Hend as [(F1 & F2 & A' & x & -> & Hx)|(F1 & -> & F3)].
  - (* the limit was reached in memory *)
    rewrite F1, F2. cbn [negb orb]. change (0 <? 0) with false. cbn [orb]. unfold mret, ST_ret. cbn [fst snd]. rewrite last_snoc in Ee. unfold cshown in Hx. apply andb_true_iff in Hx as [_ Hx%Z.ltb_lt].
    assert (Eend : cEndPos st = seOffset x - 1) by (rewrite Ee; unfold endOf; destruct (Z.eqb_spec (seOffset x) minStream); [lia|done]).
    rewrite <- app_assoc in Eb. pose proof (back_cut all p A' x (B ++ rest) Ha Eb) as Erest. assert (Hxin : x ∈ back all p) by (rewrite Eb; set_solver).
    apply back_in in Hxin as [Hxin Hxle]. rewrite Forall_forall in Htwo. pose proof (Htwo x Hxin).
    rewrite Eend. rewrite (proj2 (Z.eqb_neq (seOffset x - 1) 0)), (proj2 (Z.eqb_neq (seOffset x - 1) 1)), (proj2 (Z.eqb_neq (seOffset x - 1) (-1))) by lia. cbn [orb].
    eexists _, _, _, s1, (cRs st). split; [done|]. split; [done|]. pose proof (back_descending all p Ha) as Hd. rewrite Eb, <- app_assoc in Hd. cbn in Hd.
    assert (Efl : List.filter (cshown visibilityTime nowTs user rs0 minStream) (A' ++ [x]) = List.filter shown (A' ++ [x])).
    { apply cshown_shown. apply Forall_app. split; [|by constructor]. eapply Forall_impl; [exact (descending_before _ _ _ Hd)|]. cbn. lia. }
    rewrite Efl in Eo, El. exists (List.filter shown (A' ++ [x])). split_and!; [done| |lia|lia|lia|].
    + unfold left. rewrite Eb, <- Erest. apply List.filter_app.
    + right. rewrite Eb, <- Erest, !length_app. cbn. lia.
  - (* the database goes on *)
    rewrite (proj2 (Z.ltb_lt _ _) F3). cbn [orb]. set (q := if cEndPos st =? 0 then p else cEndPos st). set (out1 := List.filter (cshown visibilityTime nowTs user rs0 minStream) A) in *.
    assert (Hq := cache_rest older p (lower tl) A rest Ha Htwo (ex_intro _ y0 (conj Hy0 Elow)) Hlb Hp Hlow Hmin ltac:(by rewrite EC, app_nil_r) ltac:(by rewrite app_nil_r in Eb)).
    cbv zeta in Hq. rewrite <- Ee in Hq. fold all q out1 in Hq.
    destruct Hq as (Hq & Eleft & Hlen & Hnil). destruct (selectFromDB_spec s1 d (cRs st) all q (cLimit st) Hr1 Htab Ha Htwo F3) as (A2 & B2 & e2 & t2 & s2 & r2 & E2 & Eb2 & Hnil2 & Hlast2 & Hlen2 & Hr2).
    rewrite E2. unfold mret, ST_ret. cbn [fst snd]. unfold stepEnd. cbn [String.eqb Ascii.eqb Bool.eqb].
    destruct (db_rest all q A2 B2 e2 Ha Htwo ltac:(lia) Eb2 Hnil2 Hlast2) as (Eleft2 & He2 & [[Hback ->]|[Hshort Hgt]]).
    + change (0 - 1) with (-1) in *. cbn [orb]. change (-1 =? 0) with false. change (-1 =? 1) with false. change (-1 =? -1) with true. cbn [orb].
      destruct (Hnil Hback) as [Hmax Hne2]. eexists _, _, _, s2, r2. split; [done|]. split; [done|].
      assert (Hback2 : back all (Z.max (lower tl - 1) minStream) = []) by (rewrite <- (back_back all q) by done; by rewrite Hback).
      assert (HA2 : A2 = []) by (rewrite Hback in Eb2; symmetry in Eb2; by apply app_eq_nil in Eb2 as [? _]). subst A2.
      exists out1. split_and!.
      * by rewrite Eo, app_nil_r.
      * rewrite Eleft. unfold left. by rewrite Hback2, Hback.
      * lia.
      * specialize (Hlb y0 Hy0). pose proof (Hall y0 Hy0) as Hy1. rewrite Forall_forall in Htwo. specialize (Htwo y0 Hy1). lia.
      * lia.
      * right. rewrite Hback2. destruct (back all p); [done|cbn; lia].
    + rewrite (proj2 (Z.eqb_neq (e2 - 1) 0)), (proj2 (Z.eqb_neq (e2 - 1) 1)), (proj2 (Z.eqb_neq (e2 - 1) (-1))) by lia. cbn [orb].
      eexists _, _, _, s2, r2. split; [done|]. split; [done|]. exists (out1 ++ List.filter shown A2)%list. split_and!.
      * by rewrite Eo, map_app.
      * by rewrite Eleft, Eleft2, <- app_assoc.
      * rewrite length_app. lia.
      * lia.
      * lia.
      * right. lia.
Qed.

Lemma page_spec s d r older tl p pts n : Ready s d r -> HasTable d room (older ++ l) -> ascends (older ++ l) -> Forall (fun x => 2 < seOffset x) (older ++ l) ->
  NoDup (map (fun y => ceEventID (seEv y)) (older ++ l)) -> Inv tl l -> l <> [] -> 0 < n -> -1 <= p ->
  (forall c, GetState r "m.room.create" "" = Some c -> 0 < p -> seOffset c < p) ->
  exists out e t s' r', page visibilityTime nowTs r tl user room "b" p pts 0 n minStream s = (Ok (out, e, t), s') /\ Ready s' d r' /\
    PageOk (older ++ l) p n out e.
Proof using.
  intros Hready Htab Ha Htwo Hnd Hinv Hne Hn Hp Hcreate. unfold page, GetFeedRange. cbn [String.eqb Ascii.eqb Bool.eqb]. rewrite andb_false_r.
  assert (Hc : match GetState r "m.room.create" "" with Some c => (0 <? p) && (p <=? seOffset c) && true | None => false end = false).
  { destruct (GetState r "m.room.create" "") as [c|]; [|done]. specialize (Hcreate c eq_refl). destruct (Z.ltb_spec 0 p); [|done]. by rewrite (proj2 (Z.leb_gt p (seOffset c))) by lia. }
  rewrite Hc. destruct ((p <? lower tl) || (p <=? minStream)) eqn:Edb.
  - destruct (selectFromDB_spec s d r (older ++ l) p n Hready Htab Ha Htwo Hn) as (A & B & e & t & s' & r' & E & Eb & Hnil & Hlast & Hlen & Hr').
    destruct (db_rest _ p A B e Ha Htwo Hp Eb Hnil Hlast) as (Eleft & He & Hback). unfold mbind, ST_bind. rewrite E. unfold mret, ST_ret, stepEnd.
    cbn [String.eqb Ascii.eqb Bool.eqb fst snd]. eexists _, _, _, s', r'. split; [done|]. split; [done|]. exists (List.filter shown A). split_and!; try done; try lia.
    destruct Hback as [[Hback _]|[Hback _]]; [by left|by right].
  - apply orb_false_iff in Edb as [E1%Z.ltb_ge E2%Z.leb_gt]. apply fromCache_spec; try done.
    pose proof (inv_bounds _ _ Hinv) as Hb. unfold Bounds in Hb. destruct l as [|y0 l0]; [done|]. destruct Hb as ((y & Hy & Ey) & _ & _).
    rewrite Forall_forall in Htwo. assert (Hin : y ∈ (older ++ y0 :: l0)%list) by (apply elem_of_app; by right). specialize (Htwo y Hin).
    change (GetOffset y) with (seOffset y) in Ey. lia.
Qed.

(** ** The request *)

Lemma quiet_ready {A} (m : ST (SyncServer D) A) (a : A) s d r : quiet m a room user l sl minStream r -> Ready s d r ->
  exists s', m s = (Ok a, s') /\ Ready s' d r.
Proof using.
  intros Hq (Hw & Hs & Hd). destruct (Hq s Hw) as (s' & E & T). exists s'. split; [done|]. split_and!; [by eapply warm_touched|done|].
  destruct T as (rh & rst & rsm & -> & _). done.
Qed.

Lemma getHistory_ready s d r : Ready s d r -> exists tl s', onRoomHistory (GetHistory room) s = (Ok (Some tl), s') /\ Ready s' d r /\ Inv tl l.
Proof using.
  intros (Hw & Hs & Hd). destruct (getHistory_quiet s room user l sl minStream r Hw) as (tl & s' & E & T & Hi). exists tl, s'. split; [done|]. split; [|done].
  split_and!; [by eapply warm_touched|done|]. destruct T as (rh & rst & rsm & -> & _). done.
Qed.

Lemma getStreams_ready s d r : Ready s d r -> exists tl s', onStates (GetStateStreams room) s = (Ok (Some tl), s') /\ Ready s' d r /\ exists k, Inv tl k.
Proof using.
  intros (Hw & Hs & Hd). destruct (streams_quiet room user l sl minStream r s Hw) as (s1 & E1 & T1). pose proof (warm_touched _ _ _ _ _ _ _ _ Hw T1) as Hw1.
  destruct (w_mget _ _ _ _ _ _ _ Hw1) as [tl Hg]. destruct (getTimeLine_map (streamRepo (states s1)) room (w_mrepo _ _ _ _ _ _ _ Hw1)) as (r' & E & Hl).
  destruct (repo_lines _ (w_mrepo _ _ _ _ _ _ _ Hw1) room tl Hg) as [_ Hk]. exists tl. eexists. split; [|split; [|exact Hk]].
  - unfold GetStateStreams. rewrite onStates_bind. unfold mbind, ST_bind. rewrite E1. unfold onStates, onReceipts, streamTimeLine. fold (states s1). rewrite E, Hg. done.
  - pose proof (touch_states s1 _ _ _ _ _ _ (stateRepo (states s1)) r' Hw1 (like_refl _ (w_srepo _ _ _ _ _ _ _ Hw1)) Hl) as T.
    assert (Hst : set_streamRepo (states s1) r' = set_streamRepo (set_stateRepo (states s1) (stateRepo (states s1))) r') by (by destruct (states s1)).
    rewrite Hst. split_and!; [by eapply warm_touched|done|]. cbn. destruct T1 as (rh & rst & rsm & -> & _). done.
Qed.

Lemma getLast_ready s d r : Ready s d r -> exists s', onRoomHistory (GetLastEvent room) s = (Ok (last l), s') /\ Ready s' d r.
Proof using.
  intros Hr. destruct (getHistory_ready s d r Hr) as (tl & s' & E & Hr' & Hi). exists s'. split; [|done]. unfold GetLastEvent. rewrite onRoomHistory_bind.
  unfold mbind, ST_bind. rewrite E. unfold onRoomHistory, liftR. rewrite (isLast_abs tl l (inv_rep _ _ Hi)). by destruct s'.
Qed.

Context (cfg : Config) (lim : string).

Definition request (from : string) : MessagesRequest := mkMessages room from "" "b" "" lim.

(** The limit of the request, at least 50. *)
Definition pageSize : Z := limitOf (request "") emptyFilter 0.

Lemma pageSize_pos : 0 < pageSize.
Proof using. unfold pageSize, limitOf. cbn. destruct (Z.ltb_spec (Atoi lim).1 50); cbn; lia. Qed.

Definition mayRead : Prop := is_Some (join rs0 !! user) \/ is_Some (leave rs0 !! user).

(** The request up to its page. *)
Lemma request_start s d r p t : IsRelatedRequest room (Instance_ cfg) (Total cfg) (MultiWrite cfg) = Ok true -> mayRead ->
  Ready s d r -> -1 <= p <= maxInt64 ->
  exists tl t1 s4, ProcessMessages visibilityTime nowTs cfg (request (BuildPreBatch p t)) user s =
      orError (x ← page visibilityTime nowTs r tl user room "b" p t1 0 pageSize minStream;
        mret (MessageEventResp (BuildPreBatch p t1) (BuildPreBatch x.1.2 x.2) (if UseMessageFilter cfg then FilterEventTypes x.1.1 [] [] else x.1.1))) s4 /\
    Ready s4 d r /\ Inv tl l.
Proof using.
  intros Hrel Hmay Hready Hp. unfold ProcessMessages. cbn [mqRoomID mqFrom mqTo mqDir mqFilter request].
  unfold mbind at 1 2 3 4 5 6 7 8, ST_bind at 1 2 3 4 5 6 7 8. rewrite Hrel. cbn [liftR negb]. destruct (getStreams_ready s d r Hready) as (stl & s1 & E1 & Hr1 & _). rewrite E1. cbn [getServer].
  assert (Hrs1 : roomStateOf s1 room = Some r) by (destruct Hr1 as (Hw & _); exact (w_rs _ _ _ _ _ _ _ Hw)). rewrite Hrs1.
  assert (Hmem : join r = join rs0 /\ leave r = leave rs0) by (destruct Hready as (_ & [-> | ->] & _); [done|unfold arranged; by case_decide]).
  destruct Hmem as (Ej & El). rewrite Ej, El.
  assert (Hguard : negb (bool_decide (is_Some (join rs0 !! user))) && negb (bool_decide (is_Some (leave rs0 !! user))) = false)
    by (destruct Hmay as [Hj|Hl]; [rewrite (bool_decide_eq_true_2 _ Hj)|rewrite (bool_decide_eq_true_2 _ Hl), andb_false_r]; done).
  rewrite Hguard. destruct (quiet_ready _ _ s1 d r (minStream_quiet room user l sl minStream r) Hr1) as (s2 & E2 & Hr2). rewrite E2.
  destruct (getLast_ready s2 d r Hr2) as (s3 & E3 & Hr3). rewrite E3. set (start := match last l with Some y => _ | None => _ end).
  assert (Hemp : String.eqb (BuildPreBatch p t) "" || String.eqb (BuildPreBatch p t) "-1" = false) by done. rewrite Hemp.
  destruct (token_position p t start ltac:(unfold minInt64; lia)) as [t1 Etok]. rewrite Etok. cbn [String.eqb liftR fst snd].
  destruct (getHistory_ready s3 d r Hr3) as (tl & s4 & E4 & Hr4 & Hi). rewrite E4. by exists tl, t1, s4.
Qed.

Lemma request_spec s d r older p t : IsRelatedRequest room (Instance_ cfg) (Total cfg) (MultiWrite cfg) = Ok true -> mayRead ->
  Ready s d r -> HasTable d room (older ++ l) -> ascends (older ++ l) -> Forall (fun x => 2 < seOffset x) (older ++ l) ->
  NoDup (map (fun y => ceEventID (seEv y)) (older ++ l)) -> l <> [] -> -1 <= p <= maxInt64 ->
  (forall c, GetState rs0 "m.room.create" "" = Some c -> 0 < p -> seOffset c < p) ->
  exists out e t1 t2 s' r', ProcessMessages visibilityTime nowTs cfg (request (BuildPreBatch p t)) user s =
      (Ok (MessageEventResp (BuildPreBatch p t1) (BuildPreBatch e t2) out), s') /\ Ready s' d r' /\ PageOk (older ++ l) p pageSize out e.
Proof using.
  intros Hrel Hmay Hready Htab Ha Htwo Hnd Hne Hp Hcreate. destruct (request_start s d r p t Hrel Hmay Hready Hp) as (tl & t1 & s4 & E & Hr4 & Hi). rewrite E.
  destruct (page_spec s4 d r older tl p t1 pageSize Hr4 Htab Ha Htwo Hnd Hi Hne pageSize_pos ltac:(lia)) as (out & e & t2 & s' & r' & E' & Hr' & Hok).
  { intros c Hget. apply Hcreate. rewrite <- Hget. symmetry. destruct Hready as (_ & Hs & _). by apply (GetState_same user). }
  unfold orError, mbind, ST_bind. rewrite E'. unfold mret, ST_ret. cbn [fst snd]. exists out, e, t1, t2, s', r'. split; [|done]. f_equal. f_equal. f_equal.
  destruct (UseMessageFilter cfg); [|done]. by apply filter_true, Forall_true.
Qed.

(** A client that follows the tokens for [n] pages. *)
Fixpoint crawl (n : nat) (from : string) : ST (SyncServer D) (list ClientEvent) :=
  match n with
  | O => mret []
  | S n' =>
      r ← ProcessMessages visibilityTime nowTs cfg (request from) user;
      match r with
      | MessageEventResp _ end_ chunk => rest ← crawl n' end_; mret (chunk ++ rest)%list
      | Status _ => mret []
      end
  end.

(** What a client can miss: nothing that is newer than the create event. *)
Definition notAfterCreate (missed : list StreamEvent) : Prop :=
  Forall (fun x => exists c, GetState rs0 "m.room.create" "" = Some c /\ seOffset x <= seOffset c) missed.

Lemma at_start_spec s d r p t c : IsRelatedRequest room (Instance_ cfg) (Total cfg) (MultiWrite cfg) = Ok true -> mayRead ->
  Ready s d r -> 0 < p <= maxInt64 -> GetState rs0 "m.room.create" "" = Some c -> p <= seOffset c ->
  exists t1 t2 s', ProcessMessages visibilityTime nowTs cfg (request (BuildPreBatch p t)) user s =
      (Ok (MessageEventResp (BuildPreBatch p t1) (BuildPreBatch p t2) []), s') /\ Ready s' d r.
Proof using.
  intros Hrel Hmay Hready Hp Hcreate Hle. destruct (request_start s d r p t Hrel Hmay Hready ltac:(lia)) as (tl & t1 & s4 & E & Hr4 & _).
  rewrite E. unfold page, GetFeedRange. cbn [String.eqb Ascii.eqb Bool.eqb]. rewrite andb_false_r.
  assert (Ec : GetState r "m.room.create" "" = Some c) by (rewrite <- Hcreate; destruct Hready as (_ & Hs & _); by apply (GetState_same user)).
  rewrite Ec, (proj2 (Z.ltb_lt 0 p)), (proj2 (Z.leb_le _ _) Hle) by lia. cbn [andb]. unfold orError, mbind, ST_bind, mret, ST_ret. cbn [fst snd].
  eexists _, _, s4. split; [|done]. f_equal. f_equal. f_equal. by destruct (UseMessageFilter cfg).
Qed.

(** Following the tokens. *)
Lemma crawl_spec d older n : IsRelatedRequest room (Instance_ cfg) (Total cfg) (MultiWrite cfg) = Ok true -> mayRead ->
  HasTable d room (older ++ l) -> ascends (older ++ l) -> Forall (fun x => 2 < seOffset x) (older ++ l) ->
  NoDup (map (fun y => ceEventID (seEv y)) (older ++ l)) -> l <> [] ->
  forall p t s r, -1 <= p <= maxInt64 -> Ready s d r ->
  exists got missed s' r', crawl n (BuildPreBatch p t) s = (Ok (map seEv got), s') /\ Ready s' d r' /\ left (older ++ l) p = (got ++ missed)%list /\
    ((length (back (older ++ l) p) <= n)%nat -> notAfterCreate missed).
Proof using.
  intros Hrel Hmay Htab Ha Htwo Hnd Hne. induction n as [|n IH]; intros p t s r Hp Hready.
  { exists [], (left (older ++ l) p), s, r. split_and!; try done. intros Hlen. unfold left. destruct (back (older ++ l) p); [constructor|cbn in Hlen; lia]. }
  assert (Hcase : (exists c, GetState rs0 "m.room.create" "" = Some c /\ 0 < p /\ p <= seOffset c) \/
            forall c, GetState rs0 "m.room.create" "" = Some c -> 0 < p -> seOffset c < p).
  { destruct (GetState rs0 "m.room.create" "") as [c|]; [|by right]. destruct (Z.ltb_spec 0 p); [|right; lia].
    destruct (Z.leb_spec p (seOffset c)); [left; by exists c|right; intros c' [= <-]; lia]. }
  destruct Hcase as [(c & Hc & Hp0 & Hle)|Hno].
  - destruct (at_start_spec s d r p t c Hrel Hmay Hready ltac:(lia) Hc Hle) as (t1 & t2 & s1 & E & Hr1).
    destruct (IH p t2 s1 r Hp Hr1) as (got & missed & s' & r' & E' & Hr' & Eleft & _). exists got, missed, s', r'. split_and!; try done.
    + cbn [crawl]. unfold mbind, ST_bind. rewrite E, E'. done.
    + intros _. unfold notAfterCreate. rewrite Forall_forall. intros x Hx. exists c. split; [done|].
      assert (Hin : x ∈ left (older ++ l) p) by (rewrite Eleft; apply elem_of_app; by right). unfold left in Hin.
      apply list_elem_of_In, filter_In in Hin as [Hin _]. apply list_elem_of_In, back_in in Hin as [_ Hin]. lia.
  - destruct (request_spec s d r older p t Hrel Hmay Hready Htab Ha Htwo Hnd Hne Hp) as (out & e & t1 & t2 & s1 & r1 & E & Hr1 & chunk & -> & Eleft & _ & He & Hshort).
    { exact Hno. }
    destruct (IH e t2 s1 r1 ltac:(lia) Hr1) as (got & missed & s' & r' & E' & Hr' & Eleft' & Hmiss). exists (chunk ++ got)%list, missed, s', r'. split_and!; try done.
    + cbn [crawl]. unfold mbind, ST_bind. rewrite E, E'. by rewrite map_app.
    + by rewrite Eleft, Eleft', <- app_assoc.
    + intros Hlen. destruct Hshort as [Hnil|Hshort]; [|apply Hmiss; lia]. assert (Hz : left (older ++ l) p = []) by (unfold left; by rewrite Hnil).
      rewrite Hz in Eleft. symmetry in Eleft. apply app_eq_nil in Eleft as [_ Eleft]. rewrite Eleft in Eleft'. symmetry in Eleft'.
      apply app_eq_nil in Eleft' as [_ ->]. constructor.
Qed.

(** C26: Paging back delivers the whole visible history.  A room in memory holds the
    last events [l] of the events [older ++ l] in the table.  A client that starts at a
    position and follows the tokens, for at least as many pages as there are events up
    to the position, gets the events it may see, newest first and each once; what it
    misses is not newer than the create event. *)
Theorem pages_complete s d r older p t n : IsRelatedRequest room (Instance_ cfg) (Total cfg) (MultiWrite cfg) = Ok true -> mayRead ->
  Ready s d r -> HasTable d room (older ++ l) -> ascends (older ++ l) -> Forall (fun x => 2 < seOffset x) (older ++ l) ->
  NoDup (map (fun y => ceEventID (seEv y)) (older ++ l)) -> l <> [] -> -1 <= p <= maxInt64 -> (length (older ++ l) <= n)%nat ->
  exists got missed s', crawl n (BuildPreBatch p t) s = (Ok (map seEv got), s') /\
    List.filter (SyncBuildFacts.shown visibilityTime nowTs user rs0) (reverse (List.filter (fun x => seOffset x <=? p) (older ++ l))) = (got ++ missed)%list /\
    notAfterCreate missed.
Proof using.
  intros Hrel Hmay Hready Htab Ha Htwo Hnd Hne Hp Hn. destruct (crawl_spec d older n Hrel Hmay Htab Ha Htwo Hnd Hne p t s r Hp Hready)
    as (got & missed & s' & r' & E & _ & Eleft & Hmiss). exists got, missed, s'. split_and!; [done|exact Eleft|]. apply Hmiss.
  unfold back, below. rewrite length_reverse. pose proof (List.filter_length_le (fun x => seOffset x <=? p) (older ++ l)). lia.
Qed.

End Pages.

End RoomMessagesFacts.
