(* ===== verification/SyncPaging.v ===== *)
(** * Syncing and paging together

    - [history_reachable]: what the first sync of a room leaves out, paging back from
      the token in its reply delivers.
    - [pages_complete_witness]: an instance of the theorem of [RoomMessagesFacts].
    - [create_event_skipped], [token_part_panics]: what paging gets wrong. *)

From Stdlib Require Import String ZArith List Lia Sorted Permutation.
From stdpp Require Import base tactics list gmap strings pretty sorting.
From S2P Require Import Prelude Snowflake Timeline TimelineRepo Loader SyncHistory SyncHistoryFacts SyncRoomState SyncRoomStateFacts SyncStates Ids Push Receipts ReceiptConsumer ReceiptDelivery SyncBuild SyncBuildFacts SyncSessions RoomMessages RoomMessagesFacts.

#[local] Open Scope string_scope.
#[local] Open Scope Z_scope.

Module SyncPaging.
Import Timeline TimelineRepo Loader SyncHistory SyncHistoryFacts SyncRoomState SyncStates SyncBuild SyncBuildFacts SyncSessions RoomMessages RoomMessagesFacts.

(** ** Cutting a history at a position *)

Lemma cut_at p all : ascends all -> all = (below all p ++ List.filter (fun x => (p + 1 <=? seOffset x)%Z) all)%list.
Proof.
  intros Ha. induction Ha as [|a l Ha IH Hall]; [done|]. unfold below in *. cbn [List.filter]. destruct (Z.leb_spec (seOffset a) p) as [Hle|Hgt].
  - rewrite (proj2 (Z.leb_gt (p + 1) (seOffset a))) by lia. cbn [app]. by f_equal.
  - rewrite (proj2 (Z.leb_le (p + 1) (seOffset a))) by lia. rewrite (filter_all_false _ l), filter_true; [done|..]; eapply Forall_impl; [exact Hall| |exact Hall|]; cbn; intros y Hy.
    + apply Z.leb_le. lia.
    + apply Z.leb_gt. lia.
Qed.

Lemma all_in_window l : Forall (fun f => 0 < seOffset f) l -> List.filter (inWindow (-1) (-1)) l = l.
Proof.
  intros Hp. apply filter_true. eapply Forall_impl; [exact Hp|]. cbn. intros y Hy. unfold inWindow. rewrite orb_true_r, andb_true_r. apply Z.ltb_lt. lia.
Qed.

(** From an event of the later part on, only the later part counts. *)
Lemma from_later older l w : ascends (older ++ l) -> w ∈ l ->
  List.filter (fun x => seOffset w <=? seOffset x) (older ++ l) = List.filter (fun x => seOffset w <=? seOffset x) l.
Proof.
  intros Ha (l1 & l2 & ->)%list_elem_of_split. rewrite List.filter_app. rewrite (filter_all_false _ older); [done|]. rewrite Forall_forall. intros y Hy.
  apply Z.leb_gt. rewrite (assoc_L app) in Ha. eapply ascends_before; [exact Ha|]. apply elem_of_app. by left.
Qed.

Section Reach.
  Context `{ContentJson} `{GoRange} {D : Type} `{HistoryDb D} `{StateDb D} `{ReceiptConsumer.ReceiptJson} `{EventsTable D} `{FilterJson}.
  Context (visibilityTime nowTs : Z) (cfg : Config) (lim : string).

(** C11: The whole history of a room can be reached.  A user who is in the room syncs it
    from the beginning, without an end, and then follows the tokens, starting at the one
    in the timeline of the reply.  The pages, turned around, followed by the timeline are
    the events of the table that the user may see, oldest first, each once: nothing
    between the timeline and the pages is lost or sent twice, whatever part of the room
    is in memory and however small the limits are.  What is missing is not newer than
    the create event. *)
Theorem history_reachable (s : SyncServer D) req room reqStart older l sl min rs stateEvt n :
  IsRelatedRequest room (Instance_ cfg) (Total cfg) (MultiWrite cfg) = Ok true -> mayRead (rqUserID req) rs ->
  Present s room (rqUserID req) l sl min rs ->
  (forall s1, loadRoom (rqUserID req) room s = (Ok min, s1) -> HasTable (persist (roomHistory s1)) room (older ++ l)) ->
  History (older ++ l) -> Forall (fun x => 2 < seOffset x <= maxInt64) (older ++ l) ->
  Forall (fun st => keyed (seEv st)) l -> Forall (fun st => keyed (seEv (stream st))) sl -> l <> [] ->
  GetState rs "m.room.member" (rqUserID req) = Some stateEvt -> scanStart req stateEvt reqStart = -1 -> stays (rqUserID req) (-1) l ->
  (length (older ++ l) <= n)%nat ->
  exists j pos users s1 got missed s2,
    buildRoomJoinResp visibilityTime nowTs req room reqStart (-1) s = (Ok (j, pos, users), s1) /\
    crawl visibilityTime nowTs room (rqUserID req) cfg lim n (PrevBatch (jrTimeline j)) s1 = (Ok got, s2) /\
    map seEv (List.filter (shown visibilityTime nowTs (rqUserID req) rs) (older ++ l)) = (map seEv missed ++ reverse got ++ Events (jrTimeline j))%list /\
    notAfterCreate rs missed.
Proof using.
  intros Hrel Hmay Hpres Htab HL Hoff Hk Hks Hne Hst Hscan Hstay Hn. set (user := rqUserID req) in *. set (all := (older ++ l)%list) in *.
  assert (Hl : History l) by (by eapply History_suffix). pose proof (hs_asc _ HL) as Ha.
  pose proof (present_loadable _ _ _ _ _ _ _ Hpres) as Hload. pose proof Hload as (s0 & E0 & _).
  destruct (join_reply visibilityTime nowTs s req room reqStart (-1) l sl min rs stateEvt Hload Hl Hk Hks Hst ltac:(by rewrite Hscan))
    as (j & pos & users & s1 & rs1 & E1 & Hw1 & Hrs1 & _ & _ & _ & Hprev & Hpersist & _).
  rewrite Hscan, (all_in_window l (hs_pos _ Hl)) in Hprev. destruct (Hprev eq_refl Hne) as (first & w & ts & Hw & -> & Eprev & Eev).
  assert (Hwall : w ∈ all) by (apply elem_of_app; by right). pose proof (proj1 (Forall_forall _ _) Hoff w Hwall) as Hwo. cbv beta in Hwo.
  assert (Hready : Ready room user rs l sl min s1 (persist (roomHistory s0)) rs1) by (split_and!; [done|done|by apply Hpersist]).
  destruct (crawl_spec visibilityTime nowTs room user rs l sl min cfg lim (persist (roomHistory s0)) older n Hrel Hmay (Htab s0 E0) Ha
              (Forall_impl _ _ _ Hoff (fun x Hx => proj1 Hx)) (hs_ids _ HL) Hne (seOffset w - 1) ts s1 rs1 ltac:(lia) Hready)
    as (got & missed & s2 & r2 & E2 & _ & Eleft & Hmiss).
  exists j, pos, users, s1, (map seEv got), (reverse missed), s2. split_and!; [done|by rewrite Eprev| |].
  - rewrite Eev. change (reverse (map seEv got)) with (reverse (seEv <$> got)). rewrite <- fmap_reverse. rewrite (cut_at (seOffset w - 1) all Ha) at 1. rewrite List.filter_app, map_app.
    replace (seOffset w - 1 + 1) with (seOffset w) by lia. unfold all at 2. rewrite (from_later older l w Ha Hw), (assoc_L app). f_equal.
    unfold left, back in Eleft. rewrite filter_reverse in Eleft. apply (f_equal reverse) in Eleft. rewrite reverse_involutive, reverse_app in Eleft.
    fold user. fold all in Eleft. rewrite Eleft, map_app. by f_equal.
  - unfold notAfterCreate. apply Forall_reverse, Hmiss. unfold back, below. rewrite length_reverse.
    fold all. pose proof (List.filter_length_le (fun x => seOffset x <=? seOffset w - 1) all). lia.
Qed.

End Reach.

(** ** A room that is only partly in memory *)

#[local] Existing Instance SyncRoomStateFacts.plainJson.
#[local] Existing Instance ReceiptDelivery.binaryJson.
#[local] Existing Instance SyncSessions.roomDb.
#[local] Existing Instance SyncSessions.stateDb.

#[local] Instance noFilter : FilterJson := { filterOf _ := emptyFilter }.

#[local] Instance roomTable : EventsTable RoomDb := { outputRows d := (Ok (map (fun e => rowOf "!r:a" (at_ e)) d), d) }.

Definition oneInstance : Config := mkConfig 0 1 false false.

(** The create event, the user's join and 33 messages; a load takes the last 30 of the
    35 events. *)
Definition roomOf35 : RoomDb := ([(createEv, 10); (joinEv, 20)] ++ map (fun e => (e.1, 10 * e.2)) (messages 3 33))%list.

Definition old5 : list StreamEvent := map at_ (take 5 roomOf35).
Definition last30 : list StreamEvent := map at_ (drop 5 roomOf35).

Lemma all35 : (old5 ++ last30)%list = map at_ roomOf35.
Proof. by vm_compute. Qed.

Lemma table_all (d : RoomDb) : HasTable d "!r:a" (map at_ d).
Proof.
  exists (map (fun e => rowOf "!r:a" (at_ e)) d). split; [done|]. rewrite map_map. rewrite filter_true; [done|].
  rewrite Forall_forall. intros r (e & -> & _)%list_elem_of_fmap. done.
Qed.

Lemma createFirst_cons x l : Forall (fun y => ceType (seEv y) <> "m.room.create") l -> createFirst (x :: l).
Proof.
  intros Hl [|a l1] y l2 E Hy; [done|]. injection E as -> ->. rewrite Forall_forall in Hl. exfalso. apply (Hl y); [set_solver|exact Hy].
Qed.

Lemma history35 : History (old5 ++ last30).
Proof.
  rewrite all35. split.
  - unfold ascends. vm_compute. repeat constructor.
  - vm_compute. repeat constructor.
  - apply (bool_decide_unpack _). by vm_compute.
  - apply createFirst_cons. repeat constructor; discriminate.
Qed.

Definition rs35 : RoomState := match replayRows (take 2 roomOf35) None with Ok (Some rs) => rs | _ => newRoomState end.

Lemma cold35 : ColdRoom (restarted roomOf35) "!r:a" "@u:a" last30 (take 2 roomOf35) (take 2 roomOf35) 1 rs35.
Proof.
  assert (Hrow : Forall (stateRow "!r:a") (take 2 roomOf35)) by (repeat constructor).
  split; cbn [restarted roomHistory receipts Receipts.rsGate Receipts.urGate ready].
  - split; [apply NewTimeLineRepo_inv; lia|done|done].
  - split_and!; [set_solver|set_solver|by vm_compute].
  - split_and!; [by repeat constructor| |done]. apply ascends_ascending. eapply ascends_suffix. apply (hs_asc _ history35).
  - done.
  - exists roomOf35, roomOf35. by vm_compute.
  - split; [apply NewTimeLineRepo_inv; lia|done].
  - split_and!; [set_solver|set_solver|by vm_compute].
  - split; [apply NewTimeLineRepo_inv; lia|done].
  - split_and!; [set_solver|set_solver|by vm_compute].
  - done.
  - by exists roomOf35, roomOf35.
  - split; [done|by vm_compute].
  - set_solver.
  - set_solver.
Qed.

Lemma stays35 : stays "@u:a" (-1) last30.
Proof.
  intros st Hin _ Ht _. assert (Hno : Forall (fun y => ceType (seEv y) <> "m.room.member") last30) by (repeat constructor; discriminate).
  rewrite Forall_forall in Hno. by destruct (Hno st Hin).
Qed.

Lemma offsets35 : Forall (fun x => 2 < seOffset x <= maxInt64) (old5 ++ last30).
Proof. apply (bool_decide_unpack _). by vm_compute. Qed.

Lemma history_reachable_witness : exists j pos users s1 got missed s2,
    buildRoomJoinResp 0 0 (askRoom 20) "!r:a" 0 (-1) (restarted roomOf35) = (Ok (j, pos, users), s1) /\
    crawl 0 0 "!r:a" "@u:a" oneInstance "" 35 (PrevBatch (jrTimeline j)) s1 = (Ok got, s2) /\
    map seEv (List.filter (shown 0 0 "@u:a" rs35) (old5 ++ last30)) = (map seEv missed ++ reverse got ++ Events (jrTimeline j))%list /\
    notAfterCreate rs35 missed.
Proof.
  apply (history_reachable 0 0 oneInstance "" (restarted roomOf35) (askRoom 20) "!r:a" 0 old5 last30 (map freshState (take 2 roomOf35)) 1 rs35 (mkStreamEvent joinEv 20) 35).
  - by vm_compute.
  - left. apply (bool_decide_unpack _). by vm_compute.
  - right. exists last30, (take 2 roomOf35), (take 2 roomOf35). split_and!; [apply cold35|by vm_compute|done].
  - intros s1 E. assert (Ep : persist (roomHistory (loadRoom "@u:a" "!r:a" (restarted roomOf35)).2) = roomOf35) by (by vm_compute).
    change (rqUserID (askRoom 20)) with "@u:a" in E. rewrite E in Ep. cbn [snd] in Ep. rewrite Ep, all35. apply table_all.
  - apply history35.
  - apply offsets35.
  - repeat constructor; intros ?; done.
  - repeat constructor; intros ?; done.
  - done.
  - by vm_compute.
  - by vm_compute.
  - apply stays35.
  - by vm_compute.
Defined.

(** The server after the room was loaded. *)
Definition loaded35 : SyncServer RoomDb := (loadRoom "@u:a" "!r:a" (restarted roomOf35)).2.

Lemma ready35 : Ready "!r:a" "@u:a" rs35 last30 (map freshState (take 2 roomOf35)) 1 loaded35 roomOf35 rs35.
Proof.
  destruct (cold_loadable _ _ _ _ _ _ _ _ cold35) as (s1 & E & Hw).
  assert (Ep : persist (roomHistory loaded35) = roomOf35) by (vm_compute; reflexivity).
  assert (El : newest 128 last30 = last30) by (vm_compute; reflexivity).
  assert (Es : loaded35 = s1) by (unfold loaded35; exact (f_equal snd E)).
  rewrite El in Hw. rewrite Es in Ep |- *. split; [exact Hw|split; [exact (or_introl eq_refl)|exact Ep]].
Qed.

(** From the 28th event on. *)
Lemma pages_complete_witness : exists got missed s',
    crawl 0 0 "!r:a" "@u:a" oneInstance "" 35 (BuildPreBatch 280 0) loaded35 = (Ok (map seEv got), s') /\
    List.filter (shown 0 0 "@u:a" rs35) (reverse (List.filter (fun x => seOffset x <=? 280) (old5 ++ last30))) = (got ++ missed)%list /\
    notAfterCreate rs35 missed.
Proof.
  apply (pages_complete 0 0 "!r:a" "@u:a" rs35 last30 (map freshState (take 2 roomOf35)) 1 oneInstance "" loaded35 roomOf35 rs35 old5 280 0 35).
  - by vm_compute.
  - left. apply (bool_decide_unpack _). by vm_compute.
  - apply ready35.
  - rewrite all35. apply table_all.
  - apply (hs_asc _ history35).
  - eapply Forall_impl; [exact offsets35|]. intros x Hx. apply Hx.
  - apply (hs_ids _ history35).
  - done.
  - unfold maxInt64. lia.
  - by vm_compute.
Defined.

(** The sync of a room and all its pages. *)
Definition syncAndPages (d : RoomDb) (limit : Z) (n : nat) : option (list string * list string) :=
  let '(r, s1) := buildRoomJoinResp 0 0 (askRoom limit) "!r:a" 0 (-1) (restarted d) in
  match r with
  | Ok (j, _, _) =>
      match (crawl 0 0 "!r:a" "@u:a" oneInstance "" n (PrevBatch (jrTimeline j)) s1).1 with
      | Ok got => Some (map ceEventID (Events (jrTimeline j)), map ceEventID got)
      | _ => None
      end
  | _ => None
  end.

(** The sync of the witness gives the last 20 events, the pages the other 15. *)
Example pages_of_35 : syncAndPages roomOf35 20 35 =
  Some (map (fun e => ceEventID e.1) (drop 15 roomOf35), reverse (map (fun e => ceEventID e.1) (take 15 roomOf35))).
Proof. by vm_compute. Qed.

(** ** What goes wrong *)

(** A position backwards includes its event, but at the position of the create event
    nothing is given: when a timeline or a page starts with the event after it, the
    create event is never delivered. *)
Theorem create_event_skipped : syncAndPages [(createEv, 10); (joinEv, 11); (message 3, 12)] 2 5 = Some (["$2"; "$m3"], []).
Proof. by vm_compute. Qed.

(** A token of two parts of which one is [p] without a colon makes the server panic. *)
Theorem token_part_panics :
  ((_ ← loadRoom "@u:a" "!r:a"; ProcessMessages 0 0 oneInstance (mkMessages "!r:a" "p_t:1" "" "b" "" "") "@u:a") (restarted roomOf35)).1 = Panic.
Proof. by vm_compute. Qed.

End SyncPaging.
