(* ===== verification/EventContext.v ===== *)
(** * The events around an event

    [src/syncserver/api/roomEventContext.go]: the request for the context of an event:
    the events before and after it, and the states of the room at the end.  Half of the
    limit is for the events before.  They come from the timeline in memory or from the
    table of [RoomMessages], whichever reaches the position; the two are not combined.

    The display hints that [extra.ExpandMessages] adds are left out.  The theorems are in
    [EventContextFacts]. *)

From Stdlib Require Import String ZArith List Lia.
From stdpp Require Import base tactics list gmap strings.
From S2P Require Import Prelude Snowflake Timeline TimelineRepo Loader SyncHistory SyncRoomState SyncStates Ids Push Receipts ReceiptConsumer SyncBuild RoomMessages.

#[local] Open Scope string_scope.
#[local] Open Scope Z_scope.

Module EventContext.
Import Timeline TimelineRepo Loader SyncHistory SyncRoomState SyncStates SyncBuild RoomMessages.

(** [common.IsExtEvent]. *)
Definition IsExtEvent (ev : ClientEvent) : bool :=
  String.eqb (ceType ev) "m.room._ext.leave" || String.eqb (ceType ev) "m.room._ext.enter".

Inductive ContextReply :=
  | CtxStatus (code : Z)
  | ContextEventResp (before : list ClientEvent) (start : string) (event : ClientEvent) (after : list ClientEvent) (end_ : string) (state : list ClientEvent).

Section Context_.
  Context `{ContentJson} {D : Type} `{HistoryDb D} `{StateDb D} `{EventsTable D}.
  Context (visibilityTime nowTs : Z) (cfg : Config).

(** The local variables of the loops in [getMessages]. *)
Record CtxScan := mkCtxScan {
  xOut : list ClientEvent;
  xRecords : gmap string nat;
  xLimit : Z;
  xEndPos : Z;
  xEndTs : Z;
  xRs : RoomState;
}.

Definition emit (ev : ClientEvent) (st : CtxScan) : CtxScan * bool :=
  match xRecords st !! ceEventID ev with
  | Some idx => (mkCtxScan (<[idx := ev]> (xOut st)) (xRecords st) (xLimit st) (xEndPos st) (xEndTs st) (xRs st), false)
  | None => (mkCtxScan (xOut st ++ [ev])%list (<[ceEventID ev := length (xOut st)]> (xRecords st)) (xLimit st) (xEndPos st) (xEndTs st) (xRs st), true)
  end.

Definition spend (st : CtxScan) : CtxScan := mkCtxScan (xOut st) (xRecords st) (xLimit st - 1) (xEndPos st) (xEndTs st) (xRs st).
Definition endAt (p t : Z) (st : CtxScan) : CtxScan := mkCtxScan (xOut st) (xRecords st) (xLimit st) p t (xRs st).

(** Whether the user may see the event; asking arranges the ranges of the user. *)
Definition mayShow (user : string) (ev : ClientEvent) (rs : RoomState) : bool * RoomState :=
  let '(b, rs) := CheckEventVisibility user (ceOriginServerTS ev) rs in
  ((b && negb (IsExtEvent ev)) || IsStateClientEv ev, rs).

Definition withRs (st : CtxScan) (rs : RoomState) : CtxScan := mkCtxScan (xOut st) (xRecords st) (xLimit st) (xEndPos st) (xEndTs st) rs.

(** One item backwards; an item that was found twice does not count. *)
Definition stepBack (user : string) (fromPos minStream : Z) (st : CtxScan) (_ : nat) (feed : option StreamEvent) : CtxScan * bool :=
  match feed with
  | None => (st, true)
  | Some s =>
      if (seOffset s <=? fromPos) && (minStream <=? seOffset s) then
        let '(b, rs) := mayShow user (seEv s) (xRs st) in
        let st := withRs st rs in
        let st := if b && (minStream <? seOffset s) && negb (tooOld visibilityTime nowTs (seEv s)) then
                    let '(st, fresh) := emit (seEv s) st in if (fresh : bool) then spend st else st
                  else st in
        let st := if seOffset s =? minStream then endAt (seOffset s) (xEndTs st) st else endAt (seOffset s - 1) (ceOriginServerTS (seEv s)) st in
        (st, negb (xLimit st =? 0))
      else (st, true)
  end.

(** One item forwards; an item counts unless it is too old. *)
Definition stepForth (user : string) (fromPos minStream : Z) (st : CtxScan) (_ : nat) (feed : option StreamEvent) : CtxScan * bool :=
  match feed with
  | None => (st, true)
  | Some s =>
      if (fromPos <=? seOffset s) && (minStream <=? seOffset s) then
        let '(b, rs) := mayShow user (seEv s) (xRs st) in
        let st := withRs st rs in
        let skipEv := b && tooOld visibilityTime nowTs (seEv s) in
        let st := if b && negb skipEv then (emit (seEv s) st).1 else st in
        let st := if negb skipEv then spend st else st in
        let st := endAt (seOffset s + 1) (ceOriginServerTS (seEv s)) st in
        (st, negb (xLimit st =? 0))
      else (st, true)
  end.

(** The rows of the database that are shown. *)
Fixpoint showRows (user dir : string) (fromPos : Z) (rows : list Found) (rs : RoomState) : list ClientEvent * RoomState :=
  match rows with
  | [] => ([], rs)
  | f :: rest =>
      if offsetOk dir fromPos (fOffset f) then
        let '(b, rs) := mayShow user (fEv f) rs in
        let '(out, rs') := showRows user dir fromPos rest rs in
        (if b && negb (tooOld visibilityTime nowTs (fEv f)) then fEv f :: out else out, rs')
      else showRows user dir fromPos rest rs
  end.

Definition getFromDB (rs : RoomState) (createEv : option StreamEvent) (user roomID dir : string) (fromPos fromTs limit : Z) :
    ST (SyncServer D) (list ClientEvent * Z * Z * RoomState) :=
  x ← onRoomHistory (onDb (selectEventsByDir roomID dir fromPos limit));
  match x.1.1 with
  | [] => mret ([], fromPos, fromTs, rs)
  | rows =>
      let '(out, rs') := showRows user dir fromPos rows rs in
      _ ← putRoomState roomID rs';
      let endPos := x.1.2 in
      mret (out,
        if String.eqb dir "b" then
          match out, createEv with
          | [], Some c => if negb (endPos =? 0) then seOffset c else endPos - 1
          | _, _ => endPos - 1
          end
        else endPos + 1, x.2, rs')
  end.

(** [fromPos] and [fromTs] come back when there is nothing on the asked side. *)
Definition getMessages (rs : RoomState) (tl : TimeLines StreamEvent) (createEv : option StreamEvent) (minStream : Z)
    (user roomID dir : string) (fromPos fromTs limit : Z) : ST (SyncServer D) (list ClientEvent * Z * Z * RoomState) :=
  let '(feedLower, feedUpper) := GetFeedRange tl in
  if (feedUpper <? fromPos) && String.eqb dir "f" then mret ([], fromPos, fromTs, rs)
  else if match createEv with Some c => (0 <? fromPos) && (fromPos <=? seOffset c) && String.eqb dir "b" | None => false end then mret ([], fromPos, fromTs, rs)
  else if (fromPos <? feedLower) || (fromPos <=? minStream) then getFromDB rs createEv user roomID dir fromPos fromTs limit
  else
    let start := mkCtxScan [] ∅ limit 0 0 rs in
    if String.eqb dir "b" then
      st ← liftR (ForRangeReverse tl (stepBack user fromPos minStream) start);
      _ ← putRoomState roomID (xRs st);
      let e := if xEndPos st =? 0 then (Z.max (feedLower - 1) minStream, fromTs) else (xEndPos st, xEndTs st) in
      mret (xOut st, e.1, e.2, xRs st)
    else
      st ← liftR (ForRange tl (stepForth user fromPos minStream) start);
      _ ← putRoomState roomID (xRs st);
      let e := if xEndPos st =? 0 then (feedUpper + 1, fromTs) else (xEndPos st, xEndTs st) in
      mret (xOut st, e.1, e.2, xRs st).

(** The result of [m], or the answer for its error. *)
Definition orAnswer {A} (code : Z) (m : ST (SyncServer D) A) (f : A -> ST (SyncServer D) ContextReply) : ST (SyncServer D) ContextReply := fun s =>
  match m s with
  | (Ok a, s1) => f a s1
  | (Err _, s1) => (Ok (CtxStatus code), s1)
  | (Panic, s1) => (Panic, s1)
  | (Diverge, s1) => (Diverge, s1)
  end.

(** [ReqGetEventContext.Process]. *)
Definition GetEventContext (user roomID eventID : string) (limit : Z) : ST (SyncServer D) ContextReply :=
  related ← liftR (IsRelatedRequest roomID (Instance_ cfg) (Total cfg) (MultiWrite cfg));
  if negb related then mret (CtxStatus (-100))
  else
    _ ← onStates (LoadStreamStates roomID true);
    s ← getServer;
    match roomStateOf s roomID with
    | None => mret (CtxStatus 404)
    | Some rs =>
        if negb (bool_decide (is_Some (join rs !! user))) && negb (bool_decide (is_Some (leave rs !! user))) then mret (CtxStatus 403)
        else
          minStream ← onRoomHistory (GetRoomMinStream roomID);
          orAnswer 404 (onRoomHistory (onDb (StreamEvents eventID))) (fun found =>
          match found with
          | [] => mret (CtxStatus 404)
          | base :: _ =>
              let fromTs := ceOriginServerTS (fEv base) in
              let fromPos := fOffset base in
              if (0 <? visibilityTime) && (Z.quot fromTs 1000 + visibilityTime <? nowTs) then mret (CtxStatus 404)
              else
                history ← onRoomHistory (GetHistory roomID);
                match history with
                | None => mret (CtxStatus 404)
                | Some tl =>
                    let createEv := GetState rs "m.room.create" "" in
                    let backwardLimit := Z.quot limit 2 in
                    orAnswer 500 (getMessages rs tl createEv minStream user roomID "b" (fromPos - 1) fromTs backwardLimit) (fun bw =>
                    orAnswer 500 (getMessages bw.2 tl createEv minStream user roomID "f" (fromPos + 1) fromTs (limit - backwardLimit)) (fun fw =>
                    states ← onStates (GetStateEvents roomID fw.1.1.2);
                    mret (ContextEventResp bw.1.1.1 (BuildPreBatch bw.1.1.2 bw.1.2) (fEv base) fw.1.1.1
                            (BuildPreBatch fw.1.1.2 fw.1.2) (map seEv states))))
                end
          end)
    end.

End Context_.

End EventContext.
