(* ===== verification/EventContextFacts.v ===== *)
(** * The events around an event: theorems

    - [context_surrounds]: the events before and after the event of a reply follow it
      without a gap, and the tokens of the reply go on where they end, or at the create
      event when nothing on the page before is shown.
    - [context_reads_other_rooms], [context_limit_one], [context_skips_history]: what the
      request gets wrong. *)

From Stdlib Require Import String ZArith List Lia Sorted Permutation.
From stdpp Require Import base tactics list gmap strings sorting.
From S2P Require Import Prelude Snowflake Timeline TimelineRepo Loader SyncHistory SyncHistoryFacts SyncRoomState SyncRoomStateFacts SyncStates Ids Push Receipts ReceiptConsumer ReceiptDelivery SyncBuild SyncBuildFacts SyncSessions RoomMessages RoomMessagesFacts SyncPaging EventContext.

#[local] Open Scope string_scope.
#[local] Open Scope Z_scope.

Module EventContextFacts.
Import Timeline TimelineRepo Loader SyncHistory SyncHistoryFacts SyncRoomState SyncStates SyncBuild SyncBuildFacts SyncSessions RoomMessages RoomMessagesFacts SyncPaging EventContext.

(** ** Walking forwards *)

Lemma ForRange_abs {F S} `{Feed F} (tl : TimeLines F) (l : list F) (g : S -> option F -> S * bool) (s : S) :
  Rep tl l -> ForRange tl (fun s _ x => g s x) s = Ok (walkList g l s).
Proof.
  intros R. destruct (GetRange_rep tl l R) as (E & En & _). unfold ForRange. rewrite E, En.
  assert (Hn : forall n k s, (k + n = length l)%nat ->
    walk tl (fun s _ x => g s x) (seq (offset tl - size tl + k) n) s = Ok (walkList g (drop k l) s)).
  { clear s. intros n. induction n as [|n IH]; intros k s Hk; [by rewrite drop_ge by lia|].
    destruct (lookup_lt_is_Some_2 l k) as [x Hx]; [lia|]. cbn [seq walk]. rewrite (getFeed_rep _ _ _ _ R Hx), (drop_S _ _ _ Hx). cbn.
    destruct (g s (Some x)) as [s1 go]. destruct go; [|done].
    replace (Datatypes.S (offset tl - size tl + k)) with (offset tl - size tl + Datatypes.S k)%nat by lia. apply IH. lia. }
  specialize (Hn (length l) 0%nat s eq_refl). by rewrite Nat.add_0_r in Hn.
Qed.

(** ** The loops *)

Section Loops.
  Context `{ContentJson} (visibilityTime nowTs : Z) (user : string) (rs0 : RoomState).

#[local] Abbreviation sameRs := (SyncBuildFacts.sameRs user rs0).

(** What the request shows: neither hidden, nor an internal event, nor too old. *)
Definition inContext (s : StreamEvent) : bool := (mayShow user (seEv s) rs0).1 && negb (tooOld visibilityTime nowTs (seEv s)).

Lemma mayShow_same ev r : sameRs r -> mayShow user ev r = ((mayShow user ev rs0).1, arranged user rs0).
Proof using. intros Hs. unfold mayShow. rewrite (check_same user rs0 _ _ Hs). by destruct (CheckEventVisibility user (ceOriginServerTS ev) rs0). Qed.

(** The event at [minStream] is left to the database. *)
Definition cInContext (minStream : Z) (s : StreamEvent) : bool := inContext s && (minStream <? seOffset s).

Lemma stepBack_in fromPos minStream i x st : inPage fromPos minStream x = true -> sameRs (xRs st) -> xRecords st !! ceEventID (seEv x) = None ->
  exists st', stepBack visibilityTime nowTs user fromPos minStream st i (Some x) = (st', negb (xLimit st' =? 0)) /\
    sameRs (xRs st') /\ xOut st' = (xOut st ++ map seEv (List.filter (cInContext minStream) [x]))%list /\
    xLimit st' = xLimit st - Z.of_nat (length (List.filter (cInContext minStream) [x])) /\ xEndPos st' = endOf minStream x /\
    forall id, id <> ceEventID (seEv x) -> xRecords st' !! id = xRecords st !! id.
Proof using.
  intros Hin Hs Hrec. unfold stepBack. unfold inPage, checkOffset in Hin. cbn [String.eqb Ascii.eqb Bool.eqb] in Hin. rewrite Hin, (mayShow_same _ _ Hs).
  set (st1 := withRs st (arranged user rs0)).
  replace ((mayShow user (seEv x) rs0).1 && (minStream <? seOffset x) && negb (tooOld visibilityTime nowTs (seEv x))) with (cInContext minStream x)
    by (unfold cInContext, inContext; destruct (mayShow _ _ _).1, (tooOld _ _ _), (minStream <? seOffset x); done).
  set (st2 := if cInContext minStream x then let '(st, fresh) := emit (seEv x) st1 in if (fresh : bool) then spend st else st else st1).
  assert (H2 : xOut st2 = (xOut st ++ map seEv (List.filter (cInContext minStream) [x]))%list /\ xLimit st2 = xLimit st - Z.of_nat (length (List.filter (cInContext minStream) [x])) /\
            xRs st2 = arranged user rs0 /\ forall id, id <> ceEventID (seEv x) -> xRecords st2 !! id = xRecords st !! id).
  { unfold st2. cbn [List.filter]. destruct (cInContext minStream x).
    - unfold emit. cbn [st1 withRs xRecords]. rewrite Hrec. cbn. split_and!; try done. intros id Hid. by rewrite lookup_insert_ne.
    - cbn. rewrite app_nil_r. split_and!; try done. lia. }
  destruct H2 as (Eo & El & Er & Eid). eexists. split; [reflexivity|]. unfold endOf, endAt.
  destruct (seOffset x =? minStream); cbn [xRs xOut xLimit xEndPos xRecords]; rewrite Er; split_and!; try done; by right.
Qed.

Lemma back_walk fromPos minStream T : forall st, sameRs (xRs st) -> 0 < xLimit st -> NoDup (map (fun s => ceEventID (seEv s)) T) ->
  (forall s, s ∈ T -> xRecords st !! ceEventID (seEv s) = None) ->
  exists A B st', walkList (fun st x => stepBack visibilityTime nowTs user fromPos minStream st 0%nat x) T st = st' /\
    List.filter (inPage fromPos minStream) T = (A ++ B)%list /\ sameRs (xRs st') /\
    xOut st' = (xOut st ++ map seEv (List.filter (cInContext minStream) A))%list /\
    Z.of_nat (length (List.filter (cInContext minStream) A)) <= xLimit st /\
    xEndPos st' = match last A with Some x => endOf minStream x | None => xEndPos st end /\
    (A = [] -> B = []) /\ (forall x, last A = Some x -> seOffset x = minStream -> B = []).
Proof using.
  induction T as [|x T IH]; intros st Hs Hlim Hnd Hrec.
  { exists [], [], st. cbn. rewrite app_nil_r. split_and!; try done. lia. }
  cbn in Hnd. apply NoDup_cons in Hnd as [Hn0 Hnd]. cbn [walkList List.filter]. destruct (inPage fromPos minStream x) eqn:Ein.
  - destruct (stepBack_in fromPos minStream 0 x st Ein Hs) as (st1 & -> & Hs1 & Eo1 & El1 & Ee1 & Eid1); [apply Hrec; by left|].
    destruct (Z.eqb_spec (xLimit st1) 0) as [Hz|Hz]; cbn [negb].
    + exists [x], (List.filter (inPage fromPos minStream) T), st1. cbn [last]. split_and!; try done; [lia|]. intros ? [= <-] Ex.
      exfalso. cbn [List.filter] in El1. unfold cInContext in El1. rewrite Ex, Z.ltb_irrefl, andb_false_r in El1. cbn in El1. lia.
    + assert (Hlim1 : 0 < xLimit st1) by (cbn [List.filter] in El1; destruct (cInContext minStream x); cbn in El1; lia).
      destruct (IH st1 Hs1 Hlim1 Hnd) as (A & B & st' & E & EC & Hs' & Eo & El & Ee & Hnil & Hend).
      { intros s Hin. rewrite Eid1; [apply Hrec; by right|]. intros Heq. apply Hn0. rewrite <- Heq. apply list_elem_of_fmap. by exists s. }
      exists (x :: A), B, st'. assert (Efl : List.filter (cInContext minStream) (x :: A) = (List.filter (cInContext minStream) [x] ++ List.filter (cInContext minStream) A)%list)
        by (change (x :: A) with ([x] ++ A)%list; apply List.filter_app).
      rewrite EC, Efl, map_app, Eo, Eo1, Ee, Ee1, length_app. split_and!; try done; [by rewrite <- app_assoc|lia| |].
      * destruct A as [|a A]; [done|]. change (last (x :: a :: A)) with (last (a :: A)). destruct (last (a :: A)) eqn:Ela; [done|]. by apply last_None in Ela.
      * intros y. destruct A as [|a A]; [by intros _ _; apply Hnil|]. apply Hend.
  - unfold stepBack. unfold inPage, checkOffset in Ein. cbn [String.eqb Ascii.eqb Bool.eqb] in Ein. rewrite Ein. apply IH; try done. intros s Hin. apply Hrec. by right.
Qed.

Lemma stepForth_in fromPos minStream i x st : fromPos <= seOffset x -> minStream <= seOffset x -> sameRs (xRs st) -> xRecords st !! ceEventID (seEv x) = None ->
  exists st', stepForth visibilityTime nowTs user fromPos minStream st i (Some x) = (st', negb (xLimit st' =? 0)) /\
    sameRs (xRs st') /\ xOut st' = (xOut st ++ map seEv (List.filter inContext [x]))%list /\
    xLimit st - 1 <= xLimit st' <= xLimit st - Z.of_nat (length (List.filter inContext [x])) /\ xEndPos st' = seOffset x + 1 /\
    forall id, id <> ceEventID (seEv x) -> xRecords st' !! id = xRecords st !! id.
Proof using.
  intros H1 H2 Hs Hrec. unfold stepForth. rewrite (proj2 (Z.leb_le _ _) H1), (proj2 (Z.leb_le _ _) H2), (mayShow_same _ _ Hs). cbn [andb]. eexists. split; [reflexivity|].
  unfold inContext. cbn [List.filter]. destruct (mayShow user (seEv x) rs0).1, (tooOld visibilityTime nowTs (seEv x)); unfold emit; cbn; rewrite ?Hrec; cbn; rewrite ?app_nil_r;
    split_and!; try done; try lia; try (by right); intros id Hid; by rewrite ?lookup_insert_ne.
Qed.

Lemma forth_walk fromPos minStream T : forall st, sameRs (xRs st) -> 0 < xLimit st -> NoDup (map (fun s => ceEventID (seEv s)) T) -> minStream <= fromPos ->
  (forall s, s ∈ T -> xRecords st !! ceEventID (seEv s) = None) ->
  exists A B st', walkList (fun st x => stepForth visibilityTime nowTs user fromPos minStream st 0%nat x) T st = st' /\
    List.filter (fun s => fromPos <=? seOffset s) T = (A ++ B)%list /\ sameRs (xRs st') /\
    xOut st' = (xOut st ++ map seEv (List.filter inContext A))%list /\ Z.of_nat (length (List.filter inContext A)) <= xLimit st /\
    xEndPos st' = match last A with Some x => seOffset x + 1 | None => xEndPos st end /\ (A = [] -> B = []).
Proof using.
  induction T as [|x T IH]; intros st Hs Hlim Hnd Hmin Hrec.
  { exists [], [], st. cbn. rewrite app_nil_r. split_and!; try done. lia. }
  cbn in Hnd. apply NoDup_cons in Hnd as [Hn0 Hnd]. cbn [walkList List.filter]. destruct (Z.leb_spec fromPos (seOffset x)) as [Hle|Hgt].
  - destruct (stepForth_in fromPos minStream 0 x st Hle ltac:(lia) Hs) as (st1 & -> & Hs1 & Eo1 & El1 & Ee1 & Eid1); [apply Hrec; by left|].
    destruct (Z.eqb_spec (xLimit st1) 0) as [Hz|Hz]; cbn [negb].
    + exists [x], (List.filter (fun s => fromPos <=? seOffset s) T), st1. cbn [last]. split_and!; try done. lia.
    + destruct (IH st1 Hs1 ltac:(lia) Hnd Hmin) as (A & B & st' & E & EC & Hs' & Eo & El & Ee & Hnil).
      { intros s Hin. rewrite Eid1; [apply Hrec; by right|]. intros Heq. apply Hn0. rewrite <- Heq. apply list_elem_of_fmap. by exists s. }
      exists (x :: A), B, st'. assert (Efl : List.filter inContext (x :: A) = (List.filter inContext [x] ++ List.filter inContext A)%list)
        by (change (x :: A) with ([x] ++ A)%list; apply List.filter_app).
      rewrite EC, Efl, map_app, Eo, Eo1, Ee, Ee1, length_app. split_and!; try done; [by rewrite <- app_assoc|lia|].
      destruct A as [|a A]; [done|]. change (last (x :: a :: A)) with (last (a :: A)). destruct (last (a :: A)) eqn:Ela; [done|]. by apply last_None in Ela.
  - unfold stepForth. rewrite (proj2 (Z.leb_gt _ _) Hgt). cbn [andb]. apply IH; try done. intros s Hin. apply Hrec. by right.
Qed.

Lemma showRows_spec dir fromPos T : forall r, sameRs r -> Forall (fun s => offsetOk dir fromPos (seOffset s) = true) T ->
  exists r', showRows visibilityTime nowTs user dir fromPos (map foundOf T) r = (map seEv (List.filter inContext T), r') /\ sameRs r'.
Proof using.
  induction T as [|x T IH]; intros r Hs Hok; [by exists r|]. apply Forall_cons in Hok as [Hx Hok]. cbn [map showRows foundOf fOffset fEv]. rewrite Hx, (mayShow_same _ _ Hs).
  destruct (IH (arranged user rs0) ltac:(by right) Hok) as (r' & -> & Hr'). exists r'. split; [|done]. cbn [List.filter]. fold (inContext x). by destruct (inContext x).
Qed.

End Loops.

(** What follows an event is what is newer. *)
Lemma forth_cut all p A x B : ascends all -> forth all p = ((A ++ [x]) ++ B)%list -> B = forth all (seOffset x + 1).
Proof.
  intros Ha Eb. pose proof (ascends_filter (fun s => p <=? seOffset s) all Ha) as Hd. fold (forth all p) in Hd.
  assert (Hx : p <= seOffset x).
  { assert (Hin : x ∈ forth all p) by (rewrite Eb; set_solver). by apply list_elem_of_In, filter_In in Hin as [_ Hin%Z.leb_le]. }
  assert (E : forth all (seOffset x + 1) = List.filter (fun s => seOffset x + 1 <=? seOffset s) (forth all p)).
  { unfold forth. clear -Hx. induction all as [|a all IH]; [done|]. cbn. destruct (Z.leb_spec p (seOffset a)).
    - cbn. by rewrite IH.
    - rewrite IH. destruct (Z.leb_spec (seOffset x + 1) (seOffset a)); [lia|done]. }
  rewrite E, Eb. rewrite Eb in Hd. rewrite <- app_assoc in Hd |- *. rewrite List.filter_app. cbn [List.filter app].
  rewrite (filter_all_false _ A), (proj2 (Z.leb_gt (seOffset x + 1) (seOffset x))), filter_true; try lia; [done| |].
  - apply ascends_suffix, StronglySorted_inv in Hd as [_ Hall]. eapply Forall_impl; [exact Hall|]. cbn. intros y Hy. apply Z.leb_le. lia.
  - rewrite Forall_forall. intros y Hy. apply Z.leb_gt. pose proof (ascends_before _ _ _ _ Hd Hy). lia.
Qed.

(** ** One side of the event *)

Section Surround.
  Context `{ContentJson} `{GoRange} {D : Type} `{HistoryDb D} `{StateDb D} `{ReceiptConsumer.ReceiptJson} `{EventsTable D}.
  Context (visibilityTime nowTs : Z) (room user : string) (rs0 : RoomState) (l : list StreamEvent) (sl : list StateStream) (minStream : Z).
  Implicit Types (s : SyncServer D) (all : list StreamEvent).

#[local] Abbreviation inContext := (EventContextFacts.inContext visibilityTime nowTs user rs0).
#[local] Abbreviation Ready := (RoomMessagesFacts.Ready room user rs0 l sl minStream).

(** The answer [out] for at most [n] events up to [p], and where to go on.  Either it
    is what is shown of the events between, or none of the [n] events before is shown
    and the reply points to the create event.  It moves on unless only events up to the
    create event or [minStream] are left. *)
Definition Before all (createEv : option StreamEvent) (p n : Z) (out : list ClientEvent) (e : Z) : Prop :=
  (exists A, back all p = (A ++ back all e)%list /\ out = map seEv (List.filter inContext A) /\ Z.of_nat (length out) <= n /\
     (A = [] -> Forall (fun x => seOffset x <= minStream \/ exists c, createEv = Some c /\ seOffset x <= seOffset c) (back all p))) \/
  (out = [] /\ exists c, createEv = Some c /\ e = seOffset c /\ List.filter inContext (take (Z.to_nat n) (back all p)) = []).

(** The same from [p] on; it moves on unless nothing is left. *)
Definition After all (p n : Z) (out : list ClientEvent) (e : Z) : Prop :=
  exists A, forth all p = (A ++ forth all e)%list /\ out = map seEv (List.filter inContext A) /\ Z.of_nat (length out) <= n /\ (A = [] -> forth all p = []).

Lemma take_empty {A} (n : Z) (T : list A) : 0 < n -> take (Z.to_nat n) T = [] -> T = [].
Proof using. destruct T as [|x T]; [done|]. destruct (Z.to_nat n) eqn:E; [lia|done]. Qed.

Lemma filter_short {A} (p : A -> bool) (n : Z) (T : list A) : 0 < n -> Z.of_nat (length (List.filter p (take (Z.to_nat n) T))) <= n.
Proof using. intros Hn. pose proof (List.filter_length_le p (take (Z.to_nat n) T)). pose proof (length_take T (Z.to_nat n)). lia. Qed.

Lemma db_before s d r all createEv p pts n : Ready s d r -> HasTable d room all -> ascends all -> Forall (fun x => 2 < seOffset x) all -> 0 < n ->
  exists out e t s' r', getFromDB visibilityTime nowTs r createEv user room "b" p pts n s = (Ok (out, e, t, r'), s') /\ Ready s' d r' /\ Before all createEv p n out e.
Proof using.
  intros Hready Htab Ha Htwo Hn. destruct (select_back d room all p n Htab Ha ltac:(lia)) as [t0 Esel]. cbv zeta in Esel. set (T := take (Z.to_nat n) (back all p)) in *.
  unfold getFromDB, mbind, ST_bind. rewrite (onTable room user rs0 l sl minStream _ s d r _ Hready Esel). cbn [fst snd].
  destruct (showRows_spec visibilityTime nowTs user rs0 "b" p T r) as (r' & Erows & Hr'); [apply Hready| |].
  { apply Forall_take. rewrite Forall_forall. intros x [Hin Hx]%back_in. rewrite Forall_forall in Htwo. specialize (Htwo x Hin). unfold offsetOk.
    cbn [String.eqb Ascii.eqb Bool.eqb andb]. rewrite (proj2 (Z.leb_le _ _) Hx). destruct (Z.leb_spec 0 p); [done|lia]. }
  destruct T as [|x0 T0] eqn:ET.
  - cbn [map]. apply (take_empty n) in ET; [|done]. eexists _, _, _, s, r. split; [done|]. split; [done|]. left. exists []. rewrite ET. split_and!; [done|done|cbn; lia|by constructor].
  - rewrite <- ET in *. destruct (map foundOf T) as [|y0 rows] eqn:Em; [by rewrite ET in Em|]. rewrite Erows.
    destruct (putRoomState_ready room user rs0 l sl minStream s d r r' Hready Hr') as (s' & -> & Hready'). unfold mret, ST_ret.
    cbn [String.eqb Ascii.eqb Bool.eqb]. eexists _, _, _, s', r'. split; [done|]. split; [done|].
    destruct (last T) as [x|] eqn:El; [|apply last_None in El; by rewrite El in ET]. apply last_Some in El as [A' EA].
    assert (Eb : back all p = ((A' ++ [x]) ++ drop (Z.to_nat n) (back all p))%list) by (rewrite <- EA; unfold T; by rewrite take_drop).
    pose proof (back_cut all p A' x _ Ha Eb) as Ecut. assert (Hx : x ∈ back all p) by (rewrite Eb; set_solver). apply back_in in Hx as [Hx _].
    rewrite Forall_forall in Htwo. specialize (Htwo x Hx). rewrite (proj2 (Z.eqb_neq (seOffset x) 0)) by lia. cbn [negb].
    assert (Hside : Before all createEv p n (map seEv (List.filter inContext T)) (seOffset x - 1)).
    { left. exists T. rewrite <- Ecut, EA. split_and!; [done|done|rewrite length_map, <- EA; by apply filter_short|by destruct A']. }
    destruct (map seEv (List.filter inContext T)) as [|o out] eqn:Eout; [|done]. destruct createEv as [c|]; [|done].
    right. split; [done|]. exists c. split_and!; try done. by apply map_eq_nil in Eout.
Qed.

Lemma db_after s d r all createEv p pts n : Ready s d r -> HasTable d room all -> ascends all -> 0 < n ->
  exists out e t s' r', getFromDB visibilityTime nowTs r createEv user room "f" p pts n s = (Ok (out, e, t, r'), s') /\ Ready s' d r' /\ After all p n out e.
Proof using.
  intros Hready Htab Ha Hn. destruct (select_forth d room all p n Htab Ha ltac:(lia)) as [t0 Esel]. cbv zeta in Esel. set (T := take (Z.to_nat n) (forth all p)) in *.
  unfold getFromDB, mbind, ST_bind. rewrite (onTable room user rs0 l sl minStream _ s d r _ Hready Esel). cbn [fst snd].
  destruct (showRows_spec visibilityTime nowTs user rs0 "f" p T r) as (r' & Erows & Hr'); [apply Hready| |].
  { apply Forall_take. rewrite Forall_forall. intros x Hin. unfold forth in Hin. apply list_elem_of_In, filter_In in Hin as [_ Hx]. unfold offsetOk.
    cbn [String.eqb Ascii.eqb Bool.eqb andb orb]. exact Hx. }
  destruct T as [|x0 T0] eqn:ET.
  - cbn [map]. apply (take_empty n) in ET; [|done]. eexists _, _, _, s, r. split; [done|]. split; [done|]. exists []. rewrite ET. split_and!; [done|done|cbn; lia|done].
  - rewrite <- ET in *. destruct (map foundOf T) as [|y0 rows] eqn:Em; [by rewrite ET in Em|]. rewrite Erows.
    destruct (putRoomState_ready room user rs0 l sl minStream s d r r' Hready Hr') as (s' & -> & Hready'). unfold mret, ST_ret.
    cbn [String.eqb Ascii.eqb Bool.eqb]. eexists _, _, _, s', r'. split; [done|]. split; [done|].
    destruct (last T) as [x|] eqn:El; [|apply last_None in El; by rewrite El in ET]. apply last_Some in El as [A' EA].
    assert (Eb : forth all p = ((A' ++ [x]) ++ drop (Z.to_nat n) (forth all p))%list) by (rewrite <- EA; unfold T; by rewrite take_drop).
    exists T. rewrite <- (forth_cut all p A' x _ Ha Eb), EA. split_and!; [done|done|rewrite length_map, <- EA; by apply filter_short|by destruct A'].
Qed.

Lemma cInContext_in l' : Forall (fun y => minStream < seOffset y) l' -> List.filter (cInContext visibilityTime nowTs user rs0 minStream) l' = List.filter inContext l'.
Proof using.
  intros Hf. apply List.filter_ext_in. intros y Hy%list_elem_of_In. rewrite Forall_forall in Hf. unfold cInContext. by rewrite (proj2 (Z.ltb_lt _ _) (Hf y Hy)), andb_true_r.
Qed.

Lemma older_below older tl x : ascends (older ++ l) -> Inv tl l -> l <> [] -> x ∈ older -> seOffset x < lower tl.
Proof using.
  intros Ha Hi Hne Hx. pose proof (inv_bounds _ _ Hi) as Hb. unfold Bounds in Hb. destruct l as [|y0 l0]; [done|]. destruct Hb as ((y & Hy & <-) & _).
  apply list_elem_of_split in Hy as (l1 & l2 & E). rewrite E in Ha. rewrite (assoc_L app) in Ha. eapply ascends_before; [exact Ha|]. apply elem_of_app. by left.
Qed.

Lemma bounds_of tl x : Inv tl l -> x ∈ l -> lower tl <= seOffset x <= upper tl.
Proof using.
  intros Hi Hx. pose proof (inv_bounds _ _ Hi) as Hb. unfold Bounds in Hb. destruct l as [|y0 l0]; [by apply elem_of_nil in Hx|].
  destruct Hb as (_ & _ & Hall). rewrite Forall_forall in Hall. by apply Hall in Hx as (_ & ? & ?).
Qed.

Lemma back_same all p e : e <= p -> (forall x, x ∈ all -> seOffset x <= p -> seOffset x <= e) -> back all e = back all p.
Proof using.
  intros Hle Hx. rewrite <- (back_back all p e Hle). apply filter_true. rewrite Forall_forall. intros x [Hin Hp]%back_in. by apply Z.leb_le, Hx.
Qed.

(** What the loop in memory leaves. *)
Lemma memory_before older tl createEv p n A B e : ascends (older ++ l) -> Forall (fun x => 2 < seOffset x) (older ++ l) -> Inv tl l -> l <> [] ->
  lower tl <= p -> minStream < p -> 0 < n -> List.filter (inPage p minStream) (reverse l) = (A ++ B)%list ->
  (A = [] -> B = []) -> (forall x, last A = Some x -> seOffset x = minStream -> B = []) ->
  e = match last A with Some x => endOf minStream x | None => Z.max (lower tl - 1) minStream end ->
  Z.of_nat (length (List.filter (cInContext visibilityTime nowTs user rs0 minStream) A)) <= n ->
  Before (older ++ l) createEv p n (map seEv (List.filter (cInContext visibilityTime nowTs user rs0 minStream) A)) e.
Proof using.
  intros Ha Htwo Hi Hne Hlow Hmin Hn EC Hnil Hend He Hlen. set (all := (older ++ l)%list) in *. left. destruct (back_front l minStream older p Ha) as [rest Eb]. fold all in Eb.
  rewrite EC in Eb. destruct (last A) as [x|] eqn:Elast.
  - apply last_Some in Elast as [A' ->]. pose proof (back_descending all p Ha) as Hd. rewrite Eb, <- !app_assoc in Hd. cbn [app] in Hd.
    assert (HxC : x ∈ List.filter (inPage p minStream) (reverse l)) by (rewrite EC; set_solver). apply list_elem_of_In, filter_In in HxC as [_ Hxp].
    unfold inPage, checkOffset in Hxp. apply andb_true_iff in Hxp as [_ Hxm%Z.leb_le].
    assert (Hbef : Forall (fun y => minStream < seOffset y) A') by (eapply Forall_impl; [exact (descending_before _ _ _ Hd)|]; cbn; lia).
    unfold endOf in He. destruct (Z.eqb_spec (seOffset x) minStream) as [Ex|Ex].
    + rewrite (Hend x eq_refl Ex), app_nil_r, <- app_assoc in Eb. cbn [app] in Eb. pose proof (back_from all p A' x rest Ha Eb) as Efrom.
      assert (Eout : List.filter (cInContext visibilityTime nowTs user rs0 minStream) (A' ++ [x]) = List.filter inContext A').
      { rewrite List.filter_app, cInContext_in by done. cbn [List.filter]. unfold cInContext. rewrite Ex, Z.ltb_irrefl, andb_false_r. by rewrite app_nil_r. }
      rewrite Eout in Hlen |- *. exists A'. rewrite He, Efrom, length_map. split_and!; try done. intros ->. rewrite Eb. cbn [app].
      constructor; [left; lia|]. pose proof (back_descending all p Ha) as Hd'. rewrite Eb in Hd'. apply StronglySorted_inv in Hd' as [_ Hall].
      eapply Forall_impl; [exact Hall|]. cbn. intros y Hy. left. lia.
    + assert (Eout : List.filter (cInContext visibilityTime nowTs user rs0 minStream) (A' ++ [x]) = List.filter inContext (A' ++ [x]))
        by (apply cInContext_in, Forall_app; split; [done|constructor; [lia|done]]).
      rewrite Eout in Hlen |- *. exists (A' ++ [x])%list. rewrite <- app_assoc in Eb. rewrite He, <- (back_cut all p A' x (B ++ rest) Ha Eb), length_map. split_and!; try done. by destruct A'.
  - apply last_None in Elast as ->. rewrite (Hnil eq_refl) in *. cbn [List.filter map]. exists [].
    assert (Hno : forall x, x ∈ l -> ~ minStream <= seOffset x <= p).
    { intros x Hx [Hlo Hhi]. assert (Hin : x ∈ List.filter (inPage p minStream) (reverse l)).
      { apply list_elem_of_In, filter_In. split; [by apply list_elem_of_In, elem_of_reverse|]. unfold inPage, checkOffset. cbn [String.eqb Ascii.eqb Bool.eqb].
        by rewrite (proj2 (Z.leb_le _ _) Hlo), (proj2 (Z.leb_le _ _) Hhi). }
      rewrite EC in Hin. by apply elem_of_nil in Hin. }
    pose proof (inv_bounds _ _ Hi) as Hb. unfold Bounds in Hb. assert (Hlo : exists y, y ∈ l /\ seOffset y = lower tl) by (destruct l; [done|apply Hb]).
    destruct Hlo as (y & Hy & Ey). pose proof (Hno y Hy) as Hyno. assert (Elm : e = minStream) by lia.
    assert (Hall : forall x, x ∈ all -> seOffset x <= p -> seOffset x <= minStream).
    { intros x [Hx|Hx]%elem_of_app Hle; [pose proof (older_below older tl x Ha Hi Hne Hx); lia|pose proof (Hno x Hx); lia]. }
    rewrite Elm, (back_same all p minStream) by (done || lia). split_and!; [done|done|cbn; lia|]. intros _. rewrite Forall_forall. intros x [Hx Hle]%back_in. left. by apply Hall.
Qed.

Lemma messages_before s d r older tl createEv p pts n : Ready s d r -> HasTable d room (older ++ l) -> ascends (older ++ l) -> Forall (fun x => 2 < seOffset x) (older ++ l) ->
  NoDup (map (fun y => ceEventID (seEv y)) (older ++ l)) -> Inv tl l -> l <> [] -> 0 < n ->
  exists out e t s' r', getMessages visibilityTime nowTs r tl createEv minStream user room "b" p pts n s = (Ok (out, e, t, r'), s') /\ Ready s' d r' /\
    Before (older ++ l) createEv p n out e.
Proof using.
  intros Hready Htab Ha Htwo Hnd Hi Hne Hn. unfold getMessages, GetFeedRange. cbn [String.eqb Ascii.eqb Bool.eqb]. rewrite andb_false_r.
  destruct (match createEv with Some c => _ | None => false end) eqn:Ec.
  - destruct createEv as [c|]; [|done]. apply andb_true_iff in Ec as [[Hc1%Z.ltb_lt Hc2%Z.leb_le]%andb_true_iff _]. eexists _, _, _, s, r. split; [done|]. split; [done|].
    left. exists []. split_and!; [done|done|cbn; lia|]. intros _. rewrite Forall_forall. intros x [_ Hx]%back_in. right. exists c. split; [done|lia].
  - destruct ((p <? lower tl) || (p <=? minStream)) eqn:Edb; [by apply db_before|]. apply orb_false_iff in Edb as [E1%Z.ltb_ge E2%Z.leb_gt].
    unfold mbind, ST_bind. pose proof (ForRangeReverse_abs tl l (fun st x => stepBack visibilityTime nowTs user p minStream st 0%nat x) (mkCtxScan [] ∅ n 0 0 r) (inv_rep _ _ Hi)) as Ew.
    change (ForRangeReverse tl (stepBack visibilityTime nowTs user p minStream) (mkCtxScan [] ∅ n 0 0 r) = Ok (walkList (fun st x => stepBack visibilityTime nowTs user p minStream st 0%nat x) (reverse l) (mkCtxScan [] ∅ n 0 0 r))) in Ew.
    rewrite Ew. cbn [liftR].
    destruct (back_walk visibilityTime nowTs user rs0 p minStream (reverse l) (mkCtxScan [] ∅ n 0 0 r)) as (A & B & st & -> & EC & Hs & Eo & El & Ee & Hnil & Hend);
      [apply Hready|done|by eapply ascends_ids|done|]. cbn [xOut xLimit xEndPos app] in *.
    destruct (putRoomState_ready room user rs0 l sl minStream s d r (xRs st) Hready Hs) as (s1 & -> & Hr1). unfold mret, ST_ret.
    eexists _, _, _, s1, (xRs st). split; [done|]. split; [done|]. rewrite Eo. apply (memory_before older tl createEv p n A B); try done.
    rewrite Ee. destruct (last A) as [x|] eqn:Elast; [|done]. unfold endOf.
    assert (Hx : 2 < seOffset x).
    { apply last_Some in Elast as [A' ->]. assert (Hin : x ∈ List.filter (inPage p minStream) (reverse l)) by (rewrite EC; set_solver).
      apply list_elem_of_In, filter_In in Hin as [Hin%list_elem_of_In _]. rewrite elem_of_reverse in Hin. rewrite Forall_forall in Htwo. apply Htwo, elem_of_app. by right. }
    destruct (Z.eqb_spec (seOffset x) minStream); [rewrite (proj2 (Z.eqb_neq (seOffset x) 0)) by lia|rewrite (proj2 (Z.eqb_neq (seOffset x - 1) 0)) by lia]; done.
Qed.

Lemma messages_after s d r older tl createEv p pts n : Ready s d r -> HasTable d room (older ++ l) -> ascends (older ++ l) -> Forall (fun x => 2 < seOffset x) (older ++ l) ->
  NoDup (map (fun y => ceEventID (seEv y)) (older ++ l)) -> Inv tl l -> l <> [] -> 0 < n ->
  exists out e t s' r', getMessages visibilityTime nowTs r tl createEv minStream user room "f" p pts n s = (Ok (out, e, t, r'), s') /\ Ready s' d r' /\
    After (older ++ l) p n out e.
Proof using.
  intros Hready Htab Ha Htwo Hnd Hi Hne Hn. unfold getMessages, GetFeedRange. cbn [String.eqb Ascii.eqb Bool.eqb]. rewrite andb_true_r.
  assert (Hcr : match createEv with Some c => (0 <? p) && (p <=? seOffset c) && false | None => false end = false) by (destruct createEv; [apply andb_false_r|done]). rewrite Hcr.
  assert (Hl : forall x, x ∈ (older ++ l)%list -> seOffset x <= upper tl).
  { pose proof (inv_bounds _ _ Hi) as Hb. unfold Bounds in Hb. assert (Hlo : exists y, y ∈ l /\ seOffset y = lower tl) by (destruct l; [done|apply Hb]). destruct Hlo as (y & Hy & Ey).
    pose proof (bounds_of tl y Hi Hy). intros x [Hx|Hx]%elem_of_app; [pose proof (older_below older tl x Ha Hi Hne Hx); lia|by apply bounds_of]. }
  assert (Hnone : forall q, upper tl < q -> forth (older ++ l) q = []).
  { intros q Hq. unfold forth. apply filter_all_false. rewrite Forall_forall. intros x Hx. apply Z.leb_gt. specialize (Hl x Hx). lia. }
  destruct (Z.ltb_spec (upper tl) p) as [Hup|Hup].
  - eexists _, _, _, s, r. split; [done|]. split; [done|]. exists []. rewrite (Hnone p Hup). split_and!; try done. cbn. lia.
  - destruct ((p <? lower tl) || (p <=? minStream)) eqn:Edb; [by apply db_after|]. apply orb_false_iff in Edb as [E1%Z.ltb_ge E2%Z.leb_gt].
    assert (Eall : forth (older ++ l) p = List.filter (fun x => p <=? seOffset x) l).
    { unfold forth. rewrite List.filter_app, (filter_all_false _ older); [done|]. rewrite Forall_forall. intros x Hx. apply Z.leb_gt. pose proof (older_below older tl x Ha Hi Hne Hx). lia. }
    unfold mbind, ST_bind. pose proof (ForRange_abs tl l (fun st x => stepForth visibilityTime nowTs user p minStream st 0%nat x) (mkCtxScan [] ∅ n 0 0 r) (inv_rep _ _ Hi)) as Ew.
    change (ForRange tl (stepForth visibilityTime nowTs user p minStream) (mkCtxScan [] ∅ n 0 0 r) = Ok (walkList (fun st x => stepForth visibilityTime nowTs user p minStream st 0%nat x) l (mkCtxScan [] ∅ n 0 0 r))) in Ew.
    rewrite Ew. cbn [liftR].
    destruct (forth_walk visibilityTime nowTs user rs0 p minStream l (mkCtxScan [] ∅ n 0 0 r)) as (A & B & st & -> & EC & Hs & Eo & El & Ee & Hnil);
      [apply Hready|done|by rewrite map_app in Hnd; apply NoDup_app in Hnd as (_ & _ & ?)|lia|done|]. cbn [xOut xLimit xEndPos app] in *.
    destruct (putRoomState_ready room user rs0 l sl minStream s d r (xRs st) Hready Hs) as (s1 & -> & Hr1). unfold mret, ST_ret.
    eexists _, _, _, s1, (xRs st). split; [done|]. split; [done|]. rewrite Eo, Ee. exists A. destruct (last A) as [x|] eqn:Elast.
    + apply last_Some in Elast as [A' ->]. assert (Hx : 2 < seOffset x).
      { assert (Hin : x ∈ List.filter (fun y => p <=? seOffset y) l) by (rewrite EC; set_solver). apply list_elem_of_In, filter_In in Hin as [Hin%list_elem_of_In _].
        rewrite Forall_forall in Htwo. apply Htwo, elem_of_app. by right. }
      rewrite (proj2 (Z.eqb_neq (seOffset x + 1) 0)) by lia. cbn [fst snd]. rewrite EC in Eall. rewrite <- (forth_cut _ p A' x B Ha Eall), length_map. split_and!; try done. by destruct A'.
    + apply last_None in Elast as ->. rewrite (Hnil eq_refl) in EC. cbn [Z.eqb fst snd]. rewrite Eall, EC, (Hnone (upper tl + 1)) by lia. split_and!; done.
Qed.

(** ** The request *)

(** Reading old states from the database answers or fails. *)
Definition statesAnswer : Prop := forall roomID pos (d : D), match (GetStateEventsStreamForRoomBeforePos roomID pos d).1 with Ok _ | Err _ => True | _ => False end.

Lemma states_answer s d r e : statesAnswer -> Ready s d r -> exists evs s', onStates (GetStateEvents room e) s = (Ok evs, s').
Proof using.
  intros Hdb Hready. destruct (getStreams_ready room user rs0 l sl minStream s d r Hready) as (tl & s1 & E & _ & k & Hk). unfold GetStateEvents. rewrite onStates_bind.
  unfold mbind at 1, ST_bind at 1. rewrite E. unfold mbind, ST_bind, onStates, onReceipts. rewrite (GetFeeds_selects tl k (-1) e Hk). cbn [liftR fst snd].
  set (found := omap _ _). destruct (length found =? 0)%nat; [|by eexists _, _]. unfold onStateDb. specialize (Hdb room e (stPersist (Receipts.members (receipts s1)))).
  destruct (GetStateEventsStreamForRoomBeforePos room e (stPersist (Receipts.members (receipts s1)))) as [[rows|err| |] d']; cbn in Hdb; try done; by eexists _, _.
Qed.

Context (cfg : Config).

(** C13: The context of an event surrounds it. A room in memory holds the last events
    [l] of the events [older ++ l] in the table, and [w] is one of them that is not
    too old. A user who is or was in the room and asks for the context of [w] with a
    limit of at least two gets [w], at most half of the limit before it and at most
    the rest after it, and nothing that is shown is skipped between [w] and the
    positions of the tokens of the reply, at which the two lists go on: with one
    exception ([Before]), when none of the events on the page before [w] is shown, the
    list is empty and its token stands at the create event. *)
Theorem context_surrounds s d r older w limit : IsRelatedRequest room (Instance_ cfg) (Total cfg) (MultiWrite cfg) = Ok true -> mayRead user rs0 ->
  Ready s d r -> HasTable d room (older ++ l) -> ascends (older ++ l) -> Forall (fun x => 2 < seOffset x) (older ++ l) ->
  NoDup (map (fun y => ceEventID (seEv y)) (older ++ l)) -> l <> [] -> statesAnswer -> 2 <= limit ->
  StreamEvents (ceEventID (seEv w)) d = (Ok [foundOf w], d) ->
  (0 <? visibilityTime) && (Z.quot (ceOriginServerTS (seEv w)) 1000 + visibilityTime <? nowTs) = false ->
  exists before start ts after end_ te state s',
    GetEventContext visibilityTime nowTs cfg user room (ceEventID (seEv w)) limit s =
      (Ok (ContextEventResp before (BuildPreBatch start ts) (seEv w) after (BuildPreBatch end_ te) state), s') /\
    Before (older ++ l) (GetState rs0 "m.room.create" "") (seOffset w - 1) (Z.quot limit 2) before start /\
    After (older ++ l) (seOffset w + 1) (limit - Z.quot limit 2) after end_.
Proof using.
  intros Hrel Hmay Hready Htab Ha Htwo Hnd Hne Hdb Hlim Hfound Hage. unfold GetEventContext.
  unfold mbind at 1 2 3 4, ST_bind at 1 2 3 4. rewrite Hrel. cbn [liftR negb].
  destruct (quiet_ready room user rs0 l sl minStream _ _ s d r (streams_quiet room user l sl minStream r) Hready) as (s1 & -> & Hr1). cbn [getServer].
  assert (Hrs1 : roomStateOf s1 room = Some r) by (destruct Hr1 as (Hw & _); exact (w_rs _ _ _ _ _ _ _ Hw)). rewrite Hrs1.
  assert (Hmem : join r = join rs0 /\ leave r = leave rs0) by (destruct Hready as (_ & [-> | ->] & _); [done|unfold arranged; by case_decide]).
  destruct Hmem as (Ej & El). rewrite Ej, El.
  assert (Hguard : negb (bool_decide (is_Some (join rs0 !! user))) && negb (bool_decide (is_Some (leave rs0 !! user))) = false)
    by (destruct Hmay as [Hj|Hl]; [rewrite (bool_decide_eq_true_2 _ Hj)|rewrite (bool_decide_eq_true_2 _ Hl), andb_false_r]; done).
  rewrite Hguard. destruct (quiet_ready room user rs0 l sl minStream _ _ s1 d r (minStream_quiet room user l sl minStream r) Hr1) as (s2 & -> & Hr2).
  unfold orAnswer at 1. rewrite (onTable room user rs0 l sl minStream _ s2 d r _ Hr2 Hfound). cbn [foundOf fEv fOffset]. rewrite Hage.
  destruct (getHistory_ready room user rs0 l sl minStream s2 d r Hr2) as (tl & s3 & E3 & Hr3 & Hi). unfold mbind at 1, ST_bind at 1. rewrite E3.
  assert (Ecr : GetState r "m.room.create" "" = GetState rs0 "m.room.create" "") by (destruct Hready as (_ & Hs & _); by apply (GetState_same user)). rewrite Ecr.
  destruct (messages_before s3 d r older tl (GetState rs0 "m.room.create" "") (seOffset w - 1) (ceOriginServerTS (seEv w)) (Z.quot limit 2) Hr3 Htab Ha Htwo Hnd Hi Hne)
    as (before & start & ts & s4 & r4 & E4 & Hr4 & Hbefore); [apply Z.quot_str_pos; lia|].
  unfold orAnswer at 1. rewrite E4. cbn [fst snd].
  destruct (messages_after s4 d r4 older tl (GetState rs0 "m.room.create" "") (seOffset w + 1) (ceOriginServerTS (seEv w)) (limit - Z.quot limit 2) Hr4 Htab Ha Htwo Hnd Hi Hne)
    as (after & end_ & te & s5 & r5 & E5 & Hr5 & Hafter).
  { pose proof (Z.quot_lt limit 2 ltac:(lia) ltac:(lia)). lia. }
  unfold orAnswer at 1. rewrite E5. cbn [fst snd]. destruct (states_answer s5 d r5 end_ Hdb Hr5) as (evs & s6 & E6). unfold mbind, ST_bind. rewrite E6.
  by exists before, start, ts, after, end_, te, (map seEv evs), s6.
Qed.

End Surround.

(** ** The room of [SyncPaging] *)

#[local] Existing Instance SyncRoomStateFacts.plainJson.
#[local] Existing Instance ReceiptDelivery.binaryJson.
#[local] Existing Instance SyncSessions.roomDb.
#[local] Existing Instance SyncSessions.stateDb.

Section Sample.
#[local] Existing Instance SyncPaging.roomTable.

Lemma context_surrounds_witness :
  let w := mkStreamEvent (message 10) 100 in
  exists before start ts after end_ te state s',
    GetEventContext 0 0 oneInstance "@u:a" "!r:a" "$m10" 11 loaded35 =
      (Ok (ContextEventResp before (BuildPreBatch start ts) (seEv w) after (BuildPreBatch end_ te) state), s') /\
    Before 0 0 "@u:a" rs35 1 (old5 ++ last30) (GetState rs35 "m.room.create" "") 99 5 before start /\
    After 0 0 "@u:a" rs35 (old5 ++ last30) 101 6 after end_.
Proof.
  intros w. apply (context_surrounds 0 0 "!r:a" "@u:a" rs35 last30 (map freshState (take 2 roomOf35)) 1 oneInstance loaded35 roomOf35 rs35 old5 w 11).
  - by vm_compute.
  - left. apply (bool_decide_unpack _). by vm_compute.
  - apply ready35.
  - rewrite all35. apply table_all.
  - apply (hs_asc _ history35).
  - eapply Forall_impl; [exact offsets35|]. intros x Hx. apply Hx.
  - apply (hs_ids _ history35).
  - done.
  - intros roomID pos d. done.
  - lia.
  - by vm_compute.
  - done.
Defined.

(** The identifiers of a reply, and where it goes on before. *)
Definition contextIds (r : res ContextReply) : option (list string * string * list string) :=
  match r with Ok (ContextEventResp before _ ev after _ _) => Some (map ceEventID before, ceEventID ev, map ceEventID after) | _ => None end.

Definition contextStart (r : res ContextReply) : string := match r with Ok (ContextEventResp _ start _ _ _ _) => start | _ => "" end.

Example context_of_10 : contextIds (GetEventContext 0 0 oneInstance "@u:a" "!r:a" "$m10" 5 loaded35).1 =
  Some (["$m9"; "$m8"], "$m10", ["$m11"; "$m12"; "$m13"]).
Proof. by vm_compute. Qed.

(** ** What goes wrong *)

(** With a limit of one the limit for the events before is zero and is never met: all
    that is in memory is sent. *)
Theorem context_limit_one :
  match contextIds (GetEventContext 0 0 oneInstance "@u:a" "!r:a" "$m35" 1 loaded35).1 with Some (before, _, _) => length before | None => 0%nat end = 29%nat.
Proof. by vm_compute. Qed.

(** Two messages, two events that are not shown, 32 messages. *)
Definition hiddenPart : RoomDb :=
  ([(createEv, 10); (joinEv, 20); (message 3, 30); (roomEv "$x4" "m.room._ext.enter" "" None 40, 40); (roomEv "$x5" "m.room._ext.leave" "" None 50, 50)] ++
   map (fun e => (e.1, 10 * e.2)) (messages 6 32))%list.

(** When none of the rows that were read is shown, the reply goes on at the create
    event, although events before those rows are shown. *)
Theorem context_skips_history :
  let r := (_ ← loadRoom "@u:a" "!r:a"; GetEventContext 0 0 oneInstance "@u:a" "!r:a" "$m6" 4) (restarted hiddenPart) in
  contextIds r.1 = Some ([], "$m6", ["$m7"; "$m8"]) /\ contextStart r.1 = BuildPreBatch 10 40 /\
  contextIds (GetEventContext 0 0 oneInstance "@u:a" "!r:a" "$m6" 6 r.2).1 = Some (["$m3"], "$m6", ["$m7"; "$m8"; "$m9"]).
Proof. by vm_compute. Qed.

End Sample.

(** A table that also has an event of another room. *)
Definition secret : ClientEvent := mkClientEvent "" "$secret" "!s:b" "@v:b" None "m.room.message" 10.

#[local] Instance mixedTable : EventsTable RoomDb := {
  outputRows d := (Ok (mkRow 500 "!s:b" "$secret" 10 (Some (secret, 500)) :: map (fun e => rowOf "!r:a" (at_ e)) d), d);
}.

(** The event is looked up by its identifier alone, so a member of any room can read
    the events of all rooms. *)
Theorem context_reads_other_rooms :
  match (GetEventContext 0 0 oneInstance "@u:a" "!r:a" "$secret" 2 loaded35).1 with
  | Ok (ContextEventResp _ _ ev _ _ _) => ev = secret /\ ceRoomID ev = "!s:b"
  | _ => False
  end.
Proof. by vm_compute. Qed.

End EventContextFacts.
