(* ===== verification/DeviceStream.v ===== *)
(** * Messages to devices

    Clients send messages to devices of other users ([Process] of
    [src/syncaggregate/api/sendToDevice.go], [processStd] of
    [src/syncaggregate/rpc/sendtodevice.go]).  [STDEventStreamRepo]
    ([src/model/repos/stdEventStreamRepo.go]) keeps the last 500 of each device in a
    timeline, loads the newest 100 from the table
    ([src/storage/implements/syncapi/send_to_device_table.go]) on first use, and writes
    new ones when its timer calls [flush].  A sync takes those after the position in the
    token of the client and deletes the others ([addSendToDevice] of
    [src/syncaggregate/sync/syncMng.go]).

    A timeline holds pointers to its items, so that an item is changed in its slot and
    the timeline in the repository ([putTimeLine]).  Statements fail as [faults] says; the
    table is written directly (without [AsyncSave]).  [stdIds] are the identifiers that
    the generator gives, one after the other.  The theorems are in [DeviceFacts]. *)

From Stdlib Require Import String Ascii ZArith List Lia.
From stdpp Require Import base tactics list gmap strings.
From S2P Require Import Prelude Timeline TimelineRepo RepoLines Loader SyncHistory Ids Push Receipts ReceiptConsumer SyncRoomState SyncStates SyncBuild RoomMessages.

#[local] Open Scope string_scope.
#[local] Open Scope Z_scope.

Module DeviceStream.
Import Timeline TimelineRepo RepoLines Loader RoomMessages.

(** The JSON of the content of a message, a value of any shape. *)
Class DeviceJson (C : Type) := {
  marshal : C -> option string;
  unmarshal : string -> option C;
}.

(** [common.GetDeviceMac]: what is before the last colon. *)
Fixpoint lastCut (c : ascii) (s : string) : option string :=
  match s with
  | EmptyString => None
  | String d s' =>
      match lastCut c s' with
      | Some p => Some (String d p)
      | None => if Ascii.eqb d c then Some EmptyString else None
      end
  end.

Definition GetDeviceMac (deviceID : string) : string := default deviceID (lastCut ":" deviceID).

Example mac_of : GetDeviceMac "AA:BB:x" = "AA:BB" /\ GetDeviceMac "dev" = "dev".
Proof. by vm_compute. Qed.

(** [common.IsActualDevice]. *)
Definition IsActualDevice (deviceType : string) : bool := String.eqb deviceType "actual" || String.eqb deviceType "internal".

(** ** The table [syncapi_send_to_device] *)

Record StdRow := mkStdRow {
  stSender : string;
  stEventType : string;
  stTargetUser : string;
  stTargetDevice : string;
  stJson : string;
  stIdentifier : string;
}.

Record StdDb := mkStdDb { stdRows : gmap Z StdRow; stdFaults : list bool }.

(** A statement: [true] as next fault makes it fail. *)
Definition execStd {A} (f : gmap Z StdRow -> res A * gmap Z StdRow) : ST StdDb A := fun d =>
  match stdFaults d with
  | true :: rest => (Err (ErrMsg "sql"), mkStdDb (stdRows d) rest)
  | b => let '(r, rows) := f (stdRows d) in (r, mkStdDb rows (tail b))
  end.

(** [insertSTDSQL]; [id] is the primary key. *)
Definition insertStdEvent (id : Z) (row : StdRow) : ST StdDb unit :=
  execStd (fun rows => match rows !! id with
                       | Some _ => (Err (ErrMsg "unique"), rows)
                       | None => (Ok (), <[id := row]> rows)
                       end).

Definition ofDevice (userID deviceID : string) (row : StdRow) : bool :=
  String.eqb (stTargetUser row) userID && String.eqb (stTargetDevice row) deviceID.

Definition keepRows (p : Z * StdRow -> bool) (rows : gmap Z StdRow) : gmap Z StdRow := filter (fun kv => p kv = true) rows.

(** [deleteSTDSQL], [deleteDeviceSTDSQL] and [deleteMacSTDSQL]. *)
Definition deleteStdEvent (id : Z) (userID deviceID : string) : ST StdDb unit :=
  execStd (fun rows => (Ok (), keepRows (fun kv => negb (ofDevice userID deviceID kv.2 && (kv.1 <=? id))) rows)).

Definition deleteDeviceStdEvent (userID deviceID : string) : ST StdDb unit :=
  execStd (fun rows => (Ok (), keepRows (fun kv => negb (ofDevice userID deviceID kv.2)) rows)).

Definition deleteMacStdEvent (identifier userID deviceID : string) : ST StdDb unit :=
  execStd (fun rows => (Ok (), keepRows (fun kv => negb (String.eqb (stTargetUser kv.2) userID && String.eqb (stIdentifier kv.2) identifier &&
    negb (String.eqb (stTargetDevice kv.2) deviceID))) rows)).

Definition newer_leb (a b : Z * StdRow) : bool := b.1 <=? a.1.

(** [selectHistorySTDEventsStreamSQL]: the newest first. *)
Definition deviceRows (userID deviceID : string) (rows : gmap Z StdRow) : list (Z * StdRow) :=
  gosort newer_leb (List.filter (fun kv => ofDevice userID deviceID kv.2) (map_to_list rows)).

Section Device_.
  Context {C : Type} `{DeviceJson C} `{GoRange}.

Record StdEvent := mkStdEvent { sdSender : string; sdType : string; sdContent : C }.

(** A row whose text is not JSON is left out. *)
Definition selectHistoryStream (userID deviceID : string) (limit : nat) : ST StdDb (list (StdEvent * Z)) :=
  execStd (fun rows =>
    (Ok (omap (fun kv => c ← unmarshal (stJson kv.2); Some (mkStdEvent (stSender kv.2) (stEventType kv.2) c, kv.1))
           (take limit (deviceRows userID deviceID rows))), rows)).

(** ** The repository *)

Record STDEventStream := mkStdStream {
  stdOffset : Z;
  stdData : StdEvent;
  TargetUserID : string;
  TargetDeviceID : string;
  stdWritten : bool;
  stdRead : bool;
}.

#[export] Instance STDEventStream_feed : Feed STDEventStream := stdOffset.

Record STDEventStreamRepo := mkStdRepo {
  stdRepo : TimeLineRepo STDEventStream;
  stdGate : Gate;
  updatedKey : gmap string bool;
  stdDb : StdDb;
  stdIds : list Z;
}.

Definition NewSTDEventStreamRepo (bukSize maxEntries : nat) (d : StdDb) (ids : list Z) : STDEventStreamRepo :=
  mkStdRepo (NewTimeLineRepo bukSize 500 true maxEntries) (mkGate ∅ ∅ [] []) ∅ d ids.

Definition set_stdRepo (s : STDEventStreamRepo) (r : TimeLineRepo STDEventStream) : STDEventStreamRepo :=
  mkStdRepo r (stdGate s) (updatedKey s) (stdDb s) (stdIds s).
Definition set_stdGate (s : STDEventStreamRepo) (g : Gate) : STDEventStreamRepo :=
  mkStdRepo (stdRepo s) g (updatedKey s) (stdDb s) (stdIds s).
Definition set_updatedKey (s : STDEventStreamRepo) (u : gmap string bool) : STDEventStreamRepo :=
  mkStdRepo (stdRepo s) (stdGate s) u (stdDb s) (stdIds s).
Definition set_stdDb (s : STDEventStreamRepo) (d : StdDb) : STDEventStreamRepo :=
  mkStdRepo (stdRepo s) (stdGate s) (updatedKey s) d (stdIds s).
Definition set_stdIds (s : STDEventStreamRepo) (ids : list Z) : STDEventStreamRepo :=
  mkStdRepo (stdRepo s) (stdGate s) (updatedKey s) (stdDb s) ids.

Definition onStdDb {A} (m : ST StdDb A) : ST STDEventStreamRepo A := fun s =>
  let '(r, d) := m (stdDb s) in (r, set_stdDb s d).

(** An operation of the repository of timelines. *)
Definition onLines {A} (f : TimeLineRepo STDEventStream -> res (A * TimeLineRepo STDEventStream)) : ST STDEventStreamRepo A := fun s =>
  match f (stdRepo s) with
  | Ok (a, r) => (Ok a, set_stdRepo s r)
  | Err e => (Err e, s)
  | Panic => (Panic, s)
  | Diverge => (Diverge, s)
  end.

Definition stdKey (userID deviceID : string) : string := userID ++ ":" ++ deviceID.

Definition stdTimeLine (key : string) : ST STDEventStreamRepo (option (TimeLines STDEventStream)) := onLines (fun r => getTimeLine r key).

(** The changed items of the timeline of a key. *)
Definition putLine (key : string) (tl : TimeLines STDEventStream) : ST STDEventStreamRepo unit :=
  onLines (fun r => r1 ← putTimeLine r key tl; Ok ((), r1)).

Definition addSTDEventStream (dataStream : StdEvent) (offset : Z) (userID deviceID : string) (loaded : bool) : ST STDEventStreamRepo unit :=
  let key := stdKey userID deviceID in
  _ ← onLines (fun r => '(r1, _) ← add r key (mkStdStream offset dataStream userID deviceID loaded false); Ok ((), r1));
  if loaded then mret ()
  else ((fun s => (Ok (), set_updatedKey s (<[key := true]> (updatedKey s)))) : ST STDEventStreamRepo unit).

Fixpoint addLoadedStd (userID deviceID : string) (streams : list (StdEvent * Z)) : ST STDEventStreamRepo unit :=
  match streams with
  | [] => mret ()
  | (ev, offset) :: rest => _ ← addSTDEventStream ev offset userID deviceID true; addLoadedStd userID deviceID rest
  end.

(** [loadHistory]: the newest 100, turned round. *)
Definition std_load (userID deviceID : string) : ST STDEventStreamRepo unit :=
  streams ← onStdDb (selectHistoryStream userID deviceID 100);
  _ ← addLoadedStd userID deviceID (reverse streams);
  if (length streams =? 0)%nat then onLines (fun r => r1 ← setDefault r (stdKey userID deviceID); Ok ((), r1)) else mret ().

(** The gate of the key of one device; a timeline that was dropped is loaded again. *)
Definition std_loads (userID deviceID : string) : Loads STDEventStreamRepo := {|
  gate := stdGate;
  set_gate := set_stdGate;
  body _ := std_load userID deviceID;
  stale key := tl ← stdTimeLine key; mret (match tl with Some _ => false | None => true end);
|}.

Definition LoadStdHistory (userID deviceID : string) (sync : bool) : ST STDEventStreamRepo unit :=
  @LoadHistory STDEventStreamRepo (std_loads userID deviceID) (stdKey userID deviceID) sync.

(** [tl.idg.Next]. *)
Definition nextStdId : ST STDEventStreamRepo Z := fun s =>
  match stdIds s with
  | [] => (Diverge, s)
  | id :: rest => (Ok id, set_stdIds s rest)
  end.

Definition AddSTDEventStream (dataStream : StdEvent) (userID deviceID : string) : ST STDEventStreamRepo unit :=
  _ ← LoadStdHistory userID deviceID true;
  offset ← nextStdId;
  addSTDEventStream dataStream offset userID deviceID false.

Definition GetStdHistory (userID deviceID : string) : ST STDEventStreamRepo (option (TimeLines STDEventStream)) :=
  _ ← LoadStdHistory userID deviceID true;
  stdTimeLine (stdKey userID deviceID).

Definition ExistsSTDEventUpdate (position : Z) (userID deviceID : string) : ST STDEventStreamRepo bool :=
  tl ← GetStdHistory userID deviceID;
  match tl with
  | None => onLines (fun r => r1 ← setDefault r (stdKey userID deviceID); Ok (false, r1))
  | Some tl => mret (position <? (GetFeedRange tl).2)
  end.

(** *** Writing *)

Definition markWritten (f : STDEventStream) : STDEventStream :=
  mkStdStream (stdOffset f) (stdData f) (TargetUserID f) (TargetDeviceID f) true (stdRead f).

Definition markRead (f : STDEventStream) : STDEventStream :=
  mkStdStream (stdOffset f) (stdData f) (TargetUserID f) (TargetDeviceID f) (stdWritten f) true.

(** One item of [flush]: [Some] is the item after it, [None] leaves it. *)
Definition flushItem (f : STDEventStream) : ST StdDb (option STDEventStream) := fun d =>
  if stdWritten f then (Ok None, d)
  else if stdRead f then (Ok (Some (markWritten f)), d)
  else
    match marshal (sdContent (stdData f)) with
    | None => (Ok None, d)
    | Some jsonBuffer =>
        match insertStdEvent (stdOffset f) (mkStdRow (sdSender (stdData f)) (sdType (stdData f)) (TargetUserID f) (TargetDeviceID f)
                jsonBuffer (GetDeviceMac (TargetDeviceID f))) d with
        | (Ok _, d1) => (Ok (Some (markWritten f)), d1)
        | (Err _, d1) => (Ok None, d1)
        | (Panic, d1) => (Panic, d1)
        | (Diverge, d1) => (Diverge, d1)
        end
    end.

(** The loop over the items, slot by slot. *)
Fixpoint flushStdFeeds (slots : list nat) (tl : TimeLines STDEventStream) : ST StdDb (TimeLines STDEventStream) :=
  match slots with
  | [] => mret tl
  | i :: rest =>
      feed ← liftR (getFeed tl i);
      match feed with
      | None => flushStdFeeds rest tl
      | Some f =>
          f1 ← flushItem f;
          tl1 ← liftR (match f1 with Some f1 => putFeed tl i (Some f1) | None => Ok tl end);
          flushStdFeeds rest tl1
      end
  end.

Definition flushKey (key : string) : ST STDEventStreamRepo unit :=
  _ ← ((fun s => (Ok (), set_updatedKey s (delete key (updatedKey s)))) : ST STDEventStreamRepo unit);
  tl ← stdTimeLine key;
  match tl with
  | None => mret ()
  | Some tl =>
      let '(start, end_) := GetRange tl in
      tl1 ← onStdDb (flushStdFeeds (seq start (end_ - start)) tl);
      putLine key tl1
  end.

Fixpoint flushKeys (keys : list string) : ST STDEventStreamRepo unit :=
  match keys with
  | [] => mret ()
  | k :: rest => _ ← flushKey k; flushKeys rest
  end.

(** [STDEventStreamRepo.flush]. *)
Definition flushStd : ST STDEventStreamRepo unit := fun s => flushKeys (map fst (range (updatedKey s))) s.

(** ** A sync *)

(** The loop of [addSendToDevice]: the events to send and the largest offset of them. *)
Fixpoint takeFeeds (stdRecv : Z) (slots : list nat) (tl : TimeLines STDEventStream) (out : list StdEvent) (maxPos : Z) :
    res (TimeLines STDEventStream * list StdEvent * Z) :=
  match slots with
  | [] => Ok (tl, out, maxPos)
  | i :: rest =>
      feed ← getFeed tl i;
      match feed with
      | None => takeFeeds stdRecv rest tl out maxPos
      | Some f =>
          if stdRecv <? stdOffset f then
            takeFeeds stdRecv rest tl (if stdRead f then out else out ++ [stdData f])%list (if maxPos <? stdOffset f then stdOffset f else maxPos)
          else
            tl1 ← (if stdRead f then Ok tl else putFeed tl i (Some (markRead f)));
            takeFeeds stdRecv rest tl1 out maxPos
      end
  end.

(** An error of the database, which is logged. *)
Definition logged {S} (m : ST S unit) : ST S bool := fun s =>
  match m s with
  | (Ok _, s1) => (Ok true, s1)
  | (Err _, s1) => (Ok false, s1)
  | (Panic, s1) => (Panic, s1)
  | (Diverge, s1) => (Diverge, s1)
  end.

(** [addSendToDevice]: the events and the position for the next token; with 0 the
    device has new keys and cannot read older messages. *)
Definition addSendToDevice (userID deviceID : string) (stdRecv : Z) : ST STDEventStreamRepo (list StdEvent * Z) :=
  history ← GetStdHistory userID deviceID;
  match history with
  | None => mret ([], stdRecv)
  | Some tl =>
      let feedUp := (GetFeedRange tl).2 in
      if stdRecv =? 0 then
        deleted ← logged (onStdDb (deleteDeviceStdEvent userID deviceID));
        mret ([], if (deleted : bool) then if 0 <? feedUp then feedUp else 1 else stdRecv)
      else if feedUp <=? stdRecv then mret ([], stdRecv)
      else
        _ ← logged (onStdDb (deleteStdEvent stdRecv userID deviceID));
        let '(start, end_) := GetRange tl in
        taken ← liftR (takeFeeds stdRecv (seq start (end_ - start)) tl [] (-1));
        _ ← putLine (stdKey userID deviceID) taken.1.1;
        mret (taken.1.2, if taken.2 =? -1 then stdRecv else taken.2)
  end.

(** ** Sending *)

(** The devices of a user in the cache: identifier and type. *)
Class DeviceCache := GetDevicesByUserID : string -> list (string * string).

Context `{DeviceCache} (cfg : Config).

Fixpoint sendToAll (dataStream : StdEvent) (uid : string) (devices : list (string * string)) : ST STDEventStreamRepo unit :=
  match devices with
  | [] => mret ()
  | (id, deviceType) :: rest =>
      _ ← (if IsActualDevice deviceType then AddSTDEventStream dataStream uid id else mret ());
      sendToAll dataStream uid rest
  end.

Fixpoint sendToDevices (sender eventType uid : string) (contents : list (string * C)) : ST STDEventStreamRepo unit :=
  match contents with
  | [] => mret ()
  | (deviceID, cont) :: rest =>
      let dataStream := mkStdEvent sender eventType cont in
      _ ← (if String.eqb deviceID "*" then sendToAll dataStream uid (GetDevicesByUserID uid)
           else AddSTDEventStream dataStream uid deviceID);
      sendToDevices sender eventType uid rest
  end.

Fixpoint sendToUsers (sender eventType : string) (users : list (string * gmap string C)) : ST STDEventStreamRepo unit :=
  match users with
  | [] => mret ()
  | (uid, deviceMap) :: rest =>
      related ← liftR (IsRelatedRequest uid (Instance_ cfg) (Total cfg) (MultiWrite cfg));
      _ ← (if (related : bool) then sendToDevices sender eventType uid (range deviceMap) else mret ());
      sendToUsers sender eventType rest
  end.

(** [processStd]. *)
Definition processStd (messages : gmap string (gmap string C)) (sender eventType : string) : ST STDEventStreamRepo unit :=
  sendToUsers sender eventType (range messages).

(** [ReqPutSendToDevice.Process]; a body that is not JSON is an empty request. *)
Definition PutSendToDevice (userID deviceType eventType : string) (body : option (gmap string (gmap string C))) : ST STDEventStreamRepo Z :=
  if IsActualDevice deviceType then _ ← processStd (default ∅ body) userID eventType; mret 200 else mret 200.

End Device_.
Arguments StdEvent C : clear implicits.
Arguments STDEventStream C : clear implicits.
Arguments STDEventStreamRepo C : clear implicits.

End DeviceStream.
