(* ===== verification/DeviceFacts.v ===== *)
(** * Messages to devices: each one once

    - [to_device_exactly_once]: a device that returns its tokens gets every message
      once and in order, whatever replies are lost, over restarts, while few messages
      wait and all devices fit into the repository.
    - [backlog_lost_on_restart], [failed_flush_forgotten], [dropped_line_lost]: runs in
      which messages are lost. *)

From Stdlib Require Import String ZArith List Lia Sorted Permutation.
From stdpp Require Import base tactics list gmap strings pretty.
From S2P Require Import Prelude Timeline TimelineRepo RepoLines Loader RoomRows ReceiptFacts DeviceStream.

#[local] Open Scope string_scope.
#[local] Open Scope Z_scope.

Module DeviceFacts.
Import Timeline TimelineRepo RepoLines Loader DeviceStream.

Section Facts.
  Context {C : Type} `{DeviceJson C} `{GoRange} (K : gset string).
  Implicit Types (s : STDEventStreamRepo C) (r : TimeLineRepo (STDEventStream C)) (f : STDEventStream C) (l : list (STDEventStream C)).

(** ** Timelines of devices *)

Record Line (tl : TimeLines (STDEventStream C)) : Prop := {
  ln_inv : Inv tl (items tl);
  ln_limit : limit tl = true;
  ln_size : size tl = 500%nat;
  ln_ofo : ofo tl = false;
  ln_sorted : RepoLines.ascending (items tl);
}.

Lemma Line_intro tl l : Inv tl l -> limit tl = true -> size tl = 500%nat -> ofo tl = false -> RepoLines.ascending l -> Line tl /\ items tl = l.
Proof using. intros Hi. pose proof (items_inv tl l Hi) as E. by rewrite <- E in *. Qed.

Record Lines r : Prop := {
  ls_roomy : Roomy K r;
  ls_size : tlSize r = 500%nat;
  ls_limit : tlLimit r = true;
  ls_line : forall key tl, get r key = Some tl -> Line tl;
}.

Definition freshLine : TimeLines (STDEventStream C) := NewEvTimeLines 500 true.

Lemma freshLine_ok : Line freshLine /\ items freshLine = [].
Proof using. apply Line_intro; try done; [apply New_Inv; lia|constructor]. Qed.

Definition lineOf r key : TimeLines (STDEventStream C) := default freshLine (get r key).

Definition lines s key : list (STDEventStream C) := items (lineOf (stdRepo s) key).

Lemma lineOf_ok r key : Lines r -> Line (lineOf r key).
Proof using. intros Hr. unfold lineOf. destruct (get r key) eqn:E; cbn; [by eapply ls_line|apply freshLine_ok]. Qed.

(** A newer item comes after the others, and the oldest of 500 goes. *)
Definition pushed (l : list (STDEventStream C)) f : list (STDEventStream C) := ((if (500 <=? length l)%nat then drop 1 l else l) ++ [f])%list.

Lemma add_line r key f : Lines r -> key ∈ K -> RepoLines.ascending (items (lineOf r key) ++ [f]) -> 0 < stdOffset f ->
  exists r' removed, add r key f = Ok (r', removed) /\ Lines r' /\ is_Some (get r' key) /\ items (lineOf r' key) = pushed (items (lineOf r key)) f /\
    (forall k, k <> key -> get r' k = get r k).
Proof using.
  intros Hr Hkey Has Hf. destruct (lineOf_ok r key Hr) as [Hi Hlim Hsz Hofo _]. destruct Hr as [Hro Hs Hl Hln].
  destruct (add_roomy K r key f Hro Hkey Hf) as (r' & tl & removed & E & Hro' & Hs' & Hl' & EA & Hget). rewrite Hs, Hl in EA. fold freshLine in EA.
  fold (lineOf r key) in EA. destruct (Add_ascending (lineOf r key) _ f Hi Hlim Hofo Has Hf) as (tl' & EA' & Hi' & Hlim' & Hofo' & Hsz' & Has').
  rewrite EA in EA'. injection EA' as <- _. destruct (Line_intro tl _ Hi' Hlim' ltac:(congruence) Hofo' Has') as [Htl Eit].
  exists r', removed. split; [done|]. split_and!.
  - split; [done|congruence|congruence|]. intros k tl2. rewrite Hget. case_decide; [by intros [= <-]|apply Hln].
  - rewrite Hget, decide_True by done. by eexists.
  - unfold lineOf at 1. rewrite Hget, decide_True by done. cbn [default Datatypes.id]. rewrite Eit. unfold window, pushed. by rewrite Hlim, Hsz.
  - intros k Hk. by rewrite Hget, decide_False.
Qed.

Lemma put_line r key tl0 tl : Lines r -> get r key = Some tl0 -> Line tl -> exists r', putTimeLine r key tl = Ok r' /\ Lines r' /\
  get r' key = Some tl /\ (forall k, k <> key -> get r' k = get r k).
Proof using.
  intros [Hro Hs Hl Hln] Hg Htl. destruct (putTimeLine_roomy K r key tl0 tl (items tl) Hro Hg (ln_inv tl Htl)) as (r' & E & Hro' & Hs' & Hl' & Hget).
  { rewrite (ln_limit tl Htl). symmetry. by apply ln_limit, (Hln key). }
  exists r'. split; [done|]. split_and!.
  - split; [done|congruence|congruence|]. intros k tl2. rewrite Hget. case_decide; [by intros [= <-]|apply Hln].
  - by rewrite Hget, decide_True.
  - intros k Hk. by rewrite Hget, decide_False.
Qed.

Lemma default_line r key : Lines r -> key ∈ K -> exists r', setDefault r key = Ok r' /\ Lines r' /\ is_Some (get r' key) /\
  lineOf r' key = lineOf r key /\ (forall k, k <> key -> get r' k = get r k).
Proof using.
  intros [Hro Hs Hl Hln] Hkey. destruct (setDefault_roomy K r key Hro Hkey) as (r' & E & Hro' & Hs' & Hl' & Hget). rewrite Hs, Hl in Hget.
  fold freshLine in Hget. exists r'. split; [done|]. split_and!.
  - split; [done|congruence|congruence|]. intros k tl2. rewrite Hget. case_decide; [|apply Hln]. intros [= <-].
    destruct (get r key) eqn:Ek; cbn; [by eapply Hln|apply freshLine_ok].
  - rewrite Hget, decide_True by done. by eexists.
  - unfold lineOf. by rewrite Hget, decide_True.
  - intros k Hk. by rewrite Hget, decide_False.
Qed.

Lemma use_line r key : Lines r -> exists r', getTimeLine r key = Ok (get r key, r') /\ Lines r' /\ forall k, get r' k = get r k.
Proof using.
  intros [Hro Hs Hl Hln]. destruct (getTimeLine_roomy K r key Hro) as (r' & E & Hro' & Hs' & Hl' & Hget). exists r'. split; [done|].
  split; [|done]. split; [done|congruence|congruence|]. intros k tl. rewrite Hget. apply Hln.
Qed.

Lemma lineOf_same r r' key : get r' key = get r key -> lineOf r' key = lineOf r key.
Proof using. unfold lineOf. by intros ->. Qed.

(** ** Loading *)

Definition loadedItem (u d : string) (p : StdEvent C * Z) : STDEventStream C := mkStdStream p.2 p.1 u d true false.

Lemma addLoaded_ok u d streams : forall s, Lines (stdRepo s) -> stdKey u d ∈ K ->
  RepoLines.ascending (lines s (stdKey u d) ++ map (loadedItem u d) streams) -> Forall (fun p => 0 < p.2) streams ->
  (length (lines s (stdKey u d)) + length streams <= 500)%nat ->
  exists r', addLoadedStd u d streams s = (Ok (), set_stdRepo s r') /\ Lines r' /\
    items (lineOf r' (stdKey u d)) = (lines s (stdKey u d) ++ map (loadedItem u d) streams)%list /\
    (forall k, k <> stdKey u d -> get r' k = get (stdRepo s) k) /\ (is_Some (get (stdRepo s) (stdKey u d)) \/ streams <> [] -> is_Some (get r' (stdKey u d))).
Proof using.
  induction streams as [|[ev off] streams IH]; intros s Hs Hkey Has Hpos Hlen.
  { exists (stdRepo s). cbn [addLoadedStd map]. rewrite app_nil_r. split_and!; try done; [by destruct s|]. by intros [?|?]. }
  cbn [addLoadedStd map] in *. apply Forall_cons in Hpos as [Hp Hpos]. cbn in Hp.
  assert (Has1 : RepoLines.ascending (lines s (stdKey u d) ++ [loadedItem u d (ev, off)])).
  { rewrite cons_middle, app_assoc in Has. by apply ascending_app in Has as [? _]. }
  destruct (add_line (stdRepo s) (stdKey u d) (loadedItem u d (ev, off)) Hs Hkey Has1 Hp) as (r1 & rem & E1 & Hr1 & Hsome & Hit & Hoth).
  set (s1 := set_stdRepo s r1).
  assert (Eadd : addSTDEventStream ev off u d true s = (Ok (), s1)).
  { unfold addSTDEventStream, mbind, ST_bind, onLines. unfold loadedItem in E1. cbn [fst snd] in E1. rewrite E1. done. }
  assert (El : lines s1 (stdKey u d) = (lines s (stdKey u d) ++ [loadedItem u d (ev, off)])%list).
  { unfold lines. cbn [s1 set_stdRepo stdRepo]. rewrite Hit. unfold pushed. destruct (Nat.leb_spec 500 (length (items (lineOf (stdRepo s) (stdKey u d))))); [|done].
    unfold lines in Hlen. cbn [length] in Hlen. lia. }
  destruct (IH s1) as (r' & E & Hr' & Hit' & Hoth' & Hsome'); try done.
  { by rewrite El, <- app_assoc. }
  { rewrite El, length_app. cbn [length] in *. lia. }
  exists r'. unfold mbind, ST_bind. rewrite Eadd, E. split; [done|]. split_and!; try done.
  - rewrite Hit', El. by rewrite <- app_assoc.
  - intros k Hk. rewrite Hoth' by done. cbn [s1 set_stdRepo stdRepo]. by apply Hoth.
  - intros _. apply Hsome'. by left.
Qed.

Lemma deviceRows_elem u d (rows : gmap Z StdRow) id row : (id, row) ∈ deviceRows u d rows <-> rows !! id = Some row /\ ofDevice u d row = true.
Proof using.
  unfold deviceRows. rewrite <- (gosort_perm newer_leb), list_elem_of_In, filter_In. cbn. by rewrite <- list_elem_of_In, elem_of_map_to_list.
Qed.

Lemma deviceRows_sorted u d (rows : gmap Z StdRow) : StronglySorted (fun a b => b.1 < a.1) (deviceRows u d rows).
Proof using.
  assert (Hs : StronglySorted (fun a b => newer_leb a b = true) (deviceRows u d rows)).
  { apply gosort_sorted; unfold newer_leb; intros; rewrite ?Z.leb_le in *; lia. }
  assert (Hin : forall a b, a ∈ deviceRows u d rows -> b ∈ deviceRows u d rows -> a.1 = b.1 -> a = b).
  { intros [i a] [j b] [Ha _]%deviceRows_elem [Hb _]%deviceRows_elem E. cbn in E. subst j. congruence. }
  assert (Hn : NoDup (deviceRows u d rows)).
  { unfold deviceRows. rewrite <- (gosort_perm newer_leb). apply NoDup_ListNoDup, List.NoDup_filter, NoDup_ListNoDup, NoDup_map_to_list. }
  revert Hn Hin. induction Hs as [|a l Hs IH Ha]; [constructor|]. intros [Hna Hn]%NoDup_cons Hin. constructor.
  - apply IH; [done|]. intros x y Hx Hy. apply Hin; by right.
  - rewrite Forall_forall in Ha. apply Forall_forall. intros b Hb. pose proof (Ha b Hb) as Hle. unfold newer_leb in Hle. apply Z.leb_le in Hle.
    assert (a.1 <> b.1); [|lia]. intros E. apply Hna. by rewrite (Hin a b) by (done || by left || by right).
Qed.

(** What a load reads, the oldest first. *)
Definition decoded (kv : Z * StdRow) : option (StdEvent C * Z) := c ← unmarshal (stJson kv.2); Some (mkStdEvent (stSender kv.2) (stEventType kv.2) c, kv.1).

Definition stored (u d : string) (rows : gmap Z StdRow) : list (StdEvent C * Z) := reverse (omap decoded (take 100 (deviceRows u d rows))).

Lemma stored_elem u d rows ev id : (ev, id) ∈ stored u d rows -> exists row, rows !! id = Some row /\ ofDevice u d row = true.
Proof using.
  unfold stored. rewrite elem_of_reverse. intros ([i row] & Hin & E)%list_elem_of_omap. unfold decoded in E. cbn in E.
  destruct (unmarshal _); [|done]. injection E as _ <-. exists row. apply deviceRows_elem. rewrite <- (take_drop 100 (deviceRows u d rows)). apply elem_of_app. by left.
Qed.

Lemma stored_ok u d rows : RepoLines.ascending (map (loadedItem u d) (stored u d rows)) /\ (length (stored u d rows) <= 100)%nat.
Proof using.
  assert (Hs : StronglySorted (fun a b : StdEvent C * Z => a.2 < b.2) (stored u d rows)).
  { unfold stored. apply (sorted_reverse (fun a b : StdEvent C * Z => b.2 < a.2)). eapply sorted_omap; [|apply sorted_take, deviceRows_sorted].
    unfold decoded. intros a b x y Hab Ea Eb. destruct (unmarshal (stJson a.2)); [|done]. destruct (unmarshal (stJson b.2)); [|done].
    injection Ea as <-. injection Eb as <-. done. }
  split.
  - induction Hs as [|p l _ IH Hp]; cbn; [constructor|]. constructor; [done|]. apply Forall_map. eapply Forall_impl; [exact Hp|]. done.
  - unfold stored. rewrite length_reverse. transitivity (length (take 100 (deviceRows u d rows))); [|rewrite length_take; lia].
    induction (take 100 (deviceRows u d rows)) as [|kv l IH]; cbn; [lia|]. destruct (decoded kv); cbn; lia.
Qed.

Lemma ofDevice_spec u d row : ofDevice u d row = true <-> stTargetUser row = u /\ stTargetDevice row = d.
Proof using. unfold ofDevice. by rewrite andb_true_iff, !String.eqb_eq. Qed.

(** ** States *)

Definition rowKey (row : StdRow) : string := stdKey (stTargetUser row) (stTargetDevice row).

(** [owner] tells the key of each identifier that was given out. *)
Record Sound s (owner : gmap Z string) : Prop := {
  sd_lines : Lines (stdRepo s);
  sd_faults : stdFaults (stdDb s) = [];
  sd_loading : loading (stdGate s) = ∅;
  sd_ready : forall key, key ∈ ready (stdGate s) <-> is_Some (get (stdRepo s) key);
  sd_items : forall key f, f ∈ lines s key -> owner !! stdOffset f = Some key /\ stdKey (TargetUserID f) (TargetDeviceID f) = key /\
    (stdWritten f = false -> stdRows (stdDb s) !! stdOffset f = None);
  sd_rows : forall id row, stdRows (stdDb s) !! id = Some row -> owner !! id = Some (rowKey row);
  sd_ids : StronglySorted Z.lt (stdIds s) /\ Forall (fun i => 1 < i) (stdIds s);
  sd_below : forall id key, owner !! id = Some key -> 0 < id /\ Forall (fun i => id < i) (stdIds s);
  sd_updated : forall key, is_Some (updatedKey s !! key) -> key ∈ K;
}.

(** The same state for another list of uses. *)
Lemma Sound_repo s owner r : Sound s owner -> Lines r -> (forall k, get r k = get (stdRepo s) k) -> Sound (set_stdRepo s r) owner.
Proof using.
  intros [] Hr Hget. assert (El : forall k, lines (set_stdRepo s r) k = lines s k) by (intros k; unfold lines; cbn; by rewrite (lineOf_same _ _ _ (Hget k))).
  split; try done; cbn; [intros key; by rewrite Hget|]. intros key f. rewrite El. auto.
Qed.

Lemma stdTimeLine_ok s owner key : Sound s owner -> exists s', stdTimeLine key s = (Ok (get (stdRepo s) key), s') /\ Sound s' owner /\
  (exists r, s' = set_stdRepo s r) /\ (forall k, get (stdRepo s') k = get (stdRepo s) k).
Proof using.
  intros Hs. destruct (use_line (stdRepo s) key (sd_lines s owner Hs)) as (r & E & Hr & Hget). exists (set_stdRepo s r).
  unfold stdTimeLine, onLines. rewrite E. split; [done|]. split; [by apply Sound_repo|]. split; [by exists r|done].
Qed.

Definition setRows s (rows : gmap Z StdRow) : STDEventStreamRepo C := set_stdDb s (mkStdDb rows []).

Lemma exec_ok {A} s (g : gmap Z StdRow -> res A * gmap Z StdRow) : stdFaults (stdDb s) = [] ->
  onStdDb (execStd g) s = ((g (stdRows (stdDb s))).1, setRows s (g (stdRows (stdDb s))).2).
Proof using. intros Hs. unfold onStdDb, execStd. rewrite Hs. by destruct (g _). Qed.

Lemma setRows_id s : stdFaults (stdDb s) = [] -> setRows s (stdRows (stdDb s)) = s.
Proof using. intros Hs. destruct s as [? ? ? [? fl] ?]. cbn in Hs. by subst fl. Qed.

(** The items of a device once they are loaded. *)
Definition afterLoad s (u d : string) : list (STDEventStream C) :=
  if decide (stdKey u d ∈ ready (stdGate s)) then lines s (stdKey u d) else map (loadedItem u d) (stored u d (stdRows (stdDb s))).

(** What a load does to the state. *)
Record Loaded s s' (u d : string) : Prop := {
  ld_ready : ready (stdGate s') = {[stdKey u d]} ∪ ready (stdGate s);
  ld_line : lines s' (stdKey u d) = afterLoad s u d;
  ld_other : forall k, k <> stdKey u d -> get (stdRepo s') k = get (stdRepo s) k;
  ld_db : stdDb s' = stdDb s;
  ld_ids : stdIds s' = stdIds s;
  ld_updated : updatedKey s' = updatedKey s;
}.

Lemma body_ok s owner u d g : Sound s owner -> stdKey u d ∈ K -> stdKey u d ∉ ready (stdGate s) ->
  exists r', std_load u d (set_stdGate s g) = (Ok (), set_stdRepo (set_stdGate s g) r') /\ Lines r' /\
    items (lineOf r' (stdKey u d)) = map (loadedItem u d) (stored u d (stdRows (stdDb s))) /\
    is_Some (get r' (stdKey u d)) /\ (forall k, k <> stdKey u d -> get r' k = get (stdRepo s) k).
Proof using.
  intros Hs Hkey Hcold. set (sg := set_stdGate s g). destruct (stored_ok u d (stdRows (stdDb s))) as [Has Hlen].
  assert (Hnone : get (stdRepo s) (stdKey u d) = None).
  { destruct (get (stdRepo s) (stdKey u d)) eqn:E; [|done]. exfalso. apply Hcold, (sd_ready s owner Hs). by rewrite E. }
  assert (Hempty : lines sg (stdKey u d) = []) by (unfold lines, lineOf; cbn; rewrite Hnone; apply freshLine_ok).
  destruct (addLoaded_ok u d (stored u d (stdRows (stdDb s))) sg) as (r1 & E1 & Hr1 & Hit1 & Hoth1 & Hsome1); try done.
  { apply Hs. } { by rewrite Hempty. }
  { apply Forall_forall. intros [ev id] (row & Hrow & _)%stored_elem. cbn. apply (sd_below s owner Hs id (rowKey row)). by apply Hs. }
  { rewrite Hempty. cbn [length]. lia. }
  rewrite Hempty in Hit1. cbn [app] in Hit1.
  assert (Edb : onStdDb (selectHistoryStream u d 100) sg = (Ok (omap decoded (take 100 (deviceRows u d (stdRows (stdDb s))))), sg)).
  { unfold selectHistoryStream. rewrite (exec_ok sg _ (sd_faults s owner Hs)). cbn [fst snd]. by rewrite (setRows_id sg (sd_faults s owner Hs)). }
  unfold std_load. unfold mbind at 1, ST_bind at 1. rewrite Edb. fold (stored u d (stdRows (stdDb s))).
  unfold mbind, ST_bind. rewrite E1. destruct (Nat.eqb_spec (length (omap decoded (take 100 (deviceRows u d (stdRows (stdDb s)))))) 0) as [Hz|Hz].
  - destruct (default_line r1 (stdKey u d) Hr1 Hkey) as (r2 & E2 & Hr2 & Hsome2 & Hl2 & Hoth2). exists r2. unfold onLines. cbn [set_stdRepo stdRepo].
    rewrite E2. cbn [mbind res_bind]. split; [done|]. split_and!; try done; [congruence|]. intros k Hk. rewrite Hoth2 by done. by apply Hoth1.
  - exists r1. split; [done|]. split_and!; try done. apply Hsome1. right. intros E. apply Hz.
    unfold stored in E. rewrite <- (reverse_involutive (omap _ _)), E. done.
Qed.

Lemma gate_sound s owner g : Sound s owner -> loading g = ∅ -> ready g = ready (stdGate s) -> Sound (set_stdGate s g) owner.
Proof using. intros [] Hl Hr. split; try done. cbn. intros key. by rewrite Hr. Qed.

Lemma load_ok s owner u d : Sound s owner -> stdKey u d ∈ K ->
  exists s', LoadStdHistory u d true s = (Ok (), s') /\ Sound s' owner /\ Loaded s s' u d.
Proof using.
  intros Hs Hkey. destruct (decide (stdKey u d ∈ ready (stdGate s))) as [Hr|Hr].
  - destruct (stdTimeLine_ok s owner (stdKey u d) Hs) as (s' & E & Hs' & (r & ->) & Hget). exists (set_stdRepo s r).
    apply (sd_ready s owner Hs) in Hr as Hsome. destruct Hsome as [tl Etl].
    unfold LoadStdHistory, LoadHistory, LoadWith. cbn [gate std_loads]. rewrite decide_True by done. cbn [stale std_loads].
    unfold mbind, ST_bind. rewrite E, Etl. split; [done|]. split; [done|]. split; try done.
    + cbn. set_solver.
    + unfold afterLoad. rewrite decide_True by done. unfold lines. f_equal. by apply lineOf_same.
  - destruct (body_ok s owner u d (set_loading (stdGate s) ({[stdKey u d]} ∪ loading (stdGate s))) Hs Hkey Hr) as (r' & E & Hr' & Hit & Hsome & Hoth).
    eexists. split.
    { unfold LoadStdHistory. apply (@load_cold _ (std_loads u d)); [done| |exact E]. cbn. rewrite (sd_loading s owner Hs). set_solver. }
    set (s' := set_gate _ _). assert (El : forall k, k <> stdKey u d -> lines s' k = lines s k) by (intros k Hk; unfold lines; f_equal; apply lineOf_same; by apply Hoth).
    assert (Eit : lines s' (stdKey u d) = map (loadedItem u d) (stored u d (stdRows (stdDb s)))) by done. split.
    + pose proof (sd_items s owner Hs) as Hitems. destruct Hs as [Hln Hfa Hlo Hrd _ Hro Hid Hbe Hup]. split; try done.
      * cbn. rewrite Hlo. set_solver.
      * intros key. cbn. rewrite elem_of_union, elem_of_singleton. destruct (decide (key = stdKey u d)) as [->|Hk]; [tauto|].
        rewrite (Hoth key Hk), <- Hrd. set_solver.
      * intros key f. destruct (decide (key = stdKey u d)) as [->|Hk]; [|rewrite El by done; apply Hitems].
        rewrite Eit. intros ([ev id] & -> & (row & Hrow & [Eu Ed]%ofDevice_spec)%stored_elem)%list_elem_of_fmap. cbn. split_and!; try done.
        rewrite (Hro id row Hrow). unfold rowKey. by rewrite Eu, Ed.
    + split; try done. rewrite Eit. unfold afterLoad. by rewrite decide_False.
Qed.

Lemma Loaded_repo s s' u d r : Loaded s s' u d -> (forall k, get r k = get (stdRepo s') k) -> Loaded s (set_stdRepo s' r) u d.
Proof using.
  intros [] Hget. split; try done; [|intros k Hk; cbn; rewrite Hget; auto]. rewrite <- ld_line0. unfold lines. f_equal. by apply lineOf_same.
Qed.

Lemma Loaded_lines s s' u d k : Loaded s s' u d -> k <> stdKey u d -> lines s' k = lines s k.
Proof using. intros Hl Hk. unfold lines. f_equal. apply lineOf_same. by apply (ld_other s s' u d Hl). Qed.

Lemma lines_get s key tl : get (stdRepo s) key = Some tl -> lines s key = items tl.
Proof using. intros E. unfold lines, lineOf. by rewrite E. Qed.

Lemma history_ok s owner u d : Sound s owner -> stdKey u d ∈ K ->
  exists tl s', GetStdHistory u d s = (Ok (Some tl), s') /\ Sound s' owner /\ Loaded s s' u d /\ get (stdRepo s') (stdKey u d) = Some tl.
Proof using.
  intros Hs Hkey. destruct (load_ok s owner u d Hs Hkey) as (s1 & E1 & Hs1 & Hl1).
  destruct (stdTimeLine_ok s1 owner (stdKey u d) Hs1) as (s2 & E2 & Hs2 & (r & ->) & Hget).
  assert (Hsome : is_Some (get (stdRepo s1) (stdKey u d))).
  { apply (sd_ready s1 owner Hs1). rewrite (ld_ready s s1 u d Hl1). set_solver. }
  destruct Hsome as [tl Etl]. exists tl, (set_stdRepo s1 r). unfold GetStdHistory, mbind, ST_bind. rewrite E1, E2, Etl.
  split; [done|]. split; [done|]. split; [by apply Loaded_repo|]. by rewrite Hget.
Qed.

(** ** Adding *)

Definition newItem (u d : string) (ev : StdEvent C) (id : Z) : STDEventStream C := mkStdStream id ev u d false false.

Record Added s s' (u d : string) (ev : StdEvent C) (id : Z) : Prop := {
  ad_ready : ready (stdGate s') = {[stdKey u d]} ∪ ready (stdGate s);
  ad_line : lines s' (stdKey u d) =
    pushed (afterLoad s u d) (newItem u d ev id);
  ad_other : forall k, k <> stdKey u d -> lines s' k = lines s k;
  ad_db : stdDb s' = stdDb s;
  ad_updated : updatedKey s' = <[stdKey u d := true]> (updatedKey s);
}.

Lemma pushed_elem l f g : g ∈ pushed l f -> g ∈ l \/ g = f.
Proof using.
  unfold pushed. intros [Hg|Hg%list_elem_of_singleton]%elem_of_app; [left|by right]. destruct (_ <=? _)%nat; [|done].
  destruct l as [|x l]; [done|]. rewrite skipn_cons, drop_0 in Hg. by right.
Qed.

Lemma add_ok s owner u d ev id rest : Sound s owner -> stdKey u d ∈ K -> stdIds s = id :: rest ->
  exists s', AddSTDEventStream ev u d s = (Ok (), s') /\ Sound s' (<[id := stdKey u d]> owner) /\ Added s s' u d ev id /\ stdIds s' = rest.
Proof using.
  intros Hs Hkey Eid. destruct (load_ok s owner u d Hs Hkey) as (s1 & E1 & Hs1 & Hl1). pose proof (ld_ids s s1 u d Hl1) as Eid1. rewrite Eid in Eid1.
  set (s2 := set_stdIds s1 rest).
  pose proof (sd_ids s1 owner Hs1) as [Hsort Hone]. rewrite Eid1 in Hsort, Hone. apply StronglySorted_inv in Hsort as [Hsort Hid]. apply Forall_cons in Hone as [Hone1 Hone].
  assert (Hbel : forall i k, owner !! i = Some k -> i < id).
  { intros i k Hi. destruct (sd_below s1 owner Hs1 i k Hi) as [_ HF]. rewrite Eid1 in HF. by apply Forall_cons in HF as [? _]. }
  assert (Hline : forall f, f ∈ lines s1 (stdKey u d) -> stdOffset f < id).
  { intros f Hf. destruct (sd_items s1 owner Hs1 _ f Hf) as (Ho & _). by eapply Hbel. }
  destruct (add_line (stdRepo s1) (stdKey u d) (newItem u d ev id) (sd_lines s1 owner Hs1) Hkey) as (r & rem & E2 & Hr & Hsome & Hit & Hoth).
  { apply ascending_app. split_and!; [apply (lineOf_ok (stdRepo s1)), Hs1|by repeat constructor|]. intros a b Ha ->%list_elem_of_singleton. by apply Hline. }
  { cbn. lia. }
  set (s3 := set_updatedKey (set_stdRepo s2 r) (<[stdKey u d := true]> (updatedKey s1))). exists s3.
  assert (El : forall k, k <> stdKey u d -> lines s3 k = lines s1 k) by (intros k Hk; unfold lines; f_equal; apply lineOf_same; by apply Hoth).
  split.
  { unfold AddSTDEventStream, mbind, ST_bind. rewrite E1. unfold nextStdId. rewrite Eid1. fold s2. unfold addSTDEventStream, mbind, ST_bind, onLines.
    unfold newItem in E2. cbn [s2 set_stdIds stdRepo]. rewrite E2. done. }
  assert (Erows : stdRows (stdDb s3) = stdRows (stdDb s1)) by done.
  assert (Hnorow : stdRows (stdDb s1) !! id = None).
  { destruct (stdRows (stdDb s1) !! id) as [row|] eqn:Er; [|done]. apply (sd_rows s1 owner Hs1), Hbel in Er. lia. }
  assert (Hext : forall i k, owner !! i = Some k -> <[id := stdKey u d]> owner !! i = Some k).
  { intros i k Hi. rewrite lookup_insert_ne; [done|]. intros <-. apply Hbel in Hi. lia. }
  split; [|split; [|done]].
  - destruct Hs1 as [Hln Hfa Hlo Hrd Hitm Hro Hids Hbe Hup]. split; try done.
    + intros key. cbn. rewrite Hrd. destruct (decide (key = stdKey u d)) as [->|Hk]; [|by rewrite Hoth].
      split; [done|]. intros _. apply Hrd. rewrite (ld_ready s s1 u d Hl1). set_solver.
    + intros key f. destruct (decide (key = stdKey u d)) as [->|Hk].
      * intros Hf. change (f ∈ items (lineOf r (stdKey u d))) in Hf. rewrite Hit in Hf. apply pushed_elem in Hf as [Hf| ->].
        -- destruct (Hitm _ f Hf) as (? & ? & ?). split_and!; auto.
        -- cbn. split_and!; [apply lookup_insert_eq|done|done].
      * rewrite El by done. intros Hf. destruct (Hitm _ f Hf) as (? & ? & ?). split_and!; auto.
    + intros i row Hi. apply Hext. by apply Hro.
    + intros i key. cbn. destruct (decide (i = id)) as [->|Hne]; [intros _; split; [lia|done]|]. rewrite lookup_insert_ne by done.
      intros Hi. destruct (Hbe i key Hi) as [Hp HF]. split; [done|]. rewrite Eid1 in HF. by apply Forall_cons in HF as [_ ?].
    + intros key. cbn. destruct (decide (key = stdKey u d)) as [->|Hk]; [done|]. rewrite lookup_insert_ne by done. apply Hup.
  - split.
    + apply (ld_ready s s1 u d Hl1).
    + change (items (lineOf r (stdKey u d)) = pushed (afterLoad s u d) (newItem u d ev id)). rewrite Hit. f_equal. apply (ld_line s s1 u d Hl1).
    + intros k Hk. rewrite El by done. by eapply Loaded_lines.
    + apply (ld_db s s1 u d Hl1).
    + cbn. f_equal. apply (ld_updated s s1 u d Hl1).
Qed.

(** ** Writing *)

Definition text (c : C) : string := default "" (marshal c).

Definition itemRow f : StdRow :=
  mkStdRow (sdSender (stdData f)) (sdType (stdData f)) (TargetUserID f) (TargetDeviceID f) (text (sdContent (stdData f))) (GetDeviceMac (TargetDeviceID f)).

Definition toStore f : Prop := stdWritten f = false /\ stdRead f = false.

Definition stores (l : list (STDEventStream C)) (rows rows' : gmap Z StdRow) : Prop := forall id row,
  rows' !! id = Some row <-> rows !! id = Some row \/ exists f, f ∈ l /\ toStore f /\ id = stdOffset f /\ row = itemRow f.

Lemma stores_nil rows : stores [] rows rows.
Proof using. intros id row. split; [by left|]. intros [?|(f & Hf & _)]; [done|]. by apply elem_of_nil in Hf. Qed.

Lemma stores_keep f l rows rows' : ~ toStore f -> stores l rows rows' -> stores (f :: l) rows rows'.
Proof using. intros Hf Hst id row. rewrite (Hst id row). split; intros [?|(g & Hg & ?)]; auto; right; exists g; set_solver. Qed.

Lemma stores_put f l rows rows' : toStore f -> rows !! stdOffset f = None -> stores l (<[stdOffset f := itemRow f]> rows) rows' -> stores (f :: l) rows rows'.
Proof using.
  intros Hf Hn Hst id row. rewrite (Hst id row), lookup_insert_Some. split.
  - intros [[[<- <-]|[_ ?]]|(g & Hg & ?)]; [|by left|]; right; [exists f|exists g]; set_solver.
  - intros [Hr|(g & [->|Hg]%elem_of_cons & Hg2 & -> & ->)].
    + left. right. split; [|done]. intros E. subst id. congruence.
    + left. by left.
    + right. by exists g.
Qed.

Lemma markWritten_id f : stdWritten f = true -> markWritten f = f.
Proof using. intros E. destruct f. cbn in E. by subst. Qed.

Context (json : forall c : C, exists t, marshal c = Some t /\ unmarshal t = Some c).

Lemma flushItem_ok f d : stdFaults d = [] -> (stdWritten f = false -> stdRows d !! stdOffset f = None) ->
  exists o d', flushItem f d = (Ok o, d') /\ default f o = markWritten f /\ stdFaults d' = [] /\
    (toStore f -> stdRows d' = <[stdOffset f := itemRow f]> (stdRows d)) /\ (~ toStore f -> stdRows d' = stdRows d).
Proof using All.
  intros Hfa Hnew. unfold flushItem, toStore. destruct (stdWritten f) eqn:Ew.
  { exists None, d. split; [done|]. cbn. rewrite (markWritten_id f Ew). split_and!; try done. by intros [? _]. }
  destruct (stdRead f) eqn:Er; [exists (Some (markWritten f)), d; split_and!; try done; by intros [_ ?]|].
  destruct (json (sdContent (stdData f))) as (t & Et & _). rewrite Et. unfold insertStdEvent, execStd. rewrite Hfa, Hnew by done. cbn [tail].
  eexists _, _. split; [done|]. split_and!; try done; [|tauto]. intros _. unfold itemRow, text. by rewrite Et.
Qed.

(** One item of a list is replaced. *)
Lemma drop_put {A} (l : list A) k x y : l !! k = Some x -> take (S k) (<[k := y]> l) = (take k l ++ [y])%list /\ drop (S k) (<[k := y]> l) = drop (S k) l.
Proof using.
  intros Hk. assert (Hlt : (k < length l)%nat) by (by eapply lookup_lt_Some). split.
  - rewrite (take_S_r _ _ y) by (by rewrite list_lookup_insert_eq). f_equal. by apply take_insert_ge.
  - rewrite drop_insert_lt by lia. done.
Qed.

Lemma flushStdFeeds_ok n : forall k tl l d, Inv tl l -> RepoLines.ascending l -> stdFaults d = [] ->
  (forall f, f ∈ drop k l -> stdWritten f = false -> stdRows d !! stdOffset f = None) -> (k + n = length l)%nat ->
  exists tl' d', flushStdFeeds (seq (offset tl - size tl + k) n) tl d = (Ok tl', d') /\ Inv tl' (take k l ++ map markWritten (drop k l)) /\
    sameFrame tl' tl /\ stdFaults d' = [] /\ stores (drop k l) (stdRows d) (stdRows d').
Proof using All.
  induction n as [|n IH]; intros k tl l d Hi Has Hfa Hnew Hlen; cbn [seq flushStdFeeds].
  { exists tl, d. rewrite Nat.add_0_r in Hlen. rewrite (drop_ge l k), (take_ge l k) by lia. cbn. rewrite app_nil_r. split_and!; try done. apply stores_nil. }
  destruct (lookup_lt_is_Some_2 l k) as [f Hk]; [lia|]. pose proof (drop_S l f k Hk) as Ed. unfold mbind, ST_bind, liftR.
  rewrite (getFeed_rep tl l k f (inv_rep _ _ Hi) Hk).
  destruct (flushItem_ok f d Hfa) as (o & d1 & E1 & Eo & Hfa1 & Hst & Hsk); [intros; apply Hnew; [rewrite Ed; by left|done]|]. rewrite E1.
  assert (Hput : exists tl1, match o with Some f1 => putFeed tl (offset tl - size tl + k) (Some f1) | None => Ok tl end = Ok tl1 /\
    Inv tl1 (<[k := markWritten f]> l) /\ sameFrame tl1 tl).
  { destruct o as [f1|]; cbn in Eo.
    - subst f1. by apply (putFeed_inv tl l k f).
    - exists tl. rewrite <- Eo. split; [done|]. split; [|done]. by rewrite list_insert_id. }
  destruct Hput as (tl1 & -> & Hi1 & Hfr). replace (S (offset tl - size tl + k)) with (offset tl1 - size tl1 + S k)%nat by (destruct Hfr as (-> & -> & _); lia).
  destruct (drop_put l k f (markWritten f) Hk) as [Et1 Ed1].
  assert (Hnotin : forall g, g ∈ drop (S k) l -> stdOffset g <> stdOffset f).
  { intros g Hg E. rewrite <- (take_drop k l), Ed in Has. apply ascending_app in Has as (_ & Hs & _). apply StronglySorted_inv in Hs as [_ HF].
    rewrite Forall_forall in HF. specialize (HF g Hg). unfold GetOffset, STDEventStream_feed in HF. lia. }
  destruct (IH (S k) tl1 (<[k := markWritten f]> l) d1 Hi1) as (tl' & d' & E & Hi' & Hfr' & Hfa' & Hst'); try done.
  - apply (ascending_offsets l); [|done]. apply list_eq. intros i. change (map GetOffset) with (fmap (M := list) (GetOffset (F := STDEventStream C))).
    rewrite !list_lookup_fmap. destruct (decide (i = k)) as [->|Hne]; [|by rewrite list_lookup_insert_ne].
    rewrite list_lookup_insert_eq, Hk by (by eapply lookup_lt_Some). done.
  - intros g Hg Hw. rewrite Ed1 in Hg. assert (Hr : stdRows d !! stdOffset g = None) by (apply Hnew; [rewrite Ed; by right|done]).
    destruct (decide (stdWritten f = false /\ stdRead f = false)) as [Hs|Hs]; [rewrite (Hst Hs); rewrite lookup_insert_ne; [done|]|by rewrite (Hsk Hs)].
    intros E. by destruct (Hnotin g Hg).
  - rewrite length_insert. lia.
  - exists tl', d'. split; [done|]. split_and!; try done.
    + rewrite Et1, Ed1 in Hi'. rewrite Ed. cbn. by rewrite <- app_assoc in Hi'.
    + by eapply sameFrame_trans.
    + rewrite Ed1 in Hst'. rewrite Ed. destruct (decide (stdWritten f = false /\ stdRead f = false)) as [Hs|Hs].
      * apply stores_put; [done|apply Hnew; [rewrite Ed; by left|by destruct Hs]|]. by rewrite <- (Hst Hs).
      * apply stores_keep; [done|]. by rewrite <- (Hsk Hs).
Qed.

Lemma line_upper tl : Line tl -> (forall f, f ∈ items tl -> stdOffset f <= upper tl) /\
  (items tl = [] /\ upper tl = 0 \/ exists f, f ∈ items tl /\ stdOffset f = upper tl).
Proof using.
  intros Htl. pose proof (inv_bounds _ _ (ln_inv tl Htl)) as Hb. unfold Bounds in Hb. destruct (items tl) as [|x l].
  { split; [by intros f ?%elem_of_nil|]. left. by destruct Hb. }
  destruct Hb as (_ & (y & Hy & Ey) & HF). rewrite Forall_forall in HF. split; [|right; by exists y]. intros f Hf. apply HF in Hf. unfold GetOffset, STDEventStream_feed in Hf. lia.
Qed.

Lemma map_offsets (g : STDEventStream C -> STDEventStream C) l : (forall f, stdOffset (g f) = stdOffset f) -> map GetOffset (map g l) = map GetOffset l.
Proof using. intros Hg. rewrite map_map. apply map_ext. intros f. apply Hg. Qed.

Lemma Line_map tl tl' (g : STDEventStream C -> STDEventStream C) : Line tl -> (forall f, stdOffset (g f) = stdOffset f) ->
  Inv tl' (map g (items tl)) -> sameFrame tl' tl -> Line tl' /\ items tl' = map g (items tl).
Proof using.
  intros [Hi Hl Hs Ho Has] Hg Hi' (Es & _ & El & _ & _ & Eo). apply Line_intro; [done|congruence..|]. by apply (ascending_offsets (items tl)); [apply map_offsets|].
Qed.

(** Items of one key change without their offsets, and rows of that key come and go. *)
Lemma change_sound s owner key (g : STDEventStream C -> STDEventStream C) r rows u : Sound s owner -> Lines r ->
  (is_Some (get r key) <-> is_Some (get (stdRepo s) key)) -> (forall k, k <> key -> get r k = get (stdRepo s) k) ->
  items (lineOf r key) = map g (lines s key) ->
  (forall f, stdOffset (g f) = stdOffset f /\ TargetUserID (g f) = TargetUserID f /\ TargetDeviceID (g f) = TargetDeviceID f) ->
  (forall id row, rows !! id = Some row -> stdRows (stdDb s) !! id = Some row \/ owner !! id = Some (rowKey row) /\ rowKey row = key) ->
  (forall f, f ∈ lines s key -> stdWritten (g f) = false -> rows !! stdOffset f = None) ->
  (forall k, is_Some (u !! k) -> k ∈ K) ->
  Sound (mkStdRepo r (stdGate s) u (mkStdDb rows []) (stdIds s)) owner.
Proof using.
  intros [Hln Hfa Hlo Hrd Hitm Hro Hid Hbe Hup] Hr Hsome Hoth Hit Hg Hrows Hnew Hu. split; try done.
  - intros k. cbn. rewrite Hrd. destruct (decide (k = key)) as [->|Hk]; [done|by rewrite Hoth].
  - intros k f Hf. destruct (decide (k = key)) as [->|Hk].
    + change (f ∈ items (lineOf r key)) in Hf. rewrite Hit in Hf. apply list_elem_of_fmap in Hf as (f0 & -> & Hf0).
      destruct (Hitm key f0 Hf0) as (Ho & Ek & _). destruct (Hg f0) as (-> & -> & ->). split_and!; [done..|]. intros Hw. by apply Hnew.
    + assert (Hf0 : f ∈ lines s k) by (unfold lines in *; cbn in Hf; by rewrite (lineOf_same _ _ _ (Hoth k Hk)) in Hf).
      destruct (Hitm k f Hf0) as (Ho & Ek & Hw). split_and!; [done..|]. intros Hw0. cbn. destruct (rows !! stdOffset f) as [row|] eqn:Er; [|done].
      destruct (Hrows _ _ Er) as [Er0|[Er0 Erk]]; [by rewrite Hw in Er0|]. congruence.
  - intros id row Hi. destruct (Hrows id row Hi) as [?|[? _]]; [by apply Hro|done].
Qed.

Record Flushed s s' key : Prop := {
  fl_gate : stdGate s' = stdGate s;
  fl_line : lines s' key = map markWritten (lines s key);
  fl_other : forall k, k <> key -> lines s' k = lines s k;
  fl_rows : stores (lines s key) (stdRows (stdDb s)) (stdRows (stdDb s'));
  fl_updated : updatedKey s' = delete key (updatedKey s);
  fl_ids : stdIds s' = stdIds s;
}.

Lemma flushKey_ok s owner key : Sound s owner -> exists s', flushKey key s = (Ok (), s') /\ Sound s' owner /\ Flushed s s' key.
Proof using All.
  intros Hs. set (s1 := set_updatedKey s (delete key (updatedKey s))).
  assert (Hup : forall k, is_Some (delete key (updatedKey s) !! k) -> k ∈ K).
  { intros k [b Hb]. apply lookup_delete_Some in Hb as [_ Hb]. apply (sd_updated s owner Hs). by exists b. }
  assert (Hs1 : Sound s1 owner) by (destruct Hs; split; done).
  destruct (stdTimeLine_ok s1 owner key Hs1) as (s2 & E2 & Hs2 & (r2 & ->) & Hget2). unfold flushKey, mbind, ST_bind. fold s1. rewrite E2.
  set (s2 := set_stdRepo s1 r2) in *. assert (El2 : forall k, lines s2 k = lines s k) by (intros k; unfold lines; f_equal; by apply lineOf_same).
  destruct (get (stdRepo s1) key) as [tl|] eqn:Etl.
  - pose proof (ls_line _ (sd_lines s1 owner Hs1) key tl Etl) as Htl. assert (Eit : items tl = lines s key) by (symmetry; by apply lines_get).
    destruct (GetRange_rep tl (items tl) (inv_rep _ _ (ln_inv tl Htl))) as (-> & -> & _).
    destruct (flushStdFeeds_ok (length (items tl)) 0 tl (items tl) (stdDb s2) (ln_inv tl Htl) (ln_sorted tl Htl)) as (tl' & d' & E3 & Hi3 & Hfr3 & Hfa3 & Hst3); try done.
    { apply Hs. } { rewrite drop_0, Eit. intros f Hf. by apply (sd_items s owner Hs key). }
    rewrite Nat.add_0_r in E3. cbn [take drop app] in Hi3. rewrite drop_0 in Hst3. destruct (Line_map tl tl' markWritten Htl (fun _ => eq_refl) Hi3 Hfr3) as [Htl' Eit'].
    unfold onStdDb. rewrite E3. destruct (put_line (stdRepo s2) key tl tl' (sd_lines s2 owner Hs2)) as (r3 & E4 & Hr3 & Hg3 & Hoth3); [by rewrite Hget2|done|].
    unfold putLine, onLines. cbn [set_stdDb stdRepo]. rewrite E4. cbn [mbind res_bind].
    assert (El3 : items (lineOf r3 key) = map markWritten (lines s key)) by (unfold lineOf; rewrite Hg3; cbn; by rewrite Eit', Eit).
    assert (Hoth : forall k, k <> key -> get r3 k = get (stdRepo s) k) by (intros k Hk; rewrite Hoth3 by done; apply Hget2).
    rewrite Eit in Hst3. destruct d' as [rows' fl]. cbn in Hfa3. subst fl. eexists. split; [done|]. split.
    + apply (change_sound s owner key markWritten r3 rows' (delete key (updatedKey s))); try done.
      * intros id row Hi. apply Hst3 in Hi as [Hi|(f & Hf & _ & -> & ->)]; [by left|right].
        destruct (sd_items s owner Hs key f Hf) as (Ho & Ek & _). unfold rowKey. cbn. by rewrite Ek.
    + split; try done. intros k Hk. unfold lines. f_equal. apply lineOf_same. by apply Hoth.
  - assert (Enil : lines s key = []) by (unfold lines, lineOf; change (get (stdRepo s) key = None) in Etl; rewrite Etl; apply freshLine_ok).
    exists s2. split; [done|]. split; [done|]. split; try done; [by rewrite El2, Enil|]. rewrite Enil. apply stores_nil.
Qed.

(** ** A sync *)

Definition readTo (T : Z) f : STDEventStream C := if T <? stdOffset f then f else markRead f.

Definition toSend (T : Z) f : bool := (T <? stdOffset f) && negb (stdRead f).

Definition maxOf (T : Z) (m : Z) f : Z := if T <? stdOffset f then if m <? stdOffset f then stdOffset f else m else m.

Lemma takeFeeds_ok T n : forall k tl l out m, Inv tl l -> (k + n = length l)%nat ->
  exists tl', takeFeeds T (seq (offset tl - size tl + k) n) tl out m =
      Ok (tl', (out ++ map stdData (List.filter (toSend T) (drop k l)))%list, fold_left (maxOf T) (drop k l) m) /\
    Inv tl' (take k l ++ map (readTo T) (drop k l)) /\ sameFrame tl' tl.
Proof using.
  induction n as [|n IH]; intros k tl l out m Hi Hlen; cbn [seq takeFeeds].
  { exists tl. rewrite Nat.add_0_r in Hlen. rewrite (drop_ge l k), (take_ge l k) by lia. cbn. by rewrite !app_nil_r. }
  destruct (lookup_lt_is_Some_2 l k) as [f Hk]; [lia|]. pose proof (drop_S l f k Hk) as Ed.
  rewrite (getFeed_rep tl l k f (inv_rep _ _ Hi) Hk). cbn [mbind res_bind]. rewrite Ed. cbn [List.filter map fold_left]. unfold toSend at 1, maxOf at 2, readTo at 1.
  destruct (T <? stdOffset f) eqn:ET; cbn [andb].
  - destruct (IH (S k) tl l (if stdRead f then out else out ++ [stdData f])%list (if m <? stdOffset f then stdOffset f else m) Hi) as (tl' & E & Hi' & Hfr); [lia|].
    replace (S (offset tl - size tl + k)) with (offset tl - size tl + S k)%nat by lia. rewrite E. exists tl'. split; [|split; [|done]].
    + f_equal. f_equal. f_equal. destruct (stdRead f); cbn [negb map]; [done|]. by rewrite <- app_assoc.
    + rewrite (take_S_r _ _ _ Hk), <- app_assoc in Hi'. exact Hi'.
  - assert (Hput : exists tl1, (if stdRead f then Ok tl else putFeed tl (offset tl - size tl + k) (Some (markRead f))) = Ok tl1 /\
      Inv tl1 (<[k := markRead f]> l) /\ sameFrame tl1 tl).
    { destruct (stdRead f) eqn:Er; [|by apply (putFeed_inv tl l k f)]. exists tl. split; [done|]. split; [|done].
      rewrite list_insert_id; [done|]. rewrite Hk. f_equal. destruct f. cbn in Er. by subst. }
    destruct Hput as (tl1 & -> & Hi1 & Hfr). cbn [mbind res_bind].
    replace (S (offset tl - size tl + k)) with (offset tl1 - size tl1 + S k)%nat by (destruct Hfr as (-> & -> & _); lia).
    destruct (drop_put l k f (markRead f) Hk) as [Et1 Ed1].
    destruct (IH (S k) tl1 (<[k := markRead f]> l) out m Hi1) as (tl' & E & Hi' & Hfr'); [rewrite length_insert; lia|]. rewrite Ed1 in E, Hi'. rewrite E.
    exists tl'. split; [done|]. split; [|by eapply sameFrame_trans]. rewrite Et1, <- app_assoc in Hi'. exact Hi'.
Qed.

Lemma maxOf_spec T l : forall m, m <= fold_left (maxOf T) l m /\ (forall f, f ∈ l -> T < stdOffset f -> stdOffset f <= fold_left (maxOf T) l m) /\
  (fold_left (maxOf T) l m = m \/ exists f, f ∈ l /\ T < stdOffset f /\ fold_left (maxOf T) l m = stdOffset f).
Proof using.
  induction l as [|f l IH]; intros m; cbn [fold_left].
  { split_and!; [lia|by intros f ?%elem_of_nil|by left]. }
  destruct (IH (maxOf T m f)) as (Hm & Hl & He).
  assert (Hmf : m <= maxOf T m f /\ (T < stdOffset f -> stdOffset f <= maxOf T m f)).
  { unfold maxOf. destruct (Z.ltb_spec T (stdOffset f)), (Z.ltb_spec m (stdOffset f)); lia. }
  split_and!.
  - lia.
  - intros g [->|Hg]%elem_of_cons Ht; [|by apply Hl]. destruct Hmf as [_ Hmf]. specialize (Hmf Ht). lia.
  - destruct He as [->|(g & Hg & Ht & ->)].
    + unfold maxOf. destruct (Z.ltb_spec T (stdOffset f)), (Z.ltb_spec m (stdOffset f)); auto. right. exists f. split_and!; [by left|done|done].
    + right. exists g. split_and!; [by right|done|done].
Qed.

(** What every sync of a device leaves as it was. *)
Record Synced s s' (u d : string) : Prop := {
  sy_ready : ready (stdGate s') = {[stdKey u d]} ∪ ready (stdGate s);
  sy_other : forall k, k <> stdKey u d -> lines s' k = lines s k;
  sy_updated : updatedKey s' = updatedKey s;
  sy_ids : stdIds s' = stdIds s;
  sy_rows : forall id row, stdRows (stdDb s') !! id = Some row -> stdRows (stdDb s) !! id = Some row;
  sy_rows_other : forall id row, stdRows (stdDb s) !! id = Some row -> ofDevice u d row = false -> stdRows (stdDb s') !! id = Some row;
}.

Lemma keepRows_spec p (rows : gmap Z StdRow) id row : keepRows p rows !! id = Some row <-> rows !! id = Some row /\ p (id, row) = true.
Proof using. unfold keepRows. by rewrite map_lookup_filter_Some. Qed.

(** The first sync of a device forgets what was sent before. *)
Lemma sync_first s owner u d : Sound s owner -> stdKey u d ∈ K ->
  exists s' p, addSendToDevice u d 0 s = (Ok ([], p), s') /\ Sound s' owner /\ Synced s s' u d /\ 1 <= p /\
    lines s' (stdKey u d) = afterLoad s u d /\ (forall f, f ∈ lines s' (stdKey u d) -> stdOffset f <= p) /\
    (p = 1 \/ exists f, f ∈ lines s' (stdKey u d) /\ p = stdOffset f) /\
    (forall id row, stdRows (stdDb s') !! id = Some row -> ofDevice u d row = false).
Proof using.
  intros Hs Hkey. destruct (history_ok s owner u d Hs Hkey) as (tl & s1 & E1 & Hs1 & Hl1 & Hg1).
  pose proof (ls_line _ (sd_lines s1 owner Hs1) _ tl Hg1) as Htl. destruct (line_upper tl Htl) as [Hle Hup]. pose proof (lines_get s1 _ tl Hg1) as El1.
  set (s2 := setRows s1 (keepRows (fun kv => negb (ofDevice u d kv.2)) (stdRows (stdDb s1)))).
  exists s2, (if 0 <? upper tl then upper tl else 1). split; [|split; [|split]].
  - unfold addSendToDevice, mbind, ST_bind. rewrite E1. cbn [GetFeedRange snd Z.eqb]. unfold logged, deleteDeviceStdEvent.
    rewrite (exec_ok s1 _ (sd_faults s1 owner Hs1)). done.
  - assert (E2 : s2 = mkStdRepo (stdRepo s1) (stdGate s1) (updatedKey s1) (mkStdDb (keepRows (fun kv => negb (ofDevice u d kv.2)) (stdRows (stdDb s1))) []) (stdIds s1)) by done.
    rewrite E2. apply (change_sound s1 owner (stdKey u d) id); try done; [apply Hs1|by rewrite map_id| | |apply Hs1].
    + intros i row [Hi _]%keepRows_spec. by left.
    + intros f Hf Hw. destruct (keepRows _ _ !! stdOffset f) as [row|] eqn:Er; [|done]. apply keepRows_spec in Er as [Er _].
      destruct (sd_items s1 owner Hs1 _ f Hf) as (_ & _ & Hn). by rewrite Hn in Er.
  - split.
    + apply (ld_ready s s1 u d Hl1).
    + intros k Hk. change (lines s1 k = lines s k). by eapply Loaded_lines.
    + apply (ld_updated s s1 u d Hl1).
    + apply (ld_ids s s1 u d Hl1).
    + intros i row [Hi _]%keepRows_spec. by rewrite (ld_db s s1 u d Hl1) in Hi.
    + intros i row Hi Ho. apply keepRows_spec. rewrite (ld_db s s1 u d Hl1). cbn. by rewrite Ho.
  - change (lines s2 (stdKey u d)) with (lines s1 (stdKey u d)). rewrite El1. split_and!.
    + destruct (Z.ltb_spec 0 (upper tl)); lia.
    + rewrite <- El1. apply (ld_line s s1 u d Hl1).
    + intros f Hf. apply Hle in Hf. destruct (Z.ltb_spec 0 (upper tl)); lia.
    + destruct (Z.ltb_spec 0 (upper tl)) as [Hu|Hu]; [|by left]. right. destruct Hup as [[_ ?]|(f & Hf & E)]; [lia|]. by exists f.
    + intros i row [_ Hn%negb_true_iff]%keepRows_spec. done.
Qed.

(** Nothing is newer than the position. *)
Lemma sync_idle s owner u d T : Sound s owner -> stdKey u d ∈ K -> 0 < T -> (forall f, f ∈ afterLoad s u d -> stdOffset f <= T) ->
  exists s', addSendToDevice u d T s = (Ok ([], T), s') /\ Sound s' owner /\ Synced s s' u d /\ lines s' (stdKey u d) = afterLoad s u d /\ stdDb s' = stdDb s.
Proof using.
  intros Hs Hkey HT Hold. destruct (history_ok s owner u d Hs Hkey) as (tl & s1 & E1 & Hs1 & Hl1 & Hg1).
  pose proof (ls_line _ (sd_lines s1 owner Hs1) _ tl Hg1) as Htl. destruct (line_upper tl Htl) as [_ Hup]. pose proof (lines_get s1 _ tl Hg1) as El1.
  rewrite <- (ld_line s s1 u d Hl1), El1 in Hold. assert (Hu : upper tl <= T) by (destruct Hup as [[_ ->]|(f & Hf & <-)]; [lia|by apply Hold]).
  exists s1. split; [|split; [done|split; [|split; [apply (ld_line s s1 u d Hl1)|apply (ld_db s s1 u d Hl1)]]]].
  - unfold addSendToDevice, mbind, ST_bind. rewrite E1. cbn [GetFeedRange snd]. rewrite (proj2 (Z.eqb_neq T 0)), (proj2 (Z.leb_le _ _) Hu) by lia. done.
  - split; try apply Hl1; try (intros i row; by rewrite (ld_db s s1 u d Hl1)). intros k Hk. by eapply Loaded_lines.
Qed.

(** Something is newer than the position. *)
Lemma sync_takes s owner u d T : Sound s owner -> stdKey u d ∈ K -> 0 < T -> (exists f, f ∈ afterLoad s u d /\ T < stdOffset f) ->
  exists s' p, addSendToDevice u d T s = (Ok (map stdData (List.filter (toSend T) (afterLoad s u d)), p), s') /\ Sound s' owner /\ Synced s s' u d /\
    lines s' (stdKey u d) = map (readTo T) (afterLoad s u d) /\
    T < p /\ (forall f, f ∈ afterLoad s u d -> stdOffset f <= p) /\ (exists f, f ∈ afterLoad s u d /\ p = stdOffset f) /\
    (forall id row, stdRows (stdDb s') !! id = Some row <-> stdRows (stdDb s) !! id = Some row /\ (ofDevice u d row = true -> T < id)).
Proof using.
  intros Hs Hkey HT (f0 & Hf0 & Ht0). destruct (history_ok s owner u d Hs Hkey) as (tl & s1 & E1 & Hs1 & Hl1 & Hg1).
  pose proof (ls_line _ (sd_lines s1 owner Hs1) _ tl Hg1) as Htl. destruct (line_upper tl Htl) as [Hle _]. pose proof (lines_get s1 _ tl Hg1) as El1.
  pose proof (ld_line s s1 u d Hl1) as Eal. rewrite El1 in Eal. set (L := afterLoad s u d) in *.
  assert (Hu : T < upper tl) by (rewrite <- Eal in Hf0; apply Hle in Hf0; lia).
  set (rows := keepRows (fun kv => negb (ofDevice u d kv.2 && (kv.1 <=? T))) (stdRows (stdDb s1))).
  assert (Hrows : forall i row, rows !! i = Some row <-> stdRows (stdDb s) !! i = Some row /\ (ofDevice u d row = true -> T < i)).
  { intros i row. unfold rows. rewrite keepRows_spec, (ld_db s s1 u d Hl1). cbn. rewrite negb_true_iff, andb_false_iff, Z.leb_gt.
    destruct (ofDevice u d row).
    - split; [intros [Hi [Ho|Ho]]; [done|by split]|]. intros [Hi Ho]. split; [done|]. right. by apply Ho.
    - split; [intros [Hi _]; by split|]. intros [Hi _]. split; [done|by left]. }
  destruct (takeFeeds_ok T (length L) 0 tl L [] (-1)) as (tl' & E2 & Hi' & Hfr); [by rewrite <- Eal; apply ln_inv|done|].
  rewrite Nat.add_0_r in E2. cbn [take drop app] in Hi', E2. rewrite drop_0 in E2, Hi'.
  assert (Hread : forall f, stdOffset (readTo T f) = stdOffset f /\ TargetUserID (readTo T f) = TargetUserID f /\ TargetDeviceID (readTo T f) = TargetDeviceID f).
  { intros f. unfold readTo. by destruct (T <? stdOffset f). }
  destruct (Line_map tl tl' (readTo T) Htl) as [Htl' Eit']; [apply Hread|by rewrite Eal|done|].
  destruct (put_line (stdRepo s1) (stdKey u d) tl tl' (sd_lines s1 owner Hs1) Hg1 Htl') as (r2 & E3 & Hr2 & Hg2 & Hoth2).
  set (p := fold_left (maxOf T) L (-1)) in *. destruct (maxOf_spec T L (-1)) as (_ & Hmax & Hp). fold p in Hmax, Hp.
  assert (HTp : T < p) by (specialize (Hmax f0 Hf0 Ht0); lia).
  set (s2 := mkStdRepo r2 (stdGate s1) (updatedKey s1) (mkStdDb rows []) (stdIds s1)).
  assert (El2 : lines s2 (stdKey u d) = map (readTo T) L) by (unfold lines, lineOf; cbn; rewrite Hg2; cbn; by rewrite Eit', Eal).
  exists s2, p. split; [|split; [|split; [|split; [done|split; [done|split; [|split; [|done]]]]]]].
  - unfold addSendToDevice. unfold mbind at 1, ST_bind at 1. rewrite E1. cbn [GetFeedRange snd]. rewrite (proj2 (Z.eqb_neq T 0)), (proj2 (Z.leb_gt _ _) Hu) by lia.
    unfold mbind, ST_bind, logged, deleteStdEvent. rewrite (exec_ok s1 _ (sd_faults s1 owner Hs1)). cbn [fst snd]. fold rows.
    assert (Hi : Inv tl L) by (rewrite <- Eal; apply ln_inv; done). destruct (GetRange_rep tl L (inv_rep _ _ Hi)) as (-> & -> & _).
    unfold liftR. rewrite E2. cbn [fst snd]. unfold putLine, onLines. cbn [setRows set_stdDb stdRepo]. rewrite E3. cbn [mbind res_bind].
    rewrite (proj2 (Z.eqb_neq p (-1))) by lia. done.
  - apply (change_sound s1 owner (stdKey u d) (readTo T)); try done.
    + by rewrite El1, Eal.
    + intros i row [Hi _]%Hrows. left. by rewrite (ld_db s s1 u d Hl1).
    + intros f Hf Hw. destruct (rows !! stdOffset f) as [row|] eqn:Er; [|done]. apply Hrows in Er as [Er _].
      destruct (sd_items s1 owner Hs1 _ f Hf) as (_ & _ & Hn). rewrite (ld_db s s1 u d Hl1) in Hn. rewrite Hn in Er; [done|].
      unfold readTo in Hw. by destruct (T <? stdOffset f).
    + apply Hs1.
  - split; try apply Hl1.
    + intros k Hk. unfold lines. etrans; [|eapply Loaded_lines, Hk; exact Hl1]. unfold lines. f_equal. apply lineOf_same. by apply Hoth2.
    + by intros i row [? _]%Hrows.
    + intros i row Hi Ho. apply Hrows. split; [done|]. by rewrite Ho.
  - intros f Hf. destruct (Z.ltb_spec T (stdOffset f)); [by apply Hmax|lia].
  - destruct Hp as [Hp|(f & Hf & _ & Hp)]; [lia|]. by exists f.
Qed.

(** Any sync of a device. *)
Lemma sync_any s owner u d T : Sound s owner -> stdKey u d ∈ K -> 0 <= T ->
  exists s' x, addSendToDevice u d T s = (Ok x, s') /\ Sound s' owner /\ Synced s s' u d.
Proof using.
  intros Hs Hkey HT. destruct (decide (T = 0)) as [->|Hne].
  { destruct (sync_first s owner u d Hs Hkey) as (s' & p & E & Hs' & Hy & _). by eexists s', _. }
  destruct (decide (Exists (fun f => T < stdOffset f) (afterLoad s u d))) as [He|He].
  - apply Exists_exists in He. destruct (sync_takes s owner u d T Hs Hkey ltac:(lia) He) as (s' & p & E & Hs' & Hy & _). by eexists s', _.
  - apply not_Exists_Forall in He; [|intros x; apply _]. rewrite Forall_forall in He.
    destruct (sync_idle s owner u d T Hs Hkey ltac:(lia)) as (s' & E & Hs' & Hy & _); [|by eexists s', _].
    intros f Hf. specialize (He f Hf). cbn in He. lia.
Qed.

(** ** One device *)

Context (u d : string).

Abbreviation ours := (stdKey u d).

Definition rowOf (m : StdEvent C) : StdRow := mkStdRow (sdSender m) (sdType m) u d (text (sdContent m)) (GetDeviceMac d).

Definition live (T : Z) l : list (Z * StdEvent C) := map (fun f => (stdOffset f, stdData f)) (List.filter (fun f => T <? stdOffset f) l).

Definition kept (rows : gmap Z StdRow) (pend : list (Z * StdEvent C)) : Prop := forall id m, (id, m) ∈ pend -> rows !! id = Some (rowOf m).

(** The messages after the position [T] are [pend]: in memory, or all in the table when
    the device is not loaded. *)
Record Live s (T : Z) (pend : list (Z * StdEvent C)) : Prop := {
  lv_sorted : StronglySorted (fun a b => a.1 < b.1) pend;
  lv_new : forall id m, (id, m) ∈ pend -> T < id;
  lv_warm : ours ∈ ready (stdGate s) -> live T (lines s ours) = pend;
  lv_marks : forall f, f ∈ lines s ours -> T < stdOffset f -> stdRead f = false /\
    (stdWritten f = true -> stdRows (stdDb s) !! stdOffset f = Some (itemRow f)) /\ (stdWritten f = false -> is_Some (updatedKey s !! ours));
  lv_cold : ours ∉ ready (stdGate s) -> kept (stdRows (stdDb s)) pend /\ (length pend <= 100)%nat;
  lv_rows : forall id row, stdRows (stdDb s) !! id = Some row -> ofDevice u d row = true -> T < id -> exists m, (id, m) ∈ pend /\ row = rowOf m;
  lv_length : (length pend <= 500)%nat;
}.

Record Keeps s (T : Z) (pend : list (Z * StdEvent C)) : Prop := {
  kp_target : forall f, f ∈ lines s ours -> TargetUserID f = u /\ TargetDeviceID f = d;
  kp_token : 0 <= T /\ Forall (fun i => T < i) (stdIds s);
  kp_live : 0 < T -> Live s T pend;
  kp_first : T = 0 -> pend = [];
}.

Lemma live_elem T l id m : (id, m) ∈ live T l <-> exists f, f ∈ l /\ T < stdOffset f /\ id = stdOffset f /\ m = stdData f.
Proof using.
  unfold live. rewrite list_elem_of_In, in_map_iff. split.
  - intros (f & [= <- <-] & [Hf Ht%Z.ltb_lt]%filter_In). exists f. by rewrite list_elem_of_In.
  - intros (f & Hf & Ht & -> & ->). exists f. split; [done|]. apply filter_In. by rewrite <- list_elem_of_In, Z.ltb_lt.
Qed.

Lemma live_sorted T l : RepoLines.ascending l -> StronglySorted (fun a b => a.1 < b.1) (live T l).
Proof using.
  unfold live. induction 1 as [|f l _ IH Hf]; cbn; [constructor|]. destruct (T <? stdOffset f); [|done]. cbn. constructor; [done|].
  rewrite Forall_forall in Hf. apply Forall_forall. intros [id m] (g & Hg & _ & -> & _)%live_elem. by apply Hf.
Qed.

Lemma cold_lines s owner : Sound s owner -> ours ∉ ready (stdGate s) -> lines s ours = [].
Proof using.
  intros Hs Hc. unfold lines, lineOf. destruct (get (stdRepo s) ours) eqn:E; [|apply freshLine_ok].
  exfalso. apply Hc, (sd_ready s owner Hs). by rewrite E.
Qed.

Lemma lines_sorted s owner k : Sound s owner -> RepoLines.ascending (lines s k).
Proof using. intros Hs. apply (lineOf_ok (stdRepo s)), Hs. Qed.

Lemma rowOf_ours m : ofDevice u d (rowOf m) = true.
Proof using. by apply ofDevice_spec. Qed.

Lemma decoded_row id m : decoded (id, rowOf m) = Some (m, id).
Proof using json. unfold decoded, rowOf, text. cbn. destruct (json (sdContent m)) as (t & -> & Eu). cbn. rewrite Eu. cbn. by destruct m. Qed.

(** A load reads all that is waiting. *)
Lemma stored_live s owner T pend : Sound s owner -> Live s T pend -> ours ∉ ready (stdGate s) ->
  live T (map (loadedItem u d) (stored u d (stdRows (stdDb s)))) = pend.
Proof using json.
  intros Hs Hl Hc. destruct (lv_cold s T pend Hl Hc) as [Hk Hlen]. destruct (stored_ok u d (stdRows (stdDb s))) as [Has _].
  apply (sorted_unique (fun a b : Z * StdEvent C => a.1 < b.1)); [intros; lia|intros; lia|by apply live_sorted|apply Hl|].
  intros [id m]. rewrite live_elem. unfold stored. set (rows := stdRows (stdDb s)) in *. split.
  - intros (f & Hf & Ht & -> & ->). apply list_elem_of_fmap in Hf as ([ev id] & -> & Hin). cbn in *. rewrite elem_of_reverse in Hin.
    apply list_elem_of_omap in Hin as ([i row] & Hin & E). assert (Hrow : (i, row) ∈ deviceRows u d rows) by (rewrite <- (take_drop 100); apply elem_of_app; by left).
    apply deviceRows_elem in Hrow as [Hr Ho]. assert (i = id) as -> by (unfold decoded in E; cbn in E; destruct (unmarshal _); [by injection E|done]).
    destruct (lv_rows s T pend Hl id row Hr Ho Ht) as (m & Hm & ->). rewrite decoded_row in E. by injection E as <-.
  - intros Hp. pose proof (Hk id m Hp) as Hr. exists (loadedItem u d (m, id)). split_and!; [|by apply (lv_new s T pend Hl id m)|done..].
    apply list_elem_of_fmap. exists (m, id). split; [done|]. rewrite elem_of_reverse. apply list_elem_of_omap. exists (id, rowOf m). split; [|apply decoded_row].
    assert (Hrow : (id, rowOf m) ∈ deviceRows u d rows) by (apply deviceRows_elem; split; [done|apply rowOf_ours]).
    pose proof (deviceRows_sorted u d rows) as Hsort. rewrite <- (take_drop 100 (deviceRows u d rows)) in Hrow, Hsort.
    apply elem_of_app in Hrow as [?|Hdrop]; [done|exfalso]. apply sorted_app in Hsort as (Hst & _ & Hab).
    assert (Hsub : (id :: map fst (take 100 (deviceRows u d rows))) ⊆+ map fst pend).
    { apply NoDup_submseteq.
      - apply NoDup_cons. split.
        + intros ([i row] & -> & Hi)%list_elem_of_fmap. specialize (Hab _ _ Hi Hdrop). cbn in Hab. lia.
        + clear -Hst. induction Hst as [|a l _ IH Ha]; cbn; [constructor|]. apply NoDup_cons. split; [|done].
          intros (b & E & Hb)%list_elem_of_fmap. rewrite Forall_forall in Ha. specialize (Ha b Hb). lia.
      - intros i [->|([i' row] & -> & Hi)%list_elem_of_fmap]%elem_of_cons; [apply list_elem_of_fmap; by exists (id, m)|].
        specialize (Hab _ _ Hi Hdrop). cbn in Hab. assert (Hrow : (i', row) ∈ deviceRows u d rows) by (rewrite <- (take_drop 100); apply elem_of_app; by left).
        apply deviceRows_elem in Hrow as [Hr' Ho]. pose proof (lv_new s T pend Hl id m Hp). destruct (lv_rows s T pend Hl i' row Hr' Ho) as (m' & Hm' & _); [lia|].
        apply list_elem_of_fmap. by exists (i', m'). }
    apply submseteq_length in Hsub. cbn [length] in Hsub. rewrite !length_map, length_take in Hsub.
    assert (Hge : (100 <= length (deviceRows u d rows))%nat).
    { destruct (Nat.le_gt_cases 100 (length (deviceRows u d rows))); [done|]. rewrite drop_ge in Hdrop by lia. by apply elem_of_nil in Hdrop. }
    lia.
Qed.

(** What the items after a load say. *)
Lemma afterLoad_ok s owner T pend : Sound s owner -> Keeps s T pend ->
  RepoLines.ascending (afterLoad s u d) /\ (forall f, f ∈ afterLoad s u d -> TargetUserID f = u /\ TargetDeviceID f = d) /\
  (0 < T -> live T (afterLoad s u d) = pend /\ forall f, f ∈ afterLoad s u d -> T < stdOffset f -> stdRead f = false /\
    (stdWritten f = true -> stdRows (stdDb s) !! stdOffset f = Some (itemRow f)) /\ (stdWritten f = false -> is_Some (updatedKey s !! ours))).
Proof using json.
  intros Hs Hk. unfold afterLoad. case_decide as Hc.
  - split_and!; [by eapply lines_sorted|apply Hk|]. intros HT. destruct (kp_live s T pend Hk HT). split; [by apply lv_warm0|done].
  - destruct (stored_ok u d (stdRows (stdDb s))) as [Has _]. split_and!; [done|by intros f (p & -> & _)%list_elem_of_fmap|].
    intros HT. pose proof (kp_live s T pend Hk HT) as Hl. pose proof (stored_live s owner T pend Hs Hl Hc) as El. split; [done|].
    intros f Hf Ht. assert (Hp : (stdOffset f, stdData f) ∈ pend) by (rewrite <- El; apply live_elem; by exists f).
    apply list_elem_of_fmap in Hf as ([m id] & -> & _). cbn in *. split_and!; [done| |done]. intros _.
    by apply (lv_cold s T pend Hl Hc).
Qed.

Lemma live_pushed T l f : RepoLines.ascending (l ++ [f]) -> T < stdOffset f -> (length (live T l) < 500)%nat ->
  live T (pushed l f) = (live T l ++ [(stdOffset f, stdData f)])%list.
Proof using.
  intros Has Ht Hlen. unfold pushed, live. rewrite List.filter_app, map_app. cbn [List.filter]. rewrite (proj2 (Z.ltb_lt _ _) Ht). cbn [map]. f_equal. f_equal.
  destruct (Nat.leb_spec 500 (length l)) as [Hfull|]; [|done]. destruct l as [|x l]; [cbn in Hfull; lia|]. rewrite skipn_cons, drop_0. cbn.
  destruct (Z.ltb_spec T (stdOffset x)) as [Hx|]; [|done]. exfalso. unfold live in Hlen. rewrite (ReceiptFacts.filter_all (fun g => T <? stdOffset g) (x :: l)) in Hlen.
  - rewrite length_map in Hlen. lia.
  - apply ascending_app in Has as (Hs & _ & _). apply StronglySorted_inv in Hs as [_ HF]. rewrite Forall_forall in HF. apply Forall_forall.
    intros g [->|Hg]%elem_of_cons; apply Z.ltb_lt; [done|]. specialize (HF g Hg). unfold GetOffset, STDEventStream_feed in HF. lia.
Qed.

(** Nothing of the device changes. *)
Lemma Keeps_frame s s' T pend : Keeps s T pend -> lines s' ours = lines s ours -> (ours ∈ ready (stdGate s') <-> ours ∈ ready (stdGate s)) ->
  (is_Some (updatedKey s !! ours) -> is_Some (updatedKey s' !! ours)) -> (forall i, i ∈ stdIds s' -> i ∈ stdIds s) ->
  (forall id row, ofDevice u d row = true -> stdRows (stdDb s') !! id = Some row <-> stdRows (stdDb s) !! id = Some row) -> Keeps s' T pend.
Proof using.
  intros [Ht [Hpo Hid] Hl Hf] El Er Hu Hi Hrows. split; [by rewrite El| |intros HT; specialize (Hl HT)|done].
  - split; [done|]. rewrite Forall_forall in Hid. apply Forall_forall. auto.
  - destruct Hl as [Hso Hne Hwa Hma Hco Hro Hle]. split; try done; [by rewrite El, Er|..].
    + intros f. rewrite El. intros Hfl Hft. destruct (Hma f Hfl Hft) as (? & Hw & Hnw). split_and!; [done| |auto]. intros Hw1. apply Hrows; [|by apply Hw].
      apply ofDevice_spec. by apply Ht.
    + rewrite Er. intros Hc. destruct (Hco Hc) as [Hk Hlen]. split; [|done]. intros id m Hm. apply Hrows; [apply rowOf_ours|]. by apply Hk.
    + intros id row Hr Ho. apply Hro; [by apply Hrows|done].
Qed.

Lemma keeps_send s s' owner T pend m id rest : Sound s owner -> Keeps s T pend -> Added s s' u d m id -> stdIds s = id :: rest -> stdIds s' = rest ->
  Sound s' (<[id := ours]> owner) -> (0 < T -> (length pend < 500)%nat) -> Keeps s' T (if 0 <? T then pend ++ [(id, m)] else []).
Proof using json.
  intros Hs Hk Ha Ei Ei' Hs' Hlen. destruct (afterLoad_ok s owner T pend Hs Hk) as (Has & Htg & Hlive). destruct (kp_token s T pend Hk) as [Hpo Hid].
  rewrite Ei in Hid. apply Forall_cons in Hid as [HTid Hid].
  assert (Htarget : forall f, f ∈ lines s' ours -> TargetUserID f = u /\ TargetDeviceID f = d).
  { rewrite (ad_line s s' u d m id Ha). intros f [Hf| ->]%pushed_elem; [by apply Htg|done]. }
  split; [done|by rewrite Ei'| |].
  2: { intros ->. done. }
  intros HT. specialize (Hlen HT). destruct (Hlive HT) as [El Hmarks]. rewrite (proj2 (Z.ltb_lt _ _) HT). destruct (kp_live s T pend Hk HT) as [Hso Hne _ _ _ Hro _].
  assert (Hafter : RepoLines.ascending (afterLoad s u d ++ [newItem u d m id])).
  { apply ascending_app. split_and!; [done|by repeat constructor|]. intros a b Ha0 ->%list_elem_of_singleton.
    destruct (Hs) as [_ _ _ _ Hitm Hrw _ Hbe _]. assert (Hb : exists k, owner !! stdOffset a = Some k).
    { unfold afterLoad in Ha0. case_decide; [by eexists; apply (Hitm ours a)|]. apply list_elem_of_fmap in Ha0 as ([ev i] & -> & (row & Hrow & _)%stored_elem).
      eexists. by apply Hrw. }
    destruct Hb as [k Hb]. destruct (Hbe _ _ Hb) as [_ HF]. rewrite Ei in HF. by apply Forall_cons in HF as [? _]. }
  assert (Hpid : forall i x, (i, x) ∈ pend -> i < id).
  { intros i x Hp. rewrite <- El in Hp. apply live_elem in Hp as (f & Hf & _ & -> & _). apply ascending_app in Hafter as (_ & _ & Hlt).
    apply (Hlt f (newItem u d m id)); [done|by left]. }
  split.
  - apply sorted_app. split_and!; [done|by repeat constructor|]. intros [i x] b Hi ->%list_elem_of_singleton. cbn. by eapply Hpid.
  - intros i x [Hi|[= -> ->]%list_elem_of_singleton]%elem_of_app; [by eapply Hne|done].
  - intros _. rewrite (ad_line s s' u d m id Ha), live_pushed by (done || by rewrite El). by rewrite El.
  - rewrite (ad_line s s' u d m id Ha), (ad_updated s s' u d m id Ha), (ad_db s s' u d m id Ha). intros f [Hf| ->]%pushed_elem Hft.
    + destruct (Hmarks f Hf Hft) as (? & ? & _). split_and!; [done..|]. intros _. rewrite lookup_insert_eq. by eexists.
    + split_and!; [done|done|]. intros _. rewrite lookup_insert_eq. by eexists.
  - intros Hc. exfalso. apply Hc. rewrite (ad_ready s s' u d m id Ha). set_solver.
  - rewrite (ad_db s s' u d m id Ha). intros i row Hr Ho Hi. destruct (Hro i row Hr Ho Hi) as (x & Hx & ->). exists x. split; [|done]. apply elem_of_app. by left.
  - rewrite length_app. cbn. lia.
Qed.

Lemma keeps_other_send s s' T pend u' d' m id rest : Keeps s T pend -> Added s s' u' d' m id -> stdKey u' d' <> ours -> stdIds s = id :: rest -> stdIds s' = rest ->
  Keeps s' T pend.
Proof using json.
  intros Hk Ha Hne Ei Ei'. apply (Keeps_frame s); try done.
  - apply (ad_other s s' u' d' m id Ha). congruence.
  - rewrite (ad_ready s s' u' d' m id Ha). set_solver.
  - rewrite (ad_updated s s' u' d' m id Ha). by rewrite lookup_insert_ne.
  - rewrite Ei, Ei'. intros i Hi. by right.
  - intros i row _. by rewrite (ad_db s s' u' d' m id Ha).
Qed.

Lemma live_map T l (g : STDEventStream C -> STDEventStream C) : (forall f, stdOffset (g f) = stdOffset f /\ stdData (g f) = stdData f) -> live T (map g l) = live T l.
Proof using.
  intros Hg. unfold live. induction l as [|f l IH]; [done|]. cbn. destruct (Hg f) as [-> _]. destruct (T <? stdOffset f); cbn; [|done].
  destruct (Hg f) as [-> ->]. by f_equal.
Qed.

Lemma keeps_flush s s' owner T pend key : Sound s owner -> Keeps s T pend -> Flushed s s' key -> Keeps s' T pend.
Proof using json.
  intros Hs Hk Hf. destruct (decide (key = ours)) as [->|Hne].
  - pose proof Hk as [Ht [Hpo Hid] Hl Hz]. pose proof (fl_line s s' _ Hf) as El. assert (Hmw : forall f, stdOffset (markWritten f) = stdOffset f /\ stdData (markWritten f) = stdData f) by done.
    assert (Hold : forall id row, stdRows (stdDb s) !! id = Some row -> stdRows (stdDb s') !! id = Some row).
    { intros id row Hr. apply (fl_rows s s' _ Hf). by left. }
    split; [|by rewrite (fl_ids s s' _ Hf)| |done].
    { rewrite El. intros f (g & -> & Hg)%list_elem_of_fmap. exact (Ht g Hg). }
    intros HT. destruct (Hl HT) as [Hso Hnew Hwa Hma Hco Hro Hle]. split; try done.
    + rewrite (fl_gate s s' _ Hf), El, live_map by done. done.
    + rewrite El. intros f (g & -> & Hg)%list_elem_of_fmap Hgt. cbn in Hgt. destruct (Hma g Hg Hgt) as (Hr & Hw & Hnw). split_and!; [done| |done].
      intros _. change (stdRows (stdDb s') !! stdOffset g = Some (itemRow g)). destruct (stdWritten g) eqn:Ew; [by apply Hold, Hw|].
      apply (fl_rows s s' _ Hf). right. by exists g.
    + rewrite (fl_gate s s' _ Hf). intros Hc. destruct (Hco Hc) as [Hkp Hlen]. split; [|done]. intros id m Hm. by apply Hold, Hkp.
    + intros id row Hr Ho Hi. apply (fl_rows s s' _ Hf) in Hr as [Hr|(f & Hfl & _ & -> & ->)]; [by apply Hro|].
      exists (stdData f). destruct (Ht f Hfl) as [Eu Ed]. split; [|unfold itemRow, rowOf; by rewrite Eu, Ed].
      destruct (decide (ours ∈ ready (stdGate s))) as [Hc|Hc]; [|rewrite (cold_lines s owner Hs Hc) in Hfl; by apply elem_of_nil in Hfl].
      rewrite <- (Hwa Hc). apply live_elem. by exists f.
  - apply (Keeps_frame s); try done.
    + apply (fl_other s s' _ Hf). congruence.
    + by rewrite (fl_gate s s' _ Hf).
    + rewrite (fl_updated s s' _ Hf). by rewrite lookup_delete_ne.
    + by rewrite (fl_ids s s' _ Hf).
    + intros id row [Eu Ed]%ofDevice_spec. split; [|intros Hr; apply (fl_rows s s' _ Hf); by left].
      intros [Hr|(f & Hfl & _ & -> & ->)]%(fl_rows s s' _ Hf); [done|exfalso]. apply Hne.
      destruct (sd_items s owner Hs key f Hfl) as (_ & <- & _). cbn in Eu, Ed. by rewrite Eu, Ed.
Qed.

Lemma flushKeys_ok owner T pend ks : forall s, Sound s owner -> Keeps s T pend -> exists s', flushKeys ks s = (Ok (), s') /\ Sound s' owner /\ Keeps s' T pend /\
  (forall k, is_Some (updatedKey s' !! k) -> is_Some (updatedKey s !! k) /\ k ∉ ks) /\ stdIds s' = stdIds s.
Proof using All.
  induction ks as [|key ks IH]; intros s Hs Hk; cbn [flushKeys].
  { exists s. split_and!; try done. intros k Hu. split; [done|]. apply not_elem_of_nil. }
  destruct (flushKey_ok s owner key Hs) as (s1 & E1 & Hs1 & Hf1). destruct (IH s1 Hs1 (keeps_flush s s1 owner T pend key Hs Hk Hf1)) as (s2 & E2 & Hs2 & Hk2 & Hu2 & Ei2).
  exists s2. unfold mbind, ST_bind. rewrite E1, E2. split_and!; try done; [|by rewrite Ei2, (fl_ids s s1 key Hf1)].
  intros k [Hu Hn]%Hu2. rewrite (fl_updated s s1 key Hf1) in Hu. destruct Hu as [b [Hne Hb]%lookup_delete_Some]. split; [by exists b|].
  apply not_elem_of_cons. split; [congruence|done].
Qed.

(** After a flush every waiting message is in the table. *)
Lemma flush_ok s owner T pend : Sound s owner -> Keeps s T pend -> exists s', flushStd s = (Ok (), s') /\ Sound s' owner /\ Keeps s' T pend /\
  stdIds s' = stdIds s /\ kept (stdRows (stdDb s')) pend.
Proof using All.
  intros Hs Hk. destruct (flushKeys_ok owner T pend (map fst (range (updatedKey s))) s Hs Hk) as (s' & E & Hs' & Hk' & Hu & Ei). exists s'.
  split; [exact E|]. split_and!; try done. destruct (kp_token s' T pend Hk') as [Hpo _]. destruct (decide (T = 0)) as [Hz|Hz].
  { rewrite (kp_first s' T pend Hk' Hz). by intros id m ?%elem_of_nil. }
  assert (Hno : ~ is_Some (updatedKey s' !! ours)).
  { intros [[b Hb] Hn]%Hu. apply Hn. apply list_elem_of_fmap. exists (ours, b). split; [done|]. by rewrite range_perm, elem_of_map_to_list. }
  pose proof (kp_live s' T pend Hk' ltac:(lia)) as Hl. destruct (decide (ours ∈ ready (stdGate s'))) as [Hc|Hc]; [|by apply (lv_cold s' T pend Hl)].
  intros id m Hm. rewrite <- (lv_warm s' T pend Hl Hc) in Hm. apply live_elem in Hm as (f & Hf & Ht & -> & ->).
  destruct (lv_marks s' T pend Hl f Hf Ht) as (_ & Hw & Hnw). destruct (stdWritten f) eqn:Ew; [|by destruct Hno; apply Hnw].
  rewrite Hw by done. destruct (kp_target s' T pend Hk' f Hf) as [Eu Ed]. unfold itemRow, rowOf. by rewrite Eu, Ed.
Qed.

Lemma readTo_same T f : stdOffset (readTo T f) = stdOffset f /\ stdData (readTo T f) = stdData f /\ TargetUserID (readTo T f) = TargetUserID f /\ TargetDeviceID (readTo T f) = TargetDeviceID f.
Proof using. unfold readTo. by destruct (T <? stdOffset f). Qed.

Lemma keeps_other_sync s s' T pend u' d' : Keeps s T pend -> Synced s s' u' d' -> stdKey u' d' <> ours -> Keeps s' T pend.
Proof using json.
  intros Hk Hy Hne. apply (Keeps_frame s); try done.
  - apply (sy_other s s' u' d' Hy). congruence.
  - rewrite (sy_ready s s' u' d' Hy). set_solver.
  - by rewrite (sy_updated s s' u' d' Hy).
  - by rewrite (sy_ids s s' u' d' Hy).
  - intros id row Ho. split; [apply (sy_rows s s' u' d' Hy)|]. intros Hr. apply (sy_rows_other s s' u' d' Hy); [done|].
    apply ofDevice_spec in Ho as [Eu Ed]. destruct (ofDevice u' d' row) eqn:Eo; [|done]. apply ofDevice_spec in Eo as [Eu' Ed']. congruence.
Qed.

Lemma live_nothing s p : ours ∈ ready (stdGate s) -> (forall f, f ∈ lines s ours -> stdOffset f <= p) ->
  (forall id row, stdRows (stdDb s) !! id = Some row -> ofDevice u d row = true -> id <= p) -> Live s p [].
Proof using.
  intros Hr Hle Hrows. split; try done.
  - constructor.
  - by intros id m ?%elem_of_nil.
  - intros _. destruct (live p (lines s ours)) as [|[id m] l] eqn:E; [done|]. assert (Hin : (id, m) ∈ live p (lines s ours)) by (rewrite E; by left).
    apply live_elem in Hin as (f & Hf & Ht & _). specialize (Hle f Hf). lia.
  - intros f Hf Ht. specialize (Hle f Hf). lia.
  - intros id row Hrow Ho Hi. specialize (Hrows id row Hrow Ho). lia.
  - cbn. lia.
Qed.

Lemma live_after s s' owner T pend (g : STDEventStream C -> STDEventStream C) : Sound s owner -> Keeps s T pend -> Synced s s' u d -> 0 < T ->
  lines s' ours = map g (afterLoad s u d) -> (forall f, stdOffset (g f) = stdOffset f /\ stdData (g f) = stdData f) -> (forall f, T < stdOffset f -> g f = f) ->
  (forall id row, stdRows (stdDb s) !! id = Some row -> T < id -> stdRows (stdDb s') !! id = Some row) -> Live s' T pend.
Proof using json.
  intros Hs Hk Hy HT El Hg Hid Hrows. destruct (afterLoad_ok s owner T pend Hs Hk) as (_ & _ & Hlive). destruct (Hlive HT) as [Epend Hmarks].
  destruct (kp_live s T pend Hk HT) as [Hso Hnew _ _ _ Hro Hle]. split; try done.
  - intros _. by rewrite El, live_map.
  - rewrite El, (sy_updated s s' u d Hy). intros f (f0 & -> & Hf0)%list_elem_of_fmap Ht. destruct (Hg f0) as [Eo _]. rewrite Eo in Ht. rewrite (Hid f0 Ht).
    destruct (Hmarks f0 Hf0 Ht) as (? & Hw & ?). split_and!; [done| |done]. intros Hw1. apply Hrows; [by apply Hw|done].
  - intros Hc. exfalso. apply Hc. rewrite (sy_ready s s' u d Hy). set_solver.
  - intros id row Hr Ho Hi. apply Hro; [by apply (sy_rows s s' u d Hy)|done|done].
Qed.

(** What a sync of the device itself does: it sends what waits, and the reply can be
    lost. *)
Definition syncs s owner T pend : Prop := exists s' p,
  addSendToDevice u d T s = (Ok (map snd pend, p), s') /\ Sound s' owner /\ stdIds s' = stdIds s /\ 0 < p /\
    Keeps s' T pend /\ Keeps s' p [] /\ (kept (stdRows (stdDb s)) pend -> kept (stdRows (stdDb s')) pend).

Lemma below_ids f s owner : Sound s owner -> f ∈ lines s ours -> Forall (fun i => stdOffset f < i) (stdIds s).
Proof using. intros Hs Hf. destruct (sd_items s owner Hs ours f Hf) as (Ho & _). by apply (sd_below s owner Hs _ _ Ho). Qed.

Lemma syncs_first s owner : Sound s owner -> Keeps s 0 [] -> ours ∈ K -> syncs s owner 0 [].
Proof using json.
  intros Hs Hk Hkey. destruct (afterLoad_ok s owner 0 [] Hs Hk) as (Has & Htg & _). destruct (kp_token s 0 [] Hk) as [Hpo Hids].
  pose proof (sd_ids s owner Hs) as [_ Hone].
  destruct (sync_first s owner u d Hs Hkey) as (s' & p & E & Hs' & Hy & Hp & El & Hle & Hmax & Hrows).
  assert (Htarget : forall f, f ∈ lines s' ours -> TargetUserID f = u /\ TargetDeviceID f = d) by (rewrite El; exact Htg).
  exists s', p. split; [exact E|]. split; [done|]. split; [apply Hy|]. split; [lia|]. split; [|split; [|by intros _ id m ?%elem_of_nil]].
  - split; [done|by rewrite (sy_ids s s' u d Hy)|lia|done].
  - split; [done| |intros _|lia].
    + split; [lia|]. destruct Hmax as [->|(f & Hf & ->)]; [by rewrite (sy_ids s s' u d Hy)|by eapply below_ids].
    + apply live_nothing; [rewrite (sy_ready s s' u d Hy); set_solver|done|]. intros id row Hr Ho. by rewrite (Hrows id row Hr) in Ho.
Qed.

Lemma syncs_idle s owner T pend : Sound s owner -> Keeps s T pend -> ours ∈ K -> 0 < T ->
  (forall f, f ∈ afterLoad s u d -> stdOffset f <= T) -> syncs s owner T pend.
Proof using json.
  intros Hs Hk Hkey HT Hold. destruct (afterLoad_ok s owner T pend Hs Hk) as (Has & Htg & Hlive). destruct (Hlive HT) as [Epend _].
  destruct (kp_token s T pend Hk) as [Hpo Hids]. assert (Enil : pend = []).
  { rewrite <- Epend. destruct (live T (afterLoad s u d)) as [|[id m] l] eqn:E; [done|]. assert (Hin : (id, m) ∈ live T (afterLoad s u d)) by (rewrite E; by left).
    apply live_elem in Hin as (f & Hf & Ht & _). specialize (Hold f Hf). lia. }
  destruct (sync_idle s owner u d T Hs Hkey HT Hold) as (s' & E & Hs' & Hy & El & Edb). clear Epend. subst pend. exists s', T. split; [exact E|]. split; [done|]. split; [apply Hy|].
  split; [done|]. assert (Hkeep : Keeps s' T []); [|split; [done|split; [done|by rewrite Edb]]].
  split; [rewrite El; exact Htg|by rewrite (sy_ids s s' u d Hy)|intros _|done].
  apply (live_after s s' owner T [] id); try done; [by rewrite map_id|]. by rewrite Edb.
Qed.

Lemma syncs_some s owner T pend : Sound s owner -> Keeps s T pend -> ours ∈ K -> 0 < T ->
  (exists f, f ∈ afterLoad s u d /\ T < stdOffset f) -> syncs s owner T pend.
Proof using json.
  intros Hs Hk Hkey HT He. destruct (afterLoad_ok s owner T pend Hs Hk) as (Has & Htg & Hlive). destruct (Hlive HT) as [Epend Hmarks].
  destruct (kp_token s T pend Hk) as [Hpo Hids]. destruct (kp_live s T pend Hk HT) as [_ Hnew _ _ _ Hro _].
  destruct (sync_takes s owner u d T Hs Hkey HT He) as (s' & p & E & Hs' & Hy & El & Hp & Hle & (f0 & Hf0 & Ep) & Hrows).
  assert (Htarget : forall f, f ∈ lines s' ours -> TargetUserID f = u /\ TargetDeviceID f = d).
  { rewrite El. intros f (g & -> & Hg)%list_elem_of_fmap. destruct (readTo_same T g) as (_ & _ & -> & ->). by apply Htg. }
  assert (Hout : map stdData (List.filter (toSend T) (afterLoad s u d)) = map snd pend).
  { rewrite <- Epend. unfold live. rewrite map_map. cbn. f_equal. apply List.filter_ext_in. intros f Hf%list_elem_of_In. unfold toSend.
    destruct (Z.ltb_spec T (stdOffset f)) as [Ht|]; [|done]. destruct (Hmarks f Hf Ht) as [-> _]. done. }
  exists s', p. rewrite <- Hout. split; [exact E|]. split; [done|]. split; [apply Hy|]. split; [lia|]. split; [|split].
  - split; [done|by rewrite (sy_ids s s' u d Hy)|intros _|lia]. apply (live_after s s' owner T pend (readTo T)); try done.
    + intros f. destruct (readTo_same T f) as (? & ? & _). done.
    + intros f Ht. unfold readTo. by rewrite (proj2 (Z.ltb_lt _ _) Ht).
    + intros id row Hr Hi. by apply Hrows.
  - split; [done| |intros _|lia].
    + split; [lia|]. rewrite Ep. assert (Hin : readTo T f0 ∈ lines s' ours) by (rewrite El; by apply list_elem_of_fmap_2).
      destruct (readTo_same T f0) as (<- & _). by eapply below_ids.
    + apply live_nothing; [rewrite (sy_ready s s' u d Hy); set_solver| |].
      * rewrite El. intros f (g & -> & Hg)%list_elem_of_fmap. destruct (readTo_same T g) as (-> & _). by apply Hle.
      * intros id row [Hr Ht]%Hrows Ho. specialize (Ht Ho). destruct (Hro id row Hr Ho Ht) as (m & Hm & _). rewrite <- Epend in Hm.
        apply live_elem in Hm as (f & Hf & _ & -> & _). by apply Hle.
  - intros Hkp id m Hm. apply Hrows. split; [by apply Hkp|]. intros _. by apply (Hnew id m).
Qed.

Lemma sync_ok s owner T pend : Sound s owner -> Keeps s T pend -> ours ∈ K -> syncs s owner T pend.
Proof using json.
  intros Hs Hk Hkey. destruct (kp_token s T pend Hk) as [Hpo _]. destruct (decide (T = 0)) as [->|Hne].
  { pose proof (kp_first s 0 pend Hk eq_refl) as ->. by apply syncs_first. }
  destruct (decide (Exists (fun f => T < stdOffset f) (afterLoad s u d))) as [He|He].
  - apply Exists_exists in He. apply syncs_some; [done..|lia|done].
  - apply not_Exists_Forall in He; [|intros x; apply _]. rewrite Forall_forall in He. apply syncs_idle; [done..|lia|].
    intros f Hf. specialize (He f Hf). cbn in He. lia.
Qed.

(** ** Runs *)

Inductive move :=
  | Send (user dev : string) (m : StdEvent C)
  | Flush
  | Restart
  | Sync (received : bool)
  | OtherSync (user dev : string) (mark : Z).

Record Run := mkRun { server : STDEventStreamRepo C; token : Z; inbox : list (StdEvent C) }.

Definition onServer {A} (m : ST (STDEventStreamRepo C) A) (f : A -> Run -> Run) : ST Run unit := fun x =>
  match m (server x) with
  | (Ok a, s) => (Ok (), f a (mkRun s (token x) (inbox x)))
  | (Err e, s) => (Err e, x)
  | (Panic, s) => (Panic, x)
  | (Diverge, s) => (Diverge, x)
  end.

Context (bukSize maxEntries : nat).

(** The client keeps what it receives and the token that comes with it; a restart
    leaves the table and the generator. *)
Definition act (a : move) : ST Run unit := fun x =>
  match a with
  | Send user dev m => onServer (AddSTDEventStream m user dev) (fun _ x => x) x
  | Flush => onServer flushStd (fun _ x => x) x
  | Restart => (Ok (), mkRun (NewSTDEventStreamRepo bukSize maxEntries (stdDb (server x)) (stdIds (server x))) (token x) (inbox x))
  | Sync received => onServer (addSendToDevice u d (token x)) (fun y x => if received then mkRun (server x) y.2 (inbox x ++ y.1) else x) x
  | OtherSync user dev mark => onServer (addSendToDevice user dev mark) (fun _ x => x) x
  end.

Fixpoint runAll (acts : list move) : ST Run unit :=
  match acts with
  | [] => mret ()
  | a :: rest => _ ← act a; runAll rest
  end.

Definition isOurs (user dev : string) : bool := String.eqb user u && String.eqb dev d.

(** Whether the device has synced, how many messages wait for it and whether they are
    in the table. *)
Record Plan := mkPlan { started : bool; waiting : nat; saved : bool }.

Definition nextPlan (p : Plan) (a : move) : Plan :=
  match a with
  | Send user dev _ => if isOurs user dev then mkPlan (started p) (if started p then S (waiting p) else 0) false else p
  | Flush | Restart => mkPlan (started p) (waiting p) true
  | Sync true => mkPlan true 0 true
  | Sync false | OtherSync _ _ _ => p
  end.

(** At most 500 messages wait; when the server restarts they are in the table and at
    most 100; the keys of the devices are different and in [K]. *)
Definition allowed (p : Plan) (a : move) : Prop :=
  match a with
  | Send user dev _ => stdKey user dev ∈ K /\ (isOurs user dev = false -> stdKey user dev <> ours) /\ (isOurs user dev = true -> started p = true -> (waiting p < 500)%nat)
  | Restart => (waiting p = 0%nat \/ saved p = true) /\ (waiting p <= 100)%nat
  | OtherSync user dev mark => stdKey user dev ∈ K /\ stdKey user dev <> ours /\ 0 <= mark
  | Flush | Sync _ => True
  end.

Fixpoint follows (p : Plan) (acts : list move) : Prop :=
  match acts with
  | [] => True
  | a :: rest => allowed p a /\ follows (nextPlan p a) rest
  end.

#[export] Instance allowed_dec p a : Decision (allowed p a).
Proof using. destruct a; cbn; apply _. Defined.

#[export] Instance follows_dec acts : forall p, Decision (follows p acts).
Proof using. induction acts as [|a acts IH]; intros p; cbn; apply _. Defined.

(** The messages to the device since its first sync. *)
Fixpoint sent (begun : bool) (acts : list move) : list (StdEvent C) :=
  match acts with
  | [] => []
  | Send user dev m :: rest => if begun && isOurs user dev then m :: sent begun rest else sent begun rest
  | Sync true :: rest => sent true rest
  | _ :: rest => sent begun rest
  end.

Definition isSend (a : move) : bool := match a with Send _ _ _ => true | _ => false end.

Record Good (x : Run) (p : Plan) (pend : list (Z * StdEvent C)) : Prop := {
  gd_sound : exists owner, Sound (server x) owner;
  gd_keeps : Keeps (server x) (token x) pend;
  gd_started : started p = true <-> 0 < token x;
  gd_waiting : waiting p = length pend;
  gd_saved : saved p = true -> kept (stdRows (stdDb (server x))) pend;
}.

Lemma isOurs_spec user dev : isOurs user dev = true <-> user = u /\ dev = d.
Proof using. unfold isOurs. by rewrite andb_true_iff, !String.eqb_eq. Qed.

Lemma isOurs_self : isOurs u d = true.
Proof using. by apply isOurs_spec. Qed.

Context (Hkey : ours ∈ K) (Hbuk : (0 < bukSize)%nat) (Hmax : maxEntries = 0%nat \/ (base.size K <= maxEntries)%nat).

Lemma new_lines : Lines (NewTimeLineRepo (F := STDEventStream C) bukSize 500 true maxEntries).
Proof using All.
  split; [apply NewTimeLineRepo_roomy; lia || done|done|done|]. intros key tl. unfold get. destruct (getSlot _ key) as [i| | |]; [|done..]. cbn [NewTimeLineRepo buks].
  destruct (replicate bukSize ∅ !! i) as [b|] eqn:E; [|done]. apply lookup_replicate in E as [-> _]. cbn. by rewrite lookup_empty.
Qed.

Lemma new_lineOf key : get (NewTimeLineRepo (F := STDEventStream C) bukSize 500 true maxEntries) key = None.
Proof using.
  unfold get. destruct (getSlot _ key) as [i| | |]; [|done..]. cbn [NewTimeLineRepo buks].
  destruct (replicate bukSize ∅ !! i) as [b|] eqn:E; [|done]. apply lookup_replicate in E as [-> _]. apply lookup_empty.
Qed.

Lemma new_sound dd ids owner : stdFaults dd = [] -> (forall id row, stdRows dd !! id = Some row -> owner !! id = Some (rowKey row)) ->
  StronglySorted Z.lt ids -> Forall (fun i => 1 < i) ids -> (forall id key, owner !! id = Some key -> 0 < id /\ Forall (fun i => id < i) ids) ->
  Sound (NewSTDEventStreamRepo bukSize maxEntries dd ids) owner.
Proof using All.
  intros Hfa Hro Hso Hone Hbe. split; try done; cbn.
  - apply new_lines.
  - intros key. rewrite new_lineOf. split; [set_solver|]. by intros [? ?].
  - intros key f. unfold lines, lineOf. cbn. rewrite new_lineOf. cbn. by intros ?%elem_of_nil.
  - intros key [? E]. by rewrite lookup_empty in E.
Qed.

Lemma new_lines_nil dd ids key : lines (NewSTDEventStreamRepo bukSize maxEntries dd ids) key = [].
Proof using. unfold lines, lineOf. cbn. by rewrite new_lineOf. Qed.

(** What a step has to show. *)
Definition steps (x : Run) (p : Plan) (pend : list (Z * StdEvent C)) (a : move) : Prop := exists x' pend',
  act a x = (Ok (), x') /\ Good x' (nextPlan p a) pend' /\ (inbox x' ++ map snd pend' = inbox x ++ map snd pend ++ sent (started p) [a])%list /\
    (length (stdIds (server x)) <= length (stdIds (server x')) + (if isSend a then 1 else 0))%nat /\
    (a = Sync true -> pend' = []).

Lemma send_ours x p pend m : Good x p pend -> (started p = true -> (waiting p < 500)%nat) -> stdIds (server x) <> [] -> steps x p pend (Send u d m).
Proof using All.
  intros [[owner Hs] Hk Hst Hw Hsv] Hlt Hid. destruct (stdIds (server x)) as [|id rest] eqn:Ei; [done|].
  destruct (add_ok (server x) owner u d m id rest Hs Hkey Ei) as (s' & E & Hs' & Ha & Ei'). unfold steps. cbn [act nextPlan isSend]. unfold onServer.
  rewrite E, isOurs_self. eexists _, (if 0 <? token x then pend ++ [(id, m)] else [])%list. split; [done|].
  assert (Hk' : Keeps s' (token x) (if 0 <? token x then pend ++ [(id, m)] else [])).
  { apply (keeps_send (server x) s' owner (token x) pend m id rest); try done. intros Ht. rewrite <- Hw. apply Hlt. by apply Hst. }
  split; [|split; [|split; [cbn; rewrite Ei, Ei'; cbn; lia|done]]].
  - split; cbn [server token inbox started waiting saved]; [by eexists|done|done| |done]. destruct (started p) eqn:Es.
    + rewrite (proj2 (Z.ltb_lt _ _)) by (by apply Hst). rewrite length_app. cbn. lia.
    + destruct (Z.ltb_spec 0 (token x)) as [Ht|]; [|done]. apply Hst in Ht. congruence.
  - cbn [inbox sent]. rewrite isOurs_self, andb_true_r. destruct (started p) eqn:Es.
    + rewrite (proj2 (Z.ltb_lt _ _)) by (by apply Hst). by rewrite map_app.
    + destruct (Z.ltb_spec 0 (token x)) as [Ht|]; [apply Hst in Ht; congruence|]. assert (Hz : token x = 0) by (destruct (kp_token _ _ _ Hk); lia).
      rewrite (kp_first _ _ _ Hk Hz). done.
Qed.

Lemma send_other x p pend user dev m : Good x p pend -> stdKey user dev ∈ K -> isOurs user dev = false -> stdKey user dev <> ours ->
  stdIds (server x) <> [] -> steps x p pend (Send user dev m).
Proof using All.
  intros [[owner Hs] Hk Hst Hw Hsv] HK Eo Hne Hid. destruct (stdIds (server x)) as [|id rest] eqn:Ei; [done|].
  destruct (add_ok (server x) owner user dev m id rest Hs HK Ei) as (s' & E & Hs' & Ha & Ei'). unfold steps. cbn [act nextPlan isSend]. unfold onServer.
  rewrite E, Eo. eexists _, pend. split; [done|]. split; [|split; [|split; [cbn; rewrite Ei, Ei'; cbn; lia|done]]].
  - split; cbn [server token inbox]; [by eexists| |done|done|]; [by eapply keeps_other_send|by rewrite (ad_db _ _ _ _ _ _ Ha)].
  - cbn [inbox sent]. rewrite Eo, andb_false_r. by rewrite app_nil_r.
Qed.

Lemma restart_good x p pend : Good x p pend -> allowed p Restart -> steps x p pend Restart.
Proof using All.
  intros [[owner Hs] Hk Hst Hw Hsv] [Hsafe Hlen]. eexists _, pend. split; [done|]. split; [|cbn; rewrite app_nil_r; split; [done|split; [lia|done]]].
  assert (Hkp : kept (stdRows (stdDb (server x))) pend).
  { destruct Hsafe as [Hz|]; [|auto]. rewrite Hw in Hz. destruct pend; [by intros id m ?%elem_of_nil|done]. }
  destruct Hs as [_ Hfa _ _ _ Hro [Hso Hone] Hbe _]. split; cbn [server token inbox started waiting saved nextPlan]; try done.
  { exists owner. by apply new_sound. }
  destruct Hk as [_ Htok Hl Hz]. split; [rewrite new_lines_nil; by intros f ?%elem_of_nil|done| |done].
  intros HT. destruct (Hl HT) as [Hsort Hnew _ _ _ Hrows Hle]. split; try done; cbn.
  - rewrite new_lines_nil. by intros f ?%elem_of_nil.
  - intros _. split; [done|]. lia.
Qed.

Lemma step_good a x p pend : Good x p pend -> allowed p a -> (if isSend a then stdIds (server x) <> [] else True) -> steps x p pend a.
Proof using All.
  intros Hg Hal Hid. destruct a as [user dev m| | |received|user dev mark]; [| |by apply restart_good|..].
  - destruct Hal as (HK & Hne & Hlt). destruct (isOurs user dev) eqn:Eo; [|apply send_other; auto].
    apply isOurs_spec in Eo as Eud. destruct Eud as [-> ->]. apply send_ours; auto.
  - destruct Hg as [[owner Hs] Hk Hst Hw Hsv]. destruct (flush_ok (server x) owner (token x) pend Hs Hk) as (s' & E & Hs' & Hk' & Ei & Hkp).
    unfold steps. cbn [act nextPlan isSend]. unfold onServer. rewrite E. eexists _, pend. split; [done|].
    split; [split; cbn [server token inbox started waiting saved]; [by eexists|done..]|]. cbn [inbox server sent]. rewrite Ei, app_nil_r. split; [done|]. split; [lia|done].
  - destruct Hg as [[owner Hs] Hk Hst Hw Hsv]. destruct (sync_ok (server x) owner (token x) pend Hs Hk Hkey) as (s' & q & E & Hs' & Ei & Hq & Hlost & Hgot & Hkp).
    unfold steps. cbn [act nextPlan isSend]. unfold onServer. rewrite E. destruct received.
    + eexists _, []. split; [done|]. split; [split; cbn [server token inbox started waiting saved]; [by eexists|done|by split|done|by intros _ id m ?%elem_of_nil]|].
      cbn [inbox server sent map snd fst]. rewrite !app_nil_r, Ei. split; [done|]. split; [lia|done].
    + eexists _, pend. split; [done|]. split; [split; cbn [server token inbox]; [by eexists|done..|auto]|]. cbn [inbox server sent]. rewrite app_nil_r, Ei. split; [done|]. split; [lia|done].
  - destruct Hg as [[owner Hs] Hk Hst Hw Hsv], Hal as (HK & Hne & Hmk). destruct (sync_any (server x) owner user dev mark Hs HK Hmk) as (s' & y & E & Hs' & Hy).
    unfold steps. cbn [act nextPlan isSend]. unfold onServer. rewrite E. eexists _, pend. split; [done|].
    split; [split; cbn [server token inbox]; [by eexists|by eapply keeps_other_sync|done|done|]|cbn; rewrite app_nil_r, (sy_ids _ _ _ _ Hy); split; [done|split; [lia|done]]].
    intros Hsd id m Hm. apply (sy_rows_other _ _ _ _ Hy); [by apply Hsv|]. destruct (ofDevice user dev (rowOf m)) eqn:Eo; [|done].
    apply ofDevice_spec in Eo as [Eu Ed]. cbn in Eu, Ed. by subst.
Qed.

Fixpoint sends (acts : list move) : nat :=
  match acts with
  | [] => 0
  | a :: rest => (if isSend a then 1 else 0) + sends rest
  end.

Lemma sent_cons a begun rest p : begun = started p -> sent begun (a :: rest) = (sent begun [a] ++ sent (started (nextPlan p a)) rest)%list.
Proof using. intros ->. destruct a as [user dev m| | |[]|]; cbn; try done. destruct (isOurs user dev), (started p); done. Qed.

Lemma run_good acts : forall x p pend, Good x p pend -> follows p acts -> (sends acts <= length (stdIds (server x)))%nat ->
  exists x' pend', runAll acts x = (Ok (), x') /\ Good x' (fold_left nextPlan acts p) pend' /\
    (inbox x' ++ map snd pend' = inbox x ++ map snd pend ++ sent (started p) acts)%list /\ (last acts = Some (Sync true) -> pend' = []).
Proof using All.
  induction acts as [|a acts IH]; intros x p pend Hg Hf Hn; cbn [runAll fold_left].
  { exists x, pend. split_and!; try done. cbn. by rewrite app_nil_r. }
  cbn [follows sends] in *. destruct Hf as [Hal Hf].
  destruct (step_good a x p pend Hg Hal) as (x1 & pend1 & E1 & Hg1 & Es1 & Hn1 & Hl1).
  { destruct (isSend a); [|done]. destruct (stdIds (server x)); [cbn in Hn; lia|done]. }
  destruct (IH x1 (nextPlan p a) pend1 Hg1 Hf) as (x2 & pend2 & E2 & Hg2 & Es2 & Hl2); [lia|].
  exists x2, pend2. unfold mbind, ST_bind. rewrite E1, E2. split; [done|]. split; [done|]. split.
  - rewrite Es2, (sent_cons a (started p) acts p eq_refl). rewrite app_assoc, Es1. by rewrite <- !app_assoc.
  - destruct acts as [|b acts]; [|by apply Hl2]. cbn. intros [= ->]. cbn in E2. injection E2 as <-. cbn in Es2. rewrite app_nil_r in Es2.
    apply app_inv_head in Es2. rewrite (Hl1 eq_refl) in Es2. by destruct pend2.
Qed.

(** C12: A device gets every message once, while its backlog is small. Messages are
    sent to it and to other devices, the server writes them to its table, restarts,
    and answers syncs of the device, whose replies may be lost, and of others. The
    keys of all devices fit into the repository, at most 500 messages wait for the
    device, and at every restart all that wait for it were written by a flush and are
    at most 100. Then after a reply that arrives the device has received the messages
    that were sent to it since its first sync, each once and in order. The identifiers
    of the generator increase, the database works, and the contents survive JSON. *)
Theorem to_device_exactly_once (d0 : StdDb) (ids : list Z) (acts : list move) : stdFaults d0 = [] -> StronglySorted Z.lt ids -> Forall (fun i => 1 < i) ids ->
  (forall id row, stdRows d0 !! id = Some row -> 0 < id /\ Forall (fun i => id < i) ids) -> (sends acts <= length ids)%nat ->
  follows (mkPlan false 0 true) acts ->
  exists x, runAll (acts ++ [Sync true]) (mkRun (NewSTDEventStreamRepo bukSize maxEntries d0 ids) 0 []) = (Ok (), x) /\ inbox x = sent false acts.
Proof using All.
  intros Hfa Hso Hone Hrows Hn Hf. set (x0 := mkRun _ 0 []).
  assert (Hg : Good x0 (mkPlan false 0 true) []).
  { split; cbn [server token inbox started waiting saved x0]; [| |split; [done|lia]|done|by intros _ id m ?%elem_of_nil].
    - exists (rowKey <$> stdRows d0). apply new_sound; try done.
      + intros id row Hr. by rewrite lookup_fmap, Hr.
      + intros id key. rewrite lookup_fmap. destruct (stdRows d0 !! id) as [row|] eqn:Er; [|done]. intros _. by eapply Hrows.
    - split; [rewrite new_lines_nil; by intros f ?%elem_of_nil| |lia|done]. split; [lia|]. eapply Forall_impl; [exact Hone|]. cbn. lia. }
  assert (Hsends : forall bs, sends (bs ++ [Sync true]) = sends bs) by (induction bs as [|b bs IHb]; cbn; [done|by rewrite IHb]).
  assert (Hfol : forall bs p, follows p bs -> follows p (bs ++ [Sync true])) by (induction bs as [|b bs IHb]; intros p; cbn; [done|]; intros [? ?]; auto).
  assert (Hsent : forall bs begun, sent begun (bs ++ [Sync true]) = sent begun bs).
  { induction bs as [|b bs IHb]; intros begun; [done|]. destruct b as [user dev m| | |[]|]; cbn; rewrite ?IHb; done. }
  destruct (run_good (acts ++ [Sync true]) x0 (mkPlan false 0 true) [] Hg) as (x & pend & E & _ & Ei & Hl); [by apply Hfol|by rewrite Hsends|].
  exists x. split; [done|]. rewrite Hsent, (Hl (last_snoc _ _)) in Ei. cbn in Ei. by rewrite app_nil_r in Ei.
Qed.

End Facts.

(** ** A concrete run *)

#[local] Instance plainJson : DeviceJson string := { marshal c := Some c; unmarshal t := Some t }.

Lemma plainJson_ok (c : string) : exists t, marshal c = Some t /\ unmarshal t = Some c.
Proof. by exists c. Qed.

Definition memo (n : Z) : StdEvent string := mkStdEvent "@v:b" "m.key" (pretty n).

Definition emptyStd : StdDb := mkStdDb ∅ [].

(** Two messages before a restart, one after it, a reply that is lost, another device. *)
Definition sampleRun : list (@move string) :=
  [Send "@u:a" "D" (memo 0); Sync true; Send "@u:a" "D" (memo 1); Send "@w:a" "E" (memo 7); Send "@u:a" "D" (memo 2); Flush; Restart;
   Sync false; Send "@u:a" "D" (memo 3); OtherSync "@w:a" "E" 1; Sync true; Flush; Send "@u:a" "D" (memo 4)].

Lemma to_device_exactly_once_witness :
  exists x, runAll "@u:a" "D" 4 10 (sampleRun ++ [Sync true]) (mkRun (NewSTDEventStreamRepo 4 10 emptyStd (map Z.of_nat (seq 2 10))) 0 []) = (Ok (), x) /\
    inbox x = sent "@u:a" "D" false sampleRun /\ sent "@u:a" "D" false sampleRun = [memo 1; memo 2; memo 3; memo 4].
Proof.
  destruct (to_device_exactly_once {["@u:a:D"; "@w:a:E"]} plainJson_ok "@u:a" "D" 4 10 ltac:(set_solver) ltac:(lia)
    ltac:(right; vm_compute; lia) emptyStd (map Z.of_nat (seq 2 10)) sampleRun) as (x & E & Ei).
  - done.
  - cbn. repeat (constructor; [|repeat constructor; lia]). constructor.
  - cbn. repeat constructor; lia.
  - intros id row. cbn. by rewrite lookup_empty.
  - cbn. lia.
  - apply (bool_decide_unpack _). by vm_compute.
  - exists x. split; [exact E|split; [exact Ei|]]. by vm_compute.
Defined.

(** ** What goes wrong *)

Definition deviceRun (acts : list (@move string)) (d : StdDb) : option (list (StdEvent string)) :=
  match runAll "@u:a" "D" 4 1 acts (mkRun (NewSTDEventStreamRepo 4 1 d (map Z.of_nat (seq 2 400))) 0 []) with
  | (Ok _, x) => Some (inbox x)
  | _ => None
  end.

(** A load reads the newest 100 rows; the next sync deletes the older ones too. *)
Theorem backlog_lost_on_restart :
  deviceRun ([Sync true] ++ map (fun n => Send "@u:a" "D" (memo (Z.of_nat n))) (seq 1 103) ++ [Flush; Restart; Sync true; Sync true]) emptyStd =
    Some (map (fun n => memo (Z.of_nat n)) (seq 4 100)).
Proof. by vm_compute. Qed.

(** A message whose row could not be written is not written by the next flush. *)
Theorem failed_flush_forgotten :
  let faulty := mkStdDb ∅ [false; false; true] in
  deviceRun [Sync true; Send "@u:a" "D" (memo 1); Flush; Flush; Restart; Sync true] faulty = Some [].
Proof. by vm_compute. Qed.

(** With room for one device the timeline of another drops one that was not written. *)
Theorem dropped_line_lost :
  deviceRun [Sync true; Send "@u:a" "D" (memo 1); Send "@w:a" "E" (memo 2); Flush; Sync true] emptyStd = Some [].
Proof. by vm_compute. Qed.

(** The keys of two devices of different users can be equal. *)
Theorem device_keys_collide : stdKey "@u:a" "8448:D" = stdKey "@u:a:8448" "D".
Proof. reflexivity. Qed.

End DeviceFacts.
