(* ===== verification/UserRooms.v ===== *)
(** * The rooms of a user

    [UserTimeLineRepo] ([src/model/repos/userTimeLineRepo.go]) keeps, for the users of
    this instance of the sync aggregator, the rooms each is in, with the offsets of the
    member events, the newest offset of every room, and the users each shares a room
    with.  The feed of new events keeps them up to date
    ([src/syncaggregate/consumers/consumer.go]).

    The tokens of a device, one for each answered sync, tell how far each of its rooms
    was sent; they are hashes in Redis ([src/cache/token.go]).

    The join offsets are values of two types of Go: the [int] that marks a room whose
    offset was not found, and [int64].  Reading the first one as the second panics.  The
    database is the class [UserDb], Redis the class [Redis].  The profiles that the feed
    sends to other servers are left out.  The theorems are in [SyncMngFacts] and
    [SyncRuns]. *)

From Stdlib Require Import String Ascii ZArith List Lia.
From stdpp Require Import base tactics list gmap strings pretty.
From S2P Require Import Prelude Timeline TimelineRepo Loader SyncHistory SyncRoomState Ids Push Receipts ReceiptConsumer SyncStates SyncBuild RoomMessages RoomQuery.

#[local] Open Scope string_scope.
#[local] Open Scope Z_scope.

Module UserRooms.
Import SyncHistory SyncRoomState RoomMessages.

(** The rows of the membership tables; a joined room comes with its member event. *)
Class UserDb (P : Type) := {
  GetRidsForUser : string -> ST P (list (string * string));
  GetInviteRidsForUser : string -> ST P (list (string * Z));
  GetLeaveRidsForUser : string -> ST P (list string);
  LastOffsets : list string -> ST P (gmap string Z);
  GetJoinRoomOffsets : list string -> ST P (list (string * Z));
  GetUserMaxReceiptOffset : string -> ST P Z;
  FriendsOf : list string -> ST P (list string);
}.

(** The commands of Redis on hashes. *)
Class Redis (R : Type) := {
  HMSET : string -> list (string * string) -> ST R unit;
  HGETALL : string -> ST R (list (string * string));
  HSET : string -> string -> string -> ST R unit;
  HDEL : string -> string -> ST R unit;
  DEL : string -> ST R unit;
  EXPIRE : string -> Z -> ST R unit;
}.

(** ** Tokens *)

(** [SetCacheCfg]. *)
Record CacheCfg := mkCacheCfg { TokenExpire : Z; UtlExpire : Z; LatestToken : nat }.

Definition utlOrder (a b : Z) : bool := b <=? a.

Section Tokens.
  Context {R : Type} `{Redis R} `{GoRange}.
  Context (cfg : CacheCfg).

Definition tokenKey (userID device : string) (utl : Z) : string := "synctoken:" ++ userID ++ ":" ++ device ++ ":" ++ pretty utl.
Definition utlsKey (userID device : string) : string := "allutl:" ++ userID ++ ":" ++ device.

(** The error of [Expire] is only logged. *)
Definition Expire (key : string) (secs : Z) : ST R unit := _ ← RoomQuery.attempt (EXPIRE key secs); mret ().

Definition SetToken (userID device : string) (utl : Z) (roomoffsets : gmap string Z) : ST R unit :=
  let key := tokenKey userID device utl in
  _ ← HMSET key (map (fun kv => (kv.1, pretty kv.2)) (range roomoffsets));
  Expire key (TokenExpire cfg).

(** A hash without fields is one that is not there. *)
Definition GetToken (userID device : string) (utl : Z) : ST R (option (gmap string Z)) :=
  let key := tokenKey userID device utl in
  result ← HGETALL key;
  match result with
  | [] => mret None
  | _ =>
      _ ← Expire key (TokenExpire cfg);
      mret (Some (fold_left (fun r kv => <[kv.1 := (Atoi kv.2).1]> r) result ∅))
  end.

(** A token that cannot be deleted stays in the list. *)
Fixpoint DelTokens (userID device : string) (utls : list Z) : ST R unit :=
  match utls with
  | [] => mret ()
  | utl :: rest =>
      r ← RoomQuery.attempt (DEL (tokenKey userID device utl));
      _ ← match r with
          | inl _ => _ ← RoomQuery.attempt (HDEL (utlsKey userID device) (pretty utl)); mret ()
          | inr _ => mret ()
          end;
      DelTokens userID device rest
  end.

Definition AddTokenUtl (userID device : string) (utl now : Z) : ST R unit :=
  let key := utlsKey userID device in
  _ ← HSET key (pretty utl) (pretty now);
  Expire key (UtlExpire cfg).

Definition GetTokenUtls (userID device : string) : ST R (list Z) :=
  let key := utlsKey userID device in
  us ← HGETALL key;
  match us with
  | [] => mret []
  | _ =>
      let utls := omap (fun kv => let '(utl, ok) := Atoi kv.1 in if (ok : bool) then Some utl else None) us in
      _ ← Expire key (UtlExpire cfg);
      mret (gosort utlOrder utls)
  end.

Definition GetLastValidToken (userID device : string) : ST R (Z * option (gmap string Z)) :=
  utls ← GetTokenUtls userID device;
  match utls with
  | [] => mret (0, None)
  | utl :: _ => token ← GetToken userID device utl; mret (utl, token)
  end.

(** [LoadToken]: the newest token stands in for one that is gone. *)
Definition LoadToken (user device : string) (utl : Z) : ST R (Z * option (gmap string Z)) :=
  token ← GetToken user device utl;
  match token with
  | Some t => mret (utl, Some t)
  | None => if utl =? 0 then mret (0, None) else GetLastValidToken user device
  end.

(** [UpdateToken]: once the token is set nothing is an error; the old ones go. *)
Definition UpdateToken (user device : string) (utl now : Z) (roomOffsets : gmap string Z) : ST R unit :=
  _ ← SetToken user device utl roomOffsets;
  r ← RoomQuery.attempt (AddTokenUtl user device utl now);
  match r with
  | inr _ => mret ()
  | inl _ =>
      us ← RoomQuery.attempt (GetTokenUtls user device);
      match us with
      | inr _ => mret ()
      | inl utls => if (LatestToken cfg <? length utls)%nat then DelTokens user device (drop (LatestToken cfg) utls) else mret ()
      end
  end.

End Tokens.

(** ** The repository *)

Inductive JoinOffset := IntOffset (z : Z) | Int64Offset (z : Z).

Section Rooms.
  Context `{ContentJson} `{GoRange} {P : Type} `{UserDb P}.

(** The rooms of each user by membership, and the users whose rooms were loaded. *)
Record UserTimeLineRepo := mkUserTimeLine {
  persist : P;
  userReady : gset string;
  joins : gmap string (gmap string JoinOffset);
  joinReady : gset string;
  invites : gmap string (gmap string Z);
  inviteReady : gset string;
  leaves : gmap string (gmap string Z);
  leaveReady : gset string;
  receiptLatest : gmap string Z;
  friendShip : gmap string (gset string);
  curRoom : gmap string string;
  roomOffsets : gmap string Z;
}.

Definition NewUserTimeLineRepo (d : P) : UserTimeLineRepo := mkUserTimeLine d ∅ ∅ ∅ ∅ ∅ ∅ ∅ ∅ ∅ ∅ ∅.

Definition set_persist (s : UserTimeLineRepo) d := mkUserTimeLine d (userReady s) (joins s) (joinReady s) (invites s) (inviteReady s) (leaves s) (leaveReady s) (receiptLatest s) (friendShip s) (curRoom s) (roomOffsets s).
Definition set_userReady (s : UserTimeLineRepo) x := mkUserTimeLine (persist s) x (joins s) (joinReady s) (invites s) (inviteReady s) (leaves s) (leaveReady s) (receiptLatest s) (friendShip s) (curRoom s) (roomOffsets s).
Definition set_joins (s : UserTimeLineRepo) x y := mkUserTimeLine (persist s) (userReady s) x y (invites s) (inviteReady s) (leaves s) (leaveReady s) (receiptLatest s) (friendShip s) (curRoom s) (roomOffsets s).
Definition set_invites (s : UserTimeLineRepo) x y := mkUserTimeLine (persist s) (userReady s) (joins s) (joinReady s) x y (leaves s) (leaveReady s) (receiptLatest s) (friendShip s) (curRoom s) (roomOffsets s).
Definition set_leaves (s : UserTimeLineRepo) x y := mkUserTimeLine (persist s) (userReady s) (joins s) (joinReady s) (invites s) (inviteReady s) x y (receiptLatest s) (friendShip s) (curRoom s) (roomOffsets s).
Definition set_receiptLatest (s : UserTimeLineRepo) x := mkUserTimeLine (persist s) (userReady s) (joins s) (joinReady s) (invites s) (inviteReady s) (leaves s) (leaveReady s) x (friendShip s) (curRoom s) (roomOffsets s).
Definition set_friendShip (s : UserTimeLineRepo) x := mkUserTimeLine (persist s) (userReady s) (joins s) (joinReady s) (invites s) (inviteReady s) (leaves s) (leaveReady s) (receiptLatest s) x (curRoom s) (roomOffsets s).
Definition set_curRoom (s : UserTimeLineRepo) x := mkUserTimeLine (persist s) (userReady s) (joins s) (joinReady s) (invites s) (inviteReady s) (leaves s) (leaveReady s) (receiptLatest s) (friendShip s) x (roomOffsets s).
Definition set_roomOffsets (s : UserTimeLineRepo) x := mkUserTimeLine (persist s) (userReady s) (joins s) (joinReady s) (invites s) (inviteReady s) (leaves s) (leaveReady s) (receiptLatest s) (friendShip s) (curRoom s) x.

#[local] Abbreviation M := (ST UserTimeLineRepo).

Definition onPersist {A} (m : ST P A) : M A := fun s => let '(r, d) := m (persist s) in (r, set_persist s d).
Definition getRepo : M UserTimeLineRepo := fun s => (Ok s, s).
Definition putRepo (f : UserTimeLineRepo -> UserTimeLineRepo) : M unit := fun s => (Ok (), f s).

(** [UpdateRoomOffset]: offsets of a room only grow. *)
Definition UpdateRoomOffset (roomID : string) (offset : Z) : M unit :=
  putRepo (fun s =>
    match roomOffsets s !! roomID with
    | Some last => if last <? offset then set_roomOffsets s (<[roomID := offset]> (roomOffsets s)) else s
    | None => set_roomOffsets s (<[roomID := offset]> (roomOffsets s))
    end).

Definition GetJoinRoomOffset (s : UserTimeLineRepo) (roomID : string) : Z := default (-1) (roomOffsets s !! roomID).

(** [loadRoomLatest] and [loadJoinRoomOffsets]; the callers ignore their errors. *)
Definition loadRoomLatest (rooms : list string) : M unit :=
  r ← RoomQuery.attempt (onPersist (LastOffsets rooms));
  match r with
  | inl roomMap => fold_left (fun m kv => _ ← m; UpdateRoomOffset kv.1 kv.2) (range roomMap) (mret ())
  | inr _ => mret ()
  end.

Definition loadJoinRoomOffsets (events : list string) (m : gmap string JoinOffset) : M (gmap string JoinOffset) :=
  r ← RoomQuery.attempt (onPersist (GetJoinRoomOffsets events));
  match r with
  | inl rows => mret (fold_left (fun m kv => <[kv.1 := Int64Offset kv.2]> m) rows m)
  | inr _ => mret m
  end.

(** [GetJoinRooms]: a room starts with the [int] -1. *)
Definition loadJoins (user : string) : M unit :=
  rows ← onPersist (GetRidsForUser user);
  s ← getRepo;
  let res := fold_left (fun m kv => <[kv.1 := IntOffset (-1)]> m) rows ∅ in
  let loadrooms := List.filter (fun id => GetJoinRoomOffset s id =? -1) (map fst rows) in
  let loadEvents := map snd rows in
  _ ← (if (0 <? length loadrooms)%nat then loadRoomLatest loadrooms else mret ());
  res ← (if (0 <? length loadEvents)%nat then loadJoinRoomOffsets loadEvents res else mret res);
  putRepo (fun s => set_joins s (<[user := res]> (joins s)) ({[user]} ∪ joinReady s)).

Definition GetJoinRooms (user : string) : M (gmap string JoinOffset) :=
  s ← getRepo;
  _ ← (if decide (user ∈ joinReady s) then mret () else loadJoins user);
  s ← getRepo;
  mret (default ∅ (joins s !! user)).

Definition GetInviteRooms (user : string) : M (gmap string Z) :=
  s ← getRepo;
  _ ← (if decide (user ∈ inviteReady s) then mret ()
       else rows ← onPersist (GetInviteRidsForUser user);
            putRepo (fun s => set_invites s (<[user := fold_left (fun m kv => <[kv.1 := kv.2]> m) rows ∅]> (invites s)) ({[user]} ∪ inviteReady s)));
  s ← getRepo;
  mret (default ∅ (invites s !! user)).

Definition GetLeaveRooms (user : string) : M (gmap string Z) :=
  s ← getRepo;
  _ ← (if decide (user ∈ leaveReady s) then mret ()
       else rows ← onPersist (GetLeaveRidsForUser user);
            putRepo (fun s => set_leaves s (<[user := fold_left (fun m room => <[room := -1]> m) rows ∅]> (leaves s)) ({[user]} ∪ leaveReady s)));
  s ← getRepo;
  mret (default ∅ (leaves s !! user)).

Definition CheckIsJoinRoom (user room : string) : M bool :=
  joined ← RoomQuery.attempt (GetJoinRooms user);
  mret (match joined with inl m => bool_decide (is_Some (m !! room)) | inr _ => false end).

Definition isIn {A} (r : gmap string A + goerr) (room : string) : bool :=
  match r with inl m => bool_decide (is_Some (m !! room)) | inr _ => false end.

Definition GetUserRoomMembership (user room : string) : M string :=
  joined ← RoomQuery.attempt (GetJoinRooms user);
  if isIn joined room then mret "join" else
  invited ← RoomQuery.attempt (GetInviteRooms user);
  if isIn invited room then mret "invite" else
  leaved ← RoomQuery.attempt (GetLeaveRooms user);
  mret (if isIn leaved room then "leave" else "unknown").

(** [GetJoinMembershipOffset]: the type assertion fails on an [int]. *)
Definition GetJoinMembershipOffset (user roomID : string) : M Z :=
  joined ← RoomQuery.attempt (GetJoinRooms user);
  match joined with
  | inr _ => mret (-1)
  | inl m => match m !! roomID with
             | Some (Int64Offset z) => mret z
             | Some (IntOffset _) => liftR Panic
             | None => mret (-1)
             end
  end.

Definition GetInviteRoomOffset (roomID user : string) : M Z :=
  r ← RoomQuery.attempt (GetInviteRooms user);
  mret (match r with inl m => default (-1) (m !! roomID) | inr _ => -1 end).

Definition GetLeaveRoomOffset (roomID user : string) : M Z :=
  r ← RoomQuery.attempt (GetLeaveRooms user);
  mret (match r with inl m => default (-1) (m !! roomID) | inr _ => -1 end).

Definition GetNotJoinRoomLatestOffset (roomID user membership : string) : M Z :=
  if String.eqb membership "invite" then GetInviteRoomOffset roomID user
  else if String.eqb membership "leave" then GetLeaveRoomOffset roomID user
  else mret (-1).

Definition GetRoomOffset (roomID user membership : string) : M Z :=
  if String.eqb membership "invite" || String.eqb membership "leave" then GetNotJoinRoomLatestOffset roomID user membership
  else if String.eqb membership "join" then s ← getRepo; mret (GetJoinRoomOffset s roomID)
  else mret (-1).

(** ** The feed of events *)

(** A room changes its place in the three maps of a user.  Joined rooms that could not
    be loaded are changed in a copy that is dropped. *)
Definition setJoin (user room : string) (o : option JoinOffset) : M unit :=
  putRepo (fun s => set_joins s (<[user := partial_alter (fun _ => o) room (default ∅ (joins s !! user))]> (joins s)) (joinReady s)).
Definition setInvite (user room : string) (o : option Z) : M unit :=
  putRepo (fun s => set_invites s (<[user := partial_alter (fun _ => o) room (default ∅ (invites s !! user))]> (invites s)) (inviteReady s)).
Definition setLeave (user room : string) (o : option Z) : M unit :=
  putRepo (fun s => set_leaves s (<[user := partial_alter (fun _ => o) room (default ∅ (leaves s !! user))]> (leaves s)) (leaveReady s)).

Definition moveRoom (jok : bool) (user room : string) (j : option JoinOffset) (i l : option Z) : M unit :=
  _ ← (if jok then setJoin user room j else mret ());
  _ ← setInvite user room i;
  setLeave user room l.

Definition AddP2PEv (ev : ClientEvent) (off : Z) (user : string) : M unit :=
  if String.eqb (ceType ev) "m.room.member" then
    key ← liftR (stateKeyOf ev);
    let membership := if String.eqb user key then membershipOf (ceContent ev) else "join" in
    userJoin ← RoomQuery.attempt (GetJoinRooms user);
    userInvite ← RoomQuery.attempt (GetInviteRooms user);
    _ ← (match userInvite with inl _ => mret () | inr _ => putRepo (fun s => set_invites s (<[user := ∅]> (invites s)) (inviteReady s)) end);
    userLeave ← RoomQuery.attempt (GetLeaveRooms user);
    _ ← (match userLeave with inl _ => mret () | inr _ => putRepo (fun s => set_leaves s (<[user := ∅]> (leaves s)) (leaveReady s)) end);
    let jok := match userJoin with inl _ => true | inr _ => false end in
    if negb (String.eqb user key) then mret ()
    else if String.eqb membership "join" then moveRoom jok user (ceRoomID ev) (Some (Int64Offset off)) None None
    else if String.eqb membership "leave" || String.eqb membership "ban" then moveRoom jok user (ceRoomID ev) None None (Some off)
    else if String.eqb membership "invite" then moveRoom jok user (ceRoomID ev) None (Some off) None
    else mret ()
  else mret ().

(** [AddFriendShip]: only for users whose friends are loaded; whether the friend was
    known. *)
Definition addFriendShip (userID friend : string) : M bool :=
  s ← getRepo;
  let known := default ∅ (friendShip s !! userID) in
  _ ← putRepo (fun s => set_friendShip s (<[userID := {[friend]} ∪ known]> (friendShip s)));
  mret (bool_decide (friend ∈ known)).

Definition AddFriendShip (userID friend : string) : M (bool * bool) :=
  s ← getRepo;
  match friendShip s !! userID with
  | Some _ => has ← addFriendShip userID friend; mret (true, has)
  | None => mret (false, false)
  end.

(** The friends of a user without rooms are known to be none; those of a user with
    rooms but no friends are asked for each time. *)
Definition LoadUserFriendShip (userID : string) : M unit :=
  s ← getRepo;
  match friendShip s !! userID with
  | Some _ => mret ()
  | None =>
      joinRooms ← RoomQuery.attempt (GetJoinRooms userID);
      match joinRooms with
      | inr _ => mret ()
      | inl m =>
          let joined := map fst (range m) in
          if (0 <? length joined)%nat then
            friends ← RoomQuery.attempt (onPersist (FriendsOf joined));
            match friends with
            | inl fs => fold_left (fun k f => _ ← k; _ ← addFriendShip userID f; mret ()) fs (mret ())
            | inr _ => mret ()
            end
          else putRepo (fun s => set_friendShip s (<[userID := ∅]> (friendShip s)))
      end
  end.

Definition GetFriendShip (userID : string) (load : bool) : M (option (gset string)) :=
  s ← getRepo;
  match friendShip s !! userID with
  | Some m => mret (Some m)
  | None => if load then _ ← LoadUserFriendShip userID; s ← getRepo; mret (friendShip s !! userID) else mret None
  end.

(** ** Receipts, and the room a device shows *)

Definition SetReceiptLatest (userID : string) (offset : Z) : M unit :=
  putRepo (fun s =>
    match receiptLatest s !! userID with
    | Some last => if last <? offset then set_receiptLatest s (<[userID := offset]> (receiptLatest s)) else s
    | None => set_receiptLatest s (<[userID := offset]> (receiptLatest s))
    end).

Definition ExistsUserReceiptUpdate (pos : Z) (user : string) (s : UserTimeLineRepo) : bool * Z :=
  match receiptLatest s !! user with
  | Some u => if pos <? u then (true, u) else (false, 0)
  | None => (false, 0)
  end.

Definition CheckUserLoadingReady (user : string) (s : UserTimeLineRepo) : bool := bool_decide (user ∈ userReady s).

Definition LoadHistory (user : string) (isHuman : bool) : M unit :=
  s ← getRepo;
  if CheckUserLoadingReady user s then mret ()
  else
    ok ← (if isHuman then
            ok ← (match receiptLatest s !! user with
                  | Some _ => mret true
                  | None =>
                      r ← RoomQuery.attempt (onPersist (GetUserMaxReceiptOffset user));
                      match r with inl maxPos => _ ← SetReceiptLatest user maxPos; mret true | inr _ => mret false end
                  end);
            _ ← (if (ok : bool) then LoadUserFriendShip user else mret ());
            mret ok
          else mret true);
    if (ok : bool) then putRepo (fun s => set_userReady s ({[user]} ∪ userReady s)) else mret ().

Definition GetUserLatestReceiptOffset (user : string) (isHuman : bool) : M Z :=
  s ← getRepo;
  _ ← (if CheckUserLoadingReady user s then mret () else LoadHistory user isHuman);
  s ← getRepo;
  mret (default (-1) (receiptLatest s !! user)).

Definition roomKey (user device : string) : string := user ++ ":" ++ device.
Definition SetUserCurRoom (user device room : string) : M unit := putRepo (fun s => set_curRoom s (<[roomKey user device := room]> (curRoom s))).
Definition GetUserCurRoom (user device : string) (s : UserTimeLineRepo) : string := default "" (curRoom s !! roomKey user device).

(** ** Distribution of an event *)

(** [OnMessage] and [addUserTimeLineEvent] for one instance: the event counts for its
    room, and goes to the rooms of those joined users that belong to the instance, and
    to those of the user who leaves or is invited. *)
Definition eachUser (f : string -> M unit) (users : list string) : M unit := fold_left (fun k u => _ ← k; f u) users (mret ()).

Fixpoint related (instance total : Z) (users : list string) : res (list string) :=
  match users with
  | [] => Ok []
  | u :: rest => b ← IsRelatedRequest u instance total false; l ← related instance total rest; Ok (if (b : bool) then u :: l else l)
  end.

Definition addUserTimeLineEvent (instance total : Z) (ev : ClientEvent) (off : Z) (relateUsers users : list string) : M unit :=
  _ ← (match ceStateKey ev with
       | Some key =>
           if negb (String.eqb (ceType ev) "m.room.member") then mret ()
           else
             mine ← liftR (IsRelatedRequest key instance total false);
             if negb (String.eqb (membershipOf (ceContent ev)) "join") then (if (mine : bool) then AddP2PEv ev off key else mret ())
             else
               _ ← eachUser (fun member => _ ← AddFriendShip member key; mret ()) relateUsers;
               if (mine : bool) then eachUser (fun member => _ ← AddFriendShip key member; mret ()) users else mret ()
       | None => mret ()
       end);
  eachUser (AddP2PEv ev off) relateUsers.

Definition OnNewRoomEvent (instance total : Z) (ev : ClientEvent) (off : Z) (joined : list string) : M unit :=
  _ ← UpdateRoomOffset (ceRoomID ev) off;
  relate ← liftR (related instance total joined);
  if (0 <? length relate)%nat || String.eqb (ceType ev) "m.room.member"
  then addUserTimeLineEvent instance total ev off relate joined else mret ().

End Rooms.
Arguments UserTimeLineRepo : clear implicits.

End UserRooms.
