(* ===== verification/SyncMng.v ===== *)
(** * Answering a sync request

    [SyncMng] of the sync aggregator ([src/syncaggregate/sync]): the token of the client
    tells how far each room was sent; [callSyncLoad] ([syncLoad.go]) lists the rooms with
    newer events and has the sync servers load them, the request waits until there is
    something to send ([OnSyncRequest] of [syncRequest.go], [ExistsUserEventUpdate] of
    [src/model/repos/userTimeLineRepo.go]), [buildSyncData] ([syncMng.go]) lists the
    rooms again, asks the sync server of each and puts the replies together
    ([syncResponse.go]), and [freshToken] stores the new positions.

    A request is handled in three steps, between which other events are handled:
    [begin_], [wait] (one turn of the waiting loop) and [finishSync].  The sync servers are
    the class [Servers], of which [SyncBuild] is the code; their answers are taken one
    after the other ([addSyncData] holds a lock) in an order that [GoOrder] gives.  The
    parts of a reply that come from other streams (account data, presence, device lists,
    messages to devices) are left out: whether they have something new is an argument of
    [wait] ([Turn]), the positions they lead to are one of [finishSync], and so are the
    users who type.  The sort of the events by depth is left
    out.  The theorems are in [SyncMngFacts] and [SyncRuns]. *)

From Stdlib Require Import String Ascii ZArith List Lia.
From stdpp Require Import base tactics list gmap strings pretty.
From S2P Require Import Prelude Timeline TimelineRepo Loader SyncHistory SyncRoomState Ids Push Receipts ReceiptConsumer SyncStates SyncBuild RoomMessages RoomQuery UserRooms DeviceStream.

#[local] Open Scope string_scope.
#[local] Open Scope Z_scope.

Module SyncMng.
Import TimelineRepo SyncHistory SyncRoomState SyncBuild RoomMessages UserRooms.

(** ** The position of a client *)

(** The six streams, each as received from the client and as processed. *)
Record Marks := mkMarks { utl : Z; acc : Z; recp : Z; pre_ : Z; kc : Z; std : Z }.

Record OffsetMarks := mkOffsets { received : Marks; processed : Marks }.

Definition allAt (v : Z) : Marks := mkMarks v v v v v v.
Definition reset (v : Z) : OffsetMarks := mkOffsets (allAt v) (allAt v).

Definition set_utl (m : Marks) v := mkMarks v (acc m) (recp m) (pre_ m) (kc m) (std m).
Definition set_acc (m : Marks) v := mkMarks (utl m) v (recp m) (pre_ m) (kc m) (std m).
Definition set_recp (m : Marks) v := mkMarks (utl m) (acc m) v (pre_ m) (kc m) (std m).
Definition set_pre (m : Marks) v := mkMarks (utl m) (acc m) (recp m) v (kc m) (std m).
Definition set_kc (m : Marks) v := mkMarks (utl m) (acc m) (recp m) (pre_ m) v (std m).
Definition set_std (m : Marks) v := mkMarks (utl m) (acc m) (recp m) (pre_ m) (kc m) v.

(** One part of a token; a known key without a colon makes the code panic. *)
Definition initPart (m : Marks) (val : string) : res Marks :=
  let items := splitOn ":" val in
  let number (set : Marks -> Z -> Marks) : res Marks :=
    match items !! 1%nat with
    | None => Panic
    | Some v => let '(i, ok) := Atoi v in Ok (set m (if (ok : bool) then i else 0))
    end in
  match items with
  | "utl" :: _ => number set_utl
  | "acc" :: _ => number set_acc
  | "rec" :: _ => number set_recp
  | "pre" :: _ => number set_pre
  | "kc" :: _ => number set_kc
  | "std" :: _ => number set_std
  | _ => Ok m
  end.

Fixpoint initParts (m : Marks) (parts : list string) : res Marks :=
  match parts with
  | [] => Ok m
  | val :: rest => m ← initPart m val; initParts m rest
  end.

Definition initMarks (input : string) : res OffsetMarks :=
  match splitOn "_" input with
  | [_] => Ok (reset (if String.eqb input "" then 0 else let '(i, ok) := Atoi input in if (ok : bool) then i else 0))
  | offsets => m ← initParts (allAt 0) offsets; Ok (mkOffsets m m)
  end.

Definition buildMarks (m : Marks) : string :=
  "utl:" ++ pretty (utl m) ++ "_acc:" ++ pretty (acc m) ++ "_rec:" ++ pretty (recp m) ++ "_pre:" ++ pretty (pre_ m) ++ "_kc:" ++ pretty (kc m) ++ "_std:" ++ pretty (std m).

Definition build (oms : OffsetMarks) : string := buildMarks (processed oms).

(** ** Requests *)

Record SyncFilter := mkSyncFilter {
  fState : FilterPart;
  fTimeline : FilterPart;
  NotRooms : list string;
  IncludeLeave : bool;
}.

(** The JSON of a filter, and the filters that clients have stored. *)
Class SyncFilters := {
  parseFilter : string -> option SyncFilter;
  storedFilter : string -> string -> option string;
}.

Record HttpReq := mkHttpReq {
  hTimeOut : string;
  hFullState : string;
  hFrom : string;
  hSince : string;
  hFilter : string;
}.

Record Device := mkDevice { dUserID : string; dID : string; dIsHuman : bool; DeviceType : string }.

(** A room to ask for. *)
Record ReqRoom := mkReqRoom { rrState : string; rrStart : Z; rrEnd : Z }.

Record ClientRequest := mkReq {
  device : Device;
  limit_ : Z;
  timeout : Z;
  fullState : bool;
  filter_ : option SyncFilter;
  token : string;
  marks : OffsetMarks;
  latest : Z;
  lastPos : Z;
  ready_ : bool;
  remoteReady : bool;
  remoteFinished : bool;
  isFull : bool;
  reqRooms : gmap string ReqRoom;
  joined : list string;
  hasNewEvent : bool;
  maxOffsets : gmap string Z;
  offsets : gmap string Z;
}.

Definition set_marks (q : ClientRequest) x := mkReq (device q) (limit_ q) (timeout q) (fullState q) (filter_ q) (token q) x (latest q) (lastPos q) (ready_ q) (remoteReady q) (remoteFinished q) (isFull q) (reqRooms q) (joined q) (hasNewEvent q) (maxOffsets q) (offsets q).
Definition set_ready (q : ClientRequest) x := mkReq (device q) (limit_ q) (timeout q) (fullState q) (filter_ q) (token q) (marks q) (latest q) (lastPos q) x (remoteReady q) (remoteFinished q) (isFull q) (reqRooms q) (joined q) (hasNewEvent q) (maxOffsets q) (offsets q).
Definition set_remote (q : ClientRequest) x y := mkReq (device q) (limit_ q) (timeout q) (fullState q) (filter_ q) (token q) (marks q) (latest q) (lastPos q) (ready_ q) x y (isFull q) (reqRooms q) (joined q) (hasNewEvent q) (maxOffsets q) (offsets q).
Definition set_full (q : ClientRequest) (n : Z) x := mkReq (device q) n (timeout q) (fullState q) (filter_ q) (token q) (marks q) (latest q) (lastPos q) (ready_ q) (remoteReady q) (remoteFinished q) x (reqRooms q) (joined q) (hasNewEvent q) (maxOffsets q) (offsets q).
Definition set_rooms (q : ClientRequest) x y := mkReq (device q) (limit_ q) (timeout q) (fullState q) (filter_ q) (token q) (marks q) (latest q) (lastPos q) (ready_ q) (remoteReady q) (remoteFinished q) (isFull q) x y (hasNewEvent q) (maxOffsets q) (offsets q).
Definition set_found (q : ClientRequest) x y := mkReq (device q) (limit_ q) (timeout q) (fullState q) (filter_ q) (token q) (marks q) (latest q) (lastPos q) (ready_ q) (remoteReady q) (remoteFinished q) (isFull q) (reqRooms q) (joined q) x y (offsets q).
Definition set_offsets (q : ClientRequest) x := mkReq (device q) (limit_ q) (timeout q) (fullState q) (filter_ q) (token q) (marks q) (latest q) (lastPos q) (ready_ q) (remoteReady q) (remoteFinished q) (isFull q) (reqRooms q) (joined q) (hasNewEvent q) (maxOffsets q) x.

Definition utlRecv (q : ClientRequest) : Z := utl (received (marks q)).
Definition set_utlRecv (q : ClientRequest) v : ClientRequest := set_marks q (mkOffsets (set_utl (received (marks q)) v) (processed (marks q))).
Definition set_utlProcess (q : ClientRequest) v : ClientRequest := set_marks q (mkOffsets (received (marks q)) (set_utl (processed (marks q)) v)).

Definition checkNoWait (q : ClientRequest) : bool :=
  ((utlRecv q =? 0) && negb (lastPos q =? -1)) || (timeout q =? 0) || fullState q.

Definition isFullSync (q : ClientRequest) : bool := isFull q || (utlRecv q =? 0).

(** [buildFilter]: a stored filter that does not speak of left rooms includes them. *)
Definition buildFilter `{SyncFilters} (str userID : string) : option SyncFilter :=
  if String.eqb str "" then None
  else if String.prefix "{" str then parseFilter str
  else match storedFilter userID str with
       | None => None
       | Some cached =>
           if String.eqb cached "" then None
           else match parseFilter cached with
                | Some f => Some (if str_contains "include_leave" cached then f else mkSyncFilter (fState f) (fTimeline f) (NotRooms f) true)
                | None => None
                end
       end.

Definition positive (l : option Z) (old : Z) : Z := match l with Some n => if 0 <? n then n else old | None => old end.

Definition buildRequest `{SyncFilters} (req : HttpReq) (dev : Device) (now last : Z) : res ClientRequest :=
  let timeout := let '(v, ok) := Atoi (hTimeOut req) in if (ok : bool) then v else 30000 in
  let full := negb (String.eqb (hFullState req) "") && negb (String.eqb (hFullState req) "false") in
  let str := if String.eqb (hFrom req) "" then hSince req else hFrom req in
  marks ← initMarks str;
  let first := utl (received marks) =? 0 in
  let limit := if first then 10 else 20 in
  let flt := buildFilter (hFilter req) (dUserID dev) in
  let limit := match flt with
               | Some f => positive (if first then FilterLimit (fState f) else FilterLimit (fTimeline f)) limit
               | None => limit
               end in
  let latest := if timeout =? 0 then now + 30000 else if timeout <? 3000 then now + 3000 else now + timeout in
  Ok (mkReq dev limit timeout full flt str marks latest last false false false false ∅ [] false ∅ ∅).

(** ** The state of the manager *)

(** The sync servers: whether the rooms of a request are loaded, and the reply to it.
    An error is a failing call or an answer that cannot be read. *)
Class Servers (E : Type) := {
  askLoad : Z -> SyncServerRequest -> ST E bool;
  askSync : Z -> SyncServerRequest -> ST E SyncServerResponse;
}.

(** The order in which the answers of the instances are taken. *)
Class GoOrder := {
  schedule : forall {A : Type}, gmap Z A -> list (Z * A);
  schedule_perm : forall (A : Type) (m : gmap Z A), Permutation (schedule m) (map_to_list m);
}.

Record SyncCfg := mkSyncCfg {
  SyncServerTotal : Z;
  useMessageFilter : bool;
  cacheCfg : CacheCfg;
  CheckReceipt : Z;
  UseEncrypt : bool;
  SendMemberEvent : bool;
}.

Section SyncManager.
  Context `{ContentJson} `{GoRange} `{GoOrder} `{SyncFilters} {P R E : Type} `{UserDb P} `{Redis R} `{Servers E}.
  Context (cfg : SyncCfg).

(** [ids] are the identifiers that the generator gives, one after the other. *)
Record SyncManager := mkManager {
  userTimeLine : UserTimeLineRepo P;
  redis : R;
  servers : E;
  ids : list Z;
}.

#[local] Abbreviation M := (ST SyncManager).

Definition onTimeLine {A} (m : ST (UserTimeLineRepo P) A) : M A := fun s =>
  let '(r, t) := m (userTimeLine s) in (r, mkManager t (redis s) (servers s) (ids s)).
Definition onRedis {A} (m : ST R A) : M A := fun s =>
  let '(r, t) := m (redis s) in (r, mkManager (userTimeLine s) t (servers s) (ids s)).
Definition onServers {A} (m : ST E A) : M A := fun s =>
  let '(r, t) := m (servers s) in (r, mkManager (userTimeLine s) (redis s) t (ids s)).

(** The error of [Next] is ignored. *)
Definition nextUtl : M Z := fun s =>
  (Ok (default 0 (head (ids s))), mkManager (userTimeLine s) (redis s) (servers s) (tail (ids s))).

(** ** The rooms to ask for *)

Definition askFor (roomID state : string) (start end_ : Z) (q : ClientRequest) : ClientRequest :=
  set_rooms q (<[roomID := mkReqRoom state start end_]> (reqRooms q)) (joined q).

(** The loops over the joined rooms, the invitations and the rooms that were left. *)
Definition askJoined (roomID : string) (q : ClientRequest) : M ClientRequest :=
  let user := dUserID (device q) in
  latest ← onTimeLine (GetRoomOffset roomID user "join");
  joinOffset ← onTimeLine (GetJoinMembershipOffset user roomID);
  let q := set_rooms q (reqRooms q) (joined q ++ [roomID])%list in
  mret (match offsets q !! roomID with
        | Some offset => if (offset <? latest) && (0 <? joinOffset) then askFor roomID "join" offset latest q else q
        | None => if 0 <? joinOffset then askFor roomID "join" (-1) latest q else q
        end).

Definition askInvited (roomID : string) (q : ClientRequest) : M ClientRequest :=
  latest ← onTimeLine (GetRoomOffset roomID (dUserID (device q)) "invite");
  mret (match offsets q !! roomID with
        | Some offset => if offset <? latest then askFor roomID "invite" offset latest q else q
        | None => askFor roomID "invite" (-1) latest q
        end).

(** A room that the token does not know: only the event of leaving. *)
Definition askLeft (roomID : string) (q : ClientRequest) : M ClientRequest :=
  latest ← onTimeLine (GetRoomOffset roomID (dUserID (device q)) "leave");
  mret (match offsets q !! roomID with
        | Some offset => if offset <? latest then askFor roomID "leave" offset latest q else q
        | None => if negb (latest =? -1) then askFor roomID "leave" (latest - 1) latest q else q
        end).

Fixpoint eachRoom (f : string -> ClientRequest -> M ClientRequest) (rooms : list string) (q : ClientRequest) : M ClientRequest :=
  match rooms with
  | [] => mret q
  | room :: rest => q ← f room q; eachRoom f rest q
  end.

Definition roomsOf {A} (m : gmap string A) : list string := map fst (range m).

Definition buildIncreamSyncRequset (q : ClientRequest) : M ClientRequest :=
  let user := dUserID (device q) in
  joinRooms ← onTimeLine (GetJoinRooms user);
  q ← eachRoom askJoined (roomsOf joinRooms) q;
  inviteRooms ← onTimeLine (GetInviteRooms user);
  q ← eachRoom askInvited (roomsOf inviteRooms) q;
  leaveRooms ← onTimeLine (GetLeaveRooms user);
  eachRoom askLeft (roomsOf leaveRooms) q.

(** The rooms are listed again; when they cannot be the old list is kept. *)
Definition reBuildIncreamSyncReqRoom (q : ClientRequest) : M ClientRequest :=
  let user := dUserID (device q) in
  r ← RoomQuery.attempt (joinRooms ← onTimeLine (GetJoinRooms user);
                         inviteRooms ← onTimeLine (GetInviteRooms user);
                         leaveRooms ← onTimeLine (GetLeaveRooms user);
                         mret (roomsOf joinRooms, roomsOf inviteRooms, roomsOf leaveRooms));
  match r with
  | inr _ => mret q
  | inl (js, is_, ls) =>
      q ← eachRoom askJoined js (set_rooms q ∅ []);
      q ← eachRoom askInvited is_ q;
      eachRoom askLeft ls q
  end.

Definition fullJoined (roomID : string) (q : ClientRequest) : M ClientRequest :=
  let user := dUserID (device q) in
  joinOffset ← onTimeLine (GetJoinMembershipOffset user roomID);
  let q := set_rooms q (reqRooms q) (joined q ++ [roomID])%list in
  if 0 <? joinOffset then latest ← onTimeLine (GetRoomOffset roomID user "join"); mret (askFor roomID "join" (-1) latest q) else mret q.

Definition fullInvited (roomID : string) (q : ClientRequest) : M ClientRequest :=
  latest ← onTimeLine (GetRoomOffset roomID (dUserID (device q)) "invite"); mret (askFor roomID "invite" (-1) latest q).

Definition buildFullSyncRequest (q : ClientRequest) : M ClientRequest :=
  let user := dUserID (device q) in
  let q := set_full q 10 (isFull q) in
  if negb (dIsHuman (device q)) then mret q
  else
    joinRooms ← onTimeLine (GetJoinRooms user);
    q ← eachRoom fullJoined (roomsOf joinRooms) q;
    inviteRooms ← onTimeLine (GetInviteRooms user);
    eachRoom fullInvited (roomsOf inviteRooms) q.

(** ** The requests to the sync servers *)

Definition emptyRequest : SyncServerRequest := mkRequest [] [] [] [] "" 0 0 false 0 false.

Definition addReqRoom (room : string) (rr : ReqRoom) (r : SyncServerRequest) : SyncServerRequest :=
  let x := mkSyncRoom room (rrStart rr) (rrEnd rr) in
  let with_ i j l := mkRequest i j l (rqJoinedRooms r) (rqUserID r) (rqReceiptOffset r) (rqMaxReceiptOffset r) (IsHuman r) (Limit r) (rqIsFullSync r) in
  if String.eqb (rrState rr) "invite" then with_ (InviteRooms r ++ [x])%list (JoinRooms r) (LeaveRooms r)
  else if String.eqb (rrState rr) "join" then with_ (InviteRooms r) (JoinRooms r ++ [x])%list (LeaveRooms r)
  else if String.eqb (rrState rr) "leave" then with_ (InviteRooms r) (JoinRooms r) (LeaveRooms r ++ [x])%list
  else r.

Definition addJoinedRoom (room : string) (r : SyncServerRequest) : SyncServerRequest :=
  mkRequest (InviteRooms r) (JoinRooms r) (LeaveRooms r) (rqJoinedRooms r ++ [room])%list (rqUserID r) (rqReceiptOffset r) (rqMaxReceiptOffset r) (IsHuman r) (Limit r) (rqIsFullSync r).

(** [common.GetSyncInstance]. *)
Definition GetSyncInstance (key : string) : Z := CalcStringHashCode key mod SyncServerTotal cfg.

Definition toInstance (room : string) (f : SyncServerRequest -> SyncServerRequest) (m : gmap Z SyncServerRequest) : gmap Z SyncServerRequest :=
  let i := GetSyncInstance room in <[i := f (default emptyRequest (m !! i))]> m.

(** Each room goes to the server of its instance; a remainder by zero panics. *)
Definition requestMap (q : ClientRequest) : res (gmap Z SyncServerRequest) :=
  let m := fold_left (fun m kv => toInstance kv.1 (addReqRoom kv.1 kv.2) m) (range (reqRooms q)) ∅ in
  let m := fold_left (fun m room => toInstance room (addJoinedRoom room) m) (joined q) m in
  if (SyncServerTotal cfg =? 0) && ((0 <? length (range (reqRooms q)))%nat || (0 <? length (joined q))%nat) then Panic else Ok m.

(** The fields that are set before a request is sent. *)
Definition fillIn (q : ClientRequest) (maxReceipt : Z) (r : SyncServerRequest) : SyncServerRequest :=
  mkRequest (InviteRooms r) (JoinRooms r) (LeaveRooms r) (rqJoinedRooms r) (dUserID (device q)) (recp (received (marks q))) maxReceipt
    (dIsHuman (device q)) (limit_ q) (isFull q).

(** [sendSyncLoadReqAndHandle]: whether every server has loaded its rooms. *)
Fixpoint sendLoads (q : ClientRequest) (reqs : list (Z * SyncServerRequest)) : M bool :=
  match reqs with
  | [] => mret true
  | (i, r) :: rest =>
      a ← RoomQuery.attempt (onServers (askLoad i (fillIn q 0 r)));
      ok ← sendLoads q rest;
      mret (match a with inl b => b && ok | inr _ => false end)
  end.

Definition buildLoadRequest (q : ClientRequest) : M ClientRequest :=
  m ← liftR (requestMap q);
  loaded ← sendLoads q (schedule m);
  mret (set_remote q loaded true).

(** [callSyncLoad]. *)
Definition callSyncLoad (q : ClientRequest) : M ClientRequest :=
  let fails (q : ClientRequest) := set_remote q false true in
  r ← (if utlRecv q =? 0 then mret (inl (set_full q (limit_ q) true))
       else
         t ← RoomQuery.attempt (onRedis (LoadToken (cacheCfg cfg) (dUserID (device q)) (dID (device q)) (utlRecv q)));
         match t with
         | inr _ => mret (inr (fails q))
         | inl (cur, offs) =>
             let q := if utlRecv q =? cur then q else set_utlRecv q cur in
             match offs with
             | None => mret (inl (set_full q (limit_ q) true))
             | Some o =>
                 let q := set_offsets q o in
                 b ← RoomQuery.attempt (buildIncreamSyncRequset q);
                 mret (match b with inl q => inl q | inr _ => inr (fails q) end)
             end
         end);
  match r with
  | inr q => mret q
  | inl q =>
      if isFull q then
        b ← RoomQuery.attempt (buildFullSyncRequest q);
        match b with
        | inl q => buildLoadRequest q
        | inr _ => mret (fails q)
        end
      else buildLoadRequest q
  end.

(** [processSyncLoad]; [loaded] tells whether the other streams of the user were loaded
    in time. *)
Definition processSyncLoad (loaded : bool) (q : ClientRequest) : M ClientRequest :=
  let user := dUserID (device q) in
  let human := dIsHuman (device q) in
  _ ← onTimeLine (LoadHistory user human);
  s ← onTimeLine getRepo;
  if CheckUserLoadingReady user s then
    if (utlRecv q =? 0) && negb human then mret (set_full (set_remote (set_ready q true) true true) (limit_ q) true)
    else q ← callSyncLoad q; mret (set_ready q (if human then loaded else true))
  else mret (set_ready q false).

Definition begin_ (req : HttpReq) (dev : Device) (now last : Z) (loaded : bool) : M ClientRequest :=
  q ← liftR (buildRequest req dev now last);
  processSyncLoad loaded q.

(** ** Waiting *)

(** [ExistsUserEventUpdate] looks for a room of the token with a newer event ... *)
Definition newerInRoom (user roomID : string) (offset : Z) : ST (UserTimeLineRepo P) bool :=
  membership ← GetUserRoomMembership user roomID;
  roomOffset ← GetRoomOffset roomID user membership;
  if negb (roomOffset =? -1) && (offset <? roomOffset) then
    if String.eqb membership "join" then j ← GetJoinMembershipOffset user roomID; mret (0 <? j) else mret true
  else mret false.

Fixpoint anyOf {A} (f : A -> ST (UserTimeLineRepo P) bool) (l : list A) : ST (UserTimeLineRepo P) bool :=
  match l with
  | [] => mret false
  | x :: rest => b ← f x; if (b : bool) then mret true else anyOf f rest
  end.

(** ... and for one that the token does not know. *)
Definition unknownTo (tok : gmap string Z) (f : string -> ST (UserTimeLineRepo P) bool) (roomID : string) : ST (UserTimeLineRepo P) bool :=
  match tok !! roomID with Some _ => mret false | None => f roomID end.

Definition orEmpty {A} (r : gmap string A + goerr) : gmap string A := match r with inl m => m | inr _ => ∅ end.

Definition eventUpdate (user : string) (tok : gmap string Z) : ST (UserTimeLineRepo P) bool :=
  joinedRooms ← RoomQuery.attempt (GetJoinRooms user);
  b ← anyOf (fun kv => newerInRoom user kv.1 kv.2) (range tok);
  if (b : bool) then mret true else
  b ← anyOf (unknownTo tok (fun room => j ← GetJoinMembershipOffset user room; mret (0 <? j))) (roomsOf (orEmpty joinedRooms));
  if (b : bool) then mret true else
  invited ← RoomQuery.attempt (GetInviteRooms user);
  b ← anyOf (unknownTo tok (fun _ => mret true)) (roomsOf (orEmpty invited));
  if (b : bool) then mret true else
  left ← RoomQuery.attempt (GetLeaveRooms user);
  anyOf (fun kv => unknownTo tok (fun _ => mret (negb (kv.2 =? -1))) kv.1) (range (orEmpty left)).

Definition ExistsUserEventUpdate (utl : Z) (user device : string) : M (bool * Z) :=
  t ← RoomQuery.attempt (onRedis (LoadToken (cacheCfg cfg) user device utl));
  match t with
  | inr _ => mret (false, utl)
  | inl (cur, None) => mret (true, cur)
  | inl (cur, Some tok) => b ← onTimeLine (eventUpdate user tok); mret (b, cur)
  end.

(** What a turn of the waiting loop sees besides the rooms and the receipts of the user:
    the time, and whether the other streams have something newer than the position of
    the request. *)
Record Turn := mkTurn {
  tNow : Z;
  newAccountData : bool;
  newTyping : bool;
  newKeys : bool;
  newToDevice : bool;
  newPresence : bool;
}.

(** The exits of the loop for the other streams; [start] is when the request came. *)
Definition otherNews (start : Z) (t : Turn) (q : ClientRequest) (s : UserTimeLineRepo P) : bool :=
  let human := dIsHuman (device q) in
  let actual := DeviceStream.DeviceStream.IsActualDevice (DeviceType (device q)) in
  let late := 500 <? tNow t - start in
  (newAccountData t && late && human) ||
  (newTyping t && late && human) ||
  ((ExistsUserReceiptUpdate (recp (received (marks q))) (dUserID (device q)) s).1 && (CheckReceipt cfg <? tNow t - start) && human) ||
  (UseEncrypt cfg && actual && newKeys t && late && human) ||
  (actual && newToDevice t && late && human) ||
  (negb (SendMemberEvent cfg) && newPresence t && late && human).

(** One turn of the loop in [OnSyncRequest]: whether the waiting ends. *)
Definition wait (start : Z) (t : Turn) (q : ClientRequest) : M (bool * ClientRequest) :=
  if checkNoWait q then mret (true, q)
  else if latest q <? tNow t then mret (true, q)
  else
    r ← ExistsUserEventUpdate (utlRecv q) (dUserID (device q)) (dID (device q));
    let q := if r.2 =? utlRecv q then q else set_utlRecv q r.2 in
    s ← onTimeLine getRepo;
    mret (((r.1 : bool) && (500 <? tNow t - start)) || otherNews start t q s, q).

(** ** The reply *)

(** The maps of a reply can be nil. *)
Record SyncReply := mkReply {
  rJoin : option (gmap string JoinResponse);
  rInvite : option (gmap string (list ClientEvent));
  rLeave : option (gmap string TimelineResp);
}.

Definition NewResponse : SyncReply := mkReply (Some ∅) (Some ∅) (Some ∅).

(** Writing to a nil map panics. *)
Definition storeAll {A} (o : option (gmap string A)) (data : gmap string A) : res (option (gmap string A)) :=
  match o with
  | Some m => Ok (Some (data ∪ m))
  | None => if (0 <? size data)%nat then Panic else Ok None
  end.

Definition nonempty {A} (l : list A) : bool := (0 <? length l)%nat.

(** [updateHasNewEvent]. *)
Definition newEvents (data : SyncServerResponse) : bool :=
  existsb (fun kv => nonempty (jrState kv.2) || nonempty (Events (jrTimeline kv.2))) (map_to_list (Join data)) ||
  existsb (fun kv => nonempty kv.2) (map_to_list (Invite data)) ||
  existsb (fun kv => nonempty (Events kv.2)) (map_to_list (Leave data)).

Definition addSyncData (q : ClientRequest) (r : SyncReply) (data : SyncServerResponse) : res (ClientRequest * SyncReply) :=
  j ← storeAll (rJoin r) (Join data);
  i ← storeAll (rInvite r) (Invite data);
  l ← (if utlRecv q =? 0 then Ok (Some ∅) else storeAll (rLeave r) (Leave data));
  let q := set_found q (hasNewEvent q || newEvents data) (MaxRoomOffset data ∪ maxOffsets q) in
  let p := processed (marks q) in
  let q := if dIsHuman (device q) && (recp p <? rpMaxReceiptOffset data)
           then set_marks q (mkOffsets (received (marks q)) (set_recp p (rpMaxReceiptOffset data))) else q in
  Ok (q, mkReply j i l).

(** Each server is asked; whether all have answered and have loaded their rooms. *)
Fixpoint sendSyncs (maxReceipt : Z) (q : ClientRequest) (r : SyncReply) (reqs : list (Z * SyncServerRequest)) : M (bool * (ClientRequest * SyncReply)) :=
  match reqs with
  | [] => mret (true, (q, r))
  | (i, sr) :: rest =>
      a ← RoomQuery.attempt (onServers (askSync i (fillIn q maxReceipt sr)));
      match a with
      | inl data =>
          if AllLoaded data then x ← liftR (addSyncData q r data); sendSyncs maxReceipt x.1 x.2 rest
          else x ← sendSyncs maxReceipt q r rest; mret (false, x.2)
      | inr _ => x ← sendSyncs maxReceipt q r rest; mret (false, x.2)
      end
  end.

(** ** The new token *)

(** [clearSyncData] clears the joined rooms twice and the invitations never. *)
Definition clearSyncData (r : SyncReply) : SyncReply := mkReply None (rInvite r) None.

(** [common.GetDomainByUserID]. *)
Definition GetDomainByUserID (userID : string) : string := if String.eqb userID "" then "" else List.last (splitOn ":" userID) "".

Definition updateFullSyncNotData (now : Z) (q : ClientRequest) : M ClientRequest :=
  id ← nextUtl;
  let roomOffset := {[ "!default:" ++ GetDomainByUserID (dUserID (device q)) := -1 ]} in
  r ← RoomQuery.attempt (onRedis (UpdateToken (cacheCfg cfg) (dUserID (device q)) (dID (device q)) id now roomOffset));
  mret (set_utlProcess q (match r with inl _ => id | inr _ => utlRecv q end)).

Definition freshToken (now : Z) (q : ClientRequest) (r : SyncReply) : M (ClientRequest * SyncReply) :=
  if negb (hasNewEvent q) then
    if isFull q then q ← updateFullSyncNotData now q; mret (q, r)
    else mret (set_utlProcess q (utlRecv q), r)
  else
    id ← nextUtl;
    x ← RoomQuery.attempt (onRedis (UpdateToken (cacheCfg cfg) (dUserID (device q)) (dID (device q)) id now (maxOffsets q ∪ offsets q)));
    mret (match x with
          | inl _ => (set_utlProcess q id, r)
          | inr _ => (set_utlProcess q (utlRecv q), clearSyncData r)
          end).

Definition notNil {A} (o : option (gmap string A)) : option (gmap string A) := Some (default ∅ o).

Definition startMarks (q : ClientRequest) : ClientRequest :=
  let p := processed (marks q) in
  let p := if pre_ p =? 0 then set_pre p 1 else p in
  let p := if kc p =? 0 then set_kc p 1 else p in
  set_marks q (mkOffsets (received (marks q)) p).

Definition buildSyncData (now : Z) (q : ClientRequest) : M (bool * (ClientRequest * SyncReply)) :=
  let user := dUserID (device q) in
  if isFullSync q && negb (dIsHuman (device q)) then
    ok ← RoomQuery.attempt (_ ← onTimeLine (GetJoinRooms user); _ ← onTimeLine (GetInviteRooms user); mret ());
    match ok with
    | inr _ => mret (false, (q, NewResponse))
    | inl _ => q ← updateFullSyncNotData now q; mret (true, (q, NewResponse))
    end
  else
    q ← (if isFullSync q then mret q else reBuildIncreamSyncReqRoom q);
    maxReceipt ← onTimeLine (GetUserLatestReceiptOffset user (dIsHuman (device q)));
    m ← liftR (requestMap q);
    x ← sendSyncs maxReceipt q NewResponse (schedule m);
    let '(finished, (q, r)) := x in
    if (finished : bool) then
      y ← freshToken now (startMarks q) (mkReply (notNil (rJoin r)) (notNil (rInvite r)) (notNil (rLeave r)));
      mret (true, y)
    else mret (false, (q, r)).

(** ** The rest of the reply *)

(** [addTyping]: the events of the users who type, each with its room. *)
Definition addTypingEvent (r : SyncReply) (ev : string * string) : res SyncReply :=
  let m := default ∅ (rJoin r) in
  let jr := default NewJoinResponse (m !! ev.1) in
  j ← storeAll (rJoin r) {[ ev.1 := mkJoin (jrTimeline jr) (jrState jr) (jrEphemeral jr ++ [ev.2])%list (jrUnread jr) ]};
  Ok (mkReply j (rInvite r) (rLeave r)).

Definition addTyping (typing : list (string * string)) (user : string) (curRoom : string) (r : SyncReply) : M SyncReply :=
  if nonempty typing then
    joinRooms ← RoomQuery.attempt (onTimeLine (GetJoinRooms user));
    match joinRooms with
    | inr _ => mret r
    | inl m =>
        let mine := List.filter (fun ev => (String.eqb curRoom "" || String.eqb ev.1 curRoom) && bool_decide (is_Some (m !! ev.1))) typing in
        liftR (fold_left (fun k ev => r ← k; addTypingEvent r ev) mine (Ok r))
    end
  else mret r.

Definition filterJoin (f : SyncFilter) (j : JoinResponse) : JoinResponse :=
  mkJoin (mkTimeline (FilterEventTypes (Events (jrTimeline j)) (Types (fTimeline f)) (NotTypes (fTimeline f))) (Limited (jrTimeline j)) (PrevBatch (jrTimeline j)))
    (FilterEventTypes (jrState j) (Types (fState f)) (NotTypes (fState f))) (jrEphemeral j) (jrUnread j).

Definition without_ {A} (rooms : list string) (m : gmap string A) : gmap string A := foldr delete m rooms.

Definition filterSyncData (q : ClientRequest) (r : SyncReply) : SyncReply :=
  match filter_ q with
  | None => r
  | Some f =>
      let leave := without_ (NotRooms f) <$> rLeave r in
      mkReply (fmap (filterJoin f) <$> (without_ (NotRooms f) <$> rJoin r))
        (fmap (fun evs => FilterEventTypes evs (Types (fState f)) (NotTypes (fState f))) <$> (without_ (NotRooms f) <$> rInvite r))
        (if (utlRecv q =? 0) && negb (IncludeLeave f) then (fun _ => ∅) <$> leave else leave)
  end.

Record Answer := mkAnswer { status : Z; NextBatch : string; rooms : SyncReply }.

(** A request that cannot be answered keeps its token; the first sync of a user fails. *)
Definition notReady (q : ClientRequest) : Answer :=
  mkAnswer (if isFullSync q && dIsHuman (device q) then 503 else 200) (token q) NewResponse.

(** What is left of [OnSyncRequest] after the waiting.  [streams] moves the positions of
    the other streams. *)
Definition finishSync (now : Z) (streams : Marks -> Marks) (typing : list (string * string)) (q : ClientRequest) : M Answer :=
  if negb (ready_ q && remoteReady q) then mret (notReady q)
  else
    x ← buildSyncData now q;
    let '(ok, (q, r)) := x in
    if negb (ok : bool) then mret (notReady q)
    else
      let q := if dIsHuman (device q) then set_marks q (mkOffsets (received (marks q)) (streams (processed (marks q)))) else q in
      s ← onTimeLine getRepo;
      r ← (if dIsHuman (device q) then addTyping typing (dUserID (device q)) (GetUserCurRoom (dUserID (device q)) (dID (device q)) s) r else mret r);
      let r := if useMessageFilter cfg then filterSyncData q r else r in
      mret (mkAnswer 200 (build (marks q)) r).

End SyncManager.
Arguments SyncManager : clear implicits.

End SyncMng.
