(* ===== verification/SyncMngFacts.v ===== *)
(** * Facts about answering a sync request

    - [marks_roundtrip]: the token in a reply brings the positions back.
    - [waits_until_asked]: when a turn of the waiting loop ends the wait; a reply with all
      positions leaves no room to ask for.
    - [token_panics]: a token that panics.

    The lists of rooms are computed from the memberships of the user ([wantedRoom]).
    What the tokens of a device say over many syncs is in [SyncRuns]. *)

From Stdlib Require Import String Ascii ZArith List Lia.
From stdpp Require Import base tactics list gmap strings pretty.
From S2P Require Import Prelude Timeline TimelineRepo Loader SyncHistory SyncRoomState Ids Push Receipts ReceiptConsumer SyncStates SyncBuild RoomMessages RoomMessagesFacts RoomQuery UserRooms SyncMng.

#[local] Open Scope string_scope.
#[local] Open Scope Z_scope.

Module SyncMngFacts.
Import SyncHistory SyncRoomState SyncBuild RoomMessages RoomMessagesFacts UserRooms SyncMng.

(** ** Tokens of clients *)

Definition int64 (z : Z) : Prop := minInt64 <= z <= maxInt64.

Lemma parts_cons (k : string) (z : Z) rest : without "_" k = true ->
  splitOn "_" (k ++ pretty z ++ String "_" rest) = (k ++ pretty z) :: splitOn "_" rest.
Proof. intros Hk. rewrite str_app_assoc. apply splitOn_app. rewrite without_app, Hk, without_prettyZ by set_solver. done. Qed.

Lemma marks_parts m : splitOn "_" (buildMarks m) =
  ["utl" ++ ":" ++ pretty (utl m); "acc" ++ ":" ++ pretty (acc m); "rec" ++ ":" ++ pretty (recp m);
   "pre" ++ ":" ++ pretty (pre_ m); "kc" ++ ":" ++ pretty (kc m); "std" ++ ":" ++ pretty (std m)].
Proof.
  unfold buildMarks.
  change (splitOn "_" ("utl:" ++ pretty (utl m) ++ String "_" ("acc:" ++ pretty (acc m) ++ String "_" ("rec:" ++ pretty (recp m) ++
    String "_" ("pre:" ++ pretty (pre_ m) ++ String "_" ("kc:" ++ pretty (kc m) ++ String "_" ("std:" ++ pretty (std m))))))) =
    ["utl:" ++ pretty (utl m); "acc:" ++ pretty (acc m); "rec:" ++ pretty (recp m); "pre:" ++ pretty (pre_ m); "kc:" ++ pretty (kc m); "std:" ++ pretty (std m)]).
  rewrite !parts_cons by done. do 5 f_equal. apply splitOn_word. rewrite without_app, without_prettyZ by set_solver. done.
Qed.

(** The position of a client survives the round trip: the next request of a client
    that sends [NextBatch] back starts where the reply ended, in every stream. *)
Theorem marks_roundtrip oms : (forall f, f ∈ [utl; acc; recp; pre_; kc; std] -> int64 (f (processed oms))) ->
  initMarks (build oms) = Ok (mkOffsets (processed oms) (processed oms)).
Proof.
  intros Hf. unfold initMarks, build. rewrite marks_parts. cbv iota.
  assert (Hs : forall f, f ∈ [utl; acc; recp; pre_; kc; std] -> Atoi (pretty (f (processed oms))) = (f (processed oms), true)) by (intros f Hin; apply Atoi_pretty, Hf, Hin).
  unfold initParts, initPart. rewrite !part_items by done. cbn [lookup list_lookup].
  rewrite !Hs by set_solver. cbn [mbind res_bind]. by destruct (processed oms).
Qed.

Lemma marks_roundtrip_witness : initMarks "utl:3_acc:2_rec:0_pre:-7_kc:1_std:9" = Ok (let m := mkMarks 3 2 0 (-7) 1 9 in mkOffsets m m).
Proof.
  apply (marks_roundtrip (mkOffsets (allAt 0) (mkMarks 3 2 0 (-7) 1 9))). intros f Hf.
  rewrite !elem_of_cons, elem_of_nil in Hf. unfold int64, minInt64, maxInt64. destruct_or! Hf; by subst || subst f; cbn; lia.
Defined.

(** A token with a known key and no colon makes the server panic. *)
Lemma token_panics : initMarks "utl_x" = Panic.
Proof. by vm_compute. Qed.

(** ** The rooms of a user *)

Section Rooms.
  Context `{ContentJson} `{GoRange} {P : Type} `{UserDb P}.
  Implicit Types (t : UserTimeLineRepo P).

(** The rooms of a user are in memory: joined with the offsets [J], invited with [I],
    left with [L]. *)
Record Loaded t (user : string) (J I L : gmap string Z) : Prop := {
  l_ready : user ∈ joinReady t /\ user ∈ inviteReady t /\ user ∈ leaveReady t;
  l_join : joins t !! user = Some (Int64Offset <$> J);
  l_invite : invites t !! user = Some I;
  l_leave : leaves t !! user = Some L;
}.

Lemma getJoins t user J I L : Loaded t user J I L -> GetJoinRooms user t = (Ok (Int64Offset <$> J), t).
Proof using. intros [(Hr & _ & _) E _ _]. unfold GetJoinRooms, getRepo, mbind, ST_bind. rewrite decide_True by done. cbn. by rewrite E. Qed.
Lemma getInvites t user J I L : Loaded t user J I L -> GetInviteRooms user t = (Ok I, t).
Proof using. intros [(_ & Hr & _) _ E _]. unfold GetInviteRooms, getRepo, mbind, ST_bind. rewrite decide_True by done. cbn. by rewrite E. Qed.
Lemma getLeaves t user J I L : Loaded t user J I L -> GetLeaveRooms user t = (Ok L, t).
Proof using. intros [(_ & _ & Hr) _ _ E]. unfold GetLeaveRooms, getRepo, mbind, ST_bind. rewrite decide_True by done. cbn. by rewrite E. Qed.

Lemma attempt_ok {S A} (m : ST S A) s a s1 : m s = (Ok a, s1) -> RoomQuery.attempt m s = (Ok (inl a), s1).
Proof using. unfold RoomQuery.attempt. by intros ->. Qed.

Lemma joinOffset_of t user J I L room : Loaded t user J I L -> GetJoinMembershipOffset user room t = (Ok (default (-1) (J !! room)), t).
Proof using.
  intros HL. unfold GetJoinMembershipOffset, mbind, ST_bind. rewrite (attempt_ok _ _ _ _ (getJoins _ _ _ _ _ HL)). rewrite lookup_fmap. by destruct (J !! room).
Qed.
Lemma joinRoom_of t user room : GetRoomOffset room user "join" t = (Ok (GetJoinRoomOffset t room), t).
Proof using. done. Qed.
Lemma inviteRoom_of t user J I L room : Loaded t user J I L -> GetRoomOffset room user "invite" t = (Ok (default (-1) (I !! room)), t).
Proof using. intros HL. unfold GetRoomOffset. cbn. unfold GetInviteRoomOffset, mbind, ST_bind. by rewrite (attempt_ok _ _ _ _ (getInvites _ _ _ _ _ HL)). Qed.
Lemma leaveRoom_of t user J I L room : Loaded t user J I L -> GetRoomOffset room user "leave" t = (Ok (default (-1) (L !! room)), t).
Proof using. intros HL. unfold GetRoomOffset. cbn. unfold GetLeaveRoomOffset, mbind, ST_bind. by rewrite (attempt_ok _ _ _ _ (getLeaves _ _ _ _ _ HL)). Qed.

Definition membershipIn (J I L : gmap string Z) (room : string) : string :=
  match J !! room, I !! room, L !! room with
  | Some _, _, _ => "join" | None, Some _, _ => "invite" | None, None, Some _ => "leave" | None, None, None => "unknown"
  end.

Lemma membership_of t user J I L room : Loaded t user J I L -> GetUserRoomMembership user room t = (Ok (membershipIn J I L room), t).
Proof using.
  intros HL. unfold GetUserRoomMembership, mbind, ST_bind. rewrite (attempt_ok _ _ _ _ (getJoins _ _ _ _ _ HL)). unfold isIn, membershipIn. rewrite lookup_fmap.
  destruct (J !! room); cbn; [done|]. rewrite (attempt_ok _ _ _ _ (getInvites _ _ _ _ _ HL)). destruct (I !! room); cbn; [done|].
  rewrite (attempt_ok _ _ _ _ (getLeaves _ _ _ _ _ HL)). by destruct (L !! room).
Qed.

(** A room, with the membership and the offset it has for the user. *)
Definition newer (t : UserTimeLineRepo P) (J I L : gmap string Z) (room : string) (offset : Z) : bool :=
  match J !! room, I !! room, L !! room with
  | Some j, _, _ => negb (GetJoinRoomOffset t room =? -1) && (offset <? GetJoinRoomOffset t room) && (0 <? j)
  | None, Some i, _ => negb (i =? -1) && (offset <? i)
  | None, None, Some l => negb (l =? -1) && (offset <? l)
  | None, None, None => false
  end.

Lemma newer_of t user J I L room offset : Loaded t user J I L -> newerInRoom user room offset t = (Ok (newer t J I L room offset), t).
Proof using.
  intros HL. unfold newerInRoom, mbind, ST_bind. rewrite (membership_of _ _ _ _ _ _ HL). unfold membershipIn, newer.
  destruct (J !! room) as [j|] eqn:Ej; [|destruct (I !! room) as [i|] eqn:Ei; [|destruct (L !! room) as [l|] eqn:El]].
  - rewrite joinRoom_of. destruct (negb _ && _); [|done]. cbn [String.eqb Ascii.eqb Bool.eqb]. by rewrite (joinOffset_of _ _ _ _ _ _ HL), Ej.
  - rewrite (inviteRoom_of _ _ _ _ _ _ HL), Ei. cbn. by destruct (negb _ && _).
  - rewrite (leaveRoom_of _ _ _ _ _ _ HL), El. cbn. by destruct (negb _ && _).
  - done.
Qed.

Lemma anyOf_pure {A} (f : A -> ST (UserTimeLineRepo P) bool) (g : A -> bool) t l : (forall x, x ∈ l -> f x t = (Ok (g x), t)) ->
  anyOf f l t = (Ok (existsb g l), t).
Proof using.
  induction l as [|x l IH]; intros Hf; [done|]. cbn. unfold mbind at 1, ST_bind at 1. rewrite Hf by set_solver. destruct (g x); [done|]. cbn. apply IH. set_solver.
Qed.

Lemma unknown_pure tok (f : string -> ST (UserTimeLineRepo P) bool) (g : bool) room t : f room t = (Ok g, t) ->
  unknownTo tok f room t = (Ok (match tok !! room with Some _ => false | None => g end), t).
Proof using. unfold unknownTo. intros E. by destruct (tok !! room). Qed.

(** The rooms with something new, given the offsets of a token. *)
Definition updated t J I L (tok : gmap string Z) : bool :=
  existsb (fun kv => newer t J I L kv.1 kv.2) (range tok) ||
  existsb (fun room => match tok !! room with Some _ => false | None => 0 <? default (-1) (J !! room) end) (roomsOf (Int64Offset <$> J)) ||
  existsb (fun room => match tok !! room with Some _ => false | None => true end) (roomsOf I) ||
  existsb (fun kv => match tok !! kv.1 with Some _ => false | None => negb (kv.2 =? -1) end) (range L).

Lemma eventUpdate_of t user J I L tok : Loaded t user J I L -> eventUpdate user tok t = (Ok (updated t J I L tok), t).
Proof using.
  intros HL. unfold eventUpdate, updated, mbind, ST_bind. rewrite (attempt_ok _ _ _ _ (getJoins _ _ _ _ _ HL)).
  rewrite (anyOf_pure _ (fun kv => newer t J I L kv.1 kv.2)) by (intros; by apply newer_of). destruct (existsb _ (range tok)); [done|].
  rewrite (anyOf_pure _ (fun room => match tok !! room with Some _ => false | None => 0 <? default (-1) (J !! room) end)).
  2:{ intros room _. apply unknown_pure. unfold mbind, ST_bind. by rewrite (joinOffset_of _ _ _ _ _ _ HL). }
  cbn [orEmpty orb]. destruct (existsb _ (roomsOf (Int64Offset <$> J))); [done|]. rewrite (attempt_ok _ _ _ _ (getInvites _ _ _ _ _ HL)).
  rewrite (anyOf_pure _ (fun room => match tok !! room with Some _ => false | None => true end)) by (intros; by apply unknown_pure).
  cbn [orEmpty orb]. destruct (existsb _ (roomsOf I)); [done|]. rewrite (attempt_ok _ _ _ _ (getLeaves _ _ _ _ _ HL)).
  rewrite (anyOf_pure _ (fun kv => match tok !! kv.1 with Some _ => false | None => negb (kv.2 =? -1) end)) by (intros; by apply unknown_pure).
  cbn [orEmpty orb]. by destruct (existsb _ (range L)).
Qed.

End Rooms.

(** ** The rooms to ask for *)

Section Asking.
  Context `{ContentJson} `{GoRange} `{GoOrder} {P R E : Type} `{UserDb P} `{Redis R} `{Servers E}.
  Implicit Types (s : SyncManager P R E) (q : ClientRequest) (t : UserTimeLineRepo P).

Lemma onTimeLine_ok {A} (m : ST (UserTimeLineRepo P) A) s a : m (userTimeLine s) = (Ok a, userTimeLine s) -> onTimeLine m s = (Ok a, s).
Proof using. unfold onTimeLine. intros ->. by destruct s. Qed.

(** Only the lists of rooms differ. *)
Definition sameReq q q' : Prop := q' = set_rooms q (reqRooms q') (joined q').

Lemma sameReq_refl q : sameReq q q.
Proof using. by destruct q. Qed.
Lemma sameReq_trans q1 q2 q3 : sameReq q1 q2 -> sameReq q2 q3 -> sameReq q1 q3.
Proof using. unfold sameReq. intros E1 E2. rewrite E2, E1. by destruct q1. Qed.
Lemma sameReq_set q rs js : sameReq q (set_rooms q rs js).
Proof using. by destruct q. Qed.
Lemma sameReq_fields q q' : sameReq q q' -> device q' = device q /\ offsets q' = offsets q /\ marks q' = marks q /\ isFull q' = isFull q /\
  hasNewEvent q' = hasNewEvent q /\ maxOffsets q' = maxOffsets q /\ limit_ q' = limit_ q /\ ready_ q' = ready_ q /\ remoteReady q' = remoteReady q.
Proof using. intros ->. by destruct q. Qed.

(** A loop that looks at each room, and asks for it as [sel] says. *)
Definition asks (f : string -> ClientRequest -> ST (SyncManager P R E) ClientRequest) (sel : string -> option ReqRoom) s q0 (l : list string) : Prop :=
  forall room q, room ∈ l -> sameReq q0 q -> exists q', f room q s = (Ok q', s) /\ sameReq q q' /\
    reqRooms q' = match sel room with Some rr => <[room := rr]> (reqRooms q) | None => reqRooms q end.

Lemma eachRoom_asks f sel s q0 l : forall q, asks f sel s q0 l -> sameReq q0 q -> NoDup l ->
  exists q', eachRoom f l q s = (Ok q', s) /\ sameReq q q' /\
    forall room, reqRooms q' !! room = (if decide (room ∈ l) then match sel room with Some rr => Some rr | None => reqRooms q !! room end else reqRooms q !! room).
Proof using.
  induction l as [|x l IH]; intros q Ha Hq Hn.
  { exists q. split_and!; [done|apply sameReq_refl|]. intros room. by rewrite decide_False by apply not_elem_of_nil. }
  apply NoDup_cons in Hn as [Hx Hn]. destruct (Ha x q) as (q1 & E1 & Hs1 & Er1); [by left|done|].
  destruct (IH q1) as (q2 & E2 & Hs2 & Hr2); [intros r q' Hr; apply Ha; by right|by eapply sameReq_trans|done|].
  exists q2. split_and!; [|by eapply sameReq_trans|].
  - cbn [eachRoom]. unfold mbind, ST_bind. by rewrite E1.
  - intros room. rewrite Hr2, Er1. destruct (decide (room = x)) as [->|Hne].
    + rewrite decide_False by done. rewrite (decide_True (P := x ∈ x :: l)) by by left. destruct (sel x); [by rewrite lookup_insert_eq|done].
    + destruct (decide (room ∈ l)) as [Hin|Hin].
      * rewrite decide_True by by right. destruct (sel room); [done|]. destruct (sel x); [by rewrite lookup_insert_ne|done].
      * rewrite decide_False by (by intros [->|?]%elem_of_cons). destruct (sel x); [by rewrite lookup_insert_ne|done].
Qed.

Definition selJoin t (J tok : gmap string Z) (room : string) : option ReqRoom :=
  let latest := GetJoinRoomOffset t room in
  let j := default (-1) (J !! room) in
  match tok !! room with
  | Some o => if (o <? latest) && (0 <? j) then Some (mkReqRoom "join" o latest) else None
  | None => if 0 <? j then Some (mkReqRoom "join" (-1) latest) else None
  end.

Definition selInvite (I tok : gmap string Z) (room : string) : option ReqRoom :=
  let latest := default (-1) (I !! room) in
  match tok !! room with
  | Some o => if o <? latest then Some (mkReqRoom "invite" o latest) else None
  | None => Some (mkReqRoom "invite" (-1) latest)
  end.

Definition selLeave (L tok : gmap string Z) (room : string) : option ReqRoom :=
  let latest := default (-1) (L !! room) in
  match tok !! room with
  | Some o => if o <? latest then Some (mkReqRoom "leave" o latest) else None
  | None => if negb (latest =? -1) then Some (mkReqRoom "leave" (latest - 1) latest) else None
  end.

Lemma askJoined_asks s user J I L q0 l : Loaded (userTimeLine s) user J I L -> dUserID (device q0) = user -> asks askJoined (selJoin (userTimeLine s) J (offsets q0)) s q0 l.
Proof using.
  intros HL Hu room q _ Hq. apply sameReq_fields in Hq as (Hd & Ho & _). rewrite <- Hd in Hu. unfold askJoined, mbind, ST_bind.
  rewrite Hu, (onTimeLine_ok _ _ _ (joinRoom_of _ _ _)), (onTimeLine_ok _ _ _ (joinOffset_of _ _ _ _ _ _ HL)). cbn [offsets set_rooms]. rewrite Ho. unfold selJoin.
  destruct (offsets q0 !! room); [destruct (_ && _)|destruct (0 <? _)]; eexists; (split_and!; [done|apply sameReq_set || (eapply sameReq_trans; apply sameReq_set)|done]).
Qed.

Lemma askInvited_asks s user J I L q0 l : Loaded (userTimeLine s) user J I L -> dUserID (device q0) = user -> asks askInvited (selInvite I (offsets q0)) s q0 l.
Proof using.
  intros HL Hu room q _ Hq. apply sameReq_fields in Hq as (Hd & Ho & _). rewrite <- Hd in Hu. unfold askInvited, mbind, ST_bind.
  rewrite Hu, (onTimeLine_ok _ _ _ (inviteRoom_of _ _ _ _ _ _ HL)), Ho. unfold selInvite.
  destruct (offsets q0 !! room); [destruct (_ <? _)|]; eexists; (split_and!; [done|apply sameReq_set || apply sameReq_refl|done]).
Qed.

Lemma askLeft_asks s user J I L q0 l : Loaded (userTimeLine s) user J I L -> dUserID (device q0) = user -> asks askLeft (selLeave L (offsets q0)) s q0 l.
Proof using.
  intros HL Hu room q _ Hq. apply sameReq_fields in Hq as (Hd & Ho & _). rewrite <- Hd in Hu. unfold askLeft, mbind, ST_bind.
  rewrite Hu, (onTimeLine_ok _ _ _ (leaveRoom_of _ _ _ _ _ _ HL)), Ho. unfold selLeave.
  destruct (offsets q0 !! room); [destruct (_ <? _)|destruct (negb _)]; eexists; (split_and!; [done|apply sameReq_set || apply sameReq_refl|done]).
Qed.

Lemma roomsOf_in {A} (m : gmap string A) room : room ∈ roomsOf m <-> is_Some (m !! room).
Proof using.
  unfold roomsOf. rewrite list_elem_of_fmap. split.
  - intros [[k v] [-> Hin]]. rewrite range_elem in Hin. by exists v.
  - intros [v Hv]. exists (room, v). by rewrite range_elem.
Qed.
Lemma roomsOf_nodup {A} (m : gmap string A) : NoDup (roomsOf m).
Proof using. unfold roomsOf. rewrite range_perm. apply NoDup_fst_map_to_list. Qed.

(** What the three loops ask for in a room: the later ones take precedence. *)
Definition wantedRoom t (J I L tok : gmap string Z) (room : string) : option ReqRoom :=
  let j := match J !! room with Some _ => selJoin t J tok room | None => None end in
  let i := match I !! room with Some _ => selInvite I tok room | None => None end in
  let l := match L !! room with Some _ => selLeave L tok room | None => None end in
  match l with Some rr => Some rr | None => match i with Some rr => Some rr | None => j end end.

Lemma in_rooms {A} (m : gmap string A) room (x y : option ReqRoom) : (if decide (room ∈ roomsOf m) then x else y) = match m !! room with Some _ => x | None => y end.
Proof using.
  destruct (decide (room ∈ roomsOf m)) as [Hin|Hin]; rewrite roomsOf_in in Hin; destruct (m !! room); [done|by destruct Hin|by destruct Hin|done].
Qed.

Lemma loops_rooms s user J I L q : Loaded (userTimeLine s) user J I L -> dUserID (device q) = user -> reqRooms q = ∅ ->
  exists q1 q2 q3, eachRoom askJoined (roomsOf (Int64Offset <$> J)) q s = (Ok q1, s) /\ eachRoom askInvited (roomsOf I) q1 s = (Ok q2, s) /\
    eachRoom askLeft (roomsOf L) q2 s = (Ok q3, s) /\ sameReq q q1 /\ sameReq q q2 /\ sameReq q q3 /\
    forall room, reqRooms q3 !! room = wantedRoom (userTimeLine s) J I L (offsets q) room.
Proof using.
  intros HL Hu Hnone.
  destruct (eachRoom_asks askJoined (selJoin (userTimeLine s) J (offsets q)) s q (roomsOf (Int64Offset <$> J)) q) as (q1 & E1 & S1 & R1);
    [by eapply askJoined_asks|apply sameReq_refl|apply roomsOf_nodup|].
  destruct (eachRoom_asks askInvited (selInvite I (offsets q)) s q (roomsOf I) q1) as (q2 & E2 & S2 & R2); [by eapply askInvited_asks|done|apply roomsOf_nodup|].
  destruct (eachRoom_asks askLeft (selLeave L (offsets q)) s q (roomsOf L) q2) as (q3 & E3 & S3 & R3); [by eapply askLeft_asks|by eapply sameReq_trans|apply roomsOf_nodup|].
  exists q1, q2, q3. split_and!; [done..|by eapply sameReq_trans|by eapply sameReq_trans, sameReq_trans|].
  intros room. rewrite R3, R2, R1. rewrite !in_rooms, lookup_fmap. unfold wantedRoom. rewrite Hnone, lookup_empty.
  destruct (L !! room) eqn:El; destruct (I !! room) eqn:Ei; destruct (J !! room) eqn:Ej; cbn; repeat case_match; congruence.
Qed.

Lemma rebuild_rooms s user J I L q : Loaded (userTimeLine s) user J I L -> dUserID (device q) = user ->
  exists q', reBuildIncreamSyncReqRoom q s = (Ok q', s) /\ sameReq q q' /\ forall room, reqRooms q' !! room = wantedRoom (userTimeLine s) J I L (offsets q) room.
Proof using.
  intros HL Hu. destruct (loops_rooms s user J I L (set_rooms q ∅ []) HL) as (q1 & q2 & q3 & E1 & E2 & E3 & _ & _ & Hs & Hr); [done..|].
  exists q3. split_and!; [|by eapply sameReq_trans; [apply sameReq_set|]|exact Hr].
  unfold reBuildIncreamSyncReqRoom, mbind, ST_bind. erewrite attempt_ok.
  2:{ unfold mbind, ST_bind. rewrite Hu, (onTimeLine_ok _ _ _ (getJoins _ _ _ _ _ HL)), (onTimeLine_ok _ _ _ (getInvites _ _ _ _ _ HL)), (onTimeLine_ok _ _ _ (getLeaves _ _ _ _ _ HL)). done. }
  cbv iota beta. by rewrite E1, E2.
Qed.

Lemma build_rooms s user J I L q : Loaded (userTimeLine s) user J I L -> dUserID (device q) = user -> reqRooms q = ∅ ->
  exists q', buildIncreamSyncRequset q s = (Ok q', s) /\ sameReq q q' /\ forall room, reqRooms q' !! room = wantedRoom (userTimeLine s) J I L (offsets q) room.
Proof using.
  intros HL Hu Hnone. destruct (loops_rooms s user J I L q HL Hu Hnone) as (q1 & q2 & q3 & E1 & E2 & E3 & _ & _ & Hs & Hr).
  exists q3. split_and!; [|done|exact Hr]. unfold buildIncreamSyncRequset, mbind, ST_bind.
  rewrite Hu, (onTimeLine_ok _ _ _ (getJoins _ _ _ _ _ HL)), E1, (onTimeLine_ok _ _ _ (getInvites _ _ _ _ _ HL)), E2, (onTimeLine_ok _ _ _ (getLeaves _ _ _ _ _ HL)). exact E3.
Qed.

(** A full sync asks for every joined room and every invitation from the beginning. *)
Definition selFullJoin t (J : gmap string Z) (room : string) : option ReqRoom :=
  if 0 <? default (-1) (J !! room) then Some (mkReqRoom "join" (-1) (GetJoinRoomOffset t room)) else None.

Lemma fullJoined_asks s user J I L q0 l : Loaded (userTimeLine s) user J I L -> dUserID (device q0) = user -> asks fullJoined (selFullJoin (userTimeLine s) J) s q0 l.
Proof using.
  intros HL Hu room q _ Hq. apply sameReq_fields in Hq as (Hd & Ho & _). rewrite <- Hd in Hu. unfold fullJoined, mbind, ST_bind.
  rewrite Hu, (onTimeLine_ok _ _ _ (joinOffset_of _ _ _ _ _ _ HL)). unfold selFullJoin. destruct (0 <? _); [rewrite (onTimeLine_ok _ _ _ (joinRoom_of _ _ _))|];
    eexists; (split_and!; [done|apply sameReq_set || (eapply sameReq_trans; apply sameReq_set)|done]).
Qed.

Lemma fullInvited_asks s user J I L q0 l : Loaded (userTimeLine s) user J I L -> dUserID (device q0) = user ->
  asks fullInvited (fun room => Some (mkReqRoom "invite" (-1) (default (-1) (I !! room)))) s q0 l.
Proof using.
  intros HL Hu room q _ Hq. apply sameReq_fields in Hq as (Hd & Ho & _). rewrite <- Hd in Hu. unfold fullInvited, mbind, ST_bind.
  rewrite Hu, (onTimeLine_ok _ _ _ (inviteRoom_of _ _ _ _ _ _ HL)). eexists. split_and!; [done|apply sameReq_set|done].
Qed.

Lemma full_rooms s user J I L q : Loaded (userTimeLine s) user J I L -> dUserID (device q) = user -> dIsHuman (device q) = true -> reqRooms q = ∅ ->
  exists q', buildFullSyncRequest q s = (Ok q', s) /\ sameReq (set_full q 10 (isFull q)) q' /\
    forall room, reqRooms q' !! room = match I !! room with Some i => Some (mkReqRoom "invite" (-1) i)
      | None => match J !! room with Some _ => selFullJoin (userTimeLine s) J room | None => None end end.
Proof using.
  intros HL Hu Hh Hnone. set (q0 := set_full q 10 (isFull q)).
  destruct (eachRoom_asks fullJoined (selFullJoin (userTimeLine s) J) s q0 (roomsOf (Int64Offset <$> J)) q0) as (q1 & E1 & S1 & R1);
    [by eapply fullJoined_asks|apply sameReq_refl|apply roomsOf_nodup|].
  destruct (eachRoom_asks fullInvited (fun room => Some (mkReqRoom "invite" (-1) (default (-1) (I !! room)))) s q0 (roomsOf I) q1) as (q2 & E2 & S2 & R2);
    [by eapply fullInvited_asks|done|apply roomsOf_nodup|].
  exists q2. split_and!; [|by eapply sameReq_trans|].
  - unfold buildFullSyncRequest, mbind, ST_bind. fold q0. change (dIsHuman (device q0)) with (dIsHuman (device q)). rewrite Hh. cbn [negb].
    rewrite Hu, (onTimeLine_ok _ _ _ (getJoins _ _ _ _ _ HL)), E1, (onTimeLine_ok _ _ _ (getInvites _ _ _ _ _ HL)). exact E2.
  - intros room. rewrite R2, R1, !in_rooms, lookup_fmap. change (reqRooms q0) with (reqRooms q). rewrite Hnone, lookup_empty.
    destruct (I !! room) eqn:Ei; destruct (J !! room) eqn:Ej; cbn; repeat case_match; congruence.
Qed.

(** ** Waiting and asking *)

(** A user has one membership in a room. *)
Definition OneMembership (J I L : gmap string Z) : Prop := forall room,
  (is_Some (J !! room) -> I !! room = None /\ L !! room = None) /\ (is_Some (I !! room) -> L !! room = None).

Definition roomUpdated t (J I L tok : gmap string Z) (room : string) : bool :=
  match tok !! room with
  | Some o => newer t J I L room o
  | None => match J !! room with Some j => 0 <? j | None => false end || bool_decide (is_Some (I !! room)) ||
            match L !! room with Some l => negb (l =? -1) | None => false end
  end.

Lemma updated_room t J I L tok : updated t J I L tok = true <-> exists room, roomUpdated t J I L tok room = true.
Proof using.
  unfold updated, roomUpdated. rewrite !orb_true_iff, !existsb_exists. split.
  - intros [[[(kv & Hin & Hn)|(room & Hin & Hn)]|(room & Hin & Hn)]|(kv & Hin & Hn)]; apply list_elem_of_In in Hin.
    + destruct kv as [k v]. apply range_elem in Hin. exists k. by rewrite Hin.
    + apply roomsOf_in in Hin as [v Hv]. rewrite lookup_fmap in Hv. exists room. destruct (tok !! room); [done|]. by destruct (J !! room); cbn in Hn; rewrite ?Hn.
    + apply roomsOf_in in Hin. exists room. destruct (tok !! room); [done|]. by rewrite bool_decide_true, orb_true_r.
    + destruct kv as [k v]. apply range_elem in Hin. exists k. cbn in Hn. rewrite Hin. destruct (tok !! k); [done|]. by rewrite Hn, !orb_true_r.
  - intros [room Hr]. destruct (tok !! room) as [o|] eqn:Et.
    { do 3 left. exists (room, o). rewrite <- list_elem_of_In, range_elem. done. }
    apply orb_true_iff in Hr as [Hr|Hr]; [apply orb_true_iff in Hr as [Hr|Hr]|].
    + do 2 left. right. exists room. rewrite <- list_elem_of_In, roomsOf_in, lookup_fmap, Et. destruct (J !! room); [|done]. by cbn.
    + left. right. exists room. rewrite <- list_elem_of_In, roomsOf_in, Et. by apply bool_decide_eq_true in Hr.
    + right. destruct (L !! room) as [l|] eqn:El; [|done]. exists (room, l). rewrite <- list_elem_of_In, range_elem. cbn. by rewrite Et.
Qed.

Lemma roomUpdated_wanted t J I L tok room : OneMembership J I L -> (forall o, tok !! room = Some o -> -1 <= o) ->
  roomUpdated t J I L tok room = true <-> is_Some (wantedRoom t J I L tok room).
Proof using.
  intros Hone Ht. destruct (Hone room) as [HJ HI]. unfold roomUpdated, newer, wantedRoom, selJoin, selInvite, selLeave.
  destruct (tok !! room) as [o|] eqn:Et; [specialize (Ht o eq_refl)|clear Ht].
  - destruct (J !! room) as [j|] eqn:Ej; [destruct HJ as [-> ->]; [done|]; cbn|destruct (I !! room) as [i|] eqn:Ei; [rewrite HI by done; cbn|destruct (L !! room) as [l|]; cbn]].
    + destruct (Z.eqb_spec (GetJoinRoomOffset t room) (-1)); destruct (Z.ltb_spec o (GetJoinRoomOffset t room)); destruct (0 <? j); cbn; split; intros Hx; try done || (by destruct Hx) || lia.
    + destruct (Z.eqb_spec i (-1)); destruct (Z.ltb_spec o i); cbn; split; intros Hx; try done || (by destruct Hx) || lia.
    + destruct (Z.eqb_spec l (-1)); destruct (Z.ltb_spec o l); cbn; split; intros Hx; try done || (by destruct Hx) || lia.
    + split; [done|by intros [? ?]].
  - destruct (J !! room) as [j|] eqn:Ej; [destruct HJ as [-> ->]; [done|]; cbn|destruct (I !! room) as [i|] eqn:Ei; [rewrite HI by done; cbn|destruct (L !! room) as [l|]; cbn]].
    + destruct (0 <? j); cbn; split; intros Hx; done || by destruct Hx.
    + done.
    + destruct (l =? -1); cbn; split; intros Hx; done || by destruct Hx.
    + split; [done|by intros [? ?]].
Qed.

(** A token with the positions of a reply that has all the rooms that were asked for. *)
Lemma answered_quiet t J I L tok pos : OneMembership J I L -> (forall room o, tok !! room = Some o -> -1 <= o) ->
  (forall room, match wantedRoom t J I L tok room with Some rr => exists p, pos !! room = Some p /\ rrEnd rr <= p | None => pos !! room = None end) ->
  updated t J I L (pos ∪ tok) = false.
Proof using.
  intros Hone Ht Hpos. apply not_true_is_false. intros [room Hr]%updated_room. specialize (Hpos room). specialize (Ht room).
  destruct (wantedRoom t J I L tok room) as [rr|] eqn:Ew.
  - destruct Hpos as (p & Ep & Hle). unfold roomUpdated in Hr. rewrite (lookup_union_Some_l _ _ _ _ Ep) in Hr. unfold newer, wantedRoom, selJoin, selInvite, selLeave in *.
    destruct (Hone room) as [HJ HI]. clear Hone. destruct (J !! room) as [j|] eqn:Ej; [destruct HJ as [EI EL]; [done|]; rewrite EI, EL in *|
      destruct (I !! room) as [i|] eqn:Ei; [pose proof (HI ltac:(done)) as EL; rewrite EL in *|destruct (L !! room) as [l|]; [|done]]]; cbn in *;
      apply andb_prop in Hr as [Hr Hr2]; try (apply andb_prop in Hr as [Hr Hr3]); repeat case_match; simplify_eq; cbn in *; lia.
  - assert (Hf : roomUpdated t J I L tok room = true). { unfold roomUpdated in *. by rewrite lookup_union_r in Hr. }
    apply roomUpdated_wanted in Hf as [? Hf]; [congruence|done|done].
Qed.

Lemma reqRooms_nonempty q' (f : string -> option ReqRoom) : (forall room, reqRooms q' !! room = f room) -> reqRooms q' <> ∅ <-> exists room, is_Some (f room).
Proof using.
  intros Hf. split.
  - intros (room & rr & Hr)%map_choose. exists room. rewrite <- Hf, Hr. done.
  - intros [room [rr Hr]] Em. rewrite <- Hf, Em, lookup_empty in Hr. done.
Qed.

(** Redis gives [tok] for the token of the request. *)
Definition HasToken (cfg : SyncCfg) (q : ClientRequest) (tok : gmap string Z) s : Prop :=
  exists r, LoadToken (cacheCfg cfg) (dUserID (device q)) (dID (device q)) (utlRecv q) (redis s) = (Ok (utlRecv q, Some tok), r).

Lemma wait_token cfg start (t : Turn) s q tok J I L : Loaded (userTimeLine s) (dUserID (device q)) J I L -> HasToken cfg q tok s -> checkNoWait q = false ->
  exists s', wait cfg start t q s = (Ok ((latest q <? tNow t) || (updated (userTimeLine s) J I L tok && (500 <? tNow t - start)) ||
    otherNews cfg start t q (userTimeLine s) && negb (latest q <? tNow t), q), s').
Proof using.
  intros HL [r Er] Hno. unfold wait. rewrite Hno. destruct (latest q <? tNow t); [by eexists|]. eexists.
  unfold ExistsUserEventUpdate, mbind, ST_bind. erewrite attempt_ok by (unfold onRedis; by rewrite Er).
  unfold onTimeLine, getRepo. cbn [userTimeLine]. rewrite (eventUpdate_of _ _ _ _ _ _ HL). unfold mret, ST_ret. cbn [fst snd orb userTimeLine redis servers ids negb].
  by rewrite Z.eqb_refl, andb_true_r.
Qed.

(** C9: When a sync stops waiting.  For a user whose rooms are loaded and a request that
    has to wait ([checkNoWait]) and whose token is there, a turn of the waiting loop ends
    the waiting exactly when the time is over, or half a second has passed and the
    request that is built from the rooms at this moment asks a sync server for some room,
    or another stream has news ([otherNews]).  And once the servers have answered, with a
    position for each room that was asked for that is not before the newest event known,
    a request with the new token waits in every turn before its time is over in which no
    other stream has news. *)
Theorem waits_until_asked cfg s q J I L start (t : Turn) : Loaded (userTimeLine s) (dUserID (device q)) J I L -> OneMembership J I L ->
  (forall room o, offsets q !! room = Some o -> -1 <= o) -> HasToken cfg q (offsets q) s -> checkNoWait q = false ->
  exists b s1 q' s2, wait cfg start t q s = (Ok (b, q), s1) /\ reBuildIncreamSyncReqRoom q s = (Ok q', s2) /\
    (b = true <-> latest q < tNow t \/ (500 < tNow t - start /\ reqRooms q' <> ∅) \/ otherNews cfg start t q (userTimeLine s) = true) /\
    forall q2 pos start2 (t2 : Turn), device q2 = device q -> HasToken cfg q2 (pos ∪ offsets q) s -> checkNoWait q2 = false ->
      (forall room, match reqRooms q' !! room with Some rr => exists p, pos !! room = Some p /\ rrEnd rr <= p | None => pos !! room = None end) ->
      tNow t2 <= latest q2 -> otherNews cfg start2 t2 q2 (userTimeLine s) = false ->
      exists s3, wait cfg start2 t2 q2 s = (Ok (false, q2), s3).
Proof using.
  intros HL Hone Ht Htok Hno. destruct (wait_token _ start t _ _ _ _ _ _ HL Htok Hno) as [s1 E1].
  destruct (rebuild_rooms s _ J I L q HL eq_refl) as (q' & E2 & _ & Hr). eexists _, s1, q', s. split_and!; [done..| |].
  - assert (Hu : updated (userTimeLine s) J I L (offsets q) = true <-> reqRooms q' <> ∅).
    { rewrite (reqRooms_nonempty _ _ Hr), updated_room. split; intros [room Hx]; exists room; apply (roomUpdated_wanted _ _ _ _ _ _ Hone); done || (intros o; apply Ht). }
    rewrite <- Hu, <- Z.ltb_lt. destruct (latest q <? tNow t); [by split; [left|]|].
    cbn [negb orb]. rewrite andb_true_r, !orb_true_iff, !andb_true_iff, Z.ltb_lt. intuition discriminate.
  - intros q2 pos start2 t2 Hd Htok2 Hno2 Hpos Hnow Hother. rewrite <- Hd in HL.
    destruct (wait_token _ start2 t2 _ _ _ _ _ _ HL Htok2 Hno2) as [s3 E3]. exists s3. rewrite E3, Hother, (proj2 (Z.ltb_ge _ _) Hnow).
    rewrite answered_quiet; [done..|]. intros room. specialize (Hpos room). by rewrite Hr in Hpos.
Qed.

End Asking.

End SyncMngFacts.
