(* ===== verification/SyncRuns.v ===== *)
(** * What the tokens of a device say

    A device syncs while events arrive, servers fail and Redis forgets ([run]).  Every
    offset in a token of the device was reached by replies ([tokens_reached]): from the
    start, each step is an answer of a sync server to a request for the room from the
    offset before, and its timeline is in a reply that the aggregator gave.  When the
    answers leave nothing out of the events of the room ([TrueAnswers]), everything up to
    such an offset was sent ([reached_covered]).  So whichever of its tokens the device
    sends, and also when the code falls back to another one, the next request asks for
    all that is missing, as long as every reply reaches the device
    ([lost_reply_skipped]).

    [LawfulRedis] is what is promised by Redis.  Of the sync servers only the form of
    their answers is used ([SaneServers]); [SyncServers] proves it of the code. *)

From Stdlib Require Import String Ascii ZArith List Lia Sorted.
From stdpp Require Import base tactics list gmap strings pretty.
From S2P Require Import Prelude Timeline TimelineRepo Loader SyncHistory SyncHistoryFacts SyncRoomState Ids Push Receipts ReceiptConsumer SyncRoomStateFacts SyncStates SyncBuild RoomMessages RoomMessagesFacts SyncBuildFacts RoomQuery UserRooms SyncMng SyncMngFacts.

#[local] Open Scope string_scope.
#[local] Open Scope Z_scope.

Module SyncRuns.
Import SyncHistory SyncRoomState SyncBuild RoomMessages RoomMessagesFacts UserRooms SyncMng SyncMngFacts.

(** Splits a conjunction, and no definition in it. *)
Ltac conjs := repeat match goal with |- _ /\ _ => split end.

(** An outcome that is a value or an error. *)
Definition settled {A} (r : res A) : Prop := match r with Ok _ | Err _ => True | _ => False end.

(** ** Redis *)

(** A command changes one hash, and that one only when it does not fail. *)
Definition writes {R} (fields : R -> string -> gmap string string) (k : string) (f : gmap string string -> gmap string string) (s : R) (x : res unit * R) : Prop :=
  settled x.1 /\ (x.1 = Ok () -> fields x.2 k = f (fields s k)) /\ (x.1 <> Ok () -> fields x.2 k = fields s k) /\
  forall k', k' <> k -> fields x.2 k' = fields s k'.

(** The fields of every hash; a hash whose time is up goes. *)
Class LawfulRedis (R : Type) `{Redis R} := {
  fields : R -> string -> gmap string string;
  HMSET_law k kvs s : writes fields k (fun m => fold_left (fun m kv => <[kv.1 := kv.2]> m) kvs m) s (HMSET k kvs s);
  HSET_law k f v s : writes fields k <[f := v]> s (HSET k f v s);
  HDEL_law k f s : writes fields k (delete f) s (HDEL k f s);
  DEL_law k s : writes fields k (fun _ => ∅) s (DEL k s);
  HGETALL_law k s : exists r s', HGETALL k s = (r, s') /\ settled r /\ (forall k', fields s' k' = fields s k') /\
    forall l, r = Ok l -> NoDup (map fst l) /\ forall f v, (f, v) ∈ l <-> fields s k !! f = Some v;
  EXPIRE_law k n s : exists r s', EXPIRE k n s = (r, s') /\ settled r /\ forall k',
    fields s' k' = fields s k' \/ (k' = k /\ n <= 0 /\ fields s' k' = ∅);
}.

Section RedisFacts.
  Context {R : Type} `{LawfulRedis R} `{GoRange}.
  Context (cfg : CacheCfg).
  Implicit Types (s : R).

(** No token of the device has a field that it did not have. *)
Definition fewer (user dev : string) s s' : Prop := forall utl f v, fields s' (tokenKey user dev utl) !! f = Some v -> fields s (tokenKey user dev utl) !! f = Some v.

Lemma fewer_refl user dev s : fewer user dev s s.
Proof using. by intros utl f v. Qed.
Lemma fewer_trans user dev s1 s2 s3 : fewer user dev s1 s2 -> fewer user dev s2 s3 -> fewer user dev s1 s3.
Proof using. intros H1' H2' utl f v Hf. by apply H1', H2'. Qed.

Lemma fewer_same user dev s s' : (forall k, fields s' k = fields s k) -> fewer user dev s s'.
Proof using. intros Hs utl f v. by rewrite Hs. Qed.

(** A call that ends and adds no field. *)
Definition quiet {A} user dev (m : ST R A) s : Prop := exists r s', m s = (r, s') /\ settled r /\ fewer user dev s s'.

Lemma quiet_ret {A} user dev (a : A) s : quiet user dev (mret a) s.
Proof using. exists (Ok a), s. split_and!; [done..|apply fewer_refl]. Qed.

Lemma redis_bind {A B} user dev (m : ST R A) (f : A -> ST R B) s : quiet user dev m s -> (forall a s', m s = (Ok a, s') -> quiet user dev (f a) s') -> quiet user dev (m ≫= f) s.
Proof using.
  intros (r & s1 & E & Hr & Hf) Hk. unfold quiet, mbind, ST_bind. rewrite E. destruct r as [a|e| |]; try done; [|by exists (Err e), s1].
  destruct (Hk a s1 E) as (r2 & s2 & E2 & Hr2 & Hf2). exists r2, s2. split_and!; [done..|by eapply fewer_trans].
Qed.

Lemma quiet_attempt {A} user dev (m : ST R A) s : quiet user dev m s -> quiet user dev (RoomQuery.attempt m) s.
Proof using. intros (r & s1 & E & Hr & Hf). unfold quiet, RoomQuery.attempt. rewrite E. destruct r; try done; by eexists _, _. Qed.

Lemma quiet_EXPIRE user dev k n s : quiet user dev (EXPIRE k n) s.
Proof using.
  destruct (EXPIRE_law k n s) as (r & s' & E & Hr & Hf). exists r, s'. split_and!; [done..|]. intros utl f v.
  destruct (Hf (tokenKey user dev utl)) as [->|(_ & _ & ->)]; [done|by rewrite lookup_empty].
Qed.
Lemma quiet_Expire user dev k n s : quiet user dev (Expire k n) s.
Proof using. apply redis_bind; [apply quiet_attempt, quiet_EXPIRE|intros; apply quiet_ret]. Qed.
Lemma quiet_HGETALL user dev k s : quiet user dev (HGETALL k) s.
Proof using. destruct (HGETALL_law k s) as (r & s' & E & Hr & Hf & _). exists r, s'. split_and!; [done..|by apply fewer_same]. Qed.
(** A command that only takes fields away, or that writes to another hash. *)
Lemma quiet_writes user dev k f s m : writes fields k f s (m s) -> (forall utl, k = tokenKey user dev utl -> f (fields s k) ⊆ fields s k) -> quiet user dev m s.
Proof using.
  intros (Hr & Hok & Herr & Hk) Hsub. exists (m s).1, (m s).2. split_and!; [by destruct (m s)|done|]. intros utl g v Hg.
  destruct (decide (tokenKey user dev utl = k)) as [Hkey|Hkey]; [|by rewrite Hk in Hg].
  rewrite Hkey in *. destruct (decide ((m s).1 = Ok ())) as [E|E]; [|by rewrite Herr in Hg]. rewrite Hok in Hg by done.
  by apply (lookup_weaken (f (fields s k))), (Hsub utl).
Qed.
Lemma quiet_DEL user dev k s : quiet user dev (DEL k) s.
Proof using. eapply quiet_writes; [apply DEL_law|]. intros. apply map_empty_subseteq. Qed.
Lemma quiet_HDEL user dev k f s : quiet user dev (HDEL k f) s.
Proof using. eapply quiet_writes; [apply HDEL_law|]. intros. apply delete_subseteq. Qed.

Lemma key_differs user dev utl user' dev' : tokenKey user dev utl <> utlsKey user' dev'.
Proof using. done. Qed.

Lemma quiet_HSET user dev f v s : quiet user dev (HSET (utlsKey user dev) f v) s.
Proof using. eapply quiet_writes; [apply HSET_law|]. intros utl Hk. by destruct (key_differs user dev utl user dev). Qed.

Lemma quiet_GetToken user dev utl s : quiet user dev (GetToken cfg user dev utl) s.
Proof using.
  apply redis_bind; [apply quiet_HGETALL|]. intros l s' _. destruct l; [apply quiet_ret|]. apply redis_bind; [apply quiet_Expire|intros; apply quiet_ret].
Qed.
Lemma quiet_GetTokenUtls user dev s : quiet user dev (GetTokenUtls cfg user dev) s.
Proof using.
  apply redis_bind; [apply quiet_HGETALL|]. intros l s' _. destruct l; [apply quiet_ret|]. apply redis_bind; [apply quiet_Expire|intros; apply quiet_ret].
Qed.
Lemma quiet_GetLast user dev s : quiet user dev (GetLastValidToken cfg user dev) s.
Proof using.
  apply redis_bind; [apply quiet_GetTokenUtls|]. intros l s' _. destruct l; [apply quiet_ret|]. apply redis_bind; [apply quiet_GetToken|intros; apply quiet_ret].
Qed.
Lemma quiet_LoadToken user dev utl s : quiet user dev (LoadToken cfg user dev utl) s.
Proof using.
  apply redis_bind; [apply quiet_GetToken|]. intros [t|] s' _; [apply quiet_ret|]. destruct (utl =? 0); [apply quiet_ret|apply quiet_GetLast].
Qed.
Lemma quiet_DelTokens user dev l : forall s, quiet user dev (DelTokens user dev l) s.
Proof using.
  induction l as [|x l IH]; intros s; [apply quiet_ret|]. apply redis_bind; [apply quiet_attempt, quiet_DEL|]. intros a s1 _. apply redis_bind; [|intros; apply IH].
  destruct a; [|apply quiet_ret]. apply redis_bind; [apply quiet_attempt, quiet_HDEL|intros; apply quiet_ret].
Qed.
Lemma quiet_AddUtl user dev utl now s : quiet user dev (AddTokenUtl cfg user dev utl now) s.
Proof using. apply redis_bind; [apply quiet_HSET|intros; apply quiet_Expire]. Qed.

(** The positions in a loaded token are those of stored tokens. *)
Lemma fold_insert_in (l : list (string * string)) : forall (m0 : gmap string Z) f p,
  fold_left (fun r kv => <[kv.1 := (Atoi kv.2).1]> r) l m0 !! f = Some p -> (exists v, (f, v) ∈ l /\ p = (Atoi v).1) \/ m0 !! f = Some p.
Proof using.
  induction l as [|[k v] l IH]; intros m0 f p; cbn [fold_left]; [by right|]. intros Hf. apply IH in Hf as [(v' & Hin & ->)|Hf].
  - left. exists v'. split; [by right|done].
  - cbn [fst snd] in Hf. apply lookup_insert_Some in Hf as [[-> <-]|[_ Hf]]; [|by right]. left. exists v. split; [by left|done].
Qed.

Definition stored user dev s (f : string) (p : Z) : Prop := exists utl v, fields s (tokenKey user dev utl) !! f = Some v /\ p = (Atoi v).1.

Lemma GetToken_stored user dev utl s t s' : GetToken cfg user dev utl s = (Ok (Some t), s') -> forall f p, t !! f = Some p -> stored user dev s f p.
Proof using.
  unfold GetToken, mbind, ST_bind. destruct (HGETALL_law (tokenKey user dev utl) s) as (r & s1 & -> & Hr & Hf & Hl).
  destruct r as [l|e| |]; try done. destruct (Hl l eq_refl) as [_ Hin]. destruct l as [|x l]; [done|].
  destruct (quiet_Expire user dev (tokenKey user dev utl) (TokenExpire cfg) s1) as (r & s2 & -> & _). destruct r as [u|e| |]; try done.
  intros [= <- _] f p Hp. apply (fold_insert_in (x :: l) ∅) in Hp as [(v & Hv & ->)|Hp]; [|by apply lookup_empty_Some in Hp]. exists utl, v. split; [by apply Hin|done].
Qed.

Lemma fewer_stored user dev s s' f p : fewer user dev s s' -> stored user dev s' f p -> stored user dev s f p.
Proof using. intros Hf (utl & v & Hv & ->). exists utl, v. split; [by apply Hf|done]. Qed.

Lemma LoadToken_stored user dev utl s cur t s' : LoadToken cfg user dev utl s = (Ok (cur, Some t), s') -> forall f p, t !! f = Some p -> stored user dev s f p.
Proof using.
  intros E f p Hp. unfold LoadToken in E. destruct (quiet_GetToken user dev utl s) as (r & s1 & E1 & Hr & Hf). unfold mbind at 1, ST_bind at 1 in E. rewrite E1 in E.
  destruct r as [[t1|]|e| |]; try done.
  - injection E as _ <- _. by eapply GetToken_stored.
  - destruct (utl =? 0); [done|]. unfold GetLastValidToken, mbind at 1, ST_bind at 1 in E. destruct (quiet_GetTokenUtls user dev s1) as (r & s2 & E2 & _ & Hf2). rewrite E2 in E.
    destruct r as [l|e| |]; try done. destruct l as [|x l]; [done|]. unfold mbind, ST_bind in E.
    destruct (GetToken cfg user dev x s2) as [r3 s3] eqn:E3. destruct r3 as [t3|e| |]; try done. injection E as _ -> _.
    eapply fewer_stored; [by eapply fewer_trans|]. by eapply GetToken_stored.
Qed.

Lemma fold_written (l : list (string * string)) : forall (m0 : gmap string string) f v,
  fold_left (fun m kv => <[kv.1 := kv.2]> m) l m0 !! f = Some v -> (f, v) ∈ l \/ m0 !! f = Some v.
Proof using.
  induction l as [|[k w] l IH]; intros m0 f v; cbn [fold_left]; [by right|]. intros Hf. apply IH in Hf as [Hin|Hf]; [left; by right|].
  cbn [fst snd] in Hf. apply lookup_insert_Some in Hf as [[-> <-]|[_ Hf]]; [left; by left|by right].
Qed.

(** What [UpdateToken] does once the token is set never fails. *)
Definition tidy user dev utl now : ST R unit :=
  _ ← Expire (tokenKey user dev utl) (TokenExpire cfg);
  r ← RoomQuery.attempt (AddTokenUtl cfg user dev utl now);
  match r with
  | inr _ => mret ()
  | inl _ => us ← RoomQuery.attempt (GetTokenUtls cfg user dev);
      match us with
      | inr _ => mret ()
      | inl utls => if (LatestToken cfg <? length utls)%nat then DelTokens user dev (drop (LatestToken cfg) utls) else mret ()
      end
  end.

Definition never_fails {A} (m : ST R A) : Prop := forall s e s', m s <> (Err e, s').

Lemma nf_ret {A} (a : A) : never_fails (mret a).
Proof using. by intros s e s'. Qed.
Lemma nf_bind {A B} (m : ST R A) (f : A -> ST R B) : never_fails m -> (forall a, never_fails (f a)) -> never_fails (m ≫= f).
Proof using. intros Hm Hf s e s'. unfold mbind, ST_bind. destruct (m s) as [[a|e1| |] s1] eqn:Em; try done; [apply Hf|]. intros _. by apply (Hm s e1 s1). Qed.
Lemma nf_attempt {A} (m : ST R A) : never_fails (RoomQuery.attempt m).
Proof using. intros s e s'. unfold RoomQuery.attempt. by destruct (m s) as [[]]. Qed.
Lemma nf_Expire k n : never_fails (Expire k n).
Proof using. apply nf_bind; [apply nf_attempt|intros; apply nf_ret]. Qed.
Lemma nf_DelTokens user dev l : never_fails (DelTokens user dev l).
Proof using.
  induction l as [|x l IH]; [apply nf_ret|]. apply nf_bind; [apply nf_attempt|]. intros a. apply nf_bind; [|done].
  destruct a; [|apply nf_ret]. apply nf_bind; [apply nf_attempt|intros; apply nf_ret].
Qed.
Lemma nf_tidy user dev utl now : never_fails (tidy user dev utl now).
Proof using.
  apply nf_bind; [apply nf_Expire|]. intros _. apply nf_bind; [apply nf_attempt|]. intros [_|_]; [|apply nf_ret].
  apply nf_bind; [apply nf_attempt|]. intros [l|_]; [|apply nf_ret]. case_match; [apply nf_DelTokens|apply nf_ret].
Qed.
Lemma quiet_tidy user dev utl now s : quiet user dev (tidy user dev utl now) s.
Proof using.
  apply redis_bind; [apply quiet_Expire|]. intros _ s2 _. apply redis_bind; [apply quiet_attempt, quiet_AddUtl|]. intros a s3 _. destruct a; [|apply quiet_ret].
  apply redis_bind; [apply quiet_attempt, quiet_GetTokenUtls|]. intros us s4 _. destruct us as [l|]; [|apply quiet_ret]. case_match; [apply quiet_DelTokens|apply quiet_ret].
Qed.

(** A new token: its fields are the positions given. *)
Lemma UpdateToken_stored user dev utl now m s : exists r s', UpdateToken cfg user dev utl now m s = (r, s') /\ settled r /\
  (forall e, r = Err e -> fewer user dev s s') /\
  forall f p, stored user dev s' f p -> stored user dev s f p \/ exists z, m !! f = Some z /\ p = (Atoi (pretty z)).1.
Proof using.
  set (kvs := map (fun kv => (kv.1, pretty kv.2)) (range m)).
  destruct (HMSET_law (tokenKey user dev utl) kvs s) as (Hr & Hok & Herr & Hk). destruct (HMSET (tokenKey user dev utl) kvs s) as [r s1] eqn:E1. cbn [fst snd] in *.
  assert (Hst1 : forall f p, stored user dev s1 f p -> stored user dev s f p \/ exists z, m !! f = Some z /\ p = (Atoi (pretty z)).1).
  { intros f p (u & v & Hv & ->). destruct (decide (tokenKey user dev u = tokenKey user dev utl)) as [Eu|Eu]; [|rewrite Hk in Hv by done; left; by exists u, v].
    rewrite Eu in Hv. destruct (decide (r = Ok ())) as [Er|Er]; [|rewrite Herr in Hv by done; left; by exists utl, v]. rewrite Hok in Hv by done.
    apply fold_written in Hv as [Hin|Hv]; [|left; by exists utl, v].
    right. apply list_elem_of_fmap in Hin as ([k z] & [= -> ->] & Hin). apply range_elem in Hin. by exists z. }
  destruct r as [[]|e| |]; try done.
  - destruct (quiet_tidy user dev utl now s1) as (r & s2 & E2 & Hr2 & Hf2). exists r, s2. split_and!; [|done| |].
    + unfold UpdateToken, SetToken. fold kvs. unfold tidy in E2. unfold mbind, ST_bind in *. rewrite E1. exact E2.
    + intros e ->. by apply nf_tidy in E2.
    + intros f p Hst. apply Hst1. by eapply fewer_stored.
  - exists (Err e), s1. split_and!; [|done| |done].
    + unfold UpdateToken, SetToken. fold kvs. unfold mbind, ST_bind. by rewrite E1.
    + intros _ _. apply fewer_same. intros k. destruct (decide (k = tokenKey user dev utl)) as [->|?]; [by apply Herr|by apply Hk].
Qed.

End RedisFacts.
(** ** The sync servers *)

#[local] Abbreviation ascends := SyncBuildFacts.ascends.

(** What a sync server was asked and has answered. *)
Definition Exchange : Type := Z * SyncServerRequest * SyncServerResponse.

Section Runs.
  Context `{ContentJson} `{GoRange} `{GoOrder} `{SyncFilters} {P R SV : Type} `{UserDb P} `{LawfulRedis R} {base : Servers SV}.
  Context (cfg : SyncCfg) (dev : Device) (room : string).

(** The servers, and all that they have answered so far. *)
#[local] Abbreviation Asking := (SV * list Exchange)%type.

#[local] Instance recorded : Servers Asking := {
  askLoad i r e := let '(a, e') := askLoad (Servers := base) i r e.1 in (a, (e', e.2));
  askSync i r e := let '(a, e') := askSync (Servers := base) i r e.1 in (a, (e', match a with Ok resp => (e.2 ++ [(i, r, resp)])%list | _ => e.2 end));
}.

  Implicit Types (s : SyncManager P R Asking) (q : ClientRequest) (t : UserTimeLineRepo P) (tr : list Exchange) (log : list SyncReply).

Definition trace s : list Exchange := (servers s).2.

Definition user_ : string := dUserID dev.

Definition isRoom (x : SyncRoom) : Prop := srmRoomID x = room.

(** The form of an answer: it has a position only for rooms that were asked for, and
    together with the reply for the room. *)
Record Sane (r : SyncServerRequest) (a : SyncServerResponse) : Prop := {
  sane_width : forall pos, MaxRoomOffset a !! room = Some pos -> int64 pos;
  sane_join : forall pos, (forall x, x ∈ (InviteRooms r ++ LeaveRooms r)%list -> ~ isRoom x) -> MaxRoomOffset a !! room = Some pos ->
    exists x j, x ∈ JoinRooms r /\ isRoom x /\ Join a !! room = Some j;
  sane_other : (forall x, x ∈ (JoinRooms r ++ InviteRooms r ++ LeaveRooms r)%list -> ~ isRoom x) -> room ∉ rqJoinedRooms r -> Join a !! room = None;
}.

(** A call of a sync server ends, with an answer of this form or an error. *)
Class SaneServers : Prop := {
  load_settles i r e : settled (askLoad (Servers := base) i r e).1;
  sync_settles i r e : settled (askSync (Servers := base) i r e).1;
  sync_sane i r e resp : (askSync (Servers := base) i r e).1 = Ok resp -> Sane r resp;
}.

Context {sane : SaneServers}.

(** The room was asked for, for the user, from one position, and the answer leads to
    another one with this timeline. *)
Definition Exchanged tr (start pos : Z) (tl : TimelineResp) : Prop := exists i r a x j,
  (i, r, a) ∈ tr /\ rqUserID r = user_ /\ x ∈ JoinRooms r /\ isRoom x /\ srmStart x = start /\
  Join a !! room = Some j /\ jrTimeline j = tl /\ MaxRoomOffset a !! room = Some pos.

(** The positions that the device has reached: the start, and where an answer leads that
    it got in a reply, from a position it had reached. *)
Inductive Reached tr log : Z -> Prop :=
  | reached_start : Reached tr log (-1)
  | reached_page start pos r m j : Reached tr log start -> Exchanged tr start pos (jrTimeline j) ->
      r ∈ log -> rJoin r = Some m -> m !! room = Some j -> Reached tr log pos.

(** ** Runs *)

Inductive Action :=
  | NewOffset (roomID : string) (offset : Z)
  | NewMember (ev : ClientEvent) (offset : Z)
  | ServerTakes (e : SV)
  | RedisDrops (r : R)
  | Begin (req : HttpReq) (now last : Z) (loaded : bool)
  | Wait (start : Z) (t : Turn)
  | Finish (now : Z) (streams : Marks -> Marks).

Record World := mkWorld { mng : SyncManager P R Asking; pending : option ClientRequest; sent : list SyncReply }.

Definition did {A} (m : ST (SyncManager P R Asking) A) (w : World) (k : A -> SyncManager P R Asking -> World) : res World :=
  match m (mng w) with
  | (Ok a, s) => Ok (k a s)
  | (Err e, _) => Err e
  | (Panic, _) => Panic
  | (Diverge, _) => Diverge
  end.

Definition perform (a : Action) (w : World) : res World :=
  match a with
  | NewOffset r off => did (onTimeLine (UpdateRoomOffset r off)) w (fun _ s => mkWorld s (pending w) (sent w))
  | NewMember ev off => did (onTimeLine (AddP2PEv ev off user_)) w (fun _ s => mkWorld s (pending w) (sent w))
  | ServerTakes e => Ok (mkWorld (mkManager (userTimeLine (mng w)) (redis (mng w)) (e, trace (mng w)) (ids (mng w))) (pending w) (sent w))
  | RedisDrops r => Ok (mkWorld (mkManager (userTimeLine (mng w)) r (servers (mng w)) (ids (mng w))) (pending w) (sent w))
  | Begin req now last loaded => did (begin_ cfg req dev now last loaded) w (fun q s => mkWorld s (Some q) (sent w))
  | Wait start t =>
      match pending w with
      | Some q => did (wait cfg start t q) w (fun x s => mkWorld s (Some x.2) (sent w))
      | None => Ok w
      end
  | Finish now streams =>
      match pending w with
      | Some q => did (finishSync cfg now streams [] q) w (fun a s => mkWorld s None (sent w ++ [rooms a])%list)
      | None => Ok w
      end
  end.

Fixpoint run (acts : list Action) (w : World) : res World :=
  match acts with [] => Ok w | a :: rest => w ← perform a w; run rest w end.

(** Member events have a state key, and the user stays in the room; Redis forgets fields
    and hashes; the client sends tokens that can be parsed.  The servers may change in
    any way. *)
Definition allowed (a : Action) (w : World) : Prop :=
  match a with
  | NewMember ev off => is_Some (ceStateKey ev) /\ (ceRoomID ev = room -> ceStateKey ev = Some user_ -> membershipOf (ceContent ev) = "join" /\ 0 < off)
  | RedisDrops r => fewer user_ (dID dev) (redis (mng w)) r
  | Begin req _ _ _ => exists oms, initMarks (if String.eqb (hFrom req) "" then hSince req else hFrom req) = Ok oms
  | _ => True
  end.

Fixpoint valid (acts : list Action) (w : World) : Prop :=
  match acts with [] => True | a :: rest => allowed a w /\ forall w', perform a w = Ok w' -> valid rest w' end.

(** ** What was sent *)

(** A timeline with the events from one position to another, or with the last of them
    when it is marked as cut. *)
Definition PageOf (sees : StreamEvent -> bool) (h : list StreamEvent) (from pos : Z) (tl : TimelineResp) : Prop :=
  exists old new, List.filter (fun st => (from <? seOffset st) && (seOffset st <=? pos) && sees st) h = (old ++ new)%list /\
    Events tl = map seEv new /\ (Limited tl = false -> old = []).

Definition shownIn (tl : TimelineResp) (st : StreamEvent) : Prop :=
  seEv st ∈ Events tl \/ Limited tl = true /\ exists later, Events tl = map seEv later /\ Forall (fun st' => seOffset st < seOffset st') later.

Definition covered log (st : StreamEvent) : Prop :=
  exists r m j, r ∈ log /\ rJoin r = Some m /\ m !! room = Some j /\ shownIn (jrTimeline j) st.

Lemma page_shown sees h from pos tl st : ascends h -> PageOf sees h from pos tl -> st ∈ h -> sees st = true -> from < seOffset st -> seOffset st <= pos -> shownIn tl st.
Proof using.
  intros Ha (old & new & E1 & E2 & Hlim) Hin Hsee Hf Hp.
  assert (Hst : st ∈ (old ++ new)%list).
  { rewrite <- E1. apply list_elem_of_In, filter_In. split; [by apply list_elem_of_In|]. rewrite Hsee. apply andb_true_intro. split; [|done]. apply andb_true_intro. lia. }
  assert (Hasc : ascends (old ++ new)) by (rewrite <- E1; by apply ascends_filter).
  apply elem_of_app in Hst as [Hst|Hst].
  - right. split; [destruct (Limited tl); [done|]; rewrite Hlim in Hst by done; by apply not_elem_of_nil in Hst|]. exists new. split; [done|].
    apply list_elem_of_split in Hst as (l1 & l2 & ->). rewrite <- app_assoc in Hasc.
    apply SyncBuildFacts.ascends_suffix, StronglySorted_inv in Hasc as [_ Hall]. by apply Forall_app in Hall as [_ Hall].
  - left. rewrite E2. apply list_elem_of_fmap. by exists st.
Qed.

(** The answers leave out nothing of the events [h]. *)
Definition TrueAnswers (sees : StreamEvent -> bool) (h : list StreamEvent) tr : Prop := forall start pos tl,
  Exchanged tr start pos tl -> exists from, from <= start /\ PageOf sees h from pos tl.

(** Then everything up to a position that was reached has been sent. *)
Lemma reached_covered sees h tr log p : ascends h -> Forall (fun st => 0 < seOffset st) h -> TrueAnswers sees h tr -> Reached tr log p ->
  forall st, st ∈ h -> sees st = true -> seOffset st <= p -> covered log st.
Proof using.
  intros Ha Hpos Htrue Hr. induction Hr as [|start pos r m j _ IH Hex Hin Hm Hj]; intros st Hst Hsee Hle.
  - rewrite Forall_forall in Hpos. specialize (Hpos st Hst). lia.
  - destruct (decide (seOffset st <= start)) as [Hs|Hs]; [by apply IH|]. destruct (Htrue _ _ _ Hex) as (from & Hf & Hpage).
    exists r, m, j. split_and!; [done..|]. eapply page_shown; try done. lia.
Qed.

(** A true position: one that was reached. *)
Definition Claim tr log (p : Z) : Prop := int64 p /\ Reached tr log p.

Lemma Exchanged_mono tr tr' start pos tl : tr ⊆ tr' -> Exchanged tr start pos tl -> Exchanged tr' start pos tl.
Proof using. intros Ht (i & r & a & x & j & Hin & Hrest). exists i, r, a, x, j. split; [by apply Ht|done]. Qed.

Lemma Claim_mono tr tr' log log' p : tr ⊆ tr' -> log ⊆ log' -> Claim tr log p -> Claim tr' log' p.
Proof using.
  intros Ht Hl [H64 Hr]. split; [done|]. clear H64. induction Hr as [|start pos r m j _ IH Hex Hin Hm Hj]; [constructor|].
  eapply reached_page; try done; [by eapply Exchanged_mono|by apply Hl].
Qed.

Lemma Claim_app tr log log' p : Claim tr log p -> Claim tr (log ++ log') p.
Proof using. apply Claim_mono; [done|]. intros x Hx. apply elem_of_app. by left. Qed.

Lemma Claim_start tr log : Claim tr log (-1).
Proof using. split; [unfold int64, minInt64, maxInt64; lia|constructor]. Qed.

Lemma Claim_page tr log r m j start pos : rJoin r = Some m -> m !! room = Some j -> Claim tr log start -> int64 pos ->
  Exchanged tr start pos (jrTimeline j) -> Claim tr (log ++ [r]) pos.
Proof using.
  intros Hm Hj Hc H64 Hex. split; [done|]. eapply reached_page; try done; [by apply (Claim_app _ _ [r]), Hc|]. apply elem_of_app. right. by left.
Qed.

(** ** The rooms of the user *)

Definition InRoom (t : UserTimeLineRepo P) : Prop := exists J I L j, Loaded t user_ J I L /\ J !! room = Some j /\ 0 < j /\ I !! room = None /\ L !! room = None.

Lemma Loaded_ext t t' J I L : Loaded t user_ J I L -> joinReady t' = joinReady t -> inviteReady t' = inviteReady t -> leaveReady t' = leaveReady t ->
  joins t' = joins t -> invites t' = invites t -> leaves t' = leaves t -> Loaded t' user_ J I L.
Proof using. intros [Hr Hj Hi Hl] E1 E2 E3 E4 E5 E6. split; congruence || by rewrite E1, E2, E3. Qed.

Lemma newOffset_ok t r off : InRoom t -> exists t', UpdateRoomOffset r off t = (Ok (), t') /\ InRoom t' /\ userReady t' = userReady t.
Proof using.
  intros (J & I & L & j & HL & Hr). unfold UpdateRoomOffset, putRepo. eexists. split; [done|]. split.
  - exists J, I, L, j. split; [|done]. eapply Loaded_ext; [exact HL|..]; by repeat case_match.
  - by repeat case_match.
Qed.

Lemma move_ok t r (j i l : option Z) J I L : Loaded t user_ J I L ->
  exists t', moveRoom true user_ r (Int64Offset <$> j) i l t = (Ok (), t') /\ userReady t' = userReady t /\
    Loaded t' user_ (partial_alter (fun _ => j) r J) (partial_alter (fun _ => i) r I) (partial_alter (fun _ => l) r L).
Proof using.
  intros [Hr Hj Hi Hl]. eexists. split; [done|]. split; [done|]. split; [done|..]; cbn.
  - rewrite lookup_insert_eq, Hj. cbn. f_equal. apply map_eq. intros k. destruct (decide (k = r)) as [->|Hk].
    + by rewrite lookup_partial_alter_eq, lookup_fmap, lookup_partial_alter_eq.
    + by rewrite lookup_partial_alter_ne, !lookup_fmap, lookup_partial_alter_ne.
  - by rewrite lookup_insert_eq, Hi.
  - by rewrite lookup_insert_eq, Hl.
Qed.

Lemma newMember_ok t ev off : InRoom t -> is_Some (ceStateKey ev) ->
  (ceRoomID ev = room -> ceStateKey ev = Some user_ -> membershipOf (ceContent ev) = "join" /\ 0 < off) ->
  exists t', AddP2PEv ev off user_ t = (Ok (), t') /\ InRoom t' /\ userReady t' = userReady t.
Proof using.
  intros (J & I & L & j & HL & Hj & Hpos & Hi & Hl) [key Hkey] Hstay. unfold AddP2PEv.
  assert (Hsame : InRoom t) by (by exists J, I, L, j). destruct (String.eqb (ceType ev) "m.room.member"); [|by exists t].
  unfold stateKeyOf. rewrite Hkey. unfold mbind, ST_bind. cbn [liftR].
  rewrite (attempt_ok _ _ _ _ (getJoins _ _ _ _ _ HL)), (attempt_ok _ _ _ _ (getInvites _ _ _ _ _ HL)).
  unfold mret at 1, ST_ret at 1. cbv iota beta. rewrite (attempt_ok _ _ _ _ (getLeaves _ _ _ _ _ HL)). unfold mret at 1, ST_ret at 1. cbv iota beta zeta.
  destruct (String.eqb_spec user_ key) as [Eu|Hne]; cbn [negb]; [|by exists t].
  assert (Hmove : forall oj oi ol, (ceRoomID ev = room -> (exists j', oj = Some j' /\ 0 < j') /\ oi = None /\ ol = None) ->
    exists t', moveRoom true user_ (ceRoomID ev) (Int64Offset <$> oj) oi ol t = (Ok (), t') /\ InRoom t' /\ userReady t' = userReady t).
  { intros oj oi ol Ho. destruct (move_ok t (ceRoomID ev) oj oi ol J I L HL) as (t' & E & Hu & HL'). exists t'. split_and!; [done| |done].
    destruct (decide (ceRoomID ev = room)) as [Er|Er].
    - destruct (Ho Er) as ((j' & -> & Hj') & -> & ->). rewrite Er in *. eexists _, _, _, j'. split; [exact HL'|]. by rewrite !lookup_partial_alter_eq.
    - eexists _, _, _, j. split; [exact HL'|]. by rewrite !lookup_partial_alter_ne by done. }
  assert (Hjoin : ceRoomID ev = room -> membershipOf (ceContent ev) = "join" /\ 0 < off) by (intros Er; apply Hstay; congruence).
  destruct (String.eqb_spec (membershipOf (ceContent ev)) "join") as [Em|Hm].
  - apply (Hmove (Some off) None None). intros Er. destruct (Hjoin Er). split; [by exists off|done].
  - assert (Hno : ceRoomID ev <> room) by (intros Er; by destruct (Hjoin Er)).
    destruct (_ || _); [by apply (Hmove None None (Some off))|]. destruct (String.eqb _ "invite"); [by apply (Hmove None (Some off) None)|by exists t].
Qed.

(** ** Invariant *)

Definition trueTokens (s : SyncManager P R Asking) (log : list SyncReply) : Prop := forall p, stored user_ (dID dev) (redis s) room p -> Claim (trace s) log p.

(** The positions of a request are true, and it asks for the room from there. *)
Record GoodRequest tr log q : Prop := {
  g_device : device q = dev;
  g_offsets : forall p, offsets q !! room = Some p -> Claim tr log p;
  g_room : forall rr, reqRooms q !! room = Some rr -> rrState rr = "join" /\ rrStart rr = default (-1) (offsets q !! room);
  g_max : maxOffsets q = ∅;
}.

Record GoodManager (s : SyncManager P R Asking) (log : list SyncReply) : Prop := {
  m_room : InRoom (userTimeLine s);
  m_ready : user_ ∈ userReady (userTimeLine s);
  m_tokens : trueTokens s log;
}.

Definition Good (w : World) : Prop := GoodManager (mng w) (sent w) /\ forall q, pending w = Some q -> GoodRequest (trace (mng w)) (sent w) q.

(** A call that only touches Redis, without adding to the tokens of the device, and
    asks the servers. *)
Definition harmless (s s' : SyncManager P R Asking) : Prop := userTimeLine s' = userTimeLine s /\ trace s' = trace s /\ fewer user_ (dID dev) (redis s) (redis s').

Lemma harmless_refl s : harmless s s.
Proof using. split_and!; [done..|apply fewer_refl]. Qed.
Lemma harmless_trans s1 s2 s3 : harmless s1 s2 -> harmless s2 s3 -> harmless s1 s3.
Proof using. intros (E1 & E2 & F1) (E3 & E4 & F2). split_and!; [congruence..|by eapply fewer_trans]. Qed.

Lemma harmless_good s s' log : harmless s s' -> GoodManager s log -> GoodManager s' log.
Proof using.
  intros (E1 & E2 & Hf) [Hr Hu Ht]. split; [by rewrite E1|by rewrite E1|]. intros p Hst. rewrite E2. apply Ht. by eapply fewer_stored.
Qed.

Lemma onRedis_quiet {A} (m : ST R A) s : quiet user_ (dID dev) m (redis s) -> exists r s', onRedis m s = (r, s') /\ settled r /\ harmless s s' /\ m (redis s) = (r, redis s').
Proof using. intros (r & r' & E & Hr & Hf). unfold onRedis. rewrite E. eexists _, _. split_and!; done. Qed.

Lemma attempt_settled {S A} (m : ST S A) x r x' : m x = (r, x') -> settled r ->
  exists o, RoomQuery.attempt m x = (Ok o, x') /\ match o with inl a => r = Ok a | inr e => r = Err e end.
Proof using. unfold RoomQuery.attempt. intros -> Hr. destruct r as [a|e| |]; try done; [by exists (inl a)|by exists (inr e)]. Qed.

(** ** Beginning a request *)

Context (total : SyncServerTotal cfg <> 0) (human : dIsHuman dev = true) (nofilter : useMessageFilter cfg = false).

Lemma requestMap_ok q : exists m, requestMap cfg q = Ok m.
Proof using total. unfold requestMap. destruct (Z.eqb_spec (SyncServerTotal cfg) 0); [done|]. cbn. eauto. Qed.

Lemma sendLoads_ok q reqs : forall s, exists b s', sendLoads q reqs s = (Ok b, s') /\ harmless s s'.
Proof using sane.
  induction reqs as [|[i r] reqs IH]; intros s; [exists true, s; split; [done|apply harmless_refl]|]. cbn [sendLoads]. unfold mbind, ST_bind.
  pose proof (load_settles i (fillIn q 0 r) (servers s).1) as Hset. destruct (askLoad (Servers := base) i (fillIn q 0 r) (servers s).1) as [a e'] eqn:Ea.
  set (s1 := mkManager (userTimeLine s) (redis s) (e', (servers s).2) (ids s)).
  destruct (attempt_settled (onServers (askLoad i (fillIn q 0 r))) s a s1) as (o & -> & _); [unfold onServers; cbn; by rewrite Ea|done|].
  destruct (IH s1) as (b & s' & -> & Hs). eexists _, s'. split; [done|]. eapply harmless_trans; [|exact Hs].
  split_and!; [done|done|apply fewer_refl].
Qed.

(** The parts of a request that matter here. *)
Definition sameAsk q q' : Prop := device q' = device q /\ offsets q' = offsets q /\ reqRooms q' = reqRooms q /\ maxOffsets q' = maxOffsets q.

Lemma good_sameAsk tr log q q' : sameAsk q q' -> GoodRequest tr log q -> GoodRequest tr log q'.
Proof using. intros (E1 & E2 & E3 & E4) [Hd Ho Hr Hm]. split; [congruence|by rewrite E2|by rewrite E2, E3|congruence]. Qed.

Lemma buildLoad_ok q s : exists q' s', buildLoadRequest cfg q s = (Ok q', s') /\ harmless s s' /\ sameAsk q q'.
Proof using sane total.
  unfold buildLoadRequest, mbind, ST_bind. destruct (requestMap_ok q) as [m Em]. rewrite Em. cbn [liftR].
  destruct (sendLoads_ok q (schedule m) s) as (b & s' & -> & Hs). by eexists _, s'.
Qed.

(** What is asked for in the room of a user who is in it. *)
Lemma wanted_room t J I L j tok : J !! room = Some j -> 0 < j -> I !! room = None -> L !! room = None ->
  forall rr, wantedRoom t J I L tok room = Some rr -> rrState rr = "join" /\ rrStart rr = default (-1) (tok !! room).
Proof using. clear total human nofilter. intros Ej Hj Ei El rr. unfold wantedRoom. rewrite Ej, Ei, El. unfold selJoin. repeat case_match; intros; by simplify_eq. Qed.

(** A request that has not asked yet. *)
Definition fresh q : Prop := device q = dev /\ reqRooms q = ∅ /\ offsets q = ∅ /\ maxOffsets q = ∅.

Lemma fresh_good tr log q : fresh q -> GoodRequest tr log q.
Proof using. intros (Hd & Hr & Ho & Hm). split; [done| | |done]; [intros p; by rewrite Ho|intros rr; by rewrite Hr]. Qed.

(** The two ways to list the rooms. *)
Lemma incremental_ok s log q tok : GoodManager s log -> fresh q -> (forall p, tok !! room = Some p -> Claim (trace s) log p) ->
  exists q', buildIncreamSyncRequset (set_offsets q tok) s = (Ok q', s) /\ isFull q' = isFull q /\ GoodRequest (trace s) log q'.
Proof using.
  intros [(J & I & L & j & HL & Hj & Hpos & Hi & Hl) _ _] (Hd & Hr & Ho & Hm) Htok.
  destruct (build_rooms s user_ J I L (set_offsets q tok) HL) as (q' & E & Hs & Hrooms); [cbn; by rewrite Hd|done|].
  exists q'. apply sameReq_fields in Hs as (Ed & Eo & _ & Ef & _ & Emx & _). split_and!; [done|by rewrite Ef|]. split.
  - rewrite Ed. exact Hd.
  - rewrite Eo. exact Htok.
  - intros rr. rewrite Hrooms, Eo. by eapply wanted_room.
  - rewrite Emx. exact Hm.
Qed.

Lemma full_ok s log q : GoodManager s log -> fresh q -> exists q', buildFullSyncRequest q s = (Ok q', s) /\ GoodRequest (trace s) log q'.
Proof using human.
  clear total nofilter.
  intros [(J & I & L & j & HL & Hj & Hpos & Hi & Hl) _ _] (Hd & Hr & Ho & Hm).
  destruct (full_rooms s user_ J I L q HL) as (q' & E & Hs & Hrooms); [by rewrite Hd|by rewrite Hd|done|].
  exists q'. apply sameReq_fields in Hs as (Ed & Eo & _ & _ & _ & Emx & _). split; [done|]. split.
  - rewrite Ed. exact Hd.
  - intros p. rewrite Eo. cbn. by rewrite Ho.
  - intros rr. rewrite Hrooms, Hi, Hj, Eo. cbn [offsets set_full]. rewrite Ho, lookup_empty. unfold selFullJoin. case_match; intros; by simplify_eq.
  - rewrite Emx. exact Hm.
Qed.

Lemma good_claims s s' log p : harmless s s' -> Claim (trace s) log p -> Claim (trace s') log p.
Proof using. by intros (_ & -> & _). Qed.

Lemma call_ok s log q : GoodManager s log -> fresh q -> isFull q = false -> exists q' s', callSyncLoad cfg q s = (Ok q', s') /\ harmless s s' /\ GoodRequest (trace s) log q'.
Proof using sane total human.
  intros Hg Hq Hnf. assert (Hdone : forall q1 s1, GoodRequest (trace s) log q1 -> harmless s s1 ->
     exists q' s', buildLoadRequest cfg q1 s1 = (Ok q', s') /\ harmless s s' /\ GoodRequest (trace s) log q').
  { intros q1 s1 Hq1 Hs1. destruct (buildLoad_ok q1 s1) as (q' & s' & Eq & Hs & Hask). exists q', s'. split_and!; [done|by eapply harmless_trans|by eapply good_sameAsk]. }
  assert (Hfull : forall q1 s1, fresh q1 -> isFull q1 = true -> harmless s s1 -> exists q' s',
     (b ← RoomQuery.attempt (buildFullSyncRequest q1); match b with inl q => buildLoadRequest cfg q | inr _ => mret (set_remote q1 false true) end) s1 = (Ok q', s') /\
       harmless s s' /\ GoodRequest (trace s) log q').
  { intros q1 s1 Hq1 _ Hs1. pose proof Hs1 as (_ & Eh & _). destruct (full_ok s1 log q1) as (q2 & E2 & G2); [by eapply harmless_good|done|].
    unfold mbind, ST_bind. rewrite (attempt_ok _ _ _ _ E2). apply Hdone; [|done]. by rewrite <- Eh. }
  unfold callSyncLoad. unfold mbind at 1, ST_bind at 1. destruct (utlRecv q =? 0) eqn:E0.
  - unfold mret at 1, ST_ret at 1. cbv iota beta. cbn [isFull set_full]. apply Hfull; [exact Hq|done|apply harmless_refl].
  - unfold mbind at 1, ST_bind at 1. destruct (onRedis_quiet (LoadToken (cacheCfg cfg) (dUserID (device q)) (dID (device q)) (utlRecv q)) s) as (r & s1 & E1 & Hset & Hs1 & Er).
    { rewrite (proj1 Hq). apply quiet_LoadToken. }
    destruct (attempt_settled _ _ _ _ E1 Hset) as (o & -> & Ho). destruct o as [[cur [tok|]]|e].
    + subst r. set (q1 := if utlRecv q =? cur then q else set_utlRecv q cur). assert (Hq1 : fresh q1) by (unfold q1; destruct (utlRecv q =? cur); exact Hq).
      pose proof (harmless_good _ _ _ Hs1 Hg) as Hg1. pose proof Hs1 as (_ & Eh & _).
      destruct (incremental_ok s1 log q1 tok Hg1 Hq1) as (q2 & E2 & Ef & G2).
      { intros p Hp. rewrite Eh. apply (m_tokens _ _ Hg). rewrite (proj1 Hq) in Er. by eapply LoadToken_stored. }
      unfold mbind at 1, ST_bind at 1. rewrite (attempt_ok _ _ _ _ E2). unfold mret at 1, ST_ret at 1. cbv iota beta.
      assert (Eq2 : isFull q2 = isFull q) by (rewrite Ef; unfold q1; by destruct (utlRecv q =? cur)).
      rewrite Eq2, Hnf. apply Hdone; [by rewrite <- Eh|done].
    + unfold mret at 1, ST_ret at 1. cbv iota beta. cbn [isFull set_full].
      apply Hfull; [|done|done]. destruct (utlRecv q =? cur); exact Hq.
    + unfold mret at 1, ST_ret at 1. cbv iota beta. exists (set_remote q false true), s1. split_and!; [done..|]. by apply fresh_good.
Qed.

Lemma begin_ok s log req now last loaded oms : GoodManager s log -> initMarks (if String.eqb (hFrom req) "" then hSince req else hFrom req) = Ok oms ->
  exists q s', begin_ cfg req dev now last loaded s = (Ok q, s') /\ harmless s s' /\ GoodRequest (trace s) log q.
Proof using sane total human.
  intros Hg Hinit. unfold begin_, mbind at 1, ST_bind at 1. unfold buildRequest. rewrite Hinit. cbn [mbind res_bind liftR].
  set (q0 := mkReq _ _ _ _ _ _ _ _ _ _ _ _ _ _ _ _ _ _). assert (Hq0 : fresh q0) by done.
  unfold processSyncLoad. change (device q0) with dev. rewrite human. unfold mbind at 1, ST_bind at 1.
  assert (El : LoadHistory (dUserID dev) true (userTimeLine s) = (Ok (), userTimeLine s)).
  { unfold LoadHistory, mbind, ST_bind, getRepo, CheckUserLoadingReady. rewrite bool_decide_true by exact (m_ready _ _ Hg). done. }
  rewrite (onTimeLine_ok _ _ _ El). unfold mbind at 1, ST_bind at 1. rewrite (onTimeLine_ok getRepo s (userTimeLine s)) by done.
  unfold CheckUserLoadingReady. rewrite bool_decide_true by exact (m_ready _ _ Hg). cbn [negb]. rewrite andb_false_r.
  destruct (call_ok s log q0 Hg Hq0 eq_refl) as (q & s' & Ec & Hs & Gq). unfold mbind, ST_bind. rewrite Ec. eexists _, s'. split_and!; [done..|].
  eapply good_sameAsk; [|exact Gq]. done.
Qed.

(** ** Waiting *)

Lemma wait_ok start (tn : Turn) s log q : GoodManager s log -> GoodRequest (trace s) log q ->
  exists x s', wait cfg start tn q s = (Ok x, s') /\ harmless s s' /\ GoodRequest (trace s) log x.2.
Proof using.
  clear total human nofilter. intros Hg Hq. unfold wait. destruct (checkNoWait q); [eexists (_, _), s; by split_and!; [done|apply harmless_refl|]|].
  destruct (latest q <? tNow tn); [eexists (_, _), s; by split_and!; [done|apply harmless_refl|]|].
  unfold ExistsUserEventUpdate. rewrite (g_device _ _ _ Hq). unfold mbind at 1 2 3, ST_bind at 1 2 3.
  destruct (onRedis_quiet (LoadToken (cacheCfg cfg) (dUserID dev) (dID dev) (utlRecv q)) s (quiet_LoadToken _ _ _ _ _)) as (r & s1 & E1 & Hset & Hs1 & _).
  destruct (attempt_settled _ _ _ _ E1 Hset) as (o & -> & Ho). pose proof (harmless_good _ _ _ Hs1 Hg) as Hg1.
  assert (Hend : forall cur, GoodRequest (trace s) log (if cur =? utlRecv q then q else set_utlRecv q cur)).
  { intros cur. destruct (cur =? utlRecv q); [done|]. by eapply good_sameAsk; [|exact Hq]. }
  assert (Er : forall s2, onTimeLine getRepo s2 = (Ok (userTimeLine s2), s2)) by (intros [? ? ? ?]; done).
  destruct o as [[cur [tok|]]|e].
  - destruct (m_room _ _ Hg1) as (J & I & L & j & HL & _). unfold mbind, ST_bind.
    rewrite (onTimeLine_ok _ _ _ (eventUpdate_of _ _ _ _ _ tok HL)). unfold mret, ST_ret. rewrite Er. eexists (_, _), s1. split_and!; [reflexivity|done|apply Hend].
  - unfold mret, ST_ret. rewrite Er. eexists (_, _), s1. split_and!; [reflexivity|done|apply Hend].
  - unfold mret, ST_ret. rewrite Er. eexists (_, _), s1. split_and!; [reflexivity|done|apply Hend].
Qed.

(** ** The requests to the servers *)

(** The room is asked for at its server only, and as the request has it. *)
Record OkReq (q : ClientRequest) (i : Z) (r : SyncServerRequest) : Prop := {
  o_join : forall x, x ∈ JoinRooms r -> isRoom x -> i = GetSyncInstance cfg room /\ srmStart x = default (-1) (offsets q !! room);
  o_other : forall x, x ∈ (InviteRooms r ++ LeaveRooms r)%list -> ~ isRoom x;
  o_joined : room ∈ rqJoinedRooms r -> i = GetSyncInstance cfg room;
}.

Definition okMap q (m : gmap Z SyncServerRequest) : Prop := forall i r, m !! i = Some r -> OkReq q i r.

Lemma ok_empty q i : OkReq q i emptyRequest.
Proof using. clear. split; cbn; [intros x Hx; by apply not_elem_of_nil in Hx..|intros Hx; by apply not_elem_of_nil in Hx]. Qed.

Lemma ok_addRoom q i k rr r : (k = room -> i = GetSyncInstance cfg room /\ rrState rr = "join" /\ rrStart rr = default (-1) (offsets q !! room)) ->
  OkReq q i r -> OkReq q i (addReqRoom k rr r).
Proof using.
  clear total human nofilter. intros Hk [Hj Ho Hjd]. unfold addReqRoom.
  assert (Hx : forall a b, k = room -> srmStart (mkSyncRoom k a b) = a) by done.
  destruct (String.eqb_spec (rrState rr) "invite") as [Ei|Ei]; [|destruct (String.eqb_spec (rrState rr) "join") as [Ej|Ej]; [|destruct (String.eqb_spec (rrState rr) "leave") as [El|El]]]; split; cbn; try done.
  - intros x Hin Hr. rewrite <- app_assoc in Hin. apply elem_of_app in Hin as [Hin|Hin]; [apply (Ho x); [apply elem_of_app; by left|done]|].
    apply elem_of_app in Hin as [Hin|Hin]; [|apply (Ho x); [apply elem_of_app; by right|done]].
    apply list_elem_of_singleton in Hin as ->. destruct (Hk Hr) as (_ & E1 & _). congruence.
  - intros x [Hin|Hin%list_elem_of_singleton]%elem_of_app Hr; [by apply Hj|]. subst x. destruct (Hk Hr) as (E1 & _ & E2). done.
  - intros x Hin Hr. rewrite app_assoc in Hin. apply elem_of_app in Hin as [Hin|Hin%list_elem_of_singleton]; [by apply (Ho x)|]. subst x.
    destruct (Hk Hr) as (_ & E1 & _). congruence.
Qed.

Lemma ok_addJoined q i k r : (k = room -> i = GetSyncInstance cfg room) -> OkReq q i r -> OkReq q i (addJoinedRoom k r).
Proof using.
  clear total human nofilter. intros Hk [Hj Ho Hjd]. split; cbn; [done..|]. intros [Hin|Hin%list_elem_of_singleton]%elem_of_app; [by apply Hjd|]. by apply Hk.
Qed.

Lemma ok_toInstance q k f m : (forall r, OkReq q (GetSyncInstance cfg k) r -> OkReq q (GetSyncInstance cfg k) (f r)) -> okMap q m -> okMap q (toInstance cfg k f m).
Proof using.
  clear total human nofilter. intros Hf Hm i r. unfold toInstance. intros [[<- <-]|[_ Hr]]%lookup_insert_Some; [|by apply Hm]. apply Hf.
  destruct (m !! GetSyncInstance cfg k) eqn:Er; [by apply Hm|apply ok_empty].
Qed.

Lemma requestMap_good tr log q m : GoodRequest tr log q -> requestMap cfg q = Ok m -> okMap q m.
Proof using.
  clear total human nofilter. intros Hq. unfold requestMap. case_match; [done|]. intros [= <-].
  assert (Hrooms : okMap q (fold_left (fun m kv => toInstance cfg kv.1 (addReqRoom kv.1 kv.2) m) (range (reqRooms q)) ∅)).
  { assert (Hl : forall kv, kv ∈ range (reqRooms q) -> reqRooms q !! kv.1 = Some kv.2) by (intros [k v]; apply range_elem).
    generalize (range (reqRooms q)), Hl. assert (He : okMap q ∅) by (intros i r; by rewrite lookup_empty). revert He. generalize (∅ : gmap Z SyncServerRequest).
    intros m0 Hm0 l. revert m0 Hm0. induction l as [|[k rr] l IH]; intros m0 Hm0 Hkv; cbn [fold_left]; [done|].
    apply IH; [|intros kv Hin; apply Hkv; by right]. apply ok_toInstance; [|done]. intros r Hr. apply ok_addRoom; [|done]. cbn. intros ->.
    split; [done|]. apply (g_room _ _ _ Hq). apply (Hkv (room, rr)). by left. }
  revert Hrooms. generalize (fold_left (fun m kv => toInstance cfg kv.1 (addReqRoom kv.1 kv.2) m) (range (reqRooms q)) ∅).
  generalize (joined q). intros l. induction l as [|k l IH]; intros m0 Hm0; cbn [fold_left]; [done|]. apply IH. apply ok_toInstance; [|done].
  intros r Hr. apply ok_addJoined; [by intros ->|done].
Qed.

(** ** The answers of the servers *)

Definition full (r : SyncReply) : Prop := is_Some (rJoin r) /\ is_Some (rInvite r) /\ is_Some (rLeave r).

Definition kept q q' : Prop := device q' = device q /\ offsets q' = offsets q /\ received (marks q') = received (marks q) /\ isFull q' = isFull q.

Lemma kept_trans q1 q2 q3 : kept q1 q2 -> kept q2 q3 -> kept q1 q3.
Proof using. clear. intros (E1 & E2 & E3 & E4) (F1 & F2 & F3 & F4). split_and!; congruence. Qed.

Lemma addSyncData_ok q r data : full r -> exists q' r' m, addSyncData q r data = Ok (q', r') /\ full r' /\ kept q q' /\
  maxOffsets q' = MaxRoomOffset data ∪ maxOffsets q /\ rJoin r = Some m /\ rJoin r' = Some (Join data ∪ m).
Proof using.
  clear. intros ([mj Ej] & [mi Ei] & [ml El]). unfold addSyncData. rewrite Ej, Ei, El. cbn [storeAll mbind res_bind].
  destruct (utlRecv q =? 0); cbn [mbind res_bind]; destruct (_ && _); eexists _, _, mj; split_and!; try done; by split_and!.
Qed.

(** What the answers say of the room. *)
Definition Sent tr q (r : SyncReply) : Prop := forall pos, maxOffsets q !! room = Some pos -> int64 pos /\
  exists m j, rJoin r = Some m /\ m !! room = Some j /\ Exchanged tr (default (-1) (offsets q !! room)) pos (jrTimeline j).

Lemma ok_fillIn q q' n i r : OkReq q i r -> OkReq q i (fillIn q' n r).
Proof using. clear. by intros [Hj Ho Hjd]. Qed.

Lemma ok_kept q q' i r : kept q q' -> OkReq q i r -> OkReq q' i r.
Proof using. clear. intros (_ & Eo & _) [Hj Ho Hjd]. split; [by rewrite Eo|done..]. Qed.

(** The answer of the server of the room, or of another one. *)
Lemma answer_sent tr q r i sr data q' r' : full r -> OkReq q i sr -> Sane sr data -> (i, sr, data) ∈ tr -> rqUserID sr = user_ ->
  addSyncData q r data = Ok (q', r') ->
  (i = GetSyncInstance cfg room -> maxOffsets q !! room = None) -> Sent tr q r -> Sent tr q' r' /\
  (i <> GetSyncInstance cfg room -> maxOffsets q' !! room = maxOffsets q !! room).
Proof using.
  clear total human nofilter. intros Hf Hok [H64 Hjoin Hoth] Htr Hu Eadd Hnone Hsent.
  destruct (addSyncData_ok q r data Hf) as (q1 & r1 & m & E1 & _ & (_ & Eo & _) & Emax & Em & Ej).
  rewrite Eadd in E1. injection E1 as <- <-. destruct (MaxRoomOffset data !! room) as [p|] eqn:Ep.
  - destruct (Hjoin p) as (x & j & Hx & Hr & Hj); [intros x; apply (o_other _ _ _ Hok)|done|]. destruct (o_join _ _ _ Hok x Hx Hr) as [Ei Es]. split; [|done].
    intros p'. rewrite Emax, (lookup_union_Some_l _ _ _ _ Ep). intros [= <-]. split; [by apply H64|]. exists (Join data ∪ m), j.
    split_and!; [done|by apply lookup_union_Some_l|]. rewrite Eo, <- Es. by exists i, sr, data, x, j.
  - assert (Emx : maxOffsets q' !! room = maxOffsets q !! room) by (rewrite Emax; by rewrite lookup_union_r). split; [|done].
    intros pos. rewrite Emx. intros Hpos. destruct (Hsent pos Hpos) as (Hp64 & m' & j & Em' & Hj & Hex). split; [done|].
    rewrite Em in Em'. injection Em' as <-. exists (Join data ∪ m), j. split_and!; [done| |by rewrite Eo]. rewrite lookup_union_r; [done|].
    assert (Hno : i <> GetSyncInstance cfg room) by (intros Ei; specialize (Hnone Ei); congruence). apply Hoth.
    + intros x [Hx|Hx]%elem_of_app Hr; [by destruct (o_join _ _ _ Hok x Hx Hr)|by apply (o_other _ _ _ Hok x)].
    + intros Hin. by apply (o_joined _ _ _ Hok) in Hin.
Qed.

Lemma Sent_mono tr tr' q r : tr ⊆ tr' -> Sent tr q r -> Sent tr' q r.
Proof using. clear. intros Ht Hs pos Hpos. destruct (Hs pos Hpos) as (H64 & m & j & Em & Ej & Hex). split; [done|]. exists m, j. split_and!; [done..|]. by eapply Exchanged_mono. Qed.

(** A call that asks the servers and touches nothing else. *)
Definition asked s s' : Prop := userTimeLine s' = userTimeLine s /\ redis s' = redis s /\ trace s ⊆ trace s'.

Lemma asked_trans s1 s2 s3 : asked s1 s2 -> asked s2 s3 -> asked s1 s3.
Proof using. clear. intros (E1 & E2 & F1) (E3 & E4 & F2). split_and!; [congruence..|]. intros x Hx. by apply F2, F1. Qed.

(** All the answers together. *)
Lemma sendSyncs_ok n reqs : forall q r s, full r -> dUserID (device q) = user_ -> NoDup (map fst reqs) -> (forall i sr, (i, sr) ∈ reqs -> OkReq q i sr) ->
  (GetSyncInstance cfg room ∈ map fst reqs -> maxOffsets q !! room = None) -> Sent (trace s) q r ->
  exists b q' r' s', sendSyncs n q r reqs s = (Ok (b, (q', r')), s') /\ asked s s' /\ full r' /\ kept q q' /\ Sent (trace s') q' r'.
Proof using sane.
  clear total human nofilter. induction reqs as [|[i sr] reqs IH]; intros q r s Hf Hu Hnd Hok Hnone Hsent.
  { exists true, q, r, s. conjs; try done. }
  cbn [map fst] in Hnd. apply NoDup_cons in Hnd as [Hi Hnd]. cbn [sendSyncs]. unfold mbind at 1, ST_bind at 1.
  pose proof (sync_settles i (fillIn q n sr) (servers s).1) as Hset. pose proof (sync_sane i (fillIn q n sr) (servers s).1) as Hsane.
  destruct (askSync (Servers := base) i (fillIn q n sr) (servers s).1) as [a e'] eqn:Ea. cbn [fst] in *.
  set (s1 := mkManager (userTimeLine s) (redis s) (e', match a with Ok resp => ((servers s).2 ++ [(i, fillIn q n sr, resp)])%list | _ => (servers s).2 end) (ids s)).
  destruct (attempt_settled (onServers (askSync i (fillIn q n sr))) s a s1) as (o & -> & Ho); [unfold onServers; cbn; by rewrite Ea|done|].
  assert (Hs1 : asked s s1) by (split_and!; [done..|]; intros x Hx; unfold trace, s1; cbn; destruct a; [apply elem_of_app; by left|done..]).
  assert (Hskip : exists b q' r' s', sendSyncs n q r reqs s1 = (Ok (b, (q', r')), s') /\ asked s s' /\ full r' /\ kept q q' /\ Sent (trace s') q' r').
  { destruct (IH q r s1) as (b & q' & r' & s' & Er & Hs' & Hrest); try done;
      [intros ? ? Hin; apply Hok; by right|intros Hin; apply Hnone; by right|eapply Sent_mono; [apply Hs1|done]|].
    exists b, q', r', s'. conjs; try done; [by eapply asked_trans|by destruct Hrest as (? & ? & ?)..]. }
  destruct o as [data|e]; [destruct (AllLoaded data) eqn:El|].
  - destruct (addSyncData_ok q r data Hf) as (q1 & r1 & m & E1 & Hf1 & Hk & _). unfold mbind, ST_bind. rewrite E1. cbn [liftR fst snd].
    assert (Hokd : OkReq q i (fillIn q n sr)) by (apply ok_fillIn, Hok; by left).
    destruct (answer_sent (trace s1) q r i (fillIn q n sr) data q1 r1 Hf Hokd) as [Hs2 Hoth]; [by apply Hsane| |done|done| | |].
    { unfold trace, s1. rewrite Ho. cbn. apply elem_of_app. right. by left. }
    { intros Ei. apply Hnone. rewrite <- Ei. by left. }
    { eapply Sent_mono; [apply Hs1|done]. }
    destruct (IH q1 r1 s1) as (b & q' & r' & s' & Er & Hs' & Hf' & Hk' & Hsent'); [done|by rewrite (proj1 Hk)|done| | |done|].
    + intros i' sr' Hin. eapply ok_kept; [exact Hk|]. apply Hok. by right.
    + intros Hin. rewrite Hoth; [apply Hnone; by right|]. intros ->. by apply Hi.
    + exists b, q', r', s'. conjs; [done|by eapply asked_trans|done|by eapply kept_trans|done].
  - destruct Hskip as (b & q' & r' & s' & Er & Hrest). unfold mbind, ST_bind. rewrite Er. by exists false, q', r', s'.
  - destruct Hskip as (b & q' & r' & s' & Er & Hrest). unfold mbind, ST_bind. rewrite Er. by exists false, q', r', s'.
Qed.

(** ** Answering *)

Lemma rebuilt_ok s log q : GoodManager s log -> GoodRequest (trace s) log q ->
  exists q', reBuildIncreamSyncReqRoom q s = (Ok q', s) /\ GoodRequest (trace s) log q'.
Proof using.
  clear total human nofilter. intros [(J & I & L & j & HL & Hj & Hpos & Hi & Hl) _ _] [Hd Ho Hr Hm].
  destruct (rebuild_rooms s user_ J I L q HL) as (q' & Er & Hs & Hrooms); [by rewrite Hd|].
  exists q'. apply sameReq_fields in Hs as (Ed & Eo & _ & _ & _ & Emx & _). split; [done|]. split; [congruence|by rewrite Eo| |congruence].
  intros rr. rewrite Hrooms, Eo. by eapply wanted_room.
Qed.

Lemma tokens_app s log r : trueTokens s log -> trueTokens s (log ++ [r]).
Proof using. clear. intros Ht p Hp. by apply Claim_app, Ht. Qed.

(** Tokens after a reply: every new position is true. *)
Lemma update_ok s log r n now m : GoodManager s log ->
  (forall z, m !! room = Some z -> Claim (trace s) (log ++ [r]) z) ->
  exists x s', RoomQuery.attempt (onRedis (UpdateToken (cacheCfg cfg) (dUserID dev) (dID dev) n now m)) s = (Ok x, s') /\
    userTimeLine s' = userTimeLine s /\ trace s' = trace s /\
    match x with inl _ => trueTokens s' (log ++ [r]) | inr _ => forall r', trueTokens s' (log ++ [r']) end.
Proof using.
  clear total human nofilter. intros Hg Hm. destruct (UpdateToken_stored (cacheCfg cfg) (dUserID dev) (dID dev) n now m (redis s)) as (x & r' & Eu & Hset & Herr & Hst).
  destruct (attempt_settled (onRedis (UpdateToken (cacheCfg cfg) (dUserID dev) (dID dev) n now m)) s x (mkManager (userTimeLine s) r' (servers s) (ids s))) as (o & Eo & Ho);
    [unfold onRedis; by rewrite Eu|done|]. exists o, (mkManager (userTimeLine s) r' (servers s) (ids s)). conjs; [done..|].
  destruct o as [[]|e].
  - intros p Hp. destruct (Hst room p Hp) as [Hold|(z & Hz & ->)]; [by apply Claim_app, (m_tokens _ _ Hg)|].
    specialize (Hm z Hz). rewrite Atoi_pretty by apply Hm. exact Hm.
  - intros r2. apply tokens_app. intros p Hp. apply (m_tokens _ _ Hg). by eapply fewer_stored; [apply (Herr e)|].
Qed.

Lemma nextId_ok s : exists n s', nextUtl s = (Ok n, s') /\ userTimeLine s' = userTimeLine s /\ trace s' = trace s /\ redis s' = redis s.
Proof using. clear. by eexists _, _. Qed.

Lemma good_same s s' log : userTimeLine s' = userTimeLine s -> trace s' = trace s -> redis s' = redis s -> GoodManager s log -> GoodManager s' log.
Proof using. intros E1 E2 E3. apply harmless_good. split; [done|]. split; [done|]. rewrite E3. apply fewer_refl. Qed.

Definition after s s' log (r : SyncReply) : Prop :=
  userTimeLine s' = userTimeLine s /\ trace s ⊆ trace s' /\ trueTokens s' (log ++ [r]).

Lemma asked_good s s' log : asked s s' -> GoodManager s log -> GoodManager s' log.
Proof using.
  clear total human nofilter. intros (E1 & E2 & Ht) [Hr Hu Htok]. split; [by rewrite E1|by rewrite E1|]. intros p Hst. rewrite E2 in Hst.
  by eapply Claim_mono; [exact Ht| |apply Htok].
Qed.

Lemma noData_ok s log r now q : GoodManager s log -> device q = dev -> exists q' s', updateFullSyncNotData cfg now q s = (Ok q', s') /\ after s s' log r.
Proof using.
  clear total human nofilter. intros Hg Hd. unfold updateFullSyncNotData, mbind, ST_bind. destruct (nextId_ok s) as (n & s1 & -> & E1 & E2 & E3).
  rewrite Hd. destruct (update_ok s1 log r n now {[ "!default:" ++ GetDomainByUserID (dUserID dev) := -1 ]}) as (x & s2 & -> & F1 & F2 & F3).
  - by eapply good_same.
  - intros z [_ <-]%lookup_singleton_Some. apply Claim_start.
  - eexists _, s2. split; [done|]. split; [congruence|]. split; [by rewrite F2, E2|]. destruct x; [done|apply F3].
Qed.

Lemma fresh_ok s log q r now : GoodManager s log -> device q = dev -> (forall p, offsets q !! room = Some p -> Claim (trace s) log p) ->
  Sent (trace s) q r -> exists q' r' s', freshToken cfg now q r s = (Ok (q', r'), s') /\ after s s' log r' /\ device q' = dev.
Proof using.
  clear total human nofilter. intros Hg Hd Ho Hsent. unfold freshToken. destruct (negb (hasNewEvent q)).
  - destruct (isFull q).
    + destruct (noData_ok s log r now q Hg Hd) as (q' & s' & Eq & Ha). unfold mbind, ST_bind. rewrite Eq. exists q', r, s'. conjs; [done..|].
      revert Eq. unfold updateFullSyncNotData, mbind, ST_bind. destruct (nextUtl s) as [[n| | |] s1]; try done. destruct (RoomQuery.attempt _ s1) as [[x| | |] s2]; try done. by intros [= <- _].
    + eexists _, r, s. split; [done|]. split; [|done]. split; [done|]. split; [done|]. apply tokens_app, (m_tokens _ _ Hg).
  - unfold mbind, ST_bind. destruct (nextId_ok s) as (n & s1 & -> & E1 & E2 & E3). rewrite Hd.
    destruct (update_ok s1 log r n now (maxOffsets q ∪ offsets q)) as (x & s2 & -> & F1 & F2 & F3).
    + by eapply good_same.
    + rewrite E2. intros z [Hz|[_ Hz]]%lookup_union_Some_raw; [|by apply Claim_app, Ho].
      destruct (Hsent z Hz) as (H64 & m & j & Em & Ej & Hex). eapply Claim_page; try done.
      destruct (offsets q !! room) as [p|] eqn:Ep; cbn; [by apply Ho|apply Claim_start].
    + destruct x as [u|e].
      * eexists _, r, s2. split; [done|]. split; [|done]. split; [congruence|]. split; [by rewrite F2, E2|done].
      * eexists _, _, s2. split; [done|]. split; [|done]. split; [congruence|]. split; [by rewrite F2, E2|apply F3].
Qed.

Lemma receipt_ok s log b : GoodManager s log -> exists n, onTimeLine (GetUserLatestReceiptOffset (dUserID dev) b) s = (Ok n, s).
Proof using.
  clear total human nofilter. intros Hg. eexists. apply onTimeLine_ok. unfold GetUserLatestReceiptOffset, mbind, ST_bind, getRepo, CheckUserLoadingReady.
  rewrite bool_decide_true by exact (m_ready _ _ Hg). done.
Qed.

Lemma buildData_ok s log q now : GoodManager s log -> GoodRequest (trace s) log q ->
  exists ok q' r s', buildSyncData cfg now q s = (Ok (ok, (q', r)), s') /\ device q' = dev /\
    if (ok : bool) then after s s' log r else after s s' log NewResponse.
Proof using sane total human.
  clear nofilter. intros Hg Hq. unfold buildSyncData. rewrite (g_device _ _ _ Hq), human. cbn [negb]. rewrite andb_false_r. unfold mbind at 1, ST_bind at 1.
  assert (Hq1 : exists q1, (if isFullSync q then mret q else reBuildIncreamSyncReqRoom q) s = (Ok q1, s) /\ GoodRequest (trace s) log q1).
  { destruct (isFullSync q); [by exists q|by apply rebuilt_ok]. }
  destruct Hq1 as (q1 & -> & Hq1). rewrite (g_device _ _ _ Hq1). destruct (receipt_ok s log (dIsHuman dev) Hg) as [n En].
  unfold mbind at 1, ST_bind at 1. rewrite En. unfold mbind at 1, ST_bind at 1. destruct (requestMap_ok q1) as [m Em]. rewrite Em. cbn [liftR].
  pose proof (requestMap_good _ _ _ _ Hq1 Em) as Hmap. unfold mbind at 1, ST_bind at 1.
  destruct (sendSyncs_ok n (schedule m) q1 NewResponse s) as (b & q2 & r2 & s2 & -> & Hs2 & Hf & (Kd & Ko & _ & _) & Hsent).
  - split_and!; by eexists.
  - by rewrite (g_device _ _ _ Hq1).
  - rewrite (fmap_Permutation fst _ _ (schedule_perm _ m)). apply NoDup_fst_map_to_list.
  - intros i sr Hin. apply Hmap, elem_of_map_to_list. by rewrite <- schedule_perm.
  - intros _. by rewrite (g_max _ _ _ Hq1).
  - intros pos. by rewrite (g_max _ _ _ Hq1).
  - rewrite (g_device _ _ _ Hq1) in Kd. pose proof (asked_good _ _ _ Hs2 Hg) as Hg2. pose proof Hs2 as (T1 & T2 & T3). destruct b.
    + set (r3 := mkReply _ _ _). assert (Er3 : rJoin r3 = rJoin r2) by (destruct Hf as [[mj Ej] _]; cbn; by rewrite Ej).
      destruct (fresh_ok s2 log (startMarks q2) r3 now Hg2) as (q4 & r4 & s4 & Ef & (A1 & A2 & A3) & Ed).
      * exact Kd.
      * change (offsets (startMarks q2)) with (offsets q2). rewrite Ko. intros p Hp. eapply Claim_mono; [exact T3|done|]. by apply (g_offsets _ _ _ Hq1).
      * intros pos Hpos. destruct (Hsent pos Hpos) as (H64 & mj & j & Emj & Hrest). conjs; [done..|]. exists mj, j. by rewrite Er3.
      * unfold mbind, ST_bind. rewrite Ef. exists true, q4, r4, s4. split; [done|]. split; [done|]. split; [congruence|]. split; [intros x Hx; by apply A2, T3|done].
    + eexists false, q2, _, s2. split; [done|]. split; [done|]. split; [done|]. split; [done|]. apply tokens_app, (m_tokens _ _ Hg2).
Qed.

Lemma finish_ok s log q now streams : GoodManager s log -> GoodRequest (trace s) log q ->
  exists a s', finishSync cfg now streams [] q s = (Ok a, s') /\ after s s' log (rooms a).
Proof using sane total human nofilter.
  intros Hg Hq. unfold finishSync. assert (Hno : after s s log NewResponse) by (split; [done|]; split; [done|]; apply tokens_app, (m_tokens _ _ Hg)).
  destruct (negb _); [by eexists _, s|]. destruct (buildData_ok s log q now Hg Hq) as (ok & q' & r & s' & Eb & Hd & Ha).
  unfold mbind at 1, ST_bind at 1. rewrite Eb. destruct ok; cbn [negb]; [|eexists (notReady q'), s'; split; [reflexivity|exact Ha]].
  rewrite Hd, human, nofilter. cbv zeta. cbn [device set_marks]. rewrite Hd, human. unfold mbind, ST_bind. rewrite (onTimeLine_ok getRepo s' (userTimeLine s')) by done. eexists (mkAnswer _ _ r), s'. split; [reflexivity|exact Ha].
Qed.

(** ** The invariant is kept *)

Lemma perform_ok a w : Good w -> allowed a w -> exists w', perform a w = Ok w' /\ Good w'.
Proof using total human nofilter sane.
  intros [Hg Hp] Ha. destruct w as [s pend log]. cbn [mng sent pending] in *.
  assert (Hstep : forall s' pend', GoodManager s' log -> (forall q, pend' = Some q -> GoodRequest (trace s') log q) -> Good (mkWorld s' pend' log)) by (intros; by split).
  assert (Hharm : forall s', harmless s s' -> forall q, pend = Some q -> GoodRequest (trace s') log q) by (intros s' (_ & -> & _); exact Hp).
  assert (Htl : forall t', InRoom t' -> userReady t' = userReady (userTimeLine s) -> GoodManager (mkManager t' (redis s) (servers s) (ids s)) log).
  { intros t' Hr Hu. destruct Hg as [_ Hu' Ht]. split; cbn; [done|by rewrite Hu|done..]. }
  destruct a as [r off|ev off|e|r|req now last loaded|start tn|now streams]; cbn [perform allowed mng sent pending] in *.
  - destruct (newOffset_ok _ r off (m_room _ _ Hg)) as (t' & Et & Hr & Hu). unfold did, onTimeLine. cbn [mng]. rewrite Et. eexists. split; [done|]. apply Hstep; [by apply Htl|exact Hp].
  - destruct Ha as [Hkey Hstay]. destruct (newMember_ok _ ev off (m_room _ _ Hg) Hkey Hstay) as (t' & Et & Hr & Hu). unfold did, onTimeLine. cbn [mng]. rewrite Et.
    eexists. split; [done|]. apply Hstep; [by apply Htl|exact Hp].
  - eexists. split; [done|]. destruct Hg as [Hr Hu Ht]. apply Hstep; [by split|exact Hp].
  - eexists. split; [done|]. assert (Hs : harmless s (mkManager (userTimeLine s) r (servers s) (ids s))) by (split; [done|]; split; [done|exact Ha]).
    apply Hstep; [by eapply harmless_good|by apply Hharm].
  - destruct Ha as [oms Hinit]. destruct (begin_ok s log req now last loaded oms Hg Hinit) as (q & s' & Eb & Hs & Hq). unfold did. cbn [mng]. rewrite Eb.
    eexists. split; [done|]. apply Hstep; [by eapply harmless_good|]. intros q' [= <-]. by destruct Hs as (_ & -> & _).
  - destruct pend as [q|]; [|by eexists]. destruct (wait_ok start tn s log q Hg (Hp q eq_refl)) as (x & s' & Ew & Hs & Hq). unfold did. cbn [mng]. rewrite Ew.
    eexists. split; [done|]. apply Hstep; [by eapply harmless_good|]. intros q' [= <-]. by destruct Hs as (_ & -> & _).
  - destruct pend as [q|]; [|by eexists]. destruct (finish_ok s log q now streams Hg (Hp q eq_refl)) as (an & s' & Ef & E1 & E2 & Ht). unfold did. cbn [mng]. rewrite Ef.
    eexists. split; [done|]. destruct Hg as [Hr Hu _]. split; [|done]. cbn. split; [by rewrite E1|by rewrite E1|done].
Qed.

Lemma run_ok acts : forall w, Good w -> valid acts w -> exists w', run acts w = Ok w' /\ Good w'.
Proof using sane total human nofilter.
  induction acts as [|a acts IH]; intros w Hg Hv; [by exists w|]. destruct Hv as [Ha Hrest]. destruct (perform_ok a w Hg Ha) as (w1 & E1 & Hg1).
  destruct (IH w1 Hg1 (Hrest w1 E1)) as (w2 & E2 & Hg2). exists w2. split; [|done]. cbn [run]. by rewrite E1.
Qed.

(** A device that has not synced yet: the user is in the room and was seen by this
    instance, and there is no token of the device. *)
Record Start (w : World) : Prop := {
  st_room : InRoom (userTimeLine (mng w));
  st_ready : user_ ∈ userReady (userTimeLine (mng w));
  st_tokens : forall utl, fields (redis (mng w)) (tokenKey user_ (dID dev) utl) = ∅;
  st_pending : pending w = None;
}.

(** Every run ends, and the offsets in the tokens of the device were reached. *)
Lemma tokens_reached acts w : Start w -> valid acts w -> exists w', run acts w = Ok w' /\
  forall utl cur tok r p, LoadToken (cacheCfg cfg) user_ (dID dev) utl (redis (mng w')) = (Ok (cur, Some tok), r) -> tok !! room = Some p ->
    Reached (trace (mng w')) (sent w') p.
Proof using total human nofilter sane.
  intros [Hr Hu Ht Hpend] Hv. destruct (run_ok acts w) as (w' & Er & Hg & _); [|done|].
  - split; [|intros q; by rewrite Hpend]. split; [done..|]. intros p (utl & v & Hf & _). by rewrite Ht, lookup_empty in Hf.
  - exists w'. split; [done|]. intros utl cur tok r p Hl Hp. destruct (m_tokens _ _ Hg p) as (_ & Hc); [by eapply LoadToken_stored|done].
Qed.

End Runs.

(** ** A device and its server *)

(** Redis as a map of hashes, which never fails. *)
#[local] Abbreviation MemRedis := (gmap string (gmap string string)).

Definition hashOf (s : MemRedis) (k : string) : gmap string string := default ∅ (s !! k).

#[local] Instance memRedis : Redis MemRedis := {
  HMSET k kvs s := (Ok (), <[k := fold_left (fun m kv => <[kv.1 := kv.2]> m) kvs (hashOf s k)]> s);
  HGETALL k s := (Ok (map_to_list (hashOf s k)), s);
  HSET k f v s := (Ok (), <[k := <[f := v]> (hashOf s k)]> s);
  HDEL k f s := (Ok (), <[k := delete f (hashOf s k)]> s);
  DEL k s := (Ok (), delete k s);
  EXPIRE k n s := (Ok (), if n <=? 0 then delete k s else s);
}.

Lemma mem_writes k f (s : MemRedis) : writes hashOf k f s (Ok (), <[k := f (hashOf s k)]> s).
Proof.
  split; [done|]. unfold hashOf. cbn [fst snd].
  split; [intros _; by rewrite lookup_insert_eq|]. split; [done|]. intros k' Hk. by rewrite lookup_insert_ne.
Qed.

#[local] Instance memRedis_lawful : LawfulRedis MemRedis.
Proof.
  refine {| fields := hashOf |}; intros.
  - apply mem_writes.
  - apply (mem_writes k <[f := v]>).
  - apply (mem_writes k (delete f)).
  - split; [done|]. unfold hashOf. cbn [DEL memRedis fst snd].
    split; [intros _; by rewrite lookup_delete_eq|]. split; [done|]. intros k' Hk. by rewrite lookup_delete_ne.
  - eexists _, s. split; [done|]. split; [done|]. split; [done|]. intros l [= <-]. split; [apply NoDup_fst_map_to_list|]. intros f v. apply elem_of_map_to_list.
  - eexists _, _. split; [done|]. split; [done|]. intros k'. destruct (Z.leb_spec n 0) as [Hn|Hn]; [|by left]. destruct (decide (k' = k)) as [->|Hk].
    + right. split_and!; [done..|]. unfold hashOf. by rewrite lookup_delete_eq.
    + left. unfold hashOf. by rewrite lookup_delete_ne.
Defined.

#[local] Existing Instance SyncRoomStateFacts.plainJson.

#[local] Instance noUserDb : UserDb unit := {
  GetRidsForUser _ := mret [];
  GetInviteRidsForUser _ := mret [];
  GetLeaveRidsForUser _ := mret [];
  LastOffsets _ := mret ∅;
  GetJoinRoomOffsets _ := mret [];
  GetUserMaxReceiptOffset _ := mret 0;
  FriendsOf _ := mret [];
}.

#[local] Instance noFilters : SyncFilters := { parseFilter _ := None; storedFilter _ _ := None }.

#[local] Instance anyOrder : GoOrder.
Proof. refine {| schedule := fun A m => map_to_list m |}. by intros. Defined.

(** Servers that always give the same answer. *)
#[local] Instance oneAnswer : Servers SyncServerResponse := { askLoad _ _ f := (Ok true, f); askSync _ _ f := (Ok f, f) }.

Definition theRoom : string := "!r:a".
Definition theDevice : Device := mkDevice "@u:a" "d" true "actual".

Definition msg (i : Z) : StreamEvent := mkStreamEvent (mkClientEvent "" ("$" ++ pretty i) theRoom "@v:b" None "m.room.message" i) i.

Definition config : SyncCfg := mkSyncCfg 1 false (mkCacheCfg 100 100 3) 200 true false.

Definition since (s : string) : HttpReq := mkHttpReq "1000" "" "" s "".

(** ** What the code does not keep *)

(** With room for one token, a reply that is lost takes the token of the device with it:
    the next request starts after the events of the lost reply. *)
Lemma lost_reply_skipped :
  let cfg := mkCacheCfg 100 100 1 in
  let s1 := (UpdateToken cfg "@u:a" "d" 11 0 {[theRoom := 4]} (∅ : MemRedis)).2 in
  let s2 := (UpdateToken cfg "@u:a" "d" 12 1 {[theRoom := 5]} s1).2 in
  (LoadToken cfg "@u:a" "d" 11 s1).1 = Ok (11, Some {[theRoom := 4]}) /\ (LoadToken cfg "@u:a" "d" 11 s2).1 = Ok (12, Some {[theRoom := 5]}).
Proof. by vm_compute. Qed.

(** When the offsets of the join events cannot be read, each later sync of the user
    panics, in a goroutine that nothing recovers. *)
Section NoOffsets.

#[local] Instance joinedDb : UserDb unit := {
  GetRidsForUser _ := mret [(theRoom, "$2")];
  GetInviteRidsForUser _ := mret [];
  GetLeaveRidsForUser _ := mret [];
  LastOffsets _ := mret {[theRoom := 3]};
  GetJoinRoomOffsets _ := fail (ErrMsg "timeout");
  GetUserMaxReceiptOffset _ := mret 0;
  FriendsOf _ := mret [];
}.

Lemma join_offset_panics :
  (begin_ config (since "") theDevice 0 (-1) true (mkManager (NewUserTimeLineRepo ()) (∅ : MemRedis) emptyResponse [])).1 = Panic.
Proof. by vm_compute. Qed.

End NoOffsets.

(** The device has the token 11, with which it was sent the room up to 3; now the room is
    at 4. *)
Definition later (f : SyncServerResponse) : SyncManager unit MemRedis SyncServerResponse :=
  mkManager (mkUserTimeLine () {["@u:a"]} {["@u:a" := {[theRoom := Int64Offset 2; "!s:a" := Int64Offset 5]}]} {["@u:a"]} {["@u:a" := ∅]} {["@u:a"]} {["@u:a" := ∅]} {["@u:a"]} ∅ ∅ ∅
               {[theRoom := 4; "!s:a" := 9]})
    ((UpdateToken (cacheCfg config) "@u:a" "d" 11 0 {[theRoom := 3; "!s:a" := 9]} (∅ : MemRedis)).2) f [12; 13].

Definition token11 : string := "utl:11_acc:1_rec:0_pre:1_kc:1_std:1".

(** A turn a second after the request, without news of the other streams. *)
Definition quietTurn : Turn := mkTurn 1000 false false false false false.

(** A sync: whether it was woken, the answer, and what is there afterwards. *)
Definition oneSync (tok : string) : ST (SyncManager unit MemRedis SyncServerResponse) (bool * Answer) :=
  q ← begin_ config (since tok) theDevice 0 0 true;
  w ← wait config 0 quietTurn q;
  a ← finishSync config 1 (fun m => m) [] w.2;
  mret (w.1, a).

Definition twoRooms : gmap string Z := {[theRoom := 3; "!s:a" := 9]}.
Definition askLater : ClientRequest :=
  mkReq theDevice 20 1000 false None token11 (let m := mkMarks 11 1 0 1 1 1 in mkOffsets m m) 3000 0 true true true false ∅ [] false ∅ twoRooms.

Definition quietServer : SyncManager unit MemRedis SyncServerResponse := later emptyResponse.
Definition joinedAt : gmap string Z := {[theRoom := 2; "!s:a" := 5]}.

Lemma later_loaded : Loaded (userTimeLine quietServer) "@u:a" joinedAt ∅ ∅.
Proof. split; [split_and!; by apply elem_of_singleton|by vm_compute|done|done]. Qed.

Lemma later_token : HasToken config askLater twoRooms quietServer.
Proof. exists (LoadToken (cacheCfg config) "@u:a" "d" 11 (redis quietServer)).2. vm_compute. reflexivity. Qed.

Lemma joined_only (J : gmap string Z) : OneMembership J ∅ ∅.
Proof. intros room. split; [by intros _|by intros [? ?]]. Qed.

Lemma twoRooms_positive room o : twoRooms !! room = Some o -> -1 <= o.
Proof. unfold twoRooms. intros [[_ <-]|[_ [_ <-]%lookup_singleton_Some]]%lookup_insert_Some; lia. Qed.

Lemma waits_until_asked_witness :
  exists b s1 q' s2, wait config 0 quietTurn askLater quietServer = (Ok (b, askLater), s1) /\ reBuildIncreamSyncReqRoom askLater quietServer = (Ok q', s2) /\
    (b = true <-> 3000 < 1000 \/ (500 < 1000 - 0 /\ reqRooms q' <> ∅) \/ otherNews config 0 quietTurn askLater (userTimeLine quietServer) = true) /\
    forall q2 pos start2 (t2 : Turn), device q2 = theDevice -> HasToken config q2 (pos ∪ twoRooms) quietServer -> checkNoWait q2 = false ->
      (forall room, match reqRooms q' !! room with Some rr => exists p, pos !! room = Some p /\ rrEnd rr <= p | None => pos !! room = None end) ->
      tNow t2 <= latest q2 -> otherNews config start2 t2 q2 (userTimeLine quietServer) = false ->
      exists s3, wait config start2 t2 q2 quietServer = (Ok (false, q2), s3).
Proof.
  exact (waits_until_asked config quietServer askLater joinedAt ∅ ∅ 0 quietTurn later_loaded (joined_only joinedAt) twoRooms_positive later_token eq_refl).
Defined.

(** New events that the user may not see move no position: each sync is woken at once,
    has nothing to send and leaves the token as it is. *)
Lemma hidden_event_spins :
  let hidden := mkResponse {[theRoom := NewJoinResponse]} ∅ ∅ {[theRoom := 4]} true [] 0 in
  let x := oneSync token11 (later hidden) in
  match x.1 with
  | Ok (woken, a) => woken = true /\ NextBatch a = token11 /\ match (oneSync (NextBatch a) x.2).1 with Ok (woken2, a2) => woken2 = true /\ NextBatch a2 = token11 | _ => False end
  | _ => False
  end.
Proof. by vm_compute. Qed.

(** A server that does not know the room answers with the position -1; with news from
    another room it becomes the position of the new token, and the room is sent again. *)
Lemma unknown_room_resets :
  let news := mkResponse {[theRoom := mkJoin emptyTimeline [] [] None; "!s:a" := mkJoin (mkTimeline [seEv (msg 9)] false "") [] [] None]} ∅ ∅ {[theRoom := -1; "!s:a" := 9]} true [] 0 in
  let x := oneSync token11 (later news) in
  (LoadToken (cacheCfg config) "@u:a" "d" 12 (redis x.2)).1 = Ok (12, Some {[theRoom := -1; "!s:a" := 9]}).
Proof. by vm_compute. Qed.

(** When the new token cannot be stored the joined rooms are cleared; somebody who types
    in one of them then makes the request panic. *)
Section NoTokens.

#[local] Instance failingRedis : Redis MemRedis := {
  HMSET _ _ s := (Err (ErrMsg "closed"), s);
  HGETALL k s := (Ok (map_to_list (hashOf s k)), s);
  HSET _ _ _ s := (Err (ErrMsg "closed"), s);
  HDEL _ _ s := (Err (ErrMsg "closed"), s);
  DEL _ s := (Err (ErrMsg "closed"), s);
  EXPIRE _ _ s := (Err (ErrMsg "closed"), s);
}.

Lemma typing_panics :
  let news := mkResponse {[theRoom := mkJoin (mkTimeline [seEv (msg 4)] false "") [] [] None]} ∅ ∅ {[theRoom := 4]} true [] 0 in
  let s := later news in
  match begin_ config (since token11) theDevice 0 0 true s with
  | (Ok q, s1) => (finishSync config 1 (fun m => m) [(theRoom, "@v:b")] q s1).1 = Panic
  | _ => False
  end.
Proof. by vm_compute. Qed.

End NoTokens.

End SyncRuns.
