(* ===== verification/SyncRequests.v ===== *)
(** * Requests to the sync server

    What [src/syncserver/consumers/syncServer.go] does with a request of the aggregator
    before it builds the reply: [processSync] starts the loading of every room that is
    asked for ([fullSyncLoading], [incrementSyncLoading]), polls until all of them are
    in memory, for 35 seconds at most ([pollReady]), and then answers a "load" request
    with whether they are, and a "sync" request with the reply of [SyncBuild], or not at
    all.  A request reaches the instance that has the rooms, and with [multiWrite] the
    next one as well ([IsRelatedSyncRequest]).

    The polling loop reads the clock and sleeps: an item of its list is what the clock
    says and what the other goroutines, among them those that load, do to the server
    during the sleep.  When the list is used up the loop does not end ([Diverge]).
    The hints that [ExpandSyncData] adds to the events of a reply are left out.

    The theorems are in [SyncServers]. *)

From Stdlib Require Import String ZArith List Lia.
From stdpp Require Import base tactics list gmap strings.
From S2P Require Import Prelude Timeline TimelineRepo Loader SyncHistory SyncRoomState SyncStates Receipts ReceiptConsumer RoomQuery SyncBuild.

#[local] Open Scope string_scope.
#[local] Open Scope Z_scope.

Module SyncRequests.
Import Timeline TimelineRepo Loader SyncHistory SyncRoomState SyncStates SyncBuild.

(** [IsRelatedSyncRequest]; the numbers are [uint32], and a remainder by zero panics. *)
Definition IsRelatedSyncRequest (reqInstance curInstance total : Z) (multiWrite : bool) : res bool :=
  if reqInstance =? curInstance then Ok true
  else if multiWrite then
    if total =? 0 then Panic else Ok (((reqInstance + 1) mod 2 ^ 32) mod total =? curInstance)
  else Ok false.

(** What a server publishes: the answer to a "load" request or to a "sync" request. *)
Inductive Published :=
  | Ready (ready : bool)
  | Reply (resp : SyncServerResponse).

Section Requests.
  Context `{ContentJson} `{GoRange} {D : Type} `{HistoryDb D} `{StateDb D} `{ReceiptConsumer.ReceiptJson}.
  Context (visibilityTime nowTs : Z).

#[local] Abbreviation M := (ST (SyncServer D)).

(** [CheckLoadReady(key, false)] of the five repositories of a room. *)
Definition CheckStateLoadReady (roomID : string) : M bool := onStates (@CheckLoadReady _ state_loads roomID false).
Definition CheckStreamLoadReady (roomID : string) : M bool := onStates (@CheckLoadReady _ stream_loads roomID false).
Definition CheckHistoryReady (roomID : string) : M bool := onRoomHistory (@CheckLoadReady _ history_loads roomID false).
Definition CheckReceiptsReady (roomID : string) : M bool := onReceipts (@CheckLoadReady _ Receipts.stream_loads roomID false).
Definition CheckUserReady (user roomID : string) : M bool :=
  onReceipts (@CheckLoadReady _ (Receipts.user_loads user roomID) (Receipts.receiptKey roomID user) false).

(** Every check of the turn runs, also after one that says no. *)
Fixpoint allReady (checks : list (M bool)) : M bool :=
  match checks with
  | [] => mret true
  | check :: rest => ok ← check; oks ← allReady rest; mret (ok && oks)
  end.

Fixpoint pollReady (checks : M bool) (start : Z) (turns : list (Z * (SyncServer D -> SyncServer D))) : M bool :=
  loaded ← checks;
  if (loaded : bool) then mret true
  else match turns with
       | [] => liftR Diverge
       | (now, during) :: rest =>
           if 35 <? now - start then mret false
           else (fun s => pollReady checks start rest (during s))
       end.

Fixpoint each {A} (f : A -> M unit) (l : list A) : M unit :=
  match l with
  | [] => mret ()
  | x :: rest => _ ← f x; each f rest
  end.

(** ** Full syncs *)

Definition startStates (roomID : string) : M unit := onStates (LoadStates roomID false).

(** The four calls that both kinds of requests make for a room. *)
Definition startRoom (roomID : string) : M unit :=
  _ ← startStates roomID;
  _ ← onStates (LoadStreamStates roomID false);
  _ ← onRoomHistory (LoadRoomHistory roomID false);
  _ ← onRoomHistory (GetRoomMinStream roomID);
  mret ().

Definition startReceipts (user roomID : string) : M unit :=
  _ ← onReceipts (Receipts.LoadStreamHistory roomID false);
  onReceipts (Receipts.LoadUserHistory user roomID false).

Definition roomChecks (roomID : string) : list (M bool) :=
  [CheckStateLoadReady roomID; CheckStreamLoadReady roomID; CheckHistoryReady roomID].

Definition receiptChecks (user roomID : string) : list (M bool) := [CheckReceiptsReady roomID; CheckUserReady user roomID].

Definition fullChecks (req : SyncServerRequest) : M bool :=
  allReady (flat_map (fun x => roomChecks (srmRoomID x) ++ receiptChecks (rqUserID req) (srmRoomID x))%list (JoinRooms req) ++
            map (fun x => CheckStateLoadReady (srmRoomID x)) (InviteRooms req))%list.

(** The result is [LoadReady]. *)
Definition fullSyncLoading (req : SyncServerRequest) (start : Z) (turns : list (Z * (SyncServer D -> SyncServer D))) : M bool :=
  _ ← onReceipts (Receipts.LoadReceiptLatest (rqJoinedRooms req));
  _ ← each (fun x => _ ← startRoom (srmRoomID x); startReceipts (rqUserID req) (srmRoomID x)) (JoinRooms req);
  _ ← each (fun x => startStates (srmRoomID x)) (InviteRooms req);
  pollReady (fullChecks req) start turns.

(** ** Incremental syncs *)

(** The rooms of a request must not be asked for from a position that is after the last
    one the server knows. *)
Fixpoint startKnown (f : string -> M unit) (rooms : list SyncRoom) : M bool :=
  match rooms with
  | [] => mret true
  | x :: rest =>
      s ← getServer;
      if srmStart x <=? GetRoomLastOffset (roomHistory s) (srmRoomID x) then _ ← f (srmRoomID x); startKnown f rest
      else mret false
  end.

(** [LoadRoomLatest] of the three lists; its errors are dropped. *)
Definition loadLatest (rooms : list SyncRoom) : M unit :=
  _ ← RoomQuery.attempt (onRoomHistory (LoadRoomLatest (map srmRoomID rooms))); mret ().

Definition incrementChecks (req : SyncServerRequest) : M bool := fun s =>
  allReady (flat_map (fun x =>
      (if srmStart x <? GetRoomLastOffset (roomHistory s) (srmRoomID x) then roomChecks (srmRoomID x) else []) ++
      (if IsHuman req && (rqReceiptOffset req <? Receipts.GetReceiptLastOffset (receipts s) (srmRoomID x))
       then receiptChecks (rqUserID req) (srmRoomID x) else []))%list (JoinRooms req) ++
    map (fun x => CheckStateLoadReady (srmRoomID x)) (InviteRooms req) ++
    flat_map (fun x => roomChecks (srmRoomID x)) (LeaveRooms req))%list s.

Definition startNewReceipts (req : SyncServerRequest) (roomID : string) : M unit :=
  s ← getServer;
  if rqReceiptOffset req <? Receipts.GetReceiptLastOffset (receipts s) roomID then startReceipts (rqUserID req) roomID else mret ().

Definition incrementSyncLoading (req : SyncServerRequest) (start : Z) (turns : list (Z * (SyncServer D -> SyncServer D))) : M bool :=
  _ ← loadLatest (JoinRooms req);
  _ ← loadLatest (InviteRooms req);
  _ ← loadLatest (LeaveRooms req);
  _ ← (if IsHuman req then onReceipts (Receipts.LoadReceiptLatest (rqJoinedRooms req)) else mret ());
  ok ← startKnown startRoom (JoinRooms req);
  if negb ok then mret false else
  _ ← (if IsHuman req then each (startNewReceipts req) (rqJoinedRooms req) else mret ());
  ok ← startKnown startStates (InviteRooms req);
  if negb ok then mret false else
  ok ← startKnown startRoom (LeaveRooms req);
  if negb ok then mret false else
  pollReady (incrementChecks req) start turns.

(** ** The request *)

(** [processSync]; a "sync" request whose rooms are not loaded gets no answer. *)
Definition processSync (requestType : string) (req : SyncServerRequest) (start : Z) (turns : list (Z * (SyncServer D -> SyncServer D))) : M (option Published) :=
  loadReady ← (if rqIsFullSync req then fullSyncLoading req start turns else incrementSyncLoading req start turns);
  if (loadReady : bool) then
    if String.eqb requestType "load" then mret (Some (Ready true))
    else if String.eqb requestType "sync" then
      resp ← (if rqIsFullSync req then processFullSync visibilityTime nowTs req else processIncrementSync visibilityTime nowTs req);
      mret (Some (Reply resp))
    else mret None
  else if String.eqb requestType "load" then mret (Some (Ready false)) else mret None.

End Requests.

End SyncRequests.
