(* ===== verification/SyncServers.v ===== *)
(** * What the sync server answers

    - [load_answered]: a request to load rooms is answered, after 35 seconds at the
      latest.
    - [server_keeps_promise]: for rooms that are in memory a request to sync is answered
      at once, and the answer leaves nothing out ([AnswersRoom]).
    - [tokens_true]: the aggregator of [SyncRuns] with [processSync] as its sync servers
      ([hosts]): every offset in a token was reached by their answers. *)

From Stdlib Require Import String ZArith List Lia Sorted.
From stdpp Require Import base tactics list gmap strings pretty.
From S2P Require Import Prelude Snowflake Timeline TimelineRepo Loader SyncHistory SyncHistoryFacts SyncRoomState SyncRoomStateFacts SyncStates Ids Push Receipts ReceiptConsumer ReceiptFacts ReceiptDelivery RoomQuery SyncBuild SyncBuildFacts SyncSessions RoomMessages RoomMessagesFacts UserRooms SyncMng SyncMngFacts SyncRuns SyncRequests.

#[local] Open Scope string_scope.
#[local] Open Scope Z_scope.

Module SyncServers.
Import Timeline TimelineRepo Loader SyncHistory SyncHistoryFacts SyncRoomState SyncStates SyncBuild SyncBuildFacts SyncRequests.

#[local] Abbreviation settled := SyncRuns.settled.
#[local] Existing Instance Receipts.ReceiptData_feed.

(** ** Steps that return *)

(** [m] gives a value on every state that is [Good], and keeps it so. *)
Definition keeps {T A} (Good : T -> Prop) (m : ST T A) : Prop := forall s, Good s -> exists a s', m s = (Ok a, s') /\ Good s'.

Lemma always_ret {T A} (Good : T -> Prop) (a : A) : keeps Good (mret a).
Proof. intros s Hs. by exists a, s. Qed.

Lemma always_bind {T A B} (Good : T -> Prop) (m : ST T A) (f : A -> ST T B) : keeps Good m -> (forall a, keeps Good (f a)) -> keeps Good (m ≫= f).
Proof. intros Hm Hf s Hs. destruct (Hm s Hs) as (a & s1 & E & Hs1). unfold mbind, ST_bind. rewrite E. by apply Hf. Qed.

Lemma always_if {T A} (Good : T -> Prop) (b : bool) (m1 m2 : ST T A) : keeps Good m1 -> keeps Good m2 -> keeps Good (if b then m1 else m2).
Proof. by destruct b. Qed.

Lemma attempt_keeps {T A} (Good : T -> Prop) (m : ST T A) :
  (forall s, Good s -> settled (m s).1 /\ Good (m s).2) -> keeps Good (RoomQuery.attempt m).
Proof.
  intros Hm s Hs. destruct (Hm s Hs) as [Hset Hg]. unfold RoomQuery.attempt. destruct (m s) as [[a|e| |] s1]; try done; by eexists _, _.
Qed.

Create HintDb keeps.
#[export] Hint Resolve always_ret always_bind always_if : keeps.

(** Loading that is not waited for. *)
Section Async.
  Context {T : Type} `{Loads T} (Good : T -> Prop).
  Context (good_gate : forall s g, Good s -> Good (set_gate s g)) (good_stale : forall key, keeps Good (stale key)).

Lemma gate_keeps f : keeps Good (onGate f).
Proof using good_gate. intros s Hs. eexists _, _. split; [done|by apply good_gate]. Qed.

Lemma start_keeps wait key : keeps Good (loadNew wait key false).
Proof using good_gate. intros s Hs. unfold loadNew. case_decide as Hk; [by exists (), s|]. clear Hk. revert s Hs. apply always_bind; [apply gate_keeps|intros; apply gate_keeps]. Qed.

Lemma async_keeps wait key : keeps Good (LoadWith wait key false).
Proof using good_gate good_stale.
  intros s Hs. unfold LoadWith. case_decide as Hk; [|by apply start_keeps]. clear Hk. revert s Hs. apply always_bind; [apply good_stale|]. intros again.
  apply always_if; [|apply always_ret]. apply always_bind; [apply gate_keeps|intros; apply start_keeps].
Qed.

Lemma check_keeps key : keeps Good (CheckLoadReady key false).
Proof using good_gate good_stale.
  intros s Hs. unfold CheckLoadReady. rewrite orb_true_r. cbv zeta. generalize (bool_decide (key ∈ ready (gate s))). intros ok. revert s Hs.
  apply always_bind; [apply async_keeps|intros; apply always_ret].
Qed.

End Async.

(** Loading what is loaded. *)
Lemma loaded_quiet {T} `{Loads T} key s s1 wait sync : key ∈ ready (gate s) -> stale key s = (Ok false, s1) -> LoadWith wait key sync s = (Ok (), s1).
Proof. intros Hk E. unfold LoadWith. rewrite decide_True by done. unfold mbind, ST_bind. by rewrite E. Qed.

Lemma loaded_check {T} `{Loads T} key s s1 : key ∈ ready (gate s) -> stale key s = (Ok false, s1) -> CheckLoadReady key false s = (Ok true, s1).
Proof.
  intros Hk E. unfold CheckLoadReady. rewrite bool_decide_true by done. cbn [negb orb]. unfold loadAsync, mbind, ST_bind. by rewrite (loaded_quiet key s s1).
Qed.

Section Requests.
  Context `{ContentJson} `{GoRange} {D : Type} `{HistoryDb D} `{StateDb D} `{ReceiptConsumer.ReceiptJson}.
  Context (visibilityTime nowTs : Z).
  Implicit Types (s : SyncServer D) (r : SyncServerRequest).

(** ** A request to load is answered *)

(** The timelines in memory are sound. *)
Record Steady s : Prop := {
  st_hist : HistoryInv (roomHistory s);
  st_states : RepoInv (stateRepo (states s));
  st_streams : RepoInv (streamRepo (states s));
}.

(** The queries about offsets answer or report an error. *)
Class DbAnswers : Prop := {
  offsets_settle : forall rooms d, settled (GetRoomLastOffsets rooms d).1;
  minStream_settles : forall room d, settled (SelectOutputMinStream room d).1;
}.

Lemma lift_history {A} (m : ST (RoomHistory D) A) : keeps HistoryInv m -> keeps Steady (onRoomHistory m).
Proof using. intros Hm s [Hh Hs Hm']. destruct (Hm _ Hh) as (a & h & E & Hh'). unfold onRoomHistory. rewrite E. eexists _, _. by split. Qed.

Lemma lift_states {A} (m : ST (RoomStates D) A) :
  keeps (fun t => RepoInv (stateRepo t) /\ RepoInv (streamRepo t)) m -> keeps Steady (onStates m).
Proof using.
  intros Hm s [Hh Hs Hm']. destruct (Hm _ (conj Hs Hm')) as (a & t & E & Hs1 & Hs2). unfold onStates, onReceipts. fold (states s). rewrite E.
  eexists _, _. split; [done|]. by split.
Qed.

Lemma lift_receipts {A} (m : ST (Receipts.Repos (RoomStates D)) A) c : keeps (fun t => Receipts.members t = c) m ->
  forall s, states s = c -> Steady s -> exists a s', onReceipts m s = (Ok a, s') /\ Steady s'.
Proof using.
  intros Hm s Ec [Hh Hs Hm']. destruct (Hm (receipts s) Ec) as (a & t & E & Et). unfold onReceipts. rewrite E. eexists _, _. split; [done|].
  subst c. split; unfold states; cbn; by rewrite ?Et.
Qed.

Lemma receipts_keep {A} (m : ST (Receipts.Repos (RoomStates D)) A) : (forall c, keeps (fun t => Receipts.members t = c) m) -> keeps Steady (onReceipts m).
Proof using. intros Hm s Hs. by apply (lift_receipts m (states s)). Qed.

#[local] Abbreviation GoodStates := (fun t : RoomStates D => RepoInv (stateRepo t) /\ RepoInv (streamRepo t)).

Lemma stale_states key : keeps GoodStates (@stale _ state_loads key).
Proof using.
  intros t [Hr Hm]. destruct (getTimeLine_map (stateRepo t) key Hr) as (r' & E & Hr' & _). cbn. unfold mbind, ST_bind, stateTimeLine. rewrite E. eexists _, _. by split.
Qed.

Lemma stale_streams key : keeps GoodStates (@stale _ stream_loads key).
Proof using.
  intros t [Hr Hm]. destruct (getTimeLine_map (streamRepo t) key Hm) as (r' & E & Hr' & _). cbn. unfold mbind, ST_bind, streamTimeLine. rewrite E.
  destruct (get (streamRepo t) key); eexists _, _; by split.
Qed.

Lemma stale_history key : keeps HistoryInv (@stale _ history_loads key : ST (RoomHistory D) bool).
Proof using.
  intros h [Hr Hs Hl]. destruct (getTimeLine_map (repo h) key Hr) as (r' & E & Hr' & Es & El & _). cbn. unfold mbind, ST_bind, timeLineOf. rewrite E.
  eexists _, _. split; [done|]. split; cbn; congruence.
Qed.

Lemma states_gate (t : RoomStates D) g : GoodStates t -> GoodStates (set_stateGate t g).
Proof using. done. Qed.
Lemma streams_gate (t : RoomStates D) g : GoodStates t -> GoodStates (set_streamGate t g).
Proof using. done. Qed.
Lemma history_gate (h : RoomHistory D) g : HistoryInv h -> HistoryInv (set_hGate h g).
Proof using. by intros [? ? ?]. Qed.

#[local] Hint Resolve lift_history lift_states receipts_keep : keeps.

Lemma startRoom_keeps room : DbAnswers -> keeps Steady (startRoom room).
Proof using.
  intros Hdb. unfold startRoom, startStates, LoadStates, LoadStreamStates, LoadRoomHistory, LoadHistory.
  repeat (apply always_bind; [|intros ?]); [..|apply always_ret].
  - apply lift_states, (async_keeps (H := state_loads)); [apply states_gate|apply stale_states].
  - apply lift_states, (async_keeps (H := stream_loads)); [apply streams_gate|apply stale_streams].
  - apply lift_history, (async_keeps (H := history_loads)); [apply history_gate|apply stale_history].
  - apply lift_history. intros h Hh. unfold GetRoomMinStream. destruct (roomMinStream h !! room); [by eexists _, _|].
    unfold onDb. pose proof (minStream_settles room (persist h)) as Hset. destruct (SelectOutputMinStream room (persist h)) as [[p|e| |] d]; try done;
      eexists _, _; (split; [done|]); by destruct Hh.
Qed.

Lemma startStates_keeps room : keeps Steady (startStates room).
Proof using.
  apply lift_states, (async_keeps (H := state_loads)); [apply states_gate|apply stale_states].
Qed.

Lemma startReceipts_keeps user room : keeps Steady (startReceipts user room).
Proof using.
  apply always_bind; [|intros _]; apply receipts_keep; intros c.
  - apply (async_keeps (H := Receipts.stream_loads)); [done|intros; apply always_ret].
  - apply (async_keeps (H := Receipts.user_loads user room)); [done|intros; apply always_ret].
Qed.

Lemma checks_keep room user : Forall (keeps Steady) (roomChecks room ++ receiptChecks user room).
Proof using.
  repeat (apply Forall_cons; split); [..|apply Forall_nil; done].
  - apply lift_states, (check_keeps (H := state_loads)); [apply states_gate|apply stale_states].
  - apply lift_states, (check_keeps (H := stream_loads)); [apply streams_gate|apply stale_streams].
  - apply lift_history, (check_keeps (H := history_loads)); [apply history_gate|apply stale_history].
  - apply receipts_keep. intros c. apply (check_keeps (H := Receipts.stream_loads)); [done|intros; apply always_ret].
  - apply receipts_keep. intros c. apply (check_keeps (H := Receipts.user_loads user room)); [done|intros; apply always_ret].
Qed.

Lemma allReady_keeps checks : Forall (keeps Steady) checks -> keeps Steady (allReady checks).
Proof using. induction 1; cbn [allReady]; eauto with keeps. Qed.

Lemma each_keeps {A} (f : A -> ST (SyncServer D) unit) l : (forall x, keeps Steady (f x)) -> keeps Steady (each f l).
Proof using. intros Hf. induction l; cbn [each]; eauto with keeps. Qed.

Lemma known_keeps f rooms : (forall room, keeps Steady (f room)) -> keeps Steady (startKnown f rooms).
Proof using.
  intros Hf. induction rooms as [|x rooms IH]; cbn [startKnown]; [apply always_ret|]. apply always_bind; [intros s Hs; by exists s, s|]. intros s. eauto with keeps.
Qed.

Lemma receiptLatest_keeps rooms : keeps Steady (onReceipts (Receipts.LoadReceiptLatest rooms)).
Proof using.
  assert (Hset : forall l (t : Receipts.Repos (RoomStates D)), Receipts.members (fold_left (fun u kv => Receipts.setReceiptLatest kv.1 kv.2 u) l t) = Receipts.members t).
  { induction l as [|kv l IH]; intros t; [done|]. cbn. by rewrite IH. }
  assert (Hzero : forall (m : gmap string Z) l (t : Receipts.Repos (RoomStates D)), Receipts.members (fold_left (fun u k => match m !! k with Some _ => u | None => Receipts.setReceiptLatest k 0 u end) l t) = Receipts.members t).
  { intros m. induction l as [|k l IH]; intros t; [done|]. cbn. rewrite IH. by destruct (m !! k). }
  apply receipts_keep. intros c t Ht. unfold Receipts.LoadReceiptLatest. destruct (_ =? 0)%nat; [by eexists _, _|].
  destruct (Receipts.onSql _ t) as [x t1] eqn:E. eexists _, _. split; [done|]. rewrite Hzero, Hset. unfold Receipts.onSql in E.
  destruct (Receipts.GetRoomReceiptLastOffsets _ _) as [y d]. by injection E as _ <-.
Qed.

Lemma latest_keeps rooms : DbAnswers -> keeps Steady (loadLatest rooms).
Proof using.
  intros Hdb. apply always_bind; [|intros; apply always_ret]. apply attempt_keeps. intros s Hs. unfold onRoomHistory, LoadRoomLatest.
  destruct (_ =? 0)%nat; [by destruct s|]. unfold mbind, ST_bind, onDb. set (l := List.filter _ _).
  pose proof (offsets_settle l (persist (roomHistory s))) as Hset. destruct (GetRoomLastOffsets l (persist (roomHistory s))) as [[m|e| |] d]; try done; cbn [fst snd].
  - split; [done|]. destruct Hs as [Hh Hst Hm]. assert (Hf : forall kvs (h : RoomHistory D), HistoryInv h -> HistoryInv (fold_left (fun h kv => setRoomLatest kv.1 kv.2 h) kvs h)).
    { induction kvs as [|kv kvs IH]; intros h Hi; [done|]. cbn. apply IH. destruct (setRoomLatest_same h kv.1 kv.2) as (E1 & _). destruct Hi; split; by rewrite E1. }
    split; [|done|done]. cbn. apply Hf. by destruct Hh.
  - split; [done|]. destruct Hs as [Hh Hst Hm]. split; [|done|done]. cbn. by destruct Hh.
Qed.

Lemma poll_ends checks start turns : keeps Steady checks -> (forall t s, t ∈ turns -> Steady s -> Steady (t.2 s)) -> Exists (fun t => 35 < t.1 - start) turns ->
  keeps Steady (pollReady checks start turns).
Proof using.
  intros Hc Hd He. induction turns as [|[now during] turns IH]; [by apply Exists_nil in He|]. cbn [pollReady].
  apply always_bind; [done|]. intros loaded. apply always_if; [apply always_ret|]. destruct (Z.ltb_spec 35 (now - start)); [apply always_ret|].
  intros s Hs. apply IH; [intros t s' Ht; apply Hd; by right| |by apply (Hd (now, during)); [left|]].
  apply Exists_cons in He as [He|He]; [cbn in He; lia|done].
Qed.

Lemma Forall_flat_map {A B} (P : B -> Prop) (f : A -> list B) l : (forall x, Forall P (f x)) -> Forall P (flat_map f l).
Proof using. intros Hf. induction l; cbn; [constructor|]. by apply Forall_app. Qed.

Lemma loading_keeps r start turns : DbAnswers -> (forall t s, t ∈ turns -> Steady s -> Steady (t.2 s)) -> Exists (fun t => 35 < t.1 - start) turns ->
  keeps Steady (if rqIsFullSync r then fullSyncLoading r start turns else incrementSyncLoading r start turns).
Proof using.
  intros Hdb Hd He. assert (Hstate : forall l, Forall (keeps Steady) (map (fun x => CheckStateLoadReady (srmRoomID x)) l)).
  { intros l. apply Forall_fmap, Forall_true. intros x. pose proof (checks_keep (srmRoomID x) "") as Hf. by apply Forall_cons in Hf as [? _]. }
  assert (Hroom : forall room, Forall (keeps Steady) (roomChecks room)) by (intros room; by pose proof (checks_keep room "") as [Hf _]%Forall_app).
  apply always_if.
  - unfold fullSyncLoading. apply always_bind; [apply receiptLatest_keeps|intros _]. apply always_bind.
    { apply each_keeps. intros x. apply always_bind; [by apply startRoom_keeps|intros _; apply startReceipts_keeps]. }
    intros _. apply always_bind; [apply each_keeps; intros; apply startStates_keeps|]. intros _. apply poll_ends; [|done..].
    apply allReady_keeps, Forall_app. split; [|apply Hstate]. apply Forall_flat_map. intros x. apply checks_keep.
  - unfold incrementSyncLoading. do 3 (apply always_bind; [by apply latest_keeps|intros _]).
    apply always_bind; [apply always_if; [apply receiptLatest_keeps|apply always_ret]|intros _].
    apply always_bind; [apply known_keeps; intros; by apply startRoom_keeps|intros ok1]. apply always_if; [apply always_ret|].
    apply always_bind.
    { apply always_if; [|apply always_ret]. apply each_keeps. intros room. apply always_bind; [intros s Hs; by exists s, s|]. intros s.
      apply always_if; [apply startReceipts_keeps|apply always_ret]. }
    intros _. apply always_bind; [apply known_keeps; intros; apply startStates_keeps|intros ok2]. apply always_if; [apply always_ret|].
    apply always_bind; [apply known_keeps; intros; by apply startRoom_keeps|intros ok3]. apply always_if; [apply always_ret|].
    apply poll_ends; [|done..]. intros s Hs. unfold incrementChecks.
    revert Hs. generalize s at 2 3. intros s0 Hs. apply allReady_keeps; [|done]. apply Forall_app. split; [|apply Forall_app; split; [apply Hstate|by apply Forall_flat_map]].
    apply Forall_flat_map. intros x. apply Forall_app. split; [destruct (_ <? _); [apply Hroom|constructor]|].
    destruct (_ && _); [|constructor]. by pose proof (checks_keep (srmRoomID x) (rqUserID r)) as [_ Hf]%Forall_app.
Qed.

(** C35: A request to load rooms is answered.  Whatever the request asks for, whether
    the database answers or fails and whatever the goroutines do during the sleeps, as
    long as they keep the timelines sound, the server says whether it is ready, when 35
    seconds have passed at the latest. *)
Theorem load_answered s r start turns : DbAnswers -> Steady s -> (forall t s, t ∈ turns -> Steady s -> Steady (t.2 s)) ->
  Exists (fun t => 35 < t.1 - start) turns ->
  exists ready s', processSync visibilityTime nowTs "load" r start turns s = (Ok (Some (Ready ready)), s') /\ Steady s'.
Proof using.
  intros Hdb Hs Hd He. destruct (loading_keeps r start turns Hdb Hd He s Hs) as (ok & s' & E & Hs').
  exists ok, s'. split; [|done]. unfold processSync, mbind at 1, ST_bind at 1. rewrite E. by destruct ok.
Qed.

(** ** A request to sync *)

(** The receipts of the rooms are in memory. *)
Definition ReceiptsWarm s (user : string) (rooms : list string) : Prop := forall room, room ∈ rooms ->
  room ∈ ready (Receipts.rsGate (receipts s)) /\ Receipts.receiptKey room user ∈ ready (Receipts.urGate (receipts s)) /\
  forall c, Receipts.container (receipts s) !! room = Some c -> exists l, Rep (Receipts.Content c) l.

(** What was in memory still is. *)
Record Held s s' : Prop := {
  he_warm : forall room user l sl min rs, WarmRoom s room user l sl min rs -> WarmRoom s' room user l sl min rs;
  he_receipts : forall user rooms, ReceiptsWarm s user rooms -> ReceiptsWarm s' user rooms;
  he_latest : roomLatest (roomHistory s') = roomLatest (roomHistory s);
}.

Lemma Held_refl s : Held s s.
Proof using. done. Qed.

Lemma touched_receipts s s' user rooms : Touched s s' -> ReceiptsWarm s user rooms -> ReceiptsWarm s' user rooms.
Proof using. by intros (rh & rst & rsm & -> & _). Qed.

Lemma Held_touched s0 s s' : Held s0 s -> Touched s s' -> Held s0 s'.
Proof using.
  intros [Hw Hr Hl] T. split.
  - intros room user l sl min rs Hw0. eapply warm_touched; [by apply Hw|done].
  - intros user rooms Hr0. eapply touched_receipts; [done|by apply Hr].
  - destruct (Touched_history _ _ T) as [rh ->]. exact Hl.
Qed.

(** [m] gives [a] and holds what [s0] has in memory. *)
Definition yields s0 {A} (m : ST (SyncServer D) A) (a : A) : Prop := forall s, Held s0 s -> exists s', m s = (Ok a, s') /\ Held s0 s'.

Lemma yields_ret s0 {A} (a : A) : yields s0 (mret a) a.
Proof using. intros s Hs. by exists s. Qed.

Lemma yields_bind s0 {A B} (m : ST (SyncServer D) A) (f : A -> ST (SyncServer D) B) a b : yields s0 m a -> yields s0 (f a) b -> yields s0 (m ≫= f) b.
Proof using. intros Hm Hf s Hs. destruct (Hm s Hs) as (s1 & E & Hs1). unfold mbind, ST_bind. rewrite E. by apply Hf. Qed.

#[local] Hint Resolve yields_ret yields_bind : keeps.

Section WarmLoading.
  Context (s0 : SyncServer D) (room user : string) (l : list StreamEvent) (sl : list StateStream) (min : Z) (rs : RoomState).
  Context (Hwarm : WarmRoom s0 room user l sl min rs).

Lemma held_room s : Held s0 s -> WarmRoom s room user l sl min rs.
Proof using Hwarm. intros Hs. by apply (he_warm _ _ Hs). Qed.

Lemma states_stale s : Held s0 s -> exists t, @stale _ state_loads room (states s) = (Ok false, t) /\ Touched s (mkServer (roomHistory s) (Receipts.set_members (receipts s) t) (readCounts s)).
Proof using Hwarm.
  intros Hs%held_room. destruct (getTimeLine_map (stateRepo (states s)) room (w_srepo _ _ _ _ _ _ _ Hs)) as (r' & E & Hl).
  destruct (w_sget _ _ _ _ _ _ _ Hs) as (tl & Hg & _). eexists. split.
  - cbn. unfold mbind, ST_bind, stateTimeLine. rewrite E, Hg. done.
  - pose proof (touch_states s _ _ _ _ _ _ r' (streamRepo (states s)) Hs Hl (like_refl _ (w_mrepo _ _ _ _ _ _ _ Hs))) as T. by destruct (states s).
Qed.

Lemma streams_stale s : Held s0 s -> exists t, @stale _ stream_loads room (states s) = (Ok false, t) /\ Touched s (mkServer (roomHistory s) (Receipts.set_members (receipts s) t) (readCounts s)).
Proof using Hwarm.
  intros Hs%held_room. destruct (getTimeLine_map (streamRepo (states s)) room (w_mrepo _ _ _ _ _ _ _ Hs)) as (r' & E & Hl).
  destruct (w_mget _ _ _ _ _ _ _ Hs) as [tl Hg]. eexists. split.
  - cbn. unfold mbind, ST_bind, streamTimeLine. rewrite E, Hg. done.
  - pose proof (touch_states s _ _ _ _ _ _ (stateRepo (states s)) r' Hs (like_refl _ (w_srepo _ _ _ _ _ _ _ Hs)) Hl) as T. by destruct (states s).
Qed.

Lemma history_stale s : Held s0 s -> exists h, @stale _ history_loads room (roomHistory s) = (Ok false, h) /\ Touched s (mkServer h (receipts s) (readCounts s)).
Proof using Hwarm.
  intros Hs%held_room. destruct (getTimeLine_map (repo (roomHistory s)) room) as (r' & E & Hl); [apply Hs|].
  destruct (w_hget _ _ _ _ _ _ _ Hs) as [tl Hg]. eexists. split.
  - cbn. unfold mbind, ST_bind, timeLineOf. rewrite E, Hg. done.
  - by eapply touch_history.
Qed.

Lemma startStates_warm : yields s0 (startStates room) ().
Proof using Hwarm.
  intros s Hs. destruct (states_stale s Hs) as (t & E & T). eexists. split; [|by eapply Held_touched].
  unfold startStates, onStates, onReceipts, LoadStates, LoadHistory. fold (states s).
  by rewrite (loaded_quiet (H := state_loads) room (states s) t _ false (w_sready _ _ _ _ _ _ _ (held_room s Hs)) E).
Qed.

Lemma startRoom_warm : yields s0 (startRoom room) ().
Proof using Hwarm.
  unfold startRoom. eapply yields_bind; [apply startStates_warm|]. eapply yields_bind; [|eapply yields_bind; [|eapply yields_bind; [|apply yields_ret]]].
  - intros s Hs. destruct (streams_stale s Hs) as (t & E & T). eexists. split; [|by eapply Held_touched].
    unfold onStates, onReceipts, LoadStreamStates, LoadHistory. fold (states s).
    by rewrite (loaded_quiet (H := stream_loads) room (states s) t _ false (w_mready _ _ _ _ _ _ _ (held_room s Hs)) E).
  - intros s Hs. destruct (history_stale s Hs) as (h & E & T). eexists. split; [|by eapply Held_touched].
    unfold onRoomHistory, LoadRoomHistory, LoadHistory.
    by rewrite (loaded_quiet (H := history_loads) room (roomHistory s) h _ false (w_hready _ _ _ _ _ _ _ (held_room s Hs)) E).
  - intros s Hs. destruct (minStream_quiet room user l sl min rs s (held_room s Hs)) as (s' & E & T). exists s'. split; [exact E|by eapply Held_touched].
Qed.

Lemma roomChecks_warm : Forall (fun m => yields s0 m true) (roomChecks room).
Proof using Hwarm.
  repeat (apply Forall_cons; split); [..|by apply Forall_nil]; intros s Hs.
  - destruct (states_stale s Hs) as (t & E & T). eexists. split; [|by eapply Held_touched].
    unfold CheckStateLoadReady, onStates, onReceipts. fold (states s). by rewrite (loaded_check (H := state_loads) room (states s) t (w_sready _ _ _ _ _ _ _ (held_room s Hs)) E).
  - destruct (streams_stale s Hs) as (t & E & T). eexists. split; [|by eapply Held_touched].
    unfold CheckStreamLoadReady, onStates, onReceipts. fold (states s). by rewrite (loaded_check (H := stream_loads) room (states s) t (w_mready _ _ _ _ _ _ _ (held_room s Hs)) E).
  - destruct (history_stale s Hs) as (h & E & T). eexists. split; [|by eapply Held_touched].
    unfold CheckHistoryReady, onRoomHistory. by rewrite (loaded_check (H := history_loads) room (roomHistory s) h (w_hready _ _ _ _ _ _ _ (held_room s Hs)) E).
Qed.

End WarmLoading.

Section WarmReceipts.
  Context (s0 : SyncServer D) (room user : string).
  Context (Hready : forall s, Held s0 s -> room ∈ ready (Receipts.rsGate (receipts s)) /\ Receipts.receiptKey room user ∈ ready (Receipts.urGate (receipts s))).

Lemma server_id s : mkServer (roomHistory s) (receipts s) (readCounts s) = s.
Proof using. by destruct s. Qed.

Lemma startReceipts_warm : yields s0 (startReceipts user room) ().
Proof using Hready.
  eapply yields_bind; intros s Hs; destruct (Hready s Hs) as [Hr Hu]; exists s; (split; [|done]); unfold onReceipts.
  - unfold Receipts.LoadStreamHistory, LoadHistory. by rewrite (loaded_quiet (H := Receipts.stream_loads) room (receipts s) (receipts s) _ false Hr eq_refl), server_id.
  - unfold Receipts.LoadUserHistory, LoadHistory. by rewrite (loaded_quiet (H := Receipts.user_loads user room) _ (receipts s) (receipts s) _ false Hu eq_refl), server_id.
Qed.

Lemma receiptChecks_warm : Forall (fun m => yields s0 m true) (receiptChecks user room).
Proof using Hready.
  repeat (apply Forall_cons; split); [..|by apply Forall_nil]; intros s Hs; destruct (Hready s Hs) as [Hr Hu]; exists s; (split; [|done]).
  - unfold CheckReceiptsReady, onReceipts. by rewrite (loaded_check (H := Receipts.stream_loads) room (receipts s) (receipts s) Hr eq_refl), server_id.
  - unfold CheckUserReady, onReceipts. by rewrite (loaded_check (H := Receipts.user_loads user room) _ (receipts s) (receipts s) Hu eq_refl), server_id.
Qed.

End WarmReceipts.

Lemma allReady_warm s0 checks : Forall (fun m => yields s0 m true) checks -> yields s0 (allReady checks) true.
Proof using.
  induction 1 as [|m ms Hm _ IH]; cbn [allReady]; [apply yields_ret|]. eapply yields_bind; [exact Hm|]. eapply yields_bind; [exact IH|apply yields_ret].
Qed.

Lemma each_warm s0 {A} (f : A -> ST (SyncServer D) unit) l : (forall x, x ∈ l -> yields s0 (f x) ()) -> yields s0 (each f l) ().
Proof using.
  induction l as [|x l IH]; intros Hf; cbn [each]; [apply yields_ret|]. eapply yields_bind; [apply Hf; by left|]. apply IH. intros y Hy. apply Hf. by right.
Qed.

Lemma known_warm s0 f rooms : (forall x, x ∈ rooms -> yields s0 (f (srmRoomID x)) () /\ srmStart x <= GetRoomLastOffset (roomHistory s0) (srmRoomID x)) ->
  yields s0 (startKnown f rooms) true.
Proof using.
  induction rooms as [|x rooms IH]; intros Hf; cbn [startKnown]; [apply yields_ret|]. destruct (Hf x) as [Hx Hle]; [by left|].
  intros s Hs. unfold mbind at 1, ST_bind at 1. cbn [getServer]. unfold GetRoomLastOffset in *. rewrite (he_latest _ _ Hs). destruct (Z.leb_spec (srmStart x) (default (-1) (roomLatest (roomHistory s0) !! srmRoomID x))); [|lia].
  revert s Hs. eapply yields_bind; [exact Hx|]. apply IH. intros y Hy. apply Hf. by right.
Qed.

Lemma receiptLatest_warm s0 rooms : yields s0 (onReceipts (Receipts.LoadReceiptLatest rooms)) ().
Proof using.
  intros s Hs.
  assert (Hset : forall k z (t : Receipts.Repos (RoomStates D)), exists m, Receipts.setReceiptLatest k z t = Receipts.set_rsLatest t m) by (intros; by eexists).
  assert (Hsame : exists d m, Receipts.LoadReceiptLatest rooms (receipts s) = (Ok (), Receipts.set_rsLatest (Receipts.set_db (receipts s) d) m)).
  { unfold Receipts.LoadReceiptLatest. destruct (_ =? 0)%nat; [exists (Receipts.db (receipts s)), (Receipts.rsLatest (receipts s)); by destruct (receipts s)|].
    unfold Receipts.onSql. destruct (Receipts.GetRoomReceiptLastOffsets _ _) as [y d]. exists d. cbn [fst snd].
    set (t := Receipts.set_db (receipts s) d). set (l1 := range _). set (l2 := List.filter _ rooms).
    assert (Hraise : forall l t, exists m, fold_left (fun (u : Receipts.Repos (RoomStates D)) kv => Receipts.setReceiptLatest kv.1 kv.2 u) l t = Receipts.set_rsLatest t m).
    { induction l as [|kv l IH]; intros u; [exists (Receipts.rsLatest u); by destruct u|]. cbn. destruct (IH (Receipts.setReceiptLatest kv.1 kv.2 u)) as [m ->]. by exists m. }
    assert (Hzero : forall (mm : gmap string Z) l t, exists m, fold_left (fun (u : Receipts.Repos (RoomStates D)) k => match mm !! k with Some _ => u | None => Receipts.setReceiptLatest k 0 u end) l t = Receipts.set_rsLatest t m).
    { intros mm. induction l as [|k l IH]; intros u; [exists (Receipts.rsLatest u); by destruct u|]. cbn. destruct (mm !! k); [apply IH|].
      destruct (IH (Receipts.setReceiptLatest k 0 u)) as [m ->]. by exists m. }
    destruct (Hraise l1 t) as [m1 ->]. destruct (Hzero (match y with Ok m => m | _ => ∅ end) l2 (Receipts.set_rsLatest t m1)) as [m2 ->].
    by exists m2. }
  destruct Hsame as (d & m & E). unfold onReceipts. rewrite E. eexists. split; [done|]. destruct Hs as [Hw Hr Hl]. split.
  - intros room user l sl min rs Hw0. by destruct (Hw _ _ _ _ _ _ Hw0).
  - intros user rs Hr0. by apply Hr in Hr0.
  - exact Hl.
Qed.

(** *** The receipts and the counts of a reply *)

Lemma addFeeds_keys room from maxPos feeds : forall acc k, is_Some ((ReceiptConsumer.addFeeds room from maxPos feeds acc).1 !! k) -> is_Some (acc.1 !! k) \/ k = room.
Proof using.
  unfold ReceiptConsumer.addFeeds. induction feeds as [|f feeds IH]; intros acc k; cbn [fold_left]; [by left|]. intros [Hk|?]%IH; [|by right].
  destruct (_ && _); [|by left]. destruct (ReceiptConsumer.decodes _); [|by left]. cbn [fst] in Hk. unfold ReceiptConsumer.addEphemeral in Hk.
  destruct (decide (k = room)) as [->|Hne]; [by right|]. rewrite lookup_insert_ne in Hk by done. by left.
Qed.

Lemma addSelf_warm req room off e (t : Receipts.Repos (RoomStates D)) : Receipts.receiptKey room (ReceiptConsumer.sqUserID req) ∈ ready (Receipts.urGate t) ->
  exists e' b, ReceiptConsumer.addSelf req room off e t = (Ok (e', b), t) /\ forall k, is_Some (e' !! k) -> is_Some (e !! k) \/ k = room.
Proof using.
  intros Hk. unfold ReceiptConsumer.addSelf. destruct (ReceiptConsumer.IsFullSync req); [|eexists e, true; split; [done|by left]].
  assert (El : Receipts.latestReceipt (ReceiptConsumer.sqUserID req) room t = (Ok (Receipts.receipt t !! Receipts.receiptKey room (ReceiptConsumer.sqUserID req)), t)).
  { unfold Receipts.latestReceipt, mbind, ST_bind. by rewrite decide_True by done. }
  unfold Receipts.GetLatestOffset, Receipts.GetLatestReceipt, mbind, ST_bind. rewrite El. cbn [mret ST_ret].
  destruct (_ && _); [|eexists e, true; split; [done|by left]]. rewrite El.
  destruct (match Receipts.receipt t !! _ with Some u => Receipts.urContent u | None => None end) as [c|]; [|eexists e, true; split; [done|by left]].
  cbn [mret ST_ret]. destruct (ReceiptConsumer.decodes c); [|eexists e, false; split; [done|by left]]. eexists _, true. split; [done|]. intros k. unfold ReceiptConsumer.addEphemeral.
  destruct (decide (k = room)) as [->|Hne]; [by right|]. rewrite lookup_insert_ne by done. by left.
Qed.

Definition warmRoom (t : Receipts.Repos (RoomStates D)) (user room : string) : Prop :=
  room ∈ ready (Receipts.rsGate t) /\ Receipts.receiptKey room user ∈ ready (Receipts.urGate t) /\
  forall c, Receipts.container t !! room = Some c -> exists l, Rep (Receipts.Content c) l.

Lemma addRoom_warm req maxPos room acc (t : Receipts.Repos (RoomStates D)) : warmRoom t (ReceiptConsumer.sqUserID req) room ->
  exists acc', ReceiptConsumer.addRoom req maxPos room acc t = (Ok acc', t) /\ forall k, is_Some (acc'.1 !! k) -> is_Some (acc.1 !! k) \/ k = room.
Proof using.
  intros (Hr & Hu & Hrep). unfold ReceiptConsumer.addRoom. destruct (_ <=? _); [exists acc; split; [done|by left]|].
  unfold Receipts.GetReceiptHistory, mbind, ST_bind. rewrite decide_True by done. cbn [mret ST_ret].
  destruct (Receipts.container t !! room) as [c|] eqn:Ec; cbn [fmap option_fmap option_map]; [|exists acc; split; [done|by left]].
  destruct (_ <? _); [|exists acc; split; [done|by left]].
  destruct (addSelf_warm req room (Receipts.GetReceiptLastOffset t room) acc.1 t Hu) as (e & b & -> & He).
  destruct b; [|exists (e, acc.2); split; [done|exact He]]. destruct (Hrep c eq_refl) as [l Hl]. cbn [liftR]. rewrite (ReceiptDelivery.ForRange_all _ _ Hl). eexists. split; [done|].
  intros k [Hk|?]%addFeeds_keys; [by apply He|by right].
Qed.

Lemma addReceipt_warm req maxPos resp (t : Receipts.Repos (RoomStates D)) : (forall room, room ∈ ReceiptConsumer.JoinedRooms req -> warmRoom t (ReceiptConsumer.sqUserID req) room) ->
  exists rep t', ReceiptConsumer.addReceipt req maxPos resp t = (Ok rep, t') /\
    forall k, is_Some (ReceiptConsumer.Ephemeral rep !! k) -> is_Some (ReceiptConsumer.Ephemeral resp !! k) \/ k ∈ ReceiptConsumer.JoinedRooms req.
Proof using.
  intros Hw. unfold ReceiptConsumer.addReceipt. assert (Hex : exists b t1, Receipts.ExistsReceipt (ReceiptConsumer.sqReceiptOffset req) (ReceiptConsumer.sqUserID req) t = (b, t1) /\
            forall room, warmRoom t (ReceiptConsumer.sqUserID req) room -> warmRoom t1 (ReceiptConsumer.sqUserID req) room).
  { unfold Receipts.ExistsReceipt. destruct (Receipts.userMaxStream t !! _); eexists _, _; (split; [done|]); [done|]. by intros room. }
  destruct Hex as (b & t1 & -> & Hkeep). destruct b; cbn [negb]; [|eexists _, _; split; [done|by left]].
  assert (Hrooms : forall rooms acc, (forall room, room ∈ rooms -> warmRoom t1 (ReceiptConsumer.sqUserID req) room) ->
            exists acc', ReceiptConsumer.addRooms req maxPos rooms acc t1 = (Ok acc', t1) /\ forall k, is_Some (acc'.1 !! k) -> is_Some (acc.1 !! k) \/ k ∈ rooms).
  { induction rooms as [|room rooms IH]; intros acc Hall; [exists acc; split; [done|by left]|]. cbn [ReceiptConsumer.addRooms].
    destruct (addRoom_warm req maxPos room acc t1) as (acc1 & E1 & H1'); [apply Hall; by left|]. destruct (IH acc1) as (acc2 & E2 & H2'); [intros x Hx; apply Hall; by right|].
    exists acc2. unfold mbind, ST_bind. rewrite E1, E2. split; [done|]. intros k [Hk|Hk]%H2'; [|right; by right].
    apply H1' in Hk as [?| ->]; [by left|right; by left]. }
  destruct (Hrooms (ReceiptConsumer.JoinedRooms req) (ReceiptConsumer.Ephemeral resp, -1)) as (acc & E & Hk); [intros room Hin; by apply Hkeep, Hw|].
  eexists _, t1. unfold mbind, ST_bind. rewrite E. split; [done|exact Hk].
Qed.

(** The timelines of a reply are final before the receipts and counts are added. *)
Definition sameTimelines (joined : list string) (p1 p2 : SyncServerResponse) : Prop := MaxRoomOffset p2 = MaxRoomOffset p1 /\ forall room,
  (jrTimeline <$> Join p2 !! room) = (jrTimeline <$> Join p1 !! room) \/ (Join p1 !! room = None /\ room ∈ joined).

Lemma sameTimelines_refl joined p1 : sameTimelines joined p1 p1.
Proof using. split; [done|]. by left. Qed.

Lemma receipts_timelines (kvs : list (string * list string)) (joined : list string) : (forall kv, kv ∈ kvs -> kv.1 ∈ joined) -> forall (m : gmap string JoinResponse) room,
  let m' := fold_left (fun m kv => let j := default NewJoinResponse (m !! kv.1) in
    <[kv.1 := mkJoin (jrTimeline j) (jrState j) (jrEphemeral j ++ kv.2)%list (jrUnread j)]> m) kvs m in
  (jrTimeline <$> m' !! room) = (jrTimeline <$> m !! room) \/ (m !! room = None /\ room ∈ joined).
Proof using.
  induction kvs as [|kv kvs IH]; intros Hin m room; [by left|]. cbn [fold_left]. set (m1 := <[kv.1 := _]> m).
  destruct (IH ltac:(intros x Hx; apply Hin; by right) m1 room) as [Heq|[Hn Hj]].
  - cbv zeta in Heq. rewrite Heq. unfold m1. destruct (decide (kv.1 = room)) as [<-|Hne]; [|rewrite lookup_insert_ne by done; by left].
    rewrite lookup_insert_eq. destruct (m !! kv.1) eqn:E; [by left|]. right. split; [done|]. apply Hin. by left.
  - right. split; [|done]. unfold m1 in Hn. by apply lookup_insert_None in Hn as [? _].
Qed.

Lemma unread_timelines user (kvs : list (string * JoinResponse)) (m0 : gmap string JoinResponse) : (forall kv, kv ∈ kvs -> m0 !! kv.1 = Some kv.2) -> forall (acc : gmap string JoinResponse * Push.ReadCountRepo),
  (forall room, (jrTimeline <$> acc.1 !! room) = (jrTimeline <$> m0 !! room)) -> forall room,
  (jrTimeline <$> (fold_left (fun acc kv => let '(n, c) := Push.GetRoomReadCount acc.2 kv.1 user in
    (<[kv.1 := mkJoin (jrTimeline kv.2) (jrState kv.2) (jrEphemeral kv.2) (Some n)]> acc.1, c)) kvs acc).1 !! room) = (jrTimeline <$> m0 !! room).
Proof using.
  induction kvs as [|kv kvs IH]; intros Hin acc Hacc room; [apply Hacc|]. cbn [fold_left]. apply IH; [intros x Hx; apply Hin; by right|]. intros k.
  destruct (Push.GetRoomReadCount acc.2 kv.1 user) as [n c]. cbn [fst]. destruct (decide (kv.1 = k)) as [<-|Hne]; [|by rewrite lookup_insert_ne].
  rewrite lookup_insert_eq, (Hin kv ltac:(by left)). done.
Qed.

Lemma finish_warm s r resp : (forall room, room ∈ rqJoinedRooms r -> warmRoom (receipts s) (rqUserID r) room) ->
  exists resp' s', finishReply r resp s = (Ok resp', s') /\ sameTimelines (rqJoinedRooms r) resp resp'.
Proof using.
  intros Hw. unfold finishReply. destruct (IsHuman r); [|exists resp, s; split; [done|apply sameTimelines_refl]].
  unfold receiptsOf, mbind, ST_bind, onReceipts.
  edestruct (addReceipt_warm (ReceiptConsumer.mkSyncRequest (rqUserID r) (rqJoinedRooms r) (rqReceiptOffset r) (rqIsFullSync r)) (rqMaxReceiptOffset r)
              (ReceiptConsumer.mkSyncResponse ∅ (-1)) (receipts s)) as (rep & t' & -> & Hk); [exact Hw|]. cbn [mret ST_ret]. set (resp1 := set_receiptPos _ _).
  assert (H1' : sameTimelines (rqJoinedRooms r) resp resp1).
  { split; [done|]. intros room. apply receipts_timelines. intros [k v] Hin%range_elem. destruct (Hk k) as [[? Hz]|?]; [by eexists|cbn in Hz; by rewrite lookup_empty in Hz|done]. }
  unfold addUnreadCount. cbn [receipts readCounts]. destruct (fold_left _ (range (Join resp1)) _) as [j c] eqn:Ef. eexists _, _. split; [done|]. destruct H1' as [E1 Ht]. split; [done|]. intros room.
  pose proof (unread_timelines (rqUserID r) (range (Join resp1)) (Join resp1) ltac:(intros [k v]; apply range_elem) (Join resp1, readCounts s) ltac:(done) room) as Hu.
  cbn [Join set_join]. assert (Ej : (jrTimeline <$> j !! room) = (jrTimeline <$> Join resp1 !! room)).
  { rewrite <- Hu. f_equal. match type of Ef with _ = _ => idtac end. change j with (j, c).1. rewrite <- Ef. done. }
  rewrite Ej. apply Ht.
Qed.

(** *** The form of any answer *)

(** What a call gives when it gives something. *)
Definition gives {S A} (m : ST S A) (P : A -> Prop) : Prop := forall x a x', m x = (Ok a, x') -> P a.

Lemma gives_ret {S A} (a : A) (P : A -> Prop) : P a -> gives (S := S) (mret a) P.
Proof using. by intros Hp x b x' [= <- _]. Qed.

Lemma gives_any {S A} (m : ST S A) : gives m (fun _ => True).
Proof using. by intros x a x' _. Qed.

Lemma gives_bind {S A B} (m : ST S A) (f : A -> ST S B) P Q : gives m P -> (forall a, P a -> gives (f a) Q) -> gives (m ≫= f) Q.
Proof using. intros Hm Hf x b x'. intros (a & x1 & E & Hb)%ST_bind_inv. eapply Hf; [|exact Hb]. by eapply Hm. Qed.

(** Nothing is needed of the first part. *)
Lemma gives_then {S A B} (m : ST S A) (f : A -> ST S B) Q : (forall a, gives (f a) Q) -> gives (m ≫= f) Q.
Proof using. intros Hf. eapply gives_bind; [apply gives_any|]. intros a _. apply Hf. Qed.

Lemma gives_onReceipts {A} (m : ST (Receipts.Repos (RoomStates D)) A) P : gives m P -> gives (onReceipts m) P.
Proof using. intros Hm x a x'. unfold onReceipts. destruct (m (receipts x)) as [y t] eqn:E. intros [= -> _]. by eapply Hm. Qed.

(** The ephemeral events of a reply are those of joined rooms. *)
Definition grows (ids : list string) (e e' : gmap string (list string)) : Prop := forall k, is_Some (e' !! k) -> is_Some (e !! k) \/ k ∈ ids.

Lemma grows_refl ids e : grows ids e e.
Proof using. by left. Qed.

Lemma grows_add room content e : grows [room] e (ReceiptConsumer.addEphemeral room content e).
Proof using.
  intros k. unfold ReceiptConsumer.addEphemeral. destruct (decide (k = room)) as [->|Hne]; [right; by left|]. rewrite lookup_insert_ne by done. by left.
Qed.

Lemma addSelf_grows req room off e : gives (ReceiptConsumer.addSelf (M := RoomStates D) req room off e) (fun x => grows [room] e x.1).
Proof using.
  unfold ReceiptConsumer.addSelf. destruct (ReceiptConsumer.IsFullSync req); [|apply gives_ret, grows_refl]. apply gives_then. intros u.
  destruct (_ && _); [|apply gives_ret, grows_refl]. apply gives_then. intros [c|]; apply gives_ret; [|apply grows_refl].
  destruct (ReceiptConsumer.decodes c); [apply grows_add|apply grows_refl].
Qed.

Lemma addRoom_grows req maxPos room acc : gives (ReceiptConsumer.addRoom (M := RoomStates D) req maxPos room acc) (fun x => grows [room] acc.1 x.1).
Proof using.
  intros t a t'. unfold ReceiptConsumer.addRoom. destruct (_ <=? _); [intros [= <- _]; apply grows_refl|]. intros (h & t1 & _ & E)%ST_bind_inv.
  destruct h as [tl|]; [|injection E as <- _; apply grows_refl]. destruct (_ <? _); [|injection E as <- _; apply grows_refl].
  apply ST_bind_inv in E as ([e b] & t2 & He%addSelf_grows & E). cbn [fst snd] in *. destruct b; [|by injection E as <- _].
  apply ST_bind_inv in E as (feeds & t3 & _ & E). injection E as <- _.
  intros k [Hk|?]%addFeeds_keys; [by apply He|subst; right; by left].
Qed.

Lemma addReceipt_grows req maxPos resp :
  gives (ReceiptConsumer.addReceipt (M := RoomStates D) req maxPos resp) (fun x => grows (ReceiptConsumer.JoinedRooms req) (ReceiptConsumer.Ephemeral resp) (ReceiptConsumer.Ephemeral x)).
Proof using.
  assert (Hrooms : forall ids acc, gives (ReceiptConsumer.addRooms (M := RoomStates D) req maxPos ids acc) (fun x => grows ids acc.1 x.1)).
  { induction ids as [|room ids IH]; intros acc; [apply gives_ret, grows_refl|]. cbn [ReceiptConsumer.addRooms]. eapply gives_bind; [apply addRoom_grows|]. intros acc1 H1' t a t' E.
    intros k [Hk|Hk]%(IH acc1 t a t' E); [|right; by right]. apply H1' in Hk as [?| ->%list_elem_of_singleton]; [by left|right; by left]. }
  intros t a t'. unfold ReceiptConsumer.addReceipt. destruct (Receipts.ExistsReceipt _ _ t) as [b t1]. destruct b; cbn [negb]; [|intros [= <- _]; apply grows_refl].
  intros (acc & t2 & E & Ha)%ST_bind_inv. injection Ha as <- _. by apply (Hrooms _ _ _ _ _ E).
Qed.

Lemma finish_form r resp : gives (finishReply r resp) (sameTimelines (rqJoinedRooms r) resp).
Proof using.
  unfold finishReply. destruct (IsHuman r); [|apply gives_ret, sameTimelines_refl]. unfold receiptsOf.
  eapply gives_bind.
  { eapply gives_bind; [apply gives_onReceipts, addReceipt_grows|]. intros rep Hk. apply gives_ret.
    instantiate (1 := sameTimelines (rqJoinedRooms r) resp). split; [done|]. intros room. cbn [Join set_receiptPos set_join]. apply receipts_timelines.
    intros [k v] Hin%range_elem. destruct (Hk k) as [[? Hz]|?]; [by eexists|cbn in Hz; by rewrite lookup_empty in Hz|done]. }
  intros resp1 [E1 Ht] x a x'. unfold addUnreadCount. destruct (fold_left _ (range (Join resp1)) _) as [j c] eqn:Ef. intros [= <- _]. split; [done|]. intros room.
  pose proof (unread_timelines (rqUserID r) (range (Join resp1)) (Join resp1) ltac:(intros [k v]; apply range_elem) (Join resp1, readCounts x) ltac:(done) room) as Hu.
  cbn [Join set_join]. assert (Ej : (jrTimeline <$> j !! room) = (jrTimeline <$> Join resp1 !! room)).
  { rewrite <- Hu. f_equal. change j with (j, c).1. by rewrite <- Ef. }
  rewrite Ej. apply Ht.
Qed.

(** The replies and positions of a part of the rooms. *)
Record Fills (replies positions : list string) (p1 p2 : SyncServerResponse) : Prop := {
  fi_replies : forall room, is_Some (Join p2 !! room) <-> is_Some (Join p1 !! room) \/ room ∈ replies;
  fi_positions : forall room, room ∉ positions -> MaxRoomOffset p2 !! room = MaxRoomOffset p1 !! room;
}.

Lemma Fills_none p : Fills [] [] p p.
Proof using. split; [|done]. intros room. split; [by left|]. by intros [?|?%not_elem_of_nil]. Qed.

Lemma Fills_trans a1 b1 a2 b2 p1 p2 p3 : Fills a1 b1 p1 p2 -> Fills a2 b2 p2 p3 -> Fills (a1 ++ a2) (b1 ++ b2) p1 p3.
Proof using.
  intros [H1' H2'] [H3' H4']. split.
  - intros room. rewrite H3', H1', elem_of_app. tauto.
  - intros room [Hn1 Hn2]%not_elem_of_app. by rewrite H4', H2'.
Qed.

Lemma joinRooms_form r inc rooms acc : gives (joinRooms visibilityTime nowTs r inc rooms acc) (fun acc' => Fills (map srmRoomID rooms) (map srmRoomID rooms) acc.1 acc'.1).
Proof using.
  revert acc. induction rooms as [|x rooms IH]; intros acc; [apply gives_ret, Fills_none|]. cbn [joinRooms]. apply gives_then. intros [[j pos] users]. cbv zeta. intros s a s' E.
  apply (Fills_trans [srmRoomID x] [srmRoomID x] _ _ acc.1 (addJoin (srmRoomID x) j pos (notLoaded (inc && (0 <? pos) && (pos <? srmEnd x) && IsHuman r) acc.1)));
    [|by apply (IH _ s a s' E)]. split; cbn.
  - intros room. rewrite list_elem_of_singleton, lookup_insert_is_Some. destruct (decide (srmRoomID x = room)) as [->|Hne]; naive_solver.
  - intros room Hne%not_elem_of_cons. rewrite lookup_insert_ne; [done|]. naive_solver.
Qed.

Lemma inviteRooms_form r inc rooms acc : gives (inviteRooms r inc rooms acc) (Fills [] (map srmRoomID rooms) acc).
Proof using.
  revert acc. induction rooms as [|x rooms IH]; intros acc; [apply gives_ret, Fills_none|]. cbn [inviteRooms]. apply gives_then. intros [evs pos]. intros s a s' E.
  apply (Fills_trans [] [srmRoomID x] [] _ acc (addInvite (srmRoomID x) evs pos (notLoaded (inc && (pos <? srmEnd x) && IsHuman r) acc))); [|by apply (IH _ s a s' E)]. split; cbn.
  - intros room. split; [by left|]. by intros [?|?%not_elem_of_nil].
  - intros room Hne%not_elem_of_cons. rewrite lookup_insert_ne; [done|]. naive_solver.
Qed.

Lemma leaveRooms_form r rooms acc : gives (leaveRooms visibilityTime nowTs r rooms acc) (Fills [] (map srmRoomID rooms) acc).
Proof using.
  revert acc. induction rooms as [|x rooms IH]; intros acc; [apply gives_ret, Fills_none|]. cbn [leaveRooms]. apply gives_then. intros [tl pos]. intros s a s' E.
  apply (Fills_trans [] [srmRoomID x] [] _ acc (addLeave (srmRoomID x) tl pos (notLoaded ((pos <? srmEnd x) && IsHuman r) acc))); [|by apply (IH _ s a s' E)]. split; cbn.
  - intros room. split; [by left|]. by intros [?|?%not_elem_of_nil].
  - intros room Hne%not_elem_of_cons. rewrite lookup_insert_ne; [done|]. naive_solver.
Qed.

(** An answer has positions for the rooms that were asked for, a reply for each joined
    room of these, and others only for rooms the user is in. *)
Record Formed r (a : SyncServerResponse) : Prop := {
  fo_positions : forall room, is_Some (MaxRoomOffset a !! room) -> room ∈ map srmRoomID (JoinRooms r ++ InviteRooms r ++ LeaveRooms r)%list;
  fo_replies : forall room, room ∈ map srmRoomID (JoinRooms r) -> is_Some (Join a !! room);
  fo_others : forall room, room ∉ map srmRoomID (JoinRooms r) -> room ∉ rqJoinedRooms r -> Join a !! room = None;
}.

Lemma filled_formed r resp a : Fills (map srmRoomID (JoinRooms r)) (map srmRoomID (JoinRooms r ++ InviteRooms r ++ LeaveRooms r)%list) emptyResponse resp ->
  sameTimelines (rqJoinedRooms r) resp a -> Formed r a.
Proof using.
  intros [Hrep Hpos] [Emax Ht]. assert (Hsame : forall room, is_Some (Join resp !! room) -> is_Some (Join a !! room)).
  { intros room [j Hj]. destruct (Ht room) as [E|[E _]]; rewrite Hj in E; [|done]. cbn in E. by destruct (Join a !! room). }
  split.
  - intros room Hs. rewrite Emax in Hs. destruct (decide (room ∈ map srmRoomID (JoinRooms r ++ InviteRooms r ++ LeaveRooms r)%list)) as [|Hn]; [done|].
    rewrite (Hpos room Hn) in Hs. cbn in Hs. rewrite lookup_empty in Hs. by destruct Hs.
  - intros room Hin. apply Hsame, Hrep. by right.
  - intros room Hn Hj. assert (Hnone : Join resp !! room = None).
    { apply eq_None_not_Some. intros [[? E]|?]%Hrep; [|done]. cbn in E. by rewrite lookup_empty in E. }
    destruct (Ht room) as [E|[_ ?]]; [|done]. rewrite Hnone in E. cbn in E. by destruct (Join a !! room).
Qed.

Lemma sync_formed r start turns : gives (processSync visibilityTime nowTs "sync" r start turns) (fun p => forall a, p = Some (Reply a) -> Formed r a).
Proof using.
  unfold processSync. apply gives_then. intros [|]; change (String.eqb "sync" "load") with false; change (String.eqb "sync" "sync") with true; cbv iota; [|by apply gives_ret].
  assert (Hno : forall a, Fills [] (map srmRoomID (LeaveRooms r)) a a) by (intros a; split; [intros room; split; [by left|by intros [?|?%not_elem_of_nil]]|done]).
  eapply gives_bind; [|intros resp Hf; apply gives_ret; intros a [= <-]; exact Hf].
  destruct (rqIsFullSync r); [unfold processFullSync|unfold processIncrementSync];
    (eapply gives_bind; [apply joinRooms_form|]; intros acc Hj; eapply gives_bind; [apply inviteRooms_form|]; intros p2 Hi).
  - intros s a s' E%finish_form. eapply filled_formed; [|exact E]. rewrite !map_app. pose proof (Fills_trans _ _ _ _ _ _ _ Hj (Fills_trans _ _ _ _ _ _ _ Hi (Hno p2))) as Hf.
    by rewrite !app_nil_r in Hf.
  - eapply gives_bind; [apply leaveRooms_form|]. intros p3 Hl. eapply gives_bind; [apply finish_form|]. intros a E. apply gives_ret.
    pose proof (Fills_trans _ _ _ _ _ _ _ Hj (Fills_trans _ _ _ _ _ _ _ Hi Hl)) as Hf. cbn [app] in Hf. rewrite app_nil_r in Hf.
    assert (Hfo : Formed r a) by (eapply filled_formed; [|exact E]; by rewrite !map_app). by destruct Hfo.
Qed.

(** *** The rooms of a reply *)

Lemma moved_warm room s s' : Moved room s s' ->
  (forall k user l sl min rs, k <> room -> WarmRoom s k user l sl min rs -> WarmRoom s' k user l sl min rs) /\
  (forall user k, warmRoom (receipts s) user k -> warmRoom (receipts s') user k).
Proof using.
  intros (s2 & s3 & rs' & T1 & E & T2). split.
  - intros k user l sl min rs Hne Hw. eapply warm_touched; [|exact T2]. pose proof (warm_touched _ _ _ _ _ _ _ _ Hw T1) as Hw2.
    unfold putRoomState, onStates, onReceipts in E. injection E as <-. destruct Hw2. split; try done. cbn. by rewrite lookup_insert_ne.
  - intros user k Hk. destruct T2 as (rh & rst & rsm & -> & _). destruct T1 as (rh' & rst' & rsm' & -> & _).
    unfold putRoomState, onStates, onReceipts in E. by injection E as <-.
Qed.

Lemma moved_touched room s s1 s' : Touched s s1 -> Moved room s1 s' -> Moved room s s'.
Proof using. intros T (s2 & s3 & rs' & T1 & E & T2). exists s2, s3, rs'. split_and!; [by eapply Touched_trans|done..]. Qed.

(** A position that is not after the last event. *)
Definition bounded (h : list StreamEvent) (p : Z) : Prop := p <= 0 \/ exists w, w ∈ h /\ p <= seOffset w.

(** The answer to a request, for a room with the events [h] of which the user may see
    those that [sees] tells. *)
Record AnswersRoom (room : string) (sees : StreamEvent -> bool) (h : list StreamEvent) r (a : SyncServerResponse) : Prop := {
  a_asked : forall x, x ∈ JoinRooms r -> SyncRuns.isRoom room x -> exists j pos from, Join a !! room = Some j /\ MaxRoomOffset a !! room = Some pos /\
    from <= srmStart x /\ SyncMngFacts.int64 pos /\ bounded h pos /\ SyncRuns.PageOf sees h from pos (jrTimeline j);
  a_other : (forall x, x ∈ (JoinRooms r ++ InviteRooms r ++ LeaveRooms r)%list -> ~ SyncRuns.isRoom room x) ->
    MaxRoomOffset a !! room = None /\ (room ∉ rqJoinedRooms r -> Join a !! room = None);
}.

(** A room that is asked for: its events are [h], of which the last ones [l] are in
    memory and the client has the others. *)
Record Asked r (x : SyncRoom) (h : list StreamEvent) (sees : StreamEvent -> bool) (l : list StreamEvent) (sl : list StateStream) (rs : RoomState) (stateEvt : StreamEvent) : Prop := {
  as_older : exists older, h = (older ++ l)%list /\ Forall (fun st => seOffset st <= scanStart r stateEvt (srmStart x)) older;
  as_hist : History l;
  as_keyed : Forall (fun st => keyed (seEv st)) l;
  as_skeyed : Forall (fun st => keyed (seEv (stream st))) sl;
  as_state : GetState rs "m.room.member" (rqUserID r) = Some stateEvt;
  as_stays : stays (rqUserID r) (scanStart r stateEvt (srmStart x)) l;
  as_sees : forall st, st ∈ h -> sees st = shown visibilityTime nowTs (rqUserID r) rs st;
  as_width : Forall (fun st => SyncMngFacts.int64 (seOffset st)) h;
  as_states : Forall (fun st => SyncMngFacts.int64 (seOffset (stream st)) /\ bounded h (seOffset (stream st))) sl;
  as_start : -1 <= srmStart x;
}.

(** The timeline that was sent for it. *)
Definition Sends (x : SyncRoom) (h : list StreamEvent) (sees : StreamEvent -> bool) (j : JoinResponse) (pos : Z) : Prop :=
  exists from, from <= srmStart x /\ SyncMngFacts.int64 pos /\ bounded h pos /\ SyncRuns.PageOf sees h from pos (jrTimeline j).

Lemma ascends_last l w x : ascends l -> last l = Some w -> x ∈ l -> seOffset x <= seOffset w.
Proof using.
  intros Ha [l0 ->]%last_Some [Hx|Hx]%elem_of_app; [|apply list_elem_of_singleton in Hx as ->; lia].
  pose proof (ascends_before l0 w [] x Ha Hx). lia.
Qed.

Lemma filter_ext_elem {A} (p q : A -> bool) (l : list A) : (forall x, x ∈ l -> p x = q x) -> List.filter p l = List.filter q l.
Proof using.
  induction l as [|x l IH]; intros Hpq; [done|]. cbn. rewrite (Hpq x ltac:(by left)). destruct (q x); [f_equal|]; apply IH; intros y Hy; apply Hpq; by right.
Qed.

Lemma filter_twice {A} (p q : A -> bool) (l : list A) : List.filter p (List.filter q l) = List.filter (fun x => q x && p x) l.
Proof using. induction l as [|x l IH]; [done|]. cbn. destruct (q x); cbn; [destruct (p x); by rewrite IH|done]. Qed.

(** The events of an interval are those up to its last one. *)
Lemma window_page l from reqEnd w : ascends l -> last (List.filter (inWindow from reqEnd) l) = Some w -> forall x, x ∈ l ->
  (from <? seOffset x) && (seOffset x <=? seOffset w) = inWindow from reqEnd x.
Proof using.
  intros Ha Hlast x Hx. unfold inWindow. destruct (Z.ltb_spec from (seOffset x)) as [Hf|]; [|done]. cbn [andb].
  pose proof (last_Some_elem_of _ _ Hlast) as Hw. apply list_elem_of_In, filter_In in Hw as [_ Hw]. unfold inWindow in Hw. apply andb_prop in Hw as [_ Hw].
  destruct ((seOffset x <=? reqEnd) || (reqEnd =? -1)) eqn:Ein.
  - apply Z.leb_le. eapply ascends_last; [|exact Hlast|]; [by apply RoomMessagesFacts.ascends_filter|]. apply list_elem_of_In, filter_In. split; [by apply list_elem_of_In|].
    unfold inWindow. apply andb_true_intro. split; [by apply Z.ltb_lt|done].
  - apply Z.leb_gt. apply orb_false_iff in Ein as [E1%Z.leb_gt E2]. rewrite E2, orb_false_r in Hw. apply Z.leb_le in Hw. lia.
Qed.

Lemma asked_page s r x h sees l sl min rs stateEvt : WarmRoom s (srmRoomID x) (rqUserID r) l sl min rs -> Asked r x h sees l sl rs stateEvt ->
  exists j pos users s', buildRoomJoinResp visibilityTime nowTs r (srmRoomID x) (srmStart x) (srmEnd x) s = (Ok (j, pos, users), s') /\
    Sends x h sees j pos /\ Moved (srmRoomID x) s s'.
Proof using.
  intros Hw [(older & -> & Hold) Hl Hk Hsk Hst Hstay Hsees Hwid Hstates Hstart].
  destruct (join_reply visibilityTime nowTs s r (srmRoomID x) (srmStart x) (srmEnd x) l sl min rs stateEvt (warm_loadable _ _ _ _ _ _ _ Hw) Hl Hk Hsk Hst Hstay)
    as (j & pos & users & s' & rs' & E & _ & _ & Hnew & Hall & _ & _ & _ & Hpos & Hmoved).
  destruct (loadRoom_quiet (srmRoomID x) (rqUserID r) l sl min rs s Hw) as (s1 & E1 & T1). exists j, pos, users, s'. split_and!; [done| |by eapply moved_touched, Hmoved].
  set (from := scanStart r stateEvt (srmStart x)) in *. exists from. split; [unfold from, scanStart; by destruct (_ || _)|].
  destruct Hpos as [(Eev & Elim & Hp)|(w & Hlast & ->)].
  - assert (Hp' : SyncMngFacts.int64 pos /\ bounded (older ++ l) pos).
    { destruct Hp as [->|(st & Hin & ->)]; [split; [vm_compute; by split; intros ?|left; lia]|]. rewrite Forall_forall in Hstates. by apply Hstates. }
    destruct Hp' as [H64 Hb]. split_and!; [done..|]. eexists _, []. split_and!; [by rewrite app_nil_r|done|congruence].
  - pose proof (last_Some_elem_of _ _ Hlast) as Hin. apply list_elem_of_In, filter_In in Hin as [Hin%list_elem_of_In _].
    assert (Hinh : w ∈ (older ++ l)%list) by (apply elem_of_app; by right). rewrite Forall_forall in Hwid. split_and!; [by apply Hwid|right; by exists w|].
    assert (Epage : List.filter (fun st => (from <? seOffset st) && (seOffset st <=? seOffset w) && sees st) (older ++ l) = wanted visibilityTime nowTs (rqUserID r) rs from (srmEnd x) l).
    { unfold wanted. rewrite filter_twice, List.filter_app, (filter_all_false _ older); cbn [app].
      - apply filter_ext_elem. intros st Hs. rewrite (window_page l from (srmEnd x) w (hs_asc _ Hl) Hlast st Hs). f_equal. apply Hsees, elem_of_app. by right.
      - eapply Forall_impl; [exact Hold|]. cbn. intros st Hle. destruct (Z.ltb_spec from (seOffset st)); [lia|done]. }
    unfold SyncRuns.PageOf. rewrite Epage. destruct Hnew as (old & new & En & Eev). change (wanted visibilityTime nowTs (rqUserID r) rs from (srmEnd x) l = (old ++ new)%list) in En.
    exists old, new. split_and!; [done..|]. intros Hlim. destruct (Hall Hlim) as [Ee _]. change (Events (jrTimeline j) = map seEv (wanted visibilityTime nowTs (rqUserID r) rs from (srmEnd x) l)) in Ee.
    rewrite En, Eev, map_app in Ee. apply (f_equal length) in Ee. rewrite length_app in Ee. destruct old; [done|]. cbn in Ee. lia.
Qed.

(** Room by room, whatever order they come in. *)
Definition inMemory s r (x : SyncRoom) : Prop := exists h sees l sl min rs stateEvt,
  WarmRoom s (srmRoomID x) (rqUserID r) l sl min rs /\ Asked r x h sees l sl rs stateEvt.

(** The answer for [x] is right for whatever its events are. *)
Definition answered s r (x : SyncRoom) (resp : SyncServerResponse) : Prop := exists j pos, Join resp !! srmRoomID x = Some j /\ MaxRoomOffset resp !! srmRoomID x = Some pos /\
  forall h sees l sl min rs stateEvt, WarmRoom s (srmRoomID x) (rqUserID r) l sl min rs -> Asked r x h sees l sl rs stateEvt -> Sends x h sees j pos.

Lemma joinRooms_answer r inc rooms : NoDup (map srmRoomID rooms) -> forall s acc, (forall x, x ∈ rooms -> inMemory s r x) ->
  exists acc' s', joinRooms visibilityTime nowTs r inc rooms acc s = (Ok acc', s') /\
    (forall x, x ∈ rooms -> answered s r x acc'.1) /\
    (forall room, room ∉ map srmRoomID rooms -> Join acc'.1 !! room = Join acc.1 !! room /\ MaxRoomOffset acc'.1 !! room = MaxRoomOffset acc.1 !! room) /\
    (forall user k, warmRoom (receipts s) user k -> warmRoom (receipts s') user k).
Proof using.
  induction rooms as [|x rooms IH]; intros Hnd s acc Hall.
  { exists acc, s. split_and!; try done. by intros x Hx%elem_of_nil. }
  apply NoDup_cons in Hnd as [Hx Hnd]. destruct (Hall x) as (h & sees & l & sl & min & rs & stateEvt & Hw & Ha); [by left|].
  destruct (asked_page s r x h sees l sl min rs stateEvt Hw Ha) as (j & pos & users & s1 & E1 & _ & Hm). destruct (moved_warm _ _ _ Hm) as [Hkeep Hrec].
  cbn [joinRooms]. unfold mbind, ST_bind. rewrite E1. cbv zeta. match goal with |- context [joinRooms _ _ _ _ rooms ?a _] => set (acc1 := a) end.
  destruct (IH Hnd s1 acc1) as (acc' & s' & E2 & Hans & Hrest & Hrec').
  { intros y Hy. destruct (Hall y) as (h' & sees' & l' & sl' & min' & rs' & e' & Hw' & Ha'); [by right|]. exists h', sees', l', sl', min', rs', e'. split; [|done].
    apply Hkeep; [|done]. intros Ey. apply Hx. rewrite <- Ey. apply list_elem_of_fmap. by exists y. }
  assert (Hj : Join acc1.1 !! srmRoomID x = Some j /\ MaxRoomOffset acc1.1 !! srmRoomID x = Some pos) by (split; apply lookup_insert_eq).
  exists acc', s'. split_and!; [exact E2| | |].
  - intros y [->|Hy]%elem_of_cons.
    + unfold answered. destruct (Hrest (srmRoomID x) Hx) as [-> ->]. destruct Hj as [-> ->]. exists j, pos. split_and!; [done..|].
      intros h' sees' l' sl' min' rs' e' Hw' Ha'. destruct (asked_page s r x h' sees' l' sl' min' rs' e' Hw' Ha') as (j' & pos' & users' & s1' & E1' & Hs & _).
      rewrite E1 in E1'. by injection E1' as <- <- _ _.
    + destruct (Hans y Hy) as (j' & pos' & Ej & Ep & Hs). exists j', pos'. split_and!; [done..|]. intros h' sees' l' sl' min' rs' e' Hw' Ha'. eapply Hs; [|exact Ha'].
      apply Hkeep; [|done]. intros Ey. apply Hx. rewrite <- Ey. apply list_elem_of_fmap. by exists y.
  - intros room [Hne Hn]%not_elem_of_cons. destruct (Hrest room Hn) as [-> ->]. split; by apply lookup_insert_ne.
  - intros user k Hk. by apply Hrec', Hrec.
Qed.

(** ** The promise *)

(** A request that the server can answer at once: for rooms that the user has joined,
    each in memory and known up to the position of the client; the receipts that a
    person gets are in memory too. *)
Record Answerable s r : Prop := {
  an_invites : InviteRooms r = [];
  an_leaves : LeaveRooms r = [];
  an_rooms : NoDup (map srmRoomID (JoinRooms r));
  an_memory : forall x, x ∈ JoinRooms r -> inMemory s r x;
  an_known : forall x, x ∈ JoinRooms r -> is_Some (roomLatest (roomHistory s) !! srmRoomID x) /\ srmStart x <= GetRoomLastOffset (roomHistory s) (srmRoomID x);
  an_receipts : forall room, room ∈ rqJoinedRooms r -> warmRoom (receipts s) (rqUserID r) room;
}.

Lemma poll_warm s0 checks start turns : yields s0 checks true -> yields s0 (pollReady checks start turns) true.
Proof using. intros Hc s Hs. destruct (Hc s Hs) as (s' & E & Hs'). exists s'. split; [|done]. destruct turns; cbn [pollReady]; unfold mbind, ST_bind; by rewrite E. Qed.

Lemma checks_warm s0 {A} (f : A -> list (ST (SyncServer D) bool)) l : (forall x, x ∈ l -> Forall (fun m => yields s0 m true) (f x)) ->
  Forall (fun m => yields s0 m true) (flat_map f l).
Proof using. induction l as [|x l IH]; intros Hf; cbn; [constructor|]. apply Forall_app. split; [apply Hf; by left|apply IH; intros y Hy; apply Hf; by right]. Qed.

Lemma loading_warm s r start turns : Answerable s r ->
  yields s (if rqIsFullSync r then fullSyncLoading r start turns else incrementSyncLoading r start turns) true.
Proof using.
  intros [Ei El Hnd Hmem Hlat Hrec]. assert (Hroom : forall x, x ∈ JoinRooms r -> yields s (startRoom (srmRoomID x)) () /\ Forall (fun m => yields s m true) (roomChecks (srmRoomID x))).
  { intros x Hx. destruct (Hmem x Hx) as (h & sees & l & sl & min & rs & e & Hw & _). split; [by eapply startRoom_warm|by eapply roomChecks_warm]. }
  assert (Hrr : forall x, x ∈ JoinRooms r -> forall s1, Held s s1 -> srmRoomID x ∈ ready (Receipts.rsGate (receipts s1)) /\ Receipts.receiptKey (srmRoomID x) (rqUserID r) ∈ ready (Receipts.urGate (receipts s1))).
  { intros x Hx s1 Hs. destruct (Hmem x Hx) as (h & sees & l & sl & min & rs & e & Hw & _). apply (he_warm _ _ Hs) in Hw. split; apply Hw. }
  assert (Hrj : forall room, room ∈ rqJoinedRooms r -> forall s1, Held s s1 -> room ∈ ready (Receipts.rsGate (receipts s1)) /\ Receipts.receiptKey room (rqUserID r) ∈ ready (Receipts.urGate (receipts s1))).
  { intros room Hin s1 Hs. pose proof (he_receipts _ _ Hs (rqUserID r) (rqJoinedRooms r) Hrec room Hin) as (? & ? & _). done. }
  assert (Hlatest : forall rooms, (forall x, x ∈ rooms -> is_Some (roomLatest (roomHistory s) !! srmRoomID x)) -> yields s (loadLatest rooms) ()).
  { intros rooms Hin s1 Hs. exists s1. split; [|done]. unfold loadLatest, mbind, ST_bind, RoomQuery.attempt, onRoomHistory, LoadRoomLatest.
    rewrite (filter_all_false _ (map srmRoomID rooms)); cbn; [by rewrite server_id|]. apply Forall_fmap, Forall_forall. intros x Hx. cbn.
    rewrite (he_latest _ _ Hs). by destruct (Hin x Hx) as [? ->]. }
  destruct (rqIsFullSync r).
  - unfold fullSyncLoading, fullChecks. rewrite Ei. eapply yields_bind; [apply receiptLatest_warm|]. eapply yields_bind.
    { apply each_warm. intros x Hx. eapply yields_bind; [by apply Hroom|]. apply startReceipts_warm. by apply Hrr. }
    eapply yields_bind; [apply yields_ret|]. apply poll_warm, allReady_warm. cbn [map]. rewrite app_nil_r. apply checks_warm.
    intros x Hx. apply Forall_app. split; [by apply Hroom|by apply receiptChecks_warm, Hrr].
  - unfold incrementSyncLoading. rewrite Ei, El. do 3 (eapply yields_bind; [apply Hlatest; try done; by intros x Hx; try apply Hlat; try apply elem_of_nil in Hx|]).
    eapply yields_bind; [destruct (IsHuman r); [apply receiptLatest_warm|apply yields_ret]|].
    eapply yields_bind; [apply known_warm; intros x Hx; split; [by apply Hroom|by apply Hlat]|]. cbn [negb].
    eapply yields_bind.
    { instantiate (1 := ()). destruct (IsHuman r); [|apply yields_ret]. apply each_warm. intros room Hin s1 Hs. unfold startNewReceipts, mbind at 1, ST_bind at 1. cbn [getServer].
      destruct (_ <? _); [by apply startReceipts_warm; [apply Hrj|]|by exists s1]. }
    eapply yields_bind; [apply yields_ret|]. cbn [negb]. eapply yields_bind; [apply yields_ret|]. cbn [negb]. apply poll_warm. intros s1 Hs. unfold incrementChecks. rewrite Ei, El. cbn [map flat_map]. rewrite app_nil_r.
    apply allReady_warm; [|done]. apply checks_warm. intros x Hx. apply Forall_app. split; [destruct (_ <? _); [by apply Hroom|constructor]|].
    destruct (_ && _); [|constructor]. by apply receiptChecks_warm, Hrr.
Qed.


End Requests.

(** An answer that leaves nothing out still does when more events have arrived. *)
Lemma answer_stays room sees h new r a x j pos : AnswersRoom room sees h r a -> ascends (h ++ new) -> Forall (fun st => 0 < seOffset st) new ->
  x ∈ JoinRooms r -> SyncRuns.isRoom room x -> Join a !! room = Some j -> MaxRoomOffset a !! room = Some pos ->
  exists from, from <= srmStart x /\ SyncRuns.PageOf sees (h ++ new) from pos (jrTimeline j).
Proof using.
  clear. intros [Hask _] Ha Hpos Hx Hr Hj Hp. destruct (Hask x Hx Hr) as (j' & pos' & from & Ej & Ep & Hf & _ & Hb & old & late & E & Hrest).
  rewrite Hj in Ej. injection Ej as <-. rewrite Hp in Ep. injection Ep as <-. exists from. split; [done|]. exists old, late. split; [|done].
  rewrite List.filter_app, E. rewrite (filter_all_false _ new); [by rewrite app_nil_r|]. apply Forall_forall. intros st Hst. rewrite Forall_forall in Hpos. specialize (Hpos st Hst).
  assert (Hlate : pos < seOffset st).
  { destruct Hb as [?|(w & Hw & Hle)]; [lia|]. apply list_elem_of_split in Hw as (l1 & l2 & ->). rewrite <- app_assoc in Ha. cbn [app] in Ha.
    apply SyncBuildFacts.ascends_suffix, StronglySorted_inv in Ha as [_ Hall]. apply Forall_app in Hall as [_ Hall]. rewrite Forall_forall in Hall. specialize (Hall st Hst). lia. }
  apply andb_false_iff. left. apply andb_false_iff. right. by apply Z.leb_gt.
Qed.

(** ** Tokens *)

Section Tokens.
  Import UserRooms SyncMng.
  Context `{ContentJson} `{GoRange} `{GoOrder} `{SyncFilters} {P R D : Type} `{UserDb P} `{SyncRuns.LawfulRedis R} `{HistoryDb D} `{StateDb D} `{ReceiptConsumer.ReceiptJson}.
  Context (visibilityTime nowTs : Z).

(** When a request reaches a server, and what its clock and its other goroutines do while
    the server polls. *)
Context (meanwhile : Z -> SyncServerRequest -> SyncServer D -> Z * list (Z * (SyncServer D -> SyncServer D))).

(** The instances of the sync server. *)
Definition Hosts : Type := Z -> SyncServer D.

(** The offsets in a message are [int64]. *)
Definition wire (a : SyncServerResponse) : SyncServerResponse :=
  mkResponse (Join a) (Invite a) (Leave a) (wrap64 <$> MaxRoomOffset a) (AllLoaded a) (NewUsers a) (rpMaxReceiptOffset a).

Definition atHost (requestType : string) (i : Z) (r : SyncServerRequest) (e : Hosts) : res (option Published) * Hosts :=
  let '(p, s) := processSync visibilityTime nowTs requestType r (meanwhile i r (e i)).1 (meanwhile i r (e i)).2 (e i) in
  (p, fun j => if decide (j = i) then s else e j).

(** A call: when nothing is published, or the server panics, the caller gives up. *)
#[local] Instance hosts : Servers Hosts := {
  askLoad i r e := let '(p, e') := atHost "load" i r e in (match p with Ok (Some (Ready b)) => Ok b | _ => Err (ErrMsg "timeout") end, e');
  askSync i r e := let '(p, e') := atHost "sync" i r e in (match p with Ok (Some (Reply a)) => Ok (wire a) | _ => Err (ErrMsg "timeout") end, e');
}.

#[local] Instance hosts_sane (room : string) : SyncRuns.SaneServers room (base := hosts).
Proof using.
  split.
  - intros i r e. cbn. destruct (atHost "load" i r e) as [p e']. by repeat case_match.
  - intros i r e. cbn. destruct (atHost "sync" i r e) as [p e']. by repeat case_match.
  - intros i r e resp. cbn. unfold atHost. destruct (processSync _ _ "sync" r _ _ (e i)) as [p s] eqn:E. destruct p as [[[|a]|]| | |]; cbn [fst]; try done.
    intros [= <-]. pose proof (sync_formed _ _ _ _ _ _ _ _ E a eq_refl) as [Hp Hr Ho]. split; cbn.
    + intros pos. rewrite lookup_fmap. intros (z & _ & ->)%fmap_Some. pose proof (wrap64_in64 z) as Hz. unfold in64 in Hz. unfold SyncMngFacts.int64, RoomMessages.minInt64, SyncBuild.maxInt64. lia.
    + intros pos Hno. rewrite lookup_fmap. intros (z & Hz & _)%fmap_Some. specialize (Hp room ltac:(by eexists)).
      apply list_elem_of_fmap in Hp as (x & Ex & [Hx|Hx]%elem_of_app); [|by destruct (Hno x Hx)].
      destruct (Hr room) as [j Hj]; [apply list_elem_of_fmap; by exists x|]. by exists x, j.
    + intros Hno Hj. apply Ho; [|done]. intros (x & Ex & Hx)%list_elem_of_fmap. apply (Hno x); [apply elem_of_app; by left|done].
Qed.

Context (cfg : SyncCfg) (dev : Device) (room : string).
#[local] Abbreviation DeviceWorld := (SyncRuns.World (P := P) (R := R) (SV := Hosts)).

(** C6: The tokens of a device are true.  A person's device syncs any number of times,
    with any tokens that can be parsed, while events arrive, the sync servers change and
    fail in any way, and Redis fails and drops tokens; the offset of the join event of
    the user is known and positive, the user stays in the room, nobody types and the
    message filter is off.  Then every step ends.  When a token can be loaded, for the
    one the device sends or in its place, every offset in it was reached: from the start,
    by answers of [processSync] to requests for the room, each from the offset that the
    one before led to, and each with its timeline in a reply.  So when no answer leaves
    out a visible event between its two offsets, as [server_keeps_promise] shows of rooms
    in memory, every visible event up to the offset was in some reply, or is older than
    a timeline that is marked as cut. *)
Theorem tokens_true acts (w : DeviceWorld) : SyncServerTotal cfg <> 0 -> dIsHuman dev = true -> useMessageFilter cfg = false ->
  SyncRuns.Start dev room w -> SyncRuns.valid cfg dev room acts w ->
  exists w', SyncRuns.run cfg dev acts w = Ok w' /\
    forall utl cur tok r p, LoadToken (cacheCfg cfg) (dUserID dev) (dID dev) utl (redis (SyncRuns.mng w')) = (Ok (cur, Some tok), r) -> tok !! room = Some p ->
      SyncRuns.Reached dev room (SyncRuns.trace (SyncRuns.mng w')) (SyncRuns.sent w') p /\
      forall h sees, ascends h -> Forall (fun st => 0 < seOffset st) h -> SyncRuns.TrueAnswers dev room sees h (SyncRuns.trace (SyncRuns.mng w')) ->
        forall st, st ∈ h -> sees st = true -> seOffset st <= p -> SyncRuns.covered room (SyncRuns.sent w') st.
Proof using.
  intros Ht Hh Hf Hs Hv. destruct (SyncRuns.tokens_reached cfg dev room Ht Hh Hf acts w Hs Hv) as (w' & E & Hr). exists w'. split; [done|].
  intros utl cur tok r p Hl Hp. specialize (Hr _ _ _ _ _ Hl Hp). split; [done|]. intros h sees Ha Hpos Htrue. by eapply SyncRuns.reached_covered.
Qed.

End Tokens.

(** ** A room with three events *)

#[local] Existing Instance SyncRoomStateFacts.plainJson.
#[local] Existing Instance ReceiptDelivery.binaryJson.
#[local] Existing Instance SyncSessions.roomDb.
#[local] Existing Instance SyncSessions.stateDb.
Import SyncSessions.

Lemma roomDb_answers : DbAnswers (D := RoomDb).
Proof. by split. Qed.

Lemma restarted_steady d : Steady (restarted d).
Proof. split; [split; [apply NewTimeLineRepo_inv; lia|done|done]|apply NewTimeLineRepo_inv; lia..]. Qed.

Definition idle : list (Z * (SyncServer RoomDb -> SyncServer RoomDb)) := [(1, fun s => s); (36, fun s => s)].

Lemma load_answered_witness : exists ready s', processSync 0 0 "load" (askRoom 20) 0 idle (restarted start3) = (Ok (Some (Ready ready)), s') /\ Steady s'.
Proof.
  apply (load_answered 0 0 (restarted start3) (askRoom 20) 0 idle).
  - apply roomDb_answers.
  - apply restarted_steady.
  - intros t s Ht Hs. unfold idle in Ht. apply elem_of_cons in Ht as [->|Ht]; [exact Hs|]. apply list_elem_of_singleton in Ht as ->. exact Hs.
  - unfold idle. apply Exists_cons_tl, Exists_cons_hd. cbn. lia.
Defined.

(** The goroutines that were started for the room run. *)
Definition runLoads (s : SyncServer RoomDb) : SyncServer RoomDb :=
  ((_ ← onStates (@runSpawned _ state_loads 1); _ ← onStates (@runSpawned _ stream_loads 1); _ ← onRoomHistory (@runSpawned _ history_loads 1);
    _ ← onReceipts (@runSpawned _ Receipts.stream_loads 1); onReceipts (@runSpawned _ (Receipts.user_loads "@u:a" "!r:a") 1)) s).2.

Definition askFull : SyncServerRequest := mkRequest [] [mkSyncRoom "!r:a" (-1) (-1)] [] ["!r:a"] "@u:a" 0 0 true 10 true.

(** The server has the room as soon as the goroutines have run; when they do not run a
    request to load is answered with no, and a request to sync is not answered. *)
Example ready_in_time :
  (processSync 0 0 "load" askFull 0 [(1, runLoads); (2, fun s => s)] (restarted start3)).1 = Ok (Some (Ready true)) /\
  (processSync 0 0 "load" askFull 0 idle (restarted start3)).1 = Ok (Some (Ready false)) /\
  (processSync 0 0 "sync" askFull 0 idle (restarted start3)).1 = Ok None.
Proof. split_and!; by vm_compute. Qed.

(** The server after a first request for the room. *)
Definition loaded3 : SyncServer RoomDb := (loadRoom "@u:a" "!r:a" (restarted start3)).2.

Definition askUpTo3 : SyncServerRequest := mkRequest [] [mkSyncRoom "!r:a" 0 3] [] ["!r:a"] "@u:a" 0 0 true 20 false.

Lemma loaded3_warm : WarmRoom loaded3 "!r:a" "@u:a" (newest 128 (map at_ start3)) (map freshState (take 2 start3)) 1 roomRs.
Proof.
  destruct (cold_loadable _ _ _ _ _ _ _ _ start3_cold) as (s1 & E & Hw). unfold loaded3. change (rqUserID (askRoom 20)) with "@u:a" in *. by rewrite E.
Qed.

Lemma asked3 : Asked 0 0 askUpTo3 (mkSyncRoom "!r:a" 0 3) (map at_ start3) (shown 0 0 "@u:a" roomRs) (newest 128 (map at_ start3)) (map freshState (take 2 start3)) roomRs (mkStreamEvent joinEv 2).
Proof.
  change (newest 128 (map at_ start3)) with (map at_ start3). split.
  - exists []. split; [done|constructor].
  - apply (History_prefix _ next2), history5.
  - repeat constructor; intros ?; done.
  - repeat constructor; intros ?; done.
  - by vm_compute.
  - intros st Hin. apply stays5, elem_of_app. by left.
  - done.
  - repeat constructor; by vm_compute.
  - apply Forall_forall. intros st [->|Hin]%elem_of_cons; [|apply list_elem_of_singleton in Hin as ->]; (split; [by vm_compute|right]).
    + exists (at_ (createEv, 1)). split; [by left|cbn; lia].
    + exists (at_ (joinEv, 2)). split; [right; by left|cbn; lia].
  - cbn. lia.
Qed.

Lemma loaded3_answerable : Answerable 0 0 loaded3 askUpTo3.
Proof.
  split.
  - reflexivity.
  - reflexivity.
  - apply NoDup_singleton.
  - intros x ->%list_elem_of_singleton. eexists _, _, _, _, _, _, _. split; [apply loaded3_warm|apply asked3].
  - intros x ->%list_elem_of_singleton. split; [by eexists; vm_compute|]. apply Z.leb_le. by vm_compute.
  - intros room ->%list_elem_of_singleton. split; [exact (w_rcpt _ _ _ _ _ _ _ loaded3_warm)|split; [exact (w_user _ _ _ _ _ _ _ loaded3_warm)|]]. intros c Hc. exfalso.
    assert (Hn : Receipts.container (receipts loaded3) !! "!r:a" = None) by (by vm_compute). pose proof (eq_trans (eq_sym Hn) Hc) as E. discriminate E.
Qed.


(** A device of the user syncs with this server. *)
Section FirstSync.
Import UserRooms SyncMng SyncRuns.
#[local] Existing Instance SyncRuns.memRedis.
#[local] Existing Instance SyncRuns.memRedis_lawful.
#[local] Existing Instance SyncRuns.noUserDb.
#[local] Existing Instance SyncRuns.noFilters.
#[local] Existing Instance SyncRuns.anyOrder.

Definition atOnce (i : Z) (r : SyncServerRequest) (e : SyncServer RoomDb) : Z * list (Z * (SyncServer RoomDb -> SyncServer RoomDb)) := (0, []).

#[local] Instance theHosts : Servers (Hosts (D := RoomDb)) := hosts 0 0 atOnce.

Definition firstWorld : World (P := unit) (R := gmap string (gmap string string)) (SV := Hosts (D := RoomDb)) :=
  mkWorld (mkManager (mkUserTimeLine () {["@u:a"]} {["@u:a" := {[theRoom := Int64Offset 2]}]} {["@u:a"]} {["@u:a" := ∅]} {["@u:a"]} {["@u:a" := ∅]} {["@u:a"]} ∅ ∅ ∅ {[theRoom := 3]})
    ∅ (fun _ => loaded3, []) [11; 12; 13]) None [].

(** It syncs twice; between the syncs nothing happens. *)
Definition twoSyncs : list (Action (R := gmap string (gmap string string)) (SV := Hosts (D := RoomDb))) :=
  [Begin (since "") 0 (-1) true; Wait 0 quietTurn; Finish 0 (fun m => m);
   Begin (since "utl:11_acc:1_rec:0_pre:1_kc:1_std:1") 0 0 true; Wait 0 quietTurn; Finish 1 (fun m => m)].

Lemma firstWorld_start : Start theDevice theRoom firstWorld.
Proof.
  split; cbn.
  - exists {[theRoom := 2]}, ∅, ∅, 2. split; [|done]. split; [split_and!; set_solver| |done|done]. cbn. rewrite lookup_singleton_eq. done.
  - set_solver.
  - done.
  - done.
Qed.

Lemma twoSyncs_valid : valid config theDevice theRoom twoSyncs firstWorld.
Proof.
  assert (Hin : forall str, isOk (initMarks str) = true -> exists oms, initMarks str = Ok oms) by (intros str; destruct (initMarks str) as [o| | |]; [by exists o|done..]).
  split; [by apply Hin; vm_compute|]. intros w1 _. split; [done|]. intros w2 _. split; [done|]. intros w3 _.
  split; [by apply Hin; vm_compute|]. intros w4 _. split; [done|]. intros w5 _. split; [done|]. by intros w6 _.
Qed.

(** The first sync sends the events up to 3, and the token says so. *)
Example two_syncs_run :
  (match run config theDevice twoSyncs firstWorld with
   | Ok w => (map (fun r => (fun j => map ceType (Events (jrTimeline j))) <$> (default ∅ (rJoin r) !! theRoom)) (sent w),
              (LoadToken (cacheCfg config) "@u:a" "d" 11 (redis (mng w))).1)
   | _ => ([], Panic)
   end) = ([Some ["m.room.create"; "m.room.member"; "m.room.message"]; None], Ok (11, Some {[theRoom := 3]})).
Proof. by vm_compute. Qed.

Lemma tokens_true_witness : exists w', run config theDevice twoSyncs firstWorld = Ok w' /\
  forall utl cur tok r p, LoadToken (cacheCfg config) "@u:a" "d" utl (redis (mng w')) = (Ok (cur, Some tok), r) -> tok !! theRoom = Some p ->
    Reached theDevice theRoom (trace (mng w')) (sent w') p /\
    forall h sees, ascends h -> Forall (fun st => 0 < seOffset st) h -> TrueAnswers theDevice theRoom sees h (trace (mng w')) ->
      forall st, st ∈ h -> sees st = true -> seOffset st <= p -> covered theRoom (sent w') st.
Proof.
  exact (tokens_true 0 0 atOnce config theDevice theRoom twoSyncs firstWorld ltac:(done) eq_refl eq_refl firstWorld_start twoSyncs_valid).
Defined.

End FirstSync.

End SyncServers.
